(* ===== verification/_CoqProject ===== *)
-Q . S2P
Prelude.v
Wire.v
WireExact.v
Bloom.v
Traffic.v
Crypto.v
Pathfinder.v
Tree.v
Router.v
RouterFacts.v
Actor.v
RouterInv.v
RouterTree.v
Peers.v
Signed.v
Attach.v
Liveness.v
Address.v
Version.v
Firewall.v
Session.v
SessionFacts.v
SessionPair.v
Ckr.v
CkrFacts.v
CkrRoutes.v
Rwc.v
RwcFacts.v
RwcTasks.v
Conn.v
ConnFacts.v
Links.v
LinksFacts.v
LinksConn.v
Salsa.v
SalsaFacts.v
Writer.v
WriterFacts.v
Multicast.v
MulticastFacts.v
Proto.v
Tun.v
TunFacts.v
Text.v
Config.v
ConfigFacts.v
Cli.v
CliFacts.v
CkrText.v
CkrTextFacts.v
CkrSystem.v
CkrSystemFacts.v
Ws.v
WsFacts.v
Transport.v
TransportFacts.v
PeerLife.v
Queries.v
QueriesFacts.v
Admin.v
AdminFacts.v
AdminNode.v
Ctl.v
CtlFacts.v
CtlAdmin.v
Startup.v
StartupFacts.v
