(* ===== verification/Prelude.v ===== *)
(** * Yggdrasil-ng: a verification library

    Yggdrasil-ng is an encrypted IPv6 overlay network in three crates.
    [crates/ironwood] is the routing library: nodes agree on a spanning tree
    by signed announcements, derive coordinates from it, find each other by
    lookups guided by Bloom filters, and forward packets greedily by tree
    distance. [crates/yggdrasil] is the daemon: addresses derived from keys,
    the handshake of a link, the firewall and the gateway to the TUN device.
    [crates/salsa20-simd] is a stream cipher.

    ** How the parts interact

    A link's reader task turns bytes into checked [RouterMsg]s; the router
    actor handles them one at a time and returns [RouterAction]s; the dispatcher
    encodes these into frames for the writers of other links, or hands packets
    to the local delivery queue. A timer makes the actor run maintenance. Above
    the router, an encrypted connection seals packets in sessions between
    nodes; the gateway checks addresses, finds the key for a destination and
    exchanges packets with the TUN device, through the firewall and the
    crypto-key routing table. An administration socket answers questions about
    all of them and changes the configured peers; a control program asks it.

    ** Files

    - [Prelude]: [result] and [outcome] (a computation that may panic) with
      their binds, machine integers, record update, big-endian bytes, iteration
      over hash maps in an unknown order (class [HashOrder]), byte order, time.
    - [Wire] (wire.rs, types.rs): varints, paths, the seven control messages,
      the traffic packet, the Bloom filter codec and frames; [WireExact]: which bytes
      each decoder accepts.
    - [Bloom] (bloom.rs): filters, the filters kept per peer, their maintenance
      and the targets of a multicast lookup.
    - [Traffic] (traffic.rs): the packet queue (deficit round robin, byte caps,
      CoDel) and the delivery queue shared by the router and the readers.
    - [Crypto] (crypto.rs): signatures over the class [Dalek]; [DalekLaws] are
      the laws of the ed25519 library the code relies on.
    - [Pathfinder] (pathfinder.rs): cached paths, pending lookups, throttles.
    - [Tree] (router.rs): announcements and their CRDT order, walks to the
      root, coordinates and the tree metric.
    - [Router] (router.rs): the state of the router and all its handlers.
    - [Actor] (core.rs): the messages of the router task and its schedule.
    - [RouterFacts], [RouterInv], [RouterTree]: what the router guarantees
      (greedy lookup and forwarding; the invariant of its tables; parent
      selection and dissemination of announcements).
    - [Peers] (peers.rs): the table of connections and ports, frames of
      actions, the reader task, the dispatch of actions.
    - [Signed]: reader and router composed: what holds against arbitrary bytes
      from peers. [Attach]: what maintenance does from every state reached so.
    - [Liveness] (peer_timeout.rs, the polling loop of peers.rs): adaptive
      time-outs.
    - [Address] (address.rs), [Version] (version.rs), [Firewall] (firewall.rs):
      addresses of keys, the handshake, the packet filter.
    - [Session] (encrypted/crypto.rs, encrypted/session.rs): sealed handshakes,
      the key ratchet and nonces of a session, the manager with its buffers,
      over the class [CryptoBox]; [SessionFacts] (codec, nonces, replays; the
      cipher's laws are [BoxLaws]) and [SessionPair] (two sides of a session,
      establishment).
    - [Ckr] (ckr.rs): arithmetic on prefixes, expansion of includes and excludes,
      route tables, over the class [IpNetOps]; [CkrFacts] and [CkrRoutes].
    - [Rwc] (ipv6rwc.rs, session frames of core.rs): the gateway, its key store
      and buffers; [RwcFacts] (checksum, invariant, both directions) and
      [RwcTasks] (interleavings of the tasks that use it).
    - [Conn] (core.rs, encrypted/mod.rs, signed.rs): the packet connections,
      their size checks and the keepalive timer; [ConnFacts].
    - [Links] (links.rs): the ban list, the registry of links, admission of a
      connection, back-off, the peer table and its options; [LinksFacts] and
      [LinksConn] (which composes it with [Version]).
    - [Salsa] (salsa20-simd): the scalar core, the vector back ends and their
      selection; [SalsaFacts].
    - [Writer] (peers.rs, core.rs): the writer task of a link step by step, with
      its channel, the packet queue and the tasks that feed them; [WriterFacts]
      (which composes it with the reader of [Peers]).
    - [Multicast] (multicast.rs): beacons, discovery of interfaces, listeners;
      [MulticastFacts] (which composes it with [LinksConn]).
    - [Proto] (proto.rs, core.rs): queries between nodes and their answers.
    - [Tun] (tun.rs): the MTU search and the loops between the device and the
      gateway; [TunFacts].
    - [Text]: strings as lists of code points, with the operations of the Rust
      library the next files use.
    - [Config] (config.rs, ironwood's config.rs, core.rs): the configuration, its
      include lines, merging with the template, effective settings, the settings
      of the router; [ConfigFacts].
    - [Cli] (main.rs): peers, prefixes and ports from the command line and the
      program's name, configuration paths, routing rule and subnet route;
      [CliFacts].
    - [CkrText] (ckr.rs): the text of route entries, route lists in files and
      downloads, exclusions of peers, the table built from all this;
      [CkrTextFacts]. [CkrSystem] (ckr.rs): the system's routes, the wait for a
      first peer, the rounds of downloads and the exclusions; [CkrSystemFacts].
    - [Ws] (transport/ws.rs): a WebSocket as a byte stream and its
      handshake; [WsFacts]. [Transport] (links.rs, transport/): dialling and
      listening over each transport, the permits of the QUIC endpoint;
      [TransportFacts].
    - [PeerLife] (core.rs, peers.rs): a link from its entry in the table through
      its announcement to its end, beside the router actor, its bounded channel
      and the sends that wait for room in it.
    - [Queries] (core.rs of both crates, peer_timeout.rs, links.rs): the queries
      the router actor answers and the reports built on them; [QueriesFacts].
    - [Admin] (admin.rs): the administration socket over [AdminCore], what the
      node offers it; [AdminFacts]; [AdminNode], the instance by [Queries].
    - [Ctl] (ctl.rs): the control program, its tables and numbers; [CtlFacts];
      [CtlAdmin], the program at the socket of [Admin].
    - [Startup] (main.rs, config.rs): the daemon from its command line through the
      order of start-up to its end, and the routes of the host on Linux;
      [StartupFacts].

    ** What the theorems show

    - Wire: messages round trip; every decoder accepts exactly the encodings of
      its messages (and the padded varints the code lets pass) and nothing else;
      the single-pass frame encoder equals the two-step one.
    - Links: a link carries the router's actions unchanged; the reader passes on
      only messages that are decoded, attributed and checked; ports identify
      peers; a silent peer is not given up early, time-outs stay within bounds.
      The writer, under every interleaving and whatever the transport does,
      writes whole frames in order, leaves nothing behind when it waits and always
      gets there; composed with the reader, the messages of one router reach the
      other. The links the router knows are those of the table of connections that
      were announced to it and whose end it was not told, under every interleaving
      of connecting, ending, dropped futures and sends delayed by a full channel; a
      future dropped too early leaves its link for ever. A WebSocket carries the bytes of a stream
      unchanged.
    - Tree: announcements converge whatever their order; walks to the root are
      right also for loops and gaps; the selected parent never closes a loop and
      leads to the least root on offer; two maintenance passes attach a node
      in every state that messages can lead to.
    - Forwarding: lookup picks a strictly closer peer or none; a packet's hops
      are bounded whatever the nodes believe; in a consistent tree a closer
      neighbour exists; the mutually recursive handlers terminate.
    - Router: no message sequence makes the router panic, its tables stay
      consistent, and all announcements it holds carry valid signatures.
    - Queues: per-flow order, byte caps, totality of eviction, round robin and
      CoDel; counter exactness of the delivery queue.
    - Sessions: handshakes open exactly for their recipient and only when signed
      by the sender (and group); no nonce is used twice under a key and no
      message is accepted twice within a session; two sides that exchange
      messages agree on keys and deliver in order; a first write establishes a
      session and delivers its packet. Two theorems show where this ends: a
      simultaneous open, and a handshake that resets a nonce.
    - Connections: a message within the MTU passes every lower size check; the
      keepalive list and timer are exact; signed packets are authenticated.
    - Daemon: an address or subnet finds its key; a link is admitted exactly when
      its handshake is authentic and its key passes every check, bans follow
      exactly from repeated failures, the registry of links stays within its
      limits and never uses an identifier twice, and reconnection always goes on; the firewall admits exactly what its rules allow and lets
      return traffic through; the gateway delivers only packets whose source
      belongs to the sender and sends packets only to the owner of their
      destination, under every interleaving, and two gateways agree; prefixes of
      includes and excludes are covered exactly; the table is built from a
      configuration exactly when its entries can be read, and its lookups are
      longest-prefix matches; no route leads the address of a peer into the tunnel; a route list
      is read once and a downloaded list has one file; the system's routes are
      taken back exactly, and a run of the node removes its routes before its
      interface goes, leaves those of the host as they were and closes what it
      opened; the address that is shown is the one
      that is used.
    - Administration: a forced lookup reaches exactly the peers whose filter may
      hold the key, and none when the key was asked for shortly before; reports list every link
      and node once; a connection answers each of its lines, in order, as the
      actions would one by one, and refuses what is too long; the documented
      actions are the ones that exist; tables fit the terminal; the control
      program shows what the node answers.
    - Discovery and queries: the beacon codec is exact, beacons keep their
      schedule, a datagram makes the node dial only under the conditions of the
      interface it came from, and a beacon leads to a link; a query between nodes
      gets the answer of the node it asks, once, if it comes before the time-out.
    - TUN: the MTU search ends with the highest value the kernel accepts, slots
      fit every segment, the loops survive errors and pass on every packet.
    - Configuration: includes are expanded completely and end, merging keeps the
      user's values, settings stay in range, the list of allowed keys is exact
      when it holds a key; names, ports and peer lists are read back as
      documented, with the exception of several quoted peers.
    - Cipher: every back end produces the key stream of the scalar core.

    ** Conventions, bounds and fuel

    Unsigned integers are [Z] with their wrap-around or saturation written out
    where the source relies on it; [checked] arithmetic panics. Durations and
    instants are nanoseconds in [Z], unbounded: the panic of [Duration]
    arithmetic beyond 2^64 seconds is not modelled. Maps are [gmap]; where the code iterates
    over a hash map the order is the class [HashOrder], over which theorems
    quantify. Loops that are not structural carry fuel computed from the state
    (queue contents, number of cached packets, length of the stream, size of a
    table, twice the width of an address, the files not yet visited) and the theorems about them show that
    this fuel suffices. Plain arithmetic whose overflow depends on the build
    takes the build's setting as an argument ([Ckr], [Links], [Salsa]). Code that is not in the
    repository (ed25519, the box cipher, blake2b, murmur3, ipnet, random
    numbers, URLs, globs, digests, the file system and programs the daemon runs) is
    a parameter or an input; hypotheses about it are named and witnessed. Code
    under a lock is one step; where a function gives way between two locks and a
    theorem depends on it, the function is split there ([Rwc], the delivery
    queue of [Traffic], [Links], [PeerLife]) and its parts interleave with the
    other tasks.

    ** Not modelled

    Sockets, TLS, the QUIC endpoints and WebSocket framing, the creation of the
    TUN device and its platform calls, the Windows service wrapper, task spawning
    and cancellation, logging, TOML and JSON text:
    I/O or calls into libraries, whose effect on the parts above enters as an
    input or a parameter. The mocks and helpers that only tests use are left
    out. *)

From stdpp Require Export base gmap list list_numbers sorting fin_maps fin_sets.
From Stdlib Require Export ZArith Lia.
From stdpp Require Import options.

#[export] Set Default Proof Using "Type".
#[export] Set Warnings "-clear-no-such-hyp".
Open Scope Z_scope.

(** ** Results and panics *)

(** Rust's [Result<A, E>]. *)
Inductive result (E A : Type) : Type :=
| Ok (a : A)
| Err (e : E).
Arguments Ok {E A} a.
Arguments Err {E A} e.

#[export] Instance result_ret E : MRet (result E) := fun A a => Ok a.
#[export] Instance result_bind E : MBind (result E) := fun A B f m =>
  match m with Ok a => f a | Err e => Err e end.

Lemma bind_ok {E A B} (a : A) (f : A -> result E B) : (Ok a ≫= f) = f a.
Proof. done. Qed.

(** [Option::ok_or]. *)
Definition ok_or {E A} (e : E) (o : option A) : result E A :=
  match o with Some a => Ok a | None => Err e end.

(** A computation that may panic (index out of bounds, arithmetic overflow of
    a build with overflow checks, [unwrap] of [None]). *)
Inductive outcome (A : Type) : Type :=
| Ret (a : A)
| Panic.
Arguments Ret {A} a.
Arguments Panic {A}.

#[export] Instance outcome_ret : MRet outcome := fun A a => Ret a.
#[export] Instance outcome_bind : MBind outcome := fun A B f m =>
  match m with Ret a => f a | Panic => Panic end.

Lemma ret_bind {A B} (a : A) (f : A -> outcome B) : (Ret a ≫= f) = f a.
Proof. done. Qed.

Definition unwrap {A} (o : option A) : outcome A :=
  match o with Some a => Ret a | None => Panic end.

(** ** Machine integers *)

Abbreviation byte := Z (only parsing).
Abbreviation bytes := (list Z) (only parsing).

Definition U8_MAX : Z := 2 ^ 8 - 1.
Definition U16_MAX : Z := 2 ^ 16 - 1.
Definition U32_MAX : Z := 2 ^ 32 - 1.
Definition U64_MAX : Z := 2 ^ 64 - 1.

Definition is_u8 (z : Z) : Prop := 0 <= z < 2 ^ 8.
Definition is_u16 (z : Z) : Prop := 0 <= z < 2 ^ 16.
Definition is_u32 (z : Z) : Prop := 0 <= z < 2 ^ 32.
Definition is_u64 (z : Z) : Prop := 0 <= z < 2 ^ 64.

#[export] Instance is_u8_dec z : Decision (is_u8 z).
Proof. unfold is_u8. apply _. Defined.
#[export] Instance is_u16_dec z : Decision (is_u16 z).
Proof. unfold is_u16. apply _. Defined.
#[export] Instance is_u32_dec z : Decision (is_u32 z).
Proof. unfold is_u32. apply _. Defined.
#[export] Instance is_u64_dec z : Decision (is_u64 z).
Proof. unfold is_u64. apply _. Defined.

(** The source writes [>] and [>=]. *)
#[export] Instance nat_gt_dec (a b : nat) : Decision (a > b)%nat.
Proof. unfold gt. apply _. Defined.
#[export] Instance nat_ge_dec (a b : nat) : Decision (a >= b)%nat.
Proof. unfold ge. apply _. Defined.
#[export] Instance Z_gt_dec (a b : Z) : Decision (a > b).
Proof. destruct (decide (b < a)); [left | right]; abstract lia. Defined.
#[export] Instance Z_ge_dec (a b : Z) : Decision (a >= b).
Proof. destruct (decide (b <= a)); [left | right]; abstract lia. Defined.

(** Wrap-around of release builds, and the explicit wrapping operations. *)
Definition wrap8 (z : Z) : Z := z mod 2 ^ 8.
Definition wrap16 (z : Z) : Z := z mod 2 ^ 16.
Definition wrap32 (z : Z) : Z := z mod 2 ^ 32.
Definition wrap64 (z : Z) : Z := z mod 2 ^ 64.

(** [u64::saturating_add], [saturating_sub], [saturating_mul]. *)
Definition sat_add64 (a b : Z) : Z := Z.min (a + b) U64_MAX.
Definition sat_sub64 (a b : Z) : Z := Z.max (a - b) 0.
Definition sat_mul64 (a b : Z) : Z := Z.min (a * b) U64_MAX.

(** Arithmetic with overflow checks: a panic when the result leaves [u64]. *)
Definition checked (z : Z) : outcome Z :=
  if decide (is_u64 z) then Ret z else Panic.

(** Plain [u64] arithmetic: a panic in a build with overflow checks, a
    wrap-around in one without. *)
Definition arith64 (overflow_checks : bool) (z : Z) : outcome Z :=
  if overflow_checks then checked z else Ret (wrap64 z).

Lemma wrap64_is_u64 z : is_u64 (wrap64 z).
Proof. unfold is_u64, wrap64. apply Z.mod_pos_bound. lia. Qed.

Lemma wrap64_id z : is_u64 z -> wrap64 z = z.
Proof. unfold is_u64, wrap64. intros. by apply Z.mod_small. Qed.

Lemma wrap64_add c d : wrap64 (wrap64 c + d) = wrap64 (c + d).
Proof. unfold wrap64. apply Z.add_mod_idemp_l. lia. Qed.

Lemma checked_ok z : is_u64 z -> checked z = Ret z.
Proof. intros. unfold checked. by rewrite decide_True. Qed.

Lemma arith64_ok overflow_checks z : is_u64 z -> arith64 overflow_checks z = Ret z.
Proof. intros Hz. unfold arith64. destruct overflow_checks; [by apply checked_ok|by rewrite wrap64_id]. Qed.

(** ** Record update

    [r <| f := v |>] is the struct update [Struct { f: v, ..r }]. The setter of
    a field is obtained from the eta-expansion of the record. *)
Class Settable (R : Type) := eta_of : R -> R.
Class Setter {R T} (proj : R -> T) := set_field : (T -> T) -> R -> R.
Arguments set_field {R T} proj {_} _ _.

Ltac solve_setter :=
  lazymatch goal with
  | |- @Setter ?R ?T ?proj =>
      let eta := constr:(_ : Settable R) in
      let eta := eval hnf in eta in
      let f := fresh "f" in
      let r := fresh "r" in
      unfold Setter; intros f r;
      let e := eval cbv beta in (eta r) in
      lazymatch eval pattern (proj r) in e with
      | ?g _ => let t := eval cbv beta in (g (f (proj r))) in exact t
      end
  end.
#[export] Hint Extern 1 (Setter _) => solve_setter : typeclass_instances.

Notation "r <| f := v |>" := (set_field f (fun _ => v) r)
  (at level 1, f at next level, v at level 200, left associativity,
   format "r  <| f  :=  v |>").
Notation "r <| f ::= g |>" := (set_field f g r)
  (at level 1, f at next level, g at level 200, left associativity,
   format "r  <| f  ::=  g |>").

(** ** Bit arithmetic *)

Lemma land_127 a : Z.land a 127 = a mod 128.
Proof. by apply (Z.land_ones a 7). Qed.

Lemma land_255 a : Z.land a 255 = a mod 256.
Proof. by apply (Z.land_ones a 8). Qed.

(** Disjoint bit ranges: [lor] is addition. *)
Lemma lor_shiftl_add a b n :
  0 <= n -> 0 <= a < 2 ^ n -> Z.lor a (Z.shiftl b n) = a + b * 2 ^ n.
Proof.
  intros Hn Ha.
  assert (Hland : Z.land a (Z.shiftl b n) = 0).
  { apply Z.bits_inj'. intros i Hi. rewrite Z.land_spec, Z.bits_0.
    destruct (decide (i < n)).
    - rewrite Z.shiftl_spec_low by lia. by rewrite andb_false_r.
    - rewrite <- (Z.mod_small a (2 ^ n)) by lia.
      by rewrite Z.mod_pow2_bits_high by lia. }
  rewrite <- Z.lxor_lor, <- Z.add_nocarry_lxor by done.
  by rewrite Z.shiftl_mul_pow2 by lia.
Qed.

Lemma lor_128_add a : 0 <= a < 128 -> Z.lor a 128 = a + 128.
Proof. intros. apply (lor_shiftl_add a 1 7); lia. Qed.

(** ** Big-endian integers: [to_be_bytes] and [from_be_bytes] *)

(** The [n] big-endian bytes of [v]. *)
Fixpoint to_be_bytes (n : nat) (v : Z) : bytes :=
  match n with
  | O => []
  | S n => to_be_bytes n (v / 2 ^ 8) ++ [v mod 2 ^ 8]
  end.

Definition from_be_bytes (bs : bytes) : Z := foldl (fun acc b => acc * 2 ^ 8 + b) 0 bs.

Lemma to_be_bytes_length n v : length (to_be_bytes n v) = n.
Proof. revert v. induction n; intros; simpl; [done|]. rewrite length_app, IHn. simpl. lia. Qed.

Lemma to_be_bytes_u8 n v : Forall is_u8 (to_be_bytes n v).
Proof.
  revert v. induction n; intros; simpl; [constructor|].
  apply Forall_app. split; [done|]. repeat constructor; apply Z.mod_pos_bound; lia.
Qed.

Lemma from_to_be_bytes n v :
  0 <= v < 2 ^ (8 * Z.of_nat n) -> from_be_bytes (to_be_bytes n v) = v.
Proof.
  unfold from_be_bytes. revert v. induction n; intros v Hv.
  - simpl in *. lia.
  - simpl to_be_bytes. rewrite foldl_app, IHn; simpl.
    + change (2 ^ 8) with 256. pose proof (Z.div_mod v 256). lia.
    + rewrite Nat2Z.inj_succ, Z.mul_succ_r, Z.pow_add_r in Hv by lia.
      split; [apply Z.div_pos; lia|]. apply Z.div_lt_upper_bound; lia.
Qed.

Lemma from_be_bytes_bound bs :
  Forall is_u8 bs -> 0 <= from_be_bytes bs < 2 ^ (8 * Z.of_nat (length bs)).
Proof.
  unfold from_be_bytes. induction bs as [|b bs IH] using rev_ind; intros Hbs.
  - simpl. lia.
  - rewrite foldl_app. apply Forall_app in Hbs as [Hbs Hb].
    inversion_clear Hb as [|? ? Hb' _]. unfold is_u8 in Hb'.
    specialize (IH Hbs). rewrite length_app. simpl length.
    replace (8 * Z.of_nat (length bs + 1)) with (8 * Z.of_nat (length bs) + 8) by lia.
    rewrite Z.pow_add_r by lia. simpl. lia.
Qed.

(** ** Take and drop *)

Lemma take_app_exact {A} (l k : list A) n : length l = n -> take n (l ++ k) = l.
Proof. intros <-. by rewrite take_app_length. Qed.

Lemma drop_app_exact {A} (l k : list A) n : length l = n -> drop n (l ++ k) = k.
Proof. intros <-. by rewrite drop_app_length. Qed.

Lemma Forall_take_drop {A} (P : A -> Prop) n l :
  Forall P l -> Forall P (take n l) /\ Forall P (drop n l).
Proof. intros. split; [by apply Forall_take | by apply Forall_drop]. Qed.

(** ** Single bits *)

Lemma land_pow2_testbit a k :
  0 <= k -> Z.land a (2 ^ k) = if Z.testbit a k then 2 ^ k else 0.
Proof.
  intros Hk. apply Z.bits_inj'. intros i Hi. rewrite Z.land_spec, Z.pow2_bits_eqb by lia.
  destruct (Z.eqb_spec k i) as [->|Hne].
  - rewrite andb_true_r. destruct (Z.testbit a i).
    + by rewrite Z.pow2_bits_true by lia.
    + by rewrite Z.bits_0.
  - rewrite andb_false_r. destruct (Z.testbit a k).
    + by rewrite Z.pow2_bits_false by lia.
    + by rewrite Z.bits_0.
Qed.

Lemma land_pow2_eqb a k : 0 <= k -> (Z.land a (2 ^ k) =? 0) = negb (Z.testbit a k).
Proof.
  intros Hk. rewrite land_pow2_testbit by done. destruct (Z.testbit a k); [|done].
  simpl. apply Z.eqb_neq. pose proof (Z.pow_pos_nonneg 2 k). lia.
Qed.

Lemma land_128_eqb a : 0 <= a < 256 -> (Z.land a 128 =? 0) = (a <? 128).
Proof.
  intros Ha. change 128 with (2 ^ 7) at 1. rewrite land_pow2_eqb by lia.
  rewrite Z.testbit_odd, Z.shiftr_div_pow2 by lia. change (2 ^ 7) with 128.
  destruct (Z.ltb_spec a 128).
  - by rewrite Z.div_small by lia.
  - by replace (a / 128) with 1 by (apply Z.div_unique with (a - 128); lia).
Qed.

Lemma lor_bound n a b : 0 <= n -> 0 <= a < 2 ^ n -> 0 <= b < 2 ^ n -> 0 <= Z.lor a b < 2 ^ n.
Proof.
  intros Hn Ha Hb. split; [apply Z.lor_nonneg; lia|].
  rewrite <- (Z.mod_small a (2 ^ n)), <- (Z.mod_small b (2 ^ n)) by done.
  rewrite <- !Z.land_ones, <- Z.land_lor_distr_l, Z.land_ones by done.
  apply Z.mod_pos_bound. lia.
Qed.

(** ** Hash map iteration

    The iteration order of a [HashMap] is unspecified. Every iteration goes
    through [hash_order], an arbitrary rearrangement of the entries; theorems
    hold for every instance. *)
Class HashOrder := {
  hash_order : forall {A : Type}, list A -> list A;
  hash_order_perm : forall {A : Type} (l : list A), hash_order l ≡ₚ l
}.

(** The order of [map_to_list], used by the concrete examples. *)
Definition id_order : HashOrder :=
  {| hash_order := fun _ l => l; hash_order_perm := fun _ l => Permutation_refl l |}.

Section Iteration.
Context `{HashOrder} {K V : Type} `{Countable K}.

(** [map.iter()], [map.keys()], [map.values()] and a set's [iter()]. *)
Definition map_iter (m : gmap K V) : list (K * V) := hash_order (map_to_list m).
Definition map_keys (m : gmap K V) : list K := (map_iter m).*1.
Definition map_values (m : gmap K V) : list V := (map_iter m).*2.
Definition set_iter (s : gset K) : list K := hash_order (elements s).

Lemma elem_of_map_iter (m : gmap K V) k v : (k, v) ∈ map_iter m <-> m !! k = Some v.
Proof. unfold map_iter. rewrite hash_order_perm. apply elem_of_map_to_list. Qed.

Lemma elem_of_map_keys (m : gmap K V) k : k ∈ map_keys m <-> is_Some (m !! k).
Proof.
  unfold map_keys. rewrite list_elem_of_fmap. split.
  - intros ([k' v] & -> & Hin). apply elem_of_map_iter in Hin. by eexists.
  - intros [v Hv]. exists (k, v). split; [done|]. by apply elem_of_map_iter.
Qed.

Lemma elem_of_map_values (m : gmap K V) v : v ∈ map_values m <-> exists k, m !! k = Some v.
Proof.
  unfold map_values. rewrite list_elem_of_fmap. split.
  - intros ([k v'] & -> & Hin). apply elem_of_map_iter in Hin. by eexists.
  - intros [k Hv]. exists (k, v). split; [done|]. by apply elem_of_map_iter.
Qed.

Lemma map_keys_nodup (m : gmap K V) : NoDup (map_keys m).
Proof.
  unfold map_keys, map_iter. rewrite hash_order_perm. apply NoDup_fst_map_to_list.
Qed.

Lemma elem_of_set_iter (s : gset K) k : k ∈ set_iter s <-> k ∈ s.
Proof. unfold set_iter. rewrite hash_order_perm. apply elem_of_elements. Qed.
End Iteration.

(** ** Totals over a map *)

Section Totals.
Context {K V : Type} `{Countable K}.
Implicit Types m : gmap K V.

Definition total (g : V -> Z) m : Z := map_fold (fun _ v acc => g v + acc) 0 m.

Lemma total_empty g : total g ∅ = 0.
Proof. apply map_fold_empty. Qed.

Lemma total_insert_fresh g m k v : m !! k = None -> total g (<[k := v]> m) = g v + total g m.
Proof. intros Hk. unfold total. rewrite map_fold_insert_L; [done| intros; lia |done]. Qed.

Lemma total_delete g m k v : m !! k = Some v -> total g (delete k m) = total g m - g v.
Proof.
  intros Hk. rewrite <- (insert_delete_id m k v Hk) at 2.
  rewrite total_insert_fresh by apply lookup_delete_eq. lia.
Qed.

Lemma total_insert g m k v v' :
  m !! k = Some v -> total g (<[k := v']> m) = total g m - g v + g v'.
Proof.
  intros Hk. rewrite <- insert_delete_eq, total_insert_fresh by apply lookup_delete_eq.
  rewrite (total_delete g m k v Hk). lia.
Qed.

Lemma total_alter g m k h :
  (forall v, g (h v) = g v) -> total g (alter h k m) = total g m.
Proof.
  intros Hg. rewrite alter_alt. destruct (m !! k) as [v|] eqn:Hk; [|done].
  rewrite (total_insert g m k v), Hg by done. lia.
Qed.

(** A bound on every entry bounds the total. *)
Lemma total_le g h m :
  map_Forall (fun _ v => g v <= h v) m -> total g m <= total h m.
Proof.
  induction m as [|k v m Hk IH] using map_ind; intros Hall; [done|].
  rewrite !total_insert_fresh by done.
  apply map_Forall_insert in Hall as [? ?]; [|done]. specialize (IH ltac:(done)). lia.
Qed.

Lemma total_ge g m : map_Forall (fun _ v => 0 <= g v) m -> 0 <= total g m.
Proof.
  induction m as [|k v m Hk IH] using map_ind; intros Hall; [done|].
  rewrite total_insert_fresh by done.
  apply map_Forall_insert in Hall as [? ?]; [|done]. specialize (IH ltac:(done)). lia.
Qed.

Lemma total_lookup_le g m k v :
  map_Forall (fun _ v => 0 <= g v) m -> m !! k = Some v -> g v <= total g m.
Proof.
  intros Hall Hk. pose proof (total_ge g (delete k m)) as Hge.
  rewrite (total_delete g m k v Hk) in Hge. enough (0 <= total g m - g v) by lia.
  apply Hge. by apply map_Forall_delete.
Qed.

Lemma total_pos g m : 0 < total g m -> exists k v, m !! k = Some v /\ 0 < g v.
Proof.
  induction m as [|k v m Hk IH] using map_ind; [done|].
  rewrite total_insert_fresh by done. intros Hpos. destruct (decide (0 < g v)).
  - exists k, v. by rewrite lookup_insert_eq.
  - destruct IH as (k' & v' & Hk' & Hv'); [lia|]. exists k', v'.
    by rewrite lookup_insert_ne by congruence.
Qed.

Lemma total_affine g h a b m :
  (forall v, h v = a * g v + b) -> total h m = a * total g m + b * Z.of_nat (size m).
Proof.
  intros Hh. induction m as [|k v m Hk IH] using map_ind.
  - rewrite map_size_empty, !total_empty. lia.
  - rewrite map_size_insert_None, !total_insert_fresh, IH, Hh by done. lia.
Qed.
End Totals.

(** ** Ordering of byte arrays

    [Ord] of [[u8; N]]: lexicographic. *)

Fixpoint bytes_cmp (a b : list Z) : comparison :=
  match a, b with
  | [], [] => Eq
  | [], _ :: _ => Lt
  | _ :: _, [] => Gt
  | x :: a, y :: b => match x ?= y with Eq => bytes_cmp a b | c => c end
  end.

Definition bytes_lt (a b : list Z) : Prop := bytes_cmp a b = Lt.
#[export] Instance bytes_lt_dec a b : Decision (bytes_lt a b).
Proof. unfold bytes_lt. apply _. Defined.

Lemma bytes_cmp_eq a b : bytes_cmp a b = Eq <-> a = b.
Proof.
  split.
  - revert b. induction a as [|x a IH]; intros [|y b]; simpl; try done.
    destruct (Z.compare_spec x y); [|done..]. intros ->%IH. by subst.
  - intros ->. induction b as [|y b IH]; simpl; [done|]. by rewrite Z.compare_refl.
Qed.

Lemma bytes_cmp_antisym a b : bytes_cmp b a = CompOpp (bytes_cmp a b).
Proof.
  revert b. induction a as [|x a IH]; intros [|y b]; simpl; try done.
  rewrite (Z.compare_antisym x y). destruct (x ?= y); simpl; auto.
Qed.

#[export] Instance bytes_lt_trans : Transitive bytes_lt.
Proof.
  unfold bytes_lt. intros a. induction a as [|x a IH]; intros [|y b] [|z c]; simpl; try done.
  destruct (Z.compare_spec x y), (Z.compare_spec y z), (Z.compare_spec x z); subst; try done; try lia.
  apply IH.
Qed.

#[export] Instance bytes_lt_irrefl : Irreflexive bytes_lt.
Proof. intros a Ha. unfold bytes_lt in Ha. by rewrite (proj2 (bytes_cmp_eq a a) eq_refl) in Ha. Qed.

Lemma bytes_lt_total a b : bytes_lt a b \/ a = b \/ bytes_lt b a.
Proof.
  unfold bytes_lt. rewrite (bytes_cmp_antisym a b). destruct (bytes_cmp a b) eqn:E; simpl; auto.
  apply bytes_cmp_eq in E. auto.
Qed.

(** [Instant::elapsed] and [duration_since] saturate at zero. *)
Definition elapsed (now t : Z) : Z := Z.max 0 (now - t).
