(* ===== verification/Wire.v ===== *)
(** * Wire protocol (crates/ironwood/src/wire.rs)

    Unsigned LEB128 integers, zero-terminated paths, the [WireReader] cursor,
    every protocol message with its encoder and decoder, the compressed bloom
    filter encoding and the length-prefixed frame. Encoders append to the
    buffer [out], as the code does; a reader is the list of bytes that are left,
    and a read returns the value with the remaining bytes or an [Error]. *)

From S2P Require Import Prelude.

(** ** Errors and constants *)

(** [types::Error]; the payload of [Io] is dropped. *)
Inductive Error : Type :=
| Encode | Decode | Closed | Timeout_ | BadMessage | EmptyMessage
| OversizedMessage | UnrecognizedMessage | PeerNotFound | BadAddress | BadKey | Io.

#[export] Instance Error_eq_dec : EqDecision Error.
Proof. solve_decision. Defined.

Definition PUBLIC_KEY_SIZE : nat := 32.
Definition SIGNATURE_SIZE : nat := 64.

Abbreviation PeerPort := Z (only parsing).
Abbreviation PublicKey := (list Z) (only parsing).
Abbreviation Sig := (list Z) (only parsing).

(** ** Packet types *)

Inductive PacketType : Type :=
| Dummy | KeepAlive | ProtoSigReq | ProtoSigRes | ProtoAnnounce | ProtoBloomFilter
| ProtoPathLookup | ProtoPathNotify | ProtoPathBroken | TrafficType.

#[export] Instance PacketType_eq_dec : EqDecision PacketType.
Proof. solve_decision. Defined.

(** The [repr(u8)] discriminant, [packet_type as u8]. *)
Definition PacketType_as_u8 (t : PacketType) : byte :=
  match t with
  | Dummy => 0 | KeepAlive => 1 | ProtoSigReq => 2 | ProtoSigRes => 3
  | ProtoAnnounce => 4 | ProtoBloomFilter => 5 | ProtoPathLookup => 6
  | ProtoPathNotify => 7 | ProtoPathBroken => 8 | TrafficType => 9
  end.

(** [impl TryFrom<u8> for PacketType]. *)
Definition PacketType_try_from (v : byte) : result Error PacketType :=
  match v with
  | 0 => Ok Dummy | 1 => Ok KeepAlive | 2 => Ok ProtoSigReq | 3 => Ok ProtoSigRes
  | 4 => Ok ProtoAnnounce | 5 => Ok ProtoBloomFilter | 6 => Ok ProtoPathLookup
  | 7 => Ok ProtoPathNotify | 8 => Ok ProtoPathBroken | 9 => Ok TrafficType
  | _ => Err UnrecognizedMessage
  end.

(** ** Uvarint helpers *)

(** The loop of [encode_uvarint]; [None] when the fuel runs out. *)
Fixpoint encode_uvarint_loop (fuel : nat) (out : bytes) (value : Z) : option bytes :=
  match fuel with
  | O => None
  | S fuel =>
      let byte := Z.land value 127 in
      let value := Z.shiftr value 7 in
      let byte := if value =? 0 then byte else Z.lor byte 128 in
      let out := out ++ [byte] in
      if value =? 0 then Some out else encode_uvarint_loop fuel out value
  end.

(** A u64 needs at most ten rounds of seven bits ([encode_uvarint_terminates]). *)
Definition encode_uvarint (out : bytes) (value : Z) : bytes :=
  default out (encode_uvarint_loop 10 out value).

(** The [for (i, &byte) in data.iter().enumerate()] loop. *)
Fixpoint decode_uvarint_loop (data : bytes) (i : nat) (shift value : Z) : option (Z * nat) :=
  match data with
  | [] => None
  | byte :: data =>
      if (63 <=? shift) && (1 <? byte) then None
      else
        let value := Z.lor value (wrap64 (Z.shiftl (Z.land byte 127) shift)) in
        if Z.land byte 128 =? 0 then Some (value, S i)
        else if (9 <=? i)%nat then None
        else decode_uvarint_loop data (S i) (shift + 7) value
  end.

Definition decode_uvarint (data : bytes) : option (Z * nat) := decode_uvarint_loop data 0 0 0.

Fixpoint uvarint_size_loop (fuel : nat) (value : Z) (size : nat) : nat :=
  match fuel with
  | O => size
  | S fuel =>
      if 128 <=? value then uvarint_size_loop fuel (Z.shiftr value 7) (S size) else size
  end.

Definition uvarint_size (value : Z) : nat := uvarint_size_loop 10 value 1.

(** ** Path helpers *)

Definition encode_path (out : bytes) (path : list PeerPort) : bytes :=
  let out := foldl encode_uvarint out path in
  encode_uvarint out 0.

Definition path_size (path : list PeerPort) : nat :=
  let size := foldl (fun size port => (size + uvarint_size port)%nat) 0%nat path in
  (size + uvarint_size 0)%nat.

(** The loop of [decode_path] on [&data[offset..]]. Each round consumes a byte,
    so [S (length data)] rounds are enough ([decode_path_loop_fuel]). *)
Fixpoint decode_path_loop (fuel : nat) (data : bytes) (path : list PeerPort) (offset : nat)
  : result Error (list PeerPort * nat) :=
  match fuel with
  | O => Err Decode
  | S fuel =>
      '(value, len) ← ok_or Decode (decode_uvarint data);
      let offset := (offset + len)%nat in
      if value =? 0 then Ok (path, offset)
      else decode_path_loop fuel (drop len data) (path ++ [value]) offset
  end.

Definition decode_path (data : bytes) : result Error (list PeerPort * nat) :=
  decode_path_loop (S (length data)) data [] 0.

(** ** WireReader *)

Definition read_uvarint (r : bytes) : result Error (Z * bytes) :=
  '(value, len) ← ok_or Decode (decode_uvarint r);
  Ok (value, drop len r).

Definition read_fixed (n : nat) (r : bytes) : result Error (bytes * bytes) :=
  if (length r <? n)%nat then Err Decode else Ok (take n r, drop n r).

Definition read_public_key (r : bytes) : result Error (PublicKey * bytes) :=
  read_fixed PUBLIC_KEY_SIZE r.

Definition read_signature (r : bytes) : result Error (Sig * bytes) :=
  read_fixed SIGNATURE_SIZE r.

Definition read_path (r : bytes) : result Error (list PeerPort * bytes) :=
  '(path, consumed) ← decode_path r;
  Ok (path, drop consumed r).

Definition reader_is_empty (r : bytes) : bool :=
  match r with [] => true | _ => false end.

(** [if !r.is_empty() { return Err(Error::Decode) } Ok(a)]. *)
Definition expect_empty {A} (a : A) (r : bytes) : result Error A :=
  if negb (reader_is_empty r) then Err Decode else Ok a.

(** ** Messages *)

Record SigReq := mkSigReq { sigreq_seq : Z; sigreq_nonce : Z }.

Definition SigReq_encode (m : SigReq) (out : bytes) : bytes :=
  let out := encode_uvarint out (sigreq_seq m) in
  encode_uvarint out (sigreq_nonce m).

Definition SigReq_decode (r : bytes) : result Error (SigReq * bytes) :=
  '(seq, r) ← read_uvarint r;
  '(nonce, r) ← read_uvarint r;
  Ok (mkSigReq seq nonce, r).

Record SigRes := mkSigRes {
  sigres_seq : Z; sigres_nonce : Z; sigres_port : PeerPort; sigres_psig : Sig }.

Definition SigRes_encode (m : SigRes) (out : bytes) : bytes :=
  let out := encode_uvarint out (sigres_seq m) in
  let out := encode_uvarint out (sigres_nonce m) in
  let out := encode_uvarint out (sigres_port m) in
  out ++ sigres_psig m.

Definition SigRes_decode (r : bytes) : result Error (SigRes * bytes) :=
  '(seq, r) ← read_uvarint r;
  '(nonce, r) ← read_uvarint r;
  '(port, r) ← read_uvarint r;
  '(psig, r) ← read_signature r;
  Ok (mkSigRes seq nonce port psig, r).

Record Announce := mkAnnounce {
  ann_key : PublicKey; ann_parent : PublicKey; ann_sig_res : SigRes; ann_sig : Sig }.

Definition Announce_encode (m : Announce) (out : bytes) : bytes :=
  let out := out ++ ann_key m in
  let out := out ++ ann_parent m in
  let out := SigRes_encode (ann_sig_res m) out in
  out ++ ann_sig m.

Definition Announce_decode (data : bytes) : result Error Announce :=
  let r := data in
  '(key, r) ← read_public_key r;
  '(parent, r) ← read_public_key r;
  '(sig_res, r) ← SigRes_decode r;
  '(sig, r) ← read_signature r;
  expect_empty (mkAnnounce key parent sig_res sig) r.

Record PathLookup := mkPathLookup {
  pl_source : PublicKey; pl_dest : PublicKey; pl_from : list PeerPort }.

Definition PathLookup_encode (m : PathLookup) (out : bytes) : bytes :=
  let out := out ++ pl_source m in
  let out := out ++ pl_dest m in
  encode_path out (pl_from m).

Definition PathLookup_decode (data : bytes) : result Error PathLookup :=
  let r := data in
  '(source, r) ← read_public_key r;
  '(dest, r) ← read_public_key r;
  '(from, r) ← read_path r;
  expect_empty (mkPathLookup source dest from) r.

Record PathNotifyInfo := mkPathNotifyInfo {
  pni_seq : Z; pni_path : list PeerPort; pni_sig : Sig }.

Definition PathNotifyInfo_encode (m : PathNotifyInfo) (out : bytes) : bytes :=
  let out := encode_uvarint out (pni_seq m) in
  let out := encode_path out (pni_path m) in
  out ++ pni_sig m.

Definition PathNotifyInfo_decode (r : bytes) : result Error (PathNotifyInfo * bytes) :=
  '(seq, r) ← read_uvarint r;
  '(path, r) ← read_path r;
  '(sig, r) ← read_signature r;
  Ok (mkPathNotifyInfo seq path sig, r).

Record PathNotify := mkPathNotify {
  pn_path : list PeerPort; pn_watermark : Z; pn_source : PublicKey; pn_dest : PublicKey;
  pn_info : PathNotifyInfo }.

Definition PathNotify_encode (m : PathNotify) (out : bytes) : bytes :=
  let out := encode_path out (pn_path m) in
  let out := encode_uvarint out (pn_watermark m) in
  let out := out ++ pn_source m in
  let out := out ++ pn_dest m in
  PathNotifyInfo_encode (pn_info m) out.

Definition PathNotify_decode (data : bytes) : result Error PathNotify :=
  let r := data in
  '(path, r) ← read_path r;
  '(watermark, r) ← read_uvarint r;
  '(source, r) ← read_public_key r;
  '(dest, r) ← read_public_key r;
  '(info, r) ← PathNotifyInfo_decode r;
  expect_empty (mkPathNotify path watermark source dest info) r.

Record PathBroken := mkPathBroken {
  pb_path : list PeerPort; pb_watermark : Z; pb_source : PublicKey; pb_dest : PublicKey }.

Definition PathBroken_encode (m : PathBroken) (out : bytes) : bytes :=
  let out := encode_path out (pb_path m) in
  let out := encode_uvarint out (pb_watermark m) in
  let out := out ++ pb_source m in
  out ++ pb_dest m.

Definition PathBroken_decode (data : bytes) : result Error PathBroken :=
  let r := data in
  '(path, r) ← read_path r;
  '(watermark, r) ← read_uvarint r;
  '(source, r) ← read_public_key r;
  '(dest, r) ← read_public_key r;
  expect_empty (mkPathBroken path watermark source dest) r.

Record Traffic := mkTraffic {
  tr_path : list PeerPort; tr_from : list PeerPort; tr_source : PublicKey;
  tr_dest : PublicKey; tr_watermark : Z; tr_payload : bytes }.

Definition Traffic_size (m : Traffic) : nat :=
  (path_size (tr_path m) + path_size (tr_from m) + PUBLIC_KEY_SIZE + PUBLIC_KEY_SIZE
   + uvarint_size (tr_watermark m) + length (tr_payload m))%nat.

Definition Traffic_encode (m : Traffic) (out : bytes) : bytes :=
  let out := encode_path out (tr_path m) in
  let out := encode_path out (tr_from m) in
  let out := out ++ tr_source m in
  let out := out ++ tr_dest m in
  let out := encode_uvarint out (tr_watermark m) in
  out ++ tr_payload m.

Definition Traffic_decode (data : bytes) : result Error Traffic :=
  let r := data in
  '(path, r) ← read_path r;
  '(from, r) ← read_path r;
  '(source, r) ← read_public_key r;
  '(dest, r) ← read_public_key r;
  '(watermark, r) ← read_uvarint r;
  Ok (mkTraffic path from source dest watermark r).

(** ** Bloom filter wire encoding *)

Definition BLOOM_FILTER_FLAGS : nat := 16.
Definition BLOOM_FILTER_U64S : nat := 128.

(** [0x80 >> (idx % 8)]. *)
Definition flag_bit (idx : nat) : Z := Z.shiftr 128 (Z.of_nat (idx mod 8)).

(** [flags[idx / 8] |= 0x80 >> (idx % 8)]. *)
Definition set_flag (flags : bytes) (idx : nat) : bytes :=
  alter (fun b => Z.lor b (flag_bit idx)) (idx / 8)%nat flags.

(** [flags[idx / 8] & (0x80 >> (idx % 8))]. *)
Definition get_flag (flags : bytes) (idx : nat) : Z :=
  Z.land (flags !!! (idx / 8)%nat) (flag_bit idx).

Fixpoint encode_bloom_loop (data : list Z) (idx : nat) (flags0 flags1 : bytes)
    (keep : list Z) : bytes * bytes * list Z :=
  match data with
  | [] => (flags0, flags1, keep)
  | u :: data =>
      if u =? 0 then encode_bloom_loop data (S idx) (set_flag flags0 idx) flags1 keep
      else if u =? U64_MAX then encode_bloom_loop data (S idx) flags0 (set_flag flags1 idx) keep
      else encode_bloom_loop data (S idx) flags0 flags1 (keep ++ [u])
  end.

Definition encode_bloom (out : bytes) (data : list Z) : bytes :=
  let '(flags0, flags1, keep) :=
    encode_bloom_loop data 0 (replicate BLOOM_FILTER_FLAGS 0) (replicate BLOOM_FILTER_FLAGS 0) [] in
  let out := out ++ flags0 in
  let out := out ++ flags1 in
  foldl (fun out u => out ++ to_be_bytes 8 u) out keep.

(** The loop [for idx in 0..BLOOM_FILTER_U64S]: [n] indices are left, [result]
    holds the words decoded so far. *)
Fixpoint decode_bloom_loop (n idx : nat) (flags0 flags1 r : bytes) (result : list Z)
  : Prelude.result Error (list Z * bytes) :=
  match n with
  | O => Ok (result, r)
  | S n =>
      let f0 := get_flag flags0 idx in
      let f1 := get_flag flags1 idx in
      if negb (f0 =? 0) && negb (f1 =? 0) then Err Decode
      else if negb (f0 =? 0) then decode_bloom_loop n (S idx) flags0 flags1 r (result ++ [0])
      else if negb (f1 =? 0) then decode_bloom_loop n (S idx) flags0 flags1 r (result ++ [U64_MAX])
      else
        '(bs, r) ← read_fixed 8 r;
        decode_bloom_loop n (S idx) flags0 flags1 r (result ++ [from_be_bytes bs])
  end.

Definition decode_bloom (data : bytes) : result Error (list Z) :=
  let r := data in
  '(flags0, r) ← read_fixed BLOOM_FILTER_FLAGS r;
  '(flags1, r) ← read_fixed BLOOM_FILTER_FLAGS r;
  '(words, r) ← decode_bloom_loop BLOOM_FILTER_U64S 0 flags0 flags1 r [];
  expect_empty words r.

(** ** Frames *)

Definition encode_frame (packet_type : PacketType) (payload : bytes) : bytes :=
  let content_len := (1 + length payload)%nat in
  let frame := encode_uvarint [] (Z.of_nat content_len) in
  let frame := frame ++ [PacketType_as_u8 packet_type] in
  frame ++ payload.

Definition encode_traffic_frame (path from : list PeerPort) (source dest : PublicKey)
    (watermark : Z) (payload : bytes) : bytes :=
  let content_len := (1 + path_size path + path_size from + PUBLIC_KEY_SIZE + PUBLIC_KEY_SIZE
                      + uvarint_size watermark + length payload)%nat in
  let frame := encode_uvarint [] (Z.of_nat content_len) in
  let frame := frame ++ [PacketType_as_u8 TrafficType] in
  let frame := encode_path frame path in
  let frame := encode_path frame from in
  let frame := frame ++ source in
  let frame := frame ++ dest in
  let frame := encode_uvarint frame watermark in
  frame ++ payload.

(** ** Well-formed values: what the Rust types guarantee *)

Definition key_wf (k : PublicKey) : Prop := length k = PUBLIC_KEY_SIZE /\ Forall is_u8 k.
Definition sig_wf (s : Sig) : Prop := length s = SIGNATURE_SIZE /\ Forall is_u8 s.
(** A path is a [Vec<u64>]; a zero port would end it early on the wire. *)
Definition path_wf (p : list PeerPort) : Prop := Forall (fun x => is_u64 x /\ x <> 0) p.

Definition SigReq_wf (m : SigReq) : Prop := is_u64 (sigreq_seq m) /\ is_u64 (sigreq_nonce m).
Definition SigRes_wf (m : SigRes) : Prop :=
  is_u64 (sigres_seq m) /\ is_u64 (sigres_nonce m) /\ is_u64 (sigres_port m)
  /\ sig_wf (sigres_psig m).
Definition Announce_wf (m : Announce) : Prop :=
  key_wf (ann_key m) /\ key_wf (ann_parent m) /\ SigRes_wf (ann_sig_res m) /\ sig_wf (ann_sig m).
Definition PathLookup_wf (m : PathLookup) : Prop :=
  key_wf (pl_source m) /\ key_wf (pl_dest m) /\ path_wf (pl_from m).
Definition PathNotifyInfo_wf (m : PathNotifyInfo) : Prop :=
  is_u64 (pni_seq m) /\ path_wf (pni_path m) /\ sig_wf (pni_sig m).
Definition PathNotify_wf (m : PathNotify) : Prop :=
  path_wf (pn_path m) /\ is_u64 (pn_watermark m) /\ key_wf (pn_source m)
  /\ key_wf (pn_dest m) /\ PathNotifyInfo_wf (pn_info m).
Definition PathBroken_wf (m : PathBroken) : Prop :=
  path_wf (pb_path m) /\ is_u64 (pb_watermark m) /\ key_wf (pb_source m) /\ key_wf (pb_dest m).
Definition Traffic_wf (m : Traffic) : Prop :=
  path_wf (tr_path m) /\ path_wf (tr_from m) /\ key_wf (tr_source m) /\ key_wf (tr_dest m)
  /\ is_u64 (tr_watermark m) /\ Forall is_u8 (tr_payload m).
Definition bloom_wf (data : list Z) : Prop :=
  length data = BLOOM_FILTER_U64S /\ Forall is_u64 data.

(** ** Uvarints: round trip, bounds and termination *)

(** The reference definition of LEB128. *)
Fixpoint leb128 (fuel : nat) (v : Z) : bytes :=
  match fuel with
  | O => []
  | S fuel => if v <? 128 then [v] else (v mod 128 + 128) :: leb128 fuel (v / 128)
  end.

Definition leb (v : Z) : bytes := leb128 10 v.

Lemma shiftr_7 v : Z.shiftr v 7 = v / 128.
Proof. by apply Z.shiftr_div_pow2. Qed.

Lemma div_128_lt v fuel : 0 <= v < 128 ^ Z.of_nat (S fuel) -> 0 <= v / 128 < 128 ^ Z.of_nat fuel.
Proof.
  rewrite Nat2Z.inj_succ, Z.pow_succ_r by lia. intros Hv.
  split; [apply Z.div_pos; lia | apply Z.div_lt_upper_bound; lia].
Qed.

Lemma u64_lt_128_pow v : is_u64 v -> 0 <= v < 128 ^ Z.of_nat 10.
Proof. unfold is_u64. change (128 ^ Z.of_nat 10) with (2 ^ 70). lia. Qed.

Lemma encode_uvarint_loop_spec fuel out v :
  0 <= v < 128 ^ Z.of_nat fuel -> (0 < fuel)%nat ->
  encode_uvarint_loop fuel out v = Some (out ++ leb128 fuel v).
Proof.
  revert out v. induction fuel as [|fuel IH]; intros out v Hv Hf; [lia|].
  cbn [encode_uvarint_loop leb128]. rewrite land_127, shiftr_7.
  destruct (Z.ltb_spec v 128) as [Hlt|Hge].
  - by rewrite Z.div_small, Z.mod_small, Z.eqb_refl by lia.
  - assert (1 <= v / 128) by (apply Z.div_le_lower_bound; lia).
    destruct (Z.eqb_spec (v / 128) 0); [lia|].
    pose proof (Z.mod_pos_bound v 128 ltac:(lia)).
    assert (fuel <> 0%nat) by (intros ->; simpl in Hv; lia).
    rewrite lor_128_add, IH by (try apply div_128_lt; lia).
    by rewrite <- app_assoc.
Qed.

Lemma encode_uvarint_eq out v : is_u64 v -> encode_uvarint out v = out ++ leb v.
Proof.
  intros Hv. unfold encode_uvarint.
  by rewrite encode_uvarint_loop_spec by (by apply u64_lt_128_pow || lia).
Qed.

Lemma leb128_u8 fuel v : 0 <= v -> Forall is_u8 (leb128 fuel v).
Proof.
  revert v. induction fuel as [|fuel IH]; intros v Hv; [constructor|].
  cbn [leb128]. destruct (Z.ltb_spec v 128).
  - repeat constructor; lia.
  - pose proof (Z.mod_pos_bound v 128 ltac:(lia)).
    constructor; [split; lia|]. apply IH, Z.div_pos; lia.
Qed.

Lemma leb128_nonempty fuel v : (0 < length (leb128 (S fuel) v))%nat.
Proof. cbn [leb128]. destruct (v <? 128); simpl; lia. Qed.

Lemma pow_7_succ i : 2 ^ (7 * Z.of_nat (S i)) = 2 ^ (7 * Z.of_nat i) * 128.
Proof.
  replace (7 * Z.of_nat (S i)) with (7 * Z.of_nat i + 7) by lia.
  by rewrite Z.pow_add_r by lia.
Qed.

(** One round of the decoder merges the next seven bits above the current ones. *)
Lemma merge_bits value b i :
  0 <= value < 2 ^ (7 * Z.of_nat i) -> 0 <= b -> b * 2 ^ (7 * Z.of_nat i) < 2 ^ 64 ->
  Z.lor value (wrap64 (Z.shiftl b (7 * Z.of_nat i))) = value + b * 2 ^ (7 * Z.of_nat i).
Proof.
  intros Hval Hb Hlt.
  rewrite wrap64_id; [by apply lor_shiftl_add; lia|].
  unfold is_u64. rewrite Z.shiftl_mul_pow2 by lia. lia.
Qed.

Lemma decode_uvarint_loop_leb128 fuel v i value rest :
  0 <= v < 128 ^ Z.of_nat fuel -> (0 < fuel)%nat -> (i <= 9)%nat ->
  0 <= value < 2 ^ (7 * Z.of_nat i) -> v * 2 ^ (7 * Z.of_nat i) < 2 ^ 64 ->
  decode_uvarint_loop (leb128 fuel v ++ rest) i (7 * Z.of_nat i) value
  = Some (value + v * 2 ^ (7 * Z.of_nat i), (i + length (leb128 fuel v))%nat).
Proof.
  revert v i value. induction fuel as [|fuel IH]; intros v i value Hv Hf Hi Hval Hlt; [lia|].
  cbn [leb128].
  assert (Hbig : (63 <= 7 * Z.of_nat i) -> v <= 1).
  { intros. assert (i = 9%nat) as -> by lia. change (2 ^ (7 * Z.of_nat 9)) with (2 ^ 63) in Hlt. lia. }
  assert (Hpos : 0 < 2 ^ (7 * Z.of_nat i)) by (apply Z.pow_pos_nonneg; lia).
  destruct (Z.ltb_spec v 128) as [Hs|Hs]; cbn [app decode_uvarint_loop].
  - replace ((63 <=? 7 * Z.of_nat i) && (1 <? v)) with false by (symmetry; lia).
    rewrite land_127, Z.mod_small, merge_bits, land_128_eqb by lia.
    destruct (Z.ltb_spec v 128); [|lia]. simpl. f_equal. f_equal. lia.
  - pose proof (Z.mod_pos_bound v 128 ltac:(lia)) as Hm.
    assert (Hdm := Z.div_mod v 128 ltac:(lia)).
    replace ((63 <=? 7 * Z.of_nat i) && (1 <? v mod 128 + 128)) with false by (symmetry; lia).
    rewrite land_127, land_128_eqb by lia.
    destruct (Z.ltb_spec (v mod 128 + 128) 128); [lia|].
    replace ((v mod 128 + 128) mod 128) with (v mod 128)
      by (rewrite <- (Z.mul_1_l 128) at 3; by rewrite Z.mod_add, Z.mod_mod by lia).
    assert (fuel <> 0%nat) by (intros ->; simpl in Hv; lia).
    rewrite merge_bits by nia.
    destruct (Nat.leb_spec 9 i); [lia|].
    replace (7 * Z.of_nat i + 7) with (7 * Z.of_nat (S i)) by lia.
    rewrite IH; [|by apply div_128_lt|lia|lia|rewrite pow_7_succ; nia|rewrite pow_7_succ; nia].
    rewrite pow_7_succ. simpl length. f_equal. f_equal; [nia|lia].
Qed.

Lemma decode_uvarint_leb v rest :
  is_u64 v -> decode_uvarint (leb v ++ rest) = Some (v, length (leb v)).
Proof.
  intros Hv. unfold decode_uvarint, leb.
  pose proof (decode_uvarint_loop_leb128 10 v 0 0 rest) as H.
  change (7 * Z.of_nat 0) with 0 in H. change (2 ^ 0) with 1 in H.
  rewrite H; [f_equal; f_equal; lia|by apply u64_lt_128_pow|lia|lia|lia|unfold is_u64 in Hv; lia].
Qed.

Lemma decode_uvarint_loop_bound data i shift value v n :
  is_u64 value -> (i <= 9)%nat -> decode_uvarint_loop data i shift value = Some (v, n) ->
  is_u64 v /\ (i < n <= 10)%nat /\ (n <= i + length data)%nat.
Proof.
  revert i shift value. induction data as [|b data IH]; intros i shift value Hval Hi; [done|].
  cbn [decode_uvarint_loop length]. case_match; [done|].
  assert (Hor : is_u64 (Z.lor value (wrap64 (Z.shiftl (Z.land b 127) shift)))).
  { apply lor_bound; [lia|done|apply wrap64_is_u64]. }
  case_match; [intros [= <- <-]; split_and!; [done|lia..]|].
  destruct (Nat.leb_spec 9 i); [done|]. intros Hd.
  apply IH in Hd as (? & ? & ?); [|done|lia]. split_and!; [done|lia..].
Qed.

Lemma decode_uvarint_bound data v n :
  decode_uvarint data = Some (v, n) -> is_u64 v /\ (1 <= n <= 10)%nat /\ (n <= length data)%nat.
Proof.
  intros Hd. apply decode_uvarint_loop_bound in Hd as (? & ? & ?); [|unfold is_u64; lia|lia].
  split_and!; [done|lia..].
Qed.

Lemma uvarint_size_loop_spec fuel v n :
  0 <= v < 128 ^ Z.of_nat fuel -> (0 < fuel)%nat ->
  S (uvarint_size_loop fuel v n) = (n + length (leb128 fuel v))%nat.
Proof.
  revert v n. induction fuel as [|fuel IH]; intros v n Hv Hf; [lia|].
  cbn [uvarint_size_loop leb128]. rewrite shiftr_7.
  destruct (Z.ltb_spec v 128), (Z.leb_spec 128 v); simpl; try lia.
  assert (fuel <> 0%nat) by (intros ->; simpl in Hv; lia).
  rewrite IH by (by apply div_128_lt || lia). lia.
Qed.

Lemma uvarint_size_eq v : is_u64 v -> uvarint_size v = length (leb v).
Proof.
  intros Hv. unfold uvarint_size, leb.
  pose proof (uvarint_size_loop_spec 10 v 1 (u64_lt_128_pow v Hv)). lia.
Qed.

(** ** Reader primitives on encoded values *)

Lemma read_uvarint_leb v r : is_u64 v -> read_uvarint (leb v ++ r) = Ok (v, r).
Proof.
  intros Hv. unfold read_uvarint. rewrite decode_uvarint_leb by done. simpl.
  by rewrite drop_app_length.
Qed.

Lemma read_fixed_app n bs r : length bs = n -> read_fixed n (bs ++ r) = Ok (bs, r).
Proof.
  intros Hn. unfold read_fixed. rewrite length_app.
  destruct (Nat.ltb_spec (length bs + length r) n); [lia|].
  by rewrite take_app_exact, drop_app_exact.
Qed.

Lemma read_public_key_app k r : key_wf k -> read_public_key (k ++ r) = Ok (k, r).
Proof. intros [? ?]. by apply read_fixed_app. Qed.

Lemma read_signature_app s r : sig_wf s -> read_signature (s ++ r) = Ok (s, r).
Proof. intros [? ?]. by apply read_fixed_app. Qed.

(** The wire image of a path. *)
Definition path_bytes (p : list PeerPort) : bytes := concat (map leb p) ++ leb 0.

Lemma encode_path_eq out p : path_wf p -> encode_path out p = out ++ path_bytes p.
Proof.
  unfold encode_path, path_bytes. intros Hp.
  rewrite encode_uvarint_eq by (unfold is_u64; lia). rewrite app_assoc. f_equal.
  revert out. induction Hp as [|x p [Hx _] Hp IH]; intros out; simpl; [by rewrite app_nil_r|].
  rewrite encode_uvarint_eq by done. by rewrite IH, app_assoc.
Qed.

Lemma path_size_eq p : path_wf p -> path_size p = length (path_bytes p).
Proof.
  unfold path_size, path_bytes. intros Hp. rewrite length_app.
  rewrite uvarint_size_eq by (unfold is_u64; lia). f_equal.
  enough (forall n, foldl (fun size port => (size + uvarint_size port)%nat) n p
                    = (n + length (concat (map leb p)))%nat) as H by apply H.
  induction Hp as [|x p [Hx _] Hp IH]; intros n; simpl; [lia|].
  rewrite IH, uvarint_size_eq, length_app by done. lia.
Qed.

Lemma leb_length_pos v : (0 < length (leb v))%nat.
Proof. apply leb128_nonempty. Qed.

Lemma decode_path_loop_bytes p : path_wf p -> forall fuel rest acc off,
  (length (path_bytes p ++ rest) < fuel)%nat ->
  decode_path_loop fuel (path_bytes p ++ rest) acc off
  = Ok (acc ++ p, off + length (path_bytes p))%nat.
Proof.
  unfold path_bytes. induction 1 as [|x p [Hx Hnz] Hp IH]; intros fuel rest acc off Hf;
    (destruct fuel as [|fuel]; [lia|]); cbn [decode_path_loop map concat app].
  - rewrite decode_uvarint_leb by (unfold is_u64; lia). simpl. by rewrite app_nil_r.
  - rewrite <- !app_assoc, decode_uvarint_leb by done. cbn [ok_or mbind result_bind].
    destruct (Z.eqb_spec x 0); [done|]. rewrite drop_app_length.
    pose proof (leb_length_pos x).
    rewrite app_assoc, IH.
    + rewrite <- app_assoc. f_equal. f_equal. rewrite !length_app. lia.
    + cbn [map concat] in Hf. rewrite !length_app in *. lia.
Qed.

Lemma read_path_bytes p r : path_wf p -> read_path (path_bytes p ++ r) = Ok (p, r).
Proof.
  intros Hp. unfold read_path, decode_path.
  rewrite decode_path_loop_bytes by (done || lia). simpl. by rewrite drop_app_length.
Qed.

(** ** Messages: round trips *)

Create Rewrite HintDb wire_encode.
Create Rewrite HintDb wire_decode.
#[export] Hint Rewrite encode_uvarint_eq encode_path_eq using done : wire_encode.
#[export] Hint Rewrite read_uvarint_leb read_public_key_app read_signature_app read_path_bytes
  using done : wire_decode.

(** Decoding an encoded value: push the appends to the right, then run the reads. *)
Ltac wire_encode := autorewrite with wire_encode; rewrite <- ?app_assoc; cbn [app].
Ltac wire_decode :=
  repeat (progress (autorewrite with wire_decode; cbn [mbind result_bind ok_or])).

Lemma SigReq_encode_eq m out : SigReq_wf m ->
  SigReq_encode m out = out ++ leb (sigreq_seq m) ++ leb (sigreq_nonce m).
Proof. intros [? ?]. unfold SigReq_encode. by wire_encode. Qed.

Lemma SigReq_decode_encode m r : SigReq_wf m -> SigReq_decode (SigReq_encode m [] ++ r) = Ok (m, r).
Proof.
  intros Hm. rewrite SigReq_encode_eq by done. destruct Hm as [? ?].
  unfold SigReq_decode. wire_encode. wire_decode. by destruct m.
Qed.

Lemma SigRes_encode_eq m out : SigRes_wf m ->
  SigRes_encode m out
  = out ++ leb (sigres_seq m) ++ leb (sigres_nonce m) ++ leb (sigres_port m) ++ sigres_psig m.
Proof. intros (? & ? & ? & ?). unfold SigRes_encode. by wire_encode. Qed.

Lemma SigRes_decode_encode m r : SigRes_wf m -> SigRes_decode (SigRes_encode m [] ++ r) = Ok (m, r).
Proof.
  intros Hm. rewrite SigRes_encode_eq by done. destruct Hm as (? & ? & ? & ?).
  unfold SigRes_decode. wire_encode. wire_decode. by destruct m.
Qed.

Lemma expect_empty_spec {A} (a : A) r :
  expect_empty a r = match r with [] => Ok a | _ => Err Decode end.
Proof. by destruct r. Qed.

Lemma SigRes_encode_app m out : SigRes_wf m -> SigRes_encode m out = out ++ SigRes_encode m [].
Proof. intros. by rewrite !SigRes_encode_eq. Qed.

(** A whole-message decoder on an encoded message followed by [r]: the message
    when [r] is empty, a decode error otherwise. *)
Definition whole {A} (m : A) (r : bytes) : result Error A :=
  match r with [] => Ok m | _ => Err Decode end.

Lemma Announce_decode_encode m r : Announce_wf m ->
  Announce_decode (Announce_encode m [] ++ r) = whole m r.
Proof.
  intros (? & ? & ? & ?). unfold Announce_encode, Announce_decode.
  rewrite SigRes_encode_app by done. wire_encode. wire_decode.
  rewrite SigRes_decode_encode by done. cbn [mbind result_bind]. wire_decode.
  rewrite expect_empty_spec. by destruct m.
Qed.

Lemma PathLookup_decode_encode m r : PathLookup_wf m ->
  PathLookup_decode (PathLookup_encode m [] ++ r) = whole m r.
Proof.
  intros (? & ? & ?). unfold PathLookup_encode, PathLookup_decode. wire_encode. wire_decode.
  rewrite expect_empty_spec. by destruct m.
Qed.

Lemma PathNotifyInfo_encode_eq m out : PathNotifyInfo_wf m ->
  PathNotifyInfo_encode m out = out ++ leb (pni_seq m) ++ path_bytes (pni_path m) ++ pni_sig m.
Proof. intros (? & ? & ?). unfold PathNotifyInfo_encode. by wire_encode. Qed.

Lemma PathNotifyInfo_decode_encode m r : PathNotifyInfo_wf m ->
  PathNotifyInfo_decode (PathNotifyInfo_encode m [] ++ r) = Ok (m, r).
Proof.
  intros Hm. rewrite PathNotifyInfo_encode_eq by done. destruct Hm as (? & ? & ?).
  unfold PathNotifyInfo_decode. wire_encode. wire_decode. by destruct m.
Qed.

Lemma PathNotify_decode_encode m r : PathNotify_wf m ->
  PathNotify_decode (PathNotify_encode m [] ++ r) = whole m r.
Proof.
  intros (? & ? & ? & ? & Hi). unfold PathNotify_encode, PathNotify_decode. wire_encode.
  replace (PathNotifyInfo_encode (pn_info m) _) with
    (path_bytes (pn_path m) ++ leb (pn_watermark m) ++ pn_source m ++ pn_dest m
       ++ PathNotifyInfo_encode (pn_info m) [])
    by (rewrite !PathNotifyInfo_encode_eq by done; by rewrite <- ?app_assoc).
  wire_encode. wire_decode.
  rewrite PathNotifyInfo_decode_encode by done. cbn [mbind result_bind].
  rewrite expect_empty_spec. by destruct m.
Qed.

Lemma PathBroken_decode_encode m r : PathBroken_wf m ->
  PathBroken_decode (PathBroken_encode m [] ++ r) = whole m r.
Proof.
  intros (? & ? & ? & ?). unfold PathBroken_encode, PathBroken_decode. wire_encode. wire_decode.
  rewrite expect_empty_spec. by destruct m.
Qed.

Lemma Traffic_encode_eq m out : Traffic_wf m ->
  Traffic_encode m out = out ++ path_bytes (tr_path m) ++ path_bytes (tr_from m) ++ tr_source m
                             ++ tr_dest m ++ leb (tr_watermark m) ++ tr_payload m.
Proof. intros (? & ? & ? & ? & ? & ?). unfold Traffic_encode. by wire_encode. Qed.

Lemma Traffic_decode_encode m : Traffic_wf m -> Traffic_decode (Traffic_encode m []) = Ok m.
Proof.
  intros Hm. rewrite Traffic_encode_eq by done. destruct Hm as (? & ? & ? & ? & ? & ?).
  unfold Traffic_decode. cbn [app]. wire_decode. by destruct m.
Qed.

(** ** Decoded values are well formed

    Whatever bytes a peer sends, what a decoder returns satisfies the ranges and
    lengths of the Rust types, and no port of a decoded path is zero. *)

Definition bytes_wf (bs : bytes) : Prop := Forall is_u8 bs.

Lemma read_uvarint_wf r v r' :
  bytes_wf r -> read_uvarint r = Ok (v, r') -> is_u64 v /\ bytes_wf r'.
Proof.
  unfold read_uvarint. intros Hr H. destruct (decode_uvarint r) as [[v' n]|] eqn:E; [|done].
  simpl in H. injection H as <- <-. apply decode_uvarint_bound in E as [? _].
  split; [done|]. by apply Forall_drop.
Qed.

Lemma read_fixed_wf n r bs r' :
  bytes_wf r -> read_fixed n r = Ok (bs, r') -> length bs = n /\ Forall is_u8 bs /\ bytes_wf r'.
Proof.
  unfold read_fixed. intros Hr H. destruct (Nat.ltb_spec (length r) n); [done|].
  injection H as <- <-. rewrite length_take. split_and!; [lia|by apply Forall_take|by apply Forall_drop].
Qed.

Lemma read_public_key_wf r k r' :
  bytes_wf r -> read_public_key r = Ok (k, r') -> key_wf k /\ bytes_wf r'.
Proof. intros Hr H. apply read_fixed_wf in H as (? & ? & ?); [|done]. done. Qed.

Lemma read_signature_wf r s r' :
  bytes_wf r -> read_signature r = Ok (s, r') -> sig_wf s /\ bytes_wf r'.
Proof. intros Hr H. apply read_fixed_wf in H as (? & ? & ?); [|done]. done. Qed.

Lemma decode_path_loop_wf fuel data acc off p n :
  path_wf acc -> decode_path_loop fuel data acc off = Ok (p, n) ->
  path_wf p /\ (off < n)%nat /\ (n <= off + length data)%nat.
Proof.
  revert data acc off. induction fuel as [|fuel IH]; intros data acc off Hacc; [done|].
  cbn [decode_path_loop]. destruct (decode_uvarint data) as [[v len]|] eqn:E; [|done].
  cbn [ok_or mbind result_bind]. apply decode_uvarint_bound in E as (Hv & Hlen & Hle).
  destruct (Z.eqb_spec v 0) as [->|Hnz].
  - intros [= <- <-]. split_and!; [done|lia..].
  - intros H. apply IH in H as (? & ? & H); [|by apply Forall_app; split; [|apply Forall_singleton]].
    rewrite length_drop in H. split_and!; [done|lia..].
Qed.

Lemma read_path_wf r p r' :
  bytes_wf r -> read_path r = Ok (p, r') -> path_wf p /\ bytes_wf r'.
Proof.
  unfold read_path, decode_path. intros Hr H.
  destruct (decode_path_loop _ _ _ _) as [[p' n]|] eqn:E; [|done].
  simpl in H. injection H as <- <-. apply decode_path_loop_wf in E as [? _]; [|constructor].
  split; [done|]. by apply Forall_drop.
Qed.

(** More fuel does not change [decode_path]: the loop always ends by itself. *)
Lemma decode_path_loop_fuel fuel1 fuel2 data acc off :
  (length data < fuel1)%nat -> (length data < fuel2)%nat ->
  decode_path_loop fuel1 data acc off = decode_path_loop fuel2 data acc off.
Proof.
  revert fuel2 data acc off. induction fuel1 as [|f1 IH]; intros [|f2] data acc off H1 H2;
    try lia. cbn [decode_path_loop]. destruct (decode_uvarint data) as [[v len]|] eqn:E; [|done].
  cbn [ok_or mbind result_bind]. apply decode_uvarint_bound in E as (_ & ? & ?).
  destruct (v =? 0); [done|]. apply IH; rewrite length_drop; lia.
Qed.

Ltac bind_step H :=
  lazymatch type of H with
  | mbind _ ?m = Ok _ =>
      let E := fresh "E" in
      destruct m as [[? ?]|] eqn:E; cbn [mbind result_bind] in H; [|discriminate H];
      first [apply read_uvarint_wf in E | apply read_public_key_wf in E
            | apply read_signature_wf in E | apply read_path_wf in E | idtac];
      [destruct E as [? ?]|assumption]
  end.

Lemma expect_empty_ok {A} (a m : A) r : expect_empty a r = Ok m -> a = m /\ r = [].
Proof. rewrite expect_empty_spec. by destruct r; intros [= <-]. Qed.

Lemma SigReq_decode_wf r m r' : bytes_wf r -> SigReq_decode r = Ok (m, r') -> SigReq_wf m /\ bytes_wf r'.
Proof. unfold SigReq_decode. intros Hr H. do 2 bind_step H. by injection H as <- <-. Qed.

Lemma SigRes_decode_wf r m r' : bytes_wf r -> SigRes_decode r = Ok (m, r') -> SigRes_wf m /\ bytes_wf r'.
Proof. unfold SigRes_decode. intros Hr H. do 4 bind_step H. by injection H as <- <-. Qed.

Lemma Announce_decode_wf r m : bytes_wf r -> Announce_decode r = Ok m -> Announce_wf m.
Proof.
  unfold Announce_decode. intros Hr H. do 2 bind_step H.
  destruct (SigRes_decode _) as [[sr r']|] eqn:E; [|done]. cbn [mbind result_bind] in H.
  apply SigRes_decode_wf in E as [? ?]; [|done]. bind_step H.
  by apply expect_empty_ok in H as [<- ->].
Qed.

Lemma PathLookup_decode_wf r m : bytes_wf r -> PathLookup_decode r = Ok m -> PathLookup_wf m.
Proof.
  unfold PathLookup_decode. intros Hr H. do 3 bind_step H.
  by apply expect_empty_ok in H as [<- ->].
Qed.

Lemma PathNotifyInfo_decode_wf r m r' :
  bytes_wf r -> PathNotifyInfo_decode r = Ok (m, r') -> PathNotifyInfo_wf m /\ bytes_wf r'.
Proof. unfold PathNotifyInfo_decode. intros Hr H. do 3 bind_step H. by injection H as <- <-. Qed.

Lemma PathNotify_decode_wf r m : bytes_wf r -> PathNotify_decode r = Ok m -> PathNotify_wf m.
Proof.
  unfold PathNotify_decode. intros Hr H. do 4 bind_step H.
  destruct (PathNotifyInfo_decode _) as [[sr r']|] eqn:E; [|done]. cbn [mbind result_bind] in H.
  apply PathNotifyInfo_decode_wf in E as [? ?]; [|done].
  by apply expect_empty_ok in H as [<- ->].
Qed.

Lemma PathBroken_decode_wf r m : bytes_wf r -> PathBroken_decode r = Ok m -> PathBroken_wf m.
Proof.
  unfold PathBroken_decode. intros Hr H. do 4 bind_step H.
  by apply expect_empty_ok in H as [<- ->].
Qed.

Lemma Traffic_decode_wf r m : bytes_wf r -> Traffic_decode r = Ok m -> Traffic_wf m.
Proof. unfold Traffic_decode. intros Hr H. do 5 bind_step H. by injection H as <-. Qed.

(** ** Bloom filters *)

Definition flag_set (flags : bytes) (idx : nat) : bool := negb (get_flag flags idx =? 0).

Lemma flag_bit_pow idx : flag_bit idx = 2 ^ (7 - Z.of_nat (idx mod 8)).
Proof.
  unfold flag_bit. pose proof (Nat.mod_upper_bound idx 8 ltac:(lia)).
  change 128 with (2 ^ 7). rewrite Z.shiftr_div_pow2, <- Z.pow_sub_r by lia. done.
Qed.

Lemma flag_set_testbit flags idx :
  flag_set flags idx = Z.testbit (flags !!! (idx / 8)%nat) (7 - Z.of_nat (idx mod 8)).
Proof.
  unfold flag_set, get_flag. pose proof (Nat.mod_upper_bound idx 8 ltac:(lia)).
  by rewrite flag_bit_pow, land_pow2_eqb, negb_involutive by lia.
Qed.

Lemma flag_set_set_flag flags i j :
  (i / 8 < length flags)%nat ->
  flag_set (set_flag flags i) j = flag_set flags j || bool_decide (i = j).
Proof.
  intros Hlen. rewrite !flag_set_testbit. unfold set_flag.
  pose proof (Nat.mod_upper_bound i 8 ltac:(lia)) as Hi.
  pose proof (Nat.mod_upper_bound j 8 ltac:(lia)) as Hj.
  pose proof (Nat.div_mod_eq i 8) as Di. pose proof (Nat.div_mod_eq j 8) as Dj.
  destruct (decide (i / 8 = j / 8)%nat) as [Heq|Hne].
  - rewrite <- Heq. destruct (lookup_lt_is_Some_2 flags (i / 8)%nat Hlen) as [b Hb].
    rewrite !list_lookup_total_alt, list_lookup_alter_eq, Hb. cbn -[Z.sub Z.of_nat Nat.modulo flag_bit Z.testbit Z.lor].
    rewrite Z.lor_spec, flag_bit_pow, Z.pow2_bits_eqb by lia. f_equal.
    apply eq_true_iff_eq. rewrite Z.eqb_eq, bool_decide_eq_true. lia.
  - rewrite !list_lookup_total_alt, list_lookup_alter_ne by done.
    rewrite (bool_decide_eq_false_2 (i = j)), orb_false_r by congruence. done.
Qed.

Lemma set_flag_length flags i : length (set_flag flags i) = length flags.
Proof. apply length_alter. Qed.

Lemma flag_set_zero n j : (j / 8 < n)%nat -> flag_set (replicate n 0) j = false.
Proof.
  intros Hj. rewrite flag_set_testbit, list_lookup_total_alt, lookup_replicate_2 by done.
  apply Z.testbit_0_l.
Qed.

Definition kept (u : Z) : bool := negb (u =? 0) && negb (u =? U64_MAX).
Definition kept_bytes (data : list Z) : bytes := concat (map (to_be_bytes 8) (List.filter kept data)).

Lemma encode_bloom_loop_spec data idx f0 f1 keep :
  (idx + length data <= 128)%nat -> length f0 = 16%nat -> length f1 = 16%nat ->
  exists f0' f1',
    encode_bloom_loop data idx f0 f1 keep = (f0', f1', keep ++ List.filter kept data)
    /\ length f0' = 16%nat /\ length f1' = 16%nat
    /\ (forall j, flag_set f0' j
        = flag_set f0 j || bool_decide ((idx <= j)%nat /\ data !! (j - idx)%nat = Some 0))
    /\ (forall j, flag_set f1' j
        = flag_set f1 j || bool_decide ((idx <= j)%nat /\ data !! (j - idx)%nat = Some U64_MAX)).
Proof.
  revert idx f0 f1 keep. induction data as [|u data IH]; intros idx f0 f1 keep Hidx H0 H1.
  { exists f0, f1. rewrite app_nil_r. split_and!; try done;
    intros j; rewrite bool_decide_eq_false_2, ?orb_false_r; naive_solver. }
  assert (Hshift : forall j (w : Z), ((idx <= j)%nat /\ (u :: data) !! (j - idx)%nat = Some w)
    <-> (idx = j /\ u = w) \/ ((S idx <= j)%nat /\ data !! (j - S idx)%nat = Some w)).
  { intros j w. destruct (decide (idx <= j)%nat); [|naive_solver lia].
    destruct (j - idx)%nat as [|d] eqn:Ed.
    - replace (j - S idx)%nat with 0%nat by lia. cbn. naive_solver lia.
    - replace (j - S idx)%nat with d by lia. cbn. naive_solver lia. }
  cbn [length] in Hidx. pose proof (Nat.Div0.div_lt_upper_bound idx 8 16 ltac:(lia)) as Hdiv.
  cbn [encode_bloom_loop List.filter]. unfold kept.
  destruct (Z.eqb_spec u 0) as [->|Hu0]; [|destruct (Z.eqb_spec u U64_MAX) as [->|Hu1]]; cbn [negb andb].
  - destruct (IH (S idx) (set_flag f0 idx) f1 keep) as (g0 & g1 & -> & L0 & L1 & G0 & G1);
      [lia|by rewrite set_flag_length|done|].
    exists g0, g1. split_and!; [done..| |]; intros j; [rewrite G0, flag_set_set_flag by lia|rewrite G1];
      rewrite (bool_decide_ext _ _ (Hshift j _)); rewrite ?bool_decide_or.
    + rewrite <- orb_assoc. f_equal. f_equal. apply bool_decide_ext. naive_solver.
    + f_equal. rewrite (bool_decide_eq_false_2 (idx = j /\ 0 = U64_MAX)) by (intros [_ [=]]). done.
  - destruct (IH (S idx) f0 (set_flag f1 idx) keep) as (g0 & g1 & -> & L0 & L1 & G0 & G1);
      [lia|done|by rewrite set_flag_length|].
    exists g0, g1. split_and!; [done..| |]; intros j; [rewrite G0|rewrite G1, flag_set_set_flag by lia];
      rewrite (bool_decide_ext _ _ (Hshift j _)); rewrite ?bool_decide_or.
    + f_equal. rewrite (bool_decide_eq_false_2 (idx = j /\ U64_MAX = 0)) by naive_solver. done.
    + rewrite <- orb_assoc. f_equal. f_equal. apply bool_decide_ext. naive_solver.
  - destruct (IH (S idx) f0 f1 (keep ++ [u])) as (g0 & g1 & -> & L0 & L1 & G0 & G1); [lia|done..|].
    exists g0, g1. rewrite <- app_assoc. split_and!; [done..| |]; intros j; rewrite ?G0, ?G1;
      rewrite (bool_decide_ext _ _ (Hshift j _)); f_equal; apply bool_decide_ext; naive_solver.
Qed.

Lemma decode_bloom_loop_spec data idx f0 f1 rest acc :
  Forall is_u64 data ->
  (forall k u, data !! k = Some u ->
     flag_set f0 (idx + k)%nat = (u =? 0) /\ flag_set f1 (idx + k)%nat = (u =? U64_MAX)) ->
  decode_bloom_loop (length data) idx f0 f1 (kept_bytes data ++ rest) acc = Ok (acc ++ data, rest).
Proof.
  intros Hu. revert idx acc. induction Hu as [|u data Hu Hdata IH]; intros idx acc Hf.
  { cbn. by rewrite app_nil_r. }
  destruct (Hf 0%nat u eq_refl) as [H0 H1]. rewrite Nat.add_0_r in H0, H1.
  assert (Hf' : forall k w, data !! k = Some w ->
    flag_set f0 (S idx + k)%nat = (w =? 0) /\ flag_set f1 (S idx + k)%nat = (w =? U64_MAX)).
  { intros k w Hk. replace (S idx + k)%nat with (idx + S k)%nat by lia. by apply Hf. }
  unfold flag_set in H0, H1. cbn [length decode_bloom_loop]. rewrite H0, H1.
  unfold kept_bytes. cbn [List.filter].
  change (kept u) with (negb (u =? 0) && negb (u =? U64_MAX)).
  destruct (Z.eqb_spec u 0) as [->|]; [|destruct (Z.eqb_spec u U64_MAX) as [->|]];
    cbn [negb andb map concat].
  - rewrite IH, <- app_assoc by done. done.
  - rewrite IH, <- app_assoc by done. done.
  - rewrite <- app_assoc, read_fixed_app by apply to_be_bytes_length. cbn [mbind result_bind].
    rewrite IH, <- app_assoc, from_to_be_bytes by done. done.
Qed.

Lemma encode_bloom_keep out keep :
  foldl (fun out u => out ++ to_be_bytes 8 u) out keep = out ++ concat (map (to_be_bytes 8) keep).
Proof.
  revert out. induction keep as [|u keep IH]; intros out; simpl; [by rewrite app_nil_r|].
  by rewrite IH, <- app_assoc.
Qed.

Lemma bloom_flags data f0 f1 :
  length data = BLOOM_FILTER_U64S ->
  (forall j, flag_set f0 j = flag_set (replicate 16 0) j
     || bool_decide ((0 <= j)%nat /\ data !! (j - 0)%nat = Some 0)) ->
  (forall j, flag_set f1 j = flag_set (replicate 16 0) j
     || bool_decide ((0 <= j)%nat /\ data !! (j - 0)%nat = Some U64_MAX)) ->
  forall k u, data !! k = Some u ->
     flag_set f0 (0 + k)%nat = (u =? 0) /\ flag_set f1 (0 + k)%nat = (u =? U64_MAX).
Proof.
  intros Hlen H0 H1 k u Hk. cbn [Nat.add].
  assert (Hk128 : (k < 128)%nat) by (apply lookup_lt_Some in Hk; unfold BLOOM_FILTER_U64S in Hlen; lia).
  assert (k / 8 < 16)%nat by (apply Nat.Div0.div_lt_upper_bound; lia).
  rewrite H0, H1, !flag_set_zero, Nat.sub_0_r, Hk by done. cbn [orb].
  split; apply eq_true_iff_eq; rewrite bool_decide_eq_true, Z.eqb_eq; naive_solver lia.
Qed.

#[local] Opaque decode_bloom_loop.
Lemma decode_bloom_app f0 f1 r :
  length f0 = 16%nat -> length f1 = 16%nat ->
  decode_bloom (f0 ++ f1 ++ r)
  = ('(words, r) ← decode_bloom_loop BLOOM_FILTER_U64S 0 f0 f1 r []; expect_empty words r).
Proof.
  intros H0 H1. unfold decode_bloom.
  rewrite read_fixed_app, bind_ok by done.
  rewrite read_fixed_app, bind_ok by done. reflexivity.
Qed.

Lemma decode_encode_bloom data r :
  bloom_wf data -> decode_bloom (encode_bloom [] data ++ r) = whole data r.
Proof.
  intros [Hlen Hu]. unfold encode_bloom.
  destruct (encode_bloom_loop_spec data 0 (replicate 16 0) (replicate 16 0) [])
    as (f0 & f1 & Henc & L0 & L1 & G0 & G1); [rewrite Hlen; unfold BLOOM_FILTER_U64S; lia|done|done|].
  unfold BLOOM_FILTER_FLAGS. rewrite Henc, encode_bloom_keep, <- !app_assoc. cbn [app].
  fold (kept_bytes data). rewrite decode_bloom_app by done.
  rewrite <- Hlen, (decode_bloom_loop_spec data 0 f0 f1 r []) by (done || by apply bloom_flags).
  rewrite bind_ok. apply expect_empty_spec.
Qed.
#[local] Transparent decode_bloom_loop.

Lemma decode_bloom_loop_wf n idx f0 f1 r acc ws r' :
  bytes_wf r -> Forall is_u64 acc -> decode_bloom_loop n idx f0 f1 r acc = Ok (ws, r') ->
  length ws = (length acc + n)%nat /\ Forall is_u64 ws.
Proof.
  revert idx r acc. induction n as [|n IH]; intros idx r acc Hr Hacc; cbn [decode_bloom_loop].
  { intros [= <- <-]. split; [lia|done]. }
  assert (Hstep : forall v r0, bytes_wf r0 -> is_u64 v ->
    decode_bloom_loop n (S idx) f0 f1 r0 (acc ++ [v]) = Ok (ws, r') ->
    length ws = (length acc + S n)%nat /\ Forall is_u64 ws).
  { intros v r0 Hr0 Hv H. apply IH in H as [Hl Hw]; [|done|by apply Forall_app; split; [|apply Forall_singleton]].
    rewrite length_app in Hl. simpl in Hl. split; [lia|done]. }
  repeat case_match; try done.
  - apply Hstep; [done|unfold is_u64; lia].
  - apply Hstep; [done|unfold is_u64, U64_MAX; lia].
  - destruct (read_fixed 8 r) as [[bs r1]|] eqn:E; [|done]. cbn [mbind result_bind].
    apply read_fixed_wf in E as (Hl & Hbs & Hr1); [|done].
    apply Hstep; [done|]. apply from_be_bytes_bound in Hbs. by rewrite Hl in Hbs.
Qed.

Lemma decode_bloom_wf r ws : bytes_wf r -> decode_bloom r = Ok ws -> bloom_wf ws.
Proof.
  unfold decode_bloom. intros Hr H.
  destruct (read_fixed _ r) as [[f0 r1]|] eqn:E1; [|done]. rewrite bind_ok in H.
  apply read_fixed_wf in E1 as (_ & _ & Hr1); [|done].
  destruct (read_fixed _ r1) as [[f1 r2]|] eqn:E2; [|done]. rewrite bind_ok in H.
  apply read_fixed_wf in E2 as (_ & _ & Hr2); [|done].
  destruct (decode_bloom_loop _ _ _ _ _ _) as [[w r3]|] eqn:E3; [|done]. rewrite bind_ok in H.
  apply decode_bloom_loop_wf in E3 as [Hl Hw]; [|done|constructor].
  by apply expect_empty_ok in H as [<- ->].
Qed.

(** ** Frames *)

Lemma Traffic_size_eq m : Traffic_wf m -> Traffic_size m = length (Traffic_encode m []).
Proof.
  intros Hm. rewrite Traffic_encode_eq by done.
  destruct Hm as (? & ? & [? _] & [? _] & ? & ?). unfold Traffic_size.
  rewrite !path_size_eq, uvarint_size_eq by done. cbn [app]. rewrite !length_app. lia.
Qed.

Lemma encode_traffic_frame_eq path from source dest watermark payload :
  Traffic_wf (mkTraffic path from source dest watermark payload) ->
  encode_traffic_frame path from source dest watermark payload
  = encode_frame TrafficType (Traffic_encode (mkTraffic path from source dest watermark payload) []).
Proof.
  intros Hm. unfold encode_traffic_frame, encode_frame.
  rewrite <- Traffic_size_eq by done. unfold Traffic_size. cbn [tr_path tr_from tr_watermark tr_payload].
  replace (1 + path_size path + path_size from + PUBLIC_KEY_SIZE + PUBLIC_KEY_SIZE
           + uvarint_size watermark + length payload)%nat
    with (1 + (path_size path + path_size from + PUBLIC_KEY_SIZE + PUBLIC_KEY_SIZE
           + uvarint_size watermark + length payload))%nat by lia.
  rewrite Traffic_encode_eq by done. destruct Hm as (? & ? & ? & ? & ? & ?); simpl in *.
  wire_encode. done.
Qed.

(** ** Properties *)

(** The variable-length integer codec. Every u64 encodes to between one and
    ten bytes, [uvarint_size] predicts the length exactly, and decoding the
    encoding followed by anything gives the value back and consumes exactly the
    encoding. *)
Theorem uvarint_codec v rest (Hv : is_u64 v) :
  let enc := encode_uvarint [] v in
  decode_uvarint (enc ++ rest) = Some (v, length enc)
  /\ uvarint_size v = length enc /\ (1 <= length enc <= 10)%nat /\ bytes_wf enc.
Proof.
  intros enc. unfold enc. rewrite encode_uvarint_eq by done. cbn [app].
  pose proof (decode_uvarint_leb v rest Hv) as Hd. pose proof (decode_uvarint_bound _ _ _ Hd) as (_ & ? & _).
  split_and!; [done|by apply uvarint_size_eq|lia..|]. apply leb128_u8. unfold is_u64 in Hv. lia.
Qed.

Lemma uvarint_codec_witness :
  decode_uvarint (encode_uvarint [] 300 ++ [7]) = Some (300, 2%nat).
Proof. apply (uvarint_codec 300 [7]). unfold is_u64. lia. Defined.

(** Round trips of the control messages. A well-formed message encodes to
    bytes that decode to the same message; a decoder of whole messages rejects
    the encoding when anything follows it, and the decoders that leave a rest
    leave exactly what follows. *)
Theorem messages_roundtrip r :
  (forall m, SigReq_wf m -> SigReq_decode (SigReq_encode m [] ++ r) = Ok (m, r))
  /\ (forall m, SigRes_wf m -> SigRes_decode (SigRes_encode m [] ++ r) = Ok (m, r))
  /\ (forall m, Announce_wf m -> Announce_decode (Announce_encode m [] ++ r) = whole m r)
  /\ (forall m, PathLookup_wf m -> PathLookup_decode (PathLookup_encode m [] ++ r) = whole m r)
  /\ (forall m, PathNotify_wf m -> PathNotify_decode (PathNotify_encode m [] ++ r) = whole m r)
  /\ (forall m, PathBroken_wf m -> PathBroken_decode (PathBroken_encode m [] ++ r) = whole m r).
Proof.
  split_and!; intros m Hm.
  - by apply SigReq_decode_encode.
  - by apply SigRes_decode_encode.
  - by apply Announce_decode_encode.
  - by apply PathLookup_decode_encode.
  - by apply PathNotify_decode_encode.
  - by apply PathBroken_decode_encode.
Qed.

Lemma messages_roundtrip_witness :
  let m := mkPathLookup (replicate 32 1) (replicate 32 2) [3; 300] in
  PathLookup_wf m /\ PathLookup_decode (PathLookup_encode m []) = Ok m.
Proof.
  intros m. assert (Hm : PathLookup_wf m).
  { unfold PathLookup_wf, key_wf, path_wf, is_u8, is_u64. simpl.
    split_and!; try done; repeat (constructor; [lia|]); constructor. }
  split; [done|]. pose proof (messages_roundtrip []) as (_ & _ & _ & Hpl & _).
  specialize (Hpl m Hm). by rewrite app_nil_r in Hpl.
Defined.

(** Decoding untrusted bytes. Whatever a peer sends, a decoder that accepts
    returns a message within its types: 32-byte keys, 64-byte signatures, u64
    numbers, and paths without a zero port, so a decoded path can be encoded
    again unambiguously. *)
Theorem decoded_messages_wf r (Hr : bytes_wf r) :
  (forall m r', SigReq_decode r = Ok (m, r') -> SigReq_wf m)
  /\ (forall m r', SigRes_decode r = Ok (m, r') -> SigRes_wf m)
  /\ (forall m, Announce_decode r = Ok m -> Announce_wf m)
  /\ (forall m, PathLookup_decode r = Ok m -> PathLookup_wf m)
  /\ (forall m, PathNotify_decode r = Ok m -> PathNotify_wf m)
  /\ (forall m, PathBroken_decode r = Ok m -> PathBroken_wf m)
  /\ (forall m, Traffic_decode r = Ok m -> Traffic_wf m)
  /\ (forall ws, decode_bloom r = Ok ws -> bloom_wf ws).
Proof.
  split_and!; intros *.
  - intros H. by apply SigReq_decode_wf in H as [? _].
  - intros H. by apply SigRes_decode_wf in H as [? _].
  - by apply Announce_decode_wf.
  - by apply PathLookup_decode_wf.
  - by apply PathNotify_decode_wf.
  - by apply PathBroken_decode_wf.
  - by apply Traffic_decode_wf.
  - by apply decode_bloom_wf.
Qed.

Lemma decoded_messages_wf_witness : SigReq_wf (mkSigReq 300 5).
Proof.
  destruct (decoded_messages_wf [172; 2; 5]) as [Hs _]; [repeat constructor; unfold is_u8; lia|].
  apply (Hs (mkSigReq 300 5) []). reflexivity.
Defined.

(** The compressed Bloom filter: 128 words encode to two flag bitmaps (all
    zeros, all ones) and the remaining words in big endian; decoding gives the
    same words and rejects trailing bytes. *)
Theorem bloom_codec data r (Hdata : bloom_wf data) :
  decode_bloom (encode_bloom [] data ++ r) = whole data r.
Proof. by apply decode_encode_bloom. Qed.

Lemma bloom_codec_witness :
  decode_bloom (encode_bloom [] (replicate 128 5) ++ []) = Ok (replicate 128 5).
Proof.
  apply (bloom_codec (replicate 128 5) []). split; [done|]. apply Forall_replicate. unfold is_u64. lia.
Defined.

(** The single-pass traffic encoder agrees with the two-step one: its bytes
    are the length-prefixed frame of the encoded packet, its size computation is
    exact, and the packet decodes back. *)
Theorem traffic_frame_equivalent path from source dest watermark payload
    (Hm : Traffic_wf (mkTraffic path from source dest watermark payload)) :
  let m := mkTraffic path from source dest watermark payload in
  encode_traffic_frame path from source dest watermark payload
    = encode_frame TrafficType (Traffic_encode m [])
  /\ Traffic_size m = length (Traffic_encode m [])
  /\ Traffic_decode (Traffic_encode m []) = Ok m.
Proof.
  intros m. split_and!; [by apply encode_traffic_frame_eq|by apply Traffic_size_eq|by apply Traffic_decode_encode].
Qed.

Lemma traffic_frame_equivalent_witness :
  Traffic_size (mkTraffic [1; 200] [] (replicate 32 1) (replicate 32 2) 9 [42]) = 71%nat
  /\ encode_traffic_frame [1; 200] [] (replicate 32 1) (replicate 32 2) 9 [42]
     = encode_frame TrafficType
         (Traffic_encode (mkTraffic [1; 200] [] (replicate 32 1) (replicate 32 2) 9 [42]) []).
Proof.
  split; [reflexivity|].
  apply (traffic_frame_equivalent [1; 200] [] (replicate 32 1) (replicate 32 2) 9 [42]).
  unfold Traffic_wf, key_wf, path_wf, is_u8, is_u64. simpl.
  split_and!; try done; repeat (constructor; [lia|]); constructor.
Defined.
