(* ===== verification/WireExact.v ===== *)
(** * WireExact: what the decoders accept

    The layout of every message as a grammar on bytes, written without the readers,
    and that each decoder of [crates/ironwood/src/wire.rs] accepts exactly the bytes
    of its layout and returns the message they spell. The grammar allows padded
    integers, which the encoders never write and the decoders take. *)

From S2P Require Import Prelude.
From S2P Require Import Wire.
From stdpp Require Import options.
Open Scope Z_scope.

(** ** The grammar *)

(** The bytes of an integer from byte [i] on: groups of seven bits, the lowest
    first, all but the last marked; at most ten bytes, of which the tenth holds one
    bit, so the value is below 2^64. *)
Inductive varint_at : nat -> bytes -> Z -> Prop :=
| varint_last i b : (i <= 9)%nat -> 0 <= b < 128 -> (i = 9%nat -> b <= 1) -> varint_at i [b] b
| varint_more i b bs v : (i < 9)%nat -> 128 <= b < 256 -> varint_at (S i) bs v -> varint_at i (b :: bs) (b - 128 + 128 * v).

Definition varint : bytes -> Z -> Prop := varint_at 0.

(** The ports of a path, none of them zero, and a zero. *)
Inductive path_layout : bytes -> list PeerPort -> Prop :=
| path_end bs : varint bs 0 -> path_layout bs []
| path_port bs port bs' ports : varint bs port -> port <> 0 -> path_layout bs' ports -> path_layout (bs ++ bs') (port :: ports).

Definition fixed (n : nat) (bs x : bytes) : Prop := bs = x /\ length x = n.
Definition is_key : bytes -> PublicKey -> Prop := fixed 32.
Definition is_sig : bytes -> Sig -> Prop := fixed 64.

(** One field after the other. *)
Definition seq {A B} (P : bytes -> A -> Prop) (Q : A -> bytes -> B -> Prop) (bs : bytes) (b : B) : Prop :=
  exists a b1 b2, bs = b1 ++ b2 /\ P b1 a /\ Q a b2 b.
Definition done_with {A} (a : A) (bs : bytes) (b : A) : Prop := bs = [] /\ b = a.

Definition SigReq_layout : bytes -> SigReq -> Prop :=
  seq varint (fun seq_no => seq varint (fun nonce => done_with (mkSigReq seq_no nonce))).
Definition SigRes_layout : bytes -> SigRes -> Prop :=
  seq varint (fun seq_no => seq varint (fun nonce => seq varint (fun port => seq is_sig (fun psig =>
    done_with (mkSigRes seq_no nonce port psig))))).
Definition Announce_layout : bytes -> Announce -> Prop :=
  seq is_key (fun key => seq is_key (fun parent => seq SigRes_layout (fun res => seq is_sig (fun sig =>
    done_with (mkAnnounce key parent res sig))))).
Definition PathLookup_layout : bytes -> PathLookup -> Prop :=
  seq is_key (fun source => seq is_key (fun dest => seq path_layout (fun from => done_with (mkPathLookup source dest from)))).
Definition PathNotifyInfo_layout : bytes -> PathNotifyInfo -> Prop :=
  seq varint (fun seq_no => seq path_layout (fun path => seq is_sig (fun sig => done_with (mkPathNotifyInfo seq_no path sig)))).
Definition PathNotify_layout : bytes -> PathNotify -> Prop :=
  seq path_layout (fun path => seq varint (fun watermark => seq is_key (fun source => seq is_key (fun dest =>
    seq PathNotifyInfo_layout (fun info => done_with (mkPathNotify path watermark source dest info)))))).
Definition PathBroken_layout : bytes -> PathBroken -> Prop :=
  seq path_layout (fun path => seq varint (fun watermark => seq is_key (fun source => seq is_key (fun dest =>
    done_with (mkPathBroken path watermark source dest))))).
Definition Traffic_layout : bytes -> Traffic -> Prop :=
  seq path_layout (fun path => seq path_layout (fun from => seq is_key (fun source => seq is_key (fun dest =>
    seq varint (fun watermark bs m => m = mkTraffic path from source dest watermark bs))))).

(** ** Readers *)

(** A reader takes exactly a prefix of the layout; a decoder exactly the layout. *)
Definition reads {A} (rd : bytes -> result Error (A * bytes)) (P : bytes -> A -> Prop) : Prop :=
  forall r a r', bytes_wf r -> rd r = Ok (a, r') <-> exists bs, r = bs ++ r' /\ P bs a.
Definition accepts {A} (dec : bytes -> result Error A) (P : bytes -> A -> Prop) : Prop :=
  forall r a, bytes_wf r -> dec r = Ok a <-> P r a.

Lemma reads_bind {A B} (rd : bytes -> result Error (A * bytes)) P (k : A -> bytes -> result Error (B * bytes)) Q :
  reads rd P -> (forall a, reads (k a) (Q a)) -> reads (fun r => '(a, r) ← rd r; k a r) (seq P Q).
Proof.
  intros Hr Hk r b r' Hwf. split.
  - intros E. destruct (rd r) as [[a r1]|] eqn:Er; [|done]. apply Hr in Er as (b1 & -> & Hp); [|done].
    apply Forall_app in Hwf as [_ Hwf]. apply Hk in E as (b2 & -> & Hq); [|done]. exists (b1 ++ b2). rewrite <- app_assoc.
    split; [done|]. by exists a, b1, b2.
  - intros (bs & -> & a & b1 & b2 & -> & Hp & Hq). rewrite <- app_assoc in *.
    assert (rd (b1 ++ b2 ++ r') = Ok (a, b2 ++ r')) as -> by (apply Hr; [done|]; by exists b1).
    cbn. apply Hk; [by apply Forall_app in Hwf as [_ ?]|]. by exists b2.
Qed.

Lemma reads_done {A} (a : A) : reads (fun r => Ok (a, r)) (done_with a).
Proof. intros r b r' _. unfold done_with. split; [intros [= <- <-]; by exists []|]. by intros (bs & -> & -> & ->). Qed.

Lemma accepts_bind {A B} (rd : bytes -> result Error (A * bytes)) P (k : A -> bytes -> result Error B) Q :
  reads rd P -> (forall a, accepts (k a) (Q a)) -> accepts (fun r => '(a, r) ← rd r; k a r) (seq P Q).
Proof.
  intros Hr Hk r b Hwf. split.
  - intros E. destruct (rd r) as [[a r1]|] eqn:Er; [|done]. apply Hr in Er as (b1 & -> & Hp); [|done].
    apply Forall_app in Hwf as [_ Hwf]. apply Hk in E; [|done]. by exists a, b1, r1.
  - intros (a & b1 & b2 & -> & Hp & Hq). assert (rd (b1 ++ b2) = Ok (a, b2)) as -> by (apply Hr; [done|]; by exists b1).
    cbn. apply Hk; [by apply Forall_app in Hwf as [_ ?]|done].
Qed.

Lemma accepts_done {A} (a : A) : accepts (expect_empty a) (done_with a).
Proof. intros r b _. unfold expect_empty, done_with. destruct r; cbn; split; [by intros [= <-]|by intros [_ ->]|done|by intros [? _]]. Qed.

Lemma reads_fixed n : reads (read_fixed n) (fixed n).
Proof.
  intros r x r' _. unfold read_fixed, fixed. destruct (Nat.ltb_spec (length r) n) as [Hlt|Hge]; split.
  - done.
  - intros (bs & -> & -> & Hl). rewrite length_app in Hlt. lia.
  - intros [= <- <-]. exists (take n r). rewrite take_drop, length_take_le by lia. done.
  - intros (bs & -> & -> & Hl). by rewrite take_app_exact, drop_app_exact.
Qed.

(** ** Integers and paths *)

Lemma varint_at_range i bs v : varint_at i bs v -> 0 <= v /\ v * 2 ^ (7 * Z.of_nat i) < 2 ^ 64 /\ (i <= 9)%nat.
Proof.
  induction 1 as [i b Hi Hb Hl|i b bs v Hi Hb _ (IH1 & IH2 & IH3)].
  - split; [lia|]. split; [|done]. destruct (decide (i = 9%nat)) as [->|].
    + specialize (Hl eq_refl). change (2 ^ (7 * Z.of_nat 9)) with (2 ^ 63). lia.
    + assert (2 ^ (7 * Z.of_nat i) <= 2 ^ 56) by (apply Z.pow_le_mono_r; lia). change (2 ^ 64) with (2 ^ 56 * 256). nia.
  - rewrite pow_7_succ in IH2. split; [lia|]. split; [|lia]. assert (0 < 2 ^ (7 * Z.of_nat i)) by (apply Z.pow_pos_nonneg; lia).
    assert (exists c, 2 ^ 64 = c * (2 ^ (7 * Z.of_nat i) * 128)) as [c Hc].
    { exists (2 ^ (64 - 7 * Z.of_nat i - 7)). change 128 with (2 ^ 7). rewrite <- !Z.pow_add_r by lia. f_equal. lia. }
    rewrite Hc in *. assert (v < c) by (apply (Z.mul_lt_mono_pos_r (2 ^ (7 * Z.of_nat i) * 128)); lia). nia.
Qed.

Lemma decode_uvarint_loop_exact data : forall i value v n, bytes_wf data -> (i <= 9)%nat -> 0 <= value < 2 ^ (7 * Z.of_nat i) ->
  decode_uvarint_loop data i (7 * Z.of_nat i) value = Some (v, n) <->
  exists bs rest u, data = bs ++ rest /\ varint_at i bs u /\ v = value + u * 2 ^ (7 * Z.of_nat i) /\ n = (i + length bs)%nat.
Proof.
  induction data as [|b data IH]; intros i value v n Hwf Hi Hv; cbn [decode_uvarint_loop].
  { split; [done|]. intros ([|b bs] & rest & u & He & Hb & _); [inversion Hb|done]. }
  apply Forall_cons in Hwf as [Hb Hwf]. unfold is_u8 in Hb. assert (0 < 2 ^ (7 * Z.of_nat i)) as Hpos by (apply Z.pow_pos_nonneg; lia).
  assert (forall x, 0 <= x -> (i = 9%nat -> x <= 1) -> x < 128 -> x * 2 ^ (7 * Z.of_nat i) < 2 ^ 64) as Hsmall.
  { intros x Hx H9 H128. destruct (decide (i = 9%nat)) as [->|]; [specialize (H9 eq_refl); change (2 ^ (7 * Z.of_nat 9)) with (2 ^ 63); lia|].
    assert (2 ^ (7 * Z.of_nat i) <= 2 ^ 56) by (apply Z.pow_le_mono_r; lia). change (2 ^ 64) with (2 ^ 56 * 256). nia. }
  destruct ((63 <=? 7 * Z.of_nat i) && (1 <? b)) eqn:Eb.
  { split; [done|]. intros (bs & rest & u & He & Hb' & _). inversion Hb' as [? x ? ? Hl|? x ? ? Hl]; subst; injection He as -> ->;
      assert (i = 9%nat) by lia; [specialize (Hl ltac:(done)); lia|lia]. }
  assert (i = 9%nat -> b <= 1) as H9.
  { intros ->. apply andb_false_iff in Eb as [Eb|Eb]; [by vm_compute in Eb|]. apply Z.ltb_ge in Eb. done. }
  rewrite land_127, land_128_eqb by lia. destruct (Z.ltb_spec b 128) as [Hlt|Hge].
  - rewrite Z.mod_small, merge_bits by (try lia; apply Hsmall; lia). split.
    + intros [= <- <-]. exists [b], data, b. split_and!; [done|apply varint_last; [done|lia|done]|done|cbn; lia].
    + intros (bs & rest & u & He & Hb' & -> & ->). inversion Hb'; subst; injection He as -> ->; [|lia]. f_equal. f_equal; cbn; lia.
  - assert (i < 9)%nat by (destruct (decide (i = 9%nat)); [specialize (H9 ltac:(done)); lia|lia]). destruct (Nat.leb_spec 9 i); [lia|].
    assert (b mod 128 = b - 128) as Hm by (symmetry; apply (Z.mod_unique _ _ 1); lia). rewrite Hm.
    rewrite merge_bits by (try lia; apply Hsmall; lia). replace (7 * Z.of_nat i + 7) with (7 * Z.of_nat (S i)) by lia.
    rewrite IH by (try done; try lia; rewrite pow_7_succ; nia). split.
    + intros (bs & rest & u & -> & Hu & -> & ->). exists (b :: bs), rest, (b - 128 + 128 * u).
      split_and!; [done|apply varint_more; [done|lia|done]|rewrite pow_7_succ; nia|cbn; lia].
    + intros (bs & rest & u & He & Hb' & -> & ->). inversion Hb' as [|? x bs' u' ? ? Hu]; subst; injection He as -> ->; [lia|].
      exists bs', rest, u'. split_and!; [done|done|rewrite pow_7_succ; nia|cbn; lia].
Qed.

Lemma decode_uvarint_exact data v n : bytes_wf data ->
  decode_uvarint data = Some (v, n) <-> exists bs rest, data = bs ++ rest /\ varint bs v /\ n = length bs.
Proof.
  intros Hwf. unfold decode_uvarint. pose proof (decode_uvarint_loop_exact data 0 0 v n Hwf) as H. change (7 * Z.of_nat 0) with 0 in H.
  rewrite H by lia. split.
  - intros (bs & rest & u & -> & Hu & -> & ->). exists bs, rest. split; [done|]. split; [|done]. by replace (0 + u * 2 ^ 0) with u by lia.
  - intros (bs & rest & -> & Hu & ->). exists bs, rest, v. split_and!; [done|done|lia|done].
Qed.

Lemma reads_varint : reads read_uvarint varint.
Proof.
  intros r v r' Hwf. unfold read_uvarint. split.
  - destruct (decode_uvarint r) as [[x n]|] eqn:E; [|done]. apply decode_uvarint_exact in E as (bs & rest & -> & Hb & ->); [|done].
    cbn. rewrite drop_app_length. intros [= <- <-]. by exists bs.
  - intros (bs & -> & Hb). assert (decode_uvarint (bs ++ r') = Some (v, length bs)) as ->
      by (apply decode_uvarint_exact; [done|]; by exists bs, r'). cbn. by rewrite drop_app_length.
Qed.

Lemma decode_path_loop_exact fuel : forall data acc off p n, bytes_wf data -> (length data < fuel)%nat ->
  decode_path_loop fuel data acc off = Ok (p, n) <->
  exists bs rest q, data = bs ++ rest /\ path_layout bs q /\ p = acc ++ q /\ n = (off + length bs)%nat.
Proof.
  induction fuel as [|fuel IH]; intros data acc off p n Hwf Hf; [lia|]. cbn [decode_path_loop]. split.
  - destruct (decode_uvarint data) as [[v len]|] eqn:E; [|done]. apply decode_uvarint_exact in E as (bs & rest & -> & Hb & ->); [|done].
    cbn. rewrite drop_app_length. apply Forall_app in Hwf as [_ Hwf]. destruct (Z.eqb_spec v 0) as [->|Hv].
    + intros [= <- <-]. exists bs, rest, []. rewrite app_nil_r. split_and!; [done|by constructor|done|done].
    + assert (bs <> []) by (by inversion Hb). destruct bs as [|x bs]; [done|]. cbn [app length] in Hf. rewrite length_app in Hf.
      intros (bs' & rest' & q & -> & Hq & -> & ->)%IH; [|done|lia].
      exists ((x :: bs) ++ bs'), rest', (v :: q). rewrite <- !app_assoc, length_app. split_and!; [done|by constructor|done|lia].
  - intros (bs & rest & q & -> & Hq & -> & ->). inversion Hq as [b0 Hb|b0 v bs' q' Hb Hv Hq']; subst.
    + assert (decode_uvarint (bs ++ rest) = Some (0, length bs)) as ->
        by (apply decode_uvarint_exact; [done|]; by exists bs, rest). cbn. by rewrite app_nil_r.
    + rewrite <- app_assoc in *. assert (decode_uvarint (b0 ++ bs' ++ rest) = Some (v, length b0)) as ->
        by (apply decode_uvarint_exact; [done|]; by exists b0, (bs' ++ rest)). cbn.
      destruct (Z.eqb_spec v 0) as [|_]; [done|]. rewrite drop_app_length. apply Forall_app in Hwf as [_ Hwf].
      assert (b0 <> []) by (by inversion Hb). destruct b0 as [|x b0]; [done|]. cbn [app length] in Hf. rewrite length_app in Hf.
      apply IH; [done|lia|]. exists bs', rest, q'. rewrite <- app_assoc, length_app. split_and!; [done|done|done|lia].
Qed.

Lemma reads_path : reads read_path path_layout.
Proof.
  intros r p r' Hwf. unfold read_path, decode_path. split.
  - destruct (decode_path_loop _ _ _ _) as [[q n]|] eqn:E; [|done].
    apply decode_path_loop_exact in E as (bs & rest & q' & -> & Hb & -> & ->); [|done|lia].
    cbn. rewrite drop_app_length. intros [= <- <-]. by exists bs.
  - intros (bs & -> & Hb). assert (decode_path_loop (S (length (bs ++ r'))) (bs ++ r') [] 0 = Ok (p, length bs)) as ->
      by (apply decode_path_loop_exact; [done|lia|]; by exists bs, r', p). cbn. by rewrite drop_app_length.
Qed.

(** ** Messages *)

Ltac solve_reads := repeat first
  [ apply reads_varint | apply reads_path | apply (reads_fixed 32) | apply (reads_fixed 64) | apply reads_done | apply accepts_done
  | assumption | eapply reads_bind; [|intros ?] | eapply accepts_bind; [|intros ?] ].

Lemma SigReq_reads : reads SigReq_decode SigReq_layout.
Proof. solve_reads. Qed.

Lemma SigRes_reads : reads SigRes_decode SigRes_layout.
Proof. solve_reads. Qed.

Lemma PathNotifyInfo_reads : reads PathNotifyInfo_decode PathNotifyInfo_layout.
Proof. solve_reads. Qed.

(** C16: Decoding untrusted bytes is exact. A decoder accepts bytes exactly when they
    spell a message: its fields in their order, integers in at most ten groups of
    seven bits that fit 64 bits (padded ones included), paths of ports that are not
    zero up to a zero, keys of 32 and signatures of 64 bytes, and nothing behind the
    last field, except for the payload of traffic, which is the rest; and it returns
    the message that they spell. The two messages that are parts of others leave
    what follows them. *)
Theorem decoders_exact r (Hr : bytes_wf r) :
  (forall m r', SigReq_decode r = Ok (m, r') <-> exists bs, r = bs ++ r' /\ SigReq_layout bs m)
  /\ (forall m r', SigRes_decode r = Ok (m, r') <-> exists bs, r = bs ++ r' /\ SigRes_layout bs m)
  /\ (forall m, Announce_decode r = Ok m <-> Announce_layout r m)
  /\ (forall m, PathLookup_decode r = Ok m <-> PathLookup_layout r m)
  /\ (forall m, PathNotify_decode r = Ok m <-> PathNotify_layout r m)
  /\ (forall m, PathBroken_decode r = Ok m <-> PathBroken_layout r m)
  /\ (forall m, Traffic_decode r = Ok m <-> Traffic_layout r m).
Proof.
  pose proof SigRes_reads. pose proof PathNotifyInfo_reads. split_and!.
  - intros m r'. by apply SigReq_reads.
  - intros m r'. by apply SigRes_reads.
  - intros m. revert r m Hr. change (accepts Announce_decode Announce_layout). solve_reads.
  - intros m. revert r m Hr. change (accepts PathLookup_decode PathLookup_layout). solve_reads.
  - intros m. revert r m Hr. change (accepts PathNotify_decode PathNotify_layout). solve_reads.
  - intros m. revert r m Hr. change (accepts PathBroken_decode PathBroken_layout). solve_reads.
  - intros m. revert r m Hr. change (accepts Traffic_decode Traffic_layout). solve_reads.
    intros r m _. split; [by intros [= <-]|by intros ->].
Qed.

(** A padded integer is taken. *)
Lemma decoders_exact_witness : SigReq_layout [172; 130; 0; 5] (mkSigReq 300 5).
Proof.
  destruct (decoders_exact [172; 130; 0; 5]) as [Hs _]; [repeat constructor; unfold is_u8; lia|].
  destruct (proj1 (Hs (mkSigReq 300 5) []) eq_refl) as (bs & He & Hl). by rewrite app_nil_r in He; subst bs.
Defined.
