(* ===== verification/Bloom.v ===== *)
(** * Bloom filters (crates/ironwood/src/bloom.rs)

    The 8192-bit filter with its eight hash locations, and the [Blooms] manager
    that keeps, per peer, the filter we send and the filter we received. The
    murmur3 hash is a crate outside the repository: it is a parameter. *)

From S2P Require Import Prelude Wire.

Definition BLOOM_FILTER_BITS : Z := 8192.
Definition BLOOM_FILTER_K : nat := 8.

(** ** The filter *)

Section Filter.
(** [murmur3::murmur3_x64_128(data, seed)]: a u128, or an I/O error. *)
Context (murmur3_x64_128 : bytes -> Z -> option Z).

(** The backing array [bits : [u64; 128]]. *)
Record BloomFilter := mkBloomFilter { bits : list Z }.

Definition BloomFilter_new : BloomFilter := mkBloomFilter (replicate BLOOM_FILTER_U64S 0).
Definition from_raw (raw : list Z) : BloomFilter := mkBloomFilter raw.
Definition as_raw (f : BloomFilter) : list Z := bits f.

Definition base_hashes (data : bytes) : list Z :=
  let result1 := default 0 (murmur3_x64_128 data 0) in
  let h1 := wrap64 result1 in
  let h2 := wrap64 (Z.shiftr result1 64) in
  let data_with_one := data ++ [1] in
  let result2 := default 0 (murmur3_x64_128 data_with_one 0) in
  let h3 := wrap64 result2 in
  let h4 := wrap64 (Z.shiftr result2 64) in
  [h1; h2; h3; h4].

Definition location (h : list Z) (i : nat) (m : Z) : nat :=
  let ii := Z.of_nat i in
  let base := h !!! (i mod 2)%nat in
  let inner := ((i + (i mod 2)) mod 4)%nat in
  let hash_idx := (2 + (inner / 2))%nat in
  let mult := h !!! hash_idx in
  let loc := wrap64 (base + wrap64 (ii * mult)) in
  Z.to_nat (loc mod m).

Definition set_bit (f : BloomFilter) (bit : nat) : BloomFilter :=
  let idx := (bit / 64)%nat in
  let offset := (bit mod 64)%nat in
  mkBloomFilter (alter (fun w => Z.lor w (Z.shiftl 1 (Z.of_nat offset))) idx (bits f)).

Definition get_bit (f : BloomFilter) (bit : nat) : bool :=
  let idx := (bit / 64)%nat in
  let offset := (bit mod 64)%nat in
  Z.land (Z.shiftr (bits f !!! idx) (Z.of_nat offset)) 1 =? 1.

(** [for i in 0..BLOOM_FILTER_K { self.set_bit(location(&h, i, BITS)) }]. *)
Definition bloom_add (f : BloomFilter) (key : bytes) : BloomFilter :=
  let h := base_hashes key in
  foldl (fun f i => set_bit f (location h i BLOOM_FILTER_BITS)) f (seq 0 BLOOM_FILTER_K).

Definition bloom_test (f : BloomFilter) (key : bytes) : bool :=
  let h := base_hashes key in
  forallb (fun i => get_bit f (location h i BLOOM_FILTER_BITS)) (seq 0 BLOOM_FILTER_K).

Definition bloom_merge (f other : BloomFilter) : BloomFilter :=
  mkBloomFilter (zip_with Z.lor (bits f) (bits other)).
End Filter.

#[export] Instance BloomFilter_eq_dec : EqDecision BloomFilter.
Proof. solve_decision. Defined.

(** ** The per-peer manager *)

Record BloomInfo := mkBloomInfo {
  bi_send : BloomFilter;
  bi_recv : BloomFilter;
  bi_seq : Z;
  bi_on_tree : bool;
  bi_z_dirty : bool }.

#[export] Instance BloomInfo_eta : Settable BloomInfo := fun r =>
  mkBloomInfo (bi_send r) (bi_recv r) (bi_seq r) (bi_on_tree r) (bi_z_dirty r).

Definition BloomInfo_new : BloomInfo :=
  mkBloomInfo BloomFilter_new BloomFilter_new 0 false false.

(** [Blooms { blooms: HashMap<PublicKey, BloomInfo> }]. *)
Abbreviation Blooms := (gmap PublicKey BloomInfo) (only parsing).

Definition Blooms_new : Blooms := ∅.

Definition is_on_tree (b : Blooms) (key : PublicKey) : bool :=
  match b !! key with Some info => bi_on_tree info | None => false end.

(** The configured [bloom_transform]. *)
Abbreviation Transform := (option (PublicKey -> PublicKey)) (only parsing).

Definition x_key (key : PublicKey) (transform : Transform) : PublicKey :=
  match transform with Some f => f key | None => key end.

Definition add_info (b : Blooms) (key : PublicKey) : Blooms :=
  match b !! key with Some _ => b | None => <[key := BloomInfo_new]> b end.

Definition remove_info (b : Blooms) (key : PublicKey) : Blooms := delete key b.

Definition Blooms_handle_bloom (b : Blooms) (peer_key : PublicKey) (filter : BloomFilter) : Blooms :=
  alter (fun info => info <| bi_recv := filter |>) peer_key b.

Definition get_send_bloom (b : Blooms) (key : PublicKey) : option BloomFilter :=
  bi_send <$> b !! key.

Section Manager.
Context (murmur3_x64_128 : bytes -> Z -> option Z) `{HashOrder}.

(** Whether [pk] is our parent or our child. *)
Definition now_on_tree (self_key self_parent : PublicKey) (infos : gmap PublicKey PublicKey)
    (pk : PublicKey) : bool :=
  if decide (self_parent = pk) then true
  else match infos !! pk with
       | Some parent => bool_decide (parent = self_key)
       | None => false
       end.

(** One round of the loop of [fix_on_tree]: the new entry, and the blank
    filter to send when the peer left the tree. *)
Definition fix_on_tree_entry (self_key self_parent : PublicKey)
    (infos : gmap PublicKey PublicKey) (pk : PublicKey) (pbi : BloomInfo)
  : BloomInfo * option BloomFilter :=
  let was_on := bi_on_tree pbi in
  let pbi := pbi <| bi_on_tree := now_on_tree self_key self_parent infos pk |> in
  if was_on && negb (bi_on_tree pbi)
  then (pbi <| bi_send := BloomFilter_new |>, Some BloomFilter_new)
  else (pbi, None).

Definition fix_on_tree (b : Blooms) (self_key self_parent : PublicKey)
    (infos : gmap PublicKey PublicKey) : Blooms * list (PublicKey * BloomFilter) :=
  (map_imap (fun pk pbi => Some (fix_on_tree_entry self_key self_parent infos pk pbi).1) b,
   omap (fun '(pk, pbi) => pair pk <$> (fix_on_tree_entry self_key self_parent infos pk pbi).2)
        (map_iter b)).

(** The filter for [key] before the [keep_ones] treatment: our own transformed
    key and what every on-tree peer other than [key] told us. *)
Definition fresh_bloom_for (b : Blooms) (key our_key : PublicKey) (transform : Transform)
  : BloomFilter :=
  let f := bloom_add murmur3_x64_128 BloomFilter_new (x_key our_key transform) in
  let recv_filters := omap (fun '(k, info) =>
    if bi_on_tree info && negb (bool_decide (k = key)) then Some (bi_recv info) else None)
    (map_iter b) in
  foldl bloom_merge f recv_filters.

(** Panics ([expect]) when there is no entry for [key]. *)
Definition get_bloom_for (b : Blooms) (key our_key : PublicKey) (keep_ones : bool)
    (transform : Transform) : outcome (Blooms * (BloomFilter * bool)) :=
  let f := fresh_bloom_for b key our_key transform in
  pbi ← unwrap (b !! key);
  let '(f, pbi) :=
    if keep_ones then
      if negb (bi_z_dirty pbi) then
        let c := f in
        let f := bloom_merge f (bi_send pbi) in
        if negb (bool_decide (f = c)) then (f, pbi <| bi_z_dirty := true |>) else (f, pbi)
      else (bloom_merge f (bi_send pbi), pbi)
    else (f, pbi <| bi_z_dirty := false |>) in
  let is_new := negb (bool_decide (f = bi_send pbi)) in
  let pbi := if is_new then pbi <| bi_send := f |> else pbi in
  Ret (<[key := pbi]> b, (f, is_new)).

(** One on-tree peer of [do_maintenance]; [pbi.seq += 1] is a u16. *)
Definition bloom_maintain_one (self_key : PublicKey) (transform : Transform)
    (b : Blooms) (k : PublicKey) : outcome (Blooms * option (PublicKey * BloomFilter)) :=
  pbi ← unwrap (b !! k);
  let keep_ones := negb (bi_z_dirty pbi) in
  '(b, (bloom, is_new)) ← get_bloom_for b k self_key keep_ones transform;
  pbi ← unwrap (b !! k);
  let seq := bi_seq pbi + 1 in
  if negb (seq <=? U16_MAX) then Panic
  else if is_new || (3600 <=? seq)
  then Ret (<[k := pbi <| bi_seq := 0 |>]> b, Some (k, bloom))
  else Ret (<[k := pbi <| bi_seq := seq |>]> b, None).

Fixpoint bloom_maintain_all (self_key : PublicKey) (transform : Transform)
    (b : Blooms) (keys : list PublicKey) (to_send : list (PublicKey * BloomFilter))
  : outcome (Blooms * list (PublicKey * BloomFilter)) :=
  match keys with
  | [] => Ret (b, to_send)
  | k :: keys =>
      '(b, sent) ← bloom_maintain_one self_key transform b k;
      bloom_maintain_all self_key transform b keys (to_send ++ option_list sent)
  end.

Definition Blooms_do_maintenance (b : Blooms) (self_key self_parent : PublicKey)
    (infos : gmap PublicKey PublicKey) (transform : Transform)
  : outcome (Blooms * list (PublicKey * BloomFilter)) :=
  let '(b, to_send) := fix_on_tree b self_key self_parent infos in
  let on_tree_keys := omap (fun '(k, info) => if bi_on_tree info then Some k else None) (map_iter b) in
  bloom_maintain_all self_key transform b on_tree_keys to_send.

Definition get_multicast_targets (b : Blooms) (from_key to_key : PublicKey)
    (transform : Transform) : list PublicKey :=
  let xform := x_key to_key transform in
  omap (fun '(k, pbi) =>
    if negb (bi_on_tree pbi) then None
    else if bool_decide (k = from_key) then None
    else if negb (bloom_test murmur3_x64_128 (bi_recv pbi) xform) then None
    else Some k) (map_iter b).

Definition count_on_tree_targets_for_xkey (b : Blooms) (xformed_key : PublicKey) : nat :=
  length (List.filter (fun pbi => bi_on_tree pbi && bloom_test murmur3_x64_128 (bi_recv pbi) xformed_key)
                      (map_values b)).
End Manager.

(** ** Bits of a filter *)

Definition filter_wf (f : BloomFilter) : Prop := bloom_wf (bits f).

(** [f] covers every key [g] covers. *)
Definition covers (f g : BloomFilter) : Prop :=
  forall j, Z.of_nat j < BLOOM_FILTER_BITS -> get_bit g j = true -> get_bit f j = true.

#[export] Instance covers_refl : Reflexive covers.
Proof. intros f j _ Hj. done. Qed.

#[export] Instance covers_trans : Transitive covers.
Proof. intros f g h Hfg Hgh j Hj Hb. by apply Hfg, Hgh. Qed.

Lemma get_bit_testbit f j :
  get_bit f j = Z.testbit (bits f !!! (j / 64)%nat) (Z.of_nat (j mod 64)).
Proof.
  unfold get_bit. change 1 with (Z.ones 1) at 1. rewrite Z.land_ones by lia.
  by rewrite Z.testbit_odd, Zodd_mod.
Qed.

Lemma bit_index_lt (l : list Z) j :
  length l = BLOOM_FILTER_U64S -> Z.of_nat j < BLOOM_FILTER_BITS -> (j / 64 < length l)%nat.
Proof.
  unfold BLOOM_FILTER_U64S, BLOOM_FILTER_BITS. intros -> Hj.
  apply Nat.Div0.div_lt_upper_bound. lia.
Qed.

Lemma set_bit_wf f i : filter_wf f -> filter_wf (set_bit f i).
Proof.
  intros [Hl Hu]. split; unfold set_bit; cbn [bits]; [by rewrite length_alter|].
  apply Forall_alter; [done|]. intros w Hw Hw64.
  pose proof (Nat.mod_upper_bound i 64 ltac:(lia)).
  apply lor_bound; [lia|done|]. rewrite Z.shiftl_1_l. split; [lia|].
  apply Z.pow_lt_mono_r; lia.
Qed.

Lemma get_bit_set_bit f i j :
  length (bits f) = BLOOM_FILTER_U64S -> Z.of_nat i < BLOOM_FILTER_BITS ->
  get_bit (set_bit f i) j = get_bit f j || bool_decide (i = j).
Proof.
  intros Hl Hi. pose proof (bit_index_lt (bits f) i Hl Hi) as Hlt.
  rewrite !get_bit_testbit. unfold set_bit; cbn [bits].
  pose proof (Nat.div_mod_eq i 64) as Di. pose proof (Nat.div_mod_eq j 64) as Dj.
  destruct (decide (i / 64 = j / 64)%nat) as [Heq|Hne].
  - rewrite <- Heq. destruct (lookup_lt_is_Some_2 _ _ Hlt) as [w Hw].
    rewrite !list_lookup_total_alt, list_lookup_alter_eq, Hw.
    cbn -[Z.of_nat Nat.modulo Z.testbit Z.lor Z.shiftl].
    rewrite Z.lor_spec, Z.shiftl_1_l, Z.pow2_bits_eqb by lia. f_equal.
    apply eq_true_iff_eq. rewrite Z.eqb_eq, bool_decide_eq_true. lia.
  - rewrite !list_lookup_total_alt, list_lookup_alter_ne by done.
    rewrite (bool_decide_eq_false_2 (i = j)), orb_false_r by congruence. done.
Qed.

Lemma BloomFilter_new_wf : filter_wf BloomFilter_new.
Proof.
  split; [apply length_replicate|]. apply Forall_replicate. unfold is_u64. lia.
Qed.

Lemma get_bit_new j : Z.of_nat j < BLOOM_FILTER_BITS -> get_bit BloomFilter_new j = false.
Proof.
  intros Hj. rewrite get_bit_testbit, list_lookup_total_alt. unfold BloomFilter_new; cbn [bits].
  rewrite lookup_replicate_2; [apply Z.testbit_0_l|].
  pose proof (bit_index_lt (replicate BLOOM_FILTER_U64S 0) j) as Hlt.
  rewrite length_replicate in Hlt. by apply Hlt.
Qed.

Lemma bloom_merge_wf f g : filter_wf f -> filter_wf g -> filter_wf (bloom_merge f g).
Proof.
  intros [Hf Hfu] [Hg Hgu]. split; unfold bloom_merge; cbn [bits].
  - rewrite length_zip_with, Hf, Hg. lia.
  - apply Forall_lookup. intros i w. rewrite lookup_zip_with_Some.
    intros (u & v & -> & Hu & Hv). apply lor_bound; [lia|..].
    + by apply (Forall_lookup_1 _ _ _ _ Hfu Hu).
    + by apply (Forall_lookup_1 _ _ _ _ Hgu Hv).
Qed.

Lemma get_bit_merge f g j :
  filter_wf f -> filter_wf g -> Z.of_nat j < BLOOM_FILTER_BITS ->
  get_bit (bloom_merge f g) j = get_bit f j || get_bit g j.
Proof.
  intros [Hf _] [Hg _] Hj. rewrite !get_bit_testbit. unfold bloom_merge; cbn [bits].
  destruct (lookup_lt_is_Some_2 _ _ (bit_index_lt _ _ Hf Hj)) as [v Hv].
  destruct (lookup_lt_is_Some_2 _ _ (bit_index_lt _ _ Hg Hj)) as [w Hw].
  rewrite !list_lookup_total_alt, lookup_zip_with, Hv, Hw. cbn -[Z.testbit Z.lor Nat.modulo].
  apply Z.lor_spec.
Qed.

Lemma covers_merge_l f g : filter_wf f -> filter_wf g -> covers (bloom_merge f g) f.
Proof. intros Hf Hg j Hj Hb. by rewrite get_bit_merge, Hb. Qed.

Lemma covers_merge_r f g : filter_wf f -> filter_wf g -> covers (bloom_merge f g) g.
Proof. intros Hf Hg j Hj Hb. rewrite get_bit_merge, Hb by done. apply orb_true_r. Qed.

(** Filters with the same bits are equal. *)
Lemma filter_ext f g :
  filter_wf f -> filter_wf g ->
  (forall j, Z.of_nat j < BLOOM_FILTER_BITS -> get_bit f j = get_bit g j) -> f = g.
Proof.
  destruct f as [lf], g as [lg]. intros [Hf Hfu] [Hg Hgu] Hb. f_equal. cbn [bits] in *.
  apply list_eq_same_length with BLOOM_FILTER_U64S; [done|done|].
  intros i v w Hi Hv Hw. apply Z.bits_inj'. intros n Hn.
  pose proof (Forall_lookup_1 _ _ _ _ Hfu Hv) as Hv64.
  pose proof (Forall_lookup_1 _ _ _ _ Hgu Hw) as Hw64. cbn beta in *.
  destruct (decide (n < 64)).
  - assert (Hj : Z.of_nat (64 * i + Z.to_nat n)%nat < BLOOM_FILTER_BITS)
      by (unfold BLOOM_FILTER_U64S, BLOOM_FILTER_BITS in *; lia).
    specialize (Hb _ Hj). rewrite !get_bit_testbit in Hb. cbn [bits] in Hb.
    replace ((64 * i + Z.to_nat n) / 64)%nat with i in Hb
      by (apply (Nat.div_unique _ 64 i (Z.to_nat n)); lia).
    replace (Z.of_nat ((64 * i + Z.to_nat n) mod 64)) with n in Hb
      by (rewrite <- (Nat.mod_unique _ 64 i (Z.to_nat n)); lia).
    by rewrite !list_lookup_total_alt, Hv, Hw in Hb.
  - unfold is_u64 in *. rewrite <- (Z.mod_small v (2 ^ 64)), <- (Z.mod_small w (2 ^ 64)) by lia.
    by rewrite !Z.mod_pow2_bits_high by lia.
Qed.

Section FilterFacts.
Context (murmur3_x64_128 : bytes -> Z -> option Z).
Abbreviation add := (bloom_add murmur3_x64_128) (only parsing).
Abbreviation test := (bloom_test murmur3_x64_128) (only parsing).

Lemma location_lt h i : Z.of_nat (location h i BLOOM_FILTER_BITS) < BLOOM_FILTER_BITS.
Proof.
  unfold location, BLOOM_FILTER_BITS.
  match goal with |- context [?x mod 8192] => pose proof (Z.mod_pos_bound x 8192 ltac:(lia)) end.
  lia.
Qed.

(** The bits [add] sets are exactly the locations of the key. *)
Definition key_bit (key : bytes) (j : nat) : bool :=
  existsb (fun i => bool_decide (location (base_hashes murmur3_x64_128 key) i BLOOM_FILTER_BITS = j))
          (seq 0 BLOOM_FILTER_K).

Lemma set_bits_spec (locs : list nat) f :
  filter_wf f -> Forall (fun i => Z.of_nat i < BLOOM_FILTER_BITS) locs ->
  filter_wf (foldl set_bit f locs)
  /\ forall j, get_bit (foldl set_bit f locs) j
               = get_bit f j || existsb (fun i => bool_decide (i = j)) locs.
Proof.
  intros Hf Hl. revert f Hf. induction Hl as [|i locs Hi Hl IH]; intros f Hf; cbn [foldl existsb].
  - split; [done|]. intros j. by rewrite orb_false_r.
  - destruct (IH (set_bit f i)) as [Hwf Hget]; [by apply set_bit_wf|]. split; [done|].
    intros j. rewrite Hget, get_bit_set_bit by (done || apply Hf). by rewrite orb_assoc.
Qed.

Lemma bloom_add_spec f key :
  filter_wf f -> filter_wf (add f key) /\ forall j, get_bit (add f key) j = get_bit f j || key_bit key j.
Proof.
  intros Hf. unfold bloom_add, key_bit.
  set (h := base_hashes murmur3_x64_128 key).
  destruct (set_bits_spec ((fun i => location h i BLOOM_FILTER_BITS) <$> seq 0 BLOOM_FILTER_K) f)
    as [Hwf Hget]; [done|..].
  { apply Forall_fmap, Forall_true. intros i. apply location_lt. }
  rewrite foldl_fmap in Hwf, Hget. split; [done|]. intros j. rewrite Hget. f_equal.
Qed.

Lemma bloom_test_true f key :
  test f key = true <-> forall j, key_bit key j = true -> get_bit f j = true.
Proof.
  unfold bloom_test, key_bit. rewrite forallb_forall. setoid_rewrite existsb_exists.
  split.
  - intros H j (i & Hi & Hj%bool_decide_eq_true). subst j. by apply H.
  - intros H i Hi. apply H. exists i. split; [done|]. by apply bool_decide_eq_true.
Qed.

Lemma key_bit_lt key j : key_bit key j = true -> Z.of_nat j < BLOOM_FILTER_BITS.
Proof.
  unfold key_bit. rewrite existsb_exists. intros (i & _ & Hj%bool_decide_eq_true).
  subst j. apply location_lt.
Qed.

Lemma bloom_test_covers f g key : covers f g -> test g key = true -> test f key = true.
Proof.
  rewrite !bloom_test_true. intros Hc Ht j Hj. apply Hc; [by apply key_bit_lt in Hj|]. by apply Ht.
Qed.

Lemma bloom_test_add f key : filter_wf f -> test (add f key) key = true.
Proof.
  intros Hf. apply bloom_test_true. intros j Hj.
  destruct (bloom_add_spec f key Hf) as [_ ->]. rewrite Hj. apply orb_true_r.
Qed.

Lemma covers_add f key : filter_wf f -> covers (add f key) f.
Proof. intros Hf j _ Hb. destruct (bloom_add_spec f key Hf) as [_ ->]. by rewrite Hb. Qed.

(** ** What the manager sends *)

Context `{HashOrder}.

Definition bloom_info_wf (i : BloomInfo) : Prop :=
  filter_wf (bi_send i) /\ filter_wf (bi_recv i) /\ 0 <= bi_seq i < 3600.
Definition blooms_wf (b : Blooms) : Prop := map_Forall (fun _ => bloom_info_wf) b.

Abbreviation fresh := (fresh_bloom_for murmur3_x64_128) (only parsing).

Lemma merge_all_spec (l : list BloomFilter) f :
  filter_wf f -> Forall filter_wf l ->
  filter_wf (foldl bloom_merge f l)
  /\ forall j, Z.of_nat j < BLOOM_FILTER_BITS ->
       get_bit (foldl bloom_merge f l) j = get_bit f j || existsb (fun g => get_bit g j) l.
Proof.
  intros Hf Hl. revert f Hf. induction Hl as [|g l Hg Hl IH]; intros f Hf; cbn [foldl existsb].
  - split; [done|]. intros. by rewrite orb_false_r.
  - destruct (IH (bloom_merge f g)) as [Hwf Hget]; [by apply bloom_merge_wf|].
    split; [done|]. intros j Hj. rewrite Hget, get_bit_merge by done. by rewrite orb_assoc.
Qed.

Lemma fresh_bloom_spec b key our_key tr :
  blooms_wf b ->
  filter_wf (fresh b key our_key tr)
  /\ forall j, Z.of_nat j < BLOOM_FILTER_BITS ->
     (get_bit (fresh b key our_key tr) j = true <->
      key_bit (x_key our_key tr) j = true
      \/ exists k info, b !! k = Some info /\ bi_on_tree info = true /\ k <> key
                         /\ get_bit (bi_recv info) j = true).
Proof.
  intros Hb. unfold fresh_bloom_for.
  destruct (bloom_add_spec BloomFilter_new (x_key our_key tr) BloomFilter_new_wf) as [Hawf Hag].
  match goal with |- context [foldl bloom_merge _ ?l] => set (recvs := l) end.
  assert (Hin : forall g, g ∈ recvs <-> exists k info, b !! k = Some info
     /\ bi_on_tree info = true /\ k <> key /\ g = bi_recv info).
  { intros g. unfold recvs. rewrite list_elem_of_omap. split.
    - intros ([k info] & Hk%elem_of_map_iter & Hg). exists k, info.
      destruct (bi_on_tree info); [|done]. case_bool_decide; [done|].
      cbn in Hg. by injection Hg as <-.
    - intros (k & info & Hk & Ht & Hne & ->). exists (k, info).
      split; [by apply elem_of_map_iter|]. by rewrite Ht, bool_decide_eq_false_2. }
  destruct (merge_all_spec recvs (add BloomFilter_new (x_key our_key tr)) Hawf) as [Hwf Hget].
  { apply Forall_forall. intros g (k & info & Hk & _ & _ & ->)%Hin. by apply (Hb k). }
  split; [done|]. intros j Hj.
  rewrite Hget, Hag, get_bit_new, orb_true_iff, existsb_exists by done. cbn [orb].
  setoid_rewrite <- list_elem_of_In. setoid_rewrite Hin. split.
  - intros [?|(g & (k & info & ? & ? & ? & ->) & ?)]; [by left|right; by exists k, info].
  - intros [?|(k & info & ? & ? & ? & ?)]; [by left|right; eauto 10].
Qed.

(** Two states agree on what peers told us and on who is on the tree. *)
Definition same_view (b b' : Blooms) : Prop :=
  forall k, (fun i => (bi_on_tree i, bi_recv i)) <$> b !! k
            = (fun i => (bi_on_tree i, bi_recv i)) <$> b' !! k.

#[export] Instance same_view_equiv : Equivalence same_view.
Proof.
  split; [by intros b k|by intros b b' Hv k|]. intros b1 b2 b3 H1 H2 k. by rewrite H1.
Qed.

Lemma same_view_insert b k i i' :
  b !! k = Some i -> bi_on_tree i' = bi_on_tree i -> bi_recv i' = bi_recv i ->
  same_view b (<[k := i']> b).
Proof.
  intros Hk Ht Hr k'. destruct (decide (k = k')) as [<-|Hne].
  - rewrite lookup_insert_eq, Hk. cbn. by rewrite Ht, Hr.
  - by rewrite lookup_insert_ne.
Qed.

Lemma same_view_lookup b b' k i :
  same_view b b' -> b !! k = Some i ->
  exists i', b' !! k = Some i' /\ bi_on_tree i' = bi_on_tree i /\ bi_recv i' = bi_recv i.
Proof.
  intros Hv Hk. specialize (Hv k). rewrite Hk in Hv. cbn in Hv.
  destruct (b' !! k) as [i'|]; [|done]. injection Hv as ? ?. by exists i'.
Qed.

Lemma fresh_same_view b b' key our_key tr :
  blooms_wf b -> blooms_wf b' -> same_view b b' ->
  fresh b key our_key tr = fresh b' key our_key tr.
Proof.
  intros Hb Hb' Hv.
  destruct (fresh_bloom_spec b key our_key tr Hb) as [Hwf Hget].
  destruct (fresh_bloom_spec b' key our_key tr Hb') as [Hwf' Hget'].
  apply filter_ext; [done..|]. intros j Hj. apply eq_true_iff_eq. rewrite Hget, Hget' by done.
  assert (Hdir : forall c c', same_view c c' ->
    (exists k info, c !! k = Some info /\ bi_on_tree info = true /\ k <> key
       /\ get_bit (bi_recv info) j = true) ->
    exists k info, c' !! k = Some info /\ bi_on_tree info = true /\ k <> key
       /\ get_bit (bi_recv info) j = true).
  { intros c c' Hcc (k & info & Hk & Ht & Hne & Hg).
    destruct (same_view_lookup c c' k info Hcc Hk) as (i' & Hk' & Ht' & Hr').
    exists k, i'. by rewrite Ht', Hr'. }
  split; (intros [?|He]; [by left|right]); eapply Hdir, He; done.
Qed.

(** What [get_bloom_for] returns and stores for a known peer. *)
Lemma get_bloom_for_spec b key our_key keep tr pbi :
  blooms_wf b -> b !! key = Some pbi ->
  exists f is_new pbi',
    get_bloom_for murmur3_x64_128 b key our_key keep tr = Ret (<[key := pbi']> b, (f, is_new))
    /\ filter_wf f /\ bi_send pbi' = f /\ bi_recv pbi' = bi_recv pbi
    /\ bi_on_tree pbi' = bi_on_tree pbi /\ bi_seq pbi' = bi_seq pbi
    /\ is_new = negb (bool_decide (f = bi_send pbi))
    /\ covers f (fresh b key our_key tr)
    /\ (keep = false -> f = fresh b key our_key tr /\ bi_z_dirty pbi' = false)
    /\ (f = fresh b key our_key tr \/ bi_z_dirty pbi' = true).
Proof.
  intros Hb Hk. destruct (fresh_bloom_spec b key our_key tr Hb) as [Hwf _].
  destruct (Hb _ _ Hk) as (Hs & Hr & Hq). unfold get_bloom_for. rewrite Hk. cbn [unwrap mbind outcome_bind].
  set (f0 := fresh b key our_key tr) in *.
  assert (Hm : filter_wf (bloom_merge f0 (bi_send pbi))) by by apply bloom_merge_wf.
  assert (Hc : covers (bloom_merge f0 (bi_send pbi)) f0) by by apply covers_merge_l.
  assert (Hstored : forall (c : bool) (p : BloomInfo) (f : BloomFilter),
    c = negb (bool_decide (f = bi_send p)) ->
    bi_send (if c then p <| bi_send := f |> else p) = f).
  { intros c p f ->. case_bool_decide; cbn; congruence. }
  destruct keep; [destruct (bi_z_dirty pbi) eqn:Hz; cbn [negb]; [|case_bool_decide as Heq; cbn [negb]]|];
    eexists _, _, _; (split; [reflexivity|]); (split_and!; [done|by apply Hstored|..]);
    first [done | by case_bool_decide | by left | by right; case_bool_decide
          | by intros _; case_bool_decide | idtac].
Qed.

(** What one maintenance round establishes for an on-tree peer: [i] before,
    [i'] after, in a state that looks like [b]. *)
Definition maintained (self_key : PublicKey) (tr : Transform) (b : Blooms) (k : PublicKey)
    (i i' : BloomInfo) : Prop :=
  bloom_info_wf i' /\ bi_on_tree i' = bi_on_tree i /\ bi_recv i' = bi_recv i
  /\ covers (bi_send i') (fresh b k self_key tr)
  /\ (bi_z_dirty i = true -> bi_send i' = fresh b k self_key tr)
  /\ (bi_send i' = fresh b k self_key tr \/ bi_z_dirty i' = true).

Lemma bloom_maintain_one_spec self_key tr b k i :
  blooms_wf b -> b !! k = Some i ->
  exists i' sent,
    bloom_maintain_one murmur3_x64_128 self_key tr b k = Ret (<[k := i']> b, sent)
    /\ maintained self_key tr b k i i'
    /\ (bi_send i' <> bi_send i -> sent = Some (k, bi_send i')).
Proof.
  intros Hb Hk. unfold bloom_maintain_one. rewrite Hk. cbn [unwrap mbind outcome_bind].
  destruct (get_bloom_for_spec b k self_key (negb (bi_z_dirty i)) tr i Hb Hk)
    as (f & is_new & p & -> & Hf & Hs & Hr & Ht & Hq & Hn & Hc & Hd & Hz).
  cbn [mbind outcome_bind]. rewrite lookup_insert_eq. cbn [unwrap mbind outcome_bind].
  destruct (Hb _ _ Hk) as (_ & Hrwf & Hseq).
  destruct (Z.leb_spec (bi_seq p + 1) U16_MAX) as [_|Hbad]; [|unfold U16_MAX in Hbad; lia].
  cbn [negb]. rewrite !insert_insert_eq.
  assert (Hdirty : bi_z_dirty i = true -> f = fresh b k self_key tr).
  { intros Hzd. apply Hd. by rewrite Hzd. }
  destruct (is_new || (3600 <=? bi_seq p + 1)) eqn:Hsend; (eexists _, _; split; [reflexivity|]);
    (split; [unfold maintained, bloom_info_wf; cbn; rewrite Hs, Hr, ?Ht|cbn; rewrite Hs]).
  - split_and!; try done; lia.
  - done.
  - apply orb_false_iff in Hsend as [_ Hlt%Z.leb_gt]. split_and!; try done; lia.
  - intros Hne. apply orb_false_iff in Hsend as [-> _].
    symmetry in Hn. apply negb_false_iff, bool_decide_eq_true in Hn. done.
Qed.

Lemma blooms_wf_insert b k i : blooms_wf b -> bloom_info_wf i -> blooms_wf (<[k := i]> b).
Proof. intros. by apply map_Forall_insert_2. Qed.

Lemma bloom_maintain_all_spec self_key tr keys b ts :
  blooms_wf b -> NoDup keys -> (forall k, k ∈ keys -> is_Some (b !! k)) ->
  exists b' ts',
    bloom_maintain_all murmur3_x64_128 self_key tr b keys ts = Ret (b', ts ++ ts')
    /\ blooms_wf b' /\ same_view b b'
    /\ (forall k, k ∉ keys -> b' !! k = b !! k)
    /\ (forall k i, k ∈ keys -> b !! k = Some i -> exists i', b' !! k = Some i'
          /\ maintained self_key tr b k i i'
          /\ (bi_send i' <> bi_send i -> (k, bi_send i') ∈ ts')).
Proof.
  intros Hb Hnd. revert b ts Hb. induction Hnd as [|k keys Hnk Hnd IH]; intros b ts Hb Hin.
  { exists b, []. rewrite app_nil_r. split_and!; try done. set_solver. }
  destruct (Hin k) as [i Hi]; [by left|].
  destruct (bloom_maintain_one_spec self_key tr b k i Hb Hi) as (i1 & sent & Heq & Hm & Hs).
  assert (Hb1 : blooms_wf (<[k := i1]> b)) by (apply blooms_wf_insert; [done|apply Hm]).
  assert (Hv1 : same_view b (<[k := i1]> b)) by (eapply same_view_insert; [done|apply Hm|apply Hm]).
  destruct (IH (<[k := i1]> b) (ts ++ option_list sent) Hb1) as (b' & ts' & Hall & Hb' & Hv & Hout & Hkeys).
  { intros k' Hk'. rewrite lookup_insert_is_Some'. right. apply Hin. by right. }
  exists b', (option_list sent ++ ts'). cbn [bloom_maintain_all]. rewrite Heq.
  cbn [mbind outcome_bind]. rewrite Hall, <- app_assoc.
  split_and!; [done|done|by etrans|..].
  - intros k' Hk'. rewrite Hout by set_solver. apply lookup_insert_ne. set_solver.
  - intros k' j [->|Hk']%elem_of_cons Hj.
    + rewrite Hout, lookup_insert_eq by done. rewrite Hi in Hj. injection Hj as <-.
      exists i1. split_and!; [done|done|]. intros Hne. rewrite (Hs Hne). set_solver.
    + assert (k <> k') by set_solver.
      destruct (Hkeys k' j) as (i' & Hi' & Hm' & Hs'); [done|by rewrite lookup_insert_ne|].
      exists i'. split_and!; [done| |intros; set_solver].
      unfold maintained in *. by rewrite (fresh_same_view b (<[k := i1]> b)).
Qed.

Lemma fix_on_tree_entry_spec self_key self_parent infos k i :
  bloom_info_wf i ->
  let r := fix_on_tree_entry self_key self_parent infos k i in
  bloom_info_wf r.1 /\ bi_on_tree r.1 = now_on_tree self_key self_parent infos k
  /\ bi_recv r.1 = bi_recv i /\ bi_z_dirty r.1 = bi_z_dirty i
  /\ (bi_on_tree i = true -> bi_on_tree r.1 = false ->
        bi_send r.1 = BloomFilter_new /\ r.2 = Some BloomFilter_new)
  /\ (bi_on_tree r.1 = true \/ bi_on_tree i = false -> bi_send r.1 = bi_send i).
Proof.
  intros (Hs & Hr & Hq). unfold fix_on_tree_entry, bloom_info_wf. cbn.
  destruct (bi_on_tree i), (now_on_tree self_key self_parent infos k); cbn;
    split_and!; try done; try apply BloomFilter_new_wf; try lia; naive_solver.
Qed.

Lemma fix_on_tree_spec b self_key self_parent infos :
  blooms_wf b ->
  exists b1 ts1,
    fix_on_tree b self_key self_parent infos = (b1, ts1)
    /\ blooms_wf b1
    /\ (forall k, is_Some (b1 !! k) <-> is_Some (b !! k))
    /\ forall k i, b !! k = Some i -> exists e, b1 !! k = Some e
       /\ bi_on_tree e = now_on_tree self_key self_parent infos k
       /\ bi_recv e = bi_recv i /\ bi_z_dirty e = bi_z_dirty i
       /\ (bi_on_tree i = true -> bi_on_tree e = false ->
             bi_send e = BloomFilter_new /\ (k, BloomFilter_new) ∈ ts1)
       /\ (bi_on_tree e = true \/ bi_on_tree i = false -> bi_send e = bi_send i).
Proof.
  intros Hb. unfold fix_on_tree. eexists _, _. split; [reflexivity|]. split_and!.
  - intros k i'. rewrite map_lookup_imap. destruct (b !! k) as [i|] eqn:Hk; [|done].
    cbn. intros [= <-]. by apply fix_on_tree_entry_spec, (Hb k).
  - intros k. rewrite map_lookup_imap. destruct (b !! k); cbn; split; eauto.
  - intros k i Hk.
    destruct (fix_on_tree_entry_spec self_key self_parent infos k i (Hb _ _ Hk))
      as (_ & Hon & Hrecv & Hdirty & Hdrop & Hsame).
    eexists. split; [by rewrite map_lookup_imap, Hk|]. split_and!; try done.
    intros Hwas Hnow. destruct Hdrop as [Hblank Hsent]; [done..|]. split; [done|].
    apply list_elem_of_omap. exists (k, i). split; [by apply elem_of_map_iter|]. by rewrite Hsent.
Qed.

(** The keys [do_maintenance] visits: the peers now on the tree. *)
Lemma on_tree_keys_spec (b : Blooms) :
  let keys := omap (fun '(k, info) => if bi_on_tree info then Some k else None) (map_iter b) in
  NoDup keys /\ forall k, k ∈ keys <-> exists i, b !! k = Some i /\ bi_on_tree i = true.
Proof.
  cbn zeta. split.
  - pose proof (map_keys_nodup b) as Hnd. unfold map_keys in Hnd.
    induction (map_iter b) as [|[k i] l IH]; [constructor|].
    cbn in *. apply NoDup_cons in Hnd as [Hk Hnd]. destruct (bi_on_tree i); [|by apply IH].
    constructor; [|by apply IH]. rewrite list_elem_of_omap. intros ([k' i'] & Hin & He).
    destruct (bi_on_tree i'); [|done]. injection He as ->. apply Hk.
    apply list_elem_of_fmap. by exists (k, i').
  - intros k. rewrite list_elem_of_omap. split.
    + intros ([k' i] & Hk%elem_of_map_iter & He). destruct (bi_on_tree i) eqn:Ht; [|done].
      injection He as ->. by exists i.
    + intros (i & Hk & Ht). exists (k, i). rewrite Ht. split; [by apply elem_of_map_iter|done].
Qed.

Lemma do_maintenance_spec b self_key self_parent infos tr :
  blooms_wf b ->
  exists b' to_send,
    Blooms_do_maintenance murmur3_x64_128 b self_key self_parent infos tr = Ret (b', to_send)
    /\ blooms_wf b'
    /\ (forall k, is_Some (b' !! k) <-> is_Some (b !! k))
    /\ forall k i i', b !! k = Some i -> b' !! k = Some i' ->
         bi_on_tree i' = now_on_tree self_key self_parent infos k
         /\ bi_recv i' = bi_recv i
         /\ (bi_on_tree i' = true ->
               covers (bi_send i') (fresh b' k self_key tr)
               /\ (bi_z_dirty i = true -> bi_send i' = fresh b' k self_key tr)
               /\ (bi_send i' = fresh b' k self_key tr \/ bi_z_dirty i' = true))
         /\ (bi_on_tree i = true -> bi_on_tree i' = false ->
               bi_send i' = BloomFilter_new /\ (k, BloomFilter_new) ∈ to_send)
         /\ (bi_send i' <> bi_send i -> (k, bi_send i') ∈ to_send).
Proof.
  intros Hb. unfold Blooms_do_maintenance.
  destruct (fix_on_tree_spec b self_key self_parent infos Hb) as (b1 & ts1 & -> & Hb1 & Hdom1 & H1).
  destruct (on_tree_keys_spec b1) as [Hnd Hkeys].
  match goal with |- context [bloom_maintain_all _ _ _ _ ?l _] => set (keys := l) in * end.
  destruct (bloom_maintain_all_spec self_key tr keys b1 ts1 Hb1 Hnd)
    as (b' & ts' & Heq & Hb' & Hv & Hout & Hin).
  { intros k (i & -> & _)%Hkeys. done. }
  exists b', (ts1 ++ ts'). split_and!; [done|done|..].
  { intros k. rewrite <- Hdom1. specialize (Hv k). destruct (b1 !! k), (b' !! k); split; intros [? ?]; eauto; done. }
  intros k i i' Hk Hk'. destruct (H1 k i Hk) as (e & He & Hon & Hrecv & Hdirty & Hdrop & Hsame).
  destruct (same_view_lookup b1 b' k _ Hv He) as (i2 & Hi2 & Hon2 & Hr2).
  rewrite Hk' in Hi2. injection Hi2 as <-.
  assert (Hoff : bi_on_tree e = false -> i' = e).
  { intros Ht. rewrite Hout, He in Hk' by (rewrite Hkeys; intros (? & ? & ?); congruence). congruence. }
  rewrite Hon2, Hr2. split_and!; [done|done|..].
  - intros Ht. destruct (Hin k e) as (i3 & Hi3 & (_ & _ & _ & Hc & Hz & Hz') & _);
      [apply Hkeys; by exists e|done|].
    rewrite Hk' in Hi3. injection Hi3 as <-.
    rewrite <- (fresh_same_view b1 b') by done. rewrite <- Hdirty. done.
  - intros Hwas Hnow. rewrite (Hoff Hnow). destruct Hdrop; [done..|]. set_solver.
  - intros Hne. destruct (bi_on_tree e) eqn:Ht.
    + destruct (Hin k e) as (i3 & Hi3 & _ & Hs); [apply Hkeys; by exists e|done|].
      rewrite Hk' in Hi3. injection Hi3 as <-. apply elem_of_app. right. apply Hs.
      rewrite Hsame; [done|by left].
    + rewrite (Hoff eq_refl) in Hne |- *.
      destruct (bi_on_tree i) eqn:Hwas; [|by rewrite Hsame in Hne by (by right)].
      destruct Hdrop as [-> ?]; [done..|]. set_solver.
Qed.

(** The filter a maintained peer holds for another admits our own key and every
    key some other on-tree peer has announced to us. *)
Lemma maintained_filter_admits b self_key self_parent infos tr b' to_send k i' to_key :
  blooms_wf b ->
  Blooms_do_maintenance murmur3_x64_128 b self_key self_parent infos tr = Ret (b', to_send) ->
  b' !! k = Some i' -> bi_on_tree i' = true ->
  x_key to_key tr = x_key self_key tr
  \/ (exists k2 i2, k2 <> k /\ b' !! k2 = Some i2 /\ bi_on_tree i2 = true
        /\ test (bi_recv i2) (x_key to_key tr) = true) ->
  test (bi_send i') (x_key to_key tr) = true.
Proof.
  intros Hb Hm Hk Ht Hto. destruct (do_maintenance_spec b self_key self_parent infos tr Hb)
    as (b1 & ts & Hm' & Hb' & Hdom & Hall). rewrite Hm in Hm'. injection Hm' as <- <-.
  destruct (proj1 (Hdom k)) as [i Hi]; [by eexists|].
  destruct (Hall k i i' Hi Hk) as (_ & _ & Hon & _). destruct (Hon Ht) as [Hcov _].
  eapply bloom_test_covers; [exact Hcov|].
  destruct (fresh_bloom_spec b' k self_key tr Hb') as [_ Hspec].
  apply bloom_test_true. intros j Hj. apply Hspec; [by apply key_bit_lt in Hj|].
  destruct Hto as [Heq|(k2 & i2 & Hne & Hk2 & Ht2 & Htest)].
  - left. by rewrite <- Heq.
  - right. exists k2, i2. split_and!; try done. by apply (proj1 (bloom_test_true _ _) Htest).
Qed.

(** *** Targets of a multicast *)

Lemma elem_of_multicast_targets b from_key to_key tr k :
  k ∈ get_multicast_targets murmur3_x64_128 b from_key to_key tr <->
  exists i, b !! k = Some i /\ bi_on_tree i = true /\ k <> from_key
    /\ test (bi_recv i) (x_key to_key tr) = true.
Proof.
  unfold get_multicast_targets. rewrite list_elem_of_omap. split.
  - intros ([k' i] & Hin%elem_of_map_iter & Heq). destruct (bi_on_tree i) eqn:Ht; [|done]. simpl in Heq.
    case_bool_decide; [done|]. destruct (bloom_test _ _ _) eqn:Hb; [|done]. injection Heq as <-. by exists i.
  - intros (i & Hk & Ht & Hne & Htest). exists (k, i). split; [by apply elem_of_map_iter|].
    by rewrite Ht, bool_decide_eq_false_2, Htest.
Qed.

Lemma multicast_targets_nodup b from_key to_key tr :
  NoDup (get_multicast_targets murmur3_x64_128 b from_key to_key tr).
Proof.
  unfold get_multicast_targets. pose proof (map_keys_nodup b) as Hnd. unfold map_keys in Hnd.
  induction (map_iter b) as [|[k i] l IH]; [constructor|]. simpl in *. inversion_clear Hnd as [|? ? Hk Hl].
  destruct (negb (bi_on_tree i)); [auto|]. case_bool_decide; [auto|].
  destruct (negb _); [auto|]. constructor; [|auto]. intros (p & Hp & He)%list_elem_of_omap.
  destruct p as [k' i']. repeat case_match; try done. injection He as ->. apply Hk.
  apply list_elem_of_fmap. by exists (k, i').
Qed.

(** Filters as the program builds them, with the keys that went in. *)
Inductive bloom_built : BloomFilter -> list bytes -> Prop :=
| built_new : bloom_built BloomFilter_new []
| built_add f keys key : bloom_built f keys -> bloom_built (add f key) (key :: keys)
| built_merge f g keys keys' :
    bloom_built f keys -> bloom_built g keys' -> bloom_built (bloom_merge f g) (keys ++ keys')
| built_received f keys words :
    bloom_built f keys -> decode_bloom (encode_bloom [] (as_raw f)) = Ok words ->
    bloom_built (from_raw words) keys.

Lemma bloom_built_wf f keys : bloom_built f keys -> filter_wf f.
Proof.
  induction 1 as [|f keys key _ IH|f g keys keys' _ IH1 _ IH2|f keys words _ IH Hd].
  - apply BloomFilter_new_wf.
  - by apply bloom_add_spec.
  - by apply bloom_merge_wf.
  - rewrite <- (app_nil_r (encode_bloom _ _)), decode_encode_bloom in Hd by done. by injection Hd as <-.
Qed.

(** The peer [k] is our parent, or the tree's table has us as its parent. *)
Definition tree_neighbour (self_key self_parent : PublicKey) (infos : gmap PublicKey PublicKey) (k : PublicKey) : Prop :=
  k = self_parent \/ infos !! k = Some self_key.

(** The bits that the peer [k] should be told of: those of our own (transformed)
    key and those in the filter of any other peer on the tree. *)
Definition wanted_bit (b : Blooms) (self_key self_parent : PublicKey) (infos : gmap PublicKey PublicKey) (tr : Transform)
    (k : PublicKey) (j : nat) : Prop :=
  key_bit (match tr with Some f => f self_key | None => self_key end) j = true
  \/ exists k2 i2, b !! k2 = Some i2 /\ tree_neighbour self_key self_parent infos k2 /\ k2 <> k /\ get_bit (bi_recv i2) j = true.

Lemma now_on_tree_spec self_key self_parent infos k :
  now_on_tree self_key self_parent infos k = true <-> tree_neighbour self_key self_parent infos k.
Proof.
  clear murmur3_x64_128. unfold now_on_tree, tree_neighbour. case_decide as Hp; [naive_solver|].
  destruct (infos !! k) as [parent|]; [rewrite bool_decide_eq_true|]; naive_solver.
Qed.

(** The fresh filter has exactly the wanted bits. *)
Lemma fresh_wanted b b' self_key self_parent infos tr k j : blooms_wf b' ->
  (forall k, is_Some (b' !! k) <-> is_Some (b !! k)) ->
  (forall k i i', b !! k = Some i -> b' !! k = Some i' ->
     bi_on_tree i' = now_on_tree self_key self_parent infos k /\ bi_recv i' = bi_recv i) ->
  Z.of_nat j < BLOOM_FILTER_BITS ->
  get_bit (fresh b' k self_key tr) j = true <-> wanted_bit b self_key self_parent infos tr k j.
Proof.
  intros Hb' Hdom Hsame Hj. destruct (fresh_bloom_spec b' k self_key tr Hb') as [_ Hget]. rewrite Hget by done.
  unfold wanted_bit. change (x_key self_key tr) with (match tr with Some f => f self_key | None => self_key end).
  apply or_iff_compat_l. split; intros (k2 & i2 & Hk & Ht & Hne & Hg).
  - destruct (proj1 (Hdom k2)) as [i Hi]; [by eexists|]. destruct (Hsame k2 i i2 Hi Hk) as [Hon Hr].
    exists k2, i. rewrite <- now_on_tree_spec, <- Hon, <- Hr. done.
  - destruct (proj2 (Hdom k2)) as [i' Hi']; [by eexists|]. destruct (Hsame k2 i2 i' Hk Hi') as [Hon Hr].
    exists k2, i'. rewrite Hon, Hr, now_on_tree_spec. done.
Qed.

(** C19: One pass of [Blooms::do_maintenance] never panics and keeps every
    entry within its bounds (the u16 resend counter stays below 3600). After
    it a peer is on the tree exactly when it is our parent or the table of the tree
    has us as its parent; the filter stored for an on-tree peer has every wanted
    bit, that is the bits of our own transformed key and those in the filter
    received from any other peer on the tree; it has no other bit, unless it is
    marked dirty, and one that was dirty before has none: stale bits last for one
    pass; a peer that left the tree is sent a blank filter; and every filter that
    changed is sent. *)
Theorem blooms_maintenance_correct b self_key self_parent infos tr
    (Hb : blooms_wf b) :
  exists b' to_send,
    Blooms_do_maintenance murmur3_x64_128 b self_key self_parent infos tr = Ret (b', to_send)
    /\ blooms_wf b'
    /\ (forall k, is_Some (b' !! k) <-> is_Some (b !! k))
    /\ forall k i i', b !! k = Some i -> b' !! k = Some i' ->
         let wanted := wanted_bit b self_key self_parent infos tr k in
         (bi_on_tree i' = true <-> tree_neighbour self_key self_parent infos k)
         /\ bi_recv i' = bi_recv i
         /\ (bi_on_tree i' = true -> forall j, Z.of_nat j < BLOOM_FILTER_BITS ->
               (wanted j -> get_bit (bi_send i') j = true)
               /\ (bi_z_dirty i = true \/ bi_z_dirty i' = false -> get_bit (bi_send i') j = true -> wanted j))
         /\ (bi_on_tree i = true -> bi_on_tree i' = false ->
               bi_send i' = BloomFilter_new /\ (k, BloomFilter_new) ∈ to_send)
         /\ (bi_send i' <> bi_send i -> (k, bi_send i') ∈ to_send).
Proof.
  destruct (do_maintenance_spec b self_key self_parent infos tr Hb) as (b' & to_send & E & Hb' & Hdom & Hall).
  exists b', to_send. split_and!; [done..|]. intros k i i' Hk Hk' wanted.
  destruct (Hall k i i' Hk Hk') as (Hon & Hr & Hsend & Hblank & Hnew).
  assert (forall j, Z.of_nat j < BLOOM_FILTER_BITS -> get_bit (fresh b' k self_key tr) j = true <-> wanted j) as Hw.
  { intros j. apply fresh_wanted; [done..|]. intros k2 i2 i2' H2 H2'. by destruct (Hall k2 i2 i2' H2 H2') as (? & ? & _). }
  split_and!; [by rewrite Hon, now_on_tree_spec|done| |done|done]. intros Ht j Hj. destruct (Hsend Ht) as (Hc & Hd & Hd').
  split; [intros Hj'; apply Hc; [done|by apply Hw]|].
  intros Hz Hg. apply Hw; [done|]. destruct Hz as [Hz|Hz]; [by rewrite <- (Hd Hz)|]. destruct Hd' as [<-|Hd']; [done|congruence].
Qed.

(** Bloom filters have no false negatives: every key added to a filter, to
    a filter merged into it, or to one received over the wire, tests positive. *)
Theorem bloom_no_false_negatives f keys key
    (Hbuilt : bloom_built f keys) (Hin : key ∈ keys) : test f key = true.
Proof.
  induction Hbuilt as [|f keys k Hb IH|f g keys keys' Hf IH1 Hg IH2|f keys words Hf IH Hd].
  - by apply not_elem_of_nil in Hin.
  - pose proof (bloom_built_wf _ _ Hb) as Hwf. apply elem_of_cons in Hin as [->|Hin].
    + by apply bloom_test_add.
    + eapply bloom_test_covers; [by apply covers_add|auto].
  - pose proof (bloom_built_wf _ _ Hf). pose proof (bloom_built_wf _ _ Hg).
    apply elem_of_app in Hin as [Hin|Hin].
    + eapply bloom_test_covers; [by apply covers_merge_l|auto].
    + eapply bloom_test_covers; [by apply covers_merge_r|auto].
  - pose proof (bloom_built_wf _ _ Hf) as Hwf.
    rewrite <- (app_nil_r (encode_bloom _ _)), decode_encode_bloom in Hd by done. injection Hd as <-.
    destruct f. auto.
Qed.

(** Multicast targets across two nodes. Node [k] runs its maintenance and
    sends node [a] the filter it holds for it; [a] stores it. Then a lookup at
    [a] for a destination that is [k] itself, or that some other on-tree peer of
    [k] announced, is forwarded to [k] whenever [k] is on [a]'s tree and the
    lookup did not come from [k]. A lookup is forwarded only to on-tree peers
    whose filter admits the destination, each once and never back. *)
Theorem multicast_follows_announcements ba a bk k self_parent infos tr bk' to_send ia ik' from_key to_key
    (Hwf : blooms_wf bk)
    (Hmaint : Blooms_do_maintenance murmur3_x64_128 bk k self_parent infos tr = Ret (bk', to_send))
    (Hk : bk' !! a = Some ik') (Htree : bi_on_tree ik' = true)
    (Ha : ba !! k = Some ia) (Htree' : bi_on_tree ia = true) :
  let targets := get_multicast_targets murmur3_x64_128
                   (Blooms_handle_bloom ba k (bi_send ik')) from_key to_key tr in
  NoDup targets /\ (from_key ∉ targets)
  /\ (k <> from_key ->
      x_key to_key tr = x_key k tr
      \/ (exists k2 i2, k2 <> a /\ bk' !! k2 = Some i2 /\ bi_on_tree i2 = true
            /\ test (bi_recv i2) (x_key to_key tr) = true) ->
      k ∈ targets).
Proof.
  intros targets. unfold targets. split_and!.
  - apply multicast_targets_nodup.
  - intros (i & _ & _ & Hne & _)%elem_of_multicast_targets. done.
  - intros Hne Hto. apply elem_of_multicast_targets. exists (ia <| bi_recv := bi_send ik' |>).
    unfold Blooms_handle_bloom. rewrite lookup_alter_eq, Ha. split_and!; [done|done|done|].
    by apply (maintained_filter_admits bk k self_parent infos tr bk' to_send a).
Qed.
End FilterFacts.

(** ** Witnesses *)

Definition sample_murmur (data : bytes) (seed : Z) : option Z := Some (foldl Z.add seed data).
Definition sample_peer (n : Z) : PublicKey := replicate PUBLIC_KEY_SIZE n.
Definition sample_blooms : Blooms := {[ sample_peer 1 := BloomInfo_new ]}.

Lemma sample_blooms_wf : blooms_wf sample_blooms.
Proof.
  apply map_Forall_singleton. split_and!; [apply BloomFilter_new_wf..|done|done].
Qed.

Lemma blooms_maintenance_correct_witness :
  exists b' to_send i', @Blooms_do_maintenance sample_murmur id_order sample_blooms (sample_peer 2)
    (sample_peer 1) ∅ None = Ret (b', to_send)
    /\ b' !! sample_peer 1 = Some i' /\ bi_on_tree i' = true.
Proof.
  destruct (@blooms_maintenance_correct sample_murmur id_order sample_blooms (sample_peer 2)
    (sample_peer 1) ∅ None sample_blooms_wf) as (b' & ts & Hm & _ & Hdom & Hall).
  destruct (proj2 (Hdom (sample_peer 1))) as [i' Hi']; [by eexists|].
  exists b', ts, i'. split_and!; [exact Hm|exact Hi'|].
  destruct (Hall (sample_peer 1) BloomInfo_new i' eq_refl Hi') as (Hon & _). apply Hon. left. reflexivity.
Defined.

Lemma bloom_no_false_negatives_witness :
  bloom_test sample_murmur (bloom_add sample_murmur BloomFilter_new (sample_peer 7)) (sample_peer 7) = true.
Proof.
  apply (bloom_no_false_negatives sample_murmur _ [sample_peer 7]).
  - apply built_add, built_new.
  - left.
Defined.

Lemma multicast_follows_announcements_witness :
  exists targets : list PublicKey, sample_peer 2 ∈ targets.
Proof.
  pose (b1 := {[ sample_peer 2 := (BloomInfo_new <| bi_on_tree := true |>) ]} : Blooms).
  destruct (@do_maintenance_spec sample_murmur id_order sample_blooms (sample_peer 2)
    (sample_peer 1) ∅ None sample_blooms_wf) as (b' & ts & Hm & _ & Hdom & Hall).
  destruct (proj2 (Hdom (sample_peer 1))) as [i' Hi']; [by eexists|].
  destruct (Hall (sample_peer 1) BloomInfo_new i') as (Hon & _); [done|done|].
  pose proof (@multicast_follows_announcements sample_murmur id_order b1 (sample_peer 1) sample_blooms
    (sample_peer 2) (sample_peer 1) ∅ None b' ts (BloomInfo_new <| bi_on_tree := true |>) i'
    (sample_peer 9) (sample_peer 2) sample_blooms_wf Hm Hi' Hon eq_refl eq_refl) as (_ & _ & Hin).
  eexists. apply Hin; [done|by left].
Defined.
