(* ===== verification/Traffic.v ===== *)
(** * Traffic: the deficit round robin packet queue with CoDel

    Models [crates/ironwood/src/traffic.rs]: [TrafficPacket], the flow map and
    round-robin ring of [PacketQueue] ([push], [drop_largest], [pop_info],
    [pop_codel]) and [DeliveryQueue]. Every [u64]/[usize] operation goes through
    [checked], so an underflow is a [Panic] (what a build with overflow checks
    does); the theorems show when it cannot happen, and then the wrapping build
    computes the same values. Loops run on fuel; running out of it is also a
    [Panic], so a [Ret] result includes termination. *)

From S2P Require Import Prelude.
From S2P Require Import Wire.
From Stdlib Require Import SpecFloat.
From stdpp Require Import options.
Open Scope Z_scope.

(** ** Packets *)

Record TrafficPacket := mkTrafficPacket {
  tp_path : list PeerPort;
  tp_from : list PeerPort;
  tp_source : PublicKey;
  tp_dest : PublicKey;
  tp_watermark : Z;
  tp_payload : bytes;
  tp_keepalive : bool
}.
#[export] Instance TrafficPacket_eta : Settable TrafficPacket := fun r =>
  mkTrafficPacket (tp_path r) (tp_from r) (tp_source r) (tp_dest r) (tp_watermark r)
    (tp_payload r) (tp_keepalive r).

Definition TrafficPacket_new (source dest : PublicKey) (payload : bytes) : TrafficPacket :=
  mkTrafficPacket [] [] source dest U64_MAX payload false.

Definition TrafficPacket_keepalive (p : TrafficPacket) : TrafficPacket :=
  p <| tp_keepalive := true |>.

Definition wire_size (p : TrafficPacket) : Z :=
  Z.of_nat (path_size (tp_path p) + path_size (tp_from p) + PUBLIC_KEY_SIZE + PUBLIC_KEY_SIZE
            + uvarint_size (tp_watermark p) + length (tp_payload p)).

(** ** Queue state *)

Definition DEFAULT_PACKET_QUEUE_MAX_BYTES_MULTIPLIER : Z := 64.
Definition DEFAULT_PACKET_QUEUE_PER_FLOW_MULTIPLIER : Z := 16.
Definition DEFAULT_MAX_MESSAGE_SIZE : Z := 1024 * 1024.

(** Instants and durations are nanoseconds. *)
Definition CODEL_TARGET : Z := 15000000.
Definition CODEL_INTERVAL : Z := 100000000.

Definition signed_nanos (now t : Z) : Z := if now >=? t then now - t else - (t - now).

(** [f64] arithmetic: IEEE binary64, and the saturating cast [f64 as u64]. *)
Definition f64_of_int (z : Z) : spec_float := binary_normalize 53 1024 z 0 false.
Definition f64_as_u64 (f : spec_float) : Z :=
  match f with
  | S754_finite false m e =>
      Z.min (if e <? 0 then Z.shiftr (Zpos m) (- e) else Z.shiftl (Zpos m) e) U64_MAX
  | S754_infinity false => U64_MAX
  | _ => 0
  end.

Definition codel_control_law (t count : Z) : Z :=
  t + f64_as_u64 (SFdiv 53 1024 (f64_of_int CODEL_INTERVAL)
                    (SFsqrt 53 1024 (f64_of_int (Z.max count 1)))).

Record Codel := mkCodel {
  first_above_time : option Z;
  drop_next : option Z;
  cd_count : Z;
  lastcount : Z;
  dropping : bool
}.
#[export] Instance Codel_eta : Settable Codel := fun r =>
  mkCodel (first_above_time r) (drop_next r) (cd_count r) (lastcount r) (dropping r).
Definition Codel_default : Codel := mkCodel None None 0 0 false.

Record FlowKey := mkFlowKey { fk_source : PublicKey; fk_dest : PublicKey }.
#[export] Instance FlowKey_eq_dec : EqDecision FlowKey.
Proof. solve_decision. Defined.
#[export] Instance FlowKey_countable : Countable FlowKey.
Proof.
  apply (inj_countable' (fun k => (fk_source k, fk_dest k)) (fun p => mkFlowKey p.1 p.2)).
  by intros [].
Defined.

Record PqPacketInfo := mkPqPacketInfo { qi_packet : TrafficPacket; qi_size : Z; qi_time : Z }.

Record Flow := mkFlow {
  fl_infos : list PqPacketInfo;
  fl_size : Z;
  fl_deficit : Z;
  fl_index : option nat
}.
#[export] Instance Flow_eta : Settable Flow := fun r =>
  mkFlow (fl_infos r) (fl_size r) (fl_deficit r) (fl_index r).

Record PacketQueue := mkPacketQueue {
  pq_flows : gmap FlowKey Flow;
  pq_active : list FlowKey;
  pq_next : option nat;
  pq_size : Z;
  pq_count : Z;
  pq_max_bytes_total : Z;
  pq_max_bytes_per_flow : Z;
  pq_quantum : Z;
  pq_codel : Codel
}.
#[export] Instance PacketQueue_eta : Settable PacketQueue := fun r =>
  mkPacketQueue (pq_flows r) (pq_active r) (pq_next r) (pq_size r) (pq_count r)
    (pq_max_bytes_total r) (pq_max_bytes_per_flow r) (pq_quantum r) (pq_codel r).

Definition PacketQueue_new (quantum : Z) : outcome PacketQueue :=
  let quantum := if quantum =? 0 then DEFAULT_MAX_MESSAGE_SIZE else quantum in
  total ← checked (quantum * DEFAULT_PACKET_QUEUE_MAX_BYTES_MULTIPLIER);
  per_flow ← checked (quantum * DEFAULT_PACKET_QUEUE_PER_FLOW_MULTIPLIER);
  Ret (mkPacketQueue ∅ [] None 0 0 total per_flow quantum Codel_default).

Definition pq_is_empty (q : PacketQueue) : bool := pq_size q =? 0.

(** ** The round-robin ring *)

Definition flow_update (q : PacketQueue) (key : FlowKey) (g : Flow -> Flow) : PacketQueue :=
  q <| pq_flows ::= alter g key |>.

Definition activate (q : PacketQueue) (key : FlowKey) : PacketQueue :=
  let idx := length (pq_active q) in
  flow_update (q <| pq_active ::= fun a => a ++ [key] |>) key (fun f => f <| fl_index := Some idx |>).

Definition deactivate (q : PacketQueue) (key : FlowKey) : outcome PacketQueue :=
  match pq_flows q !! key ≫= fl_index with
  | None => Ret q
  | Some idx =>
      match length (pq_active q) with
      | O => Panic
      | S last =>
          if decide (idx > last)%nat then Ret q
          else
            q ← (if decide (idx <> last) then
                   moved ← unwrap (pq_active q !! last);
                   Ret (flow_update (q <| pq_active ::= <[idx := moved]> |>) moved
                          (fun f => f <| fl_index := Some idx |>))
                 else Ret q);
            let q := q <| pq_active ::= fun a => take (length a - 1) a |> in
            let q := flow_update q key (fun f => f <| fl_index := None |>) in
            if decide (pq_active q = []) then Ret (q <| pq_next := None |>)
            else
              let q := if decide (pq_next q = Some last) then q <| pq_next := Some idx |> else q in
              match pq_next q with
              | Some n =>
                  if decide (n >= length (pq_active q))%nat then Ret (q <| pq_next := Some 0%nat |>)
                  else Ret q
              | None => Ret q
              end
      end
  end.

Definition Flow_empty : Flow := mkFlow [] 0 0 None.

Definition flow_for (q : PacketQueue) (key : FlowKey) : PacketQueue :=
  match pq_flows q !! key with
  | Some _ => q
  | None => q <| pq_flows ::= <[key := Flow_empty]> |>
  end.

Definition remove_flow_if_empty (q : PacketQueue) (key : FlowKey) : outcome PacketQueue :=
  match pq_flows q !! key with
  | None => Ret q
  | Some f =>
      if decide (fl_infos f <> []) then Ret q
      else
        q ← (if decide (is_Some (fl_index f)) then deactivate q key else Ret q);
        Ret (q <| pq_flows ::= delete key |>)
  end.

(** ** Dropping and evicting *)

Definition drop_from (q : PacketQueue) (key : FlowKey)
    : outcome (option PqPacketInfo * PacketQueue) :=
  deficit_cap ← checked (pq_quantum q * 4);
  match pq_flows q !! key with
  | None => Ret (None, q)
  | Some flow =>
      match fl_infos flow with
      | [] => Ret (None, q)
      | info :: rest =>
          fsize ← checked (fl_size flow - qi_size info);
          let deficit := if fl_deficit flow >? deficit_cap then deficit_cap else fl_deficit flow in
          let flow := mkFlow rest fsize deficit (fl_index flow) in
          let q := q <| pq_flows ::= <[key := flow]> |> in
          size ← checked (pq_size q - qi_size info);
          count ← checked (pq_count q - 1);
          q ← remove_flow_if_empty (q <| pq_size := size |> <| pq_count := count |>) key;
          Ret (Some info, q)
      end
  end.

(** [Iterator::max_by] with the comparison of [largest_flow]: by size, then the
    older head; the last of several equal elements wins. *)
Definition flow_cmp (a b : FlowKey * Z * Z) : comparison :=
  match a, b with
  | (_, s1, t1), (_, s2, t2) =>
      match s1 ?= s2 with Eq => t2 ?= t1 | c => c end
  end.

Definition max_by {A} (cmp : A -> A -> comparison) (l : list A) : option A :=
  foldl (fun best x =>
    match best with
    | None => Some x
    | Some b => match cmp b x with Gt => Some b | _ => Some x end
    end) None l.

Definition largest_flow (q : PacketQueue) : option FlowKey :=
  let entries := omap (fun k =>
    f ← pq_flows q !! k; h ← head (fl_infos f); Some (k, fl_size f, qi_time h)) (pq_active q) in
  (fun e => e.1.1) <$> max_by flow_cmp entries.

Definition drop_largest (q : PacketQueue) : outcome (bool * PacketQueue) :=
  match largest_flow q with
  | Some key =>
      r ← drop_from q key;
      Ret (match r.1 with Some _ => true | None => false end, r.2)
  | None => Ret (false, q)
  end.

(** ** Enqueue *)

(** The two eviction loops of [push]; [false] is the early [return]. *)
Fixpoint evict_flow (fuel : nat) (q : PacketQueue) (key : FlowKey) (pkt_size : Z)
    : outcome (bool * PacketQueue) :=
  match fuel with
  | O => Panic
  | S fuel =>
      let '(flow_size, flow_count) :=
        match pq_flows q !! key with
        | Some f => (fl_size f, length (fl_infos f))
        | None => (0, 0%nat)
        end in
      total ← checked (flow_size + pkt_size);
      if decide (total <= pq_max_bytes_per_flow q \/ flow_count = 0%nat) then Ret (true, q)
      else
        r ← drop_from q key;
        match r with
        | (None, q) => Ret (false, q)
        | (Some _, q) => evict_flow fuel q key pkt_size
        end
  end.

Fixpoint evict_largest (fuel : nat) (q : PacketQueue) (pkt_size : Z)
    : outcome (bool * PacketQueue) :=
  match fuel with
  | O => Panic
  | S fuel =>
      total ← checked (pq_size q + pkt_size);
      if decide (total > pq_max_bytes_total q /\ pq_size q > 0) then
        r ← drop_largest q;
        let '(dropped, q) := r in
        if dropped : bool then evict_largest fuel q pkt_size else Ret (false, q)
      else Ret (true, q)
  end.

(** Each eviction removes one packet, so the number of packets bounds the loops. *)
Definition evict_fuel (q : PacketQueue) : nat := S (Z.to_nat (pq_count q)).

Definition enqueue (q : PacketQueue) (key : FlowKey) (info : PqPacketInfo) : outcome PacketQueue :=
  let q := flow_for q key in
  flow ← unwrap (pq_flows q !! key);
  fsize ← checked (fl_size flow + qi_size info);
  let q := q <| pq_flows ::=
             <[key := mkFlow (fl_infos flow ++ [info]) fsize (fl_deficit flow) (fl_index flow)]> |> in
  size ← checked (pq_size q + qi_size info);
  count ← checked (pq_count q + 1);
  let q := q <| pq_size := size |> <| pq_count := count |> in
  match fl_index flow with
  | None => Ret (activate q key)
  | Some _ => Ret q
  end.

Definition push (q : PacketQueue) (packet : TrafficPacket) (now : Z) : outcome PacketQueue :=
  let pkt_size := wire_size packet in
  if decide (pkt_size > pq_max_bytes_total q \/ pkt_size > pq_max_bytes_per_flow q) then Ret q
  else
    let key := mkFlowKey (tp_source packet) (tp_dest packet) in
    let info := mkPqPacketInfo packet pkt_size now in
    let q := flow_for q key in
    r ← evict_flow (evict_fuel q) q key pkt_size;
    match r with
    | (false, q) => Ret q
    | (true, q) =>
        r ← evict_largest (evict_fuel q) q pkt_size;
        match r with
        | (false, q) => Ret q
        | (true, q) => enqueue q key info
        end
    end.

(** ** Dequeue *)

(** [flow.deficit += quantum] for the flow under the cursor. *)
Definition credit (q : PacketQueue) (key : FlowKey) : outcome PacketQueue :=
  match pq_flows q !! key with
  | None => Ret q
  | Some flow =>
      d ← checked (fl_deficit flow + pq_quantum q);
      Ret (q <| pq_flows ::= <[key := flow <| fl_deficit := d |> ]> |>)
  end.

Definition serveable (q : PacketQueue) (key : FlowKey) : bool :=
  match pq_flows q !! key with
  | Some f => match head (fl_infos f) with Some h => qi_size h <=? fl_deficit f | None => false end
  | None => false
  end.

Fixpoint pop_loop (fuel : nat) (q : PacketQueue) (idx : nat) (key : FlowKey)
    : outcome (option PqPacketInfo * PacketQueue) :=
  match fuel with
  | O => Panic
  | S fuel =>
      r ← (if serveable q key then drop_from q key else Ret (None, q));
      match r with
      | (Some info, q) =>
          q ← match pq_flows q !! key with
              | Some flow =>
                  d ← checked (fl_deficit flow - qi_size info);
                  Ret (q <| pq_flows ::= <[key := flow <| fl_deficit := d |> ]> |>)
              | None => Ret q
              end;
          Ret (Some info, q)
      | (None, q) =>
          let idx := S idx in
          let idx := if decide (idx >= length (pq_active q))%nat then 0%nat else idx in
          let q := q <| pq_next := Some idx |> in
          key ← unwrap (pq_active q !! idx);
          q ← credit q key;
          pop_loop fuel q idx key
      end
  end.

(** One round credits every flow with a quantum, so no flow waits for more
    than [size / quantum + 1] rounds in total. *)
Definition pop_fuel (q : PacketQueue) : nat :=
  (Z.to_nat (pq_size q / pq_quantum q) + size (pq_flows q) + 2)%nat.

Definition pop_info (q : PacketQueue) : outcome (option PqPacketInfo * PacketQueue) :=
  if pq_is_empty q || bool_decide (pq_active q = []) then Ret (None, q <| pq_next := None |>)
  else
    let '(need_credit, q) :=
      match pq_next q with
      | None => (true, q <| pq_next := Some 0%nat |>)
      | Some n =>
          if decide (n >= length (pq_active q))%nat then (false, q <| pq_next := Some 0%nat |>)
          else (false, q)
      end in
    idx ← unwrap (pq_next q);
    key ← unwrap (pq_active q !! idx);
    q ← (if need_credit : bool then credit q key else Ret q);
    pop_loop (pop_fuel q) q idx key.

(** ** CoDel *)

Definition codel_should_drop (q : PacketQueue) (info : option PqPacketInfo) (now : Z)
    : bool * PacketQueue :=
  match info with
  | None => (false, q <| pq_codel ::= fun c => c <| first_above_time := None |> |>)
  | Some pkt =>
      let sojourn := Z.max 0 (now - qi_time pkt) in
      if (sojourn <? CODEL_TARGET) || (pq_count q <=? 1) then
        (false, q <| pq_codel ::= fun c => c <| first_above_time := None |> |>)
      else
        match first_above_time (pq_codel q) with
        | None =>
            (false, q <| pq_codel ::= fun c => c <| first_above_time := Some (now + CODEL_INTERVAL) |> |>)
        | Some fat => (now >? fat, q)
        end
  end.

Definition checked32 (z : Z) : outcome Z := if decide (is_u32 z) then Ret z else Panic.

Fixpoint codel_loop (fuel : nat) (q : PacketQueue) (info : option PqPacketInfo) (now : Z)
    : outcome (option PqPacketInfo * PacketQueue) :=
  match fuel with
  | O => Panic
  | S fuel =>
      if dropping (pq_codel q) && (match drop_next (pq_codel q) with Some dn => now >=? dn | None => false end)
      then
        count ← checked32 (cd_count (pq_codel q) + 1);
        let q := q <| pq_codel ::= fun c => c <| cd_count := count |> |> in
        r ← pop_info q;
        let '(info, q) := r in
        let '(drop, q) := codel_should_drop q info now in
        if negb drop then
          codel_loop fuel (q <| pq_codel ::= fun c => c <| dropping := false |> |>) info now
        else
          dn ← unwrap (drop_next (pq_codel q));
          codel_loop fuel (q <| pq_codel ::= fun c =>
             c <| drop_next := Some (codel_control_law dn (cd_count c)) |> |>) info now
      else Ret (info, q)
  end.

(** Entering the dropping state: the current packet is dropped. *)
Definition codel_enter (q : PacketQueue) (now : Z) : outcome (option PqPacketInfo * PacketQueue) :=
  r ← pop_info q;
  let '(info, q) := r in
  let q := (codel_should_drop q info now).2 in
  let c := (pq_codel q) <| dropping := true |> in
  let delta := wrap32 (cd_count c - lastcount c) in
  let count :=
    if (delta >? 1)
       && (match drop_next c with
           | Some dn => signed_nanos now dn <? 16 * CODEL_INTERVAL | None => false end)
    then delta else 1 in
  let c := c <| cd_count := count |> <| lastcount := count |>
             <| drop_next := Some (codel_control_law now count) |> in
  Ret (info, q <| pq_codel := c |>).

(** What [pop_codel] does with the packet [i] it has dequeued. *)
Definition codel_select (q : PacketQueue) (i : PqPacketInfo) (now : Z)
    : outcome (option PqPacketInfo * PacketQueue) :=
  let '(drop, q) := codel_should_drop q (Some i) now in
  if dropping (pq_codel q) then
    if negb drop then Ret (Some i, q <| pq_codel ::= fun c => c <| dropping := false |> |>)
    else codel_loop (S (Z.to_nat (pq_count q))) q (Some i) now
  else if drop
       && ((match drop_next (pq_codel q) with
            | Some dn => signed_nanos now dn <? CODEL_INTERVAL | None => false end)
           || (match first_above_time (pq_codel q) with
               | Some fat => signed_nanos now fat >=? CODEL_INTERVAL | None => false end))
  then codel_enter q now
  else Ret (Some i, q).

Definition pop_codel (q : PacketQueue) (now : Z) : outcome (option TrafficPacket * PacketQueue) :=
  r ← pop_info q;
  match r with
  | (None, q) => Ret (None, q <| pq_codel ::= fun c => c <| dropping := false |> |>)
  | (Some i, q) =>
      r ← codel_select q i now;
      Ret (option_map qi_packet (fst r), snd r)
  end.

(** ** Delivery queue *)

(** Each operation holds the queue's lock; [recv_ready] counts waiting readers. *)
Record DeliveryQueue := mkDeliveryQueue { dq_queue : PacketQueue; dq_recv_ready : Z }.
#[export] Instance DeliveryQueue_eta : Settable DeliveryQueue := fun r =>
  mkDeliveryQueue (dq_queue r) (dq_recv_ready r).

Definition DeliveryQueue_new (quantum : Z) : outcome DeliveryQueue :=
  q ← PacketQueue_new quantum; Ret (mkDeliveryQueue q 0).

(** [deliver] reads [recv_ready] before it takes the lock: the test and what
    follows it are two steps, which a reader may run between. *)
Definition deliver_check (d : DeliveryQueue) : bool := dq_recv_ready d >? 0.

Definition deliver_commit (d : DeliveryQueue) (ready : bool) (packet : TrafficPacket) (now : Z)
    : outcome (option TrafficPacket * DeliveryQueue) :=
  if ready then
    Ret (Some packet, d <| dq_recv_ready := wrap64 (dq_recv_ready d - 1) |>)
  else
    q ← push (dq_queue d) packet now;
    Ret (None, d <| dq_queue := q |>).

Definition deliver (d : DeliveryQueue) (packet : TrafficPacket) (now : Z)
    : outcome (option TrafficPacket * DeliveryQueue) :=
  deliver_commit d (deliver_check d) packet now.

Definition queue_size (d : DeliveryQueue) : Z := pq_size (dq_queue d).

Definition try_pop (d : DeliveryQueue) (now : Z) : outcome (option TrafficPacket * DeliveryQueue) :=
  r ← pop_codel (dq_queue d) now;
  Ret (r.1, d <| dq_queue := r.2 |>).

Definition try_pop_or_wait (d : DeliveryQueue) (now : Z)
    : outcome (option TrafficPacket * DeliveryQueue) :=
  r ← pop_codel (dq_queue d) now;
  match r with
  | (Some packet, q) => Ret (Some packet, d <| dq_queue := q |>)
  | (None, q) => Ret (None, d <| dq_queue := q |> <| dq_recv_ready := wrap64 (dq_recv_ready d + 1) |>)
  end.
(** ** The ring *)

(** [pq_active] and the [fl_index] fields are inverse to each other, and the
    cursor points into the ring. *)
Record ring_ok (flows : gmap FlowKey Flow) (active : list FlowKey) (next : option nat) : Prop := {
  ring_flow : forall i k, active !! i = Some k ->
    exists f, flows !! k = Some f /\ fl_index f = Some i;
  ring_index : forall k f i, flows !! k = Some f -> fl_index f = Some i -> active !! i = Some k;
  ring_next : forall n, next = Some n -> (n < length active)%nat
}.

(** The part of a flow the ring operations leave alone. *)
Definition same_data (f f' : Flow) : Prop :=
  fl_infos f = fl_infos f' /\ fl_size f = fl_size f' /\ fl_deficit f = fl_deficit f'.

(** What removing [key] from the ring does to another flow [g]. *)
Definition ring_kept (next next' : option nat) (g g' : Flow) : Prop :=
  same_data g g' /\ (is_Some (fl_index g) <-> is_Some (fl_index g'))
  /\ (is_Some (fl_index g) -> next = fl_index g -> next' = fl_index g').

Lemma ring_inj flows active next i j k :
  ring_ok flows active next -> active !! i = Some k -> active !! j = Some k -> i = j.
Proof.
  intros R Hi Hj. destruct (ring_flow _ _ _ R _ _ Hi) as (f & Hf & Hfi).
  destruct (ring_flow _ _ _ R _ _ Hj) as (g & Hg & Hgj). congruence.
Qed.

(** The swap-remove of [deactivate] on the ring, as pure functions. *)
Definition swap_remove (active : list FlowKey) (idx : nat) : list FlowKey :=
  match last active with
  | Some moved => take (length active - 1) (<[idx := moved]> active)
  | None => active
  end.

Lemma swap_remove_lookup active idx j : (idx < length active)%nat ->
  swap_remove active idx !! j
  = if decide (j < length active - 1)%nat
    then (if decide (j = idx) then last active else active !! j) else None.
Proof.
  intros Hidx. unfold swap_remove. destruct (last active) as [moved|] eqn:Hl.
  - case_decide.
    + rewrite lookup_take_lt by done. case_decide as Hj.
      * subst. by rewrite list_lookup_insert_eq by lia.
      * by rewrite list_lookup_insert_ne by done.
    + by rewrite lookup_take_ge by lia.
  - apply last_None in Hl. subst. simpl in Hidx. lia.
Qed.

Lemma swap_remove_length active idx : (idx < length active)%nat ->
  length (swap_remove active idx) = (length active - 1)%nat.
Proof.
  intros Hidx. unfold swap_remove. destruct (last active) eqn:Hl.
  - rewrite length_take, length_insert. lia.
  - apply last_None in Hl. subst. done.
Qed.

Definition deactivate_next (active : list FlowKey) (idx : nat) (next : option nat) : option nat :=
  if decide (length active = 1)%nat then None
  else if decide (next = Some (length active - 1)%nat)
  then Some (if decide (idx = (length active - 1)%nat) then 0%nat else idx) else next.

Definition deactivate_flows (flows : gmap FlowKey Flow) (active : list FlowKey) (idx : nat)
    (key : FlowKey) : gmap FlowKey Flow :=
  alter (fun f => f <| fl_index := None |>) key
    (match last active with
     | Some moved => if decide (idx <> (length active - 1)%nat)
                     then alter (fun f => f <| fl_index := Some idx |>) moved flows else flows
     | None => flows
     end).

Lemma deactivate_eq q key f idx :
  ring_ok (pq_flows q) (pq_active q) (pq_next q) ->
  pq_flows q !! key = Some f -> fl_index f = Some idx ->
  deactivate q key = Ret (q
    <| pq_flows := deactivate_flows (pq_flows q) (pq_active q) idx key |>
    <| pq_active := swap_remove (pq_active q) idx |>
    <| pq_next := deactivate_next (pq_active q) idx (pq_next q) |>).
Proof.
  intros R Hf Hidx. pose proof (ring_index _ _ _ R _ _ _ Hf Hidx) as Ha.
  pose proof (lookup_lt_Some _ _ _ Ha) as Hlt. pose proof (ring_next _ _ _ R) as Hn.
  destruct q as [flows active next sz ct mt mf qu cd]; simpl in *.
  unfold deactivate, swap_remove, deactivate_next, deactivate_flows, flow_update, set_field. simpl. rewrite Hf. simpl. rewrite Hidx.
  rewrite last_lookup.
  destruct (length active) as [|l] eqn:Hlen; [lia|]. simpl. rewrite Nat.sub_0_r.
  destruct (lookup_lt_is_Some_2 active l ltac:(lia)) as [moved Hm]. rewrite Hm.
  rewrite decide_False by lia.
  assert (Hfix : forall n, next = Some n -> ~ (n >= S l)%nat) by (intros n ?%Hn; lia).
  assert (Hlt' : forall a : list FlowKey, length (take l a) = (l `min` length a)%nat)
    by (intros; apply length_take).
  assert (Hnil : forall a : list FlowKey, length a = S l -> take l a = [] -> l = 0%nat).
  { intros a Hla Ht%(f_equal length). rewrite Hlt', Hla in Ht. simpl in Ht. lia. }
  case_decide as Hne; simpl.
  - rewrite length_insert, Hlen. simpl. rewrite Nat.sub_0_r.
    rewrite decide_False by (intros ?%Hnil; [lia|by rewrite length_insert]).
    rewrite (decide_False (P := S l = 1%nat)) by lia.
    rewrite (decide_False (P := idx = l)) by lia.
    case_decide as Hnx; simpl.
    + rewrite decide_False; [done|]. rewrite Hlt', length_insert. lia.
    + destruct next as [n|]; [|done]. rewrite decide_False; [done|].
      rewrite Hlt', length_insert. specialize (Hfix n eq_refl).
      assert (n <> l) by congruence. lia.
  - assert (idx = l) by (destruct (decide (idx = l)); [done|by destruct Hne]). subst idx.
    rewrite Hlen. simpl. rewrite Nat.sub_0_r. rewrite (list_insert_id active l moved Hm).
    destruct (decide (S l = 1%nat)) as [H1|H1].
    + rewrite decide_True; [done|]. assert (l = 0%nat) by lia. subst. by rewrite take_0.
    + rewrite decide_False by (intros ?%Hnil; [lia|done]).
      rewrite (decide_True (P := l = l)) by done.
      case_decide as Hnx; simpl.
      * rewrite decide_True; [done|]. rewrite Hlt'. lia.
      * destruct next as [n|]; [|done]. rewrite decide_False; [done|].
        rewrite Hlt'. specialize (Hfix n eq_refl). assert (n <> l) by congruence. lia.
Qed.

Lemma deactivate_ring flows active next key f idx :
  ring_ok flows active next -> flows !! key = Some f -> fl_index f = Some idx ->
  let flows' := deactivate_flows flows active idx key in
  let next' := deactivate_next active idx next in
  ring_ok (delete key flows') (swap_remove active idx) next'
  /\ flows' !! key = Some (f <| fl_index := None |>)
  /\ (forall k, k <> key -> option_Forall2 (ring_kept next next') (flows !! k) (flows' !! k)).
Proof.
  intros R Hf Hidx flows' next'.
  pose proof (ring_index _ _ _ R _ _ _ Hf Hidx) as Ha.
  pose proof (lookup_lt_Some _ _ _ Ha) as Hlt.
  destruct (lookup_lt_is_Some_2 active (length active - 1) ltac:(lia)) as [moved Hm].
  assert (Hlast : last active = Some moved) by (rewrite last_lookup; by replace (pred (length active)) with (length active - 1)%nat by lia).
  assert (Hmk : idx <> (length active - 1)%nat -> moved <> key).
  { intros Hne ->. by apply Hne, (ring_inj _ _ _ _ _ _ R Ha). }
  assert (Hmk' : idx = (length active - 1)%nat -> moved = key) by (intros ->; congruence).
  assert (Hother : forall k, k <> key -> flows' !! k =
            if decide (k = moved) then (fun f => f <| fl_index := Some idx |>) <$> flows !! k else flows !! k).
  { intros k Hk. unfold flows', deactivate_flows. rewrite Hlast, lookup_alter_ne by done.
    case_decide as Hne.
    - case_decide; subst; [apply lookup_alter_eq|by apply lookup_alter_ne].
    - case_decide as Hkm; [|done]. destruct Hk. rewrite Hkm. apply Hmk'. lia. }
  assert (Hkey : flows' !! key = Some (f <| fl_index := None |>)).
  { unfold flows', deactivate_flows. rewrite Hlast, lookup_alter_eq. case_decide.
    - rewrite lookup_alter_ne by (by apply Hmk). by rewrite Hf.
    - by rewrite Hf. }
  destruct (ring_flow _ _ _ R _ _ Hm) as (fm & Hfm & Him).
  split_and!; [|done|].
  - split.
    + intros i k. rewrite swap_remove_lookup by done. case_decide as Hi; [|done].
      case_decide as Hii.
      * subst i. rewrite Hlast. intros [= ->]. exists (fm <| fl_index := Some idx |>).
        rewrite lookup_delete_ne by (apply not_eq_sym, Hmk; lia).
        rewrite Hother by (apply Hmk; lia). rewrite decide_True by done. by rewrite Hfm.
      * intros Hik. destruct (ring_flow _ _ _ R _ _ Hik) as (g & Hg & Hgi). exists g.
        assert (k <> key) by (intros ->; congruence).
        rewrite lookup_delete_ne by done. rewrite Hother, decide_False; [done| |done].
        intros ->. rewrite Hg in Hfm. assert (i = (length active - 1)%nat) by congruence. lia.
    + intros k g i. destruct (decide (k = key)) as [->|Hk]; [by rewrite lookup_delete_eq|].
      rewrite lookup_delete_ne, Hother by done. rewrite swap_remove_lookup by done. case_decide as Hkm.
      * subst. rewrite Hfm. intros [= <-] [= <-]. rewrite decide_True, decide_True; [done..|].
        destruct (decide (idx = (length active - 1)%nat)) as [e|]; [by apply Hmk' in e|lia].
      * intros Hg Hgi. pose proof (ring_index _ _ _ R _ _ _ Hg Hgi) as Hai.
        pose proof (lookup_lt_Some _ _ _ Hai). rewrite decide_True, decide_False; [done| |].
        -- intros ->. congruence.
        -- destruct (decide (i = (length active - 1)%nat)) as [->|]; [congruence|lia].
    + intros n. rewrite swap_remove_length by done. unfold next', deactivate_next.
      case_decide; [done|]. case_decide; [intros [= <-]; case_decide; lia|].
      intros Hn. pose proof (ring_next _ _ _ R _ Hn). assert (n <> (length active - 1)%nat) by congruence. lia.
  - intros k Hk. rewrite Hother by done. case_decide as Hkm.
    + subst. rewrite Hfm. simpl. constructor. split; [done|]. rewrite Him. split; [done|].
      intros _ Hn. simpl. unfold next', deactivate_next. rewrite (decide_True (P := next = _)) by done.
      assert (idx <> (length active - 1)%nat) by (intros e; by apply Hmk' in e).
      rewrite !decide_False by lia. done.
    + destruct (flows !! k) as [g|] eqn:Hg; [|constructor]. constructor. split; [done|]. split; [done|].
      intros [i Hi] Hn. unfold next', deactivate_next.
      pose proof (ring_index _ _ _ R _ _ _ Hg Hi) as Hai. pose proof (lookup_lt_Some _ _ _ Hai).
      assert (i <> (length active - 1)%nat) by (intros ->; congruence).
      assert (i <> idx) by (intros ->; congruence).
      rewrite Hi in *. rewrite !decide_False; [done|congruence|lia].
Qed.

(** ** Invariant *)

Definition sum_sizes (l : list PqPacketInfo) : Z := foldr (fun i acc => qi_size i + acc) 0 l.
Definition packet_key (p : TrafficPacket) : FlowKey := mkFlowKey (tp_source p) (tp_dest p).
Definition packets_of (f : Flow) : Z := Z.of_nat (length (fl_infos f)).

Definition info_ok (k : FlowKey) (i : PqPacketInfo) : Prop :=
  qi_size i = wire_size (qi_packet i) /\ packet_key (qi_packet i) = k.

(** A flow's accounts. Its credit stays below 16 quanta, 17 when the cursor has
    just credited it. *)
Record flow_ok (quantum : Z) (next : option nat) (k : FlowKey) (f : Flow) : Prop := {
  flow_infos : Forall (info_ok k) (fl_infos f);
  flow_size : fl_size f = sum_sizes (fl_infos f);
  flow_cap : fl_size f <= 16 * quantum;
  flow_active : is_Some (fl_index f) <-> fl_infos f <> [];
  flow_deficit : 0 <= fl_deficit f
    /\ (fl_deficit f < 16 * quantum
        \/ (fl_deficit f < 17 * quantum /\ is_Some (fl_index f) /\ next = fl_index f))
}.

Record pq_inv (q : PacketQueue) : Prop := {
  inv_quantum : 0 < pq_quantum q < 2 ^ 57;
  inv_caps : pq_max_bytes_total q = 64 * pq_quantum q
             /\ pq_max_bytes_per_flow q = 16 * pq_quantum q;
  inv_flows : map_Forall (flow_ok (pq_quantum q) (pq_next q)) (pq_flows q);
  inv_ring : ring_ok (pq_flows q) (pq_active q) (pq_next q);
  inv_size : pq_size q = total fl_size (pq_flows q);
  inv_count : pq_count q = total packets_of (pq_flows q);
  inv_total : pq_size q <= pq_max_bytes_total q
}.

(** Outside of an operation no flow is empty. *)
Definition no_idle (q : PacketQueue) : Prop :=
  map_Forall (fun _ f => fl_infos f <> []) (pq_flows q).

(** The queued packets of a flow, oldest first. *)
Definition backlog (q : PacketQueue) (k : FlowKey) : list PqPacketInfo :=
  match pq_flows q !! k with Some f => fl_infos f | None => [] end.

(** What the queue operations do not change. *)
Definition same_config (q q' : PacketQueue) : Prop :=
  pq_max_bytes_total q' = pq_max_bytes_total q
  /\ pq_max_bytes_per_flow q' = pq_max_bytes_per_flow q
  /\ pq_quantum q' = pq_quantum q /\ pq_codel q' = pq_codel q.

Lemma wire_size_pos p : 0 < wire_size p.
Proof. unfold wire_size, PUBLIC_KEY_SIZE. lia. Qed.

Lemma sum_sizes_nonneg k l : Forall (info_ok k) l -> 0 <= sum_sizes l.
Proof.
  induction 1 as [|i l [Hi _] _ IH]; simpl; [done|].
  pose proof (wire_size_pos (qi_packet i)). lia.
Qed.

Lemma sum_sizes_app l l' : sum_sizes (l ++ l') = sum_sizes l + sum_sizes l'.
Proof. induction l; simpl; lia. Qed.

Lemma inv_size_nonneg q : pq_inv q -> map_Forall (fun _ f => 0 <= fl_size f) (pq_flows q).
Proof.
  intros I k f Hf. pose proof (inv_flows _ I _ _ Hf) as F.
  rewrite (flow_size _ _ _ _ F). apply (sum_sizes_nonneg k), F.
Qed.

Lemma inv_bounds q k f : pq_inv q -> pq_flows q !! k = Some f ->
  0 <= fl_size f <= pq_size q /\ packets_of f <= pq_count q /\ 64 * pq_quantum q < 2 ^ 63.
Proof.
  intros I Hf. pose proof (inv_size_nonneg q I) as Hn. pose proof (inv_quantum _ I).
  rewrite (inv_size _ I), (inv_count _ I). split_and!; [by eapply Hn| | |lia].
  - by apply (total_lookup_le fl_size _ k).
  - apply (total_lookup_le packets_of _ k); [|done]. intros ???. unfold packets_of. lia.
Qed.

(** A packet count fits a [u64]: every packet has at least one byte. *)
Lemma inv_count_le q : pq_inv q -> 0 <= pq_count q <= pq_size q.
Proof.
  intros I. rewrite (inv_count _ I), (inv_size _ I). split.
  - apply total_ge. intros ???. unfold packets_of. lia.
  - apply total_le. intros k f Hf. pose proof (inv_flows _ I _ _ Hf) as F.
    rewrite (flow_size _ _ _ _ F). unfold packets_of. pose proof (flow_infos _ _ _ _ F) as Hi.
    clear F Hf. induction Hi as [|i l [Hi _] _ IH]; simpl; [done|].
    pose proof (wire_size_pos (qi_packet i)). lia.
Qed.

Lemma ring_ok_insert flows active next k f f' :
  ring_ok flows active next -> flows !! k = Some f -> fl_index f' = fl_index f ->
  ring_ok (<[k := f']> flows) active next.
Proof.
  intros R Hf Hi. split.
  - intros i k' Hk'. destruct (ring_flow _ _ _ R _ _ Hk') as (g & Hg & Hgi).
    destruct (decide (k' = k)) as [->|Hne].
    + exists f'. rewrite lookup_insert_eq. split; [done|congruence].
    + exists g. by rewrite lookup_insert_ne by done.
  - intros k' g i. destruct (decide (k' = k)) as [->|Hne].
    + rewrite lookup_insert_eq. intros [= <-]. rewrite Hi. by apply (ring_index _ _ _ R).
    + rewrite lookup_insert_ne by done. apply (ring_index _ _ _ R).
  - apply R.
Qed.

Lemma total_deactivate g flows active idx key :
  (forall f i, g (f <| fl_index := i |>) = g f) ->
  total g (deactivate_flows flows active idx key) = total g flows.
Proof.
  intros Hg. unfold deactivate_flows. rewrite total_alter by (intros; apply Hg).
  destruct (last active); [|done]. case_decide; [|done]. by rewrite total_alter by (intros; apply Hg).
Qed.

Lemma flow_ok_kept quantum next next' k g g' :
  ring_kept next next' g g' -> flow_ok quantum next k g -> flow_ok quantum next' k g'.
Proof.
  intros ((Hi & Hs & Hd) & Ha & Hn) F. split.
  - rewrite <- Hi. apply F.
  - rewrite <- Hi, <- Hs. apply F.
  - rewrite <- Hs. apply F.
  - rewrite <- Ha, <- Hi. apply F.
  - rewrite <- Hd. destruct F as [_ _ _ _ (Hp & [Hlt|(Hlt & His & Hnx)])]; split; [lia|by left|lia|].
    right. split_and!; [done|by apply Ha|by apply Hn].
Qed.

(** ** Removing the head of a flow *)

Record dropped (q q' : PacketQueue) (key : FlowKey) (info : PqPacketInfo) : Prop := {
  dropped_inv : pq_inv q';
  dropped_head : exists rest, backlog q key = info :: rest /\ backlog q' key = rest;
  dropped_others : forall k, k <> key -> backlog q' k = backlog q k;
  dropped_keys : forall k, k <> key -> is_Some (pq_flows q' !! k) <-> is_Some (pq_flows q !! k);
  dropped_key : backlog q' key = [] -> pq_flows q' !! key = None;
  dropped_size : pq_size q' = pq_size q - qi_size info;
  dropped_count : pq_count q' = pq_count q - 1;
  dropped_config : same_config q q'
}.

Lemma flow_ok_tail quantum next k f info rest d :
  0 < quantum -> flow_ok quantum next k f -> fl_infos f = info :: rest ->
  0 <= d <= 4 * quantum -> rest <> [] ->
  flow_ok quantum next k (mkFlow rest (fl_size f - qi_size info) d (fl_index f)).
Proof.
  intros Hq F Hi Hd Hr. pose proof (flow_infos _ _ _ _ F) as Hall. rewrite Hi in Hall.
  inversion_clear Hall as [|? ? [Hsz _] Hrest]. pose proof (wire_size_pos (qi_packet info)).
  pose proof (flow_size _ _ _ _ F) as Hs. rewrite Hi in Hs. simpl in Hs. pose proof (flow_cap _ _ _ _ F).
  split; simpl; [done|lia|lia| |split; [lia|left; lia]].
  split; [done|]. intros _. apply (flow_active _ _ _ _ F). by rewrite Hi.
Qed.

(** The state of [drop_from] before [remove_flow_if_empty]. *)
Definition popped_flow (q : PacketQueue) (f : Flow) (info : PqPacketInfo) (rest : list PqPacketInfo)
    : Flow :=
  mkFlow rest (fl_size f - qi_size info) (Z.min (fl_deficit f) (4 * pq_quantum q)) (fl_index f).

Definition popped (q : PacketQueue) (key : FlowKey) (f : Flow) (info : PqPacketInfo)
    (rest : list PqPacketInfo) : PacketQueue :=
  mkPacketQueue (<[key := popped_flow q f info rest]> (pq_flows q)) (pq_active q) (pq_next q)
    (pq_size q - qi_size info) (pq_count q - 1) (pq_max_bytes_total q) (pq_max_bytes_per_flow q)
    (pq_quantum q) (pq_codel q).

(** The head of a flow and the totals it is part of. *)
Lemma head_facts q key f info rest :
  pq_inv q -> pq_flows q !! key = Some f -> fl_infos f = info :: rest ->
  flow_ok (pq_quantum q) (pq_next q) key f /\ 0 < qi_size info <= fl_size f
  /\ fl_size f <= pq_size q <= 64 * pq_quantum q
  /\ 1 <= pq_count q <= 64 * pq_quantum q /\ 0 < pq_quantum q < 2 ^ 57
  /\ packets_of f = 1 + Z.of_nat (length rest).
Proof.
  intros I Hf Hb. pose proof (inv_flows _ I _ _ Hf) as F.
  pose proof (inv_bounds q key f I Hf) as (Hfs & Hfc & _). pose proof (inv_quantum _ I).
  pose proof (flow_size _ _ _ _ F) as Hsum. rewrite Hb in Hsum. simpl in Hsum.
  pose proof (flow_infos _ _ _ _ F) as Hall. rewrite Hb in Hall.
  inversion_clear Hall as [|? ? [Hsz Hkey] Hrest]. pose proof (wire_size_pos (qi_packet info)).
  pose proof (sum_sizes_nonneg _ _ Hrest). pose proof (inv_count_le q I).
  pose proof (inv_total _ I). destruct (inv_caps _ I) as [Hmt Hmf].
  assert (packets_of f = 1 + Z.of_nat (length rest)) by (unfold packets_of; rewrite Hb; simpl length; lia).
  split_and!; try done; lia.
Qed.

Lemma drop_from_eq q key f info rest :
  pq_inv q -> pq_flows q !! key = Some f -> fl_infos f = info :: rest ->
  drop_from q key = (q' ← remove_flow_if_empty (popped q key f info rest) key; Ret (Some info, q')).
Proof.
  intros I Hf Hb. destruct (head_facts q key f info rest I Hf Hb) as (F & ? & ? & ? & ? & _).
  unfold drop_from. rewrite checked_ok by (unfold is_u64; lia). simpl. rewrite Hf, Hb.
  rewrite checked_ok by (unfold is_u64; lia). simpl.
  replace (if fl_deficit f >? pq_quantum q * 4 then pq_quantum q * 4 else fl_deficit f)
    with (Z.min (fl_deficit f) (4 * pq_quantum q))
    by (rewrite Z.gtb_ltb; destruct (Z.ltb_spec (pq_quantum q * 4) (fl_deficit f)); lia).
  rewrite checked_ok by (unfold set_field, is_u64; simpl; lia). simpl.
  rewrite checked_ok by (unfold set_field, is_u64; simpl; lia). done.
Qed.

(** The flow becomes empty and leaves the queue. *)
Lemma remove_emptied q key f info :
  pq_inv q -> pq_flows q !! key = Some f -> fl_infos f = [info] ->
  exists q', remove_flow_if_empty (popped q key f info []) key = Ret q'
    /\ dropped q q' key info /\ pq_flows q' !! key = None.
Proof.
  intros I Hf Hb. destruct (head_facts q key f info [] I Hf Hb) as (F & ? & ? & ? & ? & Hpc).
  destruct (inv_caps _ I) as [Hmt Hmf].
  assert (Hone : fl_size f = qi_size info) by (rewrite (flow_size _ _ _ _ F), Hb; simpl; lia).
  set (f' := popped_flow q f info []).
  pose proof (ring_ok_insert _ _ _ _ _ f' (inv_ring _ I) Hf eq_refl) as R.
  unfold remove_flow_if_empty. simpl. rewrite lookup_insert_eq, decide_False by (intros Hx; by apply Hx).
  destruct (proj2 (flow_active _ _ _ _ F)) as [idx Hidx]; [by rewrite Hb|].
  rewrite decide_True by (simpl; by eexists).
  erewrite deactivate_eq; [|exact R|apply lookup_insert_eq|exact Hidx].
  unfold set_field; simpl.
  destruct (deactivate_ring _ _ _ key f' idx R (lookup_insert_eq _ _ _) Hidx) as (R' & Hk' & Ho).
  fold f'. set (flows' := deactivate_flows _ _ _ _) in *. set (next' := deactivate_next _ _ _) in *.
  eexists. split; [done|]. split; [|apply lookup_delete_eq].
  assert (Ho' : forall k, k <> key ->
    option_Forall2 (ring_kept (pq_next q) next') (pq_flows q !! k) (delete key flows' !! k)).
  { intros k Hk. specialize (Ho k Hk). rewrite lookup_insert_ne in Ho by done.
    by rewrite lookup_delete_ne by done. }
  split; simpl; [| | | | |done|done|done].
  - split; simpl; [done|done| |done| | |lia].
    + intros k g Hg. destruct (decide (k = key)) as [->|Hk]; [by rewrite lookup_delete_eq in Hg|].
      specialize (Ho' k Hk). rewrite Hg in Ho'. inversion Ho' as [g0 g1 Hkept Hg0|]. subst.
      eapply flow_ok_kept; [done|]. by apply (inv_flows _ I).
    + rewrite (total_delete _ _ _ _ Hk'). unfold flows'. rewrite total_deactivate by done.
      rewrite (total_insert _ _ _ f) by done. rewrite (inv_size _ I). unfold set_field. simpl. lia.
    + rewrite (total_delete _ _ _ _ Hk'). unfold flows'. rewrite total_deactivate by done.
      rewrite (total_insert _ _ _ f) by done. rewrite (inv_count _ I), Hpc. unfold packets_of. simpl. lia.
  - exists []. unfold backlog. simpl. by rewrite Hf, lookup_delete_eq.
  - intros k Hk. unfold backlog. simpl. destruct (Ho' k Hk) as [? ? [[? _] _]|]; done.
  - intros k Hk. destruct (Ho' k Hk); [split; by eexists|done].
  - intros _. by rewrite lookup_delete_eq.
Qed.

(** The flow keeps a backlog and its place in the ring. *)
Lemma remove_kept q key f info rest :
  pq_inv q -> pq_flows q !! key = Some f -> fl_infos f = info :: rest -> rest <> [] ->
  remove_flow_if_empty (popped q key f info rest) key = Ret (popped q key f info rest)
  /\ dropped q (popped q key f info rest) key info.
Proof.
  intros I Hf Hb Hr. destruct (head_facts q key f info rest I Hf Hb) as (F & ? & ? & ? & ? & Hpc).
  destruct (inv_caps _ I) as [Hmt Hmf].
  unfold remove_flow_if_empty. simpl. rewrite lookup_insert_eq, decide_True by done. split; [done|].
  pose proof (ring_ok_insert _ _ _ _ _ (popped_flow q f info rest) (inv_ring _ I) Hf eq_refl) as R.
  pose proof (flow_deficit _ _ _ _ F) as [Hd0 _].
  split; simpl; [| | | | |done|done|done].
  - split; simpl; [done|done| |done| | |lia].
    + apply map_Forall_insert_2; [|apply I]. apply (flow_ok_tail _ _ _ _ info rest); [lia|done|done|lia|done].
    + rewrite (total_insert _ _ _ f) by done. rewrite (inv_size _ I). simpl. lia.
    + rewrite (total_insert _ _ _ f) by done. rewrite (inv_count _ I), Hpc. unfold packets_of. simpl. lia.
  - exists rest. unfold backlog. simpl. by rewrite Hf, lookup_insert_eq.
  - intros k Hk. unfold backlog. simpl. by rewrite lookup_insert_ne by done.
  - intros k Hk. by rewrite lookup_insert_ne by done.
  - unfold backlog. simpl. by rewrite lookup_insert_eq.
Qed.

Lemma drop_from_spec q key info rest :
  pq_inv q -> backlog q key = info :: rest ->
  exists q', drop_from q key = Ret (Some info, q') /\ dropped q q' key info
    /\ forall f f', pq_flows q !! key = Some f -> pq_flows q' !! key = Some f' ->
         fl_deficit f' = Z.min (fl_deficit f) (4 * pq_quantum q).
Proof.
  intros I Hb. unfold backlog in Hb. destruct (pq_flows q !! key) as [f|] eqn:Hf; [|done].
  rewrite (drop_from_eq _ _ _ _ _ I Hf Hb). destruct (decide (rest = [])) as [->|Hr].
  - destruct (remove_emptied q key f info I Hf Hb) as (q' & -> & Hd & Hn).
    exists q'. split; [done|]. split; [done|]. intros ?? _. by rewrite Hn.
  - destruct (remove_kept q key f info rest I Hf Hb Hr) as [-> Hd]. eexists. split; [done|]. split; [done|].
    intros g g'. simpl. rewrite lookup_insert_eq. by intros [= <-] [= <-].
Qed.

(** ** Evictions *)

(** The flow [largest_flow] picks has a backlog and no flow holds more bytes. *)
Lemma max_by_spec {A} (cmp : A -> A -> comparison) (mu : A -> Z) (l : list A) :
  (forall b x, cmp b x = Gt -> mu x <= mu b) -> (forall b x, cmp b x <> Gt -> mu b <= mu x) ->
  l <> [] -> exists r, max_by cmp l = Some r /\ r ∈ l /\ forall x, x ∈ l -> mu x <= mu r.
Proof.
  intros Hgt Hle Hl. induction l as [|y l IH] using rev_ind; [done|]. unfold max_by. rewrite foldl_app.
  simpl. fold (max_by cmp l). destruct (decide (l = [])) as [->|Hne].
  { exists y. simpl. split_and!; [done|set_solver|]. intros x Hx. replace x with y by set_solver. lia. }
  destruct (IH Hne) as (r & -> & Hr & Hmax). destruct (cmp r y) eqn:Hc.
  1, 2: exists y; split_and!; [done|set_solver|]; intros x [Hx| ->%list_elem_of_singleton]%elem_of_app; [|lia];
    specialize (Hmax x Hx); specialize (Hle r y); rewrite Hc in Hle; specialize (Hle ltac:(done)); lia.
  exists r. split_and!; [done|set_solver|]. intros x [Hx| ->%list_elem_of_singleton]%elem_of_app; auto.
Qed.

Lemma largest_flow_spec q : pq_inv q -> 0 < pq_size q ->
  exists key f info rest, largest_flow q = Some key /\ pq_flows q !! key = Some f
    /\ fl_infos f = info :: rest
    /\ forall k g, pq_flows q !! k = Some g -> fl_infos g <> [] -> fl_size g <= fl_size f.
Proof.
  intros I Hpos. unfold largest_flow.
  set (entry := fun k => f ← pq_flows q !! k; h ← head (fl_infos f); Some (k, fl_size f, qi_time h)).
  assert (Hentry : forall k e, entry k = Some e <-> exists f info rest,
            pq_flows q !! k = Some f /\ fl_infos f = info :: rest /\ e = (k, fl_size f, qi_time info)).
  { intros k e. unfold entry. destruct (pq_flows q !! k) as [f|] eqn:Hf; simpl.
    - destruct (fl_infos f) as [|h t] eqn:Ht; simpl; split; try done.
      + intros (? & ? & ? & [= <-] & ? & ?). congruence.
      + intros [= <-]. eauto 8.
      + intros (? & ? & ? & [= <-] & ? & ->). congruence.
    - split; [done|]. by intros (? & ? & ? & ? & _). }
  assert (Hin : forall k g, pq_flows q !! k = Some g -> fl_infos g <> [] ->
            exists e, e ∈ omap entry (pq_active q) /\ e.1.2 = fl_size g).
  { intros k g Hg Hne. pose proof (inv_flows _ I _ _ Hg) as F.
    destruct (proj2 (flow_active _ _ _ _ F) Hne) as [i Hi].
    destruct (fl_infos g) as [|h t] eqn:Ht; [done|]. exists (k, fl_size g, qi_time h). split; [|done].
    apply list_elem_of_omap. exists k. split; [|apply Hentry; eauto 8].
    eapply list_elem_of_lookup_2, (ring_index _ _ _ (inv_ring _ I)); done. }
  destruct (max_by_spec flow_cmp (fun e => e.1.2) (omap entry (pq_active q))) as (r & Hr & Hrin & Hmax).
  - intros [[k1 s1] t1] [[k2 s2] t2]. simpl. destruct (Z.compare_spec s1 s2); lia || done.
  - intros [[k1 s1] t1] [[k2 s2] t2]. simpl. destruct (Z.compare_spec s1 s2); lia || done.
  - rewrite (inv_size _ I) in Hpos. destruct (total_pos _ _ Hpos) as (k & g & Hg & Hgs).
    destruct (Hin k g Hg) as (e & He & _); [|by intros Hnil; rewrite Hnil in He; apply not_elem_of_nil in He].
    intros Hnil. pose proof (inv_flows _ I _ _ Hg) as F. rewrite (flow_size _ _ _ _ F), Hnil in Hgs. done.
  - apply list_elem_of_omap in Hrin as (k & _ & (f & info & rest & Hf & Hi & ->)%Hentry).
    exists k, f, info, rest. split_and!; [by rewrite Hr|done|done|].
    intros k' g Hg Hne. destruct (Hin k' g Hg Hne) as (e & He & <-). by apply (Hmax e).
Qed.

(** Evictions: a sequence of drops of flow heads. *)
Definition evicts : PacketQueue -> PacketQueue -> Prop :=
  rtc (fun q q' => exists key info, dropped q q' key info).

Definition idle (q : PacketQueue) (k : FlowKey) : Prop :=
  exists f, pq_flows q !! k = Some f /\ fl_infos f = [].

Lemma same_config_trans q q' q'' : same_config q q' -> same_config q' q'' -> same_config q q''.
Proof. unfold same_config. intuition congruence. Qed.

Record evicted (q q' : PacketQueue) : Prop := {
  evicted_inv : pq_inv q';
  evicted_suffix : forall k, backlog q' k `suffix_of` backlog q k;
  evicted_idle : forall k, idle q' k -> idle q k;
  evicted_count : pq_count q' <= pq_count q;
  evicted_config : same_config q q'
}.

Lemma dropped_evicted q q' key info : dropped q q' key info -> evicted q q'.
Proof.
  intros D. destruct (dropped_head _ _ _ _ D) as (rest & Hb & Hb'). split; [apply D| | | |apply D].
  - intros k. destruct (decide (k = key)) as [->|Hk].
    + rewrite Hb, Hb'. by exists [info].
    + by rewrite (dropped_others _ _ _ _ D).
  - intros k (f & Hf & Hi).
    assert (Hnil : backlog q' k = []) by (unfold backlog; by rewrite Hf).
    destruct (decide (k = key)) as [->|Hk].
    + by rewrite (dropped_key _ _ _ _ D Hnil) in Hf.
    + destruct (proj1 (dropped_keys _ _ _ _ D k Hk)) as [g Hg]; [by eexists|].
      exists g. split; [done|]. rewrite (dropped_others _ _ _ _ D k Hk) in Hnil.
      unfold backlog in Hnil. by rewrite Hg in Hnil.
  - rewrite (dropped_count _ _ _ _ D). lia.
Qed.

Lemma evicts_evicted q q' : pq_inv q -> evicts q q' -> evicted q q'.
Proof.
  intros I. induction 1 as [q|q q1 q2 (key & info & D) _ IH].
  { split; [done|done|done|done|by split_and!]. }
  pose proof (dropped_evicted _ _ _ _ D) as E1. specialize (IH (evicted_inv _ _ E1)).
  split; [apply IH| | | |].
  - intros k. etrans; [apply IH|apply E1].
  - intros k ?. by apply E1, IH.
  - etrans; [apply IH|apply E1].
  - eapply same_config_trans; [apply E1|apply IH].
Qed.

Lemma suffix_sum_sizes q q' k : pq_inv q -> backlog q' k `suffix_of` backlog q k ->
  sum_sizes (backlog q' k) <= sum_sizes (backlog q k).
Proof.
  intros I [l Hl]. rewrite Hl, sum_sizes_app. enough (0 <= sum_sizes l) by lia.
  apply (sum_sizes_nonneg k). unfold backlog in Hl at 1. destruct (pq_flows q !! k) as [f|] eqn:Hf.
  - pose proof (flow_infos _ _ _ _ (inv_flows _ I _ _ Hf)) as Hall. rewrite Hl in Hall.
    by apply Forall_app in Hall as [? _].
  - by destruct l.
Qed.

Lemma backlog_size q k : pq_inv q ->
  sum_sizes (backlog q k) = match pq_flows q !! k with Some f => fl_size f | None => 0 end.
Proof.
  intros I. unfold backlog. destruct (pq_flows q !! k) as [f|] eqn:Hf; [|done].
  symmetry. apply (inv_flows _ I _ _ Hf).
Qed.

Lemma evict_flow_spec key pkt fuel q :
  pq_inv q -> 0 < pkt <= 16 * pq_quantum q -> (Z.to_nat (pq_count q) < fuel)%nat ->
  exists q', evict_flow fuel q key pkt = Ret (true, q') /\ evicts q q'
    /\ sum_sizes (backlog q' key) + pkt <= 16 * pq_quantum q
    /\ (sum_sizes (backlog q key) + pkt <= 16 * pq_quantum q -> q' = q).
Proof.
  revert q. induction fuel as [|fuel IH]; intros q I Hp Hfuel; [lia|].
  pose proof (backlog_size q key I) as Hs. destruct (inv_caps _ I) as [_ Hmf]. pose proof (inv_quantum _ I).
  assert (Hcap : 0 <= sum_sizes (backlog q key) <= 16 * pq_quantum q).
  { rewrite Hs. destruct (pq_flows q !! key) as [f|] eqn:Hf; [|lia].
    split; [by apply (inv_bounds q key)|apply (flow_cap _ _ _ _ (inv_flows _ I _ _ Hf))]. }
  simpl. set (sc := match pq_flows q !! key with Some f => _ | None => _ end).
  replace sc with (sum_sizes (backlog q key), length (backlog q key))
    by (unfold sc; rewrite Hs; unfold backlog; by destruct (pq_flows q !! key)).
  rewrite checked_ok by (unfold is_u64; lia). simpl. rewrite Hmf. case_decide as Hfit.
  { exists q. split_and!; [done|apply rtc_refl| |done].
    destruct Hfit as [?|Hnil%nil_length_inv]; [done|]. rewrite Hnil. simpl. lia. }
  destruct (backlog q key) as [|info rest] eqn:Hb; [destruct Hfit; by right|].
  destruct (drop_from_spec q key info rest I Hb) as (q1 & -> & D & _). simpl.
  destruct (dropped_config _ _ _ _ D) as (_ & _ & Hq & _).
  destruct (IH q1) as (q' & -> & He & Hsz & _); [apply D|lia| |].
  { rewrite (dropped_count _ _ _ _ D). assert (1 <= pq_count q); [|lia].
    unfold backlog in Hb. destruct (pq_flows q !! key) as [f|] eqn:Hf; [|done].
    by apply (head_facts q key f info rest). }
  exists q'. split_and!; [done| |lia|by intros ?; destruct Hfit; left].
  eapply rtc_l; [by exists key, info|done].
Qed.

Lemma evict_largest_spec pkt fuel q :
  pq_inv q -> 0 < pkt <= 16 * pq_quantum q -> (Z.to_nat (pq_count q) < fuel)%nat ->
  exists q', evict_largest fuel q pkt = Ret (true, q') /\ evicts q q'
    /\ pq_size q' + pkt <= 64 * pq_quantum q
    /\ (pq_size q + pkt <= 64 * pq_quantum q -> q' = q).
Proof.
  revert q. induction fuel as [|fuel IH]; intros q I Hp Hfuel; [lia|].
  destruct (inv_caps _ I) as [Hmt _]. pose proof (inv_quantum _ I). pose proof (inv_total _ I).
  pose proof (inv_count_le q I). simpl. rewrite checked_ok by (unfold is_u64; lia). simpl.
  rewrite Hmt. case_decide as Hfull.
  - destruct (largest_flow_spec q I) as (key & f & info & rest & Hl & Hf & Hi & _); [lia|].
    assert (Hb : backlog q key = info :: rest) by (unfold backlog; by rewrite Hf).
    unfold drop_largest. rewrite Hl.
    destruct (drop_from_spec q key info rest I Hb) as (q1 & -> & D & _). simpl.
    destruct (dropped_config _ _ _ _ D) as (_ & _ & Hq & _).
    destruct (IH q1) as (q' & -> & He & Hsz & _); [apply D|lia| |].
    { rewrite (dropped_count _ _ _ _ D). assert (1 <= pq_count q); [|lia].
      by apply (head_facts q key f info rest). }
    exists q'. split_and!; [done| |lia|lia]. eapply rtc_l; [by exists key, info|done].
  - exists q. split_and!; [done|apply rtc_refl|lia|done].
Qed.

(** ** Enqueue *)

Lemma ring_activate flows active next key f :
  ring_ok flows active next -> flows !! key = Some f -> fl_index f = None ->
  ring_ok (alter (fun f => f <| fl_index := Some (length active) |>) key flows) (active ++ [key]) next.
Proof.
  intros R Hf Hn. rewrite (alter_alt_Some _ _ _ f) by done. split.
  - intros i k. rewrite lookup_app. destruct (active !! i) as [k'|] eqn:Hi.
    + intros [= ->]. destruct (ring_flow _ _ _ R _ _ Hi) as (g & Hg & Hgi). exists g.
      rewrite lookup_insert_ne by congruence. done.
    + intros Hk. apply list_lookup_singleton_Some in Hk as [Hz <-].
      eexists. rewrite lookup_insert_eq. split; [done|]. apply lookup_ge_None in Hi.
      unfold set_field. simpl. f_equal. lia.
  - intros k g i. destruct (decide (k = key)) as [->|Hk].
    + rewrite lookup_insert_eq. intros [= <-] [= <-]. by rewrite list_lookup_middle.
    + rewrite lookup_insert_ne by done. intros Hg Hi. apply lookup_app_l_Some.
      by apply (ring_index _ _ _ R _ g).
  - intros n Hx. rewrite length_app. pose proof (ring_next _ _ _ R n Hx). lia.
Qed.

Lemma ring_fresh flows active next key f :
  ring_ok flows active next -> flows !! key = None -> fl_index f = None ->
  ring_ok (<[key := f]> flows) active next.
Proof.
  intros R Hk Hn. split; [| |apply R].
  - intros i k Hi. destruct (ring_flow _ _ _ R _ _ Hi) as (g & Hg & Hgi). exists g.
    by rewrite lookup_insert_ne by congruence.
  - intros k g i. destruct (decide (k = key)) as [->|?].
    + rewrite lookup_insert_eq. congruence.
    + rewrite lookup_insert_ne by done. apply (ring_index _ _ _ R).
Qed.

Lemma flow_for_spec q key : pq_inv q ->
  let q' := flow_for q key in
  pq_inv q' /\ (forall k, backlog q' k = backlog q k) /\ is_Some (pq_flows q' !! key)
  /\ (forall k, k <> key -> idle q' k -> idle q k) /\ same_config q q' /\ pq_size q' = pq_size q
  /\ pq_count q' = pq_count q.
Proof.
  intros I. unfold flow_for. destruct (pq_flows q !! key) as [f|] eqn:Hf; simpl.
  { split_and!; try done; by rewrite ?Hf. }
  unfold set_field. simpl. pose proof (inv_quantum _ I). split_and!; try done.
  - split; simpl; try apply I.
    + apply map_Forall_insert_2; [|apply I]. split; simpl; [constructor|done|lia| |split; [lia|left; lia]].
      split; [by intros [? ?]|done].
    + apply ring_fresh; [apply I|done|done].
    + rewrite total_insert_fresh by done. simpl. apply I.
    + rewrite total_insert_fresh by done. unfold packets_of at 1. simpl. apply I.
  - intros k. unfold backlog. simpl. destruct (decide (k = key)) as [->|?].
    + by rewrite lookup_insert_eq, Hf.
    + by rewrite lookup_insert_ne by done.
  - rewrite lookup_insert_eq. by eexists.
  - intros k Hk (f & Hl & Hi). simpl in Hl. rewrite lookup_insert_ne in Hl by done. by exists f.
Qed.

Definition appended (f : Flow) (info : PqPacketInfo) : Flow :=
  mkFlow (fl_infos f ++ [info]) (fl_size f + qi_size info) (fl_deficit f) (fl_index f).

(** The flow with the packet appended, indexed by [i], satisfies its invariant. *)
Lemma flow_ok_append quantum next k f info i :
  flow_ok quantum next k f -> info_ok k info -> fl_size f + qi_size info <= 16 * quantum ->
  is_Some i -> (fl_index f = None \/ i = fl_index f) ->
  flow_ok quantum next k ((appended f info) <| fl_index := i |>).
Proof.
  intros F Hi Hc His Hidx. unfold set_field, appended. split; simpl.
  - apply Forall_app. split; [apply F|by apply Forall_singleton].
  - rewrite sum_sizes_app, (flow_size _ _ _ _ F). simpl. lia.
  - done.
  - split; [|done]. intros _ Hnil. by apply app_eq_nil in Hnil as [_ ?].
  - destruct (flow_deficit _ _ _ _ F) as [? [?|(? & Hs & Hn)]]; (split; [done|]); [by left|].
    right. destruct Hidx as [Hx| ->]; [rewrite Hx in Hs; by destruct Hs|done].
Qed.

Lemma enqueue_active q key f info i :
  pq_inv q -> pq_flows q !! key = Some f -> fl_index f = Some i -> info_ok key info ->
  fl_size f + qi_size info <= 16 * pq_quantum q -> pq_size q + qi_size info <= 64 * pq_quantum q ->
  pq_inv (mkPacketQueue (<[key := appended f info]> (pq_flows q)) (pq_active q) (pq_next q)
    (pq_size q + qi_size info) (pq_count q + 1) (pq_max_bytes_total q) (pq_max_bytes_per_flow q)
    (pq_quantum q) (pq_codel q)).
Proof.
  intros I Hf Hi Hok Hc Ht. destruct (inv_caps _ I) as [Hmt Hmf]. pose proof (inv_quantum _ I).
  pose proof (inv_flows _ I _ _ Hf) as F. split; simpl; [done|done| | | | |lia].
  - apply map_Forall_insert_2; [|apply I].
    replace (appended f info) with ((appended f info) <| fl_index := Some i |>)
      by (unfold set_field, appended; by rewrite Hi).
    apply flow_ok_append; [done..|by eexists|by right].
  - eapply ring_ok_insert; [apply I|done|done].
  - rewrite (total_insert _ _ _ f) by done. rewrite (inv_size _ I). simpl. lia.
  - rewrite (total_insert _ _ _ f) by done. rewrite (inv_count _ I). unfold packets_of. simpl.
    rewrite length_app. simpl. lia.
Qed.

Lemma enqueue_inactive q key f info :
  pq_inv q -> pq_flows q !! key = Some f -> fl_index f = None -> info_ok key info ->
  fl_size f + qi_size info <= 16 * pq_quantum q -> pq_size q + qi_size info <= 64 * pq_quantum q ->
  pq_inv (activate (mkPacketQueue (<[key := appended f info]> (pq_flows q)) (pq_active q) (pq_next q)
    (pq_size q + qi_size info) (pq_count q + 1) (pq_max_bytes_total q) (pq_max_bytes_per_flow q)
    (pq_quantum q) (pq_codel q)) key).
Proof.
  intros I Hf Hi Hok Hc Ht. destruct (inv_caps _ I) as [Hmt Hmf]. pose proof (inv_quantum _ I).
  pose proof (inv_flows _ I _ _ Hf) as F. unfold activate, flow_update, set_field.
  split; simpl; [done|done| | | | |lia].
  - rewrite (alter_alt_Some _ _ _ (appended f info)), insert_insert_eq by apply lookup_insert_eq.
    apply map_Forall_insert_2; [|apply I].
    apply (flow_ok_append _ _ _ f info (Some (length (pq_active q)))); [done..|by eexists|by left].
  - eapply (ring_activate _ _ _ _ (appended f info)); [|apply lookup_insert_eq|done].
    eapply ring_ok_insert; [apply I|done|done].
  - rewrite total_alter by done. rewrite (total_insert _ _ _ f) by done. rewrite (inv_size _ I). simpl. lia.
  - rewrite total_alter by done. rewrite (total_insert _ _ _ f) by done. rewrite (inv_count _ I).
    unfold packets_of. simpl. rewrite length_app. simpl. lia.
Qed.

Lemma enqueue_spec q key info :
  pq_inv q -> info_ok key info -> sum_sizes (backlog q key) + qi_size info <= 16 * pq_quantum q ->
  pq_size q + qi_size info <= 64 * pq_quantum q ->
  exists q', enqueue q key info = Ret q' /\ pq_inv q' /\ same_config q q'
    /\ pq_size q' = pq_size q + qi_size info /\ pq_count q' = pq_count q + 1
    /\ (forall k, backlog q' k = backlog q k ++ (if decide (k = key) then [info] else []))
    /\ (forall k, idle q' k -> k <> key /\ idle q k).
Proof.
  intros I Hok Hfs Hts. destruct (flow_for_spec q key I) as (I1 & Hb1 & Hin & Hid & Hcf & Hsz & Hct).
  unfold enqueue. set (q1 := flow_for q key) in *. destruct Hin as [f Hf]. rewrite Hf. simpl.
  destruct Hcf as (Hc1 & Hc2 & Hc3 & Hc4).
  rewrite <- Hb1, (backlog_size q1 key I1), Hf, <- Hc3 in Hfs. rewrite <- Hsz, <- Hc3 in Hts.
  destruct Hok as [Hisz Hik]. pose proof (wire_size_pos (qi_packet info)).
  pose proof (inv_bounds q1 key f I1 Hf) as (? & ? & ?). pose proof (inv_count_le q1 I1).
  pose proof (inv_quantum _ I1). pose proof (inv_total _ I1). destruct (inv_caps _ I1) as [Hmt _].
  unfold set_field. rewrite checked_ok by (unfold is_u64; lia). simpl.
  rewrite checked_ok by (unfold is_u64; lia). simpl. rewrite checked_ok by (unfold is_u64; lia). simpl.
  fold (appended f info).
  assert (Hback : forall flows' : gmap FlowKey Flow, forall f', flows' !! key = Some f' -> fl_infos f' = fl_infos f ++ [info] ->
     (forall k, k <> key -> flows' !! k = pq_flows q1 !! k) ->
     (forall k, match flows' !! k with Some f => fl_infos f | None => [] end
        = backlog q k ++ (if decide (k = key) then [info] else []))
     /\ forall k g, flows' !! k = Some g -> fl_infos g = [] -> k <> key /\ idle q k).
  { intros flows' f' Hk Hi Ho. split.
    - intros k. rewrite <- Hb1. unfold backlog. case_decide as Hkk.
      + subst k. by rewrite Hk, Hf.
      + rewrite Ho by done. by rewrite app_nil_r.
    - intros k g Hg Hnil. assert (k <> key).
      { intros ->. rewrite Hk in Hg. injection Hg as <-. rewrite Hi in Hnil. by apply app_eq_nil in Hnil as [_ ?]. }
      split; [done|]. apply Hid; [done|]. exists g. split; [|done]. by rewrite <- Ho. }
  destruct (fl_index f) as [i|] eqn:Hix; eexists; (split; [done|]).
  - pose proof (enqueue_active q1 key f info i I1 Hf Hix (conj Hisz Hik) Hfs Hts) as Hinv.
    split_and!; [exact Hinv|done|simpl; lia|simpl; lia| |];
    destruct (Hback (<[key:=appended f info]> (pq_flows q1)) (appended f info)) as [H1' H2'];
      rewrite ?lookup_insert_eq; try done; try (intros; by rewrite lookup_insert_ne by done).
    intros k (g & Hg & Hnil). by eapply H2'.
  - pose proof (enqueue_inactive q1 key f info I1 Hf Hix (conj Hisz Hik) Hfs Hts) as Hinv.
    unfold activate, flow_update, set_field in *. simpl in *.
    split_and!; [exact Hinv|done|simpl; lia|simpl; lia| |];
    destruct (Hback (alter (fun f => mkFlow (fl_infos f) (fl_size f) (fl_deficit f) (Some (length (pq_active q1))))
       key (<[key:=appended f info]> (pq_flows q1)))
      (mkFlow (fl_infos f ++ [info]) (fl_size f + qi_size info) (fl_deficit f) (Some (length (pq_active q1))))) as [H1' H2'];
      rewrite ?lookup_alter_eq, ?lookup_insert_eq; try done;
      try (intros; by rewrite lookup_alter_ne, lookup_insert_ne by done).
    intros k (g & Hg & Hnil). by eapply H2'.
Qed.

(** The packet as [push] queues it. *)
Definition queued (p : TrafficPacket) (now : Z) : PqPacketInfo := mkPqPacketInfo p (wire_size p) now.
Definition arrival (p : TrafficPacket) (now : Z) (k : FlowKey) : list PqPacketInfo :=
  if decide (k = packet_key p) then [queued p now] else [].

(** What [push] does to the backlogs: evict from the fronts, append at the back. *)
Record pushed (q q' : PacketQueue) (p : TrafficPacket) (now : Z) : Prop := {
  pushed_inv : pq_inv q';
  pushed_idle : no_idle q';
  pushed_config : same_config q q';
  pushed_count : pq_count q' <= pq_count q + 1;
  pushed_reject : 16 * pq_quantum q < wire_size p -> q' = q;
  pushed_accept : wire_size p <= 16 * pq_quantum q -> forall k,
    exists rest, rest `suffix_of` backlog q k /\ backlog q' k = rest ++ arrival p now k;
  pushed_lossless : sum_sizes (backlog q (packet_key p)) + wire_size p <= 16 * pq_quantum q ->
    pq_size q + wire_size p <= 64 * pq_quantum q ->
    forall k, backlog q' k = backlog q k ++ arrival p now k
}.

Lemma push_spec q p now :
  pq_inv q -> no_idle q -> exists q', push q p now = Ret q' /\ pushed q q' p now.
Proof.
  intros I Hidle. destruct (inv_caps _ I) as [Hmt Hmf]. pose proof (inv_quantum _ I) as Hq.
  pose proof (wire_size_pos p) as Hpos. unfold push. rewrite Hmt, Hmf. case_decide as Hbig.
  { exists q. split; [done|]. split; [done|done|by split_and!|lia|done|lia|].
    pose proof (backlog_size q (packet_key p) I) as Hs.
    assert (0 <= sum_sizes (backlog q (packet_key p))).
    { rewrite Hs. destruct (pq_flows q !! packet_key p) eqn:Hf; [|lia]. by apply (inv_bounds q (packet_key p)). }
    lia. }
  fold (packet_key p) (queued p now).
  destruct (flow_for_spec q (packet_key p) I) as (I1 & Hb1 & _ & Hid1 & Hc1 & Hs1 & Hn1).
  set (q1 := flow_for q (packet_key p)) in *. destruct Hc1 as (C1 & C2 & C3 & C4).
  destruct (evict_flow_spec (packet_key p) (wire_size p) (evict_fuel q1) q1) as (q2 & -> & He2 & Hf2 & Hsame2);
    [done|lia|unfold evict_fuel; lia|]. rewrite ret_bind; cbv beta iota.
  pose proof (evicts_evicted _ _ I1 He2) as E2. destruct (evicted_config _ _ E2) as (D1 & D2 & D3 & D4).
  pose proof (evicted_inv _ _ E2) as I2.
  destruct (evict_largest_spec (wire_size p) (evict_fuel q2) q2) as (q3 & -> & He3 & Hf3 & Hsame3);
    [done|lia|unfold evict_fuel; lia|]. rewrite ret_bind; cbv beta iota.
  pose proof (evicts_evicted _ _ I2 He3) as E3. destruct (evicted_config _ _ E3) as (F1 & F2 & F3 & F4).
  pose proof (evicted_inv _ _ E3) as I3.
  pose proof (suffix_sum_sizes q2 q3 (packet_key p) I2 (evicted_suffix _ _ E3 _)) as Hsuf.
  destruct (enqueue_spec q3 (packet_key p) (queued p now)) as (q4 & -> & I4 & Hc4 & _ & Hn4 & Hb4 & Hid4);
    [done|done|simpl; lia|simpl; lia|].
  exists q4. split; [done|]. split.
  - done.
  - intros k f Hf Hnil. destruct (Hid4 k) as [Hk Hi3]; [by exists f|].
    apply (evicted_idle _ _ E3), (evicted_idle _ _ E2), Hid1 in Hi3 as (g & Hg & Hgn); [|done].
    by apply (Hidle k g).
  - destruct Hc4 as (? & ? & ? & ?). unfold same_config. split_and!; congruence.
  - pose proof (evicted_count _ _ E2). pose proof (evicted_count _ _ E3). lia.
  - lia.
  - intros _ k. exists (backlog q3 k). split; [|by rewrite Hb4].
    rewrite <- Hb1. etrans; [apply E3|apply E2].
  - intros Hff Htf k. rewrite Hb4. f_equal. rewrite Hsame3, Hsame2; [by rewrite Hb1| |].
    + rewrite Hb1. lia.
    + rewrite Hsame2 by (rewrite Hb1; lia). lia.
Qed.

(** ** Dequeue *)

(** Queued packets of at most four quanta: the deficit clamp of [drop_from]
    then never cuts below the size of the packet being served. *)
Definition small_packets (q : PacketQueue) : Prop :=
  forall k, Forall (fun i => qi_size i <= 4 * pq_quantum q) (backlog q k).

(** The rounds a flow still has to wait for credit. *)
Definition rounds_left (quantum : Z) (f : Flow) : Z :=
  match fl_infos f with
  | [] => 0
  | h :: _ => Z.max 0 ((qi_size h - fl_deficit f + quantum - 1) / quantum)
  end.

Lemma rounds_left_credit quantum f :
  0 < quantum -> 0 < rounds_left quantum f ->
  rounds_left quantum (f <| fl_deficit ::= fun d => d + quantum |>) = rounds_left quantum f - 1.
Proof.
  unfold rounds_left, set_field. simpl. intros Hq. destruct (fl_infos f) as [|h t]; [lia|].
  replace (qi_size h - (fl_deficit f + quantum) + quantum - 1)
    with ((qi_size h - fl_deficit f + quantum - 1) + (-1) * quantum) by lia.
  rewrite Z.div_add by lia. lia.
Qed.

Lemma rounds_left_served quantum f h t :
  0 < quantum -> fl_infos f = h :: t -> (qi_size h <= fl_deficit f <-> rounds_left quantum f = 0).
Proof.
  intros Hq Hi. unfold rounds_left. rewrite Hi. set (n := qi_size h - fl_deficit f).
  enough (n <= 0 <-> (n + quantum - 1) / quantum <= 0) by lia. split; intros Hn.
  - assert ((n + quantum - 1) / quantum < 1) by (apply Z.div_lt_upper_bound; lia). lia.
  - pose proof (Z.mul_succ_div_gt (n + quantum - 1) quantum Hq). nia.
Qed.

Lemma rounds_left_le quantum k next f : 0 < quantum -> flow_ok quantum next k f ->
  quantum * rounds_left quantum f <= 1 * fl_size f + (quantum - 1).
Proof.
  intros Hq F. destruct (flow_deficit _ _ _ _ F) as [Hd _]. rewrite (flow_size _ _ _ _ F).
  pose proof (sum_sizes_nonneg _ _ (flow_infos _ _ _ _ F)) as Hs. unfold rounds_left.
  pose proof (flow_infos _ _ _ _ F) as Hall. destruct (fl_infos f) as [|h t]; [simpl; lia|].
  inversion_clear Hall as [|? ? _ Ht]. pose proof (sum_sizes_nonneg _ _ Ht). simpl in *.
  pose proof (Z.mul_div_le (qi_size h - fl_deficit f + quantum - 1) quantum Hq). nia.
Qed.

(** Steps that only move the cursor or the credits. *)
Record same_packets (q q' : PacketQueue) : Prop := {
  sp_inv : pq_inv q';
  sp_backlog : forall k, backlog q' k = backlog q k;
  sp_keys : forall k, is_Some (pq_flows q' !! k) <-> is_Some (pq_flows q !! k);
  sp_active : pq_active q' = pq_active q;
  sp_size : pq_size q' = pq_size q;
  sp_count : pq_count q' = pq_count q;
  sp_config : same_config q q'
}.

Lemma dropped_same_l q q1 q2 key info :
  same_packets q q1 -> dropped q1 q2 key info -> dropped q q2 key info.
Proof.
  intros S D. split; [apply D| | | |apply D| | |].
  - destruct (dropped_head _ _ _ _ D) as (rest & H1 & H2). exists rest. by rewrite <- (sp_backlog _ _ S).
  - intros k Hk. rewrite (dropped_others _ _ _ _ D k Hk). apply S.
  - intros k Hk. rewrite (dropped_keys _ _ _ _ D k Hk). apply S.
  - rewrite (dropped_size _ _ _ _ D). by rewrite (sp_size _ _ S).
  - rewrite (dropped_count _ _ _ _ D). by rewrite (sp_count _ _ S).
  - eapply same_config_trans; [apply S|apply D].
Qed.

Lemma dropped_same_r q q1 q2 key info :
  dropped q q1 key info -> same_packets q1 q2 -> dropped q q2 key info.
Proof.
  intros D S. split; [apply S| | | | | | |].
  - destruct (dropped_head _ _ _ _ D) as (rest & H1 & H2). exists rest. by rewrite (sp_backlog _ _ S).
  - intros k Hk. rewrite (sp_backlog _ _ S). by apply D.
  - intros k Hk. rewrite (sp_keys _ _ S). by apply D.
  - intros Hb. rewrite (sp_backlog _ _ S) in Hb. apply (dropped_key _ _ _ _ D) in Hb.
    apply eq_None_not_Some. rewrite (sp_keys _ _ S), Hb. by intros [? ?].
  - rewrite (sp_size _ _ S). apply D.
  - rewrite (sp_count _ _ S). apply D.
  - eapply same_config_trans; [apply D|apply S].
Qed.

Lemma same_packets_trans q q1 q2 : same_packets q q1 -> same_packets q1 q2 -> same_packets q q2.
Proof.
  intros S1 S2. split; [apply S2| | | | | |].
  - intros k. rewrite (sp_backlog _ _ S2). apply S1.
  - intros k. rewrite (sp_keys _ _ S2). apply S1.
  - rewrite (sp_active _ _ S2). apply S1.
  - rewrite (sp_size _ _ S2). apply S1.
  - rewrite (sp_count _ _ S2). apply S1.
  - eapply same_config_trans; [apply S1|apply S2].
Qed.

(** Changing the credit of a flow within its bounds. *)
Definition with_deficit (q : PacketQueue) (key : FlowKey) (f : Flow) (d : Z) : PacketQueue :=
  q <| pq_flows ::= <[key := f <| fl_deficit := d |> ]> |>.

Lemma with_deficit_same q key f d :
  pq_inv q -> pq_flows q !! key = Some f -> 0 <= d ->
  d < 16 * pq_quantum q \/ (d < 17 * pq_quantum q /\ is_Some (fl_index f) /\ pq_next q = fl_index f) ->
  same_packets q (with_deficit q key f d).
Proof.
  intros I Hf Hd Hb. pose proof (inv_flows _ I _ _ Hf) as F. unfold with_deficit, set_field.
  split; simpl; try done.
  - split; simpl; try apply I.
    + apply map_Forall_insert_2; [|apply I]. destruct F as [F1 F2 F3 F4 F5]. by split.
    + eapply ring_ok_insert; [apply I|done|done].
    + rewrite (total_insert _ _ _ f) by done. simpl. rewrite (inv_size _ I). lia.
    + rewrite (total_insert _ _ _ f) by done. unfold packets_of at 2 3. simpl. rewrite (inv_count _ I). lia.
  - intros k. unfold backlog. simpl. destruct (decide (k = key)) as [->|?].
    + by rewrite lookup_insert_eq, Hf.
    + by rewrite lookup_insert_ne by done.
  - intros k. destruct (decide (k = key)) as [->|?].
    + rewrite lookup_insert_eq, Hf. done.
    + by rewrite lookup_insert_ne by done.
Qed.

Lemma set_next_same q i :
  pq_inv q -> (i < length (pq_active q))%nat ->
  map_Forall (fun _ f => fl_deficit f < 16 * pq_quantum q) (pq_flows q) ->
  same_packets q (q <| pq_next := Some i |>).
Proof.
  intros I Hi Hd. unfold set_field. split; simpl; try done. split; simpl; try apply I.
  - intros k f Hf. pose proof (inv_flows _ I _ _ Hf) as F. destruct F as [F1 F2 F3 F4 [F5 _]].
    split; [done..|]. split; [done|]. left. by apply (Hd k f).
  - destruct (inv_ring _ I) as [R1 R2 _]. split; [done|done|]. by intros n [= <-].
Qed.

(** The cursor credits the flow it arrives at. *)
Lemma credit_spec q i key f :
  pq_inv q -> pq_active q !! i = Some key -> pq_flows q !! key = Some f -> pq_next q = Some i ->
  fl_deficit f < 16 * pq_quantum q ->
  credit q key = Ret (with_deficit q key f (fl_deficit f + pq_quantum q))
  /\ same_packets q (with_deficit q key f (fl_deficit f + pq_quantum q)).
Proof.
  intros I Ha Hf Hn Hd. pose proof (inv_quantum _ I).
  destruct (flow_deficit _ _ _ _ (inv_flows _ I _ _ Hf)) as [Hd0 _].
  destruct (ring_flow _ _ _ (inv_ring _ I) _ _ Ha) as (g & Hg & Hgi). rewrite Hf in Hg. injection Hg as <-.
  split.
  - unfold credit. rewrite Hf. by rewrite checked_ok by (unfold is_u64; lia).
  - apply with_deficit_same; [done|done|lia|]. right. split_and!; [lia|by eexists|congruence].
Qed.

(** Unless the cursor's flow can be served, every credit is below the cap. *)
Lemma deficits_below q i key :
  pq_inv q -> pq_next q = Some i -> pq_active q !! i = Some key -> serveable q key = false ->
  map_Forall (fun _ f => fl_deficit f < 16 * pq_quantum q) (pq_flows q).
Proof.
  intros I Hn Ha Hs k f Hf. pose proof (inv_flows _ I _ _ Hf) as F.
  destruct (flow_deficit _ _ _ _ F) as [Hd0 [?|(Hd & Hi & Hni)]]; [done|].
  rewrite Hn in Hni. symmetry in Hni. pose proof (ring_index _ _ _ (inv_ring _ I) _ _ _ Hf Hni) as Hk.
  rewrite Ha in Hk. injection Hk as ->. unfold serveable in Hs. rewrite Hf in Hs.
  apply (flow_active _ _ _ _ F) in Hi. destruct (fl_infos f) as [|h t] eqn:Ht; [done|]. simpl in Hs.
  apply Z.leb_gt in Hs. destruct (head_facts q k f h t I Hf Ht) as (_ & ? & _).
  pose proof (flow_cap _ _ _ _ F). lia.
Qed.

Definition rounds (q : PacketQueue) : Z := total (rounds_left (pq_quantum q)) (pq_flows q).

Lemma no_idle_same q q' : same_packets q q' -> no_idle q -> no_idle q'.
Proof.
  intros S Hn k f Hf Hnil. destruct (proj1 (sp_keys _ _ S k)) as [g Hg]; [by eexists|].
  apply (Hn k g Hg). pose proof (sp_backlog _ _ S k) as Hb. unfold backlog in Hb.
  rewrite Hf, Hg in Hb. congruence.
Qed.

Lemma small_same q q' : same_packets q q' -> small_packets q -> small_packets q'.
Proof.
  intros S Hs k. rewrite (sp_backlog _ _ S). destruct (sp_config _ _ S) as (_ & _ & -> & _). apply Hs.
Qed.

(** A serveable flow is served, and keeps the credit that remains. *)
Lemma serve_spec fuel q idx key :
  pq_inv q -> small_packets q -> serveable q key = true ->
  exists info q', pop_loop (S fuel) q idx key = Ret (Some info, q') /\ dropped q q' key info.
Proof.
  intros I Hsm Hs. simpl. rewrite Hs. unfold serveable in Hs.
  destruct (pq_flows q !! key) as [f|] eqn:Hf; [|done].
  destruct (fl_infos f) as [|info rest] eqn:Hi; [done|]. simpl in Hs. apply Z.leb_le in Hs.
  assert (Hb : backlog q key = info :: rest) by (unfold backlog; by rewrite Hf).
  destruct (drop_from_spec q key info rest I Hb) as (q1 & -> & D & Hd). rewrite ret_bind. cbv beta iota.
  specialize (Hsm key). rewrite Hb in Hsm. inversion_clear Hsm as [|? ? Hsz _].
  destruct (pq_flows q1 !! key) as [f1|] eqn:Hf1; [|by exists info, q1].
  specialize (Hd f f1 Hf eq_refl).
  destruct (head_facts q key f info rest I Hf Hi) as (F & Hp & _ & _ & Hq & _).
  destruct (flow_deficit _ _ _ _ F) as [_ Hdb].
  rewrite checked_ok by (unfold is_u64; lia). rewrite ret_bind. cbv beta.
  rewrite ret_bind. exists info. eexists. split; [done|].
  eapply dropped_same_r; [exact D|]. destruct (dropped_config _ _ _ _ D) as (_ & _ & Hqq & _).
  apply with_deficit_same; [apply D|done|lia|]. left. lia.
Qed.

(** Crediting a flow that must wait brings it one round closer. *)
Lemma rounds_credit q key f :
  pq_inv q -> pq_flows q !! key = Some f -> 0 < rounds_left (pq_quantum q) f ->
  rounds (with_deficit q key f (fl_deficit f + pq_quantum q)) = rounds q - 1.
Proof.
  intros I Hf Hr. unfold rounds, with_deficit. unfold set_field at 1 2. simpl.
  rewrite (total_insert _ _ _ f) by done. pose proof (inv_quantum _ I).
  pose proof (rounds_left_credit (pq_quantum q) f ltac:(lia) Hr) as Hc. unfold set_field in Hc. simpl in Hc.
  unfold set_field. simpl. lia.
Qed.

Lemma serveable_same q q' key :
  pq_inv q -> no_idle q -> serveable q key = true ->
  (forall f, pq_flows q !! key = Some f -> exists f', pq_flows q' !! key = Some f'
     /\ fl_infos f' = fl_infos f /\ fl_deficit f <= fl_deficit f') -> serveable q' key = true.
Proof.
  unfold serveable. intros I Hn Hs H. destruct (pq_flows q !! key) as [f|]; [|done].
  destruct (H f eq_refl) as (f' & -> & -> & ?). destruct (fl_infos f); simpl in *; [done|].
  apply Z.leb_le in Hs. apply Z.leb_le. lia.
Qed.

Lemma serveable_rounds q key f :
  pq_inv q -> no_idle q -> pq_flows q !! key = Some f ->
  serveable q key = bool_decide (rounds_left (pq_quantum q) f = 0).
Proof.
  intros I Hn Hf. pose proof (inv_quantum _ I). unfold serveable. rewrite Hf.
  specialize (Hn key f Hf). destruct (fl_infos f) as [|h t] eqn:Hi; [done|]. simpl.
  pose proof (rounds_left_served (pq_quantum q) f h t ltac:(lia) Hi).
  case_bool_decide; [apply Z.leb_le|apply Z.leb_gt]; lia.
Qed.

Lemma pop_loop_spec fuel q idx key :
  pq_inv q -> no_idle q -> small_packets q -> pq_next q = Some idx -> pq_active q !! idx = Some key ->
  (0 < fuel)%nat -> (serveable q key = true \/ rounds q + 1 < Z.of_nat fuel) ->
  exists info key' q', pop_loop fuel q idx key = Ret (Some info, q') /\ dropped q q' key' info.
Proof.
  revert q idx key. induction fuel as [|fuel IH]; intros q idx key I Hni Hsm Hn Ha Hf0 Hfuel; [lia|].
  destruct (serveable q key) eqn:Hs.
  { destruct (serve_spec fuel q idx key I Hsm Hs) as (info & q' & Hq & Hd). by exists info, key, q'. }
  destruct Hfuel as [?|Hfuel]; [done|].
  pose proof (deficits_below q idx key I Hn Ha Hs) as Hbelow.
  assert (Hr0 : 0 <= rounds q).
  { apply total_ge. intros k f _. unfold rounds_left. destruct (fl_infos f); lia. }
  simpl. rewrite Hs, ret_bind. cbv beta iota.
  set (j := if decide _ then 0%nat else S idx).
  assert (Hj : (j < length (pq_active q))%nat).
  { pose proof (lookup_lt_Some _ _ _ Ha). unfold j. case_decide; lia. }
  pose proof (set_next_same q j I Hj Hbelow) as S1. set (q1 := q <| pq_next := Some j |>) in *.
  destruct (lookup_lt_is_Some_2 _ _ Hj) as [key1 Ha1].
  destruct (ring_flow _ _ _ (inv_ring _ I) _ _ Ha1) as (f1 & Hf1 & Hi1).
  change (pq_active q1) with (pq_active q). rewrite Ha1. simpl (unwrap _). rewrite ret_bind. cbv beta.
  destruct (credit_spec q1 j key1 f1 (sp_inv _ _ S1) Ha1 Hf1 eq_refl) as [-> S2]; [by apply (Hbelow key1)|].
  rewrite ret_bind. cbv beta. change (pq_quantum q1) with (pq_quantum q) in *.
  set (q2 := with_deficit q1 key1 f1 _) in *. pose proof (same_packets_trans _ _ _ S1 S2) as S.
  destruct (IH q2 j key1) as (info & key' & q' & -> & D).
  - apply S.
  - by eapply no_idle_same.
  - by eapply small_same.
  - done.
  - by rewrite (sp_active _ _ S).
  - lia.
  - pose proof (serveable_rounds q1 key1 f1 (sp_inv _ _ S1) (no_idle_same _ _ S1 Hni) Hf1) as Hsr.
    change (pq_quantum q1) with (pq_quantum q) in Hsr. case_bool_decide as Hz.
    + left. apply (serveable_same q1); [apply S1|by eapply no_idle_same|done|].
      intros f Hf. change (pq_flows q1) with (pq_flows q) in Hf. rewrite Hf1 in Hf. injection Hf as <-. eexists. split; [apply lookup_insert_eq|].
      split; [done|]. unfold set_field. simpl. pose proof (inv_quantum _ I). lia.
    + right. pose proof (rounds_credit q1 key1 f1 (sp_inv _ _ S1) Hf1) as Hrc.
      change (pq_quantum q1) with (pq_quantum q) in Hrc. fold q2 in Hrc. rewrite Hrc.
      * change (rounds q1) with (rounds q). lia.
      * unfold rounds_left in *. destruct (fl_infos f1); lia.
  - exists info, key', q'. split; [done|]. by eapply dropped_same_l.
Qed.

Record pq_good (q : PacketQueue) : Prop := {
  good_inv : pq_inv q;
  good_idle : no_idle q;
  good_small : small_packets q
}.

(** One or more heads were removed, [info] last, from the flow [key]. *)
Record taken (q q' : PacketQueue) (key : FlowKey) (info : PqPacketInfo) : Prop := {
  taken_good : pq_good q';
  taken_head : exists skipped, backlog q key = skipped ++ info :: backlog q' key;
  taken_others : forall k, k <> key -> backlog q' k `suffix_of` backlog q k;
  taken_quantum : pq_quantum q' = pq_quantum q;
  taken_count : pq_count q' < pq_count q
}.

Lemma rounds_fuel q : pq_inv q -> rounds q + 1 < Z.of_nat (pop_fuel q).
Proof.
  intros I. pose proof (inv_quantum _ I). pose proof (inv_count_le q I).
  pose proof (total_le (fun f => pq_quantum q * rounds_left (pq_quantum q) f)
    (fun f => 1 * fl_size f + (pq_quantum q - 1)) (pq_flows q)) as Hle.
  rewrite (total_affine (rounds_left (pq_quantum q)) _ (pq_quantum q) 0) in Hle by (intros; cbv beta; lia).
  rewrite (total_affine fl_size (fun f => 1 * fl_size f + (pq_quantum q - 1)) 1 (pq_quantum q - 1)) in Hle by (intros; cbv beta; lia).
  fold (rounds q) in Hle. rewrite <- (inv_size _ I) in Hle.
  assert (Hb : pq_quantum q * rounds q <= pq_size q + (pq_quantum q - 1) * Z.of_nat (size (pq_flows q))).
  { enough (pq_quantum q * rounds q + 0 * Z.of_nat (size (pq_flows q))
      <= 1 * pq_size q + (pq_quantum q - 1) * Z.of_nat (size (pq_flows q))) by lia.
    apply Hle. intros k f Hf. eapply rounds_left_le; [lia|]. by apply (inv_flows _ I). }
  unfold pop_fuel. pose proof (Z.mul_succ_div_gt (pq_size q) (pq_quantum q) ltac:(lia)) as Hdiv.
  pose proof (Z.div_pos (pq_size q) (pq_quantum q) ltac:(lia) ltac:(lia)).
  set (n := Z.of_nat (size (pq_flows q))) in *. assert (0 <= n) by (unfold n; lia).
  enough (rounds q <= pq_size q / pq_quantum q + n) by lia.
  assert (pq_quantum q * rounds q < pq_quantum q * (pq_size q / pq_quantum q + n + 1)) by nia. nia.
Qed.

Lemma dropped_taken q q' key info : pq_good q -> dropped q q' key info -> taken q q' key info.
Proof.
  intros [I Hi Hs] D. pose proof (dropped_evicted _ _ _ _ D) as E.
  destruct (dropped_config _ _ _ _ D) as (_ & _ & Hq & _). split.
  - split; [apply D| |].
    + intros k f Hf Hnil. destruct (evicted_idle _ _ E k) as (g & Hg & Hgn); [by exists f|]. by apply (Hi k g).
    + intros k. rewrite Hq. destruct (evicted_suffix _ _ E k) as [l Hl]. specialize (Hs k).
      rewrite Hl in Hs. by apply Forall_app in Hs as [_ ?].
  - destruct (dropped_head _ _ _ _ D) as (rest & -> & ->). by exists [].
  - intros k Hk. by rewrite (dropped_others _ _ _ _ D).
  - done.
  - rewrite (dropped_count _ _ _ _ D). lia.
Qed.

Lemma taken_trans q q1 q2 k1 k2 i1 i2 : taken q q1 k1 i1 -> taken q1 q2 k2 i2 -> taken q q2 k2 i2.
Proof.
  intros T1 T2. assert (Hsuf : forall k, backlog q1 k `suffix_of` backlog q k).
  { intros k. destruct (decide (k = k1)) as [->|?]; [|by apply T1].
    destruct (taken_head _ _ _ _ T1) as [l ->]. exists (l ++ [i1]). by rewrite <- app_assoc. }
  split; [apply T2| | | |].
  - destruct (taken_head _ _ _ _ T2) as [l Hl]. destruct (Hsuf k2) as [l' ->]. exists (l' ++ l).
    by rewrite Hl, <- app_assoc.
  - intros k Hk. etrans; [by apply T2|apply Hsuf].
  - rewrite (taken_quantum _ _ _ _ T2). apply T1.
  - pose proof (taken_count _ _ _ _ T1). pose proof (taken_count _ _ _ _ T2). lia.
Qed.

(** The CoDel state is not part of the backlog. *)
Lemma good_codel q c : pq_good q -> pq_good (q <| pq_codel ::= c |>).
Proof. intros [I Hi Hs]. split; [|done|done]. destruct I. by split. Qed.

Lemma taken_codel_l q q' key info c :
  taken (q <| pq_codel ::= c |>) q' key info -> taken q q' key info.
Proof. intros []. by split. Qed.

Lemma taken_codel_r q q' key info c :
  taken q q' key info -> taken q (q' <| pq_codel ::= c |>) key info.
Proof. intros []. split; try done. by apply good_codel. Qed.

Lemma empty_flows q : pq_good q -> pq_size q = 0 -> pq_flows q = ∅.
Proof.
  intros [I Hi _] Hz. apply map_empty. intros k. destruct (pq_flows q !! k) as [f|] eqn:Hf; [|done].
  exfalso. specialize (Hi k f Hf). simpl in Hi. destruct (fl_infos f) as [|h t] eqn:Ht; [done|].
  destruct (head_facts q k f h t I Hf Ht) as (_ & ? & ? & _). lia.
Qed.

Lemma good_next_none q : pq_good q -> pq_size q = 0 -> pq_good (q <| pq_next := None |>).
Proof.
  intros G Hz. pose proof (empty_flows q G Hz) as Hem. destruct G as [[] ? ?]. split; [|done|done].
  split; try done; unfold set_field; simpl.
  - by rewrite Hem.
  - match goal with R : ring_ok _ _ _ |- _ => destruct R end. by split.
Qed.

Lemma pop_info_spec q : pq_good q ->
  (pq_size q = 0 /\ pop_info q = Ret (None, q <| pq_next := None |>))
  \/ (0 < pq_size q /\ exists info key q', pop_info q = Ret (Some info, q') /\ dropped q q' key info).
Proof.
  intros G. pose proof G as [I Hni Hsm]. unfold pop_info, pq_is_empty. destruct (Z.eqb_spec (pq_size q) 0) as [Hz|Hz].
  { by left. } right. pose proof (inv_count_le q I). split; [lia|]. simpl.
  destruct (largest_flow_spec q I) as (key & f & info & rest & _ & Hf & Hi & _); [lia|].
  destruct (proj2 (flow_active _ _ _ _ (inv_flows _ I _ _ Hf))) as [ix Hix]; [by rewrite Hi|].
  pose proof (ring_index _ _ _ (inv_ring _ I) _ _ _ Hf Hix) as Ha. apply lookup_lt_Some in Ha.
  rewrite bool_decide_eq_false_2 by (intros Hnil; rewrite Hnil in Ha; simpl in Ha; lia).
  destruct (pq_next q) as [n|] eqn:Hn.
  - pose proof (ring_next _ _ _ (inv_ring _ I) n Hn) as Hlt. rewrite decide_False by lia. cbv beta iota zeta.
    rewrite Hn. simpl (unwrap _). rewrite ret_bind. destruct (lookup_lt_is_Some_2 _ _ Hlt) as [k Hk].
    rewrite Hk. simpl (unwrap _). rewrite !ret_bind.
    destruct (pop_loop_spec (pop_fuel q) q n k) as (i & k' & q' & Hq' & D); [done..| | |].
    + unfold pop_fuel. lia.
    + right. by apply rounds_fuel.
    + by exists i, k', q'.
  - cbv beta iota zeta. set (q1 := q <| pq_next := Some 0%nat |>).
    assert (Hbelow : map_Forall (fun _ f => fl_deficit f < 16 * pq_quantum q) (pq_flows q)).
    { intros k g Hg. destruct (flow_deficit _ _ _ _ (inv_flows _ I _ _ Hg)) as [_ [?|(_ & [? Hs] & He)]]; [done|].
      rewrite Hn, Hs in He. done. }
    pose proof (set_next_same q 0 I ltac:(lia) Hbelow) as S1. fold q1 in S1.
    destruct (lookup_lt_is_Some_2 (pq_active q) 0 ltac:(lia)) as [k Hk].
    destruct (ring_flow _ _ _ (inv_ring _ I) _ _ Hk) as (g & Hg & _).
    change (pq_next q1) with (Some 0%nat). change (pq_active q1) with (pq_active q).
    simpl (unwrap _). rewrite ret_bind, Hk. simpl (unwrap _). rewrite ret_bind.
    destruct (credit_spec q1 0 k g (sp_inv _ _ S1) Hk Hg eq_refl) as [-> S2]; [by apply (Hbelow k)|].
    rewrite ret_bind. set (q2 := with_deficit _ _ _ _) in *. pose proof (same_packets_trans _ _ _ S1 S2) as S.
    destruct (pop_loop_spec (pop_fuel q2) q2 0 k) as (i & k' & q' & Hq' & D).
    1: apply S. 1: by eapply no_idle_same. 1: by eapply small_same. 1: done.
    1: by rewrite (sp_active _ _ S). 1: unfold pop_fuel; lia. 1: right; apply rounds_fuel, S.
    exists i, k', q'. split; [done|]. by eapply dropped_same_l.
Qed.

(** ** CoDel *)

(** The drop counters stay below the number [n] of packets ever queued. *)
Definition codel_ok (n : Z) (q : PacketQueue) : Prop :=
  0 <= lastcount (pq_codel q) <= cd_count (pq_codel q)
  /\ cd_count (pq_codel q) + pq_count q <= n.

(** [c] changes neither the counters nor the schedule. *)
Definition keeps_counters (c : Codel -> Codel) : Prop := forall x,
  cd_count (c x) = cd_count x /\ lastcount (c x) = lastcount x
  /\ drop_next (c x) = drop_next x /\ dropping (c x) = dropping x.

Lemma codel_should_drop_spec q info now : exists c b,
  codel_should_drop q info now = (b, q <| pq_codel ::= c |>) /\ keeps_counters c
  /\ (b = true -> 1 < pq_count q).
Proof.
  unfold codel_should_drop. destruct info as [i|]; [|by eexists _, _].
  destruct (_ || _) eqn:Hc; [by eexists _, _|]. apply orb_false_iff in Hc as [_ Hc%Z.leb_gt].
  destruct (first_above_time _) as [fat|]; [|by eexists _, _].
  exists id, (now >? fat). split_and!; [by destruct q|by intros ?|done].
Qed.

Lemma pop_info_taken q n : pq_good q -> 0 < pq_count q -> codel_ok n q ->
  exists info key q', pop_info q = Ret (Some info, q') /\ taken q q' key info
    /\ codel_ok (n - 1) q' /\ pq_codel q' = pq_codel q /\ pq_count q' = pq_count q - 1.
Proof.
  intros G Hc Hk. pose proof (inv_count_le q (good_inv _ G)).
  destruct (pop_info_spec q G) as [[Hz _]|(_ & info & key & q' & Hp & D)]; [lia|].
  destruct (dropped_config _ _ _ _ D) as (_ & _ & _ & Hcd). pose proof (dropped_count _ _ _ _ D) as Hn.
  exists info, key, q'. split_and!; [done|by apply dropped_taken| |done|done].
  unfold codel_ok in *. rewrite Hcd, Hn. lia.
Qed.

(** The packet handed out is the one given, or a later one. *)
Definition handed (q q' : PacketQueue) (i i' : PqPacketInfo) : Prop :=
  (i' = i /\ exists c, q' = q <| pq_codel ::= c |>) \/ exists key, taken q q' key i'.

Lemma codel_loop_spec n now fuel q i :
  pq_good q -> codel_ok n q -> n <= U32_MAX -> (Z.to_nat (pq_count q) < fuel)%nat ->
  (dropping (pq_codel q) = true -> 1 < pq_count q) ->
  exists i' q', codel_loop fuel q (Some i) now = Ret (Some i', q') /\ codel_ok n q' /\ handed q q' i i'.
Proof.
  revert q i. induction fuel as [|fuel IH]; intros q i G Hk Hn Hfuel Hdr; [lia|]. simpl.
  destruct (dropping (pq_codel q)) eqn:Hd; simpl.
  2: { exists i, q. split_and!; [done|done|]. left. split; [done|]. exists id. by destruct q. }
  destruct (drop_next (pq_codel q)) as [dn|] eqn:Hdn; simpl.
  2: { exists i, q. split_and!; [done|done|]. left. split; [done|]. exists id. by destruct q. }
  destruct (now >=? dn).
  2: { exists i, q. split_and!; [done|done|]. left. split; [done|]. exists id. by destruct q. }
  specialize (Hdr eq_refl). assert (Hu : is_u32 (cd_count (pq_codel q) + 1)).
  { unfold codel_ok in Hk. unfold is_u32, U32_MAX in *. lia. }
  unfold checked32. rewrite decide_True by done. rewrite ret_bind. cbv beta zeta.
  set (q1 := q <| pq_codel ::= _ |>).
  assert (Hk1 : codel_ok (n + 1) q1) by (unfold codel_ok in *; simpl; lia).
  destruct (pop_info_taken q1 (n + 1) (good_codel _ _ G)) as (i1 & key & q2 & -> & T & Hk2 & Hcd & Hct); [simpl; lia|done|].
  rewrite ret_bind. cbv beta iota. apply taken_codel_l in T.
  destruct (codel_should_drop_spec q2 (Some i1) now) as (c & b & -> & Hc & Hb).
  replace (n + 1 - 1) with n in Hk2 by lia. destruct (Hc (pq_codel q2)) as (C1 & C2 & C3 & C4).
  set (q3 := q2 <| pq_codel ::= c |>). assert (Hct3 : pq_count q3 = pq_count q - 1) by exact Hct.
  assert (Hk3 : codel_ok n q3) by (unfold codel_ok in *; simpl; rewrite C1, C2; exact Hk2).
  pose proof (taken_codel_r _ _ _ _ c T) as T3. fold q3 in T3.
  assert (Hnext : forall c', (cd_count (c' (pq_codel q3)) = cd_count (pq_codel q3)) ->
     lastcount (c' (pq_codel q3)) = lastcount (pq_codel q3) ->
     (dropping (c' (pq_codel q3)) = true -> 1 < pq_count q3) ->
     exists i' q', codel_loop fuel (q3 <| pq_codel ::= c' |>) (Some i1) now = Ret (Some i', q')
       /\ codel_ok n q' /\ handed q q' i i').
  { intros c' E1 E2 E3. pose proof (taken_codel_r _ _ _ _ c' T3) as T4.
    destruct (IH (q3 <| pq_codel ::= c' |>) i1) as (i' & q' & -> & Hk' & Hh).
    - apply T4.
    - unfold codel_ok in *. change (pq_codel (q3 <| pq_codel ::= c' |>)) with (c' (pq_codel q3)).
      rewrite E1, E2. exact Hk3.
    - done.
    - simpl. change (Z.to_nat (pq_count q3) < fuel)%nat. rewrite Hct3. lia.
    - exact E3.
    - exists i', q'. split_and!; [done|done|]. right. destruct Hh as [[-> [c'' ->]]|[k2 T5]].
      + exists key. by apply taken_codel_r.
      + exists k2. by eapply taken_trans. }
  destruct b; cbv beta iota delta [negb].
  - assert (Hdn3 : drop_next (pq_codel q3) = Some dn).
    { simpl. rewrite C3, Hcd. exact Hdn. }
    rewrite Hdn3. simpl (unwrap _). rewrite ret_bind. apply Hnext; [done|done|]. intros _. by apply Hb.
  - by apply Hnext.
Qed.

Lemma wrap32_sub a b : 0 <= b <= a -> a <= U32_MAX -> wrap32 (a - b) = a - b.
Proof. unfold wrap32, U32_MAX. intros. apply Z.mod_small. lia. Qed.

Lemma codel_enter_spec n now q i :
  pq_good q -> codel_ok n q -> n <= U32_MAX -> 1 < pq_count q ->
  exists i' q', codel_enter q now = Ret (Some i', q') /\ codel_ok n q' /\ handed q q' i i'.
Proof.
  intros G Hk Hn Hc. destruct (pop_info_taken q n G) as (i1 & key & q2 & Hp & T & Hk2 & Hcd & Hct); [lia|done|].
  unfold codel_enter. rewrite Hp, ret_bind. cbv beta iota.
  destruct (codel_should_drop_spec q2 (Some i1) now) as (c & b & -> & Hcc & _).
  cbv beta iota zeta delta [snd]. destruct (Hcc (pq_codel q2)) as (C1 & C2 & C3 & C4).
  set (c0 := (pq_codel (q2 <| pq_codel ::= c |>)) <| dropping := true |>).
  assert (Hc0 : cd_count c0 = cd_count (pq_codel q) /\ lastcount c0 = lastcount (pq_codel q)).
  { unfold c0, set_field. simpl. by rewrite C1, C2, Hcd. }
  destruct Hc0 as [Hc1 Hc2]. set (count := if _ && _ then _ else 1).
  assert (Hcount : 0 <= count /\ count + pq_count q2 <= n).
  { unfold codel_ok in Hk. rewrite Hct. unfold count. destruct (_ && _); [|lia].
    rewrite Hc1, Hc2, wrap32_sub by lia. lia. }
  eexists i1, _. split; [done|]. split.
  - exact (conj (conj (proj1 Hcount) (Z.le_refl count)) (proj2 Hcount)).
  - right. exists key. apply (taken_codel_r _ _ _ _ (fun _ => _)). by apply taken_codel_r.
Qed.

Lemma handed_codel q q' i i' c :
  handed (q <| pq_codel ::= c |>) q' i i' -> handed q q' i i'.
Proof.
  intros [[-> [c' ->]]|[key T]].
  - left. split; [done|]. by exists (fun x => c' (c x)).
  - right. exists key. by eapply taken_codel_l.
Qed.

Lemma codel_select_spec n now q i :
  pq_good q -> codel_ok n q -> n <= U32_MAX ->
  exists i' q', codel_select q i now = Ret (Some i', q') /\ codel_ok n q' /\ handed q q' i i'.
Proof.
  intros G Hk Hn. unfold codel_select.
  destruct (codel_should_drop_spec q (Some i) now) as (c & b & -> & Hc & Hb). cbv beta iota.
  destruct (Hc (pq_codel q)) as (C1 & C2 & C3 & C4).
  assert (Hk' : codel_ok n (q <| pq_codel ::= c |>)) by (unfold codel_ok in *; simpl; by rewrite C1, C2).
  pose proof (good_codel q c G) as G'. set (q1 := q <| pq_codel ::= c |>) in *.
  match goal with |- exists i' q', ?x = _ /\ _ /\ _ =>
    enough (exists i' q', x = Ret (Some i', q') /\ codel_ok n q' /\ handed q1 q' i i')
      as (i' & q' & He & Hk2 & Hh)
  end.
  { exists i', q'. split_and!; [exact He|done|by eapply handed_codel]. }
  destruct (dropping (pq_codel q1)) eqn:Hd; destruct b; cbv beta iota delta [negb andb].
  - apply codel_loop_spec; [done|done|done|lia|]. intros _. by apply Hb.
  - eexists i, _. split; [done|]. split; [done|]. left. split; [done|]. by eexists.
  - destruct (_ || _).
    + apply codel_enter_spec; [done..|]. by apply Hb.
    + exists i, q1. split; [done|]. split; [done|]. left. split; [done|]. exists id. done.
  - exists i, q1. split; [done|]. split; [done|]. left. split; [done|]. exists id. done.
Qed.

Lemma pop_codel_spec n now q : pq_good q -> codel_ok n q -> n <= U32_MAX ->
  (pq_size q = 0 /\ exists q', pop_codel q now = Ret (None, q') /\ pq_good q' /\ codel_ok n q'
     /\ (forall k, backlog q' k = backlog q k) /\ pq_quantum q' = pq_quantum q /\ pq_count q' = pq_count q)
  \/ (0 < pq_size q /\ exists info key q', pop_codel q now = Ret (Some (qi_packet info), q')
        /\ taken q q' key info /\ codel_ok n q').
Proof.
  intros G Hk Hn. destruct (pop_info_spec q G) as [[Hz Hp]|(Hpos & info & key & q1 & Hp & D)].
  - left. split; [done|]. unfold pop_codel. rewrite Hp, ret_bind. eexists. split; [done|].
    split_and!; [|done..]. apply good_codel. by apply good_next_none.
  - right. split; [done|]. unfold pop_codel. rewrite Hp, ret_bind. cbv beta iota.
    pose proof (dropped_taken q q1 key info G D) as T.
    destruct (codel_select_spec n now q1 info) as (i' & q' & -> & Hk' & Hh); [apply T| |done|].
    { destruct (dropped_config _ _ _ _ D) as (_ & _ & _ & Hcd). unfold codel_ok in *.
      rewrite Hcd, (dropped_count _ _ _ _ D). lia. }
    rewrite ret_bind. simpl. destruct Hh as [[-> [c ->]]|[k2 T2]].
    + exists info, key. eexists. split; [done|]. split; [by apply taken_codel_r|done].
    + exists i', k2, q'. split; [done|]. split; [by eapply taken_trans|done].
Qed.

(** ** Sequences of operations *)

Inductive pq_op :=
| OpPush (p : TrafficPacket) (now : Z)
| OpPop (now : Z).

(** The packets delivered by a sequence of operations, and the final queue. *)
Fixpoint pq_run (ops : list pq_op) (q : PacketQueue) : outcome (list TrafficPacket * PacketQueue) :=
  match ops with
  | [] => Ret ([], q)
  | OpPush p now :: ops => q ← push q p now; pq_run ops q
  | OpPop now :: ops =>
      r ← pop_codel q now;
      r' ← pq_run ops (snd r);
      Ret (option_list (fst r) ++ fst r', snd r')
  end.

Definition of_flow (k : FlowKey) (ps : list TrafficPacket) : list TrafficPacket :=
  filter (fun p => packet_key p = k) ps.

Definition pushed_packets (ops : list pq_op) : list TrafficPacket :=
  omap (fun op => match op with OpPush p _ => Some p | OpPop _ => None end) ops.

Definition waiting (q : PacketQueue) (k : FlowKey) : list TrafficPacket := qi_packet <$> backlog q k.

Lemma of_flow_arrival p now k : qi_packet <$> arrival p now k = of_flow k [p].
Proof.
  unfold arrival, of_flow. rewrite filter_cons, filter_nil.
  destruct (decide (k = packet_key p)) as [->|Hk]; [by rewrite decide_True|].
  by rewrite decide_False by (intros <-; by apply Hk).
Qed.

Lemma of_flow_cons k p ps : of_flow k (p :: ps) = of_flow k [p] ++ of_flow k ps.
Proof. unfold of_flow. by rewrite <- filter_app. Qed.

Lemma push_good q q' p now :
  pq_good q -> wire_size p <= 4 * pq_quantum q -> pushed q q' p now -> pq_good q'.
Proof.
  intros [I Hi Hs] Hp P. split; [apply P|apply P|]. intros k. pose proof (inv_quantum _ I).
  destruct (pushed_accept _ _ _ _ P ltac:(lia) k) as (rest & [l Hl] & ->).
  destruct (pushed_config _ _ _ _ P) as (_ & _ & -> & _). apply Forall_app. split.
  - specialize (Hs k). rewrite Hl in Hs. by apply Forall_app in Hs as [_ ?].
  - unfold arrival. case_decide; [by apply Forall_singleton|constructor].
Qed.

Lemma taken_waiting q q' key info k : pq_good q -> taken q q' key info ->
  of_flow k [qi_packet info] ++ waiting q' k `sublist_of` waiting q k.
Proof.
  intros G T. destruct (taken_head _ _ _ _ T) as [l Hl].
  assert (Hkey : packet_key (qi_packet info) = key).
  { unfold backlog in Hl at 1. destruct (pq_flows q !! key) as [f|] eqn:Hf; [|by destruct l].
    pose proof (flow_infos _ _ _ _ (inv_flows _ (good_inv _ G) _ _ Hf)) as Hall.
    rewrite Hl in Hall. apply Forall_app in Hall as [_ Hall]. by inversion_clear Hall as [|? ? [_ ?]]. }
  unfold of_flow, waiting. rewrite filter_cons, filter_nil. destruct (decide (k = key)) as [->|Hk].
  - rewrite decide_True by done. rewrite Hl, fmap_app. simpl. by apply sublist_inserts_l.
  - rewrite decide_False by congruence. simpl.
    destruct (taken_others _ _ _ _ T k Hk) as [l' ->]. rewrite fmap_app. by apply sublist_inserts_l.
Qed.

Lemma pq_run_spec ops q n :
  pq_good q -> codel_ok n q -> n + Z.of_nat (length ops) <= U32_MAX ->
  Forall (fun p => wire_size p <= 4 * pq_quantum q) (pushed_packets ops) ->
  exists out q', pq_run ops q = Ret (out, q') /\ pq_good q' /\ pq_quantum q' = pq_quantum q
    /\ forall k, of_flow k out ++ waiting q' k `sublist_of` waiting q k ++ of_flow k (pushed_packets ops).
Proof.
  revert q n. induction ops as [|[p now|now] ops IH]; intros q n G Hk Hn Hall.
  - exists [], q. split_and!; [done|done|done|]. intros k. unfold of_flow. simpl. by rewrite app_nil_r.
  - simpl in *. inversion_clear Hall as [|? ? Hp Hall']. destruct (push_spec q p now) as (q1 & -> & P); [apply G..|].
    rewrite ret_bind. pose proof (push_good q q1 p now G Hp P) as G1.
    destruct (pushed_config _ _ _ _ P) as (_ & _ & Hq & Hcd).
    destruct (IH q1 (n + 1)) as (out & q' & -> & G' & Hq' & Hsub); [done| |lia|by rewrite Hq|].
    { pose proof (pushed_count _ _ _ _ P). unfold codel_ok in *. rewrite Hcd. lia. }
    exists out, q'. split_and!; [done|done|congruence|]. intros k. rewrite of_flow_cons, app_assoc.
    etrans; [apply Hsub|]. apply sublist_app; [|done]. pose proof (inv_quantum _ (good_inv _ G)).
    destruct (pushed_accept _ _ _ _ P ltac:(lia) k) as (rest & [l Hl] & Hb).
    unfold waiting. rewrite Hb, fmap_app, of_flow_arrival. apply sublist_app; [|done].
    rewrite Hl, fmap_app. by apply sublist_inserts_l.
  - simpl in *. destruct (pop_codel_spec n now q G Hk) as [(_ & q1 & -> & G1 & Hk1 & Hb & Hq & _)
      |(_ & info & key & q1 & -> & T & Hk1)]; [lia| |]; rewrite ret_bind; cbv beta delta [fst snd] iota.
    + destruct (IH q1 n G1 Hk1) as (out & q' & -> & G' & Hq' & Hsub); [lia|by rewrite Hq|].
      exists out, q'. split_and!; [done|done|congruence|]. intros k. specialize (Hsub k).
      unfold waiting in *. by rewrite Hb in Hsub.
    + pose proof (taken_quantum _ _ _ _ T) as Hq.
      destruct (IH q1 n (taken_good _ _ _ _ T) Hk1) as (out & q' & -> & G' & Hq' & Hsub); [lia|by rewrite Hq|].
      exists (qi_packet info :: out), q'. split_and!; [done|done|congruence|]. intros k.
      rewrite of_flow_cons, <- app_assoc. etrans; [apply sublist_app; [reflexivity|apply Hsub]|].
      rewrite app_assoc. apply sublist_app; [|done]. by eapply taken_waiting.
Qed.

Lemma PacketQueue_new_good quantum : 0 < quantum < 2 ^ 57 ->
  exists q, PacketQueue_new quantum = Ret q /\ pq_good q /\ codel_ok 0 q /\ pq_quantum q = quantum
    /\ (forall k, backlog q k = []).
Proof.
  intros Hq. unfold PacketQueue_new. destruct (Z.eqb_spec quantum 0); [lia|].
  unfold DEFAULT_PACKET_QUEUE_MAX_BYTES_MULTIPLIER, DEFAULT_PACKET_QUEUE_PER_FLOW_MULTIPLIER.
  rewrite !checked_ok by (unfold is_u64; lia). eexists. split; [done|].
  split_and!; [|done|done|done]. split; [|done|].
  - split; simpl; [done|lia|done|by split|done|done|lia].
  - intros k. constructor.
Qed.

(** ** Properties *)

(** [PacketQueue::push] never panics and its eviction loops terminate. A
    packet over 16 quanta is rejected and changes nothing; any other packet ends
    up at the back of its own flow, after evictions that only ever take packets
    from the front of a flow, and if it fits under both byte caps nothing is
    evicted. Ring, counters and caps stay consistent. *)
Theorem push_correct q p now (Hinv : pq_inv q) (Hidle : no_idle q) :
  exists q', push q p now = Ret q' /\ pushed q q' p now.
Proof. by apply push_spec. Qed.

(** [pop_info] never panics and its round-robin search terminates, provided
    no queued packet exceeds four quanta: it returns [None] exactly when the
    queue is empty, and otherwise removes the oldest packet of some flow and
    nothing else, keeping the invariant. *)
Theorem pop_info_correct q (Hgood : pq_good q) :
  (pq_size q = 0 /\ exists q', pop_info q = Ret (None, q') /\ pq_good q')
  \/ (0 < pq_size q /\ exists info key q', pop_info q = Ret (Some info, q')
        /\ pq_good q' /\ backlog q key = info :: backlog q' key
        /\ (forall k, k <> key -> backlog q' k = backlog q k)
        /\ pq_size q' = pq_size q - qi_size info /\ pq_count q' = pq_count q - 1).
Proof.
  destruct (pop_info_spec q Hgood) as [[Hz ->]|(Hp & info & key & q' & -> & D)].
  - left. split; [done|]. eexists. split; [done|]. by apply good_next_none.
  - right. split; [done|]. exists info, key, q'.
    destruct (dropped_head _ _ _ _ D) as (rest & -> & ->).
    split_and!; try done; try apply D. by apply (dropped_taken _ _ _ _ Hgood D).
Qed.

(** CoDel never starves its reader: [pop_codel] terminates without panic
    and returns a packet whenever the queue is not empty, however many packets
    it discards on the way; what it returns was queued, and every flow keeps a
    suffix of its backlog. *)
Theorem pop_codel_total n now q (Hgood : pq_good q) (Hcodel : codel_ok n q) (Hn : n <= U32_MAX) :
  exists out q', pop_codel q now = Ret (out, q') /\ pq_good q'
    /\ (out = None <-> pq_size q = 0)
    /\ (forall k, backlog q' k `suffix_of` backlog q k)
    /\ (forall p, out = Some p -> p ∈ waiting q (packet_key p)).
Proof.
  destruct (pop_codel_spec n now q Hgood Hcodel Hn)
    as [(Hz & q' & -> & G & _ & Hb & _)|(Hp & info & key & q' & -> & T & _)].
  - exists None, q'. split_and!; [done|done|done| |done]. intros k. by rewrite Hb.
  - exists (Some (qi_packet info)), q'. split_and!; [done|apply T|split; [done|lia]| |].
    + intros k. destruct (decide (k = key)) as [->|?]; [|by apply T].
      destruct (taken_head _ _ _ _ T) as [l ->]. exists (l ++ [info]). by rewrite <- app_assoc.
    + intros p [= <-]. pose proof (taken_waiting q q' key info (packet_key (qi_packet info)) Hgood T) as Hsub.
      unfold of_flow in Hsub. rewrite filter_cons_True in Hsub by done.
      eapply elem_of_sublist; [|exact Hsub]. left.
Qed.

(** C15: A fresh queue, with a quantum below 2^57, under any sequence of at most
    2^32 - 1 [push] and [pop_codel] calls whose packets are of at most four quanta on
    the wire (the quantum is the limit on the size of messages, so they are; without
    this bound a credit can underflow, [pop_deficit_underflow]). No call panics; what
    is delivered for a flow, followed by what is still queued, is a subsequence of
    what was pushed for that flow: packets may be dropped but are never reordered
    within a flow, duplicated or invented. The byte caps (64 quanta in total, 16 per
    flow) hold at the end. *)
Theorem queue_run_fifo quantum ops
    (Hq : 0 < quantum < 2 ^ 57)
    (Hsmall : Forall (fun p => wire_size p <= 4 * quantum) (pushed_packets ops))
    (Hlen : Z.of_nat (length ops) <= U32_MAX) :
  exists q out q', PacketQueue_new quantum = Ret q /\ pq_run ops q = Ret (out, q')
    /\ (forall k, of_flow k out ++ waiting q' k `sublist_of` of_flow k (pushed_packets ops))
    /\ pq_size q' <= 64 * quantum /\ (forall k, sum_sizes (backlog q' k) <= 16 * quantum).
Proof.
  destruct (PacketQueue_new_good quantum Hq) as (q & Hnew & G & Hk & Hqq & Hb).
  rewrite <- Hqq in Hsmall. destruct (pq_run_spec ops q 0 G Hk) as (out & q' & Hrun & G' & Hq' & Hsub); [lia|done|].
  exists q, out, q'. pose proof (good_inv _ G') as I'. destruct (inv_caps _ I') as [Hmt _].
  split_and!; [done|done| | |].
  - intros k. specialize (Hsub k). unfold waiting in Hsub at 2. by rewrite Hb in Hsub.
  - pose proof (inv_total _ I'). lia.
  - intros k. rewrite (backlog_size q' k I'). destruct (pq_flows q' !! k) as [f|] eqn:Hf; [|lia].
    pose proof (flow_cap _ _ _ _ (inv_flows _ I' _ _ Hf)). lia.
Qed.

(** The lost update behind the theorem below: a packet between 4 and 16 quanta,
    with another behind it. *)
Definition sample_key (n : Z) : PublicKey := replicate PUBLIC_KEY_SIZE n.
Definition sample_packet (src dst : Z) (len : nat) : TrafficPacket :=
  TrafficPacket_new (sample_key src) (sample_key dst) (replicate len 0).

(** The four-quanta bound is needed: [push] accepts a packet of up to 16
    quanta, but [drop_from] clamps the flow's credit to four quanta before
    [pop_info] subtracts the packet's size from it. With a second packet behind
    it in the flow the subtraction underflows (a panic with overflow checks, a
    wrapped credit without). *)
Theorem pop_deficit_underflow :
  exists q, (q ← PacketQueue_new 100; q ← push q (sample_packet 1 2 400) 0;
             push q (sample_packet 1 2 0) 0) = Ret q
    /\ pq_inv q /\ no_idle q /\ pq_count q = 2 /\ pop_info q = Panic.
Proof.
  destruct (PacketQueue_new_good 100 ltac:(lia)) as (q0 & H0 & G0 & _ & Hq0 & _). rewrite H0, ret_bind.
  destruct (push_spec q0 (sample_packet 1 2 400) 0) as (q1 & H1 & P1); [apply G0..|]. rewrite H1, ret_bind.
  destruct (push_spec q1 (sample_packet 1 2 0) 0) as (q2 & H2 & P2); [apply P1..|].
  exists q2. split; [done|]. split; [apply P2|]. split; [apply P2|].
  vm_compute in H0. injection H0 as <-. vm_compute in H1. injection H1 as <-.
  vm_compute in H2. injection H2 as <-. by split; vm_compute.
Qed.

(** ** Witnesses *)

Definition sample_ops : list pq_op :=
  [OpPush (sample_packet 1 2 10) 0; OpPush (sample_packet 3 2 20) 5;
   OpPush (sample_packet 1 2 30) 7; OpPop 20000000; OpPop 20000001].

Lemma new_queue_inv : forall q, PacketQueue_new 100 = Ret q -> pq_good q /\ codel_ok 0 q.
Proof.
  intros q Hq. destruct (PacketQueue_new_good 100 ltac:(lia)) as (q0 & H0 & G0 & Hk & _).
  rewrite H0 in Hq. by injection Hq as <-.
Qed.

Definition sample_queue : PacketQueue :=
  mkPacketQueue ∅ [] None 0 0 6400 1600 100 Codel_default.

Lemma push_correct_witness :
  exists q', push sample_queue (sample_packet 1 2 10) 0 = Ret q' /\ pushed sample_queue q' (sample_packet 1 2 10) 0.
Proof.
  apply (push_correct sample_queue (sample_packet 1 2 10) 0);
    by destruct (new_queue_inv sample_queue eq_refl) as [[] _].
Defined.

Lemma pop_info_correct_witness :
  exists q, push sample_queue (sample_packet 1 2 10) 0 = Ret q /\ 0 < pq_size q
    /\ exists info q', pop_info q = Ret (Some info, q').
Proof.
  destruct (new_queue_inv sample_queue eq_refl) as [G _].
  destruct (push_spec sample_queue (sample_packet 1 2 10) 0) as (q & Hq & P); [apply G..|].
  exists q. split; [done|].
  assert (Hs : wire_size (sample_packet 1 2 10) <= 4 * pq_quantum sample_queue) by (vm_compute; discriminate).
  assert (Hpos : 0 < pq_size q) by (vm_compute in Hq; injection Hq as <-; done).
  split; [done|].
  destruct (pop_info_correct q (push_good _ _ _ _ G Hs P)) as [[Hz _]|(_ & info & key & q' & Hp & _)];
    [lia|by exists info, q'].
Defined.

Lemma pop_codel_total_witness :
  exists out q', pop_codel sample_queue 0 = Ret (out, q') /\ (out = None <-> pq_size sample_queue = 0).
Proof.
  destruct (new_queue_inv sample_queue eq_refl) as [G Hk].
  destruct (pop_codel_total 0 0 sample_queue G Hk ltac:(vm_compute; discriminate)) as (out & q' & Hp & _ & Ho & _).
  by exists out, q'.
Defined.

Lemma queue_run_fifo_witness :
  exists q out q', PacketQueue_new 100 = Ret q /\ pq_run sample_ops q = Ret (out, q')
    /\ pq_size q' <= 64 * 100.
Proof.
  destruct (queue_run_fifo 100 sample_ops) as (q & out & q' & Hn & Hr & _ & Hs & _).
  - lia.
  - vm_compute. repeat constructor; discriminate.
  - vm_compute. discriminate.
  - by exists q, out, q'.
Defined.

(** ** Delivery under concurrency

    The router actor delivers, readers run [read_from] (core.rs): take a queued
    packet or register in [recv_ready] and wait on the channel. *)
Record DeliveryState := mkDeliveryState {
  ds_queue : DeliveryQueue;
  ds_router : option (TrafficPacket * bool);  (* inside [deliver], after the check *)
  ds_channel : list TrafficPacket;
  ds_waiting : Z                              (* readers blocked on the channel *)
}.

Inductive delivery_step : DeliveryState -> DeliveryState -> Prop :=
| router_check d ch w p :
    delivery_step (mkDeliveryState d None ch w)
                  (mkDeliveryState d (Some (p, deliver_check d)) ch w)
| router_commit d ch w p ready now out d' :
    deliver_commit d ready p now = Ret (out, d') ->
    delivery_step (mkDeliveryState d (Some (p, ready)) ch w)
                  (mkDeliveryState d' None (ch ++ option_list out) w)
| reader_pop d r ch w p now d' :
    try_pop_or_wait d now = Ret (Some p, d') ->
    delivery_step (mkDeliveryState d r ch w) (mkDeliveryState d' r ch w)
| reader_wait d r ch w now d' :
    try_pop_or_wait d now = Ret (None, d') -> w < U64_MAX ->
    delivery_step (mkDeliveryState d r ch w) (mkDeliveryState d' r ch (w + 1))
| reader_recv d r p ch w :
    0 < w -> delivery_step (mkDeliveryState d r (p :: ch) w) (mkDeliveryState d r ch (w - 1)).

(** Every waiting reader is owed exactly one thing: a unit of [recv_ready], or
    a packet already in the channel. *)
Definition delivery_inv (s : DeliveryState) : Prop :=
  0 <= dq_recv_ready (ds_queue s)
  /\ dq_recv_ready (ds_queue s) + Z.of_nat (length (ds_channel s)) = ds_waiting s
  /\ ds_waiting s <= U64_MAX
  /\ (forall p, ds_router s = Some (p, true) -> 0 < dq_recv_ready (ds_queue s)).

Lemma try_pop_or_wait_ready d now out d' : try_pop_or_wait d now = Ret (out, d') ->
  dq_recv_ready d' = match out with Some _ => dq_recv_ready d | None => wrap64 (dq_recv_ready d + 1) end.
Proof.
  unfold try_pop_or_wait. destruct (pop_codel (dq_queue d) now) as [[[p|] q]|]; [| |done];
    rewrite ret_bind; by intros [= <- <-].
Qed.

Lemma delivery_step_inv s s' : delivery_step s s' -> delivery_inv s -> delivery_inv s'.
Proof.
  unfold delivery_inv. intros Hs (H0 & Hc & Hu & Hr); destruct Hs; simpl in *.
  - split_and!; try done. intros q [= _ Hd]. unfold deliver_check in Hd. lia.
  - unfold deliver_commit in *. destruct ready.
    + match goal with H : Ret _ = Ret _ |- _ => injection H as <- <- end. simpl.
      specialize (Hr p eq_refl). unfold set_field. simpl. rewrite wrap64_id by (unfold is_u64, U64_MAX in *; lia).
      rewrite length_app. simpl. split_and!; try lia. done.
    + destruct (push _ _ _) as [q|]; [|done]. rewrite ret_bind in *.
      match goal with H : Ret _ = Ret _ |- _ => injection H as <- <- end. simpl.
      rewrite app_nil_r. done.
  - match goal with H : try_pop_or_wait _ _ = _ |- _ => apply try_pop_or_wait_ready in H; rewrite H end.
    done.
  - match goal with H : try_pop_or_wait _ _ = _ |- _ => apply try_pop_or_wait_ready in H; rewrite H end.
    rewrite wrap64_id by (unfold is_u64, U64_MAX in *; lia). split_and!; lia.
  - split_and!; try lia. done.
Qed.

Definition delivery_init (quantum : Z) (s : DeliveryState) : Prop :=
  exists d, DeliveryQueue_new quantum = Ret d /\ s = mkDeliveryState d None [] 0.

(** With one router and any number of readers, [recv_ready] plus the packets
    in the channel is always the number of waiting readers: the unguarded
    [fetch_sub] of [deliver] never underflows, and no packet is handed to the
    channel without a reader waiting for it. *)
Theorem delivery_ready_exact quantum s0 s
    (Hinit : delivery_init quantum s0) (Hsteps : rtc delivery_step s0 s) :
  0 <= dq_recv_ready (ds_queue s)
  /\ dq_recv_ready (ds_queue s) + Z.of_nat (length (ds_channel s)) = ds_waiting s
  /\ (forall p, ds_router s = Some (p, true) -> 0 < dq_recv_ready (ds_queue s)).
Proof.
  enough (delivery_inv s) as (? & ? & _ & ?) by done.
  destruct Hinit as (d & Hd & ->). assert (H0 : delivery_inv (mkDeliveryState d None [] 0)).
  { unfold DeliveryQueue_new in Hd. destruct (PacketQueue_new quantum); [|done].
    rewrite ret_bind in Hd. injection Hd as <-. done. }
  revert H0. induction Hsteps as [|x y z Hs _ IH]; [done|]. intros. by apply IH, (delivery_step_inv x).
Qed.

(** A wake-up can be lost: from a fresh queue the router checks
    [recv_ready], a reader finds the queue empty and starts waiting, and the
    router then queues its packet. The router is idle, the channel is empty, one
    reader waits and the packet stays in the queue: neither side moves until
    another packet arrives. *)
Theorem delivery_lost_wakeup :
  exists s0 s, delivery_init 100 s0 /\ rtc delivery_step s0 s
    /\ ds_router s = None /\ ds_channel s = [] /\ ds_waiting s = 1
    /\ waiting (dq_queue (ds_queue s)) (packet_key (sample_packet 1 2 10)) = [sample_packet 1 2 10].
Proof.
  set (p := sample_packet 1 2 10).
  set (d0 := mkDeliveryQueue sample_queue 0).
  assert (Hw : exists d1, try_pop_or_wait d0 0 = Ret (None, d1)
    /\ exists d2, deliver_commit d1 false p 0 = Ret (None, d2) /\ waiting (dq_queue d2) (packet_key p) = [p]).
  { eexists. split; [by vm_compute|]. eexists. split; [by vm_compute|]. by vm_compute. }
  destruct Hw as (d1 & H1 & d2 & H2 & H3).
  exists (mkDeliveryState d0 None [] 0), (mkDeliveryState d2 None ([] ++ []) (0 + 1)).
  split_and!; [by exists d0| |done|done|done|done].
  eapply rtc_l; [apply (router_check _ _ _ p)|]. change (deliver_check d0) with false.
  eapply rtc_l; [eapply reader_wait; [exact H1|done]|].
  eapply rtc_l; [|apply rtc_refl]. by apply (router_commit _ _ _ _ _ _ None d2 H2).
Qed.

Lemma delivery_ready_exact_witness :
  exists s, delivery_init 100 s /\ 0 <= dq_recv_ready (ds_queue s).
Proof.
  exists (mkDeliveryState (mkDeliveryQueue sample_queue 0) None [] 0).
  assert (Hi : delivery_init 100 (mkDeliveryState (mkDeliveryQueue sample_queue 0) None [] 0))
    by (eexists; split; reflexivity).
  split; [exact Hi|]. apply (delivery_ready_exact 100 _ _ Hi (rtc_refl _ _)).
Defined.
