(* ===== verification/Crypto.v ===== *)
(** * Crypto: identities and signatures

    Models [crates/ironwood/src/crypto.rs] and [is_public_key_valid] of
    [types.rs]. The ed25519-dalek and curve25519-dalek crates are outside the
    repository: their operations are the class [Dalek], and what is relied on
    (a generated key is valid, its signatures verify) is the class [DalekLaws]. *)

From S2P Require Import Prelude.
From S2P Require Import Wire.
From stdpp Require Import options.
Open Scope Z_scope.

Class Dalek := {
  SigningKey : Type;
  EdwardsPoint : Type;
  VerifyingKey : Type;
  Signature : Type;
  sk_verifying_key_bytes : SigningKey -> PublicKey;
  sk_sign : SigningKey -> bytes -> Sig;
  decompress : PublicKey -> option EdwardsPoint;
  compress : EdwardsPoint -> PublicKey;
  is_small_order : EdwardsPoint -> bool;
  vk_from_bytes : PublicKey -> option VerifyingKey;
  signature_from_slice : Sig -> option Signature;
  vk_verify : VerifyingKey -> bytes -> Signature -> bool
}.

Section Crypto.
Context `{Dalek}.

Definition is_public_key_valid (key : PublicKey) : bool :=
  match decompress key with
  | Some point => bool_decide (compress point = key) && negb (is_small_order point)
  | None => false
  end.

Record Crypto := mkCrypto { signing_key : SigningKey; public_key : PublicKey }.

Definition Crypto_new (sk : SigningKey) : Crypto := mkCrypto sk (sk_verifying_key_bytes sk).

Definition sign (c : Crypto) (message : bytes) : Sig := sk_sign (signing_key c) message.

Definition sign_with_key (key : SigningKey) (message : bytes) : Sig := sk_sign key message.

Definition verify (key : PublicKey) (message : bytes) (s : Sig) : bool :=
  if negb (is_public_key_valid key) then false
  else
    match vk_from_bytes key with
    | None => false
    | Some vk =>
        match signature_from_slice s with
        | None => false
        | Some signature => vk_verify vk message signature
        end
    end.

(** What the program relies on: documented behaviour of the two crates. *)
Class DalekLaws := {
  generated_key_valid sk : is_public_key_valid (sk_verifying_key_bytes sk) = true;
  signed_verifies sk m : exists vk s,
    vk_from_bytes (sk_verifying_key_bytes sk) = Some vk
    /\ signature_from_slice (sk_sign sk m) = Some s /\ vk_verify vk m s = true;
  signed_length sk m : sig_wf (sk_sign sk m);
  generated_key_wf sk : key_wf (sk_verifying_key_bytes sk)
}.

(** An identity whose public key belongs to its signing key. *)
Definition crypto_wf (c : Crypto) : Prop := public_key c = sk_verifying_key_bytes (signing_key c).

Lemma Crypto_new_wf sk : crypto_wf (Crypto_new sk).
Proof. done. Qed.

Lemma verify_sign `{!DalekLaws} c m : crypto_wf c -> verify (public_key c) m (sign c m) = true.
Proof.
  intros Hc. unfold verify, sign. rewrite Hc, generated_key_valid. simpl.
  destruct (signed_verifies (signing_key c) m) as (vk & s & -> & -> & ->). done.
Qed.

Lemma verify_valid key m s : verify key m s = true -> is_public_key_valid key = true.
Proof. unfold verify. by destruct (is_public_key_valid key). Qed.
End Crypto.

Arguments Crypto {_}.
Arguments mkCrypto {_}.

(** A small instance, for concrete examples: keys are numbered, and the
    signature of a message carries the key and the message's byte sum. *)
Definition toy_key (n : Z) : PublicKey := replicate PUBLIC_KEY_SIZE (n mod 2 ^ 8).
Definition toy_sig (n : Z) (m : bytes) : Sig :=
  (n mod 2 ^ 8) :: (foldr Z.add 0 m mod 2 ^ 8) :: replicate 62 0.

Definition toy_dalek : Dalek := {|
  SigningKey := Z;
  EdwardsPoint := PublicKey;
  VerifyingKey := PublicKey;
  Signature := Sig;
  sk_verifying_key_bytes := toy_key;
  sk_sign := toy_sig;
  decompress := Some;
  compress := id;
  is_small_order := fun p => bool_decide (length p <> PUBLIC_KEY_SIZE);
  vk_from_bytes := Some;
  signature_from_slice := Some;
  vk_verify := fun vk m s => bool_decide (s = toy_sig (hd 0 vk) m)
|}.

Lemma toy_dalek_laws : @DalekLaws toy_dalek.
Proof.
  assert (Hmod : forall z, is_u8 (z mod 2 ^ 8)) by (intros; apply Z.mod_pos_bound; lia).
  assert (Hidem : forall sk m, toy_sig (sk mod 2 ^ 8) m = toy_sig sk m)
    by (intros; unfold toy_sig; by rewrite Zmod_mod).
  split.
  - intros sk. unfold is_public_key_valid. simpl. by rewrite bool_decide_eq_true_2 by done.
  - intros sk m. exists (toy_key sk), (toy_sig sk m). split_and!; [done..|]. simpl.
    apply bool_decide_eq_true_2. symmetry. apply Hidem.
  - intros sk m. split; [done|]. 
    constructor; [apply Hmod|]. constructor; [apply Hmod|]. apply Forall_replicate. unfold is_u8. lia.
  - intros sk. split; [done|]. by apply Forall_replicate.
Qed.
