(* ===== verification/Pathfinder.v ===== *)
(** * Pathfinder: cached paths and pending lookups

    Models [crates/ironwood/src/pathfinder.rs]: the signed path info we
    advertise, the path cache and the rumors of destinations we are looking for.
    [now] is the clock reading of an operation; the tracing calls are dropped. *)

From S2P Require Import Prelude.
From S2P Require Import Wire.
From S2P Require Import Crypto.
From S2P Require Import Traffic.
From stdpp Require Import options.
Open Scope Z_scope.

Record PathInfo := mkPathInfo {
  pi_path : list PeerPort;
  pi_seq : Z;
  pi_req_time : Z;
  pi_last_refresh : Z;
  pi_cached_traffic : option TrafficPacket;
  pi_broken : bool
}.
#[export] Instance PathInfo_eta : Settable PathInfo := fun r =>
  mkPathInfo (pi_path r) (pi_seq r) (pi_req_time r) (pi_last_refresh r) (pi_cached_traffic r)
    (pi_broken r).

Record PathRumor := mkPathRumor {
  ru_traffic : option TrafficPacket;
  ru_send_time : option Z;
  ru_retry_time : option Z;
  ru_created : Z
}.
#[export] Instance PathRumor_eta : Settable PathRumor := fun r =>
  mkPathRumor (ru_traffic r) (ru_send_time r) (ru_retry_time r) (ru_created r).

Record OwnPathInfo := mkOwnPathInfo { own_seq : Z; own_path : list PeerPort; own_sig : Sig }.
#[export] Instance OwnPathInfo_eta : Settable OwnPathInfo := fun r =>
  mkOwnPathInfo (own_seq r) (own_path r) (own_sig r).

Definition OwnPathInfo_new : OwnPathInfo := mkOwnPathInfo 0 [] (replicate SIGNATURE_SIZE 0).

Definition OwnPathInfo_bytes_for_sig (i : OwnPathInfo) : bytes :=
  encode_path (encode_uvarint [] (own_seq i)) (own_path i).

Definition OwnPathInfo_sign `{Dalek} (i : OwnPathInfo) (c : Crypto) : OwnPathInfo :=
  i <| own_sig := sign c (OwnPathInfo_bytes_for_sig i) |>.

Definition content_equal (i other : OwnPathInfo) : bool :=
  bool_decide (own_seq i = own_seq other) && bool_decide (own_path i = own_path other).

Record Pathfinder := mkPathfinder {
  pf_info : OwnPathInfo;
  pf_paths : gmap PublicKey PathInfo;
  pf_rumors : gmap PublicKey PathRumor
}.
#[export] Instance Pathfinder_eta : Settable Pathfinder := fun r =>
  mkPathfinder (pf_info r) (pf_paths r) (pf_rumors r).

Definition Pathfinder_new `{Dalek} (c : Crypto) : Pathfinder :=
  mkPathfinder (OwnPathInfo_sign OwnPathInfo_new c) ∅ ∅.

Definition should_throttle_lookup (p : Pathfinder) (dest : PublicKey) (throttle now : Z) : bool :=
  match pf_paths p !! dest with
  | Some info => elapsed now (pi_req_time info) <? throttle
  | None => false
  end.

Definition mark_lookup_sent (p : Pathfinder) (dest : PublicKey) (now : Z) : Pathfinder :=
  p <| pf_paths ::= alter (fun i => i <| pi_req_time := now |>) dest |>.

(** [t.map_or(false, |t| t.elapsed() < throttle)]. *)
Definition recent (t : option Z) (throttle now : Z) : bool :=
  match t with Some t => elapsed now t <? throttle | None => false end.

Definition should_throttle_rumor (p : Pathfinder) (xformed_dest : PublicKey) (throttle now : Z) : bool :=
  match pf_rumors p !! xformed_dest with
  | Some rumor => recent (ru_send_time rumor) throttle now
  | None => false
  end.

Definition ensure_rumor (p : Pathfinder) (xformed_dest : PublicKey) (now : Z) : bool * Pathfinder :=
  match pf_rumors p !! xformed_dest with
  | Some _ => (false, p)
  | None => (true, p <| pf_rumors ::= <[xformed_dest := mkPathRumor None None None now]> |>)
  end.

Definition mark_rumor_sent (p : Pathfinder) (xformed_dest : PublicKey) (now : Z) : Pathfinder :=
  p <| pf_rumors ::= alter (fun r => r <| ru_send_time := Some now |>) xformed_dest |>.

Definition should_throttle_rumor_retry (p : Pathfinder) (xformed_dest : PublicKey) (throttle now : Z)
    : bool :=
  match pf_rumors p !! xformed_dest with
  | Some rumor => recent (ru_send_time rumor) throttle now || recent (ru_retry_time rumor) throttle now
  | None => false
  end.

Definition mark_rumor_retry (p : Pathfinder) (xformed_dest : PublicKey) (now : Z) : Pathfinder :=
  p <| pf_rumors ::= alter (fun r => r <| ru_retry_time := Some now |>) xformed_dest |>.

Definition cache_rumor_traffic (p : Pathfinder) (xformed_dest : PublicKey) (traffic : TrafficPacket)
    : Pathfinder :=
  p <| pf_rumors ::= alter (fun r => r <| ru_traffic := Some traffic |>) xformed_dest |>.

Definition accept_notify (p : Pathfinder) (source xformed_source : PublicKey) (notify_seq : Z)
    (notify_path : list PeerPort) (now : Z) : (bool * option TrafficPacket) * Pathfinder :=
  match pf_paths p !! source with
  | Some info =>
      if notify_seq <=? pi_seq info then ((false, None), p)
      else if negb (pi_broken info) && bool_decide (pi_path info = notify_path) then ((false, None), p)
      else
        let info' := mkPathInfo notify_path notify_seq (pi_req_time info) now None false in
        ((true, pi_cached_traffic info), p <| pf_paths ::= <[source := info']> |>)
  | None =>
      match pf_rumors p !! xformed_source with
      | None => ((false, None), p)
      | Some rumor =>
          let '(traffic, rumor) :=
            match ru_traffic rumor with
            | Some t => if decide (tp_dest t = source) then (Some t, rumor <| ru_traffic := None |>)
                        else (None, rumor)
            | None => (None, rumor)
            end in
          let p := p <| pf_rumors ::= <[xformed_source := rumor]> |> in
          ((true, traffic),
           p <| pf_paths ::= <[source := mkPathInfo notify_path notify_seq now now None false]> |>)
      end
  end.

Definition Pathfinder_handle_broken (p : Pathfinder) (dest : PublicKey) : Pathfinder :=
  p <| pf_paths ::= alter (fun i => i <| pi_broken := true |>) dest |>.

Definition learn_path_from_traffic (p : Pathfinder) (source : PublicKey) (path : list PeerPort)
    (now : Z) : Pathfinder :=
  match pf_paths p !! source with
  | Some _ => p
  | None => p <| pf_paths ::= <[source := mkPathInfo path 0 now now None false]> |>
  end.

Definition reset_timeout (p : Pathfinder) (key : PublicKey) (now : Z) : Pathfinder :=
  match pf_paths p !! key with
  | Some info =>
      if negb (pi_broken info) then p <| pf_paths ::= <[key := info <| pi_last_refresh := now |> ]> |> else p
  | None => p
  end.

Definition refresh_if_coords_match (p : Pathfinder) (key : PublicKey) (from : list PeerPort) (now : Z)
    : Pathfinder :=
  match pf_paths p !! key with
  | Some info =>
      if negb (pi_broken info) && bool_decide (pi_path info = from) then reset_timeout p key now else p
  | None => p
  end.

Definition cache_rumor_traffic_if_absent (p : Pathfinder) (xformed_dest : PublicKey)
    (traffic : TrafficPacket) : Pathfinder :=
  p <| pf_rumors ::= alter (fun r =>
    match ru_traffic r with None => r <| ru_traffic := Some traffic |> | Some _ => r end) xformed_dest |>.

Definition get_path (p : Pathfinder) (dest : PublicKey) : option (list PeerPort) :=
  info ← pf_paths p !! dest;
  if pi_broken info then None else Some (pi_path info).

Definition needs_traffic_cache (p : Pathfinder) (dest : PublicKey) : bool :=
  match pf_paths p !! dest with
  | Some info => match pi_cached_traffic info with None => true | Some _ => false end
  | None => false
  end.

Definition cache_traffic (p : Pathfinder) (dest : PublicKey) (traffic : TrafficPacket) : Pathfinder :=
  p <| pf_paths ::= alter (fun i => i <| pi_cached_traffic := Some traffic |>) dest |>.

Definition expiry_base (r : PathRumor) : Z := default (ru_created r) (ru_send_time r).

Definition cleanup_expired (p : Pathfinder) (path_timeout now : Z) : Pathfinder :=
  mkPathfinder (pf_info p)
    (filter (fun '(_, info) => elapsed now (pi_last_refresh info) < path_timeout) (pf_paths p))
    (filter (fun '(_, rumor) => elapsed now (expiry_base rumor) < path_timeout) (pf_rumors p)).

Definition rumors_needing_retry `{HashOrder} (p : Pathfinder) : list PublicKey :=
  List.filter (fun dest => match pf_paths p !! dest with Some info => pi_broken info | None => true end)
    (omap (fun rumor => tp_dest <$> ru_traffic rumor) (map_values (pf_rumors p))).

(** ** Sequences of operations *)

(** Every operation that changes the pathfinder. *)
Inductive pf_op :=
| PfMarkLookup (dest : PublicKey) (now : Z)
| PfEnsureRumor (x : PublicKey) (now : Z)
| PfMarkRumorSent (x : PublicKey) (now : Z)
| PfMarkRumorRetry (x : PublicKey) (now : Z)
| PfCacheRumor (x : PublicKey) (t : TrafficPacket)
| PfCacheRumorIfAbsent (x : PublicKey) (t : TrafficPacket)
| PfAcceptNotify (source xformed : PublicKey) (seq : Z) (path : list PeerPort) (now : Z)
| PfBroken (dest : PublicKey)
| PfLearn (source : PublicKey) (path : list PeerPort) (now : Z)
| PfRefresh (key : PublicKey) (from : list PeerPort) (now : Z)
| PfCacheTraffic (dest : PublicKey) (t : TrafficPacket)
| PfCleanup (path_timeout now : Z).

Definition pf_apply (op : pf_op) (p : Pathfinder) : Pathfinder :=
  match op with
  | PfMarkLookup dest now => mark_lookup_sent p dest now
  | PfEnsureRumor x now => (ensure_rumor p x now).2
  | PfMarkRumorSent x now => mark_rumor_sent p x now
  | PfMarkRumorRetry x now => mark_rumor_retry p x now
  | PfCacheRumor x t => cache_rumor_traffic p x t
  | PfCacheRumorIfAbsent x t => cache_rumor_traffic_if_absent p x t
  | PfAcceptNotify source xformed seq path now => (accept_notify p source xformed seq path now).2
  | PfBroken dest => Pathfinder_handle_broken p dest
  | PfLearn source path now => learn_path_from_traffic p source path now
  | PfRefresh key from now => refresh_if_coords_match p key from now
  | PfCacheTraffic dest t => cache_traffic p dest t
  | PfCleanup path_timeout now => cleanup_expired p path_timeout now
  end.

Definition pf_run (ops : list pf_op) (p : Pathfinder) : Pathfinder := foldl (fun p op => pf_apply op p) p ops.

(** ** Paths *)

(** [i'] is [i] up to its timers and its cached packet. *)
Definition same_route (i i' : PathInfo) : Prop :=
  pi_path i' = pi_path i /\ pi_seq i' = pi_seq i /\ pi_broken i' = pi_broken i.

(** What one operation may do to a cached path. *)
Definition path_change (op : pf_op) (k : PublicKey) (i i' : PathInfo) : Prop :=
  same_route i i'
  \/ (op = PfBroken k /\ i' = i <| pi_broken := true |>)
  \/ (exists x seq path now, op = PfAcceptNotify k x seq path now
        /\ pi_seq i < seq /\ (pi_broken i = true \/ pi_path i <> path)
        /\ pi_path i' = path /\ pi_seq i' = seq /\ pi_broken i' = false /\ pi_last_refresh i' = now).

Lemma alter_change {A} (f : A -> A) (m : gmap PublicKey A) dest k i i' :
  m !! k = Some i -> alter f dest m !! k = Some i' -> i' = i \/ (k = dest /\ i' = f i).
Proof.
  intros Hi. destruct (decide (dest = k)) as [->|Hne].
  - rewrite lookup_alter_eq, Hi. intros [= <-]. by right.
  - rewrite lookup_alter_ne by done. rewrite Hi. intros [= <-]. by left.
Qed.

Lemma accept_notify_paths p source x seq path now k i i' :
  pf_paths p !! k = Some i -> pf_paths (accept_notify p source x seq path now).2 !! k = Some i' ->
  i' = i \/ path_change (PfAcceptNotify source x seq path now) k i i'.
Proof.
  unfold accept_notify. intros Hi. destruct (pf_paths p !! source) as [j|] eqn:Hs.
  - destruct (Z.leb_spec seq (pi_seq j)) as [?|Hlt]; [by intros Hk; simpl in Hk; left; congruence|].
    destruct (negb (pi_broken j) && bool_decide (pi_path j = path)) eqn:Hc;
      [by intros Hk; simpl in Hk; left; congruence|].
    unfold set_field. simpl. destruct (decide (source = k)) as [->|Hne].
    + rewrite lookup_insert_eq. intros [= <-]. right. right. right. rewrite Hi in Hs. injection Hs as <-.
      exists x, seq, path, now. split_and!; try done.
      apply andb_false_iff in Hc as [Hc|Hc]; [by left; destruct (pi_broken i)|right].
      by apply bool_decide_eq_false in Hc.
    + rewrite lookup_insert_ne by done. intros Hk. left. congruence.
  - assert (source <> k) by congruence. destruct (pf_rumors p !! x) as [ru|].
    + destruct (ru_traffic ru); [case_decide|]; unfold set_field; simpl;
        rewrite lookup_insert_ne by done; intros Hk; left; congruence.
    + intros Hk. left. simpl in Hk. congruence.
Qed.

Lemma reset_timeout_paths p key now k i i' :
  pf_paths p !! k = Some i -> pf_paths (reset_timeout p key now) !! k = Some i' -> same_route i i'.
Proof.
  unfold reset_timeout. intros Hi. destruct (pf_paths p !! key) as [j|] eqn:Hk;
    [|intros Hx; assert (i' = i) as -> by congruence; done].
  destruct (negb _); [|intros Hx; assert (i' = i) as -> by congruence; done].
  unfold set_field. simpl. destruct (decide (key = k)) as [->|Hne].
  - rewrite lookup_insert_eq. intros [= <-]. rewrite Hi in Hk. by injection Hk as ->.
  - rewrite lookup_insert_ne by done. intros Hx. assert (i' = i) as -> by congruence. done.
Qed.

Lemma pf_apply_paths op p k i i' :
  pf_paths p !! k = Some i -> pf_paths (pf_apply op p) !! k = Some i' -> path_change op k i i'.
Proof.
  intros Hi Hi'. assert (Hrefl : i' = i -> path_change op k i i') by (intros ->; by left).
  destruct op as [| | | | | |source x seq path now|dest|source path now|key from now|dest t|tmo now];
    simpl in Hi'.
  - destruct (alter_change _ _ _ _ _ _ Hi Hi') as [?|[_ ->]]; [auto|by left].
  - apply Hrefl. unfold ensure_rumor in Hi'. destruct (pf_rumors p !! x); simpl in Hi'; congruence.
  - apply Hrefl. simpl in Hi'. congruence.
  - apply Hrefl. simpl in Hi'. congruence.
  - apply Hrefl. simpl in Hi'. congruence.
  - apply Hrefl. simpl in Hi'. congruence.
  - destruct (accept_notify_paths _ _ _ _ _ _ _ _ _ Hi Hi'); auto.
  - destruct (alter_change _ _ _ _ _ _ Hi Hi') as [?|[-> ->]]; [auto|]. right. by left.
  - unfold learn_path_from_traffic in Hi'. destruct (pf_paths p !! source) as [j|] eqn:Hs; [apply Hrefl; congruence|].
    apply Hrefl. unfold set_field in Hi'. simpl in Hi'. rewrite lookup_insert_ne in Hi' by congruence. congruence.
  - unfold refresh_if_coords_match in Hi'. destruct (pf_paths p !! key) as [j|]; [|apply Hrefl; congruence].
    destruct (_ && _); [|apply Hrefl; congruence]. left. by eapply reset_timeout_paths.
  - destruct (alter_change _ _ _ _ _ _ Hi Hi') as [?|[_ ->]]; [auto|by left].
  - apply Hrefl. apply map_lookup_filter_Some in Hi' as [Hi' _]. congruence.
Qed.

(** Where a new cached path comes from. *)
Lemma pf_apply_new_path op p k i' :
  pf_paths p !! k = None -> pf_paths (pf_apply op p) !! k = Some i' ->
  (exists path now, op = PfLearn k path now /\ i' = mkPathInfo path 0 now now None false)
  \/ (exists x seq path now, op = PfAcceptNotify k x seq path now /\ is_Some (pf_rumors p !! x)
        /\ i' = mkPathInfo path seq now now None false).
Proof.
  intros Hk Hi'. assert (Halter : forall (f : PathInfo -> PathInfo) d, alter f d (pf_paths p) !! k = None).
  { intros f d. destruct (decide (d = k)) as [->|]; [by rewrite lookup_alter_eq, Hk|by rewrite lookup_alter_ne]. }
  destruct op as [| | | | | |source x seq path now|dest|source path now|key from now|dest t|tmo now];
    simpl in Hi'; try congruence; try (rewrite Halter in Hi'; done).
  - unfold ensure_rumor in Hi'. destruct (pf_rumors p !! x); simpl in Hi'; congruence.
  - unfold accept_notify in Hi'. destruct (pf_paths p !! source) as [j|] eqn:Hs.
    + destruct (_ <=? _); [simpl in Hi'; congruence|]. destruct (_ && _); [simpl in Hi'; congruence|].
      unfold set_field in Hi'. simpl in Hi'. rewrite lookup_insert_ne in Hi' by congruence. congruence.
    + destruct (pf_rumors p !! x) as [ru|] eqn:Hr; [|simpl in Hi'; congruence]. right.
      assert (Hpaths : <[source:=mkPathInfo path seq now now None false]> (pf_paths p) !! k = Some i').
      { destruct (ru_traffic ru); [case_decide|]; exact Hi'. }
      destruct (decide (source = k)) as [->|Hne].
      * rewrite lookup_insert_eq in Hpaths. injection Hpaths as <-. exists x, seq, path, now. by rewrite Hr.
      * rewrite lookup_insert_ne in Hpaths by done. congruence.
  - unfold learn_path_from_traffic in Hi'. destruct (pf_paths p !! source) as [j|] eqn:Hs; [congruence|].
    left. unfold set_field in Hi'. simpl in Hi'. destruct (decide (source = k)) as [->|Hne].
    + rewrite lookup_insert_eq in Hi'. injection Hi' as <-. by exists path, now.
    + rewrite lookup_insert_ne in Hi' by done. congruence.
  - unfold refresh_if_coords_match, reset_timeout in Hi'. destruct (pf_paths p !! key) as [j|] eqn:Hs; [|congruence].
    destruct (_ && _); [|congruence]. destruct (negb _); [|congruence]. unfold set_field in Hi'. simpl in Hi'.
    rewrite lookup_insert_ne in Hi' by congruence. congruence.
  - apply map_lookup_filter_Some in Hi' as [Hi' _]. congruence.
Qed.

(** ** Rumors *)

(** The operations by which the application keeps a rumor alive. *)
Definition keeps_rumor (x : PublicKey) (op : pf_op) : Prop :=
  match op with
  | PfEnsureRumor y _ | PfMarkRumorSent y _ => y = x
  | _ => False
  end.

Lemma alter_base (f : PathRumor -> PathRumor) (m : gmap PublicKey PathRumor) dest x r r' :
  (forall r, expiry_base (f r) = expiry_base r) ->
  m !! x = Some r -> alter f dest m !! x = Some r' -> expiry_base r' = expiry_base r.
Proof.
  intros Hf Hr. destruct (decide (dest = x)) as [->|Hne].
  - rewrite lookup_alter_eq, Hr. intros [= <-]. apply Hf.
  - rewrite lookup_alter_ne by done. congruence.
Qed.

Lemma pf_apply_rumor op p x r' :
  ~ keeps_rumor x op -> pf_rumors (pf_apply op p) !! x = Some r' ->
  exists r, pf_rumors p !! x = Some r /\ expiry_base r' = expiry_base r.
Proof.
  intros Hop Hr'. destruct (pf_rumors p !! x) as [r|] eqn:Hr.
  - exists r. split; [done|].
    destruct op as [| |y|y|y|y t|source y seq path now|dest|source path now|key from now|dest t|tmo now];
      simpl in Hr', Hop.
    + congruence.
    + unfold ensure_rumor in Hr'. destruct (pf_rumors p !! x0) eqn:Hx; simpl in Hr'; [congruence|].
      rewrite lookup_insert_ne in Hr' by done. congruence.
    + unfold mark_rumor_sent, set_field in Hr'. simpl in Hr'. rewrite lookup_alter_ne in Hr' by done. congruence.
    + eapply alter_base; [|exact Hr|exact Hr']. done.
    + eapply alter_base; [|exact Hr|exact Hr']. done.
    + eapply alter_base; [|exact Hr|exact Hr']. intros r0. simpl. by destruct (ru_traffic r0).
    + unfold accept_notify in Hr'. destruct (pf_paths p !! source) as [j|].
      * destruct (_ <=? _); [simpl in Hr'; congruence|]. destruct (_ && _); simpl in Hr'; congruence.
      * destruct (pf_rumors p !! y) as [ru|] eqn:Hy; [|simpl in Hr'; congruence].
        assert (Hins : exists ru', expiry_base ru' = expiry_base ru /\ <[y := ru']> (pf_rumors p) !! x = Some r').
        { destruct (ru_traffic ru) as [t|]; [case_decide|];
            [exists (ru <| ru_traffic := None |>)|exists ru|exists ru]; (split; [done|exact Hr']). }
        destruct Hins as (ru' & Hb & Hl). destruct (decide (y = x)) as [->|Hne].
        -- rewrite lookup_insert_eq in Hl. injection Hl as <-. congruence.
        -- rewrite lookup_insert_ne in Hl by done. congruence.
    + simpl in Hr'. congruence.
    + unfold learn_path_from_traffic in Hr'. destruct (pf_paths p !! source); simpl in Hr'; congruence.
    + unfold refresh_if_coords_match, reset_timeout in Hr'. repeat case_match; simpl in Hr'; congruence.
    + simpl in Hr'. congruence.
    + apply map_lookup_filter_Some in Hr' as [Hr' _]. congruence.
  - exfalso. assert (Halter : forall (f : PathRumor -> PathRumor) d, alter f d (pf_rumors p) !! x = None).
    { intros f d. destruct (decide (d = x)) as [->|]; [by rewrite lookup_alter_eq, Hr|by rewrite lookup_alter_ne]. }
    destruct op as [| |y|y|y|y t|source y seq path now|dest|source path now|key from now|dest t|tmo now];
      simpl in Hr', Hop; try congruence; try (rewrite Halter in Hr'; done).
    + unfold ensure_rumor in Hr'. destruct (pf_rumors p !! x0) eqn:Hx; simpl in Hr'; [congruence|].
      rewrite lookup_insert_ne in Hr' by done. congruence.
    + unfold accept_notify in Hr'. destruct (pf_paths p !! source) as [j|].
      * destruct (_ <=? _); [simpl in Hr'; congruence|]. destruct (_ && _); simpl in Hr'; congruence.
      * destruct (pf_rumors p !! y) as [ru|] eqn:Hy; [|simpl in Hr'; congruence].
        destruct (ru_traffic ru) as [t|]; [case_decide|]; unfold set_field in Hr'; simpl in Hr';
          rewrite lookup_insert_ne in Hr' by congruence; congruence.
    + unfold learn_path_from_traffic in Hr'. destruct (pf_paths p !! source); simpl in Hr'; congruence.
    + unfold refresh_if_coords_match, reset_timeout in Hr'. repeat case_match; simpl in Hr'; congruence.
    + apply map_lookup_filter_Some in Hr' as [Hr' _]. congruence.
Qed.

Lemma pf_run_rumor ops p x r' :
  Forall (fun op => ~ keeps_rumor x op) ops -> pf_rumors (pf_run ops p) !! x = Some r' ->
  exists r, pf_rumors p !! x = Some r /\ expiry_base r' = expiry_base r.
Proof.
  unfold pf_run. revert p. induction ops as [|op ops IH]; intros p Hops Hr'; [by exists r'|].
  inversion_clear Hops as [|? ? Hop Hops']. simpl in Hr'. apply IH in Hr' as (r1 & Hr1 & Hb1); [|done].
  apply pf_apply_rumor in Hr1 as (r & Hr & Hb); [|done]. exists r. split; [done|congruence].
Qed.

(** ** Properties *)

(** How a cached path may change. In one step of any operation the cached
    path of a destination keeps its coordinates, its sequence number and its
    broken flag, except that a broken notification sets the flag, and that an
    accepted path notification for that destination, with a strictly greater
    sequence number and either new coordinates or a broken entry, replaces the
    coordinates and clears the flag. In particular traffic headers, which are
    not signed, never overwrite or revive an entry. *)
Theorem path_update_rules op p k i i'
    (Hi : pf_paths p !! k = Some i) (Hi' : pf_paths (pf_apply op p) !! k = Some i') :
  path_change op k i i'.
Proof. by eapply pf_apply_paths. Qed.

(** Where cached paths come from. After any sequence of operations on an
    empty cache, a cached path with its sequence number was the content of an
    accepted notification for that destination, or has sequence number 0 and
    was read from traffic of that destination; sequence number 0 loses against
    any later notification. *)
Theorem path_cache_provenance info ops k i
    (Hi : pf_paths (pf_run ops (mkPathfinder info ∅ ∅)) !! k = Some i) :
  (exists x now, PfAcceptNotify k x (pi_seq i) (pi_path i) now ∈ ops)
  \/ (pi_seq i = 0 /\ exists now, PfLearn k (pi_path i) now ∈ ops).
Proof.
  unfold pf_run in Hi. revert i Hi. induction ops as [|op ops IH] using rev_ind; intros i Hi; [done|].
  rewrite foldl_app in Hi. simpl in Hi. set (p := foldl _ _ ops) in *.
  assert (Hold : forall j, pf_paths p !! k = Some j ->
    (exists x now, PfAcceptNotify k x (pi_seq j) (pi_path j) now ∈ ops ++ [op])
    \/ (pi_seq j = 0 /\ exists now, PfLearn k (pi_path j) now ∈ ops ++ [op])).
  { intros j [(x & now & Hin)|(Hz & now & Hin)]%IH.
    - left. exists x, now. apply elem_of_app. by left.
    - right. split; [done|]. exists now. apply elem_of_app. by left. }
  assert (Hlast : op ∈ ops ++ [op]) by (apply elem_of_app; right; left).
  destruct (pf_paths p !! k) as [j|] eqn:Hj.
  - destruct (pf_apply_paths op p k j i Hj Hi) as [(-> & -> & _)|[[_ ->]|(x & seq & path & now & -> & _ & _ & -> & -> & _)]].
    + by apply Hold.
    + by apply (Hold j).
    + left. by exists x, now.
  - destruct (pf_apply_new_path op p k i Hj Hi) as [(path & now & -> & ->)|(x & seq & path & now & -> & _ & ->)].
    + right. split; [done|]. by exists now.
    + left. by exists x, now.
Qed.

(** Maintenance retries do not keep a rumor alive. Whatever happens to the
    pathfinder short of an application write for [x], retries included, a rumor
    is gone at the first cleanup [path_timeout] after its last application
    lookup (or its creation). *)
Theorem rumor_lifetime_bounded ops p x r path_timeout now
    (Hr : pf_rumors p !! x = Some r)
    (Hops : Forall (fun op => ~ keeps_rumor x op) ops)
    (Hlate : expiry_base r + path_timeout <= now) :
  pf_rumors (cleanup_expired (pf_run ops p) path_timeout now) !! x = None.
Proof.
  apply map_lookup_filter_None. right. intros r' Hr' Hlt.
  apply pf_run_rumor in Hr' as (r0 & Hr0 & Hb); [|done]. rewrite Hr in Hr0. injection Hr0 as <-.
  unfold elapsed in Hlt. lia.
Qed.

(** ** Witnesses *)

Definition sample_dest : PublicKey := replicate PUBLIC_KEY_SIZE 5.
Definition sample_notify_ops : list pf_op :=
  [PfLearn sample_dest [4] 1; PfAcceptNotify sample_dest sample_dest 9 [7; 8] 2].

Lemma path_update_rules_witness :
  let p := pf_run [PfLearn sample_dest [4] 1] (mkPathfinder OwnPathInfo_new ∅ ∅) in
  let op := PfAcceptNotify sample_dest sample_dest 9 [7; 8] 2 in
  path_change op sample_dest (mkPathInfo [4] 0 1 1 None false) (mkPathInfo [7; 8] 9 1 2 None false).
Proof.
  intros p op. apply (path_update_rules op p sample_dest); reflexivity.
Defined.

Lemma path_cache_provenance_witness :
  exists x now, PfAcceptNotify sample_dest x 9 [7; 8] now ∈ sample_notify_ops.
Proof.
  destruct (path_cache_provenance OwnPathInfo_new sample_notify_ops sample_dest
    (mkPathInfo [7; 8] 9 1 2 None false) eq_refl) as [(x & now & Hin)|[Hz _]]; [by exists x, now|done].
Defined.

Lemma rumor_lifetime_bounded_witness :
  pf_rumors (cleanup_expired (pf_run [PfMarkRumorRetry sample_dest 50]
    (mkPathfinder OwnPathInfo_new ∅ {[ sample_dest := mkPathRumor None None None 0 ]})) 60 61)
    !! sample_dest = None.
Proof.
  apply (rumor_lifetime_bounded [PfMarkRumorRetry sample_dest 50]
    (mkPathfinder OwnPathInfo_new ∅ {[ sample_dest := mkPathRumor None None None 0 ]})
    sample_dest (mkPathRumor None None None 0) 60 61).
  - reflexivity.
  - apply Forall_singleton. intros [].
  - vm_compute. discriminate.
Defined.
