(* ===== verification/Tree.v ===== *)
(** * Tree: the spanning tree embedding

    Models the parts of [crates/ironwood/src/router.rs] that only read the
    [infos] map: the announcement with its signatures, the walks to the root
    ([get_root_and_dists], [get_root_and_path], [backwards_ancestry]), the tree
    distance of [get_dist], and the ordering of announcements in [update]. *)

From S2P Require Import Prelude.
From S2P Require Import Wire.
From S2P Require Import Crypto.
From stdpp Require Import options.
Open Scope Z_scope.

Record RouterInfo := mkRouterInfo {
  ri_parent : PublicKey;
  ri_seq : Z;
  ri_nonce : Z;
  ri_port : PeerPort;
  ri_psig : Sig;
  ri_sig : Sig
}.
#[export] Instance RouterInfo_eq_dec : EqDecision RouterInfo.
Proof. solve_decision. Defined.

Record RouterAnnounce := mkRouterAnnounce {
  ra_key : PublicKey;
  ra_parent : PublicKey;
  ra_seq : Z;
  ra_nonce : Z;
  ra_port : PeerPort;
  ra_psig : Sig;
  ra_sig : Sig
}.

Definition get_announce (i : RouterInfo) (key : PublicKey) : RouterAnnounce :=
  mkRouterAnnounce key (ri_parent i) (ri_seq i) (ri_nonce i) (ri_port i) (ri_psig i) (ri_sig i).

Definition sig_res_bytes_for_sig (node parent : PublicKey) (seq nonce : Z) (port : PeerPort) : bytes :=
  encode_uvarint (encode_uvarint (encode_uvarint (node ++ parent) seq) nonce) port.

Definition RouterAnnounce_bytes_for_sig (a : RouterAnnounce) : bytes :=
  encode_uvarint (encode_uvarint (encode_uvarint (ra_key a ++ ra_parent a) (ra_seq a)) (ra_nonce a))
    (ra_port a).

Definition RouterAnnounce_check `{Dalek} (a : RouterAnnounce) : bool :=
  if (ra_port a =? 0) && negb (bool_decide (ra_key a = ra_parent a)) then false
  else
    let bs := RouterAnnounce_bytes_for_sig a in
    verify (ra_key a) bs (ra_sig a) && verify (ra_parent a) bs (ra_psig a).

Definition check_sig_res `{Dalek} (res : SigRes) (node parent : PublicKey) : bool :=
  if (sigres_port res =? 0) && negb (bool_decide (node = parent)) then false
  else verify parent (sig_res_bytes_for_sig node parent (sigres_seq res) (sigres_nonce res) (sigres_port res))
         (sigres_psig res).

Definition to_wire (a : RouterAnnounce) : Announce :=
  mkAnnounce (ra_key a) (ra_parent a)
    (mkSigRes (ra_seq a) (ra_nonce a) (ra_port a) (ra_psig a)) (ra_sig a).

Definition from_wire (a : Announce) : RouterAnnounce :=
  mkRouterAnnounce (ann_key a) (ann_parent a) (sigres_seq (ann_sig_res a)) (sigres_nonce (ann_sig_res a))
    (sigres_port (ann_sig_res a)) (sigres_psig (ann_sig_res a)) (ann_sig a).

Abbreviation Infos := (gmap PublicKey RouterInfo) (only parsing).

(** ** Walks to the root

    A walk never visits a key twice, so [S (size infos)] rounds are enough. *)

Definition zero_key : PublicKey := replicate PUBLIC_KEY_SIZE 0.

Fixpoint root_and_dists_loop (fuel : nat) (infos : Infos) (dists : gmap PublicKey Z)
    (next : PublicKey) (dist : Z) : option (PublicKey * gmap PublicKey Z * bool) :=
  match fuel with
  | O => None
  | S fuel =>
      if decide (is_Some (dists !! next)) then Some (zero_key, dists, false)
      else
        match infos !! next with
        | None => Some (zero_key, dists, false)
        | Some info =>
            let dists := <[next := dist]> dists in
            if decide (ri_parent info = next) then Some (next, dists, true)
            else root_and_dists_loop fuel infos dists (ri_parent info) (dist + 1)
        end
  end.

Definition get_root_and_dists (infos : Infos) (dest : PublicKey) : PublicKey * gmap PublicKey Z * bool :=
  default (zero_key, ∅, false) (root_and_dists_loop (S (size infos)) infos ∅ dest 0).

(** [None] is a loop or a dead end. *)
Fixpoint root_and_path_loop (fuel : nat) (infos : Infos) (visited : gset PublicKey)
    (ports : list PeerPort) (next : PublicKey) : option (option (PublicKey * list PeerPort)) :=
  match fuel with
  | O => None
  | S fuel =>
      if decide (next ∈ visited) then Some None
      else
        match infos !! next with
        | None => Some None
        | Some info =>
            let visited := {[next]} ∪ visited in
            if decide (next = ri_parent info) then Some (Some (next, reverse ports))
            else root_and_path_loop fuel infos visited (ports ++ [ri_port info]) (ri_parent info)
        end
  end.

Definition get_root_and_path (infos : Infos) (dest : PublicKey) : PublicKey * list PeerPort :=
  match root_and_path_loop (S (size infos)) infos ∅ [] dest with
  | Some (Some (root, ports)) => (root, ports)
  | _ => (dest, [])
  end.

Fixpoint backwards_ancestry_loop (fuel : nat) (infos : Infos) (anc : list PublicKey)
    (here : PublicKey) : option (list PublicKey) :=
  match fuel with
  | O => None
  | S fuel =>
      if decide (here ∈ anc) then Some anc
      else
        match infos !! here with
        | Some info => backwards_ancestry_loop fuel infos (anc ++ [here]) (ri_parent info)
        | None => Some anc
        end
  end.

Definition backwards_ancestry (infos : Infos) (key : PublicKey) : list PublicKey :=
  default [] (backwards_ancestry_loop (S (size infos)) infos [] key).

Definition get_ancestry (infos : Infos) (key : PublicKey) : list PublicKey :=
  reverse (backwards_ancestry infos key).

(** The loop of [get_dist]: [dist -= 2] per common hop, on [u64]. *)
Fixpoint path_dist_loop (dist : Z) (key_path dest_path : list PeerPort) : Z :=
  match key_path, dest_path with
  | a :: key_path, b :: dest_path =>
      if a =? b then path_dist_loop (wrap64 (dist - 2)) key_path dest_path else dist
  | _, _ => dist
  end.

Definition path_dist (dest_path key_path : list PeerPort) : Z :=
  path_dist_loop (Z.of_nat (length key_path + length dest_path)) key_path dest_path.

(** ** The order of announcements

    [update] accepts the announcement [a] over the stored [i]. *)
Definition ann_supersedes (i : RouterInfo) (a : RouterAnnounce) : bool :=
  if ri_seq i >? ra_seq a then false
  else if ri_seq i <? ra_seq a then true
  else if decide (bytes_lt (ri_parent i) (ra_parent a)) then false
  else if decide (bytes_lt (ra_parent a) (ri_parent i)) then true
  else if ra_nonce a <? ri_nonce i then true
  else false.

Definition info_of (a : RouterAnnounce) : RouterInfo :=
  mkRouterInfo (ra_parent a) (ra_seq a) (ra_nonce a) (ra_port a) (ra_psig a) (ra_sig a).

(** The effect of [update] on [infos]: whether it accepts, and the new map. *)
Definition update_infos (infos : Infos) (a : RouterAnnounce) : bool * Infos :=
  match infos !! ra_key a with
  | Some i => if ann_supersedes i a then (true, <[ra_key a := info_of a]> infos) else (false, infos)
  | None => (true, <[ra_key a := info_of a]> infos)
  end.

(** ** Reference: the walk to the root *)

(** [walk infos k l r]: following parents from [k] visits [l] and ends at the
    root [r], its own parent. *)
Inductive walk (infos : Infos) : PublicKey -> list PublicKey -> PublicKey -> Prop :=
| walk_root k i : infos !! k = Some i -> ri_parent i = k -> walk infos k [k] k
| walk_step k i l r : infos !! k = Some i -> ri_parent i <> k ->
    walk infos (ri_parent i) l r -> walk infos k (k :: l) r.

(** The keys [p] were visited, in order, before [next]. *)
Inductive chain (infos : Infos) : list PublicKey -> PublicKey -> Prop :=
| chain_nil k : chain infos [] k
| chain_snoc p k i : chain infos p k -> infos !! k = Some i -> ri_parent i <> k ->
    chain infos (p ++ [k]) (ri_parent i).

Lemma walk_det infos k l r l' r' : walk infos k l r -> walk infos k l' r' -> l = l' /\ r = r'.
Proof.
  intros W. revert l' r'. induction W as [k i Hi Hp|k i l r Hi Hp _ IH]; intros l' r' W'.
  - inversion W' as [|? j ? ? Hj Hn]; subst; [done|]. congruence.
  - inversion W' as [? j Hj Hn|? j l2 r2 Hj Hn W2]; subst; [congruence|].
    assert (j = i) as -> by congruence. destruct (IH _ _ W2) as [-> ->]. done.
Qed.

Lemma chain_walk infos p next l r j x :
  chain infos p next -> walk infos next l r -> p !! j = Some x -> walk infos x (drop j p ++ l) r.
Proof.
  intros C. revert l j. induction C as [|p k i C IH Hi Hp]; intros l j W Hj; [done|].
  pose proof (walk_step _ _ _ _ _ Hi Hp W) as Wk. apply lookup_snoc_Some in Hj as [[Hlt Hj]|[-> ->]].
  - rewrite drop_app_le, <- app_assoc by lia. by apply IH.
  - by rewrite drop_app_length.
Qed.

(** A walk that comes back to a visited key never reaches a root. *)
Lemma chain_loop infos p next l r : chain infos p next -> next ∈ p -> ~ walk infos next l r.
Proof.
  intros C [j Hj]%list_elem_of_lookup W. pose proof (chain_walk _ _ _ _ _ _ _ C W Hj) as W'.
  destruct (walk_det _ _ _ _ _ _ W W') as [Hl _]. apply lookup_lt_Some in Hj.
  apply (f_equal length) in Hl. rewrite length_app, length_drop in Hl. lia.
Qed.

Lemma chain_dom infos p next : chain infos p next -> Forall (fun x => x ∈ dom infos) p.
Proof.
  induction 1 as [|p k i _ IH Hi _]; [constructor|]. apply Forall_app. split; [done|].
  apply Forall_singleton. by eapply elem_of_dom_2.
Qed.

Lemma nodup_dom_length (infos : Infos) p :
  NoDup p -> Forall (fun x => x ∈ dom infos) p -> (length p <= size infos)%nat.
Proof.
  intros Hnd Hall. rewrite <- size_dom. rewrite <- (size_list_to_set (C := gset PublicKey) p) by done.
  apply subseteq_size. intros x Hx%elem_of_list_to_set. rewrite Forall_forall in Hall. by apply Hall.
Qed.

(** Visiting one more known key keeps the visited list within the map. *)
Lemma chain_room infos p next i :
  chain infos p next -> NoDup p -> (next ∉ p) -> infos !! next = Some i ->
  NoDup (p ++ [next]) /\ (length p < size infos)%nat.
Proof.
  intros C Hnd Hn Hi. assert (Hnd' : NoDup (p ++ [next])).
  { apply NoDup_app. split_and!; [done| |apply NoDup_singleton]. intros x Hx ->%list_elem_of_singleton. done. }
  split; [done|]. assert (length (p ++ [next]) <= size infos)%nat; [|rewrite length_app in *; simpl in *; lia].
  apply nodup_dom_length; [done|]. apply Forall_app. split; [by eapply chain_dom|].
  apply Forall_singleton. by eapply elem_of_dom_2.
Qed.

(** [dists] holds the position of every visited key. *)
Definition indexes (dists : gmap PublicKey Z) (p : list PublicKey) : Prop :=
  forall x n, dists !! x = Some n <-> exists j, p !! j = Some x /\ n = Z.of_nat j.

Lemma indexes_snoc dists p x :
  indexes dists p -> (x ∉ p) -> indexes (<[x := Z.of_nat (length p)]> dists) (p ++ [x]).
Proof.
  intros Hd Hx y n. destruct (decide (x = y)) as [<-|Hne].
  - rewrite lookup_insert_eq. split.
    + intros [= <-]. exists (length p). by rewrite list_lookup_middle.
    + intros (j & [[Hlt Hj]|[-> _]]%lookup_snoc_Some & ->); [|done].
      by apply list_elem_of_lookup_2 in Hj.
  - rewrite lookup_insert_ne by done. rewrite (Hd y n). split; intros (j & Hj & ->); exists j; (split; [|done]).
    + by apply lookup_app_l_Some.
    + by apply lookup_snoc_Some in Hj as [[_ ?]|[_ ?]].
Qed.

Lemma indexes_elem dists p x : indexes dists p -> is_Some (dists !! x) <-> x ∈ p.
Proof.
  intros Hd. rewrite list_elem_of_lookup. split.
  - intros [n (j & Hj & _)%Hd]. by exists j.
  - intros [j Hj]. exists (Z.of_nat j). apply Hd. by exists j.
Qed.

Lemma root_and_dists_loop_spec infos fuel p next dists :
  chain infos p next -> NoDup p -> indexes dists p -> (size infos - length p < fuel)%nat ->
  exists r d v, root_and_dists_loop fuel infos dists next (Z.of_nat (length p)) = Some (r, d, v)
    /\ (if v : bool then exists l, walk infos next l r /\ NoDup (p ++ l) /\ indexes d (p ++ l)
        else forall l r, ~ walk infos next l r).
Proof.
  revert p next dists. induction fuel as [|fuel IH]; intros p next dists C Hnd Hd Hf; [lia|]. simpl.
  case_decide as Hin.
  { do 3 eexists. split; [done|]. intros l r. eapply chain_loop; [done|]. by apply (indexes_elem dists). }
  rewrite indexes_elem in Hin by done. destruct (infos !! next) as [i|] eqn:Hi.
  2: { do 3 eexists. split; [done|]. intros l r W. inversion W; congruence. }
  destruct (chain_room _ _ _ _ C Hnd Hin Hi) as [Hnd' Hroom].
  pose proof (indexes_snoc dists p next Hd Hin) as Hd'. case_decide as Hp.
  - do 3 eexists. split; [done|]. exists [next]. split; [by eapply walk_root|done].
  - destruct (IH (p ++ [next]) (ri_parent i) (<[next := Z.of_nat (length p)]> dists)) as (r & d & v & Hl & Hv).
    + by apply chain_snoc.
    + done.
    + done.
    + rewrite length_app. simpl. lia.
    + rewrite length_app in Hl. simpl in Hl. replace (Z.of_nat (length p + 1)) with (Z.of_nat (length p) + 1) in Hl by lia.
      exists r, d, v. split; [done|]. destruct v.
      * destruct Hv as (l & W & Hn & Hx). exists (next :: l). rewrite <- app_assoc in Hn, Hx.
        split_and!; [by eapply walk_step|done|done].
      * intros l r' W. inversion W as [? j Hj Hn|? j l2 r2 Hj Hn W2]; subst; [congruence|].
        assert (j = i) as -> by congruence. by eapply Hv.
Qed.

Lemma get_root_and_dists_spec infos k :
  exists r d v, get_root_and_dists infos k = (r, d, v)
    /\ (if v : bool then exists l, walk infos k l r /\ NoDup l /\ indexes d l
        else forall l r, ~ walk infos k l r).
Proof.
  destruct (root_and_dists_loop_spec infos (S (size infos)) [] k ∅) as (r & d & v & Hl & Hv).
  - constructor.
  - constructor.
  - intros x n. rewrite lookup_empty. split; [done|]. by intros (j & ? & _).
  - simpl. lia.
  - exists r, d, v. unfold get_root_and_dists. change (Z.of_nat (length [])) with 0 in Hl. by rewrite Hl.
Qed.

Lemma walk_nodup infos k l r : walk infos k l r -> NoDup l.
Proof.
  intros W. destruct (get_root_and_dists_spec infos k) as (r' & d & [] & _ & Hv).
  - destruct Hv as (l' & W' & Hn & _). by destruct (walk_det _ _ _ _ _ _ W W') as [-> _].
  - by apply Hv in W.
Qed.

(** Ports on the way, without the root's. *)
Definition ports_of (infos : Infos) (l : list PublicKey) : list PeerPort :=
  omap (fun k => ri_port <$> infos !! k) l.

Definition non_root (l : list PublicKey) : list PublicKey := take (length l - 1) l.

Lemma ports_of_snoc infos p k i : infos !! k = Some i -> ports_of infos (p ++ [k]) = ports_of infos p ++ [ri_port i].
Proof. intros Hi. unfold ports_of. rewrite omap_app. simpl. by rewrite Hi. Qed.

Lemma non_root_cons k l : l <> [] -> non_root (k :: l) = k :: non_root l.
Proof. unfold non_root. intros Hl. destruct l; [done|]. simpl. by rewrite Nat.sub_0_r. Qed.

Lemma walk_nonempty infos k l r : walk infos k l r -> l <> [].
Proof. by destruct 1. Qed.

Lemma root_and_path_loop_spec infos fuel p next visited :
  chain infos p next -> NoDup p -> (forall x, x ∈ visited <-> x ∈ p) -> (size infos - length p < fuel)%nat ->
  exists o, root_and_path_loop fuel infos visited (ports_of infos p) next = Some o
    /\ match o with
       | Some (r, ports) => exists l, walk infos next l r /\ ports = reverse (ports_of infos (p ++ non_root l))
       | None => forall l r, ~ walk infos next l r
       end.
Proof.
  revert p next visited. induction fuel as [|fuel IH]; intros p next visited C Hnd Hv Hf; [lia|]. simpl.
  case_decide as Hin.
  { eexists. split; [done|]. intros l r. eapply chain_loop; [done|]. by apply Hv. }
  rewrite Hv in Hin. destruct (infos !! next) as [i|] eqn:Hi.
  2: { eexists. split; [done|]. intros l r W. inversion W; congruence. }
  destruct (chain_room _ _ _ _ C Hnd Hin Hi) as [Hnd' Hroom]. case_decide as Hp.
  - eexists. split; [done|]. exists [next]. split; [by eapply walk_root|]. unfold non_root. simpl. by rewrite app_nil_r.
  - rewrite <- (ports_of_snoc infos p next i Hi).
    destruct (IH (p ++ [next]) (ri_parent i) ({[next]} ∪ visited)) as (o & Hl & Ho).
    + by apply chain_snoc.
    + done.
    + intros x. rewrite elem_of_union, elem_of_singleton, elem_of_app, list_elem_of_singleton, Hv. tauto.
    + rewrite length_app. simpl. lia.
    + exists o. split; [done|]. destruct o as [[r ports]|].
      * destruct Ho as (l & W & ->). exists (next :: l). split; [by eapply walk_step|].
        rewrite non_root_cons by (by eapply walk_nonempty). by rewrite <- app_assoc.
      * intros l r' W. inversion W as [? j Hj Hn|? j l2 r2 Hj Hn W2]; subst; [congruence|].
        assert (j = i) as -> by congruence. by eapply Ho.
Qed.

Lemma get_root_and_path_spec infos k :
  (exists l r, walk infos k l r /\ get_root_and_path infos k = (r, reverse (ports_of infos (non_root l))))
  \/ ((forall l r, ~ walk infos k l r) /\ get_root_and_path infos k = (k, [])).
Proof.
  destruct (root_and_path_loop_spec infos (S (size infos)) [] k ∅) as (o & Hl & Ho).
  - constructor.
  - constructor.
  - set_solver.
  - simpl. lia.
  - unfold get_root_and_path. change (ports_of infos []) with (@nil Z) in Hl. rewrite Hl. destruct o as [[r ports]|].
    + destruct Ho as (l & W & ->). left. by exists l, r.
    + right. done.
Qed.

Lemma walk_path infos k l r : walk infos k l r ->
  get_root_and_path infos k = (r, reverse (ports_of infos (non_root l))).
Proof.
  intros W. destruct (get_root_and_path_spec infos k) as [(l' & r' & W' & ->)|[Hno _]]; [|by apply Hno in W].
  by destruct (walk_det _ _ _ _ _ _ W W') as [-> ->].
Qed.

(** ** Tree distance *)

(** Length of the longest common prefix. *)
Fixpoint common (a b : list PeerPort) : nat :=
  match a, b with
  | x :: a, y :: b => if x =? y then S (common a b) else 0%nat
  | _, _ => 0%nat
  end.

Definition tree_dist (a b : list PeerPort) : Z :=
  Z.of_nat (length a) + Z.of_nat (length b) - 2 * Z.of_nat (common a b).

Lemma common_le a b : (common a b <= length a)%nat /\ (common a b <= length b)%nat.
Proof.
  revert b. induction a as [|x a IH]; intros [|y b]; simpl; try lia.
  destruct (x =? y); [|lia]. specialize (IH b). lia.
Qed.

Lemma common_sym a b : common a b = common b a.
Proof.
  revert b. induction a as [|x a IH]; intros [|y b]; simpl; try done.
  rewrite Z.eqb_sym. destruct (y =? x); [|done]. by rewrite IH.
Qed.

Lemma common_ultra a b c : (common a b `min` common b c <= common a c)%nat.
Proof.
  revert b c. induction a as [|x a IH]; intros [|y b] [|z c]; simpl; try lia.
  destruct (Z.eqb_spec x y), (Z.eqb_spec y z), (Z.eqb_spec x z); subst; try lia.
  specialize (IH b c). lia.
Qed.

Lemma common_full a b : common a b = length a -> common a b = length b -> a = b.
Proof.
  revert b. induction a as [|x a IH]; intros [|y b]; simpl; try done.
  destruct (Z.eqb_spec x y); [|done]. intros [= ?] [= ?]. subst. f_equal. by apply IH.
Qed.

Lemma path_dist_loop_spec a b d : 2 * Z.of_nat (common a b) <= d < 2 ^ 64 ->
  path_dist_loop d a b = d - 2 * Z.of_nat (common a b).
Proof.
  revert b d. induction a as [|x a IH]; intros [|y b] d Hd; simpl in *; try lia.
  destruct (x =? y); [|lia]. rewrite wrap64_id by (unfold is_u64; lia). rewrite IH by lia. lia.
Qed.

(** The source's loop computes the tree distance: [dist -= 2] never underflows. *)
Lemma path_dist_eq dest key : Z.of_nat (length dest + length key) < 2 ^ 64 ->
  path_dist dest key = tree_dist dest key.
Proof.
  intros Hl. unfold path_dist, tree_dist. pose proof (common_le key dest).
  rewrite path_dist_loop_spec by lia. rewrite (common_sym dest key). lia.
Qed.

Lemma tree_dist_zero a b : tree_dist a b = 0 <-> a = b.
Proof.
  unfold tree_dist. pose proof (common_le a b). split.
  - intros Hz. apply common_full; lia.
  - intros ->. enough (common b b = length b) by lia.
    induction b as [|x b IH]; simpl; [done|]. rewrite Z.eqb_refl. by rewrite IH by apply common_le.
Qed.

Lemma tree_dist_triangle a b c : tree_dist a c <= tree_dist a b + tree_dist b c.
Proof.
  unfold tree_dist. pose proof (common_ultra a b c). pose proof (common_le a b). pose proof (common_le b c). lia.
Qed.

(** One hop up or down the tree. *)
Lemma common_snoc_below dest a p : ~ (a ++ [p]) `prefix_of` dest -> common dest (a ++ [p]) = common dest a.
Proof.
  revert dest. induction a as [|x a IH]; intros [|y dest] Hn; simpl; try done.
  - destruct (Z.eqb_spec y p); [|done]. subst. destruct Hn. by exists dest.
  - destruct (Z.eqb_spec y x); [|done]. subst. f_equal. apply IH. intros Hp. apply Hn. by apply prefix_cons.
Qed.

Lemma common_prefix dest a : a `prefix_of` dest -> common dest a = length a.
Proof.
  intros [l ->]. induction a as [|x a IH]; simpl; [by destruct l|]. by rewrite Z.eqb_refl, IH.
Qed.

(** Going to the parent of a node that is not above [dest] comes one closer. *)
Lemma dist_up dest a p : ~ (a ++ [p]) `prefix_of` dest -> tree_dist dest a = tree_dist dest (a ++ [p]) - 1.
Proof. intros Hn. unfold tree_dist. rewrite common_snoc_below by done. rewrite length_app. simpl. lia. Qed.

(** Going to a child above [dest] comes one closer. *)
Lemma dist_down dest a p : (a ++ [p]) `prefix_of` dest -> tree_dist dest (a ++ [p]) = tree_dist dest a - 1.
Proof.
  intros Hp. assert (Ha : a `prefix_of` dest) by (etrans; [|exact Hp]; by eexists).
  unfold tree_dist. rewrite (common_prefix dest _ Hp), (common_prefix dest a Ha), length_app. simpl. lia.
Qed.

(** ** Coordinates along a walk *)

Definition coords (infos : Infos) (k : PublicKey) : list PeerPort := (get_root_and_path infos k).2.

Lemma coords_child infos k i l r :
  infos !! k = Some i -> ri_parent i <> k -> walk infos (ri_parent i) l r ->
  coords infos k = coords infos (ri_parent i) ++ [ri_port i].
Proof.
  intros Hi Hp W. unfold coords. rewrite (walk_path _ _ _ _ W), (walk_path _ _ _ _ (walk_step _ _ _ _ _ Hi Hp W)).
  simpl. rewrite non_root_cons by (by eapply walk_nonempty). unfold ports_of. simpl. rewrite Hi. simpl.
  by rewrite reverse_cons.
Qed.

Lemma coords_root infos k i : infos !! k = Some i -> ri_parent i = k -> coords infos k = [].
Proof. intros Hi Hp. unfold coords. by rewrite (walk_path _ _ _ _ (walk_root _ _ _ Hi Hp)). Qed.

(** Every ancestor's coordinates are a prefix of ours. *)
Lemma coords_ancestor infos k l r x : walk infos k l r -> x ∈ l -> coords infos x `prefix_of` coords infos k.
Proof.
  induction 1 as [k i Hi Hp|k i l r Hi Hp W IH]; intros Hx.
  - by apply list_elem_of_singleton in Hx as ->.
  - apply elem_of_cons in Hx as [->|Hx]; [done|]. rewrite (coords_child _ _ _ _ _ Hi Hp W).
    etrans; [by apply IH|]. by eexists.
Qed.

Lemma walk_suffix infos k l r x : walk infos k l r -> x ∈ l -> exists l', walk infos x l' r.
Proof.
  induction 1 as [k i Hi Hp|k i l r Hi Hp W IH]; intros Hx.
  - apply list_elem_of_singleton in Hx as ->. eexists. by eapply walk_root.
  - apply elem_of_cons in Hx as [->|Hx]; [eexists; by eapply walk_step|by apply IH].
Qed.

(** The child of an ancestor [k] of [d] that leads to [d]. *)
Lemma walk_child infos d l r k : walk infos d l r -> k ∈ l -> k <> d ->
  exists c i, c ∈ l /\ infos !! c = Some i /\ ri_parent i = k /\ c <> k.
Proof.
  induction 1 as [d i Hi Hp|d i l r Hi Hp W IH]; intros Hk Hne.
  - by apply list_elem_of_singleton in Hk.
  - apply elem_of_cons in Hk as [->|Hk]; [done|]. destruct (decide (k = ri_parent i)) as [->|Hkp].
    + exists d, i. split_and!; [left|done|done|]. congruence.
    + destruct (IH Hk Hkp) as (c & j & Hc & Hj & Hjp & Hck). exists c, j. split_and!; [by right|done..].
Qed.

(** ** Announcement order *)

Definition better (a b : RouterAnnounce) : Prop := ann_supersedes (info_of a) b = true.

Lemma better_iff a b : better a b <->
  ra_seq a < ra_seq b \/ (ra_seq a = ra_seq b /\ (bytes_lt (ra_parent b) (ra_parent a)
    \/ (ra_parent a = ra_parent b /\ ra_nonce b < ra_nonce a))).
Proof.
  unfold better, ann_supersedes, info_of. cbn [ri_seq ri_parent ri_nonce]. rewrite Z.gtb_ltb.
  destruct (Z.ltb_spec (ra_seq b) (ra_seq a)); [split; [done|lia]|].
  destruct (Z.ltb_spec (ra_seq a) (ra_seq b)); [split; [lia|done]|].
  assert (ra_seq a = ra_seq b) by lia.
  destruct (decide (bytes_lt (ra_parent a) (ra_parent b))) as [Hl1|Hl1]; [split; [done|]|].
  { intros [?|[_ [H2|[H2 _]]]]; [lia| |].
    - pose proof (bytes_lt_trans _ _ _ Hl1 H2) as Hx. by apply bytes_lt_irrefl in Hx.
    - rewrite H2 in Hl1. by apply bytes_lt_irrefl in Hl1. }
  destruct (decide (bytes_lt (ra_parent b) (ra_parent a))) as [Hl2|Hl2]; [split; [by right; split; [|left]|done]|].
  destruct (bytes_lt_total (ra_parent a) (ra_parent b)) as [?|[He|?]]; [done| |done].
  destruct (Z.ltb_spec (ra_nonce b) (ra_nonce a)); split; try done.
  - intros _. right. auto.
  - intros [?|[_ [?|[_ ?]]]]; [lia|done|lia].
Qed.

Lemma better_trans a b c : better a b -> better b c -> better a c.
Proof.
  rewrite !better_iff. intros [?|[Hs Hab]] [?|[Hs' Hbc]]; [left; lia|left; lia|left; lia|].
  right. split; [congruence|]. destruct Hab as [Hab|[Hab ?]], Hbc as [Hbc|[Hbc ?]].
  - left. by etrans.
  - left. by rewrite <- Hbc.
  - left. by rewrite Hab.
  - right. split; [congruence|lia].
Qed.

Lemma better_irrefl a : ~ better a a.
Proof. rewrite better_iff. intros [?|[_ [Hl|[_ ?]]]]; [lia|by apply bytes_lt_irrefl in Hl|lia]. Qed.

Lemma better_tie a b : ~ better a b -> ~ better b a ->
  ra_seq a = ra_seq b /\ ra_parent a = ra_parent b /\ ra_nonce a = ra_nonce b.
Proof.
  rewrite !better_iff. intros Hab Hba.
  destruct (Z.lt_trichotomy (ra_seq a) (ra_seq b)) as [?|[Hs|?]]; [tauto| |tauto].
  destruct (bytes_lt_total (ra_parent a) (ra_parent b)) as [?|[He|?]]; [exfalso; auto| |exfalso; auto].
  split_and!; [done|done|]. destruct (Z.lt_trichotomy (ra_nonce a) (ra_nonce b)) as [?|[?|?]]; [exfalso|done|exfalso].
  - apply Hba. right. auto.
  - apply Hab. right. auto.
Qed.

Definition gossip (l : list RouterAnnounce) (infos : Infos) : Infos :=
  foldl (fun infos a => (update_infos infos a).2) infos l.

(** After gossiping [l] the stored announcement of a key is one of [l] that
    no other announcement of [l] for the key beats. *)
Lemma gossip_spec l k :
  match gossip l ∅ !! k with
  | Some i => exists a, a ∈ l /\ ra_key a = k /\ i = info_of a
                /\ forall b, b ∈ l -> ra_key b = k -> ~ better a b
  | None => forall b, b ∈ l -> ra_key b <> k
  end.
Proof.
  unfold gossip. induction l as [|c l IH] using rev_ind; simpl.
  { rewrite lookup_empty. by intros b ?%not_elem_of_nil. }
  rewrite foldl_app. simpl. set (infos := foldl _ ∅ l) in *. unfold update_infos.
  destruct (decide (ra_key c = k)) as [Hck|Hck].
  - rewrite Hck. destruct (infos !! k) as [i|] eqn:Hi.
    + destruct IH as (a & Ha & Hak & -> & Hmax). destruct (ann_supersedes (info_of a) c) eqn:Hsup; simpl.
      * rewrite lookup_insert_eq. exists c. split_and!; [set_solver|done|done|].
        intros b [Hb| ->%list_elem_of_singleton]%elem_of_app Hbk; [|apply better_irrefl].
        intros Hcb. apply (Hmax b Hb Hbk). by eapply better_trans.
      * rewrite Hi. exists a. split_and!; [set_solver|done|done|].
        intros b [Hb| ->%list_elem_of_singleton]%elem_of_app Hbk; [by apply Hmax|].
        unfold better. congruence.
    + simpl. rewrite lookup_insert_eq. exists c. split_and!; [set_solver|done|done|].
      intros b [Hb| ->%list_elem_of_singleton]%elem_of_app Hbk; [by apply IH in Hb|apply better_irrefl].
  - assert (Hsame : forall m : Infos, <[ra_key c := info_of c]> m !! k = m !! k) by (intros; by rewrite lookup_insert_ne).
    replace ((match infos !! ra_key c with Some i => _ | None => _ end).2 !! k) with (infos !! k)
      by (destruct (infos !! ra_key c); [destruct (ann_supersedes _ _)|]; simpl; by rewrite ?Hsame).
    destruct (infos !! k) as [i|].
    + destruct IH as (a & Ha & Hak & -> & Hmax). exists a. split_and!; [set_solver|done|done|].
      intros b [Hb| ->%list_elem_of_singleton]%elem_of_app Hbk; [by apply Hmax|done].
    + intros b [Hb| ->%list_elem_of_singleton]%elem_of_app; [by apply IH|done].
Qed.

(** ** Port uniqueness *)

(** A parent gives its children distinct ports. *)
Definition ports_unique (infos : Infos) : Prop := forall a b i j,
  infos !! a = Some i -> infos !! b = Some j -> ri_parent i = ri_parent j -> ri_port i = ri_port j ->
  a <> ri_parent i -> b <> ri_parent j -> a = b.

Lemma walk_root_in infos k l r : walk infos k l r -> r ∈ l.
Proof. induction 1; set_solver. Qed.

Lemma walk_end infos k l r : walk infos k l r -> walk infos r [r] r.
Proof. induction 1; [by eapply walk_root|done]. Qed.

(** With unique ports a coordinate prefix is an ancestor. *)
Lemma coords_prefix_ancestor infos d ld k lk r :
  ports_unique infos -> walk infos d ld r -> walk infos k lk r ->
  coords infos k `prefix_of` coords infos d -> k ∈ ld.
Proof.
  intros Hu Wd. induction 1 as [k i Hi Hp|k i l r Hi Hp W IH]; intros Hpre.
  - by eapply walk_root_in.
  - pose proof (coords_child _ _ _ _ _ Hi Hp W) as Hc. rewrite Hc in Hpre.
    assert (Hin : ri_parent i ∈ ld) by (apply IH; [done|]; etrans; [|exact Hpre]; by eexists).
    destruct (decide (ri_parent i = d)) as [Hd|Hd].
    { rewrite Hd in Hpre. apply prefix_length in Hpre. rewrite length_app in Hpre. simpl in Hpre. lia. }
    destruct (walk_child _ _ _ _ _ Wd Hin Hd) as (c & j & Hcl & Hj & Hjp & Hcp).
    assert (Hwp : walk infos (ri_parent j) l r) by (by rewrite Hjp).
    assert (Hjc : ri_parent j <> c) by congruence.
    pose proof (coords_ancestor _ _ _ _ _ Wd Hcl) as Hpre'.
    rewrite (coords_child _ _ _ _ _ Hj Hjc Hwp), Hjp in Hpre'.
    destruct Hpre as [t1 H1], Hpre' as [t2 H2]. rewrite H1, <- !app_assoc in H2.
    apply app_inv_head in H2. injection H2 as Hport _.
    by rewrite (Hu k c i j Hi Hj) by congruence.
Qed.

(** ** Properties *)

(** The walks to the root terminate and are right, loops and missing
    ancestors included. If following parents from [k] reaches a root,
    [get_root_and_dists] returns that root, marks the result valid and gives
    every ancestor its distance in hops, and [get_root_and_path] returns the
    same root with the ports from the root down to [k]; if not, the first marks
    its result invalid and the second returns [k] with no coordinates. *)
Theorem root_walks_correct infos k :
  (exists l r d, walk infos k l r /\ NoDup l
     /\ get_root_and_dists infos k = (r, d, true) /\ indexes d l
     /\ get_root_and_path infos k = (r, reverse (ports_of infos (non_root l))))
  \/ ((forall l r, ~ walk infos k l r) /\ (get_root_and_dists infos k).2 = false
     /\ get_root_and_path infos k = (k, [])).
Proof.
  destruct (get_root_and_dists_spec infos k) as (r & d & v & -> & Hv). destruct v.
  - destruct Hv as (l & W & Hn & Hd). left. exists l, r, d. split_and!; try done. by apply walk_path.
  - right. destruct (get_root_and_path_spec infos k) as [(l & r' & W & _)|[_ Hp]]; [by apply Hv in W|done].
Qed.

(** The distance of greedy routing is the tree metric. On coordinates
    shorter than 2^63 hops the loop of [get_dist] computes the number of tree
    edges between the two positions without underflow; it is zero only for
    equal coordinates, symmetric, and satisfies the triangle inequality. *)
Theorem path_dist_metric a b c
    (Ha : Z.of_nat (length a) < 2 ^ 63) (Hb : Z.of_nat (length b) < 2 ^ 63)
    (Hc : Z.of_nat (length c) < 2 ^ 63) :
  path_dist a b = tree_dist a b /\ 0 <= path_dist a b
  /\ (path_dist a b = 0 <-> a = b) /\ path_dist a b = path_dist b a
  /\ path_dist a c <= path_dist a b + path_dist b c.
Proof.
  rewrite !path_dist_eq by lia. pose proof (common_le a b).
  split_and!; [done|unfold tree_dist; lia|apply tree_dist_zero| |apply tree_dist_triangle].
  unfold tree_dist. rewrite (common_sym a b). lia.
Qed.

(** Greedy routing has a next step. In a tree where siblings have distinct
    ports, every node other than the destination has a tree neighbour (its
    parent, or a child) that is exactly one hop closer to the destination. *)
Theorem greedy_neighbour_exists infos d ld k lk r
    (Hports : ports_unique infos) (Hd : walk infos d ld r) (Hk : walk infos k lk r) (Hne : k <> d) :
  exists n i, tree_dist (coords infos d) (coords infos n) = tree_dist (coords infos d) (coords infos k) - 1
    /\ ((infos !! k = Some i /\ ri_parent i = n) \/ (infos !! n = Some i /\ ri_parent i = k)).
Proof.
  destruct (decide (k ∈ ld)) as [Hin|Hin].
  - destruct (walk_child _ _ _ _ _ Hd Hin Hne) as (c & i & Hc & Hi & Hp & Hck).
    exists c, i. split; [|by right]. assert (Hpc : ri_parent i <> c) by congruence.
    assert (W : walk infos (ri_parent i) lk r) by congruence.
    pose proof (coords_ancestor _ _ _ _ _ Hd Hc) as Hpre.
    rewrite (coords_child _ _ _ _ _ Hi Hpc W), Hp in Hpre |- *. by apply dist_down.
  - destruct Hk as [k i Hi Hp|k i l r Hi Hp W]; [by apply walk_root_in in Hd|].
    exists (ri_parent i), i. split; [|by left]. rewrite (coords_child _ _ _ _ _ Hi Hp W).
    apply dist_up. rewrite <- (coords_child _ _ _ _ _ Hi Hp W). intros Hpre. apply Hin.
    eapply coords_prefix_ancestor; [done|done|by eapply walk_step|done].
Qed.

(** C4: The tree state is a CRDT. If no two announcements of one node agree in
    sequence number, parent and nonce but differ otherwise, every delivery
    order of the same announcements ends in the same tree, and repeating
    announcements already delivered changes nothing. *)
Theorem announcements_converge l1 l2
    (Hperm : l1 ≡ₚ l2)
    (Hties : forall a b, a ∈ l1 -> b ∈ l1 -> ra_key a = ra_key b -> ra_seq a = ra_seq b ->
               ra_parent a = ra_parent b -> ra_nonce a = ra_nonce b -> info_of a = info_of b) :
  gossip l1 ∅ = gossip l2 ∅ /\ forall a, a ∈ l1 -> update_infos (gossip l1 ∅) a = (false, gossip l1 ∅).
Proof.
  split.
  - apply map_eq. intros k. pose proof (gossip_spec l1 k) as H1. pose proof (gossip_spec l2 k) as H2.
    destruct (gossip l1 ∅ !! k), (gossip l2 ∅ !! k).
    + destruct H1 as (a & Ha & Hak & -> & Hamax), H2 as (b & Hb & Hbk & -> & Hbmax). f_equal.
      rewrite <- Hperm in Hb. destruct (better_tie a b) as (? & ? & ?); [by apply Hamax| |].
      { apply Hbmax; [by rewrite <- Hperm|done]. }
      apply Hties; try done. congruence.
    + destruct H1 as (a & Ha & Hak & _). rewrite Hperm in Ha. by apply H2 in Ha.
    + destruct H2 as (a & Ha & Hak & _). rewrite <- Hperm in Ha. by apply H1 in Ha.
    + done.
  - intros a Ha. unfold update_infos. pose proof (gossip_spec l1 (ra_key a)) as H1.
    destruct (gossip l1 ∅ !! ra_key a) as [i|]; [|by apply H1 in Ha].
    destruct H1 as (b & _ & _ & -> & Hmax). specialize (Hmax a Ha eq_refl). unfold better in Hmax.
    by destruct (ann_supersedes (info_of b) a).
Qed.

(** Every stored announcement passed [RouterAnnounce::check]. *)
Definition infos_checked `{Dalek} (infos : Infos) : Prop :=
  forall k i, infos !! k = Some i -> RouterAnnounce_check (get_announce i k) = true.

(** Coordinates built from checked announcements contain no zero port (zero
    terminates a path on the wire), and every ancestor's announcement carries
    its own and its parent's valid signature. *)
Theorem checked_coords_nonzero `{Dalek} infos k (Hc : infos_checked infos) :
  Forall (fun p => p <> 0) (coords infos k)
  /\ forall l r x i, walk infos k l r -> x ∈ l -> infos !! x = Some i ->
       let a := get_announce i x in
       verify x (RouterAnnounce_bytes_for_sig a) (ri_sig i) = true
       /\ verify (ri_parent i) (RouterAnnounce_bytes_for_sig a) (ri_psig i) = true.
Proof.
  assert (Hcheck : forall x i, infos !! x = Some i -> (ri_port i = 0 -> x = ri_parent i)
    /\ verify x (RouterAnnounce_bytes_for_sig (get_announce i x)) (ri_sig i) = true
    /\ verify (ri_parent i) (RouterAnnounce_bytes_for_sig (get_announce i x)) (ri_psig i) = true).
  { intros x i Hi. specialize (Hc x i Hi). unfold RouterAnnounce_check in Hc. cbn [get_announce ra_port ra_key ra_parent ra_sig ra_psig] in Hc.
    destruct (Z.eqb_spec (ri_port i) 0), (decide (x = ri_parent i)); rewrite ?bool_decide_eq_true_2, ?bool_decide_eq_false_2 in Hc by done;
      simpl in Hc; try done; by apply andb_true_iff in Hc. }
  split; [|intros l r x i _ _ Hi; by destruct (Hcheck x i Hi)].
  destruct (get_root_and_path_spec infos k) as [(l & r & W & _)|[_ Hp]]; [|unfold coords; by rewrite Hp].
  induction W as [k i Hi Hp|k i l r Hi Hp W IH].
  - by rewrite (coords_root _ _ _ Hi Hp).
  - rewrite (coords_child _ _ _ _ _ Hi Hp W). apply Forall_app. split; [done|]. apply Forall_singleton.
    intros Hz. apply Hp. symmetry. by apply (Hcheck k i Hi).
Qed.

(** ** Witnesses *)

Definition node (n : Z) : PublicKey := replicate PUBLIC_KEY_SIZE n.
Definition sample_info (parent port : Z) : RouterInfo := mkRouterInfo (node parent) 1 0 port [] [].
(** Root 1 with children 2 and 3; 4 below 2. *)
Definition sample_tree : Infos :=
  <[node 1 := sample_info 1 0]> (<[node 2 := sample_info 1 7]> (<[node 3 := sample_info 1 8]>
    {[node 4 := sample_info 2 9]})).

Lemma path_dist_metric_witness : path_dist [7; 9] [8] = 3.
Proof.
  destruct (path_dist_metric [7; 9] [8] []) as (He & _); [vm_compute; done..|]. rewrite He. reflexivity.
Defined.

Lemma sample_ports_unique : ports_unique sample_tree.
Proof.
  intros a b i j Ha Hb. unfold sample_tree in Ha, Hb.
  rewrite !lookup_insert_Some, lookup_singleton_Some in Ha, Hb.
  destruct Ha as [[<- <-]|[_ [[<- <-]|[_ [[<- <-]|[_ [<- <-]]]]]]],
    Hb as [[<- <-]|[_ [[<- <-]|[_ [[<- <-]|[_ [<- <-]]]]]]]; done.
Qed.

Lemma greedy_neighbour_exists_witness :
  exists n, tree_dist (coords sample_tree (node 4)) (coords sample_tree n)
            = tree_dist (coords sample_tree (node 4)) (coords sample_tree (node 3)) - 1.
Proof.
  assert (W1 : walk sample_tree (node 1) [node 1] (node 1)) by (eapply walk_root; reflexivity).
  assert (W2 : walk sample_tree (node 2) [node 2; node 1] (node 1))
    by (eapply (walk_step _ _ (sample_info 1 7)); [reflexivity|discriminate|exact W1]).
  assert (W3 : walk sample_tree (node 3) [node 3; node 1] (node 1))
    by (eapply (walk_step _ _ (sample_info 1 8)); [reflexivity|discriminate|exact W1]).
  assert (W4 : walk sample_tree (node 4) [node 4; node 2; node 1] (node 1))
    by (eapply (walk_step _ _ (sample_info 2 9)); [reflexivity|discriminate|exact W2]).
  destruct (greedy_neighbour_exists sample_tree (node 4) _ (node 3) _ (node 1) sample_ports_unique W4 W3)
    as (n & i & Hn & _); [discriminate|]. by exists n.
Defined.

Definition sample_ann (parent seq nonce : Z) : RouterAnnounce :=
  mkRouterAnnounce (node 5) (node parent) seq nonce 1 [] [].

Lemma announcements_converge_witness :
  gossip [sample_ann 1 1 0; sample_ann 2 2 0] ∅ = gossip [sample_ann 2 2 0; sample_ann 1 1 0] ∅.
Proof.
  apply (announcements_converge [sample_ann 1 1 0; sample_ann 2 2 0] [sample_ann 2 2 0; sample_ann 1 1 0]).
  - apply Permutation_swap.
  - intros a b Ha Hb _ Hs _ _.
    apply elem_of_cons in Ha as [->|Ha]; [|apply list_elem_of_singleton in Ha as ->];
      apply elem_of_cons in Hb as [->|Hb]; [reflexivity|apply list_elem_of_singleton in Hb as ->; discriminate
        |discriminate|apply list_elem_of_singleton in Hb as ->; reflexivity].
Defined.

(** Root 1 and its child 2 with the signatures of [toy_dalek]. *)
Definition signed_info (key parent port : Z) : RouterInfo :=
  let m := sig_res_bytes_for_sig (node key) (node parent) 1 0 port in
  mkRouterInfo (node parent) 1 0 port (toy_sig parent m) (toy_sig key m).
Definition signed_tree : Infos := <[node 1 := signed_info 1 1 0]> {[node 2 := signed_info 2 1 7]}.

Lemma checked_coords_nonzero_witness : Forall (fun p => p <> 0) (coords signed_tree (node 2)).
Proof.
  apply (@checked_coords_nonzero toy_dalek signed_tree (node 2)).
  intros k i Hi. unfold signed_tree in Hi.
  apply lookup_insert_Some in Hi as [[<- <-]|[_ [<- <-]%lookup_singleton_Some]]; vm_compute; reflexivity.
Defined.
