(* ===== verification/Router.v ===== *)
(** * Router: tree maintenance, greedy routing and path discovery

    Models the [Router] of [crates/ironwood/src/router.rs]: every operation as a
    function from the router state to its result and the new state. [now] is the
    clock reading of the operation in nanoseconds, [unix_now] the wall clock in
    seconds, [rand_u64] the random number source ([rt_draws] counts the draws).
    Arithmetic wraps at 64 bits, as in the release profile. Tracing is dropped. *)

From S2P Require Import Prelude.
From S2P Require Import Wire.
From S2P Require Import Bloom.
From S2P Require Import Crypto.
From S2P Require Import Traffic.
From S2P Require Import Pathfinder.
From S2P Require Import Tree.
From stdpp Require Import options.
Open Scope Z_scope.

Definition UNKNOWN_LATENCY : Z := U32_MAX.

Abbreviation PeerId := Z (only parsing).

Record PeerEntry := mkPeerEntry {
  pe_id : PeerId;
  pe_key : PublicKey;
  pe_port : PeerPort;
  pe_prio : Z;
  pe_order : Z
}.

Record SigReqState := mkSigReqState { rq_seq : Z; rq_nonce : Z }.
Record SigResState := mkSigResState { rs_seq : Z; rs_nonce : Z; rs_port : PeerPort; rs_psig : Sig }.
Record RouterPath := mkRouterPath { rp_root : PublicKey; rp_path : list PeerPort }.

Inductive RouterAction :=
| SendSigReq (peer_id : PeerId) (req : SigReq)
| SendSigRes (peer_id : PeerId) (res : SigRes)
| SendAnnounce (peer_id : PeerId) (ann : Announce)
| SendBloom (peer_id : PeerId) (bloom : BloomFilter)
| SendTraffic (peer_id : PeerId) (traffic : TrafficPacket)
| SendPathNotify (peer_id : PeerId) (notify : PathNotify)
| SendPathLookup (peer_id : PeerId) (lookup : PathLookup)
| SendPathBroken (peer_id : PeerId) (broken : PathBroken)
| DeliverTraffic (traffic : TrafficPacket)
| PathNotifyCallback (key : PublicKey).

(** [rand::random::<u64>()]: any stream of 64-bit numbers. *)
Class Entropy := {
  rand_u64 : nat -> Z;
  rand_u64_range : forall n, is_u64 (rand_u64 n)
}.

Section State.
Context `{Dalek}.

Record Router := mkRouter {
  rt_crypto : Crypto;
  rt_pathfinder : Pathfinder;
  rt_blooms : Blooms;
  rt_peers : gmap PublicKey (gmap PeerId PeerEntry);
  rt_sent : gmap PublicKey (gset PublicKey);
  rt_ports : gmap PeerPort PublicKey;
  rt_infos : Infos;
  rt_info_times : gmap PublicKey Z;
  rt_ancs : gmap PublicKey (list PublicKey);
  rt_cache : gmap PublicKey RouterPath;
  rt_lags : gmap PeerId Z;
  rt_rtts : gmap PeerId Z;
  rt_requests : gmap PublicKey SigReqState;
  rt_responses : gmap PublicKey SigResState;
  rt_responded : gset PeerId;
  rt_res_seqs : gmap PublicKey Z;
  rt_res_seq_ctr : Z;
  rt_refresh : bool;
  rt_do_root1 : bool;
  rt_do_root2 : bool;
  rt_last_refresh : Z;
  rt_last_status_log : Z;
  rt_router_refresh : Z;
  rt_router_timeout : Z;
  rt_path_timeout : Z;
  rt_path_throttle : Z;
  rt_bloom_transform : Transform;
  rt_draws : nat
}.

#[export] Instance Router_eta : Settable Router := fun r =>
  mkRouter (rt_crypto r) (rt_pathfinder r) (rt_blooms r) (rt_peers r) (rt_sent r) (rt_ports r)
    (rt_infos r) (rt_info_times r) (rt_ancs r) (rt_cache r) (rt_lags r) (rt_rtts r) (rt_requests r)
    (rt_responses r) (rt_responded r) (rt_res_seqs r) (rt_res_seq_ctr r) (rt_refresh r)
    (rt_do_root1 r) (rt_do_root2 r) (rt_last_refresh r) (rt_last_status_log r) (rt_router_refresh r)
    (rt_router_timeout r) (rt_path_timeout r) (rt_path_throttle r) (rt_bloom_transform r) (rt_draws r).
End State.

(** [Config], the fields the router reads. *)
Record RouterConfig := mkRouterConfig {
  cfg_router_refresh : Z;
  cfg_router_timeout : Z;
  cfg_path_timeout : Z;
  cfg_path_throttle : Z;
  cfg_bloom_transform : Transform
}.

Section Ops.
Context `{Dalek} `{HashOrder} `{Entropy} (murmur3_x64_128 : bytes -> Z -> option Z).

Definition Router_new (crypto : Crypto) (config : RouterConfig) (now : Z) : Router :=
  mkRouter crypto (Pathfinder_new crypto) Blooms_new ∅ ∅ ∅ ∅ ∅ ∅ ∅ ∅ ∅ ∅ ∅ ∅ ∅ 0 false false true
    now now (cfg_router_refresh config) (cfg_router_timeout config) (cfg_path_timeout config)
    (cfg_path_throttle config) (cfg_bloom_transform config) 0.

Definition self_key_of (r : Router) : PublicKey := public_key (rt_crypto r).

(** [self.infos.get(&self_key).map(|i| i.parent).unwrap_or(self_key)]. *)
Definition self_parent_of (r : Router) : PublicKey :=
  match rt_infos r !! self_key_of r with Some i => ri_parent i | None => self_key_of r end.

Definition reset_cache (r : Router) : Router := r <| rt_cache := ∅ |>.

Definition update_ancestries (r : Router) : Router :=
  foldl (fun r pkey =>
    let anc := get_ancestry (rt_infos r) pkey in
    let diff := match rt_ancs r !! pkey with Some o => negb (bool_decide (o = anc)) | None => true end in
    if diff then r <| rt_ancs ::= <[pkey := anc]> |> else r) r (map_keys (rt_peers r)).

Definition blooms_maintenance (r : Router) : outcome (list RouterAction * Router) :=
  res ← Blooms_do_maintenance murmur3_x64_128 (rt_blooms r) (self_key_of r) (self_parent_of r)
          (ri_parent <$> rt_infos r) (rt_bloom_transform r);
  let '(blooms, to_send) := res in
  let actions := to_send ≫= fun '(peer_key, bloom) =>
    match rt_peers r !! peer_key with
    | Some peers => (fun entry => SendBloom (pe_id entry) bloom) <$> map_values peers
    | None => []
    end in
  Ret (actions, r <| rt_blooms := blooms |>).

(** ** Peers *)

Definition new_req (r : Router) : SigReqState * Router :=
  let nonce := rand_u64 (rt_draws r) in
  let seq := wrap64 ((match rt_infos r !! self_key_of r with Some i => ri_seq i | None => 0 end) + 1) in
  (mkSigReqState seq nonce, r <| rt_draws ::= S |>).

Definition add_peer (r : Router) (entry : PeerEntry) : list RouterAction * Router :=
  let key := pe_key entry in
  let peer_id := pe_id entry in
  let '(actions, r) :=
    match rt_peers r !! key with
    | None =>
        ([], r <| rt_peers ::= <[key := ∅]> |> <| rt_sent ::= <[key := ∅]> |>
               <| rt_ports ::= <[pe_port entry := key]> |> <| rt_blooms ::= fun b => add_info b key |>)
    | Some _ =>
        (match rt_sent r !! key with
         | Some sent_keys =>
             omap (fun k => (fun info => SendAnnounce peer_id (to_wire (get_announce info k)))
                              <$> rt_infos r !! k) (set_iter sent_keys)
         | None => []
         end, r)
    end in
  let r := r <| rt_peers ::= alter (insert (pe_id entry) entry) key |> in
  let r := r <| rt_lags ::= <[peer_id := UNKNOWN_LATENCY]> |> in
  let r := match rt_requests r !! key with
           | Some _ => r
           | None => let '(req, r) := new_req r in r <| rt_requests ::= <[key := req]> |>
           end in
  let req := default (mkSigReqState 0 0) (rt_requests r !! key) in
  let r := r <| rt_responded ::= fun s => s ∖ {[peer_id]} |> in
  let actions := actions ++ [SendSigReq peer_id (mkSigReq (rq_seq req) (rq_nonce req))] in
  let actions := match get_send_bloom (rt_blooms r) key with
                 | Some bloom => actions ++ [SendBloom peer_id bloom]
                 | None => actions
                 end in
  (actions, r).

Definition remove_peer (r : Router) (peer_id : PeerId) (key : PublicKey) (port : PeerPort)
    : list RouterAction * Router :=
  let r := r <| rt_lags ::= delete peer_id |> <| rt_responded ::= fun s => s ∖ {[peer_id]} |>
             <| rt_rtts ::= delete peer_id |> in
  match rt_peers r !! key with
  | None => ([], r)
  | Some peers =>
      let peers := delete peer_id peers in
      if decide (peers = ∅) then
        ([], r <| rt_peers ::= delete key |> <| rt_sent ::= delete key |> <| rt_ports ::= delete port |>
               <| rt_requests ::= delete key |> <| rt_responses ::= delete key |>
               <| rt_res_seqs ::= delete key |> <| rt_ancs ::= delete key |> <| rt_cache ::= delete key |>
               <| rt_blooms ::= fun b => remove_info b key |>)
      else
        let r := r <| rt_peers ::= <[key := peers]> |> in
        (match get_send_bloom (rt_blooms r) key with
         | Some bloom => (fun entry => SendBloom (pe_id entry) bloom) <$> map_values peers
         | None => []
         end, r)
  end.

(** ** Signature protocol *)

Definition handle_request_with_data (r : Router) (peer : PeerEntry) (req : SigReq) : RouterAction :=
  let res_bytes := sig_res_bytes_for_sig (pe_key peer) (self_key_of r) (sigreq_seq req) (sigreq_nonce req)
                     (pe_port peer) in
  let psig := sign (rt_crypto r) res_bytes in
  SendSigRes (pe_id peer) (mkSigRes (sigreq_seq req) (sigreq_nonce req) (pe_port peer) psig).

(** The lag is a moving average; its [Duration]s are far from overflowing. *)
Definition handle_response (r : Router) (peer_id : PeerId) (key : PublicKey) (res : SigRes) (rtt : Z)
    : Router :=
  let req_match := match rt_requests r !! key with
                   | Some q => (rq_seq q =? sigres_seq res) && (rq_nonce q =? sigres_nonce res)
                   | None => false
                   end in
  let r := if negb (rtt =? 0) then r <| rt_rtts ::= <[peer_id := rtt]> |> else r in
  let r :=
    if bool_decide (rt_responses r !! key = None) && req_match then
      let r := r <| rt_res_seq_ctr ::= fun c => wrap64 (c + 1) |> in
      r <| rt_res_seqs ::= <[key := rt_res_seq_ctr r]> |>
        <| rt_responses ::= <[key := mkSigResState (sigres_seq res) (sigres_nonce res) (sigres_port res)
                                       (sigres_psig res)]> |>
    else r in
  if negb (bool_decide (peer_id ∈ rt_responded r)) && req_match then
    let r := r <| rt_responded ::= fun s => {[peer_id]} ∪ s |> in
    let lag := default UNKNOWN_LATENCY (rt_lags r !! peer_id) in
    let new_lag := if lag =? UNKNOWN_LATENCY then rtt * 2
                   else lag * 7 / 8 + Z.min rtt (lag * 2) / 8 in
    r <| rt_lags ::= <[peer_id := new_lag]> |>
  else r.

(** ** Announcements *)

Definition update (r : Router) (ann : RouterAnnounce) (now : Z) : bool * Router :=
  let '(accepted, infos) := update_infos (rt_infos r) ann in
  if accepted then
    let r := r <| rt_sent ::= fmap (fun sent => sent ∖ {[ra_key ann]}) |> in
    let r := reset_cache r in
    (true, r <| rt_infos := infos |> <| rt_info_times ::= <[ra_key ann := now]> |>)
  else (false, r).

(** [if let Some(sent) = self.sent.get_mut(peer_key) { sent.insert(key); }]. *)
Definition mark_sent (r : Router) (peer_key key : PublicKey) : Router :=
  r <| rt_sent ::= alter (fun sent => {[key]} ∪ sent) peer_key |>.

Definition handle_announce (r : Router) (peer_id : PeerId) (peer_key : PublicKey) (ann : RouterAnnounce)
    (now : Z) : list RouterAction * Router :=
  let '(accepted, r) := update r ann now in
  if accepted then
    let r := if decide (ra_key ann = self_key_of r) then r <| rt_refresh := true |> else r in
    ([], mark_sent r peer_key (ra_key ann))
  else
    match rt_infos r !! ra_key ann with
    | Some old_info =>
        if decide (old_info <> info_of ann) then
          let r := mark_sent r peer_key (ra_key ann) in
          ([SendAnnounce peer_id (to_wire (get_announce old_info (ra_key ann)))], r)
        else ([], mark_sent r peer_key (ra_key ann))
    | None => ([], r)
    end.

Definition become_root (r : Router) (now : Z) : bool * Router :=
  let '(req, r) := new_req r in
  let self_key := self_key_of r in
  let res_bytes := sig_res_bytes_for_sig self_key self_key (rq_seq req) (rq_nonce req) 0 in
  let psig := sign (rt_crypto r) res_bytes in
  update r (mkRouterAnnounce self_key self_key (rq_seq req) (rq_nonce req) 0 psig psig) now.

Definition use_response (r : Router) (peer_key : PublicKey) (res : SigResState) (now : Z)
    : bool * Router :=
  let self_key := self_key_of r in
  let bs := sig_res_bytes_for_sig self_key peer_key (rs_seq res) (rs_nonce res) (rs_port res) in
  let sig := sign (rt_crypto r) bs in
  update r (mkRouterAnnounce self_key peer_key (rs_seq res) (rs_nonce res) (rs_port res) (rs_psig res) sig)
    now.

(** ** Parent selection *)

Definition get_cost (r : Router) (peer_id : PeerId) : Z :=
  let lag := default UNKNOWN_LATENCY (rt_lags r !! peer_id) in
  let c := wrap64 (lag / 1000000) in
  if c =? 0 then 1 else c.

(** The cheapest link to a peer at distance [dist_to_root]. *)
Definition link_cost (r : Router) (peers : option (gmap PeerId PeerEntry)) (dist_to_root : Z) : Z :=
  match peers with
  | Some peers =>
      foldl (fun cost entry =>
        let c := sat_mul64 dist_to_root (get_cost r (pe_id entry)) in
        if c <? cost then c else cost) U64_MAX (map_values peers)
  | None => U64_MAX
  end.

(** The candidates compared by [select_parent]: root, parent and cost. *)
Record Choice := mkChoice { ch_root : PublicKey; ch_parent : PublicKey; ch_cost : Z }.

Definition select_current (r : Router) : Choice :=
  let self_key := self_key_of r in
  let none := mkChoice self_key self_key U64_MAX in
  match rt_peers r !! self_parent_of r with
  | None => none
  | Some peers =>
      let '(root, dists, valid) := get_root_and_dists (rt_infos r) self_key in
      if valid && bool_decide (bytes_lt root self_key) then
        mkChoice root (self_parent_of r)
          (link_cost r (Some peers) (default U64_MAX (dists !! root)))
      else none
  end.

Definition select_step (r : Router) (best : Choice) (pk : PublicKey) : Choice :=
  match rt_infos r !! pk with
  | None => best
  | Some _ =>
      let '(p_root, p_dists, valid) := get_root_and_dists (rt_infos r) pk in
      if negb valid then best
      else if bool_decide (is_Some (p_dists !! self_key_of r)) then best
      else
        let dist := match p_dists !! p_root with Some d => wrap64 (d + 1) | None => U64_MAX end in
        let cost := link_cost r (rt_peers r !! pk) dist in
        let improve (best : Choice) :=
          if (rt_refresh r && (wrap64 (cost * 2) <? ch_cost best))
             || (negb (bool_decide (ch_parent best = self_parent_of r)) && (cost <? ch_cost best))
          then mkChoice p_root pk cost else best in
        if decide (bytes_lt p_root (ch_root best)) then improve (mkChoice p_root pk cost)
        else if decide (p_root <> ch_root best) then best
        else improve best
  end.

Definition select_parent (r : Router) : PublicKey * PublicKey :=
  let best := foldl (select_step r) (select_current r) (map_keys (rt_responses r)) in
  (ch_root best, ch_parent best).

Definition clear_reqs (r : Router) : Router :=
  r <| rt_requests := ∅ |> <| rt_responses := ∅ |> <| rt_res_seqs := ∅ |> <| rt_res_seq_ctr := 0 |>.

Definition send_req_to (acc : list RouterAction * Router) (peer : PublicKey * gmap PeerId PeerEntry)
    : list RouterAction * Router :=
  let '(actions, r) := acc in
  let '(pk, peers) := peer in
  let '(req, r) := new_req r in
  let r := r <| rt_requests ::= <[pk := req]> |> in
  let ids := map_keys peers in
  (actions ++ ((fun id => SendSigReq id (mkSigReq (rq_seq req) (rq_nonce req))) <$> ids),
   r <| rt_responded ::= fun s => s ∖ list_to_set ids |>).

Definition send_reqs (r : Router) : list RouterAction * Router :=
  let r := clear_reqs r in
  foldl send_req_to ([], r) (map_iter (rt_peers r)).

Definition clear_flags (r : Router) : Router :=
  r <| rt_refresh := false |> <| rt_do_root1 := false |> <| rt_do_root2 := false |>.

(** [fix]. *)
Definition fix_tree (r : Router) (now : Z) : list RouterAction * Router :=
  let self_key := self_key_of r in
  let self_info_parent := self_parent_of r in
  let '(best_root, best_parent) := select_parent r in
  if rt_refresh r || rt_do_root1 r || rt_do_root2 r || negb (bool_decide (self_info_parent = best_parent)) then
    let '(adopted, r) :=
      match rt_responses r !! best_parent with
      | Some res => if decide (best_root <> self_key) then use_response r best_parent res now else (false, r)
      | None => (false, r)
      end in
    if adopted : bool then send_reqs (clear_flags r)
    else if rt_do_root2 r then
      let '(_, r) := become_root r now in
      send_reqs (clear_flags r)
    else if negb (rt_do_root1 r) then ([], r <| rt_do_root1 := true |>)
    else ([], r)
  else ([], r).

(** The keys of [anc] not yet in [sent], in order, and the new [sent]. *)
Definition not_yet_sent (anc : list PublicKey) (acc : list PublicKey * gset PublicKey)
    : list PublicKey * gset PublicKey :=
  foldl (fun '(to_send, sent) k =>
    if decide (k ∈ sent) then (to_send, sent) else (to_send ++ [k], {[k]} ∪ sent)) acc anc.

Definition send_announces_to (self_anc : list PublicKey) (acc : list RouterAction * Router)
    (peer_key : PublicKey) : list RouterAction * Router :=
  let '(actions, r) := acc in
  let peer_anc := get_ancestry (rt_infos r) peer_key in
  let sent := default ∅ (rt_sent r !! peer_key) in
  let '(to_send, sent) := not_yet_sent peer_anc (not_yet_sent self_anc ([], sent)) in
  let r := r <| rt_sent ::= <[peer_key := sent]> |> in
  let anns := omap (fun k => (fun info => to_wire (get_announce info k)) <$> rt_infos r !! k) to_send in
  match rt_peers r !! peer_key with
  | Some peers =>
      (actions ++ (map_values peers ≫= fun entry => (fun ann => SendAnnounce (pe_id entry) ann) <$> anns), r)
  | None => (actions, r)
  end.

Definition send_announces (r : Router) : list RouterAction * Router :=
  let self_anc := get_ancestry (rt_infos r) (self_key_of r) in
  foldl (send_announces_to self_anc) ([], r) (map_keys (rt_sent r)).

(** ** Greedy routing *)

Definition cached_root_and_path (r : Router) (key : PublicKey) : RouterPath * Router :=
  match rt_cache r !! key with
  | Some rp => (rp, r)
  | None =>
      let '(root, path) := get_root_and_path (rt_infos r) key in
      let rp := mkRouterPath root path in
      (rp, r <| rt_cache ::= <[key := rp]> |>)
  end.

Definition cached_coords (r : Router) (key : PublicKey) : list PeerPort * Router :=
  let '(rp, r) := cached_root_and_path r key in (rp_path rp, r).

Definition get_dist (r : Router) (dest_path : list PeerPort) (key : PublicKey) : Z * Router :=
  let '(self_rp, r) := cached_root_and_path r (self_key_of r) in
  let '(rp, r) := cached_root_and_path r key in
  let root := rp_root rp in
  if match rt_infos r !! root with Some info => negb (bool_decide (ri_parent info = root)) | None => true end
  then (U64_MAX, r)
  else if decide (root <> rp_root self_rp) then (U64_MAX, r)
  else (path_dist dest_path (rp_path rp), r).

Definition collect_candidates (path : list PeerPort) (best_dist : Z)
    (acc : list PeerEntry * Router) (k : PublicKey) : list PeerEntry * Router :=
  let '(candidates, r) := acc in
  let '(dist, r) := get_dist r path k in
  if dist <? best_dist then
    (candidates ++ match rt_peers r !! k with Some peers => map_values peers | None => [] end, r)
  else (candidates, r).

Record BestPeer := mkBestPeer { bp_entry : PeerEntry; bp_cost : Z; bp_dist : Z }.

(** Whether the candidate [p] replaces the best one so far. *)
Definition candidate_wins (bp : BestPeer) (p : PeerEntry) (cost dist : Z) : bool :=
  let b := bp_entry bp in
  if bool_decide (pe_key p = pe_key b) && (pe_prio p <? pe_prio b) then true
  else if bool_decide (pe_key p = pe_key b) && (pe_prio p >? pe_prio b) then false
  else if sat_mul64 cost dist <? sat_mul64 (bp_cost bp) (bp_dist bp) then true
  else if sat_mul64 cost dist >? sat_mul64 (bp_cost bp) (bp_dist bp) then false
  else if dist <? bp_dist bp then true
  else if dist >? bp_dist bp then false
  else if cost <? bp_cost bp then true
  else if cost >? bp_cost bp then false
  else pe_order p <? pe_order b.

Definition choose_candidate (path : list PeerPort) (acc : option BestPeer * Router) (p : PeerEntry)
    : option BestPeer * Router :=
  let '(best, r) := acc in
  let '(dist, r) := get_dist r path (pe_key p) in
  let cost := get_cost r (pe_id p) in
  match best with
  | None => (Some (mkBestPeer p cost dist), r)
  | Some bp => (Some (if candidate_wins bp p cost dist then mkBestPeer p cost dist else bp), r)
  end.

Definition lookup (r : Router) (path : list PeerPort) (watermark : Z) : (option PeerId * Z) * Router :=
  let '(self_dist, r) := get_dist r path (self_key_of r) in
  if self_dist >=? watermark then ((None, watermark), r)
  else
    let '(candidates, r) := foldl (collect_candidates path self_dist) ([], r) (map_keys (rt_peers r)) in
    let '(best, r) := foldl (choose_candidate path) (None, r) candidates in
    (((fun bp => pe_id (bp_entry bp)) <$> best, self_dist), r).

(** [min_by_key]: the first entry of least priority value. *)
Definition best_peer_for_key (r : Router) (key : PublicKey) : option PeerId :=
  peers ← rt_peers r !! key;
  pe_id <$> foldl (fun best e =>
    match best with
    | None => Some e
    | Some b => if pe_prio e <? pe_prio b then Some e else Some b
    end) None (map_values peers).

(** ** Path discovery and traffic

    [route_traffic] and the handlers below call each other: a notification may
    release a cached packet, which is routed. The handlers take the routing
    function as an argument; the knot is tied in [route_traffic_fuel]. *)

Definition x_key_of (r : Router) (key : PublicKey) : PublicKey := x_key key (rt_bloom_transform r).

Abbreviation Routing := (Router -> TrafficPacket -> list RouterAction * Router) (only parsing).

Section Handlers.
Context (route : Routing) (now unix_now : Z).

Definition handle_notify_internal (r : Router) (notify : PathNotify) : list RouterAction * Router :=
  let '((next, watermark), r) := lookup r (pn_path notify) (pn_watermark notify) in
  match next with
  | Some peer_id =>
      ([SendPathNotify peer_id (mkPathNotify (pn_path notify) watermark (pn_source notify)
          (pn_dest notify) (pn_info notify))], r)
  | None =>
      if decide (pn_dest notify <> self_key_of r) then ([], r)
      else
        let info := pn_info notify in
        let info_bytes := encode_path (encode_uvarint [] (pni_seq info)) (pni_path info) in
        if negb (verify (pn_source notify) info_bytes (pni_sig info)) then ([], r)
        else
          let xformed_source := x_key_of r (pn_source notify) in
          let '((accepted, traffic), pf) :=
            accept_notify (rt_pathfinder r) (pn_source notify) xformed_source (pni_seq info)
              (pni_path info) now in
          let r := r <| rt_pathfinder := pf |> in
          let '(actions, r) :=
            match traffic with
            | Some traffic =>
                let traffic := traffic <| tp_path := pni_path info |> in
                let '(from, r) := cached_coords r (self_key_of r) in
                route r (traffic <| tp_from := from |>)
            | None => ([], r)
            end in
          (actions ++ (if accepted : bool then [PathNotifyCallback (pn_source notify)] else []), r)
  end.

Definition handle_lookup_internal (r : Router) (from_key : PublicKey) (l : PathLookup)
    : list RouterAction * Router :=
  let targets := get_multicast_targets murmur3_x64_128 (rt_blooms r) from_key (pl_dest l)
                   (rt_bloom_transform r) in
  let actions := omap (fun target_key =>
    (fun peer_id => SendPathLookup peer_id l) <$> best_peer_for_key r target_key) targets in
  let dx := x_key_of r (pl_dest l) in
  let sx := x_key_of r (self_key_of r) in
  if decide (dx = sx) then
    let self_key := self_key_of r in
    let '(path, r) := cached_coords r self_key in
    let notify_info := mkOwnPathInfo unix_now path (replicate SIGNATURE_SIZE 0) in
    let '(notify_info, r) :=
      if negb (content_equal (pf_info (rt_pathfinder r)) notify_info) then
        let notify_info := OwnPathInfo_sign notify_info (rt_crypto r) in
        (notify_info, r <| rt_pathfinder ::= fun pf => pf <| pf_info := notify_info |> |>)
      else (pf_info (rt_pathfinder r), r) in
    let notify := mkPathNotify (pl_from l) U64_MAX self_key (pl_source l)
      (mkPathNotifyInfo (own_seq notify_info) (own_path notify_info) (own_sig notify_info)) in
    let '(more, r) := handle_notify_internal r notify in
    (actions ++ more, r)
  else (actions, r).

Definition do_send_lookup (r : Router) (dest : PublicKey) : list RouterAction * Router :=
  if should_throttle_lookup (rt_pathfinder r) dest (rt_path_throttle r) now then ([], r)
  else
    let r := r <| rt_pathfinder ::= fun pf => mark_lookup_sent pf dest now |> in
    let self_key := self_key_of r in
    let '(from, r) := cached_coords r self_key in
    handle_lookup_internal r self_key (mkPathLookup self_key dest from).

Definition handle_broken_internal (r : Router) (broken : PathBroken) : list RouterAction * Router :=
  let '((next, watermark), r) := lookup r (pb_path broken) (pb_watermark broken) in
  match next with
  | Some peer_id =>
      ([SendPathBroken peer_id (mkPathBroken (pb_path broken) watermark (pb_source broken)
          (pb_dest broken))], r)
  | None =>
      if decide (pb_source broken <> self_key_of r) then ([], r)
      else
        let r := r <| rt_pathfinder ::= fun pf => Pathfinder_handle_broken pf (pb_dest broken) |> in
        if negb (should_throttle_lookup (rt_pathfinder r) (pb_dest broken) (rt_path_throttle r) now)
        then do_send_lookup r (pb_dest broken)
        else ([], r)
  end.

Definition do_broken (r : Router) (tr : TrafficPacket) : list RouterAction * Router :=
  handle_broken_internal r (mkPathBroken (tp_from tr) U64_MAX (tp_source tr) (tp_dest tr)).

Definition route_traffic_step (r : Router) (tr : TrafficPacket) : list RouterAction * Router :=
  let '((next, watermark), r) := lookup r (tp_path tr) (tp_watermark tr) in
  match next with
  | Some peer_id => ([SendTraffic peer_id (tr <| tp_watermark := watermark |>)], r)
  | None =>
      if decide (tp_dest tr = self_key_of r) then
        let r := r <| rt_pathfinder ::= fun pf => learn_path_from_traffic pf (tp_source tr) (tp_from tr) now |> in
        let r := r <| rt_pathfinder ::= fun pf => refresh_if_coords_match pf (tp_source tr) (tp_from tr) now |> in
        ([PathNotifyCallback (tp_source tr); DeliverTraffic tr], r)
      else do_broken r tr
  end.
End Handlers.

(** Packets waiting in the path cache and in the rumors. Each nested routing
    consumes one of them, which bounds the recursion. *)
Definition is_cached {A} (o : option A) : Z := match o with Some _ => 1 | None => 0 end.
Definition cached_packets (pf : Pathfinder) : nat :=
  Z.to_nat (total (fun i => is_cached (pi_cached_traffic i)) (pf_paths pf)
            + total (fun u => is_cached (ru_traffic u)) (pf_rumors pf)).

Fixpoint route_traffic_fuel (fuel : nat) (now unix_now : Z) (r : Router) (tr : TrafficPacket)
    : list RouterAction * Router :=
  match fuel with
  | O => ([], r)
  | S fuel => route_traffic_step (route_traffic_fuel fuel now unix_now) now unix_now r tr
  end.

Definition route_traffic (now unix_now : Z) (r : Router) (tr : TrafficPacket)
    : list RouterAction * Router :=
  route_traffic_fuel (S (cached_packets (rt_pathfinder r))) now unix_now r tr.

Definition handle_traffic (now unix_now : Z) (r : Router) (tr : TrafficPacket)
    : list RouterAction * Router :=
  route_traffic now unix_now r tr.

Definition send_lookup_msg (now unix_now : Z) (r : Router) (dest : PublicKey)
    : list RouterAction * Router :=
  do_send_lookup (route_traffic now unix_now) now unix_now r dest.

Definition send_traffic (now unix_now : Z) (r : Router) (tr : TrafficPacket)
    : list RouterAction * Router :=
  let shortcut := if bool_decide (tp_payload tr = []) then None else best_peer_for_key r (tp_dest tr) in
  match shortcut with
  | Some peer_id =>
      let '(path, r) := cached_coords r (tp_dest tr) in
      let '(from, r) := cached_coords r (self_key_of r) in
      ([SendTraffic peer_id (tr <| tp_path := path |> <| tp_from := from |> <| tp_watermark := 0 |>)], r)
  | None =>
      match get_path (rt_pathfinder r) (tp_dest tr) with
      | Some path =>
          let tr := tr <| tp_path := path |> in
          let '(from, r) := cached_coords r (self_key_of r) in
          let tr := tr <| tp_from := from |> in
          let r := if needs_traffic_cache (rt_pathfinder r) (tp_dest tr)
                   then r <| rt_pathfinder ::= fun pf => cache_traffic pf (tp_dest tr) tr |> else r in
          route_traffic now unix_now r tr
      | None =>
          let dest := tp_dest tr in
          let xform := x_key_of r dest in
          let r := r <| rt_pathfinder ::= fun pf => (ensure_rumor pf xform now).2 |> in
          let r := if tp_keepalive tr
                   then r <| rt_pathfinder ::= fun pf => cache_rumor_traffic_if_absent pf xform tr |>
                   else r <| rt_pathfinder ::= fun pf => cache_rumor_traffic pf xform tr |> in
          if negb (should_throttle_rumor (rt_pathfinder r) xform (rt_path_throttle r) now) then
            let r := r <| rt_pathfinder ::= fun pf => mark_rumor_sent pf xform now |> in
            send_lookup_msg now unix_now r dest
          else ([], r)
      end
  end.

(** [force_lookup]: the rumor's [send_time] is cleared. *)
Definition force_lookup (now unix_now : Z) (r : Router) (dest : PublicKey) : list RouterAction * Router :=
  let xform := x_key_of r dest in
  let r := match pf_rumors (rt_pathfinder r) !! xform with
           | Some rumor => r <| rt_pathfinder ::= fun pf =>
                             pf <| pf_rumors ::= <[xform := rumor <| ru_send_time := None |> ]> |> |>
           | None => r <| rt_pathfinder ::= fun pf => (ensure_rumor pf xform now).2 |>
           end in
  send_lookup_msg now unix_now r dest.

Definition handle_lookup (now unix_now : Z) (r : Router) (peer_key : PublicKey) (l : PathLookup)
    : list RouterAction * Router :=
  if negb (is_on_tree (rt_blooms r) peer_key) then ([], r)
  else handle_lookup_internal (route_traffic now unix_now) now unix_now r peer_key l.

Definition handle_notify (now unix_now : Z) (r : Router) (notify : PathNotify)
    : list RouterAction * Router :=
  handle_notify_internal (route_traffic now unix_now) now r notify.

Definition handle_broken (now unix_now : Z) (r : Router) (broken : PathBroken)
    : list RouterAction * Router :=
  handle_broken_internal (route_traffic now unix_now) now unix_now r broken.

Definition handle_bloom (r : Router) (peer_key : PublicKey) (filter : BloomFilter) : Router :=
  r <| rt_blooms ::= fun b => Blooms_handle_bloom b peer_key filter |>.

(** ** Maintenance *)

Definition force_refresh (r : Router) (now : Z) : Router :=
  let back := now - rt_router_refresh r in
  r <| rt_refresh := true |> <| rt_do_root1 := true |> <| rt_do_root2 := true |>
    <| rt_last_refresh := (if decide (0 <= back) then back else now) |>.

Definition expire_one (r : Router) (key : PublicKey) : Router :=
  if decide (key = self_key_of r) then r <| rt_refresh := true |>
  else
    reset_cache (r <| rt_infos ::= delete key |> <| rt_info_times ::= delete key |>
                   <| rt_sent ::= fmap (fun sent => sent ∖ {[key]}) |>).

Definition expire_infos (r : Router) (now : Z) : Router :=
  let expired := (List.filter (fun '(k, t) =>
    if decide (k = self_key_of r) then rt_router_refresh r <=? elapsed now t
    else rt_router_timeout r <=? elapsed now t) (map_iter (rt_info_times r))).*1 in
  foldl expire_one r expired.

Definition retry_rumor (now unix_now : Z) (acc : list RouterAction * Router) (dest : PublicKey)
    : list RouterAction * Router :=
  let '(actions, r) := acc in
  let xform := x_key_of r dest in
  if should_throttle_rumor_retry (rt_pathfinder r) xform (rt_path_throttle r) now then (actions, r)
  else
    let r := r <| rt_pathfinder ::= fun pf => mark_rumor_retry pf xform now |> in
    let '(more, r) := send_lookup_msg now unix_now r dest in
    (actions ++ more, r).

Definition do_maintenance (now unix_now : Z) (r : Router) : outcome (list RouterAction * Router) :=
  let r := if 60000000000 <=? elapsed now (rt_last_status_log r) then r <| rt_last_status_log := now |> else r in
  let r := if rt_router_refresh r <=? elapsed now (rt_last_refresh r)
           then r <| rt_refresh := true |> <| rt_last_refresh := now |> else r in
  let r := r <| rt_do_root2 := rt_do_root2 r || rt_do_root1 r |> in
  let r := update_ancestries (reset_cache r) in
  let '(fix_actions, r) := fix_tree r now in
  let '(ann_actions, r) := send_announces r in
  res ← blooms_maintenance r;
  let '(bloom_actions, r) := res in
  let r := r <| rt_pathfinder ::= fun pf => cleanup_expired pf (rt_path_timeout r) now |> in
  let '(retry_actions, r) := foldl (retry_rumor now unix_now) ([], r)
                               (rumors_needing_retry (rt_pathfinder r)) in
  Ret (fix_actions ++ ann_actions ++ bloom_actions ++ retry_actions, r).
End Ops.
