(* ===== verification/RouterFacts.v ===== *)
(** * RouterFacts: what the router guarantees

    Lemmas and properties of the operations of [Router]: the coordinate cache is
    transparent, [lookup] is exact and strictly lowers the watermark, parent
    selection never creates a loop, routing terminates, and the peer tables stay
    consistent. *)

From S2P Require Import Prelude.
From S2P Require Import Wire.
From S2P Require Import Bloom.
From S2P Require Import Crypto.
From S2P Require Import Traffic.
From S2P Require Import Pathfinder.
From S2P Require Import Tree.
From S2P Require Import Router.
From stdpp Require Import options.
Open Scope Z_scope.

Section Facts.
Context {DK : Dalek} {HO : HashOrder} {EN : Entropy} (murmur3_x64_128 : bytes -> Z -> option Z).
Implicit Types r : Router.

(** ** The coordinate cache *)

(** Every cached entry is what the walk would compute now. *)
Definition cache_ok r : Prop := forall k rp,
  rt_cache r !! k = Some rp -> get_root_and_path (rt_infos r) k = (rp_root rp, rp_path rp).

(** [r'] differs from [r] in the cache only, and the cache is still right. *)
Definition cache_only r r' : Prop := r' = r <| rt_cache := rt_cache r' |> /\ cache_ok r'.

Lemma cache_only_refl r : cache_ok r -> cache_only r r.
Proof. split; [by destruct r|done]. Qed.

Lemma cache_only_trans r1 r2 r3 : cache_only r1 r2 -> cache_only r2 r3 -> cache_only r1 r3.
Proof. intros [E1 _] [E2 Hc]. split; [|done]. rewrite E2 at 1. rewrite E1. done. Qed.

Lemma cache_only_fields r r' : cache_only r r' ->
  rt_infos r' = rt_infos r /\ rt_crypto r' = rt_crypto r /\ rt_peers r' = rt_peers r
  /\ rt_lags r' = rt_lags r /\ rt_pathfinder r' = rt_pathfinder r /\ rt_blooms r' = rt_blooms r
  /\ rt_bloom_transform r' = rt_bloom_transform r.
Proof. intros [-> _]. done. Qed.

(** The distance [get_dist] computes, without the cache. *)
Definition dist_to r (dest_path : list PeerPort) (k : PublicKey) : Z :=
  let '(root, path) := get_root_and_path (rt_infos r) k in
  if match rt_infos r !! root with Some info => negb (bool_decide (ri_parent info = root)) | None => true end
  then U64_MAX
  else if decide (root <> (get_root_and_path (rt_infos r) (self_key_of r)).1) then U64_MAX
  else path_dist dest_path path.

Lemma cached_root_and_path_spec r k : cache_ok r ->
  exists r', cached_root_and_path r k
             = (mkRouterPath (get_root_and_path (rt_infos r) k).1 (get_root_and_path (rt_infos r) k).2, r')
    /\ cache_only r r'.
Proof.
  intros Hc. unfold cached_root_and_path. destruct (rt_cache r !! k) as [rp|] eqn:Hk.
  - exists r. rewrite (Hc k rp Hk). split; [by destruct rp|by apply cache_only_refl].
  - destruct (get_root_and_path (rt_infos r) k) as [root path] eqn:Hp. eexists. split; [done|]. split; [done|].
    intros k' rp'. unfold set_field. simpl. intros [[<- <-]|[_ Hk']]%lookup_insert_Some; [done|by apply Hc].
Qed.

Lemma cached_coords_spec r k : cache_ok r ->
  exists r', cached_coords r k = (coords (rt_infos r) k, r') /\ cache_only r r'.
Proof.
  intros Hc. unfold cached_coords. destruct (cached_root_and_path_spec r k Hc) as (r' & -> & Hr). by exists r'.
Qed.

Lemma get_dist_spec r path k : cache_ok r ->
  exists r', get_dist r path k = (dist_to r path k, r') /\ cache_only r r'.
Proof.
  intros Hc. unfold get_dist, dist_to.
  destruct (cached_root_and_path_spec r (self_key_of r) Hc) as (r1 & -> & H1).
  pose proof (cache_only_fields _ _ H1) as (Hi & _).
  destruct (cached_root_and_path_spec r1 k (proj2 H1)) as (r2 & -> & H2). rewrite Hi.
  pose proof (cache_only_fields _ _ H2) as (Hi2 & _). rewrite Hi2, Hi.
  destruct (get_root_and_path (rt_infos r) k) as [root p]. simpl.
  assert (H12 : cache_only r r2) by (by eapply cache_only_trans).
  exists r2. destruct (match rt_infos r !! root with Some _ => _ | None => _ end); [done|]. by case_decide.
Qed.

Lemma dist_to_fields r r' path k : rt_infos r' = rt_infos r -> rt_crypto r' = rt_crypto r ->
  dist_to r' path k = dist_to r path k.
Proof. intros Hi Hc. unfold dist_to, self_key_of. by rewrite Hi, Hc. Qed.

Lemma dist_to_same r r' path k : cache_only r r' -> dist_to r' path k = dist_to r path k.
Proof. intros (Hi & Hc & _)%cache_only_fields. by apply dist_to_fields. Qed.

(** ** Greedy lookup *)

(** The connections to a peer key. *)
Definition links r (k : PublicKey) : list PeerEntry :=
  match rt_peers r !! k with Some peers => map_values peers | None => [] end.

Lemma collect_candidates_spec path d keys cands r : cache_ok r ->
  exists r', foldl (collect_candidates path d) (cands, r) keys
    = (cands ++ (keys ≫= fun k => if dist_to r path k <? d then links r k else []), r')
    /\ cache_only r r'.
Proof.
  revert cands r. induction keys as [|k keys IH]; intros cands r Hc; cbn [foldl].
  { exists r. simpl. rewrite app_nil_r. split; [done|by apply cache_only_refl]. }
  destruct (get_dist_spec r path k Hc) as (r1 & Hd & H1).
  assert (Hs : collect_candidates path d (cands, r) k = (if dist_to r path k <? d
    then (cands ++ match rt_peers r1 !! k with Some peers => map_values peers | None => [] end, r1)
    else (cands, r1))) by (unfold collect_candidates; by rewrite Hd).
  rewrite Hs. cbn [mbind list_bind].
  pose proof (cache_only_fields _ _ H1) as (_ & _ & Hp & _).
  assert (Hrest : forall cands', exists r', foldl (collect_candidates path d) (cands', r1) keys
    = (cands' ++ (keys ≫= fun k => if dist_to r path k <? d then links r k else []), r') /\ cache_only r r').
  { intros cands'. destruct (IH cands' r1 (proj2 H1)) as (r' & -> & H2). exists r'.
    split; [|by eapply cache_only_trans]. f_equal. f_equal. apply list_bind_ext; [|done].
    intros k'. unfold links. by rewrite (dist_to_same _ _ _ _ H1), Hp. }
  destruct (dist_to r path k <? d).
  - destruct (Hrest (cands ++ match rt_peers r1 !! k with Some peers => map_values peers | None => [] end))
      as (r' & -> & H2). exists r'. split; [|done]. rewrite <- app_assoc. unfold links at 2. by rewrite Hp.
  - apply Hrest.
Qed.

Lemma choose_candidate_spec path cands best r : cache_ok r ->
  exists best' r', foldl (choose_candidate path) (best, r) cands = (best', r') /\ cache_only r r'
    /\ match best' with
       | Some bp => bp_entry bp ∈ cands \/ best = Some bp
       | None => best = None /\ cands = []
       end.
Proof.
  revert best r. induction cands as [|p cands IH]; intros best r Hc; cbn [foldl].
  { exists best, r. split; [done|]. split; [by apply cache_only_refl|]. destruct best; auto. }
  destruct (get_dist_spec r path (pe_key p) Hc) as (r1 & Hd & H1).
  assert (Hstep : exists bp1, choose_candidate path (best, r) p = (Some bp1, r1)
    /\ (bp_entry bp1 = p \/ best = Some bp1)).
  { unfold choose_candidate. rewrite Hd. destruct best as [bp|]; [|eexists; split; [done|by left]].
    destruct (candidate_wins _ _ _ _); eexists; (split; [done|]); [by left|by right]. }
  destruct Hstep as (bp1 & -> & Hbp1). destruct (IH (Some bp1) r1 (proj2 H1)) as (best' & r' & -> & H2 & Hb).
  exists best', r'. split; [done|]. split; [by eapply cache_only_trans|].
  destruct best' as [bp|]; [|by destruct Hb]. destruct Hb as [Hb|[= <-]].
  - left. by right.
  - destruct Hbp1 as [<-| ->]; [left; left|by right].
Qed.

(** The result of [lookup]. *)
Definition lookup_result r (path : list PeerPort) (watermark : Z) (res : option PeerId) (watermark' : Z)
    : Prop :=
  let self_dist := dist_to r path (self_key_of r) in
  (watermark <= self_dist /\ res = None /\ watermark' = watermark)
  \/ (self_dist < watermark /\ watermark' = self_dist
      /\ match res with
         | Some id => exists k e, e ∈ links r k /\ pe_id e = id /\ dist_to r path k < self_dist
         | None => forall k, is_Some (rt_peers r !! k) -> links r k <> [] -> self_dist <= dist_to r path k
         end).

Lemma lookup_spec r path watermark : cache_ok r ->
  exists res watermark' r', lookup r path watermark = ((res, watermark'), r')
    /\ cache_only r r' /\ lookup_result r path watermark res watermark'.
Proof.
  intros Hc. unfold lookup, lookup_result. destruct (get_dist_spec r path (self_key_of r) Hc) as (r1 & -> & H1).
  destruct (Z.geb_spec (dist_to r path (self_key_of r)) watermark) as [Hge|Hlt].
  { exists None, watermark, r1. split; [done|]. split; [done|]. left. auto. }
  set (d := dist_to r path (self_key_of r)) in *.
  destruct (collect_candidates_spec path d (map_keys (rt_peers r1)) [] r1 (proj2 H1)) as (r2 & Hcol & H2).
  rewrite Hcol. simpl.
  match goal with |- context [foldl (choose_candidate path) (None, r2) ?l] => set (cands := l) end.
  destruct (choose_candidate_spec path cands None r2 (proj2 H2)) as (best & r3 & -> & H3 & Hb).
  eexists _, d, r3. split; [done|]. split; [eauto using cache_only_trans|]. right. split; [lia|]. split; [done|].
  pose proof (cache_only_fields _ _ H1) as (_ & _ & Hp & _).
  assert (Hin : forall e, e ∈ cands <-> exists k, is_Some (rt_peers r !! k) /\ dist_to r path k < d /\ e ∈ links r k).
  { intros e. unfold cands. rewrite list_elem_of_bind. rewrite Hp. setoid_rewrite elem_of_map_keys.
    split; [intros (k & He & Hk)|intros (k & Hk & Hlt' & He)].
    - exists k. rewrite (dist_to_same _ _ _ _ H1) in He. unfold links in *. rewrite Hp in He.
      destruct (Z.ltb_spec (dist_to r path k) d); [done|by apply not_elem_of_nil in He].
    - exists k. split; [|done]. rewrite (dist_to_same _ _ _ _ H1). unfold links in *. rewrite Hp.
      by rewrite (proj2 (Z.ltb_lt _ _) Hlt'). }
  destruct best as [bp|]; simpl.
  - destruct Hb as [Hb|Hb]; [|done]. apply Hin in Hb as (k & _ & Hd & He). by exists k, (bp_entry bp).
  - destruct Hb as [_ Hnil]. intros k Hk Hl. destruct (Z.le_gt_cases d (dist_to r path k)); [done|exfalso].
    destruct (links r k) as [|e es] eqn:He; [done|].
    assert (e ∈ cands) as Hex by (apply Hin; exists k; split_and!; [done|lia|rewrite He; left]).
    rewrite Hnil in Hex. by apply not_elem_of_nil in Hex.
Qed.
(** ** Nested routing terminates *)

Lemma total_cached_nonneg {A} (g : A -> option TrafficPacket) (m : gmap PublicKey A) :
  0 <= total (fun x => is_cached (g x)) m.
Proof. apply total_ge. intros k x _. by destruct (g x). Qed.

(** A notification that releases a packet leaves one packet fewer waiting. *)
Lemma accept_notify_cached pf source x seq path now :
  let '((_, traffic), pf') := accept_notify pf source x seq path now in
  match traffic with
  | Some _ => (cached_packets pf' < cached_packets pf)%nat
  | None => (cached_packets pf' <= cached_packets pf)%nat
  end.
Proof.
  unfold accept_notify, cached_packets.
  pose proof (total_cached_nonneg pi_cached_traffic (pf_paths pf)) as Hp.
  pose proof (total_cached_nonneg ru_traffic (pf_rumors pf)) as Hr.
  destruct (pf_paths pf !! source) as [i|] eqn:Hi.
  - destruct (_ <=? _); [simpl; lia|]. destruct (_ && _); [simpl; lia|]. unfold set_field. simpl.
    rewrite (total_insert _ _ _ i) by done. simpl.
    pose proof (total_lookup_le (fun i => is_cached (pi_cached_traffic i)) (pf_paths pf) source i) as Hle.
    simpl in Hle. destruct (pi_cached_traffic i); simpl in *; [|lia].
    assert (1 <= total (fun i => is_cached (pi_cached_traffic i)) (pf_paths pf)); [|lia].
    apply Hle; [|done]. intros k j _. by destruct (pi_cached_traffic j).
  - destruct (pf_rumors pf !! x) as [u|] eqn:Hu; [|simpl; lia].
    pose proof (total_lookup_le (fun u => is_cached (ru_traffic u)) (pf_rumors pf) x u) as Hle.
    simpl in Hle. destruct (ru_traffic u) as [t|] eqn:Ht; [case_decide|]; unfold set_field; simpl;
      rewrite total_insert_fresh, (total_insert _ _ _ u) by done; simpl; rewrite ?Ht; simpl; [|lia|lia].
    assert (1 <= total (fun u => is_cached (ru_traffic u)) (pf_rumors pf)); [|lia].
    apply Hle; [|done]. intros k j _. by destruct (ru_traffic j).
Qed.

Lemma alter_cached (f : PathInfo -> PathInfo) pf dest :
  (forall i, pi_cached_traffic (f i) = pi_cached_traffic i) ->
  cached_packets (pf <| pf_paths ::= alter f dest |>) = cached_packets pf.
Proof.
  intros Hf. unfold cached_packets, set_field. simpl. by rewrite total_alter by (intros; by rewrite Hf).
Qed.

(** Changing anything but the tree and the cache keeps the cache right. *)
Lemma cache_ok_pathfinder r f : cache_ok r -> cache_ok (r <| rt_pathfinder ::= f |>).
Proof. done. Qed.

(** The two routing functions agree on states with fewer waiting packets. *)
Definition agree_below (n : nat) (route1 route2 : Router -> TrafficPacket -> list RouterAction * Router)
    : Prop := forall r tr, cache_ok r -> (cached_packets (rt_pathfinder r) < n)%nat -> route1 r tr = route2 r tr.

Section Agree.
Context (route1 route2 : Router -> TrafficPacket -> list RouterAction * Router) (now unix_now : Z).

Lemma notify_agree r notify : cache_ok r ->
  agree_below (cached_packets (rt_pathfinder r)) route1 route2 ->
  handle_notify_internal route1 now r notify = handle_notify_internal route2 now r notify.
Proof.
  intros Hc Ha. unfold handle_notify_internal.
  destruct (lookup_spec r (pn_path notify) (pn_watermark notify) Hc) as (res & wm & r1 & -> & H1 & _).
  destruct res; [done|]. case_decide; [done|]. destruct (negb _); [done|].
  pose proof (cache_only_fields _ _ H1) as (_ & _ & _ & _ & Hpf & _).
  pose proof (accept_notify_cached (rt_pathfinder r1) (pn_source notify) (x_key_of r1 (pn_source notify))
    (pni_seq (pn_info notify)) (pni_path (pn_info notify)) now) as Hdec.
  destruct (accept_notify _ _ _ _ _ _) as [[accepted traffic] pf]. destruct traffic as [t|]; [|done].
  set (r2 := r1 <| rt_pathfinder := pf |>).
  assert (Hc2 : cache_ok r2) by exact (proj2 H1).
  destruct (cached_coords_spec r2 (self_key_of r2) Hc2) as (r3 & -> & H3).
  pose proof (cache_only_fields _ _ H3) as (_ & _ & _ & _ & Hpf3 & _).
  rewrite Ha; [done|apply H3|]. rewrite Hpf3. unfold r2. simpl. rewrite <- Hpf. exact Hdec.
Qed.

Lemma lookup_internal_agree r from_key l : cache_ok r ->
  agree_below (cached_packets (rt_pathfinder r)) route1 route2 ->
  handle_lookup_internal murmur3_x64_128 route1 now unix_now r from_key l
  = handle_lookup_internal murmur3_x64_128 route2 now unix_now r from_key l.
Proof.
  intros Hc Ha. unfold handle_lookup_internal. case_decide; [|done].
  destruct (cached_coords_spec r (self_key_of r) Hc) as (r1 & -> & H1).
  pose proof (cache_only_fields _ _ H1) as (_ & _ & _ & _ & Hpf & _). destruct (negb _).
  - rewrite notify_agree; [done|exact (proj2 H1)|]. unfold set_field. simpl. by rewrite Hpf.
  - rewrite notify_agree; [done|exact (proj2 H1)|]. by rewrite Hpf.
Qed.

Lemma send_lookup_agree r dest : cache_ok r ->
  agree_below (cached_packets (rt_pathfinder r)) route1 route2 ->
  do_send_lookup murmur3_x64_128 route1 now unix_now r dest
  = do_send_lookup murmur3_x64_128 route2 now unix_now r dest.
Proof.
  intros Hc Ha. unfold do_send_lookup. destruct (should_throttle_lookup _ _ _ _); [done|].
  set (r1 := r <| rt_pathfinder ::= _ |>). assert (Hc1 : cache_ok r1) by exact Hc.
  destruct (cached_coords_spec r1 (self_key_of r1) Hc1) as (r2 & -> & H2).
  apply lookup_internal_agree; [apply H2|].
  pose proof (cache_only_fields _ _ H2) as (_ & _ & _ & _ & -> & _). unfold r1. simpl.
  unfold mark_lookup_sent. by rewrite alter_cached.
Qed.

Lemma broken_agree r broken : cache_ok r ->
  agree_below (cached_packets (rt_pathfinder r)) route1 route2 ->
  handle_broken_internal murmur3_x64_128 route1 now unix_now r broken
  = handle_broken_internal murmur3_x64_128 route2 now unix_now r broken.
Proof.
  intros Hc Ha. unfold handle_broken_internal.
  destruct (lookup_spec r (pb_path broken) (pb_watermark broken) Hc) as (res & wm & r1 & -> & H1 & _).
  destruct res; [done|]. case_decide; [done|]. destruct (negb _); [|done].
  pose proof (cache_only_fields _ _ H1) as (_ & _ & _ & _ & Hpf & _).
  apply send_lookup_agree; [exact (proj2 H1)|]. unfold set_field. simpl.
  unfold Pathfinder_handle_broken. by rewrite alter_cached, Hpf.
Qed.

Lemma route_step_agree r tr : cache_ok r ->
  agree_below (cached_packets (rt_pathfinder r)) route1 route2 ->
  route_traffic_step murmur3_x64_128 route1 now unix_now r tr
  = route_traffic_step murmur3_x64_128 route2 now unix_now r tr.
Proof.
  intros Hc Ha. unfold route_traffic_step.
  destruct (lookup_spec r (tp_path tr) (tp_watermark tr) Hc) as (res & wm & r1 & -> & H1 & _).
  destruct res; [done|]. case_decide; [done|]. unfold do_broken. apply broken_agree; [apply H1|].
  by pose proof (cache_only_fields _ _ H1) as (_ & _ & _ & _ & -> & _).
Qed.
End Agree.

Lemma route_fuel_irrelevant now unix_now n m r tr : cache_ok r ->
  (cached_packets (rt_pathfinder r) < n)%nat -> (cached_packets (rt_pathfinder r) < m)%nat ->
  route_traffic_fuel murmur3_x64_128 n now unix_now r tr
  = route_traffic_fuel murmur3_x64_128 m now unix_now r tr.
Proof.
  revert m r tr. induction n as [|n IH]; intros [|m] r tr Hc Hn Hm; [lia..|]. simpl.
  apply route_step_agree; [done|]. intros r' tr' Hc' Hlt. apply IH; [done|lia|lia].
Qed.

Lemma route_traffic_unfold now unix_now r tr : cache_ok r ->
  route_traffic murmur3_x64_128 now unix_now r tr
  = route_traffic_step murmur3_x64_128 (route_traffic murmur3_x64_128 now unix_now) now unix_now r tr.
Proof.
  intros Hc. unfold route_traffic at 1. simpl. apply route_step_agree; [done|].
  intros r' tr' Hc' Hlt. unfold route_traffic. apply route_fuel_irrelevant; [done|lia|lia].
Qed.

(** ** Hops *)

Lemma path_dist_loop_nonneg d a b : 0 <= d -> 0 <= path_dist_loop d a b.
Proof.
  revert b d. induction a as [|x a IH]; intros [|y b] d Hd; simpl; try done.
  destruct (x =? y); [|done]. apply IH, wrap64_is_u64.
Qed.

Lemma dist_to_nonneg r path k : 0 <= dist_to r path k.
Proof.
  unfold dist_to. destruct (get_root_and_path (rt_infos r) k) as [root p].
  destruct (match rt_infos r !! root with Some _ => _ | None => _ end); [done|]. case_decide; [done|].
  apply path_dist_loop_nonneg. lia.
Qed.

(** A node in state [r] forwards the packet [tr] as [tr']. *)
Definition forwards r (tr tr' : TrafficPacket) : Prop := exists now unix_now id r',
  cache_ok r
  /\ (exists wm r0, lookup r (tp_path tr) (tp_watermark tr) = ((Some id, wm), r0))
  /\ route_traffic murmur3_x64_128 now unix_now r tr = ([SendTraffic id tr'], r').

Lemma forwards_spec r tr tr' : forwards r tr tr' ->
  tr' = tr <| tp_watermark := dist_to r (tp_path tr) (self_key_of r) |>
  /\ dist_to r (tp_path tr) (self_key_of r) < tp_watermark tr.
Proof.
  intros (now & unix_now & id & r' & Hc & (wm & r0 & Hl) & Hr). rewrite route_traffic_unfold in Hr by done.
  unfold route_traffic_step in Hr. rewrite Hl in Hr. injection Hr as <- <-.
  destruct (lookup_spec r (tp_path tr) (tp_watermark tr) Hc) as (res & wm' & r1 & Hl' & _ & Hres).
  rewrite Hl in Hl'. injection Hl' as <- <- <-.
  destruct Hres as [(_ & Hn & _)|(Hlt & -> & _)]; [done|]. auto.
Qed.

(** A packet travels through nodes in the given states, whatever those are. *)
Inductive travels : TrafficPacket -> list Router -> TrafficPacket -> Prop :=
| travels_nil tr : travels tr [] tr
| travels_cons r rs tr tr1 tr2 : forwards r tr tr1 -> travels tr1 rs tr2 -> travels tr (r :: rs) tr2.

Lemma travels_watermark tr rs tr' : travels tr rs tr' ->
  tp_watermark tr' <= tp_watermark tr - Z.of_nat (length rs)
  /\ (rs <> [] \/ 0 <= tp_watermark tr -> 0 <= tp_watermark tr')
  /\ tr' = tr <| tp_watermark := tp_watermark tr' |>.
Proof.
  induction 1 as [tr|r rs tr tr1 tr2 Hf _ IH]; [simpl; split_and!; [lia|by intros [?|?]|by destruct tr]|].
  destruct (forwards_spec _ _ _ Hf) as [-> Hlt]. pose proof (dist_to_nonneg r (tp_path tr) (self_key_of r)).
  destruct IH as (Hw & Hn & Hp). unfold set_field in *. simpl in *.
  split_and!; [lia| |exact Hp]. intros _. apply Hn. by right.
Qed.

(** ** Properties *)

(** C2: [Router::lookup] is exact. With a right coordinate cache it never
    changes anything but the cache, and keeps it right. It refuses exactly when
    our own distance to the destination is not below the watermark; otherwise
    the watermark becomes our distance, and the next hop is a connection of a
    peer strictly closer than we are, or none if no connected peer is closer. *)
Theorem lookup_exact r path watermark (Hc : cache_ok r) :
  exists res watermark' r', lookup r path watermark = ((res, watermark'), r')
    /\ cache_only r r' /\ lookup_result r path watermark res watermark'.
Proof. by apply lookup_spec. Qed.

(** The mutual recursion of [route_traffic], [do_broken], [do_send_lookup],
    [handle_lookup_internal] and [handle_notify_internal] terminates: every
    nested call routes a packet taken out of the path cache or a rumor, so the
    function is defined for every state and satisfies its recursive equation. *)
Theorem route_traffic_terminates now unix_now r tr fuel
    (Hc : cache_ok r) (Hfuel : (cached_packets (rt_pathfinder r) < fuel)%nat) :
  route_traffic_fuel murmur3_x64_128 fuel now unix_now r tr = route_traffic murmur3_x64_128 now unix_now r tr
  /\ route_traffic murmur3_x64_128 now unix_now r tr
     = route_traffic_step murmur3_x64_128 (route_traffic murmur3_x64_128 now unix_now) now unix_now r tr.
Proof.
  split; [|by apply route_traffic_unfold]. unfold route_traffic. apply route_fuel_irrelevant; [done|done|lia].
Qed.

(** C3: Greedy forwarding cannot loop: every hop lowers the packet's watermark
    strictly, whatever (possibly inconsistent) trees the nodes on the way
    believe in, so a packet makes at most as many hops as the drop of its
    watermark, which never becomes negative. Nothing but the watermark changes:
    the path, the path back, source, destination and payload arrive as they were
    sent. The coordinates that a node has cached are those of the tree it believes
    in, which the router keeps up. *)
Theorem forwarding_hops_bounded tr rs tr' (Ht : travels tr rs tr') :
  Z.of_nat (length rs) <= tp_watermark tr - tp_watermark tr'
  /\ (rs <> [] -> 0 <= tp_watermark tr')
  /\ tr' = tr <| tp_watermark := tp_watermark tr' |>.
Proof.
  destruct (travels_watermark _ _ _ Ht) as (? & Hn & ?).
  split_and!; try done; [lia|]. intros Hne. apply Hn. by left.
Qed.

(** The direct-peer shortcut is safe: a packet sent with watermark 0 is
    never forwarded by the node that receives it. If it is for that node it is
    delivered, whatever its path says, and a path back to the sender is
    learned only if none is cached. *)
Theorem zero_watermark_delivered now unix_now r tr
    (Hc : cache_ok r) (Hw : tp_watermark tr = 0) (Hd : tp_dest tr = self_key_of r) :
  exists r', route_traffic murmur3_x64_128 now unix_now r tr
             = ([PathNotifyCallback (tp_source tr); DeliverTraffic tr], r')
    /\ cache_ok r' /\ rt_infos r' = rt_infos r
    /\ rt_pathfinder r'
       = refresh_if_coords_match (learn_path_from_traffic (rt_pathfinder r) (tp_source tr) (tp_from tr) now)
           (tp_source tr) (tp_from tr) now.
Proof.
  rewrite route_traffic_unfold by done. unfold route_traffic_step.
  destruct (lookup_spec r (tp_path tr) (tp_watermark tr) Hc) as (res & wm & r1 & -> & H1 & Hres).
  pose proof (dist_to_nonneg r (tp_path tr) (self_key_of r)).
  destruct Hres as [(_ & -> & _)|(Hlt & _)]; [|lia].
  pose proof (cache_only_fields _ _ H1) as (Hi & Hcr & _ & _ & Hpf & _).
  rewrite decide_True by (unfold self_key_of in *; by rewrite Hcr).
  eexists. split; [done|]. split; [exact (proj2 H1)|]. unfold set_field. simpl. by rewrite Hpf.
Qed.
End Facts.

(** ** Witnesses *)

Definition sample_entropy : Entropy.
Proof. refine {| rand_u64 := fun n => Z.of_nat n mod 2 ^ 64 |}. intros n. apply Z.mod_pos_bound. lia. Defined.

Definition sample_config : RouterConfig := mkRouterConfig 240 300 60 1 None.

Definition sample_router : @Router toy_dalek :=
  @Router_new toy_dalek (@Crypto_new toy_dalek 3) sample_config 0.

Lemma sample_cache_ok : @cache_ok toy_dalek sample_router.
Proof. intros k rp Hk. vm_compute in Hk. discriminate. Qed.

(** Node 3 with its parent 1 (the root) as a connected peer. *)
Definition sample_node : @Router toy_dalek :=
  sample_router <| rt_infos := <[node 3 := sample_info 1 8]> (<[node 1 := sample_info 1 0]> ∅) |>
    <| rt_peers := {[ node 1 := {[ 11 := mkPeerEntry 11 (node 1) 5 0 0 ]} ]} |>.

Lemma sample_node_cache_ok : @cache_ok toy_dalek sample_node.
Proof. intros k rp Hk. vm_compute in Hk. discriminate. Qed.

Lemma lookup_exact_witness :
  exists r', @lookup toy_dalek id_order sample_node [7; 9] 100 = ((Some 11, 3), r').
Proof.
  destruct (@lookup_exact toy_dalek id_order sample_node [7; 9] 100 sample_node_cache_ok)
    as (res & wm & r' & Hl & _ & _).
  exists r'. rewrite Hl. f_equal.
  transitivity (@lookup toy_dalek id_order sample_node [7; 9] 100).1; [by rewrite Hl|]. by vm_compute.
Defined.

Lemma route_traffic_terminates_witness :
  @route_traffic_fuel toy_dalek id_order sample_murmur 5 0 0 sample_node (sample_packet 1 2 10)
  = @route_traffic toy_dalek id_order sample_murmur 0 0 sample_node (sample_packet 1 2 10).
Proof.
  apply (@route_traffic_terminates toy_dalek id_order sample_murmur 0 0 sample_node (sample_packet 1 2 10) 5
    sample_node_cache_ok). vm_compute. lia.
Defined.

Lemma forwarding_hops_bounded_witness :
  let tr := (sample_packet 3 9 10) <| tp_path := [7; 9] |> <| tp_watermark := 100 |> in
  exists tr', @travels toy_dalek id_order sample_murmur tr [sample_node] tr' /\ 1 <= 100 - tp_watermark tr'.
Proof.
  intros tr. destruct (@lookup_exact toy_dalek id_order sample_node [7; 9] 100 sample_node_cache_ok)
    as (res & wm & r0 & Hl & _ & _).
  assert (Hres : (res, wm) = (Some 11, 3)).
  { transitivity (@lookup toy_dalek id_order sample_node [7; 9] 100).1; [by rewrite Hl|]. by vm_compute. }
  injection Hres as -> ->. exists (tr <| tp_watermark := 3 |>).
  assert (Ht : @travels toy_dalek id_order sample_murmur tr [sample_node] (tr <| tp_watermark := 3 |>)).
  { eapply travels_cons; [|apply travels_nil]. exists 0, 0, 11, r0. split; [exact sample_node_cache_ok|].
    split; [by exists 3, r0|]. rewrite route_traffic_unfold by exact sample_node_cache_ok.
    unfold route_traffic_step. change (tp_path tr) with [7; 9]. change (tp_watermark tr) with 100. by rewrite Hl. }
  split; [exact Ht|].
  destruct (@forwarding_hops_bounded toy_dalek id_order sample_murmur _ _ _ Ht) as [Hb _]. exact Hb.
Defined.

Lemma zero_watermark_delivered_witness :
  let tr := (sample_packet 1 3 10) <| tp_watermark := 0 |> in
  exists r', @route_traffic toy_dalek id_order sample_murmur 0 0 sample_node tr
             = ([PathNotifyCallback (node 1); DeliverTraffic tr], r').
Proof.
  intros tr.
  destruct (@zero_watermark_delivered toy_dalek id_order sample_murmur 0 0 sample_node tr
    sample_node_cache_ok eq_refl eq_refl) as (r' & Hr & _). by exists r'.
Defined.
