(* ===== verification/Actor.v ===== *)
(** * Actor: the router task

    Models the router actor of [crates/ironwood/src/core.rs]: the messages
    [RouterMsg] that change the router, [handle_router_msg], the maintenance
    pass of [router_actor] and its scheduling. A message's actions are returned;
    sending them is [dispatch_actions], outside this file. The query messages
    only read the router (or warm its cache) and are left out. *)

From S2P Require Import Prelude.
From S2P Require Import Wire.
From S2P Require Import Bloom.
From S2P Require Import Crypto.
From S2P Require Import Traffic.
From S2P Require Import Pathfinder.
From S2P Require Import Tree.
From S2P Require Import Router.
From stdpp Require Import options.
Open Scope Z_scope.

Inductive RouterMsg :=
| MsgAddPeer (entry : PeerEntry)
| MsgRemovePeer (peer_id : PeerId) (key : PublicKey) (port : PeerPort)
| MsgHandleRequest (peer_id : PeerId) (peer_key : PublicKey) (req : SigReq)
| MsgHandleResponse (peer_id : PeerId) (key : PublicKey) (res : SigRes) (rtt : Z)
| MsgHandleAnnounce (peer_id : PeerId) (peer_key : PublicKey) (ann : RouterAnnounce)
| MsgHandleBloom (peer_key : PublicKey) (filter : BloomFilter)
| MsgHandleTraffic (traffic : TrafficPacket)
| MsgSendTraffic (traffic : TrafficPacket)
| MsgHandleLookup (peer_key : PublicKey) (lookup : PathLookup)
| MsgHandleNotify (peer_key : PublicKey) (notify : PathNotify)
| MsgHandleBroken (broken : PathBroken)
| MsgSendLookup (our_key dest : PublicKey)
| MsgForceRefresh
| MsgForceLookup (dest : PublicKey).

Definition is_topology_msg (msg : RouterMsg) : bool :=
  match msg with
  | MsgAddPeer _ | MsgRemovePeer _ _ _ | MsgHandleResponse _ _ _ _ | MsgHandleAnnounce _ _ _
  | MsgHandleBloom _ _ => true
  | _ => false
  end.

Definition IDLE_MAINT_INTERVAL : Z := 10000000000.
Definition MAINT_DEBOUNCE : Z := 100000000.
Definition WALL_JUMP_THRESHOLD : Z := 30000000000.

Section Actor.
Context `{Dalek} `{HashOrder} `{Entropy} (murmur3_x64_128 : bytes -> Z -> option Z).

Definition handle_router_msg (now unix_now : Z) (router : Router) (msg : RouterMsg)
    : outcome (list RouterAction * Router) :=
  match msg with
  | MsgAddPeer entry => Ret (add_peer router entry)
  | MsgRemovePeer peer_id key port => Ret (remove_peer router peer_id key port)
  | MsgHandleRequest peer_id peer_key req =>
      match rt_peers router !! peer_key ≫= fun peers_map => peers_map !! peer_id with
      | Some entry => Ret ([handle_request_with_data router entry req], router)
      | None => Ret ([], router)
      end
  | MsgHandleResponse peer_id key res rtt => Ret ([], handle_response router peer_id key res rtt)
  | MsgHandleAnnounce peer_id peer_key ann => Ret (handle_announce router peer_id peer_key ann now)
  | MsgHandleBloom peer_key filter => Ret ([], handle_bloom router peer_key filter)
  | MsgHandleTraffic traffic => Ret (handle_traffic murmur3_x64_128 now unix_now router traffic)
  | MsgSendTraffic traffic => Ret (send_traffic murmur3_x64_128 now unix_now router traffic)
  | MsgHandleLookup peer_key l => Ret (handle_lookup murmur3_x64_128 now unix_now router peer_key l)
  | MsgHandleNotify _ notify => Ret (handle_notify murmur3_x64_128 now unix_now router notify)
  | MsgHandleBroken broken => Ret (handle_broken murmur3_x64_128 now unix_now router broken)
  | MsgSendLookup our_key dest =>
      let xform := x_key_of router dest in
      let router := router <| rt_pathfinder ::= fun pf => (ensure_rumor pf xform now).2 |> in
      Ret (send_traffic murmur3_x64_128 now unix_now router (TrafficPacket_new our_key dest []))
  | MsgForceRefresh => do_maintenance murmur3_x64_128 now unix_now (force_refresh router now)
  | MsgForceLookup dest => Ret (force_lookup murmur3_x64_128 now unix_now router dest)
  end.

(** The actor's loop variables. Wall-clock readings are in nanoseconds. *)
Record RouterActor := mkRouterActor {
  ac_router : Router;
  ac_last_wall : Z;
  ac_next_maint : Z
}.

#[export] Instance RouterActor_eta : Settable RouterActor := fun a =>
  mkRouterActor (ac_router a) (ac_last_wall a) (ac_next_maint a).

(** The branch of the timer. *)
Definition actor_maintenance (now wall_now unix_now : Z) (a : RouterActor)
    : outcome (list RouterAction * RouterActor) :=
  let router := ac_router a in
  let router := if (ac_last_wall a <=? wall_now) && (WALL_JUMP_THRESHOLD <=? wall_now - ac_last_wall a)
                then force_refresh router now else router in
  let router := expire_infos router now in
  res ← do_maintenance murmur3_x64_128 now unix_now router;
  Ret (fst res, mkRouterActor (snd res) wall_now (now + IDLE_MAINT_INTERVAL)).

(** The branch of the channel. *)
Definition actor_message (now unix_now : Z) (a : RouterActor) (msg : RouterMsg)
    : outcome (list RouterAction * RouterActor) :=
  res ← handle_router_msg now unix_now (ac_router a) msg;
  let soon := now + MAINT_DEBOUNCE in
  let next_maint := if is_topology_msg msg && (soon <? ac_next_maint a) then soon else ac_next_maint a in
  Ret (fst res, mkRouterActor (snd res) (ac_last_wall a) next_maint).

Inductive actor_event :=
| EvTimer (now wall_now unix_now : Z)
| EvMessage (now unix_now : Z) (msg : RouterMsg).

Definition actor_step (a : RouterActor) (ev : actor_event) : outcome (list RouterAction * RouterActor) :=
  match ev with
  | EvTimer now wall_now unix_now => actor_maintenance now wall_now unix_now a
  | EvMessage now unix_now msg => actor_message now unix_now a msg
  end.

(** All events in order; the actions of each. *)
Fixpoint actor_run (a : RouterActor) (evs : list actor_event) : outcome (list RouterAction * RouterActor) :=
  match evs with
  | [] => Ret ([], a)
  | ev :: evs =>
      res ← actor_step a ev;
      rest ← actor_run (snd res) evs;
      Ret (fst res ++ fst rest, snd rest)
  end.
End Actor.
