(* ===== verification/RouterInv.v ===== *)
(** * RouterInv: the router's invariant over every message

    The coordinate cache, the Bloom filters and the peer tables stay consistent
    under every message and maintenance pass of the router actor, so the actor
    never panics. *)

From S2P Require Import Prelude.
From S2P Require Import Wire.
From S2P Require Import Bloom.
From S2P Require Import Crypto.
From S2P Require Import Traffic.
From S2P Require Import Pathfinder.
From S2P Require Import Tree.
From S2P Require Import Router.
From S2P Require Import RouterFacts.
From S2P Require Import Actor.
From stdpp Require Import options.
Open Scope Z_scope.

Section Inv.
Context {DK : Dalek} {HO : HashOrder} {EN : Entropy} (murmur3_x64_128 : bytes -> Z -> option Z).
Implicit Types r : Router.

(** The connections of a peer, under their ids. *)
Definition links_ok (k : PublicKey) (m : gmap PeerId PeerEntry) : Prop :=
  m <> ∅ /\ map_Forall (fun id e => pe_id e = id /\ pe_key e = k) m.

Record router_inv r : Prop := {
  ri_cache : cache_ok r;
  ri_blooms : blooms_wf (rt_blooms r);
  ri_links : map_Forall links_ok (rt_peers r);
  ri_sent_dom : dom (rt_sent r) = dom (rt_peers r);
  ri_blooms_dom : dom (rt_blooms r) = dom (rt_peers r);
  ri_requests_dom : dom (rt_requests r) ⊆ dom (rt_peers r);
  ri_responses_dom : dom (rt_responses r) ⊆ dom (rt_requests r);
  ri_times_dom : dom (rt_info_times r) = dom (rt_infos r)
}.

(** ** Routing only touches the cache and the pathfinder *)

Definition routing_only r r' : Prop :=
  r' = r <| rt_cache := rt_cache r' |> <| rt_pathfinder := rt_pathfinder r' |> /\ cache_ok r'.

Lemma routing_only_inv r r' : routing_only r r' -> router_inv r -> router_inv r'.
Proof. intros [-> Hc] []. by split. Qed.

Lemma routing_only_trans r1 r2 r3 : routing_only r1 r2 -> routing_only r2 r3 -> routing_only r1 r3.
Proof. intros [E1 _] [E2 Hc]. split; [|done]. rewrite E2 at 1. rewrite E1. done. Qed.

Lemma cache_only_routing r r' : cache_only r r' -> routing_only r r'.
Proof. intros [E Hc]. split; [|done]. rewrite E at 1. rewrite E. by destruct r. Qed.

Lemma routing_only_refl r : cache_ok r -> routing_only r r.
Proof. intros. by apply cache_only_routing, cache_only_refl. Qed.

Lemma pathfinder_routing r f : cache_ok r -> routing_only r (r <| rt_pathfinder ::= f |>).
Proof. intros Hc. split; [by destruct r|done]. Qed.

(** A routing function that only touches the cache and the pathfinder. *)
Definition routes_only (route : Router -> TrafficPacket -> list RouterAction * Router) : Prop :=
  forall r tr, cache_ok r -> routing_only r (route r tr).2.

Section Handlers.
Context (route : Router -> TrafficPacket -> list RouterAction * Router) (now unix_now : Z).
Context (Hroute : routes_only route).

Lemma notify_routing r notify : cache_ok r ->
  routing_only r (handle_notify_internal route now r notify).2.
Proof using Hroute.
  intros Hc. unfold handle_notify_internal.
  destruct (lookup_spec r (pn_path notify) (pn_watermark notify) Hc) as (res & wm & r1 & -> & H1 & _).
  apply cache_only_routing in H1. destruct res; [done|]. case_decide; [done|]. destruct (negb _); [done|].
  destruct (accept_notify _ _ _ _ _ _) as [[accepted traffic] pf].
  assert (H2 : routing_only r (r1 <| rt_pathfinder := pf |>)).
  { eapply routing_only_trans; [exact H1|]. apply (pathfinder_routing r1 (fun _ => pf)). apply H1. }
  destruct traffic as [t|]; [|done].
  destruct (cached_coords_spec (r1 <| rt_pathfinder := pf |>) (self_key_of (r1 <| rt_pathfinder := pf |>)) (proj2 H2))
    as (r3 & -> & H3). apply cache_only_routing in H3.
  match goal with |- context [route r3 ?t] => pose proof (Hroute r3 t (proj2 H3)) as H4; destruct (route r3 t) as [acts r4] end.
  simpl in *. eapply routing_only_trans; [exact H2|]. by eapply routing_only_trans.
Qed.

Lemma lookup_routing r from_key l : cache_ok r ->
  routing_only r (handle_lookup_internal murmur3_x64_128 route now unix_now r from_key l).2.
Proof using Hroute.
  intros Hc. unfold handle_lookup_internal. case_decide; [|by apply routing_only_refl].
  destruct (cached_coords_spec r (self_key_of r) Hc) as (r1 & -> & H1). apply cache_only_routing in H1.
  match goal with |- context [let '(_, _) := ?x in _] => assert (Hx : routing_only r x.2) end.
  { destruct (negb _); [|done]. eapply routing_only_trans; [exact H1|]. apply pathfinder_routing, H1. }
  destruct (if negb _ then _ else _) as [info r2]. simpl in Hx.
  match goal with |- context [handle_notify_internal route now r2 ?n] =>
    pose proof (notify_routing r2 n (proj2 Hx)) as H3; destruct (handle_notify_internal route now r2 n) end.
  by eapply routing_only_trans.
Qed.

Lemma send_lookup_routing r dest : cache_ok r ->
  routing_only r (do_send_lookup murmur3_x64_128 route now unix_now r dest).2.
Proof using Hroute.
  intros Hc. unfold do_send_lookup. destruct (should_throttle_lookup _ _ _ _); [by apply routing_only_refl|].
  set (r1 := r <| rt_pathfinder ::= _ |>). assert (H1 : routing_only r r1) by (by apply pathfinder_routing).
  destruct (cached_coords_spec r1 (self_key_of r1) (proj2 H1)) as (r2 & -> & H2). apply cache_only_routing in H2.
  eapply routing_only_trans; [exact H1|]. eapply routing_only_trans; [exact H2|]. apply lookup_routing, H2.
Qed.

Lemma broken_routing r broken : cache_ok r ->
  routing_only r (handle_broken_internal murmur3_x64_128 route now unix_now r broken).2.
Proof using Hroute.
  intros Hc. unfold handle_broken_internal.
  destruct (lookup_spec r (pb_path broken) (pb_watermark broken) Hc) as (res & wm & r1 & -> & H1 & _).
  apply cache_only_routing in H1. destruct res; [done|]. case_decide; [done|].
  assert (H2 : routing_only r (r1 <| rt_pathfinder ::= fun pf => Pathfinder_handle_broken pf (pb_dest broken) |>)).
  { eapply routing_only_trans; [exact H1|]. apply pathfinder_routing, H1. }
  destruct (negb _); [|done]. eapply routing_only_trans; [exact H2|]. apply send_lookup_routing, H2.
Qed.

Lemma route_step_routing r tr : cache_ok r ->
  routing_only r (route_traffic_step murmur3_x64_128 route now unix_now r tr).2.
Proof using Hroute.
  intros Hc. unfold route_traffic_step.
  destruct (lookup_spec r (tp_path tr) (tp_watermark tr) Hc) as (res & wm & r1 & -> & H1 & _).
  apply cache_only_routing in H1. destruct res; [done|]. case_decide.
  - eapply routing_only_trans; [exact H1|]. eapply routing_only_trans; apply pathfinder_routing, H1.
  - eapply routing_only_trans; [exact H1|]. apply broken_routing, H1.
Qed.
End Handlers.

Lemma route_traffic_routing now unix_now : routes_only (route_traffic murmur3_x64_128 now unix_now).
Proof.
  intros r tr Hc. unfold route_traffic. generalize (S (cached_packets (rt_pathfinder r))). intros n.
  revert r tr Hc. induction n as [|n IH]; intros r tr Hc; simpl; [by apply routing_only_refl|].
  apply route_step_routing; [|done]. intros r' tr' Hc'. by apply IH.
Qed.

Lemma send_lookup_msg_routing now unix_now r dest : cache_ok r ->
  routing_only r (send_lookup_msg murmur3_x64_128 now unix_now r dest).2.
Proof. intros Hc. apply send_lookup_routing; [apply route_traffic_routing|done]. Qed.

Lemma send_traffic_routing now unix_now r tr : cache_ok r ->
  routing_only r (send_traffic murmur3_x64_128 now unix_now r tr).2.
Proof.
  intros Hc. unfold send_traffic. destruct (if bool_decide _ then _ else _) as [id|].
  - destruct (cached_coords_spec r (tp_dest tr) Hc) as (r1 & -> & H1).
    destruct (cached_coords_spec r1 (self_key_of r1) (proj2 H1)) as (r2 & -> & H2). simpl.
    eapply routing_only_trans; by apply cache_only_routing.
  - destruct (get_path _ _) as [path|].
    + destruct (cached_coords_spec r (self_key_of r) Hc) as (r1 & -> & H1). apply cache_only_routing in H1.
      eapply routing_only_trans; [exact H1|]. destruct (needs_traffic_cache _ _).
      * eapply routing_only_trans; [apply pathfinder_routing, H1|]. apply route_traffic_routing. apply H1.
      * apply route_traffic_routing, H1.
    + set (r1 := r <| rt_pathfinder ::= _ |>).
      assert (H1 : routing_only r r1) by (by apply pathfinder_routing).
      match goal with |- context [if tp_keepalive tr then ?a else ?b] => set (r2 := if tp_keepalive tr then a else b) end.
      assert (H2 : routing_only r r2).
      { unfold r2. destruct (tp_keepalive tr); (eapply routing_only_trans; [exact H1|]; apply pathfinder_routing, H1). }
      destruct (negb _); [|done]. eapply routing_only_trans; [exact H2|].
      eapply routing_only_trans; [apply pathfinder_routing, H2|]. apply send_lookup_msg_routing, H2.
Qed.

Lemma force_lookup_routing now unix_now r dest : cache_ok r ->
  routing_only r (force_lookup murmur3_x64_128 now unix_now r dest).2.
Proof.
  intros Hc. unfold force_lookup. destruct (pf_rumors _ !! _) as [u|];
    (eapply routing_only_trans; [by apply pathfinder_routing|]; by apply send_lookup_msg_routing).
Qed.
End Inv.

(** Evaluates field access and update of a router in constructor form. *)
Ltac rt_cbv :=
  cbv beta iota zeta delta [set_field fst snd rt_crypto rt_pathfinder rt_blooms rt_peers rt_sent rt_ports
    rt_infos rt_info_times rt_ancs rt_cache rt_lags rt_rtts rt_requests rt_responses rt_responded rt_res_seqs
    rt_res_seq_ctr rt_refresh rt_do_root1 rt_do_root2 rt_last_refresh rt_last_status_log rt_router_refresh
    rt_router_timeout rt_path_timeout rt_path_throttle rt_bloom_transform rt_draws].

(** Opens a router record into its fields. *)
Ltac open_router r :=
  destruct r as [cr pf bl pe se po inf ti an ca la rtt rq rs rd rsq ctr rf d1 d2 lr ls rrf rto pto pth tr dr].

Section Tables.
Context {DK : Dalek} {HO : HashOrder} {EN : Entropy}.
Implicit Types r : Router.

(** ** The other operations *)

Lemma self_info_lookup infos a : (update_infos infos a).1 = true ->
  (update_infos infos a).2 = <[ra_key a := info_of a]> infos.
Proof. unfold update_infos. destruct (infos !! ra_key a); [|done]. by destruct (ann_supersedes _ _). Qed.

Lemma update_inv r ann now : router_inv r -> router_inv (update r ann now).2.
Proof.
  intros I. unfold update. pose proof (self_info_lookup (rt_infos r) ann) as Hacc.
  destruct (update_infos (rt_infos r) ann) as [[] infos]; [|done]. simpl in *. rewrite Hacc by done.
  destruct I. unfold set_field. split; simpl; try done.
  - by rewrite dom_fmap_L.
  - rewrite !dom_insert_L. congruence.
Qed.

Lemma mark_sent_inv r pk k : router_inv r -> router_inv (mark_sent r pk k).
Proof. intros []. unfold mark_sent, set_field. split; simpl; try done. by rewrite dom_alter_L. Qed.

Lemma handle_announce_inv r id pk ann now : router_inv r -> router_inv (handle_announce r id pk ann now).2.
Proof.
  intros I. unfold handle_announce. pose proof (update_inv r ann now I) as I1.
  destruct (update r ann now) as [[] r1]; simpl in *.
  - apply mark_sent_inv. case_decide; [|done]. destruct I1. by split.
  - destruct (rt_infos r1 !! _) as [old|]; [|done]. case_decide; by apply mark_sent_inv.
Qed.

Lemma new_req_inv r : router_inv r -> router_inv (new_req r).2.
Proof. intros []. by split. Qed.

Lemma add_info_wf b key : blooms_wf b -> blooms_wf (add_info b key).
Proof.
  intros Hb. unfold add_info. destruct (b !! key); [done|]. apply map_Forall_insert_2; [|done].
  split_and!; [apply BloomFilter_new_wf..|done|done].
Qed.

Lemma dom_add_info b key : dom (add_info b key) = {[key]} ∪ dom b.
Proof.
  unfold add_info. destruct (b !! key) eqn:Hb; [|by rewrite dom_insert_L].
  apply elem_of_dom_2 in Hb. set_solver.
Qed.

(** Registering the connection once the peer has its tables. *)
Lemma add_link_inv r entry m :
  rt_peers r !! pe_key entry = Some m -> map_Forall (fun id e => pe_id e = id /\ pe_key e = pe_key entry) m ->
  cache_ok r -> blooms_wf (rt_blooms r) -> map_Forall links_ok (delete (pe_key entry) (rt_peers r)) ->
  dom (rt_sent r) = dom (rt_peers r) -> dom (rt_blooms r) = dom (rt_peers r) ->
  dom (rt_requests r) ⊆ dom (rt_peers r) -> dom (rt_responses r) ⊆ dom (rt_requests r) ->
  dom (rt_info_times r) = dom (rt_infos r) ->
  router_inv (r <| rt_peers ::= alter (insert (pe_id entry) entry) (pe_key entry) |>).
Proof.
  intros Hm Hall Hc Hb Hl Hs Hbd Hrq Hrs Ht. unfold set_field. split; simpl; rewrite ?dom_alter_L; try done.
  rewrite (alter_alt_Some _ _ _ m) by done. rewrite <- insert_delete_eq. apply map_Forall_insert_2; [|done].
  split; [by apply insert_non_empty|]. by apply map_Forall_insert_2.
Qed.

(** The rest of [add_peer] touches the request table at a peer's key. *)
Lemma requests_insert_inv r key req : router_inv r -> key ∈ dom (rt_peers r) ->
  router_inv (r <| rt_requests ::= <[key := req]> |>).
Proof.
  intros [] Hk. unfold set_field. split; simpl; try done.
  - rewrite dom_insert_L. set_solver.
  - rewrite dom_insert_L. set_solver.
Qed.

Lemma add_peer_tail_inv r entry : router_inv r -> pe_key entry ∈ dom (rt_peers r) ->
  forall lags, router_inv (let r := r <| rt_lags := lags |> in
    match rt_requests r !! pe_key entry with
    | Some _ => r
    | None => let '(req, r) := new_req r in r <| rt_requests ::= <[pe_key entry := req]> |>
    end).
Proof.
  intros I Hk lags. simpl. set (r1 := r <| rt_lags := lags |>).
  assert (I1 : router_inv r1) by (destruct I; by split).
  destruct (rt_requests r !! pe_key entry); [done|]. pose proof (new_req_inv r1 I1) as I2.
  destruct (new_req r1) as [req r2] eqn:Hn. unfold new_req in Hn. injection Hn as <- <-.
  by apply requests_insert_inv.
Qed.

Lemma add_peer_inv r entry : router_inv r -> router_inv (add_peer r entry).2.
Proof.
  intros I. unfold add_peer.
  match goal with |- context [let '(_, _) := ?x in _] =>
    assert (Hpre : router_inv (x.2 <| rt_peers ::= alter (insert (pe_id entry) entry) (pe_key entry) |>)
      /\ pe_key entry ∈ dom (rt_peers x.2)); [|destruct x as [acts r1]; destruct Hpre as [I1 Hk]] end.
  { destruct I as [C B L S BD RQ RS T]. destruct (rt_peers r !! pe_key entry) as [m|] eqn:Hm; simpl.
    - split; [|by eapply elem_of_dom_2].
      eapply (add_link_inv r entry m); try done; [by apply (L _ _ Hm)|by apply map_Forall_delete].
    - split; [|rewrite dom_insert_L; set_solver].
      eapply (add_link_inv _ entry ∅); simpl; rewrite ?lookup_insert_eq, ?dom_insert_L, ?dom_add_info; try done.
      + by apply add_info_wf.
      + rewrite delete_insert_id by done. done.
      + by rewrite S.
      + by rewrite BD.
      + set_solver. }
  cbn [snd] in I1, Hk. set (r2 := r1 <| rt_peers ::= _ |>) in *.
  assert (Hk2 : pe_key entry ∈ dom (rt_peers r2)) by (unfold r2, set_field; simpl; by rewrite dom_alter_L).
  pose proof (add_peer_tail_inv r2 entry I1 Hk2 (<[pe_id entry := UNKNOWN_LATENCY]> (rt_lags r2))) as I3.
  cbv zeta in *. simpl snd. match type of I3 with router_inv ?x => set (r3 := x) in I3 end.
  change (router_inv (r3 <| rt_responded ::= fun s => s ∖ {[pe_id entry]} |>)). destruct I3. by split.
Qed.

Lemma remove_peer_inv r id key port : router_inv r -> router_inv (remove_peer r id key port).2.
Proof.
  intros [C B L S BD RQ RS T]. unfold remove_peer.
  open_router r. rt_cbv. simpl in *.
  destruct (pe !! key) as [m|] eqn:Hm; [|by split].
  case_decide as He.
  - split; cbn; rewrite ?dom_delete_L; try done.
    + intros k rp Hk. simpl in Hk. apply lookup_delete_Some in Hk as [_ Hk]. by apply C.
    + by apply map_Forall_delete.
    + by apply map_Forall_delete.
    + by rewrite S.
    + unfold remove_info. by rewrite dom_delete_L, BD.
    + clear -RQ. set_solver.
    + clear -RS. set_solver.
  - assert (Hk : key ∈ dom pe) by (by eapply elem_of_dom_2).
    assert (Hd : dom (<[key := delete id m]> pe) = dom pe) by (rewrite dom_insert_L; clear -Hk; set_solver).
    split; simpl; rewrite ?Hd; try done.
    apply map_Forall_insert_2; [|done]. split; [done|]. apply map_Forall_delete. by apply (L _ _ Hm).
Qed.

Lemma handle_response_inv r id key res rtt : router_inv r -> router_inv (handle_response r id key res rtt).
Proof.
  intros I. unfold handle_response.
  set (req_match := match rt_requests r !! key with Some _ => _ | None => false end).
  assert (Hreq : req_match = true -> key ∈ dom (rt_requests r)).
  { unfold req_match. destruct (rt_requests r !! key) eqn:Hk; [|done]. intros _. by eapply elem_of_dom_2. }
  clearbody req_match. set (r1 := if negb (rtt =? 0) then _ else r).
  assert (I1 : router_inv r1 /\ rt_requests r1 = rt_requests r).
  { unfold r1. destruct (negb _); [|done]. split; [destruct I; by split|done]. }
  destruct I1 as [I1 Hq]. clearbody r1.
  match goal with |- context [if bool_decide (rt_responses r1 !! key = None) && req_match then ?a else r1] =>
    set (r2 := if bool_decide (rt_responses r1 !! key = None) && req_match then a else r1) end.
  assert (I2 : router_inv r2).
  { unfold r2. destruct (_ && _) eqn:Hm; [|done]. apply andb_true_iff in Hm as [_ Hm%Hreq].
    destruct I1. unfold set_field. split; simpl; try done. rewrite dom_insert_L, Hq in *. set_solver. }
  clearbody r2. destruct (_ && _); [|done]. destruct I2. by split.
Qed.

Lemma send_req_to_inv acts r pk m : router_inv r -> pk ∈ dom (rt_peers r) ->
  router_inv (send_req_to (acts, r) (pk, m)).2 /\ rt_peers (send_req_to (acts, r) (pk, m)).2 = rt_peers r.
Proof.
  intros I Hk. unfold send_req_to. pose proof (new_req_inv r I) as I1.
  destruct (new_req r) as [req r1] eqn:Hn. unfold new_req in Hn. injection Hn as <- <-. simpl.
  pose proof (requests_insert_inv _ pk (mkSigReqState (wrap64 ((match rt_infos r !! self_key_of r with Some i => ri_seq i | None => 0 end) + 1)) (rand_u64 (rt_draws r))) I1 Hk) as I2.
  split; [|done]. destruct I2. by split.
Qed.

Lemma send_reqs_fold l acts r : router_inv r -> (forall pk m, (pk, m) ∈ l -> pk ∈ dom (rt_peers r)) ->
  router_inv (foldl send_req_to (acts, r) l).2.
Proof.
  revert acts r. induction l as [|[pk m] l IH]; intros acts r I Hl; [done|]. cbn [foldl].
  destruct (send_req_to_inv acts r pk m I) as [I1 Hp]; [by apply (Hl pk m); left|].
  destruct (send_req_to (acts, r) (pk, m)) as [acts1 r1]. apply IH; [done|].
  intros pk' m' Hin. simpl in Hp. rewrite Hp. apply (Hl pk' m'). by right.
Qed.

Lemma send_reqs_inv r : router_inv r -> router_inv (send_reqs r).2.
Proof.
  intros I. unfold send_reqs. apply send_reqs_fold.
  - destruct I as [C B L S BD RQ RS T]. open_router r. unfold clear_reqs. rt_cbv. simpl in *.
    split; simpl; try done.
  - intros pk m Hin. apply elem_of_map_iter in Hin. by eapply elem_of_dom_2.
Qed.

Lemma clear_flags_inv r : router_inv r -> router_inv (clear_flags r).
Proof. intros []. by split. Qed.

Lemma fix_tree_inv r now : router_inv r -> router_inv (fix_tree r now).2.
Proof.
  intros I. unfold fix_tree. destruct (select_parent r) as [best_root best_parent].
  destruct (_ || _); [|done].
  match goal with |- context [let '(_, _) := ?x in _] => assert (Hx : router_inv x.2); [|destruct x as [[] r1]] end.
  { destruct (rt_responses r !! best_parent) as [res|]; [|done]. case_decide; [|done]. by apply update_inv. }
  - by apply send_reqs_inv, clear_flags_inv.
  - simpl in Hx. destruct (rt_do_root2 r1).
    + unfold become_root. pose proof (new_req_inv r1 Hx) as I2. destruct (new_req r1) as [req r2]. simpl in I2.
      match goal with |- context [update r2 ?a now] => pose proof (update_inv r2 a now I2) as I3; destruct (update r2 a now) as [b r3] end.
      by apply send_reqs_inv, clear_flags_inv.
    + destruct (negb _); [|done]. destruct Hx. by split.
Qed.

Lemma send_announces_to_inv self_anc acts r pk : router_inv r -> pk ∈ dom (rt_sent r) ->
  router_inv (send_announces_to self_anc (acts, r) pk).2
  /\ dom (rt_sent (send_announces_to self_anc (acts, r) pk).2) = dom (rt_sent r).
Proof.
  intros I Hk. unfold send_announces_to. destruct (not_yet_sent _ _) as [to_send sent].
  assert (Hd : dom (<[pk := sent]> (rt_sent r)) = dom (rt_sent r)) by (rewrite dom_insert_L; set_solver).
  assert (I1 : router_inv (r <| rt_sent ::= <[pk := sent]> |>)).
  { destruct I. unfold set_field. split; simpl; try done. congruence. }
  destruct (rt_peers (r <| rt_sent ::= <[pk := sent]> |>) !! pk); done.
Qed.

Lemma send_announces_inv r : router_inv r -> router_inv (send_announces r).2.
Proof.
  intros I. unfold send_announces. generalize (@nil RouterAction).
  assert (Hk : forall k, k ∈ map_keys (rt_sent r) -> k ∈ dom (rt_sent r)).
  { intros k Hk%elem_of_map_keys. by apply elem_of_dom. }
  revert Hk. generalize (map_keys (rt_sent r)). intros keys. generalize (get_ancestry (rt_infos r) (self_key_of r)).
  intros anc. revert r I. induction keys as [|k keys IH]; intros r I Hk acts; [done|]. cbn [foldl].
  destruct (send_announces_to_inv anc acts r k I) as [I1 Hd]; [by apply Hk; left|].
  destruct (send_announces_to anc (acts, r) k) as [acts1 r1]. apply IH; [done|].
  intros k' Hk'. simpl in Hd. rewrite Hd. apply Hk. by right.
Qed.

Lemma expire_infos_inv r now : router_inv r -> router_inv (expire_infos r now).
Proof.
  unfold expire_infos. generalize ((List.filter (fun '(k, t) =>
    if decide (k = self_key_of r) then rt_router_refresh r <=? elapsed now t
    else rt_router_timeout r <=? elapsed now t) (map_iter (rt_info_times r))).*1). intros keys.
  revert r. induction keys as [|k keys IH]; intros r I; [done|]. cbn [foldl]. apply IH. unfold expire_one.
  destruct I as [C B L S BD RQ RS T]. open_router r. unfold reset_cache. simpl in *.
  case_decide; rt_cbv; split; simpl; try done.
  - by rewrite dom_fmap_L.
  - by rewrite !dom_delete_L, T.
Qed.

Lemma update_ancestries_inv r : router_inv r -> router_inv (update_ancestries r).
Proof.
  unfold update_ancestries. generalize (map_keys (rt_peers r)). intros keys.
  revert r. induction keys as [|k keys IH]; intros r I; [done|]. cbn [foldl]. apply IH.
  match goal with |- context [if ?b then _ else _] => destruct b end; [|done]. destruct I. by split.
Qed.

End Tables.

(** ** Every message and every maintenance pass *)

Section Run.
Context {DK : Dalek} {HO : HashOrder} {EN : Entropy} (murmur3_x64_128 : bytes -> Z -> option Z).
Implicit Types r : Router.

Lemma blooms_maintenance_inv r : router_inv r ->
  exists acts r', blooms_maintenance murmur3_x64_128 r = Ret (acts, r') /\ router_inv r'
    /\ rt_cache r' = rt_cache r.
Proof.
  intros I. unfold blooms_maintenance.
  destruct (do_maintenance_spec murmur3_x64_128 (rt_blooms r) (self_key_of r) (self_parent_of r)
    (ri_parent <$> rt_infos r) (rt_bloom_transform r) (ri_blooms r I)) as (b' & ts & -> & Hwf & Hdom & _).
  rewrite ret_bind. eexists _, _. split; [done|]. split; [|done]. destruct I. unfold set_field.
  split; simpl; try done. rewrite <- ri_blooms_dom0. apply set_eq. intros k. by rewrite !elem_of_dom.
Qed.

Lemma retry_rumors_routing now unix_now dests acts r : cache_ok r ->
  routing_only r (foldl (retry_rumor murmur3_x64_128 now unix_now) (acts, r) dests).2.
Proof.
  revert acts r. induction dests as [|d dests IH]; intros acts r Hc; [by apply routing_only_refl|]. cbn [foldl].
  assert (H1 : routing_only r (retry_rumor murmur3_x64_128 now unix_now (acts, r) d).2).
  { unfold retry_rumor. destruct (should_throttle_rumor_retry _ _ _ _); [by apply routing_only_refl|].
    set (r1 := r <| rt_pathfinder ::= _ |>). assert (H1 : routing_only r r1) by (by apply pathfinder_routing).
    pose proof (send_lookup_msg_routing murmur3_x64_128 now unix_now r1 d (proj2 H1)) as H2.
    destruct (send_lookup_msg _ _ _ r1 d) as [more r2]. by eapply routing_only_trans. }
  destruct (retry_rumor _ _ _ (acts, r) d) as [acts1 r1]. eapply routing_only_trans; [exact H1|]. apply IH, H1.
Qed.

Lemma do_maintenance_inv now unix_now r : router_inv r ->
  exists acts r', do_maintenance murmur3_x64_128 now unix_now r = Ret (acts, r') /\ router_inv r'.
Proof.
  intros I. unfold do_maintenance.
  set (r1 := if 60000000000 <=? _ then _ else r).
  assert (I1 : router_inv r1) by (unfold r1; destruct (_ <=? _); [destruct I; by split|done]). clearbody r1.
  set (r2 := if rt_router_refresh r1 <=? _ then _ else r1).
  assert (I2 : router_inv r2) by (unfold r2; destruct (_ <=? _); [destruct I1; by split|done]). clearbody r2.
  set (r3 := r2 <| rt_do_root2 := _ |>).
  assert (I3 : router_inv r3) by (destruct I2; by split). clearbody r3.
  assert (I4 : router_inv (reset_cache r3)) by (destruct I3; by split).
  pose proof (update_ancestries_inv _ I4) as I5. set (r5 := update_ancestries _) in *. clearbody r5.
  pose proof (fix_tree_inv r5 now I5) as I6. destruct (fix_tree r5 now) as [a6 r6]. simpl in I6.
  pose proof (send_announces_inv r6 I6) as I7. destruct (send_announces r6) as [a7 r7]. simpl in I7.
  destruct (blooms_maintenance_inv r7 I7) as (a8 & r8 & -> & I8 & _). rewrite ret_bind. cbv beta iota.
  set (r9 := r8 <| rt_pathfinder ::= _ |>).
  assert (I9 : router_inv r9) by (destruct I8; by split).
  pose proof (retry_rumors_routing now unix_now (rumors_needing_retry (rt_pathfinder r9)) [] r9 (ri_cache _ I9)) as H10.
  destruct (foldl _ ([], r9) _) as [a10 r10]. eexists _, r10. split; [done|]. by eapply routing_only_inv.
Qed.

(** Filters in messages were decoded from the wire. *)
Definition msg_ok (msg : RouterMsg) : Prop :=
  match msg with MsgHandleBloom _ filter => filter_wf filter | _ => True end.

Lemma handle_bloom_inv r key filter : filter_wf filter -> router_inv r -> router_inv (handle_bloom r key filter).
Proof.
  intros Hf []. unfold handle_bloom, set_field. split; simpl; try done.
  - unfold Blooms_handle_bloom. intros k i Hk. apply lookup_alter_Some in Hk as [(-> & j & Hj & ->)|[_ Hk]].
    + destruct (ri_blooms0 k j Hj) as (Hs & _ & Hq). exact (conj Hs (conj Hf Hq)).
    + by apply (ri_blooms0 k).
  - unfold Blooms_handle_bloom. by rewrite dom_alter_L.
Qed.

Lemma force_refresh_inv r now : router_inv r -> router_inv (force_refresh r now).
Proof. intros []. by split. Qed.

Lemma handle_router_msg_inv now unix_now r msg : router_inv r -> msg_ok msg ->
  exists acts r', handle_router_msg murmur3_x64_128 now unix_now r msg = Ret (acts, r') /\ router_inv r'.
Proof.
  intros I Hm. pose proof (ri_cache _ I) as Hc.
  assert (Hroute : forall x : list RouterAction * Router, routing_only r x.2 ->
    exists acts r', Ret x = Ret (acts, r') /\ router_inv r').
  { intros [acts r'] Hx. exists acts, r'. split; [done|]. by eapply routing_only_inv. }
  assert (Hinv : forall x : list RouterAction * Router, router_inv x.2 ->
    exists acts r', Ret x = Ret (acts, r') /\ router_inv r').
  { intros [acts r'] Hx. by exists acts, r'. }
  destruct msg; simpl.
  - by apply Hinv, add_peer_inv.
  - by apply Hinv, remove_peer_inv.
  - destruct (_ ≫= _); by apply Hinv.
  - apply Hinv. by apply handle_response_inv.
  - by apply Hinv, handle_announce_inv.
  - apply Hinv. by apply handle_bloom_inv.
  - apply Hroute. by apply route_traffic_routing.
  - apply Hroute. by apply send_traffic_routing.
  - apply Hroute. unfold handle_lookup. destruct (negb _); [by apply routing_only_refl|].
    apply lookup_routing; [apply route_traffic_routing|done].
  - apply Hroute. apply notify_routing; [apply route_traffic_routing|done].
  - apply Hroute. apply broken_routing; [apply route_traffic_routing|done].
  - apply Hroute. eapply routing_only_trans; [by apply pathfinder_routing|]. by apply send_traffic_routing.
  - by apply do_maintenance_inv, force_refresh_inv.
  - apply Hroute. by apply force_lookup_routing.
Qed.

Definition event_ok (ev : actor_event) : Prop :=
  match ev with EvMessage _ _ msg => msg_ok msg | EvTimer _ _ _ => True end.

Lemma actor_step_inv a ev : router_inv (ac_router a) -> event_ok ev ->
  exists acts a', actor_step murmur3_x64_128 a ev = Ret (acts, a') /\ router_inv (ac_router a').
Proof.
  intros I He. destruct ev as [now wall unix|now unix msg]; simpl.
  - unfold actor_maintenance. destruct (do_maintenance_inv now unix
      (expire_infos (if (ac_last_wall a <=? wall) && (WALL_JUMP_THRESHOLD <=? wall - ac_last_wall a)
                     then force_refresh (ac_router a) now else ac_router a) now)) as (acts & r' & -> & I').
    { apply expire_infos_inv. destruct (_ && _); [by apply force_refresh_inv|done]. }
    rewrite ret_bind. eexists _, _. by split.
  - unfold actor_message. destruct (handle_router_msg_inv now unix (ac_router a) msg I He) as (acts & r' & -> & I').
    rewrite ret_bind. eexists _, _. by split.
Qed.

Lemma Router_new_inv crypto config now : router_inv (Router_new crypto config now).
Proof. by split. Qed.

(** ** Properties *)

(** The router never panics and its tables stay consistent: whatever
    messages arrive and whenever maintenance runs, starting from a fresh
    router, every event is processed, the coordinate cache equals what a fresh
    walk would compute, the per-peer tables (sent keys, Bloom filters) exist
    exactly for the connected peers, requests only for peers and responses only
    for requests, every peer entry has at least one connection, and every
    stored node has a timestamp. *)
Theorem router_actor_safe crypto config t0 wall0 next0 evs (Hevs : Forall event_ok evs) :
  exists acts a', actor_run murmur3_x64_128 (mkRouterActor (Router_new crypto config t0) wall0 next0) evs
                  = Ret (acts, a')
    /\ router_inv (ac_router a').
Proof.
  assert (Hrun : forall a, router_inv (ac_router a) -> exists acts a',
    actor_run murmur3_x64_128 a evs = Ret (acts, a') /\ router_inv (ac_router a')).
  { induction Hevs as [|ev evs He _ IH]; intros a I; [by exists [], a|]. simpl.
    destruct (actor_step_inv a ev I He) as (acts & a1 & -> & I1). rewrite ret_bind.
    destruct (IH a1 I1) as (acts2 & a2 & Hr & I2). simpl. rewrite Hr, ret_bind. by eexists _, _. }
  apply Hrun. apply Router_new_inv.
Qed.

(** Maintenance is never starved: a message that changes the topology is
    followed by a maintenance pass at most 100 ms later, no message postpones
    the next pass, and a pass schedules the next one 10 s ahead. *)
Theorem maintenance_schedule a ev acts a'
    (Hstep : actor_step murmur3_x64_128 a ev = Ret (acts, a')) :
  match ev with
  | EvTimer now _ _ => ac_next_maint a' = now + IDLE_MAINT_INTERVAL
  | EvMessage now _ msg =>
      ac_next_maint a' <= ac_next_maint a
      /\ (is_topology_msg msg = true -> ac_next_maint a' <= now + MAINT_DEBOUNCE)
  end.
Proof.
  destruct ev as [now wall unix|now unix msg]; simpl in Hstep.
  - unfold actor_maintenance in Hstep. destruct (do_maintenance _ _ _ _); [|done].
    rewrite ret_bind in Hstep. by injection Hstep as <- <-.
  - unfold actor_message in Hstep. destruct (handle_router_msg _ _ _ _ _); [|done].
    rewrite ret_bind in Hstep. injection Hstep as <- <-. simpl.
    destruct (is_topology_msg msg), (Z.ltb_spec (now + MAINT_DEBOUNCE) (ac_next_maint a)); simpl; lia || (split; [lia|done]).
Qed.
End Run.

(** ** Witnesses *)

Definition sample_events : list actor_event :=
  [EvMessage 1 1 (MsgAddPeer (mkPeerEntry 11 (node 1) 5 0 0));
   EvMessage 2 1 (MsgHandleBloom (node 1) BloomFilter_new);
   EvTimer 5 5 1].

Definition sample_actor : @RouterActor toy_dalek := mkRouterActor sample_router 0 0.

Lemma router_actor_safe_witness :
  exists acts a', @actor_run toy_dalek id_order sample_entropy sample_murmur sample_actor sample_events
                  = Ret (acts, a').
Proof.
  destruct (@router_actor_safe toy_dalek id_order sample_entropy sample_murmur
    (@Crypto_new toy_dalek 3) sample_config 0 0 0 sample_events) as (acts & a' & Hr & _).
  - constructor; [exact I|]. constructor; [exact BloomFilter_new_wf|]. constructor; [exact I|constructor].
  - by exists acts, a'.
Defined.

Lemma maintenance_schedule_witness :
  let a := sample_actor <| ac_next_maint := 10000000000 |> in
  exists acts a', @actor_step toy_dalek id_order sample_entropy sample_murmur a
    (EvMessage 1 1 (MsgAddPeer (mkPeerEntry 11 (node 1) 5 0 0))) = Ret (acts, a')
    /\ ac_next_maint a' <= 1 + MAINT_DEBOUNCE.
Proof.
  intros a. destruct (@actor_step_inv toy_dalek id_order sample_entropy sample_murmur a
    (EvMessage 1 1 (MsgAddPeer (mkPeerEntry 11 (node 1) 5 0 0)))) as (acts & a' & Hs & _).
  - apply Router_new_inv.
  - exact I.
  - exists acts, a'. split; [exact Hs|].
    pose proof (@maintenance_schedule toy_dalek id_order sample_entropy sample_murmur a _ acts a' Hs) as [_ Hb].
    by apply Hb.
Defined.
