(* ===== verification/RouterTree.v ===== *)
(** * RouterTree: parent selection and announcements

    What the maintenance pass of the router does to the spanning tree: the
    parent chosen by [select_parent] leads to the least root on offer and never
    closes a loop, [fix_tree] (the code's [fix]) leaves the node attached to a
    confirmed root after two passes, and [send_announces] sends each peer
    exactly what it has not been sent yet. *)

From S2P Require Import Prelude.
From S2P Require Import Wire.
From S2P Require Import Bloom.
From S2P Require Import Crypto.
From S2P Require Import Traffic.
From S2P Require Import Pathfinder.
From S2P Require Import Tree.
From S2P Require Import Router.
From S2P Require Import RouterFacts.
From S2P Require Import RouterInv.
From stdpp Require Import options.
Open Scope Z_scope.

Section Select.
Context {DK : Dalek} {HO : HashOrder}.
Implicit Types r : Router.

(** The peer [pk] leads to [root] without passing through this node. *)
Definition leads_to r (pk root : PublicKey) : Prop :=
  exists l, walk (rt_infos r) pk l root /\ (self_key_of r ∉ l).

(** What may be chosen: this node as its own root, or a smaller root. *)
Definition choice_sound r (c : Choice) : Prop :=
  (ch_root c = self_key_of r /\ ch_parent c = self_key_of r)
  \/ (bytes_lt (ch_root c) (self_key_of r) /\ leads_to r (ch_parent c) (ch_root c)
      /\ (is_Some (rt_responses r !! ch_parent c)
          \/ (ch_parent c = self_parent_of r /\ is_Some (rt_peers r !! ch_parent c)))).

Lemma self_walk_parent r l root : walk (rt_infos r) (self_key_of r) l root -> root <> self_key_of r ->
  leads_to r (self_parent_of r) root.
Proof.
  intros W Hne. pose proof (walk_nodup _ _ _ _ W) as Hnd. unfold leads_to, self_parent_of.
  inversion W as [k i Hi Hp|k i l2 r2 Hi Hp W2]; subst; [done|].
  rewrite Hi. exists l2. split; [done|]. by apply NoDup_cons in Hnd as [? _].
Qed.

Lemma select_current_spec r : choice_sound r (select_current r)
  /\ forall l root, is_Some (rt_peers r !! self_parent_of r) -> walk (rt_infos r) (self_key_of r) l root ->
       ~ bytes_lt root (ch_root (select_current r)).
Proof.
  unfold select_current. destruct (rt_peers r !! self_parent_of r) as [peers|] eqn:Hp.
  2: { split; [by left|]. by intros l root [? ?]. }
  destruct (get_root_and_dists_spec (rt_infos r) (self_key_of r)) as (root & d & v & -> & Hv).
  destruct v; simpl.
  2: { split; [by left|]. intros l root' _ W. by apply Hv in W. }
  destruct Hv as (l & W & _ & _). case_bool_decide as Hlt.
  - split.
    + right. split_and!; [done| |right; split; [done|by eexists]]. simpl.
      eapply self_walk_parent; [done|]. intros ->. by apply bytes_lt_irrefl in Hlt.
    + intros l' root' _ W'. destruct (walk_det _ _ _ _ _ _ W W') as [_ ->]. apply bytes_lt_irrefl.
  - split; [by left|]. intros l' root' _ W'. by destruct (walk_det _ _ _ _ _ _ W W') as [_ ->].
Qed.

Lemma select_step_spec r c pk : is_Some (rt_responses r !! pk) -> choice_sound r c ->
  choice_sound r (select_step r c pk)
  /\ ~ bytes_lt (ch_root c) (ch_root (select_step r c pk))
  /\ (forall root, leads_to r pk root -> ~ bytes_lt root (ch_root (select_step r c pk))).
Proof.
  intros Hres Hc. pose proof (bytes_lt_irrefl (ch_root c)) as Hirr. unfold select_step.
  destruct (rt_infos r !! pk) as [i|] eqn:Hi.
  2: { split_and!; try done. intros root (l & W & _). inversion W; congruence. }
  destruct (get_root_and_dists_spec (rt_infos r) pk) as (root & d & v & -> & Hv). destruct v; simpl.
  2: { split_and!; try done. intros root' (l & W & _). by apply Hv in W. }
  destruct Hv as (l & W & _ & Hd). case_bool_decide as Hin; rewrite (indexes_elem d l _ Hd) in Hin.
  { split_and!; try done. intros root' (l' & W' & Hl). by destruct (walk_det _ _ _ _ _ _ W W') as [-> _]. }
  assert (Hone : forall root', leads_to r pk root' -> root' = root).
  { intros root' (l' & W' & _). by destruct (walk_det _ _ _ _ _ _ W W') as [_ ->]. }
  assert (Hnew : forall cost, bytes_lt root (self_key_of r) -> choice_sound r (mkChoice root pk cost)).
  { intros cost Hlt. right. split_and!; [done|by exists l|by left]. }
  assert (Hbound : ch_root c = self_key_of r \/ bytes_lt (ch_root c) (self_key_of r)) by (destruct Hc as [[]|[]]; auto).
  case_decide as Hlt.
  { assert (Hs : bytes_lt root (self_key_of r)) by (destruct Hbound as [<-|Hb]; [done|by etrans]).
    match goal with |- context [if ?b then _ else _] => destruct b end; (split_and!; [by apply Hnew| |]); simpl.
    1, 3: intros Hx; eapply Hirr; by etrans.
    all: intros root' ->%Hone; apply bytes_lt_irrefl. }
  case_decide as Hne.
  { split_and!; try done. by intros root' ->%Hone. }
  subst root.
  match goal with |- context [if ?b then _ else _] => destruct b end;
    (split_and!; [|done|by intros root' ->%Hone]); [|done].
  destruct Hc as [[He _]|[Hb _]]; [|by apply Hnew].
  exfalso. apply Hin. rewrite <- He. by eapply walk_root_in.
Qed.

Lemma select_fold_spec r keys c : (forall k, k ∈ keys -> is_Some (rt_responses r !! k)) -> choice_sound r c ->
  choice_sound r (foldl (select_step r) c keys)
  /\ ~ bytes_lt (ch_root c) (ch_root (foldl (select_step r) c keys))
  /\ (forall pk root, pk ∈ keys -> leads_to r pk root ->
        ~ bytes_lt root (ch_root (foldl (select_step r) c keys))).
Proof.
  revert c. induction keys as [|k keys IH]; intros c Hk Hc; simpl.
  { split_and!; [done|apply bytes_lt_irrefl|]. intros pk root Hin. by apply not_elem_of_nil in Hin. }
  destruct (select_step_spec r c k) as (Hc1 & Hle1 & Hk1); [apply Hk; by left|done|].
  destruct (IH (select_step r c k)) as (Hc2 & Hle2 & Hk2); [intros; apply Hk; by right|done|].
  set (c2 := foldl _ _ keys) in *.
  assert (Hmono : forall root, ~ bytes_lt root (ch_root (select_step r c k)) -> ~ bytes_lt root (ch_root c2)).
  { intros root Hn Hx. destruct (bytes_lt_total (ch_root (select_step r c k)) (ch_root c2)) as [?|[He|?]]; [done| |].
    - by rewrite <- He in Hx.
    - apply Hn. by etrans. }
  split_and!; [done|by apply Hmono|]. intros pk root [->|Hin]%elem_of_cons Hl; [by apply Hmono, Hk1|by eapply Hk2].
Qed.

Lemma select_parent_spec r : exists cost,
  choice_sound r (mkChoice (select_parent r).1 (select_parent r).2 cost)
  /\ (forall pk root, is_Some (rt_responses r !! pk) -> leads_to r pk root ->
        ~ bytes_lt root (select_parent r).1)
  /\ (forall l root, is_Some (rt_peers r !! self_parent_of r) -> walk (rt_infos r) (self_key_of r) l root ->
        ~ bytes_lt root (select_parent r).1).
Proof.
  destruct (select_current_spec r) as [Hc0 Hcur].
  destruct (select_fold_spec r (map_keys (rt_responses r)) (select_current r)) as (Hc & Hle & Hall).
  { intros k. by rewrite elem_of_map_keys. }
  { done. }
  unfold select_parent. set (c := foldl _ _ _) in *. exists (ch_cost c). simpl. split_and!.
  - by destruct c.
  - intros pk root Hpk. apply Hall. by apply elem_of_map_keys.
  - intros l root Hp W Hx. apply (Hcur l root Hp W).
    destruct (bytes_lt_total (ch_root (select_current r)) (ch_root c)) as [?|[->|?]]; [done|done|by etrans].
Qed.
End Select.

(** ** The tree part of the state *)

Section Frame.
Context {DK : Dalek} {HO : HashOrder} {EN : Entropy} (murmur3_x64_128 : bytes -> Z -> option Z).
Implicit Types r : Router.

(** The two routers agree on everything parent selection reads. *)
Record same_tree r r' : Prop := {
  st_crypto : rt_crypto r' = rt_crypto r;
  st_infos : rt_infos r' = rt_infos r;
  st_peers : rt_peers r' = rt_peers r;
  st_responses : rt_responses r' = rt_responses r;
  st_refresh : rt_refresh r' = rt_refresh r;
  st_do_root1 : rt_do_root1 r' = rt_do_root1 r;
  st_do_root2 : rt_do_root2 r' = rt_do_root2 r
}.

#[export] Instance same_tree_refl : Reflexive same_tree.
Proof. by split. Qed.

#[export] Instance same_tree_trans : Transitive same_tree.
Proof. intros r1 r2 r3 [] []. split; congruence. Qed.

Lemma same_tree_foldl {A B} (f : A -> B -> A) (rt : A -> Router) l a :
  (forall a b, same_tree (rt a) (rt (f a b))) -> same_tree (rt a) (rt (foldl f a l)).
Proof. intros Hf. revert a. induction l as [|b l IH]; intros a; [done|]. simpl. by etrans; [apply (Hf a b)|]. Qed.

Lemma update_ancestries_tree r : same_tree r (update_ancestries r).
Proof.
  unfold update_ancestries. apply (same_tree_foldl _ id). intros r' k. simpl.
  match goal with |- context [if ?b then _ else _] => by destruct b end.
Qed.

Lemma send_announces_to_tree anc acc pk : same_tree acc.2 (send_announces_to anc acc pk).2.
Proof.
  destruct acc as [acts r]. unfold send_announces_to. destruct (not_yet_sent _ _) as [l s].
  by destruct (rt_peers _ !! pk).
Qed.

Lemma send_announces_tree r : same_tree r (send_announces r).2.
Proof. unfold send_announces. apply (same_tree_foldl _ snd _ ([], r)). intros. apply send_announces_to_tree. Qed.

Lemma routing_only_tree r r' : routing_only r r' -> same_tree r r'.
Proof. intros [-> _]. by split. Qed.

Lemma blooms_maintenance_tree r acts r' : blooms_maintenance murmur3_x64_128 r = Ret (acts, r') -> same_tree r r'.
Proof.
  unfold blooms_maintenance. destruct (Blooms_do_maintenance _ _ _ _ _ _) as [[b ts]|]; [|done].
  rewrite ret_bind. intros [= <- <-]. by split.
Qed.
End Frame.

(** ** Attaching to a root *)

Section Fix.
Context {DK : Dalek} {HO : HashOrder} {EN : Entropy} (murmur3_x64_128 : bytes -> Z -> option Z).
Implicit Types r : Router.

(** This node's own ancestry ends at a confirmed root, not above itself. *)
Definition rooted r : Prop :=
  exists l root, walk (rt_infos r) (self_key_of r) l root
    /\ (root = self_key_of r \/ bytes_lt root (self_key_of r)).

Lemma same_tree_rooted r r' : same_tree r r' -> rooted r -> rooted r'.
Proof. intros [Hc Hi _ _ _ _ _] (l & root & W & Hr). exists l, root. unfold self_key_of in *. by rewrite Hc, Hi. Qed.

Lemma walk_insert (infos : Infos) k l root x i : walk infos k l root -> (x ∉ l) -> walk (<[x := i]> infos) k l root.
Proof.
  induction 1 as [k j Hj Hp|k j l root Hj Hp W IH]; intros [Hne Hx]%not_elem_of_cons.
  - eapply walk_root; [by rewrite lookup_insert_ne|done].
  - eapply walk_step; [by rewrite lookup_insert_ne|done|by apply IH].
Qed.

Lemma update_fields r ann now :
  rt_infos (update r ann now).2 = (update_infos (rt_infos r) ann).2
  /\ (update r ann now).1 = (update_infos (rt_infos r) ann).1
  /\ rt_crypto (update r ann now).2 = rt_crypto r
  /\ rt_responses (update r ann now).2 = rt_responses r
  /\ rt_do_root1 (update r ann now).2 = rt_do_root1 r
  /\ rt_do_root2 (update r ann now).2 = rt_do_root2 r.
Proof.
  unfold update. destruct (update_infos (rt_infos r) ann) as [[] infos] eqn:Hu; simpl; [by split_and!|].
  split_and!; try done. unfold update_infos in Hu. destruct (rt_infos r !! ra_key ann); [|done].
  destruct (ann_supersedes _ _); [done|]. by injection Hu as <-.
Qed.

(** Sending the requests of a new round: the tree is unchanged, every peer is
    asked once and the old responses are gone. *)
Lemma send_req_to_fields acc peer :
  rt_crypto (send_req_to acc peer).2 = rt_crypto acc.2 /\ rt_infos (send_req_to acc peer).2 = rt_infos acc.2
  /\ rt_responses (send_req_to acc peer).2 = rt_responses acc.2
  /\ rt_do_root1 (send_req_to acc peer).2 = rt_do_root1 acc.2.
Proof. by destruct acc as [acts r], peer as [pk m]. Qed.

Lemma send_reqs_fields r :
  rt_crypto (send_reqs r).2 = rt_crypto r /\ rt_infos (send_reqs r).2 = rt_infos r
  /\ rt_responses (send_reqs r).2 = ∅ /\ rt_do_root1 (send_reqs r).2 = rt_do_root1 r.
Proof.
  unfold send_reqs.
  assert (Hf : forall l acts r1, rt_crypto (foldl send_req_to (acts, r1) l).2 = rt_crypto r1
    /\ rt_infos (foldl send_req_to (acts, r1) l).2 = rt_infos r1
    /\ rt_responses (foldl send_req_to (acts, r1) l).2 = rt_responses r1
    /\ rt_do_root1 (foldl send_req_to (acts, r1) l).2 = rt_do_root1 r1).
  { induction l as [|p l IH]; intros acts r1; [done|]. cbn [foldl].
    pose proof (send_req_to_fields (acts, r1) p) as (H1 & H2 & H3 & H4).
    destruct (send_req_to (acts, r1) p) as [acts2 r2]. simpl in *.
    destruct (IH acts2 r2) as (-> & -> & -> & ->). done. }
  destruct (Hf (map_iter (rt_peers (clear_reqs r))) [] (clear_reqs r)) as (-> & -> & -> & ->). done.
Qed.

Lemma new_round_rooted r : rooted r -> rooted (send_reqs (clear_flags r)).2.
Proof.
  destruct (send_reqs_fields (clear_flags r)) as (Hc & Hi & _). unfold rooted, self_key_of. rewrite Hc, Hi. done.
Qed.

Lemma insert_rooted r ann : ra_key ann = self_key_of r ->
  (ra_parent ann = self_key_of r
   \/ exists root, bytes_lt root (self_key_of r) /\ leads_to r (ra_parent ann) root) ->
  forall r', rt_crypto r' = rt_crypto r -> rt_infos r' = <[ra_key ann := info_of ann]> (rt_infos r) -> rooted r'.
Proof.
  intros Hk Hp r' Hc Hi. unfold rooted, self_key_of in *. rewrite Hc, Hi, Hk. destruct Hp as [Hp|(root & Hlt & l & W & Hl)].
  - exists [public_key (rt_crypto r)], (public_key (rt_crypto r)). split; [|by left].
    eapply walk_root; [apply lookup_insert_eq|done].
  - exists (public_key (rt_crypto r) :: l), root. split; [|by right].
    eapply walk_step; [apply lookup_insert_eq| |by apply walk_insert].
    simpl. intros He. apply Hl. unfold self_key_of. rewrite <- He. inversion W; by left.
Qed.

Lemma adopt_rooted r best_root best_parent res now r' :
  bytes_lt best_root (self_key_of r) -> leads_to r best_parent best_root ->
  use_response r best_parent res now = (true, r') -> rooted r'.
Proof.
  intros Hlt Hl. unfold use_response. set (ann := mkRouterAnnounce _ _ _ _ _ _ _). intros Hu.
  destruct (update_fields r ann now) as (Hi & Hacc & Hc & _). rewrite Hu in *. simpl in *.
  eapply (insert_rooted r ann); [done|right; by exists best_root|done|].
  rewrite Hi. by apply self_info_lookup.
Qed.

(** The next sequence number is not lost to wrap-around. *)
Definition seq_ok r : Prop :=
  match rt_infos r !! self_key_of r with Some i => 0 <= ri_seq i < U64_MAX | None => True end.

Lemma become_root_rooted r now : seq_ok r -> rooted (become_root r now).2.
Proof.
  intros Hs. unfold become_root, new_req. set (r1 := r <| rt_draws ::= S |>). set (ann := mkRouterAnnounce _ _ _ _ _ _ _).
  destruct (update_fields r1 ann now) as (Hi & Hacc & Hc & _).
  eapply (insert_rooted r1 ann); [done|by left|done|]. rewrite Hi. apply self_info_lookup.
  unfold update_infos. change (rt_infos r1) with (rt_infos r). change (ra_key ann) with (self_key_of r).
  unfold seq_ok in Hs. destruct (rt_infos r !! self_key_of r) as [i|] eqn:Hself; [|done].
  unfold ann_supersedes. assert (Hseq : ra_seq ann = ri_seq i + 1).
  { change (ra_seq ann) with (wrap64 (ri_seq i + 1)).
    unfold wrap64, U64_MAX in *. rewrite Z.mod_small; lia. }
  rewrite Hseq, Z.gtb_ltb. destruct (Z.ltb_spec (ri_seq i + 1) (ri_seq i)); [lia|].
  destruct (Z.ltb_spec (ri_seq i) (ri_seq i + 1)); [done|lia].
Qed.

Lemma become_root_infos r now : rooted r -> rooted (become_root r now).2.
Proof.
  intros Hr. unfold become_root, new_req. set (r1 := r <| rt_draws ::= S |>). set (ann := mkRouterAnnounce _ _ _ _ _ _ _).
  destruct (update_fields r1 ann now) as (Hi & _ & Hc & _). pose proof (self_info_lookup (rt_infos r1) ann) as Hacc.
  unfold update_infos in *. destruct (rt_infos r1 !! ra_key ann) as [i|].
  2: { eapply (insert_rooted r1 ann); [done|by left|done|done]. }
  destruct (ann_supersedes i ann); [eapply (insert_rooted r1 ann); [done|by left|done|done]|].
  unfold rooted, self_key_of in *. by rewrite Hc, Hi.
Qed.

(** Without a change block, the current parent is the best one. *)
Lemma settled_rooted r : is_Some (rt_infos r !! self_key_of r) -> self_parent_of r = (select_parent r).2 -> rooted r.
Proof.
  intros [i Hi] Hp. destruct (select_parent_spec r) as (cost & Hc & _). unfold self_parent_of in Hp. rewrite Hi in Hp.
  destruct Hc as [[_ H2]|(Hlt & (l & W & Hl) & _)]; simpl in *.
  - exists [self_key_of r], (self_key_of r). split; [|by left]. eapply walk_root; [done|congruence].
  - exists (self_key_of r :: l), (select_parent r).1. split; [|by right]. rewrite <- Hp in W.
    eapply walk_step; [done| |done]. intros He. apply Hl. rewrite <- He. inversion W; by left.
Qed.

(** One pass: an attached node stays attached, a node due to become root does,
    and any other is attached or prepares to become root. *)
Lemma fix_tree_spec r now :
  (rooted r \/ (rt_do_root2 r = true /\ seq_ok r) -> rooted (fix_tree r now).2)
  /\ (seq_ok r -> is_Some (rt_infos r !! self_key_of r) ->
      rooted (fix_tree r now).2
      \/ (rt_do_root1 (fix_tree r now).2 = true /\ rt_infos (fix_tree r now).2 = rt_infos r
          /\ rt_crypto (fix_tree r now).2 = rt_crypto r)).
Proof.
  unfold fix_tree. destruct (select_parent_spec r) as (cost & Hc & _).
  pose proof (settled_rooted r) as Hsettled. destruct (select_parent r) as [best_root best_parent]. simpl in *.
  destruct (_ || _ || _ || _) eqn:Hblock.
  2: { apply orb_false_iff in Hblock as [[[_ _]%orb_false_iff Hd]%orb_false_iff Hp].
       apply negb_false_iff, bool_decide_eq_true in Hp. simpl.
       split; [intros [?|[? _]]; [done|congruence]|]. intros _ Hi. left. by apply Hsettled. }
  match goal with |- context [let '(_, _) := ?x in _] => set (try := x) end.
  assert (Htry : (try.1 = true /\ rooted try.2) \/ try = (false, r)).
  { unfold try. clear Hblock. destruct (rt_responses r !! best_parent) as [res|]; [|by right].
    case_decide as Hne; [|by right]. destruct Hc as [[]|(Hlt & Hl & _)]; [done|]. simpl in *.
    destruct (use_response r best_parent res now) as [[] r1] eqn:Hu.
    - left. split; [done|]. by eapply adopt_rooted.
    - right. unfold use_response, update in Hu. destruct (update_infos _ _) as [[] ?]; [done|]. by injection Hu as <-. }
  clearbody try. destruct Htry as [[Ht Hr]| ->].
  { destruct try as [[] r1]; [|done]. split; intros; [|left]; by apply new_round_rooted. }
  destruct (rt_do_root2 r) eqn:Hd.
  - pose proof (become_root_rooted r now) as Hb. pose proof (become_root_infos r now) as Hb2.
    destruct (become_root r now) as [b r1]. simpl in Hb, Hb2.
    split; [intros [?|[_ ?]]|intros Hs _; left]; apply new_round_rooted; auto.
  - split; [intros [Hr|[? _]]; [|done]|intros _ _; right]; by destruct (rt_do_root1 r) eqn:?; simpl.
Qed.

(** A maintenance pass is [fix_tree] with both root flags merged, as far as the
    tree is concerned. *)
Lemma do_maintenance_tree now unix_now r : router_inv r ->
  exists acts r' r0, do_maintenance murmur3_x64_128 now unix_now r = Ret (acts, r') /\ router_inv r'
    /\ rt_crypto r0 = rt_crypto r /\ rt_infos r0 = rt_infos r /\ rt_responses r0 = rt_responses r
    /\ rt_do_root2 r0 = rt_do_root2 r || rt_do_root1 r
    /\ same_tree (fix_tree r0 now).2 r' /\ rt_peers r0 = rt_peers r.
Proof.
  intros I. unfold do_maintenance.
  set (r1 := if 60000000000 <=? _ then _ else r).
  assert (H1 : router_inv r1 /\ same_tree r r1).
  { unfold r1. destruct (_ <=? _); (split; [destruct I|]; by split). }
  destruct H1 as [I1 T1]. clearbody r1. set (r2 := if rt_router_refresh r1 <=? _ then _ else r1).
  assert (H2 : router_inv r2 /\ rt_crypto r2 = rt_crypto r1 /\ rt_infos r2 = rt_infos r1
    /\ rt_responses r2 = rt_responses r1 /\ rt_do_root1 r2 = rt_do_root1 r1 /\ rt_do_root2 r2 = rt_do_root2 r1
    /\ rt_peers r2 = rt_peers r1).
  { unfold r2. destruct (_ <=? _); (split; [|done]); destruct I1; by split. }
  destruct H2 as (I2 & Hc2 & Hi2 & Hr2 & Ha2 & Hb2 & Hp2). clearbody r2. set (r3 := reset_cache (r2 <| rt_do_root2 := _ |>)).
  assert (I3 : router_inv r3) by (destruct I2; by split).
  pose proof (update_ancestries_inv _ I3) as I4. pose proof (update_ancestries_tree r3) as T4.
  set (r4 := update_ancestries r3) in *. clearbody r4. pose proof (fix_tree_inv r4 now I4) as I5.
  destruct (fix_tree r4 now) as [a5 r5] eqn:Hf. simpl in I5.
  pose proof (send_announces_inv r5 I5) as I6. pose proof (send_announces_tree r5) as T6.
  destruct (send_announces r5) as [a6 r6]. simpl in I6, T6.
  destruct (blooms_maintenance_inv murmur3_x64_128 r6 I6) as (a7 & r7 & Hb & I7 & _).
  rewrite Hb, ret_bind. apply blooms_maintenance_tree in Hb. cbv beta iota zeta. set (r8 := r7 <| rt_pathfinder ::= _ |>).
  assert (I8 : router_inv r8) by (destruct I7; by split).
  pose proof (retry_rumors_routing murmur3_x64_128 now unix_now (rumors_needing_retry (rt_pathfinder r8)) [] r8 (ri_cache _ I8)) as H9.
  destruct (foldl _ ([], r8) _) as [a9 r9]. eexists _, r9, r4. split; [done|]. rewrite Hf. simpl in H9. destruct T1 as [Tc Ti Tp Tr _ Ta Tb], T4 as [Uc Ui Up Ur _ _ Ub]. split_and!.
  - by eapply routing_only_inv.
  - rewrite Uc. simpl. congruence.
  - rewrite Ui. simpl. congruence.
  - rewrite Ur. simpl. congruence.
  - rewrite Ub. simpl. congruence.
  - etrans; [exact T6|]. etrans; [exact Hb|]. etrans; [|by apply routing_only_tree]. by split.
  - rewrite Up. simpl. congruence.
Qed.

(** ** Properties *)

(** C5: The chosen parent is sound and its root is the least on offer: the
    selection is either this node as its own root, or a peer with a response (or
    the present parent, still connected) whose confirmed ancestry ends at a
    smaller root and does not contain this node, so that adopting it closes no
    loop; and no peer that answered, nor the present parent, leads to a smaller
    root. *)
Theorem select_parent_best r :
  let '(root, parent) := select_parent r in
  ((root = self_key_of r /\ parent = self_key_of r)
   \/ (bytes_lt root (self_key_of r) /\ leads_to r parent root
       /\ (is_Some (rt_responses r !! parent)
           \/ (parent = self_parent_of r /\ is_Some (rt_peers r !! parent)))))
  /\ (forall pk root', is_Some (rt_responses r !! pk) -> leads_to r pk root' -> ~ bytes_lt root' root)
  /\ (forall l root', is_Some (rt_peers r !! self_parent_of r) -> walk (rt_infos r) (self_key_of r) l root' ->
        ~ bytes_lt root' root).
Proof.
  destruct (select_parent_spec r) as (cost & Hc & H2 & H3). by destruct (select_parent r).
Qed.

End Fix.

(** ** What is sent to a peer *)

Section Sent.
Context {DK : Dalek} {HO : HashOrder} {EN : Entropy}.
Implicit Types r : Router.

Lemma not_yet_sent_spec (anc to_send : list PublicKey) (sent : gset PublicKey) :
  (not_yet_sent anc (to_send, sent)).2 = sent ∪ list_to_set anc
  /\ forall k, k ∈ (not_yet_sent anc (to_send, sent)).1 <-> k ∈ to_send \/ (k ∈ anc /\ (k ∉ sent)).
Proof.
  revert to_send sent. induction anc as [|x anc IH]; intros to_send sent; simpl.
  { split; [set_solver|]. intros k. rewrite elem_of_nil. tauto. }
  case_decide as Hx.
  - destruct (IH to_send sent) as [-> Hk]. split; [set_solver|]. intros k. rewrite Hk, elem_of_cons.
    split; [intros [?|[? ?]]; auto|]. intros [?|[[->|?] ?]]; auto. done.
  - destruct (IH (to_send ++ [x]) ({[x]} ∪ sent)) as [-> Hk]. split; [set_solver|]. intros k. rewrite Hk.
    rewrite elem_of_app, list_elem_of_singleton, elem_of_cons, elem_of_union, elem_of_singleton.
    destruct (decide (k = x)) as [->|]; tauto.
Qed.

(** The announcements a peer with connections [peers] and sent set [s] is due. *)
Definition due r (pk : PublicKey) (s : gset PublicKey) (id : PeerId) (a : Announce) : Prop :=
  exists peers entry k i, rt_peers r !! pk = Some peers /\ entry ∈ map_values peers /\ pe_id entry = id
    /\ (k ∈ get_ancestry (rt_infos r) (self_key_of r) \/ k ∈ get_ancestry (rt_infos r) pk)
    /\ (k ∉ s) /\ rt_infos r !! k = Some i /\ a = to_wire (get_announce i k).

Definition told r (pk : PublicKey) (s : gset PublicKey) : gset PublicKey :=
  s ∪ list_to_set (get_ancestry (rt_infos r) (self_key_of r)) ∪ list_to_set (get_ancestry (rt_infos r) pk).

Lemma send_announces_to_spec r acts pk : let s := default ∅ (rt_sent r !! pk) in
  let res := send_announces_to (get_ancestry (rt_infos r) (self_key_of r)) (acts, r) pk in
  (forall id a, SendAnnounce id a ∈ res.1 <-> SendAnnounce id a ∈ acts \/ due r pk s id a)
  /\ rt_sent res.2 = <[pk := told r pk s]> (rt_sent r).
Proof.
  intros s res. subst res. unfold send_announces_to. fold s. set (self_anc := get_ancestry (rt_infos r) (self_key_of r)).
  destruct (not_yet_sent_spec self_anc [] s) as [Hs1 Hk1].
  destruct (not_yet_sent self_anc ([], s)) as [l1 s1]. simpl in Hs1, Hk1.
  destruct (not_yet_sent_spec (get_ancestry (rt_infos r) pk) l1 s1) as [Hs2 Hk2].
  destruct (not_yet_sent (get_ancestry (rt_infos r) pk) (l1, s1)) as [l2 s2]. simpl in Hs2, Hk2.
  assert (Hk : forall k, k ∈ l2 <-> (k ∈ self_anc \/ k ∈ get_ancestry (rt_infos r) pk) /\ (k ∉ s)).
  { intros k. rewrite Hk2, Hk1, Hs1, elem_of_nil, not_elem_of_union, elem_of_list_to_set.
    destruct (decide (k ∈ self_anc)); tauto. }
  assert (Htold : s2 = told r pk s) by (rewrite Hs2, Hs1; done).
  unfold due. change (rt_peers (r <| rt_sent ::= <[pk := s2]> |>)) with (rt_peers r).
  change (rt_infos (r <| rt_sent ::= <[pk := s2]> |>)) with (rt_infos r).
  destruct (rt_peers r !! pk) as [peers|] eqn:Hp; (split; [intros id a|by rewrite <- Htold]); simpl.
  2: { split; [by left|]. intros [?|(? & ? & ? & ? & ? & _)]; done. }
  rewrite elem_of_app, list_elem_of_bind. apply or_iff_compat_l. split.
  - intros (entry & (ann & [= -> ->] & Ha)%list_elem_of_fmap & He).
    apply list_elem_of_omap in Ha as (k & Hin & Hi). apply fmap_Some in Hi as (i & Hi & ->).
    apply Hk in Hin as [Hin Hn]. by exists peers, entry, k, i.
  - intros (peers' & entry & k & i & [= <-] & He & <- & Hin & Hn & Hi & ->). exists entry. split; [|done].
    apply list_elem_of_fmap. exists (to_wire (get_announce i k)). split; [done|]. apply list_elem_of_omap.
    exists k. split; [by apply Hk|]. by rewrite Hi.
Qed.

Lemma send_announces_fold keys : NoDup keys -> forall r acts,
  let res := foldl (send_announces_to (get_ancestry (rt_infos r) (self_key_of r))) (acts, r) keys in
  (forall id a, SendAnnounce id a ∈ res.1 <-> SendAnnounce id a ∈ acts
     \/ exists pk, pk ∈ keys /\ due r pk (default ∅ (rt_sent r !! pk)) id a)
  /\ forall pk, rt_sent res.2 !! pk = if decide (pk ∈ keys) then Some (told r pk (default ∅ (rt_sent r !! pk)))
                                      else rt_sent r !! pk.
Proof.
  induction 1 as [|pk keys Hpk Hnd IH]; intros r acts; cbv zeta; cbn [foldl].
  { split; [intros id a; split; [by left|]|done]. intros [?|(pk & ?%not_elem_of_nil & _)]; done. }
  destruct (send_announces_to_spec r acts pk) as [Ha Hs]. cbv zeta in Ha, Hs.
  pose proof (send_announces_to_tree (get_ancestry (rt_infos r) (self_key_of r)) (acts, r) pk) as [Tc Ti Tp _ _ _ _].
  destruct (send_announces_to _ (acts, r) pk) as [acts1 r1]. simpl in Ha, Hs, Tc, Ti, Tp.
  assert (Hanc : get_ancestry (rt_infos r) (self_key_of r) = get_ancestry (rt_infos r1) (self_key_of r1))
    by (unfold self_key_of; congruence).
  destruct (IH r1 acts1) as [Ha2 Hs2]. cbv zeta in Ha2, Hs2. rewrite Hanc.
  assert (Hdue : forall k s id a, due r1 k s id a <-> due r k s id a)
    by (intros; unfold due, self_key_of; rewrite Tc, Ti, Tp; done).
  assert (Htold : forall k s, told r1 k s = told r k s) by (intros; unfold told, self_key_of; rewrite Tc, Ti; done).
  assert (Hother : forall k, k ∈ keys -> rt_sent r1 !! k = rt_sent r !! k).
  { intros k Hk. rewrite Hs, lookup_insert_ne; [done|]. by intros <-. }
  split.
  - intros id a. rewrite Ha2, Ha. setoid_rewrite elem_of_cons. split.
    + intros [[?|?]|(k & Hk & Hd)]; [by left|right; exists pk; auto|].
      right. exists k. rewrite Hother, Hdue in Hd by done. auto.
    + intros [?|(k & [->|Hk] & Hd)]; [auto|auto|]. right. exists k. rewrite Hother, Hdue by done. auto.
  - intros k. rewrite Hs2. destruct (decide (k ∈ keys)) as [Hk|Hk].
    + rewrite decide_True by (by right). by rewrite Htold, Hother.
    + rewrite Hs. destruct (decide (k = pk)) as [->|Hne].
      * rewrite lookup_insert_eq, decide_True by (by left). done.
      * rewrite lookup_insert_ne by done. rewrite decide_False; [done|]. by intros [->|?]%elem_of_cons.
Qed.

(** [send_announces] sends each connection exactly the announcements its
    peer is due, those on this node's and on the peer's ancestry that were not
    sent before, and records them as sent for every peer, so that nothing is
    left out and nothing is repeated on the next pass. *)
Theorem send_announces_exact r :
  (forall id a, SendAnnounce id a ∈ (send_announces r).1 <->
     exists pk s, rt_sent r !! pk = Some s /\ due r pk s id a)
  /\ (forall pk s, rt_sent r !! pk = Some s -> rt_sent (send_announces r).2 !! pk = Some (told r pk s))
  /\ forall id a, (SendAnnounce id a ∉ (send_announces (send_announces r).2).1).
Proof.
  assert (Hspec : forall r, (forall id a, SendAnnounce id a ∈ (send_announces r).1 <->
      exists pk s, rt_sent r !! pk = Some s /\ due r pk s id a)
    /\ (forall pk, rt_sent (send_announces r).2 !! pk = told r pk <$> rt_sent r !! pk)).
  { intros r1. destruct (send_announces_fold (map_keys (rt_sent r1)) (map_keys_nodup _) r1 []) as [Ha Hs].
    cbv zeta in Ha, Hs. fold (send_announces r1) in Ha, Hs. split.
    - intros id a. rewrite Ha, elem_of_nil. setoid_rewrite elem_of_map_keys. split.
      + intros [[]|(pk & [s Hp] & Hd)]. exists pk, s. by rewrite Hp in Hd.
      + intros (pk & s & Hp & Hd). right. exists pk. rewrite Hp. split; [by eexists|done].
    - intros pk. rewrite Hs. destruct (rt_sent r1 !! pk) as [s|] eqn:Hp.
      + rewrite decide_True; [done|]. apply elem_of_map_keys. by eexists.
      + rewrite decide_False; [done|]. rewrite elem_of_map_keys, Hp. by intros []. }
  destruct (Hspec r) as [Ha Hs]. split_and!; [done| |].
  - intros pk s Hp. by rewrite Hs, Hp.
  - intros id a Hin. destruct (Hspec (send_announces r).2) as [Ha2 _].
    apply Ha2 in Hin as (pk & s & Hp & (peers & entry & k & i & _ & _ & _ & Hk & Hn & _)).
    destruct (send_announces_tree r) as [Tc Ti _ _ _ _ _]. unfold self_key_of in Hk. rewrite Ti, Tc in Hk.
    rewrite Hs in Hp. apply fmap_Some in Hp as (s0 & _ & ->). apply Hn. unfold told.
    rewrite !elem_of_union, !elem_of_list_to_set. destruct Hk; auto.
Qed.
End Sent.

(** ** Forced lookups *)

(** A router that waits for a path to node 9: the rumor is 80 ns old, its last
    application lookup 10 ns, and it holds a packet. *)
Definition waiting_packet : TrafficPacket := TrafficPacket_new (node 3) (node 9) [42].
Definition waiting_router : @Router toy_dalek :=
  sample_router <| rt_pathfinder ::= fun pf =>
    pf <| pf_rumors := {[ node 9 := mkPathRumor (Some waiting_packet) (Some 70) None 0 ]} |> |>.

(** A forced lookup can drop the packet it looks a path up for. With a
    lifetime of 60 ns the rumor above survives a cleanup at time 80, but not when
    the lookup is forced first: [force_lookup] forgets the last lookup's time, so
    the cleanup falls back to the rumor's creation. *)
Theorem force_lookup_drops_packet :
  (ru_traffic <$> pf_rumors (cleanup_expired (rt_pathfinder waiting_router) 60 80) !! node 9)
    = Some (Some waiting_packet)
  /\ pf_rumors (cleanup_expired (rt_pathfinder
       (@force_lookup toy_dalek id_order sample_murmur 80 0 waiting_router (node 9)).2) 60 80) !! node 9 = None.
Proof. split; vm_compute; reflexivity. Qed.
