(* ===== verification/Peers.v ===== *)
(** * Peers: the connections of a node

    Models [crates/ironwood/src/peers.rs]: the table of connections and its port
    numbers ([Peers]), the frames written for the router's actions
    ([encode_action_frame]), the reader task ([peer_reader]) as a function of the
    bytes that arrive, and the split of a batch of actions into frames, traffic
    and deliveries ([dispatch_actions]). Channels, sockets and the packet queue of
    a connection are handles the table only stores; they are left out of
    [PeerHandle]. A stream is the bytes that arrive before the connection fails. *)

From S2P Require Import Prelude.
From S2P Require Import Wire.
From S2P Require Import Bloom.
From S2P Require Import Crypto.
From S2P Require Import Traffic.
From S2P Require Import Tree.
From S2P Require Import Router.
From S2P Require Import Actor.
From stdpp Require Import options.
Open Scope Z_scope.

(** ** The table of connections *)

Record PeerHandle := mkPeerHandle {
  ph_id : PeerId;
  ph_key : PublicKey;
  ph_port : PeerPort;
  ph_prio : Z;
  ph_order : Z
}.

Definition to_entry (h : PeerHandle) : PeerEntry :=
  mkPeerEntry (ph_id h) (ph_key h) (ph_port h) (ph_prio h) (ph_order h).

Record Peers := mkPeers {
  ps_next_id : PeerId;
  ps_used_ports : gmap PeerPort PublicKey;
  ps_handles : gmap PublicKey (gmap PeerId PeerHandle);
  ps_order : Z
}.

#[export] Instance Peers_eta : Settable Peers := fun p =>
  mkPeers (ps_next_id p) (ps_used_ports p) (ps_handles p) (ps_order p).

Definition Peers_new : Peers := mkPeers 1 ∅ ∅ 0.

(** The [while] loop of [alloc_port]. Among [S (size used_ports)] successive
    ports one is free ([alloc_port_spec]). *)
Fixpoint alloc_port_loop (fuel : nat) (used_ports : gmap PeerPort PublicKey) (p : PeerPort) : PeerPort :=
  match fuel with
  | O => p
  | S fuel => if decide (is_Some (used_ports !! p)) then alloc_port_loop fuel used_ports (p + 1) else p
  end.

Definition alloc_port (p : Peers) : PeerPort :=
  alloc_port_loop (S (size (ps_used_ports p))) (ps_used_ports p) 1.

Section Table.
Context `{HashOrder}.

Definition allocate_peer (p : Peers) (key : PublicKey) (prio : Z) : PeerHandle * Peers :=
  let id := ps_next_id p in
  let p := p <| ps_next_id := wrap64 (id + 1) |> in
  let port := match ps_handles p !! key with
              | Some existing => match head (map_values existing) with
                                 | Some h => ph_port h
                                 | None => alloc_port p
                                 end
              | None => alloc_port p
              end in
  let p := if decide (ps_handles p !! key = None) then p <| ps_used_ports ::= <[port := key]> |> else p in
  let order := ps_order p in
  let p := p <| ps_order := wrap64 (order + 1) |> in
  let handle := mkPeerHandle id key port prio order in
  (handle, p <| ps_handles ::= <[key := <[id := handle]> (default ∅ (ps_handles p !! key))]> |>).

Definition Peers_remove_peer (p : Peers) (id : PeerId) (key : PublicKey) : option PeerPort * Peers :=
  match ps_handles p !! key with
  | Some peers =>
      let port := ph_port <$> peers !! id in
      let peers := delete id peers in
      if decide (peers = ∅) then
        let p := p <| ps_handles ::= delete key |> in
        (port, match port with Some q => p <| ps_used_ports ::= delete q |> | None => p end)
      else (port, p <| ps_handles ::= <[key := peers]> |>)
  | None => (None, p)
  end.

Definition get_handle (p : Peers) (peer_id : PeerId) : option PeerHandle :=
  foldl (fun found peers => match found with Some h => Some h | None => peers !! peer_id end)
    None (map_values (ps_handles p)).
End Table.

(** ** Frames for actions *)

Definition encode_action_frame (action : RouterAction) : option (PeerId * bytes) :=
  match action with
  | SendSigReq peer_id req => Some (peer_id, encode_frame ProtoSigReq (SigReq_encode req []))
  | SendSigRes peer_id res => Some (peer_id, encode_frame ProtoSigRes (SigRes_encode res []))
  | SendAnnounce peer_id ann => Some (peer_id, encode_frame ProtoAnnounce (Announce_encode ann []))
  | SendBloom peer_id bloom => Some (peer_id, encode_frame ProtoBloomFilter (encode_bloom [] (as_raw bloom)))
  | SendTraffic peer_id tr =>
      Some (peer_id, encode_traffic_frame (tp_path tr) (tp_from tr) (tp_source tr) (tp_dest tr)
                       (tp_watermark tr) (tp_payload tr))
  | SendPathLookup peer_id l => Some (peer_id, encode_frame ProtoPathLookup (PathLookup_encode l []))
  | SendPathNotify peer_id n => Some (peer_id, encode_frame ProtoPathNotify (PathNotify_encode n []))
  | SendPathBroken peer_id b => Some (peer_id, encode_frame ProtoPathBroken (PathBroken_encode b []))
  | DeliverTraffic _ | PathNotifyCallback _ => None
  end.

(** [peek_frame_type]: skips the length prefix. [offset] counts the bytes seen;
    a prefix that never ends gives no type. *)
Fixpoint peek_offset (total : nat) (data : bytes) (offset : nat) : option nat :=
  match data with
  | [] => Some offset
  | b :: data =>
      let offset := S offset in
      if Z.land b 128 =? 0 then Some offset
      else if (total <=? offset)%nat then None
      else peek_offset total data offset
  end.

Definition peek_frame_type (data : bytes) : option PacketType :=
  offset ← peek_offset (length data) data 0;
  b ← data !! offset;
  match PacketType_try_from b with Ok t => Some t | Err _ => None end.

(** What [dispatch_actions] does with a batch: the deliveries and callbacks in
    order, then the protocol frames, then the traffic. *)
Record Dispatch := mkDispatch {
  ds_delivered : list TrafficPacket;
  ds_callbacks : list PublicKey;
  ds_frames : list (PeerId * bytes);
  ds_traffic : list (PeerId * TrafficPacket)
}.

Definition dispatch_one (d : Dispatch) (action : RouterAction) : Dispatch :=
  let '(mkDispatch delivered callbacks frames traffic) := d in
  match action with
  | DeliverTraffic tr => mkDispatch (delivered ++ [tr]) callbacks frames traffic
  | SendTraffic peer_id tr => mkDispatch delivered callbacks frames (traffic ++ [(peer_id, tr)])
  | PathNotifyCallback key => mkDispatch delivered (callbacks ++ [key]) frames traffic
  | other => match encode_action_frame other with
             | Some frame => mkDispatch delivered callbacks (frames ++ [frame]) traffic
             | None => d
             end
  end.

Definition dispatch_actions (actions : list RouterAction) : Dispatch :=
  foldl dispatch_one (mkDispatch [] [] [] []) actions.

(** ** The reader task *)

(** [read_uvarint] on the stream: [read_exact] fails at its end. *)
Fixpoint stream_uvarint_loop (stream : bytes) (shift value : Z) : result Error (Z * bytes) :=
  match stream with
  | [] => Err Io
  | byte :: stream =>
      if (63 <=? shift) && (1 <? byte) then Err Decode
      else
        let value := Z.lor value (wrap64 (Z.shiftl (Z.land byte 127) shift)) in
        if Z.land byte 128 =? 0 then Ok (value, stream)
        else
          let shift := shift + 7 in
          if 70 <=? shift then Err Decode else stream_uvarint_loop stream shift value
  end.

Definition stream_read_uvarint (stream : bytes) : result Error (Z * bytes) := stream_uvarint_loop stream 0 0.

(** One frame: its length, the size limit, its bytes. *)
Definition read_frame (max_message_size : Z) (stream : bytes) : result Error (bytes * bytes) :=
  '(frame_len, stream) ← stream_read_uvarint stream;
  if frame_len >? max_message_size then Err OversizedMessage
  else
    let n := Z.to_nat frame_len in
    if (length stream <? n)%nat then Err Io else Ok (take n stream, drop n stream).

Section Reader.
Context `{Dalek} (peer_id : PeerId) (peer_key our_key : PublicKey).

(** [match decode(..) { Ok(a) => a, Err(_) => Error::Decode }]. *)
Definition or_decode {A} (r : result Error A) : result Error A :=
  match r with Ok a => Ok a | Err _ => Err Decode end.

(** The dispatch on the packet type: the message for the router, if any, and
    whether a keepalive is scheduled. [rtt] is the age of the last request. *)
Definition handle_frame (rtt : Z) (buf : bytes) : result Error (option RouterMsg * bool) :=
  match buf with
  | [] => Ok (None, false)
  | ptype_byte :: payload =>
      match PacketType_try_from ptype_byte with
      | Err _ => Ok (None, false)
      | Ok (Dummy | KeepAlive) => Ok (None, false)
      | Ok ProtoSigReq =>
          '(req, _) ← or_decode (SigReq_decode payload);
          Ok (Some (MsgHandleRequest peer_id peer_key req), true)
      | Ok ProtoSigRes =>
          '(res, _) ← or_decode (SigRes_decode payload);
          if negb (check_sig_res res our_key peer_key) then Err BadMessage
          else Ok (Some (MsgHandleResponse peer_id peer_key res rtt), true)
      | Ok ProtoAnnounce =>
          ann ← or_decode (Announce_decode payload);
          let router_ann := from_wire ann in
          if negb (RouterAnnounce_check router_ann) then Err BadMessage
          else Ok (Some (MsgHandleAnnounce peer_id peer_key router_ann), true)
      | Ok ProtoBloomFilter =>
          raw ← or_decode (decode_bloom payload);
          Ok (Some (MsgHandleBloom peer_key (from_raw raw)), true)
      | Ok ProtoPathLookup =>
          l ← or_decode (PathLookup_decode payload);
          Ok (Some (MsgHandleLookup peer_key l), true)
      | Ok ProtoPathNotify =>
          n ← or_decode (PathNotify_decode payload);
          Ok (Some (MsgHandleNotify peer_key n), true)
      | Ok ProtoPathBroken =>
          b ← or_decode (PathBroken_decode payload);
          Ok (Some (MsgHandleBroken b), true)
      | Ok TrafficType =>
          tr ← or_decode (Traffic_decode payload);
          Ok (Some (MsgHandleTraffic (mkTrafficPacket (tr_path tr) (tr_from tr) (tr_source tr) (tr_dest tr)
                     (tr_watermark tr) (tr_payload tr) false)), true)
      end
  end.

(** What the reader did: messages to the router, keepalives scheduled, and the
    error that ended the connection. *)
Record ReaderLog := mkReaderLog { rl_msgs : list RouterMsg; rl_keepalives : nat; rl_reason : option Error }.

(** The loop of [peer_reader] on the bytes that arrive; [rtt n] is the age of
    the last request when the [n]-th frame is handled. Each frame takes at
    least one byte. *)
Fixpoint reader_loop (fuel : nat) (max_message_size : Z) (rtt : nat -> Z) (n : nat) (stream : bytes) : ReaderLog :=
  match fuel with
  | O => mkReaderLog [] 0 None
  | S fuel =>
      match read_frame max_message_size stream with
      | Err e => mkReaderLog [] 0 (Some e)
      | Ok (buf, stream) =>
          match handle_frame (rtt n) buf with
          | Err e => mkReaderLog [] 0 (Some e)
          | Ok (msg, keepalive) =>
              let rest := reader_loop fuel max_message_size rtt (S n) stream in
              mkReaderLog (option_list msg ++ rl_msgs rest)
                ((if keepalive then 1 else 0) + rl_keepalives rest) (rl_reason rest)
          end
      end
  end.

(** The task: after the loop the peer is removed from the router and from the
    table, under the port the table has for it. *)
Definition peer_reader (max_message_size : Z) (rtt : nat -> Z) (stream : bytes) (p : Peers) : ReaderLog * Peers :=
  let log := reader_loop (S (length stream)) max_message_size rtt 0 stream in
  let port := match ps_handles p !! peer_key ≫= fun m => m !! peer_id with Some h => ph_port h | None => 0 end in
  (mkReaderLog (rl_msgs log ++ [MsgRemovePeer peer_id peer_key port]) (rl_keepalives log) (rl_reason log),
   snd (Peers_remove_peer p peer_id peer_key)).
End Reader.

(** ** Ports *)

Lemma alloc_port_loop_spec fuel (used : gmap PeerPort PublicKey) p :
  (forall q, 1 <= q < p -> is_Some (used !! q)) -> 1 <= p -> (size used < fuel + Z.to_nat (p - 1))%nat ->
  let q := alloc_port_loop fuel used p in
  p <= q /\ used !! q = None /\ (forall x, 1 <= x < q -> is_Some (used !! x)).
Proof.
  revert p. induction fuel as [|fuel IH]; intros p Hbelow Hp Hsize; simpl.
  - exfalso. assert (Hsub : list_to_set (seqZ 1 (p - 1)) ⊆ dom used).
    { intros q. rewrite elem_of_list_to_set, elem_of_seqZ, elem_of_dom. intros. apply Hbelow. lia. }
    apply subseteq_size in Hsub. rewrite size_list_to_set, length_seqZ, size_dom in Hsub by apply NoDup_seqZ. lia.
  - case_decide as Hin.
    + destruct (IH (p + 1)) as (? & ? & ?); [|lia|lia|].
      * intros q Hq. destruct (decide (q = p)) as [->|]; [done|]. apply Hbelow. lia.
      * split_and!; [lia|done|done].
    + split_and!; [lia| |done]. by apply eq_None_not_Some.
Qed.

(** The least free port from 1 on. *)
Lemma alloc_port_spec p : 1 <= alloc_port p /\ ps_used_ports p !! alloc_port p = None
  /\ forall q, 1 <= q < alloc_port p -> is_Some (ps_used_ports p !! q).
Proof. apply alloc_port_loop_spec; [intros; lia|lia|]. simpl. lia. Qed.

(** The connections of one peer share its port. *)
Definition group_ok (p : Peers) (key : PublicKey) (m : gmap PeerId PeerHandle) : Prop :=
  m <> ∅ /\ exists port, ps_used_ports p !! port = Some key /\ 1 <= port
    /\ map_Forall (fun id h => ph_id h = id /\ ph_key h = key /\ ph_port h = port /\ 1 <= id < ps_next_id p) m.

Definition handle_at (p : Peers) (key : PublicKey) (id : PeerId) : option PeerHandle :=
  ps_handles p !! key ≫= fun m => m !! id.

Record peers_inv (p : Peers) : Prop := {
  pv_groups : map_Forall (group_ok p) (ps_handles p);
  pv_ports : forall q1 q2 key, ps_used_ports p !! q1 = Some key -> ps_used_ports p !! q2 = Some key -> q1 = q2;
  pv_used : forall q key, ps_used_ports p !! q = Some key -> is_Some (ps_handles p !! key);
  pv_ids : forall k1 k2 id, is_Some (handle_at p k1 id) -> is_Some (handle_at p k2 id) -> k1 = k2;
  pv_next : 1 <= ps_next_id p
}.

Lemma Peers_new_inv : peers_inv Peers_new.
Proof. split; unfold Peers_new, handle_at; simpl; try done. by intros k1 k2 id [? ?]. Qed.

Section TableFacts.
Context `{HashOrder}.

Lemma group_port p key m : peers_inv p -> ps_handles p !! key = Some m ->
  exists h, head (map_values m) = Some h /\ ps_used_ports p !! ph_port h = Some key.
Proof.
  intros I Hm. destruct (pv_groups p I key m Hm) as (Hne & port & Hport & _ & Hall).
  destruct (head (map_values m)) as [h|] eqn:Hh.
  - exists h. split; [done|]. apply head_Some_elem_of, elem_of_map_values in Hh as [id Hid].
    by destruct (Hall id h Hid) as (_ & _ & -> & _).
  - exfalso. apply map_choose in Hne as (id & h & Hid). apply head_None in Hh.
    assert (Hin : h ∈ map_values m) by (apply elem_of_map_values; by exists id). rewrite Hh in Hin. by apply not_elem_of_nil in Hin.
Qed.

(** The port given to a new connection. *)
Definition port_for (p : Peers) (key : PublicKey) (port : PeerPort) : Prop :=
  match ps_handles p !! key with
  | Some m => map_Forall (fun _ h => ph_port h = port) m
  | None => 1 <= port /\ ps_used_ports p !! port = None
            /\ forall q, 1 <= q < port -> is_Some (ps_used_ports p !! q)
  end.

Lemma handle_at_insert p used key n order h k id :
  handle_at (mkPeers n used (<[key := <[ps_next_id p := h]> (default ∅ (ps_handles p !! key))]> (ps_handles p)) order) k id
  = if decide (k = key /\ id = ps_next_id p) then Some h else handle_at p k id.
Proof.
  unfold handle_at. simpl. destruct (decide (k = key)) as [->|Hk].
  - rewrite lookup_insert_eq. simpl. destruct (decide (id = ps_next_id p)) as [->|].
    + by rewrite lookup_insert_eq, decide_True.
    + rewrite lookup_insert_ne, decide_False by naive_solver. by destruct (ps_handles p !! key).
  - by rewrite lookup_insert_ne, decide_False by naive_solver.
Qed.

(** Adding a connection under a port that is its peer's. *)
Lemma insert_handle_inv p used key port prio order : peers_inv p ->
  used !! port = Some key -> 1 <= port ->
  (forall q k, ps_used_ports p !! q = Some k -> used !! q = Some k) ->
  (forall q k, used !! q = Some k -> ps_used_ports p !! q = Some k \/ (q = port /\ k = key)) ->
  (forall q, ps_used_ports p !! q = Some key -> q = port) ->
  map_Forall (fun _ h => ph_port h = port) (default ∅ (ps_handles p !! key)) ->
  let h := mkPeerHandle (ps_next_id p) key port prio order in
  peers_inv (mkPeers (ps_next_id p + 1) used
    (<[key := <[ps_next_id p := h]> (default ∅ (ps_handles p !! key))]> (ps_handles p)) (wrap64 (order + 1))).
Proof.
  intros [G P U D N] Hport Hp1 Hkeep Hnew Huniq Hold h.
  assert (Hids : forall k m id g, ps_handles p !! k = Some m -> m !! id = Some g ->
    ph_id g = id /\ ph_key g = k /\ 1 <= id < ps_next_id p + 1).
  { intros k m id g Hm Hg. destruct (G k m Hm) as (_ & q & _ & _ & Hall). destruct (Hall id g Hg) as (? & ? & _ & ?).
    split_and!; [done|done|lia|lia]. }
  split; simpl; [| | | |lia].
  - apply map_Forall_insert_2.
    + split; [by apply insert_non_empty|]. exists port. split_and!; [done|done|].
      apply map_Forall_insert_2; [split_and!; simpl; done || lia|]. intros id g Hg. destruct (ps_handles p !! key) as [m|] eqn:Hm.
      * simpl in Hold, Hg. destruct (Hids key m id g Hm Hg) as (? & ? & ?). split_and!; [done|done|by apply (Hold id)|simpl; lia..].
      * simpl in Hg. by rewrite lookup_empty in Hg.
    + intros k m Hm. destruct (G k m Hm) as (Hne & q & Hq & Hq1 & Hall). split; [done|]. exists q.
      split_and!; [by apply Hkeep|done|]. intros id g Hg. destruct (Hids k m id g Hm Hg) as (? & ? & ?).
      split_and!; [done|done|by apply (Hall id g Hg)|simpl; lia..].
  - intros q1 q2 k Hq1 Hq2. apply Hnew in Hq1 as [Hq1|[-> ->]], Hq2 as [Hq2|[-> E]]; try subst k; auto.
    + by eapply P.
    + symmetry. auto.
  - intros q k Hq. destruct (decide (k = key)) as [->|]; [by rewrite lookup_insert_eq|].
    rewrite lookup_insert_ne by done. apply Hnew in Hq as [Hq|[_ ->]]; [by apply (U q)|done].
  - assert (Hfresh : forall k, ~ is_Some (handle_at p k (ps_next_id p))).
    { intros k [g Hg]. unfold handle_at in Hg. destruct (ps_handles p !! k) as [m|] eqn:Hm; [|done].
      destruct (G k m Hm) as (_ & q & _ & _ & Hall). destruct (Hall _ g Hg) as (_ & _ & _ & ?). lia. }
    intros k1 k2 id. rewrite !handle_at_insert.
    destruct (decide (k1 = key /\ id = ps_next_id p)) as [[-> ->]|], (decide (k2 = key /\ _)) as [[-> ?]|]; try done.
    + by intros _ ?%Hfresh.
    + subst id. by intros ?%Hfresh.
    + apply D.
Qed.

Definition new_port (p : Peers) (key : PublicKey) : PeerPort :=
  match ps_handles p !! key with
  | Some existing => match head (map_values existing) with Some h => ph_port h | None => alloc_port p end
  | None => alloc_port p
  end.

Lemma new_port_spec p key : peers_inv p ->
  1 <= new_port p key
  /\ ((ps_handles p !! key = None /\ ps_used_ports p !! new_port p key = None)
      \/ (ps_handles p !! key <> None /\ ps_used_ports p !! new_port p key = Some key))
  /\ port_for p key (new_port p key).
Proof.
  intros I. unfold new_port, port_for. destruct (ps_handles p !! key) as [m|] eqn:Hm.
  - destruct (group_port _ key m I Hm) as (h0 & -> & Hused).
    destruct (pv_groups p I key m Hm) as (Hne & port & Hport & Hp1 & Hall).
    rewrite (pv_ports p I _ _ _ Hused Hport) in *. split_and!; [done|by right|].
    intros id h Hh. by apply (Hall id h).
  - destruct (alloc_port_spec p) as (Hp1 & Hfree & Hleast). split_and!; auto.
Qed.

Lemma allocate_peer_eq p key prio : is_u64 (ps_next_id p + 1) ->
  let h := mkPeerHandle (ps_next_id p) key (new_port p key) prio (ps_order p) in
  allocate_peer p key prio = (h, mkPeers (ps_next_id p + 1)
    (if decide (ps_handles p !! key = None) then <[new_port p key := key]> (ps_used_ports p) else ps_used_ports p)
    (<[key := <[ps_next_id p := h]> (default ∅ (ps_handles p !! key))]> (ps_handles p))
    (wrap64 (ps_order p + 1))).
Proof.
  intros Hn. unfold allocate_peer. rewrite wrap64_id by done. destruct p as [n u hs o]. cbn.
  unfold new_port. cbn. by destruct (decide (hs !! key = None)).
Qed.

Lemma allocate_peer_spec p key prio : peers_inv p -> ps_next_id p < U64_MAX ->
  let '(h, p') := allocate_peer p key prio in
  peers_inv p' /\ ps_next_id p' = ps_next_id p + 1 /\ ph_id h = ps_next_id p /\ ph_key h = key
  /\ port_for p key (ph_port h)
  /\ forall k id, handle_at p' k id = if decide (k = key /\ id = ps_next_id p) then Some h else handle_at p k id.
Proof.
  intros I Hid. pose proof (pv_next p I) as N. rewrite allocate_peer_eq by (unfold is_u64, U64_MAX in *; lia).
  destruct (new_port_spec p key I) as (Hp1 & Hport & Hfor). set (port := new_port p key) in *. clearbody port.
  set (used := if decide (ps_handles p !! key = None) then _ else _).
  assert (Hkey : forall q, ps_used_ports p !! q = Some key -> ps_handles p !! key <> None).
  { intros q Hq. apply (pv_used p I) in Hq as [? Hq]. by rewrite Hq. }
  split_and!; try done.
  - apply (insert_handle_inv p); unfold used; try done.
    + case_decide; [by rewrite lookup_insert_eq|naive_solver].
    + intros q k Hq. case_decide as Hn; [|done]. rewrite lookup_insert_ne; [done|].
      intros ->. destruct Hport as [[_ Hport]|[Hs _]]; [congruence|done].
    + intros q k Hq. case_decide as Hn; [apply lookup_insert_Some in Hq; naive_solver|by left].
    + intros q Hq. destruct Hport as [[Hn _]|[_ Hport]]; [by apply Hkey in Hq|by eapply (pv_ports p I)].
    + unfold port_for in Hfor. by destruct (ps_handles p !! key).
  - apply (handle_at_insert p).
Qed.

Lemma handle_at_delete p id key m n used order k i : ps_handles p !! key = Some m ->
  handle_at (mkPeers n used (if decide (delete id m = ∅) then delete key (ps_handles p)
                             else <[key := delete id m]> (ps_handles p)) order) k i
  = if decide (k = key /\ i = id) then None else handle_at p k i.
Proof.
  intros Hm. unfold handle_at. simpl. destruct (decide (k = key /\ i = id)) as [[-> ->]|Hne].
  - destruct (decide (delete id m = ∅)); [by rewrite lookup_delete_eq|]. rewrite lookup_insert_eq. simpl. apply lookup_delete_eq.
  - destruct (decide (k = key)) as [->|].
    2: { destruct (decide (delete id m = ∅)); [by rewrite lookup_delete_ne|by rewrite lookup_insert_ne]. }
    rewrite Hm. simpl. destruct (decide (delete id m = ∅)) as [He|He].
    + rewrite lookup_delete_eq. simpl. rewrite <- (lookup_delete_ne m id) by naive_solver. by rewrite He, lookup_empty.
    + rewrite lookup_insert_eq. simpl. apply lookup_delete_ne. naive_solver.
Qed.

(** Removing a connection keeps the table consistent; the last connection of a
    peer takes the peer's port with it. *)
Lemma delete_handle_inv p id key m port : peers_inv p -> ps_handles p !! key = Some m ->
  (delete id m = ∅ -> ps_used_ports p !! port = Some key) ->
  peers_inv (mkPeers (ps_next_id p) (if decide (delete id m = ∅) then delete port (ps_used_ports p) else ps_used_ports p)
    (if decide (delete id m = ∅) then delete key (ps_handles p) else <[key := delete id m]> (ps_handles p))
    (ps_order p)).
Proof.
  intros [G P U D N] Hm Hport. split; simpl; [| | | |done].
  - case_decide as He.
    + intros k m' [Hne Hk]%lookup_delete_Some. destruct (G k m' Hk) as (? & q & Hq & ? & ?). split; [done|].
      exists q. split_and!; [|done|done]. simpl. rewrite lookup_delete_ne; [done|]. intros <-. specialize (Hport He). congruence.
    + apply map_Forall_insert_2; [|done]. destruct (G key m Hm) as (_ & q & Hq & ? & ?). split; [done|].
      exists q. split_and!; [done|done|]. by apply map_Forall_delete.
  - intros q1 q2 k. case_decide; [|apply P]. rewrite !lookup_delete_Some. intros [_ ?] [_ ?]. by eapply P.
  - intros q k. case_decide as He.
    + intros [Hne Hq]%lookup_delete_Some. rewrite lookup_delete_ne; [by apply (U q)|]. intros <-.
      apply Hne. eapply P; [by apply Hport|done].
    + intros Hq. destruct (decide (k = key)) as [->|]; [by rewrite lookup_insert_eq|].
      rewrite lookup_insert_ne by done. by apply (U q).
  - intros k1 k2 i. rewrite !(handle_at_delete p id key m) by done.
    do 2 case_decide; intros [? ?] [? ?]; try done. eapply D; by eexists.
Qed.

Lemma remove_peer_spec p id key : peers_inv p ->
  let '(port, p') := Peers_remove_peer p id key in
  peers_inv p' /\ ps_next_id p' = ps_next_id p /\ port = ph_port <$> handle_at p key id
  /\ forall k i, handle_at p' k i = if decide (k = key /\ i = id) then None else handle_at p k i.
Proof.
  intros I. unfold Peers_remove_peer. destruct (ps_handles p !! key) as [m|] eqn:Hm.
  2: { split_and!; try done; [unfold handle_at; by rewrite Hm|]. intros k i. case_decide as Hk; [|done].
       destruct Hk as [-> ->]. unfold handle_at. by rewrite Hm. }
  assert (Hlast : delete id m = ∅ -> exists h, m !! id = Some h /\ ps_used_ports p !! ph_port h = Some key).
  { intros He. destruct (pv_groups p I key m Hm) as (Hne & port & Hport & _ & Hall).
    destruct (m !! id) as [h|] eqn:Hh; [|by rewrite delete_id in He].
    exists h. split; [done|]. by destruct (Hall id h Hh) as (_ & _ & -> & _). }
  pose proof (delete_handle_inv p id key m (default 0 (ph_port <$> m !! id)) I Hm) as Hinv.
  pose proof (fun used => handle_at_delete p id key m (ps_next_id p) used (ps_order p)) as Hat.
  destruct (decide (delete id m = ∅)) as [He|He].
  - destruct (Hlast He) as (h & Hh & Hport). rewrite Hh in *. simpl in *.
    split_and!; [by apply Hinv|done|unfold handle_at; by rewrite Hm; simpl; rewrite Hh|].
    intros k i. by apply Hat.
  - split_and!; [by apply Hinv|done|unfold handle_at; by rewrite Hm|]. intros k i. by apply Hat.
Qed.

(** [get_handle] finds the connection with an id, whatever the hash order. *)
Lemma get_handle_spec p id : peers_inv p ->
  forall h, get_handle p id = Some h <-> exists key, handle_at p key id = Some h.
Proof.
  intros I h. unfold get_handle.
  assert (Hfold : forall l (found : option PeerHandle),
    foldl (fun found (peers : gmap PeerId PeerHandle) => match found with Some h => Some h | None => peers !! id end) found l
    = match found with Some h => Some h | None => head (omap (fun m : gmap PeerId PeerHandle => m !! id) l) end).
  { induction l as [|m l IH]; intros found; simpl; [by destruct found|]. rewrite IH. destruct found; [done|]. by destruct (m !! id) eqn:Hmi; rewrite ?Hmi; simpl. }
  rewrite Hfold. split.
  - intros Hh%head_Some_elem_of. apply list_elem_of_omap in Hh as (m & [key Hm]%elem_of_map_values & Hid).
    exists key. unfold handle_at. by rewrite Hm.
  - intros [key Hh]. destruct (head _) as [g|] eqn:Hg.
    + apply head_Some_elem_of, list_elem_of_omap in Hg as (m & [k Hm]%elem_of_map_values & Hid).
      assert (Hk : handle_at p k id = Some g) by (unfold handle_at; by rewrite Hm).
      rewrite (pv_ids p I k key id) in Hk by (by eexists). congruence.
    + exfalso. apply head_None in Hg. unfold handle_at in Hh. destruct (ps_handles p !! key) as [m|] eqn:Hm; [|done].
      assert (Hin : h ∈ omap (fun m : gmap PeerId PeerHandle => m !! id) (map_values (ps_handles p))).
      { apply list_elem_of_omap. exists m. split; [|done]. apply elem_of_map_values. by exists key. }
      rewrite Hg in Hin. by apply not_elem_of_nil in Hin.
Qed.

(** Connections come and go. *)
Inductive table_op :=
| OpAllocate (key : PublicKey) (prio : Z)
| OpRemove (id : PeerId) (key : PublicKey).

Definition table_step (p : Peers) (op : table_op) : Peers :=
  match op with
  | OpAllocate key prio => (allocate_peer p key prio).2
  | OpRemove id key => (Peers_remove_peer p id key).2
  end.

Lemma table_run_inv ops p : peers_inv p -> ps_next_id p + Z.of_nat (length ops) <= U64_MAX ->
  peers_inv (foldl table_step p ops) /\ ps_next_id (foldl table_step p ops) <= ps_next_id p + Z.of_nat (length ops).
Proof.
  revert p. induction ops as [|op ops IH]; intros p I Hlen; cbn [foldl length]; [split; [done|lia]|].
  cbn [length] in Hlen. destruct op as [key prio|id key]; cbn [table_step].
  - pose proof (allocate_peer_spec p key prio I) as Ha. destruct (allocate_peer p key prio) as [h p'].
    destruct Ha as (I' & Hn & _); [lia|]. destruct (IH p' I') as [? ?]; [simpl; lia|]. split; [done|]. simpl in *. lia.
  - pose proof (remove_peer_spec p id key I) as Hr. destruct (Peers_remove_peer p id key) as [port p'].
    destruct Hr as (I' & Hn & _). destruct (IH p' I') as [? ?]; [simpl; lia|]. split; [done|]. simpl in *. lia.
Qed.

Lemma handles_of_inv p k1 id1 h1 k2 id2 h2 : peers_inv p ->
  handle_at p k1 id1 = Some h1 -> handle_at p k2 id2 = Some h2 ->
  ph_id h1 = id1 /\ ph_key h1 = k1 /\ 1 <= ph_port h1 /\ (ph_port h1 = ph_port h2 <-> k1 = k2).
Proof.
  unfold handle_at. intros I H1 H2. destruct (ps_handles p !! k1) as [m1|] eqn:Hm1; [|done].
  destruct (ps_handles p !! k2) as [m2|] eqn:Hm2; [|done]. simpl in *.
  destruct (pv_groups p I k1 m1 Hm1) as (_ & q1 & Hq1 & Hp1 & Hall1). destruct (Hall1 id1 h1 H1) as (? & ? & -> & _).
  destruct (pv_groups p I k2 m2 Hm2) as (_ & q2 & Hq2 & Hp2 & Hall2). destruct (Hall2 id2 h2 H2) as (_ & _ & -> & _).
  split_and!; try done. split; intros E; [subst; congruence|]. subst. by eapply (pv_ports p I).
Qed.
End TableFacts.

(** ** Properties of the table *)

(** Whatever connections come and go (fewer than 2^64 of them), ports
    identify peers: two connections share a port exactly when they belong to the
    same peer, no port is the root's 0, every connection is stored under its own
    id and key and is found by its id alone, and a peer that connects anew gets
    its old port while it still has a connection, and otherwise the least free
    port. *)
Theorem ports_identify_peers `{HashOrder} ops key prio (Hops : Z.of_nat (length ops) < U64_MAX - 1) :
  let p := foldl table_step Peers_new ops in
  (forall k1 id1 h1 k2 id2 h2, handle_at p k1 id1 = Some h1 -> handle_at p k2 id2 = Some h2 ->
     ph_id h1 = id1 /\ ph_key h1 = k1 /\ 1 <= ph_port h1 /\ (ph_port h1 = ph_port h2 <-> k1 = k2))
  /\ (forall k id h, handle_at p k id = Some h -> get_handle p id = Some h)
  /\ port_for p key (ph_port (allocate_peer p key prio).1)
  /\ handle_at p key (ph_id (allocate_peer p key prio).1) = None.
Proof.
  intros p. destruct (table_run_inv ops Peers_new Peers_new_inv) as [I Hn]; [simpl; lia|]. fold p in I, Hn.
  simpl in Hn. split_and!.
  - intros. by eapply handles_of_inv.
  - intros k id h Hh. apply get_handle_spec; [done|]. by exists k.
  - pose proof (allocate_peer_spec p key prio I) as Ha. destruct (allocate_peer p key prio) as [h p']. apply Ha. lia.
  - pose proof (allocate_peer_spec p key prio I) as Ha. destruct (allocate_peer p key prio) as [h p'].
    destruct Ha as (_ & _ & Hid & _); [lia|]. simpl. rewrite Hid. unfold handle_at.
    destruct (ps_handles p !! key) as [m|] eqn:Hm; [|done]. simpl. destruct (m !! _) as [g|] eqn:Hg; [|done].
    destruct (pv_groups p I key m Hm) as (_ & q & _ & _ & Hall). destruct (Hall _ g Hg) as (_ & _ & _ & ?). lia.
Qed.

Lemma ports_identify_peers_witness :
  let p := @foldl Peers table_op (@table_step id_order) Peers_new
             [OpAllocate [1] 0; OpAllocate [2] 0; OpAllocate [1] 0; OpRemove 2 [2]] in
  @port_for p [3] (ph_port (@allocate_peer id_order p [3] 0).1)
  /\ ph_port (@allocate_peer id_order p [3] 0).1 = 2.
Proof.
  intros p. destruct (@ports_identify_peers id_order
    [OpAllocate [1] 0; OpAllocate [2] 0; OpAllocate [1] 0; OpRemove 2 [2]] [3] 0) as (_ & _ & Hp & _).
  - unfold U64_MAX. simpl. lia.
  - split; [exact Hp|]. vm_compute. reflexivity.
Defined.

(** ** Frames on the stream *)

Lemma stream_uvarint_loop_spec data i v : (i <= 9)%nat ->
  match decode_uvarint_loop data i (7 * Z.of_nat i) v with
  | Some (x, n) => (i < n <= i + length data)%nat
      /\ stream_uvarint_loop data (7 * Z.of_nat i) v = Ok (x, drop (n - i) data)
  | None => exists e, stream_uvarint_loop data (7 * Z.of_nat i) v = Err e
  end.
Proof.
  revert i v. induction data as [|b data IH]; intros i v Hi; cbn [decode_uvarint_loop stream_uvarint_loop]; [by eexists|].
  destruct (_ && _); [by eexists|]. destruct (Z.land b 128 =? 0).
  { split; [simpl; lia|]. by replace (S i - i)%nat with 1%nat by lia. }
  destruct (Nat.leb_spec 9 i).
  { destruct (Z.leb_spec 70 (7 * Z.of_nat i + 7)); [by eexists|lia]. }
  destruct (Z.leb_spec 70 (7 * Z.of_nat i + 7)); [lia|].
  specialize (IH (S i) (Z.lor v (wrap64 (Z.shiftl (Z.land b 127) (7 * Z.of_nat i)))) ltac:(lia)).
  replace (7 * Z.of_nat (S i)) with (7 * Z.of_nat i + 7) in IH by lia.
  destruct (decode_uvarint_loop _ _ _ _) as [[x n]|]; [|done]. destruct IH as [Hn ->].
  split; [simpl; lia|]. by replace (n - i)%nat with (S (n - S i)) by lia.
Qed.

(** The reader of the stream and the decoder of buffers agree. *)
Lemma stream_read_uvarint_spec data :
  match decode_uvarint data with
  | Some (x, n) => (0 < n <= length data)%nat /\ stream_read_uvarint data = Ok (x, drop n data)
  | None => exists e, stream_read_uvarint data = Err e
  end.
Proof.
  pose proof (stream_uvarint_loop_spec data 0 0 ltac:(lia)) as Hs. change (7 * Z.of_nat 0) with 0 in Hs.
  unfold decode_uvarint, stream_read_uvarint. destruct (decode_uvarint_loop _ _ _ _) as [[x n]|]; [|done].
  by rewrite Nat.sub_0_r in Hs.
Qed.

Lemma read_frame_consumes max stream buf rest : read_frame max stream = Ok (buf, rest) ->
  (length rest < length stream)%nat.
Proof.
  unfold read_frame. pose proof (stream_read_uvarint_spec stream) as Hs.
  destruct (decode_uvarint stream) as [[x n]|]; [destruct Hs as [Hn ->]|by destruct Hs as [e ->]].
  cbn [mbind result_bind]. destruct (_ >? _); [done|]. destruct (_ <? _)%nat; [done|]. intros [= _ <-].
  rewrite !length_drop. lia.
Qed.

Lemma read_frame_encode max t payload rest : Z.of_nat (1 + length payload) <= max ->
  is_u64 (Z.of_nat (1 + length payload)) ->
  read_frame max (encode_frame t payload ++ rest) = Ok (PacketType_as_u8 t :: payload, rest).
Proof.
  intros Hmax Hu. unfold encode_frame, read_frame. rewrite encode_uvarint_eq by done. cbn [app].
  set (n := (1 + length payload)%nat) in *. rewrite <- !app_assoc.
  pose proof (stream_read_uvarint_spec (leb (Z.of_nat n) ++ [PacketType_as_u8 t] ++ payload ++ rest)) as Hs.
  rewrite decode_uvarint_leb in Hs by done. destruct Hs as [_ ->]. rewrite drop_app_length. cbn [mbind result_bind].
  rewrite Z.gtb_ltb. destruct (Z.ltb_spec max (Z.of_nat n)); [lia|]. rewrite Nat2Z.id.
  replace ([PacketType_as_u8 t] ++ payload ++ rest) with ((PacketType_as_u8 t :: payload) ++ rest) by done.
  assert (Hlen : length (PacketType_as_u8 t :: payload) = n) by done.
  rewrite length_app, Hlen. destruct (Nat.ltb_spec (n + length rest) n); [lia|].
  rewrite take_app_length', drop_app_length' by done. done.
Qed.

(** A reader that is not stopped by its fuel. *)
Section ReaderFacts.
Context `{Dalek} (peer_id : PeerId) (peer_key our_key : PublicKey) (max : Z) (rtt : nat -> Z).

Abbreviation loop := (reader_loop peer_id peer_key our_key) (only parsing).

Lemma reader_loop_fuel fuel fuel' n stream : (length stream < fuel)%nat -> (length stream < fuel')%nat ->
  loop fuel max rtt n stream = loop fuel' max rtt n stream.
Proof.
  revert fuel' n stream. induction fuel as [|fuel IH]; intros [|fuel'] n stream Hf Hf'; try lia. simpl.
  destruct (read_frame max stream) as [[buf rest]|e] eqn:Hr; [|done]. apply read_frame_consumes in Hr.
  destruct (handle_frame _ _ _ _ _) as [[msg k]|e]; [|done]. by rewrite (IH fuel') by lia.
Qed.

(** The reader always ends with an error: the stream ends or is refused. *)
Lemma reader_loop_ends fuel n stream : (length stream < fuel)%nat ->
  is_Some (rl_reason (loop fuel max rtt n stream)).
Proof.
  revert n stream. induction fuel as [|fuel IH]; intros n stream Hf; [lia|]. simpl.
  destruct (read_frame max stream) as [[buf rest]|e] eqn:Hr; [|done]. apply read_frame_consumes in Hr.
  destruct (handle_frame _ _ _ _ _) as [[msg k]|e]; [|done]. apply IH. lia.
Qed.
End ReaderFacts.

(** ** What a peer receives of the actions of the other *)

(** The values the types of an action guarantee. *)
Definition action_wf (a : RouterAction) : Prop :=
  match a with
  | SendSigReq _ req => SigReq_wf req
  | SendSigRes _ res => SigRes_wf res
  | SendAnnounce _ ann => Announce_wf ann
  | SendBloom _ bloom => filter_wf bloom
  | SendTraffic _ tr => Traffic_wf (mkTraffic (tp_path tr) (tp_from tr) (tp_source tr) (tp_dest tr)
                                      (tp_watermark tr) (tp_payload tr))
  | SendPathLookup _ l => PathLookup_wf l
  | SendPathNotify _ n => PathNotify_wf n
  | SendPathBroken _ b => PathBroken_wf b
  | DeliverTraffic _ | PathNotifyCallback _ => True
  end.

(** The message the receiver's router gets for an action, or the refusal. *)
Definition received `{Dalek} (peer_id : PeerId) (peer_key our_key : PublicKey) (rtt : Z) (a : RouterAction)
    : result Error (option RouterMsg * bool) :=
  match a with
  | SendSigReq _ req => Ok (Some (MsgHandleRequest peer_id peer_key req), true)
  | SendSigRes _ res => if check_sig_res res our_key peer_key
                        then Ok (Some (MsgHandleResponse peer_id peer_key res rtt), true) else Err BadMessage
  | SendAnnounce _ ann => if RouterAnnounce_check (from_wire ann)
                          then Ok (Some (MsgHandleAnnounce peer_id peer_key (from_wire ann)), true) else Err BadMessage
  | SendBloom _ bloom => Ok (Some (MsgHandleBloom peer_key bloom), true)
  | SendTraffic _ tr => Ok (Some (MsgHandleTraffic (tr <| tp_keepalive := false |>)), true)
  | SendPathLookup _ l => Ok (Some (MsgHandleLookup peer_key l), true)
  | SendPathNotify _ n => Ok (Some (MsgHandleNotify peer_key n), true)
  | SendPathBroken _ b => Ok (Some (MsgHandleBroken b), true)
  | DeliverTraffic _ | PathNotifyCallback _ => Ok (None, false)
  end.

Lemma whole_nil {A} (m : A) : whole m [] = Ok m.
Proof. done. Qed.

(** Every frame is its type byte and a payload the receiver decodes. *)
Lemma action_frame_received `{Dalek} peer_id peer_key our_key rtt a id frame : action_wf a ->
  encode_action_frame a = Some (id, frame) ->
  exists t payload, frame = encode_frame t payload
    /\ handle_frame peer_id peer_key our_key rtt (PacketType_as_u8 t :: payload)
       = received peer_id peer_key our_key rtt a.
Proof.
  intros Hwf He. destruct a; simpl in *; try done; injection He as <- <-.
  - do 2 eexists. split; [done|]. simpl. pose proof (SigReq_decode_encode req [] Hwf) as E.
    rewrite app_nil_r in E. by rewrite E.
  - do 2 eexists. split; [done|]. simpl. pose proof (SigRes_decode_encode res [] Hwf) as E.
    rewrite app_nil_r in E. rewrite E. simpl. by destruct (check_sig_res _ _ _).
  - do 2 eexists. split; [done|]. simpl. pose proof (Announce_decode_encode ann [] Hwf) as E.
    rewrite app_nil_r in E. rewrite E. simpl. by destruct (RouterAnnounce_check _).
  - do 2 eexists. split; [done|]. simpl. pose proof (decode_encode_bloom (as_raw bloom) [] Hwf) as E.
    rewrite app_nil_r in E. rewrite E. by destruct bloom.
  - rewrite encode_traffic_frame_eq by done. do 2 eexists. split; [done|]. simpl.
    by rewrite (Traffic_decode_encode _ Hwf).
  - do 2 eexists. split; [done|]. simpl. pose proof (PathNotify_decode_encode notify [] Hwf) as E.
    rewrite app_nil_r in E. by rewrite E.
  - do 2 eexists. split; [done|]. simpl. pose proof (PathLookup_decode_encode lookup [] Hwf) as E.
    rewrite app_nil_r in E. by rewrite E.
  - do 2 eexists. split; [done|]. simpl. pose proof (PathBroken_decode_encode broken [] Hwf) as E.
    rewrite app_nil_r in E. by rewrite E.
Qed.

Section Link.
Context `{Dalek} (peer_id : PeerId) (peer_key our_key : PublicKey) (max : Z) (rtt : nat -> Z).

Abbreviation loop := (reader_loop peer_id peer_key our_key) (only parsing).

(** The reader on a whole stream, from its [n]-th frame on. *)
Definition read_stream (n : nat) (stream : bytes) : ReaderLog := loop (S (length stream)) max rtt n stream.

(** The router messages of a sequence of accepted actions. *)
Fixpoint received_msgs (n : nat) (acts : list RouterAction) : list RouterMsg :=
  match acts with
  | [] => []
  | a :: acts =>
      match received peer_id peer_key our_key (rtt n) a with
      | Ok (msg, _) => option_list msg ++ received_msgs (S n) acts
      | Err _ => []
      end
  end.

Definition accepted (a : RouterAction) : Prop :=
  match a with
  | SendSigRes _ res => check_sig_res res our_key peer_key = true
  | SendAnnounce _ ann => RouterAnnounce_check (from_wire ann) = true
  | _ => True
  end.

Lemma read_stream_frame n a id frame tail : action_wf a -> encode_action_frame a = Some (id, frame) ->
  Z.of_nat (length frame) <= max -> is_u64 max ->
  read_stream n (frame ++ tail) =
    match received peer_id peer_key our_key (rtt n) a with
    | Ok (msg, keepalive) =>
        let rest := read_stream (S n) tail in
        mkReaderLog (option_list msg ++ rl_msgs rest) ((if keepalive : bool then 1 else 0) + rl_keepalives rest)
          (rl_reason rest)
    | Err e => mkReaderLog [] 0 (Some e)
    end.
Proof.
  intros Hwf He Hmax Hu.
  destruct (action_frame_received peer_id peer_key our_key (rtt n) a id frame Hwf He) as (t & payload & -> & <-).
  assert (Hlen : (1 + length payload <= length (encode_frame t payload))%nat).
  { unfold encode_frame. rewrite !length_app. simpl. lia. }
  unfold read_stream at 1. cbn [reader_loop].
  rewrite read_frame_encode by (unfold is_u64 in *; lia).
  destruct (handle_frame _ _ _ _ _) as [[msg k]|e]; [|done].
  unfold read_stream. rewrite (reader_loop_fuel _ _ _ _ _ _ (S (length tail))); [done| |lia].
  rewrite length_app. lia.
Qed.

(** A link carries the router's actions unchanged. When a node writes the
    frames of its actions in order, the other node's reader recovers, in the same
    order and whatever follows on the stream, exactly the router messages for
    these actions (a traffic packet loses only its local keepalive mark), and
    schedules one keepalive per frame; an action whose signature does not check
    ends the connection with [BadMessage] instead of reaching the router. *)
Theorem link_transparent acts frames tail n
    (Hwf : Forall action_wf acts)
    (Hframes : Forall2 (fun a f => exists id, encode_action_frame a = Some (id, f)) acts frames)
    (Hsize : Forall (fun f => Z.of_nat (length f) <= max) frames) (Hmax : is_u64 max) :
  (Forall accepted acts ->
     read_stream n (concat frames ++ tail) =
       (let rest := read_stream (n + length acts) tail in
        mkReaderLog (received_msgs n acts ++ rl_msgs rest) (length acts + rl_keepalives rest) (rl_reason rest))
     /\ length (received_msgs n acts) = length acts)
  /\ (forall a frame, action_wf a -> (exists id, encode_action_frame a = Some (id, frame)) ->
        Z.of_nat (length frame) <= max -> ~ accepted a ->
        read_stream n (frame ++ tail) = mkReaderLog [] 0 (Some BadMessage)).
Proof.
  split.
  - revert n Hwf Hsize. induction Hframes as [|a f acts frames [id He] _ IH]; intros n Hwf Hsize Hacc; cbn [concat length received_msgs].
    { rewrite Nat.add_0_r. split; [|done]. simpl. by destruct (read_stream n tail). }
    apply Forall_cons in Hwf as [Ha Hwf], Hsize as [Hf Hsize], Hacc as [Hok Hacc].
    rewrite <- app_assoc, (read_stream_frame n a id f) by done.
    assert (Hr : exists msg, received peer_id peer_key our_key (rtt n) a = Ok (Some msg, true)).
    { destruct a; simpl in *; try done; rewrite ?Hok; by eexists. }
    destruct Hr as [msg ->]. destruct (IH (S n) Hwf Hsize Hacc) as [-> Hlen].
    replace (S n + length acts)%nat with (n + S (length acts))%nat by lia. simpl. by rewrite Hlen.
  - intros a frame Ha [id He] Hf Hbad. rewrite (read_stream_frame n a id frame) by done.
    destruct a; simpl in *; try done; by rewrite (not_true_is_false _ Hbad).
Qed.

(** What the router may rely on in a message from the reader. *)
Definition msg_checked (msg : RouterMsg) : Prop :=
  match msg with
  | MsgHandleRequest _ k req => k = peer_key /\ SigReq_wf req
  | MsgHandleResponse _ k res _ => k = peer_key /\ SigRes_wf res /\ check_sig_res res our_key peer_key = true
  | MsgHandleAnnounce _ k ann => k = peer_key /\ Announce_wf (to_wire ann) /\ RouterAnnounce_check ann = true
  | MsgHandleBloom k filter => k = peer_key /\ filter_wf filter
  | MsgHandleLookup k l => k = peer_key /\ PathLookup_wf l
  | MsgHandleNotify k notify => k = peer_key /\ PathNotify_wf notify
  | MsgHandleBroken broken => PathBroken_wf broken
  | MsgHandleTraffic tr =>
      Traffic_wf (mkTraffic (tp_path tr) (tp_from tr) (tp_source tr) (tp_dest tr) (tp_watermark tr) (tp_payload tr))
      /\ tp_keepalive tr = false
  | _ => False
  end.

Lemma or_decode_ok {A B} (r : result Error A) (f : A -> result Error B) b :
  (or_decode r ≫= f) = Ok b -> exists a, r = Ok a /\ f a = Ok b.
Proof. destruct r as [a|e]; [|done]. intros E. by exists a. Qed.

Lemma handle_frame_checked t buf msg k : bytes_wf buf ->
  handle_frame peer_id peer_key our_key t buf = Ok (Some msg, k) -> msg_checked msg.
Proof.
  intros Hb. destruct buf as [|b payload]; [done|]. simpl. apply Forall_cons in Hb as [_ Hb].
  destruct (PacketType_try_from b) as [[]|]; try done; intros E; apply or_decode_ok in E as (m & Hm & E).
  - destruct m as [m r]. injection E as <- <-. split; [done|]. by apply SigReq_decode_wf in Hm as [? _].
  - destruct m as [m r]. destruct (check_sig_res m our_key peer_key) eqn:Hc; [|done]. injection E as <- <-.
    split_and!; [done| |done]. by apply SigRes_decode_wf in Hm as [? _].
  - destruct (RouterAnnounce_check (from_wire m)) eqn:Hc; [|done]. injection E as <- <-.
    split_and!; [done| |done]. apply Announce_decode_wf in Hm; [|done]. by destruct m as [? ? [] ?].
  - injection E as <- <-. split; [done|]. by apply decode_bloom_wf in Hm.
  - injection E as <- <-. split; [done|]. by apply PathLookup_decode_wf in Hm.
  - injection E as <- <-. split; [done|]. by apply PathNotify_decode_wf in Hm.
  - injection E as <- <-. by apply PathBroken_decode_wf in Hm.
  - injection E as <- <-. split; [|done]. apply Traffic_decode_wf in Hm; [|done]. by destruct m.
Qed.

Lemma read_frame_bytes stream buf rest : bytes_wf stream -> read_frame max stream = Ok (buf, rest) ->
  bytes_wf buf /\ bytes_wf rest.
Proof.
  intros Hs. unfold read_frame. pose proof (stream_read_uvarint_spec stream) as Hr.
  destruct (decode_uvarint stream) as [[x n]|]; [destruct Hr as [_ ->]|by destruct Hr as [e ->]].
  cbn [mbind result_bind]. destruct (_ >? _); [done|]. destruct (_ <? _)%nat; [done|]. intros [= <- <-].
  split; [apply Forall_take|apply Forall_drop]; by apply Forall_drop.
Qed.

Lemma read_stream_checked n stream : bytes_wf stream -> Forall msg_checked (rl_msgs (read_stream n stream)).
Proof.
  unfold read_stream. generalize (S (length stream)). intros fuel. revert n stream.
  induction fuel as [|fuel IH]; intros n stream Hs; simpl; [done|].
  destruct (read_frame max stream) as [[buf rest]|e] eqn:Hr; [|done].
  destruct (read_frame_bytes _ _ _ Hs Hr) as [Hb Hrest].
  destruct (handle_frame _ _ _ _ buf) as [[[msg|] k]|e] eqn:Hh; simpl; [|by apply IH|done].
  constructor; [exact (handle_frame_checked _ _ _ _ Hb Hh)|by apply IH].
Qed.

(** Whatever bytes a peer sends, the reader ends (at the latest when the
    stream does) with a reason, and every message it hands to the router has been
    decoded within its types, is attributed to the authenticated peer, and passed
    its signature check: a response is signed by the peer for this node, an
    announcement by its node and its parent. *)
Theorem reader_gate stream (Hs : bytes_wf stream) :
  let log := read_stream 0 stream in
  is_Some (rl_reason log) /\ Forall msg_checked (rl_msgs log).
Proof. split; [apply reader_loop_ends; lia|by apply read_stream_checked]. Qed.
End Link.

Lemma link_transparent_witness :
  let key := replicate 32 1 in
  let a := SendSigReq 4 (mkSigReq 300 5) in
  let b := SendPathLookup 4 (mkPathLookup key (replicate 32 2) [3; 300]) in
  exists f g, encode_action_frame a = Some (4, f) /\ encode_action_frame b = Some (4, g)
  /\ rl_msgs (@read_stream toy_dalek 7 key key 1048576 (fun _ => 0) 0 (f ++ g ++ []))
     = [MsgHandleRequest 7 key (mkSigReq 300 5); MsgHandleLookup key (mkPathLookup key (replicate 32 2) [3; 300])].
Proof.
  intros key a b. eexists _, _. split; [reflexivity|]. split; [reflexivity|].
  match goal with |- rl_msgs (read_stream _ _ _ _ _ _ (?f ++ ?g ++ [])) = _ =>
    destruct (@link_transparent toy_dalek 7 key key 1048576 (fun _ => 0) [a; b] [f; g] [] 0) as [Hl _] end.
  - repeat constructor; unfold is_u64, is_u8; simpl; try lia; try done.
  - repeat constructor; by eexists.
  - repeat constructor; vm_compute; discriminate.
  - unfold is_u64. lia.
  - destruct Hl as [E _]; [repeat constructor|]. cbn [concat] in E. rewrite <- !app_assoc in E. simpl app in E.
    etransitivity; [apply (f_equal rl_msgs E)|]. reflexivity.
Defined.

Lemma reader_gate_witness :
  let stream := encode_frame KeepAlive [] ++ encode_frame ProtoSigReq [172; 2; 5] ++ [3; 2] in
  Forall (@msg_checked toy_dalek [9] [8]) (rl_msgs (@read_stream toy_dalek 7 [9] [8] 100 (fun _ => 0) 0 stream))
  /\ @read_stream toy_dalek 7 [9] [8] 100 (fun _ => 0) 0 stream
     = mkReaderLog [MsgHandleRequest 7 [9] (mkSigReq 300 5)] 1 (Some Io).
Proof.
  intros stream. split; [|reflexivity].
  apply (@reader_gate toy_dalek 7 [9] [8] 100 (fun _ => 0) stream).
  unfold bytes_wf. apply (bool_decide_eq_true_1 _). vm_compute. reflexivity.
Defined.
