(* ===== verification/Signed.v ===== *)
(** * Signed: only signed announcements enter the tree

    Joins the reader task ([Peers]), the actor ([Actor]) and the router: whatever
    bytes the peers send, the router never panics and every announcement it
    stores carries the valid signatures of its node and of that node's parent. *)

From S2P Require Import Prelude.
From S2P Require Import Wire.
From S2P Require Import Bloom.
From S2P Require Import Crypto.
From S2P Require Import Traffic.
From S2P Require Import Pathfinder.
From S2P Require Import Tree.
From S2P Require Import Router.
From S2P Require Import RouterFacts.
From S2P Require Import Actor.
From S2P Require Import RouterInv.
From S2P Require Import RouterTree.
From S2P Require Import Peers.
From stdpp Require Import options.
Open Scope Z_scope.

Section Signed.
Context {DK : Dalek} {LAWS : DalekLaws} {HO : HashOrder} {EN : Entropy}
  (murmur3_x64_128 : bytes -> Z -> option Z) (crypto : Crypto).
Implicit Types r : Router.

Definition response_checked r (pk : PublicKey) (res : SigResState) : Prop :=
  check_sig_res (mkSigRes (rs_seq res) (rs_nonce res) (rs_port res) (rs_psig res)) (self_key_of r) pk = true.

(** The node keeps its identity, and everything it stores is signed. *)
Record signed_inv r : Prop := {
  sg_self : rt_crypto r = crypto;
  sg_crypto : crypto_wf (rt_crypto r);
  sg_infos : infos_checked (rt_infos r);
  sg_responses : map_Forall (response_checked r) (rt_responses r)
}.

(** The parts of the state the invariant reads. *)
Lemma signed_frame r r' : rt_crypto r' = rt_crypto r -> rt_infos r' = rt_infos r ->
  rt_responses r' ⊆ rt_responses r -> signed_inv r -> signed_inv r'.
Proof.
  intros Hc Hi Hr [E C I R]. split; [congruence|by rewrite Hc|by rewrite Hi|].
  intros pk res Hres. unfold response_checked, self_key_of. rewrite Hc. apply (R pk). by eapply lookup_weaken.
Qed.

Lemma routing_signed r r' : routing_only r r' -> signed_inv r -> signed_inv r'.
Proof. intros [-> _]. by apply signed_frame. Qed.

Lemma same_tree_signed r r' : same_tree r r' -> signed_inv r -> signed_inv r'.
Proof. intros [Hc Hi _ Hr _ _ _]. apply signed_frame; [done|done|by rewrite Hr]. Qed.

Lemma get_announce_info a : get_announce (info_of a) (ra_key a) = a.
Proof. by destruct a. Qed.

Lemma update_infos_checked infos a : infos_checked infos -> RouterAnnounce_check a = true ->
  infos_checked (update_infos infos a).2.
Proof.
  intros Hi Ha. assert (Hins : infos_checked (<[ra_key a := info_of a]> infos)).
  { intros k i [[<- <-]|[_ Hk]]%lookup_insert_Some; [by rewrite get_announce_info|by apply Hi]. }
  unfold update_infos. destruct (infos !! ra_key a); [|done]. by destruct (ann_supersedes _ _).
Qed.

Lemma update_signed r ann now : RouterAnnounce_check ann = true -> signed_inv r -> signed_inv (update r ann now).2.
Proof.
  intros Ha [E C I R]. destruct (update_fields r ann now) as (Hi & _ & Hc & Hr & _).
  split; [congruence|by rewrite Hc|rewrite Hi; by apply update_infos_checked|].
  intros pk res. rewrite Hr. unfold response_checked, self_key_of. rewrite Hc. apply R.
Qed.

(** The announcement made from a checked response is valid. *)
Lemma use_response_signed r pk res now : rt_responses r !! pk = Some res -> signed_inv r ->
  signed_inv (use_response r pk res now).2.
Proof using LAWS.
  intros Hres S. destruct S as [E C I R] eqn:HS. pose proof (R pk res Hres) as Hc. apply update_signed; [|done].
  unfold response_checked, check_sig_res in Hc. unfold RouterAnnounce_check. cbn [ra_port ra_key ra_parent ra_sig ra_psig] in *.
  cbn [sigres_port sigres_seq sigres_nonce sigres_psig] in Hc.
  destruct ((rs_port res =? 0) && negb (bool_decide (self_key_of r = pk))); [done|].
  apply andb_true_iff. split; [by apply verify_sign|done].
Qed.

Lemma become_root_signed r now : signed_inv r -> signed_inv (become_root r now).2.
Proof using LAWS.
  intros S. unfold become_root, new_req. apply update_signed.
  - unfold RouterAnnounce_check. cbn [ra_port ra_key ra_parent ra_sig ra_psig].
    rewrite bool_decide_eq_true_2 by done. simpl negb. rewrite andb_false_r.
    apply andb_true_iff. split; apply verify_sign; apply (sg_crypto r S).
  - by apply (signed_frame r).
Qed.

Lemma new_round_signed r : signed_inv r -> signed_inv (send_reqs (clear_flags r)).2.
Proof.
  destruct (send_reqs_fields (clear_flags r)) as (Hc & Hi & Hr & _).
  apply signed_frame; [done|done|]. rewrite Hr. apply map_empty_subseteq.
Qed.

Lemma fix_tree_signed r now : signed_inv r -> signed_inv (fix_tree r now).2.
Proof using LAWS.
  intros S. unfold fix_tree. destruct (select_parent r) as [best_root best_parent]. destruct (_ || _); [|done].
  match goal with |- context [let '(_, _) := ?x in _] => assert (Hx : signed_inv x.2); [|destruct x as [[] r1]] end.
  { destruct (rt_responses r !! best_parent) as [res|] eqn:Hres; [|done]. case_decide; [|done].
    by apply use_response_signed. }
  - by apply new_round_signed.
  - simpl in Hx. destruct (rt_do_root2 r1).
    + pose proof (become_root_signed r1 now Hx) as Hb. destruct (become_root r1 now) as [b r2].
      by apply new_round_signed.
    + destruct (negb _); [|done]. by apply (signed_frame r1).
Qed.

Lemma expire_infos_signed r now : signed_inv r -> signed_inv (expire_infos r now).
Proof.
  unfold expire_infos. generalize ((List.filter (fun '(k, t) =>
    if decide (k = self_key_of r) then rt_router_refresh r <=? elapsed now t
    else rt_router_timeout r <=? elapsed now t) (map_iter (rt_info_times r))).*1). intros keys.
  revert r. induction keys as [|k keys IH]; intros r S; [done|]. cbn [foldl]. apply IH. unfold expire_one.
  case_decide; [by apply (signed_frame r)|]. destruct S as [E C I R]. split; [done|done| |done].
  intros k' i Hk. change (delete k (rt_infos r) !! k' = Some i) in Hk. apply lookup_delete_Some in Hk as [_ Hk]. by apply I.
Qed.

Lemma do_maintenance_signed now unix_now r : router_inv r -> signed_inv r ->
  exists acts r', do_maintenance murmur3_x64_128 now unix_now r = Ret (acts, r') /\ router_inv r' /\ signed_inv r'.
Proof using LAWS.
  intros I S. destruct (do_maintenance_tree murmur3_x64_128 now unix_now r I)
    as (acts & r' & r0 & Hm & I' & Hc & Hi & Hr & _ & T & _).
  exists acts, r'. split_and!; [done|done|]. apply (same_tree_signed _ _ T), fix_tree_signed.
  apply (signed_frame r); [done|done|by rewrite Hr|done].
Qed.

(** ** Every message *)

Lemma add_peer_fields r entry : let r' := (add_peer r entry).2 in
  rt_crypto r' = rt_crypto r /\ rt_infos r' = rt_infos r /\ rt_responses r' = rt_responses r.
Proof.
  open_router r. unfold add_peer, new_req. rt_cbv. destruct (pe !! pe_key entry), (rq !! pe_key entry); done.
Qed.

Lemma add_peer_signed r entry : signed_inv r -> signed_inv (add_peer r entry).2.
Proof. destruct (add_peer_fields r entry) as (Hc & Hi & Hr). apply signed_frame; [done|done|by rewrite Hr]. Qed.

Lemma remove_peer_fields r id key port : let r' := (remove_peer r id key port).2 in
  rt_crypto r' = rt_crypto r /\ rt_infos r' = rt_infos r /\ rt_responses r' ⊆ rt_responses r.
Proof.
  open_router r. unfold remove_peer. rt_cbv. destruct (pe !! key); [|done]. case_decide; [|done].
  split_and!; [done|done|apply delete_subseteq].
Qed.

Lemma remove_peer_signed r id key port : signed_inv r -> signed_inv (remove_peer r id key port).2.
Proof. destruct (remove_peer_fields r id key port) as (Hc & Hi & Hr). by apply signed_frame. Qed.

Lemma handle_response_signed r id key res rtt : check_sig_res res (self_key_of r) key = true ->
  signed_inv r -> signed_inv (handle_response r id key res rtt).
Proof.
  intros Hc S. unfold handle_response.
  set (req_match := match rt_requests r !! key with Some _ => _ | None => false end). clearbody req_match.
  set (r1 := if negb (rtt =? 0) then _ else r).
  assert (H1 : signed_inv r1 /\ rt_crypto r1 = rt_crypto r).
  { unfold r1. destruct (negb _); [|done]. split; [by apply (signed_frame r)|done]. }
  destruct H1 as [S1 Hc1]. clearbody r1. set (r2 := if bool_decide _ && _ then _ else r1).
  assert (S2 : signed_inv r2).
  { unfold r2. destruct (_ && _); [|done]. destruct S1 as [E1 C1 I1 R1]. split; [done|done|done|].
    apply map_Forall_insert_2; [|done]. unfold response_checked, self_key_of in *. cbn. rewrite Hc1. by destruct res. }
  clearbody r2. destruct (_ && _); [|done]. by apply (signed_frame r2).
Qed.

Lemma handle_announce_signed r id pk ann now : RouterAnnounce_check ann = true ->
  signed_inv r -> signed_inv (handle_announce r id pk ann now).2.
Proof.
  intros Ha S. pose proof (update_signed r ann now Ha S) as S1. unfold handle_announce.
  destruct (update r ann now) as [[] r1]; simpl in *.
  - case_decide; by apply (signed_frame r1).
  - destruct (rt_infos r1 !! ra_key ann); [|done]. case_decide; by apply (signed_frame r1).
Qed.

(** A message from a peer was read from its stream by the reader task. *)
Definition msg_source (our_key : PublicKey) (msg : RouterMsg) : Prop :=
  match msg with
  | MsgHandleResponse _ _ _ _ | MsgHandleAnnounce _ _ _ | MsgHandleBloom _ _ =>
      exists peer_id key max rtt n stream, bytes_wf stream
        /\ msg ∈ rl_msgs (read_stream peer_id key our_key max rtt n stream)
  | _ => True
  end.

Definition event_source (our_key : PublicKey) (ev : actor_event) : Prop :=
  match ev with EvMessage _ _ msg => msg_source our_key msg | EvTimer _ _ _ => True end.

Lemma msg_source_checked our_key msg : msg_source our_key msg ->
  match msg with
  | MsgHandleResponse _ k res _ => check_sig_res res our_key k = true
  | MsgHandleAnnounce _ _ ann => RouterAnnounce_check ann = true
  | MsgHandleBloom _ filter => filter_wf filter
  | _ => True
  end.
Proof.
  destruct msg; try done; intros (pid & k & max & rt & n & stream & Hs & Hin);
    pose proof (read_stream_checked pid k our_key max rt n stream Hs) as Hall;
    rewrite Forall_forall in Hall; specialize (Hall _ Hin); simpl in Hall; destruct Hall as [-> Hall]; [by apply Hall..|done].
Qed.

Lemma handle_router_msg_signed now unix_now r msg : router_inv r -> signed_inv r -> msg_source (self_key_of r) msg ->
  exists acts r', handle_router_msg murmur3_x64_128 now unix_now r msg = Ret (acts, r')
    /\ router_inv r' /\ signed_inv r'.
Proof using LAWS.
  intros I S Hsrc%msg_source_checked. pose proof (ri_cache _ I) as Hc.
  assert (Hroute : forall x : list RouterAction * Router, routing_only r x.2 ->
    exists acts r', Ret x = Ret (acts, r') /\ router_inv r' /\ signed_inv r').
  { intros [acts r'] Hx. exists acts, r'. split_and!; [done|by eapply routing_only_inv|by eapply routing_signed]. }
  assert (Hinv : forall x : list RouterAction * Router, router_inv x.2 -> signed_inv x.2 ->
    exists acts r', Ret x = Ret (acts, r') /\ router_inv r' /\ signed_inv r').
  { intros [acts r'] Hx Sx. by exists acts, r'. }
  destruct msg; simpl.
  - apply Hinv; [by apply add_peer_inv|by apply add_peer_signed].
  - apply Hinv; [by apply remove_peer_inv|by apply remove_peer_signed].
  - destruct (_ ≫= _); by apply Hinv.
  - apply Hinv; [by apply handle_response_inv|by apply handle_response_signed].
  - apply Hinv; [by apply handle_announce_inv|by apply handle_announce_signed].
  - apply Hinv; [by apply handle_bloom_inv|by apply (signed_frame r)].
  - apply Hroute. by apply route_traffic_routing.
  - apply Hroute. by apply send_traffic_routing.
  - apply Hroute. unfold handle_lookup. destruct (negb _); [by apply routing_only_refl|].
    apply lookup_routing; [apply route_traffic_routing|done].
  - apply Hroute. apply notify_routing; [apply route_traffic_routing|done].
  - apply Hroute. apply broken_routing; [apply route_traffic_routing|done].
  - apply Hroute. eapply routing_only_trans; [by apply pathfinder_routing|]. by apply send_traffic_routing.
  - apply do_maintenance_signed; [by apply force_refresh_inv|by apply (signed_frame r)].
  - apply Hroute. by apply force_lookup_routing.
Qed.

Lemma actor_step_signed a ev : router_inv (ac_router a) -> signed_inv (ac_router a) ->
  event_source (self_key_of (ac_router a)) ev ->
  exists acts a', actor_step murmur3_x64_128 a ev = Ret (acts, a')
    /\ router_inv (ac_router a') /\ signed_inv (ac_router a').
Proof using LAWS.
  intros I S He. destruct ev as [now wall unix|now unix msg]; simpl.
  - unfold actor_maintenance. destruct (do_maintenance_signed now unix
      (expire_infos (if (ac_last_wall a <=? wall) && (WALL_JUMP_THRESHOLD <=? wall - ac_last_wall a)
                     then force_refresh (ac_router a) now else ac_router a) now)) as (acts & r' & -> & I' & S').
    { apply expire_infos_inv. destruct (_ && _); [by apply force_refresh_inv|done]. }
    { apply expire_infos_signed. destruct (_ && _); [by apply (signed_frame (ac_router a))|done]. }
    rewrite ret_bind. eexists _, _. split; [done|]. by split.
  - unfold actor_message. destruct (handle_router_msg_signed now unix (ac_router a) msg I S He) as (acts & r' & -> & I' & S').
    rewrite ret_bind. eexists _, _. split; [done|]. by split.
Qed.

(** ** Property *)

(** C1: Untrusted peers. Start a router with an identity of its own and run it on
    any interleaving of timers, local requests and messages that reader tasks
    made from arbitrary peer bytes: it never panics, its tables stay consistent,
    and every announcement it holds, its own included, carries the valid
    signatures of the announced node and of that node's parent. *)
Theorem untrusted_peers_safe config t0 wall0 next0 evs (Hcrypto : crypto_wf crypto)
    (Hevs : Forall (event_source (public_key crypto)) evs) :
  exists acts a', actor_run murmur3_x64_128 (mkRouterActor (Router_new crypto config t0) wall0 next0) evs
                  = Ret (acts, a')
    /\ router_inv (ac_router a') /\ rt_crypto (ac_router a') = crypto /\ infos_checked (rt_infos (ac_router a')).
Proof using LAWS.
  assert (Hrun : forall a, router_inv (ac_router a) -> signed_inv (ac_router a) -> exists acts a',
    actor_run murmur3_x64_128 a evs = Ret (acts, a') /\ router_inv (ac_router a') /\ signed_inv (ac_router a')).
  { induction Hevs as [|ev evs He _ IH]; intros a I S; [by exists [], a|]. simpl.
    rewrite <- (sg_self _ S) in He. destruct (actor_step_signed a ev I S He) as (acts & a1 & -> & I1 & S1).
    rewrite ret_bind. destruct (IH a1 I1 S1) as (acts2 & a2 & Hr & I2 & S2). simpl. rewrite Hr, ret_bind.
    eexists _, _. split; [done|]. by split. }
  destruct (Hrun (mkRouterActor (Router_new crypto config t0) wall0 next0)) as (acts & a' & Hr & I & S).
  - apply Router_new_inv.
  - split; [done|done| |]; [intros k i Hk|intros k res Hk]; simpl in Hk; by rewrite lookup_empty in Hk.
  - exists acts, a'. split_and!; [done|done|apply (sg_self _ S)|apply (sg_infos _ S)].
Qed.
End Signed.

(** ** Witness *)

(** A signed announcement of node 1 as its own root, as it arrives. *)
Definition sample_announce : RouterAnnounce := get_announce (signed_info 1 1 0) (node 1).
Definition sample_stream : bytes := encode_frame ProtoAnnounce (Announce_encode (to_wire sample_announce) []).

Lemma sample_stream_read : rl_msgs (@read_stream toy_dalek 11 (node 1) (node 3) 1048576 (fun _ => 0) 0 sample_stream)
  = [MsgHandleAnnounce 11 (node 1) sample_announce].
Proof. vm_compute. reflexivity. Qed.

Lemma untrusted_peers_safe_witness :
  exists acts a', @actor_run toy_dalek id_order sample_entropy sample_murmur sample_actor
    [EvMessage 1 1 (MsgAddPeer (mkPeerEntry 11 (node 1) 5 0 0));
     EvMessage 2 1 (MsgHandleAnnounce 11 (node 1) sample_announce);
     EvTimer 3 3 1] = Ret (acts, a')
    /\ @infos_checked toy_dalek (rt_infos (ac_router a')).
Proof.
  destruct (@untrusted_peers_safe toy_dalek toy_dalek_laws id_order sample_entropy sample_murmur
    (@Crypto_new toy_dalek 3) sample_config 0 0 0
    [EvMessage 1 1 (MsgAddPeer (mkPeerEntry 11 (node 1) 5 0 0));
     EvMessage 2 1 (MsgHandleAnnounce 11 (node 1) sample_announce);
     EvTimer 3 3 1]) as (acts & a' & Hr & _ & _ & Hi).
  - reflexivity.
  - constructor; [exact I|]. constructor; [|constructor; [exact I|constructor]].
    exists 11, (node 1), 1048576, (fun _ => 0), 0%nat, sample_stream. split.
    + unfold bytes_wf. apply (bool_decide_eq_true_1 _). vm_compute. reflexivity.
    + change (@public_key toy_dalek (@Crypto_new toy_dalek 3)) with (node 3). rewrite sample_stream_read. by left.
  - exists acts, a'. split; [exact Hr|exact Hi].
Defined.
