(* ===== verification/Attach.v ===== *)
(** * Attach: maintenance attaches the node to the tree

    Joins the actor ([Actor]) and the tree ([RouterTree]): in every state the
    actor reaches, the router either has an entry of its own or is about to become
    root, and from such a state two passes of the timer attach it. *)

From S2P Require Import Prelude.
From S2P Require Import Wire.
From S2P Require Import Bloom.
From S2P Require Import Crypto.
From S2P Require Import Traffic.
From S2P Require Import Pathfinder.
From S2P Require Import Tree.
From S2P Require Import Router.
From S2P Require Import RouterFacts.
From S2P Require Import Actor.
From S2P Require Import RouterInv.
From S2P Require Import RouterTree.
From stdpp Require Import options.
Open Scope Z_scope.

Section Attach.
Context {DK : Dalek} {HO : HashOrder} {EN : Entropy} (murmur3_x64_128 : bytes -> Z -> option Z).
Implicit Types r : Router.

(** The router has its own entry or the next pass makes it root. *)
Definition self_known r : Prop := is_Some (rt_infos r !! self_key_of r) \/ rt_do_root2 r = true.

(** What keeps it so: entries are not lost and the flag is not cleared. *)
Record keeps_self r r' : Prop := {
  ks_crypto : rt_crypto r' = rt_crypto r;
  ks_infos : is_Some (rt_infos r !! self_key_of r) -> is_Some (rt_infos r' !! self_key_of r);
  ks_root2 : rt_do_root2 r = true -> rt_do_root2 r' = true
}.

#[export] Instance keeps_self_refl : Reflexive keeps_self.
Proof. by split. Qed.

#[export] Instance keeps_self_trans : Transitive keeps_self.
Proof. intros r1 r2 r3 [C1 I1 D1] [C2 I2 D2]. split; [congruence| |auto]. unfold self_key_of in *. rewrite C1 in I2. auto. Qed.

Lemma keeps_self_known r r' : keeps_self r r' -> self_known r -> self_known r'.
Proof. intros [Hc Hi Hd] [H|H]; [left|right; auto]. unfold self_key_of in *. rewrite Hc. auto. Qed.

Lemma same_tree_keeps r r' : same_tree r r' -> keeps_self r r'.
Proof. intros [Hc Hi _ _ _ _ Hd]. split; [done|by rewrite Hi|by rewrite Hd]. Qed.

Lemma update_infos_known (infos : Infos) a k : is_Some (infos !! k) \/ k = ra_key a -> is_Some ((update_infos infos a).2 !! k).
Proof.
  intros Hk. unfold update_infos. destruct (infos !! ra_key a) as [i|] eqn:Hi; [destruct (ann_supersedes i a)|]; simpl.
  2: destruct Hk as [?| ->]; [done|by eexists].
  all: destruct (decide (ra_key a = k)) as [<-|Hne]; [rewrite lookup_insert_eq; by eexists|].
  all: rewrite lookup_insert_ne by done; by destruct Hk as [?| ->].
Qed.

Lemma update_keeps r ann now : keeps_self r (update r ann now).2.
Proof.
  destruct (update_fields r ann now) as (Hi & _ & Hc & _ & _ & Hd). split; [done| |by rewrite Hd].
  intros H. rewrite Hi. apply update_infos_known. by left.
Qed.

Lemma become_root_known r now : is_Some (rt_infos (become_root r now).2 !! self_key_of r).
Proof.
  unfold become_root, new_req. set (r1 := r <| rt_draws ::= S |>). set (ann := mkRouterAnnounce _ _ _ _ _ _ _).
  destruct (update_fields r1 ann now) as (Hi & _). rewrite Hi. apply update_infos_known. by right.
Qed.

Lemma become_root_crypto r now : rt_crypto (become_root r now).2 = rt_crypto r.
Proof.
  unfold become_root, new_req. match goal with |- context [update ?r1 ?ann now] => by destruct (update_fields r1 ann now) as (_ & _ & -> & _) end.
Qed.

Lemma new_round_known r : is_Some (rt_infos r !! self_key_of r) -> self_known (send_reqs (clear_flags r)).2.
Proof. destruct (send_reqs_fields (clear_flags r)) as (Hc & Hi & _). intros H. left. unfold self_key_of. by rewrite Hc, Hi. Qed.

(** A pass that clears the flags has entered the node. *)
Lemma fix_tree_known r now : self_known r -> self_known (fix_tree r now).2.
Proof.
  intros Hk. unfold fix_tree. destruct (select_parent r) as [best_root best_parent]. destruct (_ || _ || _ || _); [|done].
  match goal with |- context [let '(_, _) := ?x in _] => set (try := x) end.
  assert ((try.1 = true /\ is_Some (rt_infos try.2 !! self_key_of try.2)) \/ try = (false, r)) as Htry.
  { unfold try. destruct (rt_responses r !! best_parent) as [res|]; [|by right]. case_decide; [|by right].
    unfold use_response. set (ann := mkRouterAnnounce _ _ _ _ _ _ _).
    destruct (update_fields r ann now) as (Hi & Hacc & Hc & _). destruct (update r ann now) as [[] r1] eqn:Hu; simpl in *.
    - left. split; [done|]. unfold self_key_of. rewrite Hi, Hc. apply update_infos_known. by right.
    - right. unfold update in Hu. destruct (update_infos _ _) as [[] ?]; [done|]. by injection Hu as <-. }
  clearbody try. destruct Htry as [[Ht Hr]| ->].
  { destruct try as [[] r1]; [|done]. by apply new_round_known. }
  destruct (rt_do_root2 r) eqn:Hd.
  - pose proof (become_root_known r now) as Hb. pose proof (become_root_crypto r now) as Hc.
    destruct (become_root r now) as [b r1]. simpl in Hb, Hc. apply new_round_known. unfold self_key_of in *. by rewrite Hc.
  - by destruct (negb _).
Qed.

Lemma do_maintenance_known now unix_now r acts r' : router_inv r -> self_known r ->
  do_maintenance murmur3_x64_128 now unix_now r = Ret (acts, r') -> self_known r'.
Proof.
  intros I Hk. destruct (do_maintenance_tree murmur3_x64_128 now unix_now r I) as (acts0 & r1 & r0 & -> & _ & Hc & Hi & _ & Hd & T & _).
  intros [= <- <-]. apply (keeps_self_known _ _ (same_tree_keeps _ _ T)), fix_tree_known. revert Hk. apply keeps_self_known.
  split; [done|by rewrite Hi|]. rewrite Hd. by intros ->.
Qed.

Lemma expire_one_keeps r k : keeps_self r (expire_one r k).
Proof.
  unfold expire_one. case_decide as Hk; [done|]. split; [done| |done]. simpl. by rewrite lookup_delete_ne.
Qed.

Lemma expire_infos_keeps r now : keeps_self r (expire_infos r now).
Proof.
  unfold expire_infos. generalize ((List.filter (fun '(k, t) =>
    if decide (k = self_key_of r) then rt_router_refresh r <=? elapsed now t
    else rt_router_timeout r <=? elapsed now t) (map_iter (rt_info_times r))).*1). intros keys.
  revert r. induction keys as [|k keys IH]; intros r; [done|]. cbn [foldl]. etrans; [apply expire_one_keeps|apply IH].
Qed.

Lemma expire_infos_root1 r now : rt_do_root1 (expire_infos r now) = rt_do_root1 r.
Proof.
  unfold expire_infos. generalize ((List.filter (fun '(k, t) =>
    if decide (k = self_key_of r) then rt_router_refresh r <=? elapsed now t
    else rt_router_timeout r <=? elapsed now t) (map_iter (rt_info_times r))).*1). intros keys.
  revert r. induction keys as [|k keys IH]; intros r; [done|]. cbn [foldl]. rewrite IH. unfold expire_one. by case_decide.
Qed.

(** The router the timer's pass starts from: refreshed after a jump of the wall
    clock, and without its expired entries. *)
Definition pass_start (a : RouterActor) (now wall : Z) : Router :=
  let r := ac_router a in
  expire_infos (if (ac_last_wall a <=? wall) && (WALL_JUMP_THRESHOLD <=? wall - ac_last_wall a)
                then force_refresh r now else r) now.

Lemma pass_start_keeps a now wall : keeps_self (ac_router a) (pass_start a now wall).
Proof. unfold pass_start. etrans; [|apply expire_infos_keeps]. by destruct (_ && _). Qed.

Lemma pass_start_root1 a now wall : rt_do_root1 (ac_router a) = true -> rt_do_root1 (pass_start a now wall) = true.
Proof. unfold pass_start. rewrite expire_infos_root1. by destruct (_ && _). Qed.

Lemma pass_start_inv a now wall : router_inv (ac_router a) -> router_inv (pass_start a now wall).
Proof. intros I. apply expire_infos_inv. destruct (_ && _); [by apply force_refresh_inv|done]. Qed.

Lemma handle_response_keeps r id key res rtt : keeps_self r (handle_response r id key res rtt).
Proof.
  unfold handle_response. set (r1 := if negb (rtt =? 0) then _ else r).
  assert (keeps_self r r1) as H1 by (unfold r1; by destruct (negb _)). clearbody r1.
  set (r2 := if bool_decide _ && _ then _ else r1).
  assert (keeps_self r1 r2) as H2 by (unfold r2; by destruct (_ && _)). clearbody r2.
  etrans; [exact H1|]. etrans; [exact H2|]. by destruct (_ && _).
Qed.

Lemma handle_announce_keeps r id key ann now : keeps_self r (handle_announce r id key ann now).2.
Proof.
  etrans; [apply (update_keeps r ann now)|]. unfold handle_announce. destruct (update r ann now) as [[] r1]; simpl.
  - by case_decide.
  - destruct (rt_infos r1 !! ra_key ann); [|done]. by case_decide.
Qed.

Lemma add_peer_keeps r entry : keeps_self r (add_peer r entry).2.
Proof. open_router r. unfold add_peer, new_req. rt_cbv. destruct (pe !! pe_key entry), (rq !! pe_key entry); by split. Qed.

Lemma remove_peer_keeps r id key port : keeps_self r (remove_peer r id key port).2.
Proof. open_router r. unfold remove_peer. rt_cbv. destruct (pe !! key); [|by split]. case_decide; by split. Qed.

(** ** Every event of the actor *)

Lemma handle_router_msg_known now unix_now r msg acts r' : router_inv r -> self_known r ->
  handle_router_msg murmur3_x64_128 now unix_now r msg = Ret (acts, r') -> self_known r'.
Proof.
  intros I Hk. pose proof (ri_cache _ I) as Hc.
  assert (forall x : list RouterAction * Router, keeps_self r x.2 -> Ret x = Ret (acts, r') -> self_known r') as Hkeep.
  { intros x Hx [= ->]. by eapply keeps_self_known. }
  assert (forall x : list RouterAction * Router, routing_only r x.2 -> Ret x = Ret (acts, r') -> self_known r') as Hroute.
  { intros x Hx. by apply Hkeep, same_tree_keeps, routing_only_tree. }
  destruct msg; simpl.
  - apply Hkeep, add_peer_keeps.
  - apply Hkeep, remove_peer_keeps.
  - destruct (_ ≫= _); by apply Hkeep.
  - apply Hkeep, handle_response_keeps.
  - apply Hkeep, handle_announce_keeps.
  - by apply Hkeep.
  - apply Hroute. by apply route_traffic_routing.
  - apply Hroute. by apply send_traffic_routing.
  - apply Hroute. unfold handle_lookup. destruct (negb _); [by apply routing_only_refl|].
    apply lookup_routing; [apply route_traffic_routing|done].
  - apply Hroute. apply notify_routing; [apply route_traffic_routing|done].
  - apply Hroute. apply broken_routing; [apply route_traffic_routing|done].
  - apply Hroute. eapply routing_only_trans; [by apply pathfinder_routing|]. by apply send_traffic_routing.
  - apply do_maintenance_known; [by apply force_refresh_inv|by right].
  - apply Hroute. by apply force_lookup_routing.
Qed.

Lemma timer_step a now wall unix : router_inv (ac_router a) ->
  exists acts r0 r1 a', actor_step murmur3_x64_128 a (EvTimer now wall unix) = Ret (acts, a') /\ router_inv (ac_router a')
    /\ do_maintenance murmur3_x64_128 now unix (pass_start a now wall) = Ret (acts, ac_router a')
    /\ rt_crypto r0 = rt_crypto (pass_start a now wall) /\ rt_infos r0 = rt_infos (pass_start a now wall)
    /\ rt_do_root2 r0 = rt_do_root2 (pass_start a now wall) || rt_do_root1 (pass_start a now wall)
    /\ r1 = (fix_tree r0 now).2 /\ same_tree r1 (ac_router a').
Proof.
  intros I. destruct (do_maintenance_tree murmur3_x64_128 now unix _ (pass_start_inv a now wall I))
    as (acts & r' & r0 & E & I' & Hc & Hi & _ & Hd & T & _).
  exists acts, r0, (fix_tree r0 now).2, (mkRouterActor r' wall (now + IDLE_MAINT_INTERVAL)). split_and!; try done.
  simpl. unfold actor_maintenance. change (do_maintenance murmur3_x64_128 now unix _) with
    (do_maintenance murmur3_x64_128 now unix (pass_start a now wall)). by rewrite E, ret_bind.
Qed.

Lemma actor_run_known a evs acts a' : router_inv (ac_router a) -> self_known (ac_router a) -> Forall event_ok evs ->
  actor_run murmur3_x64_128 a evs = Ret (acts, a') -> router_inv (ac_router a') /\ self_known (ac_router a').
Proof.
  intros I Hk Hevs. revert a acts I Hk. induction Hevs as [|ev evs He _ IH]; intros a acts I Hk; [by intros [= <- <-]|].
  simpl. destruct (actor_step_inv murmur3_x64_128 a ev I He) as (acts1 & a1 & E & I1). rewrite E, ret_bind. simpl.
  destruct (actor_run murmur3_x64_128 a1 evs) as [[acts2 a2]|] eqn:Er; [|done]. rewrite ret_bind. intros [= <- <-].
  apply (IH a1 acts2 I1); [|done]. destruct ev as [now wall unix|now unix msg].
  - destruct (timer_step a now wall unix I) as (acts3 & r0 & r1 & a3 & E3 & _ & Em & _). rewrite E in E3. injection E3 as <- <-.
    apply (do_maintenance_known now unix (pass_start a now wall) acts1 (ac_router a1)); [by apply pass_start_inv| |done].
    by apply (keeps_self_known _ _ (pass_start_keeps a now wall)).
  - simpl in E. unfold actor_message in E. destruct (handle_router_msg _ now unix (ac_router a) msg) as [[acts3 r3]|] eqn:Em; [|done].
    rewrite ret_bind in E. injection E as <- <-. apply (handle_router_msg_known now unix (ac_router a) msg acts3 r3); [done..|exact Em].
Qed.

(** The sequence number is not touched by what happens before a pass. *)
Lemma pass_start_self a now wall i : rt_infos (ac_router a) !! self_key_of (ac_router a) = Some i ->
  rt_infos (pass_start a now wall) !! self_key_of (ac_router a) = Some i.
Proof.
  unfold pass_start. set (r := if _ && _ then _ else _).
  assert (rt_infos r = rt_infos (ac_router a) /\ rt_crypto r = rt_crypto (ac_router a)) as [<- Hc] by (unfold r; by destruct (_ && _)).
  unfold self_key_of. rewrite <- Hc. clear Hc. clearbody r. unfold expire_infos.
  generalize ((List.filter (fun '(k, t) => if decide (k = self_key_of r) then rt_router_refresh r <=? elapsed now t
    else rt_router_timeout r <=? elapsed now t) (map_iter (rt_info_times r))).*1). intros keys.
  revert r. induction keys as [|k keys IH]; intros r Hi; [done|]. cbn [foldl].
  assert (rt_crypto (expire_one r k) = rt_crypto r) as <- by (unfold expire_one; by case_decide). apply IH.
  unfold expire_one, self_key_of in *. case_decide; [done|]. simpl. by rewrite lookup_delete_ne.
Qed.

Lemma pass_start_infos a now wall k : rt_infos (ac_router a) !! k = None -> rt_infos (pass_start a now wall) !! k = None.
Proof.
  unfold pass_start. set (r := if _ && _ then _ else _).
  assert (rt_infos r = rt_infos (ac_router a)) as <- by (unfold r; by destruct (_ && _)). clearbody r. unfold expire_infos.
  generalize ((List.filter (fun '(k, t) => if decide (k = self_key_of r) then rt_router_refresh r <=? elapsed now t
    else rt_router_timeout r <=? elapsed now t) (map_iter (rt_info_times r))).*1). intros keys.
  revert r. induction keys as [|k' keys IH]; intros r Hi; [done|]. cbn [foldl]. apply IH.
  unfold expire_one. case_decide; [done|]. simpl. by apply lookup_delete_None; right.
Qed.

(** The first pass attaches the node or prepares it to become root. *)
Lemma first_pass a now wall r0 t : self_known (ac_router a) -> seq_ok (ac_router a) ->
  rt_crypto r0 = rt_crypto (pass_start a now wall) -> rt_infos r0 = rt_infos (pass_start a now wall) ->
  rt_do_root2 r0 = rt_do_root2 (pass_start a now wall) || rt_do_root1 (pass_start a now wall) ->
  rooted (fix_tree r0 t).2 \/ (rt_do_root1 (fix_tree r0 t).2 = true /\ seq_ok (fix_tree r0 t).2).
Proof.
  intros Hk Hseq Hc Hi Hd. destruct (pass_start_keeps a now wall) as [Kc Ki Kd].
  assert (rt_crypto r0 = rt_crypto (ac_router a)) as Hc0 by congruence.
  assert (seq_ok r0) as Hs0.
  { unfold seq_ok, self_key_of in *. rewrite Hc0, Hi.
    destruct (rt_infos (ac_router a) !! public_key (rt_crypto (ac_router a))) as [i|] eqn:E.
    - apply (pass_start_self a now wall) in E. unfold self_key_of in E. by rewrite E.
    - by rewrite (pass_start_infos a now wall _ E). }
  destruct (fix_tree_spec r0 t) as [F1 F2]. destruct Hk as [Hs|Hs].
  - destruct F2 as [Hr|(H1 & H2 & H3)]; [done| |by left|right; split; [done|]].
    + unfold self_key_of in *. rewrite Hc0, Hi. by apply Ki.
    + unfold seq_ok, self_key_of in *. by rewrite H2, H3.
  - left. apply F1. right. split; [|done]. by rewrite Hd, Kd.
Qed.

(** ** Property *)

(** C17: The maintenance timer attaches the node to the tree. Run the actor on any
    messages and timers from a new router, whatever this leaves in its tables (a
    vanished parent, a loop among the ancestors, a missing ancestor); then two
    passes of the timer succeed, and after them the node's own ancestry ends at a
    confirmed root that is the node itself or a smaller key. Conditions: received
    filters are decoded from the wire; the node's sequence number is not at its
    last value, where the next announcement would wrap around; and no entry expires
    at the start of the second pass, which might be an ancestor's. *)
Theorem maintenance_attaches_node crypto config t0 wall0 next0 evs acts a t1 w1 u1 t2 w2 u2
    (Hevs : Forall event_ok evs)
    (Hrun : actor_run murmur3_x64_128 (mkRouterActor (Router_new crypto config t0) wall0 next0) evs = Ret (acts, a))
    (Hseq : seq_ok (ac_router a)) :
  exists acts1 a1 acts2 a2,
    actor_step murmur3_x64_128 a (EvTimer t1 w1 u1) = Ret (acts1, a1)
    /\ actor_step murmur3_x64_128 a1 (EvTimer t2 w2 u2) = Ret (acts2, a2)
    /\ (rt_infos (pass_start a1 t2 w2) = rt_infos (ac_router a1) -> rooted (ac_router a2)).
Proof.
  destruct (actor_run_known (mkRouterActor (Router_new crypto config t0) wall0 next0) _ _ _ (Router_new_inv crypto config t0) (or_intror eq_refl) Hevs Hrun) as [I Hk].
  destruct (timer_step a t1 w1 u1 I) as (acts1 & r0 & r1 & a1 & E1 & I1 & _ & Hc & Hi & Hd & -> & T1).
  destruct (timer_step a1 t2 w2 u2 I1) as (acts2 & s0 & s1 & a2 & E2 & _ & _ & Hc2 & Hi2 & Hd2 & -> & T2).
  exists acts1, a1, acts2, a2. split_and!; [done|done|]. intros Hsame. apply (same_tree_rooted _ _ T2), fix_tree_spec.
  destruct (pass_start_keeps a1 t2 w2) as [Hpc _ _].
  destruct (first_pass a t1 w1 r0 t1 Hk Hseq Hc Hi Hd) as [Hr|(Hd1 & Hs1)]; [left|right].
  - apply (same_tree_rooted _ _ T1) in Hr. unfold rooted, self_key_of in *. by rewrite Hc2, Hi2, Hpc, Hsame.
  - destruct T1 as [Tc Ti _ _ _ Ta _]. split; [rewrite Hd2, pass_start_root1 by (by rewrite Ta); by rewrite orb_true_r|].
    unfold seq_ok, self_key_of in *. by rewrite Hc2, Hi2, Hpc, Hsame, Tc, Ti.
Qed.
End Attach.

(** ** Witness *)

(** A node that was started, was connected to node 1 and lost it again. *)
Definition lone_events : list actor_event :=
  [EvMessage 1 1 (MsgAddPeer (mkPeerEntry 11 (node 1) 5 0 0)); EvTimer 2 2 1; EvMessage 3 1 (MsgRemovePeer 11 (node 1) 5)].

Definition after (a : @RouterActor toy_dalek) (o : outcome (list RouterAction * @RouterActor toy_dalek)) : @RouterActor toy_dalek :=
  match o with Ret x => x.2 | _ => a end.
Definition lone_start : @RouterActor toy_dalek := mkRouterActor sample_router 0 0.
Definition lone_actor : @RouterActor toy_dalek :=
  after lone_start (@actor_run toy_dalek id_order sample_entropy sample_murmur lone_start lone_events).

Lemma after_ret a o acts x : o = Ret (acts, x) -> o = Ret (acts, after a o) /\ x = after a o.
Proof. by intros ->. Qed.

Lemma lone_run : exists acts,
  @actor_run toy_dalek id_order sample_entropy sample_murmur lone_start lone_events = Ret (acts, lone_actor).
Proof.
  destruct (@router_actor_safe toy_dalek id_order sample_entropy sample_murmur (@Crypto_new toy_dalek 3) sample_config 0 0 0 lone_events)
    as (acts & a & E & _); [repeat constructor|].
  exists acts. exact (proj1 (after_ret lone_start _ acts a E)).
Qed.

Lemma maintenance_attaches_node_witness :
  exists acts1 a1 acts2 a2,
    @actor_step toy_dalek id_order sample_entropy sample_murmur lone_actor (EvTimer 10 10 1) = Ret (acts1, a1)
    /\ @actor_step toy_dalek id_order sample_entropy sample_murmur a1 (EvTimer 20 20 1) = Ret (acts2, a2)
    /\ @rooted toy_dalek (ac_router a2).
Proof.
  destruct lone_run as [acts E].
  destruct (@maintenance_attaches_node toy_dalek id_order sample_entropy sample_murmur (@Crypto_new toy_dalek 3) sample_config 0 0 0
    lone_events acts lone_actor 10 10 1 20 20 1) as (acts1 & a1 & acts2 & a2 & H1 & H2 & H3).
  - repeat constructor.
  - exact E.
  - vm_compute. split; [discriminate|reflexivity].
  - exists acts1, a1, acts2, a2. split_and!; [exact H1|exact H2|]. apply H3.
    rewrite (proj2 (after_ret lone_start _ acts1 a1 H1)). vm_compute. reflexivity.
Defined.
