(* ===== verification/Liveness.v ===== *)
(** * Liveness: when a silent peer is given up

    Models [crates/ironwood/src/peer_timeout.rs] (the adaptive interval with its
    sticky floor, and the registry that keeps a peer's state across reconnects)
    and the deadline loop of [peer_reader] in [crates/ironwood/src/peers.rs]. The
    durable state of a peer is shared by its connections through an [Arc]; it
    lives here in a heap of cells that the registry and the controllers refer
    to. Instants and durations are nanoseconds, durable fields milliseconds. *)

From S2P Require Import Prelude.
From S2P Require Import Wire.
From stdpp Require Import options.
Open Scope Z_scope.

Definition as_millis (d : Z) : Z := wrap64 (d / 1000000).
Definition from_millis (ms : Z) : Z := ms * 1000000.

Definition REGISTRY_SOFT_CAP : nat := 4096.

Record AdaptiveTimeoutConfig := mkAdaptiveTimeoutConfig {
  at_fixed_or_initial : Z;
  at_adaptive : bool;
  at_min : Z;
  at_problem_min : Z;
  at_max : Z;
  at_base : Z;
  at_rtt_mult : Z;
  at_penalty_step : Z;
  at_penalty_decay : Z
}.

#[export] Instance AdaptiveTimeoutConfig_eta : Settable AdaptiveTimeoutConfig := fun c =>
  mkAdaptiveTimeoutConfig (at_fixed_or_initial c) (at_adaptive c) (at_min c) (at_problem_min c) (at_max c)
    (at_base c) (at_rtt_mult c) (at_penalty_step c) (at_penalty_decay c).

Definition AdaptiveTimeoutConfig_default : AdaptiveTimeoutConfig :=
  mkAdaptiveTimeoutConfig 15000000000 false 5000000000 15000000000 30000000000 2000000000 8
    5000000000 500000000.

(** The refusals of [validate], one per message. *)
Inductive config_error :=
| ZeroRttMult | MaxBelowMin | MaxBelowProblem | ProblemBelowMin | ZeroFixed | ZeroMin.

Definition validate (c : AdaptiveTimeoutConfig) : result config_error unit :=
  if at_rtt_mult c =? 0 then Err ZeroRttMult
  else if at_max c <? at_min c then Err MaxBelowMin
  else if at_adaptive c && (at_max c <? at_problem_min c) then Err MaxBelowProblem
  else if at_adaptive c && (at_problem_min c <? at_min c) then Err ProblemBelowMin
  else if negb (at_adaptive c) && (at_fixed_or_initial c =? 0) then Err ZeroFixed
  else if at_min c =? 0 then Err ZeroMin
  else Ok tt.

(** [u64::clamp] panics when its bounds are crossed. *)
Definition clamp (v lo hi : Z) : outcome Z := if hi <? lo then Panic else Ret (Z.min (Z.max v lo) hi).

Definition compute (c : AdaptiveTimeoutConfig) (ewma_ms penalty_ms floor_ms : Z) : outcome Z :=
  if negb (at_adaptive c) then Ret (at_fixed_or_initial c)
  else
    let floor_ms := Z.min (Z.max floor_ms (as_millis (at_min c))) (as_millis (at_max c)) in
    let max_ms := as_millis (at_max c) in
    let base_ms := as_millis (at_base c) in
    let mult := at_rtt_mult c in
    let from_rtt := if ewma_ms =? 0 then floor_ms else sat_add64 base_ms (sat_mul64 mult ewma_ms) in
    let total := sat_add64 from_rtt penalty_ms in
    t ← clamp total floor_ms max_ms;
    Ret (from_millis t).

(** ** Durable state and controllers *)

Record DurableLiveness := mkDurableLiveness { dl_ewma_ms : Z; dl_penalty_ms : Z; dl_floor_ms : Z }.

#[export] Instance DurableLiveness_eta : Settable DurableLiveness := fun d =>
  mkDurableLiveness (dl_ewma_ms d) (dl_penalty_ms d) (dl_floor_ms d).

Definition DurableLiveness_new (initial_floor_ms : Z) : DurableLiveness := mkDurableLiveness 0 0 initial_floor_ms.

Definition current (c : AdaptiveTimeoutConfig) (d : DurableLiveness) : outcome Z :=
  compute c (dl_ewma_ms d) (dl_penalty_ms d) (dl_floor_ms d).

Definition is_degraded (c : AdaptiveTimeoutConfig) (d : DurableLiveness) : bool :=
  at_adaptive c && (as_millis (at_problem_min c) <=? dl_floor_ms d).

Record ArmEpoch := mkArmEpoch { ae_at : Z; ae_timeout : Z }.

(** [arm]: the deadline slot, the epoch and the returned expiry. *)
Definition arm (c : AdaptiveTimeoutConfig) (d : DurableLiveness) (now : Z)
    (deadline_slot : option Z) (epoch : option ArmEpoch) : outcome (Z * option Z * option ArmEpoch) :=
  match deadline_slot with
  | Some existing => Ret (existing, deadline_slot, epoch)
  | None =>
      t ← current c d;
      let expires := now + t in
      Ret (expires, Some expires, Some (mkArmEpoch now t))
  end.

Definition observe_sample (c : AdaptiveTimeoutConfig) (sample : Z) (d : DurableLiveness) : DurableLiveness :=
  if negb (at_adaptive c) then d
  else
    let sample_ms := wrap64 (Z.min (sample / 1000000) (at_max c / 1000000)) in
    if sample_ms =? 0 then d
    else
      let prev := dl_ewma_ms d in
      let new := if prev =? 0 then sample_ms else wrap64 (wrap64 (prev * 7) + sample_ms) / 8 in
      let d := d <| dl_ewma_ms := new |> in
      d <| dl_penalty_ms := sat_sub64 (dl_penalty_ms d) (as_millis (at_penalty_decay c)) |>.

(** [clear_on_reply]: the slot and the epoch are cleared, the durable state
    observes the time since the epoch was armed. *)
Definition clear_on_reply (c : AdaptiveTimeoutConfig) (now : Z) (epoch : option ArmEpoch) (d : DurableLiveness)
    : DurableLiveness :=
  match epoch with Some e => observe_sample c (elapsed now (ae_at e)) d | None => d end.

Definition on_timeout (c : AdaptiveTimeoutConfig) (d : DurableLiveness) : DurableLiveness :=
  if at_adaptive c then
    let problem := as_millis (at_problem_min c) in
    let d := d <| dl_floor_ms := Z.max (dl_floor_ms d) problem |> in
    let step := as_millis (at_penalty_step c) in
    let max_ms := as_millis (at_max c) in
    d <| dl_penalty_ms := Z.min (sat_add64 (dl_penalty_ms d) step) max_ms |>
  else d.

(** ** The registry *)

(** [Arc]s are cells of [lr_heap]; [lr_map] and the controllers hold cells. *)
Record PeerLivenessRegistry := mkPeerLivenessRegistry {
  lr_cfg : AdaptiveTimeoutConfig;
  lr_map : gmap PublicKey nat;
  lr_heap : list DurableLiveness
}.

Definition PeerLivenessRegistry_new (c : AdaptiveTimeoutConfig) : PeerLivenessRegistry :=
  mkPeerLivenessRegistry c ∅ [].

(** The controller of a connection. *)
Record PeerTimeoutCtrl := mkPeerTimeoutCtrl { ct_key : PublicKey; ct_durable : nat }.

Definition evict_one `{HashOrder} (m : gmap PublicKey nat) (key : PublicKey) : gmap PublicKey nat :=
  if (REGISTRY_SOFT_CAP <=? size m)%nat && bool_decide (m !! key = None)
  then match head (map_keys m) with Some k => delete k m | None => m end
  else m.

Definition ctrl_for `{HashOrder} (reg : PeerLivenessRegistry) (key : PublicKey)
    : PeerTimeoutCtrl * PeerLivenessRegistry :=
  let initial_floor := as_millis (at_min (lr_cfg reg)) in
  let map := evict_one (lr_map reg) key in
  match map !! key with
  | Some cell => (mkPeerTimeoutCtrl key cell, mkPeerLivenessRegistry (lr_cfg reg) map (lr_heap reg))
  | None =>
      let cell := length (lr_heap reg) in
      (mkPeerTimeoutCtrl key cell,
       mkPeerLivenessRegistry (lr_cfg reg) (<[key := cell]> map) (lr_heap reg ++ [DurableLiveness_new initial_floor]))
  end.

(** ** The deadline loop of the reader *)

Record PollState := mkPollState {
  po_probes_sent : Z;
  po_silence_spent : Z;
  po_deadline : option Z
}.

Inductive poll_outcome :=
| PollWait (wait : Z) (probed : bool)
| PollDisconnect.

(** One round of ['poll]: [d] is the durable state as it is then, [epoch] the
    armed one. [checked_duration_since] is [None] once the deadline is past. The
    final miss also updates the durable state. *)
Definition poll_step (c : AdaptiveTimeoutConfig) (peer_probe_count : Z) (now : Z) (d : DurableLiveness)
    (epoch : option ArmEpoch) (st : PollState) : outcome (poll_outcome * PollState * DurableLiveness) :=
  cur ← current c d;
  let interval := match epoch with Some e => ae_timeout e | None => cur end in
  let remaining := match po_deadline st with
                   | Some dl => if now <=? dl then Some (dl - now) else None
                   | None => Some interval
                   end in
  match remaining with
  | Some remaining => Ret (PollWait remaining false, st, d)
  | None =>
      let silence := po_silence_spent st + interval in
      if peer_probe_count <=? po_probes_sent st + 1 then
        Ret (PollDisconnect, mkPollState (po_probes_sent st) silence (po_deadline st), on_timeout c d)
      else
        Ret (PollWait cur true, mkPollState (po_probes_sent st + 1) silence (Some (now + cur)), d)
  end.

(** Rounds of a silent connection at the given times; other connections of the
    peer may change the durable state between two rounds. The time of the
    disconnect, if it comes. *)
Fixpoint poll_run (c : AdaptiveTimeoutConfig) (peer_probe_count : Z) (st : PollState)
    (rounds : list (Z * DurableLiveness * option ArmEpoch)) : outcome (option Z * PollState) :=
  match rounds with
  | [] => Ret (None, st)
  | (now, d, epoch) :: rounds =>
      res ← poll_step c peer_probe_count now d epoch st;
      match res with
      | (PollDisconnect, st, _) => Ret (Some now, st)
      | (PollWait _ _, st, _) => poll_run c peer_probe_count st rounds
      end
  end.

(** ** The interval *)

(** Durations that fit their types, and a ceiling below 2^60 ms. *)
Definition config_wf (c : AdaptiveTimeoutConfig) : Prop :=
  0 <= at_fixed_or_initial c /\ 0 <= at_min c /\ 0 <= at_problem_min c /\ 0 <= at_max c < 2 ^ 60 * 1000000
  /\ 0 <= at_base c /\ 0 <= at_rtt_mult c < 2 ^ 32 /\ 0 <= at_penalty_step c /\ 0 <= at_penalty_decay c.

(** The bounds of every interval. *)
Definition interval_lo (c : AdaptiveTimeoutConfig) : Z :=
  if at_adaptive c then from_millis (as_millis (at_min c)) else at_fixed_or_initial c.
Definition interval_hi (c : AdaptiveTimeoutConfig) : Z :=
  if at_adaptive c then at_max c else at_fixed_or_initial c.

Lemma as_millis_eq d : 0 <= d < 2 ^ 60 * 1000000 -> as_millis d = d / 1000000 /\ 0 <= as_millis d < 2 ^ 60.
Proof.
  intros Hd. assert (0 <= d / 1000000 < 2 ^ 60).
  { split; [apply Z.div_pos; lia|apply Z.div_lt_upper_bound; lia]. }
  unfold as_millis. rewrite wrap64_id; [done|unfold is_u64; lia].
Qed.

Lemma as_millis_range d : is_u64 (as_millis d).
Proof. apply wrap64_is_u64. Qed.

Lemma valid_order c : config_wf c -> validate c = Ok tt ->
  0 < at_min c <= at_max c /\ (at_adaptive c = true -> at_min c <= at_problem_min c <= at_max c)
  /\ (at_adaptive c = false -> 0 < at_fixed_or_initial c).
Proof.
  intros Hwf. unfold validate, config_wf in *.
  destruct (Z.eqb_spec (at_rtt_mult c) 0), (Z.ltb_spec (at_max c) (at_min c)); try done.
  destruct (at_adaptive c); simpl.
  - destruct (Z.ltb_spec (at_max c) (at_problem_min c)), (Z.ltb_spec (at_problem_min c) (at_min c)); try done.
    destruct (Z.eqb_spec (at_min c) 0); [done|]. intros _. split_and!; try done; lia.
  - destruct (Z.eqb_spec (at_fixed_or_initial c) 0); [done|].
    destruct (Z.eqb_spec (at_min c) 0); [done|]. intros _. split_and!; try done; lia.
Qed.

Lemma compute_bounds c e p f : config_wf c -> validate c = Ok tt -> 0 <= f ->
  exists t, compute c e p f = Ret t /\ interval_lo c <= t <= interval_hi c.
Proof.
  intros Hwf Hv Hf. destruct (valid_order c Hwf Hv) as (Hm & Ha & Hfx). unfold compute, interval_lo, interval_hi.
  destruct (at_adaptive c); simpl; [|eexists; split; [done|lia]].
  destruct Hwf as (_ & ? & _ & Hmax & _). destruct (as_millis_eq (at_max c)) as [Emax Rmax]; [lia|].
  destruct (as_millis_eq (at_min c)) as [Emin Rmin]; [lia|].
  assert (Hle : as_millis (at_min c) <= as_millis (at_max c)) by (rewrite Emin, Emax; apply Z.div_le_mono; lia).
  assert (Hmul : from_millis (as_millis (at_max c)) <= at_max c).
  { unfold from_millis. rewrite Emax. pose proof (Z.mul_div_le (at_max c) 1000000). lia. }
  set (fl := Z.min (Z.max f (as_millis (at_min c))) (as_millis (at_max c))). set (tot := sat_add64 _ _).
  unfold clamp. destruct (Z.ltb_spec (as_millis (at_max c)) fl); [lia|]. rewrite ret_bind. eexists. split; [done|].
  unfold from_millis in *. nia.
Qed.

(** ** The durable state *)

Record durable_ok (c : AdaptiveTimeoutConfig) (d : DurableLiveness) : Prop := {
  do_ewma : 0 <= dl_ewma_ms d <= as_millis (at_max c);
  do_penalty : 0 <= dl_penalty_ms d <= as_millis (at_max c);
  do_floor : as_millis (at_min c) <= dl_floor_ms d <= as_millis (at_max c)
}.

Inductive live_op := LiveSample (sample : Z) | LiveTimeout.

Definition live_step (c : AdaptiveTimeoutConfig) (d : DurableLiveness) (op : live_op) : DurableLiveness :=
  match op with LiveSample s => observe_sample c s d | LiveTimeout => on_timeout c d end.

Definition op_ok (op : live_op) : Prop := match op with LiveSample s => 0 <= s | LiveTimeout => True end.

Section Durable.
Context (c : AdaptiveTimeoutConfig) (Hwf : config_wf c) (Hv : validate c = Ok tt).

Lemma millis_order : as_millis (at_min c) <= as_millis (at_max c) < 2 ^ 60
  /\ (at_adaptive c = true -> as_millis (at_min c) <= as_millis (at_problem_min c) <= as_millis (at_max c)).
Proof using Hwf Hv.
  destruct (valid_order c Hwf Hv) as (Hm & Ha & _). destruct Hwf as (_ & ? & ? & Hmax & _).
  destruct (as_millis_eq (at_max c)) as [-> ?]; [lia|]. destruct (as_millis_eq (at_min c)) as [-> ?]; [lia|].
  split; [split; [apply Z.div_le_mono; lia|lia]|]. intros Had. specialize (Ha Had).
  destruct (as_millis_eq (at_problem_min c)) as [-> ?]; [lia|]. split; apply Z.div_le_mono; lia.
Qed.

Lemma new_durable_ok : durable_ok c (DurableLiveness_new (as_millis (at_min c))).
Proof using Hwf Hv.
  destruct millis_order as [Hm _]. pose proof (as_millis_range (at_min c)) as Hr. unfold is_u64 in Hr.
  split; simpl; lia.
Qed.

Lemma on_timeout_ok d : durable_ok c d -> durable_ok c (on_timeout c d).
Proof using Hwf Hv.
  intros [E P F]. destruct millis_order as [Hm Hp]. unfold on_timeout. destruct (at_adaptive c) eqn:Ha; [|done].
  specialize (Hp eq_refl). pose proof (as_millis_range (at_penalty_step c)) as Hs. unfold is_u64 in Hs.
  unfold set_field. split; simpl; [done| |lia]. unfold sat_add64, U64_MAX. lia.
Qed.

Lemma observe_sample_ok d s : 0 <= s -> durable_ok c d -> durable_ok c (observe_sample c s d).
Proof using Hwf Hv.
  intros Hs [E P F]. destruct millis_order as [Hm _]. unfold observe_sample. destruct (negb _); [done|].
  destruct Hwf as (_ & _ & _ & Hmax & _). destruct (as_millis_eq (at_max c)) as [Emax Rmax]; [lia|].
  assert (Hb : 0 <= Z.min (s / 1000000) (at_max c / 1000000) <= as_millis (at_max c)).
  { rewrite Emax. pose proof (Z.div_pos s 1000000). lia. }
  rewrite (wrap64_id (Z.min _ _)) by (unfold is_u64; lia). set (sm := Z.min _ _) in *. clearbody sm.
  destruct (sm =? 0); [done|]. pose proof (as_millis_range (at_penalty_decay c)) as Hd. unfold is_u64 in Hd.
  unfold set_field. split; simpl; [|unfold sat_sub64; lia|done].
  destruct (dl_ewma_ms d =? 0); [lia|]. rewrite (wrap64_id (dl_ewma_ms d * 7)) by (unfold is_u64; lia).
  rewrite wrap64_id by (unfold is_u64; lia).
  split; [apply Z.div_pos; lia|]. apply Z.div_le_upper_bound; lia.
Qed.

Lemma live_step_ok d op : op_ok op -> durable_ok c d -> durable_ok c (live_step c d op).
Proof using Hwf Hv. destruct op; [by apply observe_sample_ok|by intros _; apply on_timeout_ok]. Qed.

Lemma live_step_floor d op : dl_floor_ms d <= dl_floor_ms (live_step c d op).
Proof.
  destruct op as [s|]; simpl; unfold observe_sample, on_timeout.
  - destruct (negb _); [lia|]. destruct (_ =? 0); [lia|]. simpl. lia.
  - destruct (at_adaptive c); [|lia]. simpl. lia.
Qed.

Lemma live_run_spec ops d : Forall op_ok ops -> durable_ok c d ->
  durable_ok c (foldl (live_step c) d ops) /\ dl_floor_ms d <= dl_floor_ms (foldl (live_step c) d ops).
Proof using Hwf Hv.
  intros Hops. revert d. induction Hops as [|op ops Ho _ IH]; intros d Hd; simpl; [split; [done|lia]|].
  destruct (IH (live_step c d op)) as [? ?]; [by apply live_step_ok|]. pose proof (live_step_floor d op). split; [done|lia].
Qed.
End Durable.

Lemma compute_floor c e p f t : as_millis (at_min c) <= f <= as_millis (at_max c) -> at_adaptive c = true ->
  compute c e p f = Ret t -> from_millis f <= t.
Proof.
  intros Hf Ha. unfold compute. rewrite Ha. cbn [negb]. cbv zeta.
  rewrite (Z.max_l f), (Z.min_l f) by lia. unfold clamp. destruct (_ <? f); [done|].
  rewrite ret_bind. intros [= <-]. unfold from_millis. lia.
Qed.

(** ** The silence budget *)

Definition armed_at (c : AdaptiveTimeoutConfig) (t0 : Z) (st : PollState) : Prop :=
  0 <= po_probes_sent st
  /\ exists dl, po_deadline st = Some dl /\ t0 + (po_probes_sent st + 1) * interval_lo c <= dl.

Lemma poll_step_armed c count now d epoch t0 st : config_wf c -> validate c = Ok tt -> 0 <= dl_floor_ms d ->
  armed_at c t0 st ->
  exists out st' d', poll_step c count now d epoch st = Ret (out, st', d')
    /\ match out with
       | PollWait _ _ => armed_at c t0 st'
       | PollDisconnect => t0 + count * interval_lo c < now /\ d' = on_timeout c d
       end.
Proof.
  intros Hwf Hv Hd [Hp (dl & Hdl & Hle)]. unfold poll_step, current.
  destruct (compute_bounds c (dl_ewma_ms d) (dl_penalty_ms d) (dl_floor_ms d) Hwf Hv Hd) as (cur & -> & Hlo & _).
  rewrite ret_bind, Hdl. destruct (Z.leb_spec now dl) as [|Hpast].
  { do 3 eexists. split; [done|]. split; [done|]. by exists dl. }
  assert (Hlo0 : 0 <= interval_lo c).
  { unfold interval_lo, from_millis. pose proof (as_millis_range (at_min c)) as Hr. unfold is_u64 in Hr.
    destruct Hwf as (? & _). destruct (at_adaptive c); lia. }
  destruct (Z.leb_spec count (po_probes_sent st + 1)).
  - do 3 eexists. split; [done|]. split; [nia|done].
  - do 3 eexists. split; [done|]. split; simpl; [lia|]. eexists. split; [done|]. nia.
Qed.

(** ** The registry *)

(** Cells are allocated and no two keys share one. *)
Record registry_ok (reg : PeerLivenessRegistry) : Prop := {
  rg_cells : map_Forall (fun _ cell => (cell < length (lr_heap reg))%nat) (lr_map reg);
  rg_inj : forall k1 k2 cell, lr_map reg !! k1 = Some cell -> lr_map reg !! k2 = Some cell -> k1 = k2
}.

Lemma evict_one_spec `{HashOrder} m key : evict_one m key ⊆ m
  /\ evict_one m key !! key = m !! key
  /\ ((size m < REGISTRY_SOFT_CAP)%nat \/ is_Some (m !! key) -> evict_one m key = m).
Proof.
  unfold evict_one. destruct (Nat.leb_spec REGISTRY_SOFT_CAP (size m)); simpl; [|by split_and!].
  case_bool_decide as Hk; [|by split_and!]. split_and!.
  - destruct (head _); [apply delete_subseteq|done].
  - destruct (head _) as [k|]; [|done]. rewrite Hk. by apply lookup_delete_None; right.
  - intros [?|[? ?]]; [lia|congruence].
Qed.

Lemma ctrl_for_spec `{HashOrder} reg key : registry_ok reg ->
  let '(ctrl, reg') := ctrl_for reg key in
  registry_ok reg' /\ lr_map reg' !! key = Some (ct_durable ctrl) /\ lr_heap reg `prefix_of` lr_heap reg'
  /\ match lr_map reg !! key with
     | Some cell => ct_durable ctrl = cell /\ lr_heap reg' = lr_heap reg /\ lr_map reg' = lr_map reg
     | None => lr_heap reg' !! ct_durable ctrl = Some (DurableLiveness_new (as_millis (at_min (lr_cfg reg))))
               /\ ct_durable ctrl = length (lr_heap reg)
     end
  /\ (forall k cell, k <> key -> lr_map reg' !! k = Some cell -> lr_map reg !! k = Some cell).
Proof.
  intros [C J]. unfold ctrl_for. destruct (evict_one_spec (lr_map reg) key) as (Hsub & Hkey & Hsame).
  rewrite Hkey. destruct (lr_map reg !! key) as [cell|] eqn:Hk.
  - rewrite Hsame by (right; by eexists). split_and!; [by split|done..].
  - set (m := evict_one _ _) in *. assert (Hin : forall k cell, m !! k = Some cell -> lr_map reg !! k = Some cell)
      by (intros; by eapply lookup_weaken).
    simpl. split_and!.
    + split; simpl.
      * apply map_Forall_insert_2; [rewrite length_app; simpl; lia|]. intros k cell Hc%Hin.
        specialize (C k cell Hc). simpl in C. rewrite length_app. lia.
      * intros k1 k2 cell. rewrite !lookup_insert_Some.
        intros [[<- <-]|[? H1%Hin]] [[<- E]|[? H2%Hin]]; try done.
        -- specialize (C k2 _ H2). simpl in C. lia.
        -- subst cell. specialize (C k1 _ H1). simpl in C. lia.
        -- by eapply J.
    + by rewrite lookup_insert_eq.
    + by apply prefix_app_r.
    + by rewrite list_lookup_middle.
    + done.
    + intros k cell Hne. rewrite lookup_insert_ne by done. apply Hin.
Qed.

(** ** Properties *)

(** The liveness interval is bounded and its floor is sticky. For an accepted
    configuration, after any samples and timeouts, the state stays within the
    configured ceiling (no arithmetic overflows), the interval is computed
    without panic and lies between the configured bounds, the floor never sinks,
    and in adaptive mode one final timeout keeps the peer degraded for good: no
    later sample brings the interval below [problem_min]. *)
Theorem liveness_interval_sticky c ops1 ops2 (Hwf : config_wf c) (Hv : validate c = Ok tt)
    (Hops1 : Forall op_ok ops1) (Hops2 : Forall op_ok ops2) :
  let d1 := foldl (live_step c) (DurableLiveness_new (as_millis (at_min c))) ops1 in
  let d2 := foldl (live_step c) (on_timeout c d1) ops2 in
  durable_ok c d2 /\ dl_floor_ms d1 <= dl_floor_ms d2
  /\ exists t, current c d2 = Ret t /\ interval_lo c <= t <= interval_hi c
     /\ (at_adaptive c = true -> is_degraded c d2 = true /\ from_millis (as_millis (at_problem_min c)) <= t).
Proof.
  intros d1 d2. destruct (live_run_spec c Hwf Hv ops1 _ Hops1 (new_durable_ok c Hwf Hv)) as [D1 _]. fold d1 in D1.
  destruct (live_run_spec c Hwf Hv ops2 _ Hops2 (on_timeout_ok c Hwf Hv d1 D1)) as [D2 F2]. fold d2 in D2, F2.
  pose proof (live_step_floor c d1 LiveTimeout) as F1. simpl in F1. pose proof (as_millis_range (at_min c)) as Hr.
  unfold is_u64 in Hr. split_and!; [done|lia|].
  destruct (compute_bounds c (dl_ewma_ms d2) (dl_penalty_ms d2) (dl_floor_ms d2) Hwf Hv) as (t & Ht & Hb);
    [destruct D2; lia|].
  exists t. split_and!; [done|lia|lia|]. intros Ha.
  assert (Hp : as_millis (at_problem_min c) <= dl_floor_ms d2).
  { etrans; [|exact F2]. unfold on_timeout. rewrite Ha. simpl. lia. }
  split; [unfold is_degraded; rewrite Ha; by apply Z.leb_le|].
  apply compute_floor in Ht; [|apply D2|done]. unfold from_millis in *. lia.
Qed.

Lemma liveness_interval_sticky_witness :
  let c := AdaptiveTimeoutConfig_default <| at_adaptive := true |> in
  exists t, current c (foldl (live_step c) (on_timeout c (DurableLiveness_new (as_millis (at_min c))))
              [LiveSample 20000000; LiveSample 30000000]) = Ret t /\ 15000000000 <= t.
Proof.
  intros c. destruct (liveness_interval_sticky c [] [LiveSample 20000000; LiveSample 30000000])
    as (_ & _ & t & Ht & _ & Ha).
  - unfold config_wf. simpl. lia.
  - reflexivity.
  - constructor.
  - repeat constructor; simpl; lia.
  - exists t. split; [exact Ht|]. apply Ha. reflexivity.
Defined.

(** C39: A silent peer is never given up early. When the deadline was armed at
    [t0], the reader polls at whatever times, and other connections of the same
    peer change the shared state between two polls, a disconnect comes only after
    [peer_probe_count] full intervals of silence, each at least the configured
    lower bound; no poll panics. *)
Theorem silence_budget_respected c count t0 dl rounds (Hwf : config_wf c) (Hv : validate c = Ok tt)
    (Harm : t0 + interval_lo c <= dl)
    (Hrounds : Forall (fun '(_, d, _) => 0 <= dl_floor_ms d) rounds) :
  exists gone st, poll_run c count (mkPollState 0 0 (Some dl)) rounds = Ret (gone, st)
    /\ match gone with Some now => t0 + count * interval_lo c < now | None => True end.
Proof.
  assert (Hst : armed_at c t0 (mkPollState 0 0 (Some dl))) by (split; simpl; [lia|exists dl; split; [done|lia]]).
  revert Hst. generalize (mkPollState 0 0 (Some dl)).
  induction Hrounds as [|[[now d] epoch] rounds Hd _ IH]; intros st Hst; simpl; [by exists None, st|].
  destruct (poll_step_armed c count now d epoch t0 st Hwf Hv Hd Hst) as (out & st' & d' & -> & Hout).
  rewrite ret_bind. destruct out as [w p|]; [by apply IH|]. exists (Some now), st'. split; [done|apply Hout].
Qed.

Lemma silence_budget_respected_witness :
  let c := AdaptiveTimeoutConfig_default in
  let d := DurableLiveness_new 5000 in
  poll_run c 2 (mkPollState 0 0 (Some 15000000000)) [(16000000000, d, None); (32000000000, d, None)]
    = Ret (Some 32000000000, mkPollState 1 30000000000 (Some 31000000000))
  /\ 0 + 2 * interval_lo c < 32000000000.
Proof.
  intros c d. split; [reflexivity|].
  destruct (silence_budget_respected c 2 0 15000000000 [(16000000000, d, None); (32000000000, d, None)])
    as (gone & st & Hr & Hg).
  - unfold config_wf. simpl. lia.
  - reflexivity.
  - vm_compute. discriminate.
  - repeat constructor; simpl; lia.
  - injection Hr as <- <-. exact Hg.
Defined.

(** Liveness state survives reconnects and is shared: the controllers of all
    connections of a peer use one cell, which a new connection finds unchanged,
    while a peer without an entry starts from a fresh cell of its own; cells of
    different peers are never shared, and no cell is overwritten. *)
Theorem liveness_survives_reconnect `{HashOrder} reg key (Hreg : registry_ok reg) :
  let '(ctrl, reg1) := ctrl_for reg key in
  registry_ok reg1 /\ lr_heap reg `prefix_of` lr_heap reg1
  /\ (forall heap, length heap = length (lr_heap reg1) ->
        ct_durable (ctrl_for (mkPeerLivenessRegistry (lr_cfg reg1) (lr_map reg1) heap) key).1 = ct_durable ctrl)
  /\ (forall k, k <> key -> lr_map reg1 !! k <> Some (ct_durable ctrl))
  /\ (lr_map reg !! key = None -> lr_heap reg1 !! ct_durable ctrl
        = Some (DurableLiveness_new (as_millis (at_min (lr_cfg reg))))).
Proof.
  pose proof (ctrl_for_spec reg key Hreg) as Hs. destruct (ctrl_for reg key) as [ctrl reg1].
  destruct Hs as (Hok & Hkey & Hpre & Hcase & _). split_and!; [done|done| | |].
  - intros heap Hlen. set (reg2 := mkPeerLivenessRegistry _ _ heap).
    assert (Hok2 : registry_ok reg2) by (destruct Hok as [C J]; split; simpl; [by rewrite Hlen|done]).
    pose proof (ctrl_for_spec reg2 key Hok2) as Hs2. destruct (ctrl_for reg2 key) as [ctrl2 reg3].
    destruct Hs2 as (_ & _ & _ & Hc2 & _). simpl in Hc2. rewrite Hkey in Hc2. apply Hc2.
  - intros k Hne Hk. apply Hne. by eapply (rg_inj _ Hok).
  - intros Hnone. rewrite Hnone in Hcase. apply Hcase.
Qed.

Lemma liveness_survives_reconnect_witness :
  let reg := (@ctrl_for id_order (PeerLivenessRegistry_new AdaptiveTimeoutConfig_default) [1]).2 in
  ct_durable (@ctrl_for id_order reg [2]).1 = 1%nat /\ registry_ok (@ctrl_for id_order reg [2]).2.
Proof.
  intros reg. split; [reflexivity|].
  assert (H0 : registry_ok (PeerLivenessRegistry_new AdaptiveTimeoutConfig_default)).
  { split; simpl; [apply map_Forall_empty|]. intros k1 k2 cell Hk. by rewrite lookup_empty in Hk. }
  pose proof (@ctrl_for_spec id_order _ [1] H0) as H1. pose proof (@liveness_survives_reconnect id_order reg [2]) as H2.
  apply H2. apply H1.
Defined.
