(* ===== verification/Address.v ===== *)
(** * Address: IPv6 addresses of keys

    Models [crates/yggdrasil/src/address.rs]: the address and the /64 subnet of a
    public key, and the partial key recovered from either. The address prefix,
    a global set once at startup, is the argument [prefix]. Bytes are numbers
    below 256, bits are counted from the most significant one. *)

From S2P Require Import Prelude.
From S2P Require Import Wire.
From stdpp Require Import options.
Open Scope Z_scope.

Abbreviation Address := (list Z) (only parsing).
Abbreviation Subnet := (list Z) (only parsing).

(** [set_address_prefix]: the subnet prefix that goes with a prefix. *)
Definition subnet_prefix (prefix : Z) : Z := wrap8 (prefix + 1).

(** [overlay_network_for_prefix]. *)
Definition overlay_network_for_prefix (prefix : Z) : Address * Z :=
  (Z.land prefix 254 :: replicate 15 0, 7).

(** [byte = !byte]. *)
Definition invert (bs : bytes) : bytes := (fun b => Z.lxor b 255) <$> bs.

(** The loop [for idx in 0..ones] of [get_key]: [break] once past the key. *)
Fixpoint set_ones (todo idx : nat) (key : bytes) : bytes :=
  match todo with
  | O => key
  | S todo =>
      if (32 <=? idx / 8)%nat then key
      else set_ones todo (S idx) (alter (fun b => Z.lor b (Z.shiftr 128 (Z.of_nat (idx mod 8)))) (idx / 8)%nat key)
  end.

(** The loop [for idx in 0..(8 * 14)], with [todo] rounds left. *)
Fixpoint copy_bits (todo idx : nat) (addr : Address) (key_offset : nat) (key : bytes) : bytes :=
  match todo with
  | O => key
  | S todo =>
      let addr_byte := (2 + idx / 8)%nat in
      if (16 <=? addr_byte)%nat then key
      else
        let bit := Z.land (Z.shiftr (addr !!! addr_byte) (7 - Z.of_nat (idx mod 8))) 1 in
        let key_bit_pos := (key_offset + idx)%nat in
        if (32 <=? key_bit_pos / 8)%nat then key
        else copy_bits todo (S idx) addr key_offset
               (alter (fun b => Z.lor b (Z.shiftl bit (7 - Z.of_nat (key_bit_pos mod 8)))) (key_bit_pos / 8)%nat key)
  end.

Definition Address_get_key (addr : Address) : PublicKey :=
  let ones := Z.to_nat (addr !!! 1%nat) in
  let key := set_ones ones 0 (replicate 32 0) in
  let key_offset := (ones + 1)%nat in
  invert (copy_bits 112 0 addr key_offset key).

Definition Subnet_get_key (subnet : Subnet) : PublicKey :=
  let addr_bytes := subnet ++ replicate 8 0 in
  Address_get_key (alter (fun b => Z.land b 254) 0%nat addr_bytes).

(** The loop variables of [addr_for_key]. *)
Record AddrLoop := mkAddrLoop { al_ones : nat; al_done : bool; al_temp : bytes; al_bits : Z; al_n_bits : nat }.

Definition addr_bit (buf : bytes) (idx : nat) : Z :=
  Z.shiftr (Z.land (buf !!! (idx / 8)%nat) (Z.shiftr 128 (Z.of_nat (idx mod 8)))) (7 - Z.of_nat (idx mod 8)).

Definition addr_step (buf : bytes) (st : AddrLoop) (idx : nat) : AddrLoop :=
  let '(mkAddrLoop ones done temp bits n_bits) := st in
  let bit := addr_bit buf idx in
  if negb done && negb (bit =? 0) then mkAddrLoop (S ones) done temp bits n_bits
  else if negb done && (bit =? 0) then mkAddrLoop ones true temp bits n_bits
  else
    let bits := Z.lor (wrap8 (Z.shiftl bits 1)) bit in
    let n_bits := S n_bits in
    if (n_bits =? 8)%nat then mkAddrLoop ones done (temp ++ [bits]) 0 0
    else mkAddrLoop ones done temp bits n_bits.

Definition addr_for_key (prefix : Z) (public_key : PublicKey) : Address :=
  let buf := invert public_key in
  let st := foldl (addr_step buf) (mkAddrLoop 0 false [] 0 0) (seq 0 256) in
  let temp := take 14 (al_temp st) in
  prefix :: Z.min (Z.of_nat (al_ones st)) 255 :: temp ++ replicate (14 - length temp) 0.

Definition subnet_for_key (prefix : Z) (public_key : PublicKey) : Subnet :=
  alter (fun b => Z.lor b 1) 0%nat (take 8 (addr_for_key prefix public_key)).

Definition is_valid_address (prefix : Z) (addr : Address) : bool := addr !!! 0%nat =? prefix.
Definition is_valid_subnet (prefix : Z) (subnet : Subnet) : bool := subnet !!! 0%nat =? subnet_prefix prefix.

(** The Bloom transform installed by [crates/yggdrasil/src/core.rs]. *)
Definition bloom_transform (prefix : Z) (key : PublicKey) : PublicKey := Subnet_get_key (subnet_for_key prefix key).

(** ** Bits of byte strings *)

Definition bit_at (bs : bytes) (i : nat) : bool := Z.testbit (bs !!! (i / 8)%nat) (7 - Z.of_nat (i mod 8)).

(** The byte with the bits [f 0 .. f (n - 1)]. *)
Fixpoint byte_of (n : nat) (f : nat -> bool) : Z :=
  match n with
  | O => 0
  | S n => 2 * byte_of n f + Z.b2z (f n)
  end.

Lemma byte_of_range n f : 0 <= byte_of n f < 2 ^ Z.of_nat n.
Proof.
  induction n as [|n IH]; cbn [byte_of]; [simpl; lia|]. rewrite Nat2Z.inj_succ, Z.pow_succ_r by lia.
  destruct (f n); simpl Z.b2z; lia.
Qed.

Lemma byte_of_ext n f g : (forall i, (i < n)%nat -> f i = g i) -> byte_of n f = byte_of n g.
Proof. induction n as [|n IH]; intros Hf; simpl; [done|]. rewrite IH by auto. by rewrite Hf by lia. Qed.

(** All the bytes. *)
Lemma byte_cases (P : Z -> bool) : forallb P (seqZ 0 256) = true -> forall b, 0 <= b < 256 -> P b = true.
Proof. intros Ha b Hb. rewrite forallb_forall in Ha. apply Ha, list_elem_of_In, elem_of_seqZ. lia. Qed.

Lemma byte_of_bits b : 0 <= b < 256 -> byte_of 8 (fun i => Z.testbit b (7 - Z.of_nat i)) = b.
Proof.
  intros Hb. apply Z.eqb_eq. revert b Hb. apply byte_cases. vm_compute. reflexivity.
Qed.

Lemma lxor_255 b i : 0 <= b < 256 -> 0 <= Z.lxor b 255 < 256
  /\ (0 <= i < 8 -> Z.testbit (Z.lxor b 255) i = negb (Z.testbit b i)).
Proof.
  intros Hb. split.
  - assert (Hx : (0 <=? Z.lxor b 255) && (Z.lxor b 255 <? 256) = true); [|lia].
    revert b Hb. apply byte_cases. vm_compute. reflexivity.
  - intros Hi. rewrite Z.lxor_spec. replace (Z.testbit 255 i) with true; [by destruct (Z.testbit b i)|].
    change 255 with (Z.ones 8). by rewrite Z.ones_spec_low by lia.
Qed.

Lemma shiftr_128 k : (k < 8)%nat -> Z.shiftr 128 (Z.of_nat k) = 2 ^ (7 - Z.of_nat k).
Proof. intros Hk. do 8 (destruct k as [|k]; [done|]). lia. Qed.

Lemma mod8_lt i : (i mod 8 < 8)%nat.
Proof. apply Nat.mod_upper_bound. lia. Qed.

Lemma div8_lt i n : (i < 8 * n)%nat -> (i / 8 < n)%nat.
Proof. intros. by apply Nat.Div0.div_lt_upper_bound. Qed.

(** Reading a bit as [addr_for_key] does. *)
Lemma addr_bit_eq buf i : addr_bit buf i = Z.b2z (bit_at buf i).
Proof.
  unfold addr_bit, bit_at. rewrite shiftr_128 by apply mod8_lt. pose proof (mod8_lt i).
  rewrite land_pow2_testbit by lia. destruct (Z.testbit _ _); [|by rewrite Z.shiftr_0_l].
  rewrite Z.shiftr_div_pow2 by lia. apply Z.div_same. pose proof (Z.pow_pos_nonneg 2 (7 - Z.of_nat (i mod 8))). lia.
Qed.

(** Setting bit [j] of a byte string, with a bit or with nothing. *)
Lemma bit_at_set key j i (b : bool) v : length key = 32%nat -> (j < 256)%nat -> (i < 256)%nat ->
  v = (if b then 2 ^ (7 - Z.of_nat (j mod 8)) else 0) ->
  bit_at (alter (fun x => Z.lor x v) (j / 8)%nat key) i = bit_at key i || (b && (i =? j)%nat).
Proof.
  intros Hlen Hj Hi ->. unfold bit_at. pose proof (mod8_lt i). pose proof (mod8_lt j).
  destruct (decide (i / 8 = j / 8)%nat) as [E|Hne].
  - rewrite E, list_lookup_total_alter_eq by (rewrite Hlen; by apply (div8_lt j 32)). rewrite Z.lor_spec. f_equal.
    destruct b; [|by rewrite Z.bits_0]. cbn [andb]. rewrite Z.pow2_bits_eqb by lia.
    destruct (Nat.eqb_spec i j) as [->|Hij]; [by rewrite Z.eqb_refl|].
    apply Z.eqb_neq. intros Hm. apply Hij. pose proof (Nat.div_mod_eq i 8). pose proof (Nat.div_mod_eq j 8). lia.
  - rewrite list_lookup_total_alter_ne by done.
    destruct (Nat.eqb_spec i j) as [->|]; [done|]. by rewrite andb_false_r, orb_false_r.
Qed.

Lemma lor_set_wf key j v : bytes_wf key -> is_u8 v -> bytes_wf (alter (fun x => Z.lor x v) j key).
Proof. intros Hk Hv. apply Forall_alter; [done|]. intros x _ Hu. by apply (lor_bound 8). Qed.

Lemma pow_bit_u8 k (b : bool) : (k < 8)%nat -> is_u8 (if b then 2 ^ (7 - Z.of_nat k) else 0).
Proof.
  intros Hk. unfold is_u8. destruct b; [|lia]. split; [apply Z.pow_nonneg; lia|]. apply Z.pow_lt_mono_r; lia.
Qed.

(** ** The key recovered from an address *)

Lemma alter_length {A} (f : A -> A) i l : length (alter f i l) = length l.
Proof. apply length_alter. Qed.

Lemma set_ones_spec todo idx key : length key = 32%nat -> (idx + todo <= 256)%nat ->
  length (set_ones todo idx key) = 32%nat /\ (bytes_wf key -> bytes_wf (set_ones todo idx key))
  /\ forall i, (i < 256)%nat ->
       bit_at (set_ones todo idx key) i = bit_at key i || ((idx <=? i)%nat && (i <? idx + todo)%nat).
Proof.
  revert idx key. induction todo as [|todo IH]; intros idx key Hlen Hle; cbn [set_ones].
  { split_and!; [done|done|]. intros i Hi. destruct (Nat.leb_spec idx i), (Nat.ltb_spec i (idx + 0)); try lia; by rewrite orb_false_r. }
  destruct (Nat.leb_spec 32 (idx / 8)) as [H32|_]; [pose proof (div8_lt idx 32); lia|].
  set (key' := alter _ _ key). assert (Hlen' : length key' = 32%nat) by (unfold key'; by rewrite alter_length).
  destruct (IH (S idx) key' Hlen') as (Hl & Hw & Hb); [lia|]. split_and!; [done| |].
  { intros Hk. apply Hw. apply lor_set_wf; [done|]. rewrite shiftr_128 by apply mod8_lt. apply (pow_bit_u8 _ true), mod8_lt. }
  intros i Hi. rewrite Hb by done.
  unfold key'. rewrite (bit_at_set _ _ _ true); [|done|lia|done|by apply shiftr_128, mod8_lt]. cbn [andb].
  rewrite <- orb_assoc. f_equal.
  destruct (Nat.eqb_spec i idx), (Nat.leb_spec idx i), (Nat.ltb_spec i (idx + S todo)), (Nat.leb_spec (S idx) i),
    (Nat.ltb_spec i (S idx + todo)); try lia; done.
Qed.

Lemma copy_bits_spec todo idx addr off key : length key = 32%nat -> (idx + todo <= 112)%nat ->
  length (copy_bits todo idx addr off key) = 32%nat /\ (bytes_wf key -> bytes_wf (copy_bits todo idx addr off key))
  /\ forall i, (i < 256)%nat ->
       bit_at (copy_bits todo idx addr off key) i
       = bit_at key i || ((off + idx <=? i)%nat && (i <? off + idx + todo)%nat && bit_at addr (16 + (i - off))).
Proof.
  revert idx key. induction todo as [|todo IH]; intros idx key Hlen Hle; cbn [copy_bits].
  { split_and!; [done|done|]. intros i Hi. destruct (Nat.leb_spec (off + idx) i), (Nat.ltb_spec i (off + idx + 0)); try lia; by rewrite orb_false_r. }
  destruct (Nat.leb_spec 16 (2 + idx / 8)) as [H16|_]; [pose proof (div8_lt idx 14); lia|].
  destruct (Nat.leb_spec 32 ((off + idx) / 8)) as [H32|H32].
  { split_and!; [done|done|]. intros i Hi. pose proof (Nat.div_mod_eq (off + idx) 8).
    destruct (Nat.leb_spec (off + idx) i); [lia|]. by rewrite orb_false_r. }
  set (pos := (off + idx)%nat) in *. assert (Hpos : (pos < 256)%nat).
  { pose proof (Nat.div_mod_eq pos 8). pose proof (mod8_lt pos). lia. }
  set (v := Z.shiftl _ _). assert (Hv : v = if bit_at addr (16 + idx) then 2 ^ (7 - Z.of_nat (pos mod 8)) else 0).
  { unfold v, bit_at. replace (16 + idx)%nat with (idx + 2 * 8)%nat by lia. rewrite Nat.div_add, Nat.Div0.mod_add by lia.
    replace (idx / 8 + 2)%nat with (2 + idx / 8)%nat by lia. pose proof (mod8_lt idx). pose proof (mod8_lt pos).
    rewrite (Z.land_ones _ 1), <- Z.bit0_mod, Z.shiftr_spec, Z.add_0_l by lia.
    destruct (Z.testbit _ _); simpl; [|by rewrite Z.shiftl_0_l]. rewrite Z.shiftl_mul_pow2 by lia. lia. }
  clearbody v. set (key' := alter _ _ key). assert (Hlen' : length key' = 32%nat) by (unfold key'; by rewrite alter_length).
  destruct (IH (S idx) key' Hlen') as (Hl & Hw & Hb); [lia|]. split_and!; [done| |].
  { intros Hk. apply Hw. apply lor_set_wf; [done|]. rewrite Hv. apply pow_bit_u8, mod8_lt. }
  intros i Hi. rewrite Hb by done.
  unfold key'. rewrite (bit_at_set _ _ _ (bit_at addr (16 + idx))) by done.
  rewrite <- orb_assoc. f_equal. replace (off + S idx)%nat with (S pos) by lia.
  destruct (Nat.eqb_spec i pos) as [->|].
  - replace (pos - off)%nat with idx by lia. rewrite andb_true_r.
    destruct (Nat.leb_spec pos pos), (Nat.ltb_spec pos (pos + S todo)), (Nat.leb_spec (S pos) pos); try lia.
    simpl. by rewrite orb_false_r.
  - rewrite andb_false_r. cbn [orb].
    destruct (Nat.leb_spec pos i), (Nat.ltb_spec i (pos + S todo)), (Nat.leb_spec (S pos) i), (Nat.ltb_spec i (S pos + todo)); try lia; done.
Qed.

Lemma bit_at_invert bs i : bytes_wf bs -> (i < 8 * length bs)%nat -> bit_at (invert bs) i = negb (bit_at bs i).
Proof.
  intros Hb Hi. unfold bit_at, invert. destruct (lookup_lt_is_Some_2 bs (i / 8)) as [b Eb]; [by apply div8_lt|].
  assert (Ei : ((fun b => Z.lxor b 255) <$> bs) !! (i / 8)%nat = Some (Z.lxor b 255)) by (by rewrite list_lookup_fmap, Eb).
  rewrite (list_lookup_total_correct _ _ _ Ei), (list_lookup_total_correct _ _ _ Eb).
  pose proof (mod8_lt i). apply lxor_255; [|lia]. by apply (Forall_lookup_1 _ _ _ _ Hb Eb).
Qed.


Definition addr_ones (addr : Address) : nat := Z.to_nat (addr !!! 1%nat).

Lemma invert_wf bs : bytes_wf bs -> bytes_wf (invert bs).
Proof.
  intros Hb. apply Forall_fmap. eapply Forall_impl; [exact Hb|]. intros b Hu. by apply (lxor_255 b 0).
Qed.

Lemma bit_at_zero i : (i < 256)%nat -> bit_at (replicate 32 0) i = false.
Proof.
  intros Hi. unfold bit_at. rewrite lookup_total_replicate_2 by (by apply (div8_lt i 32)). apply Z.bits_0.
Qed.

Lemma get_key_spec addr : (addr_ones addr <= 255)%nat ->
  let ones := addr_ones addr in
  length (Address_get_key addr) = 32%nat /\ bytes_wf (Address_get_key addr)
  /\ forall i, (i < 256)%nat ->
       bit_at (invert (Address_get_key addr)) i
       = (i <? ones)%nat || ((ones + 1 <=? i)%nat && (i <? ones + 1 + 112)%nat && bit_at addr (16 + (i - (ones + 1)))).
Proof.
  intros Ho ones. unfold Address_get_key. fold (addr_ones addr). fold ones.
  assert (H0 : bytes_wf (replicate 32 0)) by (apply Forall_replicate; unfold is_u8; lia).
  destruct (set_ones_spec ones 0 (replicate 32 0)) as (L1 & W1 & B1); [done|unfold ones; lia|].
  destruct (copy_bits_spec 112 0 addr (ones + 1) _ L1) as (L2 & W2 & B2); [lia|].
  set (key := copy_bits _ _ _ _ _) in *. assert (Wk : bytes_wf key) by auto.
  assert (Wi : bytes_wf (invert key)) by (by apply invert_wf).
  assert (Li : length (invert key) = 32%nat) by (unfold invert; by rewrite length_fmap).
  split_and!; [done|done|]. intros i Hi.
  rewrite !bit_at_invert, negb_involutive by (rewrite ?Li, ?L2; done || lia).
  rewrite B2, B1, bit_at_zero by done. by rewrite Nat.add_0_r.
Qed.

(** ** The loop of [addr_for_key] *)

(** The byte made of the eight bits from [i] on. *)
Definition byte_at (b : nat -> bool) (i : nat) : Z := byte_of 8 (fun t => b (i + t)%nat).

(** What the loop has after [m] bits: leading ones only, or [o] of them, then a
    zero, then the bytes that follow. *)
Definition addr_inv (b : nat -> bool) (m : nat) (st : AddrLoop) : Prop :=
  if al_done st then
    let o := al_ones st in let r := (m - o - 1)%nat in
    (o < m)%nat /\ b o = false /\ (forall i, (i < o)%nat -> b i = true)
    /\ al_temp st = (fun j => byte_at b (o + 1 + 8 * j)) <$> seq 0 (r / 8)
    /\ al_n_bits st = (r mod 8)%nat /\ al_bits st = byte_of (r mod 8) (fun t => b (o + 1 + 8 * (r / 8) + t)%nat)
  else st = mkAddrLoop m false [] 0 0 /\ forall i, (i < m)%nat -> b i = true.

Lemma push_bit n (f : nat -> bool) : (n < 8)%nat ->
  Z.lor (wrap8 (Z.shiftl (byte_of n f) 1)) (Z.b2z (f n)) = byte_of (S n) f.
Proof.
  intros Hn. pose proof (byte_of_range n f) as Hr. cbn [byte_of].
  assert (Hlt : byte_of n f < 2 ^ 7) by (eapply Z.lt_le_trans; [apply Hr|apply Z.pow_le_mono_r; lia]).
  assert (E : wrap8 (Z.shiftl (byte_of n f) 1) = Z.shiftl (byte_of n f) 1).
  { unfold wrap8. apply Z.mod_small. rewrite Z.shiftl_mul_pow2 by lia. lia. }
  rewrite E, Z.lor_comm, lor_shiftl_add by (destruct (f n); simpl; lia). lia.
Qed.

Lemma succ_div8 r : (S r mod 8 = 0)%nat -> (S r / 8 = S (r / 8))%nat /\ (r mod 8 = 7)%nat.
Proof.
  intros Hz. pose proof (Nat.div_mod_eq r 8). pose proof (Nat.div_mod_eq (S r) 8). pose proof (mod8_lt r). lia.
Qed.

Lemma succ_mod8 r : (S r mod 8 <> 0)%nat -> (S r / 8 = r / 8)%nat /\ (S r mod 8 = S (r mod 8))%nat.
Proof.
  intros Hz. pose proof (Nat.div_mod_eq r 8). pose proof (Nat.div_mod_eq (S r) 8).
  pose proof (mod8_lt r). pose proof (mod8_lt (S r)). lia.
Qed.

Lemma addr_step_inv buf m st : let b := bit_at buf in addr_inv b m st -> addr_inv b (S m) (addr_step buf st m).
Proof.
  intros b. unfold addr_inv. destruct st as [o d temp bits n]. unfold addr_step. rewrite addr_bit_eq. fold (b m).
  cbn [al_done al_ones al_temp al_n_bits al_bits]. cbv zeta. destruct d; cbn [negb andb].
  - intros (Ho & Hz & Hones & -> & -> & ->). set (r := (m - o - 1)%nat).
    assert (Em : m = (o + 1 + 8 * (r / 8) + r mod 8)%nat) by (pose proof (Nat.div_mod_eq r 8); unfold r in *; lia).
    pose proof (push_bit (r mod 8) (fun t => b (o + 1 + 8 * (r / 8) + t)%nat) (mod8_lt r)) as Hp. cbv beta in Hp.
    rewrite <- Em in Hp. rewrite Hp. clear Hp Em.
    destruct (Nat.eqb_spec (S (r mod 8)) 8) as [E8|E8]; cbn [al_done al_ones al_temp al_n_bits al_bits]; cbv zeta;
      replace (S m - o - 1)%nat with (S r) by (unfold r; lia).
    + assert (Hz8 : (S r mod 8 = 0)%nat).
      { pose proof (Nat.div_mod_eq r 8). pose proof (Nat.div_mod_eq (S r) 8). pose proof (mod8_lt (S r)). lia. }
      destruct (succ_div8 r Hz8) as [-> E7]. rewrite Hz8, E7. split_and!; [lia|done|done| |done|done].
      rewrite seq_S, fmap_app. f_equal.
    + assert (Hnz : (S r mod 8 <> 0)%nat) by (intros Hz8; destruct (succ_div8 r Hz8); lia).
      destruct (succ_mod8 r Hnz) as [-> ->]. split_and!; [lia|done|done|done|done|done].
  - intros [[= -> -> -> ->] Hones]. destruct (b m) eqn:Hb; simpl Z.b2z; cbn [Z.eqb negb al_done].
    + split; [done|]. intros i Hi. destruct (decide (i = m)) as [->|]; [done|]. apply Hones. lia.
    + cbn [al_ones al_temp al_n_bits al_bits]. replace (S m - m - 1)%nat with 0%nat by lia. split_and!; [lia|done|done|done|done|done].
Qed.

Lemma addr_loop_inv buf m : addr_inv (bit_at buf) m (foldl (addr_step buf) (mkAddrLoop 0 false [] 0 0) (seq 0 m)).
Proof.
  induction m as [|m IH]; [split; [done|lia]|]. rewrite seq_S, foldl_app. by apply addr_step_inv.
Qed.

(** The leading ones of the first 256 bits. *)
Definition leading (b : nat -> bool) (o : nat) : Prop :=
  (o <= 256)%nat /\ (forall i, (i < o)%nat -> b i = true) /\ ((o < 256)%nat -> b o = false).

Lemma leading_det b o o' : leading b o -> leading b o' -> o = o'.
Proof.
  intros (H1 & H2 & H3) (H1' & H2' & H3'). destruct (Nat.lt_trichotomy o o') as [Hlt|[E|Hlt]]; [|done|].
  - rewrite (H2' o Hlt) in H3. by discriminate H3; lia.
  - rewrite (H2 o' Hlt) in H3'. by discriminate H3'; lia.
Qed.

(** The address: the count of leading ones, then the whole bytes after the
    separating zero, at most fourteen, then zeros. *)
Lemma addr_for_key_spec prefix key o : leading (bit_at (invert key)) o ->
  addr_for_key prefix key = prefix :: Z.of_nat (o `min` 255) ::
    (((fun j => byte_at (bit_at (invert key)) (o + 1 + 8 * j)) <$> seq 0 (14 `min` ((255 - o) / 8)))
     ++ replicate (14 - (14 `min` ((255 - o) / 8))) 0).
Proof.
  intros Hl. unfold addr_for_key. pose proof (addr_loop_inv (invert key) 256) as Hinv.
  set (st := foldl _ _ _) in *. clearbody st. set (b := bit_at (invert key)) in *. unfold addr_inv in Hinv.
  assert (Hst : al_ones st = o /\ al_temp st = (fun j => byte_at b (o + 1 + 8 * j)) <$> seq 0 ((255 - o) / 8)).
  { destruct (al_done st) eqn:Hd.
    - destruct Hinv as (Ho & Hz & Hones & Ht & _). assert (Hl2 : leading b (al_ones st)) by (split_and!; [lia|done|done]).
      rewrite <- (leading_det _ _ _ Hl Hl2) in *. split; [done|]. rewrite Ht. by replace (256 - o - 1)%nat with (255 - o)%nat by lia.
    - destruct Hinv as [-> Hones]. assert (Hl2 : leading b 256) by (split_and!; [lia|done|lia]).
      rewrite (leading_det _ _ _ Hl Hl2). done. }
  destruct Hst as [-> ->]. rewrite <- fmap_take, take_seq, length_fmap, length_seq.
  replace (Z.min (Z.of_nat o) 255) with (Z.of_nat (o `min` 255)) by lia. done.
Qed.

Lemma leading_exists buf : exists o, leading (bit_at buf) o.
Proof.
  pose proof (addr_loop_inv buf 256) as Hinv. set (st := foldl _ _ _) in *. clearbody st. unfold addr_inv in Hinv.
  destruct (al_done st).
  - destruct Hinv as (Ho & Hz & Hones & _). exists (al_ones st). split_and!; [lia|done|done].
  - destruct Hinv as [_ Hones]. exists 256%nat. split_and!; [lia|done|lia].
Qed.

(** ** From an address to a key and back *)

(** The payload bytes an address with [ones] leading ones can carry. *)
Definition payload_len (ones : nat) : nat := 14 `min` ((255 - ones) / 8).

Lemma payload_bytes addr n : bytes_wf addr -> length addr = 16%nat -> (n <= 14)%nat ->
  ((fun j => byte_of 8 (fun t => bit_at addr (16 + 8 * j + t))) <$> seq 0 n) = take n (drop 2 addr).
Proof.
  intros Hw Hlen Hn. apply list_eq_same_length with n; [by rewrite length_take, length_drop; lia|by rewrite length_fmap, length_seq|].
  intros j x y Hj. rewrite list_lookup_fmap, lookup_seq_lt, lookup_take_lt, lookup_drop by done. cbn [fmap option_fmap option_map]. rewrite Nat.add_0_l. intros Hx Hy. apply (inj Some) in Hx as <-.
  transitivity (byte_of 8 (fun t => Z.testbit y (7 - Z.of_nat t))).
  - apply byte_of_ext. intros t Ht. unfold bit_at.
    replace (16 + 8 * j + t)%nat with (t + (2 + j) * 8)%nat by lia.
    rewrite Nat.div_add, Nat.Div0.mod_add, Nat.div_small, Nat.mod_small by lia.
    by rewrite Nat.add_0_l, (list_lookup_total_correct _ _ _ Hy).
  - apply byte_of_bits. exact (Forall_lookup_1 _ _ _ _ Hw Hy).
Qed.

Lemma get_key_address prefix addr : bytes_wf addr -> length addr = 16%nat ->
  let n := payload_len (addr_ones addr) in
  addr_for_key prefix (Address_get_key addr) = prefix :: addr !!! 1%nat :: take n (drop 2 addr) ++ replicate (14 - n) 0.
Proof.
  intros Hw Hlen n. destruct (lookup_lt_is_Some_2 addr 1) as [o1 E1]; [lia|].
  pose proof (Forall_lookup_1 _ _ _ _ Hw E1) as Hu. unfold is_u8 in Hu.
  assert (Ho : Z.of_nat (addr_ones addr) = addr !!! 1%nat).
  { unfold addr_ones. rewrite (list_lookup_total_correct _ _ _ E1). lia. }
  rewrite (list_lookup_total_correct _ _ _ E1) in Ho. set (ones := addr_ones addr) in *.
  destruct (get_key_spec addr) as (_ & _ & Hb); [fold ones; lia|]. cbv zeta in Hb. fold ones in Hb.
  set (b := bit_at (invert (Address_get_key addr))) in *.
  assert (Hl : leading b ones).
  { split_and!; [lia| |].
    - intros i Hi. rewrite Hb by lia. by destruct (Nat.ltb_spec i ones); [|lia].
    - intros _. rewrite Hb by lia. destruct (Nat.ltb_spec ones ones), (Nat.leb_spec (ones + 1) ones); try lia; done. }
  rewrite (addr_for_key_spec prefix _ ones Hl). fold b. fold (payload_len ones). fold n.
  rewrite (list_lookup_total_correct _ _ _ E1). rewrite Nat.min_l by lia. rewrite Ho. do 3 f_equal.
  assert (Hn14 : (n <= 14)%nat) by (unfold n, payload_len; lia).
  rewrite <- (payload_bytes addr n Hw Hlen Hn14). apply list_fmap_ext. intros i j Hj. apply lookup_seq in Hj as [-> Hj].
  apply byte_of_ext. intros t Ht. rewrite Nat.add_0_l.
  assert (Hroom : (8 * n <= 255 - ones)%nat).
  { unfold n, payload_len. pose proof (Nat.div_mod_eq (255 - ones) 8). lia. }
  rewrite Hb by lia. destruct (Nat.ltb_spec (ones + 1 + 8 * i + t) ones), (Nat.leb_spec (ones + 1) (ones + 1 + 8 * i + t)),
    (Nat.ltb_spec (ones + 1 + 8 * i + t) (ones + 1 + 112)); try lia. cbn [orb andb]. f_equal. lia.
Qed.

(** The shape of an address made from a key. *)
Lemma addr_for_key_shape prefix key : is_u8 prefix -> exists ones payload,
  let n := payload_len ones in
  (ones <= 255)%nat /\ length payload = n /\ bytes_wf payload
  /\ addr_for_key prefix key = prefix :: Z.of_nat ones :: payload ++ replicate (14 - n) 0.
Proof.
  intros Hp. destruct (leading_exists (invert key)) as [o Hl]. rewrite (addr_for_key_spec prefix key o Hl).
  set (b := bit_at (invert key)). exists (o `min` 255)%nat.
  assert (En : payload_len (o `min` 255) = (14 `min` ((255 - o) / 8))%nat).
  { unfold payload_len. destruct (Nat.min_spec o 255) as [[? ->]|[? ->]]; [done|]. by replace (255 - o)%nat with (255 - 255)%nat by lia. }
  exists ((fun j => byte_at b (o + 1 + 8 * j)) <$> seq 0 (14 `min` ((255 - o) / 8))). cbv zeta. rewrite En.
  split_and!; [lia|by rewrite length_fmap, length_seq| |done].
  apply Forall_fmap, Forall_forall. intros j _. apply byte_of_range.
Qed.

Lemma payload_wf prefix ones payload k : is_u8 prefix -> (ones <= 255)%nat -> bytes_wf payload ->
  bytes_wf (prefix :: Z.of_nat ones :: payload ++ replicate k 0).
Proof.
  intros Hp Ho Hw. constructor; [done|]. constructor; [unfold is_u8; lia|]. apply Forall_app. split; [done|].
  apply Forall_replicate. unfold is_u8. lia.
Qed.

Lemma addr_roundtrip prefix key : is_u8 prefix ->
  addr_for_key prefix (Address_get_key (addr_for_key prefix key)) = addr_for_key prefix key.
Proof.
  intros Hp. destruct (addr_for_key_shape prefix key Hp) as (ones & payload & Ho & Hlen & Hw & ->).
  set (n := payload_len ones) in *. assert (Hn : (n <= 14)%nat) by (unfold n, payload_len; lia).
  rewrite get_key_address; [|by apply payload_wf|simpl; rewrite length_app, length_replicate; lia].
  cbv zeta. unfold addr_ones. simpl lookup_total. rewrite Nat2Z.id. fold n. do 3 f_equal.
  simpl drop. rewrite drop_0. by apply take_app_exact.
Qed.

(** Cutting an address to its first eight bytes loses payload only. *)
Lemma cut_payload (payload : bytes) n : length payload = n -> (n <= 14)%nat ->
  let x := payload ++ replicate (14 - n) 0 in
  take 6 (take n (take 6 x ++ replicate 8 0) ++ replicate (14 - n) 0) = take 6 x.
Proof.
  intros Hlen Hn x. assert (Hx : length x = 14%nat) by (unfold x; rewrite length_app, length_replicate; lia).
  destruct (decide (n <= 6)%nat).
  - rewrite (take_app_le (take 6 x)) by (rewrite length_take; lia). rewrite take_take, Nat.min_l by lia.
    unfold x at 1. by rewrite (take_app_exact payload _ n Hlen).
  - rewrite (take_app_le (take n _)) by (rewrite length_take, length_app, length_take, length_replicate; lia).
    rewrite take_take, Nat.min_l by lia. rewrite (take_app_le (take 6 x)) by (rewrite length_take; lia).
    by rewrite take_take, Nat.min_id.
Qed.

Lemma even_prefix p : is_u8 p -> Z.even p = true -> Z.lor p 1 = p + 1 /\ Z.land (Z.lor p 1) 254 = p /\ p + 1 < 256.
Proof.
  intros Hp He. assert (Hx : (negb (Z.even p) || ((Z.lor p 1 =? p + 1) && (Z.land (Z.lor p 1) 254 =? p) && (p + 1 <? 256))) = true).
  { clear He. revert p Hp. apply byte_cases. vm_compute. reflexivity. }
  rewrite He in Hx. simpl in Hx. lia.
Qed.

(** The address bytes behind a subnet. *)
Lemma subnet_address prefix key ones payload : is_u8 prefix -> Z.even prefix = true ->
  let n := payload_len ones in
  length payload = n -> addr_for_key prefix key = prefix :: Z.of_nat ones :: payload ++ replicate (14 - n) 0 ->
  Subnet_get_key (subnet_for_key prefix key)
  = Address_get_key (prefix :: Z.of_nat ones :: take 6 (payload ++ replicate (14 - n) 0) ++ replicate 8 0).
Proof.
  intros Hp He n Hlen E. unfold Subnet_get_key, subnet_for_key. rewrite E.
  destruct (even_prefix prefix Hp He) as (_ & Hl & _). cbn [take alter list_alter app]. by rewrite Hl.
Qed.

Lemma subnet_roundtrip prefix key : is_u8 prefix -> Z.even prefix = true ->
  subnet_for_key prefix (Subnet_get_key (subnet_for_key prefix key)) = subnet_for_key prefix key.
Proof.
  intros Hp He. destruct (addr_for_key_shape prefix key Hp) as (ones & payload & Ho & Hlen & Hw & E).
  rewrite (subnet_address prefix key ones payload) by done. set (n := payload_len ones) in *.
  assert (Hn : (n <= 14)%nat) by (unfold n, payload_len; lia).
  set (x := payload ++ replicate (14 - n) 0) in *.
  assert (Hx : length x = 14%nat) by (unfold x; rewrite length_app, length_replicate; lia).
  assert (Hwx : bytes_wf x) by (apply Forall_app; split; [done|apply Forall_replicate; unfold is_u8; lia]).
  unfold subnet_for_key at 1. rewrite get_key_address.
  - cbv zeta. unfold addr_ones. simpl lookup_total. rewrite Nat2Z.id. fold n. unfold subnet_for_key. rewrite E.
    cbn [take drop]. rewrite drop_0. unfold x at 1. by rewrite (cut_payload payload n Hlen Hn).
  - apply payload_wf; [done|done|by apply Forall_take].
  - cbn [length]. rewrite length_app, length_take, length_replicate. lia.
Qed.

(** ** Property *)

(** C37: Nodes are found by their addresses. For any prefix the program can be
    given (an even byte) and any key, the key's address and subnet are valid for
    the prefix, the partial key recovered from the address has the same address
    again, and a lookup for the partial key recovered from the address or from
    the subnet is transformed to the same key as a lookup for the full key; the
    transform is idempotent. *)
Theorem address_lookup_sound prefix key (Hp : is_u8 prefix) (He : Z.even prefix = true) :
  let addr := addr_for_key prefix key in
  let subnet := subnet_for_key prefix key in
  is_valid_address prefix addr = true /\ is_valid_subnet prefix subnet = true
  /\ length addr = 16%nat /\ length subnet = 8%nat
  /\ addr_for_key prefix (Address_get_key addr) = addr
  /\ bloom_transform prefix (Address_get_key addr) = bloom_transform prefix key
  /\ bloom_transform prefix (Subnet_get_key subnet) = bloom_transform prefix key
  /\ bloom_transform prefix (bloom_transform prefix key) = bloom_transform prefix key.
Proof.
  intros addr subnet. destruct (addr_for_key_shape prefix key Hp) as (ones & payload & Ho & Hlen & Hw & E).
  assert (Hn : (payload_len ones <= 14)%nat) by (unfold payload_len; lia).
  assert (H16 : length (addr_for_key prefix key) = 16%nat) by (rewrite E; cbn [length]; rewrite length_app, length_replicate; lia).
  destruct (even_prefix prefix Hp He) as (Hlor & _ & Hlt). unfold bloom_transform. split_and!.
  - unfold is_valid_address, addr. rewrite E. apply Z.eqb_refl.
  - unfold is_valid_subnet, subnet, subnet_for_key, subnet_prefix. rewrite E. simpl. rewrite Hlor. apply Z.eqb_eq.
    unfold wrap8, is_u8 in *. rewrite Z.mod_small; lia.
  - done.
  - unfold subnet, subnet_for_key. rewrite length_alter, length_take. lia.
  - by apply addr_roundtrip.
  - f_equal. unfold subnet_for_key, addr. by rewrite addr_roundtrip.
  - f_equal. by apply subnet_roundtrip.
  - f_equal. by apply subnet_roundtrip.
Qed.

Lemma address_lookup_sound_witness :
  let key := 1 :: replicate 31 7 in
  bloom_transform 2 (Address_get_key (addr_for_key 2 key)) = bloom_transform 2 key
  /\ addr_for_key 2 key = 2 :: 7 :: replicate 14 248.
Proof.
  intros key. split; [|vm_compute; reflexivity].
  apply (address_lookup_sound 2 key); [unfold is_u8; lia|reflexivity].
Defined.
