(* ===== verification/Version.v ===== *)
(** * Version: the handshake metadata

    Models [crates/yggdrasil/src/version.rs]: the metadata each side of a new
    link sends first, its encoding as a list of tagged fields with a signature
    over the hash of the public key, and its decoding from the stream. The two
    BLAKE2b functions are parameters: [blake2b512] of the data, and
    [blake2b_mac512] of the password and the data, which has no value for a
    password that is too long. *)

From S2P Require Import Prelude.
From S2P Require Import Wire.
From S2P Require Import Crypto.
From stdpp Require Import options.
Open Scope Z_scope.

Definition PROTOCOL_VERSION_MAJOR : Z := 0.
Definition PROTOCOL_VERSION_MINOR : Z := 5.
Definition META_VERSION_MAJOR : Z := 0.
Definition META_VERSION_MINOR : Z := 1.
Definition META_PUBLIC_KEY : Z := 2.
Definition META_PRIORITY : Z := 3.
(** The four bytes of "meta". *)
Definition PREAMBLE : bytes := [109; 101; 116; 97].

Inductive VersionError :=
| InvalidPreamble | TooShort | BadSignature | IncompatibleVersion (major minor : Z)
| InvalidLength | InvalidKey | VersionIo.

Record Metadata := mkMetadata { md_major_ver : Z; md_minor_ver : Z; md_public_key : PublicKey; md_priority : Z }.

#[export] Instance Metadata_eta : Settable Metadata := fun m =>
  mkMetadata (md_major_ver m) (md_minor_ver m) (md_public_key m) (md_priority m).

Definition Metadata_default : Metadata :=
  mkMetadata PROTOCOL_VERSION_MAJOR PROTOCOL_VERSION_MINOR (replicate 32 0) 0.

Definition Metadata_new (public_key : PublicKey) (priority : Z) : Metadata :=
  mkMetadata PROTOCOL_VERSION_MAJOR PROTOCOL_VERSION_MINOR public_key priority.

Definition Metadata_check (m : Metadata) : bool :=
  (md_major_ver m =? PROTOCOL_VERSION_MAJOR) && (PROTOCOL_VERSION_MINOR <=? md_minor_ver m)
  && (length (md_public_key m) =? 32)%nat.

Definition is_exact_match (m : Metadata) : bool :=
  (md_major_ver m =? PROTOCOL_VERSION_MAJOR) && (md_minor_ver m =? PROTOCOL_VERSION_MINOR).

(** ** Fields *)

(** One pass of the [match field_id] of [decode]. *)
Definition apply_field (meta : Metadata) (field_id : Z) (field : bytes) : result VersionError Metadata :=
  if field_id =? META_VERSION_MAJOR then
    if (length field =? 2)%nat then Ok (meta <| md_major_ver := from_be_bytes field |>) else Err InvalidLength
  else if field_id =? META_VERSION_MINOR then
    if (length field =? 2)%nat then Ok (meta <| md_minor_ver := from_be_bytes field |>) else Err InvalidLength
  else if field_id =? META_PUBLIC_KEY then
    if (length field =? 32)%nat then Ok (meta <| md_public_key := field |>) else Err InvalidLength
  else if field_id =? META_PRIORITY then
    if (length field =? 1)%nat then Ok (meta <| md_priority := field !!! 0%nat |>) else Err InvalidLength
  else Ok meta.

(** The [while] loop on [&fields[pos..]]. A round takes at least four bytes. *)
Fixpoint parse_fields (fuel : nat) (fields : bytes) (meta : Metadata) : result VersionError Metadata :=
  match fuel with
  | O => Err InvalidLength
  | S fuel =>
      if (4 <=? length fields)%nat then
        let field_id := from_be_bytes (take 2 fields) in
        let field_len := Z.to_nat (from_be_bytes (take 2 (drop 2 fields))) in
        let fields := drop 4 fields in
        if (length fields <? field_len)%nat then Err InvalidLength
        else
          meta ← apply_field meta field_id (take field_len fields);
          parse_fields fuel (drop field_len fields) meta
      else if (length fields =? 0)%nat then Ok meta else Err InvalidLength
  end.

Section Handshake.
Context `{Dalek} (blake2b512 : bytes -> bytes) (blake2b_mac512 : bytes -> bytes -> option bytes).

Definition blake2b_hash (data password : bytes) : outcome bytes :=
  if bool_decide (password = []) then Ret (blake2b512 data) else unwrap (blake2b_mac512 password data).

Definition Metadata_encode (m : Metadata) (signing_key : SigningKey) (password : bytes) : outcome bytes :=
  let bs := PREAMBLE ++ [0; 0] in
  let bs := bs ++ to_be_bytes 2 META_VERSION_MAJOR ++ to_be_bytes 2 2 ++ to_be_bytes 2 (md_major_ver m) in
  let bs := bs ++ to_be_bytes 2 META_VERSION_MINOR ++ to_be_bytes 2 2 ++ to_be_bytes 2 (md_minor_ver m) in
  let bs := bs ++ to_be_bytes 2 META_PUBLIC_KEY ++ to_be_bytes 2 32 ++ md_public_key m in
  let bs := bs ++ to_be_bytes 2 META_PRIORITY ++ to_be_bytes 2 1 ++ [md_priority m] in
  hash ← blake2b_hash (md_public_key m) password;
  let bs := bs ++ sk_sign signing_key hash in
  let len := wrap16 (Z.of_nat (length bs - 6)) in
  Ret (take 4 bs ++ to_be_bytes 2 len ++ drop 6 bs).

(** [reader.read_exact] of [n] bytes. *)
Definition read_exact (n : nat) (reader : bytes) : result VersionError (bytes * bytes) :=
  if (length reader <? n)%nat then Err VersionIo else Ok (take n reader, drop n reader).

Definition verify_metadata (m : Metadata) (hash sig_bytes : bytes) : result VersionError Metadata :=
  match signature_from_slice sig_bytes with
  | None => Err BadSignature
  | Some signature =>
      if negb (is_public_key_valid (md_public_key m)) then Err InvalidKey
      else match vk_from_bytes (md_public_key m) with
           | None => Err InvalidKey
           | Some vk => if vk_verify vk hash signature then Ok m else Err BadSignature
           end
  end.

(** [decode]: the metadata and what is left of the stream. *)
Definition Metadata_decode (reader password : bytes) : outcome (result VersionError (Metadata * bytes)) :=
  match read_exact 6 reader with
  | Err e => Ret (Err e)
  | Ok (header, reader) =>
      if negb (bool_decide (take 4 header = PREAMBLE)) then Ret (Err InvalidPreamble)
      else
        let len := Z.to_nat (from_be_bytes (drop 4 header)) in
        if (len <? SIGNATURE_SIZE)%nat then Ret (Err TooShort)
        else
          match read_exact len reader with
          | Err e => Ret (Err e)
          | Ok (body, reader) =>
              let sig_bytes := drop (len - SIGNATURE_SIZE) body in
              let fields := take (len - SIGNATURE_SIZE) body in
              match parse_fields (S (length fields)) fields Metadata_default with
              | Err e => Ret (Err e)
              | Ok meta =>
                  hash ← blake2b_hash (md_public_key meta) password;
                  Ret (m ← verify_metadata meta hash sig_bytes; Ok (m, reader))
              end
          end
  end.
End Handshake.

(** ** Fields, one after the other *)

(** A tagged field as it is sent. *)
Definition tlv (f : Z * bytes) : bytes := to_be_bytes 2 f.1 ++ to_be_bytes 2 (Z.of_nat (length f.2)) ++ f.2.
Definition field_wf (f : Z * bytes) : Prop := is_u16 f.1 /\ is_u16 (Z.of_nat (length f.2)).

(** The reference: fields are applied in order, a bad one ends the parse. *)
Fixpoint apply_fields (meta : Metadata) (fs : list (Z * bytes)) : result VersionError Metadata :=
  match fs with
  | [] => Ok meta
  | (id, field) :: fs => meta ← apply_field meta id field; apply_fields meta fs
  end.

Lemma be_bytes_2 v : is_u16 v -> from_be_bytes (to_be_bytes 2 v) = v.
Proof. intros. by apply (from_to_be_bytes 2). Qed.

Lemma parse_fields_tlv fs meta fuel : Forall field_wf fs -> (length (concat (tlv <$> fs)) < fuel)%nat ->
  parse_fields fuel (concat (tlv <$> fs)) meta = apply_fields meta fs.
Proof.
  intros Hfs. revert meta fuel. induction Hfs as [|[id field] fs [Hid Hlen] _ IH]; intros meta [|fuel] Hf; try lia; [done|].
  change (concat (tlv <$> ((id, field) :: fs))) with
    ((to_be_bytes 2 id ++ to_be_bytes 2 (Z.of_nat (length field)) ++ field) ++ concat (tlv <$> fs)) in *.
  rewrite <- !app_assoc in *. cbn [parse_fields fst snd] in *.
  set (a := to_be_bytes 2 id) in *. set (c := to_be_bytes 2 (Z.of_nat (length field))) in *.
  assert (La : length a = 2%nat) by apply to_be_bytes_length. assert (Lc : length c = 2%nat) by apply to_be_bytes_length.
  set (rest := concat (tlv <$> fs)) in *. rewrite !length_app in Hf.
  destruct (Nat.leb_spec 4 (length (a ++ c ++ field ++ rest))) as [_|Hs]; [|rewrite !length_app in Hs; lia].
  replace (drop 4 (a ++ c ++ field ++ rest)) with (field ++ rest)
    by (rewrite app_assoc, drop_app_exact; [done|rewrite length_app; lia]).
  rewrite (take_app_exact a) by done. rewrite (drop_app_exact a) by done. rewrite (take_app_exact c) by done.
  unfold a, c. rewrite !be_bytes_2, Nat2Z.id by done.
  destruct (Nat.ltb_spec (length (field ++ rest)) (length field)) as [Hs|_]; [rewrite length_app in Hs; lia|].
  rewrite take_app_length, drop_app_length. cbn [apply_fields]. destruct (apply_field meta id field) as [m|e]; [|done].
  cbn [mbind result_bind]. apply IH. lia.
Qed.

Lemma apply_field_unknown meta id field : ~ (0 <= id <= 3) -> apply_field meta id field = Ok meta.
Proof.
  intros Hid. unfold apply_field, META_VERSION_MAJOR, META_VERSION_MINOR, META_PUBLIC_KEY, META_PRIORITY.
  destruct (Z.eqb_spec id 0), (Z.eqb_spec id 1), (Z.eqb_spec id 2), (Z.eqb_spec id 3); try lia; done.
Qed.

(** The fields [encode] writes. *)
Definition meta_fields (m : Metadata) : list (Z * bytes) :=
  [(META_VERSION_MAJOR, to_be_bytes 2 (md_major_ver m)); (META_VERSION_MINOR, to_be_bytes 2 (md_minor_ver m));
   (META_PUBLIC_KEY, md_public_key m); (META_PRIORITY, [md_priority m])].

Record Metadata_wf (m : Metadata) : Prop := {
  mw_major : is_u16 (md_major_ver m);
  mw_minor : is_u16 (md_minor_ver m);
  mw_key : key_wf (md_public_key m);
  mw_priority : is_u8 (md_priority m)
}.

Lemma meta_fields_wf m : Metadata_wf m -> Forall field_wf (meta_fields m).
Proof.
  intros [Hma Hmi [Hk _] Hp]. unfold field_wf, meta_fields, is_u16.
  repeat apply Forall_cons_2; try apply Forall_nil_2; cbn [fst snd]; rewrite ?to_be_bytes_length, ?Hk;
    unfold META_VERSION_MAJOR, META_VERSION_MINOR, META_PUBLIC_KEY, META_PRIORITY, PUBLIC_KEY_SIZE; simpl; lia.
Qed.

Lemma apply_meta_fields m d : Metadata_wf m -> apply_fields d (meta_fields m) = Ok m.
Proof.
  intros [Hma Hmi [Hk _] Hp].
  assert (F0 : forall d, apply_field d META_VERSION_MAJOR (to_be_bytes 2 (md_major_ver m))
    = Ok (d <| md_major_ver := md_major_ver m |>)).
  { intros. unfold apply_field. by rewrite to_be_bytes_length, be_bytes_2. }
  assert (F1 : forall d, apply_field d META_VERSION_MINOR (to_be_bytes 2 (md_minor_ver m))
    = Ok (d <| md_minor_ver := md_minor_ver m |>)).
  { intros. unfold apply_field. by rewrite to_be_bytes_length, be_bytes_2. }
  assert (F2 : forall d, apply_field d META_PUBLIC_KEY (md_public_key m) = Ok (d <| md_public_key := md_public_key m |>)).
  { intros. unfold apply_field. by rewrite Hk. }
  unfold meta_fields. cbn [apply_fields]. rewrite F0, bind_ok, F1, bind_ok, F2, bind_ok. by destruct m.
Qed.

Section HandshakeFacts.
Context `{Dalek} (blake2b512 : bytes -> bytes) (blake2b_mac512 : bytes -> bytes -> option bytes).

Abbreviation hash_of := (blake2b_hash blake2b512 blake2b_mac512) (only parsing).
Abbreviation decode := (Metadata_decode blake2b512 blake2b_mac512) (only parsing).

(** A message: header, fields and signature. *)
Definition message (fields sig : bytes) : bytes :=
  PREAMBLE ++ to_be_bytes 2 (Z.of_nat (length fields + length sig)) ++ fields ++ sig.

Lemma encode_message m sk password hash : Metadata_wf m -> length (sk_sign sk hash) = SIGNATURE_SIZE ->
  hash_of (md_public_key m) password = Ret hash ->
  Metadata_encode blake2b512 blake2b_mac512 m sk password
  = Ret (message (concat (tlv <$> meta_fields m)) (sk_sign sk hash)).
Proof.
  intros [_ _ [Hk _] _] Hs Hh. unfold Metadata_encode. rewrite Hh, ret_bind. f_equal. unfold message.
  set (sig := sk_sign sk hash) in *. set (fields := concat (tlv <$> meta_fields m)).
  assert (Hf : fields = to_be_bytes 2 META_VERSION_MAJOR ++ to_be_bytes 2 2 ++ to_be_bytes 2 (md_major_ver m)
    ++ to_be_bytes 2 META_VERSION_MINOR ++ to_be_bytes 2 2 ++ to_be_bytes 2 (md_minor_ver m)
    ++ to_be_bytes 2 META_PUBLIC_KEY ++ to_be_bytes 2 32 ++ md_public_key m
    ++ to_be_bytes 2 META_PRIORITY ++ to_be_bytes 2 1 ++ [md_priority m]).
  { unfold fields, meta_fields. rewrite !fmap_cons, fmap_nil. cbn [concat]. unfold tlv. cbn [fst snd].
    rewrite !to_be_bytes_length, Hk, <- !app_assoc. reflexivity. }
  match goal with |- take 4 ?x ++ _ = _ => replace x with (PREAMBLE ++ [0; 0] ++ fields ++ sig) end.
  2: { rewrite Hf, <- !app_assoc. done. }
  cbn [PREAMBLE app take drop]. rewrite drop_0. unfold PREAMBLE. cbn [app]. do 4 f_equal. f_equal.
  assert (Hl : length fields = 53%nat) by (rewrite Hf, !length_app, !to_be_bytes_length, Hk; done).
  cbn [length]. rewrite !length_app, Hl, Hs. done.
Qed.

(** Decoding a message: its fields are parsed, then the signature is checked. *)
Lemma decode_message fields sig rest password : length sig = SIGNATURE_SIZE ->
  is_u16 (Z.of_nat (length fields + length sig)) ->
  decode (message fields sig ++ rest) password =
    match parse_fields (S (length fields)) fields Metadata_default with
    | Err e => Ret (Err e)
    | Ok meta =>
        hash ← hash_of (md_public_key meta) password;
        Ret (m ← verify_metadata meta hash sig; Ok (m, rest))
    end.
Proof.
  intros Hs Hu. unfold Metadata_decode, message. set (len := (length fields + length sig)%nat) in *.
  set (c := to_be_bytes 2 (Z.of_nat len)). assert (Lc : length c = 2%nat) by apply to_be_bytes_length.
  rewrite <- !app_assoc.
  assert (H6 : read_exact 6 (PREAMBLE ++ c ++ fields ++ sig ++ rest) = Ok (PREAMBLE ++ c, fields ++ sig ++ rest)).
  { unfold read_exact. destruct (Nat.ltb_spec (length (PREAMBLE ++ c ++ fields ++ sig ++ rest)) 6) as [Hlt|_].
    - rewrite !length_app, Lc in Hlt. simpl in Hlt. lia.
    - rewrite app_assoc, take_app_exact, drop_app_exact by (rewrite length_app, Lc; done). done. }
  rewrite H6. rewrite (take_app_exact PREAMBLE) by done. rewrite bool_decide_eq_true_2 by done. cbn [negb].
  rewrite (drop_app_exact PREAMBLE) by done. unfold c. rewrite be_bytes_2, Nat2Z.id by done.
  destruct (Nat.ltb_spec len SIGNATURE_SIZE); [lia|].
  assert (Hb : read_exact len (fields ++ sig ++ rest) = Ok (fields ++ sig, rest)).
  { unfold read_exact. destruct (Nat.ltb_spec (length (fields ++ sig ++ rest)) len) as [Hlt|_].
    - rewrite !length_app in Hlt. lia.
    - rewrite app_assoc, take_app_exact, drop_app_exact by (rewrite length_app; done). done. }
  rewrite Hb. replace (len - SIGNATURE_SIZE)%nat with (length fields) by lia.
  by rewrite take_app_length, drop_app_length.
Qed.

Lemma verify_metadata_ok m hash sig m' : verify_metadata m hash sig = Ok m' ->
  m' = m /\ verify (md_public_key m) hash sig = true.
Proof.
  unfold verify_metadata, verify. destruct (signature_from_slice sig) as [s|]; [|done].
  destruct (is_public_key_valid (md_public_key m)); [|done]. cbn [negb].
  destruct (vk_from_bytes (md_public_key m)) as [vk|]; [|done]. destruct (vk_verify vk hash s); [|done]. by intros [= ->].
Qed.

Lemma verify_metadata_signed `{!DalekLaws} m sk hash : md_public_key m = sk_verifying_key_bytes sk ->
  verify_metadata m hash (sk_sign sk hash) = Ok m.
Proof.
  intros Hk. unfold verify_metadata. destruct (signed_verifies sk hash) as (vk & s & Hvk & Hs & Hv).
  by rewrite Hs, Hk, generated_key_valid, Hvk, Hv.
Qed.

Lemma apply_fields_app meta fs gs : apply_fields meta (fs ++ gs) = (m ← apply_fields meta fs; apply_fields m gs).
Proof.
  revert meta. induction fs as [|[id f] fs IH]; intros meta; [done|]. cbn [app apply_fields].
  destruct (apply_field meta id f); [|done]. cbn [mbind result_bind]. apply IH.
Qed.

Lemma apply_unknown meta fs : Forall (fun f => 3 < f.1) fs -> apply_fields meta fs = Ok meta.
Proof.
  induction 1 as [|[id f] fs Hid _ IH]; [done|]. simpl in Hid. cbn [apply_fields].
  by rewrite apply_field_unknown, bind_ok by lia.
Qed.

(** What is accepted ends in the key's signature. *)
Lemma decode_signed reader password m rest : decode reader password = Ret (Ok (m, rest)) ->
  exists before sig hash, reader = before ++ sig ++ rest /\ length sig = SIGNATURE_SIZE
    /\ hash_of (md_public_key m) password = Ret hash /\ verify (md_public_key m) hash sig = true.
Proof.
  unfold Metadata_decode. unfold read_exact at 1. destruct (_ <? 6)%nat; [done|].
  destruct (negb _); [done|]. set (len := Z.to_nat _). destruct (Nat.ltb_spec len SIGNATURE_SIZE); [done|].
  unfold read_exact. destruct (Nat.ltb_spec (length (drop 6 reader)) len) as [|Hlen]; [done|].
  set (body := take len (drop 6 reader)). assert (Lb : length body = len) by (unfold body; rewrite length_take; lia).
  destruct (parse_fields _ _ _) as [meta|e]; [|done]. destruct (hash_of (md_public_key meta) password) as [hash|] eqn:Hhash; [|done].
  rewrite ret_bind. intros [= Hv]. destruct (verify_metadata meta hash _) as [m'|e] eqn:Hver; [|done]. cbn [mbind result_bind] in Hv.
  injection Hv as <- <-. apply verify_metadata_ok in Hver as [-> Hver].
  exists (take 6 reader ++ take (len - SIGNATURE_SIZE) body), (drop (len - SIGNATURE_SIZE) body), hash. split_and!; [|rewrite length_drop; lia|done|done].
  rewrite <- app_assoc, (app_assoc (take _ body)), take_drop. unfold body. by rewrite take_drop, take_drop.
Qed.

(** With a password of accepted length the decoder returns. *)
Lemma hash_returns password data : (forall data, is_Some (blake2b_mac512 password data)) -> exists h, hash_of data password = Ret h.
Proof. intros Hpw. unfold blake2b_hash. case_bool_decide; [by eexists|]. destruct (Hpw data) as [h ->]. by exists h. Qed.

Lemma decode_returns reader password : (forall data, is_Some (blake2b_mac512 password data)) ->
  exists r, decode reader password = Ret r.
Proof.
  intros Hpw. unfold Metadata_decode. destruct (read_exact 6 reader) as [[header rd]|e]; [|by eexists].
  destruct (negb _); [by eexists|]. destruct (_ <? _)%nat; [by eexists|]. destruct (read_exact _ rd) as [[body rd']|e]; [|by eexists].
  destruct (parse_fields _ _ _) as [meta|e]; [|by eexists]. destruct (hash_returns password (md_public_key meta) Hpw) as [hash ->].
  by eexists.
Qed.

(** Reading a message from the stream and decoding it alone are the same. *)
Lemma read_exact_app n a b : length a = n -> read_exact n (a ++ b) = Ok (a, b).
Proof.
  intros <-. unfold read_exact. destruct (Nat.ltb_spec (length (a ++ b)) (length a)) as [Hlt|_]; [rewrite length_app in Hlt; lia|].
  by rewrite take_app_length, drop_app_length.
Qed.

Lemma decode_alone header body rest password : length header = 6%nat -> length body = Z.to_nat (from_be_bytes (drop 4 header)) ->
  decode (header ++ body ++ rest) password =
    (r ← decode (header ++ body) password; Ret (x ← r; Ok (x.1, rest))).
Proof.
  intros Hh Hb. unfold Metadata_decode. rewrite !(read_exact_app 6 header) by done.
  destruct (negb _); [done|]. destruct (_ <? _)%nat; [done|]. rewrite (read_exact_app _ body rest) by done.
  assert (Hr : read_exact (Z.to_nat (from_be_bytes (drop 4 header))) body = Ok (body, [])).
  { rewrite <- (app_nil_r body) at 1. by apply read_exact_app. }
  rewrite Hr. destruct (parse_fields _ _ _) as [meta|e]; [|done].
  destruct (blake2b_hash _ _ (md_public_key meta) password) as [hash|]; [|done]. cbn [mbind outcome_bind].
  by destruct (verify_metadata meta hash _).
Qed.

(** ** Properties *)

(** The handshake round trip. What a node encodes for its own key, the other
    side decodes to the same metadata under the same password, leaving exactly
    the bytes that follow on the stream; a newer node may add fields of its own,
    which are ignored, as long as the message fits its length field. *)
Theorem handshake_roundtrip `{!DalekLaws} m sk password hash extra rest
    (Hm : Metadata_wf m) (Hkey : md_public_key m = sk_verifying_key_bytes sk)
    (Hhash : hash_of (md_public_key m) password = Ret hash)
    (Hextra : Forall field_wf extra) (Hunknown : Forall (fun f => 3 < f.1) extra)
    (Hlen : Z.of_nat (length (concat (tlv <$> meta_fields m ++ extra))) + 64 < 2 ^ 16) :
  Metadata_encode blake2b512 blake2b_mac512 m sk password
    = Ret (message (concat (tlv <$> meta_fields m)) (sk_sign sk hash))
  /\ decode (message (concat (tlv <$> meta_fields m ++ extra)) (sk_sign sk hash) ++ rest) password
     = Ret (Ok (m, rest)).
Proof.
  destruct (signed_length sk hash) as [Hs _]. split; [by apply encode_message|].
  rewrite decode_message; [|done|rewrite Hs; unfold is_u16, SIGNATURE_SIZE; lia].
  rewrite parse_fields_tlv; [|apply Forall_app; split; [by apply meta_fields_wf|done]|lia].
  rewrite apply_fields_app, apply_meta_fields, bind_ok, apply_unknown by done.
  by rewrite Hhash, ret_bind, (verify_metadata_signed m sk).
Qed.

(** An accepted handshake is authenticated: whatever bytes arrive, if they
    are accepted, the key they announce is a valid key, and the last 64 bytes
    before the rest of the stream are its signature over the hash of that key
    under the password. With a password of accepted length the decoder never
    panics. *)
Theorem handshake_authenticated reader password
    (Hpw : forall data, is_Some (blake2b_mac512 password data)) :
  exists r, decode reader password = Ret r
    /\ match r with
       | Ok (m, rest) => exists before sig hash, reader = before ++ sig ++ rest /\ length sig = SIGNATURE_SIZE
           /\ hash_of (md_public_key m) password = Ret hash /\ verify (md_public_key m) hash sig = true
       | Err _ => True
       end.
Proof.
  destruct (decode_returns reader password Hpw) as [r Hr]. exists r. split; [done|].
  destruct r as [[m rest]|e]; [|done]. by apply decode_signed.
Qed.
End HandshakeFacts.

(** ** Witnesses *)

Definition toy_hash (data : bytes) : bytes := take 64 (data ++ replicate 64 0).
Definition toy_mac (password data : bytes) : option bytes :=
  if (length password <=? 64)%nat then Some (toy_hash (password ++ data)) else None.

Definition sample_metadata : Metadata := Metadata_new (toy_key 5) 3.

Lemma sample_metadata_wf : Metadata_wf sample_metadata.
Proof.
  split; [by apply (bool_decide_eq_true_1 _)..| |by apply (bool_decide_eq_true_1 _)].
  split; [done|]. apply Forall_replicate. by apply (bool_decide_eq_true_1 _).
Qed.

Lemma handshake_roundtrip_witness : exists bs,
  @Metadata_encode toy_dalek toy_hash toy_mac sample_metadata 5 [112; 119] = Ret bs
  /\ @Metadata_decode toy_dalek toy_hash toy_mac (bs ++ [1; 2]) [112; 119] = Ret (Ok (sample_metadata, [1; 2])).
Proof.
  destruct (@handshake_roundtrip toy_dalek toy_hash toy_mac toy_dalek_laws sample_metadata 5 [112; 119]
    (toy_hash ([112; 119] ++ toy_key 5)) [] [1; 2]) as [He Hd].
  - exact sample_metadata_wf.
  - reflexivity.
  - reflexivity.
  - constructor.
  - constructor.
  - vm_compute. reflexivity.
  - eexists. split; [exact He|]. rewrite app_nil_r in Hd. exact Hd.
Defined.

Lemma handshake_authenticated_witness :
  @Metadata_decode toy_dalek toy_hash toy_mac [109; 101; 116; 97; 0; 3; 1; 2; 3] [112] = Ret (Err TooShort)
  /\ exists r, @Metadata_decode toy_dalek toy_hash toy_mac [109; 101; 116; 97; 0; 3; 1; 2; 3] [112] = Ret r.
Proof.
  split; [reflexivity|].
  destruct (@handshake_authenticated toy_dalek toy_hash toy_mac [109; 101; 116; 97; 0; 3; 1; 2; 3] [112]) as (r & Hr & _).
  - intros data. by eexists.
  - exists r. exact Hr.
Defined.
