(* ===== verification/Firewall.v ===== *)
(** * Firewall: the stateful packet filter

    Models [crates/yggdrasil/src/firewall.rs]: the parser of IPv6 packets, the
    table of flows, [observe_outbound], [check_inbound] and the periodic
    collection. Subnets and their membership test come from the [ipnet] crate
    and are parameters. Indexing a packet out of range is a panic; times are
    nanoseconds. *)

From S2P Require Import Prelude.
From stdpp Require Import strings.
From stdpp Require Import options.
Open Scope Z_scope.

Definition PROTO_TCP : Z := 6.
Definition PROTO_UDP : Z := 17.
Definition PROTO_ICMPV6 : Z := 58.
Definition HOP_BY_HOP : Z := 0.
Definition ROUTING : Z := 43.
Definition FRAGMENT : Z := 44.
Definition DEST_OPTS : Z := 60.
Definition TCP_FLAG_FIN : Z := 1.
Definition TCP_FLAG_SYN : Z := 2.
Definition TCP_FLAG_RST : Z := 4.
Definition TCP_FLAG_ACK : Z := 16.
Definition ICMP_ECHO_REQUEST : Z := 128.
Definition ICMP_ECHO_REPLY : Z := 129.
Definition TCP_SYN_TIMEOUT : Z := 30000000000.
Definition TCP_ESTABLISHED_TIMEOUT : Z := 300000000000.
Definition TCP_CLOSE_TIMEOUT : Z := 10000000000.
Definition UDP_TIMEOUT : Z := 60000000000.
Definition ICMP_TIMEOUT : Z := 30000000000.

Record FlowKey := mkFlowKey {
  fk_proto : Z; fk_our_ip : bytes; fk_our_port : Z; fk_peer_ip : bytes; fk_peer_port : Z }.

#[export] Instance FlowKey_eq_dec : EqDecision FlowKey.
Proof. solve_decision. Defined.
#[export] Instance FlowKey_countable : Countable FlowKey.
Proof.
  refine (inj_countable' (fun k => (fk_proto k, fk_our_ip k, fk_our_port k, fk_peer_ip k, fk_peer_port k))
    (fun '(p, a, b, c, d) => mkFlowKey p a b c d) _). by intros [].
Defined.

Inductive TcpState := SynSent | Established | FinSeen | TcpClosed.

Record FlowEntry := mkFlowEntry { fe_last_seen : Z; fe_tcp_state : option TcpState }.

Definition flow_timeout (e : FlowEntry) (proto : Z) : Z :=
  if proto =? PROTO_TCP then
    match fe_tcp_state e with
    | Some SynSent => TCP_SYN_TIMEOUT
    | Some Established => TCP_ESTABLISHED_TIMEOUT
    | Some FinSeen | Some TcpClosed => TCP_CLOSE_TIMEOUT
    | None => TCP_SYN_TIMEOUT
    end
  else if proto =? PROTO_UDP then UDP_TIMEOUT
  else if proto =? PROTO_ICMPV6 then ICMP_TIMEOUT
  else UDP_TIMEOUT.

Record Parsed := mkParsed {
  pa_proto : Z; pa_src_ip : bytes; pa_dst_ip : bytes; pa_src_port : Z; pa_dst_port : Z;
  pa_tcp_flags : Z; pa_icmp_type : Z }.

Definition is_tracked (proto : Z) : bool :=
  (proto =? PROTO_TCP) || (proto =? PROTO_UDP) || (proto =? PROTO_ICMPV6).

Definition has_flag (flags flag : Z) : bool := negb (Z.land flags flag =? 0).

Definition advance_tcp (prev : option TcpState) (flags : Z) : TcpState :=
  if has_flag flags TCP_FLAG_RST then TcpClosed
  else if has_flag flags TCP_FLAG_FIN then FinSeen
  else
    let syn := has_flag flags TCP_FLAG_SYN in
    let ack := has_flag flags TCP_FLAG_ACK in
    match prev with
    | Some TcpClosed => TcpClosed
    | Some FinSeen => FinSeen
    | Some Established => Established
    | Some SynSent | None =>
        if ack && negb syn then Established
        else if syn && ack then Established
        else SynSent
    end.

(** ** The packet parser *)

(** [pkt[i]]. *)
Definition index (pkt : bytes) (i : nat) : outcome Z := unwrap (pkt !! i).

(** [u16::from_be_bytes([pkt[i], pkt[i + 1]])]. *)
Definition be_u16 (pkt : bytes) (i : nat) : outcome Z :=
  a ← index pkt i; b ← index pkt (i + 1); Ret (a * 256 + b).

(** The loop over extension headers, [n] rounds left: the protocol and the
    offset of its header. *)
Fixpoint walk_headers (n : nat) (pkt : bytes) (next : Z) (off : nat) : outcome (option (Z * nat)) :=
  match n with
  | O => Ret (Some (next, off))
  | S n =>
      if (next =? HOP_BY_HOP) || (next =? ROUTING) || (next =? DEST_OPTS) then
        if (length pkt <? off + 2)%nat then Ret None
        else
          nxt ← index pkt off;
          l ← index pkt (off + 1);
          let hdr_len := ((Z.to_nat l + 1) * 8)%nat in
          if (length pkt <? off + hdr_len)%nat then Ret None
          else walk_headers n pkt nxt (off + hdr_len)
      else if next =? FRAGMENT then
        if (length pkt <? off + 8)%nat then Ret None
        else
          frag_word ← be_u16 pkt (off + 2);
          let frag_offset := Z.shiftr frag_word 3 in
          if negb (frag_offset =? 0) then Ret None
          else
            nxt ← index pkt off;
            walk_headers n pkt nxt (off + 8)
      else Ret (Some (next, off))
  end.

Definition parse_transport (pkt : bytes) (proto : Z) (off : nat) : outcome (option (Z * Z * Z * Z)) :=
  if proto =? PROTO_TCP then
    if (length pkt <? off + 14)%nat then Ret None
    else
      src_port ← be_u16 pkt off;
      dst_port ← be_u16 pkt (off + 2);
      tcp_flags ← index pkt (off + 13);
      Ret (Some (src_port, dst_port, tcp_flags, 0))
  else if proto =? PROTO_UDP then
    if (length pkt <? off + 8)%nat then Ret None
    else
      src_port ← be_u16 pkt off;
      dst_port ← be_u16 pkt (off + 2);
      Ret (Some (src_port, dst_port, 0, 0))
  else if proto =? PROTO_ICMPV6 then
    if (length pkt <? off + 8)%nat then Ret None
    else
      icmp_type ← index pkt off;
      if (icmp_type =? ICMP_ECHO_REQUEST) || (icmp_type =? ICMP_ECHO_REPLY) then
        id ← be_u16 pkt (off + 4);
        Ret (Some (id, id, 0, icmp_type))
      else Ret (Some (0, 0, 0, icmp_type))
  else Ret None.

Definition parse (pkt : bytes) : outcome (option Parsed) :=
  if (length pkt <? 40)%nat then Ret None
  else
    b0 ← index pkt 0;
    if negb (Z.shiftr b0 4 =? 6) then Ret None
    else
      let src_ip := take 16 (drop 8 pkt) in
      let dst_ip := take 16 (drop 24 pkt) in
      next ← index pkt 6;
      hdr ← walk_headers 8 pkt next 40;
      match hdr with
      | None => Ret None
      | Some (proto, off) =>
          if negb (is_tracked proto) then Ret None
          else
            tr ← parse_transport pkt proto off;
            match tr with
            | None => Ret None
            | Some (src_port, dst_port, tcp_flags, icmp_type) =>
                Ret (Some (mkParsed proto src_ip dst_ip src_port dst_port tcp_flags icmp_type))
            end
      end.

(** ** The firewall *)

Section Firewall.
Context {Ipv6Net : Type} (net_contains : Ipv6Net -> bytes -> bool).

Record Firewall := mkFirewall {
  fw_enable : bool;
  fw_open_tcp : gset Z;
  fw_open_udp : gset Z;
  fw_open_all_for : list Ipv6Net;
  fw_allow_icmp_echo : bool;
  fw_table : gmap FlowKey FlowEntry
}.

#[export] Instance Firewall_eta : Settable Firewall := fun f =>
  mkFirewall (fw_enable f) (fw_open_tcp f) (fw_open_udp f) (fw_open_all_for f) (fw_allow_icmp_echo f) (fw_table f).

(** [FirewallConfig] and the networks [IpNet::from_str] may return. *)
Record FirewallConfig := mkFirewallConfig {
  fc_enable : bool; fc_open_tcp : list Z; fc_open_udp : list Z; fc_open_all_for : list string;
  fc_allow_icmp_echo : bool }.
Inductive IpNet := IpNetV4 | IpNetV6 (net : Ipv6Net).
Inductive FirewallError := InvalidSubnet (s : string) | Ipv4Subnet (s : string).

Fixpoint parse_subnets (from_str : string -> option IpNet) (l : list string) : result FirewallError (list Ipv6Net) :=
  match l with
  | [] => Ok []
  | s :: l =>
      net ← match from_str s with
            | None => Err (InvalidSubnet s)
            | Some IpNetV4 => Err (Ipv4Subnet s)
            | Some (IpNetV6 v6) => Ok v6
            end;
      rest ← parse_subnets from_str l;
      Ok (net :: rest)
  end.

Definition Firewall_new (from_str : string -> option IpNet) (cfg : FirewallConfig) : result FirewallError Firewall :=
  subnets ← parse_subnets from_str (fc_open_all_for cfg);
  Ok (mkFirewall (fc_enable cfg) (list_to_set (fc_open_tcp cfg)) (list_to_set (fc_open_udp cfg)) subnets
        (fc_allow_icmp_echo cfg) ∅).

Definition gc (fw : Firewall) (now : Z) : Firewall :=
  fw <| fw_table ::= filter (fun '(key, entry) => elapsed now (fe_last_seen entry) < flow_timeout entry (fk_proto key)) |>.

(** The update of an entry that both directions make. *)
Definition touch (p : Parsed) (now : Z) (e : FlowEntry) : FlowEntry :=
  mkFlowEntry now (if pa_proto p =? PROTO_TCP then Some (advance_tcp (fe_tcp_state e) (pa_tcp_flags p))
                   else fe_tcp_state e).

Definition outbound_key (p : Parsed) : FlowKey :=
  mkFlowKey (pa_proto p) (pa_src_ip p) (pa_src_port p) (pa_dst_ip p) (pa_dst_port p).
Definition inbound_key (p : Parsed) : FlowKey :=
  mkFlowKey (pa_proto p) (pa_dst_ip p) (pa_dst_port p) (pa_src_ip p) (pa_src_port p).

Definition observe_outbound (fw : Firewall) (pkt : bytes) (now : Z) : outcome Firewall :=
  p ← parse pkt;
  match p with
  | None => Ret fw
  | Some p =>
      if negb (is_tracked (pa_proto p)) then Ret fw
      else
        let key := outbound_key p in
        let fresh := mkFlowEntry now (if pa_proto p =? PROTO_TCP then Some SynSent else None) in
        let entry := default fresh (fw_table fw !! key) in
        Ret (fw <| fw_table ::= <[key := touch p now entry]> |>)
  end.

Definition check_inbound (fw : Firewall) (pkt : bytes) (now : Z) : outcome (bool * Firewall) :=
  p ← parse pkt;
  match p with
  | None => Ret (false, fw)
  | Some p =>
      if existsb (fun net => net_contains net (pa_src_ip p)) (fw_open_all_for fw) then Ret (true, fw)
      else if (pa_proto p =? PROTO_ICMPV6) && (1 <=? pa_icmp_type p) && (pa_icmp_type p <=? 4) then Ret (true, fw)
      else if (pa_proto p =? PROTO_ICMPV6) && (pa_icmp_type p =? ICMP_ECHO_REQUEST) && fw_allow_icmp_echo fw
      then Ret (true, fw)
      else
        let key := inbound_key p in
        match fw_table fw !! key with
        | Some entry => Ret (true, fw <| fw_table ::= <[key := touch p now entry]> |>)
        | None =>
            if pa_proto p =? PROTO_TCP then
              let is_syn := has_flag (pa_tcp_flags p) TCP_FLAG_SYN && negb (has_flag (pa_tcp_flags p) TCP_FLAG_ACK) in
              if is_syn && bool_decide (pa_dst_port p ∈ fw_open_tcp fw)
              then Ret (true, fw <| fw_table ::= <[key := mkFlowEntry now (Some SynSent)]> |>)
              else Ret (false, fw)
            else if pa_proto p =? PROTO_UDP then
              if bool_decide (pa_dst_port p ∈ fw_open_udp fw)
              then Ret (true, fw <| fw_table ::= <[key := mkFlowEntry now None]> |>)
              else Ret (false, fw)
            else Ret (false, fw)
        end
  end.
End Firewall.

Arguments Firewall : clear implicits.
Arguments IpNet : clear implicits.

(** ** The parser never panics *)

Lemma index_ok pkt i : (i < length pkt)%nat -> exists b, index pkt i = Ret b.
Proof. intros Hi. unfold index. destruct (lookup_lt_is_Some_2 pkt i Hi) as [b ->]. by exists b. Qed.

Lemma be_u16_ok pkt i : (i + 1 < length pkt)%nat -> exists w, be_u16 pkt i = Ret w.
Proof.
  intros Hi. unfold be_u16. destruct (index_ok pkt i) as [a ->]; [lia|]. rewrite ret_bind.
  destruct (index_ok pkt (i + 1)) as [b ->]; [done|]. by eexists.
Qed.

(** Runs one in-range read. *)
Ltac read_ok :=
  match goal with
  | |- context [be_u16 ?p ?i ≫= _] =>
      let b := fresh "w" in let E := fresh in destruct (be_u16_ok p i) as [b E]; [lia|rewrite E, ret_bind; cbv beta zeta; clear E]
  | |- context [index ?p ?i ≫= _] =>
      let b := fresh "b" in let E := fresh in destruct (index_ok p i) as [b E]; [lia|rewrite E, ret_bind; cbv beta zeta; clear E]
  end.

Lemma walk_headers_ok n pkt next off : exists r, walk_headers n pkt next off = Ret r.
Proof.
  revert next off. induction n as [|n IH]; intros next off; cbn [walk_headers]; [by eexists|].
  destruct (_ || _).
  - destruct (Nat.ltb_spec (length pkt) (off + 2)); [by eexists|]. do 2 read_ok. destruct (_ <? _)%nat; [by eexists|apply IH].
  - destruct (next =? FRAGMENT); [|by eexists]. destruct (Nat.ltb_spec (length pkt) (off + 8)); [by eexists|].
    read_ok. destruct (negb _); [by eexists|]. read_ok. apply IH.
Qed.

Lemma parse_transport_ok pkt proto off : exists r, parse_transport pkt proto off = Ret r.
Proof.
  unfold parse_transport. destruct (proto =? PROTO_TCP).
  - destruct (Nat.ltb_spec (length pkt) (off + 14)); [by eexists|]. do 3 read_ok. by eexists.
  - destruct (proto =? PROTO_UDP).
    + destruct (Nat.ltb_spec (length pkt) (off + 8)); [by eexists|]. do 2 read_ok. by eexists.
    + destruct (proto =? PROTO_ICMPV6); [|by eexists]. destruct (Nat.ltb_spec (length pkt) (off + 8)); [by eexists|].
      read_ok. destruct (_ || _); [|by eexists]. read_ok. by eexists.
Qed.

Lemma parse_ok pkt : exists r, parse pkt = Ret r.
Proof.
  unfold parse. destruct (Nat.ltb_spec (length pkt) 40); [by eexists|]. read_ok. destruct (negb _); [by eexists|]. read_ok.
  destruct (walk_headers_ok 8 pkt b0 40) as [[[proto off]|] ->]; rewrite ret_bind; [|by eexists].
  destruct (negb _); [by eexists|]. destruct (parse_transport_ok pkt proto off) as [[[[[sp dp] fl] ty]|] ->];
    rewrite ret_bind; by eexists.
Qed.

Lemma parse_tracked pkt p : parse pkt = Ret (Some p) -> is_tracked (pa_proto p) = true.
Proof.
  unfold parse. destruct (_ <? 40)%nat; [done|]. destruct (index pkt 0); [|done]. rewrite ret_bind.
  destruct (negb _); [done|]. destruct (index pkt 6); [|done]. rewrite ret_bind.
  destruct (walk_headers _ _ _ _) as [[[proto off]|]|]; rewrite ?ret_bind; try done.
  destruct (is_tracked proto) eqn:Ht; [|done]. cbn [negb].
  destruct (parse_transport _ _ _) as [[[[[sp dp] fl] ty]|]|]; rewrite ?ret_bind; try done. by intros [= <-].
Qed.

(** ** Histories *)

Inductive fw_event := FwOut (pkt : bytes) (now : Z) | FwIn (pkt : bytes) (now : Z) | FwGc (now : Z).

Definition event_time (ev : fw_event) : Z := match ev with FwOut _ t | FwIn _ t | FwGc t => t end.

Section History.
Context {Ipv6Net : Type} (net_contains : Ipv6Net -> bytes -> bool).
Implicit Types fw : Firewall Ipv6Net.

Definition fw_step fw (ev : fw_event) : outcome (Firewall Ipv6Net) :=
  match ev with
  | FwOut pkt now => observe_outbound fw pkt now
  | FwIn pkt now => res ← check_inbound net_contains fw pkt now; Ret (snd res)
  | FwGc now => Ret (gc fw now)
  end.

Fixpoint fw_run fw (evs : list fw_event) : outcome (Firewall Ipv6Net) :=
  match evs with
  | [] => Ret fw
  | ev :: evs => fw ← fw_step fw ev; fw_run fw evs
  end.

(** The rules of the configuration. *)
Definition open_source fw (p : Parsed) : Prop :=
  exists net, net ∈ fw_open_all_for fw /\ net_contains net (pa_src_ip p) = true.
Definition icmp_open fw (p : Parsed) : Prop :=
  pa_proto p = PROTO_ICMPV6
  /\ (1 <= pa_icmp_type p <= 4 \/ (pa_icmp_type p = ICMP_ECHO_REQUEST /\ fw_allow_icmp_echo fw = true)).
Definition open_port fw (p : Parsed) : Prop :=
  (pa_proto p = PROTO_TCP /\ has_flag (pa_tcp_flags p) TCP_FLAG_SYN = true
   /\ has_flag (pa_tcp_flags p) TCP_FLAG_ACK = false /\ pa_dst_port p ∈ fw_open_tcp fw)
  \/ (pa_proto p = PROTO_UDP /\ pa_dst_port p ∈ fw_open_udp fw).

(** A flow is known because this node sent a packet of it, or because an
    earlier packet of it came to an open port. *)
Definition flow_cause fw (evs : list fw_event) (key : FlowKey) : Prop :=
  (exists pkt now p, FwOut pkt now ∈ evs /\ parse pkt = Ret (Some p) /\ outbound_key p = key)
  \/ (exists pkt now p, FwIn pkt now ∈ evs /\ parse pkt = Ret (Some p) /\ inbound_key p = key /\ open_port fw p).

(** The static part of the state. *)
Definition same_rules fw fw' : Prop :=
  fw_open_tcp fw' = fw_open_tcp fw /\ fw_open_udp fw' = fw_open_udp fw
  /\ fw_open_all_for fw' = fw_open_all_for fw /\ fw_allow_icmp_echo fw' = fw_allow_icmp_echo fw.

(** How one event changes the rules and the table. *)
Lemma fw_step_spec fw ev : exists fw', fw_step fw ev = Ret fw' /\ same_rules fw fw'
  /\ forall key, is_Some (fw_table fw' !! key) -> is_Some (fw_table fw !! key) \/ flow_cause fw [ev] key.
Proof.
  destruct ev as [pkt now|pkt now|now]; simpl.
  - unfold observe_outbound. destruct (parse_ok pkt) as [[p|] Hp]; rewrite Hp, ret_bind; [|by eexists; split_and!; auto].
    destruct (negb _); [by eexists; split_and!; auto|]. eexists. split_and!; try done.
    intros key. simpl. intros Hk. destruct (decide (outbound_key p = key)) as [He|Hne].
    + right. left. exists pkt, now, p. split_and!; [by left|done|done].
    + left. by rewrite lookup_insert_ne in Hk.
  - unfold check_inbound. destruct (parse_ok pkt) as [[p|] Hp]; rewrite Hp, !ret_bind; [|by eexists; split_and!; auto].
    destruct (existsb _ _); [rewrite ret_bind; by eexists; split_and!; auto|].
    destruct (_ && _ && _); [rewrite ret_bind; by eexists; split_and!; auto|].
    destruct (_ && _ && _); [rewrite ret_bind; by eexists; split_and!; auto|].
    assert (Hins : forall e key, is_Some ((<[inbound_key p := e]> (fw_table fw)) !! key) ->
      inbound_key p = key \/ is_Some (fw_table fw !! key)).
    { intros e key Hk. destruct (decide (inbound_key p = key)); [by left|right]. by rewrite lookup_insert_ne in Hk. }
    destruct (fw_table fw !! inbound_key p) as [e|] eqn:He.
    { rewrite ret_bind. eexists. split_and!; try done. intros key Hk. left.
      apply Hins in Hk as [<-|?]; [by rewrite He|done]. }
    destruct (pa_proto p =? PROTO_TCP) eqn:Htcp.
    + destruct (_ && bool_decide _) eqn:Hopen; rewrite ret_bind; [|by eexists; split_and!; auto].
      eexists. split_and!; try done. intros key Hk. apply Hins in Hk as [<-|?]; [right|by left].
      right. exists pkt, now, p. split_and!; [by left|done|done|]. left.
      apply andb_true_iff in Hopen as [[Hs Ha]%andb_true_iff Ho%bool_decide_eq_true].
      apply Z.eqb_eq in Htcp. apply negb_true_iff in Ha. done.
    + destruct (pa_proto p =? PROTO_UDP) eqn:Hudp; [|rewrite ret_bind; by eexists; split_and!; auto].
      case_bool_decide as Hopen; rewrite ret_bind; [|by eexists; split_and!; auto].
      eexists. split_and!; try done. intros key Hk. apply Hins in Hk as [<-|?]; [right|by left].
      right. exists pkt, now, p. split_and!; [by left|done|done|]. right. by apply Z.eqb_eq in Hudp.
  - eexists. split_and!; try done. intros key [e He]. left. simpl in He. apply map_lookup_filter_Some in He as [He _]. by exists e.
Qed.

Lemma flow_cause_rules fw fw' evs key : same_rules fw fw' -> flow_cause fw' evs key -> flow_cause fw evs key.
Proof.
  intros (Ht & Hu & _ & _) [Hc|(pkt & now & p & Hin & Hp & Hk & Ho)]; [by left|right].
  exists pkt, now, p. split_and!; try done. unfold open_port in *. by rewrite Ht, Hu in Ho.
Qed.

Lemma flow_cause_mono fw evs evs' key : evs ⊆ evs' -> flow_cause fw evs key -> flow_cause fw evs' key.
Proof. intros Hs [(pkt & now & p & Hin & ?)|(pkt & now & p & Hin & ?)]; [left|right]; exists pkt, now, p; split; auto. Qed.

Lemma same_rules_trans fw1 fw2 fw3 : same_rules fw1 fw2 -> same_rules fw2 fw3 -> same_rules fw1 fw3.
Proof. intros (A1 & A2 & A3 & A4) (B1 & B2 & B3 & B4). unfold same_rules. by rewrite B1, B2, B3, B4. Qed.

(** A whole history runs, keeps the rules, and every flow in the table was
    there before or has a cause in the history. *)
Lemma fw_run_spec evs fw : exists fw', fw_run fw evs = Ret fw' /\ same_rules fw fw'
  /\ forall key, is_Some (fw_table fw' !! key) -> is_Some (fw_table fw !! key) \/ flow_cause fw evs key.
Proof.
  revert fw. induction evs as [|ev evs IH]; intros fw; cbn [fw_run].
  { exists fw. split_and!; [done|by repeat split|by left]. }
  destruct (fw_step_spec fw ev) as (fw1 & -> & Hr1 & Ht1). rewrite ret_bind.
  destruct (IH fw1) as (fw2 & -> & Hr2 & Ht2). exists fw2. split_and!; [done|by eapply same_rules_trans|].
  intros key [Hk|Hc]%Ht2.
  - apply Ht1 in Hk as [Hk|Hc]; [by left|right]. eapply flow_cause_mono; [|done]. set_solver.
  - right. eapply flow_cause_mono; [|by eapply flow_cause_rules]. set_solver.
Qed.

(** What one decision depends on. *)
Lemma check_inbound_spec fw pkt now : exists ok fw', check_inbound net_contains fw pkt now = Ret (ok, fw')
  /\ (ok = true <-> exists p, parse pkt = Ret (Some p)
        /\ (open_source fw p \/ icmp_open fw p \/ open_port fw p \/ is_Some (fw_table fw !! inbound_key p))).
Proof.
  unfold check_inbound. destruct (parse_ok pkt) as [[p|] Hp]; rewrite Hp, ret_bind.
  2:{ do 2 eexists. split; [done|]. split; [done|by intros (? & ? & _)]. }
  assert (Hiff : forall b (fw' : Firewall Ipv6Net) (P : Prop),
    (b = true <-> P) -> (P <-> open_source fw p \/ icmp_open fw p \/ open_port fw p \/ is_Some (fw_table fw !! inbound_key p)) ->
    exists ok fw'', Ret (b, fw') = Ret (ok, fw'') /\ (ok = true <-> exists p', Ret (Some p) = Ret (Some p')
      /\ (open_source fw p' \/ icmp_open fw p' \/ open_port fw p' \/ is_Some (fw_table fw !! inbound_key p')))).
  { intros b fw' P Hb HP. exists b, fw'. split; [done|]. rewrite Hb, HP. split; [by exists p|by intros (? & [= <-] & ?)]. }
  destruct (existsb _ _) eqn:Hsrc.
  { eapply (Hiff _ _ True); [done|]. split; [intros _; left|done]. apply existsb_exists in Hsrc as (net & Hn & Hc).
    exists net. split; [by apply list_elem_of_In|done]. }
  assert (Hns : ~ open_source fw p).
  { intros (net & Hn & Hc). apply list_elem_of_In in Hn.
    assert (existsb (fun net => net_contains net (pa_src_ip p)) (fw_open_all_for fw) = true) as Ht; [|by rewrite Ht in Hsrc].
    apply existsb_exists. by exists net. }
  destruct ((pa_proto p =? PROTO_ICMPV6) && (1 <=? pa_icmp_type p) && (pa_icmp_type p <=? 4)) eqn:Herr.
  { eapply (Hiff _ _ True); [done|]. split; [intros _; right; left|done]. unfold icmp_open. lia. }
  destruct (_ && _ && fw_allow_icmp_echo fw) eqn:Hecho.
  { eapply (Hiff _ _ True); [done|]. split; [intros _; right; left|done].
    apply andb_true_iff in Hecho as [Hecho Hallow]. split; [lia|right; split; [lia|done]]. }
  assert (Hni : ~ icmp_open fw p).
  { intros [H1 [H2|[H2 H3]]]; [lia|]. rewrite H1, H2, H3 in Hecho. done. }
  destruct (fw_table fw !! inbound_key p) as [e|] eqn:He.
  { eapply (Hiff _ _ True); [done|]. split; [intros _; do 3 right; eauto|done]. }
  assert (Hrest : forall P, (P <-> open_port fw p) ->
    (P <-> open_source fw p \/ icmp_open fw p \/ open_port fw p \/ is_Some (None : option FlowEntry))).
  { intros P ->. split; [by auto|]. intros [?|[?|[?|[? ?]]]]; done. }
  destruct (Z.eqb_spec (pa_proto p) PROTO_TCP) as [Htcp|Htcp].
  - destruct (_ && bool_decide _) eqn:Hopen.
    + eapply (Hiff _ _ True); [done|]. apply Hrest. split; [|done]. intros _. left.
      apply andb_true_iff in Hopen as [[Hs Ha]%andb_true_iff Ho%bool_decide_eq_true]. apply negb_true_iff in Ha. done.
    + eapply (Hiff _ _ False); [done|]. apply Hrest. split; [done|]. intros [(_ & Hs & Ha & Ho)|[Hu _]].
      * rewrite Hs, Ha, bool_decide_true in Hopen by done. done.
      * rewrite Htcp in Hu. done.
  - destruct (Z.eqb_spec (pa_proto p) PROTO_UDP) as [Hudp|Hudp].
    + case_bool_decide as Hopen.
      * eapply (Hiff _ _ True); [done|]. apply Hrest. split; [intros _; by right|done].
      * eapply (Hiff _ _ False); [done|]. apply Hrest. split; [done|]. intros [(? & _)|[_ ?]]; done.
    + eapply (Hiff _ _ False); [done|]. apply Hrest. split; [done|]. intros [(? & _)|[? _]]; done.
Qed.

(** ** Return traffic *)

(** Every time-out is at least the shortest one. *)
Lemma flow_timeout_min e proto : TCP_CLOSE_TIMEOUT <= flow_timeout e proto.
Proof. unfold flow_timeout. repeat case_match; done. Qed.

(** [key] is in the table and was used at [t] or later. *)
Definition fresh_since (t : Z) (key : FlowKey) fw : Prop :=
  exists e, fw_table fw !! key = Some e /\ t <= fe_last_seen e.

(** An event that may not collect flows used at [t]. *)
Definition keeps_since (t : Z) (ev : fw_event) : Prop :=
  t <= event_time ev /\ match ev with FwGc now => now < t + TCP_CLOSE_TIMEOUT | _ => True end.

#[export] Instance keeps_since_dec t ev : Decision (keeps_since t ev).
Proof. unfold keeps_since. destruct ev; apply _. Defined.

Lemma fresh_insert t key key' e fw :
  t <= fe_last_seen e -> fresh_since t key fw -> fresh_since t key (fw <| fw_table ::= <[key' := e]> |>).
Proof.
  intros Ht (e0 & H0 & H1). unfold fresh_since. simpl. destruct (decide (key' = key)) as [->|Hne].
  - exists e. by rewrite lookup_insert_eq.
  - exists e0. by rewrite lookup_insert_ne.
Qed.

Lemma fresh_step t key ev fw fw' :
  keeps_since t ev -> fresh_since t key fw -> fw_step fw ev = Ret fw' -> fresh_since t key fw'.
Proof.
  intros [Ht Hgc] Hf. destruct ev as [pkt now|pkt now|now]; simpl in *.
  - unfold observe_outbound. destruct (parse_ok pkt) as [[p|] ->]; rewrite ret_bind; [|by intros [= <-]].
    destruct (negb _); intros [= <-]; [done|]. by apply fresh_insert.
  - unfold check_inbound. destruct (parse_ok pkt) as [[p|] ->]; rewrite ret_bind; [|by intros [= <-]].
    repeat (case_match; try by intros [= <-]); intros [= <-]; by apply fresh_insert.
  - intros [= <-]. destruct Hf as (e & He & Hl). exists e. split; [|done]. simpl. apply map_lookup_filter_Some.
    split; [done|]. pose proof (flow_timeout_min e (fk_proto key)). unfold elapsed. lia.
Qed.

Lemma fresh_run t key evs fw :
  Forall (keeps_since t) evs -> fresh_since t key fw -> exists fw', fw_run fw evs = Ret fw' /\ fresh_since t key fw'.
Proof.
  intros Hevs. revert fw. induction Hevs as [|ev evs Hev Hevs IH]; intros fw Hf; cbn [fw_run]; [by eauto|].
  destruct (fw_step_spec fw ev) as (fw1 & Hs & _). rewrite Hs, ret_bind. by eapply IH, fresh_step.
Qed.

(** ** Claims *)

(** C29: Inbound packets are admitted exactly by the rules. Starting from an
    empty flow table, any history of outbound packets, inbound packets and
    collections runs without a panic; afterwards, whatever bytes arrive,
    [check_inbound] answers, and it answers "accept" exactly when the packet
    parses and its source is in an open subnet, or it is an ICMPv6 error or an
    allowed echo request, or it goes to an open port (TCP: a SYN without ACK),
    or its flow is in the table; and a flow is in the table only if this node
    sent a packet of it, or an earlier packet of it arrived at an open port. *)
Theorem inbound_admission fw0 evs :
  fw_table fw0 = ∅ ->
  exists fw, fw_run fw0 evs = Ret fw
    /\ (forall pkt now, exists ok fw', check_inbound net_contains fw pkt now = Ret (ok, fw')
          /\ (ok = true <-> exists p, parse pkt = Ret (Some p)
                /\ (open_source fw0 p \/ icmp_open fw0 p \/ open_port fw0 p \/ is_Some (fw_table fw !! inbound_key p))))
    /\ (forall key, is_Some (fw_table fw !! key) -> flow_cause fw0 evs key).
Proof.
  intros He. destruct (fw_run_spec evs fw0) as (fw & Hr & (R1 & R2 & R3 & R4) & Ht). exists fw. split_and!; [done| |].
  - intros pkt now. destruct (check_inbound_spec fw pkt now) as (ok & fw' & Hc & Hok). exists ok, fw'. split; [done|].
    rewrite Hok. unfold open_source, icmp_open, open_port. by rewrite R1, R2, R3, R4.
  - intros key [Hk|Hc]%Ht; [|done]. rewrite He in Hk. destruct Hk as [? Hk]. by rewrite lookup_empty in Hk.
Qed.

(** Return traffic comes back. After this node sent a packet at time [t0],
    and whatever packets pass in either direction later, an inbound packet of
    the same flow is accepted as long as no collection ran
    [TCP_CLOSE_TIMEOUT] (the shortest time-out) or more after [t0]. *)
Theorem return_traffic fw0 pkt p t0 evs pkt' p' now :
  parse pkt = Ret (Some p) ->
  parse pkt' = Ret (Some p') ->
  inbound_key p' = outbound_key p ->
  Forall (keeps_since t0) evs ->
  exists fw fw', fw_run fw0 (FwOut pkt t0 :: evs) = Ret fw /\ check_inbound net_contains fw pkt' now = Ret (true, fw').
Proof.
  intros Hp Hp' Hk Hevs. cbn [fw_run fw_step]. unfold observe_outbound. rewrite Hp, !ret_bind, (parse_tracked _ _ Hp).
  cbn [negb]. rewrite ret_bind.
  destruct (fresh_run t0 (outbound_key p) evs _ Hevs : fresh_since t0 (outbound_key p) (fw0 <| fw_table ::= <[outbound_key p :=
    touch p t0 (default (mkFlowEntry t0 (if pa_proto p =? PROTO_TCP then Some SynSent else None)) (fw_table fw0 !! outbound_key p))]> |>) -> _)
    as (fw & Hrun & e & He & _).
  { eexists. split; [apply lookup_insert_eq|simpl; lia]. }
  destruct (check_inbound_spec fw pkt' now) as (ok & fw' & Hc & Hok). exists fw, fw'. split; [exact Hrun|].
  rewrite Hc. destruct Hok as [_ Hok]. rewrite Hok; [done|]. exists p'. split; [done|]. do 3 right. rewrite Hk, He. by eexists.
Qed.
End History.

(** ** Witnesses *)

(** A UDP packet from [a]:[sp] to [b]:[dp] (addresses of sixteen equal bytes). *)
Definition udp_packet (a b sp dp : Z) : bytes :=
  [96; 0; 0; 0; 0; 8; 17; 64] ++ replicate 16 a ++ replicate 16 b ++ [0; sp; 0; dp; 0; 8; 0; 0].

Definition example_firewall : Firewall Z := mkFirewall true ∅ {[ 53 ]} [] false ∅.

Lemma inbound_admission_witness : fw_table example_firewall = ∅ /\ exists fw,
  fw_run (fun _ _ => false) example_firewall [FwOut (udp_packet 1 2 3 4) 0; FwIn (udp_packet 9 1 7 53) 5; FwGc 8] = Ret fw.
Proof.
  split; [reflexivity|].
  destruct (inbound_admission (fun _ _ => false) example_firewall
    [FwOut (udp_packet 1 2 3 4) 0; FwIn (udp_packet 9 1 7 53) 5; FwGc 8] eq_refl) as (fw & H & _).
  exists fw. exact H.
Defined.

Lemma return_traffic_witness : exists fw fw',
  fw_run (fun _ _ => false) example_firewall [FwOut (udp_packet 1 2 3 4) 0; FwIn (udp_packet 9 1 7 53) 5; FwGc 8] = Ret fw
  /\ check_inbound (fun _ _ => false) fw (udp_packet 2 1 4 3) 100 = Ret (true, fw').
Proof.
  eapply (return_traffic (fun _ _ => false) example_firewall (udp_packet 1 2 3 4) _ 0
    [FwIn (udp_packet 9 1 7 53) 5; FwGc 8] (udp_packet 2 1 4 3) _ 100).
  - vm_compute. reflexivity.
  - vm_compute. reflexivity.
  - reflexivity.
  - apply (bool_decide_eq_true_1 _). vm_compute. reflexivity.
Defined.
