(* ===== verification/Session.v ===== *)
(** * Session: encrypted sessions

    Models [crates/ironwood/src/encrypted/crypto.rs] and
    [encrypted/session.rs]: the handshake messages, the three-tier key ratchet
    of a session, and the session manager. The crypto_box, sha2 and
    curve25519-dalek crates are outside the repository: their operations are the
    class [CryptoBox], and what is relied on is the class [BoxLaws]. Random keys
    are a stream [os_rng] whose position is passed along. [now] is the
    monotonic clock in nanoseconds, [unix] the wall clock in seconds.
    Arithmetic wraps as in a release build. A handler of the manager runs as
    one step; the phases that the code runs under separate locks are separate
    definitions on [SessionInfo]. *)

From S2P Require Import Prelude.
From S2P Require Import Wire.
From S2P Require Import Crypto.
From stdpp Require Import options.
Open Scope Z_scope.

Abbreviation CurvePublicKey := (list Z) (only parsing).
Abbreviation CurvePrivateKey := (list Z) (only parsing).

Class CryptoBox `{Dalek} := {
  SalsaBox : Type;
  SalsaBox_new : CurvePublicKey -> CurvePrivateKey -> SalsaBox;
  salsa_encrypt : SalsaBox -> bytes -> bytes -> option bytes;
  salsa_decrypt : SalsaBox -> bytes -> bytes -> option bytes;
  box_public_key : CurvePrivateKey -> CurvePublicKey;
  to_montgomery : EdwardsPoint -> CurvePublicKey;
  sk_to_bytes : SigningKey -> bytes;
  sha256 : bytes -> bytes;
  sha512 : bytes -> bytes;
  os_rng : nat -> CurvePrivateKey
}.

Definition BOX_OVERHEAD : nat := 16.
Definition BOX_NONCE_SIZE : nat := 24.

(** [b"ironwood/encrypted\x00"]. *)
Definition group_auth_domain : bytes :=
  [105; 114; 111; 110; 119; 111; 111; 100; 47; 101; 110; 99; 114; 121; 112; 116; 101; 100; 0].

Definition nonce_for_u64 (value : Z) : bytes := replicate 16 0 ++ to_be_bytes 8 value.

Definition SESSION_TRAFFIC_OVERHEAD_MIN : nat := (1 + 1 + 1 + 1 + BOX_OVERHEAD + 32)%nat.
Definition SESSION_TRAFFIC_OVERHEAD : nat := (SESSION_TRAFFIC_OVERHEAD_MIN + 9 + 9 + 9)%nat.
Definition SESSION_INIT_SIZE : nat := (1 + 32 + BOX_OVERHEAD + 64 + 32 + 32 + 8 + 8)%nat.
Definition SESSION_TYPE_DUMMY : Z := 0.
Definition SESSION_TYPE_INIT : Z := 1.
Definition SESSION_TYPE_ACK : Z := 2.
Definition SESSION_TYPE_TRAFFIC : Z := 3.

(** [b"\0ygg-ka"] and [b"\0ygg-ka-ack"]. *)
Definition KEEPALIVE_PROBE : bytes := [0; 121; 103; 103; 45; 107; 97].
Definition KEEPALIVE_ACK : bytes := [0; 121; 103; 103; 45; 107; 97; 45; 97; 99; 107].

Section Primitives.
Context `{CryptoBox}.

Record GroupAuth := mkGroupAuth { ga_secret : option bytes }.

Definition GroupAuth_new (password : bytes) : GroupAuth :=
  match password with
  | [] => mkGroupAuth None
  | _ => mkGroupAuth (Some (sha256 (group_auth_domain ++ password)))
  end.

Definition preimage (g : GroupAuth) : bytes := default [] (ga_secret g).

Definition ed25519_private_to_curve25519 (sk : SigningKey) : CurvePrivateKey := take 32 (sha512 (sk_to_bytes sk)).

Definition ed25519_public_to_curve25519 (ed_pub : PublicKey) : option CurvePublicKey :=
  match decompress ed_pub with
  | Some edwards_point => Some (to_montgomery edwards_point)
  | None => None
  end.

Definition new_box_keys (rng : nat) : (CurvePublicKey * CurvePrivateKey) * nat :=
  let secret := os_rng rng in ((box_public_key secret, secret), S rng).

Definition make_salsa_box (their_pub : CurvePublicKey) (our_priv : CurvePrivateKey) : SalsaBox :=
  SalsaBox_new their_pub our_priv.

Definition box_seal_precomputed (msg : bytes) (nonce : Z) (salsa_box : SalsaBox) : option bytes :=
  salsa_encrypt salsa_box (nonce_for_u64 nonce) msg.

Definition box_open_precomputed (ciphertext : bytes) (nonce : Z) (salsa_box : SalsaBox) : option bytes :=
  salsa_decrypt salsa_box (nonce_for_u64 nonce) ciphertext.

Definition box_seal (msg : bytes) (nonce : Z) (their_pub : CurvePublicKey) (our_priv : CurvePrivateKey) : option bytes :=
  salsa_encrypt (make_salsa_box their_pub our_priv) (nonce_for_u64 nonce) msg.

Definition box_open (ciphertext : bytes) (nonce : Z) (their_pub : CurvePublicKey) (our_priv : CurvePrivateKey)
    : option bytes :=
  salsa_decrypt (make_salsa_box their_pub our_priv) (nonce_for_u64 nonce) ciphertext.

(** ** Handshake messages *)

Record SessionInit := mkSessionInit {
  in_current : CurvePublicKey; in_next : CurvePublicKey; in_key_seq : Z; in_seq : Z }.

Definition SessionInit_new (current next : CurvePublicKey) (key_seq unix : Z) : SessionInit :=
  mkSessionInit current next key_seq unix.

(** The bytes of the fields, as signed and as encrypted. *)
Definition init_fields (i : SessionInit) : bytes :=
  in_current i ++ in_next i ++ to_be_bytes 8 (in_key_seq i) ++ to_be_bytes 8 (in_seq i).

Definition SessionInit_encrypt (i : SessionInit) (our_ed_priv : SigningKey) (to_ed_pub : PublicKey)
    (msg_type : Z) (pre : bytes) (rng : nat) : result Error bytes * nat :=
  let '((from_pub, from_priv), rng) := new_box_keys rng in
  (to_box ← ok_or BadKey (ed25519_public_to_curve25519 to_ed_pub);
   let sig_bytes := from_pub ++ init_fields i in
   let sig := if bool_decide (pre = []) then sign_with_key our_ed_priv sig_bytes
              else sign_with_key our_ed_priv (pre ++ sig_bytes) in
   let payload := sig ++ init_fields i in
   ciphertext ← ok_or Encode (box_seal payload 0 to_box from_priv);
   Ok ([msg_type] ++ from_pub ++ ciphertext), rng).

Definition SessionInit_decrypt (data : bytes) (our_curve_priv : CurvePrivateKey) (from_ed_pub : PublicKey)
    (pre : bytes) : result Error SessionInit :=
  if negb (length data =? SESSION_INIT_SIZE)%nat then Err Decode
  else
    let from_box := take 32 (drop 1 data) in
    let ciphertext := drop 33 data in
    payload ← ok_or Decode (box_open ciphertext 0 from_box our_curve_priv);
    if negb (length payload =? 64 + 32 + 32 + 8 + 8)%nat then Err Decode
    else
      let sig := take 64 payload in
      let i := mkSessionInit (take 32 (drop 64 payload)) (take 32 (drop 96 payload))
                 (from_be_bytes (take 8 (drop 128 payload))) (from_be_bytes (take 8 (drop 136 payload))) in
      let sig_bytes := from_box ++ init_fields i in
      let verified := if bool_decide (pre = []) then verify from_ed_pub sig_bytes sig
                      else verify from_ed_pub (pre ++ sig_bytes) sig in
      if negb verified then Err BadMessage else Ok i.

(** ** Sessions *)

Record SessionInfo := mkSessionInfo {
  si_seq : Z;
  si_remote_key_seq : Z;
  si_current : CurvePublicKey;
  si_next : CurvePublicKey;
  si_local_key_seq : Z;
  si_recv_priv : CurvePrivateKey;
  si_recv_pub : CurvePublicKey;
  si_recv_shared : SalsaBox;
  si_recv_nonce : Z;
  si_send_priv : CurvePrivateKey;
  si_send_pub : CurvePublicKey;
  si_send_shared : SalsaBox;
  si_send_nonce : Z;
  si_next_priv : CurvePrivateKey;
  si_next_pub : CurvePublicKey;
  si_next_send_shared : SalsaBox;
  si_next_send_nonce : Z;
  si_next_recv_shared : SalsaBox;
  si_next_recv_nonce : Z;
  si_since : Z;
  si_rotated : option Z;
  si_last_activity : Z;
  si_rx : Z;
  si_tx : Z
}.

#[export] Instance SessionInfo_eta : Settable SessionInfo := fun s =>
  mkSessionInfo (si_seq s) (si_remote_key_seq s) (si_current s) (si_next s) (si_local_key_seq s)
    (si_recv_priv s) (si_recv_pub s) (si_recv_shared s) (si_recv_nonce s)
    (si_send_priv s) (si_send_pub s) (si_send_shared s) (si_send_nonce s) (si_next_priv s) (si_next_pub s)
    (si_next_send_shared s) (si_next_send_nonce s) (si_next_recv_shared s) (si_next_recv_nonce s)
    (si_since s) (si_rotated s) (si_last_activity s) (si_rx s) (si_tx s).

Definition SessionInfo_new (current next : CurvePublicKey) (seq now : Z) (rng : nat) : SessionInfo * nat :=
  let '((recv_pub, recv_priv), rng) := new_box_keys rng in
  let '((send_pub, send_priv), rng) := new_box_keys rng in
  let '((next_pub, next_priv), rng) := new_box_keys rng in
  (mkSessionInfo (wrap64 (seq - 1)) 0 current next 0
     recv_priv recv_pub (make_salsa_box current recv_priv) 0
     send_priv send_pub (make_salsa_box current send_priv) 0
     next_priv next_pub
     (make_salsa_box next send_priv) 0 (make_salsa_box next recv_priv) 0
     now None now 0 0, rng).

Definition fix_shared (s : SessionInfo) (recv_nonce send_nonce : Z) : SessionInfo :=
  s <| si_recv_shared := make_salsa_box (si_current s) (si_recv_priv s) |>
    <| si_send_shared := make_salsa_box (si_current s) (si_send_priv s) |>
    <| si_next_send_shared := make_salsa_box (si_next s) (si_send_priv s) |>
    <| si_next_recv_shared := make_salsa_box (si_next s) (si_recv_priv s) |>
    <| si_next_send_nonce := 0 |>
    <| si_next_recv_nonce := 0 |>
    <| si_recv_nonce := recv_nonce |>
    <| si_send_nonce := send_nonce |>.

(** The rotation of the local keys: receive with the sending key, send with
    the announced one, and announce a new one. *)
Definition rotate_local (s : SessionInfo) (rng : nat) : SessionInfo * nat :=
  let '((new_next_pub, new_next_priv), rng) := new_box_keys rng in
  (s <| si_recv_pub := si_send_pub s |> <| si_recv_priv := si_send_priv s |>
     <| si_send_pub := si_next_pub s |> <| si_send_priv := si_next_priv s |>
     <| si_next_pub := new_next_pub |> <| si_next_priv := new_next_priv |>
     <| si_local_key_seq := wrap64 (si_local_key_seq s + 1) |>, rng).

Definition handle_update (s : SessionInfo) (init : SessionInit) (now : Z) (rng : nat) : SessionInfo * nat :=
  let s := s <| si_current := in_current init |> <| si_next := in_next init |>
             <| si_seq := in_seq init |> <| si_remote_key_seq := in_key_seq init |> in
  let '(s, rng) := rotate_local s rng in
  ((fix_shared s 0 (si_send_nonce s)) <| si_last_activity := now |>, rng).

Record SendSnapshot := mkSendSnapshot {
  ss_local_key_seq : Z; ss_remote_key_seq : Z; ss_send_nonce : Z; ss_next_pub : CurvePublicKey;
  ss_send_shared : SalsaBox }.

Definition send_snapshot (s : SessionInfo) (rng : nat) : SendSnapshot * SessionInfo * nat :=
  let s := s <| si_send_nonce := wrap64 (si_send_nonce s + 1) |> in
  let '(s, rng) := if si_send_nonce s =? 0 then let '(s, rng) := rotate_local s rng in (fix_shared s 0 0, rng)
                   else (s, rng) in
  (mkSendSnapshot (si_local_key_seq s) (si_remote_key_seq s) (si_send_nonce s) (si_next_pub s) (si_send_shared s),
   s, rng).

Definition send_finalize (s : SessionInfo) (msg_len now : Z) : SessionInfo :=
  s <| si_tx := wrap64 (si_tx s + msg_len) |> <| si_last_activity := now |>.

Definition encrypt_outside_lock (snap : SendSnapshot) (msg : bytes) : result Error bytes :=
  let bs := [SESSION_TYPE_TRAFFIC] in
  let bs := encode_uvarint bs (ss_local_key_seq snap) in
  let bs := encode_uvarint bs (ss_remote_key_seq snap) in
  let bs := encode_uvarint bs (ss_send_nonce snap) in
  let inner := ss_next_pub snap ++ msg in
  ciphertext ← ok_or Encode (box_seal_precomputed inner (ss_send_nonce snap) (ss_send_shared snap));
  Ok (bs ++ ciphertext).

Definition do_send (s : SessionInfo) (msg : bytes) (now : Z) (rng : nat) : result Error bytes * SessionInfo * nat :=
  let '(snap, s, rng) := send_snapshot s rng in
  match encrypt_outside_lock snap msg with
  | Err e => (Err e, s, rng)
  | Ok data => (Ok data, send_finalize s (Z.of_nat (length msg)) now, rng)
  end.

Inductive DecryptCase := CurrentToRecv | NextToSend | NextToRecv.

Record RecvSnapshot := mkRecvSnapshot {
  rs_remote_key_seq : Z; rs_nonce : Z; rs_encrypted_offset : nat; rs_shared : SalsaBox; rs_case : DecryptCase }.

Inductive RecvSnapshotError :=
| SnapDrop
| SnapSendInit (send_pub next_pub : CurvePublicKey) (local_key_seq : Z).

Definition recv_snapshot (s : SessionInfo) (msg : bytes) : result RecvSnapshotError RecvSnapshot :=
  if (length msg <? SESSION_TRAFFIC_OVERHEAD_MIN)%nat || negb (hd 0 msg =? SESSION_TYPE_TRAFFIC) then Err SnapDrop
  else
    let offset := 1%nat in
    '(remote_key_seq, len) ← ok_or SnapDrop (decode_uvarint (drop offset msg));
    let offset := (offset + len)%nat in
    '(local_key_seq, len) ← ok_or SnapDrop (decode_uvarint (drop offset msg));
    let offset := (offset + len)%nat in
    '(nonce, len) ← ok_or SnapDrop (decode_uvarint (drop offset msg));
    let offset := (offset + len)%nat in
    let from_current := remote_key_seq =? si_remote_key_seq s in
    let from_next := remote_key_seq =? wrap64 (si_remote_key_seq s + 1) in
    let to_recv := wrap64 (local_key_seq + 1) =? si_local_key_seq s in
    let to_send := local_key_seq =? si_local_key_seq s in
    if from_current && to_recv then
      if negb (si_recv_nonce s <? nonce) then Err SnapDrop
      else Ok (mkRecvSnapshot (si_remote_key_seq s) nonce offset (si_recv_shared s) CurrentToRecv)
    else if from_next && to_send then
      if negb (si_next_send_nonce s <? nonce) then Err SnapDrop
      else Ok (mkRecvSnapshot (si_remote_key_seq s) nonce offset (si_next_send_shared s) NextToSend)
    else if from_next && to_recv then
      if negb (si_next_recv_nonce s <? nonce) then Err SnapDrop
      else Ok (mkRecvSnapshot (si_remote_key_seq s) nonce offset (si_next_recv_shared s) NextToRecv)
    else Err (SnapSendInit (si_send_pub s) (si_next_pub s) (si_local_key_seq s)).

Inductive RecvAction := RecvDrop | RecvSendInit.

Definition decrypt_outside_lock (snap : RecvSnapshot) (msg : bytes) : result RecvAction (bytes * bytes) :=
  unboxed ← ok_or RecvSendInit (box_open_precomputed (drop (rs_encrypted_offset snap) msg) (rs_nonce snap) (rs_shared snap));
  if (length unboxed <? 32)%nat then Err RecvDrop
  else Ok (drop 32 unboxed, take 32 unboxed).

Definition ROTATE_INTERVAL : Z := 60000000000.

Definition maybe_ratchet_on_recv (s : SessionInfo) (inner_key : CurvePublicKey) (nonce now : Z) (rng : nat)
    : SessionInfo * nat :=
  let should_rotate := match si_rotated s with None => true | Some t => ROTATE_INTERVAL <? elapsed now t end in
  if should_rotate then
    let s := s <| si_current := si_next s |> <| si_next := inner_key |>
               <| si_remote_key_seq := wrap64 (si_remote_key_seq s + 1) |> in
    let '(s, rng) := rotate_local s rng in
    ((fix_shared s nonce 0) <| si_rotated := Some now |>, rng)
  else (s, rng).

Definition recv_finalize (s : SessionInfo) (snap : RecvSnapshot) (inner_key : CurvePublicKey) (payload_len now : Z)
    (rng : nat) : SessionInfo * nat :=
  let stats s := s <| si_rx := wrap64 (si_rx s + payload_len) |> <| si_last_activity := now |> in
  if negb (si_remote_key_seq s =? rs_remote_key_seq snap) then (stats s, rng)
  else
    let '(s, rng) :=
      match rs_case snap with
      | CurrentToRecv => (s <| si_recv_nonce := rs_nonce snap |>, rng)
      | NextToSend => maybe_ratchet_on_recv (s <| si_next_send_nonce := rs_nonce snap |>) inner_key (rs_nonce snap) now rng
      | NextToRecv => maybe_ratchet_on_recv (s <| si_next_recv_nonce := rs_nonce snap |>) inner_key (rs_nonce snap) now rng
      end in
    (stats s, rng).

Definition is_expired (s : SessionInfo) (timeout now : Z) : bool := timeout <? elapsed now (si_last_activity s).

(** ** The manager *)

Record SessionBuffer := mkSessionBuffer {
  sb_data : option bytes; sb_init : SessionInit; sb_current_priv : CurvePrivateKey; sb_next_priv : CurvePrivateKey;
  sb_created : Z }.

Record SessionManager := mkSessionManager {
  sm_sessions : gmap PublicKey SessionInfo;
  sm_buffers : gmap PublicKey SessionBuffer;
  sm_group_auth : GroupAuth;
  sm_session_timeout : Z;
  sm_rng : nat
}.

#[export] Instance SessionManager_eta : Settable SessionManager := fun m =>
  mkSessionManager (sm_sessions m) (sm_buffers m) (sm_group_auth m) (sm_session_timeout m) (sm_rng m).

Definition SessionManager_new (group_auth : GroupAuth) (session_timeout : Z) (rng : nat) : SessionManager :=
  mkSessionManager ∅ ∅ group_auth session_timeout rng.

Inductive OutAction :=
| SendToInner (dest : PublicKey) (data : bytes)
| Deliver (source : PublicKey) (data : bytes).

(** [match init.encrypt(..) { Ok(data) => vec![SendToInner { .. }], Err(_) => Vec::new() }]. *)
Definition send_handshake (m : SessionManager) (init : SessionInit) (our_ed_priv : SigningKey) (to : PublicKey)
    (msg_type : Z) : list OutAction * SessionManager :=
  let '(r, rng) := SessionInit_encrypt init our_ed_priv to msg_type (preimage (sm_group_auth m)) (sm_rng m) in
  (match r with Ok data => [SendToInner to data] | Err _ => [] end, m <| sm_rng := rng |>).

Definition buffer_and_init (m : SessionManager) (dest : PublicKey) (msg : bytes) (our_ed_priv : SigningKey)
    (now unix : Z) : list OutAction * SessionManager :=
  let '(buf, rng) :=
    match sm_buffers m !! dest with
    | Some buf => (buf, sm_rng m)
    | None =>
        let '((current_pub, current_priv), rng) := new_box_keys (sm_rng m) in
        let '((next_pub, next_priv), rng) := new_box_keys rng in
        (mkSessionBuffer None (SessionInit_new current_pub next_pub 0 unix) current_priv next_priv now, rng)
    end in
  let buf := mkSessionBuffer (Some msg) (sb_init buf) (sb_current_priv buf) (sb_next_priv buf) (sb_created buf) in
  let m := m <| sm_buffers ::= <[dest := buf]> |> <| sm_rng := rng |> in
  send_handshake m (sb_init buf) our_ed_priv dest SESSION_TYPE_INIT.

Definition write_to (m : SessionManager) (dest : PublicKey) (msg : bytes) (our_ed_priv : SigningKey) (now unix : Z)
    : list OutAction * SessionManager :=
  match sm_sessions m !! dest with
  | Some info =>
      let '(snap, info, rng) := send_snapshot info (sm_rng m) in
      let m := m <| sm_sessions ::= <[dest := info]> |> <| sm_rng := rng |> in
      match encrypt_outside_lock snap msg with
      | Err _ => ([], m)
      | Ok traffic_data =>
          let info := send_finalize info (Z.of_nat (length msg)) now in
          ([SendToInner dest traffic_data], m <| sm_sessions ::= <[dest := info]> |>)
      end
  | None => buffer_and_init m dest msg our_ed_priv now unix
  end.

Definition create_session_from_init (m : SessionManager) (ed : PublicKey) (init : SessionInit) (now : Z)
    : (option bytes * SessionInfo) * SessionManager :=
  let '(info, rng) := SessionInfo_new (in_current init) (in_next init) (in_seq init) now (sm_rng m) in
  let m := m <| sm_rng := rng |> in
  match sm_buffers m !! ed with
  | Some buf =>
      let info := info <| si_send_pub := in_current (sb_init buf) |> <| si_send_priv := sb_current_priv buf |>
                       <| si_next_pub := in_next (sb_init buf) |> <| si_next_priv := sb_next_priv buf |> in
      ((sb_data buf, fix_shared info 0 0), m <| sm_buffers ::= delete ed |>)
  | None => ((None, info), m)
  end.

(** [if let Some(buf_data) = buffered_data { if let Ok(..) = info.do_send(..) { .. } }]. *)
Definition send_buffered (m : SessionManager) (to : PublicKey) (info : SessionInfo) (data : option bytes) (now : Z)
    : list OutAction * SessionInfo * SessionManager :=
  match data with
  | None => ([], info, m)
  | Some buf_data =>
      let '(r, info, rng) := do_send info buf_data now (sm_rng m) in
      (match r with Ok traffic_data => [SendToInner to traffic_data] | Err _ => [] end, info, m <| sm_rng := rng |>)
  end.

(** The announcement of a session's keys. *)
Definition session_init_of (info : SessionInfo) (unix : Z) : SessionInit :=
  SessionInit_new (si_send_pub info) (si_next_pub info) (si_local_key_seq info) unix.

Definition handle_init (m : SessionManager) (from : PublicKey) (init : SessionInit) (our_ed_priv : SigningKey)
    (now unix : Z) : list OutAction * SessionManager :=
  match sm_sessions m !! from with
  | Some info =>
      if in_seq init <=? si_seq info then ([], m)
      else
        let '(info, rng) := handle_update info init now (sm_rng m) in
        let m := m <| sm_sessions ::= <[from := info]> |> <| sm_rng := rng |> in
        send_handshake m (session_init_of info unix) our_ed_priv from SESSION_TYPE_ACK
  | None =>
      let '((buffered_data, info), m) := create_session_from_init m from init now in
      let ack_init := session_init_of info unix in
      let '(sent, info, m) := send_buffered m from info buffered_data now in
      let m := m <| sm_sessions ::= <[from := info]> |> in
      let '(acked, m) := send_handshake m ack_init our_ed_priv from SESSION_TYPE_ACK in
      (sent ++ acked, m)
  end.

Definition handle_ack (m : SessionManager) (from : PublicKey) (ack : SessionInit) (our_ed_priv : SigningKey)
    (now unix : Z) : list OutAction * SessionManager :=
  match sm_sessions m !! from with
  | Some info =>
      if in_seq ack >? si_seq info then
        let '(info, rng) := handle_update info ack now (sm_rng m) in
        ([], m <| sm_sessions ::= <[from := info]> |> <| sm_rng := rng |>)
      else ([], m)
  | None =>
      let '((buffered_data, info), m) := create_session_from_init m from ack now in
      let '(info, rng) := if in_seq ack >? si_seq info then handle_update info ack now (sm_rng m) else (info, sm_rng m) in
      let m := m <| sm_rng := rng |> in
      let '(acked, m) := send_handshake m (session_init_of info unix) our_ed_priv from SESSION_TYPE_ACK in
      let '(sent, info, m) := send_buffered m from info buffered_data now in
      (acked ++ sent, m <| sm_sessions ::= <[from := info]> |>)
  end.

Definition handle_traffic (m : SessionManager) (from : PublicKey) (data : bytes) (our_ed_priv : SigningKey)
    (now unix : Z) : list OutAction * SessionManager :=
  match sm_sessions m !! from with
  | None =>
      let '((current_pub, _), rng) := new_box_keys (sm_rng m) in
      let '((next_pub, _), rng) := new_box_keys rng in
      send_handshake (m <| sm_rng := rng |>) (SessionInit_new current_pub next_pub 0 unix) our_ed_priv from SESSION_TYPE_INIT
  | Some info =>
      match recv_snapshot info data with
      | Err (SnapSendInit send_pub next_pub local_key_seq) =>
          send_handshake m (SessionInit_new send_pub next_pub local_key_seq unix) our_ed_priv from SESSION_TYPE_INIT
      | Err SnapDrop => ([], m)
      | Ok snap =>
          match decrypt_outside_lock snap data with
          | Err RecvSendInit => send_handshake m (session_init_of info unix) our_ed_priv from SESSION_TYPE_INIT
          | Err RecvDrop => ([], m)
          | Ok (payload, inner_key) =>
              let '(info, rng) := recv_finalize info snap inner_key (Z.of_nat (length payload)) now (sm_rng m) in
              let m := m <| sm_sessions ::= <[from := info]> |> <| sm_rng := rng |> in
              if bool_decide (payload = []) || bool_decide (payload = KEEPALIVE_ACK) then ([], m)
              else if bool_decide (payload = KEEPALIVE_PROBE) then write_to m from KEEPALIVE_ACK our_ed_priv now unix
              else ([Deliver from payload], m)
          end
      end
  end.

Definition handle_data (m : SessionManager) (from : PublicKey) (data : bytes) (our_curve_priv : CurvePrivateKey)
    (our_ed_priv : SigningKey) (now unix : Z) : list OutAction * SessionManager :=
  match data with
  | [] => ([], m)
  | t :: _ =>
      if t =? SESSION_TYPE_DUMMY then ([], m)
      else if t =? SESSION_TYPE_INIT then
        match SessionInit_decrypt data our_curve_priv from (preimage (sm_group_auth m)) with
        | Ok init => handle_init m from init our_ed_priv now unix
        | Err _ => ([], m)
        end
      else if t =? SESSION_TYPE_ACK then
        match SessionInit_decrypt data our_curve_priv from (preimage (sm_group_auth m)) with
        | Ok ack => handle_ack m from ack our_ed_priv now unix
        | Err _ => ([], m)
        end
      else if t =? SESSION_TYPE_TRAFFIC then handle_traffic m from data our_ed_priv now unix
      else ([], m)
  end.

Definition sm_cleanup_expired (m : SessionManager) (now : Z) : SessionManager :=
  m <| sm_sessions ::= filter (fun '(_, info) => negb (is_expired info (sm_session_timeout m) now)) |>
    <| sm_buffers ::= filter (fun '(_, buf) => elapsed now (sb_created buf) < sm_session_timeout m) |>.

Definition has_session (m : SessionManager) (key : PublicKey) : bool := bool_decide (is_Some (sm_sessions m !! key)).
End Primitives.
