(* ===== verification/SessionFacts.v ===== *)
(** * SessionFacts: the handshake and the wire format of sessions

    The laws of the box cipher that sessions rely on ([BoxLaws]), a small
    instance of them, and the theorems on [encrypted/session.rs] that concern
    one message or one session: handshake messages round trip and are
    authenticated, traffic messages fit their overhead, nonces are not reused,
    replays are rejected between two handshakes. *)

From S2P Require Import Prelude.
From S2P Require Import Wire.
From S2P Require Import Crypto.
From S2P Require Import Session.
From stdpp Require Import options.
Open Scope Z_scope.

(** What the program relies on: documented behaviour of crypto_box and of the
    conversion of keys. *)
Class BoxLaws `{CryptoBox} := {
  box_symmetric a b : SalsaBox_new (box_public_key b) a = SalsaBox_new (box_public_key a) b;
  box_encrypts k n m : length n = BOX_NONCE_SIZE ->
    exists c, salsa_encrypt k n m = Some c /\ length c = (length m + BOX_OVERHEAD)%nat /\ salsa_decrypt k n c = Some m;
  box_public_wf k : key_wf (box_public_key k);
  identity_box_key sk : ed25519_public_to_curve25519 (sk_verifying_key_bytes sk)
                        = Some (box_public_key (ed25519_private_to_curve25519 sk))
}.

(** ** A small instance *)

Definition toy_public (k : CurvePrivateKey) : CurvePublicKey := map wrap8 (take 32 (k ++ replicate 32 0)).
Definition toy_box_new (p : CurvePublicKey) (k : CurvePrivateKey) : bytes :=
  let q := toy_public k in if decide (bytes_lt p q) then p ++ q else q ++ p.
Definition toy_tag (box nonce : bytes) : bytes :=
  take 4 (box ++ replicate 4 0) ++ take 4 (drop 32 box ++ replicate 4 0) ++ take 8 (drop 16 nonce ++ replicate 8 0).

Definition toy_box : @CryptoBox toy_dalek :=
  @Build_CryptoBox toy_dalek bytes toy_box_new
    (fun k n m => Some (toy_tag k n ++ m))
    (fun k n c => if decide (take 16 c = toy_tag k n) then Some (drop 16 c) else None)
    toy_public toy_public toy_key (fun m => take 32 (m ++ replicate 32 0)) id
    (fun n => replicate 32 (Z.of_nat n)).

Lemma toy_tag_length box nonce : length (toy_tag box nonce) = 16%nat.
Proof. unfold toy_tag. rewrite !length_app, !length_take, !length_app, !length_replicate. lia. Qed.

Lemma toy_public_length k : length (toy_public k) = 32%nat.
Proof. unfold toy_public. rewrite length_map, length_take, length_app, length_replicate. lia. Qed.

Lemma toy_box_laws : @BoxLaws toy_dalek toy_box.
Proof.
  split.
  - intros a b. change (toy_box_new (toy_public b) a = toy_box_new (toy_public a) b). unfold toy_box_new.
    destruct (bytes_lt_total (toy_public b) (toy_public a)) as [Hlt|[->|Hlt]].
    + rewrite decide_True by done. rewrite decide_False; [done|]. intros Hlt'.
      apply (bytes_lt_irrefl (toy_public a)). by transitivity (toy_public b).
    + done.
    + rewrite (decide_True (P := bytes_lt (toy_public a) (toy_public b))) by done. rewrite decide_False; [done|].
      intros Hlt'. apply (bytes_lt_irrefl (toy_public a)). by transitivity (toy_public b).
  - intros k n m _. exists (toy_tag k n ++ m). split; [done|]. split.
    + rewrite length_app, toy_tag_length. unfold BOX_OVERHEAD. lia.
    + change ((if decide (take 16 (toy_tag k n ++ m) = toy_tag k n) then Some (drop 16 (toy_tag k n ++ m)) else None) = Some m).
      rewrite take_app_exact, drop_app_exact by apply toy_tag_length. by rewrite decide_True.
  - intros k. split; [apply toy_public_length|]. change (Forall is_u8 (toy_public k)). unfold toy_public.
    apply Forall_map, Forall_true. intros z. unfold wrap8, is_u8. apply Z.mod_pos_bound. lia.
  - intros sk. reflexivity.
Qed.

Section Codec.
Context `{DK : Dalek} `{CB : !CryptoBox} `{BL : !BoxLaws} `{DL : !DalekLaws}.

Lemma nonce_length n : length (nonce_for_u64 n) = BOX_NONCE_SIZE.
Proof. unfold nonce_for_u64. by rewrite length_app, length_replicate, to_be_bytes_length. Qed.

(** What one side seals, the other opens. *)
Lemma box_seal_open m n a b :
  exists c, box_seal m n (box_public_key b) a = Some c /\ length c = (length m + BOX_OVERHEAD)%nat
    /\ box_open c n (box_public_key a) b = Some m.
Proof using BL.
  unfold box_seal, box_open, make_salsa_box. rewrite (box_symmetric b a).
  destruct (box_encrypts (SalsaBox_new (box_public_key b) a) (nonce_for_u64 n) m (nonce_length n)) as (c & ? & ? & ?).
  by exists c.
Qed.

(** ** Handshake messages *)

Definition SessionInit_wf (i : SessionInit) : Prop :=
  length (in_current i) = 32%nat /\ length (in_next i) = 32%nat /\ is_u64 (in_key_seq i) /\ is_u64 (in_seq i).

(** The bytes a handshake signature covers. *)
Definition signed_bytes (pre from_box : bytes) (i : SessionInit) : bytes := pre ++ from_box ++ init_fields i.

Lemma sign_bytes_eq (sk : SigningKey) pre m :
  (if bool_decide (pre = []) then sk_sign sk m else sk_sign sk (pre ++ m)) = sk_sign sk (pre ++ m).
Proof. by case_bool_decide as Hp; [rewrite Hp|]. Qed.

Lemma verify_bytes_eq key pre m s :
  (if bool_decide (pre = []) then verify key m s else verify key (pre ++ m) s) = verify key (pre ++ m) s.
Proof. by case_bool_decide as Hp; [rewrite Hp|]. Qed.

Lemma init_fields_length i : SessionInit_wf i -> length (init_fields i) = 80%nat.
Proof.
  intros (H1 & H2 & _). unfold init_fields. rewrite !length_app, !to_be_bytes_length, H1, H2. done.
Qed.

Lemma init_fields_parse i s : SessionInit_wf i -> length s = 64%nat ->
  let payload := s ++ init_fields i in
  take 64 payload = s /\ mkSessionInit (take 32 (drop 64 payload)) (take 32 (drop 96 payload))
    (from_be_bytes (take 8 (drop 128 payload))) (from_be_bytes (take 8 (drop 136 payload))) = i.
Proof.
  intros (H1 & H2 & H3 & H4) Hs payload. unfold payload, init_fields. split; [by apply take_app_exact|].
  replace (drop 96 (s ++ _)) with (drop 32 (drop 64 (s ++ in_current i ++ in_next i ++ to_be_bytes 8 (in_key_seq i) ++ to_be_bytes 8 (in_seq i)))) by apply drop_drop.
  replace (drop 128 (s ++ _)) with (drop 32 (drop 32 (drop 64 (s ++ in_current i ++ in_next i ++ to_be_bytes 8 (in_key_seq i) ++ to_be_bytes 8 (in_seq i))))) by (rewrite !drop_drop; done).
  replace (drop 136 (s ++ _)) with (drop 8 (drop 32 (drop 32 (drop 64 (s ++ in_current i ++ in_next i ++ to_be_bytes 8 (in_key_seq i) ++ to_be_bytes 8 (in_seq i)))))) by (rewrite !drop_drop; done).
  rewrite (drop_app_exact s) by done. rewrite (take_app_exact (in_current i)), (drop_app_exact (in_current i)) by done.
  rewrite (take_app_exact (in_next i)), (drop_app_exact (in_next i)) by done.
  rewrite (take_app_exact (to_be_bytes 8 (in_key_seq i))), (drop_app_exact (to_be_bytes 8 (in_key_seq i)))
    by apply to_be_bytes_length.
  rewrite (take_ge (to_be_bytes 8 (in_seq i))) by (rewrite to_be_bytes_length; done).
  rewrite !from_to_be_bytes by (unfold is_u64 in *; change (8 * Z.of_nat 8) with 64; lia). by destruct i.
Qed.

(** The handshake that [encrypt] makes for the owner of [skb]. *)
Lemma SessionInit_encrypt_ok i ska skb msg_type pre rng : SessionInit_wf i ->
  exists data, SessionInit_encrypt i ska (sk_verifying_key_bytes skb) msg_type pre rng = (Ok data, S rng)
    /\ length data = SESSION_INIT_SIZE /\ hd_error data = Some msg_type
    /\ SessionInit_decrypt data (ed25519_private_to_curve25519 skb) (sk_verifying_key_bytes ska) pre = Ok i.
Proof using BL DL.
  intros Hi. unfold SessionInit_encrypt, new_box_keys. cbv iota. rewrite identity_box_key. cbn [ok_or]. rewrite bind_ok.
  rewrite sign_bytes_eq. set (fp := box_public_key (os_rng rng)). set (sg := sk_sign ska _).
  destruct (box_seal_open (sg ++ init_fields i) 0 (os_rng rng) (ed25519_private_to_curve25519 skb)) as (c & -> & Hlen & Hopen).
  cbn [ok_or]. rewrite bind_ok. pose proof (proj1 (box_public_wf (os_rng rng))) as Hfp. fold fp in Hfp, Hopen.
  change PUBLIC_KEY_SIZE with 32%nat in Hfp.
  assert (Hsg : length sg = 64%nat) by apply signed_length.
  rewrite length_app, init_fields_length, Hsg in Hlen by done. change (64 + 80 + BOX_OVERHEAD)%nat with 160%nat in Hlen.
  eexists. split; [done|]. assert (Hl : length ([msg_type] ++ fp ++ c) = SESSION_INIT_SIZE).
  { rewrite !length_app, Hlen, Hfp. done. }
  split; [done|]. split; [done|]. unfold SessionInit_decrypt. rewrite Hl. rewrite Nat.eqb_refl. cbn [negb].
  change (drop 1 ([msg_type] ++ fp ++ c)) with (fp ++ c). rewrite (take_app_exact fp) by done.
  change (drop 33 ([msg_type] ++ fp ++ c)) with (drop 32 (fp ++ c)). rewrite (drop_app_exact fp) by done.
  rewrite Hopen. cbn [ok_or]. rewrite bind_ok. rewrite length_app, init_fields_length, Hsg by done.
  change (negb (64 + 80 =? 64 + 32 + 32 + 8 + 8)%nat) with false. cbv iota.
  destruct (init_fields_parse i sg Hi Hsg) as [-> ->]. rewrite verify_bytes_eq.
  pose proof (verify_sign (Crypto_new ska) (pre ++ fp ++ init_fields i) (Crypto_new_wf ska)) as Hv.
  unfold sign, Crypto_new in Hv. cbn [public_key signing_key] in Hv. unfold sg. by rewrite Hv.
Qed.

(** Whatever is accepted is signed, under the receiver's password. *)
Lemma SessionInit_decrypt_inv data ck from pre i :
  SessionInit_decrypt data ck from pre = Ok i ->
  length data = SESSION_INIT_SIZE /\ is_public_key_valid from = true
  /\ exists sg, verify from (signed_bytes pre (take 32 (drop 1 data)) i) sg = true.
Proof.
  unfold SessionInit_decrypt. destruct (Nat.eqb_spec (length data) SESSION_INIT_SIZE) as [Hl|]; [|done]. cbn [negb].
  destruct (box_open _ _ _ _) as [payload|]; [|done]. cbn [ok_or]. rewrite bind_ok.
  destruct (negb _); [done|]. cbv zeta. rewrite verify_bytes_eq. destruct (verify _ _ _) eqn:Hv; [|done].
  intros [= <-]. split; [done|]. split; [by eapply verify_valid|]. eauto.
Qed.

(** C22: Session handshakes. A handshake message made for a node is 193 bytes
    long and that node decodes exactly what was put in, if both use the same
    group password; and whatever bytes arrive, a handshake is accepted only if
    it has that length, the sender's key is valid, and the sender's signature
    covers the receiver's own password hash, the ephemeral key of this message
    and all fields. *)
Theorem session_handshake_exact i ska skb msg_type pre rng :
  SessionInit_wf i ->
  (exists data, SessionInit_encrypt i ska (sk_verifying_key_bytes skb) msg_type pre rng = (Ok data, S rng)
    /\ length data = SESSION_INIT_SIZE
    /\ SessionInit_decrypt data (ed25519_private_to_curve25519 skb) (sk_verifying_key_bytes ska) pre = Ok i)
  /\ (forall data ck from pre' i', SessionInit_decrypt data ck from pre' = Ok i' ->
      length data = SESSION_INIT_SIZE /\ is_public_key_valid from = true
      /\ exists sg, verify from (signed_bytes pre' (take 32 (drop 1 data)) i') sg = true).
Proof using BL DL.
  intros Hi. split.
  - destruct (SessionInit_encrypt_ok i ska skb msg_type pre rng Hi) as (data & ? & ? & _ & ?). eauto.
  - intros data ck from pre' i'. apply SessionInit_decrypt_inv.
Qed.
End Codec.

(** ** Traffic messages *)

Section Traffic.
Context `{DK : Dalek} `{CB : !CryptoBox}.

(** The header of a traffic message: the sender's key number, the number of the
    receiver's key it is for, and the nonce. *)
Definition traffic_header (l r n : Z) : bytes := [SESSION_TYPE_TRAFFIC] ++ leb l ++ leb r ++ leb n.

Definition snapshot_wf (snap : SendSnapshot) : Prop :=
  is_u64 (ss_local_key_seq snap) /\ is_u64 (ss_remote_key_seq snap) /\ is_u64 (ss_send_nonce snap)
  /\ length (ss_next_pub snap) = 32%nat.

Lemma encrypt_outside_lock_ok `{BL : !BoxLaws} snap msg : snapshot_wf snap ->
  exists c, encrypt_outside_lock snap msg
      = Ok (traffic_header (ss_local_key_seq snap) (ss_remote_key_seq snap) (ss_send_nonce snap) ++ c)
    /\ length c = (32 + length msg + BOX_OVERHEAD)%nat
    /\ box_open_precomputed c (ss_send_nonce snap) (ss_send_shared snap) = Some (ss_next_pub snap ++ msg).
Proof.
  intros (Hl & Hr & Hn & Hk). unfold encrypt_outside_lock, box_seal_precomputed, box_open_precomputed.
  destruct (box_encrypts (ss_send_shared snap) (nonce_for_u64 (ss_send_nonce snap)) (ss_next_pub snap ++ msg)
    (nonce_length _)) as (c & -> & Hc & Hd).
  cbn [ok_or]. rewrite bind_ok. exists c. rewrite !encode_uvarint_eq by done. unfold traffic_header.
  rewrite <- !app_assoc. rewrite length_app, Hk in Hc. done.
Qed.

Lemma leb_length v : is_u64 v -> (1 <= length (leb v) <= 10)%nat.
Proof. intros Hv. pose proof (decode_uvarint_bound _ _ _ (decode_uvarint_leb v [] Hv)). tauto. Qed.

Lemma traffic_header_length l r n : is_u64 l -> is_u64 r -> is_u64 n ->
  (4 <= length (traffic_header l r n) <= 31)%nat.
Proof.
  intros Hl%leb_length Hr%leb_length Hn%leb_length. unfold traffic_header. rewrite !length_app.
  change (length [SESSION_TYPE_TRAFFIC]) with 1%nat. lia.
Qed.

(** The header of a message, as [recv_snapshot] reads it, and its length. *)
Definition parse_header (msg : bytes) : option (Z * Z * Z * nat) :=
  if (length msg <? SESSION_TRAFFIC_OVERHEAD_MIN)%nat || negb (hd 0 msg =? SESSION_TYPE_TRAFFIC) then None
  else
    '(l, n1) ← decode_uvarint (drop 1 msg);
    '(r, n2) ← decode_uvarint (drop (1 + n1) msg);
    '(n, n3) ← decode_uvarint (drop (1 + n1 + n2) msg);
    Some (l, r, n, (1 + n1 + n2 + n3)%nat).

(** The slot of a session that a header selects: its last nonce and its box. *)
Definition recv_slot (s : SessionInfo) (l r : Z) : option (Z * SalsaBox * DecryptCase) :=
  let from_current := l =? si_remote_key_seq s in
  let from_next := l =? wrap64 (si_remote_key_seq s + 1) in
  let to_recv := wrap64 (r + 1) =? si_local_key_seq s in
  let to_send := r =? si_local_key_seq s in
  if from_current && to_recv then Some (si_recv_nonce s, si_recv_shared s, CurrentToRecv)
  else if from_next && to_send then Some (si_next_send_nonce s, si_next_send_shared s, NextToSend)
  else if from_next && to_recv then Some (si_next_recv_nonce s, si_next_recv_shared s, NextToRecv)
  else None.

Lemma recv_snapshot_eq s msg :
  recv_snapshot s msg =
  match parse_header msg with
  | None => Err SnapDrop
  | Some (l, r, n, off) =>
      match recv_slot s l r with
      | None => Err (SnapSendInit (si_send_pub s) (si_next_pub s) (si_local_key_seq s))
      | Some (last, shared, case) =>
          if negb (last <? n) then Err SnapDrop else Ok (mkRecvSnapshot (si_remote_key_seq s) n off shared case)
      end
  end.
Proof.
  unfold recv_snapshot, parse_header, recv_slot. destruct (_ || _); [done|].
  destruct (decode_uvarint (drop 1 msg)) as [[l n1]|]; [|done]. cbn [ok_or mbind option_bind result_bind].
  destruct (decode_uvarint (drop (1 + n1) msg)) as [[r n2]|]; [|done]. cbn [ok_or mbind option_bind result_bind].
  destruct (decode_uvarint (drop (1 + n1 + n2) msg)) as [[n n3]|]; [|done]. cbn [ok_or mbind option_bind result_bind].
  by repeat case_match.
Qed.

Lemma parse_header_ok l r n c : is_u64 l -> is_u64 r -> is_u64 n -> (32 + BOX_OVERHEAD <= length c)%nat ->
  parse_header (traffic_header l r n ++ c) = Some (l, r, n, length (traffic_header l r n)).
Proof.
  intros Hl Hr Hn Hc. unfold parse_header. pose proof (traffic_header_length l r n Hl Hr Hn).
  rewrite (proj2 (Nat.ltb_ge _ _)) by (rewrite length_app; unfold SESSION_TRAFFIC_OVERHEAD_MIN, BOX_OVERHEAD in *; lia).
  cbn [orb]. unfold traffic_header. rewrite <- !app_assoc.
  change (hd 0 ([SESSION_TYPE_TRAFFIC] ++ leb l ++ leb r ++ leb n ++ c)) with SESSION_TYPE_TRAFFIC.
  rewrite Z.eqb_refl. cbn [negb].
  change (drop 1 ([SESSION_TYPE_TRAFFIC] ++ leb l ++ leb r ++ leb n ++ c)) with (leb l ++ leb r ++ leb n ++ c).
  rewrite decode_uvarint_leb by done. cbn [mbind option_bind].
  rewrite <- !drop_drop. change (drop 1 ([SESSION_TYPE_TRAFFIC] ++ leb l ++ leb r ++ leb n ++ c)) with (leb l ++ leb r ++ leb n ++ c).
  rewrite drop_app_length. rewrite decode_uvarint_leb by done. cbn [mbind option_bind].
  rewrite <- !drop_drop. change (drop 1 ([SESSION_TYPE_TRAFFIC] ++ leb l ++ leb r ++ leb n ++ c)) with (leb l ++ leb r ++ leb n ++ c).
  rewrite !drop_app_length. rewrite decode_uvarint_leb by done. cbn [mbind option_bind].
  rewrite !length_app. change (length [SESSION_TYPE_TRAFFIC]) with 1%nat. do 2 f_equal. lia.
Qed.

(** ** The local keys *)

(** [s] after the key rotation at position [rng] of the random stream. *)
Lemma rotate_local_eq s rng : rotate_local s rng =
  (mkSessionInfo (si_seq s) (si_remote_key_seq s) (si_current s) (si_next s) (wrap64 (si_local_key_seq s + 1))
    (si_send_priv s) (si_send_pub s) (si_recv_shared s) (si_recv_nonce s)
    (si_next_priv s) (si_next_pub s) (si_send_shared s) (si_send_nonce s)
    (os_rng rng) (box_public_key (os_rng rng))
    (si_next_send_shared s) (si_next_send_nonce s) (si_next_recv_shared s) (si_next_recv_nonce s)
    (si_since s) (si_rotated s) (si_last_activity s) (si_rx s) (si_tx s), S rng).
Proof. done. Qed.

Lemma handle_update_eq s init now rng : handle_update s init now rng =
  (mkSessionInfo (in_seq init) (in_key_seq init) (in_current init) (in_next init) (wrap64 (si_local_key_seq s + 1))
    (si_send_priv s) (si_send_pub s) (make_salsa_box (in_current init) (si_send_priv s)) 0
    (si_next_priv s) (si_next_pub s) (make_salsa_box (in_current init) (si_next_priv s)) (si_send_nonce s)
    (os_rng rng) (box_public_key (os_rng rng))
    (make_salsa_box (in_next init) (si_next_priv s)) 0 (make_salsa_box (in_next init) (si_send_priv s)) 0
    (si_since s) (si_rotated s) now (si_rx s) (si_tx s), S rng).
Proof. done. Qed.

(** The ratchet of [maybe_ratchet_on_recv]. *)
Definition ratcheted (s : SessionInfo) (inner_key : CurvePublicKey) (nonce now : Z) (rng : nat) : SessionInfo :=
  mkSessionInfo (si_seq s) (wrap64 (si_remote_key_seq s + 1)) (si_next s) inner_key (wrap64 (si_local_key_seq s + 1))
    (si_send_priv s) (si_send_pub s) (make_salsa_box (si_next s) (si_send_priv s)) nonce
    (si_next_priv s) (si_next_pub s) (make_salsa_box (si_next s) (si_next_priv s)) 0
    (os_rng rng) (box_public_key (os_rng rng))
    (make_salsa_box inner_key (si_next_priv s)) 0 (make_salsa_box inner_key (si_send_priv s)) 0
    (si_since s) (Some now) (si_last_activity s) (si_rx s) (si_tx s).

Lemma maybe_ratchet_cases s inner_key nonce now rng :
  maybe_ratchet_on_recv s inner_key nonce now rng = (s, rng)
  \/ maybe_ratchet_on_recv s inner_key nonce now rng = (ratcheted s inner_key nonce now rng, S rng).
Proof.
  unfold maybe_ratchet_on_recv. destruct (match si_rotated s with Some t => _ | None => true end); [right|left]; done.
Qed.

(** ** Operations of a session in any order

    The steps that the writers ([OpSend], [OpSent]) and the reader
    ([OpUpdate], [OpReceived]) of a session take under its lock. *)
Inductive session_op :=
| OpSend
| OpSent (msg_len now : Z)
| OpUpdate (init : SessionInit) (now : Z)
| OpReceived (snap : RecvSnapshot) (inner_key : CurvePublicKey) (payload_len now : Z).

(** The snapshot of [OpSend] comes with the private key it seals with. *)
Definition session_step (s : SessionInfo) (rng : nat) (op : session_op)
    : list (CurvePrivateKey * SendSnapshot) * SessionInfo * nat :=
  match op with
  | OpSend => let '(snap, s, rng) := send_snapshot s rng in ([(si_send_priv s, snap)], s, rng)
  | OpSent msg_len now => ([], send_finalize s msg_len now, rng)
  | OpUpdate init now => let '(s, rng) := handle_update s init now rng in ([], s, rng)
  | OpReceived snap inner_key payload_len now =>
      let '(s, rng) := recv_finalize s snap inner_key payload_len now rng in ([], s, rng)
  end.

Fixpoint session_run (s : SessionInfo) (rng : nat) (ops : list session_op)
    : list (CurvePrivateKey * SendSnapshot) * SessionInfo * nat :=
  match ops with
  | [] => ([], s, rng)
  | op :: ops =>
      let '(sent, s, rng) := session_step s rng op in
      let '(sent', s, rng) := session_run s rng ops in
      (sent ++ sent', s, rng)
  end.

(** The sending side of a session does not change, except for its nonce. *)
Definition same_sender (s s' : SessionInfo) : Prop :=
  si_local_key_seq s' = si_local_key_seq s /\ si_remote_key_seq s' = si_remote_key_seq s
  /\ si_send_priv s' = si_send_priv s /\ si_next_priv s' = si_next_priv s /\ si_send_shared s' = si_send_shared s.

(** The next local key comes into use. *)
Definition next_sender (s s' : SessionInfo) (rng : nat) : Prop :=
  si_local_key_seq s' = wrap64 (si_local_key_seq s + 1) /\ si_send_priv s' = si_next_priv s /\ si_next_priv s' = os_rng rng
  /\ is_u64 (si_send_nonce s').

Lemma recv_finalize_sender s snap inner_key len now rng : is_u64 (si_send_nonce s) ->
  let '(s', rng') := recv_finalize s snap inner_key len now rng in
  (same_sender s s' /\ si_send_nonce s' = si_send_nonce s /\ rng' = rng) \/ (next_sender s s' rng /\ rng' = S rng).
Proof.
  intros Hn. unfold recv_finalize. destruct (negb _); [left; by repeat split|].
  destruct (rs_case snap); [left; by repeat split|..].
  - destruct (maybe_ratchet_cases (s <| si_next_send_nonce := rs_nonce snap |>) inner_key (rs_nonce snap) now rng) as [->| ->].
    + left; by repeat split.
    + right; by repeat split.
  - destruct (maybe_ratchet_cases (s <| si_next_recv_nonce := rs_nonce snap |>) inner_key (rs_nonce snap) now rng) as [->| ->].
    + left; by repeat split.
    + right; by repeat split.
Qed.

(** One step: the keys stay and the nonce does not fall (a message takes a new
    one), or the next key comes into use. *)
Lemma session_step_sender s rng op : is_u64 (si_send_nonce s) ->
  let '(sent, s', rng') := session_step s rng op in
  ((same_sender s s' /\ rng' = rng /\ is_u64 (si_send_nonce s')
    /\ (sent = [] /\ si_send_nonce s' = si_send_nonce s \/ si_send_nonce s' = si_send_nonce s + 1))
   \/ (next_sender s s' rng /\ rng' = S rng))
  /\ (sent = [] \/ exists np, sent = [(si_send_priv s', mkSendSnapshot (si_local_key_seq s') (si_remote_key_seq s')
                                       (si_send_nonce s') np (si_send_shared s'))]).
Proof.
  intros Hn. destruct op as [|len now|init now|snap key len now]; cbn [session_step].
  - unfold send_snapshot. cbn [si_send_nonce set_field]. 
    destruct (Z.eqb_spec (wrap64 (si_send_nonce s + 1)) 0) as [H0|H0].
    + split; [right; by repeat split|right; by eexists].
    + assert (wrap64 (si_send_nonce s + 1) = si_send_nonce s + 1) as Hw.
      { unfold wrap64, is_u64 in *. destruct (decide (si_send_nonce s + 1 = 2 ^ 64)) as [E|].
        - rewrite E in H0. by rewrite Z_mod_same_full in H0.
        - apply Z.mod_small. lia. }
      split; [left|right; by eexists]. split_and!; [by repeat split|done|apply wrap64_is_u64|by right].
  - split; [left|by left]. split_and!; [by repeat split|done|done|by left].
  - split; [right|by left]. split; [|done]. unfold next_sender. split_and!; [done..|exact Hn].
  - pose proof (recv_finalize_sender s snap key len now rng Hn) as Hf.
    destruct (recv_finalize s snap key len now rng) as [s' rng']. destruct Hf as [(Hs & E & ->)|(Hs & ->)].
    + split; [left|by left]. split_and!; [done|done|by rewrite E|by left].
    + split; [by right|by left].
Qed.

(** ** Nonces *)

(** A message that was sealed before the state [s] was reached. *)
Definition sealed_before (s : SessionInfo) (rng : nat) (e : CurvePrivateKey * SendSnapshot) : Prop :=
  (ss_local_key_seq e.2 < si_local_key_seq s /\ e.1 <> si_send_priv s /\ e.1 <> si_next_priv s
   /\ exists i, e.1 = os_rng i /\ (i < rng)%nat)
  \/ (ss_local_key_seq e.2 = si_local_key_seq s /\ e.1 = si_send_priv s /\ ss_send_nonce e.2 <= si_send_nonce s
      /\ ss_remote_key_seq e.2 = si_remote_key_seq s /\ ss_send_shared e.2 = si_send_shared s).

(** The session's keys were drawn from the random stream before [rng]. *)
Definition keys_drawn (s : SessionInfo) (rng : nat) : Prop :=
  exists i j, si_send_priv s = os_rng i /\ si_next_priv s = os_rng j /\ (i < rng)%nat /\ (j < rng)%nat /\ i <> j.

(** Two messages under one local key: same peer key, same box. *)
Definition same_epoch (e1 e2 : CurvePrivateKey * SendSnapshot) : Prop :=
  ss_local_key_seq e1.2 = ss_local_key_seq e2.2 ->
  ss_remote_key_seq e1.2 = ss_remote_key_seq e2.2 /\ ss_send_shared e1.2 = ss_send_shared e2.2.

Record nonce_inv (past : list (CurvePrivateKey * SendSnapshot)) (s : SessionInfo) (rng : nat) : Prop := {
  ni_local : 0 <= si_local_key_seq s;
  ni_nonce : is_u64 (si_send_nonce s);
  ni_drawn : keys_drawn s rng;
  ni_past : Forall (sealed_before s rng) past;
  ni_epochs : forall e1 e2, e1 ∈ past -> e2 ∈ past -> same_epoch e1 e2;
  ni_unique : NoDup ((fun e => (e.1, ss_send_nonce e.2)) <$> past)
}.

Section Unique.
Context (rng_fresh : forall i j, os_rng i = os_rng j -> i = j).

Lemma sealed_same s s' rng e : same_sender s s' -> si_send_nonce s <= si_send_nonce s' ->
  sealed_before s rng e -> sealed_before s' rng e.
Proof.
  intros (H1 & H2 & H3 & H4 & H5) Hn. unfold sealed_before. rewrite H1, H2, H3, H4, H5.
  intros [?|(? & ? & ? & ? & ?)]; [by left|right]. split_and!; try done. lia.
Qed.

Lemma sealed_next s s' rng e : keys_drawn s rng -> next_sender s s' rng -> 0 <= si_local_key_seq s < 2 ^ 64 - 1 ->
  sealed_before s rng e -> sealed_before s' (S rng) e.
Proof using rng_fresh.
  intros (i & j & Hi & Hj & Hlti & Hltj & Hij) (H1 & H2 & H3 & _) Hl Hs. left. rewrite H1, H2, H3.
  rewrite wrap64_id by (unfold is_u64; lia).
  destruct Hs as [(? & ? & ? & k & Hk & Hltk)|(? & Hpriv & _)].
  - split_and!; [lia|done| |]; rewrite ?Hk.
    + intros ?%rng_fresh. lia.
    + exists k. split; [done|lia].
  - rewrite Hpriv, Hi, Hj. split_and!; [lia| | |].
    + intros ?%rng_fresh. lia.
    + intros ?%rng_fresh. lia.
    + exists i. split; [done|lia].
Qed.

Lemma drawn_next s s' rng : keys_drawn s rng -> next_sender s s' rng -> keys_drawn s' (S rng).
Proof.
  intros (i & j & Hi & Hj & Hlti & Hltj & Hij) (_ & H2 & H3 & _). exists j, rng. rewrite H2, H3. split_and!; try done; lia.
Qed.

(** A new message under the present key and a nonce above all used ones. *)
Lemma nonce_inv_add past s rng np : nonce_inv past s rng ->
  Forall (fun e => ss_local_key_seq e.2 = si_local_key_seq s -> ss_send_nonce e.2 < si_send_nonce s) past ->
  nonce_inv (past ++ [(si_send_priv s, mkSendSnapshot (si_local_key_seq s) (si_remote_key_seq s) (si_send_nonce s) np
                          (si_send_shared s))]) s rng.
Proof.
  intros [L N D P E U] Hlt. set (new := (si_send_priv s, _)).
  assert (Hnew : sealed_before s rng new) by (right; split_and!; done).
  split; try done.
  - by apply Forall_app_2; [|constructor].
  - assert (Hep : forall e, e ∈ past -> same_epoch e new /\ same_epoch new e).
    { intros e He. rewrite Forall_forall in P. destruct (P e He) as [(? & _)|(? & _ & _ & ? & ?)].
      - unfold same_epoch, new. simpl. split; intros; lia.
      - unfold same_epoch, new. simpl. done. }
    intros e1 e2 [H1|H1%list_elem_of_singleton]%elem_of_app [H2|H2%list_elem_of_singleton]%elem_of_app; subst.
    + by apply E.
    + by apply Hep.
    + by apply Hep.
    + by intros _.
  - rewrite fmap_app. apply NoDup_app. split_and!; [done| |apply NoDup_singleton].
    intros x [e [-> He]]%list_elem_of_fmap Hx%list_elem_of_singleton. unfold new in Hx. simpl in Hx. injection Hx as Hk Hn.
    rewrite Forall_forall in P, Hlt. destruct (P e He) as [(_ & Hne & _)|(Hloc & _)]; [done|].
    specialize (Hlt e He Hloc). lia.
Qed.

Lemma session_step_inv past s rng op : nonce_inv past s rng -> si_local_key_seq s < 2 ^ 64 - 1 ->
  let '(sent, s', rng') := session_step s rng op in
  nonce_inv (past ++ sent) s' rng' /\ si_local_key_seq s' <= si_local_key_seq s + 1.
Proof using rng_fresh.
  intros I Hl. pose proof (session_step_sender s rng op (ni_nonce _ _ _ I)) as Hst.
  destruct (session_step s rng op) as [[sent s'] rng']. destruct Hst as [Hst Hsent], I as [L N D P E U].
  destruct Hst as [(Hsame & -> & Hn' & Hnonce)|(Hnext & ->)].
  - assert (I' : nonce_inv past s' rng).
    { pose proof Hsame as (H1 & H2 & H3 & H4 & H5). split; try done.
      - by rewrite H1.
      - unfold keys_drawn. by rewrite H3, H4.
      - eapply Forall_impl; [exact P|]. intros e. apply sealed_same; [done|]. destruct Hnonce as [[_ ->]| ->]; lia. }
    split; [|rewrite (proj1 Hsame); lia]. destruct Hsent as [->|[np ->]]; [by rewrite app_nil_r|].
    apply nonce_inv_add; [done|]. destruct Hnonce as [[? _]|Hnonce]; [done|].
    eapply Forall_impl; [exact P|]. intros e He Hloc. rewrite (proj1 Hsame) in Hloc.
    destruct He as [(? & _)|(_ & _ & ? & _)]; lia.
  - assert (Hloc' : si_local_key_seq s' = si_local_key_seq s + 1).
    { destruct Hnext as (-> & _). apply wrap64_id. unfold is_u64. lia. }
    assert (I' : nonce_inv past s' (S rng)).
    { split; [lia|apply Hnext|by eapply drawn_next| |done|done].
      eapply Forall_impl; [exact P|]. intros e. apply sealed_next; [done|done|lia]. }
    split; [|lia]. destruct Hsent as [->|[np ->]]; [by rewrite app_nil_r|]. apply nonce_inv_add; [done|].
    eapply Forall_impl; [exact P|]. intros e [(? & _)|(? & _)]; lia.
Qed.

Lemma session_run_inv ops past s rng : nonce_inv past s rng -> si_local_key_seq s + Z.of_nat (length ops) < 2 ^ 64 ->
  let '(sent, s', rng') := session_run s rng ops in nonce_inv (past ++ sent) s' rng'.
Proof using rng_fresh.
  revert past s rng. induction ops as [|op ops IH]; intros past s rng I Hl; cbn [session_run]; [by rewrite app_nil_r|].
  rewrite length_cons in Hl. pose proof (session_step_inv past s rng op I ltac:(lia)) as Hst.
  destruct (session_step s rng op) as [[sent s1] rng1]. destruct Hst as [I1 Hl1].
  specialize (IH (past ++ sent) s1 rng1 I1 ltac:(lia)). destruct (session_run s1 rng1 ops) as [[sent' s2] rng2].
  by rewrite app_assoc.
Qed.

(** C10: Nonces are never reused. Whatever the writers and the reader of a
    session do, in any order (messages, handshakes, ratchets, and the roll-over
    of the 64-bit nonce), no two messages are sealed with the same private key
    and the same nonce; and the messages under one local key are all for the
    same key of the peer. Keys are drawn from a stream without repetition, and
    the key number does not overflow. *)
Theorem session_nonces_unique s rng ops :
  keys_drawn s rng -> is_u64 (si_send_nonce s) -> 0 <= si_local_key_seq s ->
  si_local_key_seq s + Z.of_nat (length ops) < 2 ^ 64 ->
  let '(sent, _, _) := session_run s rng ops in
  NoDup ((fun e => (e.1, ss_send_nonce e.2)) <$> sent)
  /\ (forall e1 e2, e1 ∈ sent -> e2 ∈ sent -> same_epoch e1 e2).
Proof using rng_fresh.
  intros Hd Hn Hl0 Hl. assert (I : nonce_inv [] s rng).
  { split; [done|done|done|by apply Forall_nil| |by apply NoDup_nil]. intros e1 e2 He. by apply not_elem_of_nil in He. }
  pose proof (session_run_inv ops [] s rng I Hl) as Hrun.
  destruct (session_run s rng ops) as [[sent s'] rng']. by destruct Hrun as [_ _ _ _ E U].
Qed.
End Unique.

(** ** Replays *)

(** One traffic message through the three phases of the reader: its payload if
    it is accepted. *)
Definition receive (s : SessionInfo) (msg : bytes) (now : Z) (rng : nat) : option bytes * SessionInfo * nat :=
  match recv_snapshot s msg with
  | Err _ => (None, s, rng)
  | Ok snap =>
      match decrypt_outside_lock snap msg with
      | Err _ => (None, s, rng)
      | Ok (payload, inner_key) =>
          let '(s, rng) := recv_finalize s snap inner_key (Z.of_nat (length payload)) now rng in (Some payload, s, rng)
      end
  end.

(** A reader that receives messages while writers send. *)
Inductive recv_event := RvMessage (msg : bytes) (now : Z) | RvSend | RvSent (msg_len now : Z).

Definition recv_step (s : SessionInfo) (rng : nat) (ev : recv_event) : list bytes * SessionInfo * nat :=
  match ev with
  | RvMessage msg now => let '(r, s, rng) := receive s msg now rng in
                         (match r with Some _ => [msg] | None => [] end, s, rng)
  | RvSend => let '(_, s, rng) := send_snapshot s rng in ([], s, rng)
  | RvSent msg_len now => ([], send_finalize s msg_len now, rng)
  end.

(** The messages that are accepted. *)
Fixpoint recv_run (s : SessionInfo) (rng : nat) (evs : list recv_event) : list bytes * SessionInfo * nat :=
  match evs with
  | [] => ([], s, rng)
  | ev :: evs =>
      let '(got, s, rng) := recv_step s rng ev in
      let '(got', s, rng) := recv_run s rng evs in
      (got ++ got', s, rng)
  end.

(** The slots of a session bound the nonces of a message with header [h]. *)
Definition spent (s : SessionInfo) (h : Z * Z * Z) : Prop :=
  let '(l, r, n) := h in
  let ra := si_remote_key_seq s in
  let la := si_local_key_seq s in
  l <= ra + 1 /\ r <= la /\ r - l <= la - ra - 1
  /\ (l = ra -> r = la - 1 -> n <= si_recv_nonce s)
  /\ (l = ra + 1 -> r = la -> n <= si_next_send_nonce s)
  /\ (l = ra + 1 -> r = la - 1 -> n <= si_next_recv_nonce s).

Definition message_spent (s : SessionInfo) (msg : bytes) : Prop :=
  exists l r n off, parse_header msg = Some (l, r, n, off) /\ spent s (l, r, n).

(** Messages under one key of the peer are for one of our keys. *)
Definition one_target (msgs : list bytes) : Prop :=
  forall p q l r n off r' n' off', p ∈ msgs -> q ∈ msgs ->
    parse_header p = Some (l, r, n, off) -> parse_header q = Some (l, r', n', off') -> r = r'.

(** Key numbers that do not overflow within [k] ratchets. *)
Definition seqs_ok (s : SessionInfo) (k : Z) : Prop :=
  0 <= si_remote_key_seq s /\ si_remote_key_seq s + k < 2 ^ 64 - 1
  /\ 1 <= si_local_key_seq s /\ si_local_key_seq s + k < 2 ^ 64 - 1.

Lemma parse_header_u64 msg l r n off : parse_header msg = Some (l, r, n, off) -> is_u64 l /\ is_u64 r /\ is_u64 n.
Proof.
  unfold parse_header. destruct (_ || _); [done|].
  destruct (decode_uvarint (drop 1 msg)) as [[l' n1]|] eqn:E1; [|done]. cbn [mbind option_bind].
  destruct (decode_uvarint (drop (1 + n1) msg)) as [[r' n2]|] eqn:E2; [|done]. cbn [mbind option_bind].
  destruct (decode_uvarint (drop (1 + n1 + n2) msg)) as [[n' n3]|] eqn:E3; [|done]. cbn [mbind option_bind].
  intros [= <- <- <- _]. split_and!; by eapply decode_uvarint_bound.
Qed.

(** The selected slot, with the key numbers as integers. *)
Lemma recv_slot_cases s l r last shared case : seqs_ok s 0 -> is_u64 l -> is_u64 r ->
  recv_slot s l r = Some (last, shared, case) ->
  match case with
  | CurrentToRecv => l = si_remote_key_seq s /\ r = si_local_key_seq s - 1 /\ last = si_recv_nonce s /\ shared = si_recv_shared s
  | NextToSend => l = si_remote_key_seq s + 1 /\ r = si_local_key_seq s /\ last = si_next_send_nonce s
                  /\ shared = si_next_send_shared s
  | NextToRecv => l = si_remote_key_seq s + 1 /\ r = si_local_key_seq s - 1 /\ last = si_next_recv_nonce s
                  /\ shared = si_next_recv_shared s
  end.
Proof.
  intros (H1 & H2 & H3 & H4) Hl Hr. unfold recv_slot. rewrite (wrap64_id (si_remote_key_seq s + 1)) by (unfold is_u64; lia).
  assert (Hwr : wrap64 (r + 1) = si_local_key_seq s -> r = si_local_key_seq s - 1).
  { unfold is_u64 in Hr. destruct (decide (r + 1 = 2 ^ 64)) as [E|].
    - rewrite E. unfold wrap64. rewrite Z_mod_same_full. lia.
    - rewrite wrap64_id by (unfold is_u64; lia). lia. }
  destruct (Z.eqb_spec l (si_remote_key_seq s)), (Z.eqb_spec (wrap64 (r + 1)) (si_local_key_seq s)) as [Hw|];
    destruct (Z.eqb_spec l (si_remote_key_seq s + 1)), (Z.eqb_spec r (si_local_key_seq s)); cbn [andb];
    try lia; intros [= <- <- <-]; try specialize (Hwr Hw); split_and!; done || lia.
Qed.

(** What accepting a message does to the slots: the nonce is new, and a ratchet
    moves the next slot to the current one. *)
Lemma receive_cases s msg now rng : seqs_ok s 0 ->
  let '(r, s', rng') := receive s msg now rng in
  match r with
  | None => s' = s
  | Some _ => exists l rr n off, parse_header msg = Some (l, rr, n, off) /\ ~ spent s (l, rr, n)
      /\ (   (l = si_remote_key_seq s /\ rr = si_local_key_seq s - 1
              /\ s' = s <| si_recv_nonce := n |> <| si_rx := si_rx s' |> <| si_last_activity := now |>)
          \/ (l = si_remote_key_seq s + 1 /\ rr = si_local_key_seq s
              /\ s' = s <| si_next_send_nonce := n |> <| si_rx := si_rx s' |> <| si_last_activity := now |>)
          \/ (l = si_remote_key_seq s + 1 /\ rr = si_local_key_seq s - 1
              /\ s' = s <| si_next_recv_nonce := n |> <| si_rx := si_rx s' |> <| si_last_activity := now |>)
          \/ (l = si_remote_key_seq s + 1 /\ (rr = si_local_key_seq s \/ rr = si_local_key_seq s - 1)
              /\ exists key, s' = (ratcheted s key n now rng) <| si_rx := si_rx s' |> <| si_last_activity := now |>
              /\ (rr = si_local_key_seq s -> si_next_send_nonce s < n)))
  end.
Proof.
  intros Hok. unfold receive. rewrite recv_snapshot_eq. destruct (parse_header msg) as [[[[l r] n] off]|] eqn:Hh; [|done].
  destruct (parse_header_u64 _ _ _ _ _ Hh) as (Hl & Hr & Hn).
  destruct (recv_slot s l r) as [[[last shared] case]|] eqn:Hslot; [|done].
  apply recv_slot_cases in Hslot; [|done..]. destruct (Z.ltb_spec last n) as [Hlt|]; cbn [negb]; [|done].
  destruct (decrypt_outside_lock _ msg) as [[payload key]|]; [|done].
  unfold recv_finalize. cbn [rs_remote_key_seq rs_case rs_nonce]. rewrite Z.eqb_refl. cbn [negb].
  assert (Hsp : forall last', (spent s (l, r, n) -> n <= last') -> last' < n -> ~ spent s (l, r, n)) by (intros ? H1 H2 H3; specialize (H1 H3); lia).
  destruct case; destruct Hslot as (-> & -> & -> & _).
  - exists (si_remote_key_seq s), (si_local_key_seq s - 1), n, off. split; [done|].
    split; [by apply (Hsp (si_recv_nonce s)); [intros (_ & _ & _ & H & _); apply H|]|]. by left.
  - destruct (maybe_ratchet_cases (s <| si_next_send_nonce := n |>) key n now rng) as [->| ->].
    + exists (si_remote_key_seq s + 1), (si_local_key_seq s), n, off. split; [done|].
      split; [by apply (Hsp (si_next_send_nonce s)); [intros (_ & _ & _ & _ & H & _); apply H|]|]. right; by left.
    + exists (si_remote_key_seq s + 1), (si_local_key_seq s), n, off. split; [done|].
      split; [by apply (Hsp (si_next_send_nonce s)); [intros (_ & _ & _ & _ & H & _); apply H|]|]. do 3 right.
      split; [done|]. split; [by left|]. by exists key.
  - destruct (maybe_ratchet_cases (s <| si_next_recv_nonce := n |>) key n now rng) as [->| ->].
    + exists (si_remote_key_seq s + 1), (si_local_key_seq s - 1), n, off. split; [done|].
      split; [by apply (Hsp (si_next_recv_nonce s)); [intros (_ & _ & _ & _ & _ & H); apply H|]|]. right; right; by left.
    + exists (si_remote_key_seq s + 1), (si_local_key_seq s - 1), n, off. split; [done|].
      split; [by apply (Hsp (si_next_recv_nonce s)); [intros (_ & _ & _ & _ & _ & H); apply H|]|]. do 3 right.
      split; [done|]. split; [by right|]. exists key. split; [done|]. lia.
Qed.

(** One accepted message: it was not accepted before, and every accepted one
    stays spent. *)
Lemma receive_spent s msg now rng payload s' rng' past k : seqs_ok s (k + 1) -> 0 <= k ->
  receive s msg now rng = (Some payload, s', rng') ->
  Forall (message_spent s) past -> one_target (past ++ [msg]) ->
  (msg ∉ past) /\ Forall (message_spent s') (past ++ [msg]) /\ seqs_ok s' k.
Proof.
  intros Hok Hk Hrecv Hpast Hone. pose proof (receive_cases s msg now rng) as Hc. rewrite Hrecv in Hc.
  destruct Hc as (l & r & n & off & Hh & Hnew & Hc); [unfold seqs_ok in *; lia|].
  assert (Hfresh : msg ∉ past).
  { intros Hin. rewrite Forall_forall in Hpast. destruct (Hpast msg Hin) as (l' & r' & n' & off' & Hh' & Hs).
    rewrite Hh in Hh'. by injection Hh' as <- <- <- <-. }
  split; [done|].
  (* a ratchet by a message for the receiving key: nothing came for the sending key *)
  assert (Htarget : forall l' r' n' off' p, p ∈ past -> parse_header p = Some (l', r', n', off') -> l' = l -> r' = r).
  { intros l' r' n' off' p Hp Hph ->. eapply (Hone p msg); [| |done|done]; set_solver. }
  assert (Hall : forall s'', s' = s'' -> (forall l' r' n' off' p, p ∈ past -> parse_header p = Some (l', r', n', off') ->
      spent s (l', r', n') -> spent s'' (l', r', n')) -> spent s'' (l, r, n) -> Forall (message_spent s') (past ++ [msg])).
  { intros s'' -> Hold Hmsg. apply Forall_app_2; [|constructor; [by exists l, r, n, off|done]].
    rewrite Forall_forall in Hpast |- *. intros p Hp. destruct (Hpast p Hp) as (l' & r' & n' & off' & Hp' & Hs).
    exists l', r', n', off'. eauto. }
  destruct Hok as (K1 & K2 & K3 & K4). unfold spent in Hnew.
  destruct Hc as [(-> & -> & Hs')|[(-> & -> & Hs')|[(-> & -> & Hs')|(-> & Hr & key & Hs' & Hn)]]].
  1-3: split; [apply (Hall _ Hs'); [intros l' r' n' off' p _ _ (?&?&?&?&?&?)|]; unfold spent; simpl; split_and!; lia
              |rewrite Hs'; unfold seqs_ok; simpl; lia].
  assert (E1 : wrap64 (si_remote_key_seq s + 1) = si_remote_key_seq s + 1) by (apply wrap64_id; unfold is_u64; lia).
  assert (E2 : wrap64 (si_local_key_seq s + 1) = si_local_key_seq s + 1) by (apply wrap64_id; unfold is_u64; lia).
  split; [|rewrite Hs'; unfold seqs_ok; simpl; rewrite E1, E2; lia].
  apply (Hall _ Hs').
  - intros l' r' n' off' p Hp Hph (?&?&?&?&?&?). specialize (Htarget _ _ _ _ _ Hp Hph).
    unfold spent. simpl. rewrite E1, E2. split_and!; lia.
  - unfold spent. simpl. rewrite E1, E2. split_and!; lia.
Qed.

Lemma send_snapshot_slots s rng : is_u64 (si_send_nonce s) -> si_send_nonce s < 2 ^ 64 - 1 ->
  let '(_, s', _) := send_snapshot s rng in s' = s <| si_send_nonce := si_send_nonce s + 1 |>.
Proof.
  intros Hn Hlt. unfold send_snapshot. cbn [si_send_nonce set_field]. unfold is_u64 in Hn.
  rewrite wrap64_id by (unfold is_u64; lia). destruct (Z.eqb_spec (si_send_nonce s + 1) 0); [lia|done].
Qed.

(** The accepted messages of a run, after those of [past]. *)
Lemma recv_run_nodup evs past s rng :
  let k := Z.of_nat (length evs) in
  seqs_ok s k -> is_u64 (si_send_nonce s) -> si_send_nonce s + k < 2 ^ 64 ->
  Forall (message_spent s) past -> NoDup past ->
  one_target (past ++ (recv_run s rng evs).1.1) -> NoDup (past ++ (recv_run s rng evs).1.1).
Proof.
  revert past s rng. induction evs as [|ev evs IH]; intros past s rng k Hok Hu Hn Hpast Hnd Hone; cbn [recv_run] in *.
  { by rewrite app_nil_r. }
  unfold k in *. rewrite length_cons in Hok, Hn. destruct ev as [msg now| |len now]; cbn [recv_step] in *.
  - destruct (receive s msg now rng) as [[[payload|] s1] rng1] eqn:Hr.
    + pose proof (receive_spent s msg now rng payload s1 rng1 past (Z.of_nat (length evs))) as Hsp.
      specialize (IH (past ++ [msg]) s1 rng1). destruct (recv_run s1 rng1 evs) as [[got s2] rng2] eqn:Hrun.
      cbn [fst] in *. rewrite app_assoc in Hone |- *.
      destruct Hsp as (Hfresh & Hall & Hok1); [unfold seqs_ok in *; lia|lia|done|done| |].
      { intros p q l r n off r' n' off' Hp Hq. apply (Hone p q l r n off r' n' off'); set_solver. }
      assert (Hsame : si_send_nonce s1 = si_send_nonce s \/ si_send_nonce s1 = 0).
      { pose proof (receive_cases s msg now rng) as Hc. rewrite Hr in Hc.
        destruct Hc as (? & ? & ? & ? & _ & _ & [(_ & _ & ->)|[(_ & _ & ->)|[(_ & _ & ->)|(_ & _ & ? & -> & _)]]]);
          [unfold seqs_ok in *; lia|by left..|by right]. }
      apply IH; [done|destruct Hsame as [->| ->]; [done|unfold is_u64; lia]|destruct Hsame as [->| ->]; unfold is_u64 in Hu; lia
                |done| |done].
      apply NoDup_app. split_and!; [done| |apply NoDup_singleton]. intros x Hx ->%list_elem_of_singleton. done.
    + pose proof (receive_cases s msg now rng) as Hc. rewrite Hr in Hc.
      specialize (Hc ltac:(unfold seqs_ok in *; lia)) as ->.
      specialize (IH past s rng1). destruct (recv_run s rng1 evs) as [[got s2] rng2]. cbn [fst app] in *.
      apply IH; try done; [unfold seqs_ok in *; lia|lia].
  - pose proof (send_snapshot_slots s rng Hu ltac:(lia)) as Hs. destruct (send_snapshot s rng) as [[snap s1] rng1]. subst s1.
    specialize (IH past (s <| si_send_nonce := si_send_nonce s + 1 |>) rng1).
    destruct (recv_run _ rng1 evs) as [[got s2] rng2]. cbn [fst app] in *.
    apply IH; try done; unfold seqs_ok, is_u64 in *; simpl; lia.
  - specialize (IH past (send_finalize s len now) rng). destruct (recv_run _ rng evs) as [[got s2] rng2]. cbn [fst app] in *.
    apply IH; try done; unfold seqs_ok, is_u64 in *; simpl; lia.
Qed.

(** C11: No replays between two handshakes. A session that has had its first
    handshake update accepts no traffic message twice, however the network
    duplicates and reorders messages, across ratchets of the keys and while
    writers send, as long as no handshake resets the session. The peer uses each
    of its keys for one key of this node (as [session_nonces_unique] shows of
    this implementation), and key numbers and nonces do not overflow. *)
Theorem session_rejects_replays s rng evs :
  let k := Z.of_nat (length evs) in
  seqs_ok s k -> is_u64 (si_send_nonce s) -> si_send_nonce s + k < 2 ^ 64 ->
  let '(accepted, _, _) := recv_run s rng evs in
  one_target accepted -> NoDup accepted.
Proof.
  intros k Hok Hu Hn. pose proof (recv_run_nodup evs [] s rng Hok Hu Hn (Forall_nil_2 _) (NoDup_nil_2)) as H.
  by destruct (recv_run s rng evs) as [[accepted s'] rng'].
Qed.
End Traffic.
