(* ===== verification/SessionPair.v ===== *)
(** * SessionPair: two endpoints of a session

    Two nodes that run [encrypted/session.rs] against each other over a network
    that may lose, repeat and reorder messages: the key windows of the two
    sides stay aligned, a handshake establishes such a pair and delivers the
    first message, and two situations in which the handshake weakens it. *)

From S2P Require Import Prelude.
From S2P Require Import Wire.
From S2P Require Import Crypto.
From S2P Require Import Session.
From S2P Require Import SessionFacts.
From stdpp Require Import options.
Open Scope Z_scope.

Section Pair.
Context `{DK : Dalek} `{CB : !CryptoBox}.

(** What a side has sent to the other. *)
Inductive wire_item := WTraffic (msg payload : bytes) | WInit (init : SessionInit).

Record Side := mkSide { sd_info : SessionInfo; sd_rng : nat; sd_out : list wire_item }.

Inductive side_event :=
| SideSend (payload : bytes) (now : Z)
| SideAnnounce (unix : Z)
| SideReceive (i : nat) (now : Z).

(** A step of [me]; a received item is any earlier one of the peer. *)
Definition side_step (me peer : Side) (ev : side_event) : Side :=
  match ev with
  | SideSend payload now =>
      match do_send (sd_info me) payload now (sd_rng me) with
      | (Ok msg, s, rng) => mkSide s rng (sd_out me ++ [WTraffic msg payload])
      | (Err _, s, rng) => mkSide s rng (sd_out me)
      end
  | SideAnnounce unix => mkSide (sd_info me) (sd_rng me) (sd_out me ++ [WInit (session_init_of (sd_info me) unix)])
  | SideReceive i now =>
      match sd_out peer !! i with
      | Some (WTraffic msg _) => let '(_, s, rng) := receive (sd_info me) msg now (sd_rng me) in mkSide s rng (sd_out me)
      | Some (WInit init) =>
          if in_seq init >? si_seq (sd_info me) then
            let '(s, rng) := handle_update (sd_info me) init now (sd_rng me) in mkSide s rng (sd_out me)
          else me
      | None => me
      end
  end.

(** A run of both sides; [true] is a step of the first. *)
Fixpoint pair_run (a b : Side) (evs : list (bool * side_event)) : Side * Side :=
  match evs with
  | [] => (a, b)
  | (true, ev) :: evs => pair_run (side_step a b ev) b evs
  | (false, ev) :: evs => pair_run a (side_step b a ev) evs
  end.

(** ** Alignment

    [keys] are all local keys a side has used or announced, by key number. *)

Definition key_at (keys : list CurvePrivateKey) (l : Z) (k : CurvePrivateKey) : Prop :=
  0 <= l /\ keys !! Z.to_nat l = Some k.

Record local_ok (s : SessionInfo) (keys : list CurvePrivateKey) : Prop := {
  lo_length : Z.of_nat (length keys) = si_local_key_seq s + 2;
  lo_recv : key_at keys (si_local_key_seq s - 1) (si_recv_priv s);
  lo_send : key_at keys (si_local_key_seq s) (si_send_priv s);
  lo_next : key_at keys (si_local_key_seq s + 1) (si_next_priv s);
  lo_send_pub : si_send_pub s = box_public_key (si_send_priv s);
  lo_next_pub : si_next_pub s = box_public_key (si_next_priv s);
  lo_nonce : is_u64 (si_send_nonce s)
}.

Record view_ok (s : SessionInfo) (peer_keys : list CurvePrivateKey) : Prop := {
  vo_current : exists k, key_at peer_keys (si_remote_key_seq s) k /\ si_current s = box_public_key k;
  vo_next : exists k, key_at peer_keys (si_remote_key_seq s + 1) k /\ si_next s = box_public_key k;
  vo_recv : si_recv_shared s = make_salsa_box (si_current s) (si_recv_priv s);
  vo_send : si_send_shared s = make_salsa_box (si_current s) (si_send_priv s);
  vo_next_send : si_next_send_shared s = make_salsa_box (si_next s) (si_send_priv s);
  vo_next_recv : si_next_recv_shared s = make_salsa_box (si_next s) (si_recv_priv s)
}.

(** An item of a side: traffic sealed with a key of its own for a key of the
    peer, carrying the key after it; or an announcement of two keys in a row. *)
Definition item_ok (keys peer_keys : list CurvePrivateKey) (it : wire_item) : Prop :=
  match it with
  | WTraffic msg payload => exists l r n kl kn kr c,
      key_at keys l kl /\ key_at keys (l + 1) kn /\ key_at peer_keys r kr /\ is_u64 n
      /\ msg = traffic_header l r n ++ c /\ length c = (32 + length payload + BOX_OVERHEAD)%nat
      /\ box_open_precomputed c n (make_salsa_box (box_public_key kr) kl) = Some (box_public_key kn ++ payload)
  | WInit init => exists kl kn,
      key_at keys (in_key_seq init) kl /\ key_at keys (in_key_seq init + 1) kn
      /\ in_current init = box_public_key kl /\ in_next init = box_public_key kn
  end.

Record side_ok (me : Side) (keys peer_keys : list CurvePrivateKey) : Prop := {
  so_local : local_ok (sd_info me) keys;
  so_view : view_ok (sd_info me) peer_keys;
  so_out : Forall (item_ok keys peer_keys) (sd_out me)
}.

Definition paired (a b : Side) : Prop := exists ka kb, side_ok a ka kb /\ side_ok b kb ka.

Lemma key_at_app keys k' l k : key_at keys l k -> key_at (keys ++ k') l k.
Proof. intros [? Hk]. split; [done|]. by apply lookup_app_l_Some. Qed.

Lemma key_at_fun keys l k k' : key_at keys l k -> key_at keys l k' -> k = k'.
Proof. intros [_ H1] [_ H2]. congruence. Qed.

Lemma key_at_lt keys l k : key_at keys l k -> 0 <= l < Z.of_nat (length keys).
Proof. intros [? Hk%lookup_lt_Some]. lia. Qed.

Lemma item_ok_app keys peer_keys k k' it : item_ok keys peer_keys it -> item_ok (keys ++ k) (peer_keys ++ k') it.
Proof.
  destruct it as [msg payload|init]; simpl.
  - intros (l & r & n & kl & kn & kr & c & H1 & H2 & H3 & H4). exists l, r, n, kl, kn, kr, c.
    split_and!; try apply key_at_app; try done; apply H4.
  - intros (kl & kn & H1 & H2 & H3). exists kl, kn. split_and!; try apply key_at_app; try done; apply H3.
Qed.

Lemma view_ok_app s keys k : view_ok s keys -> view_ok s (keys ++ k).
Proof.
  intros [(k1 & ? & ?) (k2 & ? & ?) ? ? ? ?]. split; try done; [exists k1|exists k2]; split; try done; by apply key_at_app.
Qed.

(** More keys on either side. *)
Lemma side_ok_peer_app me keys peer_keys k : side_ok me keys peer_keys -> side_ok me keys (peer_keys ++ k).
Proof.
  intros [L V O]. split; [done|by apply view_ok_app|]. eapply Forall_impl; [exact O|]. intros it Hit.
  rewrite <- (app_nil_r keys). by apply item_ok_app.
Qed.

Lemma side_ok_grow me s rng keys peer_keys k : side_ok me keys peer_keys ->
  local_ok s (keys ++ k) -> view_ok s peer_keys -> side_ok (mkSide s rng (sd_out me)) (keys ++ k) peer_keys.
Proof.
  intros [_ _ O] L V. split; [done|done|]. simpl. eapply Forall_impl; [exact O|]. intros it Hit.
  rewrite <- (app_nil_r peer_keys). by apply item_ok_app.
Qed.

(** The local keys after a rotation. *)
Lemma rotated_local s s' keys k :
  local_ok s keys -> si_local_key_seq s + 1 < 2 ^ 64 ->
  si_local_key_seq s' = wrap64 (si_local_key_seq s + 1) ->
  si_recv_priv s' = si_send_priv s -> si_send_priv s' = si_next_priv s -> si_send_pub s' = si_next_pub s ->
  si_next_priv s' = k -> si_next_pub s' = box_public_key k -> is_u64 (si_send_nonce s') ->
  local_ok s' (keys ++ [k]).
Proof.
  intros [Ll Lr Ls Ln Lsp Lnp _] Hb E1 E2 E3 E4 E5 E6 E7.
  pose proof (key_at_lt _ _ _ Ls). rewrite wrap64_id in E1 by (unfold is_u64; lia).
  split; rewrite ?E1, ?E2, ?E3, ?E4, ?E5, ?E6.
  - rewrite length_app. simpl. lia.
  - replace (si_local_key_seq s + 1 - 1) with (si_local_key_seq s) by lia. by apply key_at_app.
  - by apply key_at_app.
  - split; [lia|]. rewrite lookup_app_r by lia. replace (Z.to_nat _ - length keys)%nat with 0%nat by lia. done.
  - done.
  - done.
  - done.
Qed.

(** ** Steps keep the alignment *)

Section Steps.
Context `{BL : !BoxLaws}.

(** Numbers of keys that fit 64 bits. *)
Definition keys_small (keys : list CurvePrivateKey) : Prop := Z.of_nat (length keys) + 2 < 2 ^ 64.

Lemma key_at_u64 keys l k : keys_small keys -> key_at keys l k -> is_u64 l.
Proof. intros Hs Hk%key_at_lt. unfold keys_small, is_u64 in *. lia. Qed.

Lemma local_seqs s keys peer_keys : local_ok s keys -> view_ok s peer_keys -> keys_small keys -> keys_small peer_keys ->
  seqs_ok s 0.
Proof.
  intros L V Hk Hp. destruct (vo_next _ _ V) as (kn & Hn & _). destruct (vo_current _ _ V) as (kc & Hc & _).
  pose proof (key_at_lt _ _ _ (lo_recv _ _ L)). pose proof (lo_length _ _ L).
  apply key_at_lt in Hn, Hc. unfold keys_small, seqs_ok in *. lia.
Qed.

(** An item that the receiver selects a slot for opens to its payload. *)
Lemma open_item s keys peer_keys msg payload snap :
  local_ok s keys -> view_ok s peer_keys -> keys_small keys -> keys_small peer_keys ->
  item_ok peer_keys keys (WTraffic msg payload) -> recv_snapshot s msg = Ok snap ->
  exists kn, decrypt_outside_lock snap msg = Ok (payload, box_public_key kn)
    /\ rs_remote_key_seq snap = si_remote_key_seq s
    /\ (rs_case snap <> CurrentToRecv -> key_at peer_keys (si_remote_key_seq s + 2) kn).
Proof using BL.
  intros L V Hk Hp (l & r & n & kl & kn & kr & c & Kl & Kn & Kr & Hn & -> & Hlen & Hopen).
  rewrite recv_snapshot_eq. pose proof (key_at_u64 _ _ _ Hp Kl) as Ul. pose proof (key_at_u64 _ _ _ Hk Kr) as Ur.
  rewrite parse_header_ok by (done || lia). destruct (recv_slot s l r) as [[[last shared] case]|] eqn:Hslot; [|done].
  apply recv_slot_cases in Hslot; [|by eapply local_seqs|done|done]. destruct (negb _); [done|]. intros [= <-].
  assert (Hshared : shared = make_salsa_box (box_public_key kr) kl).
  { unfold make_salsa_box. rewrite box_symmetric. destruct V as [(k1 & K1 & C1) (k2 & K2 & C2) Vr _ Vs Vnr], L as [_ Lr Ls _ _ _ _].
    destruct case; destruct Hslot as (-> & -> & _ & ->).
    - rewrite Vr, C1, (key_at_fun _ _ _ _ Kr Lr), (key_at_fun _ _ _ _ Kl K1). done.
    - rewrite Vs, C2, (key_at_fun _ _ _ _ Kr Ls), (key_at_fun _ _ _ _ Kl K2). done.
    - rewrite Vnr, C2, (key_at_fun _ _ _ _ Kr Lr), (key_at_fun _ _ _ _ Kl K2). done. }
  exists kn. split_and!.
  - unfold decrypt_outside_lock. cbn [rs_encrypted_offset rs_nonce rs_shared]. rewrite (drop_app_exact (traffic_header l r n)) by done. rewrite Hshared, Hopen.
    cbn [ok_or]. rewrite bind_ok. pose proof (proj1 (box_public_wf kn)) as Hkn. change PUBLIC_KEY_SIZE with 32%nat in Hkn.
    rewrite (proj2 (Nat.ltb_ge _ _)) by (rewrite length_app; lia).
    by rewrite (drop_app_exact (box_public_key kn)), (take_app_exact (box_public_key kn)) by done.
  - done.
  - cbn [rs_case]. intros Hc. destruct case; [done|..]; destruct Hslot as (-> & _); by rewrite <- Z.add_assoc in Kn.
Qed.

Lemma side_send_ok me peer keys peer_keys payload now : side_ok me keys peer_keys -> keys_small keys -> keys_small peer_keys ->
  exists k, (length k <= 1)%nat /\ side_ok (side_step me peer (SideSend payload now)) (keys ++ k) peer_keys.
Proof using BL.
  intros [L V O] Hk Hp. cbn [side_step]. unfold do_send.
  (* the state after the snapshot *)
  assert (Hsnap : exists k, (length k <= 1)%nat /\ let '(snap, s', rng') := send_snapshot (sd_info me) (sd_rng me) in
    local_ok s' (keys ++ k) /\ view_ok s' peer_keys
    /\ snap = mkSendSnapshot (si_local_key_seq s') (si_remote_key_seq s') (si_send_nonce s') (si_next_pub s') (si_send_shared s')).
  { unfold send_snapshot. cbn [si_send_nonce set_field].
    destruct (wrap64 (si_send_nonce (sd_info me) + 1) =? 0).
    - exists [os_rng (sd_rng me)]. split; [done|]. cbn [rotate_local new_box_keys]. split_and!; [| |done].
      + apply (rotated_local (sd_info me)); try done.
        pose proof (key_at_lt _ _ _ (lo_next _ _ L)). unfold keys_small in Hk. lia.
      + destruct V. by split.
    - exists []. split; [simpl; lia|]. rewrite app_nil_r. split_and!; [|by destruct V|done].
      destruct L. split; try done. apply wrap64_is_u64. }
  destruct Hsnap as (k & Hlen & Hsnap). destruct (send_snapshot (sd_info me) (sd_rng me)) as [[snap s'] rng'].
  destruct Hsnap as (L' & V' & ->). exists k. split; [done|].
  assert (Hk' : Z.of_nat (length (keys ++ k)) < 2 ^ 64) by (rewrite length_app; unfold keys_small in Hk; lia).
  assert (Us : is_u64 (si_local_key_seq s')).
  { pose proof (key_at_lt _ _ _ (lo_send _ _ L')). unfold is_u64. lia. }
  destruct (vo_current _ _ V') as (kr & Kr & Hcur).
  destruct (encrypt_outside_lock_ok (mkSendSnapshot (si_local_key_seq s') (si_remote_key_seq s') (si_send_nonce s')
    (si_next_pub s') (si_send_shared s')) payload) as (c & -> & Hc & Ho).
  { split_and!; simpl; [done|by eapply key_at_u64|apply L'|]. rewrite (lo_next_pub _ _ L'). apply box_public_wf. }
  split; cbn [sd_info sd_out].
  - destruct L'. by split.
  - destruct V'. by split.
  - apply Forall_app_2.
    + eapply Forall_impl; [exact O|]. intros it Hit. rewrite <- (app_nil_r peer_keys). by apply item_ok_app.
    + constructor; [|done]. exists (si_local_key_seq s'), (si_remote_key_seq s'), (si_send_nonce s'), (si_send_priv s'),
        (si_next_priv s'), kr, c.
      split_and!; [apply L'|apply L'|done|apply L'|done|exact Hc|]. simpl in Ho.
      by rewrite <- (lo_next_pub _ _ L'), <- Hcur, <- (vo_send _ _ V').
Qed.

(** The state after an item was received: the same keys, or one more. *)
Lemma receive_ok s rng keys peer_keys msg payload now :
  local_ok s keys -> view_ok s peer_keys -> keys_small keys -> keys_small peer_keys ->
  item_ok peer_keys keys (WTraffic msg payload) ->
  exists k, (length k <= 1)%nat /\ let '(_, s', _) := receive s msg now rng in
    local_ok s' (keys ++ k) /\ view_ok s' peer_keys.
Proof using BL.
  intros L V Hk Hp Hit. unfold receive. destruct (recv_snapshot s msg) as [snap|] eqn:Hsnap.
  2:{ exists []. rewrite app_nil_r. split; [simpl; lia|done]. }
  destruct (open_item s keys peer_keys msg payload snap) as (kn & -> & Hrem & Hkn); [done..|].
  unfold recv_finalize. rewrite Hrem, Z.eqb_refl. cbn [negb].
  assert (Hstay : forall s', local_ok s' keys /\ view_ok s' peer_keys ->
    exists k : list CurvePrivateKey, (length k <= 1)%nat /\ local_ok s' (keys ++ k) /\ view_ok s' peer_keys).
  { intros s' Hs'. exists []. rewrite app_nil_r. split; [simpl; lia|done]. }
  assert (Hb : si_local_key_seq s + 1 < 2 ^ 64).
  { pose proof (key_at_lt _ _ _ (lo_next _ _ L)). unfold keys_small in Hk. lia. }
  assert (Hrot : rs_case snap <> CurrentToRecv -> forall s0 nonce,
    si_remote_key_seq s0 = si_remote_key_seq s -> si_next s0 = si_next s -> local_ok s0 keys ->
    si_local_key_seq s0 = si_local_key_seq s ->
    local_ok (ratcheted s0 (box_public_key kn) nonce now rng) (keys ++ [os_rng rng])
    /\ view_ok (ratcheted s0 (box_public_key kn) nonce now rng) peer_keys).
  { intros Hc s0 nonce E1 E2 L0 E3. split.
    - apply (rotated_local s0); try done. by rewrite E3.
    - specialize (Hkn Hc). destruct (vo_next _ _ V) as (k2 & K2 & C2).
      assert (E : wrap64 (si_remote_key_seq s0 + 1) = si_remote_key_seq s + 1).
      { rewrite E1. apply wrap64_id. by eapply key_at_u64. }
      split; cbn [ratcheted si_remote_key_seq si_current si_next]; rewrite ?E; try done.
      + exists k2. by rewrite E2.
      + exists kn. by rewrite <- Z.add_assoc. }
  destruct (rs_case snap) eqn:Hcase.
  - apply Hstay. destruct L, V. by split; split.
  - destruct (maybe_ratchet_cases (s <| si_next_send_nonce := rs_nonce snap |>) (box_public_key kn) (rs_nonce snap) now rng) as [->| ->].
    + apply Hstay. destruct L, V. by split; split.
    + exists [os_rng rng]. split; [done|]. destruct (Hrot ltac:(done) (s <| si_next_send_nonce := rs_nonce snap |>) (rs_nonce snap))
        as [L' V']; try done; [by destruct L|]. destruct L', V'. by split; split.
  - destruct (maybe_ratchet_cases (s <| si_next_recv_nonce := rs_nonce snap |>) (box_public_key kn) (rs_nonce snap) now rng) as [->| ->].
    + apply Hstay. destruct L, V. by split; split.
    + exists [os_rng rng]. split; [done|]. destruct (Hrot ltac:(done) (s <| si_next_recv_nonce := rs_nonce snap |>) (rs_nonce snap))
        as [L' V']; try done; [by destruct L|]. destruct L', V'. by split; split.
Qed.

Lemma update_ok s rng keys peer_keys init now :
  local_ok s keys -> keys_small keys -> item_ok peer_keys keys (WInit init) ->
  let '(s', _) := handle_update s init now rng in local_ok s' (keys ++ [os_rng rng]) /\ view_ok s' peer_keys.
Proof.
  intros L Hk (kl & kn & K1 & K2 & C1 & C2). rewrite handle_update_eq. split.
  - apply (rotated_local s); try done; [|apply L]. pose proof (key_at_lt _ _ _ (lo_next _ _ L)). unfold keys_small in Hk. lia.
  - split; cbn; try done; [by exists kl|by exists kn].
Qed.

Lemma side_step_ok me peer keys peer_keys ev :
  side_ok me keys peer_keys -> side_ok peer peer_keys keys -> keys_small keys -> keys_small peer_keys ->
  exists k, (length k <= 1)%nat /\ side_ok (side_step me peer ev) (keys ++ k) peer_keys.
Proof using BL.
  intros Hme Hpeer Hk Hp. destruct ev as [payload now|unix|i now].
  - by apply side_send_ok.
  - exists []. rewrite app_nil_r. split; [simpl; lia|]. destruct Hme as [L V O]. split; [done|done|]. cbn [side_step sd_out].
    apply Forall_app_2; [done|]. constructor; [|done]. exists (si_send_priv (sd_info me)), (si_next_priv (sd_info me)).
    destruct L. by split_and!.
  - assert (Hstay : exists k, (length k <= 1)%nat /\ side_ok me (keys ++ k) peer_keys).
    { exists []. rewrite app_nil_r. split; [simpl; lia|done]. }
    cbn [side_step]. destruct (sd_out peer !! i) as [[msg payload|init]|] eqn:Hi; [..|done].
    + pose proof (Forall_lookup_1 _ _ _ _ (so_out _ _ _ Hpeer) Hi) as Hit.
      destruct (receive_ok (sd_info me) (sd_rng me) keys peer_keys msg payload now) as (k & Hlen & Hr);
        [apply Hme|apply Hme|done..|]. exists k. split; [done|].
      destruct (receive (sd_info me) msg now (sd_rng me)) as [[r s'] rng']. destruct Hr. by apply side_ok_grow.
    + pose proof (Forall_lookup_1 _ _ _ _ (so_out _ _ _ Hpeer) Hi) as Hit. destruct (_ >? _); [|done].
      pose proof (update_ok (sd_info me) (sd_rng me) keys peer_keys init now (so_local _ _ _ Hme) Hk Hit) as Hu.
      destruct (handle_update (sd_info me) init now (sd_rng me)) as [s' rng']. destruct Hu.
      exists [os_rng (sd_rng me)]. split; [done|]. by apply side_ok_grow.
Qed.

Lemma pair_run_ok evs a b ka kb : side_ok a ka kb -> side_ok b kb ka ->
  Z.of_nat (length ka) + Z.of_nat (length evs) + 2 < 2 ^ 64 -> Z.of_nat (length kb) + Z.of_nat (length evs) + 2 < 2 ^ 64 ->
  let '(a', b') := pair_run a b evs in exists ka' kb', side_ok a' ka' kb' /\ side_ok b' kb' ka'
    /\ keys_small ka' /\ keys_small kb'.
Proof using BL.
  revert a b ka kb. induction evs as [|[[] ev] evs IH]; intros a b ka kb Ha Hb Hka Hkb; cbn [pair_run].
  - exists ka, kb. simpl in *. unfold keys_small. split_and!; try done; lia.
  - rewrite length_cons in Hka, Hkb. destruct (side_step_ok a b ka kb ev Ha Hb) as (k & Hlen & Ha'); [unfold keys_small; lia..|].
    apply (IH _ _ (ka ++ k) kb); [done|by apply side_ok_peer_app|rewrite length_app; lia|lia].
  - rewrite length_cons in Hka, Hkb. destruct (side_step_ok b a kb ka ev Hb Ha) as (k & Hlen & Hb'); [unfold keys_small; lia..|].
    apply (IH _ _ ka (kb ++ k)); [by apply side_ok_peer_app|done|lia|rewrite length_app; lia].
Qed.

(** Traffic of [b] that [a] selects a key for opens, to what [b] sent. *)
Definition opens_right (a b : Side) : Prop :=
  forall i msg payload snap, sd_out b !! i = Some (WTraffic msg payload) -> recv_snapshot (sd_info a) msg = Ok snap ->
    exists key, decrypt_outside_lock snap msg = Ok (payload, key).

(** C9: The two sides of a session agree on keys. Start from an aligned pair
    and let both sides send traffic, announce their keys, and receive any
    earlier message of the other side, in any order, repeatedly or never, with
    their keys rotating at handshakes, ratchets and nonce roll-over. The pair
    stays aligned, and whenever a side accepts a message's key numbers, the key
    it selects opens the message, to exactly what the other side sent. *)
Theorem session_peers_agree evs a b ka kb :
  side_ok a ka kb -> side_ok b kb ka ->
  Z.of_nat (length ka) + Z.of_nat (length evs) + 2 < 2 ^ 64 ->
  Z.of_nat (length kb) + Z.of_nat (length evs) + 2 < 2 ^ 64 ->
  let '(a', b') := pair_run a b evs in paired a' b' /\ opens_right a' b' /\ opens_right b' a'.
Proof using BL.
  intros Ha Hb Hka Hkb. pose proof (pair_run_ok evs a b ka kb Ha Hb Hka Hkb) as Hrun.
  destruct (pair_run a b evs) as [a' b']. destruct Hrun as (ka' & kb' & [La Va Oa] & [Lb Vb Ob] & Sa & Sb).
  split_and!.
  - by exists ka', kb'.
  - intros i msg payload snap Hi Hs. destruct (open_item _ _ _ _ payload _ La Va Sa Sb (Forall_lookup_1 _ _ _ _ Ob Hi) Hs)
      as (kn & ? & _). eauto.
  - intros i msg payload snap Hi Hs. destruct (open_item _ _ _ _ payload _ Lb Vb Sb Sa (Forall_lookup_1 _ _ _ _ Oa Hi) Hs)
      as (kn & ? & _). eauto.
Qed.
End Steps.

(** ** Establishing a session *)

Section Establish.
Context `{BL : !BoxLaws} `{DL : !DalekLaws}.

Lemma send_handshake_ok m init sk sk_to msg_type : SessionInit_wf init ->
  exists data, send_handshake m init sk (sk_verifying_key_bytes sk_to) msg_type
      = ([SendToInner (sk_verifying_key_bytes sk_to) data], m <| sm_rng := S (sm_rng m) |>)
    /\ hd_error data = Some msg_type
    /\ SessionInit_decrypt data (ed25519_private_to_curve25519 sk_to) (sk_verifying_key_bytes sk)
         (preimage (sm_group_auth m)) = Ok init.
Proof using BL DL.
  intros Hwf. unfold send_handshake.
  destruct (SessionInit_encrypt_ok init sk sk_to msg_type (preimage (sm_group_auth m)) (sm_rng m) Hwf) as (data & -> & _ & ? & ?).
  by exists data.
Qed.

Lemma handle_data_init m from data ck sk now unix init :
  hd_error data = Some SESSION_TYPE_INIT -> SessionInit_decrypt data ck from (preimage (sm_group_auth m)) = Ok init ->
  handle_data m from data ck sk now unix = handle_init m from init sk now unix.
Proof. destruct data as [|t data]; [done|]. intros [= ->] Hd. unfold handle_data. by rewrite Hd. Qed.

Lemma handle_data_ack m from data ck sk now unix ack :
  hd_error data = Some SESSION_TYPE_ACK -> SessionInit_decrypt data ck from (preimage (sm_group_auth m)) = Ok ack ->
  handle_data m from data ck sk now unix = handle_ack m from ack sk now unix.
Proof. destruct data as [|t data]; [done|]. intros [= ->] Hd. unfold handle_data. by rewrite Hd. Qed.

Lemma handle_data_traffic m from l r n c ck sk now unix :
  handle_data m from (traffic_header l r n ++ c) ck sk now unix = handle_traffic m from (traffic_header l r n ++ c) sk now unix.
Proof. done. Qed.

Lemma public_length k : length (box_public_key k) = 32%nat.
Proof using BL. apply box_public_wf. Qed.

Lemma init_wf k1 k2 key_seq unix : is_u64 key_seq -> is_u64 unix ->
  SessionInit_wf (SessionInit_new (box_public_key k1) (box_public_key k2) key_seq unix).
Proof using BL. intros. split_and!; [apply public_length..|done|done]. Qed.

(** The first message opens a buffer and sends an Init. *)
Lemma establish_write m sk sk_to payload now unix :
  let to := sk_verifying_key_bytes sk_to in
  sm_sessions m !! to = None -> sm_buffers m !! to = None -> is_u64 unix ->
  let k0 := os_rng (sm_rng m) in let k1 := os_rng (S (sm_rng m)) in
  let init := SessionInit_new (box_public_key k0) (box_public_key k1) 0 unix in
  exists data, write_to m to payload sk now unix
      = ([SendToInner to data], m <| sm_buffers ::= <[to := mkSessionBuffer (Some payload) init k0 k1 now]> |>
                                  <| sm_rng := S (S (S (sm_rng m))) |>)
    /\ hd_error data = Some SESSION_TYPE_INIT
    /\ SessionInit_decrypt data (ed25519_private_to_curve25519 sk_to) (sk_verifying_key_bytes sk) (preimage (sm_group_auth m)) = Ok init.
Proof using BL DL.
  intros to Hs Hb Hu k0 k1 init. unfold write_to, buffer_and_init. rewrite Hs, Hb. cbv [new_box_keys].
  cbv beta iota zeta. cbn [sb_init sb_current_priv sb_next_priv sb_created].
  destruct (send_handshake_ok (m <| sm_buffers ::= <[to := mkSessionBuffer (Some payload) init k0 k1 now]> |>
    <| sm_rng := S (S (sm_rng m)) |>) init sk sk_to SESSION_TYPE_INIT) as (data & Hsend & ? & ?).
  { apply init_wf; [unfold is_u64; lia|done]. }
  exists data. split_and!; [exact Hsend|done|done].
Qed.

(** The session a node without a buffer makes from an Init. *)
Definition answered (init : SessionInit) (now : Z) (rng : nat) : SessionInfo :=
  (SessionInfo_new (in_current init) (in_next init) (in_seq init) now rng).1.

Lemma establish_init m sk sk_from init now unix data :
  let from := sk_verifying_key_bytes sk_from in
  sm_sessions m !! from = None -> sm_buffers m !! from = None -> is_u64 unix ->
  hd_error data = Some SESSION_TYPE_INIT ->
  SessionInit_decrypt data (ed25519_private_to_curve25519 sk) from (preimage (sm_group_auth m)) = Ok init ->
  let k1 := os_rng (S (sm_rng m)) in let k2 := os_rng (S (S (sm_rng m))) in
  let ack := SessionInit_new (box_public_key k1) (box_public_key k2) 0 unix in
  exists data', handle_data m from data (ed25519_private_to_curve25519 sk) sk now unix
      = ([SendToInner from data'], m <| sm_sessions ::= <[from := answered init now (sm_rng m)]> |>
                                     <| sm_rng := S (S (S (S (sm_rng m)))) |>)
    /\ hd_error data' = Some SESSION_TYPE_ACK
    /\ SessionInit_decrypt data' (ed25519_private_to_curve25519 sk_from) (sk_verifying_key_bytes sk) (preimage (sm_group_auth m)) = Ok ack.
Proof using BL DL.
  intros from Hs Hb Hu Ht Hd k1 k2 ack. rewrite (handle_data_init _ _ _ _ _ _ _ init) by done.
  unfold handle_init. rewrite Hs. unfold create_session_from_init, SessionInfo_new. cbv [new_box_keys]. cbv beta iota zeta.
  change (sm_buffers (m <| sm_rng := S (S (S (sm_rng m))) |>)) with (sm_buffers m). rewrite Hb. cbn [send_buffered].
  destruct (send_handshake_ok (m <| sm_sessions ::= <[from := answered init now (sm_rng m)]> |>
    <| sm_rng := S (S (S (sm_rng m))) |>) ack sk sk_from SESSION_TYPE_ACK) as (data' & Hsend & ? & ?).
  { apply init_wf; [unfold is_u64; lia|done]. }
  exists data'. split_and!; [|done|done]. change ((let '(acked, m) := send_handshake (m <| sm_sessions ::= <[from := answered init now (sm_rng m)]> |>
    <| sm_rng := S (S (S (sm_rng m))) |>) ack sk (sk_verifying_key_bytes sk_from) SESSION_TYPE_ACK in ([] ++ acked, m)) =
    ([SendToInner from data'], m <| sm_sessions ::= <[from := answered init now (sm_rng m)]> |> <| sm_rng := S (S (S (S (sm_rng m)))) |>)).
  by rewrite Hsend.
Qed.

(** The session a node with a buffer makes from an Ack: its announced keys come
    into use. *)
Definition initiated (ack : SessionInit) (k0 k1 kn : CurvePrivateKey) (now : Z) : SessionInfo :=
  mkSessionInfo (in_seq ack) (in_key_seq ack) (in_current ack) (in_next ack) 1
    k0 (box_public_key k0) (make_salsa_box (in_current ack) k0) 0
    k1 (box_public_key k1) (make_salsa_box (in_current ack) k1) 0
    kn (box_public_key kn)
    (make_salsa_box (in_next ack) k1) 0 (make_salsa_box (in_next ack) k0) 0
    now None now 0 0.

Lemma seq_after seq : 1 <= seq < 2 ^ 64 -> wrap64 (seq - 1) = seq - 1.
Proof. intros. apply wrap64_id. unfold is_u64. lia. Qed.

Lemma establish_ack m sk sk_from ack now unix data payload k0 k1 t created :
  let from := sk_verifying_key_bytes sk_from in
  sm_sessions m !! from = None ->
  sm_buffers m !! from = Some (mkSessionBuffer (Some payload) (SessionInit_new (box_public_key k0) (box_public_key k1) 0 t) k0 k1 created) ->
  is_u64 unix -> is_u64 (in_key_seq ack) -> 1 <= in_seq ack < 2 ^ 64 ->
  hd_error data = Some SESSION_TYPE_ACK ->
  SessionInit_decrypt data (ed25519_private_to_curve25519 sk) from (preimage (sm_group_auth m)) = Ok ack ->
  let kn := os_rng (S (S (S (sm_rng m)))) in
  exists data' c m', handle_data m from data (ed25519_private_to_curve25519 sk) sk now unix
      = ([SendToInner from data'; SendToInner from (traffic_header 1 (in_key_seq ack) 1 ++ c)], m')
    /\ hd_error data' = Some SESSION_TYPE_ACK
    /\ SessionInit_decrypt data' (ed25519_private_to_curve25519 sk_from) (sk_verifying_key_bytes sk) (preimage (sm_group_auth m))
        = Ok (SessionInit_new (box_public_key k1) (box_public_key kn) 1 unix)
    /\ length c = (32 + length payload + BOX_OVERHEAD)%nat
    /\ box_open_precomputed c 1 (make_salsa_box (in_current ack) k1) = Some (box_public_key kn ++ payload)
    /\ sm_sessions m' !! from = Some (send_finalize ((initiated ack k0 k1 kn now) <| si_send_nonce := 1 |>) (Z.of_nat (length payload)) now).
Proof using BL DL.
  intros from Hs Hb Hu Hks Hseq Ht Hd kn. rewrite (handle_data_ack _ _ _ _ _ _ _ ack) by done.
  unfold handle_ack. rewrite Hs. unfold create_session_from_init, SessionInfo_new. cbv [new_box_keys]. cbv beta iota zeta.
  change (sm_buffers (m <| sm_rng := S (S (S (sm_rng m))) |>)) with (sm_buffers m). rewrite Hb. cbn [sb_data sb_init].
  match goal with |- context [if in_seq ack >? si_seq ?i then _ else _] =>
    change (si_seq i) with (wrap64 (in_seq ack - 1)); set (base := i) end.
  rewrite seq_after by done. destruct (Z.gtb_spec (in_seq ack) (in_seq ack - 1)); [|lia].
  assert (Hup : handle_update base ack now (sm_rng (m <| sm_rng := S (S (S (sm_rng m))) |> <| sm_buffers ::= delete from |>))
    = (initiated ack k0 k1 kn now, S (S (S (S (sm_rng m)))))) by done.
  rewrite Hup. clear Hup. cbv beta iota zeta. clear base.
  set (m4 := (m <| sm_rng := S (S (S (sm_rng m))) |> <| sm_buffers ::= delete from |>) <| sm_rng := S (S (S (S (sm_rng m)))) |>).
  destruct (send_handshake_ok m4 (SessionInit_new (box_public_key k1) (box_public_key kn) 1 unix) sk sk_from SESSION_TYPE_ACK)
    as (data' & Hsend & ? & ?).
  { apply init_wf; [unfold is_u64; lia|done]. }
  match goal with |- context [send_handshake ?x ?y sk from SESSION_TYPE_ACK] =>
    change (send_handshake x y sk from SESSION_TYPE_ACK) with (send_handshake m4
      (SessionInit_new (box_public_key k1) (box_public_key kn) 1 unix) sk (sk_verifying_key_bytes sk_from) SESSION_TYPE_ACK) end.
  rewrite Hsend. cbv beta iota zeta. cbn [send_buffered]. unfold do_send, send_snapshot.
  change (wrap64 (si_send_nonce (initiated ack k0 k1 kn now) + 1)) with 1. cbn [si_send_nonce set_field Z.eqb]. cbv beta iota zeta.
  match goal with |- context [encrypt_outside_lock ?sn payload] => destruct (encrypt_outside_lock_ok sn payload) as (c & Henc & Hc & Ho) end.
  { split_and!; [unfold is_u64; simpl; lia|done|unfold is_u64; simpl; lia|apply public_length]. }
  exists data', c. eexists. rewrite Henc. split; [done|]. split_and!; [done|done|done|done|]. 
  cbn [sm_sessions set_field]. apply lookup_insert_eq.
Qed.

(** The answering side takes up the keys of the second Ack and opens the first
    message. *)
Lemma establish_deliver m sk sk_from init ack now now' data c payload kn k1 rng sb tail :
  let from := sk_verifying_key_bytes sk_from in
  sm_sessions m !! from = Some (answered init sb rng) -> 1 <= in_seq init < 2 ^ 64 -> in_seq init <= in_seq ack ->
  ack = SessionInit_new (box_public_key k1) (box_public_key kn) 1 (in_seq ack) ->
  hd_error data = Some SESSION_TYPE_ACK ->
  SessionInit_decrypt data (ed25519_private_to_curve25519 sk) from (preimage (sm_group_auth m)) = Ok ack ->
  length c = (32 + length payload + BOX_OVERHEAD)%nat ->
  box_open_precomputed c 1 (make_salsa_box (box_public_key (os_rng (S rng))) k1) = Some (box_public_key kn ++ payload) ->
  payload <> [] -> payload <> KEEPALIVE_PROBE -> payload <> KEEPALIVE_ACK ->
  let kb := [os_rng (S rng); os_rng (S (S rng)); os_rng (sm_rng m)] in
  forall ka, ka = tail :: k1 :: [kn] ->
  exists m' m'', handle_data m from data (ed25519_private_to_curve25519 sk) sk now (in_seq ack) = ([], m')
    /\ handle_data m' from (traffic_header 1 0 1 ++ c) (ed25519_private_to_curve25519 sk) sk now' (in_seq ack) = ([Deliver from payload], m'')
    /\ exists sB kb', sm_sessions m'' !! from = Some sB /\ (length kb' <= 1)%nat
        /\ local_ok sB (kb ++ kb') /\ view_ok sB ka.
Proof using BL DL.
  intros from Hs Hseq Hle Hack Ht Hd Hc Ho Hp1 Hp2 Hp3 kb ka Hka.
  rewrite (handle_data_ack _ _ _ _ _ _ _ ack) by done. unfold handle_ack. rewrite Hs.
  change (si_seq (answered init sb rng)) with (wrap64 (in_seq init - 1)). rewrite seq_after by done.
  destruct (Z.gtb_spec (in_seq ack) (in_seq init - 1)); [|lia].
  destruct (handle_update (answered init sb rng) ack now (sm_rng m)) as [sB rng'] eqn:Hup.
  eexists. 
  assert (HsB : (sB, rng') = handle_update (answered init sb rng) ack now (sm_rng m)) by done.
  rewrite handle_update_eq in HsB. injection HsB as HsB Hrng.
  assert (L : local_ok sB kb).
  { rewrite HsB. split; cbn; try done; unfold key_at; cbn; split_and!; try done; lia. }
  assert (V : view_ok sB ka).
  { rewrite HsB. split; cbn; try done; rewrite Hack, Hka; cbn; [exists k1|exists kn]; split; try done; unfold key_at; cbn; split; done || lia. }
  assert (Hit : item_ok ka kb (WTraffic (traffic_header 1 0 1 ++ c) payload)).
  { exists 1, 0, 1, k1, kn, (os_rng (S rng)), c. rewrite Hka. unfold key_at, is_u64. cbn. split_and!; done || lia. }
  assert (Sk : keys_small kb) by (unfold keys_small; simpl; lia). assert (Sa : keys_small ka) by (rewrite Hka; unfold keys_small; simpl; lia).
  assert (Hsnap : exists snap, recv_snapshot sB (traffic_header 1 0 1 ++ c) = Ok snap).
  { rewrite recv_snapshot_eq, parse_header_ok by (unfold is_u64; lia). rewrite HsB, Hack. cbn. by eexists. }
  destruct Hsnap as [snap Hsnap]. 
  destruct (open_item sB kb ka _ payload snap L V Sk Sa Hit Hsnap) as (key & Hdec & _).
  destruct (receive_ok sB rng' kb ka _ payload now' L V Sk Sa Hit) as (kb' & Hlen & Hrecv). unfold receive in Hrecv.
  rewrite Hsnap, Hdec in Hrecv.
  destruct (recv_finalize sB snap (box_public_key key) (Z.of_nat (length payload)) now' rng') as [sB' rng''] eqn:Hfin.
  eexists. split; [done|]. split.
  - rewrite handle_data_traffic. unfold handle_traffic. cbn [sm_sessions set_field]. rewrite lookup_insert_eq.
    rewrite Hsnap, Hdec. cbn [sm_rng set_field]. rewrite Hfin. rewrite !bool_decide_false by done. cbn [orb]. done.
  - exists sB', kb'. cbn [sm_sessions set_field]. split; [apply lookup_insert_eq|]. done.
Qed.

(** The keys of both sides after the handshake. *)
Lemma initiated_ok ack k0 k1 kn now b0 b1 bn len :
  ack = SessionInit_new (box_public_key b0) (box_public_key b1) 0 (in_seq ack) ->
  let s := send_finalize ((initiated ack k0 k1 kn now) <| si_send_nonce := 1 |>) len now in
  local_ok s [k0; k1; kn] /\ view_ok s (b0 :: b1 :: bn).
Proof.
  intros Hack s. split.
  - split; cbn; try done; unfold key_at, is_u64; cbn; split_and!; done || lia.
  - split; cbn; try done; rewrite Hack; cbn; [exists b0|exists b1]; split; try done; unfold key_at; cbn; split; done || lia.
Qed.

(** C23: A handshake establishes a session and delivers the first message. Two
    nodes with the same group password and no session between them: the first
    writes a message; once its Init, the other's Ack, and the first's Ack and
    traffic are handled in this order, the message has been delivered, exactly
    as written and attributed to the writer, and the two sessions are aligned
    pairs of keys. The clocks are past the epoch and the writer's does not run
    backwards. *)
Theorem session_establishes ska skb ma mb payload n0 n1 n2 n3 n4 t0 t1 t2 :
  let ka := sk_verifying_key_bytes ska in let kb := sk_verifying_key_bytes skb in
  let ca := ed25519_private_to_curve25519 ska in let cb := ed25519_private_to_curve25519 skb in
  sm_sessions ma !! kb = None -> sm_buffers ma !! kb = None -> sm_sessions mb !! ka = None -> sm_buffers mb !! ka = None ->
  preimage (sm_group_auth ma) = preimage (sm_group_auth mb) ->
  1 <= t0 < 2 ^ 64 -> 1 <= t1 < 2 ^ 64 -> t0 <= t2 < 2 ^ 64 ->
  payload <> [] -> payload <> KEEPALIVE_PROBE -> payload <> KEEPALIVE_ACK ->
  exists init ma1 ack mb1 ack2 traffic ma2 mb2 mb3,
    write_to ma kb payload ska n0 t0 = ([SendToInner kb init], ma1)
    /\ handle_data mb ka init cb skb n1 t1 = ([SendToInner ka ack], mb1)
    /\ handle_data ma1 kb ack ca ska n2 t2 = ([SendToInner kb ack2; SendToInner kb traffic], ma2)
    /\ handle_data mb1 ka ack2 cb skb n3 t2 = ([], mb2)
    /\ handle_data mb2 ka traffic cb skb n4 t2 = ([Deliver ka payload], mb3)
    /\ exists sa sb, sm_sessions ma2 !! kb = Some sa /\ sm_sessions mb3 !! ka = Some sb
       /\ paired (mkSide sa (sm_rng ma2) []) (mkSide sb (sm_rng mb3) []).
Proof using BL DL.
  intros ka kb ca cb Hsa Hba Hsb Hbb Hpre Ht0 Ht1 Ht2 Hp1 Hp2 Hp3.
  assert (U0 : is_u64 t0) by (unfold is_u64; lia). assert (U1 : is_u64 t1) by (unfold is_u64; lia).
  assert (U2 : is_u64 t2) by (unfold is_u64; lia).
  set (a0 := os_rng (sm_rng ma)). set (a1 := os_rng (S (sm_rng ma))).
  set (b1 := os_rng (S (sm_rng mb))). set (b2 := os_rng (S (S (sm_rng mb)))).
  set (ia := SessionInit_new (box_public_key a0) (box_public_key a1) 0 t0).
  set (ib := SessionInit_new (box_public_key b1) (box_public_key b2) 0 t1).
  set (buf := mkSessionBuffer (Some payload) ia a0 a1 n0).
  destruct (establish_write ma ska skb payload n0 t0 Hsa Hba U0) as (init & Hw & Hi1 & Hi2).
  rewrite Hpre in Hi2.
  destruct (establish_init mb skb ska ia n1 t1 init Hsb Hbb U1 Hi1 Hi2) as (ack & Hh1 & Ha1 & Ha2).
  rewrite <- Hpre in Ha2.
  set (ma1 := ma <| sm_buffers ::= <[kb := buf]> |> <| sm_rng := S (S (S (sm_rng ma))) |>).
  set (mb1 := mb <| sm_sessions ::= <[ka := answered ia n1 (sm_rng mb)]> |> <| sm_rng := S (S (S (S (sm_rng mb)))) |>).
  destruct (establish_ack ma1 ska skb ib n2 t2 ack payload a0 a1 t0 n0)
    as (ack2 & c & ma2 & Hh2 & Hk1 & Hk2 & Hlen & Hopen & Hs2);
    [exact Hsa|apply lookup_insert_eq|done|unfold is_u64; simpl; lia|simpl; lia|exact Ha1|exact Ha2|].
  set (an := os_rng (S (S (S (sm_rng ma1))))).
  change (preimage (sm_group_auth ma1)) with (preimage (sm_group_auth ma)) in Hk2. rewrite Hpre in Hk2.
  destruct (establish_deliver mb1 skb ska ia (SessionInit_new (box_public_key a1) (box_public_key an) 1 t2) n3 n4 ack2 c payload
      an a1 (sm_rng mb) n1 a0)  with (ka := [a0; a1; an]) as (mb2 & mb3 & Hh3 & Hh4 & sb & kb' & Hs3 & Hkb' & Lb & Vb);
    [apply lookup_insert_eq|simpl; lia|simpl; lia|reflexivity|exact Hk1|exact Hk2|exact Hlen|exact Hopen|done|done|done|reflexivity|].
  exists init, ma1, ack, mb1, ack2, (traffic_header 1 0 1 ++ c), ma2, mb2, mb3.
  split; [exact Hw|]. split; [exact Hh1|]. split; [exact Hh2|]. split; [exact Hh3|]. split; [exact Hh4|].
  eexists. exists sb. split; [exact Hs2|]. split; [exact Hs3|].
  destruct (initiated_ok ib a0 a1 an n2 b1 b2 (os_rng (sm_rng mb1) :: kb') (Z.of_nat (length payload)) eq_refl) as [La Va].
  exists [a0; a1; an], (b1 :: b2 :: os_rng (sm_rng mb1) :: kb'). split.
  - split; [exact La|exact Va|apply Forall_nil_2].
  - split; [exact Lb|exact Vb|apply Forall_nil_2].
Qed.

(** ** Simultaneous open *)

Lemma encrypt_outside_lock_sealed snap msg data : snapshot_wf snap -> encrypt_outside_lock snap msg = Ok data ->
  exists c, data = traffic_header (ss_local_key_seq snap) (ss_remote_key_seq snap) (ss_send_nonce snap) ++ c
    /\ salsa_encrypt (ss_send_shared snap) (nonce_for_u64 (ss_send_nonce snap)) (ss_next_pub snap ++ msg) = Some c.
Proof.
  intros (Hl & Hr & Hn & _). unfold encrypt_outside_lock, box_seal_precomputed.
  destruct (salsa_encrypt _ _ _) as [c|]; [|done]. cbn [ok_or]. rewrite bind_ok. intros [= <-]. exists c. split; [|done].
  rewrite !encode_uvarint_eq by done. unfold traffic_header. by rewrite <- !app_assoc.
Qed.

(** An Init that meets a buffer: the buffered message goes out under the keys
    just announced, without a rotation. *)
Lemma crossed_init m sk sk_from init now unix data payload k0 k1 t created :
  let from := sk_verifying_key_bytes sk_from in
  sm_sessions m !! from = None ->
  sm_buffers m !! from = Some (mkSessionBuffer (Some payload) (SessionInit_new (box_public_key k0) (box_public_key k1) 0 t) k0 k1 created) ->
  is_u64 unix -> hd_error data = Some SESSION_TYPE_INIT ->
  SessionInit_decrypt data (ed25519_private_to_curve25519 sk) from (preimage (sm_group_auth m)) = Ok init ->
  exists c data' m' s, handle_data m from data (ed25519_private_to_curve25519 sk) sk now unix
      = ([SendToInner from (traffic_header 0 0 1 ++ c); SendToInner from data'], m')
    /\ salsa_encrypt (make_salsa_box (in_current init) k0) (nonce_for_u64 1) (box_public_key k1 ++ payload) = Some c
    /\ (32 + BOX_OVERHEAD <= length c)%nat
    /\ sm_sessions m' !! from = Some s /\ si_local_key_seq s = 0 /\ si_remote_key_seq s = 0.
Proof using BL DL.
  intros from Hs Hb Hu Ht Hd. rewrite (handle_data_init _ _ _ _ _ _ _ init) by done.
  unfold handle_init. rewrite Hs. unfold create_session_from_init, SessionInfo_new. cbv [new_box_keys]. cbv beta iota zeta.
  change (sm_buffers (m <| sm_rng := S (S (S (sm_rng m))) |>)) with (sm_buffers m). rewrite Hb. cbn [sb_data sb_init].
  cbn [send_buffered]. unfold do_send, send_snapshot. cbn [si_send_nonce set_field fix_shared]. 
  change (wrap64 (0 + 1) =? 0) with false. cbv beta iota zeta.
  match goal with |- context [encrypt_outside_lock ?sn payload] => set (snap := sn) end.
  assert (Hwf : snapshot_wf snap) by (split_and!; [change (is_u64 0)|change (is_u64 0)|change (is_u64 1)|apply public_length]; unfold is_u64; lia).
  destruct (encrypt_outside_lock_ok snap payload Hwf) as (c & Henc & Hlen & _).
  destruct (encrypt_outside_lock_sealed snap payload _ Hwf Henc) as (c' & Hc & Hseal).
  apply app_inj_1 in Hc as [_ <-]; [|done]. rewrite Henc. cbv beta iota zeta.
  match goal with |- context [send_handshake ?x ?y sk from SESSION_TYPE_ACK] => 
    destruct (send_handshake_ok x y sk sk_from SESSION_TYPE_ACK) as (data' & Hsend & _) end.
  { apply init_wf; [unfold is_u64; simpl; lia|done]. }
  fold from in Hsend. rewrite Hsend. exists c, data'. do 2 eexists. split; [done|]. split; [exact Hseal|]. split; [lia|].
  cbn [sm_sessions set_field]. split; [apply lookup_insert_eq|]. done.
Qed.

(** C40: Two nodes that open sessions to each other at the same time seal their
    first messages with the same key and the same nonce. Both have written a
    message and receive the other's Init before an Ack. Each creates its session
    from the Init without rotating its keys, so both messages are sealed with
    the shared secret of the two announced keys and nonce 1, two plaintexts
    under one key stream; and neither side accepts the other's message, since
    its key numbers select no slot: it is answered with an Init. *)
Theorem simultaneous_open_reuses_nonce ska skb ma mb pa pb n0 n1 t :
  let ka := sk_verifying_key_bytes ska in let kb := sk_verifying_key_bytes skb in
  let ca := ed25519_private_to_curve25519 ska in let cb := ed25519_private_to_curve25519 skb in
  sm_sessions ma !! kb = None -> sm_buffers ma !! kb = None -> sm_sessions mb !! ka = None -> sm_buffers mb !! ka = None ->
  preimage (sm_group_auth ma) = preimage (sm_group_auth mb) -> 0 <= t < 2 ^ 64 ->
  exists ia ma1 ib mb1, write_to ma kb pa ska n0 t = ([SendToInner kb ia], ma1)
    /\ write_to mb ka pb skb n0 t = ([SendToInner ka ib], mb1)
    /\ exists sealed_a ack_a ma2 sealed_b ack_b mb2 key,
      handle_data ma1 kb ib ca ska n1 t = ([SendToInner kb (traffic_header 0 0 1 ++ sealed_a); SendToInner kb ack_a], ma2)
      /\ handle_data mb1 ka ia cb skb n1 t = ([SendToInner ka (traffic_header 0 0 1 ++ sealed_b); SendToInner ka ack_b], mb2)
      /\ (exists next, salsa_encrypt key (nonce_for_u64 1) (next ++ pa) = Some sealed_a)
      /\ (exists next, salsa_encrypt key (nonce_for_u64 1) (next ++ pb) = Some sealed_b)
      /\ exists sb, sm_sessions mb2 !! ka = Some sb /\ exists p q l,
           recv_snapshot sb (traffic_header 0 0 1 ++ sealed_a) = Err (SnapSendInit p q l).
Proof using BL DL.
  intros ka kb ca cb Hsa Hba Hsb Hbb Hpre Ht. assert (U : is_u64 t) by (unfold is_u64; lia).
  destruct (establish_write ma ska skb pa n0 t Hsa Hba U) as (ia & Hwa & Hia1 & Hia2).
  destruct (establish_write mb skb ska pb n0 t Hsb Hbb U) as (ib & Hwb & Hib1 & Hib2).
  rewrite Hpre in Hia2. rewrite <- Hpre in Hib2. exists ia. eexists. exists ib. eexists. split; [exact Hwa|]. split; [exact Hwb|].
  match type of Hwa with _ = (_, ?m) => 
    destruct (crossed_init m ska skb _ n1 t ib pa (os_rng (sm_rng ma)) (os_rng (S (sm_rng ma))) t n0 Hsa (lookup_insert_eq _ _ _) U Hib1 Hib2)
      as (sa & acka & ma2 & s1 & Ha & Hseala & Hla & _) end.
  match type of Hwb with _ = (_, ?m) => 
    destruct (crossed_init m skb ska _ n1 t ia pb (os_rng (sm_rng mb)) (os_rng (S (sm_rng mb))) t n0 Hsb (lookup_insert_eq _ _ _) U Hia1 Hia2)
      as (sb & ackb & mb2 & s2 & Hb & Hsealb & _ & Hs2 & L2 & R2) end.
  exists sa, acka, ma2, sb, ackb, mb2, (make_salsa_box (box_public_key (os_rng (sm_rng mb))) (os_rng (sm_rng ma))).
  split; [exact Ha|]. split; [exact Hb|]. split; [eexists; exact Hseala|].
  split; [eexists; unfold make_salsa_box in *; rewrite (box_symmetric (os_rng (sm_rng ma))); exact Hsealb|].
  exists s2. split; [exact Hs2|]. rewrite recv_snapshot_eq, parse_header_ok by (unfold is_u64; lia).
  unfold recv_slot. rewrite L2, R2. cbn. by do 3 eexists.
Qed.
End Establish.
End Pair.

(** ** A concrete exchange

    Alice and Bob with the small cipher of [SessionFacts]. *)

#[local] Existing Instance toy_dalek.
#[local] Existing Instance toy_box.
#[local] Existing Instance toy_dalek_laws.
#[local] Existing Instance toy_box_laws.

Definition alice : SigningKey := 200 : Z.
Definition bob : SigningKey := 201 : Z.
Definition alice_key : PublicKey := sk_verifying_key_bytes alice.
Definition bob_key : PublicKey := sk_verifying_key_bytes bob.

(** A manager without password whose random stream starts at [rng]. *)
Definition fresh_manager (rng : nat) : SessionManager := SessionManager_new (GroupAuth_new []) 60000000000 rng.

Definition to_alice (m : SessionManager) (data : bytes) (unix : Z) :=
  handle_data m bob_key data (ed25519_private_to_curve25519 alice) alice 0 unix.
Definition to_bob (m : SessionManager) (data : bytes) (unix : Z) :=
  handle_data m alice_key data (ed25519_private_to_curve25519 bob) bob 0 unix.

(** The [i]-th message of a list of actions. *)
Definition sent (i : nat) (r : list OutAction * SessionManager) : bytes :=
  match fst r !! i with Some (SendToInner _ data) => data | _ => [] end.

(** The handshake of [session_establishes], step by step. *)
Definition open0 := write_to (fresh_manager 0) bob_key [7; 8; 9] alice 0 10.
Definition open1 := to_bob (fresh_manager 100) (sent 0 open0) 10.
Definition open2 := to_alice (snd open0) (sent 0 open1) 10.
Definition open3 := to_bob (snd open1) (sent 0 open2) 10.
Definition open4 := to_bob (snd open3) (sent 1 open2) 10.

(** Bob writes, Alice ratchets; Alice writes, Bob ratchets; Bob writes again. *)
Definition talk1 := write_to (snd open4) alice_key [1] bob 0 10.
Definition talk2 := to_alice (snd open2) (sent 0 talk1) 10.
Definition talk3 := write_to (snd talk2) bob_key [2] alice 0 10.
Definition talk4 := to_bob (snd talk1) (sent 0 talk3) 10.
Definition talk5 := write_to (snd talk4) alice_key [3] bob 0 10.
Definition talk6 := to_alice (snd talk3) (sent 0 talk5) 10.

(** Somebody sends Bob bytes that claim to be traffic of Alice: Bob announces
    his keys again, and Alice takes them up. *)
Definition junk : bytes := traffic_header 99 99 99 ++ replicate 48 0.
Definition reinit := to_bob (snd talk5) junk 11.
Definition reinit_taken := to_alice (snd talk6) (sent 0 reinit) 11.

(** A handshake reopens the door to replays. Within a minute of a ratchet,
    Alice accepts Bob's message [3] without ratcheting again; a forged traffic
    header then makes Bob announce his present keys, and taking them up resets
    Alice's nonce for exactly the keys that message was sealed with: the same
    bytes are delivered a second time. *)
Theorem reinit_allows_replay :
  fst (to_alice (snd talk3) (sent 0 talk5) 10) = [Deliver bob_key [3]]
  /\ fst reinit = [SendToInner alice_key (sent 0 reinit)]
  /\ fst (to_alice (snd talk6) (sent 0 talk5) 10) = []
  /\ fst (to_alice (snd reinit_taken) (sent 0 talk5) 11) = [Deliver bob_key [3]].
Proof. vm_compute. done. Qed.

(** ** Witnesses *)

Lemma session_establishes_witness :
  exists init ma1 ack mb1 ack2 traffic ma2 mb2 mb3,
    write_to (fresh_manager 0) bob_key [7; 8; 9] alice 0 10 = ([SendToInner bob_key init], ma1)
    /\ to_bob (fresh_manager 100) init 10 = ([SendToInner alice_key ack], mb1)
    /\ to_alice ma1 ack 10 = ([SendToInner bob_key ack2; SendToInner bob_key traffic], ma2)
    /\ to_bob mb1 ack2 10 = ([], mb2) /\ to_bob mb2 traffic 10 = ([Deliver alice_key [7; 8; 9]], mb3).
Proof.
  destruct (session_establishes alice bob (fresh_manager 0) (fresh_manager 100) [7; 8; 9] 0 0 0 0 0 10 10 10)
    as (init & ma1 & ack & mb1 & ack2 & traffic & ma2 & mb2 & mb3 & H1 & H2 & H3 & H4 & H5 & _);
    [reflexivity|reflexivity|reflexivity|reflexivity|reflexivity|lia|lia|lia|discriminate|discriminate|discriminate|].
  exists init, ma1, ack, mb1, ack2, traffic, ma2, mb2, mb3. split_and!; assumption.
Defined.

Lemma simultaneous_open_reuses_nonce_witness : exists ia ma1,
  write_to (fresh_manager 0) bob_key [7; 8; 9] alice 0 10 = ([SendToInner bob_key ia], ma1).
Proof.
  destruct (simultaneous_open_reuses_nonce alice bob (fresh_manager 0) (fresh_manager 100) [7; 8; 9] [4; 5] 0 0 10)
    as (ia & ma1 & ib & mb1 & H1 & _); [reflexivity|reflexivity|reflexivity|reflexivity|reflexivity|lia|].
  exists ia, ma1. exact H1.
Defined.

(** The sessions of the established pair. *)
Definition session_of (m : SessionManager) (key : PublicKey) : SessionInfo :=
  default (answered (SessionInit_new [] [] 0 0) 0 0) (sm_sessions m !! key).

Definition alice_keys : list CurvePrivateKey := [os_rng 0; os_rng 1; os_rng 6].
Definition bob_keys : list CurvePrivateKey := [os_rng 101; os_rng 102; os_rng 104].
Definition alice_side : Side := mkSide (session_of (snd open2) bob_key) 8 [].
Definition bob_side : Side := mkSide (session_of (snd open4) alice_key) 105 [].

(** Alignment of concrete sessions, given the peer's two keys. *)
Ltac concrete_key := split; [vm_compute; discriminate|vm_compute; reflexivity].
Ltac concrete_side k1 k2 :=
  split;
  [ split; [vm_compute; reflexivity|concrete_key|concrete_key|concrete_key|vm_compute; reflexivity|vm_compute; reflexivity
           |vm_compute; split; [discriminate|reflexivity]]
  | split;
    [ exists k1; split; [concrete_key|vm_compute; reflexivity]
    | exists k2; split; [concrete_key|vm_compute; reflexivity]
    | vm_compute; reflexivity .. ]
  | apply Forall_nil_2 ].

Lemma session_peers_agree_witness :
  let '(a, b) := pair_run alice_side bob_side [(false, SideSend [1] 0); (true, SideReceive 0 0); (true, SideSend [2] 0);
                                              (true, SideReceive 0 0); (false, SideReceive 0 0); (false, SideAnnounce 11);
                                              (true, SideReceive 1 0)] in
  paired a b /\ opens_right a b /\ opens_right b a.
Proof.
  apply (session_peers_agree _ alice_side bob_side alice_keys bob_keys).
  - concrete_side (os_rng 101) (os_rng 102).
  - concrete_side (os_rng 1) (os_rng 6).
  - vm_compute. reflexivity.
  - vm_compute. reflexivity.
Defined.

Lemma toy_rng_fresh i j : os_rng i = os_rng j -> i = j.
Proof. intros [= H]. apply Nat2Z.inj, H. Qed.

Lemma session_nonces_unique_witness :
  let '(sent, _, _) := session_run (sd_info alice_side) 8
    [OpSend; OpSent 1 0; OpSend; OpUpdate (SessionInit_new [] [] 1 11) 0; OpSend] in
  NoDup ((fun e => (e.1, ss_send_nonce e.2)) <$> sent) /\ (forall e1 e2, e1 ∈ sent -> e2 ∈ sent -> same_epoch e1 e2).
Proof.
  apply (session_nonces_unique toy_rng_fresh (sd_info alice_side) 8
    [OpSend; OpSent 1 0; OpSend; OpUpdate (SessionInit_new [] [] 1 11) 0; OpSend]).
  - exists 1%nat, 6%nat. split_and!; [vm_compute; reflexivity|vm_compute; reflexivity|lia|lia|lia].
  - vm_compute. split; [discriminate|reflexivity].
  - vm_compute. discriminate.
  - vm_compute. reflexivity.
Defined.

(** Bob's first message, twice, with a message of Alice in between: accepted
    once. *)
Lemma session_rejects_replays_witness :
  let accepted := fst (fst (recv_run (sd_info alice_side) 8 [RvMessage (sent 0 talk1) 0; RvSend; RvMessage (sent 0 talk1) 0])) in
  accepted = [sent 0 talk1] /\ NoDup accepted.
Proof.
  assert (E : fst (fst (recv_run (sd_info alice_side) 8 [RvMessage (sent 0 talk1) 0; RvSend; RvMessage (sent 0 talk1) 0]))
    = [sent 0 talk1]) by (vm_compute; reflexivity).
  split; [exact E|].
  pose proof (session_rejects_replays (sd_info alice_side) 8 [RvMessage (sent 0 talk1) 0; RvSend; RvMessage (sent 0 talk1) 0]) as H.
  destruct (recv_run (sd_info alice_side) 8 [RvMessage (sent 0 talk1) 0; RvSend; RvMessage (sent 0 talk1) 0]) as [[acc s] rng].
  apply H; clear H.
  - vm_compute. repeat split; first [reflexivity|discriminate].
  - vm_compute. split; [discriminate|reflexivity].
  - vm_compute. reflexivity.
  - simpl in E. subst acc. intros p q l r n off r' n' off' ->%list_elem_of_singleton ->%list_elem_of_singleton Hp Hq.
    rewrite Hp in Hq. injection Hq. intros. assumption.
Defined.

Lemma session_handshake_exact_witness : exists data,
  SessionInit_encrypt (SessionInit_new (box_public_key (os_rng 3)) (box_public_key (os_rng 4)) 7 99) alice bob_key
    SESSION_TYPE_INIT [1; 2] 5 = (Ok data, 6%nat) /\ length data = SESSION_INIT_SIZE.
Proof.
  destruct (session_handshake_exact (SessionInit_new (box_public_key (os_rng 3)) (box_public_key (os_rng 4)) 7 99) alice bob
    SESSION_TYPE_INIT [1; 2] 5) as [(data & H1 & H2 & _) _].
  - vm_compute. repeat split; first [reflexivity|discriminate].
  - exists data. split; assumption.
Defined.
