(* ===== verification/Ckr.v ===== *)
(** * Ckr: crypto-key routing

    Models the routing core of [crates/yggdrasil/src/ckr.rs]: the arithmetic on
    prefixes ([merge_excludes], [subtract_many], [emit_range]), the step of
    [expand_cidrs] that combines parsed includes and excludes, the
    longest-prefix-match [RouteTable] and [CryptoKey]. Networks come from the
    [ipnet] crate: the class [IpNetOps], with its documented behaviour as
    [IpNetLaws]. Addresses are integers below 2^32 or 2^128. Route
    lists in files and the text of entries are in [CkrText]. *)

From S2P Require Import Prelude.
From S2P Require Import Address.
From stdpp Require Import options.
Open Scope Z_scope.

Class IpNetOps := {
  IpNet : Type;
  is_v4 : IpNet -> bool;
  net_addr : IpNet -> Z;
  net_network : IpNet -> Z;
  net_broadcast : IpNet -> Z;
  net_prefix_len : IpNet -> Z;
  net_trunc : IpNet -> IpNet;
  Ipv4Net_new : Z -> Z -> option IpNet;
  Ipv6Net_new : Z -> Z -> option IpNet
}.

Definition U128_MAX : Z := 2 ^ 128 - 1.
Definition sat_add128 (a b : Z) : Z := Z.min (a + b) U128_MAX.

(** Plain [u128] arithmetic: a panic in a build with overflow checks, a
    wrap-around in one without. *)
Definition arith128 (overflow_checks : bool) (z : Z) : outcome Z :=
  if decide (0 <= z <= U128_MAX) then Ret z
  else if overflow_checks then Panic else Ret (z mod 2 ^ 128).

Section Ckr.
Context `{IpNetOps}.
Context (overflow_checks : bool).

Definition mask_addr (addr prefix_len bits : Z) : Z :=
  if prefix_len =? 0 then 0
  else let shift := bits - prefix_len in Z.shiftl (Z.shiftr addr shift) shift.

(** [expect("prefix length bounded by family width")] is a panic. *)
Definition make_net (addr prefix_len bits : Z) : outcome IpNet :=
  if bits =? 32 then unwrap (Ipv4Net_new addr prefix_len) else unwrap (Ipv6Net_new addr prefix_len).

Definition net_bounds (net : IpNet) : Z * Z := (net_network net, net_broadcast net).

(** ** Excludes *)

(** The order of pairs. *)
Definition range_le (a b : Z * Z) : Prop := a.1 < b.1 \/ (a.1 = b.1 /\ a.2 <= b.2).
#[export] Instance range_le_dec a b : Decision (range_le a b).
Proof. unfold range_le. apply _. Defined.

(** One range; [merged] has the last range first. *)
Definition merge_step (merged : list (Z * Z)) (r : Z * Z) : list (Z * Z) :=
  match merged with
  | last :: rest =>
      if r.1 <=? sat_add128 last.2 1 then (last.1, Z.max last.2 r.2) :: rest else r :: last :: rest
  | [] => [r]
  end.

Definition merge_excludes (excludes : list IpNet) : list (Z * Z) :=
  let ranges := merge_sort range_le (map net_bounds excludes) in
  rev (foldl merge_step [] ranges).

(** ** Covering a range by prefixes *)

Fixpoint ptz (p : positive) : Z :=
  match p with xO p => 1 + ptz p | _ => 0 end.
(** [u128::trailing_zeros] and [leading_zeros] of a non-zero number. *)
Definition trailing_zeros (z : Z) : Z := match z with Zpos p => ptz p | _ => 128 end.
Definition leading_zeros (z : Z) : Z := 127 - Z.log2 z.

(** The alignment of [cur], and the largest power of two that fits. *)
Definition align_of (cur bits : Z) : Z := if cur =? 0 then bits else Z.min (trailing_zeros cur) bits.
Definition span_of (remaining : Z) : Z :=
  if remaining =? U128_MAX then 128 else 127 - leading_zeros (remaining + 1).

Fixpoint emit_loop (fuel : nat) (cur hi bits : Z) (out : list IpNet) : outcome (list IpNet) :=
  match fuel with
  | O => Panic
  | S fuel =>
      remaining ← arith128 overflow_checks (hi - cur);
      let size := Z.min (Z.min (align_of cur bits) (span_of remaining)) bits in
      net ← make_net cur (bits - size) bits;
      let out := out ++ [net] in
      if size =? 128 then Ret out
      else
        sum ← arith128 overflow_checks (cur + 2 ^ size);
        end_ ← arith128 overflow_checks (sum - 1);
        if hi <=? end_ then Ret out
        else cur ← arith128 overflow_checks (end_ + 1); emit_loop fuel cur hi bits out
  end.

(** Alignment grows, then the remainder shrinks. *)
Definition emit_fuel (bits : Z) : nat := Z.to_nat (2 * bits + 3).

Definition emit_range (lo hi bits : Z) (out : list IpNet) : outcome (list IpNet) :=
  emit_loop (emit_fuel bits) lo hi bits out.

Definition family_bits (net : IpNet) : Z := if is_v4 net then 32 else 128.

(** [excludes.partition_point(|&(_, hi)| hi < inc_lo)] on ranges in ascending
    order: the ranges from there on. *)
Fixpoint from_partition_point (inc_lo : Z) (excludes : list (Z * Z)) : list (Z * Z) :=
  match excludes with
  | (lo, hi) :: rest => if hi <? inc_lo then from_partition_point inc_lo rest else excludes
  | [] => []
  end.

Fixpoint subtract_loop (excludes : list (Z * Z)) (cur inc_hi bits : Z) (out : list IpNet) : outcome (list IpNet) :=
  match excludes with
  | [] => emit_range cur inc_hi bits out
  | (lo, hi) :: rest =>
      if inc_hi <? lo then emit_range cur inc_hi bits out
      else
        out ← (if cur <? lo then top ← arith128 overflow_checks (lo - 1); emit_range cur top bits out else Ret out);
        if inc_hi <=? hi then Ret out
        else cur ← arith128 overflow_checks (hi + 1); subtract_loop rest cur inc_hi bits out
  end.

Definition subtract_many (include : IpNet) (excludes : list (Z * Z)) : outcome (list IpNet) :=
  let '(inc_lo, inc_hi) := net_bounds include in
  subtract_loop (from_partition_point inc_lo excludes) inc_lo inc_hi (family_bits include) [].

(** [for inc in incs { out.extend(subtract_many(inc, excs)) }]. *)
Fixpoint subtract_all (incs : list IpNet) (excs : list (Z * Z)) (out : list IpNet) : outcome (list IpNet) :=
  match incs with
  | [] => Ret out
  | inc :: incs => nets ← subtract_many inc excs; subtract_all incs excs (out ++ nets)
  end.

(** The entries after parsing: an exclusion mark and a network. *)
Definition expand_entries (entries : list (bool * IpNet)) : outcome (list IpNet) :=
  let entries := map (fun '(is_exclude, prefix) => (is_exclude, net_trunc prefix)) entries in
  let select (exc v4 : bool) := (filter (fun e => fst e = exc /\ is_v4 (snd e) = v4) entries).*2 in
  let v4_exc := merge_excludes (select true true) in
  let v6_exc := merge_excludes (select true false) in
  out ← subtract_all (select false true) v4_exc [];
  subtract_all (select false false) v6_exc out.

(** ** The route table

    [levels] is the [BTreeMap] in its iteration order, longest prefix first. *)

Abbreviation Key := (list Z) (only parsing).

Record RouteTable := mkRouteTable {
  tb_bits : Z;
  tb_levels : list (Z * gmap Z Key);
  tb_len : nat
}.

Definition RouteTable_new (bits : Z) : RouteTable := mkRouteTable bits [] 0.

(** [levels.entry(Reverse(len)).or_default()] and the insertion in it: whether
    the prefix was there, and the new levels. *)
Fixpoint insert_level (levels : list (Z * gmap Z Key)) (len key : Z) (dest : Key) : bool * list (Z * gmap Z Key) :=
  match levels with
  | [] => (false, [(len, {[ key := dest ]})])
  | (l, level) :: rest =>
      if l =? len then (bool_decide (is_Some (level !! key)), (l, <[key := dest]> level) :: rest)
      else if l <? len then (false, (len, {[ key := dest ]}) :: levels)
      else let '(present, rest) := insert_level rest len key dest in (present, (l, level) :: rest)
  end.

Definition RouteTable_insert (t : RouteTable) (prefix : IpNet) (destination : Key) : bool * RouteTable :=
  let key := mask_addr (net_network prefix) (net_prefix_len prefix) (tb_bits t) in
  let '(present, levels) := insert_level (tb_levels t) (net_prefix_len prefix) key destination in
  if present then (false, mkRouteTable (tb_bits t) levels (tb_len t))
  else (true, mkRouteTable (tb_bits t) levels (S (tb_len t))).

Fixpoint get_level (levels : list (Z * gmap Z Key)) (bits addr : Z) : option Key :=
  match levels with
  | [] => None
  | (prefix_len, level) :: rest =>
      match level !! mask_addr addr prefix_len bits with
      | Some dest => Some dest
      | None => get_level rest bits addr
      end
  end.

Definition RouteTable_get (t : RouteTable) (addr : Z) : option Key := get_level (tb_levels t) (tb_bits t) addr.

(** ** CryptoKey *)

Inductive IpAddr := AddrV4 (a : Z) | AddrV6 (a : Z).

Record CryptoKey := mkCryptoKey { ck_yggdrasil_routing : bool; ck_v4 : RouteTable; ck_v6 : RouteTable }.

(** The octets of an IPv6 address. *)
Definition octets (a : Z) : bytes := to_be_bytes 16 a.

Definition is_yggdrasil_destination (prefix : Z) (ip : IpAddr) : bool :=
  match ip with
  | AddrV4 _ => false
  | AddrV6 v6 => is_valid_address prefix (octets v6) || is_valid_subnet prefix (take 8 (octets v6))
  end.

(** The routes of one destination. *)
Fixpoint add_routes (prefix : Z) (nets : list IpNet) (dest : Key) (v4 v6 : RouteTable)
    : option (RouteTable * RouteTable) :=
  match nets with
  | [] => Some (v4, v6)
  | net :: nets =>
      if is_v4 net then add_routes prefix nets dest (snd (RouteTable_insert v4 net dest)) v6
      else if is_yggdrasil_destination prefix (AddrV6 (net_addr net)) then None
      else add_routes prefix nets dest v4 (snd (RouteTable_insert v6 net dest))
  end.

(** The loop over [remote_subnets] once their keys and entries are read; the whole
    loop, with the errors of reading, is [add_subnets] of [CkrText]. *)
Fixpoint add_destinations (prefix : Z) (dests : list (Key * list IpNet)) (self_key : Key) (v4 v6 : RouteTable)
    : option (RouteTable * RouteTable) :=
  match dests with
  | [] => Some (v4, v6)
  | (dest, nets) :: dests =>
      if decide (dest = self_key) then add_destinations prefix dests self_key v4 v6
      else match add_routes prefix nets dest v4 v6 with
           | None => None
           | Some (v4, v6) => add_destinations prefix dests self_key v4 v6
           end
  end.

Definition get_public_key_for_address (prefix : Z) (c : CryptoKey) (addr : IpAddr) : option Key :=
  match addr with
  | AddrV4 a => RouteTable_get (ck_v4 c) a
  | AddrV6 a => if is_yggdrasil_destination prefix addr then None else RouteTable_get (ck_v6 c) a
  end.
End Ckr.
