(* ===== verification/CkrFacts.v ===== *)
(** * CkrFacts: what crypto-key routing guarantees

    The prefixes computed from includes and excludes cover exactly the included
    addresses that no exclude covers, with no more prefixes per include than
    necessary; the route table is a longest-prefix match. [IpNetLaws] states
    the documented behaviour of the [ipnet] crate. *)

From S2P Require Import Prelude.
From S2P Require Import Address.
From S2P Require Import Ckr.
From stdpp Require Import options.
Open Scope Z_scope.

Class IpNetLaws `{IpNetOps} := {
  prefix_len_bound n : 0 <= net_prefix_len n <= family_bits n;
  addr_bound n : 0 <= net_addr n < 2 ^ family_bits n;
  network_spec n :
    net_network n = net_addr n / 2 ^ (family_bits n - net_prefix_len n) * 2 ^ (family_bits n - net_prefix_len n);
  broadcast_spec n : net_broadcast n = net_network n + 2 ^ (family_bits n - net_prefix_len n) - 1;
  trunc_spec n :
    is_v4 (net_trunc n) = is_v4 n /\ net_prefix_len (net_trunc n) = net_prefix_len n /\
    net_addr (net_trunc n) = net_network n;
  v4_new_spec a l : 0 <= a < 2 ^ 32 -> 0 <= l <= 32 ->
    exists n, Ipv4Net_new a l = Some n /\ is_v4 n = true /\ net_addr n = a /\ net_prefix_len n = l;
  v6_new_spec a l : 0 <= a < 2 ^ 128 -> 0 <= l <= 128 ->
    exists n, Ipv6Net_new a l = Some n /\ is_v4 n = false /\ net_addr n = a /\ net_prefix_len n = l
}.

Lemma elem_of_rev {A} (l : list A) x : x ∈ rev l <-> x ∈ l.
Proof. rewrite !list_elem_of_In. symmetry. apply in_rev. Qed.

(** ** Alignment and span *)

Lemma ptz_spec p : 0 <= ptz p /\ (2 ^ ptz p | Zpos p) /\ ~ (2 ^ (ptz p + 1) | Zpos p).
Proof.
  induction p as [p IH|p IH|]; cbn [ptz].
  - repeat split; [lia| apply Z.divide_1_l |]. intros [k Hk]. change (2 ^ (0 + 1)) with 2 in Hk. lia.
  - destruct IH as (Hpos & [k Hk] & Hmax). repeat split; [lia| |].
    + exists k. rewrite Z.pow_add_r by lia. lia.
    + intros [j Hj]. apply Hmax. exists j.
      replace (1 + ptz p + 1) with (1 + (ptz p + 1)) in Hj by lia. rewrite Z.pow_add_r in Hj by lia. lia.
  - repeat split; [lia| apply Z.divide_1_l |]. intros [k Hk]. change (2 ^ (0 + 1)) with 2 in Hk. lia.
Qed.

Lemma pow2_divide a b : 0 <= a <= b -> (2 ^ a | 2 ^ b).
Proof. intros. exists (2 ^ (b - a)). rewrite <- Z.pow_add_r by lia. f_equal. lia. Qed.

(** [align_of] is the largest alignment of [cur] within the family. *)
Lemma align_of_spec cur bits : 0 <= cur -> 0 <= bits ->
  0 <= align_of cur bits <= bits /\ (2 ^ align_of cur bits | cur) /\
  forall k, 0 <= k <= bits -> (2 ^ k | cur) -> k <= align_of cur bits.
Proof.
  intros Hc Hb. unfold align_of. destruct (Z.eqb_spec cur 0) as [->|Hne].
  { repeat split; try lia. apply Z.divide_0_r. }
  destruct cur as [|p|p]; [lia| |lia]. cbn [trailing_zeros].
  destruct (ptz_spec p) as (Hpos & Hdiv & Hmax). repeat split; [lia|lia| |].
  - transitivity (2 ^ ptz p); [apply pow2_divide; lia|done].
  - intros k Hk Hd. apply Z.min_glb; [|lia].
    destruct (decide (k <= ptz p)); [done|]. destruct Hmax.
    transitivity (2 ^ k); [apply pow2_divide; lia|done].
Qed.

(** [span_of] is the largest power of two within what remains. *)
Lemma span_of_spec r : 0 <= r <= U128_MAX ->
  0 <= span_of r <= 128 /\ 2 ^ span_of r <= r + 1 < 2 ^ (span_of r + 1).
Proof.
  unfold span_of, leading_zeros. intros Hr. destruct (Z.eqb_spec r U128_MAX) as [->|Hne].
  { unfold U128_MAX. by vm_compute. }
  replace (127 - (127 - Z.log2 (r + 1))) with (Z.log2 (r + 1)) by lia.
  pose proof (Z.log2_spec (r + 1)). pose proof (Z.log2_nonneg (r + 1)).
  assert (Z.log2 (r + 1) < 128).
  { apply Z.log2_lt_pow2; [lia|]. unfold U128_MAX in *. lia. }
  replace (Z.succ (Z.log2 (r + 1))) with (Z.log2 (r + 1) + 1) in * by lia. lia.
Qed.

(** Dyadic blocks: of two that share an address, the smaller is inside. *)
Lemma dyadic_nested a j b k x : 0 <= j <= k -> (2 ^ j | a) -> (2 ^ k | b) ->
  a <= x < a + 2 ^ j -> b <= x < b + 2 ^ k -> b <= a /\ a + 2 ^ j <= b + 2 ^ k.
Proof.
  intros Hjk [a' ->] [b' ->] Ha Hb.
  assert (Hk : 2 ^ k = 2 ^ (k - j) * 2 ^ j) by (rewrite <- Z.pow_add_r by lia; f_equal; lia).
  rewrite Hk in *. set (m := 2 ^ (k - j)) in *.
  assert (0 < 2 ^ j) by (apply Z.pow_pos_nonneg; lia).
  assert (b' * m < a' + 1) by (apply (Z.mul_lt_mono_pos_r (2 ^ j)); lia).
  assert (a' < b' * m + m) by (apply (Z.mul_lt_mono_pos_r (2 ^ j)); lia).
  split; [|replace (b' * (m * 2 ^ j) + m * 2 ^ j) with ((b' * m + m) * 2 ^ j) by lia]; nia.
Qed.

Section Facts.
Context `{O : IpNetOps} {L : IpNetLaws}.
#[local] Set Default Proof Using "Type*".

Definition covers (n : IpNet) (a : Z) : Prop := net_network n <= a <= net_broadcast n.
Definition covered (v4 : bool) (nets : list IpNet) (a : Z) : Prop :=
  exists n, n ∈ nets /\ is_v4 n = v4 /\ covers n a.
Definition width (v4 : bool) : Z := if v4 then 32 else 128.

Lemma family_width n : family_bits n = width (is_v4 n).
Proof. done. Qed.

Lemma width_bound v4 : 32 <= width v4 <= 128.
Proof. destruct v4; unfold width; lia. Qed.

(** The block of a network. *)
Lemma net_block n : exists k,
  0 <= k <= family_bits n /\ k = family_bits n - net_prefix_len n /\ (2 ^ k | net_network n) /\
  net_broadcast n = net_network n + 2 ^ k - 1 /\ 0 <= net_network n /\ net_broadcast n < 2 ^ family_bits n.
Proof.
  pose proof (prefix_len_bound n). pose proof (addr_bound n). pose proof (network_spec n) as Hn.
  pose proof (broadcast_spec n) as Hb. set (k := family_bits n - net_prefix_len n) in *.
  assert (Hk : 0 < 2 ^ k) by (apply Z.pow_pos_nonneg; lia).
  assert (Hd : 2 ^ family_bits n = 2 ^ net_prefix_len n * 2 ^ k).
  { rewrite <- Z.pow_add_r by lia. f_equal. lia. }
  exists k. repeat split; try lia.
  - rewrite Hn. apply Z.divide_factor_r.
  - rewrite Hn. pose proof (Z.div_pos (net_addr n) (2 ^ k)). nia.
  - rewrite Hb, Hn, Hd. assert (net_addr n / 2 ^ k < 2 ^ net_prefix_len n); [|nia].
    apply Z.div_lt_upper_bound; lia.
Qed.

Lemma make_net_spec v4 a l : 0 <= a < 2 ^ width v4 -> 0 <= l <= width v4 -> (2 ^ (width v4 - l) | a) ->
  exists n, make_net a l (width v4) = Ret n /\ is_v4 n = v4 /\ net_network n = a /\
            net_broadcast n = a + 2 ^ (width v4 - l) - 1.
Proof.
  intros Ha Hl Hd.
  assert (exists n, make_net a l (width v4) = Ret n /\ is_v4 n = v4 /\ net_addr n = a /\ net_prefix_len n = l)
    as (n & Hn & Hv & Hna & Hnl).
  { destruct v4; unfold make_net; cbn [width] in *; simpl (_ =? _).
    - destruct (v4_new_spec a l) as (n & -> & ?); [done..|]. eauto.
    - destruct (v6_new_spec a l) as (n & -> & ?); [done..|]. eauto. }
  exists n. split; [done|]. split; [done|].
  rewrite broadcast_spec, network_spec, family_width, Hv, Hna, Hnl.
  destruct Hd as [q ->]. rewrite Z.div_mul; [done|].
  apply Z.pow_nonzero; lia.
Qed.

(** ** Covering a range

    [tiles v4 nets lo hi]: the networks follow each other from [lo] to [hi]. *)

Fixpoint tiles (v4 : bool) (nets : list IpNet) (lo hi : Z) : Prop :=
  match nets with
  | [] => lo = hi + 1
  | n :: nets => is_v4 n = v4 /\ net_network n = lo /\ tiles v4 nets (net_broadcast n + 1) hi
  end.

Lemma net_nonempty n : net_network n <= net_broadcast n.
Proof.
  destruct (net_block n) as (k & Hk & _ & _ & -> & _).
  pose proof (Z.pow_pos_nonneg 2 k). lia.
Qed.

Lemma tiles_le v4 nets lo hi : tiles v4 nets lo hi -> lo <= hi + 1.
Proof.
  revert lo. induction nets as [|n nets IH]; intros lo Ht; cbn in Ht; [lia|].
  destruct Ht as (_ & <- & Ht%IH). pose proof (net_nonempty n). lia.
Qed.

Lemma tiles_covered v4 nets lo hi a : tiles v4 nets lo hi -> covered v4 nets a <-> lo <= a <= hi.
Proof.
  revert lo. induction nets as [|n nets IH]; intros lo Ht; cbn in Ht.
  - split; [|lia]. intros (n & Hn & _). by apply not_elem_of_nil in Hn.
  - destruct Ht as (Hv & <- & Ht). pose proof (net_nonempty n). pose proof (tiles_le _ _ _ _ Ht).
    specialize (IH _ Ht). unfold covered in *. setoid_rewrite elem_of_cons. split.
    + intros (m & [->|Hm] & Hvm & Hc); [unfold covers in Hc; lia|].
      assert (net_broadcast n + 1 <= a <= hi) by (apply IH; eauto). lia.
    + intros Ha. destruct (decide (a <= net_broadcast n)).
      * exists n. unfold covers. eauto with lia.
      * destruct (proj2 IH) as (m & ? & ? & ?); [lia|]. eauto.
Qed.

Lemma tiles_app v4 nets nets' lo mid hi :
  tiles v4 nets lo mid -> tiles v4 nets' (mid + 1) hi -> tiles v4 (nets ++ nets') lo hi.
Proof.
  revert lo. induction nets as [|n nets IH]; intros lo Ht Ht'; cbn in *.
  - by subst lo.
  - naive_solver.
Qed.

(** [ascending v4 from nets to]: disjoint networks in ascending order. *)
Fixpoint ascending (v4 : bool) (from : Z) (nets : list IpNet) (to : Z) : Prop :=
  match nets with
  | [] => True
  | n :: nets =>
      is_v4 n = v4 /\ from <= net_network n /\ net_broadcast n <= to /\ ascending v4 (net_broadcast n + 1) nets to
  end.

Lemma tiles_ascending v4 nets lo hi : tiles v4 nets lo hi -> ascending v4 lo nets hi.
Proof.
  revert lo. induction nets as [|n nets IH]; intros lo Ht; cbn in *; [done|].
  destruct Ht as (Hv & <- & Ht). pose proof (tiles_le _ _ _ _ Ht). split_and!; [done|lia|lia|auto].
Qed.

Lemma ascending_weaken v4 nets a b a' b' : a' <= a -> b <= b' -> ascending v4 a nets b -> ascending v4 a' nets b'.
Proof.
  revert a a'. induction nets as [|n nets IH]; intros a a' Ha Hb Hasc; cbn in *; [done|].
  destruct Hasc as (? & ? & ? & Hasc). split_and!; [done|lia|lia|]. by apply (IH (net_broadcast n + 1)).
Qed.

Lemma ascending_app v4 nets nets' a m b : m <= b -> a <= m + 1 ->
  ascending v4 a nets m -> ascending v4 (m + 1) nets' b -> ascending v4 a (nets ++ nets') b.
Proof.
  intros Hm. revert a. induction nets as [|n nets IH]; intros a Ha Hasc Hasc'; cbn in *.
  - by apply (ascending_weaken _ _ (m + 1) b).
  - destruct Hasc as (? & ? & ? & Hasc). split_and!; [done|lia|lia|]. apply IH; [lia|done..].
Qed.

Lemma ascending_elem v4 nets a b n : ascending v4 a nets b -> n ∈ nets ->
  is_v4 n = v4 /\ a <= net_network n /\ net_broadcast n <= b.
Proof.
  revert a. induction nets as [|m nets IH]; intros a Hasc Hn; [by apply not_elem_of_nil in Hn|].
  cbn in Hasc. destruct Hasc as (? & ? & ? & Hasc). pose proof (net_nonempty m).
  apply elem_of_cons in Hn as [->|Hn]; [done|]. destruct (IH _ Hasc Hn) as (? & ? & ?). split_and!; [done|lia|lia].
Qed.

(** A block of [m] lies in the block of [n]. *)
Definition inside (m n : IpNet) : Prop := net_network n <= net_network m /\ net_broadcast m <= net_broadcast n.

Lemma ascending_count v4 a nets b nets' : ascending v4 a nets b ->
  (forall n, n ∈ nets -> exists m, m ∈ nets' /\ inside m n) -> (length nets <= length nets')%nat.
Proof.
  revert a nets'. induction nets as [|n nets IH]; intros a nets' Hasc Hin; cbn [length]; [lia|].
  destruct Hasc as (_ & _ & _ & Hasc).
  destruct (Hin n) as (m & Hm & Hmn); [by left|].
  apply elem_of_Permutation in Hm as [rest Hp]. rewrite Hp. cbn [length].
  apply le_n_S, (IH _ _ Hasc). intros n' Hn'.
  destruct (Hin n') as (m' & Hm' & Hin'); [by right|].
  exists m'. split; [|done]. rewrite Hp in Hm'. apply elem_of_cons in Hm' as [->|]; [|done].
  destruct (ascending_elem _ _ _ _ _ Hasc Hn') as (_ & Hlo & _).
  unfold inside in *. pose proof (net_nonempty m). lia.
Qed.

(** Within [lo..hi] no larger block contains the network. *)
Definition maximal_in (P : Z -> Prop) (n : IpNet) : Prop :=
  forall b k, 0 <= k <= family_bits n -> (2 ^ k | b) -> b <= net_network n -> net_broadcast n < b + 2 ^ k ->
    net_broadcast n - net_network n + 1 < 2 ^ k -> exists x, b <= x < b + 2 ^ k /\ ~ P x.

(** Maximal disjoint blocks are as few as any networks with the same addresses. *)
Lemma maximal_minimal v4 a nets b nets' : ascending v4 a nets b ->
  Forall (maximal_in (covered v4 nets)) nets ->
  (forall x, covered v4 nets' x <-> covered v4 nets x) -> (length nets <= length nets')%nat.
Proof.
  intros Hasc Hmax Heq. eapply ascending_count; [done|]. intros n Hn.
  destruct (ascending_elem _ _ _ _ _ Hasc Hn) as (Hv & _). pose proof (net_nonempty n).
  destruct (proj2 (Heq (net_network n))) as (m & Hm & Hvm & Hc).
  { exists n. unfold covers. split_and!; [done|done|lia|lia]. }
  exists m. split; [done|].
  destruct (net_block n) as (k & Hk & _ & Hkd & Hkb & _), (net_block m) as (j & Hj & _ & Hjd & Hjb & _).
  unfold covers in Hc. unfold inside. rewrite Hkb, Hjb in *.
  destruct (decide (j <= k)) as [Hle|Hgt].
  { pose proof (dyadic_nested _ j _ k (net_network n) ltac:(lia) Hjd Hkd). lia. }
  pose proof (dyadic_nested _ k _ j (net_network n) ltac:(lia) Hkd Hjd) as Hnest.
  rewrite Forall_forall in Hmax. destruct (Hmax n Hn (net_network m) j) as (x & Hx & Hnx); [| done| lia.. | |].
  - rewrite family_width, Hv, <- Hvm. done.
  - rewrite Hkb. replace (net_network n + 2 ^ k - 1 - net_network n + 1) with (2 ^ k) by lia.
    apply Z.pow_lt_mono_r; lia.
  - destruct Hnx. apply Heq. exists m. unfold covers. split_and!; [done|done|lia|lia].
Qed.

Section Emit.
Context (overflow_checks : bool).

Lemma arith128_ok z : 0 <= z <= U128_MAX -> arith128 overflow_checks z = Ret z.
Proof. intros. unfold arith128. by rewrite decide_True. Qed.

(** The arithmetic of a step; the sum may reach 2^128 only without checks. *)
Lemma end_of_block cur k : 0 <= cur -> 0 <= k -> cur + 2 ^ k - 1 <= U128_MAX ->
  overflow_checks = false \/ cur + 2 ^ k - 1 < U128_MAX ->
  (sum ← arith128 overflow_checks (cur + 2 ^ k); arith128 overflow_checks (sum - 1)) = Ret (cur + 2 ^ k - 1).
Proof.
  intros Hc Hk Hle Hchk. pose proof (Z.pow_pos_nonneg 2 k).
  destruct (decide (cur + 2 ^ k <= U128_MAX)).
  - rewrite (arith128_ok (cur + 2 ^ k)) by lia. cbn. apply arith128_ok. lia.
  - destruct Hchk as [Hchk|]; [|lia]. unfold arith128. rewrite Hchk.
    replace (cur + 2 ^ k) with (2 ^ 128) by (unfold U128_MAX in *; lia). reflexivity.
Qed.

(** The size of the block at [cur]. *)
Definition step_size (v4 : bool) (cur hi : Z) : Z := Z.min (align_of cur (width v4)) (span_of (hi - cur)).

Lemma step_size_spec v4 cur hi : 0 <= cur <= hi -> hi < 2 ^ width v4 ->
  let k := step_size v4 cur hi in
  0 <= k <= width v4 /\ span_of (hi - cur) <= width v4 /\ (2 ^ k | cur) /\ cur + 2 ^ k - 1 <= hi.
Proof.
  intros Hc Hhi k. pose proof (width_bound v4).
  assert (Hle : 2 ^ width v4 <= 2 ^ 128) by (apply Z.pow_le_mono_r; lia).
  destruct (align_of_spec cur (width v4)) as (Ha & Hd & _); [lia..|].
  destruct (span_of_spec (hi - cur)) as (Hs & Hs1 & _); [unfold U128_MAX; lia|].
  assert (span_of (hi - cur) <= width v4).
  { apply (Z.pow_le_mono_r_iff 2); lia. }
  assert (0 <= k <= width v4) by (unfold k, step_size; lia).
  assert (2 ^ k <= 2 ^ span_of (hi - cur)) by (apply Z.pow_le_mono_r; unfold k, step_size; lia).
  repeat split; try lia.
  transitivity (2 ^ align_of cur (width v4)); [|done]. apply pow2_divide. unfold k, step_size. lia.
Qed.

Lemma emit_loop_step v4 fuel cur hi out : 0 <= cur <= hi -> hi < 2 ^ width v4 ->
  overflow_checks = false \/ hi < U128_MAX ->
  let k := step_size v4 cur hi in
  exists n, is_v4 n = v4 /\ net_network n = cur /\ net_broadcast n = cur + 2 ^ k - 1 /\
    emit_loop overflow_checks (S fuel) cur hi (width v4) out =
      if hi <=? cur + 2 ^ k - 1 then Ret (out ++ [n])
      else emit_loop overflow_checks fuel (cur + 2 ^ k) hi (width v4) (out ++ [n]).
Proof.
  intros Hc Hhi Hchk k. destruct (step_size_spec v4 cur hi) as (Hk & Hs & Hd & Hend); [done..|].
  fold k in Hk, Hd, Hend. pose proof (width_bound v4).
  assert (Hle : 2 ^ width v4 <= 2 ^ 128) by (apply Z.pow_le_mono_r; lia).
  pose proof (Z.pow_pos_nonneg 2 k).
  destruct (make_net_spec v4 cur (width v4 - k)) as (n & Hn & Hv & Hnet & Hbr); [lia..| |].
  { by replace (width v4 - (width v4 - k)) with k by lia. }
  replace (width v4 - (width v4 - k)) with k in Hbr by lia.
  exists n. split_and!; [done..|]. cbn [emit_loop].
  rewrite arith128_ok, ret_bind by (unfold U128_MAX; lia). cbv zeta.
  fold (step_size v4 cur hi). fold k. rewrite (Z.min_l k) by lia. rewrite Hn, ret_bind.
  destruct (Z.eqb_spec k 128) as [He|He].
  { rewrite (proj2 (Z.leb_le _ _)); [done|]. rewrite He. lia. }
  assert (Hsum := end_of_block cur k). unfold U128_MAX in *.
  specialize (Hsum ltac:(lia) ltac:(lia) ltac:(lia) ltac:(destruct Hchk; [by left | right; lia])).
  destruct (arith128 overflow_checks (cur + 2 ^ k)) as [sum|]; [|discriminate Hsum].
  rewrite ret_bind in Hsum. rewrite ret_bind, Hsum, ret_bind.
  destruct (Z.leb_spec hi (cur + 2 ^ k - 1)); [done|].
  rewrite arith128_ok by (unfold U128_MAX; lia). rewrite ret_bind.
  by replace (cur + 2 ^ k - 1 + 1) with (cur + 2 ^ k) by lia.
Qed.

(** First the alignment grows, then the span shrinks. *)
Definition emit_measure (v4 : bool) (cur hi : Z) : Z :=
  if span_of (hi - cur) <? align_of cur (width v4) then span_of (hi - cur) + 1
  else 2 * width v4 + 2 - align_of cur (width v4).

Lemma emit_measure_bound v4 cur hi : 0 <= cur <= hi -> hi < 2 ^ width v4 ->
  0 < emit_measure v4 cur hi <= 2 * width v4 + 2.
Proof.
  intros Hc Hhi. pose proof (width_bound v4).
  assert (Hle : 2 ^ width v4 <= 2 ^ 128) by (apply Z.pow_le_mono_r; lia).
  destruct (align_of_spec cur (width v4)) as (Ha & _); [lia..|].
  destruct (span_of_spec (hi - cur)) as (Hs & _); [unfold U128_MAX; lia|].
  destruct (step_size_spec v4 cur hi) as (_ & Hsw & _); [done..|].
  unfold emit_measure. destruct (Z.ltb_spec (span_of (hi - cur)) (align_of cur (width v4))); lia.
Qed.

Lemma align_grows v4 cur hi : 0 <= cur <= hi -> hi < 2 ^ width v4 ->
  align_of cur (width v4) <= span_of (hi - cur) ->
  let cur' := cur + 2 ^ align_of cur (width v4) in
  cur' <= hi -> align_of cur (width v4) + 1 <= align_of cur' (width v4).
Proof.
  intros Hc Hhi Has cur' Hc'. pose proof (width_bound v4).
  destruct (align_of_spec cur (width v4)) as (Ha & [q Hq] & Hmax); [lia..|].
  set (a := align_of cur (width v4)) in *.
  pose proof (Z.pow_pos_nonneg 2 a) as Hpos.
  assert (Haw : a < width v4).
  { destruct (decide (a = width v4)) as [E|]; [|lia]. unfold cur' in Hc'. rewrite E in Hc'. lia. }
  destruct (align_of_spec cur' (width v4)) as (_ & _ & Hmax'); [lia..|].
  apply Hmax'; [lia|]. rewrite Z.pow_add_r, Z.pow_1_r by lia.
  destruct (Z.Even_or_Odd q) as [[j Hj]|[j Hj]].
  - assert (a + 1 <= a); [|lia]. apply Hmax; [lia|]. exists j.
    rewrite Z.pow_add_r, Z.pow_1_r by lia. lia.
  - exists (j + 1). unfold cur'. lia.
Qed.

Lemma emit_measure_decreases v4 cur hi : 0 <= cur <= hi -> hi < 2 ^ width v4 ->
  let cur' := cur + 2 ^ step_size v4 cur hi in
  cur' <= hi -> emit_measure v4 cur' hi < emit_measure v4 cur hi.
Proof.
  intros Hc Hhi cur' Hc'.
  assert (Hcur : cur' = cur + 2 ^ step_size v4 cur hi) by done. clearbody cur'. pose proof (width_bound v4).
  assert (Hle : 2 ^ width v4 <= 2 ^ 128) by (apply Z.pow_le_mono_r; lia).
  destruct (step_size_spec v4 cur hi) as (Hk & Hsw & Hd & Hend); [done..|].
  pose proof (Z.pow_pos_nonneg 2 (step_size v4 cur hi)).
  destruct (step_size_spec v4 cur' hi) as (_ & Hsw' & _); [lia..|].
  destruct (align_of_spec cur (width v4)) as (Ha & Hda & _); [lia..|].
  destruct (align_of_spec cur' (width v4)) as (Ha' & _ & Hmax'); [lia..|].
  destruct (span_of_spec (hi - cur)) as (Hs & Hs1 & Hs2); [unfold U128_MAX; lia|].
  destruct (span_of_spec (hi - cur')) as (Hs' & Hs1' & _); [unfold U128_MAX; lia|].
  unfold emit_measure, step_size in *.
  destruct (Z.ltb_spec (span_of (hi - cur)) (align_of cur (width v4))) as [Hlt|Hge].
  - rewrite Z.min_r in * by lia. set (s := span_of (hi - cur)) in *.
    assert (span_of (hi - cur') < s).
    { apply (Z.pow_lt_mono_r_iff 2); [lia..|]. rewrite Z.pow_add_r, Z.pow_1_r in Hs2 by lia. lia. }
    assert (s <= align_of cur' (width v4)).
    { apply Hmax'; [lia|]. rewrite Hcur. apply Z.divide_add_r; [done|]. apply Z.divide_refl. }
    destruct (Z.ltb_spec (span_of (hi - cur')) (align_of cur' (width v4))); lia.
  - rewrite Z.min_l in * by lia.
    assert (Hg := align_grows v4 cur hi Hc Hhi Hge). cbv zeta in Hg. rewrite <- Hcur in Hg.
    specialize (Hg Hc'). destruct (Z.ltb_spec (span_of (hi - cur')) (align_of cur' (width v4))); lia.
Qed.

Definition within (lo hi x : Z) : Prop := lo <= x <= hi.

(** No block that starts before [cur] and reaches it stays in the range. *)
Definition unreached (v4 : bool) (lo hi cur : Z) : Prop :=
  forall b k, 0 <= k <= width v4 -> (2 ^ k | b) -> b < cur < b + 2 ^ k ->
    exists x, b <= x < b + 2 ^ k /\ ~ within lo hi x.

Lemma unreached_larger v4 lo hi cur b j : 0 <= lo <= cur -> cur <= hi -> hi < 2 ^ width v4 ->
  unreached v4 lo hi cur -> step_size v4 cur hi < j <= width v4 -> (2 ^ j | b) ->
  b <= cur -> cur + 2 ^ step_size v4 cur hi <= b + 2 ^ j ->
  exists x, b <= x < b + 2 ^ j /\ ~ within lo hi x.
Proof.
  intros Hlo Hc Hhi Hinv Hj Hd Hb He. pose proof (width_bound v4).
  destruct (step_size_spec v4 cur hi) as (Hk & _); [lia..|].
  pose proof (Z.pow_pos_nonneg 2 (step_size v4 cur hi)).
  assert (Hle : 2 ^ width v4 <= 2 ^ 128) by (apply Z.pow_le_mono_r; lia).
  destruct (decide (b = cur)) as [->|Hne]; [|apply (Hinv b j); [lia|done|lia]].
  destruct (align_of_spec cur (width v4)) as (_ & _ & Hmax); [lia..|].
  specialize (Hmax j). destruct (span_of_spec (hi - cur)) as (Hs & _ & Hs2); [unfold U128_MAX; lia|].
  unfold step_size in *. assert (span_of (hi - cur) + 1 <= j) by (pose proof (Hmax ltac:(lia) Hd); lia).
  assert (2 ^ (span_of (hi - cur) + 1) <= 2 ^ j) by (apply Z.pow_le_mono_r; lia).
  exists (hi + 1). unfold within. lia.
Qed.

Lemma unreached_step v4 lo hi cur : 0 <= lo <= cur -> cur <= hi -> hi < 2 ^ width v4 ->
  unreached v4 lo hi cur -> unreached v4 lo hi (cur + 2 ^ step_size v4 cur hi).
Proof.
  intros Hlo Hc Hhi Hinv b j Hj Hd Hb.
  destruct (step_size_spec v4 cur hi) as (Hk & _ & Hdk & _); [lia..|].
  set (k := step_size v4 cur hi) in *. pose proof (Z.pow_pos_nonneg 2 k).
  destruct (decide (j <= k)) as [Hjk|Hjk].
  - destruct (dyadic_nested b j cur k (cur + 2 ^ k - 1)); [lia|done|done|lia..].
  - destruct (dyadic_nested cur k b j (cur + 2 ^ k - 1)); [lia|done|done|lia..|].
    apply (unreached_larger v4 lo hi cur b j); [done..| fold k; lia |done|lia | fold k; lia].
Qed.

Lemma step_maximal v4 lo hi cur n : 0 <= lo <= cur -> cur <= hi -> hi < 2 ^ width v4 ->
  unreached v4 lo hi cur -> is_v4 n = v4 -> net_network n = cur ->
  net_broadcast n = cur + 2 ^ step_size v4 cur hi - 1 -> maximal_in (within lo hi) n.
Proof.
  intros Hlo Hc Hhi Hinv Hv Hn Hbr b j Hj Hd Hb He Hlt. rewrite family_width, Hv in Hj.
  rewrite Hn, Hbr in *. destruct (step_size_spec v4 cur hi) as (Hk & _); [lia..|].
  apply (unreached_larger v4 lo hi cur b j); [done..| |done|lia|lia].
  split; [|lia]. apply (Z.pow_lt_mono_r_iff 2); lia.
Qed.

Lemma emit_loop_spec v4 lo hi : 0 <= lo -> hi < 2 ^ width v4 -> overflow_checks = false \/ hi < U128_MAX ->
  forall fuel cur out, lo <= cur <= hi -> unreached v4 lo hi cur -> emit_measure v4 cur hi <= Z.of_nat fuel ->
  exists nets, emit_loop overflow_checks fuel cur hi (width v4) out = Ret (out ++ nets) /\
    tiles v4 nets cur hi /\ Forall (maximal_in (within lo hi)) nets.
Proof.
  intros Hlo Hhi Hchk fuel. induction fuel as [|fuel IH]; intros cur out Hc Hinv Hm.
  { pose proof (emit_measure_bound v4 cur hi). lia. }
  destruct (emit_loop_step v4 fuel cur hi out) as (n & Hv & Hn & Hbr & ->); [lia|lia|done|].
  assert (maximal_in (within lo hi) n) by (eapply step_maximal; [| | | |exact Hv|exact Hn|exact Hbr]; [lia..|done]).
  destruct (step_size_spec v4 cur hi) as (Hk & _ & _ & Hend); [lia..|].
  pose proof (Z.pow_pos_nonneg 2 (step_size v4 cur hi)).
  destruct (Z.leb_spec hi (cur + 2 ^ step_size v4 cur hi - 1)).
  - exists [n]. cbn [tiles]. split_and!; try done; [lia|]. by constructor.
  - destruct (IH (cur + 2 ^ step_size v4 cur hi) (out ++ [n])) as (nets & -> & Ht & Hmax).
    + lia.
    + apply unreached_step; [lia..|done].
    + assert (Hdec := emit_measure_decreases v4 cur hi). cbv zeta in Hdec. lia.
    + exists (n :: nets). rewrite <- app_assoc. split; [done|]. split; [|by constructor].
      cbn [tiles]. split_and!; [done..|]. rewrite Hbr.
      by replace (cur + 2 ^ step_size v4 cur hi - 1 + 1) with (cur + 2 ^ step_size v4 cur hi) by lia.
Qed.

(** [emit_range]: the blocks of [lo..hi], each as large as it can be. *)
Lemma emit_range_spec v4 lo hi out : 0 <= lo <= hi -> hi < 2 ^ width v4 ->
  overflow_checks = false \/ hi < U128_MAX ->
  exists nets, emit_range overflow_checks lo hi (width v4) out = Ret (out ++ nets) /\
    tiles v4 nets lo hi /\ Forall (maximal_in (within lo hi)) nets.
Proof.
  intros Hlo Hhi Hchk. apply (emit_loop_spec v4 lo hi); [lia|done|done|lia| |].
  - intros b k Hk Hd Hb. exists b. unfold within. lia.
  - unfold emit_fuel. pose proof (emit_measure_bound v4 lo hi). pose proof (width_bound v4). lia.
Qed.

(** ** Merged excludes *)

Definition in_ranges (l : list (Z * Z)) (x : Z) : Prop := exists r, r ∈ l /\ r.1 <= x <= r.2.
Definition range_ok (r : Z * Z) : Prop := 0 <= r.1 <= r.2 /\ r.2 <= U128_MAX.

Lemma in_ranges_cons r l x : in_ranges (r :: l) x <-> r.1 <= x <= r.2 \/ in_ranges l x.
Proof. unfold in_ranges. setoid_rewrite elem_of_cons. naive_solver. Qed.

(** Ascending ranges with gaps between them. *)
Fixpoint separated (above : Z) (l : list (Z * Z)) : Prop :=
  match l with
  | [] => True
  | r :: l => above < r.1 /\ range_ok r /\ separated (r.2 + 1) l
  end.

Lemma separated_above a l x : separated a l -> in_ranges l x -> a < x.
Proof.
  revert a. induction l as [|r l IH]; intros a Hs Hx.
  - destruct Hx as (r & Hr & _). by apply not_elem_of_nil in Hr.
  - destruct Hs as (? & [? ?] & Hs). apply in_ranges_cons in Hx as [?|Hx]; [lia|].
    specialize (IH _ Hs Hx). lia.
Qed.

(** The ranges merged so far, the last one first. *)
Fixpoint stacked (m : list (Z * Z)) : Prop :=
  match m with
  | [] => True
  | r :: m => range_ok r /\ Forall (fun q => q.2 + 1 < r.1) m /\ stacked m
  end.

Definition head_below (m : list (Z * Z)) (lo : Z) : Prop := match m with [] => True | r :: _ => r.1 <= lo end.

Lemma merge_step_spec m r : stacked m -> range_ok r -> head_below m r.1 ->
  stacked (merge_step m r) /\ head_below (merge_step m r) r.1 /\
  forall x, in_ranges (merge_step m r) x <-> in_ranges m x \/ r.1 <= x <= r.2.
Proof.
  destruct m as [|[l h] m]; cbn [merge_step fst snd head_below]; intros Hs Hr Hb.
  { cbn [stacked head_below]. split; [done|]. split; [lia|]. intros x. rewrite in_ranges_cons. tauto. }
  destruct Hs as (Hok & Hall & Hs). unfold range_ok, sat_add128 in *. cbn [fst snd] in *.
  destruct (Z.leb_spec r.1 (Z.min (h + 1) U128_MAX)); cbn [stacked head_below fst snd].
  - split; [split; [unfold range_ok; cbn; lia|done]|]. split; [lia|].
    intros x. rewrite !in_ranges_cons. cbn [fst snd].
    assert (l <= x <= Z.max h r.2 <-> l <= x <= h \/ r.1 <= x <= r.2) by lia. tauto.
  - split; [split; [done|split; [|done]]|].
    + constructor; [cbn; lia|]. eapply Forall_impl; [done|]. cbn. lia.
    + split; [lia|]. intros x. rewrite !in_ranges_cons. tauto.
Qed.

Lemma merge_fold_spec ranges m : StronglySorted range_le ranges -> Forall range_ok ranges ->
  stacked m -> Forall (fun r => head_below m r.1) ranges ->
  stacked (foldl merge_step m ranges) /\
  forall x, in_ranges (foldl merge_step m ranges) x <-> in_ranges m x \/ in_ranges ranges x.
Proof.
  intros Hsort. revert m. induction Hsort as [|r ranges Hsort IH Hle]; intros m Hok Hs Hb; cbn [foldl].
  - split; [done|]. intros x. assert (~ in_ranges [] x); [|tauto].
    intros (r & Hr & _). by apply not_elem_of_nil in Hr.
  - apply Forall_cons in Hok as [Hr Hok], Hb as [Hb _].
    destruct (merge_step_spec m r Hs Hr Hb) as (Hs' & Hb' & Heq).
    destruct (IH (merge_step m r)) as [Hst Hin]; [done|done| |].
    + eapply Forall_impl; [exact Hle|]. intros q Hq. unfold range_le in Hq.
      destruct (merge_step m r) as [|h ?]; cbn in *; [done|lia].
    + split; [done|]. intros x. rewrite Hin, Heq, in_ranges_cons. tauto.
Qed.

Lemma separated_snoc a l r : separated a l -> Forall (fun q => q.2 + 1 < r.1) l -> a < r.1 -> range_ok r ->
  separated a (l ++ [r]).
Proof.
  revert a. induction l as [|q l IH]; intros a Hs Hall Ha Hr; cbn in *; [done|].
  destruct Hs as (? & ? & Hs). apply Forall_cons in Hall as [? ?]. split_and!; [done..|]. by apply IH.
Qed.

Lemma stacked_separated m : stacked m -> separated (-1) (rev m).
Proof.
  induction m as [|r m IH]; intros Hs; cbn [rev]; [done|]. destruct Hs as (Hok & Hall & Hs).
  apply separated_snoc; [by apply IH| |unfold range_ok in Hok; lia|done].
  rewrite rev_alt. by rewrite (reverse_Permutation m : rev_append m [] ≡ₚ m).
Qed.

#[local] Instance range_le_trans : Transitive range_le.
Proof. intros a b c. unfold range_le. lia. Qed.
#[local] Instance range_le_total : Total range_le.
Proof. intros a b. unfold range_le. lia. Qed.

Lemma bounds_ok n : range_ok (net_bounds n).
Proof.
  destruct (net_block n) as (k & _ & _ & _ & _ & ? & Hb). pose proof (net_nonempty n).
  assert (2 ^ family_bits n <= 2 ^ 128).
  { apply Z.pow_le_mono_r; [lia|]. pose proof (width_bound (is_v4 n)). rewrite family_width. lia. }
  unfold range_ok, net_bounds, U128_MAX. cbn. lia.
Qed.

(** [merge_excludes]: the same addresses, as separated ranges. *)
Lemma merge_excludes_spec excs :
  separated (-1) (merge_excludes excs) /\
  forall x, in_ranges (merge_excludes excs) x <-> exists n, n ∈ excs /\ covers n x.
Proof.
  unfold merge_excludes. set (ranges := merge_sort range_le (map net_bounds excs)).
  assert (Hp : ranges ≡ₚ map net_bounds excs) by apply merge_sort_Permutation.
  destruct (merge_fold_spec ranges []) as [Hs Hin].
  - apply (StronglySorted_merge_sort range_le).
  - rewrite Hp. apply Forall_forall. intros r. rewrite list_elem_of_fmap. intros (n & -> & _). apply bounds_ok.
  - done.
  - apply Forall_forall. done.
  - split; [by apply stacked_separated|]. intros x.
    assert (Hrev : forall l, in_ranges (rev l) x <-> in_ranges l x).
    { intros l. unfold in_ranges. by setoid_rewrite elem_of_rev. }
    rewrite Hrev, Hin. unfold in_ranges at 2. setoid_rewrite Hp. setoid_rewrite list_elem_of_fmap.
    unfold covers. split.
    + intros [(r & Hr & _)|(r & (n & -> & Hn) & Hx)]; [by apply not_elem_of_nil in Hr|]. by exists n.
    + intros (n & Hn & Hx). right. exists (net_bounds n). eauto.
Qed.

(** ** Subtraction *)

(** What is left of [cur..hi]. *)
Definition remains (excl : list (Z * Z)) (cur hi x : Z) : Prop := cur <= x <= hi /\ ~ in_ranges excl x.

(** The outcome of subtracting: disjoint maximal networks for these addresses. *)
Definition exactly (v4 : bool) (from to : Z) (P : Z -> Prop) (nets : list IpNet) : Prop :=
  ascending v4 from nets to /\ (forall x, covered v4 nets x <-> P x) /\ Forall (maximal_in P) nets.

Lemma maximal_transfer (P Q : Z -> Prop) n : maximal_in P n ->
  (forall b e x, b <= net_network n -> net_broadcast n < e -> b <= x < e -> ~ P x ->
     exists y, b <= y < e /\ ~ Q y) -> maximal_in Q n.
Proof.
  intros HP HPQ b k Hk Hd Hb He Hlt. destruct (HP b k) as (x & Hx & Hn); [done..|].
  by apply (HPQ b (b + 2 ^ k) x).
Qed.

Lemma exactly_iff v4 a b P Q nets : (forall x, P x <-> Q x) -> exactly v4 a b P nets -> exactly v4 a b Q nets.
Proof.
  intros Heq (Hasc & Hcov & Hmax). split; [done|]. split; [intros x; by rewrite Hcov|].
  eapply Forall_impl; [exact Hmax|]. intros n Hn. apply (maximal_transfer P); [done|].
  intros b' e x _ _ Hx Hnx. exists x. by rewrite <- Heq.
Qed.

Lemma emit_range_exactly v4 lo hi out : 0 <= lo <= hi -> hi < 2 ^ width v4 ->
  overflow_checks = false \/ hi < U128_MAX ->
  exists nets, emit_range overflow_checks lo hi (width v4) out = Ret (out ++ nets) /\
    exactly v4 lo hi (within lo hi) nets.
Proof.
  intros Hlo Hhi Hchk. destruct (emit_range_spec v4 lo hi out) as (nets & He & Ht & Hmax); [done..|].
  exists nets. split; [done|]. split; [by apply tiles_ascending|]. split; [|done].
  intros x. by apply tiles_covered.
Qed.

(** The gap before an exclude, which may be empty. *)
Lemma emit_gap v4 cur lo out : 0 <= cur -> lo - 1 < 2 ^ width v4 -> lo <= U128_MAX ->
  exists nets,
    (if cur <? lo then top ← arith128 overflow_checks (lo - 1); emit_range overflow_checks cur top (width v4) out
     else Ret out) = Ret (out ++ nets) /\
    exactly v4 cur (lo - 1) (within cur (lo - 1)) nets.
Proof.
  intros Hc Hlo Hmax. destruct (Z.ltb_spec cur lo).
  - rewrite arith128_ok, ret_bind by lia. apply emit_range_exactly; [lia..|]. right. lia.
  - exists []. rewrite app_nil_r. split; [done|]. split; [done|]. split; [|done].
    intros x. unfold within. split; [|lia]. intros (n & Hn & _). by apply not_elem_of_nil in Hn.
Qed.

Lemma covered_app v4 l k x : covered v4 (l ++ k) x <-> covered v4 l x \/ covered v4 k x.
Proof. unfold covered. setoid_rewrite elem_of_app. naive_solver. Qed.

Lemma exactly_gap v4 lo hi cur inc_hi rest nets1 nets2 :
  cur <= hi -> lo <= hi -> hi < inc_hi -> separated (hi + 1) rest ->
  exactly v4 cur (lo - 1) (within cur (lo - 1)) nets1 ->
  exactly v4 (hi + 1) inc_hi (remains rest (hi + 1) inc_hi) nets2 ->
  exactly v4 cur inc_hi (remains ((lo, hi) :: rest) cur inc_hi) (nets1 ++ nets2).
Proof.
  intros Hcur Hle Hlt Hsep (Hasc1 & Hcov1 & Hmax1) (Hasc2 & Hcov2 & Hmax2).
  assert (Habove : forall x, in_ranges rest x -> hi + 1 < x) by (intros; by eapply separated_above).
  assert (Hmid : forall x, lo <= x <= hi -> ~ remains ((lo, hi) :: rest) cur inc_hi x).
  { intros x Hx [_ Hn]. apply Hn, in_ranges_cons. by left. }
  split; [|split].
  - apply (ascending_app _ _ _ _ hi); [lia|lia| |done]. by apply (ascending_weaken _ _ cur (lo - 1)); [lia..|].
  - intros x. rewrite covered_app, Hcov1, Hcov2. unfold remains, within. rewrite in_ranges_cons. cbn [fst snd].
    specialize (Habove x). split.
    + intros [?|[? Hn]]; (split; [lia|]); intros [?|Hin]; try lia; [|tauto]. specialize (Habove Hin). lia.
    + intros [? Hn]. destruct (decide (x < lo)); [left; lia|right]. split; [|tauto].
      destruct (decide (x <= hi)); [|lia]. destruct Hn. left. lia.
  - apply Forall_app. split; rewrite Forall_forall in *.
    + intros n Hn. apply (maximal_transfer (within cur (lo - 1))); [auto|]. intros b e x Hb He Hx Hnx.
      destruct (ascending_elem _ _ _ _ _ Hasc1 Hn) as (_ & ? & ?). pose proof (net_nonempty n).
      destruct (decide (x < cur)) as [?|Hge]; [exists x; unfold remains; split; [done|lia]|].
      exists lo. unfold within in Hnx. split; [lia|]. apply Hmid. lia.
    + intros n Hn. apply (maximal_transfer (remains rest (hi + 1) inc_hi)); [auto|]. intros b e x Hb He Hx Hnx.
      destruct (ascending_elem _ _ _ _ _ Hasc2 Hn) as (_ & ? & ?). pose proof (net_nonempty n).
      destruct (decide (x <= hi)); [exists hi; split; [lia|]; apply Hmid; lia|].
      exists x. split; [done|]. intros [? Hr]. apply Hnx. split; [lia|]. intros Hin. apply Hr, in_ranges_cons. by right.
Qed.

Lemma subtract_loop_spec v4 excl : forall a cur inc_hi out,
  separated a excl -> Forall (fun r => cur <= r.2) excl -> 0 <= cur <= inc_hi -> inc_hi < 2 ^ width v4 ->
  overflow_checks = false \/ inc_hi < U128_MAX ->
  exists nets, subtract_loop overflow_checks excl cur inc_hi (width v4) out = Ret (out ++ nets) /\
    exactly v4 cur inc_hi (remains excl cur inc_hi) nets.
Proof.
  induction excl as [|[lo hi] excl IH]; intros a cur inc_hi out Hsep Hall Hc Hhi Hchk; cbn [subtract_loop].
  { destruct (emit_range_exactly v4 cur inc_hi out) as (nets & -> & He); [done..|]. exists nets. split; [done|].
    eapply exactly_iff; [|exact He]. intros x. unfold within, remains. split; [|tauto]. intros ?. split; [done|].
    intros (r & Hr & _). by apply not_elem_of_nil in Hr. }
  pose proof (width_bound v4) as Hw.
  assert (Hle : 2 ^ width v4 <= 2 ^ 128) by (apply Z.pow_le_mono_r; lia).
  cbn in Hsep. destruct Hsep as (_ & [Hr1 Hr2] & Hsep). cbn [fst snd] in *.
  apply Forall_cons in Hall as [Hcur _]. cbn [snd] in Hcur.
  assert (Habove : forall x, in_ranges excl x -> hi + 1 < x) by (intros; by eapply separated_above).
  destruct (Z.ltb_spec inc_hi lo) as [Hlt|Hge].
  { destruct (emit_range_exactly v4 cur inc_hi out) as (nets & -> & He); [done..|]. exists nets. split; [done|].
    eapply exactly_iff; [|exact He]. intros x. unfold within, remains. split; [|tauto]. intros ?. split; [done|].
    rewrite in_ranges_cons. cbn [fst snd]. intros [?|Hx%Habove]; lia. }
  destruct (emit_gap v4 cur lo out) as (nets1 & -> & He1); [lia..|]. rewrite ret_bind.
  destruct (Z.leb_spec inc_hi hi) as [Hend|Hmore].
  - exists nets1. split; [done|]. destruct He1 as (Hasc & Hcov & Hmax).
    eapply exactly_iff; [|split; [|split; [exact Hcov|done]]].
    + intros x. unfold within, remains. rewrite in_ranges_cons. cbn [fst snd]. split.
      * intros ?. split; [lia|]. intros [?|Hx%Habove]; lia.
      * intros [? Hn]. destruct (decide (x < lo)); [lia|]. destruct Hn. left. lia.
    + apply (ascending_weaken _ _ cur (lo - 1)); [lia..|done].
  - rewrite arith128_ok, ret_bind by (unfold U128_MAX; lia).
    destruct (IH (hi + 1) (hi + 1) inc_hi (out ++ nets1)) as (nets2 & -> & He2); [done| |lia..|done|].
    + clear -Hsep. revert Hsep. generalize (hi + 1). induction excl as [|r excl IH]; intros a Hs; constructor.
      * destruct Hs as (? & [? ?] & _). lia.
      * destruct Hs as (? & [? ?] & Hs). eapply Forall_impl; [apply (IH _ Hs)|]. cbn. lia.
    + exists (nets1 ++ nets2). rewrite app_assoc. split; [done|]. apply exactly_gap; [lia..|done|done|done].
Qed.

Lemma partition_point_spec inc_lo excl a : separated a excl ->
  let l := from_partition_point inc_lo excl in
  (exists a', separated a' l) /\ Forall (fun r => inc_lo <= r.2) l /\
  forall x, inc_lo <= x -> in_ranges l x <-> in_ranges excl x.
Proof.
  revert a. induction excl as [|[lo hi] excl IH]; intros a Hs; cbn.
  { split; [by exists 0|]. split; [constructor|done]. }
  destruct (Z.ltb_spec hi inc_lo) as [Hlt|Hge].
  - destruct Hs as (_ & _ & Hs). destruct (IH _ Hs) as (Hs' & Hall & Hin). split; [done|]. split; [done|].
    intros x Hx. rewrite (Hin x Hx), in_ranges_cons. cbn [fst snd]. split; [tauto|]. intros [?|?]; [lia|done].
  - split; [by exists a|]. split; [|done]. constructor; [done|].
    destruct Hs as (_ & [Hr _] & Hs). cbn [snd] in Hs. clear -Hs Hge. revert Hge Hs. generalize hi.
    induction excl as [|r excl IH]; intros h Hge Hs; constructor.
    + destruct Hs as (? & [? ?] & _). lia.
    + destruct Hs as (? & [? ?] & Hs). apply (IH (r.2)); [lia|done].
Qed.

Lemma subtract_many_spec inc excl a : separated a excl ->
  overflow_checks = false \/ net_broadcast inc < U128_MAX ->
  exists nets, subtract_many overflow_checks inc excl = Ret nets /\
    exactly (is_v4 inc) (net_network inc) (net_broadcast inc) (fun x => covers inc x /\ ~ in_ranges excl x) nets.
Proof.
  intros Hs Hchk. unfold subtract_many, net_bounds.
  destruct (partition_point_spec (net_network inc) excl a Hs) as ([a' Hs'] & Hall & Hin).
  destruct (net_block inc) as (k & _ & _ & _ & _ & Hlo & Hhi). pose proof (net_nonempty inc).
  rewrite family_width in *.
  destruct (subtract_loop_spec (is_v4 inc) (from_partition_point (net_network inc) excl) a' (net_network inc)
    (net_broadcast inc) []) as (nets & -> & He); [done|done|lia|done|done|].
  exists nets. split; [done|]. eapply exactly_iff; [|exact He]. intros x. unfold remains, covers.
  split; intros [? Hn]; (split; [done|]); pose proof (Hin x ltac:(lia)); tauto.
Qed.

Lemma subtract_all_spec v4 incs excl a out : separated a excl -> Forall (fun inc => is_v4 inc = v4) incs ->
  overflow_checks = false \/ Forall (fun inc => net_broadcast inc < U128_MAX) incs ->
  exists nets, subtract_all overflow_checks incs excl out = Ret (out ++ nets) /\
    Forall (fun n => is_v4 n = v4) nets /\
    forall x, covered v4 nets x <-> covered v4 incs x /\ ~ in_ranges excl x.
Proof.
  intros Hs Hall Hchk. revert out. induction Hall as [|inc incs Hv Hall IH]; intros out; cbn [subtract_all].
  { exists []. rewrite app_nil_r. split; [done|]. split; [constructor|].
    intros x. unfold covered. setoid_rewrite elem_of_nil. naive_solver. }
  destruct (subtract_many_spec inc excl a Hs) as (nets & -> & Hasc & Hcov & _).
  { destruct Hchk as [?|Hchk]; [by left|right]. by apply Forall_cons in Hchk as [? _]. }
  rewrite ret_bind. destruct IH with (out := out ++ nets) as (nets' & -> & Hall' & Hcov').
  { destruct Hchk as [?|Hchk]; [by left|right]. by apply Forall_cons in Hchk as [_ ?]. }
  exists (nets ++ nets'). rewrite app_assoc. split; [done|]. split.
  - apply Forall_app. split; [|done]. apply Forall_forall. intros n Hn.
    rewrite <- Hv. by destruct (ascending_elem _ _ _ _ _ Hasc Hn).
  - intros x. rewrite covered_app, <- Hv, Hcov, Hv, Hcov'.
    assert (covered v4 (inc :: incs) x <-> covers inc x \/ covered v4 incs x); [|tauto].
    unfold covered. setoid_rewrite elem_of_cons. naive_solver.
Qed.

Lemma trunc_bounds n :
  is_v4 (net_trunc n) = is_v4 n /\ net_network (net_trunc n) = net_network n /\
  net_broadcast (net_trunc n) = net_broadcast n.
Proof.
  destruct (trunc_spec n) as (Hv & Hl & Ha). split; [done|].
  assert (Hn : net_network (net_trunc n) = net_network n).
  { rewrite (network_spec (net_trunc n)), Ha, Hl, family_width, Hv, <- family_width.
    rewrite (network_spec n). rewrite Z.div_mul; [done|].
    apply Z.pow_nonzero; [lia|]. pose proof (prefix_len_bound n). lia. }
  split; [done|]. rewrite !broadcast_spec, Hn, Hl, !family_width, Hv. done.
Qed.

Definition select (entries : list (bool * IpNet)) (exc v4 : bool) : list IpNet :=
  (filter (fun e => fst e = exc /\ is_v4 (snd e) = v4)
     (map (fun '(is_exclude, prefix) => (is_exclude, net_trunc prefix)) entries)).*2.

Lemma elem_of_select entries exc v4 m :
  m ∈ select entries exc v4 <-> exists n, (exc, n) ∈ entries /\ is_v4 n = v4 /\ m = net_trunc n.
Proof.
  unfold select. rewrite list_elem_of_fmap. setoid_rewrite list_elem_of_filter. split.
  - intros ([e m'] & -> & [He Hv] & Hin). cbn in *. subst e.
    apply list_elem_of_fmap in Hin as ([e n] & [= -> ->] & Hin). exists n.
    destruct (trunc_bounds n) as (Ht & _). rewrite Ht in Hv. done.
  - intros (n & Hin & Hv & ->). exists (exc, net_trunc n). destruct (trunc_bounds n) as (Ht & _).
    split; [done|]. cbn. rewrite Ht. split; [done|]. apply list_elem_of_fmap. by exists (exc, n).
Qed.

(** Some entry of this kind and family covers the address. *)
Definition entry_covers (entries : list (bool * IpNet)) (exc v4 : bool) (x : Z) : Prop :=
  exists n, (exc, n) ∈ entries /\ is_v4 n = v4 /\ covers n x.

Lemma trunc_covers n x : covers (net_trunc n) x <-> covers n x.
Proof. unfold covers. by destruct (trunc_bounds n) as (_ & -> & ->). Qed.

Lemma covered_select entries exc v4 x : covered v4 (select entries exc v4) x <-> entry_covers entries exc v4 x.
Proof.
  unfold covered, entry_covers. setoid_rewrite elem_of_select. split.
  - intros (m & (n & Hin & Hv & ->) & _ & Hc). exists n. by rewrite <- trunc_covers.
  - intros (n & Hin & Hv & Hc). exists (net_trunc n). rewrite trunc_covers.
    destruct (trunc_bounds n) as (-> & _). split; [by exists n|done].
Qed.

Lemma select_family entries exc v4 : Forall (fun n => is_v4 n = v4) (select entries exc v4).
Proof.
  apply Forall_forall. intros m (n & _ & Hv & ->)%elem_of_select. by destruct (trunc_bounds n) as (-> & _).
Qed.

(** No include reaches the last address of the 128-bit space, or the build has
    no overflow checks. *)
Definition no_overflow (entries : list (bool * IpNet)) : Prop :=
  overflow_checks = false \/ forall n, (false, n) ∈ entries -> net_broadcast n < U128_MAX.

Lemma select_no_overflow entries v4 : no_overflow entries ->
  overflow_checks = false \/ Forall (fun inc => net_broadcast inc < U128_MAX) (select entries false v4).
Proof.
  intros [?|Hb]; [by left|right]. apply Forall_forall. intros m (n & Hin & _ & ->)%elem_of_select.
  destruct (trunc_bounds n) as (_ & _ & ->). by apply Hb.
Qed.

Lemma expand_family entries v4 out : no_overflow entries ->
  exists nets,
    subtract_all overflow_checks (select entries false v4) (merge_excludes (select entries true v4)) out
      = Ret (out ++ nets) /\
    Forall (fun n => is_v4 n = v4) nets /\
    forall x, covered v4 nets x <-> entry_covers entries false v4 x /\ ~ entry_covers entries true v4 x.
Proof.
  intros Hno. destruct (merge_excludes_spec (select entries true v4)) as [Hs Hin].
  destruct (subtract_all_spec v4 (select entries false v4) _ _ out Hs) as (nets & -> & Hall & Hcov);
    [apply select_family|by apply select_no_overflow|].
  exists nets. split; [done|]. split; [done|]. intros x. rewrite Hcov, Hin, !covered_select.
  assert ((exists n, n ∈ select entries true v4 /\ covers n x) <-> entry_covers entries true v4 x) as ->; [|done].
  rewrite <- covered_select. unfold covered. pose proof (select_family entries true v4) as Hf.
  rewrite Forall_forall in Hf. naive_solver.
Qed.

Lemma covered_other v4 nets x : Forall (fun n => is_v4 n = negb v4) nets -> ~ covered v4 nets x.
Proof.
  intros Hall (n & Hn & Hv & _). rewrite Forall_forall in Hall. specialize (Hall n Hn). cbn in Hall. rewrite Hv in Hall. by destruct v4.
Qed.

Lemma expand_entries_eq entries :
  expand_entries overflow_checks entries =
    (out ← subtract_all overflow_checks (select entries false true) (merge_excludes (select entries true true)) [];
     subtract_all overflow_checks (select entries false false) (merge_excludes (select entries true false)) out).
Proof. done. Qed.

Lemma expand_entries_exact entries : no_overflow entries ->
  exists out, expand_entries overflow_checks entries = Ret out /\
    forall v4 x, covered v4 out x <-> entry_covers entries false v4 x /\ ~ entry_covers entries true v4 x.
Proof.
  intros Hno. destruct (expand_family entries true [] Hno) as (nets4 & H4 & Hall4 & Hcov4).
  destruct (expand_family entries false nets4 Hno) as (nets6 & H6 & Hall6 & Hcov6).
  exists (nets4 ++ nets6). split.
  - rewrite expand_entries_eq, H4, ret_bind. apply H6.
  - intros v4 x. rewrite covered_app. destruct v4.
    + rewrite Hcov4. pose proof (covered_other true nets6 x Hall6). tauto.
    + rewrite Hcov6. pose proof (covered_other false nets4 x Hall4). tauto.
Qed.

(** C14: The prefixes computed from a list of included and excluded networks
    ([expand_cidrs] after parsing) cover exactly the addresses of each family
    that some include covers and no exclude of that family covers, for any
    overlaps, order and host bits in the entries; no step panics and every loop
    ends. In a build with overflow checks this needs that no include ends at the
    last IPv6 address. *)
Theorem ckr_expand_exact entries : no_overflow entries ->
  exists out, expand_entries overflow_checks entries = Ret out /\
    forall v4 x, covered v4 out x <-> entry_covers entries false v4 x /\ ~ entry_covers entries true v4 x.
Proof. apply expand_entries_exact. Qed.

(** For one include, [subtract_many] over the merged excludes returns
    disjoint prefixes for exactly the remaining addresses, and no list of
    prefixes that covers the same addresses is shorter. *)
Theorem ckr_subtract_minimal inc excs :
  overflow_checks = false \/ net_broadcast inc < U128_MAX ->
  exists nets, subtract_many overflow_checks inc (merge_excludes excs) = Ret nets /\
    ascending (is_v4 inc) (net_network inc) nets (net_broadcast inc) /\
    (forall x, covered (is_v4 inc) nets x <-> covers inc x /\ ~ exists n, n ∈ excs /\ covers n x) /\
    forall nets', (forall x, covered (is_v4 inc) nets' x <-> covered (is_v4 inc) nets x) ->
      (length nets <= length nets')%nat.
Proof.
  intros Hchk. destruct (merge_excludes_spec excs) as [Hs Hin].
  destruct (subtract_many_spec inc _ _ Hs Hchk) as (nets & -> & Hasc & Hcov & Hmax).
  exists nets. split; [done|]. split; [done|]. split; [intros x; by rewrite Hcov, Hin|].
  intros nets' Heq. eapply maximal_minimal; [done| |done].
  eapply Forall_impl; [exact Hmax|]. intros n Hn. apply (maximal_transfer _ _ _ Hn).
  intros b e x _ _ Hx Hnx. exists x. by rewrite Hcov.
Qed.
End Emit.

Lemma emit_top_panics fuel n : is_v4 n = false -> 1 <= net_prefix_len n -> net_broadcast n = U128_MAX ->
  emit_loop true (S fuel) (net_network n) (net_broadcast n) 128 [] = Panic.
Proof.
  intros Hv Hl Hb. destruct (net_block n) as (k & Hk & Hkl & Hd & Hkb & Hlo & _).
  rewrite family_width, Hv in *. cbn [width] in *.
  assert (Hsize : step_size false (net_network n) (net_broadcast n) = k).
  { unfold step_size. destruct (align_of_spec (net_network n) (width false)) as (_ & _ & Hmax); [done|done|].
    specialize (Hmax k ltac:(done) Hd).
    destruct (span_of_spec (net_broadcast n - net_network n)) as (Hs & Hs1 & Hs2); [lia|].
    replace (net_broadcast n - net_network n + 1) with (2 ^ k) in * by lia.
    apply Z.pow_le_mono_r_iff in Hs1; [|lia..]. apply Z.pow_lt_mono_r_iff in Hs2; [|lia..].
    cbn [width] in *. lia. }
  destruct (make_net_spec false (net_network n) (128 - k)) as (m & Hm & _).
  { cbn [width]. unfold U128_MAX in *. pose proof (net_nonempty n). lia. }
  { cbn [width]. lia. }
  { cbn [width]. by replace (128 - (128 - k)) with k by lia. }
  cbn [width] in Hm.
  cbn [emit_loop]. pose proof (net_nonempty n).
  rewrite (arith128_ok true), ret_bind by lia. cbv zeta.
  change (Z.min (align_of (net_network n) 128) (span_of (net_broadcast n - net_network n)))
    with (step_size false (net_network n) (net_broadcast n)).
  rewrite Hsize, (Z.min_l k) by lia. rewrite Hm, ret_bind.
  destruct (Z.eqb_spec k 128); [lia|].
  assert (net_network n + 2 ^ k = 2 ^ 128) as -> by (unfold U128_MAX in *; lia). done.
Qed.

(** In a build with overflow checks, an include that is a proper IPv6 prefix
    ending at the last address (such as [8000::/1] or [ff00::/8]) makes the
    expansion panic: [cur + (1 << size) - 1] adds before it subtracts and the
    sum is 2^128, although the comment says it cannot overflow. *)
Theorem ckr_top_prefix_panics n : is_v4 n = false -> 1 <= net_prefix_len n -> net_broadcast n = U128_MAX ->
  expand_entries true [(false, n)] = Panic.
Proof.
  intros Hv Hl Hb. destruct (trunc_bounds n) as (Htv & Htn & Htb), (trunc_spec n) as (_ & Htl & _).
  assert (Hsel : forall exc v4, select [(false, n)] exc v4 = if exc || v4 then [] else [net_trunc n]).
  { intros exc v4. unfold select. cbn [map]. rewrite filter_cons. cbn [fst snd]. rewrite Htv, Hv.
    by destruct exc, v4. }
  rewrite expand_entries_eq, !Hsel. cbn [orb]. cbn [subtract_all]. rewrite ret_bind.
  unfold subtract_many, net_bounds, family_bits. cbn. rewrite Htv, Hv.
  unfold emit_range. change (emit_fuel 128) with (S (Z.to_nat 258)).
  rewrite emit_top_panics; [done|congruence|lia|congruence].
Qed.
End Facts.

(** ** Networks as triples

    An instance: family, address and prefix length, brought into range when
    they are read. *)

Definition triple_bits (n : bool * Z * Z) : Z := if n.1.1 then 32 else 128.
Definition triple_len (n : bool * Z * Z) : Z := Z.max 0 (Z.min n.2 (triple_bits n)).
Definition triple_addr (n : bool * Z * Z) : Z := n.1.2 mod 2 ^ triple_bits n.
Definition triple_network (n : bool * Z * Z) : Z :=
  triple_addr n / 2 ^ (triple_bits n - triple_len n) * 2 ^ (triple_bits n - triple_len n).

#[export] Instance triple_nets : IpNetOps := {|
  IpNet := bool * Z * Z;
  is_v4 n := n.1.1;
  net_addr := triple_addr;
  net_network := triple_network;
  net_broadcast n := triple_network n + 2 ^ (triple_bits n - triple_len n) - 1;
  net_prefix_len := triple_len;
  net_trunc n := (n.1.1, triple_network n, triple_len n);
  Ipv4Net_new a l := if decide (l <= 32) then Some (true, a, l) else None;
  Ipv6Net_new a l := if decide (l <= 128) then Some (false, a, l) else None
|}.

Lemma triple_bits_bound n : 32 <= triple_bits n <= 128.
Proof. unfold triple_bits. destruct n.1.1; lia. Qed.

Lemma triple_len_bound n : 0 <= triple_len n <= triple_bits n.
Proof. pose proof (triple_bits_bound n). unfold triple_len. lia. Qed.

Lemma triple_network_bound n : 0 <= triple_network n < 2 ^ triple_bits n.
Proof.
  pose proof (triple_bits_bound n). pose proof (triple_len_bound n). unfold triple_network.
  assert (0 <= triple_addr n < 2 ^ triple_bits n) by (apply Z.mod_pos_bound, Z.pow_pos_nonneg; lia).
  pose proof (Z.pow_pos_nonneg 2 (triple_bits n - triple_len n)).
  pose proof (Z.mul_div_le (triple_addr n) (2 ^ (triple_bits n - triple_len n))).
  pose proof (Z.div_pos (triple_addr n) (2 ^ (triple_bits n - triple_len n))). nia.
Qed.

#[export] Instance triple_laws : IpNetLaws.
Proof.
  split; cbn.
  - intros n. apply triple_len_bound.
  - intros n. pose proof (triple_bits_bound n). apply (Z.mod_pos_bound _ (2 ^ triple_bits n)), Z.pow_pos_nonneg; lia.
  - done.
  - done.
  - intros n. split; [done|]. pose proof (triple_len_bound n). split.
    + change (Z.max 0 (Z.min (triple_len n) (triple_bits n)) = triple_len n). lia.
    + change (triple_network n mod 2 ^ triple_bits n = triple_network n).
      apply Z.mod_small, triple_network_bound.
  - intros a l Ha Hl. rewrite decide_True by lia. exists (true, a, l). split; [done|]. split; [done|].
    split; [apply Z.mod_small; done | unfold triple_len, triple_bits; cbn; lia].
  - intros a l Ha Hl. rewrite decide_True by lia. exists (false, a, l). split; [done|]. split; [done|].
    split; [apply Z.mod_small; done | unfold triple_len, triple_bits; cbn; lia].
Qed.

(** 10.0.0.0/8 without 10.0.0.5 and 10.128.0.0/9; and ff00::/8. *)
Definition example_include : IpNet := (true, 10 * 2 ^ 24, 8).
Definition example_excludes : list IpNet := [(true, 10 * 2 ^ 24 + 2 ^ 23, 9); (true, 10 * 2 ^ 24 + 5, 32)].
Definition example_top : IpNet := (false, 255 * 2 ^ 120, 8).

Example example_expansion :
  subtract_many true example_include (merge_excludes example_excludes) =
    Ret ((true, 10 * 2 ^ 24, 30) :: (true, 10 * 2 ^ 24 + 4, 32) ::
         map (fun k => (true, 10 * 2 ^ 24 + 2 ^ k + (if decide (k = 1) then 4 else 0), 32 - k))
           (1 :: map (fun i => Z.of_nat i) (seq 3 20))).
Proof. vm_compute. reflexivity. Qed.

Lemma ckr_expand_exact_witness :
  exists out, expand_entries true ((false, example_include) :: map (pair true) example_excludes) = Ret out /\
    forall v4 x, covered v4 out x <->
      entry_covers ((false, example_include) :: map (pair true) example_excludes) false v4 x /\
      ~ entry_covers ((false, example_include) :: map (pair true) example_excludes) true v4 x.
Proof.
  apply (ckr_expand_exact true). right. intros n Hn.
  repeat (apply elem_of_cons in Hn as [[= ->]|Hn]); [by vm_compute|]. by apply not_elem_of_nil in Hn.
Defined.

Lemma ckr_subtract_minimal_witness :
  exists nets, subtract_many true example_include (merge_excludes example_excludes) = Ret nets /\
    ascending true (net_network example_include) nets (net_broadcast example_include) /\
    (forall x, covered true nets x <-> covers example_include x /\ ~ exists n, n ∈ example_excludes /\ covers n x) /\
    forall nets', (forall x, covered true nets' x <-> covered true nets x) -> (length nets <= length nets')%nat.
Proof. apply (ckr_subtract_minimal true example_include example_excludes). right. by vm_compute. Defined.

Lemma ckr_top_prefix_panics_witness : expand_entries true [(false, example_top)] = Panic.
Proof. apply (ckr_top_prefix_panics example_top); by vm_compute. Defined.
