(* ===== verification/CkrRoutes.v ===== *)
(** * CkrRoutes: the route table is a longest-prefix match

    [RouteTable] keeps one hash map per prefix length; these theorems relate it
    to the list of routes it was built from. *)

From S2P Require Import Prelude.
From S2P Require Import Address.
From S2P Require Import Ckr.
From S2P Require Import CkrFacts.
From stdpp Require Import options.
Open Scope Z_scope.

Abbreviation Key := (list Z) (only parsing).

(** ** Levels *)

(** Longest prefix first. *)
Fixpoint descending (above : Z) (levels : list (Z * gmap Z Key)) : Prop :=
  match levels with
  | [] => True
  | (len, _) :: levels => len < above /\ descending len levels
  end.

(** [get_level], with the length of the prefix that matched. *)
Fixpoint match_level (levels : list (Z * gmap Z Key)) (bits addr : Z) : option (Z * Key) :=
  match levels with
  | [] => None
  | (len, level) :: rest =>
      match level !! mask_addr addr len bits with
      | Some dest => Some (len, dest)
      | None => match_level rest bits addr
      end
  end.

Lemma get_level_match levels bits addr : get_level levels bits addr = snd <$> match_level levels bits addr.
Proof. induction levels as [|[len level] rest IH]; cbn; [done|]. by destruct (level !! _). Qed.

Lemma match_level_below levels bits addr above len d :
  descending above levels -> match_level levels bits addr = Some (len, d) -> len < above.
Proof.
  revert above. induction levels as [|[l level] rest IH]; intros above Hd; cbn; [done|].
  destruct Hd as [Hlt Hd]. destruct (level !! _); [by intros [= <- <-]|].
  intros Hm. specialize (IH _ Hd Hm). lia.
Qed.

(** A new match replaces one that is not longer. *)
Definition prefer (len : Z) (d : Key) (old : option (Z * Key)) : option (Z * Key) :=
  match old with
  | Some (l, d') => if l <=? len then Some (len, d) else Some (l, d')
  | None => Some (len, d)
  end.

Lemma insert_level_spec levels above len key d bits addr : descending above levels -> len < above ->
  let levels' := snd (insert_level levels len key d) in
  descending above levels' /\
  match_level levels' bits addr =
    if decide (mask_addr addr len bits = key) then prefer len d (match_level levels bits addr)
    else match_level levels bits addr.
Proof.
  revert above. induction levels as [|[l level] rest IH]; intros above Hd Hlen; cbn [insert_level].
  { cbn. split; [done|]. destruct (decide _) as [->|Hne].
    - by rewrite lookup_singleton_eq.
    - by rewrite lookup_singleton_ne. }
  destruct Hd as [Hl Hd]. destruct (Z.eqb_spec l len) as [->|Hne].
  - cbn. split; [done|]. destruct (decide _) as [->|Hne].
    + rewrite lookup_insert_eq. destruct (level !! key); cbn; [by rewrite Z.leb_refl|].
      destruct (match_level rest bits addr) as [[l' d']|] eqn:Hm; cbn; [|done].
      rewrite (proj2 (Z.leb_le _ _)); [done|]. pose proof (match_level_below _ _ _ _ _ _ Hd Hm). lia.
    + by rewrite lookup_insert_ne.
  - destruct (Z.ltb_spec l len) as [Hlt|Hgt].
    + cbn. split; [done|]. destruct (decide _) as [->|Hne'].
      * rewrite lookup_singleton_eq. destruct (level !! _); cbn; [by rewrite (proj2 (Z.leb_le _ _)) by lia|].
        destruct (match_level rest bits addr) as [[l' d']|] eqn:Hm; cbn; [|done].
        rewrite (proj2 (Z.leb_le _ _)); [done|]. pose proof (match_level_below _ _ _ _ _ _ Hd Hm). lia.
      * by rewrite lookup_singleton_ne.
    + destruct (IH l Hd) as [Hd' Hm]; [lia|]. destruct (insert_level rest len key d) as [p rest'].
      cbn in *. split; [done|]. rewrite Hm. destruct (level !! mask_addr addr l bits); [|done].
      destruct (decide _); cbn; [|done]. by rewrite (proj2 (Z.leb_gt _ _)) by lia.
Qed.

Section Routes.
Context `{O : IpNetOps} {L : IpNetLaws}.
#[local] Set Default Proof Using "Type*".

Abbreviation Route := (IpNet * Key)%type.

(** ** Masks *)

Lemma mask_addr_spec a len bits : 0 <= len <= bits -> 0 <= a < 2 ^ bits ->
  mask_addr a len bits = a / 2 ^ (bits - len) * 2 ^ (bits - len).
Proof.
  intros Hl Ha. unfold mask_addr. destruct (Z.eqb_spec len 0) as [->|Hne].
  - rewrite Z.sub_0_r, Z.div_small by lia. lia.
  - rewrite Z.shiftl_mul_pow2, Z.shiftr_div_pow2 by lia. done.
Qed.

(** A network covers an address when its key is the masked address. *)
Lemma mask_covers n a : 0 <= a < 2 ^ family_bits n ->
  mask_addr a (net_prefix_len n) (family_bits n) =
    mask_addr (net_network n) (net_prefix_len n) (family_bits n) <-> covers n a.
Proof.
  intros Ha. destruct (net_block n) as (k & Hk & Hkl & [q Hq] & Hb & Hlo & Hhi).
  pose proof (prefix_len_bound n). pose proof (Z.pow_pos_nonneg 2 k).
  rewrite !mask_addr_spec, <- Hkl by lia. unfold covers. rewrite Hb, Hq, Z.div_mul by lia.
  pose proof (Z.div_mod a (2 ^ k)). pose proof (Z.mod_pos_bound a (2 ^ k)). split.
  - intros He. lia.
  - intros Hc. f_equal. symmetry. apply (Z.div_unique a (2 ^ k) q (a - q * 2 ^ k)); lia.
Qed.

#[export] Instance covers_dec n a : Decision (covers n a).
Proof. unfold covers. apply _. Defined.

(** ** Tables *)

Definition insert_all (t : RouteTable) (routes : list Route) : RouteTable :=
  foldl (fun t r => snd (RouteTable_insert t (fst r) (snd r))) t routes.

Definition best (routes : list Route) (addr : Z) (acc : option (Z * Key)) : option (Z * Key) :=
  foldl (fun acc r => if decide (covers (fst r) addr) then prefer (net_prefix_len (fst r)) (snd r) acc else acc)
    acc routes.

Lemma RouteTable_insert_eq t n d :
  snd (RouteTable_insert t n d) =
    let key := mask_addr (net_network n) (net_prefix_len n) (tb_bits t) in
    let '(present, levels) := insert_level (tb_levels t) (net_prefix_len n) key d in
    mkRouteTable (tb_bits t) levels (if present then tb_len t else S (tb_len t)).
Proof. unfold RouteTable_insert. cbv zeta. by destruct (insert_level _ _ _ _) as [[|] ?]. Qed.

Lemma insert_all_match v4 routes t addr : Forall (fun r => is_v4 (fst r) = v4) routes ->
  tb_bits t = width v4 -> descending (width v4 + 1) (tb_levels t) -> 0 <= addr < 2 ^ width v4 ->
  tb_bits (insert_all t routes) = width v4 /\
  match_level (tb_levels (insert_all t routes)) (width v4) addr =
    best routes addr (match_level (tb_levels t) (width v4) addr).
Proof.
  intros Hall. revert t. induction Hall as [|[n d] routes Hv Hall IH]; intros t Hb Hd Ha; cbn [insert_all best foldl].
  { done. }
  cbn [fst snd] in *. fold (insert_all (snd (RouteTable_insert t n d)) routes).
  rewrite RouteTable_insert_eq. cbv zeta. rewrite Hb.
  assert (Hf : family_bits n = width v4) by (by rewrite family_width, Hv).
  pose proof (prefix_len_bound n) as Hl. rewrite Hf in Hl.
  destruct (insert_level_spec (tb_levels t) (width v4 + 1) (net_prefix_len n)
    (mask_addr (net_network n) (net_prefix_len n) (width v4)) d (width v4) addr Hd) as [Hd' Hm]; [lia|].
  destruct (insert_level _ _ _ _) as [present levels]. cbn [snd] in *.
  destruct (IH (mkRouteTable (width v4) levels (if present then tb_len t else S (tb_len t)))) as [Hb' ->]; [done..|].
  split; [done|]. cbn [tb_levels]. rewrite Hm. unfold best.
  f_equal. apply decide_ext. rewrite <- Hf in *. by apply mask_covers.
Qed.

(** ** Longest-prefix match *)

(** [longest routes v4 addr d]: a route to [d] covers the address, no route that
    covers it is longer, and of equally long ones it is the last. *)
Definition longest (routes : list Route) (v4 : bool) (addr : Z) (d : Key) : Prop :=
  exists before n after, routes = before ++ (n, d) :: after /\ is_v4 n = v4 /\ covers n addr /\
    (forall n' d', (n', d') ∈ before -> is_v4 n' = v4 -> covers n' addr -> net_prefix_len n' <= net_prefix_len n) /\
    (forall n' d', (n', d') ∈ after -> is_v4 n' = v4 -> covers n' addr -> net_prefix_len n' < net_prefix_len n).

Definition lpm (routes : list Route) (v4 : bool) (addr : Z) (res : option Key) : Prop :=
  match res with
  | Some d => longest routes v4 addr d
  | None => forall n d, (n, d) ∈ routes -> is_v4 n = v4 -> ~ covers n addr
  end.

(** The accumulator of [best], related to the routes seen. *)
Definition lpm_len (routes : list Route) (v4 : bool) (addr : Z) (acc : option (Z * Key)) : Prop :=
  match acc with
  | Some (len, d) =>
      exists before n after, routes = before ++ (n, d) :: after /\ is_v4 n = v4 /\ covers n addr /\
        net_prefix_len n = len /\
        (forall n' d', (n', d') ∈ before -> is_v4 n' = v4 -> covers n' addr -> net_prefix_len n' <= len) /\
        (forall n' d', (n', d') ∈ after -> is_v4 n' = v4 -> covers n' addr -> net_prefix_len n' < len)
  | None => forall n d, (n, d) ∈ routes -> is_v4 n = v4 -> ~ covers n addr
  end.

Lemma lpm_len_skip routes v4 addr acc n d : lpm_len routes v4 addr acc -> ~ (is_v4 n = v4 /\ covers n addr) ->
  lpm_len (routes ++ [(n, d)]) v4 addr acc.
Proof.
  intros Hl Hn. destruct acc as [[len d']|]; cbn in *.
  - destruct Hl as (b & m & a & -> & ? & ? & ? & ? & Ha). exists b, m, (a ++ [(n, d)]).
    rewrite <- app_assoc. split_and!; try done. intros n' d'' [Hin|Hin]%elem_of_app; [by eapply Ha|].
    apply list_elem_of_singleton in Hin as [= -> ->]. tauto.
  - intros n' d' [Hin|Hin]%elem_of_app; [by eapply Hl|]. apply list_elem_of_singleton in Hin as [= -> ->]. tauto.
Qed.

Lemma lpm_len_take routes v4 addr acc n d : lpm_len routes v4 addr acc -> is_v4 n = v4 -> covers n addr ->
  lpm_len (routes ++ [(n, d)]) v4 addr (prefer (net_prefix_len n) d acc).
Proof.
  intros Hl Hv Hc.
  assert (Hnew : (forall n' d', (n', d') ∈ routes -> is_v4 n' = v4 -> covers n' addr ->
      net_prefix_len n' <= net_prefix_len n) ->
    lpm_len (routes ++ [(n, d)]) v4 addr (Some (net_prefix_len n, d))).
  { intros Hb. exists routes, n, []. split_and!; try done. intros ? ? Hin. by apply not_elem_of_nil in Hin. }
  destruct acc as [[len d']|]; cbn [prefer]; [|apply Hnew; intros n' d' Hin Hv' Hc'; by destruct (Hl n' d')].
  destruct Hl as (b & m & a & -> & Hvm & Hcm & Hlen & Hb & Ha). destruct (Z.leb_spec len (net_prefix_len n)).
  - apply Hnew. intros n' d'' [Hin|[[= -> ->]|Hin]%elem_of_cons]%elem_of_app Hv' Hc'; [|lia|].
    + specialize (Hb _ _ Hin Hv' Hc'). lia.
    + specialize (Ha _ _ Hin Hv' Hc'). lia.
  - exists b, m, (a ++ [(n, d)]). rewrite <- app_assoc. split_and!; try done.
    intros n' d'' [Hin|Hin]%elem_of_app Hv' Hc'; [by eapply Ha|].
    by apply list_elem_of_singleton in Hin as [= -> ->].
Qed.

Definition of_family (v4 : bool) (routes : list Route) : list Route := filter (fun r => is_v4 (fst r) = v4) routes.

Lemma best_lpm v4 routes addr : lpm_len routes v4 addr (best (of_family v4 routes) addr None).
Proof.
  induction routes as [|[n d] routes IH] using rev_ind.
  { intros n d Hin. by apply not_elem_of_nil in Hin. }
  unfold of_family. rewrite filter_app, filter_cons, filter_nil. unfold best. rewrite foldl_app.
  fold (of_family v4 routes). fold (best (of_family v4 routes) addr None). cbn [fst].
  destruct (decide (is_v4 n = v4)) as [Hv|Hv]; cbn [foldl fst snd].
  - destruct (decide (covers n addr)); [by apply lpm_len_take|]. apply lpm_len_skip; [done|tauto].
  - apply lpm_len_skip; [done|tauto].
Qed.

Lemma table_lpm v4 routes addr : 0 <= addr < 2 ^ width v4 ->
  lpm routes v4 addr (RouteTable_get (insert_all (RouteTable_new (width v4)) (of_family v4 routes)) addr).
Proof.
  intros Ha. destruct (insert_all_match v4 (of_family v4 routes) (RouteTable_new (width v4)) addr) as [Hb Hm].
  - apply Forall_forall. intros r Hr. by apply list_elem_of_filter in Hr as [? _].
  - done.
  - done.
  - done.
  - unfold RouteTable_get. rewrite get_level_match, Hb, Hm. cbn [RouteTable_new tb_levels match_level].
    pose proof (best_lpm v4 routes addr) as Hl.
    destruct (best _ _ _) as [[len d]|]; cbn [fmap option_fmap option_map lpm snd] in *; [|done].
    destruct Hl as (b & n & a & -> & ? & ? & <- & ? & ?). by exists b, n, a.
Qed.

(** ** The routes of a configuration *)

Definition routes_of (dests : list (Key * list IpNet)) (self_key : Key) : list Route :=
  mjoin (map (fun dn => map (fun n => (n, fst dn)) (snd dn)) (filter (fun dn => fst dn <> self_key) dests)).

(** Routes of the overlay's own addresses are refused. *)
Definition refused (prefix : Z) (n : IpNet) : Prop :=
  is_v4 n = false /\ is_yggdrasil_destination prefix (AddrV6 (net_addr n)) = true.

Lemma add_routes_spec prefix nets dest v4 v6 :
  match add_routes prefix nets dest v4 v6 with
  | Some (v4', v6') =>
      Forall (fun n => ~ refused prefix n) nets /\
      v4' = insert_all v4 (of_family true (map (fun n => (n, dest)) nets)) /\
      v6' = insert_all v6 (of_family false (map (fun n => (n, dest)) nets))
  | None => Exists (refused prefix) nets
  end.
Proof.
  revert v4 v6. induction nets as [|n nets IH]; intros v4 v6; cbn [add_routes map].
  { split; [constructor|done]. }
  unfold of_family. rewrite !filter_cons. cbn [fst]. fold (of_family true (map (fun n => (n, dest)) nets)).
  fold (of_family false (map (fun n => (n, dest)) nets)).
  destruct (is_v4 n) eqn:Hv; cbn [decide].
  - specialize (IH (snd (RouteTable_insert v4 n dest)) v6). destruct (add_routes _ _ _ _ _) as [[v4' v6']|].
    + destruct IH as (Hall & -> & ->). split; [|done]. constructor; [|done]. unfold refused. rewrite Hv. by intros [? _].
    + by right.
  - destruct (is_yggdrasil_destination prefix (AddrV6 (net_addr n))) eqn:Hy; [by left|].
    specialize (IH v4 (snd (RouteTable_insert v6 n dest))). destruct (add_routes _ _ _ _ _) as [[v4' v6']|].
    + destruct IH as (Hall & -> & ->). split; [|done]. constructor; [|done]. unfold refused. rewrite Hy. by intros [_ ?].
    + by right.
Qed.

Lemma insert_all_app t r r' : insert_all t (r ++ r') = insert_all (insert_all t r) r'.
Proof. apply foldl_app. Qed.

Lemma add_destinations_spec prefix dests self_key v4 v6 :
  match add_destinations prefix dests self_key v4 v6 with
  | Some (v4', v6') =>
      Forall (fun r => ~ refused prefix (fst r)) (routes_of dests self_key) /\
      v4' = insert_all v4 (of_family true (routes_of dests self_key)) /\
      v6' = insert_all v6 (of_family false (routes_of dests self_key))
  | None => Exists (fun r => refused prefix (fst r)) (routes_of dests self_key)
  end.
Proof.
  revert v4 v6. induction dests as [|[dest nets] dests IH]; intros v4 v6; cbn [add_destinations].
  { split; [constructor|done]. }
  unfold routes_of. rewrite filter_cons. cbn [fst].
  destruct (decide (dest = self_key)) as [->|Hne].
  { rewrite decide_False by tauto. apply IH. }
  rewrite decide_True by done. cbn [map mjoin list_join fst snd]. fold (routes_of dests self_key).
  pose proof (add_routes_spec prefix nets dest v4 v6) as Hr.
  destruct (add_routes _ _ _ _ _) as [[v4' v6']|].
  - destruct Hr as (Hall & -> & ->).
    specialize (IH (insert_all v4 (of_family true (map (fun n => (n, dest)) nets)))
      (insert_all v6 (of_family false (map (fun n => (n, dest)) nets)))).
    unfold of_family in *. destruct (add_destinations _ _ _ _ _) as [[v4'' v6'']|].
    + destruct IH as (Hall' & -> & ->). rewrite !filter_app, !insert_all_app. split; [|done].
      apply Forall_app. split; [|done]. by apply Forall_fmap.
    + apply Exists_app. by right.
  - apply Exists_app. left. by apply Exists_fmap.
Qed.

End Routes.
