(* ===== verification/Rwc.v ===== *)
(** * Rwc: the gateway between the TUN device and the overlay

    Models [ReadWriteCloser] of [crates/yggdrasil/src/ipv6rwc.rs] (the cache of
    keys, the checks on packets of both directions, the packets that wait for a
    key, Packet Too Big replies) and the session frames of
    [crates/yggdrasil/src/core.rs]. The address prefix is an argument; times are
    nanoseconds; calls of the core are returned as actions. [write],
    [update_key], [cleanup] and [accept_inbound] are made of parts that end where the
    code takes the lock of the buffers, because other tasks run in between. *)

From S2P Require Import Prelude.
From S2P Require Import Wire.
From S2P Require Import Address.
From S2P Require Import Firewall.
From S2P Require Import Ckr.
From stdpp Require Import options.
Open Scope Z_scope.

Definition KEY_STORE_TIMEOUT : Z := 120000000000.
Definition IPV6_HEADER_LEN : nat := 40.
Definition TYPE_SESSION_TRAFFIC : Z := 1.
Definition TYPE_SESSION_PROTO : Z := 2.

(** ** Session frames *)

(** [Core::write_to] puts the type in front of the packet. *)
Definition traffic_payload (buf : bytes) : bytes := TYPE_SESSION_TRAFFIC :: buf.

Inductive Dispatch := FrameTraffic (packet : bytes) | FrameProto (payload : bytes) | FrameIgnored.

Definition dispatch_frame (buf : bytes) : Dispatch :=
  match buf with
  | [] => FrameIgnored
  | b :: rest =>
      if b =? TYPE_SESSION_TRAFFIC then FrameTraffic rest
      else if b =? TYPE_SESSION_PROTO then FrameProto rest
      else FrameIgnored
  end.

(** ** Packet Too Big *)

(** [&buf[a..b]]: a panic when out of range. *)
Definition slice (buf : bytes) (a b : nat) : outcome bytes :=
  if decide (a <= b /\ b <= length buf)%nat then Ret (take (b - a) (drop a buf)) else Panic.

(** The sum of the big-endian words; an odd last byte is the high half. *)
Fixpoint word_sum (bs : bytes) : Z :=
  match bs with
  | hi :: lo :: rest => (hi * 256 + lo) + word_sum rest
  | [b] => Z.shiftl b 8
  | [] => 0
  end.

(** [while sum > 0xFFFF], which takes at most two rounds for a [u32]. *)
Fixpoint fold_carries (fuel : nat) (sum : Z) : Z :=
  match fuel with
  | O => sum
  | S fuel => if 65535 <? sum then fold_carries fuel (Z.land sum 65535 + Z.shiftr sum 16) else sum
  end.

Definition pseudo_sum (src dst icmp_data : bytes) : Z :=
  let len := Z.of_nat (length icmp_data) in
  word_sum (take 16 src) + word_sum (take 16 dst) + Z.shiftr len 16 + Z.land len 65535 + 58 + word_sum icmp_data.

(** [!(sum as u16)]. *)
Definition icmpv6_checksum (src dst icmp_data : bytes) : Z :=
  Z.lxor (wrap16 (fold_carries 3 (pseudo_sum src dst icmp_data))) 65535.

Definition build_icmpv6_ptb (original : bytes) (mtu : Z) : option bytes :=
  if (length original <? IPV6_HEADER_LEN)%nat then None
  else
    let orig_src := take 16 (drop 8 original) in
    let orig_dst := take 16 (drop 24 original) in
    let copy_len := (length original `min` 512)%nat in
    let icmp_len := (8 + copy_len)%nat in
    let body := to_be_bytes 4 mtu ++ take copy_len original in
    let checksum := icmpv6_checksum orig_dst orig_src ([2; 0; 0; 0] ++ body) in
    let icmp := [2; 0] ++ to_be_bytes 2 checksum ++ body in
    Some ([96; 0; 0; 0] ++ to_be_bytes 2 (Z.of_nat icmp_len) ++ [58; 255] ++ orig_dst ++ orig_src ++ icmp).

Definition clamp_overlay_mtu (current requested : Z) : Z := Z.min (Z.max 1280 (Z.min requested 65535)) current.

(** ** State *)

Record KeyInfo := mkKeyInfo { ki_address : Address; ki_subnet : Subnet; ki_last_seen : Z }.
Record BufferedPacket := mkBufferedPacket { bp_data : bytes; bp_time : Z }.

Record KeyStoreLookups := mkLookups {
  key_to_info : gmap PublicKey KeyInfo;
  addr_to_info : gmap Address PublicKey;
  subnet_to_info : gmap Subnet PublicKey
}.

Record KeyStoreBuffers := mkBuffers {
  addr_buffer : gmap Address BufferedPacket;
  subnet_buffer : gmap Subnet BufferedPacket
}.

#[export] Instance KeyStoreBuffers_eta : Settable KeyStoreBuffers := fun b => mkBuffers (addr_buffer b) (subnet_buffer b).

Section Rwc.
Context {Ipv6Net : Type} (net_contains : Ipv6Net -> bytes -> bool).
Context (prefix : Z).

Record Rwc := mkRwc {
  rw_address : Address;
  rw_subnet : Subnet;
  rw_lookups : KeyStoreLookups;
  rw_buffers : KeyStoreBuffers;
  rw_mtu : Z;
  rw_ckr : option CryptoKey;
  rw_firewall : option (Firewall Ipv6Net)
}.

#[export] Instance Rwc_eta : Settable Rwc := fun r =>
  mkRwc (rw_address r) (rw_subnet r) (rw_lookups r) (rw_buffers r) (rw_mtu r) (rw_ckr r) (rw_firewall r).

Definition Rwc_new (address : Address) (subnet : Subnet) (mtu : Z) (firewall : option (Firewall Ipv6Net)) : Rwc :=
  mkRwc address subnet (mkLookups ∅ ∅ ∅) (mkBuffers ∅ ∅) (Z.max 1280 (Z.min mtu 65535)) None firewall.

(** [init_crypto_key] with an enabled configuration. *)
Definition init_crypto_key (rw : Rwc) (ckr : CryptoKey) : Rwc := rw <| rw_ckr := Some ckr |>.

Definition set_mtu (rw : Rwc) (mtu : Z) : Rwc := rw <| rw_mtu := clamp_overlay_mtu (rw_mtu rw) mtu |>.

(** The calls of the core. *)
Inductive Action := WriteTo (data : bytes) (key : PublicKey) | SendLookup (key : PublicKey).

(** ** Learning keys *)

(** [if buffered.time.elapsed() < KEY_STORE_TIMEOUT { core.write_to(..) }]. *)
Definition flush (buffered : option BufferedPacket) (key : PublicKey) (now : Z) : list Action :=
  match buffered with
  | Some b => if elapsed now (bp_time b) <? KEY_STORE_TIMEOUT then [WriteTo (bp_data b) key] else []
  | None => []
  end.

(** The first part of [update_key]: the maps under the writers' mutex; [None] for a
    key that is known and fresh. *)
Definition store_key (rw : Rwc) (key : PublicKey) (now : Z) : option Rwc :=
  let lookups := rw_lookups rw in
  let fresh :=
    match key_to_info lookups !! key with
    | Some info => elapsed now (ki_last_seen info) <? KEY_STORE_TIMEOUT / 2
    | None => false
    end in
  if fresh then None
  else
    let address := addr_for_key prefix key in
    let subnet := subnet_for_key prefix key in
    Some (rw <| rw_lookups :=
      mkLookups (<[key := mkKeyInfo address subnet now]> (key_to_info lookups))
        (<[address := key]> (addr_to_info lookups)) (<[subnet := key]> (subnet_to_info lookups)) |>).

(** The second part: the packets that wait for the key, under the lock of the
    buffers. *)
Definition take_buffered (rw : Rwc) (key : PublicKey) (now : Z) : list Action * Rwc :=
  let address := addr_for_key prefix key in
  let subnet := subnet_for_key prefix key in
  let buffers := rw_buffers rw in
  (flush (addr_buffer buffers !! address) key now ++ flush (subnet_buffer buffers !! subnet) key now,
   rw <| rw_buffers := mkBuffers (delete address (addr_buffer buffers)) (delete subnet (subnet_buffer buffers)) |>).

Definition update_key (rw : Rwc) (key : PublicKey) (now : Z) : list Action * Rwc :=
  match store_key rw key now with
  | None => ([], rw)
  | Some rw => take_buffered rw key now
  end.

(** The loop over the expired keys. *)
Definition forget (lookups : KeyStoreLookups) (key : PublicKey) : KeyStoreLookups :=
  match key_to_info lookups !! key with
  | Some info =>
      mkLookups (delete key (key_to_info lookups)) (delete (ki_address info) (addr_to_info lookups))
        (delete (ki_subnet info) (subnet_to_info lookups))
  | None => lookups
  end.

Definition cleanup_keys `{HashOrder} (rw : Rwc) (now : Z) : Rwc :=
  let cur := rw_lookups rw in
  let expired_keys :=
    (filter (fun e => KEY_STORE_TIMEOUT < elapsed now (ki_last_seen (snd e))) (map_iter (key_to_info cur))).*1 in
  rw <| rw_lookups := foldl forget cur expired_keys |>.

Definition cleanup_buffers (rw : Rwc) (now : Z) : Rwc :=
  let live (b : BufferedPacket) := elapsed now (bp_time b) < KEY_STORE_TIMEOUT in
  rw <| rw_buffers :=
    mkBuffers (filter (fun e => live (snd e)) (addr_buffer (rw_buffers rw)))
      (filter (fun e => live (snd e)) (subnet_buffer (rw_buffers rw))) |>.

Definition cleanup `{HashOrder} (rw : Rwc) (now : Z) : Rwc := cleanup_buffers (cleanup_keys rw now) now.

(** ** Inbound *)

(** [octets(..) == info.address || octets[..8] == info.subnet]. *)
Definition owns (address : Address) (subnet : Subnet) (ip : bytes) : bool :=
  bool_decide (ip = address) || bool_decide (take 8 ip = subnet).

(** Whether the address belongs to the key, by the cached information. *)
Definition sender_matches (lookups : KeyStoreLookups) (from_key : PublicKey) (src_ip : bytes) : bool :=
  match key_to_info lookups !! from_key with
  | Some info => owns (ki_address info) (ki_subnet info) src_ip
  | None => false
  end.

Definition ckr_read_validate (lookups : KeyStoreLookups) (ckr : CryptoKey) (packet : bytes) (is_ip4 is_ip6 : bool)
    (from_key : PublicKey) : outcome bool :=
  own ← (if is_ip6 && ck_yggdrasil_routing ckr
         then src_ip ← slice packet 8 24; Ret (sender_matches lookups from_key src_ip)
         else Ret false);
  if own : bool then Ret true
  else if is_ip4 && (length packet <? 20)%nat then Ret false
  else
    src_addr ← (if is_ip4 then b ← slice packet 12 16; Ret (AddrV4 (from_be_bytes b))
                else b ← slice packet 8 24; Ret (AddrV6 (from_be_bytes b)));
    Ret (bool_decide (get_public_key_for_address prefix ckr src_addr = Some from_key)).

(** [fw.enabled() && is_ip6 && !fw.check_inbound(packet)]: whether the packet
    passes. *)
Definition firewall_in (rw : Rwc) (packet : bytes) (is_ip6 : bool) (now : Z) : outcome (bool * Rwc) :=
  match rw_firewall rw with
  | Some fw =>
      if fw_enable fw && is_ip6 then
        r ← check_inbound net_contains fw packet now;
        Ret (fst r, rw <| rw_firewall := Some (snd r) |>)
      else Ret (true, rw)
  | None => Ret (true, rw)
  end.

(** The version nibble: [packet[0] & 0xf0 == v]. *)
Definition version_is (v : Z) (packet : bytes) : bool :=
  match packet with b :: _ => Z.land b 240 =? v | [] => false end.

(** The part of [accept_inbound] that follows the call of [update_key]. *)
Definition inbound_check (rw : Rwc) (packet : bytes) (from_key : PublicKey) (now : Z) : outcome (bool * Rwc) :=
  match rw_ckr rw with
  | Some ckr =>
      accepted ← ckr_read_validate (rw_lookups rw) ckr packet (version_is 64 packet) (version_is 96 packet) from_key;
      if negb accepted then Ret (false, rw) else firewall_in rw packet (version_is 96 packet) now
  | None =>
      src_ip ← slice packet 8 24;
      dst_ip ← slice packet 24 40;
      if negb (owns (rw_address rw) (rw_subnet rw) dst_ip) then Ret (false, rw)
      else if negb (sender_matches (rw_lookups rw) from_key src_ip) then Ret (false, rw)
      else firewall_in rw packet true now
  end.

Definition accept_inbound (rw : Rwc) (packet : bytes) (from_key : PublicKey) (now : Z)
    : outcome (bool * list Action * Rwc) :=
  let n := length packet in
  if (n =? 0)%nat then Ret (false, [], rw)
  else
    let is_ip4 := version_is 64 packet in
    let is_ip6 := version_is 96 packet in
    let ckr_active := bool_decide (is_Some (rw_ckr rw)) in
    if negb ckr_active && negb is_ip6 then Ret (false, [], rw)
    else if ckr_active && (negb is_ip4 && negb is_ip6) then Ret (false, [], rw)
    else if is_ip6 && (n <? IPV6_HEADER_LEN)%nat then Ret (false, [], rw)
    else if rw_mtu rw <? Z.of_nat n then
      if is_ip6 then
        match build_icmpv6_ptb packet (rw_mtu rw) with
        | Some ptb => Ret (false, [WriteTo ptb from_key], rw)
        | None => Ret (false, [], rw)
        end
      else Ret (false, [], rw)
    else
      let '(actions, rw) := update_key rw from_key now in
      r ← inbound_check rw packet from_key now;
      Ret (fst r, actions, snd r).

(** [try_read]: the frames of the core until a packet is accepted or none is
    left. *)
Fixpoint try_read (rw : Rwc) (frames : list (bytes * PublicKey)) (now : Z)
    : outcome (option bytes * list (bytes * PublicKey) * list Action * Rwc) :=
  match frames with
  | [] => Ret (None, [], [], rw)
  | (frame, from_key) :: frames =>
      match dispatch_frame frame with
      | FrameTraffic packet =>
          r ← accept_inbound rw packet from_key now;
          let '(accepted, actions, rw) := r in
          if accepted : bool then Ret (Some packet, frames, actions, rw)
          else
            r ← try_read rw frames now;
            let '(res, rest, actions', rw) := r in
            Ret (res, rest, actions ++ actions', rw)
      | _ => try_read rw frames now
      end
  end.

(** ** Outbound *)

Inductive WriteError := PacketTooShort | NotIpv6 | InvalidSource | InvalidDestination.

(** How far [write] gets without the lock of the buffers: an error, a drop that
    is reported as success, a packet for the core, or a packet to queue for an
    address ([true]) or a subnet. *)
Inductive WritePlan :=
| Refuse (e : WriteError)
| DropSilently
| SendTo (key : PublicKey)
| QueueFor (dst_addr_valid : bool) (dst_ip : Address) (dst_subnet : Subnet).

(** The lookup of an overlay destination. *)
Definition plan_overlay (lookups : KeyStoreLookups) (dst_addr_valid : bool) (dst_ip : Address) (dst_subnet : Subnet)
    : WritePlan :=
  let key := if dst_addr_valid then addr_to_info lookups !! dst_ip else subnet_to_info lookups !! dst_subnet in
  match key with
  | Some key => SendTo key
  | None => QueueFor dst_addr_valid dst_ip dst_subnet
  end.

Definition ckr_write (lookups : KeyStoreLookups) (ckr : CryptoKey) (buf : bytes) (is_ip4 is_ip6 : bool)
    : outcome WritePlan :=
  if is_ip4 && (length buf <? 20)%nat then Ret DropSilently
  else
    dst ← (if is_ip4 then b ← slice buf 16 20; Ret (b ++ replicate 12 0, replicate 8 0)
           else b ← slice buf 24 40; s ← slice buf 24 32; Ret (b, s));
    let '(dst_addr_bytes, dst_subnet_prefix) := dst in
    let dst_addr_valid := is_valid_address prefix dst_addr_bytes in
    let dst_subnet_valid := is_valid_subnet prefix dst_subnet_prefix in
    if is_ip6 && ck_yggdrasil_routing ckr && (dst_addr_valid || dst_subnet_valid)
    then Ret (plan_overlay lookups dst_addr_valid dst_addr_bytes dst_subnet_prefix)
    else
      dst_ip ← (if is_ip4 then b ← slice buf 16 20; Ret (AddrV4 (from_be_bytes b))
                else Ret (AddrV6 (from_be_bytes dst_addr_bytes)));
      match get_public_key_for_address prefix ckr dst_ip with
      | Some key => Ret (SendTo key)
      | None => Ret DropSilently
      end.

(** [if fw.enabled() { fw.observe_outbound(buf) }]. *)
Definition firewall_out (rw : Rwc) (buf : bytes) (is_ip6 : bool) (now : Z) : outcome Rwc :=
  match rw_firewall rw with
  | Some fw =>
      if is_ip6 && fw_enable fw then fw ← observe_outbound fw buf now; Ret (rw <| rw_firewall := Some fw |>)
      else Ret rw
  | None => Ret rw
  end.

Definition write_plan (rw : Rwc) (buf : bytes) (now : Z) : outcome (WritePlan * Rwc) :=
  let is_ip6 := version_is 96 buf in
  rw ← firewall_out rw buf is_ip6 now;
  match rw_ckr rw with
  | Some ckr =>
      let is_ip4 := version_is 64 buf in
      if negb is_ip4 && negb is_ip6 then Ret (DropSilently, rw)
      else if is_ip6 && (length buf <? IPV6_HEADER_LEN)%nat then Ret (DropSilently, rw)
      else plan ← ckr_write (rw_lookups rw) ckr buf is_ip4 is_ip6; Ret (plan, rw)
  | None =>
      if (length buf <? IPV6_HEADER_LEN)%nat then Ret (Refuse PacketTooShort, rw)
      else if negb is_ip6 then Ret (Refuse NotIpv6, rw)
      else
        src_ip ← slice buf 8 24;
        dst_ip ← slice buf 24 40;
        if negb (owns (rw_address rw) (rw_subnet rw) src_ip) then Ret (Refuse InvalidSource, rw)
        else
          let dst_addr_valid := is_valid_address prefix dst_ip in
          let dst_subnet_prefix := take 8 dst_ip in
          let dst_subnet_valid := is_valid_subnet prefix dst_subnet_prefix in
          if negb dst_addr_valid && negb dst_subnet_valid then Ret (Refuse InvalidDestination, rw)
          else Ret (plan_overlay (rw_lookups rw) dst_addr_valid dst_ip dst_subnet_prefix, rw)
  end.

(** The part of [write] under the lock of the buffers, and the lookup. *)
Definition enqueue (rw : Rwc) (buf : bytes) (dst_addr_valid : bool) (dst_ip : Address) (dst_subnet : Subnet) (now : Z)
    : list Action * Rwc :=
  let buffered := mkBufferedPacket buf now in
  if dst_addr_valid
  then ([SendLookup (Address_get_key dst_ip)],
        rw <| rw_buffers ::= fun b => b <| addr_buffer ::= <[dst_ip := buffered]> |> |>)
  else ([SendLookup (Subnet_get_key dst_subnet)],
        rw <| rw_buffers ::= fun b => b <| subnet_buffer ::= <[dst_subnet := buffered]> |> |>).

(** The rest of [write] for a plan. *)
Definition write_finish (rw : Rwc) (buf : bytes) (plan : WritePlan) (now : Z)
    : result WriteError unit * list Action * Rwc :=
  match plan with
  | Refuse e => (Err e, [], rw)
  | DropSilently => (Ok tt, [], rw)
  | SendTo key => (Ok tt, [WriteTo buf key], rw)
  | QueueFor v ip s => let '(actions, rw) := enqueue rw buf v ip s now in (Ok tt, actions, rw)
  end.

Definition write (rw : Rwc) (buf : bytes) (now : Z) : outcome (result WriteError unit * list Action * Rwc) :=
  r ← write_plan rw buf now;
  Ret (write_finish (snd r) buf (fst r) now).
End Rwc.
Arguments Rwc : clear implicits.
