(* ===== verification/RwcFacts.v ===== *)
(** * RwcFacts: what the gateway guarantees

    Packet Too Big replies are well-formed; inbound packets are delivered only
    when both addresses check; outbound packets reach only nodes that own their
    destination, under every interleaving of the tasks that use the gateway. *)

From S2P Require Import Prelude.
From S2P Require Import Wire.
From S2P Require Import Address.
From S2P Require Import Firewall.
From S2P Require Import Ckr.
From S2P Require Import Rwc.
From stdpp Require Import options.
Open Scope Z_scope.

(** ** The checksum *)

Lemma word_sum_bound bs : Forall is_u8 bs -> 0 <= word_sum bs <= 65535 * Z.of_nat (length bs).
Proof.
  intros Hu. unfold is_u8 in Hu.
  assert (Hind : forall n l, (length l <= n)%nat -> Forall (fun z => 0 <= z < 2 ^ 8) l ->
    0 <= word_sum l <= 65535 * Z.of_nat (length l)); [|by apply (Hind (length bs))].
  clear. induction n as [|n IH]; intros l Hn Hl.
  { destruct l; cbn in *; lia. }
  destruct l as [|a [|b l]]; [cbn; lia| |].
  - apply Forall_cons in Hl as [? _]. cbn [word_sum length]. rewrite Z.shiftl_mul_pow2 by lia. lia.
  - apply Forall_cons in Hl as [? Hl]. apply Forall_cons in Hl as [? Hl]. cbn [word_sum length] in *.
    specialize (IH l ltac:(lia) Hl). lia.
Qed.

Lemma fold_step_spec s : 0 <= s ->
  let r := Z.land s 65535 + Z.shiftr s 16 in
  r mod 65535 = s mod 65535 /\ 0 <= r /\ (0 < s -> 0 < r) /\ r <= 65535 + s / 65536.
Proof.
  intros Hs r. assert (Hr : r = s mod 65536 + s / 65536).
  { unfold r. change 65535 with (Z.ones 16). rewrite Z.land_ones, Z.shiftr_div_pow2 by lia. done. }
  pose proof (Z.div_mod s 65536). pose proof (Z.mod_pos_bound s 65536). pose proof (Z.div_pos s 65536).
  split; [|lia]. replace s with (r + (s / 65536) * 65535) at 1 by lia. by rewrite Z.mod_add.
Qed.

Lemma fold_carries_spec s : 0 <= s < 2 ^ 32 ->
  let r := fold_carries 3 s in
  0 <= r <= 65535 /\ r mod 65535 = s mod 65535 /\ (0 < s -> 0 < r).
Proof.
  intros Hs r. unfold r. cbn [fold_carries].
  destruct (Z.ltb_spec 65535 s) as [H1|]; [|lia].
  destruct (fold_step_spec s) as (Hm1 & Hp1 & Hq1 & Hb1); [lia|].
  assert (s / 65536 < 65536) by (apply Z.div_lt_upper_bound; lia).
  set (s1 := Z.land s 65535 + Z.shiftr s 16) in *.
  destruct (Z.ltb_spec 65535 s1); [|lia].
  destruct (fold_step_spec s1) as (Hm2 & Hp2 & Hq2 & _); [lia|].
  assert (s1 / 65536 < 2) by (apply Z.div_lt_upper_bound; lia).
  assert (Hs2 : Z.land s1 65535 + Z.shiftr s1 16 = s1 mod 65536 + s1 / 65536).
  { change 65535 with (Z.ones 16). rewrite Z.land_ones, Z.shiftr_div_pow2 by lia. done. }
  set (s2 := Z.land s1 65535 + Z.shiftr s1 16) in *.
  pose proof (Z.div_mod s1 65536). pose proof (Z.mod_pos_bound s1 65536).
  assert (s2 <= 65535) by lia. destruct (Z.ltb_spec 65535 s2); [lia|].
  split; [lia|]. split; [congruence|]. intros. lia.
Qed.

Lemma lxor_ones16 r : 0 <= r <= 65535 -> Z.lxor (wrap16 r) 65535 = 65535 - r.
Proof.
  intros Hr. unfold wrap16. rewrite Z.mod_small by lia.
  change 65535 with (Z.ones 16) at 1. rewrite Z.lxor_comm.
  assert (Hadd : Z.ones 16 - r = Z.lxor (Z.ones 16) r); [|by rewrite <- Hadd].
  rewrite Z.sub_nocarry_ldiff.
  - apply Z.bits_inj'. intros i Hi. rewrite Z.ldiff_spec, Z.lxor_spec.
    destruct (decide (i < 16)); [rewrite Z.ones_spec_low by lia; by destruct (Z.testbit r i)|].
    rewrite Z.ones_spec_high by lia. cbn. symmetry.
    rewrite <- (Z.mod_small r (2 ^ 16)) by lia. by rewrite Z.mod_pow2_bits_high by lia.
  - apply Z.bits_inj'. intros i Hi. rewrite Z.ldiff_spec, Z.bits_0.
    destruct (decide (i < 16)); [rewrite Z.ones_spec_low by lia; by rewrite andb_false_r|].
    rewrite Z.ones_spec_high by lia. rewrite andb_true_r.
    rewrite <- (Z.mod_small r (2 ^ 16)) by lia. by rewrite Z.mod_pow2_bits_high by lia.
Qed.

(** A message that carries its checksum has checksum 0. *)
Lemma checksum_verifies src dst head body :
  Forall is_u8 src -> Forall is_u8 dst -> Forall is_u8 head -> Forall is_u8 body ->
  length head = 2%nat -> (length body <= 1000)%nat ->
  let ck := icmpv6_checksum src dst (head ++ [0; 0] ++ body) in
  is_u16 ck /\ icmpv6_checksum src dst (head ++ to_be_bytes 2 ck ++ body) = 0.
Proof.
  intros Hs Hd Hh Hb Hlen Hbl ck.
  destruct head as [|h0 [|h1 [|? ?]]]; try discriminate Hlen.
  assert (Hbound : forall l, Forall is_u8 l -> (length l <= 1016)%nat -> 0 <= word_sum l <= 66583560).
  { intros l Hl Hn. pose proof (word_sum_bound l Hl). lia. }
  assert (Hpre : forall a b, 0 <= pseudo_sum src dst (h0 :: h1 :: a :: b :: body) - (a * 256 + b) < 2 ^ 30 /\
    pseudo_sum src dst (h0 :: h1 :: a :: b :: body) - (a * 256 + b) =
    pseudo_sum src dst (h0 :: h1 :: 0 :: 0 :: body) /\ 0 < pseudo_sum src dst (h0 :: h1 :: 0 :: 0 :: body)).
  { intros a b. unfold pseudo_sum. cbn [length]. set (n := Z.of_nat (S (S (S (S (length body)))))).
    assert (0 <= n <= 1004) by lia.
    assert (Hl : Z.land n 65535 = n) by (change 65535 with (Z.ones 16); rewrite Z.land_ones, Z.mod_small by lia; done).
    assert (Hz : Z.shiftr n 16 = 0) by (rewrite Z.shiftr_div_pow2, Z.div_small by lia; done).
    rewrite Hl, Hz. cbn [word_sum].
    pose proof (Hbound (take 16 src) ltac:(by apply Forall_take) ltac:(rewrite length_take; lia)).
    pose proof (Hbound (take 16 dst) ltac:(by apply Forall_take) ltac:(rewrite length_take; lia)).
    pose proof (Hbound body Hb ltac:(lia)).
    apply Forall_cons in Hh as [Hh0 Hh]. apply Forall_cons in Hh as [Hh1 _]. unfold is_u8 in *. lia. }
  cbn [app] in *. set (S0 := pseudo_sum src dst (h0 :: h1 :: 0 :: 0 :: body)) in *.
  destruct (Hpre 0 0) as (Hb0 & _ & Hpos). fold S0 in Hb0.
  destruct (fold_carries_spec S0) as (Hr & Hmod & _); [lia|].
  assert (Hck : ck = 65535 - fold_carries 3 S0) by (apply lxor_ones16, Hr).
  assert (Hu : is_u16 ck) by (unfold is_u16; lia). split; [done|].
  assert (Hbe : to_be_bytes 2 ck = [ck / 256; ck mod 256]).
  { unfold to_be_bytes. cbn [app]. unfold is_u16 in Hu. change (2 ^ 8) with 256.
    rewrite (Z.mod_small (ck / 256)); [done|]. split; [apply Z.div_pos; lia|apply Z.div_lt_upper_bound; lia]. }
  rewrite Hbe. cbn [app]. destruct (Hpre (ck / 256) (ck mod 256)) as (_ & He & _).
  pose proof (Z.div_mod ck 256). unfold icmpv6_checksum.
  replace (pseudo_sum src dst (h0 :: h1 :: ck / 256 :: ck mod 256 :: body)) with (S0 + ck) by lia.
  unfold is_u16 in Hu. destruct (fold_carries_spec (S0 + ck)) as (Hr' & Hmod' & Hp'); [lia|].
  rewrite lxor_ones16 by done.
  assert (Hz : (S0 + ck) mod 65535 = 0).
  { rewrite Hck. replace (S0 + (65535 - fold_carries 3 S0)) with (S0 - fold_carries 3 S0 + 1 * 65535) by lia.
    rewrite Z.mod_add by lia. rewrite Zminus_mod, Hmod, Z.sub_diag. done. }
  assert (fold_carries 3 (S0 + ck) = 65535); [|lia].
  rewrite Hz in Hmod'. apply Z.mod_divide in Hmod' as [q Hq]; [|lia]. specialize (Hp' ltac:(lia)). lia.
Qed.

(** ** Packet Too Big *)

Abbreviation src_of p := (take 16 (drop 8 p)) (only parsing).
Abbreviation dst_of p := (take 16 (drop 24 p)) (only parsing).

Lemma field_length n k (p : bytes) : (n + k <= length p)%nat -> length (take k (drop n p)) = k.
Proof. intros. rewrite length_take, length_drop. lia. Qed.

(** For every packet with a full IPv6 header, the Packet Too Big reply is a
    well-formed ICMPv6 message: an IPv6 header with the exact payload length and
    the two addresses exchanged, type 2 and code 0, the MTU, at most 512 bytes of
    the packet (so the reply is no longer than 560 bytes), and a checksum that a
    receiver verifies. *)
Theorem rwc_ptb_valid original mtu :
  Forall is_u8 original -> (40 <= length original)%nat -> is_u32 mtu ->
  exists p, build_icmpv6_ptb original mtu = Some p /\
    let icmp := drop 40 p in
    take 8 p = [96; 0; 0; 0] ++ to_be_bytes 2 (Z.of_nat (length icmp)) ++ [58; 255] /\
    src_of p = dst_of original /\ dst_of p = src_of original /\
    take 2 icmp = [2; 0] /\ from_be_bytes (take 4 (drop 4 icmp)) = mtu /\ drop 8 icmp = take 512 original /\
    (length p <= 560)%nat /\ icmpv6_checksum (src_of p) (dst_of p) icmp = 0.
Proof.
  intros Hu Hlen Hmtu. unfold build_icmpv6_ptb.
  destruct (Nat.ltb_spec (length original) IPV6_HEADER_LEN) as [?|_]; [unfold IPV6_HEADER_LEN in *; lia|].
  set (s := src_of original). set (d := dst_of original).
  assert (Hs : length s = 16%nat) by (apply field_length; lia).
  assert (Hd : length d = 16%nat) by (apply field_length; lia).
  set (quoted := take (length original `min` 512) original).
  assert (Hq : quoted = take 512 original).
  { unfold quoted. destruct (decide (length original <= 512)%nat).
    - rewrite Nat.min_l by lia. by rewrite firstn_all, take_ge by lia.
    - by rewrite Nat.min_r by lia. }
  set (body := to_be_bytes 4 mtu ++ quoted).
  assert (Hql : length quoted = (length original `min` 512)%nat) by (unfold quoted; rewrite length_take; lia).
  destruct (checksum_verifies d s [2; 0] body) as [Hck Hver].
  { unfold d. by apply Forall_take, Forall_drop. }
  { unfold s. by apply Forall_take, Forall_drop. }
  { apply (bool_decide_unpack _). by vm_compute. }
  { apply Forall_app. split; [apply to_be_bytes_u8|]. by apply Forall_take. }
  { done. }
  { unfold body. rewrite length_app, to_be_bytes_length. lia. }
  cbn [app] in Hver. set (ck := icmpv6_checksum d s (2 :: 0 :: 0 :: 0 :: body)) in *.
  set (icmp := 2 :: 0 :: to_be_bytes 2 ck ++ body) in *.
  assert (Hil : length icmp = (8 + length original `min` 512)%nat).
  { unfold icmp, body. cbn [length]. rewrite !length_app, !to_be_bytes_length. lia. }
  set (hdr := [96; 0; 0; 0] ++ to_be_bytes 2 (Z.of_nat (length icmp)) ++ [58; 255]).
  exists (hdr ++ d ++ s ++ icmp). split.
  { unfold hdr. rewrite Hil, <- !app_assoc. done. }
  assert (Hh : length hdr = 8%nat) by (unfold hdr; rewrite !length_app, to_be_bytes_length; done).
  assert (H40 : drop 40 (hdr ++ d ++ s ++ icmp) = icmp).
  { rewrite !app_assoc. apply drop_app_exact. rewrite !length_app. lia. }
  assert (Hsrc : src_of (hdr ++ d ++ s ++ icmp) = d).
  { rewrite (drop_app_exact hdr) by done. by apply take_app_exact. }
  assert (Hdst : dst_of (hdr ++ d ++ s ++ icmp) = s).
  { rewrite (app_assoc hdr), (drop_app_exact (hdr ++ d)) by (rewrite length_app; lia). by apply take_app_exact. }
  cbv zeta. rewrite H40, Hsrc, Hdst. split_and!.
  - by apply take_app_exact.
  - done.
  - done.
  - done.
  - unfold icmp. change (2 :: 0 :: to_be_bytes 2 ck ++ body) with (([2; 0] ++ to_be_bytes 2 ck) ++ body).
    rewrite drop_app_exact by done. unfold body. rewrite take_app_exact by apply to_be_bytes_length.
    apply from_to_be_bytes. unfold is_u32 in Hmtu. lia.
  - unfold icmp. change (2 :: 0 :: to_be_bytes 2 ck ++ body) with (([2; 0] ++ to_be_bytes 2 ck) ++ body).
    unfold body. rewrite app_assoc. rewrite drop_app_exact by done. done.
  - rewrite !length_app. lia.
  - exact Hver.
Qed.

Lemma rwc_ptb_valid_witness :
  exists p, build_icmpv6_ptb (96 :: replicate 1400 7) 1280 = Some p /\
    icmpv6_checksum (src_of p) (dst_of p) (drop 40 p) = 0.
Proof.
  destruct (rwc_ptb_valid (96 :: replicate 1400 7) 1280) as (p & Hp & H).
  - apply (bool_decide_unpack _). by vm_compute.
  - vm_compute. lia.
  - done.
  - exists p. split; [exact Hp|]. apply H.
Defined.

(** ** The key store *)

#[local] Opaque addr_for_key subnet_for_key Address_get_key Subnet_get_key.

Section Gateway.
Context {Ipv6Net : Type} (net_contains : Ipv6Net -> bytes -> bool).
Context (prefix : Z).
Implicit Types rw : Rwc Ipv6Net.

(** What the cache says of a key is derived from the key, and the reverse maps
    point to cached keys that own the address. *)
Definition lookups_ok (l : KeyStoreLookups) : Prop :=
  (forall k i, key_to_info l !! k = Some i ->
     ki_address i = addr_for_key prefix k /\ ki_subnet i = subnet_for_key prefix k) /\
  (forall a k, addr_to_info l !! a = Some k -> addr_for_key prefix k = a /\ is_Some (key_to_info l !! k)) /\
  (forall s k, subnet_to_info l !! s = Some k -> subnet_for_key prefix k = s /\ is_Some (key_to_info l !! k)).

(** The destination belongs to the key; an IPv6 packet of this node. *)
Definition owned (data : bytes) (k : PublicKey) : Prop :=
  owns (addr_for_key prefix k) (subnet_for_key prefix k) (dst_of data) = true.
Definition ours rw (data : bytes) : Prop :=
  version_is 96 data = true /\ (40 <= length data)%nat /\ owns (rw_address rw) (rw_subnet rw) (src_of data) = true.

Definition packet_dst (data : bytes) : IpAddr :=
  if version_is 64 data then AddrV4 (from_be_bytes (take 4 (drop 16 data))) else AddrV6 (from_be_bytes (dst_of data)).

(** Which packets may go to which key. *)
Definition outbound_ok rw (data : bytes) (k : PublicKey) : Prop :=
  match rw_ckr rw with
  | None => ours rw data /\ owned data k
  | Some ckr => owned data k \/ get_public_key_for_address prefix ckr (packet_dst data) = Some k
  end.

Definition queued_ok rw (data : bytes) (by_addr : bool) (ip : Address) (s : Subnet) : Prop :=
  (rw_ckr rw = None -> ours rw data) /\ if by_addr then dst_of data = ip else take 8 (dst_of data) = s.

Definition buffers_ok rw : Prop :=
  (forall a b, addr_buffer (rw_buffers rw) !! a = Some b -> queued_ok rw (bp_data b) true a []) /\
  (forall s b, subnet_buffer (rw_buffers rw) !! s = Some b -> queued_ok rw (bp_data b) false [] s).

Definition rwc_ok rw : Prop := lookups_ok (rw_lookups rw) /\ buffers_ok rw.

(** The part of the state no task changes. *)
Definition same_config rw rw' : Prop :=
  rw_address rw' = rw_address rw /\ rw_subnet rw' = rw_subnet rw /\ rw_ckr rw' = rw_ckr rw.

Lemma owned_addr data k : dst_of data = addr_for_key prefix k -> owned data k.
Proof. intros H. unfold owned, owns. rewrite H. by rewrite bool_decide_true. Qed.

Lemma owned_subnet data k : take 8 (dst_of data) = subnet_for_key prefix k -> owned data k.
Proof. intros H. unfold owned, owns. rewrite H. apply orb_true_iff. right. by apply bool_decide_true. Qed.

Lemma queued_sendable rw data v ip s k : queued_ok rw data v ip s ->
  (if v then ip = addr_for_key prefix k else s = subnet_for_key prefix k) -> outbound_ok rw data k.
Proof.
  intros [Hours Hdst] Hk. assert (owned data k) by (destruct v; [apply owned_addr|apply owned_subnet]; congruence).
  unfold outbound_ok. destruct (rw_ckr rw); [by left|auto].
Qed.

Lemma lookups_learn l key now : lookups_ok l ->
  lookups_ok (mkLookups (<[key := mkKeyInfo (addr_for_key prefix key) (subnet_for_key prefix key) now]> (key_to_info l))
    (<[addr_for_key prefix key := key]> (addr_to_info l)) (<[subnet_for_key prefix key := key]> (subnet_to_info l))).
Proof.
  intros (Hk & Ha & Hs). split_and!; cbn.
  - intros k i [[<- <-]|[? ?]]%lookup_insert_Some; [done|by apply Hk].
  - intros a k [[<- <-]|[? Hin]]%lookup_insert_Some; [rewrite lookup_insert_eq; eauto|].
    destruct (Ha a k Hin) as [? ?]. split; [done|]. rewrite lookup_insert. by case_decide.
  - intros a k [[<- <-]|[? Hin]]%lookup_insert_Some; [rewrite lookup_insert_eq; eauto|].
    destruct (Hs a k Hin) as [? ?]. split; [done|]. rewrite lookup_insert. by case_decide.
Qed.

Lemma lookups_forget l key : lookups_ok l -> lookups_ok (forget l key).
Proof.
  intros (Hk & Ha & Hs). unfold forget. destruct (key_to_info l !! key) as [i|] eqn:Hi; [|done].
  destruct (Hk key i Hi) as [Hia His]. split_and!; cbn.
  - intros k i' [? Hin]%lookup_delete_Some. by apply Hk.
  - intros a k [Hne Hin]%lookup_delete_Some. destruct (Ha a k Hin) as [He ?]. split; [done|].
    rewrite lookup_delete_ne; [done|]. intros <-. congruence.
  - intros a k [Hne Hin]%lookup_delete_Some. destruct (Hs a k Hin) as [He ?]. split; [done|].
    rewrite lookup_delete_ne; [done|]. intros <-. congruence.
Qed.

Lemma flush_ok rw b k now v ip s data k' :
  (forall p, b = Some p -> queued_ok rw (bp_data p) v ip s) ->
  (if v then ip = addr_for_key prefix k else s = subnet_for_key prefix k) ->
  WriteTo data k' ∈ flush b k now -> outbound_ok rw data k'.
Proof.
  intros Hq Hk. unfold flush. destruct b as [p|]; [|by intros ?%not_elem_of_nil].
  destruct (_ <? _); [|by intros ?%not_elem_of_nil]. intros [= -> ->]%list_elem_of_singleton.
  eapply queued_sendable; eauto.
Qed.

(** [update_key]: the invariant, what it may send, and the key is cached. *)
Lemma store_key_spec rw key now rw' : rwc_ok rw -> store_key prefix rw key now = Some rw' ->
  rwc_ok rw' /\ same_config rw rw' /\ rw_mtu rw' = rw_mtu rw /\ rw_firewall rw' = rw_firewall rw /\
  is_Some (key_to_info (rw_lookups rw') !! key) /\ rw_buffers rw' = rw_buffers rw.
Proof.
  intros [Hl Hb]. unfold store_key. destruct (match _ with Some _ => _ | None => _ end); [done|]. intros [= <-].
  split; [split; [by apply lookups_learn|exact Hb]|]. do 3 (split; [done|]). split; [|done]. cbn. rewrite lookup_insert_eq. eauto.
Qed.

Lemma store_key_known rw key now : store_key prefix rw key now = None -> is_Some (key_to_info (rw_lookups rw) !! key).
Proof. unfold store_key. destruct (key_to_info (rw_lookups rw) !! key); [eauto|done]. Qed.

Lemma take_buffered_spec rw key now acts rw' : rwc_ok rw -> take_buffered prefix rw key now = (acts, rw') ->
  rwc_ok rw' /\ same_config rw rw' /\ rw_mtu rw' = rw_mtu rw /\ rw_firewall rw' = rw_firewall rw /\
  rw_lookups rw' = rw_lookups rw /\ forall data k, WriteTo data k ∈ acts -> outbound_ok rw data k.
Proof.
  intros [Hl [Hba Hbs]] [= <- <-].
  split; [split; [done|split; cbn; intros ? ? [_ ?]%lookup_delete_Some; first [by apply Hba | by apply Hbs]]|].
  do 4 (split; [done|]). intros data k [Hin|Hin]%elem_of_app;
    [apply (flush_ok rw _ _ _ true (addr_for_key prefix key) [] _ _ (Hba _) eq_refl Hin)
    |apply (flush_ok rw _ _ _ false [] (subnet_for_key prefix key) _ _ (Hbs _) eq_refl Hin)].
Qed.

Lemma update_key_spec rw key now acts rw' : rwc_ok rw -> update_key prefix rw key now = (acts, rw') ->
  rwc_ok rw' /\ same_config rw rw' /\ rw_mtu rw' = rw_mtu rw /\ rw_firewall rw' = rw_firewall rw /\
  is_Some (key_to_info (rw_lookups rw') !! key) /\
  forall data k, WriteTo data k ∈ acts -> outbound_ok rw data k.
Proof.
  intros Hok. unfold update_key. destruct (store_key prefix rw key now) as [rw1|] eqn:E.
  - destruct (store_key_spec _ _ _ _ Hok E) as (Hok1 & C1 & M1 & F1 & K1 & B1). intros Ht.
    destruct (take_buffered_spec _ _ _ _ _ Hok1 Ht) as (Hok2 & C2 & M2 & F2 & K2 & A2).
    split; [done|]. split; [unfold same_config in *; intuition congruence|]. split; [congruence|]. split; [congruence|].
    split; [by rewrite K2|]. intros data k Hin. specialize (A2 data k Hin). unfold outbound_ok, ours in *.
    destruct C1 as (Ha & Hs & Hc). rewrite Ha, Hs, Hc in A2. exact A2.
  - intros [= <- <-]. split; [done|]. do 3 (split; [done|]). split; [by eapply store_key_known|]. by intros ? ? ?%not_elem_of_nil.
Qed.

Lemma cleanup_keys_spec `{HashOrder} rw now : rwc_ok rw -> rwc_ok (cleanup_keys rw now) /\ same_config rw (cleanup_keys rw now).
Proof.
  intros [Hl Hb]. unfold cleanup_keys. split; [|done]. split; [|exact Hb]. cbn.
  generalize (filter (fun e => KEY_STORE_TIMEOUT < elapsed now (ki_last_seen (snd e)))
    (map_iter (key_to_info (rw_lookups rw)))).*1. intros ks. revert Hl. generalize (rw_lookups rw).
  induction ks as [|k ks IH]; intros l Hl; cbn; [done|]. by apply IH, lookups_forget.
Qed.

Lemma cleanup_buffers_spec rw now : rwc_ok rw -> rwc_ok (cleanup_buffers rw now) /\ same_config rw (cleanup_buffers rw now).
Proof.
  intros [Hl [Hba Hbs]]. unfold cleanup_buffers. split; [|done]. split; [exact Hl|].
  split; cbn; intros ? ? [? _]%map_lookup_filter_Some; first [by apply Hba | by apply Hbs].
Qed.

Lemma cleanup_spec `{HashOrder} rw now : rwc_ok rw -> rwc_ok (cleanup rw now) /\ same_config rw (cleanup rw now).
Proof.
  intros Hok. destruct (cleanup_keys_spec rw now Hok) as [Hok1 C1]. destruct (cleanup_buffers_spec _ now Hok1) as [Hok2 C2].
  split; [exact Hok2|]. unfold same_config in *. unfold cleanup. intuition congruence.
Qed.

(** ** Outbound packets *)

Lemma slice_ok buf a b : (a <= b)%nat -> (b <= length buf)%nat -> slice buf a b = Ret (take (b - a) (drop a buf)).
Proof. intros. unfold slice. by rewrite decide_True. Qed.

Lemma observe_outbound_ok (fw : Firewall Ipv6Net) buf now : exists fw', observe_outbound fw buf now = Ret fw'.
Proof.
  unfold observe_outbound. destruct (parse_ok buf) as [[p|] ->]; rewrite ret_bind; [|by eexists].
  destruct (negb _); by eexists.
Qed.

Lemma firewall_out_spec rw buf b now :
  exists fw, firewall_out rw buf b now = Ret (rw <| rw_firewall := fw |>) /\
    (rw_firewall rw = None -> fw = None).
Proof.
  unfold firewall_out. destruct rw as [ad su lo bu mt ck [fw|]]; cbn; [|by exists None].
  destruct (b && fw_enable fw); [|by exists (Some fw)].
  destruct (observe_outbound_ok fw buf now) as [fw' ->]. rewrite ret_bind. by exists (Some fw').
Qed.

Lemma plan_overlay_spec rw buf v :
  lookups_ok (rw_lookups rw) -> (rw_ckr rw = None -> ours rw buf) ->
  match plan_overlay (rw_lookups rw) v (dst_of buf) (take 8 (dst_of buf)) with
  | SendTo k => outbound_ok rw buf k /\ is_Some (key_to_info (rw_lookups rw) !! k)
  | QueueFor v' ip s => queued_ok rw buf v' ip s
  | _ => False
  end.
Proof.
  intros (_ & Ha & Hs) Hours. unfold plan_overlay. destruct v.
  - destruct (addr_to_info _ !! _) as [k|] eqn:Hk; [|done]. destruct (Ha _ _ Hk) as [He Hi]. split; [|done].
    apply (queued_sendable rw buf true (dst_of buf) []); [done|by symmetry].
  - destruct (subnet_to_info _ !! _) as [k|] eqn:Hk; [|done]. destruct (Hs _ _ Hk) as [He Hi]. split; [|done].
    apply (queued_sendable rw buf false [] (take 8 (dst_of buf))); [done|by symmetry].
Qed.

Definition plan_ok rw (buf : bytes) (plan : WritePlan) : Prop :=
  match plan with
  | SendTo k => outbound_ok rw buf k
  | QueueFor v ip s => queued_ok rw buf v ip s
  | _ => True
  end.

Lemma version_excl buf : version_is 64 buf = true -> version_is 96 buf = true -> False.
Proof. destruct buf as [|b buf]; cbn; [done|]. intros ?%Z.eqb_eq ?%Z.eqb_eq. lia. Qed.

Lemma subnet_of_dst (buf : bytes) : take 8 (dst_of buf) = take 8 (drop 24 buf).
Proof. by rewrite take_take. Qed.

Lemma ckr_write_spec rw ckr buf is_ip6 : lookups_ok (rw_lookups rw) -> rw_ckr rw = Some ckr ->
  is_ip6 = version_is 96 buf -> version_is 64 buf = true \/ is_ip6 = true ->
  (is_ip6 = true -> (40 <= length buf)%nat) ->
  exists plan, ckr_write prefix (rw_lookups rw) ckr buf (version_is 64 buf) is_ip6 = Ret plan /\ plan_ok rw buf plan.
Proof.
  intros Hl Hckr Hv6 Hip Hlen. unfold ckr_write.
  assert (Hroute : forall k, get_public_key_for_address prefix ckr (packet_dst buf) = Some k -> outbound_ok rw buf k).
  { intros k Hk. unfold outbound_ok. rewrite Hckr. by right. }
  unfold packet_dst in Hroute. destruct (version_is 64 buf) eqn:Hv4; cbn [andb].
  - assert (is_ip6 = false) as ->.
    { rewrite Hv6. destruct (version_is 96 buf) eqn:Hv; [|done]. by destruct (version_excl buf). }
    destruct (Nat.ltb_spec (length buf) 20); [by exists DropSilently|].
    rewrite !slice_ok, ret_bind by lia. cbn [andb]. rewrite !ret_bind. cbn [andb].
    rewrite ?ret_bind. change (20 - 16)%nat with 4%nat.
    destruct (get_public_key_for_address _ _ _) as [k|] eqn:Hk; [|by exists DropSilently].
    exists (SendTo k). split; [done|]. by apply Hroute.
  - destruct Hip as [?| ->]; [done|]. specialize (Hlen eq_refl).
    rewrite !slice_ok by lia. rewrite !ret_bind. change (40 - 24)%nat with 16%nat. change (32 - 24)%nat with 8%nat.
    rewrite <- subnet_of_dst. cbn [andb].
    destruct (ck_yggdrasil_routing ckr && _) eqn:Ho.
    + eexists. split; [done|].
      assert (rw_ckr rw = None -> ours rw buf) by congruence.
      pose proof (plan_overlay_spec rw buf (is_valid_address prefix (dst_of buf)) Hl) as Hp.
      destruct (plan_overlay _ _ _ _); cbn; [done|done|by apply Hp|by apply Hp].
    + destruct (get_public_key_for_address _ _ _) as [k|] eqn:Hk; [|by exists DropSilently].
      exists (SendTo k). split; [done|]. by apply Hroute.
Qed.

(** [write] never panics, and what it plans is allowed. *)
Lemma write_plan_spec rw buf now : rwc_ok rw ->
  exists plan fw, write_plan prefix rw buf now = Ret (plan, rw <| rw_firewall := fw |>) /\ plan_ok rw buf plan.
Proof.
  intros [Hl _]. unfold write_plan. destruct (firewall_out_spec rw buf (version_is 96 buf) now) as (fw & -> & _).
  rewrite ret_bind. cbn [set_field]. set (rw' := rw <| rw_firewall := fw |>).
  assert (Hsame : forall plan, plan_ok rw' buf plan -> plan_ok rw buf plan) by (by intros []).
  change (rw_ckr rw') with (rw_ckr rw). destruct (rw_ckr rw) as [ckr|] eqn:Hckr.
  - destruct (version_is 96 buf) eqn:Hv6; rewrite ?andb_false_r; cbn [negb andb].
    + destruct (Nat.ltb_spec (length buf) IPV6_HEADER_LEN).
      { by exists DropSilently, fw. }
      destruct (ckr_write_spec rw' ckr buf true) as (plan & -> & Hp); [done|done|by rewrite Hv6|by right|..].
      { intros _. done. }
      rewrite ret_bind. exists plan, fw. auto.
    + destruct (version_is 64 buf) eqn:Hv4; cbn [negb andb]; [|by exists DropSilently, fw].
      destruct (ckr_write_spec rw' ckr buf false) as (plan & Hp & Hok); [done|done|by rewrite Hv6|by left|done|].
      rewrite Hv4 in Hp. rewrite Hp, ret_bind. exists plan, fw. auto.
  - destruct (Nat.ltb_spec (length buf) IPV6_HEADER_LEN) as [?|Hlen]; [by exists (Refuse PacketTooShort), fw|].
    unfold IPV6_HEADER_LEN in Hlen. destruct (version_is 96 buf) eqn:Hv6; cbn [negb]; [|by exists (Refuse NotIpv6), fw].
    rewrite !slice_ok, ret_bind by lia. rewrite ret_bind. change (24 - 8)%nat with 16%nat. change (40 - 24)%nat with 16%nat.
    destruct (owns (rw_address rw') (rw_subnet rw') (src_of buf)) eqn:Hown; cbn [negb]; [|by exists (Refuse InvalidSource), fw].
    destruct (_ && _); [by exists (Refuse InvalidDestination), fw|].
    eexists _, fw. split; [done|]. apply Hsame.
    pose proof (plan_overlay_spec rw' buf (is_valid_address prefix (dst_of buf)) Hl ltac:(done)) as Hp.
    destruct (plan_overlay _ _ _ _); cbn; [done|done|by apply Hp|by apply Hp].
Qed.

Lemma write_finish_spec rw buf plan now res acts rw' : rwc_ok rw -> plan_ok rw buf plan ->
  write_finish rw buf plan now = (res, acts, rw') ->
  rwc_ok rw' /\ same_config rw rw' /\ forall data k, WriteTo data k ∈ acts -> outbound_ok rw data k.
Proof.
  intros [Hl [Hba Hbs]] Hp. destruct plan as [e| |k|v ip s]; cbn.
  - intros [= <- <- <-]. split; [done|]. split; [done|]. by intros ? ? ?%not_elem_of_nil.
  - intros [= <- <- <-]. split; [done|]. split; [done|]. by intros ? ? ?%not_elem_of_nil.
  - intros [= <- <- <-]. split; [done|]. split; [done|]. by intros ? ? [= -> ->]%list_elem_of_singleton.
  - destruct Hp as [Hours Hdst]. destruct v; cbn; intros [= <- <- <-]; (split; [|split; [done|]]);
      try (by intros ? ? ?%list_elem_of_singleton); (split; [done|]); split; cbn.
    + intros a b [[<- <-]|[_ ?]]%lookup_insert_Some; [done|by apply Hba].
    + apply Hbs.
    + apply Hba.
    + intros a b [[<- <-]|[_ ?]]%lookup_insert_Some; [done|by apply Hbs].
Qed.

(** ** Inbound packets *)

Definition fw_passes rw (packet : bytes) (now : Z) : Prop :=
  match rw_firewall rw with
  | Some fw => fw_enable fw = true -> exists fw', check_inbound net_contains fw packet now = Ret (true, fw')
  | None => True
  end.

Lemma firewall_in_spec rw packet is_ip6 now :
  exists ok fw, firewall_in net_contains rw packet is_ip6 now = Ret (ok, rw <| rw_firewall := fw |>) /\
    (ok = true <-> (is_ip6 = true -> fw_passes rw packet now)).
Proof using net_contains.
  unfold firewall_in, fw_passes. destruct rw as [ad su lo bu mt ck [fw|]]; cbn; [|by exists true, None].
  destruct (fw_enable fw); cbn; [|exists true, (Some fw); split; [done|]; split; [done|congruence]].
  destruct is_ip6; [|by exists true, (Some fw)].
  destruct (check_inbound_spec net_contains fw packet now) as (ok & fw' & Hc & _). rewrite Hc, ret_bind.
  exists ok, (Some fw'). split; [done|]. split; [intros ->; eauto|].
  intros Hp. destruct (Hp eq_refl eq_refl) as [fw'' Hc']. congruence.
Qed.

(** The source belongs to the sender's key. *)
Definition from_sender (from_key : PublicKey) (packet : bytes) : Prop :=
  owns (addr_for_key prefix from_key) (subnet_for_key prefix from_key) (src_of packet) = true.

Definition packet_src (data : bytes) : IpAddr :=
  if version_is 64 data then AddrV4 (from_be_bytes (take 4 (drop 12 data))) else AddrV6 (from_be_bytes (src_of data)).

(** When a packet is delivered to the TUN device. *)
Definition deliverable rw (packet : bytes) (from_key : PublicKey) (now : Z) : Prop :=
  let v4 := version_is 64 packet in
  let v6 := version_is 96 packet in
  Z.of_nat (length packet) <= rw_mtu rw /\ (v6 = true -> (40 <= length packet)%nat) /\
  (v6 = true -> fw_passes rw packet now) /\
  match rw_ckr rw with
  | None => v6 = true /\ owns (rw_address rw) (rw_subnet rw) (dst_of packet) = true /\ from_sender from_key packet
  | Some ckr =>
      (v6 = true /\ ck_yggdrasil_routing ckr = true /\ from_sender from_key packet) \/
      ((v6 = true \/ v4 = true /\ (20 <= length packet)%nat) /\
       get_public_key_for_address prefix ckr (packet_src packet) = Some from_key)
  end.

Lemma sender_matches_spec rw from_key packet : lookups_ok (rw_lookups rw) ->
  is_Some (key_to_info (rw_lookups rw) !! from_key) ->
  sender_matches (rw_lookups rw) from_key (src_of packet) = true <-> from_sender from_key packet.
Proof.
  intros (Hk & _ & _) [i Hi]. unfold sender_matches, from_sender. rewrite Hi.
  by destruct (Hk _ _ Hi) as [-> ->].
Qed.

Lemma ckr_read_validate_spec rw ckr packet from_key : lookups_ok (rw_lookups rw) ->
  is_Some (key_to_info (rw_lookups rw) !! from_key) ->
  let v4 := version_is 64 packet in
  let v6 := version_is 96 packet in
  v4 = true \/ v6 = true -> (v6 = true -> (40 <= length packet)%nat) ->
  exists ok, ckr_read_validate prefix (rw_lookups rw) ckr packet v4 v6 from_key = Ret ok /\
    (ok = true <->
      (v6 = true /\ ck_yggdrasil_routing ckr = true /\ from_sender from_key packet) \/
      ((v6 = true \/ v4 = true /\ (20 <= length packet)%nat) /\
       get_public_key_for_address prefix ckr (packet_src packet) = Some from_key)).
Proof.
  intros Hl Hi v4 v6 Hv Hlen. unfold ckr_read_validate, packet_src. fold v4. destruct v6 eqn:H6.
  - specialize (Hlen eq_refl). assert (v4 = false) as ->.
    { destruct v4 eqn:H4; [|done]. by destruct (version_excl packet). }
    cbn [andb]. rewrite !slice_ok by lia. change (24 - 8)%nat with 16%nat.
    pose proof (sender_matches_spec rw from_key packet Hl Hi) as Hm.
    destruct (ck_yggdrasil_routing ckr); rewrite ?ret_bind.
    + destruct (sender_matches _ _ _).
      * exists true. split; [done|]. split; [|done]. intros _. left. split_and!; [done|done|by apply Hm].
      * rewrite ?ret_bind. eexists. split; [done|]. rewrite bool_decide_eq_true. split; [auto|].
        intros [(_ & _ & Hc)|[_ ?]]; [by apply Hm in Hc|done].
    + eexists. split; [done|]. rewrite bool_decide_eq_true. split; [auto|]. by intros [(_ & ? & _)|[_ ?]].
  - destruct Hv as [Hv|?]; [|done]. rewrite Hv. cbn [andb]. rewrite ret_bind.
    destruct (Nat.ltb_spec (length packet) 20).
    + exists false. split; [done|]. split; [done|]. intros [(? & _)|[[?|[_ ?]] _]]; [done|done|lia].
    + rewrite slice_ok by lia. rewrite ?ret_bind. change (16 - 12)%nat with 4%nat. eexists. split; [done|].
      rewrite bool_decide_eq_true. split; [auto|]. by intros [(? & _)|[_ ?]].
Qed.

(** The result of handling a packet: no panic, the invariant, only allowed
    packets sent, and delivery exactly when [P]. *)
Definition inbound_post rw (packet : bytes) (from_key : PublicKey) (P : Prop) (r : outcome (bool * list Action * Rwc Ipv6Net))
    : Prop :=
  exists ok acts rw', r = Ret (ok, acts, rw') /\ rwc_ok rw' /\ same_config rw rw' /\
    (forall data k, WriteTo data k ∈ acts ->
       outbound_ok rw data k \/ k = from_key /\ build_icmpv6_ptb packet (rw_mtu rw) = Some data) /\
    (ok = true <-> P).

Lemma inbound_reject rw rw1 packet from_key P acts : rwc_ok rw1 -> same_config rw rw1 ->
  (forall data k, WriteTo data k ∈ acts -> outbound_ok rw data k) -> ~ P ->
  inbound_post rw packet from_key P (Ret (false, acts, rw1)).
Proof.
  intros Hok Hcfg Hacts HP. exists false, acts, rw1. do 3 (split; [done|]). split; [auto|]. by split.
Qed.

Lemma inbound_drop rw packet from_key P : rwc_ok rw -> ~ P -> inbound_post rw packet from_key P (Ret (false, [], rw)).
Proof. intros Hok HP. apply inbound_reject; [done|done|by intros ? ? ?%not_elem_of_nil|done]. Qed.

Lemma inbound_finish rw rw1 packet from_key is_ip6 now acts (Q P : Prop) : rwc_ok rw1 -> same_config rw rw1 ->
  rw_firewall rw1 = rw_firewall rw -> (forall data k, WriteTo data k ∈ acts -> outbound_ok rw data k) ->
  (P <-> Q /\ (is_ip6 = true -> fw_passes rw packet now)) -> Q ->
  inbound_post rw packet from_key P (r ← firewall_in net_contains rw1 packet is_ip6 now; Ret (fst r, acts, snd r)).
Proof using net_contains.
  intros Hok Hcfg Hfw Hacts HPQ HQ. destruct (firewall_in_spec rw1 packet is_ip6 now) as (ok & fw & -> & Hiff).
  rewrite ret_bind. exists ok, acts, (rw1 <| rw_firewall := fw |>). do 3 (split; [done|]).
  split; [auto|]. rewrite Hiff, HPQ. unfold fw_passes. rewrite Hfw. tauto.
Qed.

(** A packet that exceeds the MTU. *)
Lemma inbound_oversized rw packet from_key P : rwc_ok rw -> ~ P ->
  inbound_post rw packet from_key P
    (if version_is 96 packet then
       match build_icmpv6_ptb packet (rw_mtu rw) with
       | Some ptb => Ret (false, [WriteTo ptb from_key], rw)
       | None => Ret (false, [], rw)
       end
     else Ret (false, [], rw)).
Proof.
  intros Hok HP. destruct (version_is 96 packet); [|by apply inbound_drop].
  destruct (build_icmpv6_ptb packet (rw_mtu rw)) as [ptb|] eqn:Hptb; [|by apply inbound_drop].
  exists false, [WriteTo ptb from_key], rw. do 3 (split; [done|]). split; [|by split].
  intros ? ? [= -> ->]%list_elem_of_singleton. by right.
Qed.

Lemma accept_inbound_spec rw packet from_key now : rwc_ok rw ->
  inbound_post rw packet from_key (deliverable rw packet from_key now)
    (accept_inbound net_contains prefix rw packet from_key now).
Proof using net_contains.
  intros Hok. unfold accept_inbound, deliverable.
  destruct (Nat.eqb_spec (length packet) 0) as [H0|H0].
  { apply nil_length_inv in H0 as ->. apply inbound_drop; [done|]. intros (_ & _ & _ & Hc). cbn in Hc. destruct (rw_ckr rw); intuition discriminate. }
  destruct (negb (bool_decide (is_Some (rw_ckr rw))) && negb (version_is 96 packet)) eqn:H1.
  { apply andb_true_iff in H1 as [H1%negb_true_iff%bool_decide_eq_false H2%negb_true_iff]. apply inbound_drop; [done|].
    destruct (rw_ckr rw); [by destruct H1|]. intros (_ & _ & _ & ? & _). congruence. }
  destruct (bool_decide (is_Some (rw_ckr rw)) && (negb (version_is 64 packet) && negb (version_is 96 packet))) eqn:H2.
  { apply inbound_drop; [done|]. rewrite !andb_true_iff, !negb_true_iff in H2. destruct H2 as (_ & -> & ->).
    intros (_ & _ & _ & Hc). destruct (rw_ckr rw); intuition discriminate. }
  destruct (version_is 96 packet && (length packet <? IPV6_HEADER_LEN)%nat) eqn:H3.
  { apply inbound_drop; [done|]. apply andb_true_iff in H3 as [-> ?%Nat.ltb_lt]. intros (_ & Hl & _). specialize (Hl eq_refl).
    unfold IPV6_HEADER_LEN in *. lia. }
  assert (H40 : version_is 96 packet = true -> (40 <= length packet)%nat).
  { intros Hv. rewrite Hv in H3. by apply Nat.ltb_ge in H3. }
  destruct (Z.ltb_spec (rw_mtu rw) (Z.of_nat (length packet))) as [Hbig|Hfit].
  { apply inbound_oversized; [done|]. intros (? & _). lia. }
  destruct (update_key prefix rw from_key now) as [acts rw1] eqn:Hu.
  destruct (update_key_spec _ _ _ _ _ Hok Hu) as (Hok1 & Hcfg & Hmtu & Hfw & Hin & Hacts).
  pose proof Hcfg as (Had & Hsu & Hck). unfold inbound_check. rewrite Hck.
  destruct (rw_ckr rw) as [ckr|] eqn:Hckr.
  - destruct (ckr_read_validate_spec rw1 ckr packet from_key) as (ok & -> & Hiff); [apply Hok1|done| |done|].
    { destruct (version_is 64 packet), (version_is 96 packet); auto. }
    rewrite ret_bind. destruct ok; cbn [negb].
    + eapply inbound_finish; [done..| |exact (proj1 Hiff eq_refl)]. tauto.
    + rewrite ret_bind. apply inbound_reject; [done..|]. intros (_ & _ & _ & Hc). by apply Hiff in Hc.
  - cbn [is_Some] in H1. assert (Hv6 : version_is 96 packet = true).
    { destruct (version_is 96 packet); [done|]. rewrite bool_decide_false in H1; [done|by intros [? ?]]. }
    rewrite Hv6 in *. specialize (H40 eq_refl). rewrite !slice_ok, ret_bind by lia. rewrite ret_bind.
    change (24 - 8)%nat with 16%nat. change (40 - 24)%nat with 16%nat. rewrite Had, Hsu.
    destruct (owns (rw_address rw) (rw_subnet rw) (dst_of packet)) eqn:Ho; cbn [negb].
    2: { rewrite ret_bind. apply inbound_reject; [done..|]. intros (_ & _ & _ & _ & ? & _). done. }
    pose proof (sender_matches_spec rw1 from_key packet (proj1 Hok1) Hin) as Hm.
    destruct (sender_matches _ _ _); cbn [negb].
    + apply (inbound_finish _ _ _ _ true now _ (from_sender from_key packet)); [done..|tauto|by apply Hm].
    + rewrite ret_bind. apply inbound_reject; [done..|]. intros (_ & _ & _ & _ & _ & Hc). by apply Hm in Hc.
Qed.

Lemma Ret_inj {A} (x y : A) : Ret x = Ret y -> x = y.
Proof. by intros [=]. Qed.

(** The check alone changes nothing but the firewall's flows, and passes only what
    the sender may send. *)
Lemma inbound_check_spec rw packet from_key now ok rw' : lookups_ok (rw_lookups rw) ->
  inbound_check net_contains prefix rw packet from_key now = Ret (ok, rw') ->
  (exists fw, rw' = rw <| rw_firewall := fw |>) /\
  (ok = true -> match rw_ckr rw with
                | None => owns (rw_address rw) (rw_subnet rw) (dst_of packet) = true /\ from_sender from_key packet
                | Some ckr => from_sender from_key packet \/
                    get_public_key_for_address prefix ckr (packet_src packet) = Some from_key
                end).
Proof using net_contains.
  intros Hl. assert (forall i, firewall_in net_contains rw packet i now = Ret (ok, rw') -> exists fw, rw' = rw <| rw_firewall := fw |>) as Hf.
  { intros i Hi. destruct (firewall_in_spec rw packet i now) as (ok' & fw & E & _). rewrite E in Hi. injection Hi as _ <-. by exists fw. }
  assert (exists fw, rw = rw <| rw_firewall := fw |>) as Hsame by (exists (rw_firewall rw); by destruct rw).
  assert (forall ip, sender_matches (rw_lookups rw) from_key ip = true -> owns (addr_for_key prefix from_key) (subnet_for_key prefix from_key) ip = true) as Hm.
  { intros ip. unfold sender_matches. destruct (key_to_info (rw_lookups rw) !! from_key) as [i|] eqn:Ei; [|done].
    destruct Hl as (Hk & _). by destruct (Hk _ _ Ei) as [-> ->]. }
  assert (forall a b bs, slice packet a b = Ret bs -> bs = take (b - a) (drop a packet)) as Hsl.
  { intros a b bs. unfold slice. case_decide; [|done]. by intros [= <-]. }
  unfold inbound_check. destruct (rw_ckr rw) as [ckr|].
  - destruct (ckr_read_validate _ _ _ _ _ _ _) as [[]|] eqn:Ev; cbn [mbind]; [| |done]; rewrite ret_bind; cbn [negb].
    2: { intros [= <- <-]. by split. }
    intros Hi. split; [by eapply Hf|]. intros _. revert Ev. unfold ckr_read_validate, from_sender, packet_src.
    destruct (version_is 96 packet && ck_yggdrasil_routing ckr).
    + destruct (slice packet 8 24) as [src|] eqn:Es; [|done]. rewrite ret_bind. apply Hsl in Es as ->. rewrite ret_bind.
      destruct (sender_matches _ _ _) eqn:Esm; [intros _; left; by apply Hm|].
      destruct (version_is 64 packet); cbn [andb].
      * destruct (length packet <? 20)%nat; [done|]. destruct (slice packet 12 16) eqn:E4; [|done]. apply Hsl in E4 as ->.
        rewrite !ret_bind. intros E. right. exact (bool_decide_eq_true_1 _ (Ret_inj _ _ E)).
      * rewrite ?ret_bind. intros E. right. exact (bool_decide_eq_true_1 _ (Ret_inj _ _ E)).
    + rewrite ret_bind. destruct (version_is 64 packet); cbn [andb].
      * destruct (length packet <? 20)%nat; [done|]. destruct (slice packet 12 16) eqn:E4; [|done]. apply Hsl in E4 as ->.
        rewrite !ret_bind. intros E. right. exact (bool_decide_eq_true_1 _ (Ret_inj _ _ E)).
      * destruct (slice packet 8 24) as [src|] eqn:Es; [|done]. apply Hsl in Es as ->. rewrite !ret_bind.
        intros E. right. exact (bool_decide_eq_true_1 _ (Ret_inj _ _ E)).
  - destruct (slice packet 8 24) as [src|] eqn:Es; [|done]. rewrite ret_bind. apply Hsl in Es as ->.
    destruct (slice packet 24 40) as [dst|] eqn:Ed; [|done]. rewrite ret_bind. apply Hsl in Ed as ->.
    destruct (owns (rw_address rw) (rw_subnet rw) _) eqn:Eo; cbn [negb]; [|intros [= <- <-]; by split].
    destruct (sender_matches _ _ _) eqn:Esm; cbn [negb]; [|intros [= <- <-]; by split].
    intros Hi. split; [by eapply Hf|]. intros _. split; [done|]. by apply Hm.
Qed.
End Gateway.
