(* ===== verification/RwcTasks.v ===== *)
(** * RwcTasks: the gateway under concurrent tasks

    The TUN reader, the reader of the core, path notifications and the cleanup
    timer use one gateway. A step is what one task does without giving way:
    [write] takes two, with its plan kept in between; [update_key] stores the key and
    takes the buffered packets, an inbound packet is checked after that, and
    [cleanup] goes through the keys and the buffers. These parts may come in any
    order and number, which covers all that the tasks do; the whole functions are
    steps too. *)

From S2P Require Import Prelude.
From S2P Require Import Wire.
From S2P Require Import Address.
From S2P Require Import Firewall.
From S2P Require Import Ckr.
From S2P Require Import Rwc.
From S2P Require Import RwcFacts.
From stdpp Require Import options.
Open Scope Z_scope.

#[local] Opaque addr_for_key subnet_for_key Address_get_key Subnet_get_key.

Section Tasks.
Context {Ipv6Net : Type} (net_contains : Ipv6Net -> bytes -> bool).
Context (prefix : Z) `{HashOrder}.
Implicit Types rw : Rwc Ipv6Net.

(** The gateway and the writes in progress. *)
Definition gw_state : Type := Rwc Ipv6Net * list (bytes * WritePlan).

Inductive gw_label :=
| GwPlan (buf : bytes)
| GwFinish (buf : bytes)
| GwInbound (packet : bytes) (from_key : PublicKey)
| GwLearn (key : PublicKey)
| GwStore (key : PublicKey)
| GwTake (key : PublicKey)
| GwCheck (packet : bytes) (from_key : PublicKey) (accepted : bool)
| GwCleanup
| GwCleanKeys
| GwCleanBuffers
| GwMtu (mtu : Z).

Inductive gw_step : gw_state -> gw_label -> list Action -> gw_state -> Prop :=
| gw_plan rw pending buf now plan rw' :
    write_plan prefix rw buf now = Ret (plan, rw') ->
    gw_step (rw, pending) (GwPlan buf) [] (rw', (buf, plan) :: pending)
| gw_finish rw before buf plan after now res acts rw' :
    write_finish rw buf plan now = (res, acts, rw') ->
    gw_step (rw, before ++ (buf, plan) :: after) (GwFinish buf) acts (rw', before ++ after)
| gw_inbound rw pending packet from_key now ok acts rw' :
    accept_inbound net_contains prefix rw packet from_key now = Ret (ok, acts, rw') ->
    gw_step (rw, pending) (GwInbound packet from_key) acts (rw', pending)
| gw_learn rw pending key now acts rw' :
    update_key prefix rw key now = (acts, rw') ->
    gw_step (rw, pending) (GwLearn key) acts (rw', pending)
| gw_store rw pending key now rw' :
    store_key prefix rw key now = Some rw' ->
    gw_step (rw, pending) (GwStore key) [] (rw', pending)
| gw_take rw pending key now acts rw' :
    take_buffered prefix rw key now = (acts, rw') ->
    gw_step (rw, pending) (GwTake key) acts (rw', pending)
| gw_check rw pending packet from_key now ok rw' :
    inbound_check net_contains prefix rw packet from_key now = Ret (ok, rw') ->
    gw_step (rw, pending) (GwCheck packet from_key ok) [] (rw', pending)
| gw_cleanup rw pending now :
    gw_step (rw, pending) GwCleanup [] (cleanup rw now, pending)
| gw_clean_keys rw pending now :
    gw_step (rw, pending) GwCleanKeys [] (cleanup_keys rw now, pending)
| gw_clean_buffers rw pending now :
    gw_step (rw, pending) GwCleanBuffers [] (cleanup_buffers rw now, pending)
| gw_mtu rw pending mtu :
    gw_step (rw, pending) (GwMtu mtu) [] (set_mtu rw mtu, pending).

Inductive gw_reach (st0 : gw_state) : gw_state -> Prop :=
| gw_refl : gw_reach st0 st0
| gw_trans st lbl acts st' : gw_reach st0 st -> gw_step st lbl acts st' -> gw_reach st0 st'.

(** The gateway of a node, with or without a routing table. *)
Definition gateway (own : PublicKey) (mtu : Z) (fw : option (Firewall Ipv6Net)) (ckr : option CryptoKey) : Rwc Ipv6Net :=
  let rw := Rwc_new (addr_for_key prefix own) (subnet_for_key prefix own) mtu fw in
  match ckr with Some c => init_crypto_key rw c | None => rw end.

Definition gw_inv (rw0 : Rwc Ipv6Net) (st : gw_state) : Prop :=
  rwc_ok prefix (fst st) /\ same_config rw0 (fst st) /\
  Forall (fun bp => plan_ok prefix (fst st) (fst bp) (snd bp)) (snd st).

Lemma config_trans rw1 rw2 rw3 : same_config rw1 rw2 -> same_config rw2 rw3 -> same_config rw1 rw3.
Proof. unfold same_config. intuition congruence. Qed.

Lemma ours_config rw rw' data : same_config rw rw' -> ours rw' data <-> ours rw data.
Proof. unfold same_config, ours. intros (Ha & Hs & _). by rewrite Ha, Hs. Qed.

Lemma outbound_config rw rw' data k : same_config rw rw' -> outbound_ok prefix rw' data k <-> outbound_ok prefix rw data k.
Proof. intros Hc. unfold outbound_ok. pose proof (ours_config rw rw' data Hc). destruct Hc as (_ & _ & Hk). rewrite Hk. destruct (rw_ckr rw); tauto. Qed.

Lemma plan_config rw rw' buf plan : same_config rw rw' -> plan_ok prefix rw buf plan -> plan_ok prefix rw' buf plan.
Proof.
  intros Hc. destruct plan as [| |k|v ip s]; cbn; [done|done|by apply outbound_config|].
  unfold queued_ok. pose proof (ours_config rw rw' buf Hc). destruct Hc as (_ & _ & Hk). rewrite Hk. tauto.
Qed.

Lemma plans_config rw rw' pending : same_config rw rw' ->
  Forall (fun bp : bytes * WritePlan => plan_ok prefix rw (fst bp) (snd bp)) pending ->
  Forall (fun bp => plan_ok prefix rw' (fst bp) (snd bp)) pending.
Proof. intros Hc Hall. eapply Forall_impl; [exact Hall|]. intros bp. by apply plan_config. Qed.

(** One step keeps the invariant and sends only allowed packets. *)
Lemma gw_step_inv rw0 st lbl acts st' : gw_inv rw0 st -> gw_step st lbl acts st' ->
  gw_inv rw0 st' /\
  forall data k, WriteTo data k ∈ acts ->
    outbound_ok prefix rw0 data k \/
    exists packet, lbl = GwInbound packet k /\ build_icmpv6_ptb packet (rw_mtu (fst st)) = Some data.
Proof.
  intros (Hok & Hcfg & Hpend) Hs. destruct Hs; cbn [fst snd] in *.
  - destruct (write_plan_spec prefix rw buf now Hok) as (plan' & fw & Hp & Hplan). rewrite Hp in H0.
    injection H0 as <- <-. split; [|by intros ? ? ?%not_elem_of_nil]. split; [done|]. split; [done|].
    constructor; [by apply (plan_config rw)|by apply (plans_config rw)].
  - apply Forall_app in Hpend as [Hb Ha]. apply Forall_cons in Ha as [Hplan Ha]. cbn in Hplan.
    destruct (write_finish_spec prefix _ _ _ _ _ _ _ Hok Hplan H0) as (Hok' & Hcfg' & Hacts). split.
    + split; [done|]. split; [by eapply config_trans|]. apply (plans_config rw); [done|]. by apply Forall_app.
    + intros data k Hin. left. by apply (outbound_config rw0 rw), Hacts.
  - destruct (accept_inbound_spec net_contains prefix rw packet from_key now Hok) as (ok' & acts' & rw'' & He & Hok' & Hcfg' & Hacts & _).
    rewrite He in H0. injection H0 as <- <- <-. split.
    + split; [done|]. split; [by eapply config_trans|]. by apply (plans_config rw).
    + intros data k Hin. destruct (Hacts data k Hin) as [?|[-> ?]]; [left; by apply (outbound_config rw0 rw)|].
      right. by exists packet.
  - destruct (update_key_spec prefix _ _ _ _ _ Hok H0) as (Hok' & Hcfg' & _ & _ & _ & Hacts). split.
    + split; [done|]. split; [by eapply config_trans|]. by apply (plans_config rw).
    + intros data k Hin. left. by apply (outbound_config rw0 rw), Hacts.
  - destruct (store_key_spec prefix _ _ _ _ Hok H0) as (Hok' & Hcfg' & _). split; [|by intros ? ? ?%not_elem_of_nil].
    split; [done|]. split; [by eapply config_trans|]. by apply (plans_config rw).
  - destruct (take_buffered_spec prefix _ _ _ _ _ Hok H0) as (Hok' & Hcfg' & _ & _ & _ & Hacts). split.
    + split; [done|]. split; [by eapply config_trans|]. by apply (plans_config rw).
    + intros data k Hin. left. by apply (outbound_config rw0 rw), Hacts.
  - destruct (inbound_check_spec net_contains prefix _ _ _ _ _ _ (proj1 Hok) H0) as [[fw ->] _].
    split; [|by intros ? ? ?%not_elem_of_nil]. split; [exact Hok|]. split; [exact Hcfg|]. by apply (plans_config rw).
  - destruct (cleanup_spec prefix rw now Hok) as [Hok' Hcfg']. split; [|by intros ? ? ?%not_elem_of_nil].
    split; [done|]. split; [by eapply config_trans|]. by apply (plans_config rw).
  - destruct (cleanup_keys_spec prefix rw now Hok) as [Hok' Hcfg']. split; [|by intros ? ? ?%not_elem_of_nil].
    split; [done|]. split; [by eapply config_trans|]. by apply (plans_config rw).
  - destruct (cleanup_buffers_spec prefix rw now Hok) as [Hok' Hcfg']. split; [|by intros ? ? ?%not_elem_of_nil].
    split; [done|]. split; [by eapply config_trans|]. by apply (plans_config rw).
  - split; [|by intros ? ? ?%not_elem_of_nil]. split; [done|]. split; [done|]. by apply (plans_config rw).
Qed.

Lemma gateway_inv own mtu fw ckr : gw_inv (gateway own mtu fw ckr) (gateway own mtu fw ckr, []).
Proof.
  split; [|split; [done|constructor]]. cbn [fst].
  assert (He : rw_lookups (gateway own mtu fw ckr) = mkLookups ∅ ∅ ∅ /\ rw_buffers (gateway own mtu fw ckr) = mkBuffers ∅ ∅)
    by (by destruct ckr).
  destruct He as [Hl Hb]. split; [rewrite Hl; by repeat split|].
  split; rewrite Hb; intros; done.
Qed.

Lemma gw_reach_inv rw0 st0 st : gw_inv rw0 st0 -> gw_reach st0 st -> gw_inv rw0 st.
Proof. intros H0 Hr. induction Hr as [|st lbl acts st' _ IH Hs]; [done|]. by destruct (gw_step_inv _ _ _ _ _ IH Hs). Qed.

(** ** Properties *)

(** C12: The gateway leaks no packet. Under every interleaving of writes, inbound
    packets, learned keys, cleanups and MTU changes, also where these give way in
    between, a packet goes to a key only for one of these reasons. Without crypto-key
    routing: it is an IPv6 packet with a source address of this node, and its
    destination is the address or in the subnet of that key. With crypto-key routing,
    where the code does not look at the source of what it sends: its destination is
    the address or in the subnet of that key, or one that the table routes to that
    key. Or it is a Packet Too Big reply to a packet that the key's node just sent.
    No step panics. *)
Theorem rwc_no_leak own mtu fw ckr st :
  gw_reach (gateway own mtu fw ckr, []) st ->
  (forall lbl acts st' data k, gw_step st lbl acts st' -> WriteTo data k ∈ acts ->
     outbound_ok prefix (gateway own mtu fw ckr) data k \/
     exists packet, lbl = GwInbound packet k /\ build_icmpv6_ptb packet (rw_mtu (fst st)) = Some data) /\
  (forall buf now, exists r, write_plan prefix (fst st) buf now = Ret r) /\
  (forall packet from_key now, exists r, accept_inbound net_contains prefix (fst st) packet from_key now = Ret r).
Proof.
  intros Hr. assert (Hi : gw_inv (gateway own mtu fw ckr) st) by (eapply gw_reach_inv; [apply gateway_inv|done]).
  split_and!.
  - intros lbl acts st' data k Hs Hin. destruct (gw_step_inv _ _ _ _ _ Hi Hs) as [_ Hacts]. by apply Hacts.
  - intros buf now. destruct (write_plan_spec prefix (fst st) buf now (proj1 Hi)) as (plan & fw' & -> & _). by eexists.
  - intros packet from_key now.
    destruct (accept_inbound_spec net_contains prefix (fst st) packet from_key now (proj1 Hi)) as (? & ? & ? & -> & _).
    by eexists.
Qed.

(** C13: Inbound packets cannot be spoofed. In every reachable state a packet from
    a node is delivered to the TUN device exactly when it fits the MTU, has a
    full header, passes the firewall, is addressed to this node's address or
    subnet, and its source is the address or in the subnet of the key that sent
    it; with crypto-key routing, when the source is the sender's own overlay
    address (if that is enabled) or one the table routes to the sender. *)
Theorem rwc_inbound_exact own mtu fw ckr st packet from_key now :
  gw_reach (gateway own mtu fw ckr, []) st ->
  exists ok acts rw', accept_inbound net_contains prefix (fst st) packet from_key now = Ret (ok, acts, rw') /\
    (ok = true <-> deliverable net_contains prefix (fst st) packet from_key now).
Proof.
  intros Hr. assert (Hi : gw_inv (gateway own mtu fw ckr) st) by (eapply gw_reach_inv; [apply gateway_inv|done]).
  destruct (accept_inbound_spec net_contains prefix (fst st) packet from_key now (proj1 Hi))
    as (ok & acts & rw' & He & _ & _ & _ & Hiff). eauto.
Qed.

(** C24: Two gateways without crypto-key routing agree. Whatever packet the gateway
    of node [a] sends to node [b], at once, after a lookup or when a packet that
    comes in tells it [b]'s key, under any interleaving: either it is the Packet Too
    Big reply to an oversized packet that [b] just sent, or the gateway of [b], in
    whatever state its own tasks have brought it, delivers it when it arrives from
    [a] in a session frame, if it fits [b]'s MTU and [b]'s firewall lets it pass. *)
Theorem rwc_gateways_agree a b mtu_a mtu_b fw_a fw_b sta lbl acts sta' stb data now :
  gw_reach (gateway a mtu_a fw_a None, []) sta -> gw_step sta lbl acts sta' -> WriteTo data b ∈ acts ->
  gw_reach (gateway b mtu_b fw_b None, []) stb ->
  Z.of_nat (length data) <= rw_mtu (fst stb) -> fw_passes net_contains (fst stb) data now ->
  (exists packet, lbl = GwInbound packet b /\ build_icmpv6_ptb packet (rw_mtu (fst sta)) = Some data) \/
  (dispatch_frame (traffic_payload data) = FrameTraffic data /\
   exists acts' rw', accept_inbound net_contains prefix (fst stb) data a now = Ret (true, acts', rw')).
Proof.
  intros Hra Hs Hin Hrb Hmtu Hfw.
  assert (Hia : gw_inv (gateway a mtu_a fw_a None) sta) by (eapply gw_reach_inv; [apply gateway_inv|done]).
  assert (Hib : gw_inv (gateway b mtu_b fw_b None) stb) by (eapply gw_reach_inv; [apply gateway_inv|done]).
  destruct (gw_step_inv _ _ _ _ _ Hia Hs) as [_ Hacts].
  destruct (Hacts data b Hin) as [[(Hv & Hlen & Hsrc) Hdst]|Hptb]; [right; split; [done|]|by left].
  destruct (accept_inbound_spec net_contains prefix (fst stb) data a now (proj1 Hib))
    as (ok & acts' & rw' & He & _ & _ & _ & Hiff).
  rewrite He. exists acts', rw'. do 3 f_equal. apply Hiff. destruct Hib as (_ & (Had & Hsu & Hck) & _).
  unfold deliverable. rewrite Hck, Had, Hsu. cbn. split; [done|]. split; [done|]. split; [done|].
  split; [done|]. split; [exact Hdst|exact Hsrc].
Qed.

(** The key owns the destination a plan waits for. *)
Definition resolves (key : PublicKey) (v : bool) (ip : Address) (s : Subnet) : Prop :=
  if v then addr_for_key prefix key = ip else subnet_for_key prefix key = s.

Definition waiting rw (v : bool) (ip : Address) (s : Subnet) : option BufferedPacket :=
  if v then addr_buffer (rw_buffers rw) !! ip else subnet_buffer (rw_buffers rw) !! s.

(** Learning a key that is not cached. *)
Lemma update_key_new rw key now : key_to_info (rw_lookups rw) !! key = None ->
  exists acts rw', update_key prefix rw key now = (acts, rw') /\
    acts = flush (addr_buffer (rw_buffers rw) !! addr_for_key prefix key) key now ++
           flush (subnet_buffer (rw_buffers rw) !! subnet_for_key prefix key) key now /\
    (exists info, key_to_info (rw_lookups rw') !! key = Some info /\ ki_last_seen info = now) /\
    forall v ip s, resolves key v ip s -> plan_overlay (rw_lookups rw') v ip s = SendTo key.
Proof.
  intros Hk. unfold update_key, store_key. rewrite Hk. eexists _, _. split; [done|]. split; [done|]. split.
  - eexists. cbn. by rewrite lookup_insert_eq.
  - intros v ip s Hr. unfold plan_overlay, resolves in *. cbn. destruct v; subst; by rewrite lookup_insert_eq.
Qed.

Lemma enqueue_waiting rw buf v ip s now acts rw' : enqueue rw buf v ip s now = (acts, rw') ->
  acts = [SendLookup (if v then Address_get_key ip else Subnet_get_key s)] /\
  rw_lookups rw' = rw_lookups rw /\ waiting rw' v ip s = Some (mkBufferedPacket buf now).
Proof.
  unfold enqueue, waiting. destruct v; intros [= <- <-]; cbn; (split; [done|]); (split; [done|]); by rewrite lookup_insert_eq.
Qed.

(** A packet for an unknown destination is not lost: it is buffered while a
    lookup for the destination goes out, and when the key that owns the
    destination is learned within the time limit, the packet is sent to it; later
    packets for that destination go to the key at once. *)
Theorem rwc_lookup_releases rw buf v ip s key now now' res acts rw1 :
  key_to_info (rw_lookups rw) !! key = None -> resolves key v ip s ->
  write_finish rw buf (QueueFor v ip s) now = (res, acts, rw1) -> now <= now' < now + KEY_STORE_TIMEOUT ->
  res = Ok tt /\ acts = [SendLookup (if v then Address_get_key ip else Subnet_get_key s)] /\
  exists acts' rw2, update_key prefix rw1 key now' = (acts', rw2) /\ WriteTo buf key ∈ acts' /\
    plan_overlay (rw_lookups rw2) v ip s = SendTo key.
Proof.
  intros Hk Hr Hf Ht. cbn in Hf. destruct (enqueue rw buf v ip s now) as [a r] eqn:He. injection Hf as <- <- <-.
  destruct (enqueue_waiting _ _ _ _ _ _ _ _ He) as (-> & Hl & Hw). split; [done|]. split; [done|].
  rewrite <- Hl in Hk. destruct (update_key_new r key now' Hk) as (acts' & rw2 & Hu & Ha & _ & Hplan).
  exists acts', rw2. split; [done|]. split; [|by apply Hplan]. rewrite Ha. apply elem_of_app.
  assert (Hfl : flush (Some (mkBufferedPacket buf now)) key now' = [WriteTo buf key]).
  { unfold flush, elapsed. cbn. by rewrite (proj2 (Z.ltb_lt _ _)) by (unfold KEY_STORE_TIMEOUT in *; lia). }
  unfold waiting, resolves in *. destruct v; subst; rewrite Hw, Hfl; [left|right]; by left.
Qed.

(** A write can race with the answer to an earlier lookup: if the key is
    learned after [write] found the destination unknown and before it buffers the
    packet, the packet is left in the buffer, and neither the answer to its own
    lookup nor any packet of the key's node releases it for half the time limit
    (update_key returns early for a fresh key), while later packets for the same
    destination go out at once. *)
Theorem rwc_race_strands_packet rw buf v ip s key now1 now2 now3 acts1 rw1 res acts2 rw2 :
  key_to_info (rw_lookups rw) !! key = None -> resolves key v ip s ->
  update_key prefix rw key now1 = (acts1, rw1) ->
  write_finish rw1 buf (QueueFor v ip s) now2 = (res, acts2, rw2) ->
  now3 < now1 + KEY_STORE_TIMEOUT / 2 ->
  update_key prefix rw2 key now3 = ([], rw2) /\ waiting rw2 v ip s = Some (mkBufferedPacket buf now2) /\
  plan_overlay (rw_lookups rw2) v ip s = SendTo key.
Proof.
  intros Hk Hr Hu Hf Ht. destruct (update_key_new rw key now1 Hk) as (acts' & rw' & Hu' & _ & (info & Hi & Hseen) & Hplan).
  rewrite Hu in Hu'. injection Hu' as <- <-. cbn in Hf. destruct (enqueue rw1 buf v ip s now2) as [a r] eqn:He.
  injection Hf as _ <- <-. destruct (enqueue_waiting _ _ _ _ _ _ _ _ He) as (_ & Hl & Hw). split; [|split; [done|]].
  - unfold update_key, store_key. rewrite Hl, Hi, Hseen. unfold elapsed.
    assert (Hpos : 0 < KEY_STORE_TIMEOUT / 2) by done.
    by rewrite (proj2 (Z.ltb_lt _ _)) by lia.
  - rewrite Hl. by apply Hplan.
Qed.
End Tasks.

(** ** Two example nodes *)

Definition key_a : PublicKey := 1 :: replicate 31 7.
Definition key_b : PublicKey := 3 :: replicate 31 9.
Definition packet_ab : bytes :=
  96 :: replicate 7 0 ++ addr_for_key 2 key_a ++ addr_for_key 2 key_b ++ [1; 2; 3].
Definition gateway_a : Rwc Z := gateway 2 key_a 65535 None None.
Definition gateway_b : Rwc Z := gateway 2 key_b 65535 None None.
Definition contains_none : Z -> bytes -> bool := fun _ _ => false.
Definition plan_ab : WritePlan := QueueFor true (addr_for_key 2 key_b) (take 8 (addr_for_key 2 key_b)).
Definition gateway_a_queued : Rwc Z := snd (write_finish gateway_a packet_ab plan_ab 0).

#[local] Existing Instance id_order.

Lemma example_planned : write_plan 2 gateway_a packet_ab 0 = Ret (plan_ab, gateway_a).
Proof. vm_compute. reflexivity. Qed.

Lemma example_queued : gw_reach contains_none 2 (gateway_a, []) (gateway_a_queued, []).
Proof.
  eapply (gw_trans _ _ _ (gateway_a, [(packet_ab, plan_ab)]) (GwFinish packet_ab)
    (snd (fst (write_finish gateway_a packet_ab plan_ab 0)))).
  - eapply gw_trans; [apply gw_refl|]. apply gw_plan with (now := 0). apply example_planned.
  - apply (gw_finish contains_none 2 gateway_a [] packet_ab plan_ab [] 0
      (fst (fst (write_finish gateway_a packet_ab plan_ab 0)))). vm_compute. reflexivity.
Qed.

(** Node [a] learns the key of [b] and sends the packet. *)
Lemma example_learned :
  gw_step contains_none 2 (gateway_a_queued, []) (GwLearn key_b) (fst (update_key 2 gateway_a_queued key_b 1))
    (snd (update_key 2 gateway_a_queued key_b 1), []) /\
  WriteTo packet_ab key_b ∈ fst (update_key 2 gateway_a_queued key_b 1).
Proof.
  split.
  - apply (gw_learn contains_none 2 gateway_a_queued [] key_b 1). apply surjective_pairing.
  - assert (He : fst (update_key 2 gateway_a_queued key_b 1) = [WriteTo packet_ab key_b]) by (vm_compute; reflexivity).
    rewrite He. by apply list_elem_of_singleton.
Qed.

Lemma rwc_no_leak_witness :
  outbound_ok 2 gateway_a packet_ab key_b \/
  exists packet, GwLearn key_b = GwInbound packet key_b /\
    build_icmpv6_ptb packet (rw_mtu gateway_a_queued) = Some packet_ab.
Proof.
  destruct (rwc_no_leak contains_none 2 key_a 65535 None None (gateway_a_queued, []) example_queued) as (Hleak & _).
  destruct example_learned as [Hs Hin]. exact (Hleak _ _ _ _ _ Hs Hin).
Defined.

Lemma rwc_inbound_exact_witness :
  exists ok acts rw', accept_inbound contains_none 2 gateway_b packet_ab key_a 2 = Ret (ok, acts, rw') /\
    (ok = true <-> deliverable contains_none 2 gateway_b packet_ab key_a 2).
Proof. apply (rwc_inbound_exact contains_none 2 key_b 65535 None None (gateway_b, [])). apply gw_refl. Defined.

Lemma rwc_gateways_agree_witness :
  exists acts' rw', accept_inbound contains_none 2 gateway_b packet_ab key_a 2 = Ret (true, acts', rw').
Proof.
  destruct example_learned as [Hs Hin].
  destruct (rwc_gateways_agree contains_none 2 key_a key_b 65535 65535 None None (gateway_a_queued, []) (GwLearn key_b)
    (fst (update_key 2 gateway_a_queued key_b 1)) (snd (update_key 2 gateway_a_queued key_b 1), [])
    (gateway_b, []) packet_ab 2) as [(packet & Heq & _)|[_ Hacc]].
  - exact example_queued.
  - exact Hs.
  - exact Hin.
  - apply gw_refl.
  - vm_compute. discriminate.
  - exact I.
  - discriminate Heq.
  - exact Hacc.
Defined.

Lemma rwc_lookup_releases_witness :
  exists acts' rw2, update_key 2 gateway_a_queued key_b 1 = (acts', rw2) /\ WriteTo packet_ab key_b ∈ acts'.
Proof.
  destruct (rwc_lookup_releases 2 gateway_a packet_ab true (addr_for_key 2 key_b) (take 8 (addr_for_key 2 key_b)) key_b
    0 1 (fst (fst (write_finish gateway_a packet_ab plan_ab 0))) (snd (fst (write_finish gateway_a packet_ab plan_ab 0)))
    gateway_a_queued) as (_ & _ & acts' & rw2 & Hu & Hin & _).
  - reflexivity.
  - reflexivity.
  - vm_compute. reflexivity.
  - vm_compute. split; [discriminate|reflexivity].
  - exists acts', rw2. split; [exact Hu|exact Hin].
Defined.

Lemma rwc_race_strands_packet_witness :
  let rw1 := snd (update_key 2 gateway_a key_b 1) in
  let rw2 := snd (write_finish rw1 packet_ab plan_ab 2) in
  update_key 2 rw2 key_b 59000000000 = ([], rw2) /\
  waiting rw2 true (addr_for_key 2 key_b) (take 8 (addr_for_key 2 key_b)) = Some (mkBufferedPacket packet_ab 2).
Proof.
  intros rw1 rw2.
  destruct (rwc_race_strands_packet 2 gateway_a packet_ab true (addr_for_key 2 key_b) (take 8 (addr_for_key 2 key_b)) key_b
    1 2 59000000000 (fst (update_key 2 gateway_a key_b 1)) rw1
    (fst (fst (write_finish rw1 packet_ab plan_ab 2))) (snd (fst (write_finish rw1 packet_ab plan_ab 2))) rw2)
    as (Hu & Hw & _).
  - reflexivity.
  - reflexivity.
  - vm_compute. reflexivity.
  - vm_compute. reflexivity.
  - vm_compute. reflexivity.
  - split; [exact Hu|exact Hw].
Defined.
