(* ===== verification/Conn.v ===== *)
(** * Conn: the packet connections

    Models the front ends of ironwood: [PacketConnImpl] of [core.rs] (closed and
    size checks, the MTU, the guards of [handle_conn]), [EncryptedPacketConn] of
    [encrypted/mod.rs] (sessions over it, the keepalive list and its timer, the
    reader loop) and [SignedPacketConn] of [signed.rs]. Messages for the router
    and packets for the readers are returned in order; channels and tasks are
    outside the model. *)

From S2P Require Import Prelude.
From S2P Require Import Wire.
From S2P Require Import Traffic.
From S2P Require Import Crypto.
From S2P Require Import Tree.
From S2P Require Import Router.
From S2P Require Import Actor.
From S2P Require Import Session.
From stdpp Require Import options.
Open Scope Z_scope.

(** ** The keepalive list

    The most recently used key is last. *)

Record RemoteKeepaliveLru := mkLru { lru_capacity : nat; lru_order : list PublicKey }.

Definition Lru_new (capacity : nat) : RemoteKeepaliveLru := mkLru capacity [].

(** [VecDeque::position] and [remove]. *)
Fixpoint remove_first (key : PublicKey) (order : list PublicKey) : list PublicKey :=
  match order with
  | [] => []
  | k :: order => if decide (k = key) then order else k :: remove_first key order
  end.

Definition lru_touch (l : RemoteKeepaliveLru) (key : PublicKey) : RemoteKeepaliveLru :=
  if (lru_capacity l =? 0)%nat then l
  else
    let order := remove_first key (lru_order l) ++ [key] in
    mkLru (lru_capacity l) (drop (length order - lru_capacity l) order).

Definition lru_keys (l : RemoteKeepaliveLru) : list PublicKey := lru_order l.

Section Conn.
Context `{Dalek} `{!CryptoBox}.

(** ** PacketConnImpl *)

Record PacketConn := mkPacketConn { pc_closed : bool; pc_pub_key : PublicKey; pc_max_message_size : Z }.

Definition conn_mtu (max_message_size : Z) : Z :=
  let traffic := mkTraffic [] [] (replicate 32 0) (replicate 32 0) U64_MAX [] in
  let overhead := (Traffic_size traffic + 1)%nat in
  sat_sub64 max_message_size (Z.of_nat overhead).

(** [write_to] and [write_keepalive]: the message for the router. *)
Definition conn_write (keepalive : bool) (c : PacketConn) (buf : bytes) (addr : PublicKey)
    : result Error (nat * list RouterMsg) :=
  if pc_closed c then Err Closed
  else if conn_mtu (pc_max_message_size c) <? Z.of_nat (length buf) then Err OversizedMessage
  else
    let traffic := TrafficPacket_new (pc_pub_key c) addr buf in
    let traffic := if keepalive then TrafficPacket_keepalive traffic else traffic in
    Ok (length buf, [MsgSendTraffic traffic]).

Definition conn_write_to := conn_write false.
Definition conn_write_keepalive := conn_write true.

(** The packet a reader gets is cut to the buffer. *)
Definition conn_read (buf_len : nat) (traffic : TrafficPacket) : bytes * PublicKey :=
  (take (buf_len `min` length (tp_payload traffic)) (tp_payload traffic), tp_source traffic).

Definition conn_send_lookup (c : PacketConn) (target : PublicKey) : list RouterMsg :=
  if pc_closed c then [] else [MsgSendLookup (pc_pub_key c) target].

(** The checks of [handle_conn_with_id] before a link is set up. *)
Definition handle_conn_guard (c : PacketConn) (peer_key : PublicKey) : result Error unit :=
  if pc_closed c then Err Closed
  else if bool_decide (peer_key = pc_pub_key c) then Err BadKey
  else if negb (is_public_key_valid peer_key) then Err BadKey
  else Ok tt.

Definition conn_close (c : PacketConn) : result Error PacketConn :=
  if pc_closed c then Err Closed else Ok (mkPacketConn true (pc_pub_key c) (pc_max_message_size c)).

(** ** EncryptedPacketConn *)

Record EncryptedConn := mkEncryptedConn {
  ec_inner : PacketConn;
  ec_signing_key : SigningKey;
  ec_sessions : SessionManager;
  ec_closed : bool;
  ec_lru : RemoteKeepaliveLru
}.

#[export] Instance EncryptedConn_eta : Settable EncryptedConn := fun c =>
  mkEncryptedConn (ec_inner c) (ec_signing_key c) (ec_sessions c) (ec_closed c) (ec_lru c).

Definition enc_mtu (max_message_size : Z) : Z :=
  sat_sub64 (conn_mtu max_message_size) (Z.of_nat SESSION_TRAFFIC_OVERHEAD).

(** What a connection does: messages for the router and packets for readers. *)
Inductive ConnOut := ToRouter (msg : RouterMsg) | ToReader (source : PublicKey) (data : bytes).

(** The loop over actions with [?]: the first failed write ends it. *)
Fixpoint run_actions (c : PacketConn) (actions : list OutAction) : list ConnOut * option Error :=
  match actions with
  | [] => ([], None)
  | SendToInner dest data :: actions =>
      match conn_write_to c data dest with
      | Err e => ([], Some e)
      | Ok (_, msgs) => let '(out, e) := run_actions c actions in (map ToRouter msgs ++ out, e)
      end
  | Deliver source data :: actions =>
      let '(out, e) := run_actions c actions in (ToReader source data :: out, e)
  end.

Definition enc_write_to (c : EncryptedConn) (buf : bytes) (dest : PublicKey) (now unix : Z)
    : result Error nat * list ConnOut * EncryptedConn :=
  if ec_closed c then (Err Closed, [], c)
  else if enc_mtu (pc_max_message_size (ec_inner c)) <? Z.of_nat (length buf) then (Err OversizedMessage, [], c)
  else
    let our_key := sk_verifying_key_bytes (ec_signing_key c) in
    let lru := if negb (bool_decide (buf = [])) && negb (bool_decide (dest = our_key))
               then lru_touch (ec_lru c) dest else ec_lru c in
    let '(actions, sessions) := write_to (ec_sessions c) dest buf (ec_signing_key c) now unix in
    let c := c <| ec_lru := lru |> <| ec_sessions := sessions |> in
    let '(out, e) := run_actions (ec_inner c) actions in
    (match e with Some e => Err e | None => Ok (length buf) end, out, c).

(** The actions of background tasks; failed writes are ignored. *)
Definition action_out (keepalive : bool) (c : PacketConn) (action : OutAction) : list ConnOut :=
  match action with
  | SendToInner dest data =>
      match conn_write keepalive c data dest with Ok (_, msgs) => map ToRouter msgs | Err _ => [] end
  | Deliver source data => [ToReader source data]
  end.

(** One packet in [encrypted_reader_loop]. *)
Definition enc_receive (c : EncryptedConn) (from_key : PublicKey) (data : bytes) (now unix : Z)
    : list ConnOut * EncryptedConn :=
  let curve_priv := ed25519_private_to_curve25519 (ec_signing_key c) in
  let '(actions, sessions) := handle_data (ec_sessions c) from_key data curve_priv (ec_signing_key c) now unix in
  (actions ≫= action_out false (ec_inner c), c <| ec_sessions := sessions |>).

(** [remote] selects the probe that is answered. *)
Definition keepalive_send_if_session (c : EncryptedConn) (key : PublicKey) (remote : bool) (now unix : Z)
    : list ConnOut * EncryptedConn :=
  if negb (has_session (ec_sessions c) key) then ([], c)
  else
    let payload := if remote then KEEPALIVE_PROBE else [] in
    let '(actions, sessions) := write_to (ec_sessions c) key payload (ec_signing_key c) now unix in
    let send a := match a with Deliver _ _ => [] | a => action_out remote (ec_inner c) a end in
    (actions ≫= send, c <| ec_sessions := sessions |>).

Fixpoint keepalive_all (c : EncryptedConn) (keys : list PublicKey) (remote : bool) (now unix : Z)
    : list ConnOut * EncryptedConn :=
  match keys with
  | [] => ([], c)
  | key :: keys =>
      let '(out, c) := keepalive_send_if_session c key remote now unix in
      let '(out', c) := keepalive_all c keys remote now unix in
      (out ++ out', c)
  end.

(** One tick of [keepalive_loop]; [direct_keys] is the set of connected peers. *)
Definition keepalive_tick `{HashOrder} (c : EncryptedConn) (keepalive_direct : bool) (direct_keys : gset PublicKey)
    (now unix : Z) : list ConnOut * EncryptedConn :=
  let '(out, c) :=
    if keepalive_direct then keepalive_all c (set_iter direct_keys) false now unix else ([], c) in
  let '(out', c) := keepalive_all c (lru_keys (ec_lru c)) true now unix in
  (out ++ out', c).

(** ** SignedPacketConn *)

Definition signed_sign (signing_key : SigningKey) (to_key : PublicKey) (msg : bytes) : bytes :=
  sign_with_key signing_key (to_key ++ msg) ++ msg.

Definition signed_unpack (our_pub : PublicKey) (bs : bytes) (from_key : PublicKey) : option bytes :=
  if (length bs <? SIGNATURE_SIZE)%nat then None
  else
    let sig := take SIGNATURE_SIZE bs in
    let msg := drop SIGNATURE_SIZE bs in
    if verify from_key (our_pub ++ msg) sig then Some msg else None.

Definition signed_mtu (max_message_size : Z) : Z := sat_sub64 (conn_mtu max_message_size) (Z.of_nat SIGNATURE_SIZE).

Definition signed_write_to (closed : bool) (c : PacketConn) (signing_key : SigningKey) (buf : bytes) (dest : PublicKey)
    : result Error (nat * list RouterMsg) :=
  if closed then Err Closed
  else if signed_mtu (pc_max_message_size c) <? Z.of_nat (length buf) then Err OversizedMessage
  else
    '(_, msgs) ← conn_write_to c (signed_sign signing_key dest buf) dest;
    Ok (length buf, msgs).

(** One packet in [signed_reader_loop]. *)
Definition signed_receive (our_pub : PublicKey) (data : bytes) (from_key : PublicKey) : list (PublicKey * bytes) :=
  match signed_unpack our_pub data from_key with Some msg => [(from_key, msg)] | None => [] end.
End Conn.
