(* ===== verification/ConnFacts.v ===== *)
(** * ConnFacts: what the packet connections guarantee

    The keepalive list holds the most recently used keys; sizes that pass the
    MTU check of a connection pass those of the layers below and fit a frame;
    keepalives never open sessions; signed packets are authenticated. *)

From S2P Require Import Prelude.
From S2P Require Import Wire.
From S2P Require Import Traffic.
From S2P Require Import Crypto.
From S2P Require Import Actor.
From S2P Require Import Session.
From S2P Require Import SessionFacts.
From S2P Require Import Conn.
From stdpp Require Import options.
Open Scope Z_scope.

(** ** The keepalive list *)

(** The last [n] elements. *)
Definition lastn {A} (n : nat) (l : list A) : list A := drop (length l - n) l.

Lemma remove_first_notin k l : k ∉ l -> remove_first k l = l.
Proof.
  induction l as [|x l IH]; cbn; [done|]. intros Hk. apply not_elem_of_cons in Hk as [? ?].
  rewrite decide_False by congruence. by rewrite IH.
Qed.

Lemma remove_first_app_l k l l' : k ∈ l -> remove_first k (l ++ l') = remove_first k l ++ l'.
Proof.
  induction l as [|x l IH]; cbn; [by intros ?%not_elem_of_nil|]. intros Hk.
  destruct (decide (x = k)); [done|]. apply elem_of_cons in Hk as [?|?]; [congruence|]. by rewrite IH.
Qed.

Lemma remove_first_app_r k l l' : k ∉ l -> remove_first k (l ++ l') = l ++ remove_first k l'.
Proof.
  induction l as [|x l IH]; cbn; [done|]. intros Hk. apply not_elem_of_cons in Hk as [? ?].
  rewrite decide_False by congruence. by rewrite IH.
Qed.

Lemma remove_first_length k l : k ∈ l -> S (length (remove_first k l)) = length l.
Proof.
  induction l as [|x l IH]; cbn; [by intros ?%not_elem_of_nil|]. intros Hk.
  destruct (decide (x = k)); [done|]. apply elem_of_cons in Hk as [?|?]; [congruence|]. cbn. by rewrite IH.
Qed.

Lemma remove_dups_cons (x : PublicKey) l : remove_dups (x :: l) = if decide (x ∈ l) then remove_dups l else x :: remove_dups l.
Proof. done. Qed.

(** [remove_dups] keeps the last occurrence of each key. *)
Lemma remove_dups_snoc (ks : list PublicKey) k :
  remove_dups (ks ++ [k]) = remove_first k (remove_dups ks) ++ [k].
Proof.
  induction ks as [|x ks IH]; cbn [app]; [done|]. rewrite !remove_dups_cons.
  destruct (decide (x = k)) as [->|Hne].
  - rewrite decide_True by set_solver. rewrite IH. f_equal. destruct (decide (k ∈ ks)) as [Hin|Hin].
    + done.
    + cbn. rewrite decide_True by done. apply remove_first_notin. by rewrite elem_of_remove_dups.
  - destruct (decide (x ∈ ks)) as [Hin|Hin].
    + rewrite decide_True by set_solver. done.
    + rewrite decide_False by set_solver. cbn. rewrite decide_False by done. by rewrite IH.
Qed.

(** Cutting before or after a key is moved to the end is the same. *)
Lemma lastn_touch n (l : list PublicKey) k : NoDup l -> (0 < n)%nat ->
  lastn n (remove_first k (lastn n l) ++ [k]) = lastn n (remove_first k l ++ [k]).
Proof.
  intros Hnd Hn. unfold lastn. destruct (decide (length l <= n)%nat).
  { by replace (length l - n)%nat with 0%nat by lia. }
  set (p := take (length l - n) l). set (s := drop (length l - n) l).
  assert (Hps : l = p ++ s) by (symmetry; apply take_drop).
  replace (remove_first k l) with (remove_first k (p ++ s)) by congruence. rewrite Hps in Hnd.
  assert (Hs : length s = n) by (unfold s; rewrite length_drop; lia).
  assert (Hp : (0 < length p)%nat) by (unfold p; rewrite length_take; lia).
  apply NoDup_app in Hnd as (_ & Hdisj & _). destruct (decide (k ∈ s)) as [Hin|Hin].
  - rewrite remove_first_app_r by (intros ?; by eapply Hdisj). rewrite <- app_assoc.
    pose proof (remove_first_length k s Hin) as Hl. rewrite !length_app. cbn [length].
    replace (length (remove_first k s) + 1 - n)%nat with 0%nat by lia.
    replace (length p + (length (remove_first k s) + 1) - n)%nat with (length p) by lia.
    by rewrite drop_app_length.
  - rewrite (remove_first_notin k s) by done. rewrite length_app, Hs. cbn [length].
    destruct (decide (k ∈ p)) as [Hp'|Hp'].
    + rewrite remove_first_app_l by done. pose proof (remove_first_length k p Hp').
      rewrite <- app_assoc, length_app, length_app, Hs. cbn [length].
      rewrite (drop_app_ge (remove_first k p)) by lia. f_equal. lia.
    + rewrite remove_first_notin by (rewrite elem_of_app; tauto).
      rewrite <- app_assoc, length_app, length_app, Hs. cbn [length].
      rewrite (drop_app_ge p) by lia. f_equal. lia.
Qed.

(** The keepalive list is exact: after any sequence of writes it holds the
    most recently used distinct destinations, at most its capacity of them, in
    the order of their last use (none for capacity 0). *)
Theorem lru_recency capacity ks :
  lru_keys (foldl lru_touch (Lru_new capacity) ks) = lastn capacity (remove_dups ks).
Proof.
  unfold lru_keys. assert (Hboth : lru_capacity (foldl lru_touch (Lru_new capacity) ks) = capacity /\
    lru_order (foldl lru_touch (Lru_new capacity) ks) = lastn capacity (remove_dups ks)); [|apply Hboth].
  induction ks as [|k ks [IHc IHo]] using rev_ind; [done|].
  rewrite foldl_snoc. set (l := foldl lru_touch (Lru_new capacity) ks) in *. unfold lru_touch. rewrite IHc.
  destruct (Nat.eqb_spec capacity 0) as [->|Hne].
  - split; [done|]. rewrite IHo. unfold lastn. by rewrite !Nat.sub_0_r, !drop_all.
  - split; [done|]. cbn [lru_order]. rewrite IHo, remove_dups_snoc. apply (lastn_touch capacity); [apply NoDup_remove_dups|lia].
Qed.

Section Facts.
Context `{DK : Dalek} `{CB : !CryptoBox} `{BL : !BoxLaws} `{DL : !DalekLaws}.

(** ** Sizes *)

(** The fields whose size a traffic message depends on. *)
Definition session_ok (s : SessionInfo) : Prop :=
  is_u64 (si_local_key_seq s) /\ is_u64 (si_remote_key_seq s) /\ is_u64 (si_send_nonce s) /\
  length (si_next_pub s) = 32%nat.

Definition manager_ok (m : SessionManager) : Prop :=
  (forall k s, sm_sessions m !! k = Some s -> session_ok s) /\
  (forall k b, sm_buffers m !! k = Some b -> SessionInit_wf (sb_init b)).

Lemma send_snapshot_ok s rng : session_ok s -> snapshot_wf (send_snapshot s rng).1.1.
Proof using BL.
  intros (Hl & Hr & Hn & Hk). unfold send_snapshot. destruct (_ =? 0); [|by split_and!; [..|apply wrap64_is_u64|]].
  rewrite rotate_local_eq. cbv zeta iota beta. unfold snapshot_wf, fix_shared. cbn.
  split_and!; [apply wrap64_is_u64|done|unfold is_u64; lia|apply box_public_wf].
Qed.

(** A sealed message is at most [SESSION_TRAFFIC_OVERHEAD] longer. *)
Lemma sealed_length snap msg data : snapshot_wf snap -> encrypt_outside_lock snap msg = Ok data ->
  (length data <= length msg + SESSION_TRAFFIC_OVERHEAD)%nat /\ hd_error data = Some SESSION_TYPE_TRAFFIC.
Proof using BL.
  intros Hw He. destruct (encrypt_outside_lock_ok snap msg Hw) as (c & Hc & Hlen & _).
  rewrite Hc in He. assert (data = traffic_header (ss_local_key_seq snap) (ss_remote_key_seq snap) (ss_send_nonce snap) ++ c)
    as -> by congruence. destruct Hw as (Hl & Hr & Hn & _). split; [|done].
  pose proof (traffic_header_length _ _ _ Hl Hr Hn). rewrite length_app, Hlen.
  change SESSION_TRAFFIC_OVERHEAD with 79%nat. change BOX_OVERHEAD with 16%nat. lia.
Qed.

Lemma handshake_length i sk to msg_type pre rng data rng' : SessionInit_wf i ->
  SessionInit_encrypt i sk to msg_type pre rng = (Ok data, rng') -> length data = SESSION_INIT_SIZE.
Proof using BL DL.
  intros Hi. unfold SessionInit_encrypt, new_box_keys. cbv iota.
  destruct (ed25519_public_to_curve25519 to) as [p|]; cbn [ok_or]; [|done]. rewrite bind_ok. rewrite sign_bytes_eq.
  unfold box_seal. destruct (box_encrypts (make_salsa_box p (os_rng rng)) (nonce_for_u64 0)
    (sk_sign sk (pre ++ box_public_key (os_rng rng) ++ init_fields i) ++ init_fields i) (nonce_length 0))
    as (c & Hc & Hlen & _).
  rewrite Hc. cbn [ok_or]. rewrite bind_ok. intros [= <- _]. cbn [length app].
  rewrite length_app, Hlen, length_app, (init_fields_length i Hi).
  rewrite (proj1 (signed_length sk _)), (proj1 (box_public_wf (os_rng rng))). done.
Qed.

(** Only one message leaves the session layer per write, and its size. *)
Lemma write_to_actions m dest buf sk now unix : manager_ok m -> is_u64 unix ->
  match (write_to m dest buf sk now unix).1 with
  | [] => True
  | [SendToInner d data] =>
      d = dest /\ (length data <= (length buf + SESSION_TRAFFIC_OVERHEAD) `max` SESSION_INIT_SIZE)%nat
  | _ => False
  end.
Proof using BL DL.
  intros [Hs Hb] Hu. unfold write_to. destruct (sm_sessions m !! dest) as [info|] eqn:Hi.
  - pose proof (send_snapshot_ok info (sm_rng m) (Hs _ _ Hi)) as Hw.
    destruct (send_snapshot info (sm_rng m)) as [[snap info'] rng]. cbn [fst] in Hw.
    destruct (encrypt_outside_lock snap buf) as [data|] eqn:He; cbn [fst]; [|done]. split; [done|].
    destruct (sealed_length _ _ _ Hw He) as [? _]. lia.
  - unfold buffer_and_init.
    set (p := match sm_buffers m !! dest with Some buf => _ | None => _ end).
    assert (Hp : SessionInit_wf (sb_init p.1)).
    { unfold p. destruct (sm_buffers m !! dest) as [b|] eqn:Hd; [by apply (Hb _ _ Hd)|].
      split; [apply box_public_wf|]. split; [apply box_public_wf|]. split; [done|exact Hu]. }
    destruct p as [b rng]. cbn [fst] in Hp. unfold send_handshake.
    destruct (SessionInit_encrypt _ _ _ _ _ _) as [[data|] rng'] eqn:He; cbn [fst]; [|done]. split; [done|].
    apply handshake_length in He; [|done]. lia.
Qed.

Lemma conn_mtu_eq max : conn_mtu max = Z.max (max - 77) 0.
Proof. reflexivity. Qed.

Lemma frame_fits max source dest w data : is_u64 w -> 0 < conn_mtu max -> Z.of_nat (length data) <= conn_mtu max ->
  1 + Z.of_nat (Traffic_size (mkTraffic [] [] source dest w data)) <= max.
Proof.
  intros Hw Hpos Hlen. rewrite conn_mtu_eq in *. unfold Traffic_size. cbn [tr_path tr_from tr_watermark tr_payload].
  rewrite (uvarint_size_eq w Hw). pose proof (leb_length w Hw).
  change (path_size []) with 1%nat. change PUBLIC_KEY_SIZE with 32%nat. lia.
Qed.

Lemma run_single c dest data : pc_closed c = false -> Z.of_nat (length data) <= conn_mtu (pc_max_message_size c) ->
  run_actions c [SendToInner dest data] =
    ([ToRouter (MsgSendTraffic (TrafficPacket_new (pc_pub_key c) dest data))], None).
Proof.
  intros Hc Hlen. cbn [run_actions]. unfold conn_write_to, conn_write. rewrite Hc.
  destruct (Z.ltb_spec (conn_mtu (pc_max_message_size c)) (Z.of_nat (length data))); [lia|done].
Qed.

(** The size checks of the layers agree. An open connection accepts a message
    exactly when it is within the encrypted MTU; then the write succeeds (no inner
    layer finds the sealed message or the handshake too long), sends at most one
    packet, to the destination, and a frame with it and empty paths is within the
    message size that links accept, whatever its watermark. *)
Theorem enc_write_exact c buf dest now unix :
  let max := pc_max_message_size (ec_inner c) in
  manager_ok (ec_sessions c) -> is_u64 unix -> pc_closed (ec_inner c) = false ->
  Z.of_nat SESSION_INIT_SIZE <= conn_mtu max ->
  exists out c', enc_write_to c buf dest now unix =
      (if ec_closed c then Err Closed
       else if enc_mtu max <? Z.of_nat (length buf) then Err OversizedMessage else Ok (length buf), out, c') /\
    (length out <= 1)%nat /\
    forall o, o ∈ out -> exists data, o = ToRouter (MsgSendTraffic (TrafficPacket_new (pc_pub_key (ec_inner c)) dest data)) /\
      forall w, is_u64 w -> 1 + Z.of_nat (Traffic_size (mkTraffic [] [] (pc_pub_key (ec_inner c)) dest w data)) <= max.
Proof using BL DL.
  intros max Hm Hu Hc Hinit. unfold enc_write_to. fold max.
  assert (Hnone : forall o : ConnOut, o ∈ [] -> exists data, o = ToRouter (MsgSendTraffic (TrafficPacket_new (pc_pub_key (ec_inner c)) dest data)) /\
      forall w, is_u64 w -> 1 + Z.of_nat (Traffic_size (mkTraffic [] [] (pc_pub_key (ec_inner c)) dest w data)) <= max)
    by (intros o Ho; by apply not_elem_of_nil in Ho).
  destruct (ec_closed c); [exists [], c; split_and!; [done|cbn; lia|done]|].
  destruct (Z.ltb_spec (enc_mtu max) (Z.of_nat (length buf))) as [|Hfit]; [exists [], c; split_and!; [done|cbn; lia|done]|].
  pose proof (write_to_actions (ec_sessions c) dest buf (ec_signing_key c) now unix Hm Hu) as Ha.
  destruct (write_to _ _ _ _ _ _) as [acts sess]. cbn [fst] in Ha. cbn [ec_inner set_field].
  destruct acts as [|[d data|] [|]]; try done.
  - eexists [], _. split; [done|]. split; [cbn; lia|done].
  - destruct Ha as [-> Hlen].
    assert (Hd : Z.of_nat (length data) <= conn_mtu max).
    { unfold enc_mtu, sat_sub64 in Hfit. change (Z.of_nat SESSION_TRAFFIC_OVERHEAD) with 79 in Hfit.
      change SESSION_TRAFFIC_OVERHEAD with 79%nat in Hlen. change SESSION_INIT_SIZE with 193%nat in *. lia. }
    rewrite (run_single (ec_inner c) dest data Hc Hd).
    eexists [_], _. split; [done|]. split; [cbn; lia|].
    intros o ->%list_elem_of_singleton. exists data. split; [done|]. intros w Hw.
    apply frame_fits; [done|change SESSION_INIT_SIZE with 193%nat in *; lia|done].
Qed.

(** ** Keepalives *)

Lemma send_snapshot_keeps s rng : session_ok s -> session_ok (send_snapshot s rng).1.2.
Proof using BL.
  intros (Hl & Hr & Hn & Hk). unfold send_snapshot. destruct (_ =? 0); [|by split_and!; [..|apply wrap64_is_u64|]].
  rewrite rotate_local_eq. cbv zeta iota beta. unfold session_ok, fix_shared. cbn.
  split_and!; [apply wrap64_is_u64|done|unfold is_u64; lia|apply box_public_wf].
Qed.

(** A write in an open session: one traffic message, and which sessions exist
    and what is buffered do not change. *)
Lemma write_to_session m dest buf sk now unix : manager_ok m -> is_Some (sm_sessions m !! dest) ->
  exists data m', write_to m dest buf sk now unix = ([SendToInner dest data], m') /\
    (length data <= length buf + SESSION_TRAFFIC_OVERHEAD)%nat /\ hd_error data = Some SESSION_TYPE_TRAFFIC /\
    manager_ok m' /\ sm_buffers m' = sm_buffers m /\
    forall k, is_Some (sm_sessions m' !! k) <-> is_Some (sm_sessions m !! k).
Proof using BL.
  intros [Hs Hb] [info Hi]. unfold write_to. rewrite Hi.
  pose proof (send_snapshot_ok info (sm_rng m) (Hs _ _ Hi)) as Hw.
  pose proof (send_snapshot_keeps info (sm_rng m) (Hs _ _ Hi)) as Hk.
  destruct (send_snapshot info (sm_rng m)) as [[snap info'] rng]. cbn [fst snd] in *.
  destruct (encrypt_outside_lock_ok snap buf Hw) as (ct & He & _). rewrite He.
  destruct (sealed_length _ _ _ Hw He) as [Hlen Hhd]. eexists _, _. do 3 (split; [done|]). split; [|split; [done|]].
  - split; [|done]. cbn. intros k s' [[<- <-]|[Hne Hk']]%lookup_insert_Some; [done|].
    rewrite lookup_insert_ne in Hk' by done. by apply (Hs k).
  - cbn. intros k. rewrite !lookup_insert. by case_decide; subst.
Qed.

(** What a connection sent: destination, flag and type of the packet. *)
Definition out_info (o : ConnOut) : option (PublicKey * bool * option Z) :=
  match o with
  | ToRouter (MsgSendTraffic t) => Some (tp_dest t, tp_keepalive t, hd_error (tp_payload t))
  | _ => None
  end.

(** The part of the state the keepalive timer leaves alone. *)
Definition keepalive_frame (c c' : EncryptedConn) : Prop :=
  ec_inner c' = ec_inner c /\ ec_lru c' = ec_lru c /\ manager_ok (ec_sessions c') /\
  sm_buffers (ec_sessions c') = sm_buffers (ec_sessions c) /\
  forall k, has_session (ec_sessions c') k = has_session (ec_sessions c) k.

Lemma has_session_iff m m' k : (is_Some (sm_sessions m' !! k) <-> is_Some (sm_sessions m !! k)) ->
  has_session m' k = has_session m k.
Proof. intros Hiff. unfold has_session. by apply bool_decide_ext. Qed.

Lemma keepalive_one c key remote now unix : manager_ok (ec_sessions c) -> pc_closed (ec_inner c) = false ->
  Z.of_nat SESSION_INIT_SIZE <= conn_mtu (pc_max_message_size (ec_inner c)) ->
  exists out c', keepalive_send_if_session c key remote now unix = (out, c') /\ keepalive_frame c c' /\
    map out_info out = if has_session (ec_sessions c) key then [Some (key, remote, Some SESSION_TYPE_TRAFFIC)] else [].
Proof using BL.
  intros Hm Hc Hmtu. unfold keepalive_send_if_session. destruct (has_session (ec_sessions c) key) eqn:Hh; cbn [negb].
  2: { exists [], c. split; [done|]. split; [|done]. done. }
  apply bool_decide_eq_true in Hh.
  destruct (write_to_session (ec_sessions c) key (if remote then KEEPALIVE_PROBE else []) (ec_signing_key c) now unix Hm Hh)
    as (data & m' & -> & Hlen & Hhd & Hm' & Hbuf & Hsess).
  eexists _, _. split; [done|]. split; [split_and!; try done; intros k; by apply has_session_iff|].
  cbn [mbind list_bind app]. unfold action_out, conn_write. rewrite Hc.
  destruct (Z.ltb_spec (conn_mtu (pc_max_message_size (ec_inner c))) (Z.of_nat (length data))) as [Hbig|_].
  { change SESSION_TRAFFIC_OVERHEAD with 79%nat in Hlen. change SESSION_INIT_SIZE with 193%nat in Hmtu.
    assert (length (if remote then KEEPALIVE_PROBE else []) <= 7)%nat by (destruct remote; cbn; lia). lia. }
  rewrite app_nil_r. destruct remote; cbn; by rewrite Hhd.
Qed.

Lemma keepalive_all_spec keys c remote now unix : manager_ok (ec_sessions c) -> pc_closed (ec_inner c) = false ->
  Z.of_nat SESSION_INIT_SIZE <= conn_mtu (pc_max_message_size (ec_inner c)) ->
  exists out c', keepalive_all c keys remote now unix = (out, c') /\ keepalive_frame c c' /\
    map out_info out = map (fun k => Some (k, remote, Some SESSION_TYPE_TRAFFIC))
      (filter (fun k => has_session (ec_sessions c) k = true) keys).
Proof using BL.
  intros Hm Hc Hmtu. revert c Hm Hc Hmtu. induction keys as [|k keys IH]; intros c Hm Hc Hmtu; cbn [keepalive_all].
  { exists [], c. done. }
  destruct (keepalive_one c k remote now unix Hm Hc Hmtu) as (out & c1 & -> & (Hin & Hlru & Hm1 & Hb1 & Hs1) & Hout).
  destruct (IH c1 Hm1) as (out' & c2 & -> & (Hin2 & Hlru2 & Hm2 & Hb2 & Hs2) & Hout'); [by rewrite Hin..|].
  exists (out ++ out'), c2. split; [done|]. split; [split_and!; try congruence; intros; by rewrite Hs2|].
  rewrite map_app, Hout, Hout', filter_cons.
  rewrite (list_filter_iff (fun k' => has_session (ec_sessions c1) k' = true)
    (fun k' => has_session (ec_sessions c) k' = true)) by (intros; by rewrite Hs1).
  destruct (has_session (ec_sessions c) k); done.
Qed.

(** A keepalive tick sends exactly one sealed packet to every connected peer
    (if that is enabled) and then to every key of the list, in order, that has an
    open session, and nothing to keys without one: it never starts a handshake,
    buffers nothing and opens no session. Only packets for listed keys carry the
    keepalive mark. *)
Theorem keepalive_exact `{HashOrder} c direct peers now unix :
  manager_ok (ec_sessions c) -> pc_closed (ec_inner c) = false ->
  Z.of_nat SESSION_INIT_SIZE <= conn_mtu (pc_max_message_size (ec_inner c)) ->
  exists out c', keepalive_tick c direct peers now unix = (out, c') /\ keepalive_frame c c' /\
    let open_keys := filter (fun k => has_session (ec_sessions c) k = true) in
    map out_info out =
      map (fun k => Some (k, false, Some SESSION_TYPE_TRAFFIC)) (open_keys (if direct then set_iter peers else [])) ++
      map (fun k => Some (k, true, Some SESSION_TYPE_TRAFFIC)) (open_keys (lru_keys (ec_lru c))).
Proof using BL.
  intros Hm Hc Hmtu. unfold keepalive_tick.
  assert (Hd : exists out c', (if direct then keepalive_all c (set_iter peers) false now unix else ([], c)) = (out, c') /\
    keepalive_frame c c' /\ map out_info out = map (fun k => Some (k, false, Some SESSION_TYPE_TRAFFIC))
      (filter (fun k => has_session (ec_sessions c) k = true) (if direct then set_iter peers else []))).
  { destruct direct; [by apply keepalive_all_spec|]. by exists [], c. }
  destruct Hd as (out & c1 & -> & (Hin & Hlru & Hm1 & Hb1 & Hs1) & Hout).
  destruct (keepalive_all_spec (lru_keys (ec_lru c1)) c1 true now unix Hm1)
    as (out' & c2 & -> & (Hin2 & Hlru2 & Hm2 & Hb2 & Hs2) & Hout'); [by rewrite Hin..|].
  exists (out ++ out'), c2. split; [done|]. split; [split_and!; try congruence; intros; by rewrite Hs2|].
  cbv zeta. rewrite map_app, Hout, Hout', Hlru. f_equal. f_equal. apply list_filter_iff. intros k. by rewrite Hs1.
Qed.

(** ** Signed packets *)

(** Signed connections deliver exactly authenticated packets: what one node
    signs for another is delivered there unchanged and attributed to the signer,
    within the size the inner connection accepts; a reader delivers a packet only
    if it carries a signature of the sender's key over this node's key and the
    message, so a packet signed for another node is not accepted unless the
    signature also verifies for this one. *)
Theorem signed_exact (ska : SigningKey) (b : PublicKey) c msg :
  signed_receive b (signed_sign ska b msg) (sk_verifying_key_bytes ska) = [(sk_verifying_key_bytes ska, msg)] /\
  (pc_closed c = false -> 0 < signed_mtu (pc_max_message_size c) ->
   signed_write_to false c ska msg b =
     if signed_mtu (pc_max_message_size c) <? Z.of_nat (length msg) then Err OversizedMessage
     else Ok (length msg, [MsgSendTraffic (TrafficPacket_new (pc_pub_key c) b (signed_sign ska b msg))])) /\
  (forall data from m, signed_receive b data from = m ->
     m = [] \/ (m = [(from, drop 64 data)] /\ (64 <= length data)%nat /\
               verify from (b ++ drop 64 data) (take 64 data) = true)).
Proof using DL.
  assert (Hsig : forall m', length (sign_with_key ska m') = SIGNATURE_SIZE) by (intros; apply signed_length).
  split_and!.
  - unfold signed_receive, signed_unpack, signed_sign.
    destruct (Nat.ltb_spec (length (sign_with_key ska (b ++ msg) ++ msg)) SIGNATURE_SIZE) as [Hlt|_].
    { rewrite length_app, Hsig in Hlt. lia. }
    rewrite take_app_exact, drop_app_exact by apply Hsig.
    pose proof (verify_sign (Crypto_new ska) (b ++ msg) eq_refl) as Hv. cbn in Hv.
    unfold sign_with_key. unfold sign in Hv. cbn in Hv. by rewrite Hv.
  - intros Hc Hpos. unfold signed_write_to.
    destruct (Z.ltb_spec (signed_mtu (pc_max_message_size c)) (Z.of_nat (length msg))) as [|Hfit]; [done|].
    unfold conn_write_to, conn_write. rewrite Hc.
    destruct (Z.ltb_spec (conn_mtu (pc_max_message_size c)) (Z.of_nat (length (signed_sign ska b msg)))) as [Hbig|_]; [|done].
    exfalso. unfold signed_sign in Hbig. rewrite length_app, Hsig in Hbig. unfold signed_mtu, sat_sub64 in *. lia.
  - intros data from m <-. unfold signed_receive, signed_unpack.
    destruct (Nat.ltb_spec (length data) SIGNATURE_SIZE) as [|Hlen]; [by left|].
    destruct (verify _ _ _) eqn:Hv; [right|by left]. done.
Qed.
End Facts.

(** ** An example connection

    One peer with a session (key 2), one without (key 3), both in the list. *)

#[local] Existing Instances toy_dalek toy_dalek_laws toy_box toy_box_laws id_order.

Definition example_session : SessionInfo := fst (SessionInfo_new (toy_public [5]) (toy_public [6]) 1 0 0).
Definition example_conn : EncryptedConn :=
  mkEncryptedConn (mkPacketConn false (toy_key 1) 65535) 1
    (mkSessionManager {[ toy_key 2 := example_session ]} ∅ (GroupAuth_new []) 60 3) false
    (mkLru 4 [toy_key 3; toy_key 2]).

Lemma example_manager_ok : manager_ok (ec_sessions example_conn).
Proof.
  split.
  - cbn. intros k s [<- <-]%lookup_singleton_Some. split_and!; [done|done|done|reflexivity].
  - cbn. intros k b Hb. by rewrite lookup_empty in Hb.
Qed.

Lemma enc_write_exact_witness :
  exists out c', enc_write_to example_conn [1; 2; 3] (toy_key 2) 5 9 = (Ok 3%nat, out, c') /\ (length out <= 1)%nat.
Proof.
  destruct (enc_write_exact example_conn [1; 2; 3] (toy_key 2) 5 9) as (out & c' & He & Hlen & _).
  - exact example_manager_ok.
  - done.
  - reflexivity.
  - vm_compute. discriminate.
  - exists out, c'. split; [exact He|exact Hlen].
Defined.

Lemma keepalive_exact_witness :
  exists out c', keepalive_tick example_conn true ∅ 5 9 = (out, c') /\
    map out_info out = [Some (toy_key 2, true, Some SESSION_TYPE_TRAFFIC)].
Proof.
  destruct (keepalive_exact example_conn true ∅ 5 9) as (out & c' & He & _ & Hout).
  - exact example_manager_ok.
  - reflexivity.
  - vm_compute. discriminate.
  - exists out, c'. split; [exact He|]. rewrite Hout. vm_compute. reflexivity.
Defined.

Lemma signed_exact_witness :
  signed_receive (toy_key 2) (signed_sign (1 : SigningKey) (toy_key 2) [7; 8]) (toy_key 1) = [(toy_key 1, [7; 8])] /\
  signed_receive (toy_key 3) (signed_sign (1 : SigningKey) (toy_key 2) [7; 8]) (toy_key 1) = [].
Proof.
  split; [|vm_compute; reflexivity].
  exact (proj1 (signed_exact (1 : SigningKey) (toy_key 2) (ec_inner example_conn) [7; 8])).
Defined.
