(* ===== verification/Links.v ===== *)
(** * Links: bans, active links, admission and reconnection

    Models [crates/yggdrasil/src/links.rs]: the ban list, the registry of active
    links, what [handle_connection] does with a new connection up to the hand-over
    to the router, the back-off of the dialling tasks, the table of configured
    peers and the options of a peer's URI. Sockets are the bytes they deliver;
    [Instant::now()] is the argument [now]; URLs are parsed by the [url] crate and
    arrive as their parts. *)

From S2P Require Import Prelude.
From S2P Require Import Wire.
From S2P Require Import Crypto.
From S2P Require Import Version.
From S2P Require Import Ckr.
From stdpp Require Import strings.
From stdpp Require Import options.
Open Scope Z_scope.

Definition DEFAULT_BACKOFF_LIMIT : Z := 4096000000000.
Definition MINIMUM_BACKOFF_LIMIT : Z := 5000000000.
Definition BACKOFF_SHIFT_MAX : Z := 16.
Definition BACKOFF_RESET_UPTIME : Z := 30000000000.
Definition MAX_CONCURRENT_INCOMING : Z := 350.
Definition MAX_FAILED_ATTEMPTS : Z := 3.
Definition BAN_DURATION : Z := 900000000000.
Definition FAILED_ATTEMPT_WINDOW : Z := 60000000000.

Inductive LinkType := Persistent | Ephemeral | Incoming.

Record LinkOptions := mkLinkOptions {
  lo_pinned_keys : list PublicKey;
  lo_priority : Z;
  lo_password : bytes;
  lo_max_backoff : Z;
  lo_tls_sni : option string
}.
#[export] Instance LinkOptions_eta : Settable LinkOptions := fun o =>
  mkLinkOptions (lo_pinned_keys o) (lo_priority o) (lo_password o) (lo_max_backoff o) (lo_tls_sni o).

Definition LinkOptions_default : LinkOptions := mkLinkOptions [] 0 [] DEFAULT_BACKOFF_LIMIT None.

#[export] Instance IpAddr_eq_dec : EqDecision IpAddr.
Proof. solve_decision. Defined.
#[export] Instance IpAddr_countable : Countable IpAddr.
Proof.
  apply (inj_countable' (fun a => match a with AddrV4 z => (inl z : Z + Z) | AddrV6 z => inr z end)
    (fun s => match s with inl z => AddrV4 z | inr z => AddrV6 z end)).
  by intros [].
Defined.

(** ** The ban list *)

Record FailedAttempt := mkFailedAttempt { fa_count : Z; fa_last_attempt : Z; fa_banned_until : option Z }.
#[export] Instance FailedAttempt_eta : Settable FailedAttempt := fun e =>
  mkFailedAttempt (fa_count e) (fa_last_attempt e) (fa_banned_until e).

Abbreviation BanList := (gmap IpAddr FailedAttempt).

Definition is_banned (now : Z) (ip : IpAddr) (map : BanList) : bool * BanList :=
  match map !! ip with
  | Some entry =>
      match fa_banned_until entry with
      | Some banned_until =>
          if now <? banned_until then (true, map)
          else (false, <[ip := entry <| fa_banned_until := None |> <| fa_count := 0 |>]> map)
      | None => (false, map)
      end
  | None => (false, map)
  end.

Definition record_failure (now : Z) (ip : IpAddr) (map : BanList) : bool * BanList :=
  let entry := default (mkFailedAttempt 0 now None) (map !! ip) in
  let entry := if FAILED_ATTEMPT_WINDOW <? elapsed now (fa_last_attempt entry) then entry <| fa_count := 0 |> else entry in
  let entry := entry <| fa_count := fa_count entry + 1 |> <| fa_last_attempt := now |> in
  if MAX_FAILED_ATTEMPTS <=? fa_count entry
  then (true, <[ip := entry <| fa_banned_until := Some (now + BAN_DURATION) |>]> map)
  else (false, <[ip := entry]> map).

Definition keep_attempt (now : Z) (entry : FailedAttempt) : bool :=
  match fa_banned_until entry with
  | Some banned_until => now <? banned_until + 60000000000
  | None => elapsed now (fa_last_attempt entry) <? FAILED_ATTEMPT_WINDOW * 2
  end.

Definition ban_cleanup (now : Z) (map : BanList) : BanList :=
  filter (fun p => keep_attempt now p.2 = true) map.

(** ** Active links *)

Inductive SocketAddr :=
| SockV4 (ip port : Z)
| SockV6 (ip port flowinfo scope_id : Z).

#[export] Instance SocketAddr_eq_dec : EqDecision SocketAddr.
Proof. solve_decision. Defined.

Definition sock_ip (a : SocketAddr) : IpAddr :=
  match a with SockV4 ip _ => AddrV4 ip | SockV6 ip _ _ _ => AddrV6 ip end.

Definition same_socket (a b : SocketAddr) : bool :=
  match a, b with
  | SockV6 ip port _ scope, SockV6 ip' port' _ scope' => (ip =? ip') && (port =? port') && (scope =? scope')
  | _, _ => bool_decide (a = b)
  end.

Inductive PeerEvent :=
| Connected (key : PublicKey) (uri : string) (inbound : bool)
| Disconnected (key : PublicKey).

Inductive RegisterRefusal := DuplicateSocket | InboundLimit.

Definition NO_PEER_ID : Z := U64_MAX.

(** The counters shared with the stream of a link are fields of its entry. *)
Record ActiveConn := mkActiveConn {
  ac_uri : string;
  ac_remote_addr : option SocketAddr;
  ac_inbound : bool;
  ac_key : PublicKey;
  ac_priority : Z;
  ac_rx : Z;
  ac_tx : Z;
  ac_peer_id : Z;
  ac_rx_rate : Z;
  ac_tx_rate : Z;
  ac_last_rx : Z;
  ac_last_tx : Z;
  ac_up : Z
}.
#[export] Instance ActiveConn_eta : Settable ActiveConn := fun c =>
  mkActiveConn (ac_uri c) (ac_remote_addr c) (ac_inbound c) (ac_key c) (ac_priority c) (ac_rx c) (ac_tx c)
    (ac_peer_id c) (ac_rx_rate c) (ac_tx_rate c) (ac_last_rx c) (ac_last_tx c) (ac_up c).

(** [al_events] is what was sent on [peer_tx], oldest first. *)
Record ActiveLinks := mkActiveLinks {
  al_next_id : Z;
  al_connections : gmap Z ActiveConn;
  al_ban_list : BanList;
  al_events : list PeerEvent;
  al_max_inbound : Z
}.
#[export] Instance ActiveLinks_eta : Settable ActiveLinks := fun l =>
  mkActiveLinks (al_next_id l) (al_connections l) (al_ban_list l) (al_events l) (al_max_inbound l).

Definition ActiveLinks_new (max_inbound_links_per_peer : Z) : ActiveLinks :=
  mkActiveLinks 0 ∅ ∅ [] max_inbound_links_per_peer.

Definition has_active_connections (l : ActiveLinks) : bool := negb (bool_decide (al_connections l = ∅)).

(** [inner.connections.values()]: only counted and searched here. *)
Definition conns (l : ActiveLinks) : list ActiveConn := (map_to_list (al_connections l)).*2.

Definition over_socket (addr : SocketAddr) (c : ActiveConn) : bool :=
  match ac_remote_addr c with Some a => same_socket a addr | None => false end.

Definition duplicate_socket (l : ActiveLinks) (remote_addr : option SocketAddr) (inbound : bool) (key : PublicKey) : bool :=
  match remote_addr with
  | Some addr =>
      existsb (fun c => bool_decide (ac_key c = key) && Bool.eqb (ac_inbound c) inbound && over_socket addr c) (conns l)
  | None => false
  end.

(** The inbound links of a key. *)
Definition inbound_count (l : ActiveLinks) (key : PublicKey) : Z :=
  Z.of_nat (length (List.filter (fun c => bool_decide (ac_key c = key) && ac_inbound c) (conns l))).

Definition register (overflow_checks : bool) (now : Z) (uri : string) (remote_addr : option SocketAddr)
    (inbound : bool) (key : PublicKey) (priority : Z) (l : ActiveLinks)
  : outcome (result RegisterRefusal Z * ActiveLinks) :=
  if duplicate_socket l remote_addr inbound key then Ret (Err DuplicateSocket, l)
  else if inbound && (0 <? al_max_inbound l) && (al_max_inbound l <=? inbound_count l key)
  then Ret (Err InboundLimit, l)
  else
    let id := al_next_id l in
    next_id ← arith64 overflow_checks (al_next_id l + 1);
    let conn := mkActiveConn uri remote_addr inbound key priority 0 0 NO_PEER_ID 0 0 0 0 now in
    let l := l <| al_next_id := next_id |> <| al_connections := <[id := conn]> (al_connections l) |> in
    Ret (Ok id, l <| al_events := al_events l ++ [Connected key uri inbound] |>).

(** [unregister] takes the lock twice: the first time it reads the key, the
    second time it removes the entry; then it sends the event. *)
Definition unregister_lookup (id : Z) (l : ActiveLinks) : option PublicKey := ac_key <$> al_connections l !! id.

Definition unregister_finish (id : Z) (key : option PublicKey) (l : ActiveLinks) : ActiveLinks :=
  let l := l <| al_connections := delete id (al_connections l) |> in
  match key with
  | Some key => l <| al_events := al_events l ++ [Disconnected key] |>
  | None => l
  end.

Definition unregister (id : Z) (l : ActiveLinks) : ActiveLinks := unregister_finish id (unregister_lookup id l) l.

(** [unregister_by_uri] takes the lock twice as well: first it collects the links of
    the URI, then it removes what it collected and sends the events. *)
Definition unregister_uri_lookup `{HashOrder} (uri : string) (l : ActiveLinks) : list (Z * PublicKey) :=
  (fun p => (p.1, ac_key p.2)) <$> List.filter (fun p => bool_decide (ac_uri p.2 = uri)) (map_iter (al_connections l)).

Definition unregister_uri_finish (ids_and_keys : list (Z * PublicKey)) (l : ActiveLinks) : ActiveLinks :=
  let l := l <| al_connections := foldl (fun m p => delete p.1 m) (al_connections l) ids_and_keys |> in
  l <| al_events := al_events l ++ ((fun p => Disconnected p.2) <$> ids_and_keys) |>.

(** Both steps, nothing in between. *)
Definition unregister_by_uri `{HashOrder} (uri : string) (l : ActiveLinks) : ActiveLinks :=
  unregister_uri_finish (unregister_uri_lookup uri l) l.

Definition update_rate (conn : ActiveConn) : ActiveConn :=
  conn <| ac_rx_rate := sat_sub64 (ac_rx conn) (ac_last_rx conn) |>
       <| ac_tx_rate := sat_sub64 (ac_tx conn) (ac_last_tx conn) |>
       <| ac_last_rx := ac_rx conn |> <| ac_last_tx := ac_tx conn |>.

Definition update_rates (l : ActiveLinks) : ActiveLinks :=
  l <| al_connections := update_rate <$> al_connections l |>.

Definition has_key_addr (key : PublicKey) (addr : SocketAddr) (l : ActiveLinks) : bool :=
  existsb (fun c => bool_decide (ac_key c = key) && over_socket addr c) (conns l).

(** The task that stores the id reported by the router. *)
Definition set_peer_id (id peer_id : Z) (l : ActiveLinks) : ActiveLinks :=
  l <| al_connections := alter (fun c => c <| ac_peer_id := peer_id |>) id (al_connections l) |>.

(** The rate task: rates every second, the ban list every sixtieth. *)
Definition rate_tick (now : Z) (st : Z * ActiveLinks) : Z * ActiveLinks :=
  let '(cleanup_counter, l) := st in
  let l := update_rates l in
  let cleanup_counter := cleanup_counter + 1 in
  if 60 <=? cleanup_counter then (0, l <| al_ban_list := ban_cleanup now (al_ban_list l) |>)
  else (cleanup_counter, l).

(** ** Counting streams *)

Definition FLUSH_THRESHOLD : Z := 65536.

(** A direction of a [CountingStream]: the shared counter and the bytes not yet
    added to it. *)
Record CountedDir := mkCountedDir { cd_counter : Z; cd_buffer : Z }.

(** [flush_rx] and [flush_tx]; [fetch_add] wraps. *)
Definition count_flush (d : CountedDir) : CountedDir :=
  if 0 <? cd_buffer d then mkCountedDir (wrap64 (cd_counter d + cd_buffer d)) 0 else d.

(** [n] bytes were transferred by [poll_read] or [poll_write]. *)
Definition count_bytes (overflow_checks : bool) (n : Z) (d : CountedDir) : outcome CountedDir :=
  buffer ← arith64 overflow_checks (cd_buffer d + n);
  let d := mkCountedDir (cd_counter d) buffer in
  Ret (if FLUSH_THRESHOLD <=? buffer then count_flush d else d).

(** ** Options of a peer's URI *)

Definition is_digit (ch : Z) : bool := (48 <=? ch) && (ch <=? 57).

(** [str::parse::<u64>]: an optional sign, then at least one digit. *)
Definition parse_digits (s : bytes) : option Z :=
  if bool_decide (s = []) || negb (forallb is_digit s) then None
  else
    let n := foldl (fun acc ch => acc * 10 + (ch - 48)) 0 s in
    if n <=? U64_MAX then Some n else None.
Definition parse_u64 (s : bytes) : option Z :=
  match s with
  | 43 :: s => parse_digits s
  | s => parse_digits s
  end.

Inductive DurationError := InvalidDuration | InvalidUnit | TrailingNumber.

(** The loop of [parse_duration_string]: total, digits collected, unit seen. *)
Fixpoint duration_loop (overflow_checks : bool) (s : bytes) (total_secs : Z) (current_num : bytes) (has_unit : bool)
  : outcome (result DurationError Z) :=
  match s with
  | [] =>
      if negb (bool_decide (current_num = [])) && negb has_unit then Ret (Err InvalidDuration)
      else if negb (bool_decide (current_num = [])) then Ret (Err TrailingNumber)
      else Ret (Ok total_secs)
  | ch :: s =>
      if is_digit ch then duration_loop overflow_checks s total_secs (current_num ++ [ch]) has_unit
      else
        match parse_u64 current_num with
        | None => Ret (Err InvalidDuration)
        | Some n =>
            let add (unit_secs : Z) :=
              amount ← arith64 overflow_checks (n * unit_secs);
              total_secs ← arith64 overflow_checks (total_secs + amount);
              duration_loop overflow_checks s total_secs [] true in
            if ch =? 104 then add 3600
            else if ch =? 109 then add 60
            else if ch =? 115 then add 1
            else Ret (Err InvalidUnit)
        end
  end.

(** Seconds; [Duration::from_secs] of them. *)
Definition parse_duration_string (overflow_checks : bool) (s : bytes) : outcome (result DurationError Z) :=
  match parse_u64 s with
  | Some secs => Ret (Ok secs)
  | None => duration_loop overflow_checks s 0 [] false
  end.

(** ** Options, parsed *)

Definition bytes_of (s : string) : bytes := (fun a => Z.of_N (Ascii.N_of_ascii a)) <$> String.list_ascii_of_string s.

(** [str::parse::<u8>]. *)
Definition parse_u8 (s : bytes) : option Z :=
  match parse_u64 s with Some n => if n <=? U8_MAX then Some n else None | None => None end.

Inductive OptionsError :=
| InvalidKeyHex | PinnedKeyLength | InvalidPriority | PasswordTooLong | InvalidMaxBackoff (e : DurationError) | MaxBackoffTooSmall.

Section Options.
(** [hex::decode] of the [hex] crate, and whether [IpAddr::from_str] accepts a
    string. *)
Context (hex_decode : string -> option bytes) (is_ip_addr : string -> bool) (overflow_checks : bool).

(** One pair of the query. *)
Definition apply_option (key value : string) (opts : LinkOptions) : outcome (result OptionsError LinkOptions) :=
  if bool_decide (key = "key"%string) then
    match hex_decode value with
    | None => Ret (Err InvalidKeyHex)
    | Some bs =>
        if negb (length bs =? 32)%nat then Ret (Err PinnedKeyLength)
        else Ret (Ok (opts <| lo_pinned_keys := lo_pinned_keys opts ++ [bs] |>))
    end
  else if bool_decide (key = "priority"%string) then
    match parse_u8 (bytes_of value) with
    | None => Ret (Err InvalidPriority)
    | Some p => Ret (Ok (opts <| lo_priority := p |>))
    end
  else if bool_decide (key = "password"%string) then
    if (64 <? length (bytes_of value))%nat then Ret (Err PasswordTooLong)
    else Ret (Ok (opts <| lo_password := bytes_of value |>))
  else if bool_decide (key = "maxbackoff"%string) then
    d ← parse_duration_string overflow_checks (bytes_of value);
    match d with
    | Err e => Ret (Err (InvalidMaxBackoff e))
    | Ok secs =>
        let dur := secs * 1000000000 in
        if dur <? MINIMUM_BACKOFF_LIMIT then Ret (Err MaxBackoffTooSmall)
        else Ret (Ok (opts <| lo_max_backoff := dur |>))
    end
  else if bool_decide (key = "sni"%string) then
    if negb (bool_decide (value = ""%string)) && negb (is_ip_addr value)
    then Ret (Ok (opts <| lo_tls_sni := Some value |>)) else Ret (Ok opts)
  else Ret (Ok opts).

Fixpoint apply_options (query : list (string * string)) (opts : LinkOptions) : outcome (result OptionsError LinkOptions) :=
  match query with
  | [] => Ret (Ok opts)
  | (key, value) :: query =>
      r ← apply_option key value opts;
      match r with Ok opts => apply_options query opts | Err e => Ret (Err e) end
  end.

Definition parse_link_options (query : list (string * string)) (host : option string)
  : outcome (result OptionsError LinkOptions) :=
  r ← apply_options query LinkOptions_default;
  match r with
  | Err e => Ret (Err e)
  | Ok opts =>
      match lo_tls_sni opts, host with
      | None, Some host => Ret (Ok (if negb (is_ip_addr host) then opts <| lo_tls_sni := Some host |> else opts))
      | _, _ => Ret (Ok opts)
      end
  end.
End Options.

(** ** Admission of a connection *)

Inductive LinkError :=
| LinkBanned | LinkWrite | LinkFlush | LinkRead | LinkTimeout | LinkPreamble | LinkShort | LinkDecode (e : VersionError)
| LinkCertificate | LinkVersion (major minor : Z) | LinkSelf | LinkNotPinned | LinkNotAllowed
| LinkInboundLimit | LinkDuplicateSocket.

(** The parts of [Core] a connection needs. *)
Record LinkCore {D : Dalek} := mkLinkCore {
  lc_public_key : PublicKey;
  lc_signing_key : SigningKey;
  lc_allowed_keys : list PublicKey
}.
Arguments LinkCore : clear implicits.

(** What a stream does during the handshake: how writing and flushing end, the
    bytes that arrive in time, and whether the stream then ends or stalls. *)
Inductive IoEnd := IoOk | IoFails | IoStalls.
Record LinkStream := mkLinkStream {
  ls_peer_addr : option SocketAddr;
  ls_peer_cert : option bytes;
  ls_write : IoEnd;
  ls_flush : IoEnd;
  ls_bytes : bytes;
  ls_ends : bool
}.

Section Admission.
Context `{D : Dalek} (blake2b512 : bytes -> bytes) (blake2b_mac512 : bytes -> bytes -> option bytes).
(** [parse_x509_certificate] of the [x509-parser] crate: the algorithm of the
    subject's key and the key. *)
Context (parse_x509 : bytes -> option (list Z * bytes)).

Definition is_key_allowed (core : LinkCore D) (key : PublicKey) : bool :=
  bool_decide (lc_allowed_keys core = []) || bool_decide (key ∈ lc_allowed_keys core).

Definition extract_ed25519_pubkey_from_cert (cert_der : bytes) : option PublicKey :=
  match parse_x509 cert_der with
  | None => None
  | Some (algorithm, key_bytes) =>
      if negb (bool_decide (algorithm = [1; 3; 101; 112])) then None
      else if negb (length key_bytes =? 32)%nat then None
      else Some key_bytes
  end.

(** [read_exact] on the stream. *)
Definition stream_read (s : LinkStream) (n : nat) (bs : bytes) : result LinkError (bytes * bytes) :=
  match read_exact n bs with
  | Ok r => Ok r
  | Err _ => Err (if ls_ends s then LinkRead else LinkTimeout)
  end.

(** The exchange of metadata under [HANDSHAKE_TIMEOUT]: what was sent, and the
    metadata received with the bytes that follow it. *)
Definition exchange_metadata (core : LinkCore D) (options : LinkOptions) (s : LinkStream)
  : outcome (bytes * result LinkError (Metadata * bytes)) :=
  let meta := Metadata_new (lc_public_key core) (lo_priority options) in
  encoded ← Metadata_encode blake2b512 blake2b_mac512 meta (lc_signing_key core) (lo_password options);
  match ls_write s, ls_flush s with
  | IoFails, _ => Ret (encoded, Err LinkWrite)
  | IoStalls, _ => Ret (encoded, Err LinkTimeout)
  | IoOk, IoFails => Ret (encoded, Err LinkFlush)
  | IoOk, IoStalls => Ret (encoded, Err LinkTimeout)
  | IoOk, IoOk =>
      match stream_read s 6 (ls_bytes s) with
      | Err e => Ret (encoded, Err e)
      | Ok (header, bs) =>
          if negb (bool_decide (take 4 header = PREAMBLE)) then Ret (encoded, Err LinkPreamble)
          else
            let length := Z.to_nat (from_be_bytes (drop 4 header)) in
            if (length <? 64)%nat then Ret (encoded, Err LinkShort)
            else
              match stream_read s length bs with
              | Err e => Ret (encoded, Err e)
              | Ok (body, bs) =>
                  r ← Metadata_decode blake2b512 blake2b_mac512 (header ++ body) (lo_password options);
                  Ret (encoded, match r with Ok (m, _) => Ok (m, bs) | Err e => Err (LinkDecode e) end)
              end
      end
  end.

(** A failure is recorded when the address is known. *)
Definition fail_ip (now : Z) (peer_ip : option IpAddr) (active : ActiveLinks) : ActiveLinks :=
  match peer_ip with
  | Some ip => active <| al_ban_list := (record_failure now ip (al_ban_list active)).2 |>
  | None => active
  end.

(** The checks between the handshake and the registration: an error and whether
    it counts as a failure. *)
Definition check_metadata (link_type : LinkType) (options : LinkOptions) (core : LinkCore D) (peer_cert : option bytes)
    (m : Metadata) : option (LinkError * bool) :=
  let cert_key := cert ← peer_cert; extract_ed25519_pubkey_from_cert cert in
  if bool_decide (is_Some cert_key) && negb (bool_decide (cert_key = Some (md_public_key m))) then Some (LinkCertificate, true)
  else if negb (Metadata_check m) then Some (LinkVersion (md_major_ver m) (md_minor_ver m), true)
  else if bool_decide (md_public_key m = lc_public_key core) then Some (LinkSelf, false)
  else if negb (bool_decide (lo_pinned_keys options = [])) && negb (bool_decide (md_public_key m ∈ lo_pinned_keys options))
  then Some (LinkNotPinned, false)
  else if (match link_type with Incoming => true | _ => false end) && negb (is_key_allowed core (md_public_key m))
  then Some (LinkNotAllowed, true)
  else None.

(** A link that was accepted: its id in the registry, the key and priority it is
    handed to the router with, and the bytes that follow the handshake. *)
Record AcceptedLink := mkAcceptedLink { ad_id : Z; ad_key : PublicKey; ad_priority : Z; ad_rest : bytes }.

(** [handle_connection] up to [core.handle_conn]. [now] is the time of the ban
    check, [now'] the time after the handshake. *)
Definition handle_connection (overflow_checks : bool) (now now' : Z) (link_type : LinkType) (options : LinkOptions)
    (s : LinkStream) (core : LinkCore D) (uri : string) (active : ActiveLinks)
  : outcome (result LinkError AcceptedLink * ActiveLinks) :=
  let peer_ip := sock_ip <$> ls_peer_addr s in
  let '(banned, active) :=
    match peer_ip with
    | Some ip => let '(b, bl) := is_banned now ip (al_ban_list active) in (b, active <| al_ban_list := bl |>)
    | None => (false, active)
    end in
  if banned then Ret (Err LinkBanned, active)
  else
    x ← exchange_metadata core options s;
    match x.2 with
    | Err e => Ret (Err e, active)
    | Ok (remote_meta, rest) =>
        match check_metadata link_type options core (ls_peer_cert s) remote_meta with
        | Some (e, failed) => Ret (Err e, if failed : bool then fail_ip now' peer_ip active else active)
        | None =>
            let priority := Z.max (lo_priority options) (md_priority remote_meta) in
            let inbound := match link_type with Incoming => true | _ => false end in
            o ← register overflow_checks now' uri (ls_peer_addr s) inbound (md_public_key remote_meta) priority active;
            let '(r, active) := o in
            match r with
            | Ok conn_id => Ret (Ok (mkAcceptedLink conn_id (md_public_key remote_meta) priority rest), active)
            | Err InboundLimit => Ret (Err LinkInboundLimit, active)
            | Err DuplicateSocket => Ret (Err LinkDuplicateSocket, active)
            end
        end
    end.
End Admission.

(** ** Dialling tasks *)

(** How an attempt ended: the dial failed, or the connection ran for [uptime] and
    ended with this result. *)
Inductive Attempt :=
| DialFailed (err : string)
| ConnEnded (res : result string ()) (uptime : Z).

(** Why the task woke up: the wait was over, or [retry_peers_now]. *)
Inductive Wake := WaitOver | RetryNotified.

Definition attempt_error (a : Attempt) : option string :=
  match a with DialFailed err => Some err | ConnEnded (Ok _) _ => None | ConnEnded (Err e) _ => Some e end.

(** One round of the task's loop up to the wait: the new back-off (a [u32] below
    33) and the wait. *)
Definition dial_round (options : LinkOptions) (a : Attempt) (backoff : Z) : Z * Z :=
  let backoff :=
    match a with
    | ConnEnded res uptime =>
        if (match res with Ok _ => true | Err _ => false end) || (BACKOFF_RESET_UPTIME <=? uptime) then 0 else backoff
    | DialFailed _ => backoff
    end in
  let backoff := if backoff <? 32 then backoff + 1 else backoff in
  (backoff, Z.min (Z.shiftl 1 (Z.min backoff BACKOFF_SHIFT_MAX) * 1000000000) (lo_max_backoff options)).

Definition dial_wake (w : Wake) (backoff : Z) : Z := match w with WaitOver => backoff | RetryNotified => 0 end.

(** The waits of a task, given how its attempts end and how it is woken. *)
Fixpoint dial_waits (options : LinkOptions) (rounds : list (Attempt * Wake)) (backoff : Z) : list Z :=
  match rounds with
  | [] => []
  | (a, w) :: rounds =>
      let '(backoff, wait) := dial_round options a backoff in
      wait :: dial_waits options rounds (dial_wake w backoff)
  end.

(** The server name of a TLS dial: the option or the host, and when that is not
    accepted, the host as an address. The two parsers are those of
    [rustls-pki-types]. *)
Inductive ServerName := DnsName (name : string) | IpAddressName (host : string).

Definition dial_server_name (server_name_try_from ip_try_from : string -> bool) (sni : option string) (host : string)
  : outcome ServerName :=
  let sni_host := default host sni in
  if server_name_try_from sni_host then Ret (DnsName sni_host)
  else if ip_try_from host then Ret (IpAddressName host)
  else Panic.

(** ** Configured peers *)

(** The parts of a parsed URL. *)
Record PeerUrl := mkPeerUrl {
  url_scheme : string; url_host : option string; url_port : option Z; url_query : list (string * string) }.

Inductive LinksError :=
| PeerExists | InvalidUri | SchemeNotCompiled | UnsupportedScheme | MissingHost | MissingPort
| SameAddress (existing : string) | BadOptions (e : OptionsError) | CoreNotInitialized | PeerNotFound.

(** A configured peer: the options and the back-off of its dialling task. *)
Record PeerTask := mkPeerTask { pt_options : LinkOptions; pt_backoff : Z }.

Record Links := mkLinks {
  lk_core : bool;
  lk_active : ActiveLinks;
  lk_peers : gmap string PeerTask;
  lk_peer_addrs : gmap string string;
  lk_peer_errors : gmap string (option string)
}.
#[export] Instance Links_eta : Settable Links := fun l =>
  mkLinks (lk_core l) (lk_active l) (lk_peers l) (lk_peer_addrs l) (lk_peer_errors l).

Definition Links_new (active : ActiveLinks) : Links := mkLinks false active ∅ ∅ ∅.
Definition set_core (l : Links) : Links := l <| lk_core := true |>.

(** The schemes [add_peer] knows, given the features compiled in. *)
Definition check_scheme (has_ws has_quic : bool) (scheme : string) : result LinksError () :=
  if bool_decide (scheme = "tcp"%string) || bool_decide (scheme = "tls"%string) then Ok ()
  else if bool_decide (scheme = "ws"%string) || bool_decide (scheme = "wss"%string)
  then (if has_ws then Ok () else Err SchemeNotCompiled)
  else if bool_decide (scheme = "quic"%string) then (if has_quic then Ok () else Err SchemeNotCompiled)
  else Err UnsupportedScheme.

(** The first of the resolved addresses that is in use. *)
Fixpoint find_existing (peer_addrs : gmap string string) (resolved : list string) : option string :=
  match resolved with
  | [] => None
  | ak :: resolved => match peer_addrs !! ak with Some existing => Some existing | None => find_existing peer_addrs resolved end
  end.

Section Table.
Context `{HashOrder} (hex_decode : string -> option bytes) (is_ip_addr : string -> bool) (overflow_checks : bool).
(** [Url::parse]. *)
Context (parse_url : string -> option PeerUrl) (has_ws has_quic : bool).

(** [resolved] is the sorted answer of [lookup_host] as text, if it succeeded. *)
Definition add_peer (uri : string) (resolved : option (list string)) (l : Links) : outcome (result LinksError () * Links) :=
  if bool_decide (is_Some (lk_peers l !! uri)) then Ret (Err PeerExists, l)
  else
    match parse_url uri with
    | None => Ret (Err InvalidUri, l)
    | Some url =>
        match check_scheme has_ws has_quic (url_scheme url) with
        | Err e => Ret (Err e, l)
        | Ok _ =>
            match url_host url, url_port url with
            | None, _ => Ret (Err MissingHost, l)
            | Some _, None => Ret (Err MissingPort, l)
            | Some host, Some port =>
                match find_existing (lk_peer_addrs l) (default [] resolved) with
                | Some existing => Ret (Err (SameAddress existing), l)
                | None =>
                    let addr_key := resolved ≫= head in
                    r ← parse_link_options hex_decode is_ip_addr overflow_checks (url_query url) (url_host url);
                    match r with
                    | Err e => Ret (Err (BadOptions e), l)
                    | Ok options =>
                        if negb (lk_core l) then Ret (Err CoreNotInitialized, l)
                        else
                          let l := l <| lk_peer_errors := <[uri := None]> (lk_peer_errors l) |> in
                          let l := l <| lk_peers := <[uri := mkPeerTask options 0]> (lk_peers l) |> in
                          let l := match addr_key with
                                   | Some ak => l <| lk_peer_addrs := <[ak := uri]> (lk_peer_addrs l) |>
                                   | None => l
                                   end in
                          Ret (Ok (), l)
                    end
                end
            end
        end
    end.

Definition remove_peer (uri : string) (l : Links) : result LinksError () * Links :=
  match lk_peers l !! uri with
  | None => (Err PeerNotFound, l)
  | Some _ =>
      let l := l <| lk_peers := delete uri (lk_peers l) |> in
      let l := l <| lk_active := unregister_by_uri uri (lk_active l) |> in
      let l := l <| lk_peer_addrs := filter (fun p => p.2 <> uri) (lk_peer_addrs l) |> in
      (Ok (), l <| lk_peer_errors := delete uri (lk_peer_errors l) |>)
  end.

(** A round of the dialling task of [uri]: the error it notes and its back-off. *)
Definition peer_round (uri : string) (a : Attempt) (w : Wake) (l : Links) : Links :=
  match lk_peers l !! uri with
  | None => l
  | Some task =>
      let l := l <| lk_peer_errors := <[uri := attempt_error a]> (lk_peer_errors l) |> in
      let '(backoff, _) := dial_round (pt_options task) a (pt_backoff task) in
      l <| lk_peers := <[uri := mkPeerTask (pt_options task) (dial_wake w backoff)]> (lk_peers l) |>
  end.

Definition links_close (l : Links) : Links := l <| lk_peers := ∅ |> <| lk_peer_addrs := ∅ |>.
End Table.

(** ** Listeners *)

(** The semaphore shared by the listeners: permits left, and the connections that
    hold one. *)
Record Limiter := mkLimiter { lm_permits : Z; lm_open : gset Z }.
Definition Limiter_new : Limiter := mkLimiter MAX_CONCURRENT_INCOMING ∅.

(** [accept] of connection [id]: a task with a permit, or an immediate close. *)
Definition limiter_accept (id : Z) (l : Limiter) : bool * Limiter :=
  if 0 <? lm_permits l then (true, mkLimiter (lm_permits l - 1) ({[id]} ∪ lm_open l)) else (false, l).

(** The task ends, after a failed or timed-out upgrade or after the connection:
    its permit is dropped. *)
Definition limiter_done (id : Z) (l : Limiter) : Limiter :=
  if bool_decide (id ∈ lm_open l) then mkLimiter (lm_permits l + 1) (lm_open l ∖ {[id]}) else l.
