(* ===== verification/LinksFacts.v ===== *)
(** * LinksFacts: bans, the registry of links, reconnection and the peer table *)

From S2P Require Import Prelude.
From S2P Require Import Wire.
From S2P Require Import Crypto.
From S2P Require Import Version.
From S2P Require Import Ckr.
From S2P Require Import Links.
From stdpp Require Import strings.
From stdpp Require Import options.
Open Scope Z_scope.

(** ** Bans *)

(** The operations on the ban list, at their times. *)
Inductive BanOp := OpCheck (ip : IpAddr) | OpFail (ip : IpAddr) | OpClean.

Definition ban_step (map : gmap IpAddr FailedAttempt) (o : Z * BanOp) : gmap IpAddr FailedAttempt :=
  match o.2 with
  | OpCheck ip => (is_banned o.1 ip map).2
  | OpFail ip => (record_failure o.1 ip map).2
  | OpClean => ban_cleanup o.1 map
  end.
Definition ban_run (ops : list (Z * BanOp)) (map : gmap IpAddr FailedAttempt) : gmap IpAddr FailedAttempt :=
  foldl ban_step map ops.

(** Times do not decrease, from [t] on. *)
Fixpoint timed (t : Z) (ops : list (Z * BanOp)) : Prop :=
  match ops with [] => True | o :: ops => t <= o.1 /\ timed o.1 ops end.
Definition last_time (t : Z) (ops : list (Z * BanOp)) : Z := foldl (fun _ o => o.1) t ops.

(** The failures of an address, latest first. *)
Definition failures (ip : IpAddr) (ops : list (Z * BanOp)) : list Z :=
  foldl (fun ts o => match o.2 with OpFail ip' => if bool_decide (ip' = ip) then o.1 :: ts else ts | _ => ts end) [] ops.

(** Three failures in a row, each within the window of the one before, the last
    at [t3]. *)
Definition three_in_row (ts : list Z) (t3 : Z) : Prop :=
  exists pre t2 t1 post, ts = pre ++ t3 :: t2 :: t1 :: post /\
    t3 - t2 <= FAILED_ATTEMPT_WINDOW /\ t2 - t1 <= FAILED_ATTEMPT_WINDOW.

(** The number of leading failures that are linked by gaps within the window. *)
Fixpoint run_length (ts : list Z) : Z :=
  match ts with
  | [] => 0
  | t :: rest => match rest with
                 | [] => 1
                 | t' :: _ => if t - t' <=? FAILED_ATTEMPT_WINDOW then 1 + run_length rest else 1
                 end
  end.

Lemma run_length_3 ts : 3 <= run_length ts -> exists t3 t2 t1 post, ts = t3 :: t2 :: t1 :: post /\
  t3 - t2 <= FAILED_ATTEMPT_WINDOW /\ t2 - t1 <= FAILED_ATTEMPT_WINDOW.
Proof.
  destruct ts as [|t3 [|t2 [|t1 post]]]; cbn [run_length]; [lia|lia| |].
  - destruct (Z.leb_spec (t3 - t2) FAILED_ATTEMPT_WINDOW); lia.
  - destruct (Z.leb_spec (t3 - t2) FAILED_ATTEMPT_WINDOW), (Z.leb_spec (t2 - t1) FAILED_ATTEMPT_WINDOW); try lia.
    intros _. by exists t3, t2, t1, post.
Qed.

Lemma run_length_cons t ts : 1 <= run_length (t :: ts).
Proof.
  revert t. induction ts as [|t' ts IH]; intros t; cbn [run_length]; [lia|].
  specialize (IH t'). cbn [run_length] in IH. destruct (_ <=? _); [|lia]. destruct ts; lia.
Qed.

(** An entry is justified by the failures of its address so far. *)
Definition entry_ok (ts : list Z) (e : FailedAttempt) : Prop :=
  0 <= fa_count e <= run_length ts /\ head ts = Some (fa_last_attempt e) /\
  forall b, fa_banned_until e = Some b -> exists t3, three_in_row ts t3 /\ b = t3 + BAN_DURATION.

Definition bans_ok (ops : list (Z * BanOp)) (map : gmap IpAddr FailedAttempt) : Prop :=
  forall ip e, map !! ip = Some e -> entry_ok (failures ip ops) e /\ fa_last_attempt e <= last_time 0 ops.

Lemma failures_snoc ip ops o : failures ip (ops ++ [o]) =
  match o.2 with OpFail ip' => if bool_decide (ip' = ip) then o.1 :: failures ip ops else failures ip ops | _ => failures ip ops end.
Proof. unfold failures. by rewrite foldl_app. Qed.

Lemma last_time_snoc t ops o : last_time t (ops ++ [o]) = o.1.
Proof. unfold last_time. by rewrite foldl_app. Qed.

Lemma entry_ok_new t e ts : entry_ok ts e -> fa_last_attempt e <= t ->
  entry_ok (t :: ts)
    (mkFailedAttempt ((if FAILED_ATTEMPT_WINDOW <? elapsed t (fa_last_attempt e) then 0 else fa_count e) + 1) t (fa_banned_until e)).
Proof.
  intros ([Hc0 Hc] & Hl & Hb) Ht. split_and!; cbn [fa_count fa_last_attempt fa_banned_until].
  - destruct (_ <? _); lia.
  - destruct ts as [|t' ts]; [done|]. injection Hl as ->. unfold elapsed. pose proof (run_length_cons t (fa_last_attempt e :: ts)).
    destruct (Z.ltb_spec FAILED_ATTEMPT_WINDOW (Z.max 0 (t - fa_last_attempt e))); [lia|].
    cbn [run_length]. destruct (Z.leb_spec (t - fa_last_attempt e) FAILED_ATTEMPT_WINDOW); [|lia].
    cbn [run_length] in Hc. lia.
  - done.
  - intros b Hb'. destruct (Hb b Hb') as (t3 & (pre & t2 & t1 & post & -> & H1 & H2) & ->).
    exists t3. split; [|done]. by exists (t :: pre), t2, t1, post.
Qed.

Lemma record_failure_ok t e ts : entry_ok ts e -> 3 <= fa_count e -> head ts = Some t ->
  entry_ok ts (e <| fa_banned_until := Some (t + BAN_DURATION) |>).
Proof.
  intros (Hc & Hl & Hb) H3 Ht. split_and!; cbn; try done; [lia|lia|]. intros b [= <-].
  destruct (run_length_3 ts) as (t3 & t2 & t1 & post & -> & H1 & H2); [lia|]. injection Ht as ->.
  exists t. split; [|done]. by exists [], t2, t1, post.
Qed.

(** The entry after a failure. *)
Definition failed_entry (t : Z) (o : option FailedAttempt) : FailedAttempt :=
  let e := default (mkFailedAttempt 0 t None) o in
  mkFailedAttempt ((if FAILED_ATTEMPT_WINDOW <? elapsed t (fa_last_attempt e) then 0 else fa_count e) + 1) t (fa_banned_until e).

Lemma record_failure_eq t ip map :
  record_failure t ip map =
    let e := failed_entry t (map !! ip) in
    if MAX_FAILED_ATTEMPTS <=? fa_count e
    then (true, <[ip := e <| fa_banned_until := Some (t + BAN_DURATION) |>]> map) else (false, <[ip := e]> map).
Proof.
  unfold record_failure, failed_entry. cbv zeta. set (e := default _ _).
  destruct (FAILED_ATTEMPT_WINDOW <? elapsed t (fa_last_attempt e)); reflexivity.
Qed.

Lemma failed_entry_ok t o ts : (forall e, o = Some e -> entry_ok ts e /\ fa_last_attempt e <= t) ->
  entry_ok (t :: ts) (failed_entry t o).
Proof.
  intros Ho. destruct o as [e|]; cbn [failed_entry default].
  - destruct (Ho e eq_refl). by apply entry_ok_new.
  - unfold failed_entry. cbn [default fa_count fa_last_attempt fa_banned_until]. pose proof (run_length_cons t ts).
    unfold entry_ok. cbn [fa_count fa_last_attempt fa_banned_until].
    split_and!; [by destruct (_ <? _)|by destruct (_ <? _)|done|done].
Qed.

Lemma ban_step_ok ops map o : bans_ok ops map -> last_time 0 ops <= o.1 -> bans_ok (ops ++ [o]) (ban_step map o).
Proof.
  intros Hok Ht ip e He. rewrite failures_snoc, last_time_snoc.
  assert (Hold : forall e, map !! ip = Some e -> entry_ok (failures ip ops) e /\ fa_last_attempt e <= o.1).
  { intros e' He'. destruct (Hok ip e' He'). split; [done|lia]. }
  destruct o as [t [ip'|ip'|]]; cbn [ban_step fst snd] in *.
  - unfold is_banned in He. destruct (map !! ip') as [e'|] eqn:He'; [|by apply Hold].
    destruct (fa_banned_until e') as [b|] eqn:Hb; [|by apply Hold]. destruct (t <? b); [by apply Hold|].
    cbn [snd] in He. apply lookup_insert_Some in He as [[<- <-]|[_ He]]; [|by apply Hold].
    destruct (Hold e' He') as [([Hc1 Hc2] & Hl & _) ?]. split; [|done]. split_and!; cbn; try done; lia.
  - rewrite record_failure_eq in He. cbv zeta in He. case_bool_decide as Hip.
    + subst ip'. set (e1 := failed_entry t (map !! ip)) in *.
      assert (H1 : entry_ok (t :: failures ip ops) e1) by (apply failed_entry_ok; done).
      destruct (Z.leb_spec MAX_FAILED_ATTEMPTS (fa_count e1)) as [H3|H3]; cbn [snd] in He;
        rewrite lookup_insert_eq in He; injection He as <-; (split; [|cbn; lia]).
      * by apply record_failure_ok.
      * done.
    + assert (map !! ip = Some e) as He'; [|by apply Hold].
      destruct (_ <=? _) in He; cbn [snd] in He; by rewrite lookup_insert_ne in He.
  - unfold ban_cleanup in He. apply map_lookup_filter_Some in He as [He _]. by apply Hold.
Qed.

Lemma ban_run_ok ops ops' map : bans_ok ops map -> timed (last_time 0 ops) ops' -> bans_ok (ops ++ ops') (ban_run ops' map).
Proof.
  revert ops map. induction ops' as [|o ops' IH]; intros ops map Hok Ht; [by rewrite app_nil_r|].
  destruct Ht as [Hle Ht]. cbn [ban_run foldl]. replace (ops ++ o :: ops') with ((ops ++ [o]) ++ ops') by (by rewrite <- app_assoc).
  apply IH; [by apply ban_step_ok|]. by rewrite last_time_snoc.
Qed.

(** A ban is justified: whatever sequence of checks, failures and cleanups the
    ban list sees, an address is refused only if three of its failures, one after
    the other, came each within a minute of the one before, and the third of them
    is less than fifteen minutes old. *)
Theorem ban_needs_failures ops ip now :
  timed 0 ops -> (is_banned now ip (ban_run ops ∅)).1 = true ->
  exists t3, three_in_row (failures ip ops) t3 /\ now < t3 + BAN_DURATION.
Proof.
  intros Ht Hb. pose proof (ban_run_ok [] ops ∅) as Hok. cbn [app] in Hok. unfold is_banned in Hb.
  destruct (ban_run ops ∅ !! ip) as [e|] eqn:He; [|done].
  apply Hok in He as [(_ & _ & Hban) _]; [|by intros ip' e'|done].
  destruct (fa_banned_until e) as [b|]; [|done]. destruct (Z.ltb_spec now b); [|done].
  destruct (Hban b eq_refl) as (t3 & H3 & ->). by exists t3.
Qed.

(** ** Bans are imposed *)

(** The address has no pending ban: what a check that lets a connection pass
    leaves behind. *)
Definition unbanned (map : gmap IpAddr FailedAttempt) (ip : IpAddr) : Prop :=
  forall e, map !! ip = Some e -> fa_banned_until e = None.

Lemma check_unbans now ip map : (is_banned now ip map).1 = false -> unbanned (is_banned now ip map).2 ip.
Proof.
  unfold is_banned, unbanned. destruct (map !! ip) as [e|] eqn:He; [|cbn; intros _ e' He'; congruence].
  destruct (fa_banned_until e) as [b|] eqn:Hb; [|cbn; intros _ e' He'; congruence].
  destruct (now <? b); [done|]. cbn. rewrite lookup_insert_eq. by intros _ ? [= <-].
Qed.

(** After [k] failures in a row, the last at [t]: they are counted, or the address
    is banned from [t] on. *)
Definition counted (ip : IpAddr) (k t : Z) (map : gmap IpAddr FailedAttempt) : Prop :=
  exists e, map !! ip = Some e /\ fa_last_attempt e = t /\ k <= fa_count e /\
    ((fa_count e < MAX_FAILED_ATTEMPTS /\ fa_banned_until e = None) \/
     (MAX_FAILED_ATTEMPTS <= fa_count e /\ fa_banned_until e = Some (t + BAN_DURATION))).

(** Operations that are not failures of the address leave this in place, as long
    as the next failure is still within the window, or the address is banned. *)
Lemma counted_other ip k t map o : counted ip k t map -> o.2 <> OpFail ip -> t <= o.1 ->
  (o.1 <= t + FAILED_ATTEMPT_WINDOW \/ (3 <= k /\ o.1 < t + BAN_DURATION)) -> counted ip k t (ban_step map o).
Proof.
  intros (e & He & Hl & Hk & Hb) Ho Ht Hw. unfold MAX_FAILED_ATTEMPTS, BAN_DURATION, FAILED_ATTEMPT_WINDOW in *.
  assert (Hkeep : ban_step map o !! ip = Some e).
  { destruct o as [t' [ip'|ip'|]]; cbn [ban_step fst snd] in *.
    - unfold is_banned. destruct (map !! ip') as [e'|] eqn:He'; [|done].
      destruct (fa_banned_until e') as [b|] eqn:Hb'; [|done]. destruct (Z.ltb_spec t' b); [done|]. cbn [snd].
      destruct (decide (ip' = ip)) as [->|Hne]; [|by rewrite lookup_insert_ne].
      exfalso. rewrite He in He'. injection He' as <-. destruct Hb as [[_ Hb]|[_ Hb]]; rewrite Hb in Hb'; [done|].
      injection Hb' as <-. lia.
    - rewrite record_failure_eq. cbv zeta. destruct (_ <=? _); cbn [snd]; rewrite lookup_insert_ne; congruence.
    - unfold ban_cleanup. apply map_lookup_filter_Some. split; [done|]. cbn [snd]. unfold keep_attempt, elapsed.
      destruct Hb as [[Hc ->]|[_ ->]]; apply Z.ltb_lt; unfold FAILED_ATTEMPT_WINDOW, BAN_DURATION; lia. }
  exists e. done.
Qed.

Lemma counted_fail ip k t map t' : counted ip k t map -> t <= t' <= t + FAILED_ATTEMPT_WINDOW ->
  counted ip (k + 1) t' (ban_step map (t', OpFail ip)).
Proof.
  intros (e & He & Hl & Hk & Hb) Ht. cbn [ban_step snd fst]. rewrite record_failure_eq. cbv zeta.
  rewrite He. unfold failed_entry. change (default (mkFailedAttempt 0 t' None) (Some e)) with e. cbn [fa_count]. unfold elapsed.
  destruct (Z.ltb_spec FAILED_ATTEMPT_WINDOW (Z.max 0 (t' - fa_last_attempt e))); [unfold FAILED_ATTEMPT_WINDOW in *; lia|].
  unfold counted, MAX_FAILED_ATTEMPTS in *.
  destruct (Z.leb_spec 3 (fa_count e + 1)); cbn [snd]; eexists; (split; [apply lookup_insert_eq|]); cbn; (split; [done|]);
    (split; [lia|]); [right|left]; split; try done.
  destruct Hb as [[_ Hb]|[? _]]; [done|lia].
Qed.

Lemma counted_first ip map t : unbanned map ip -> (forall e, map !! ip = Some e -> 0 <= fa_count e) ->
  counted ip 1 t (ban_step map (t, OpFail ip)).
Proof.
  intros Hu Hc. cbn [ban_step snd fst]. rewrite record_failure_eq. cbv zeta. unfold failed_entry, counted, MAX_FAILED_ATTEMPTS.
  set (e := default (mkFailedAttempt 0 t None) (map !! ip)).
  assert (He : 0 <= fa_count e /\ fa_banned_until e = None).
  { unfold e. destruct (map !! ip) as [e'|] eqn:He'; cbn; [split; [by apply Hc|by apply Hu]|done]. }
  destruct He as [He0 He1]. cbn [fa_count].
  set (c := if FAILED_ATTEMPT_WINDOW <? elapsed t (fa_last_attempt e) then 0 else fa_count e). assert (0 <= c) by (unfold c; destruct (_ <? _); lia).
  destruct (Z.leb_spec 3 (c + 1)); cbn [snd]; eexists; (split; [apply lookup_insert_eq|]); cbn; (split; [done|]); (split; [lia|]).
  - right. split; [lia|done].
  - left. split; [lia|done].
Qed.

Lemma timed_snoc t ops o : timed t (ops ++ [o]) -> timed t ops /\ last_time t ops <= o.1 /\ t <= last_time t ops.
Proof.
  revert t. induction ops as [|o' ops IH]; intros t; cbn; [intros [? _]; split_and!; [done|done|lia]|].
  intros [Hle Ht]. destruct (IH o'.1 Ht) as (H1 & H2 & H3). unfold last_time in *. split_and!; [done|done|done|lia].
Qed.

(** Each failure within the window of the one before. *)
Fixpoint linked (fs : list Z) : Prop :=
  match fs with
  | [] => True
  | f :: rest => match rest with [] => True | f' :: _ => f' <= f <= f' + FAILED_ATTEMPT_WINDOW end /\ linked rest
  end.

(** No failure yet: nothing is pending. *)
Definition idle (ip : IpAddr) (map : gmap IpAddr FailedAttempt) : Prop :=
  unbanned map ip /\ forall e, map !! ip = Some e -> 0 <= fa_count e.

Lemma idle_other ip map o : idle ip map -> o.2 <> OpFail ip -> idle ip (ban_step map o).
Proof.
  intros [Hu Hc] Ho. unfold idle, unbanned in *. destruct o as [t [ip'|ip'|]]; cbn [ban_step fst snd] in *.
  - unfold is_banned. destruct (map !! ip') as [e'|] eqn:He'; [|done].
    destruct (fa_banned_until e') as [b|] eqn:Hb'; [|done]. destruct (t <? b); [done|]. cbn [snd].
    destruct (decide (ip' = ip)) as [->|Hne]; [|by rewrite lookup_insert_ne].
    rewrite lookup_insert_eq. split; by intros e [= <-].
  - rewrite record_failure_eq. cbv zeta. destruct (_ <=? _); cbn [snd]; rewrite lookup_insert_ne by congruence; done.
  - unfold ban_cleanup. split; intros e [He _]%map_lookup_filter_Some; [by apply Hu|by apply Hc].
Qed.

(** Where a run of operations leaves an address. *)
Lemma ban_run_counts ip t0 map ops : idle ip map -> timed t0 ops -> linked (failures ip ops) ->
  match failures ip ops with
  | [] => idle ip (ban_run ops map)
  | f :: fs =>
      let k := Z.of_nat (length (f :: fs)) in
      (last_time t0 ops <= f + FAILED_ATTEMPT_WINDOW \/ (3 <= k /\ last_time t0 ops < f + BAN_DURATION)) ->
      f <= last_time t0 ops /\ counted ip k f (ban_run ops map)
  end.
Proof.
  intros Hidle. induction ops as [|o ops IH] using rev_ind; intros Ht Hlink; [done|].
  apply timed_snoc in Ht as (Ht & Hlast & H0). rewrite failures_snoc in *. rewrite last_time_snoc.
  unfold ban_run in *. rewrite foldl_app. cbn [foldl]. set (m := foldl ban_step map ops) in *.
  assert (Hother : o.2 <> OpFail ip -> linked (failures ip ops) ->
    match failures ip ops with
    | [] => idle ip (ban_step m o)
    | f :: fs => let k := Z.of_nat (length (f :: fs)) in
        (o.1 <= f + FAILED_ATTEMPT_WINDOW \/ (3 <= k /\ o.1 < f + BAN_DURATION)) -> f <= o.1 /\ counted ip k f (ban_step m o)
    end).
  { intros Ho Hl. destruct (failures ip ops) as [|f fs].
    - apply idle_other; [by apply IH|done].
    - cbv zeta. intros Hw. destruct (IH Ht Hl) as [Hle Hc]; [lia|].
      split; [lia|]. apply counted_other; [done|done|lia|lia]. }
  destruct o as [t [ip'|ip'|]]; cbn [fst snd] in *.
  1,3: exact (Hother ltac:(done) Hlink).
  case_bool_decide as Hip; [subst ip'|].
  2: exact (Hother ltac:(congruence) Hlink).
  destruct (failures ip ops) as [|f fs].
  - intros _. split; [lia|]. destruct (IH Ht I) as [Hu Hc]. by apply counted_first.
  - destruct Hlink as [Hw Hl]. intros _. split; [lia|]. destruct (IH Ht Hl) as [Hle Hc]; [left; lia|].
    replace (Z.of_nat (length (t :: f :: fs))) with (Z.of_nat (length (f :: fs)) + 1) by (cbn; lia).
    apply (counted_fail ip _ f); [done|lia].
Qed.

Lemma counts_nonneg ops map ip e : bans_ok ops map -> map !! ip = Some e -> 0 <= fa_count e.
Proof. intros Hok He. by destruct (Hok ip e He) as [([? _] & _) _]. Qed.

(** Repeated failures are answered by a ban: after a check that let the address
    pass, if at least three failures follow, each within a minute of the one
    before, then the address is refused until fifteen minutes after the last of
    them, whatever checks, cleanups and failures of other addresses come in
    between. *)
Theorem failures_ban ops0 t0 ops ip f fs now :
  timed 0 ops0 -> last_time 0 ops0 <= t0 -> (is_banned t0 ip (ban_run ops0 ∅)).1 = false ->
  timed t0 ops -> failures ip ops = f :: fs -> linked (f :: fs) -> (3 <= length (f :: fs))%nat ->
  last_time t0 ops <= now < f + BAN_DURATION ->
  (is_banned now ip (ban_run ops (is_banned t0 ip (ban_run ops0 ∅)).2)).1 = true.
Proof.
  intros H0 Hle Hpass Ht Hf Hl H3 Hnow.
  assert (Hok : bans_ok (ops0 ++ [(t0, OpCheck ip)]) (is_banned t0 ip (ban_run ops0 ∅)).2).
  { apply (ban_step_ok ops0 _ (t0, OpCheck ip)); [|done]. apply (ban_run_ok [] ops0 ∅); [by intros ? ?|done]. }
  assert (Hi : idle ip (is_banned t0 ip (ban_run ops0 ∅)).2).
  { split; [by apply check_unbans|]. intros e. by apply (counts_nonneg _ _ _ _ Hok). }
  pose proof (ban_run_counts ip t0 _ ops Hi Ht) as Hrun. rewrite Hf in Hrun.
  destruct (Hrun Hl) as (_ & e & He & _ & Hk & Hb); [right; split; lia|].
  unfold MAX_FAILED_ATTEMPTS in Hb. destruct Hb as [[? _]|[_ Hb]]; [lia|].
  unfold is_banned at 1. rewrite He, Hb. destruct (Z.ltb_spec now (f + BAN_DURATION)); [done|lia].
Qed.

(** ** The registry *)

(** A link of the key in the inbound direction counts one. *)
Definition inbound_one (key : PublicKey) (c : ActiveConn) : Z := if bool_decide (ac_key c = key) && ac_inbound c then 1 else 0.

Lemma inbound_count_total l key : inbound_count l key = Prelude.total (inbound_one key) (al_connections l).
Proof.
  unfold inbound_count, conns. induction (al_connections l) as [|id c m Hid IH] using map_ind.
  - by rewrite map_to_list_empty, total_empty.
  - rewrite total_insert_fresh, <- IH by done. unfold inbound_one.
    assert (Hp : (map_to_list (<[id := c]> m)).*2 ≡ₚ c :: (map_to_list m).*2) by (rewrite map_to_list_insert; done).
    assert (Hlen : forall (P : ActiveConn -> bool) l1 l2, l1 ≡ₚ l2 -> length (List.filter P l1) = length (List.filter P l2)).
    { intros P l1 l2. induction 1 as [|x l1 l2 _ IH'|x y l1|l1 l2 l3 _ IH1 _ IH2]; cbn; [done|..].
      - destruct (P x); cbn; congruence.
      - by destruct (P x), (P y).
      - congruence. }
    rewrite (Hlen _ _ _ Hp). cbn [List.filter]. destruct (bool_decide (ac_key c = key) && ac_inbound c); cbn [length]; lia.
Qed.

(** Two links of one key in one direction are over different sockets. *)
Definition sockets_distinct (m : gmap Z ActiveConn) : Prop :=
  forall i j c d a b, i <> j -> m !! i = Some c -> m !! j = Some d -> ac_key c = ac_key d -> ac_inbound c = ac_inbound d ->
    ac_remote_addr c = Some a -> ac_remote_addr d = Some b -> same_socket a b = false.

Record links_ok (l : ActiveLinks) : Prop := {
  lo_next : 0 <= al_next_id l;
  lo_ids : forall id c, al_connections l !! id = Some c -> 0 <= id < al_next_id l;
  lo_sockets : sockets_distinct (al_connections l);
  lo_inbound : 0 < al_max_inbound l -> forall key, inbound_count l key <= al_max_inbound l
}.

Lemma same_socket_sym a b : same_socket a b = same_socket b a.
Proof.
  destruct a, b; cbn; try (apply bool_decide_ext; split; congruence).
  by rewrite (Z.eqb_sym ip), (Z.eqb_sym port), (Z.eqb_sym scope_id).
Qed.

Lemma duplicate_socket_false l addr inbound key i c a : duplicate_socket l (Some addr) inbound key = false ->
  al_connections l !! i = Some c -> ac_key c = key -> ac_inbound c = inbound -> ac_remote_addr c = Some a ->
  same_socket a addr = false.
Proof.
  intros Hd Hc Hk Hi Ha. destruct (same_socket a addr) eqn:Hs; [|done]. exfalso. rewrite <- not_true_iff_false in Hd.
  apply Hd. unfold duplicate_socket. apply existsb_exists. exists c. split.
  - apply list_elem_of_In, list_elem_of_fmap. exists (i, c). split; [done|]. by apply elem_of_map_to_list.
  - rewrite bool_decide_eq_true_2 by done. unfold over_socket. by rewrite Ha, Hs, Hi, Bool.eqb_reflx.
Qed.

(** Entries that keep key, direction and socket keep the invariant. *)
Lemma sockets_distinct_fmap (f : ActiveConn -> ActiveConn) m :
  (forall c, ac_key (f c) = ac_key c /\ ac_inbound (f c) = ac_inbound c /\ ac_remote_addr (f c) = ac_remote_addr c) ->
  sockets_distinct m -> sockets_distinct (f <$> m).
Proof.
  intros Hf Hm i j c d a b Hij Hi Hj. apply lookup_fmap_Some in Hi as (c' & <- & Hi). apply lookup_fmap_Some in Hj as (d' & <- & Hj).
  destruct (Hf c') as (-> & -> & ->), (Hf d') as (-> & -> & ->). by apply (Hm i j).
Qed.

Lemma sockets_distinct_sub m m' : m' ⊆ m -> sockets_distinct m -> sockets_distinct m'.
Proof. intros Hsub Hm i j c d a b Hij Hi Hj. eapply (Hm i j); [done|by eapply lookup_weaken..]. Qed.

Lemma total_sub (g : ActiveConn -> Z) (m m' : gmap Z ActiveConn) : (forall c, 0 <= g c) -> m' ⊆ m -> Prelude.total g m' <= Prelude.total g m.
Proof.
  intros Hg. revert m'. induction m as [|id c m Hid IH] using map_ind; intros m' Hsub.
  - assert (m' = ∅) as ->; [|lia]. apply map_empty. intros i. destruct (m' !! i) eqn:Hi; [|done].
    by apply (lookup_weaken _ _ _ _ Hi) in Hsub.
  - rewrite total_insert_fresh by done. destruct (m' !! id) as [c'|] eqn:Hc'.
    + assert (c' = c) as ->. { apply (lookup_weaken _ _ _ _ Hc') in Hsub. rewrite lookup_insert_eq in Hsub. congruence. }
      pose proof (total_delete g m' id c Hc'). specialize (IH (delete id m')). enough (delete id m' ⊆ m) by (specialize (IH ltac:(done)); lia).
      rewrite <- (delete_insert_id m id c) by done. by apply delete_mono.
    + specialize (Hg c). enough (m' ⊆ m) by (specialize (IH m' ltac:(done)); lia).
      rewrite <- (delete_id m' id) by done. rewrite <- (delete_insert_id m id c) by done. by apply delete_mono.
Qed.

Lemma inbound_one_nonneg key c : 0 <= inbound_one key c.
Proof. unfold inbound_one. by destruct (_ && _). Qed.

(** Changing only counters, or removing links, keeps the invariant. *)
Lemma links_ok_fmap f l l' : links_ok l -> al_connections l' = f <$> al_connections l -> al_next_id l' = al_next_id l ->
  al_max_inbound l' = al_max_inbound l ->
  (forall c, ac_key (f c) = ac_key c /\ ac_inbound (f c) = ac_inbound c /\ ac_remote_addr (f c) = ac_remote_addr c) ->
  links_ok l'.
Proof.
  intros [Hn Hids Hs Hin] Hc Hnext Hmax Hf.
  assert (Ht : forall key, Prelude.total (inbound_one key) (f <$> al_connections l) = Prelude.total (inbound_one key) (al_connections l)).
  { intros key. generalize (al_connections l). clear -Hf. intros m0.
    induction m0 as [|id c m Hid IH] using map_ind; [by rewrite fmap_empty|].
    assert (Hid' : (f <$> m) !! id = None) by (rewrite lookup_fmap, Hid; reflexivity).
    rewrite fmap_insert, (total_insert_fresh _ (f <$> m)), (total_insert_fresh _ m), IH by done.
    unfold inbound_one. by destruct (Hf c) as (-> & -> & _). }
  split; rewrite ?Hnext, ?Hmax; [done|..].
  - intros id c. rewrite Hc. intros (c' & _ & Hc')%lookup_fmap_Some. by apply Hids in Hc'.
  - rewrite Hc. by apply sockets_distinct_fmap.
  - intros Hpos key. rewrite inbound_count_total, Hc, Ht, <- inbound_count_total. by apply Hin.
Qed.

Lemma links_ok_sub l l' : links_ok l -> al_connections l' ⊆ al_connections l -> al_next_id l' = al_next_id l ->
  al_max_inbound l' = al_max_inbound l -> links_ok l'.
Proof.
  intros [Hn Hids Hs Hin] Hsub Hnext Hmax. split; rewrite ?Hnext, ?Hmax; [done|..].
  - intros id c Hc. by apply (Hids id c), (lookup_weaken _ _ _ _ Hc).
  - by apply (sockets_distinct_sub _ _ Hsub).
  - intros Hpos key. specialize (Hin Hpos key). rewrite inbound_count_total in *.
    pose proof (total_sub (inbound_one key) _ _ (inbound_one_nonneg key) Hsub). lia.
Qed.

(** The identifiers handed out between two states of the registry: they are taken
    from the counter, each once, and no other link appeared. *)
Record ids_handed (ids : list Z) (l l' : ActiveLinks) : Prop := {
  ih_next : al_next_id l' = al_next_id l + Z.of_nat (length ids);
  ih_range : Forall (fun id => al_next_id l <= id < al_next_id l') ids;
  ih_nodup : NoDup ids;
  ih_live : forall id, is_Some (al_connections l' !! id) -> id ∈ ids \/ is_Some (al_connections l !! id)
}.

Lemma ids_handed_sub l l' : al_next_id l' = al_next_id l ->
  (forall id, is_Some (al_connections l' !! id) -> is_Some (al_connections l !! id)) -> ids_handed [] l l'.
Proof. intros Hn Hl. split; cbn; [lia|constructor|constructor|]. intros id Hid. right. by apply Hl. Qed.

Lemma ids_handed_none l : ids_handed [] l l.
Proof. by apply ids_handed_sub. Qed.

Lemma ids_handed_app a b l1 l2 l3 : ids_handed a l1 l2 -> ids_handed b l2 l3 -> ids_handed (a ++ b) l1 l3.
Proof.
  intros [Hn Hr Hd Hl] [Hn' Hr' Hd' Hl']. split.
  - rewrite length_app. lia.
  - apply Forall_app. split; [eapply Forall_impl; [exact Hr|]|eapply Forall_impl; [exact Hr'|]]; cbn; intros; lia.
  - apply NoDup_app. split_and!; [done| |done]. intros id Ha Hb.
    rewrite Forall_forall in Hr, Hr'. specialize (Hr id Ha). specialize (Hr' id Hb). cbn in *. lia.
  - intros id Hid. destruct (Hl' id Hid) as [Hb|[Ha|Hold]%Hl]; [left; apply elem_of_app; by right|left; apply elem_of_app; by left|by right].
Qed.

Lemma links_ok_register oc now uri addr inbound key priority l r l' : links_ok l -> al_next_id l < U64_MAX ->
  register oc now uri addr inbound key priority l = Ret (r, l') ->
  links_ok l' /\ ids_handed (match r with Ok id => [id] | Err _ => [] end) l l' /\ al_max_inbound l' = al_max_inbound l.
Proof.
  intros Hok Hn. unfold register.
  destruct (duplicate_socket l addr inbound key) eqn:Hd; [intros [= <- <-]; split_and!; [done|by apply ids_handed_none|done]|].
  destruct (inbound && _ && _) eqn:Hlim; [intros [= <- <-]; split_and!; [done|by apply ids_handed_none|done]|].
  destruct Hok as [H0 Hids Hs Hin]. rewrite arith64_ok by (unfold is_u64, U64_MAX in *; lia). rewrite ret_bind. intros [= <- <-].
  assert (Hfresh : al_connections l !! al_next_id l = None).
  { destruct (al_connections l !! al_next_id l) eqn:He; [|done]. apply Hids in He. lia. }
  split; [|split; [|done]].
  2: { split; cbn; [lia|constructor; [lia|constructor]|apply NoDup_singleton|].
       intros id [c [[<- _]|[_ Hc]]%lookup_insert_Some]; [by left; apply list_elem_of_here|right; by exists c]. }
  split; cbn.
  - lia.
  - intros id c [[<- _]|[_ Hc]]%lookup_insert_Some; [lia|]. apply Hids in Hc. lia.
  - intros i j c d a b Hij [[<- <-]|[_ Hi]]%lookup_insert_Some [[<- <-]|[_ Hj]]%lookup_insert_Some Hk Hi' Ha Hb; cbn in *.
    + done.
    + subst addr. rewrite same_socket_sym. by eapply (duplicate_socket_false l).
    + subst addr. by eapply (duplicate_socket_false l).
    + by apply (Hs i j c d).
  - intros Hpos key'. rewrite inbound_count_total. cbn. rewrite total_insert_fresh, <- inbound_count_total by done.
    specialize (Hin Hpos key'). unfold inbound_one. cbn. case_bool_decide as Hkk; [|cbn; lia]. subst key'.
    destruct inbound; cbn in *; [|lia].
    destruct (Z.ltb_spec 0 (al_max_inbound l)), (Z.leb_spec (al_max_inbound l) (inbound_count l key)); cbn in Hlim; lia || done.
Qed.

(** What the tasks do with the registry; [unregister] and [unregister_by_uri] with
    whatever their first step read, however long ago. *)
Inductive LinkOp :=
| OpRegister (now : Z) (uri : string) (addr : option SocketAddr) (inbound : bool) (key : PublicKey) (priority : Z)
| OpUnregisterFinish (id : Z) (key : option PublicKey)
| OpUnregisterUriFinish (ids_and_keys : list (Z * PublicKey))
| OpSetPeerId (id peer_id : Z)
| OpRateTick (now counter : Z).

(** The identifiers a step hands out, and the registry after it. *)
Definition link_step (oc : bool) (op : LinkOp) (l : ActiveLinks) : outcome (list Z * ActiveLinks) :=
  match op with
  | OpRegister now uri addr inbound key priority =>
      o ← register oc now uri addr inbound key priority l; Ret (match o.1 with Ok id => [id] | Err _ => [] end, o.2)
  | OpUnregisterFinish id key => Ret ([], unregister_finish id key l)
  | OpUnregisterUriFinish ids_and_keys => Ret ([], unregister_uri_finish ids_and_keys l)
  | OpSetPeerId id peer_id => Ret ([], set_peer_id id peer_id l)
  | OpRateTick now counter => Ret ([], (rate_tick now (counter, l)).2)
  end.

(** All the identifiers a history hands out, oldest first. *)
Fixpoint link_run (oc : bool) (ops : list LinkOp) (l : ActiveLinks) : outcome (list Z * ActiveLinks) :=
  match ops with
  | [] => Ret ([], l)
  | op :: ops => o ← link_step oc op l; o' ← link_run oc ops o.2; Ret (o.1 ++ o'.1, o'.2)
  end.

Lemma foldl_delete_sub (ids : list (Z * PublicKey)) (m : gmap Z ActiveConn) : foldl (fun m p => delete p.1 m) m ids ⊆ m.
Proof. revert m. induction ids as [|p ids IH]; intros m; cbn; [done|]. rewrite IH. apply delete_subseteq. Qed.

Lemma register_returns oc now uri addr inbound key priority l : 0 <= al_next_id l < U64_MAX ->
  exists o, register oc now uri addr inbound key priority l = Ret o.
Proof.
  intros Hn. unfold register. destruct (duplicate_socket _ _ _ _); [by eexists|]. destruct (inbound && _ && _); [by eexists|].
  rewrite arith64_ok by (unfold is_u64, U64_MAX in *; lia). by eexists.
Qed.

Lemma ids_handed_conns l l' : al_connections l' ⊆ al_connections l -> al_next_id l' = al_next_id l -> ids_handed [] l l'.
Proof. intros Hsub Hn. apply ids_handed_sub; [done|]. intros id [c Hc]. exists c. by eapply lookup_weaken. Qed.

Lemma links_ok_set_peer_id id peer_id l : links_ok l -> links_ok (set_peer_id id peer_id l).
Proof.
  intros [H0 Hids Hs Hin]. unfold set_peer_id. split; cbn; [done|..].
  - intros i c Hc. destruct (decide (i = id)) as [->|Hne].
    + rewrite lookup_alter_eq in Hc. apply fmap_Some in Hc as (c' & Hc' & _). by apply (Hids id c').
    + rewrite lookup_alter_ne in Hc by done. by apply (Hids i c).
  - assert (Hl : forall i c, alter (fun c => c <| ac_peer_id := peer_id |>) id (al_connections l) !! i = Some c ->
      exists c', al_connections l !! i = Some c' /\ ac_key c = ac_key c' /\ ac_inbound c = ac_inbound c' /\ ac_remote_addr c = ac_remote_addr c').
    { intros i c Hc. destruct (decide (i = id)) as [->|Hne].
      - rewrite lookup_alter_eq in Hc. apply fmap_Some in Hc as (c' & Hc' & ->). by exists c'.
      - rewrite lookup_alter_ne in Hc by done. by exists c. }
    intros i j c d a b Hij Hi Hj. apply Hl in Hi as (c' & Hi & -> & -> & ->). apply Hl in Hj as (d' & Hj & -> & -> & ->).
    by apply (Hs i j).
  - intros Hpos key. rewrite inbound_count_total. cbn. rewrite total_alter by done. rewrite <- inbound_count_total. by apply Hin.
Qed.

Lemma link_step_ok oc op l : links_ok l -> al_next_id l < U64_MAX ->
  exists ids l', link_step oc op l = Ret (ids, l') /\ links_ok l' /\ ids_handed ids l l' /\ (length ids <= 1)%nat /\ al_max_inbound l' = al_max_inbound l.
Proof.
  intros Hok Hn. destruct op as [now uri addr inbound key priority|id key|ids_and_keys|id peer_id|now counter]; cbn [link_step].
  - destruct (register_returns oc now uri addr inbound key priority l) as [[r l'] Hr]; [by destruct Hok|].
    rewrite Hr. cbn. eexists _, l'. split; [done|].
    destruct (links_ok_register oc now uri addr inbound key priority l r l' Hok Hn Hr) as (? & ? & ?).
    split_and!; [done|done|by destruct r; cbn; lia|done].
  - eexists _, _. split; [done|]. unfold unregister_finish.
    assert (Hsub : delete id (al_connections l) ⊆ al_connections l) by apply delete_subseteq.
    destruct key; cbn; (split_and!; [by eapply (links_ok_sub l)|by apply ids_handed_conns|lia|done]).
  - eexists _, _. split; [done|]. assert (Hsub := foldl_delete_sub ids_and_keys (al_connections l)).
    unfold unregister_uri_finish. cbn. split_and!; [by eapply (links_ok_sub l)|by apply ids_handed_conns|lia|done].
  - eexists _, _. split; [done|]. split_and!; [by apply links_ok_set_peer_id| |cbn; lia|done].
    apply ids_handed_sub; [done|]. unfold set_peer_id. cbn. intros i Hi. destruct (decide (i = id)) as [->|Hne].
    + rewrite lookup_alter_eq in Hi. by apply fmap_is_Some in Hi.
    + by rewrite lookup_alter_ne in Hi.
  - eexists _, _. split; [done|]. unfold rate_tick.
    destruct (60 <=? counter + 1); cbn; (split_and!; [by eapply (links_ok_fmap update_rate l); [..|by intros []]| |lia|done]);
      (apply ids_handed_sub; [done|]; cbn; intros i; by rewrite lookup_fmap, fmap_is_Some).
Qed.

Lemma link_run_ok oc ops l : links_ok l -> al_next_id l + Z.of_nat (length ops) < U64_MAX ->
  exists ids l', link_run oc ops l = Ret (ids, l') /\ links_ok l' /\ ids_handed ids l l' /\ al_max_inbound l' = al_max_inbound l.
Proof.
  revert l. induction ops as [|op ops IH]; intros l Hok Hn.
  { exists [], l. split_and!; [done|done|apply ids_handed_none|done]. }
  cbn [length] in Hn. cbn [link_run].
  destruct (link_step_ok oc op l Hok) as (ids & l1 & -> & Hok1 & Hids & Hlen & Hmax); [lia|]. rewrite ret_bind. cbn [fst snd].
  destruct (IH l1 Hok1) as (ids' & l2 & -> & Hok2 & Hids' & Hmax'); [destruct Hids; lia|]. rewrite ret_bind. cbn [fst snd].
  eexists _, _. split; [done|]. split_and!; [done|by eapply ids_handed_app|congruence].
Qed.

(** C38: However the tasks of the links interleave, fewer than 2^64 - 1 operations on the
    registry never panic and it stays sound: no identifier is handed out twice, however
    many links were removed in between, and every registered link has an identifier
    that was handed out; two links to one key in the same direction run over different
    remote sockets, and no key holds more inbound links than the configured limit
    (0: no limit). *)
Theorem links_registry_sound oc ops max_inbound : Z.of_nat (length ops) < U64_MAX ->
  exists ids l, link_run oc ops (ActiveLinks_new max_inbound) = Ret (ids, l) /\
    NoDup ids /\ (forall id, is_Some (al_connections l !! id) -> id ∈ ids) /\
    links_ok l /\ al_max_inbound l = max_inbound.
Proof.
  intros Hlen. destruct (link_run_ok oc ops (ActiveLinks_new max_inbound)) as (ids & l & Hl & Hok & [_ _ Hd Hlive] & Hmax).
  - split; cbn; [lia|done|done|]. intros Hpos key. rewrite inbound_count_total. cbn. rewrite total_empty. lia.
  - by cbn.
  - exists ids, l. split_and!; [done|done| |done|done]. intros id Hid. destruct (Hlive id Hid) as [?|[c Hc]]; done.
Qed.

(** ** Reconnection *)

(** An attempt that does not reset the back-off, followed by a full wait. *)
Definition short_failure (r : Attempt * Wake) : Prop :=
  r.2 = WaitOver /\ match r.1 with
                    | DialFailed _ => True
                    | ConnEnded (Err _) uptime => uptime < BACKOFF_RESET_UPTIME
                    | ConnEnded (Ok _) _ => False
                    end.

(** The wait at a back-off. *)
Definition backoff_wait (options : LinkOptions) (backoff : Z) : Z :=
  Z.min (2 ^ Z.min backoff BACKOFF_SHIFT_MAX * 1000000000) (lo_max_backoff options).

Lemma dial_round_spec options a backoff : 0 <= backoff <= 32 ->
  1 <= (dial_round options a backoff).1 <= 32 /\
  (dial_round options a backoff).2 = backoff_wait options (dial_round options a backoff).1.
Proof.
  intros Hb. unfold dial_round, backoff_wait.
  set (b := match a with DialFailed _ => backoff | ConnEnded _ _ => _ end).
  assert (Hb' : 0 <= b <= 32) by (unfold b; destruct a; [done|]; destruct (_ || _); lia).
  destruct (Z.ltb_spec b 32); cbn; (split; [lia|]); rewrite Z.shiftl_1_l; done.
Qed.

Lemma dial_round_short options a w backoff : short_failure (a, w) -> 0 <= backoff <= 32 ->
  (dial_round options a backoff).1 = Z.min (backoff + 1) 32.
Proof.
  intros [_ Ha] Hb. unfold dial_round. cbn in Ha.
  assert (Hk : match a with
    | ConnEnded res uptime =>
        if (match res with Ok _ => true | Err _ => false end) || (BACKOFF_RESET_UPTIME <=? uptime) then 0 else backoff
    | DialFailed _ => backoff end = backoff).
  { destruct a as [|[|] uptime]; [done|done|]. cbn. destruct (Z.leb_spec BACKOFF_RESET_UPTIME uptime); [lia|done]. }
  rewrite Hk. destruct (Z.ltb_spec backoff 32); cbn; lia.
Qed.

Lemma backoff_wait_bounds options backoff : 1 <= backoff ->
  Z.min 2000000000 (lo_max_backoff options) <= backoff_wait options backoff <= lo_max_backoff options.
Proof.
  intros Hb. unfold backoff_wait, BACKOFF_SHIFT_MAX.
  pose proof (Z.pow_le_mono_r 2 1 (Z.min backoff 16)). lia.
Qed.

Lemma dial_waits_bounds options rounds backoff : 0 <= backoff <= 32 ->
  Forall (fun w => Z.min 2000000000 (lo_max_backoff options) <= w <= lo_max_backoff options) (dial_waits options rounds backoff).
Proof.
  revert backoff. induction rounds as [|[a w] rounds IH]; intros backoff Hb; cbn [dial_waits]; [done|].
  destruct (dial_round_spec options a backoff Hb) as [H1 H2]. destruct (dial_round options a backoff) as [b wait]. cbn in *. subst wait.
  constructor; [apply backoff_wait_bounds; lia|]. apply IH. destruct w; cbn; lia.
Qed.

Lemma dial_waits_short options rounds backoff i : Forall short_failure rounds -> 0 <= backoff <= 32 -> (i < length rounds)%nat ->
  dial_waits options rounds backoff !! i = Some (backoff_wait options (Z.min (backoff + 1 + Z.of_nat i) 32)).
Proof.
  intros Hs. revert backoff i. induction Hs as [|[a w] rounds Ha _ IH]; intros backoff i Hb Hi; cbn in Hi; [lia|]. cbn [dial_waits].
  destruct (dial_round_spec options a backoff Hb) as [H1 H2]. pose proof (dial_round_short options a w backoff Ha Hb) as Hn.
  destruct (dial_round options a backoff) as [b wait]. cbn in *. subst wait b. destruct i as [|i]; cbn.
  - by rewrite Z.add_0_r.
  - destruct Ha as [Hw _]. cbn in Hw. subst w. cbn. rewrite IH by lia. do 2 f_equal. lia.
Qed.

(** Reconnection backs off and recovers: however the attempts end and the task
    is woken, every wait lies between two seconds (or the configured limit) and
    the limit, so a peer is always dialled again; the waits of a run of failed or
    short connections double from two seconds up to 2^16 seconds, cut at the
    limit. *)
Theorem reconnect_backoff_exact options rounds :
  Forall (fun w => Z.min 2000000000 (lo_max_backoff options) <= w <= lo_max_backoff options) (dial_waits options rounds 0) /\
  length (dial_waits options rounds 0) = length rounds /\
  (Forall short_failure rounds -> forall i, (i < length rounds)%nat ->
   dial_waits options rounds 0 !! i =
     Some (Z.min (2 ^ Z.min (Z.of_nat i + 1) BACKOFF_SHIFT_MAX * 1000000000) (lo_max_backoff options))).
Proof.
  split_and!; [by apply dial_waits_bounds| |].
  - generalize 0. induction rounds as [|[a w] rounds IH]; intros b; cbn; [done|]. destruct (dial_round options a b). cbn. by rewrite IH.
  - intros Hs i Hi. rewrite dial_waits_short by (done || lia). unfold backoff_wait, BACKOFF_SHIFT_MAX. do 4 f_equal. lia.
Qed.

(** ** Durations *)

(** The value of a string of digits. *)
Definition digits_value (ds : bytes) : Z := foldl (fun acc ch => acc * 10 + (ch - 48)) 0 ds.

(** A component of a duration: digits and a unit. *)
Definition unit_secs (u : Z) : Z := if u =? 104 then 3600 else if u =? 109 then 60 else 1.
Definition component_ok (c : bytes * Z) : Prop :=
  c.1 <> [] /\ forallb is_digit c.1 = true /\ (c.2 = 104 \/ c.2 = 109 \/ c.2 = 115).
Definition component_secs (c : bytes * Z) : Z := digits_value c.1 * unit_secs c.2.
Definition duration_text (cs : list (bytes * Z)) : bytes := cs ≫= (fun c => c.1 ++ [c.2]).
Definition duration_secs (cs : list (bytes * Z)) : Z := foldr (fun c acc => component_secs c + acc) 0 cs.

Lemma digits_value_nonneg ds : forallb is_digit ds = true -> 0 <= digits_value ds.
Proof.
  unfold digits_value. enough (H : forall acc, 0 <= acc -> forallb is_digit ds = true -> 0 <= foldl (fun acc ch => acc * 10 + (ch - 48)) acc ds).
  { by apply H. }
  induction ds as [|d ds IH]; intros acc Hacc Hd; cbn in *; [done|]. apply andb_prop in Hd as [Hd Hds]. apply IH; [|done].
  unfold is_digit in Hd. lia.
Qed.

Lemma parse_u64_digits ds : ds <> [] -> forallb is_digit ds = true -> digits_value ds <= U64_MAX -> parse_u64 ds = Some (digits_value ds).
Proof.
  intros Hne Hd Hv. assert (Hp : parse_digits ds = Some (digits_value ds)).
  { unfold parse_digits. rewrite bool_decide_eq_false_2, Hd by done. cbn. fold (digits_value ds).
    destruct (Z.leb_spec (digits_value ds) U64_MAX); [done|lia]. }
  destruct ds as [|d ds]; [done|]. cbn in Hd. apply andb_prop in Hd as [Hd _]. unfold is_digit in Hd. unfold parse_u64.
  destruct (decide (d = 43)) as [->|Hne']; [done|]. repeat case_match; try done.
Qed.

Lemma duration_loop_digits oc ds s total num unit : forallb is_digit ds = true ->
  duration_loop oc (ds ++ s) total num unit = duration_loop oc s total (num ++ ds) unit.
Proof.
  revert num. induction ds as [|d ds IH]; intros num Hd; [by rewrite app_nil_r|]. cbn in Hd. apply andb_prop in Hd as [Hd Hds].
  cbn [app duration_loop]. rewrite Hd, IH by done. by rewrite <- app_assoc.
Qed.

Lemma component_secs_nonneg c : component_ok c -> digits_value c.1 <= component_secs c.
Proof.
  intros (_ & Hd & Hu). apply digits_value_nonneg in Hd. unfold component_secs, unit_secs.
  destruct (_ =? 104); [lia|]. destruct (_ =? 109); lia.
Qed.

Lemma duration_loop_components oc cs total unit : Forall component_ok cs -> 0 <= total ->
  total + duration_secs cs <= U64_MAX ->
  duration_loop oc (duration_text cs) total [] unit = Ret (Ok (total + duration_secs cs)).
Proof.
  intros Hcs. revert total unit. induction Hcs as [|[ds u] cs Hc Hcs IH]; intros total unit H0 Hmax.
  - cbn. by rewrite Z.add_0_r.
  - unfold duration_text. cbn [mbind list_bind fst snd]. fold (duration_text cs). rewrite <- app_assoc.
    change (duration_secs ((ds, u) :: cs)) with (component_secs (ds, u) + duration_secs cs) in *.
    assert (Hrest : 0 <= duration_secs cs).
    { clear -Hcs. induction Hcs as [|c cs Hc _ IH]; cbn; [lia|]. pose proof (component_secs_nonneg c Hc).
      destruct Hc as (_ & Hd & _). apply digits_value_nonneg in Hd. fold (duration_secs cs). lia. }
    pose proof (component_secs_nonneg _ Hc) as Hle. destruct Hc as (Hne & Hd & Hu). cbn [fst snd] in *.
    pose proof (digits_value_nonneg ds Hd) as Hv.
    rewrite duration_loop_digits by done. cbn [app duration_loop].
    assert (Hnd : is_digit u = false) by (destruct Hu as [->|[->| ->]]; done). rewrite Hnd, parse_u64_digits by (done || lia).
    assert (Hs : component_secs (ds, u) = digits_value ds * unit_secs u) by done.
    assert (Hgo : forall k, k = unit_secs u ->
      (amount ← arith64 oc (digits_value ds * k); total_secs ← arith64 oc (total + amount);
       duration_loop oc (duration_text cs) total_secs [] true)
      = Ret (Ok (total + (component_secs (ds, u) + duration_secs cs)))).
    { intros k ->. rewrite <- Hs. rewrite !arith64_ok, ret_bind, arith64_ok, ret_bind by (unfold is_u64, U64_MAX in *; lia).
      rewrite IH by lia. do 2 f_equal. lia. }
    destruct Hu as [->|[->| ->]]; cbn [Z.eqb Pos.eqb]; by apply Hgo.
Qed.

(** Text with a unit in it is not a plain number. *)
Lemma duration_text_not_number cs : Forall component_ok cs -> cs <> [] -> parse_u64 (duration_text cs) = None.
Proof.
  intros Hcs Hne. destruct Hcs as [|[ds u] cs (Hds & Hd & Hu) Hcs]; [done|]. cbn [fst snd] in *.
  unfold duration_text. cbn [mbind list_bind fst snd]. fold (duration_text cs).
  assert (Hall : forallb is_digit ((ds ++ [u]) ++ duration_text cs) = false).
  { apply not_true_iff_false. rewrite !forallb_app. cbn. intros H. assert (is_digit u = false) by (destruct Hu as [->|[->| ->]]; done).
    destruct (forallb is_digit ds), (is_digit u), (forallb is_digit (duration_text cs)); done. }
  assert (Hp : parse_digits ((ds ++ [u]) ++ duration_text cs) = None).
  { unfold parse_digits. rewrite Hall. cbn [negb]. by rewrite orb_true_r. }
  destruct ds as [|d ds]; [done|]. cbn [app] in *. cbn in Hd. apply andb_prop in Hd as [Hd _]. unfold is_digit in Hd.
  unfold parse_u64. repeat case_match; try done. all: lia.
Qed.

(** Durations are read exactly: a number stands for that many seconds and a
    sequence of components (digits and one of the units h, m and s) for their sum,
    in any order and number, as long as the sum fits 64 bits. *)
Theorem durations_exact oc cs : Forall component_ok cs -> duration_secs cs <= U64_MAX ->
  parse_duration_string oc (duration_text cs) = Ret (Ok (duration_secs cs)) /\
  forall ds, ds <> [] -> forallb is_digit ds = true -> digits_value ds <= U64_MAX ->
    parse_duration_string oc ds = Ret (Ok (digits_value ds)).
Proof.
  intros Hcs Hmax. split.
  - unfold parse_duration_string. destruct (decide (cs = [])) as [->|Hne]; [done|].
    rewrite duration_text_not_number, duration_loop_components by (done || lia). done.
  - intros ds Hne Hd Hv. unfold parse_duration_string. by rewrite parse_u64_digits.
Qed.

(** Beyond 64 bits the sum is not refused: a build with overflow checks panics,
    one without reads a limit of more than 500 000 millennia as an hour. *)
Theorem duration_overflow_wraps :
  parse_duration_string false (bytes_of "5124095576030432h") = Ret (Ok 3584) /\
  parse_duration_string true (bytes_of "5124095576030432h") = Panic.
Proof. split; vm_compute; reflexivity. Qed.

(** ** Counting streams *)

Fixpoint count_all (oc : bool) (ns : list Z) (d : CountedDir) : outcome CountedDir :=
  match ns with [] => Ret d | n :: ns => d ← count_bytes oc n d; count_all oc ns d end.

(** Bytes are counted exactly: after transfers of these sizes the counter and the
    part not yet flushed add up to their sum, less than 64 KiB are outstanding,
    and a flush (or dropping the stream) brings the counter up to date. *)
Theorem counting_exact oc ns d : Forall (fun n => 0 <= n <= U32_MAX) ns ->
  0 <= cd_buffer d < FLUSH_THRESHOLD -> is_u64 (cd_counter d) ->
  exists d', count_all oc ns d = Ret d' /\ 0 <= cd_buffer d' < FLUSH_THRESHOLD /\
    wrap64 (cd_counter d' + cd_buffer d') = wrap64 (cd_counter d + cd_buffer d + foldr Z.add 0 ns) /\
    count_flush d' = mkCountedDir (wrap64 (cd_counter d + cd_buffer d + foldr Z.add 0 ns)) 0.
Proof.
  intros Hns. revert d. induction Hns as [|n ns Hn Hns IH]; intros d Hb Hc.
  - exists d. cbn. rewrite Z.add_0_r. split_and!; [done|lia|lia|done|]. unfold count_flush.
    destruct (Z.ltb_spec 0 (cd_buffer d)) as [|Hz]; [done|]. assert (cd_buffer d = 0) as Hz' by lia.
    rewrite Hz', Z.add_0_r, wrap64_id by done. destruct d; cbn in *. by subst.
  - cbn [count_all]. unfold count_bytes. unfold FLUSH_THRESHOLD, U32_MAX in *.
    rewrite arith64_ok, ret_bind by (unfold is_u64; lia).
    match goal with |- context [Ret (if ?b then ?x else ?y) ≫= _] => set (d1 := if b then x else y) end. rewrite ret_bind.
    assert (H1 : 0 <= cd_buffer d1 < 65536 /\ is_u64 (cd_counter d1) /\
      wrap64 (cd_counter d1 + cd_buffer d1) = wrap64 (cd_counter d + cd_buffer d + n)).
    { unfold d1. destruct (Z.leb_spec 65536 (cd_buffer d + n)) as [Hle|Hle]; cbn.
      - unfold count_flush. cbn. destruct (Z.ltb_spec 0 (cd_buffer d + n)); [|lia]. cbn. split_and!; [lia|lia|apply wrap64_is_u64|].
        rewrite Z.add_0_r, (wrap64_id (wrap64 _)) by apply wrap64_is_u64. f_equal. lia.
      - split_and!; [lia|lia|done|]. f_equal. lia. }
    destruct H1 as (Hb1 & Hc1 & Hw1). destruct (IH d1 Hb1 Hc1) as (d' & Hd' & Hb' & Hw' & Hf'). exists d'. cbn [foldr].
    assert (Hsum : wrap64 (cd_counter d1 + cd_buffer d1 + foldr Z.add 0 ns) = wrap64 (cd_counter d + cd_buffer d + (n + foldr Z.add 0 ns))).
    { rewrite <- wrap64_add, Hw1, wrap64_add. f_equal. lia. }
    split_and!; [done|lia|lia|congruence|congruence].
Qed.

(** ** Witnesses *)

Definition sec : Z := 1000000000.
Definition three_failures (ip : IpAddr) : list (Z * BanOp) :=
  [(sec, OpFail ip); (10 * sec, OpClean); (30 * sec, OpFail ip); (80 * sec, OpFail ip)].

Lemma ban_needs_failures_witness : exists t3, three_in_row (failures (AddrV4 1) (three_failures (AddrV4 1))) t3 /\ 100 * sec < t3 + BAN_DURATION.
Proof.
  apply (ban_needs_failures (three_failures (AddrV4 1)) (AddrV4 1) (100 * sec)).
  - vm_compute. repeat split; discriminate.
  - vm_compute. reflexivity.
Defined.

Lemma failures_ban_witness :
  (is_banned (979 * sec) (AddrV4 1) (ban_run (three_failures (AddrV4 1)) (is_banned 0 (AddrV4 1) (ban_run [] ∅)).2)).1 = true.
Proof.
  apply (failures_ban [] 0 (three_failures (AddrV4 1)) (AddrV4 1) (80 * sec) [30 * sec; sec]).
  - done.
  - done.
  - reflexivity.
  - vm_compute. repeat split; discriminate.
  - reflexivity.
  - vm_compute. repeat split; discriminate.
  - cbn. lia.
  - vm_compute. repeat split; discriminate.
Defined.

(** A link, a second one refused at the limit, the first one removed, a third one. *)
Definition sample_link_ops : list LinkOp :=
  [OpRegister 0 "tcp://x" (Some (SockV4 1 2)) true [7] 0; OpRegister 0 "tcp://y" (Some (SockV4 1 3)) true [7] 0;
   OpUnregisterUriFinish [(0, [7])]; OpRegister 5 "tcp://y" (Some (SockV4 1 3)) true [7] 0; OpUnregisterFinish 0 None].

Lemma links_registry_sound_witness : exists l,
  link_run true sample_link_ops (ActiveLinks_new 1) = Ret ([0; 1], l) /\ links_ok l /\ is_Some (al_connections l !! 1) /\ NoDup [0; 1].
Proof.
  destruct (links_registry_sound true sample_link_ops 1) as (ids & l & Hl & Hd & Hlive & Hok & _).
  - by vm_compute.
  - assert (Hids : ids = [0; 1] /\ is_Some (al_connections l !! 1)) by (vm_compute in Hl; injection Hl as <- <-; split; [done|by eexists]).
    destruct Hids as [-> Hone]. exists l. split_and!; [exact Hl|exact Hok|exact Hone|exact Hd].
Defined.

Lemma durations_exact_witness : parse_duration_string true (bytes_of "1h30m") = Ret (Ok 5400).
Proof.
  refine (proj1 (durations_exact true [([49], 104); ([51; 48], 109)] _ _)).
  - apply Forall_cons_2; [|apply Forall_cons_2; [|apply Forall_nil_2]]; (split; [discriminate|split; [reflexivity|cbn; lia]]).
  - by vm_compute.
Defined.

Lemma counting_exact_witness : exists d, count_all true [65000; 1000] (mkCountedDir 0 0) = Ret d /\ count_flush d = mkCountedDir 66000 0.
Proof.
  destruct (counting_exact true [65000; 1000] (mkCountedDir 0 0)) as (d & Hd & _ & _ & Hf).
  - repeat constructor; unfold U32_MAX; lia.
  - by vm_compute.
  - by vm_compute.
  - exists d. split; [exact Hd|]. rewrite Hf. reflexivity.
Defined.
