(* ===== verification/LinksConn.v ===== *)
(** * LinksConn: admission of links and the table of configured peers

    What [handle_connection] guarantees about a link it hands to the router, that
    two nodes that should link do link, and what the peer table keeps. *)

From S2P Require Import Prelude.
From S2P Require Import Wire.
From S2P Require Import Crypto.
From S2P Require Import Version.
From S2P Require Import Ckr.
From S2P Require Import Links.
From S2P Require Import LinksFacts.
From stdpp Require Import strings.
From stdpp Require Import options.
Open Scope Z_scope.

(** ** Dialling over TLS *)

Section Tls.
Context (hex_decode : string -> option bytes) (is_ip_addr : string -> bool) (overflow_checks : bool).
Context (server_name_try_from ip_try_from : string -> bool).

(** A host as [Url::host_str] writes an IPv6 address. *)
Definition bracketed (h : string) : Prop := exists s, h = String.append "[" s.

Lemma apply_option_sni key value opts opts' : key <> "sni"%string ->
  apply_option hex_decode is_ip_addr overflow_checks key value opts = Ret (Ok opts') -> lo_tls_sni opts' = lo_tls_sni opts.
Proof.
  intros Hk. unfold apply_option. rewrite (bool_decide_eq_false_2 (key = "sni"%string)) by done.
  repeat case_bool_decide; try (repeat case_match; intros; simplify_eq; done).
  destruct (parse_duration_string _ _) as [[secs|e]|]; cbn; try done. destruct (_ <? _); [done|]. by intros [= <-].
Qed.

Lemma apply_options_sni query opts opts' : Forall (fun p => p.1 <> "sni"%string) query ->
  apply_options hex_decode is_ip_addr overflow_checks query opts = Ret (Ok opts') -> lo_tls_sni opts' = lo_tls_sni opts.
Proof.
  intros Hq. revert opts. induction Hq as [|[key value] query Hk _ IH]; intros opts; cbn [apply_options]; [by intros [= ->]|].
  destruct (apply_option _ _ _ key value opts) as [[o|e]|] eqn:Ho; cbn; try done. intros H. apply apply_option_sni in Ho; [|done].
  apply IH in H. congruence.
Qed.

(** Dialling a TLS peer given by an IPv6 address panics: the URL's host carries
    brackets, so it is not recognised as an address and becomes the server name,
    which is refused, and the fall-back to the host as an address fails as well.
    This holds for every set of options without a server name of its own. *)
Theorem tls_ipv6_literal_panics query host opts
    (Haddr : forall h, bracketed h -> is_ip_addr h = false)
    (Hname : forall h, bracketed h -> server_name_try_from h = false)
    (Hip : forall h, bracketed h -> ip_try_from h = false)
    (Hhost : bracketed host) (Hq : Forall (fun p => p.1 <> "sni"%string) query)
    (Hopts : parse_link_options hex_decode is_ip_addr overflow_checks query (Some host) = Ret (Ok opts)) :
  lo_tls_sni opts = Some host /\
  dial_server_name server_name_try_from ip_try_from (lo_tls_sni opts) host = Panic.
Proof.
  unfold parse_link_options in Hopts.
  destruct (apply_options _ _ _ query LinkOptions_default) as [[o|e]|] eqn:Ho; cbn in Hopts; try done.
  apply apply_options_sni in Ho; [|done]. rewrite Ho in Hopts. cbn in Hopts. rewrite Haddr in Hopts by done.
  injection Hopts as <-. cbn. split; [done|]. unfold dial_server_name. cbn. by rewrite Hname, Hip.
Qed.

(** The other hosts do not panic: an address, or a name that is accepted, when no
    server name is given. *)
Lemma tls_host_ok host opts query : Forall (fun p => p.1 <> "sni"%string) query ->
  parse_link_options hex_decode is_ip_addr overflow_checks query (Some host) = Ret (Ok opts) ->
  server_name_try_from host = true \/ ip_try_from host = true ->
  exists name, dial_server_name server_name_try_from ip_try_from (lo_tls_sni opts) host = Ret name.
Proof.
  intros Hq Hopts Hok. unfold parse_link_options in Hopts.
  destruct (apply_options _ _ _ query LinkOptions_default) as [[o|e]|] eqn:Ho; cbn in Hopts; try done.
  apply apply_options_sni in Ho; [|done]. rewrite Ho in Hopts. cbn in Hopts.
  assert (Hsni : default host (lo_tls_sni opts) = host).
  { injection Hopts as <-. destruct (is_ip_addr host); cbn; by rewrite ?Ho. }
  unfold dial_server_name. rewrite Hsni. destruct (server_name_try_from host); [by eexists|].
  destruct Hok as [?| ->]; [done|by eexists].
Qed.
End Tls.

(** Names that do not start with a bracket. *)
Definition toy_name (h : string) : bool := negb (String.prefix "[" h).

Lemma tls_ipv6_literal_panics_witness : exists opts,
  parse_link_options (fun _ => None) (fun h => false) false [("priority", "1")] (Some "[2001:db8::1]") = Ret (Ok opts) /\
  dial_server_name toy_name (fun h => false) (lo_tls_sni opts) "[2001:db8::1]" = Panic.
Proof.
  destruct (parse_link_options (fun _ => None) (fun h => false) false [("priority", "1")] (Some "[2001:db8::1]")) as [[opts|e]|] eqn:H.
  - exists opts. split; [done|].
    apply (tls_ipv6_literal_panics (fun _ => None) (fun h => false) false toy_name (fun h => false) [("priority", "1")] "[2001:db8::1]" opts).
    + done.
    + intros h [s ->]. unfold toy_name. cbn. by destruct s.
    + done.
    + by exists "2001:db8::1]".
    + repeat constructor. discriminate.
    + exact H.
  - vm_compute in H. discriminate.
  - vm_compute in H. discriminate.
Defined.

(** ** The handshake on a stream *)

Section Admission.
Context `{D : Dalek} (blake2b512 : bytes -> bytes) (blake2b_mac512 : bytes -> bytes -> option bytes).
Context (parse_x509 : bytes -> option (list Z * bytes)).

Abbreviation decode := (Metadata_decode blake2b512 blake2b_mac512) (only parsing).
Abbreviation encode := (Metadata_encode blake2b512 blake2b_mac512) (only parsing).
Abbreviation exchange := (exchange_metadata blake2b512 blake2b_mac512) (only parsing).
Abbreviation handle := (handle_connection blake2b512 blake2b_mac512 parse_x509) (only parsing).
Abbreviation hash_of := (blake2b_hash blake2b512 blake2b_mac512) (only parsing).

Definition own_meta (core : LinkCore D) (options : LinkOptions) : Metadata := Metadata_new (lc_public_key core) (lo_priority options).

Lemma read_exact_ok n bs a b : read_exact n bs = Ok (a, b) -> bs = a ++ b /\ length a = n.
Proof.
  unfold read_exact. destruct (Nat.ltb_spec (length bs) n); [done|]. intros [= <- <-].
  rewrite take_drop, length_take. split; [done|lia].
Qed.

Lemma stream_read_ok s n bs a b : stream_read s n bs = Ok (a, b) <-> read_exact n bs = Ok (a, b).
Proof. unfold stream_read. destruct (read_exact n bs) as [[a' b']|e]; split; try done; by intros [= -> ->]. Qed.

(** The exchange succeeds exactly when the stream starts with metadata that
    decodes; what follows is left on the stream. *)
Lemma exchange_ok core options s sent m rest :
  exchange core options s = Ret (sent, Ok (m, rest)) <->
  encode (own_meta core options) (lc_signing_key core) (lo_password options) = Ret sent /\
  ls_write s = IoOk /\ ls_flush s = IoOk /\ decode (ls_bytes s) (lo_password options) = Ret (Ok (m, rest)).
Proof.
  unfold exchange_metadata, own_meta. destruct (encode _ _ _) as [enc|]; [|split; [done|by intros [? _]]]. rewrite ret_bind.
  destruct (ls_write s), (ls_flush s); try (split; [done|by intros (_ & ? & ? & _)]).
  destruct (stream_read s 6 (ls_bytes s)) as [[header bs]|e] eqn:H6.
  2: { split; [done|]. intros (_ & _ & _ & Hd). unfold Metadata_decode in Hd.
       destruct (read_exact 6 (ls_bytes s)) as [[h b]|e'] eqn:He; [|done]. apply (stream_read_ok s) in He. by rewrite H6 in He. }
  apply stream_read_ok in H6. pose proof H6 as H6'. apply read_exact_ok in H6' as [Hbs Hlen].
  destruct (negb (bool_decide (take 4 header = PREAMBLE))) eqn:Hpre.
  { split; [done|]. intros (_ & _ & _ & Hd). unfold Metadata_decode in Hd. by rewrite H6, Hpre in Hd. }
  destruct (Nat.ltb_spec (Z.to_nat (from_be_bytes (drop 4 header))) 64) as [Hs|Hs].
  { split; [done|]. intros (_ & _ & _ & Hd). unfold Metadata_decode in Hd. rewrite H6, Hpre in Hd.
    destruct (Nat.ltb_spec (Z.to_nat (from_be_bytes (drop 4 header))) SIGNATURE_SIZE); [done|unfold SIGNATURE_SIZE in *; lia]. }
  destruct (stream_read s (Z.to_nat (from_be_bytes (drop 4 header))) bs) as [[body bs']|e] eqn:Hb.
  2: { split; [done|]. intros (_ & _ & _ & Hd). unfold Metadata_decode in Hd. rewrite H6, Hpre in Hd.
       destruct (_ <? SIGNATURE_SIZE)%nat; [done|].
       destruct (read_exact _ bs) as [[h b]|e'] eqn:He; [|done]. apply (stream_read_ok s) in He. by rewrite Hb in He. }
  apply stream_read_ok, read_exact_ok in Hb as [-> Hlb]. rewrite Hbs.
  rewrite (decode_alone _ _ header body bs') by done.
  destruct (decode (header ++ body) (lo_password options)) as [[[m' r']|e]|]; cbn.
  - split; [intros [= <- <- <-]; done|]. by intros ([= <-] & _ & _ & [= <- <-]).
  - split; [done|]. by intros (_ & _ & _ & ?).
  - split; [done|]. by intros (_ & _ & _ & ?).
Qed.

Lemma exchange_sent core options s sent x : exchange core options s = Ret (sent, x) ->
  encode (own_meta core options) (lc_signing_key core) (lo_password options) = Ret sent.
Proof.
  unfold exchange_metadata. fold (own_meta core options). destruct (encode _ _ _) as [enc|]; [|done]. rewrite ret_bind. intros Hx.
  repeat case_match; simplify_eq; try done.
  all: match type of Hx with (_ ← ?d; _) = _ => destruct d; cbn in Hx; by simplify_eq end.
Qed.

(** With a password the MAC accepts, the exchange returns. *)
Lemma exchange_returns core options s : (forall data, is_Some (blake2b_mac512 (lo_password options) data)) ->
  exists x, exchange core options s = Ret x.
Proof.
  intros Hpw. unfold exchange_metadata, Metadata_encode.
  destruct (hash_returns blake2b512 blake2b_mac512 _ (md_public_key (Metadata_new (lc_public_key core) (lo_priority options))) Hpw) as [h ->].
  rewrite !ret_bind. destruct (ls_write s), (ls_flush s); try by eexists.
  destruct (stream_read s 6 _) as [[header bs]|e]; [|by eexists]. destruct (negb _); [by eexists|]. destruct (_ <? _)%nat; [by eexists|].
  destruct (stream_read s _ bs) as [[body bs']|e]; [|by eexists].
  destruct (decode_returns blake2b512 blake2b_mac512 (header ++ body) _ Hpw) as [r ->]. by eexists.
Qed.

(** ** The checks *)

(** What a key must satisfy to be linked. *)
Record key_welcome (link_type : LinkType) (options : LinkOptions) (core : LinkCore D) (cert : option bytes) (m : Metadata) : Prop := {
  kw_cert : forall c k, cert = Some c -> extract_ed25519_pubkey_from_cert parse_x509 c = Some k -> k = md_public_key m;
  kw_version : Metadata_check m = true;
  kw_other : md_public_key m <> lc_public_key core;
  kw_pinned : lo_pinned_keys options = [] \/ md_public_key m ∈ lo_pinned_keys options;
  kw_allowed : link_type = Incoming -> lc_allowed_keys core = [] \/ md_public_key m ∈ lc_allowed_keys core
}.

Lemma check_metadata_none link_type options core cert m :
  check_metadata parse_x509 link_type options core cert m = None <-> key_welcome link_type options core cert m.
Proof.
  unfold check_metadata. set (ck := cert ≫= _).
  assert (Hck : ck = match cert with Some c => extract_ed25519_pubkey_from_cert parse_x509 c | None => None end) by (by destruct cert).
  clearbody ck. subst ck. split.
  - destruct (bool_decide (is_Some _) && _) eqn:H1; [done|]. destruct (Metadata_check m) eqn:H2; [|done]. cbn [negb].
    destruct (bool_decide_reflect (md_public_key m = lc_public_key core)) as [H3|H3]; [done|]. destruct (negb _ && negb _) eqn:H4; [done|]. destruct (_ && negb (is_key_allowed core (md_public_key m))) eqn:H5; [done|]. intros _. split; try done.
    + intros c k -> Hk. cbv beta iota in H1. rewrite Hk in H1. rewrite bool_decide_eq_true_2 in H1 by done. cbn in H1.
      destruct (bool_decide_reflect (Some k = Some (md_public_key m))); [congruence|done].
    + destruct (bool_decide (lo_pinned_keys options = [])) eqn:Hp; [left; by apply bool_decide_eq_true in Hp|].
      cbn in H4. right. by destruct (bool_decide_reflect (md_public_key m ∈ lo_pinned_keys options)).
    + intros ->. cbn in H5. unfold is_key_allowed in H5.
      destruct (bool_decide_reflect (lc_allowed_keys core = [])); [by left|]. cbn in H5.
      destruct (bool_decide_reflect (md_public_key m ∈ lc_allowed_keys core)); [by right|done].
  - intros [H1 H2 H3 H4 H5].
    assert (Hc : bool_decide (is_Some (match cert with Some c => extract_ed25519_pubkey_from_cert parse_x509 c | None => None end))
      && negb (bool_decide ((match cert with Some c => extract_ed25519_pubkey_from_cert parse_x509 c | None => None end) = Some (md_public_key m))) = false).
    { destruct cert as [c|]; [|done]. destruct (extract_ed25519_pubkey_from_cert parse_x509 c) as [k|] eqn:Hk; [|done].
      rewrite (H1 c k) by done. rewrite (bool_decide_eq_true_2 (Some _ = _)) by done. apply andb_false_r. }
    rewrite Hc, H2, (bool_decide_eq_false_2 (_ = lc_public_key core)) by done. cbn [negb].
    assert (Hp : negb (bool_decide (lo_pinned_keys options = [])) && negb (bool_decide (md_public_key m ∈ lo_pinned_keys options)) = false).
    { destruct H4 as [Hp|Hp]; rewrite (bool_decide_eq_true_2 _ Hp); [done|apply andb_false_r]. }
    rewrite Hp. destruct link_type; try done. cbn. unfold is_key_allowed.
    destruct (H5 eq_refl) as [Ha|Ha]; rewrite (bool_decide_eq_true_2 _ Ha); cbn; [done|by rewrite orb_true_r].
Qed.

(** ** Admission *)

Definition is_incoming (link_type : LinkType) : bool := match link_type with Incoming => true | _ => false end.

(** Whether the address of the stream is banned, and the registry after the
    check. *)
Definition stream_banned (now : Z) (s : LinkStream) (active : ActiveLinks) : bool :=
  match ls_peer_addr s with Some a => (is_banned now (sock_ip a) (al_ban_list active)).1 | None => false end.
Definition after_check (now : Z) (s : LinkStream) (active : ActiveLinks) : ActiveLinks :=
  match ls_peer_addr s with
  | Some a => active <| al_ban_list := (is_banned now (sock_ip a) (al_ban_list active)).2 |>
  | None => active
  end.

(** The refusals that count as failures of the address. *)
Definition counts_as_failure (e : LinkError) : bool :=
  match e with LinkCertificate | LinkVersion _ _ | LinkNotAllowed => true | _ => false end.

Lemma check_metadata_counts link_type options core cert m e b :
  check_metadata parse_x509 link_type options core cert m = Some (e, b) -> b = counts_as_failure e.
Proof. unfold check_metadata. repeat case_match; by intros [= <- <-]. Qed.

Lemma handle_unfold oc now now' link_type options s core uri active :
  handle oc now now' link_type options s core uri active =
    if stream_banned now s active then Ret (Err LinkBanned, after_check now s active)
    else
      x ← exchange core options s;
      match x.2 with
      | Err e => Ret (Err e, after_check now s active)
      | Ok (m, rest) =>
          match check_metadata parse_x509 link_type options core (ls_peer_cert s) m with
          | Some (e, failed) => Ret (Err e, if failed : bool then fail_ip now' (sock_ip <$> ls_peer_addr s) (after_check now s active) else after_check now s active)
          | None =>
              let priority := Z.max (lo_priority options) (md_priority m) in
              o ← register oc now' uri (ls_peer_addr s) (is_incoming link_type) (md_public_key m) priority (after_check now s active);
              let '(r, active) := o in
              match r with
              | Ok conn_id => Ret (Ok (mkAcceptedLink conn_id (md_public_key m) priority rest), active)
              | Err InboundLimit => Ret (Err LinkInboundLimit, active)
              | Err DuplicateSocket => Ret (Err LinkDuplicateSocket, active)
              end
          end
      end.
Proof.
  unfold handle_connection, stream_banned, after_check, is_incoming. destruct (ls_peer_addr s) as [a|]; [|done]. cbn [fmap option_fmap option_map].
  by destruct (is_banned now (sock_ip a) (al_ban_list active)) as [b bl].
Qed.

Lemma register_ok oc now uri addr inbound key priority l id l' :
  register oc now uri addr inbound key priority l = Ret (Ok id, l') ->
  id = al_next_id l /\
  al_connections l' = <[id := mkActiveConn uri addr inbound key priority 0 0 NO_PEER_ID 0 0 0 0 now]> (al_connections l) /\
  al_events l' = al_events l ++ [Connected key uri inbound] /\ al_ban_list l' = al_ban_list l.
Proof.
  unfold register. destruct (duplicate_socket _ _ _ _); [done|]. destruct (_ && _ && _); [done|].
  destruct (arith64 _ _); [|done]. rewrite ret_bind. by intros [= <- <-].
Qed.

Lemma register_err oc now uri addr inbound key priority l e l' :
  register oc now uri addr inbound key priority l = Ret (Err e, l') -> l' = l.
Proof.
  unfold register. destruct (duplicate_socket _ _ _ _); [by intros [= _ <-]|]. destruct (_ && _ && _); [by intros [= _ <-]|].
  by destruct (arith64 _ _).
Qed.

Lemma after_check_same now s active : al_connections (after_check now s active) = al_connections active /\
  al_events (after_check now s active) = al_events active /\ al_next_id (after_check now s active) = al_next_id active /\
  al_max_inbound (after_check now s active) = al_max_inbound active.
Proof. unfold after_check. by destruct (ls_peer_addr s). Qed.

(** *** The bytes of the metadata *)

(** Tagged fields one after the other: identifier, length, value. *)
Inductive fields_at : bytes -> list (Z * bytes) -> Prop :=
| FieldsEnd : fields_at [] []
| FieldsNext id_bytes len_bytes field rest fs : length id_bytes = 2%nat -> length len_bytes = 2%nat ->
    Z.to_nat (from_be_bytes len_bytes) = length field -> fields_at rest fs ->
    fields_at (id_bytes ++ len_bytes ++ field ++ rest) ((from_be_bytes id_bytes, field) :: fs).

(** The value that counts for an identifier: the last one. *)
Definition last_field (fs : list (Z * bytes)) (id : Z) : option bytes := last (filter (fun f => f.1 = id) fs).*2.

(** The metadata that fields announce; this node's version, a zero key and priority 0
    where a field is missing. *)
Record announces (fs : list (Z * bytes)) (m : Metadata) : Prop := {
  an_major : md_major_ver m = from_option from_be_bytes PROTOCOL_VERSION_MAJOR (last_field fs 0);
  an_minor : md_minor_ver m = from_option from_be_bytes PROTOCOL_VERSION_MINOR (last_field fs 1);
  an_key : md_public_key m = default (replicate 32 0) (last_field fs 2);
  an_priority : md_priority m = from_option (fun f => f !!! 0%nat) 0 (last_field fs 3)
}.

Lemma last_field_cons id f fs i : last_field ((id, f) :: fs) i =
  if decide (id = i) then Some (default f (last_field fs i)) else last_field fs i.
Proof.
  unfold last_field. rewrite filter_cons. cbn [fst]. destruct (decide (id = i)); [|done]. rewrite fmap_cons, last_cons. by destruct (last _).
Qed.

Lemma parse_fields_at fuel : forall fields meta m, parse_fields fuel fields meta = Ok m ->
  exists fs, fields_at fields fs /\ apply_fields meta fs = Ok m.
Proof.
  induction fuel as [|fuel IH]; intros fields meta m; [done|]. cbn [parse_fields].
  destruct (Nat.leb_spec 4 (length fields)) as [H4|H4].
  - destruct (Nat.ltb_spec (length (drop 4 fields)) (Z.to_nat (from_be_bytes (take 2 (drop 2 fields))))) as [|Hl]; [done|].
    set (n := Z.to_nat (from_be_bytes (take 2 (drop 2 fields)))) in *.
    destruct (apply_field _ _ _) as [meta1|] eqn:Ha; [|done]. cbn [mbind result_bind]. intros (fs & Hf & Hm)%IH.
    exists ((from_be_bytes (take 2 fields), take n (drop 4 fields)) :: fs). split; [|cbn [apply_fields]; by rewrite Ha].
    assert (fields = take 2 fields ++ take 2 (drop 2 fields) ++ take n (drop 4 fields) ++ drop n (drop 4 fields)) as E.
    { rewrite (take_drop n). change 4%nat with (2 + 2)%nat. rewrite <- drop_drop, take_drop. by rewrite take_drop. }
    rewrite E at 1. constructor; [rewrite length_take; lia|rewrite length_take, length_drop; lia| |done]. rewrite length_take. fold n. lia.
  - destruct (Nat.eqb_spec (length fields) 0) as [H0|]; [|done]. intros [= <-]. exists [].
    apply length_zero_iff_nil in H0 as ->. split; [constructor|done].
Qed.

(** Fields applied one after the other leave the last value of each. *)
Lemma apply_fields_last fs : forall meta m, apply_fields meta fs = Ok m ->
  md_major_ver m = from_option from_be_bytes (md_major_ver meta) (last_field fs 0)
  /\ md_minor_ver m = from_option from_be_bytes (md_minor_ver meta) (last_field fs 1)
  /\ md_public_key m = default (md_public_key meta) (last_field fs 2)
  /\ md_priority m = from_option (fun f => f !!! 0%nat) (md_priority meta) (last_field fs 3).
Proof.
  induction fs as [|[id f] fs IH]; intros meta m; cbn [apply_fields]; [by intros [= <-]|].
  destruct (apply_field meta id f) as [meta1|] eqn:Ha; [|done]. cbn [mbind result_bind]. intros (-> & -> & -> & ->)%IH.
  rewrite !last_field_cons. unfold apply_field, META_VERSION_MAJOR, META_VERSION_MINOR, META_PUBLIC_KEY, META_PRIORITY in Ha.
  destruct (Z.eqb_spec id 0) as [->|N0]; [|destruct (Z.eqb_spec id 1) as [->|N1]; [|destruct (Z.eqb_spec id 2) as [->|N2];
    [|destruct (Z.eqb_spec id 3) as [->|N3]]]].
  1-4: match type of Ha with (if ?b then _ else _) = _ => destruct b; [|done] end; injection Ha as <-;
    repeat case_decide; try lia; split_and!; try done;
    match goal with |- context [last_field ?l ?i] => destruct (last_field l i); reflexivity end.
  injection Ha as <-. by rewrite !decide_False by done.
Qed.

(** What the decoder accepts, byte by byte. *)
Lemma decode_layout reader password m rest : decode reader password = Ret (Ok (m, rest)) ->
  exists len_bytes fields fs sig hash,
    reader = PREAMBLE ++ len_bytes ++ fields ++ sig ++ rest /\ length len_bytes = 2%nat /\ length sig = SIGNATURE_SIZE
    /\ Z.to_nat (from_be_bytes len_bytes) = (length fields + SIGNATURE_SIZE)%nat
    /\ fields_at fields fs /\ announces fs m
    /\ hash_of (md_public_key m) password = Ret hash /\ verify (md_public_key m) hash sig = true.
Proof.
  unfold Metadata_decode. destruct (read_exact 6 reader) as [[header r1]|] eqn:H6; [|done]. apply read_exact_ok in H6 as [-> Lh].
  case_bool_decide as Hpre; [|done]. cbn [negb].
  set (len := Z.to_nat _). destruct (Nat.ltb_spec len SIGNATURE_SIZE); [done|].
  destruct (read_exact len r1) as [[body r2]|] eqn:Hb; [|done]. apply read_exact_ok in Hb as [-> Lb].
  destruct (parse_fields _ _ _) as [meta|e] eqn:Hp; [|done]. destruct (hash_of (md_public_key meta) password) as [hash|] eqn:Hhash; [|done].
  rewrite ret_bind. intros [= Hv]. destruct (verify_metadata meta hash _) as [m'|e] eqn:Hver; [|done]. cbn [mbind result_bind] in Hv.
  injection Hv as <- <-. apply verify_metadata_ok in Hver as [-> Hver]. apply parse_fields_at in Hp as (fs & Hf & Ha).
  exists (drop 4 header), (take (len - SIGNATURE_SIZE) body), fs, (drop (len - SIGNATURE_SIZE) body), hash. split_and!; try done.
  - rewrite <- Hpre. rewrite (app_assoc (take _ body)), take_drop, !app_assoc, (take_drop 4). done.
  - rewrite length_drop. lia.
  - rewrite length_drop. lia.
  - rewrite length_take. fold len. lia.
  - apply apply_fields_last in Ha as (H1 & H2 & H3 & H4). by split.
Qed.

(** C30: Admission of a link. Whatever bytes and certificate a connection presents:
    if it is admitted, its address was not banned; the bytes are the preamble, a
    length, tagged fields, the signature of the announced key under the password and
    the rest that is left for the router; the metadata are what the fields announce
    (the last one of each kind); their major version is this node's and the minor one
    not older, the key agrees with the TLS certificate, is not this node's, is pinned
    if keys are pinned, and allowed when incoming; exactly one link with this key,
    direction and socket is added, with the larger of the priorities announced and
    configured. If it is refused, no link and no event is added, and a failure of the
    address is recorded exactly for a wrong certificate, a wrong version or a key
    that is not allowed; other failed handshakes (preamble, signature, timeout) are not
    recorded, although the comment on the limit speaks of all. *)
Theorem link_admission_exact oc now now' link_type options s core uri active r active'
    (Hrun : handle oc now now' link_type options s core uri active = Ret (r, active')) :
  match r with
  | Ok link =>
      stream_banned now s active = false /\
      (exists len_bytes fields fs sig hash m,
         ls_bytes s = PREAMBLE ++ len_bytes ++ fields ++ sig ++ ad_rest link /\ length len_bytes = 2%nat /\
         length sig = SIGNATURE_SIZE /\ Z.to_nat (from_be_bytes len_bytes) = (length fields + SIGNATURE_SIZE)%nat /\
         fields_at fields fs /\ announces fs m /\
         hash_of (ad_key link) (lo_password options) = Ret hash /\ verify (ad_key link) hash sig = true /\
         md_major_ver m = PROTOCOL_VERSION_MAJOR /\ PROTOCOL_VERSION_MINOR <= md_minor_ver m /\
         md_public_key m = ad_key link /\ key_welcome link_type options core (ls_peer_cert s) m /\
         ad_priority link = Z.max (lo_priority options) (md_priority m)) /\
      al_connections active' =
        <[ad_id link := mkActiveConn uri (ls_peer_addr s) (is_incoming link_type) (ad_key link) (ad_priority link) 0 0 NO_PEER_ID 0 0 0 0 now']>
          (al_connections active) /\
      al_events active' = al_events active ++ [Connected (ad_key link) uri (is_incoming link_type)] /\
      al_ban_list active' = al_ban_list (after_check now s active)
  | Err e =>
      al_connections active' = al_connections active /\ al_events active' = al_events active /\
      al_ban_list active' =
        match ls_peer_addr s with
        | Some a => if counts_as_failure e then (record_failure now' (sock_ip a) (al_ban_list (after_check now s active))).2
                    else al_ban_list (after_check now s active)
        | None => al_ban_list active
        end
  end.
Proof.
  destruct (after_check_same now s active) as (Hc & He & _ & _). rewrite handle_unfold in Hrun.
  assert (Hsame : forall e, counts_as_failure e = false ->
    al_ban_list (after_check now s active) =
      match ls_peer_addr s with
      | Some a => if counts_as_failure e then (record_failure now' (sock_ip a) (al_ban_list (after_check now s active))).2
                  else al_ban_list (after_check now s active)
      | None => al_ban_list active
      end).
  { intros e ->. unfold after_check. by destruct (ls_peer_addr s). }
  destruct (stream_banned now s active) eqn:Hban. { injection Hrun as <- <-. split_and!; [done|done|by apply Hsame]. }
  destruct (exchange core options s) as [[sent x]|] eqn:Hx; [|done]. rewrite ret_bind in Hrun. cbn [snd] in Hrun.
  destruct x as [[m rest]|e].
  2: { injection Hrun as <- <-. split_and!; [done|done|]. apply Hsame.
       unfold exchange_metadata in Hx. destruct (encode _ _ _); [|done]. rewrite ret_bind in Hx. unfold stream_read in Hx.
       repeat case_match; simplify_eq; try done.
       all: match type of Hx with (_ ← ?d; _) = _ => destruct d as [[[]|]|]; cbn in Hx; by simplify_eq end. }
  destruct (check_metadata _ _ _ _ _ _) as [[e failed]|] eqn:Hcheck.
  { apply check_metadata_counts in Hcheck as ->. injection Hrun as <- <-. unfold fail_ip.
    destruct (counts_as_failure e) eqn:Hf; [|specialize (Hsame e Hf); rewrite Hf in Hsame; done].
    unfold after_check. by destruct (ls_peer_addr s). }
  cbv zeta in Hrun. destruct (register _ _ _ _ _ _ _ _) as [[[id|e] l]|] eqn:Hreg; [..|done]; rewrite ret_bind in Hrun.
  - injection Hrun as <- <-. cbn [ad_key ad_rest ad_id ad_priority]. apply register_ok in Hreg as (-> & Hconn & Hev & Hbl).
    apply exchange_ok in Hx as (_ & _ & _ & Hd). apply decode_layout in Hd as (lb & fields & fs & sig & hash & H1 & H2 & H3 & H4 & H5 & H6 & H7 & H8).
    apply check_metadata_none in Hcheck. pose proof (kw_version _ _ _ _ _ Hcheck) as Hver. unfold Metadata_check in Hver.
    apply andb_prop in Hver as [[Hma%Z.eqb_eq Hmi%Z.leb_le]%andb_prop _].
    rewrite Hconn, Hev, Hbl, Hc, He. split_and!; try done. exists lb, fields, fs, sig, hash, m. by split_and!.
  - apply register_err in Hreg as ->. destruct e; injection Hrun as <- <-; (split_and!; [done|done|by apply Hsame]).
Qed.

Lemma own_meta_wf core options : key_wf (lc_public_key core) -> is_u8 (lo_priority options) -> Metadata_wf (own_meta core options).
Proof. intros Hk Hp. by split. Qed.

(** The registry takes a link that neither repeats a socket nor exceeds the
    limit. *)
Definition has_room (l : ActiveLinks) (addr : option SocketAddr) (inbound : bool) (key : PublicKey) : Prop :=
  duplicate_socket l addr inbound key = false /\
  (inbound = true -> al_max_inbound l = 0 \/ inbound_count l key < al_max_inbound l) /\ 0 <= al_next_id l < U64_MAX.

Lemma register_room oc now uri addr inbound key priority l : has_room l addr inbound key ->
  exists l', register oc now uri addr inbound key priority l = Ret (Ok (al_next_id l), l').
Proof.
  intros (Hd & Hl & Hn). unfold register. rewrite Hd.
  assert (Hlim : inbound && (0 <? al_max_inbound l) && (al_max_inbound l <=? inbound_count l key) = false).
  { destruct inbound; [|done]. destruct (Hl eq_refl) as [->|Hlt]; [done|].
    destruct (Z.leb_spec (al_max_inbound l) (inbound_count l key)); [lia|]. apply andb_false_r. }
  rewrite Hlim, arith64_ok, ret_bind by (unfold is_u64, U64_MAX in *; lia). by eexists.
Qed.

(** Nodes that should link do link: the metadata a node sends are accepted by
    every node with the same password that welcomes its key, is not banning the
    address and has room for the link; the link carries the sender's key, the
    larger of the two priorities and all bytes that follow. Nothing in the
    exchange depends on the connection it is made on: the bytes are accepted
    whoever delivers them. *)
Theorem links_connect `{!DalekLaws} oc now now' link_type core_a options_a core_b options_b s uri active rest
    (Hpw : forall data, is_Some (blake2b_mac512 (lo_password options_b) data))
    (Hsame : lo_password options_a = lo_password options_b)
    (Hkey : lc_public_key core_a = sk_verifying_key_bytes (lc_signing_key core_a)) (Hwf : key_wf (lc_public_key core_a))
    (Hprio : is_u8 (lo_priority options_a))
    (Hwelcome : key_welcome link_type options_b core_b (ls_peer_cert s) (own_meta core_a options_a))
    (Hio : ls_write s = IoOk /\ ls_flush s = IoOk)
    (Hban : stream_banned now s active = false)
    (Hroom : has_room active (ls_peer_addr s) (is_incoming link_type) (lc_public_key core_a)) :
  exists sent, encode (own_meta core_a options_a) (lc_signing_key core_a) (lo_password options_a) = Ret sent /\
    (ls_bytes s = sent ++ rest ->
     exists active', handle oc now now' link_type options_b s core_b uri active =
       Ret (Ok (mkAcceptedLink (al_next_id active) (lc_public_key core_a)
                  (Z.max (lo_priority options_b) (lo_priority options_a)) rest), active')).
Proof.
  destruct (hash_returns blake2b512 blake2b_mac512 _ (lc_public_key core_a) Hpw) as [hash Hhash].
  pose proof (own_meta_wf core_a options_a Hwf Hprio) as Hm.
  assert (Hlen : Z.of_nat (length (concat (tlv <$> meta_fields (own_meta core_a options_a) ++ []))) + 64 < 2 ^ 16).
  { rewrite app_nil_r. unfold meta_fields, tlv. cbn [own_meta Metadata_new md_public_key]. cbn [fmap list_fmap concat fst snd].
    rewrite !length_app, !to_be_bytes_length. destruct Hwf as [Hk _]. unfold own_meta, Metadata_new. cbn [md_public_key]. rewrite Hk. cbn. lia. }
  destruct (handshake_roundtrip blake2b512 blake2b_mac512 (own_meta core_a options_a) (lc_signing_key core_a) (lo_password options_a) hash [] rest)
    as [Henc Hdec]; [done|done|by rewrite Hsame|constructor|constructor|done|].
  rewrite app_nil_r in Hdec. eexists. split; [exact Henc|]. intros Hbytes. rewrite <- Hbytes, Hsame in Hdec.
  rewrite handle_unfold, Hban.
  destruct (exchange_returns core_b options_b s Hpw) as [[sent x] Hx].
  assert (x = Ok (own_meta core_a options_a, rest)) as ->.
  { assert (He : encode (own_meta core_b options_b) (lc_signing_key core_b) (lo_password options_b) = Ret sent).
    { by apply exchange_sent in Hx. }
    assert (Hok : exchange core_b options_b s = Ret (sent, Ok (own_meta core_a options_a, rest))).
    { apply exchange_ok. destruct Hio. done. }
    congruence. }
  rewrite Hx, ret_bind. cbn [snd]. rewrite (proj2 (check_metadata_none _ _ _ _ _)) by done. cbv zeta.
  destruct (after_check_same now s active) as (Hc & _ & Hn & Hmx).
  destruct (register_room oc now' uri (ls_peer_addr s) (is_incoming link_type) (lc_public_key core_a)
    (Z.max (lo_priority options_b) (lo_priority options_a)) (after_check now s active)) as [l' Hl'].
  { unfold has_room, duplicate_socket, inbound_count, conns in *. by rewrite Hc, Hn, Hmx. }
  change (md_public_key (own_meta core_a options_a)) with (lc_public_key core_a).
  change (md_priority (own_meta core_a options_a)) with (lo_priority options_a).
  rewrite Hl', ret_bind, Hn. by eexists.
Qed.
End Admission.

(** ** The table of configured peers *)

Section TableFacts.
Context `{HashOrder} (hex_decode : string -> option bytes) (is_ip_addr : string -> bool) (overflow_checks : bool).
Context (parse_url : string -> option PeerUrl) (has_ws has_quic : bool).

Abbreviation add := (add_peer hex_decode is_ip_addr overflow_checks parse_url has_ws has_quic) (only parsing).

(** What parsed options satisfy. *)
Record options_ok (o : LinkOptions) : Prop := {
  oo_pinned : Forall (fun k => length k = 32%nat) (lo_pinned_keys o);
  oo_priority : 0 <= lo_priority o <= U8_MAX;
  oo_password : (length (lo_password o) <= 64)%nat;
  oo_backoff : MINIMUM_BACKOFF_LIMIT <= lo_max_backoff o
}.

Lemma parse_u64_nonneg s n : parse_u64 s = Some n -> 0 <= n.
Proof.
  assert (Hd : forall s n, parse_digits s = Some n -> 0 <= n).
  { intros s' n'. unfold parse_digits. destruct (bool_decide (s' = [])); [done|]. destruct (forallb is_digit s') eqn:Ha; [|done].
    cbn. fold (digits_value s'). destruct (_ <=? _); [|done]. intros [= <-]. by apply digits_value_nonneg. }
  unfold parse_u64. intros Hs. repeat case_match; by apply Hd in Hs.
Qed.

Lemma apply_option_ok key value o o' : options_ok o ->
  apply_option hex_decode is_ip_addr overflow_checks key value o = Ret (Ok o') -> options_ok o'.
Proof.
  intros [H1 H2 H3 H4]. unfold apply_option. destruct (bool_decide (key = "key"%string)).
  { destruct (hex_decode value) as [bs|]; [|done]. destruct (Nat.eqb_spec (length bs) 32); cbn; [|done]. intros [= <-].
    split; cbn; try done. apply Forall_app. split; [done|]. by constructor. }
  destruct (bool_decide (key = "priority"%string)).
  { unfold parse_u8. destruct (parse_u64 (bytes_of value)) as [n|] eqn:Hn; [|done]. apply parse_u64_nonneg in Hn.
    destruct (Z.leb_spec n U8_MAX); [|done]. intros [= <-]. split; cbn; done. }
  destruct (bool_decide (key = "password"%string)).
  { destruct (Nat.ltb_spec 64 (length (bytes_of value))); [done|]. intros [= <-]. split; cbn; try done; lia. }
  destruct (bool_decide (key = "maxbackoff"%string)).
  { destruct (parse_duration_string _ _) as [[secs|e]|]; cbn; try done.
    destruct (Z.ltb_spec (secs * 1000000000) MINIMUM_BACKOFF_LIMIT); [done|]. intros [= <-]. split; cbn; done. }
  destruct (bool_decide (key = "sni"%string)); [destruct (_ && _)|]; intros [= <-]; by split.
Qed.

Lemma parse_link_options_ok query host o :
  parse_link_options hex_decode is_ip_addr overflow_checks query host = Ret (Ok o) -> options_ok o.
Proof.
  unfold parse_link_options.
  assert (Hq : forall o o', options_ok o -> apply_options hex_decode is_ip_addr overflow_checks query o = Ret (Ok o') -> options_ok o').
  { induction query as [|[k v] query IH]; intros o1 o2 Ho; cbn [apply_options]; [by intros [= <-]|].
    destruct (apply_option _ _ _ k v o1) as [[o3|e]|] eqn:H1; cbn; try done. apply IH. by eapply apply_option_ok. }
  destruct (apply_options _ _ _ query LinkOptions_default) as [[o'|e]|] eqn:Hr; cbn; try done.
  apply Hq in Hr; [|split; cbn; [constructor|unfold U8_MAX; lia|lia|done]]. destruct Hr as [H1 H2 H3 H4].
  destruct (lo_tls_sni o'), host as [h|]; try (intros [= <-]; by split). destruct (is_ip_addr h); intros [= <-]; by split.
Qed.

Record table_ok (l : Links) : Prop := {
  to_addrs : forall ak uri, lk_peer_addrs l !! ak = Some uri -> is_Some (lk_peers l !! uri);
  to_errors : forall uri, is_Some (lk_peers l !! uri) -> is_Some (lk_peer_errors l !! uri);
  to_tasks : forall uri t, lk_peers l !! uri = Some t -> options_ok (pt_options t) /\ 0 <= pt_backoff t <= 32
}.

Lemma add_peer_ok uri resolved l r l' : table_ok l -> add uri resolved l = Ret (r, l') -> table_ok l'.
Proof.
  intros Hok. unfold add_peer. case_bool_decide as Hnew; [by intros [= _ <-]|].
  destruct (parse_url uri) as [url|]; [|by intros [= _ <-]]. destruct (check_scheme _ _ _); [|by intros [= _ <-]].
  destruct (url_host url) as [host|]; [|by intros [= _ <-]]. destruct (url_port url) as [port|]; [|by intros [= _ <-]].
  destruct (find_existing _ _); [by intros [= _ <-]|].
  destruct (parse_link_options _ _ _ _ _) as [[o|e]|] eqn:Ho; cbn; [|by intros [= _ <-]|done].
  destruct (lk_core l); cbn; [|by intros [= _ <-]]. intros [= _ <-]. apply parse_link_options_ok in Ho. destruct Hok as [H1 H2 H3].
  assert (Hcore : forall c addrs, (forall ak u, addrs !! ak = Some u -> is_Some (lk_peers l !! u) \/ u = uri) ->
    table_ok (mkLinks c (lk_active l) (<[uri := mkPeerTask o 0]> (lk_peers l)) addrs (<[uri := None]> (lk_peer_errors l)))).
  { intros c addrs Ha. split; cbn.
    - intros ak u Hu. apply lookup_insert_is_Some'. destruct (Ha ak u Hu) as [?| ->]; [by right|by left].
    - intros u Hu%lookup_insert_is_Some'. apply lookup_insert_is_Some'. destruct Hu; [by left|right; by apply H2].
    - intros u t [[<- <-]|[_ Ht]]%lookup_insert_Some; [split; [done|cbn; lia]|]. by apply (H3 u). }
  destruct (resolved ≫= head) as [ak|]; cbn; eapply Hcore.
  - intros ak' u [[<- <-]|[_ Hu]]%lookup_insert_Some; [by right|]. left. by apply (H1 ak').
  - intros ak' u Hu. left. by apply (H1 ak').
Qed.

Lemma remove_peer_ok uri l : table_ok l -> table_ok (remove_peer uri l).2.
Proof.
  intros Hok. unfold remove_peer. destruct (lk_peers l !! uri) eqn:Hu; [|done]. destruct Hok as [H1 H2 H3]. split; cbn.
  - intros ak u [Ha Hne]%map_lookup_filter_Some. cbn in Hne. rewrite lookup_delete_ne by congruence. by apply (H1 ak).
  - intros u Hp. destruct (decide (u = uri)) as [->|Hne]; [rewrite lookup_delete_eq in Hp; by destruct Hp|].
    rewrite lookup_delete_ne in Hp by done. rewrite lookup_delete_ne by done. by apply H2.
  - intros u t [_ Ht]%lookup_delete_Some. by apply (H3 u).
Qed.

Lemma peer_round_ok uri a w l : table_ok l -> table_ok (peer_round uri a w l).
Proof.
  intros [H1 H2 H3]. unfold peer_round. destruct (lk_peers l !! uri) as [task|] eqn:Hu; [|done].
  destruct (H3 uri task Hu) as [Ho Hb]. destruct (dial_round_spec (pt_options task) a (pt_backoff task) Hb) as [Hr _].
  destruct (dial_round (pt_options task) a (pt_backoff task)) as [b wait]. cbn in Hr |- *. split; cbn.
  - intros ak u Ha. apply lookup_insert_is_Some'. right. by apply (H1 ak).
  - intros u Hp. apply lookup_insert_is_Some'. apply lookup_insert_is_Some' in Hp as [?|Hp]; [by left|right; by apply H2].
  - intros u t [[<- <-]|[_ Ht]]%lookup_insert_Some; [cbn; split; [done|destruct w; cbn; lia]|]. by apply (H3 u).
Qed.

(** The operations on the table, by the administrator and by the tasks. *)
Inductive TableOp :=
| TAdd (uri : string) (resolved : option (list string))
| TRemove (uri : string)
| TRound (uri : string) (a : Attempt) (w : Wake)
| TClose.

Definition table_step (op : TableOp) (l : Links) : outcome Links :=
  match op with
  | TAdd uri resolved => o ← add uri resolved l; Ret o.2
  | TRemove uri => Ret (remove_peer uri l).2
  | TRound uri a w => Ret (peer_round uri a w l)
  | TClose => Ret (links_close l)
  end.

Fixpoint table_run (ops : list TableOp) (l : Links) : outcome Links :=
  match ops with [] => Ret l | op :: ops => l ← table_step op l; table_run ops l end.

Lemma foldl_delete_lookup (ids : list (Z * PublicKey)) (m : gmap Z ActiveConn) id :
  foldl (fun m p => delete p.1 m) m ids !! id = if bool_decide (id ∈ ids.*1) then None else m !! id.
Proof.
  revert m. induction ids as [|p ids IH]; intros m; [done|]. cbn [foldl]. rewrite IH, fmap_cons.
  destruct (decide (p.1 = id)) as [<-|Hne].
  - rewrite (bool_decide_eq_true_2 (p.1 ∈ p.1 :: _)) by apply list_elem_of_here. case_bool_decide; [done|apply lookup_delete_eq].
  - rewrite lookup_delete_ne by done. assert (Hiff : id ∈ p.1 :: ids.*1 <-> id ∈ ids.*1) by set_solver.
    by rewrite (bool_decide_ext _ _ Hiff).
Qed.

(** [unregister_by_uri] removes the links of the URI and no others. *)
Lemma unregister_by_uri_exact uri l id :
  al_connections (unregister_by_uri uri l) !! id =
    match al_connections l !! id with Some c => if bool_decide (ac_uri c = uri) then None else Some c | None => None end.
Proof.
  unfold unregister_by_uri, unregister_uri_lookup. cbn. rewrite foldl_delete_lookup.
  assert (Hin : id ∈ ((fun p => (p.1, ac_key p.2)) <$> List.filter (fun p => bool_decide (ac_uri p.2 = uri)) (map_iter (al_connections l))).*1
    <-> exists c, al_connections l !! id = Some c /\ ac_uri c = uri).
  { rewrite !list_elem_of_fmap. split.
    - intros (p & -> & (q & -> & Hq)%list_elem_of_fmap). apply list_elem_of_In, filter_In in Hq as [Hq Hu].
      destruct q as [i c]. apply list_elem_of_In, elem_of_map_iter in Hq. apply bool_decide_eq_true in Hu. by exists c.
    - intros (c & Hc & Hu). exists (id, ac_key c). split; [done|]. apply list_elem_of_fmap. exists (id, c). split; [done|].
      apply list_elem_of_In, filter_In. split; [by apply list_elem_of_In, elem_of_map_iter|]. by apply bool_decide_eq_true. }
  case_bool_decide as Hm.
  - apply Hin in Hm as (c & -> & Hu). by rewrite bool_decide_eq_true_2.
  - destruct (al_connections l !! id) as [c|]; [|done]. rewrite bool_decide_eq_false_2; [done|].
    intros Hu. apply Hm, Hin. by exists c.
Qed.

#[local] Opaque unregister_by_uri.

Lemma table_step_ok op l l' : table_ok l -> table_step op l = Ret l' -> table_ok l'.
Proof.
  intros Hok. destruct op as [uri resolved|uri|uri a w|]; cbn [table_step].
  - destruct (add uri resolved l) as [[r l1]|] eqn:Ha; [|done]. intros [= <-]. by eapply add_peer_ok.
  - intros [= <-]. by apply remove_peer_ok.
  - intros [= <-]. by apply peer_round_ok.
  - intros [= <-]. split; cbn; [by intros ? ?|by intros ? [? ?]|by intros ? ?].
Qed.

(** The table of configured peers stays consistent under every sequence of
    additions, removals, rounds of the dialling tasks and a close: every recorded
    address belongs to a configured peer, every peer has an error slot and
    well-formed options (a back-off limit of at least five seconds); and removing a peer leaves no trace of it (no address, error or active link) and
    nothing else changed, so that it can be added again. *)
Theorem peer_table_sound ops active l : table_run ops (Links_new active) = Ret l ->
  table_ok l /\
  forall uri t, lk_peers l !! uri = Some t ->
    let l' := (remove_peer uri l).2 in
    (remove_peer uri l).1 = Ok () /\ lk_peers l' = delete uri (lk_peers l) /\ lk_peer_errors l' !! uri = None /\
    (forall ak u, lk_peer_addrs l' !! ak = Some u <-> lk_peer_addrs l !! ak = Some u /\ u <> uri) /\
    (forall id c, al_connections (lk_active l') !! id = Some c <-> al_connections (lk_active l) !! id = Some c /\ ac_uri c <> uri).
Proof.
  intros Hrun. split.
  - assert (Hgen : forall l0, table_ok l0 -> table_run ops l0 = Ret l -> table_ok l).
    { clear Hrun. induction ops as [|op ops IH]; intros l0 Hok; cbn [table_run]; [by intros [= <-]|].
      destruct (table_step op l0) as [l1|] eqn:Hs; [|done]. rewrite ret_bind. apply IH. by eapply table_step_ok. }
    apply (Hgen (Links_new active)); [|done]. split; cbn; [by intros ? ?|by intros ? [? ?]|by intros ? ?].
  - intros uri t Ht. unfold remove_peer. rewrite Ht. cbn. split_and!; [done|done|apply lookup_delete_eq|..].
    + intros ak u. by rewrite map_lookup_filter_Some.
    + intros id c. rewrite unregister_by_uri_exact. destruct (al_connections (lk_active l) !! id) as [c'|]; [|naive_solver].
      case_bool_decide as Hu; naive_solver.
Qed.
End TableFacts.

(** A peer that shares an address with a configured one is not always found: only
    the first address of a peer is recorded. *)
Theorem shared_address_undetected :
  let url := fun _ : string => Some (mkPeerUrl "tls" (Some "peer.example") (Some 443) []) in
  let add := fun uri addrs l => add_peer (fun _ => None) (fun _ => false) true url true true uri (Some addrs) l in
  (o ← add "tls://a" ["192.0.2.1:443"; "192.0.2.2:443"]%string (set_core (Links_new (ActiveLinks_new 0)));
   o' ← add "tls://b" ["192.0.2.2:443"]%string o.2;
   Ret (o.1, o'.1)) = Ret (Ok (), Ok ()).
Proof. vm_compute. reflexivity. Qed.

(** ** Incoming connections *)

Lemma limiter_bound ops : let l := foldl (fun l op => match op with inl id => (limiter_accept id l).2 | inr id => limiter_done id l end) Limiter_new ops in
  (forall k id, ops !! k = Some (inl id) -> forall j, (j < k)%nat -> ops !! j <> Some (inl id)) ->
  lm_permits l + Z.of_nat (size (lm_open l)) = MAX_CONCURRENT_INCOMING /\ 0 <= lm_permits l.
Proof.
  cbv zeta. intros Hfresh.
  enough (H : let l := foldl (fun l op => match op with inl id => (limiter_accept id l).2 | inr id => limiter_done id l end) Limiter_new ops in
    lm_permits l + Z.of_nat (size (lm_open l)) = MAX_CONCURRENT_INCOMING /\ 0 <= lm_permits l /\
    forall id, id ∈ lm_open l -> inl id ∈ ops) by (cbv zeta in H; naive_solver).
  cbv zeta. induction ops as [|op ops IH] using rev_ind.
  - cbn. rewrite size_empty. split_and!; [done|unfold MAX_CONCURRENT_INCOMING; lia|set_solver].
  - rewrite foldl_app. cbn [foldl]. set (l := foldl _ _ ops) in *. destruct IH as (H1 & H2 & H3).
    { intros k id Hk j Hj. assert (Hlt : (k < length ops)%nat) by (by eapply lookup_lt_Some).
      rewrite <- (lookup_app_l ops [op]) by lia. eapply Hfresh; [|done]. by rewrite lookup_app_l. }
    destruct op as [id|id].
    + unfold limiter_accept. destruct (Z.ltb_spec 0 (lm_permits l)); cbn [snd lm_permits lm_open].
      * assert (Hni : id ∉ lm_open l).
        { intros Hin. apply H3, list_elem_of_lookup in Hin as [j Hj]. assert (Hlt : (j < length ops)%nat) by (by eapply lookup_lt_Some).
          refine (Hfresh (length ops) id _ j Hlt _); [by rewrite list_lookup_middle|by rewrite lookup_app_l]. }
        rewrite size_union, size_singleton by set_solver. split_and!; [lia|lia|set_solver].
      * split_and!; [done|done|set_solver].
    + unfold limiter_done. case_bool_decide; cbn [lm_permits lm_open].
      * rewrite size_difference, size_singleton by set_solver. assert (1 <= size (lm_open l))%nat.
        { rewrite <- (size_singleton (C := gset Z) id). apply subseteq_size. set_solver. }
        split_and!; [lia|lia|set_solver].
      * split_and!; [done|done|set_solver].
Qed.

(** ** Witnesses *)

Definition toy_core (sk : Z) : LinkCore toy_dalek := @mkLinkCore toy_dalek (toy_key sk) sk [].
Definition toy_options : LinkOptions := LinkOptions_default <| lo_password := [112; 119] |>.
Definition toy_sent (sk : Z) : bytes :=
  match @Metadata_encode toy_dalek toy_hash toy_mac (own_meta (toy_core sk) toy_options) sk [112; 119] with Ret bs => bs | Panic => [] end.
Definition toy_stream (sk : Z) : LinkStream := mkLinkStream (Some (SockV4 7 9001)) None IoOk IoOk (toy_sent sk ++ [1; 2]) false.

Lemma link_admission_exact_witness : exists link active',
  @handle_connection toy_dalek toy_hash toy_mac (fun _ => None) false 0 1 Incoming toy_options (toy_stream 5) (toy_core 6) "tcp://x" (ActiveLinks_new 1)
    = Ret (Ok link, active') /\ ad_rest link = [1; 2] /\ is_banned 2 (AddrV4 7) (al_ban_list active') = (false, ∅) /\
  stream_banned 0 (toy_stream 5) (ActiveLinks_new 1) = false.
Proof.
  destruct (@handle_connection toy_dalek toy_hash toy_mac (fun _ => None) false 0 1 Incoming toy_options (toy_stream 5) (toy_core 6) "tcp://x" (ActiveLinks_new 1))
    as [[[link|e] active']|] eqn:Hrun; [|vm_compute in Hrun; discriminate..].
  exists link, active'. split; [reflexivity|].
  pose proof (@link_admission_exact toy_dalek toy_hash toy_mac (fun _ => None) false 0 1 Incoming toy_options (toy_stream 5) (toy_core 6) "tcp://x"
    (ActiveLinks_new 1) (Ok link) active' Hrun) as (Hb & _ & _ & _ & Hbl).
  split; [vm_compute in Hrun; by injection Hrun as <- _|]. split; [|exact Hb]. rewrite Hbl. reflexivity.
Defined.

Lemma links_connect_witness : exists sent active',
  @handle_connection toy_dalek toy_hash toy_mac (fun _ => None) false 0 1 Incoming toy_options (toy_stream 5) (toy_core 6) "tcp://x" (ActiveLinks_new 1)
    = Ret (Ok (mkAcceptedLink 0 (toy_key 5) 0 [1; 2]), active') /\ ls_bytes (toy_stream 5) = sent ++ [1; 2].
Proof.
  destruct (@links_connect toy_dalek toy_hash toy_mac (fun _ => None) toy_dalek_laws false 0 1 Incoming (toy_core 5) toy_options (toy_core 6) toy_options
    (toy_stream 5) "tcp://x" (ActiveLinks_new 1) [1; 2]) as (sent & Hsent & Hgo).
  - intros data. by eexists.
  - reflexivity.
  - reflexivity.
  - split; [done|]. apply Forall_replicate. by apply (bool_decide_eq_true_1 _).
  - by apply (bool_decide_eq_true_1 _).
  - split; [done|done|done|by left|by left].
  - done.
  - reflexivity.
  - split_and!; [reflexivity|intros _; right; by vm_compute|by vm_compute|by vm_compute].
  - assert (Hb : ls_bytes (toy_stream 5) = sent ++ [1; 2]).
    { unfold toy_stream, toy_sent. cbn [ls_bytes]. change [112; 119] with (lo_password toy_options) at 1. change 5 with (lc_signing_key (toy_core 5)) at 2.
      by rewrite Hsent. }
    destruct (Hgo Hb) as [active' Ha]. exists sent, active'. split; [exact Ha|exact Hb].
Defined.

Lemma peer_table_sound_witness :
  let url := fun _ : string => Some (mkPeerUrl "tls" (Some "peer.example") (Some 443) []) in
  exists l, @table_run id_order (fun _ => None) (fun _ => false) true url true true [TAdd "tls://a" None; TRound "tls://a" (DialFailed "e") WaitOver; TClose]
    (Links_new (ActiveLinks_new 0)) = Ret l /\ table_ok l.
Proof.
  intros url.
  destruct (@table_run id_order (fun _ => None) (fun _ => false) true url true true [TAdd "tls://a" None; TRound "tls://a" (DialFailed "e") WaitOver; TClose]
    (Links_new (ActiveLinks_new 0))) as [l|] eqn:Hrun; [|vm_compute in Hrun; discriminate].
  exists l. split; [reflexivity|]. apply (peer_table_sound _ _ _ _ _ _ _ _ _ Hrun).
Defined.
