(* ===== verification/Salsa.v ===== *)
(** * Salsa: the stream cipher and its vector back ends

    Models [crates/salsa20-simd]: the Salsa20 core of [lib.rs] and [xsalsa.rs],
    and the back ends of [avx2.rs], [sse2.rs] and [neon.rs]. A vector register is
    the list of its 32-bit lanes, [width] of them (8 for AVX2, 4 for SSE2 and
    NEON); the intrinsics are the lane-wise operations they are documented as.
    [rounds] is the number of double rounds. Which back end runs and in which
    groups blocks are requested is up to the [cipher] crate: the theorems hold
    for every sequence of requests. *)

From S2P Require Import Prelude.
From stdpp Require Import options.
Open Scope Z_scope.

Definition STATE_WORDS : nat := 16.
Definition CONSTANTS : list Z := [0x61707865; 0x3320646e; 0x79622d32; 0x6b206574].

(** ** Words *)

(** [u32::rotate_left]. *)
Definition rotate_left (x n : Z) : Z := Z.lor (wrap32 (Z.shiftl x n)) (Z.shiftr x (32 - n)).

(** The [n] little-endian bytes of a number, and the number. *)
Fixpoint to_le_bytes (n : nat) (v : Z) : bytes :=
  match n with O => [] | S n => v mod 2 ^ 8 :: to_le_bytes n (v / 2 ^ 8) end.
Definition from_le_bytes (bs : bytes) : Z := foldr (fun b acc => b + acc * 2 ^ 8) 0 bs.

(** [chunks(4)], read as words. *)
Fixpoint words (n : nat) (bs : bytes) : list Z :=
  match n with O => [] | S n => from_le_bytes (take 4 bs) :: words n (drop 4 bs) end.

(** The words of a state as a block. *)
Definition block_of (res : list Z) : bytes := res ≫= to_le_bytes 4.

(** ** The scalar core *)

Abbreviation State := (list Z) (only parsing).

Definition salsa_new (key iv : bytes) : State :=
  [CONSTANTS !!! 0%nat] ++ words 4 (take 16 key) ++ [CONSTANTS !!! 1%nat] ++ words 2 iv ++ [0; 0]
  ++ [CONSTANTS !!! 2%nat] ++ words 4 (drop 16 key) ++ [CONSTANTS !!! 3%nat].

Definition get_block_pos (state : State) : Z := state !!! 8%nat + Z.shiftl (state !!! 9%nat) 32.

Definition set_block_pos (state : State) (pos : Z) : State :=
  <[9%nat := Z.land (Z.shiftr pos 32) 0xffffffff]> (<[8%nat := Z.land pos 0xffffffff]> state).

(** [try_into] a [usize] of the platform. *)
Definition remaining_blocks (usize_max : Z) (state : State) : option Z :=
  let rem := U64_MAX - get_block_pos state in
  if rem <=? usize_max then Some rem else None.

Definition quarter_round (a b c d : nat) (state : State) : State :=
  let step (x y z : nat) (n : Z) (s : State) : State :=
    <[x := Z.lxor (s !!! x) (rotate_left (wrap32 (s !!! y + s !!! z)) n)]> s in
  step a d c 18 (step d c b 13 (step c b a 9 (step b a d 7 state))).

(** Column rounds, then diagonal rounds. *)
Definition double_round (s : State) : State :=
  let s := quarter_round 0 4 8 12 s in
  let s := quarter_round 5 9 13 1 s in
  let s := quarter_round 10 14 2 6 s in
  let s := quarter_round 15 3 7 11 s in
  let s := quarter_round 0 1 2 3 s in
  let s := quarter_round 5 6 7 4 s in
  let s := quarter_round 10 11 8 9 s in
  quarter_round 15 12 13 14 s.

Definition run_rounds (rounds : nat) (state : State) : State :=
  zip_with (fun s1 s0 => wrap32 (s1 + s0)) (Nat.iter rounds double_round state) state.

(** [Backend::gen_ks_block] of the scalar back end. *)
Definition scalar_gen_ks_block (overflow_checks : bool) (rounds : nat) (state : State) : outcome (bytes * State) :=
  let res := run_rounds rounds state in
  pos ← arith64 overflow_checks (get_block_pos state + 1);
  Ret (block_of res, set_block_pos state pos).

Definition hsalsa (rounds : nat) (key input : bytes) : bytes :=
  let state :=
    [CONSTANTS !!! 0%nat] ++ words 4 (take 16 key) ++ [CONSTANTS !!! 1%nat] ++ words 4 input
    ++ [CONSTANTS !!! 2%nat] ++ words 4 (drop 16 key) ++ [CONSTANTS !!! 3%nat] in
  let state := Nat.iter rounds double_round state in
  [0; 5; 10; 15; 6; 7; 8; 9]%nat ≫= (fun i => to_le_bytes 4 (state !!! i)).

Definition xsalsa_new (rounds : nat) (key iv : bytes) : State :=
  salsa_new (hsalsa rounds key (take 16 iv)) (drop 16 iv).

(** ** Vector registers *)

Abbreviation Vec := (list Z) (only parsing).

Definition vadd (x y : Vec) : Vec := zip_with (fun a b => wrap32 (a + b)) x y.
Definition vxor (x y : Vec) : Vec := zip_with Z.lxor x y.
Definition vor (x y : Vec) : Vec := zip_with Z.lor x y.
Definition vslli (x : Vec) (n : Z) : Vec := map (fun a => wrap32 (Z.shiftl a n)) x.
Definition vsrli (x : Vec) (n : Z) : Vec := map (fun a => Z.shiftr a n) x.

(** [rotl7], [rotl9], [rotl13] and [rotl18]. *)
Definition vrotl (x : Vec) (n : Z) : Vec := vor (vslli x n) (vsrli x (32 - n)).

Definition v_quarter_round (a b c d : nat) (v : list Vec) : list Vec :=
  let step (x y z : nat) (n : Z) (v : list Vec) : list Vec :=
    <[x := vxor (v !!! x) (vrotl (vadd (v !!! y) (v !!! z)) n)]> v in
  step a d c 18 (step d c b 13 (step c b a 9 (step b a d 7 v))).

Definition v_double_round (v : list Vec) : list Vec :=
  let v := v_quarter_round 0 4 8 12 v in
  let v := v_quarter_round 5 9 13 1 v in
  let v := v_quarter_round 10 14 2 6 v in
  let v := v_quarter_round 15 3 7 11 v in
  let v := v_quarter_round 0 1 2 3 v in
  let v := v_quarter_round 5 6 7 4 v in
  let v := v_quarter_round 10 11 8 9 v in
  v_quarter_round 15 12 13 14 v.

Section Simd.
Context (overflow_checks : bool) (width rounds : nat).

(** [keystream8] and [keystream4]. *)
Definition v_keystream (state : State) (counter : Z) : list bytes :=
  let v := map (fun w => replicate width w) state in
  let cs := map (fun j => wrap64 (counter + Z.of_nat j)) (seq 0 width) in
  let v := <[8%nat := map (fun cj => wrap32 cj) cs]> v in
  let v := <[9%nat := map (fun cj => wrap32 (Z.shiftr cj 32)) cs]> v in
  let orig := v in
  let v := Nat.iter rounds v_double_round v in
  let tmp := zip_with vadd v orig in
  map (fun blk => tmp ≫= (fun reg => to_le_bytes 4 (reg !!! blk))) (seq 0 width).

Record Backend := mkBackend { be_state : State; be_counter : Z }.

(** [inner]: the back end starts from the core's state. *)
Definition backend_of (state : State) : Backend :=
  mkBackend state (Z.lor (state !!! 8%nat) (Z.shiftl (state !!! 9%nat) 32)).

(** The counter is written back. *)
Definition write_back (state : State) (b : Backend) : State :=
  <[9%nat := wrap32 (Z.shiftr (be_counter b) 32)]> (<[8%nat := wrap32 (be_counter b)]> state).

Definition v_gen_ks_block (b : Backend) : outcome (list bytes * Backend) :=
  let state := <[9%nat := wrap32 (Z.shiftr (be_counter b) 32)]> (<[8%nat := wrap32 (be_counter b)]> (be_state b)) in
  let res := run_rounds rounds state in
  counter ← arith64 overflow_checks (be_counter b + 1);
  Ret ([block_of res], mkBackend (be_state b) counter).

Definition v_gen_par_ks_blocks (b : Backend) : outcome (list bytes * Backend) :=
  counter ← arith64 overflow_checks (be_counter b + Z.of_nat width);
  Ret (v_keystream (be_state b) (be_counter b), mkBackend (be_state b) counter).

(** [n] blocks, at most [width] of them are copied. *)
Definition v_gen_tail_blocks (n : nat) (b : Backend) : outcome (list bytes * Backend) :=
  if (n =? 0)%nat then Ret ([], b)
  else
    counter ← arith64 overflow_checks (be_counter b + Z.of_nat n);
    Ret (take n (v_keystream (be_state b) (be_counter b)), mkBackend (be_state b) counter).

(** What the [cipher] crate may ask of a back end. *)
Inductive Request := OneBlock | ParBlocks | TailBlocks (n : nat).

Definition serve (r : Request) (b : Backend) : outcome (list bytes * Backend) :=
  match r with
  | OneBlock => v_gen_ks_block b
  | ParBlocks => v_gen_par_ks_blocks b
  | TailBlocks n => v_gen_tail_blocks n b
  end.

Fixpoint serve_all (rs : list Request) (b : Backend) : outcome (list bytes * Backend) :=
  match rs with
  | [] => Ret ([], b)
  | r :: rs =>
      o ← serve r b;
      let '(blocks, b) := o in
      o ← serve_all rs b;
      let '(blocks', b) := o in
      Ret (blocks ++ blocks', b)
  end.

(** [process_with_backend] with a vector back end. *)
Definition v_process (rs : list Request) (state : State) : outcome (list bytes * State) :=
  o ← serve_all rs (backend_of state);
  let '(blocks, b) := o in
  Ret (blocks, write_back state b).
End Simd.

(** [process_with_backend] with the scalar back end: one block at a time. *)
Fixpoint scalar_process (overflow_checks : bool) (rounds n : nat) (state : State) : outcome (list bytes * State) :=
  match n with
  | O => Ret ([], state)
  | S n =>
      o ← scalar_gen_ks_block overflow_checks rounds state;
      let '(block, state) := o in
      o ← scalar_process overflow_checks rounds n state;
      let '(blocks, state) := o in
      Ret (block :: blocks, state)
  end.

(** ** Selection of a back end *)

Inductive Arch := X86 | Aarch64 | OtherArch.

(** The target, the [force-*] features of the build, and what the processor
    reports. *)
Record Target := mkTarget {
  t_arch : Arch; t_force_soft : bool; t_force_sse2 : bool; t_force_avx2 : bool; t_cpu_avx2 : bool; t_cpu_sse2 : bool }.

(** The vector back ends: [avx2::inner], [sse2::inner] and [neon::inner]. *)
Definition avx2_PAR_BLOCKS : nat := 8.
Definition sse2_PAR_BLOCKS : nat := 4.
Definition neon_PAR_BLOCKS : nat := 4.

Definition avx2_inner (oc : bool) (rounds : nat) := v_process oc avx2_PAR_BLOCKS rounds.
Definition sse2_inner (oc : bool) (rounds : nat) := v_process oc sse2_PAR_BLOCKS rounds.
Definition neon_inner (oc : bool) (rounds : nat) := v_process oc neon_PAR_BLOCKS rounds.

(** The blocks a request asks for; the scalar back end's groups have one. *)
Definition request_size (width : nat) (r : Request) : nat :=
  match r with OneBlock => 1 | ParBlocks => width | TailBlocks n => n end.
Definition total_size (width : nat) (rs : list Request) : nat := sum_list (map (request_size width) rs).

Definition soft_inner (oc : bool) (rounds : nat) (rs : list Request) := scalar_process oc rounds (total_size 1 rs).

Definition process_with_backend (oc : bool) (rounds : nat) (t : Target) (rs : list Request) (state : State)
  : outcome (list bytes * State) :=
  match t_arch t with
  | X86 =>
      if t_force_soft t then soft_inner oc rounds rs state
      else if t_force_sse2 t then sse2_inner oc rounds rs state
      else if t_force_avx2 t then avx2_inner oc rounds rs state
      else if t_cpu_avx2 t then avx2_inner oc rounds rs state
      else if t_cpu_sse2 t then sse2_inner oc rounds rs state
      else soft_inner oc rounds rs state
  | Aarch64 => neon_inner oc rounds rs state
  | OtherArch => soft_inner oc rounds rs state
  end.

(** The group size of the back end selected, [ParBlocksSize]. *)
Definition par_blocks (t : Target) : nat :=
  match t_arch t with
  | X86 =>
      if t_force_soft t then 1
      else if t_force_sse2 t then sse2_PAR_BLOCKS
      else if t_force_avx2 t then avx2_PAR_BLOCKS
      else if t_cpu_avx2 t then avx2_PAR_BLOCKS
      else if t_cpu_sse2 t then sse2_PAR_BLOCKS
      else 1
  | Aarch64 => neon_PAR_BLOCKS
  | OtherArch => 1
  end.

(** The test vector of the crate's documentation. *)
Example salsa20_vector :
  match scalar_gen_ks_block true 10 (salsa_new (replicate 32 0x42) (replicate 8 0x24)) with
  | Ret (block, _) => zip_with Z.lxor (take 16 block) (map Z.of_nat (seq 0 16))
  | Panic => []
  end = [0x85; 0x84; 0x3c; 0xc5; 0xd5; 0x8c; 0xce; 0x7b; 0x5d; 0xd3; 0xdd; 0x04; 0xfa; 0x00; 0x5d; 0xed].
Proof. vm_compute. reflexivity. Qed.
