(* ===== verification/SalsaFacts.v ===== *)
(** * SalsaFacts: the vector back ends compute the scalar key stream *)

From S2P Require Import Prelude.
From S2P Require Import Salsa.
From stdpp Require Import options.
Open Scope Z_scope.

(** ** Lanes *)

Definition lane (j : nat) (v : list (list Z)) : list Z := map (fun reg => reg !!! j) v.

(** Sixteen registers of [width] lanes. *)
Definition regs_ok (width : nat) (v : list (list Z)) : Prop :=
  length v = STATE_WORDS /\ Forall (fun reg => length reg = width) v.

Lemma zip_with_total (f : Z -> Z -> Z) (l k : list Z) j : (j < length l)%nat -> (j < length k)%nat ->
  zip_with f l k !!! j = f (l !!! j) (k !!! j).
Proof.
  intros Hl Hk. apply list_lookup_total_correct. rewrite lookup_zip_with.
  rewrite (list_lookup_lookup_total_lt l j), (list_lookup_lookup_total_lt k j) by done. done.
Qed.

Lemma map_total (f : Z -> Z) (l : list Z) j : (j < length l)%nat -> map f l !!! j = f (l !!! j).
Proof. intros Hl. apply list_lookup_total_fmap. done. Qed.

Lemma lane_total j v x : (x < length v)%nat -> lane j v !!! x = (v !!! x) !!! j.
Proof. intros Hx. unfold lane. exact (list_lookup_total_fmap (fun reg : list Z => reg !!! j) v x Hx). Qed.

Lemma reg_length width v x : regs_ok width v -> (x < STATE_WORDS)%nat -> length (v !!! x) = width.
Proof.
  intros [Hl Hall] Hx. rewrite <- Hl in Hx. destruct (lookup_lt_is_Some_2 v x Hx) as [reg Hr].
  rewrite (list_lookup_total_correct _ _ _ Hr). by eapply Forall_lookup_1 in Hall.
Qed.

Lemma regs_insert width v x reg : regs_ok width v -> length reg = width -> regs_ok width (<[x := reg]> v).
Proof.
  intros [Hl Hall] Hr. split; [by rewrite length_insert|]. by apply Forall_insert.
Qed.

Lemma vadd_length x y : length x = length y -> length (vadd x y) = length x.
Proof. intros. unfold vadd. rewrite length_zip_with. lia. Qed.

Lemma vrotl_spec x n j : (j < length x)%nat ->
  length (vrotl x n) = length x /\ vrotl x n !!! j = rotate_left (x !!! j) n.
Proof.
  intros Hj. unfold vrotl, vor, vslli, vsrli. split; [rewrite length_zip_with, !length_map; lia|].
  rewrite zip_with_total, !map_total by (rewrite ?length_map; done). done.
Qed.

(** One step of a quarter round, in every lane. *)
Lemma v_step_spec width v x y z n j : regs_ok width v -> (j < width)%nat ->
  (x < 16)%nat -> (y < 16)%nat -> (z < 16)%nat ->
  let v' := <[x := vxor (v !!! x) (vrotl (vadd (v !!! y) (v !!! z)) n)]> v in
  regs_ok width v' /\
  lane j v' = <[x := Z.lxor (lane j v !!! x) (rotate_left (wrap32 (lane j v !!! y + lane j v !!! z)) n)]> (lane j v).
Proof.
  intros Hok Hj Hx Hy Hz v'.
  pose proof (reg_length _ _ x Hok Hx) as Hlx. pose proof (reg_length _ _ y Hok Hy) as Hly.
  pose proof (reg_length _ _ z Hok Hz) as Hlz.
  assert (Hadd : length (vadd (v !!! y) (v !!! z)) = width) by (rewrite vadd_length; congruence).
  destruct (vrotl_spec (vadd (v !!! y) (v !!! z)) n j) as [Hrl Hrj]; [lia|].
  split; [apply regs_insert; [done|]; unfold vxor; rewrite length_zip_with; lia|].
  destruct Hok as [Hv _]. change STATE_WORDS with 16%nat in Hv. unfold v', lane. rewrite list_fmap_insert.
  fold (lane j v). rewrite !lane_total by lia. unfold vxor. rewrite zip_with_total, Hrj by lia.
  unfold vadd. rewrite zip_with_total by lia. done.
Qed.

Lemma v_quarter_round_spec width v a b c d j : regs_ok width v -> (j < width)%nat ->
  (a < 16)%nat -> (b < 16)%nat -> (c < 16)%nat -> (d < 16)%nat ->
  regs_ok width (v_quarter_round a b c d v) /\ lane j (v_quarter_round a b c d v) = quarter_round a b c d (lane j v).
Proof.
  intros Hok Hj Ha Hb Hc Hd. unfold v_quarter_round, quarter_round.
  destruct (v_step_spec width v b a d 7 j) as [Hok1 <-]; [done..|]. cbv zeta in Hok1 |- *.
  destruct (v_step_spec width _ c b a 9 j Hok1) as [Hok2 <-]; [done..|]. cbv zeta in Hok2 |- *.
  destruct (v_step_spec width _ d c b 13 j Hok2) as [Hok3 <-]; [done..|]. cbv zeta in Hok3 |- *.
  destruct (v_step_spec width _ a d c 18 j Hok3) as [Hok4 <-]; [done..|]. done.
Qed.

Lemma v_double_round_spec width v j : regs_ok width v -> (j < width)%nat ->
  regs_ok width (v_double_round v) /\ lane j (v_double_round v) = double_round (lane j v).
Proof.
  intros Hok Hj. unfold v_double_round, double_round.
  repeat match goal with
  | |- context [quarter_round ?a ?b ?c ?d (lane j ?w)] =>
      let H := fresh "Hok" in
      destruct (v_quarter_round_spec width w a b c d j) as [H <-]; [done|done|lia|lia|lia|lia|]
  end. done.
Qed.

Lemma v_rounds_spec width rounds v j : regs_ok width v -> (j < width)%nat ->
  regs_ok width (Nat.iter rounds v_double_round v) /\
  lane j (Nat.iter rounds v_double_round v) = Nat.iter rounds double_round (lane j v).
Proof.
  intros Hok Hj. induction rounds as [|n [IHok IH]]; [done|].
  change (Nat.iter (S n) v_double_round v) with (v_double_round (Nat.iter n v_double_round v)).
  change (Nat.iter (S n) double_round (lane j v)) with (double_round (Nat.iter n double_round (lane j v))).
  rewrite <- IH. by apply v_double_round_spec.
Qed.

(** ** Blocks *)

(** The state at a block position. *)
Definition at_counter (state : list Z) (c : Z) : list Z :=
  <[9%nat := wrap32 (Z.shiftr c 32)]> (<[8%nat := wrap32 c]> state).

(** The reference: the block at a position. *)
Definition ks_block (rounds : nat) (state : list Z) (c : Z) : bytes := block_of (run_rounds rounds (at_counter state c)).

Lemma lane_zip_vadd width j v w : regs_ok width v -> regs_ok width w -> (j < width)%nat ->
  lane j (zip_with vadd v w) = zip_with (fun a b => wrap32 (a + b)) (lane j v) (lane j w).
Proof.
  intros [_ Hv] [_ Hw] Hj. unfold lane. revert w Hw. induction Hv as [|r v Hr Hv IH]; intros w Hw; [done|].
  destruct Hw as [|r' w Hr' Hw]; [done|]. cbn. rewrite IH by done. f_equal. apply zip_with_total; lia.
Qed.

Lemma v_keystream_spec width rounds state counter : length state = 16%nat ->
  v_keystream width rounds state counter =
    map (fun j => ks_block rounds state (wrap64 (counter + Z.of_nat j))) (seq 0 width).
Proof.
  intros Hs. unfold v_keystream. apply map_ext_in. intros j Hj%in_seq.
  set (cs := map (fun j => wrap64 (counter + Z.of_nat j)) (seq 0 width)).
  set (v0 := map (fun w => replicate width w) state).
  set (v := <[9%nat := map (fun cj => wrap32 (Z.shiftr cj 32)) cs]> (<[8%nat := map (fun cj => wrap32 cj) cs]> v0)).
  assert (Hcs : length cs = width) by (unfold cs; by rewrite length_map, length_seq).
  assert (Hcj : cs !!! j = wrap64 (counter + Z.of_nat j)).
  { unfold cs. apply list_lookup_total_correct. rewrite list_lookup_fmap, lookup_seq_lt by lia. done. }
  assert (H0 : regs_ok width v0).
  { split; [unfold v0; by rewrite length_map|]. unfold v0. apply Forall_fmap, Forall_true. intros. apply length_replicate. }
  assert (Hok : regs_ok width v).
  { unfold v. apply regs_insert; [apply regs_insert; [done|]|]; by rewrite length_map. }
  destruct (v_rounds_spec width rounds v j Hok) as [Hok' Hl]; [lia|].
  assert (Hlane : lane j v = at_counter state (wrap64 (counter + Z.of_nat j))).
  { unfold v, lane, at_counter. rewrite !list_fmap_insert. fold (lane j v0).
    rewrite (map_total (fun cj => wrap32 (Z.shiftr cj 32)) cs j), (map_total (fun cj => wrap32 cj) cs j) by lia.
    rewrite Hcj. do 2 f_equal. unfold lane, v0. rewrite map_map. rewrite <- (map_id state) at 2. apply map_ext.
    intros w. apply lookup_total_replicate_2. lia. }
  unfold ks_block, run_rounds, block_of. rewrite <- Hlane, <- Hl, <- (lane_zip_vadd width) by (done || lia).
  unfold lane. by rewrite list_fmap_bind.
Qed.

(** ** Block positions *)

Lemma land_ones32 z : Z.land z 0xffffffff = wrap32 z.
Proof. by apply (Z.land_ones z 32). Qed.

Lemma set_block_pos_eq state c : set_block_pos state c = at_counter state c.
Proof. unfold set_block_pos, at_counter. by rewrite !land_ones32. Qed.

Lemma at_counter_twice state c c' : at_counter (at_counter state c) c' = at_counter state c'.
Proof.
  unfold at_counter. rewrite (list_insert_insert_ne (<[8%nat := wrap32 c]> state) 8 9) by lia.
  rewrite list_insert_insert_eq, list_insert_insert_eq. done.
Qed.

Lemma wrap32_shiftr c : is_u64 c -> wrap32 (Z.shiftr c 32) = c / 2 ^ 32.
Proof.
  intros Hc. unfold is_u64 in Hc. rewrite Z.shiftr_div_pow2 by lia. unfold wrap32. apply Z.mod_small.
  split; [apply Z.div_pos; lia|apply Z.div_lt_upper_bound; lia].
Qed.

Lemma get_block_pos_at state c : length state = 16%nat -> is_u64 c -> get_block_pos (at_counter state c) = c.
Proof.
  intros Hs Hc. unfold get_block_pos, at_counter.
  rewrite list_lookup_total_insert_ne, list_lookup_total_insert_eq by lia.
  rewrite list_lookup_total_insert_eq by (rewrite length_insert; lia).
  rewrite wrap32_shiftr, Z.shiftl_mul_pow2 by (done || lia). unfold wrap32.
  pose proof (Z.div_mod c (2 ^ 32)). lia.
Qed.

(** A state of words holds its own position. *)
Lemma state_words state i : length state = 16%nat -> Forall is_u32 state -> (i < 16)%nat -> is_u32 (state !!! i).
Proof.
  intros Hs Hall Hi. rewrite <- Hs in Hi. destruct (lookup_lt_is_Some_2 state i Hi) as [w Hw].
  rewrite (list_lookup_total_correct _ _ _ Hw). by eapply Forall_lookup_1 in Hall.
Qed.

Lemma at_counter_self state : length state = 16%nat -> Forall is_u32 state ->
  is_u64 (get_block_pos state) /\ at_counter state (get_block_pos state) = state /\
  backend_of state = mkBackend state (get_block_pos state).
Proof.
  intros Hs Hall.
  pose proof (state_words state 8 Hs Hall ltac:(lia)) as H8. pose proof (state_words state 9 Hs Hall ltac:(lia)) as H9.
  assert (Hb : backend_of state = mkBackend state (get_block_pos state)).
  { unfold backend_of, get_block_pos. rewrite lor_shiftl_add, Z.shiftl_mul_pow2 by (unfold is_u32 in *; lia). done. }
  unfold is_u32 in *. split_and!; [..|done]; unfold get_block_pos; rewrite Z.shiftl_mul_pow2 by lia; [unfold is_u64; lia|].
  unfold at_counter, wrap32. rewrite Z.shiftr_div_pow2 by lia.
  rewrite Z.div_add, (Z.div_small (state !!! 8%nat)), Z.add_0_l by lia.
  rewrite Z.mod_add, !Z.mod_small by lia.
  assert (E8 : <[8%nat := state !!! 8%nat]> state = state).
  { apply list_insert_id, list_lookup_lookup_total_lt. lia. }
  rewrite E8. apply list_insert_id, list_lookup_lookup_total_lt. lia.
Qed.

(** ** The key stream *)

(** The reference: [n] blocks from position [c] on, positions taken modulo
    [2 ^ 64]. *)
Definition blocks_from (rounds : nat) (state : list Z) (c : Z) (n : nat) : list bytes :=
  map (fun j => ks_block rounds state (wrap64 (c + Z.of_nat j))) (seq 0 n).

Lemma blocks_from_app rounds state c n m :
  blocks_from rounds state c (n + m) =
    blocks_from rounds state c n ++ blocks_from rounds state (wrap64 (c + Z.of_nat n)) m.
Proof.
  unfold blocks_from. rewrite seq_app, map_app. f_equal. rewrite Nat.add_0_l.
  transitivity (map (fun j => ks_block rounds state (wrap64 (c + Z.of_nat j))) (Nat.add n <$> seq 0 m)).
  { by rewrite fmap_add_seq, Nat.add_0_r. }
  unfold fmap, list_fmap. rewrite <- (list_fmap_compose (Nat.add n)).
  apply map_ext. intros j. unfold compose. rewrite wrap64_add, Nat2Z.inj_add, Z.add_assoc. done.
Qed.

Section Stream.
Context (overflow_checks : bool) (rounds : nat) (state : list Z).

(** The stream and the position after it: a panic when the position leaves
    [u64] in a build with overflow checks. *)
Definition key_stream (c : Z) (n : nat) : outcome (list bytes * Z) :=
  c' ← arith64 overflow_checks (c + Z.of_nat n);
  Ret (blocks_from rounds state c n, c').

Lemma key_stream_0 c : is_u64 c -> key_stream c 0 = Ret ([], c).
Proof.
  intros Hc. unfold key_stream, arith64. rewrite Z.add_0_r. destruct overflow_checks.
  - by rewrite checked_ok.
  - by rewrite wrap64_id.
Qed.

Lemma key_stream_pos c n o : key_stream c n = Ret o -> is_u64 (o.2).
Proof.
  unfold key_stream, arith64, checked. destruct overflow_checks.
  - case_decide; [|discriminate]. intros [= <-]. done.
  - intros [= <-]. apply wrap64_is_u64.
Qed.

Lemma key_stream_app c n m : is_u64 c ->
  key_stream c (n + m) =
    (o ← key_stream c n; o' ← key_stream (o.2) m; Ret (o.1 ++ o'.1, o'.2)).
Proof.
  intros Hc. unfold key_stream, arith64. rewrite blocks_from_app, Nat2Z.inj_add, Z.add_assoc.
  destruct overflow_checks.
  - unfold checked. case_decide as H1; case_decide as H2; cbn.
    + rewrite decide_True by done. cbn. by rewrite wrap64_id.
    + exfalso. unfold is_u64 in *. lia.
    + by rewrite decide_False.
    + done.
  - cbn. by rewrite wrap64_add.
Qed.
End Stream.

(** ** Back ends *)

(** A tail is at most one group. *)
Definition request_ok (width : nat) (r : Request) : Prop :=
  match r with TailBlocks n => (n <= width)%nat | _ => True end.

Lemma take_blocks rounds state c n m : (n <= m)%nat ->
  take n (blocks_from rounds state c m) = blocks_from rounds state c n.
Proof.
  intros Hn. replace m with (n + (m - n))%nat by lia. rewrite blocks_from_app.
  apply take_app_length'. unfold blocks_from. by rewrite length_map, length_seq.
Qed.

Lemma blocks_from_1 rounds state c : is_u64 c -> blocks_from rounds state c 1 = [ks_block rounds state c].
Proof. intros Hc. unfold blocks_from. cbn. by rewrite Z.add_0_r, wrap64_id. Qed.

Lemma backend_serve_spec oc width rounds r b : length (be_state b) = 16%nat -> is_u64 (be_counter b) -> request_ok width r ->
  serve oc width rounds r b =
    (o ← key_stream oc rounds (be_state b) (be_counter b) (request_size width r);
     Ret (o.1, mkBackend (be_state b) (o.2))).
Proof.
  intros Hs Hc Hr. destruct r as [| |n]; cbn [serve request_size].
  - unfold v_gen_ks_block, key_stream. rewrite blocks_from_1 by done. cbn. by destruct (arith64 _ _).
  - unfold v_gen_par_ks_blocks, key_stream. rewrite v_keystream_spec by done. by destruct (arith64 _ _).
  - unfold v_gen_tail_blocks. destruct (Nat.eqb_spec n 0) as [->|Hn].
    + rewrite key_stream_0 by done. by destruct b.
    + unfold key_stream. rewrite v_keystream_spec by done. fold (blocks_from rounds (be_state b) (be_counter b) width).
      rewrite take_blocks by done. by destruct (arith64 _ _).
Qed.

Lemma serve_all_spec oc width rounds rs b : length (be_state b) = 16%nat -> is_u64 (be_counter b) ->
  Forall (request_ok width) rs ->
  serve_all oc width rounds rs b =
    (o ← key_stream oc rounds (be_state b) (be_counter b) (total_size width rs);
     Ret (o.1, mkBackend (be_state b) (o.2))).
Proof.
  intros Hs Hc Hrs. revert b Hs Hc. induction Hrs as [|r rs Hr Hrs IH]; intros b Hs Hc.
  - cbn. rewrite key_stream_0 by done. by destruct b.
  - cbn [serve_all]. change (total_size width (r :: rs)) with (request_size width r + total_size width rs)%nat.
    rewrite backend_serve_spec, key_stream_app by done.
    destruct (key_stream _ _ _ _ (request_size width r)) as [[blocks c]|] eqn:Hk; [|done].
    apply key_stream_pos in Hk. cbn in Hk |- *. rewrite IH by done. cbn.
    by destruct (key_stream oc rounds (be_state b) c (total_size width rs)) as [[]|].
Qed.

Lemma scalar_process_spec oc rounds n state c : length state = 16%nat -> is_u64 c ->
  scalar_process oc rounds n (at_counter state c) =
    (o ← key_stream oc rounds state c n; Ret (o.1, at_counter state (o.2))).
Proof.
  intros Hs. revert c. induction n as [|n IH]; intros c Hc.
  - cbn [scalar_process]. by rewrite key_stream_0.
  - cbn [scalar_process]. change (S n) with (1 + n)%nat. rewrite (key_stream_app oc rounds state c 1 n) by done.
    unfold scalar_gen_ks_block. rewrite get_block_pos_at by done. fold (ks_block rounds state c).
    assert (H1 : key_stream oc rounds state c 1 = (c' ← arith64 oc (c + 1); Ret ([ks_block rounds state c], c'))).
    { unfold key_stream. by rewrite blocks_from_1. }
    assert (Hpos := key_stream_pos oc rounds state c 1). rewrite H1 in Hpos |- *.
    destruct (arith64 oc (c + 1)) as [c'|]; [|done]. specialize (Hpos _ eq_refl). cbn in Hpos |- *.
    rewrite set_block_pos_eq, at_counter_twice, IH by done.
    by destruct (key_stream oc rounds state c' n) as [[]|].
Qed.

Lemma v_process_spec oc width rounds rs state :
  length state = 16%nat -> Forall is_u32 state -> Forall (request_ok width) rs ->
  v_process oc width rounds rs state =
    (o ← key_stream oc rounds state (get_block_pos state) (total_size width rs); Ret (o.1, at_counter state (o.2))).
Proof.
  intros Hs Hall Hrs. destruct (at_counter_self state Hs Hall) as (Hpos & Hself & Hb).
  unfold v_process. rewrite Hb, serve_all_spec by done. cbn [be_state be_counter].
  by destruct (key_stream _ _ _ _ _).
Qed.

Lemma process_with_backend_spec oc rounds t rs state :
  length state = 16%nat -> Forall is_u32 state -> Forall (request_ok (par_blocks t)) rs ->
  process_with_backend oc rounds t rs state =
    (o ← key_stream oc rounds state (get_block_pos state) (total_size (par_blocks t) rs);
     Ret (o.1, at_counter state (o.2))).
Proof.
  intros Hs Hall Hrs. destruct (at_counter_self state Hs Hall) as (Hpos & Hself & Hb).
  assert (Hsoft : soft_inner oc rounds rs state =
    (o ← key_stream oc rounds state (get_block_pos state) (total_size 1 rs); Ret (o.1, at_counter state (o.2)))).
  { unfold soft_inner. rewrite <- (scalar_process_spec oc rounds) by done. by rewrite Hself. }
  unfold process_with_backend, par_blocks in *. unfold avx2_inner, sse2_inner, neon_inner.
  destruct (t_arch t); repeat case_match; first [done|by apply v_process_spec].
Qed.

(** The position after a stream, when there is one. *)
Lemma key_stream_ok oc rounds state c n : is_u64 c -> oc = false \/ c + Z.of_nat n <= U64_MAX ->
  key_stream oc rounds state c n = Ret (blocks_from rounds state c n, wrap64 (c + Z.of_nat n)).
Proof.
  intros Hc Hov. unfold key_stream, arith64. destruct oc; [|done]. destruct Hov as [?|Hov]; [done|].
  assert (Hz : is_u64 (c + Z.of_nat n)) by (unfold is_u64, U64_MAX in *; lia).
  by rewrite checked_ok, wrap64_id.
Qed.

(** C21: Two machines produce the same key stream. Whichever back ends are selected
    by the target, the features and the processor, and however the blocks are
    requested of each (single blocks, whole groups, tails of at most one group),
    equal numbers of blocks give the same blocks and the same state, or a panic on
    both where the position leaves 64 bits in a build with overflow checks. Where
    it does not (or wraps), the blocks are those of the scalar core at consecutive
    positions, across the carry between the two counter words, and the position is
    advanced by their number. *)
Theorem salsa_backends_agree oc rounds t1 t2 rs1 rs2 state :
  length state = STATE_WORDS -> Forall is_u32 state ->
  Forall (request_ok (par_blocks t1)) rs1 -> Forall (request_ok (par_blocks t2)) rs2 ->
  total_size (par_blocks t1) rs1 = total_size (par_blocks t2) rs2 ->
  process_with_backend oc rounds t1 rs1 state = process_with_backend oc rounds t2 rs2 state /\
  (oc = false \/ get_block_pos state + Z.of_nat (total_size (par_blocks t1) rs1) <= U64_MAX ->
   exists state',
     process_with_backend oc rounds t1 rs1 state =
       Ret (blocks_from rounds state (get_block_pos state) (total_size (par_blocks t1) rs1), state') /\
     get_block_pos state' = wrap64 (get_block_pos state + Z.of_nat (total_size (par_blocks t1) rs1))).
Proof.
  intros Hs Hall H1 H2 Hn. change STATE_WORDS with 16%nat in Hs.
  destruct (at_counter_self state Hs Hall) as (Hpos & _ & _).
  rewrite !process_with_backend_spec by done. rewrite Hn. split; [done|]. intros Hov.
  rewrite key_stream_ok by done. eexists. split; [done|]. apply get_block_pos_at; [done|]. apply wrap64_is_u64.
Qed.

Lemma salsa_backends_agree_witness :
  let state := set_block_pos (salsa_new (replicate 32 1) (replicate 8 2)) 0xffffffff in
  let avx2 := mkTarget X86 false false false true true in
  let neon := mkTarget Aarch64 false false false false false in
  process_with_backend true 10 avx2 [ParBlocks; TailBlocks 2] state =
    process_with_backend true 10 neon [OneBlock; ParBlocks; ParBlocks; OneBlock] state.
Proof.
  intros state avx2 neon. eapply (salsa_backends_agree true 10 avx2 neon).
  - by vm_compute.
  - apply (bool_decide_unpack _). by vm_compute.
  - repeat constructor; cbn; lia.
  - repeat constructor.
  - done.
Defined.
