(* ===== verification/Writer.v ===== *)
(** * Writer: the task that writes to a peer

    Models the sending side of a connection in [crates/ironwood/src/peers.rs]:
    [send_to_peer], [send_traffic_to_peers_batch], [drain_traffic_queue],
    [write_and_flush] and the loop of [peer_writer], as a state machine whose
    steps end where the task awaits or reads what other tasks change (its
    channel, the packet queue, the [Notify]). Other tasks are the events of
    [link_step]. The buffered writer and the transport below it belong to tokio:
    they are the operations of the class [SinkOps] with the documented behaviour
    in [SinkLaws]; a timeout of a call is a failed call. *)

From S2P Require Import Prelude.
From S2P Require Import Wire.
From S2P Require Import Crypto.
From S2P Require Import Traffic.
From S2P Require Import Router.
From S2P Require Import Actor.
From S2P Require Import Peers.
From S2P Require Import Liveness.
From stdpp Require Import options.
Open Scope Z_scope.

Definition PEER_WRITER_CHANNEL_SIZE : nat := 512.
(** Durations are nanoseconds. *)
Definition WRITE_TIMEOUT : Z := 10000000000.
Definition IDLE_KEEPALIVE_INTERVAL : Z := 60000000000.
Definition WRITE_BUF_SIZE : Z := 128 * 1024.
Definition MAX_DRAIN_PER_ITER : nat := 96.

(** ** The buffered writer *)

(** [transport] is what the connection does during one call; the [Z] is the
    time after which the caller gives up. A call returns whether it succeeded
    in time. *)
Class SinkOps := {
  sink : Type;
  transport : Type;
  sk_write_all : Z -> transport -> sink -> bytes -> bool * sink;
  sk_flush : Z -> transport -> sink -> bool * sink;
  sk_accepted : sink -> bytes;   (* the bytes taken from the caller *)
  sk_delivered : sink -> bytes   (* those handed to the transport *)
}.

(** A frame below the size of the buffer is copied in one piece, when the
    bytes before it have been written out if need be; a longer one may be cut. *)
Class SinkLaws `{SinkOps} := {
  write_all_ok t e s s' f : sk_write_all t e s f = (true, s') -> sk_accepted s' = sk_accepted s ++ f;
  write_all_err t e s s' f : sk_write_all t e s f = (false, s') ->
    exists part, part `prefix_of` f /\ sk_accepted s' = sk_accepted s ++ part
      /\ (Z.of_nat (length f) < WRITE_BUF_SIZE -> part = []);
  flush_accepted t e s : sk_accepted (snd (sk_flush t e s)) = sk_accepted s;
  flush_ok t e s s' : sk_flush t e s = (true, s') -> sk_delivered s' = sk_accepted s';
  delivered_accepted s : sk_delivered s `prefix_of` sk_accepted s
}.

(** ** The state of the task *)

Inductive PeerMessage := SendFrame (data : bytes) | ScheduleKeepalive.

(** Where a written frame comes from. *)
Inductive Origin := FromChannel | FromQueue (p : TrafficPacket) | OwnKeepalive.

(** The points of [peer_writer] where the task awaits or looks at shared state. *)
Inductive Point :=
| AtSelect                                  (* the [select!] *)
| AtCoalesce                                (* [while let Ok(msg) = rx.try_recv()] *)
| AtCheck                                   (* [if rx.is_empty()] before the drain *)
| AtDrain                                   (* the lock of the queue *)
| AtBatch (batch : list TrafficPacket)      (* writing the batch *)
| AtAnswer                                  (* [if keepalive_owed && rx.is_empty()] *)
| AtExit                                    (* after the loop *)
| Ended.

(** What the task owns and what it shares: [wr_rx] is its channel, [wr_permit]
    the permit of [traffic_notify], the deadline and the two times belong to the
    connection. [wr_log] records the frames whose write succeeded and
    [wr_failed] whether a call failed; the code has neither. *)
Record Writer `{SinkOps} := mkWriter {
  wr_rx : list PeerMessage;
  wr_closed : bool;
  wr_queue : PacketQueue;
  wr_permit : bool;
  wr_conn : sink;
  wr_owed : bool;
  wr_deadline : option Z;
  wr_epoch : option ArmEpoch;
  wr_durable : DurableLiveness;
  wr_last_write : option Z;
  wr_sig_req_sent : option Z;
  wr_cancel : bool;
  wr_at : Point;
  wr_log : list (Origin * bytes);
  wr_failed : bool
}.
#[export] Instance Writer_eta `{SinkOps} : Settable Writer := fun w =>
  mkWriter _ (wr_rx w) (wr_closed w) (wr_queue w) (wr_permit w) (wr_conn w) (wr_owed w) (wr_deadline w)
    (wr_epoch w) (wr_durable w) (wr_last_write w) (wr_sig_req_sent w) (wr_cancel w) (wr_at w)
    (wr_log w) (wr_failed w).

Definition keepalive_frame : bytes := encode_frame KeepAlive [].
Definition traffic_frame (t : TrafficPacket) : bytes :=
  encode_traffic_frame (tp_path t) (tp_from t) (tp_source t) (tp_dest t) (tp_watermark t) (tp_payload t).

(** Non-keepalive frames expect a response. *)
Definition needs_deadline (data : bytes) : bool :=
  match peek_frame_type data with
  | Some (KeepAlive | Dummy) | None => false
  | Some _ => true
  end.

Section Writer.
Context `{SinkOps} (cfg : AdaptiveTimeoutConfig).

(** ** Writing frames *)

Definition goto (at_ : Point) (w : Writer) : Writer := w <| wr_at := at_ |>.
Definition notify_one (w : Writer) : Writer := w <| wr_permit := true |>.

Definition mark_written (now : Z) (w : Writer) : Writer := w <| wr_last_write := Some now |>.

Definition mark_sig_req_sent (now : Z) (frame : bytes) (w : Writer) : Writer :=
  if decide (peek_frame_type frame = Some ProtoSigReq) then w <| wr_sig_req_sent := Some now |> else w.

Definition arm_read_deadline (now : Z) (w : Writer) : outcome Writer :=
  '(_, deadline, epoch) ← arm cfg (wr_durable w) now (wr_deadline w) (wr_epoch w);
  Ret (w <| wr_deadline := deadline |> <| wr_epoch := epoch |>).

(** [timeout(WRITE_TIMEOUT, writer.write_all(frame))] *)
Definition write_frame (e : transport) (origin : Origin) (frame : bytes) (w : Writer) : bool * Writer :=
  let '(ok, conn) := sk_write_all WRITE_TIMEOUT e (wr_conn w) frame in
  (ok, if ok then w <| wr_conn := conn |> <| wr_log ::= (fun l => l ++ [(origin, frame)]) |>
       else w <| wr_conn := conn |> <| wr_failed := true |>).

Definition flush (e : transport) (w : Writer) : bool * Writer :=
  let '(ok, conn) := sk_flush WRITE_TIMEOUT e (wr_conn w) in
  (ok, if ok then w <| wr_conn := conn |> else w <| wr_conn := conn |> <| wr_failed := true |>).

Definition write_and_flush (e1 e2 : transport) (now : Z) (origin : Origin) (frame : bytes) (w : Writer)
    : bool * Writer :=
  let '(ok, w) := write_frame e1 origin frame w in
  if negb ok then (false, w)
  else
    let '(ok, w) := flush e2 w in
    if negb ok then (false, w) else (true, mark_written now w).

(** ** The batch of traffic *)

Record DrainOutcome := mkDrainOutcome { do_ok : bool; do_wrote : bool }.

(** The pops under the lock of the queue. *)
Fixpoint pop_batch (n : nat) (q : PacketQueue) (now : Z) : outcome (list TrafficPacket * PacketQueue) :=
  match n with
  | O => Ret ([], q)
  | S n =>
      '(out, q) ← pop_codel q now;
      match out with
      | Some t => '(batch, q) ← pop_batch n q now; Ret (t :: batch, q)
      | None => Ret ([], q)
      end
  end.

(** The first half of [drain_traffic_queue]. *)
Definition drain_pop (now : Z) (w : Writer) : outcome (list TrafficPacket * Writer) :=
  '(batch, q) ← pop_batch MAX_DRAIN_PER_ITER (wr_queue w) now;
  let w := w <| wr_queue := q |> in
  Ret (batch, if decide (length batch = MAX_DRAIN_PER_ITER) then notify_one w else w).

(** The second half, without the lock; [io i] is the transport during the
    [i]-th write. *)
Fixpoint drain_write (io : nat -> transport) (i : nat) (batch : list TrafficPacket) (wrote : bool) (w : Writer)
    : DrainOutcome * Writer :=
  match batch with
  | [] => (mkDrainOutcome true wrote, w)
  | traffic :: batch =>
      let frame := traffic_frame traffic in
      let '(ok, w) := write_frame (io i) (FromQueue traffic) frame w in
      if ok then drain_write io (S i) batch true w else (mkDrainOutcome false wrote, w)
  end.

(** ** The steps of [peer_writer] *)

(** What the outside world contributes to a step: the clock, the transport
    during its calls, and whether the idle timer has run out. *)
Record Input := mkInput { in_now : Z; in_io : nat -> transport; in_idle : bool }.

(** [break] out of the main loop. *)
Definition leave (w : Writer) : Writer := goto AtExit w.

Definition send_direct (i : Input) (data : bytes) (w : Writer) : outcome Writer :=
  let '(ok, w) := write_frame (in_io i 0) FromChannel data w in
  if negb ok then Ret (leave w)
  else
    let '(ok, w) := flush (in_io i 1) w in
    if negb ok then Ret (leave w)
    else
      let w := mark_sig_req_sent (in_now i) data (mark_written (in_now i) w) in
      w ← if needs_deadline data then arm_read_deadline (in_now i) w else Ret w;
      Ret (goto AtCheck (w <| wr_owed := false |>)).

(** The biased [select!]; [None] when no branch is ready. *)
Definition writer_select (i : Input) (w : Writer) : outcome (option Writer) :=
  if wr_cancel w then Ret (Some (leave w))
  else match wr_rx w with
  | SendFrame data :: rx => w ← send_direct i data (w <| wr_rx := rx |>); Ret (Some w)
  | ScheduleKeepalive :: rx => Ret (Some (goto AtCoalesce (w <| wr_rx := rx |> <| wr_owed := true |>)))
  | [] =>
      if wr_closed w then Ret (Some (leave w))
      else if wr_permit w then Ret (Some (goto AtCheck (w <| wr_permit := false |>)))
      else if in_idle i then
        let '(ok, w) := write_and_flush (in_io i 0) (in_io i 1) (in_now i) OwnKeepalive keepalive_frame w in
        Ret (Some (if ok then w <| wr_owed := false |> else leave w))
      else Ret None
  end.

(** The loop after a [ScheduleKeepalive]; a failed write leaves this loop only. *)
Definition coalesce_step (i : Input) (w : Writer) : Writer :=
  match wr_rx w with
  | SendFrame data :: rx =>
      let '(ok, w) := write_and_flush (in_io i 0) (in_io i 1) (in_now i) FromChannel data (w <| wr_rx := rx |>) in
      if negb ok then goto AtCheck w
      else (mark_sig_req_sent (in_now i) data w) <| wr_owed := false |>
  | ScheduleKeepalive :: rx => w <| wr_rx := rx |> <| wr_owed := true |>
  | [] => goto AtCheck w
  end.

Definition batch_step (i : Input) (batch : list TrafficPacket) (w : Writer) : outcome Writer :=
  let '(drained, w) := drain_write (in_io i) 0 batch false w in
  if negb (do_ok drained) then Ret (leave w)
  else
    let '(ok, w) := flush (in_io i (length batch)) w in
    if negb ok then Ret (leave w)
    else if do_wrote drained then
      w ← arm_read_deadline (in_now i) (mark_written (in_now i) w);
      Ret (goto AtAnswer (w <| wr_owed := false |>))
    else Ret (goto AtAnswer w).

Definition answer_step (i : Input) (w : Writer) : Writer :=
  if wr_owed w && bool_decide (wr_rx w = []) then
    let '(ok, w) := write_and_flush (in_io i 0) (in_io i 1) (in_now i) OwnKeepalive keepalive_frame w in
    if negb ok then leave w else goto AtSelect (w <| wr_owed := false |>)
  else goto AtSelect w.

(** One step; [None] when the task waits, or has ended. The channel of a task
    that has ended keeps, in the model, what was never received. *)
Definition peer_writer (i : Input) (w : Writer) : outcome (option Writer) :=
  match wr_at w with
  | AtSelect => writer_select i w
  | AtCoalesce => Ret (Some (coalesce_step i w))
  | AtCheck => Ret (Some (goto (if decide (wr_rx w = []) then AtDrain else AtAnswer) w))
  | AtDrain => '(batch, w) ← drain_pop (in_now i) w; Ret (Some (goto (AtBatch batch) w))
  | AtBatch batch => w ← batch_step i batch w; Ret (Some w)
  | AtAnswer => Ret (Some (answer_step i w))
  | AtExit => Ret (Some (goto Ended (w <| wr_cancel := true |>)))
  | Ended => Ret None
  end.

(** ** The connection: the task and those that feed it *)

(** [lk_spawned] are the tasks of [send_to_peer] that wait for room in the
    channel, [lk_notifies] the producers that have pushed a packet and not yet
    notified. [lk_entered] and [lk_pushed] record what entered the channel and
    the queue. *)
Record Link := mkLink {
  lk_writer : Writer;
  lk_spawned : list PeerMessage;
  lk_notifies : nat;
  lk_entered : list PeerMessage;
  lk_pushed : list TrafficPacket
}.
#[global] Instance Link_eta : Settable Link := fun l =>
  mkLink (lk_writer l) (lk_spawned l) (lk_notifies l) (lk_entered l) (lk_pushed l).

Inductive SendError := Full | Closed.

Definition receiver_dropped (w : Writer) : bool := match wr_at w with Ended => true | _ => false end.

Definition try_send (msg : PeerMessage) (l : Link) : result SendError Link :=
  let w := lk_writer l in
  if receiver_dropped w then Err Closed
  else if (length (wr_rx w) <? PEER_WRITER_CHANNEL_SIZE)%nat
  then Ok (l <| lk_writer ::= set_field wr_rx (fun rx => rx ++ [msg]) |> <| lk_entered ::= (fun s => s ++ [msg]) |>)
  else Err Full.

(** [send_to_peer] for a peer in the table. *)
Definition send_to_peer (msg : PeerMessage) (l : Link) : bool * Link :=
  match try_send msg l with
  | Ok l => (true, l)
  | Err Full => (true, l <| lk_spawned ::= (fun s => s ++ [msg]) |>)
  | Err Closed => (false, l)
  end.

(** A spawned task that finds room, or the channel closed. *)
Definition spawned_send (i : nat) (l : Link) : Link :=
  match lk_spawned l !! i with
  | None => l
  | Some msg =>
      match try_send msg l with
      | Ok l => l <| lk_spawned ::= delete i |>
      | Err Full => l
      | Err Closed => l <| lk_spawned ::= delete i |>
      end
  end.

Inductive Event :=
| EvWriter (i : Input)
| EvSend (msg : PeerMessage)               (* [send_to_peer], or the reader's own send *)
| EvSpawned (i : nat)
| EvPush (t : TrafficPacket) (now : Z)     (* a producer pushes ... *)
| EvNotify                                 (* ... and then notifies *)
| EvReply (now : Z)                        (* the reader got a frame *)
| EvShared (op : live_op)                  (* another use of the peer's liveness state *)
| EvCancel.

Definition link_step (ev : Event) (l : Link) : outcome Link :=
  match ev with
  | EvWriter i =>
      w ← peer_writer i (lk_writer l);
      Ret (match w with Some w => l <| lk_writer := w |> | None => l end)
  | EvSend msg => Ret (snd (send_to_peer msg l))
  | EvSpawned i => Ret (spawned_send i l)
  | EvPush t now =>
      q ← push (wr_queue (lk_writer l)) t now;
      Ret (l <| lk_writer ::= set_field wr_queue (fun _ => q) |>
             <| lk_notifies ::= S |> <| lk_pushed ::= (fun s => s ++ [t]) |>)
  | EvNotify =>
      Ret (match lk_notifies l with
           | O => l
           | S n => l <| lk_notifies := n |> <| lk_writer ::= notify_one |>
           end)
  | EvReply now =>
      let w := lk_writer l in
      Ret (l <| lk_writer := w <| wr_durable := clear_on_reply cfg now (wr_epoch w) (wr_durable w) |>
                               <| wr_deadline := None |> <| wr_epoch := None |> |>)
  | EvShared op => Ret (l <| lk_writer ::= set_field wr_durable (fun d => live_step cfg d op) |>)
  | EvCancel => Ret (l <| lk_writer ::= set_field wr_cancel (fun _ => true) |>)
  end.

Definition link_run (evs : list Event) (l : Link) : outcome Link :=
  foldl (fun acc ev => acc ≫= link_step ev) (Ret l) evs.

(** The state [handle_conn] (core.rs) creates. *)
Definition Writer_new (q : PacketQueue) (conn : sink) (d : DurableLiveness) : Writer :=
  mkWriter _ [] false q false conn false None None d None None false AtSelect [] false.
Definition Link_new (q : PacketQueue) (conn : sink) (d : DurableLiveness) : Link :=
  mkLink (Writer_new q conn d) [] 0 [] [].

(** The end of the task: the peer leaves the router and the table. *)
Definition writer_exit (peer_id : PeerId) (peer_key : PublicKey) (port : PeerPort) (p : Peers)
    : RouterMsg * Peers :=
  (MsgRemovePeer peer_id peer_key port, snd (Peers_remove_peer p peer_id peer_key)).
End Writer.

(** A batch of traffic: the handles are resolved first, then each packet is
    pushed and its writer notified. The result lists, in order, what happens to
    the connection of each peer. *)
Definition send_traffic_to_peers_batch `{HashOrder, SinkOps} (p : Peers) (batch : list (PeerId * TrafficPacket)) (now : Z)
    : list (PeerId * Event) :=
  batch ≫= fun '(peer_id, traffic) =>
    match get_handle p peer_id with
    | Some h => [(ph_id h, EvPush traffic now); (ph_id h, EvNotify)]
    | None => []
    end.
