(* ===== verification/WriterFacts.v ===== *)
(** * WriterFacts: what the writer task guarantees

    Facts about the state machine of [Writer], for every interleaving with the
    tasks that feed it: the bytes on the wire are whole frames in the order of
    the channel and of the packet queue ([writer_stream]); when the task waits,
    nothing is left to send ([writer_quiescent]); with a working transport it
    gets there ([writer_drains]); and the reader at the other end gets exactly
    the messages ([writer_to_reader]). *)

From S2P Require Import Prelude.
From S2P Require Import Wire.
From S2P Require Import Crypto.
From S2P Require Import Traffic.
From S2P Require Import Router.
From S2P Require Import Actor.
From S2P Require Import Peers.
From S2P Require Import Liveness.
From S2P Require Import Writer.
From stdpp Require Import options.
Open Scope Z_scope.

(** ** A buffered writer *)

(** The layout of tokio's [BufWriter]: what the caller wrote is what was sent
    followed by the buffer. The transport takes everything, or stalls after a
    number of bytes. *)
Record BufWriter := mkBufWriter { bw_sent : bytes; bw_buf : bytes }.

Definition bw_flush (e : option nat) (s : BufWriter) : bool * BufWriter :=
  match e with
  | None => (true, mkBufWriter (bw_sent s ++ bw_buf s) [])
  | Some k => (false, mkBufWriter (bw_sent s ++ take k (bw_buf s)) (drop k (bw_buf s)))
  end.

Definition bw_write_all (e : option nat) (s : BufWriter) (f : bytes) : bool * BufWriter :=
  if decide (Z.of_nat (length (bw_buf s) + length f) <= WRITE_BUF_SIZE /\ Z.of_nat (length f) < WRITE_BUF_SIZE)
  then (true, mkBufWriter (bw_sent s) (bw_buf s ++ f))
  else
    match e with
    | None =>
        if decide (Z.of_nat (length f) < WRITE_BUF_SIZE) then (true, mkBufWriter (bw_sent s ++ bw_buf s) f)
        else (true, mkBufWriter (bw_sent s ++ bw_buf s ++ f) [])
    | Some k =>
        if decide (Z.of_nat (length f) < WRITE_BUF_SIZE)
        then (false, mkBufWriter (bw_sent s ++ take k (bw_buf s)) (drop k (bw_buf s)))
        else if decide (k < length (bw_buf s))%nat
        then (false, mkBufWriter (bw_sent s ++ take k (bw_buf s)) (drop k (bw_buf s)))
        else (false, mkBufWriter (bw_sent s ++ bw_buf s ++ take (k - length (bw_buf s)) f) [])
    end.

#[export] Instance buf_sink : SinkOps := {
  sink := BufWriter;
  transport := option nat;
  sk_write_all _ := bw_write_all;
  sk_flush _ := bw_flush;
  sk_accepted s := bw_sent s ++ bw_buf s;
  sk_delivered := bw_sent
}.

#[export] Instance buf_sink_laws : SinkLaws.
Proof.
  split.
  - intros t e s s' f. simpl. unfold bw_write_all.
    destruct e; repeat case_decide; intros [= <-]; simpl; by rewrite <- ?app_assoc, ?app_nil_r.
  - intros t e s s' f. simpl. unfold bw_write_all. destruct e as [k|]; repeat case_decide; intros [= <-]; simpl.
    + exists []. split; [apply prefix_nil|]. split; [|done]. by rewrite app_nil_r, <- app_assoc, take_drop.
    + exists []. split; [apply prefix_nil|]. split; [|done]. by rewrite app_nil_r, <- app_assoc, take_drop.
    + eexists. split; [apply prefix_take|]. split; [|lia]. by rewrite app_nil_r, <- app_assoc.
  - intros t [k|] s; simpl; [by rewrite <- app_assoc, take_drop|by rewrite app_nil_r].
  - intros t [k|] s s'; simpl; intros [= <-]. simpl. by rewrite app_nil_r.
  - intros s. simpl. by apply prefix_app_r.
Qed.

(** ** The batch *)

Lemma of_flow_sublist k l l' : l `sublist_of` l' -> of_flow k l `sublist_of` of_flow k l'.
Proof.
  unfold of_flow. induction 1 as [|p l l' _ IH|p l l' _ IH]; [done|rewrite !filter_cons|rewrite filter_cons];
    case_decide; by try constructor.
Qed.

Definition queue_empty (q : PacketQueue) : Prop := forall k, waiting q k = [].

Lemma pop_batch_spec n m now q : pq_good q -> codel_ok m q -> m <= U32_MAX ->
  exists batch q', pop_batch n q now = Ret (batch, q') /\ pq_good q' /\ codel_ok m q'
    /\ pq_quantum q' = pq_quantum q
    /\ (forall k, of_flow k batch ++ waiting q' k `sublist_of` waiting q k)
    /\ (length batch <= n)%nat /\ (length batch < n -> queue_empty q')%nat
    /\ pq_count q' + Z.of_nat (length batch) <= pq_count q.
Proof.
  revert q. induction n as [|n IH]; intros q G Hk Hm; cbn [pop_batch].
  { exists [], q. split_and!; [done..|simpl; lia|simpl; lia|simpl; lia]. }
  destruct (pop_codel_spec m now q G Hk Hm) as [(Hz & q1 & -> & G1 & Hk1 & Hb & Hq & Hc)
    |(_ & info & key & q1 & -> & T & Hk1)]; rewrite ret_bind.
  - assert (He : forall k, waiting q1 k = waiting q k) by (intros k; unfold waiting; by rewrite Hb).
    exists [], q1. split_and!; [done..| |simpl; lia| |simpl; lia].
    + intros k. simpl. by rewrite He.
    + intros _ k. rewrite He. unfold waiting, backlog. by rewrite (empty_flows q G Hz), lookup_empty.
  - destruct (IH q1 (taken_good _ _ _ _ T) Hk1 Hm) as (batch & q' & -> & G' & Hk' & Hq & Hs & Hle & He & Hc).
    rewrite ret_bind. exists (qi_packet info :: batch), q'. pose proof (taken_count _ _ _ _ T).
    split_and!; [done..| | | | |].
    + rewrite Hq. apply T.
    + intros k. rewrite of_flow_cons, <- app_assoc. etrans; [apply sublist_app; [reflexivity|apply Hs]|].
      by eapply taken_waiting.
    + cbn [length]. lia.
    + cbn [length]. intros. apply He. lia.
    + cbn [length]. lia.
Qed.

(** ** Histories *)

Section Facts.
Context `{SinkLaws}.
Set Default Proof Using "Type*".

Definition small (f : bytes) : Prop := Z.of_nat (length f) < WRITE_BUF_SIZE.

Definition from_channel (log : list (Origin * bytes)) : list bytes :=
  omap (fun e => match fst e with FromChannel => Some (snd e) | _ => None end) log.
Definition from_queue (log : list (Origin * bytes)) : list TrafficPacket :=
  omap (fun e => match fst e with FromQueue p => Some p | _ => None end) log.
Definition channel_frames (msgs : list PeerMessage) : list bytes :=
  omap (fun m => match m with SendFrame d => Some d | ScheduleKeepalive => None end) msgs.

Lemma from_channel_app l l' : from_channel (l ++ l') = from_channel l ++ from_channel l'.
Proof. apply omap_app. Qed.
Lemma from_queue_app l l' : from_queue (l ++ l') = from_queue l ++ from_queue l'.
Proof. apply omap_app. Qed.

Definition origin_ok (e : Origin * bytes) : Prop :=
  match fst e with
  | FromChannel => True
  | FromQueue p => snd e = traffic_frame p
  | OwnKeepalive => snd e = keepalive_frame
  end.

(** The bytes taken by the connection are the frames of the log. *)
Definition stream_ok (w : Writer) : Prop := sk_accepted (wr_conn w) = concat (snd <$> wr_log w).

(** What was taken from the channel and from the queue has been written, up to
    failed writes; [S]: every frame fits in the buffer. *)
Record hist (S : Prop) (received : list bytes) (popped : list TrafficPacket) (w : Writer) : Prop := {
  hist_stream : S \/ wr_failed w = false -> stream_ok w;
  hist_channel : from_channel (wr_log w) `sublist_of` received;
  hist_channel_all : wr_failed w = false -> from_channel (wr_log w) = received;
  hist_queue : from_queue (wr_log w) `sublist_of` popped;
  hist_queue_all : wr_failed w = false -> from_queue (wr_log w) = popped;
  hist_origin : Forall origin_ok (wr_log w)
}.

(** The part of the state that writing leaves alone. *)
Definition control (w : Writer) :=
  (wr_rx w, wr_closed w, wr_queue w, wr_permit w, wr_owed w, wr_durable w, wr_cancel w, wr_at w).

(** [w'] results from [w] by trying to write [tried]. *)
Record wrote (tried : list (Origin * bytes)) (ok : bool) (w w' : Writer) : Prop := {
  wrote_control : control w' = control w;
  wrote_log : exists fs, fs `prefix_of` tried /\ wr_log w' = wr_log w ++ fs /\ (ok = true -> fs = tried);
  wrote_failed : wr_failed w' = wr_failed w || negb ok;
  wrote_stream : wr_failed w' = false \/ Forall (fun e => small (snd e)) tried -> stream_ok w -> stream_ok w'
}.

Lemma wrote_nil (w w' : Writer) : control w' = control w -> wr_log w' = wr_log w ->
  wr_failed w' = wr_failed w -> sk_accepted (wr_conn w') = sk_accepted (wr_conn w) -> wrote [] true w w'.
Proof.
  intros Hc Hl Hf Ha. split; [done|exists []; by rewrite Hl, app_nil_r|by rewrite Hf, orb_false_r|].
  intros _. unfold stream_ok. by rewrite Ha, Hl.
Qed.

Lemma wrote_trans t1 t2 ok w w1 w2 : wrote t1 true w w1 -> wrote t2 ok w1 w2 -> wrote (t1 ++ t2) ok w w2.
Proof.
  intros [C1 (f1 & _ & L1 & E1) F1 S1] [C2 (f2 & P2 & L2 & E2) F2 S2]. rewrite (E1 eq_refl) in L1.
  split.
  - congruence.
  - exists (t1 ++ f2). split; [by apply prefix_app|]. rewrite L2, L1, app_assoc. split; [done|].
    intros Hok. by rewrite (E2 Hok).
  - by rewrite F2, F1, orb_false_r.
  - rewrite F2, F1, orb_false_r in *. rewrite Forall_app. intros Hs Hst. apply S2; [tauto|]. apply S1; [|done].
    destruct Hs as [Hs|[? _]]; [left|by right]. by apply orb_false_iff in Hs as [-> _].
Qed.

(** The bytes of a failed batch: only the frame that failed can be cut. *)
Lemma wrote_stop t1 t2 w w' : wrote t1 false w w' -> wrote (t1 ++ t2) false w w'.
Proof.
  intros [C (fs & P & L & _) F St]. split; [done| |done|].
  - exists fs. split; [by apply prefix_app_r|done].
  - intros Hs. apply St. destruct Hs as [?|Hs]; [by left|right]. by apply Forall_app in Hs as [? _].
Qed.

Lemma write_frame_spec e o f w : wrote [(o, f)] (fst (write_frame e o f w)) w (snd (write_frame e o f w)).
Proof.
  unfold write_frame. destruct (sk_write_all _ _ _ _) as [[] conn] eqn:Hw; simpl.
  - apply write_all_ok in Hw. split; [done|exists [(o, f)]; done|by rewrite orb_false_r|].
    intros _. unfold stream_ok, set_field; simpl. rewrite Hw, fmap_app, concat_app. simpl. rewrite app_nil_r. by intros ->.
  - apply write_all_err in Hw as (part & _ & Hw & Hs). split; [done| |by rewrite orb_true_r|].
    + exists []. split; [apply prefix_nil|]. by rewrite app_nil_r.
    + intros [?|Hsm]; [done|]. rewrite Forall_singleton in Hsm. unfold stream_ok, set_field; simpl.
      by rewrite Hw, (Hs Hsm), app_nil_r.
Qed.

Lemma flush_spec e w : wrote [] (fst (flush e w)) w (snd (flush e w))
  /\ (fst (flush e w) = true -> sk_delivered (wr_conn (snd (flush e w))) = sk_accepted (wr_conn (snd (flush e w)))).
Proof.
  unfold flush. pose proof (flush_accepted WRITE_TIMEOUT e (wr_conn w)) as Ha.
  destruct (sk_flush _ _ _) as [[] conn] eqn:Hf; simpl in *.
  - split; [by apply wrote_nil|]. intros _. by eapply flush_ok.
  - split; [|done]. split; [done|exists []; by rewrite app_nil_r|by rewrite orb_true_r|].
    intros _. unfold stream_ok, set_field; simpl. by rewrite Ha.
Qed.

Definition flushed (w : Writer) : Prop := sk_delivered (wr_conn w) = sk_accepted (wr_conn w).

Lemma write_and_flush_spec e1 e2 now o f w :
  let r := write_and_flush e1 e2 now o f w in wrote [(o, f)] (fst r) w (snd r) /\ (fst r = true -> flushed (snd r)).
Proof.
  cbv zeta. unfold write_and_flush. pose proof (write_frame_spec e1 o f w) as W1.
  destruct (write_frame e1 o f w) as [[] w1]; [|done]. cbn [negb fst snd] in *.
  destruct (flush_spec e2 w1) as [W2 Hfl]. destruct (flush e2 w1) as [[] w2]; cbn [negb fst snd] in *.
  - split; [|by intros _; apply Hfl]. pose proof (wrote_trans _ _ _ _ _ _ W1 W2) as W3. destruct W3. by split.
  - split; [|done]. exact (wrote_trans _ _ _ _ _ _ W1 W2).
Qed.

Definition queued_frames (batch : list TrafficPacket) : list (Origin * bytes) :=
  (fun p => (FromQueue p, traffic_frame p)) <$> batch.

Lemma drain_write_spec io i batch b w :
  let r := drain_write io i batch b w in
  wrote (queued_frames batch) (do_ok (fst r)) w (snd r)
  /\ (do_ok (fst r) = true -> do_wrote (fst r) = b || bool_decide (batch <> [])).
Proof.
  revert i b w. induction batch as [|t batch IH]; intros i b w; cbn [drain_write].
  { simpl. split; [by apply wrote_nil|]. by rewrite orb_false_r. }
  cbv zeta. pose proof (write_frame_spec (io i) (FromQueue t) (traffic_frame t) w) as W1.
  destruct (write_frame _ _ _ w) as [[] w1]; cbn [fst snd] in *.
  - destruct (IH (S i) true w1) as [W2 Hb]. split; [exact (wrote_trans _ _ _ _ _ _ W1 W2)|].
    intros Hok. rewrite (Hb Hok). by rewrite orb_true_r.
  - split; [exact (wrote_stop _ (queued_frames batch) _ _ W1)|done].
Qed.

Lemma hist_wrote S received popped tried ok w w' :
  hist S received popped w -> wrote tried ok w w' -> Forall origin_ok tried ->
  (S -> Forall (fun e => small (snd e)) tried) ->
  hist S (received ++ from_channel tried) (popped ++ from_queue tried) w'.
Proof.
  intros [Hs Hc Hca Hq Hqa Ho] [_ (fs & Hp & Hl & Hall) Hf Hst] Hot Hsm.
  assert (Hok : wr_failed w' = false -> wr_failed w = false /\ fs = tried).
  { rewrite Hf. intros Hff. apply orb_false_iff in Hff as [? Hn]. apply negb_false_iff in Hn. split; [done|by apply Hall]. }
  destruct Hp as [more Hmore].
  split; rewrite ?Hl, ?from_channel_app, ?from_queue_app.
  - intros HS. apply Hst; [destruct HS; [right|left]; auto|]. apply Hs.
    destruct HS as [?|HS]; [by left|right]. by apply Hok.
  - apply sublist_app; [done|]. rewrite Hmore, from_channel_app. by apply sublist_inserts_r.
  - intros Hff. destruct (Hok Hff) as [? ->]. by rewrite Hca.
  - apply sublist_app; [done|]. rewrite Hmore, from_queue_app. by apply sublist_inserts_r.
  - intros Hff. destruct (Hok Hff) as [? ->]. by rewrite Hqa.
  - apply Forall_app. split; [done|]. rewrite Hmore in Hot. by apply Forall_app in Hot as [? _].
Qed.

Lemma hist_mono (S S' : Prop) received popped w : (S' -> S) -> hist S received popped w -> hist S' received popped w.
Proof. intros HS []. split; try done. intuition. Qed.

Lemma hist_same S received popped (w w' : Writer) : wr_log w' = wr_log w -> wr_failed w' = wr_failed w ->
  sk_accepted (wr_conn w') = sk_accepted (wr_conn w) -> hist S received popped w -> hist S received popped w'.
Proof. intros Hl Hf Ha []. split; unfold stream_ok; by rewrite ?Hl, ?Hf, ?Ha. Qed.

(** ** The invariant *)

Definition pending (w : Writer) : list TrafficPacket := match wr_at w with AtBatch batch => batch | _ => [] end.

Definition all_small (entered : list PeerMessage) (pushed : list TrafficPacket) : Prop :=
  Forall small (channel_frames entered) /\ Forall (fun p => small (traffic_frame p)) pushed.

(** Something will bring the task back to a queue that is not empty. *)
Definition awake (notifies : nat) (w : Writer) : Prop :=
  queue_empty (wr_queue w) \/ wr_permit w = true \/ (0 < notifies)%nat \/ wr_rx w <> [].

Definition point_ok (notifies : nat) (w : Writer) : Prop :=
  match wr_at w with
  | AtSelect => awake notifies w /\ (wr_owed w = true -> wr_rx w <> []) /\ (flushed w \/ wr_rx w <> [])
  | AtAnswer => awake notifies w /\ (flushed w \/ wr_rx w <> [])
  | AtBatch _ => awake notifies w
  | _ => True
  end.

Definition history (entered : list PeerMessage) (pushed : list TrafficPacket) (w : Writer) : Prop :=
  exists received popped, entered = received ++ wr_rx w
    /\ hist (all_small entered pushed) (channel_frames received) popped w
    /\ forall k, of_flow k popped ++ of_flow k (pending w) ++ waiting (wr_queue w) k `sublist_of` of_flow k pushed.

Record queue_ok (quantum : Z) (count : nat) (q : PacketQueue) : Prop := {
  qo_good : pq_good q;
  qo_codel : codel_ok (Z.of_nat count) q;
  qo_quantum : pq_quantum q = quantum
}.

Lemma pending_small entered pushed w popped : all_small entered pushed ->
  (forall k, of_flow k popped ++ of_flow k (pending w) ++ waiting (wr_queue w) k `sublist_of` of_flow k pushed) ->
  Forall (fun e => small (snd e)) (queued_frames (pending w)).
Proof.
  intros [_ Hs] Hsub. unfold queued_frames. apply Forall_fmap, Forall_forall. intros p Hp. simpl.
  assert (Hin : p ∈ of_flow (packet_key p) pushed).
  { eapply elem_of_sublist; [|apply Hsub]. apply elem_of_app. right. apply elem_of_app. left.
    unfold of_flow. by apply list_elem_of_filter. }
  apply list_elem_of_filter in Hin as [_ Hin]. rewrite Forall_forall in Hs. by apply Hs.
Qed.

Lemma history_same entered pushed (w w' : Writer) : wr_rx w' = wr_rx w -> wr_queue w' = wr_queue w ->
  pending w' = pending w -> wr_log w' = wr_log w -> wr_failed w' = wr_failed w ->
  sk_accepted (wr_conn w') = sk_accepted (wr_conn w) -> history entered pushed w -> history entered pushed w'.
Proof.
  intros Hrx Hq Hp Hl Hf Ha (received & popped & He & Hh & Hs). exists received, popped.
  rewrite Hrx, Hq, Hp. split_and!; [done| |done]. by apply (hist_same _ _ _ w).
Qed.

Lemma channel_frames_app l l' : channel_frames (l ++ l') = channel_frames l ++ channel_frames l'.
Proof. apply omap_app. Qed.

Lemma own_frames_ok f : from_channel [(FromChannel, f)] = [f] /\ from_queue [(FromChannel, f)] = []
  /\ from_channel [(OwnKeepalive, keepalive_frame)] = [] /\ from_queue [(OwnKeepalive, keepalive_frame)] = []
  /\ Forall origin_ok [(FromChannel, f)] /\ Forall origin_ok [(OwnKeepalive, keepalive_frame)]
  /\ small keepalive_frame.
Proof. split_and!; try done; by apply Forall_singleton. Qed.

(** The task takes [msgs] off the channel and writes their frames. *)
Lemma history_recv entered pushed w w' msgs rx tried ok : history entered pushed w -> pending w = [] ->
  wr_rx w = msgs ++ rx -> wrote tried ok (w <| wr_rx := rx |>) w' -> from_channel tried = channel_frames msgs ->
  from_queue tried = [] -> Forall origin_ok tried ->
  (Forall small (channel_frames msgs) -> Forall (fun e => small (snd e)) tried) -> history entered pushed w'.
Proof.
  intros (received & popped & He & Hh & Hs) Hpe Hrx W Hfc Hfq Ho Hsm.
  pose proof (wrote_control _ _ _ _ W) as C. injection C as Crx _ Cq _ _ _ _ Cat.
  exists (received ++ msgs), popped. rewrite Crx, Cq. split_and!.
  - by rewrite He, Hrx, app_assoc.
  - rewrite channel_frames_app, <- Hfc, <- (app_nil_r popped), <- Hfq.
    eapply hist_wrote; [|exact W|done|].
    { by apply (hist_same _ _ _ w). }
    intros [Hall _]. apply Hsm. rewrite He, Hrx, !channel_frames_app in Hall.
    by apply Forall_app in Hall as [_ [? _]%Forall_app].
  - unfold pending in *. rewrite Cat. cbn. by rewrite Hpe in *.
Qed.

Lemma history_frame entered pushed w w' d rx ok : history entered pushed w -> pending w = [] ->
  wr_rx w = SendFrame d :: rx -> wrote [(FromChannel, d)] ok (w <| wr_rx := rx |>) w' -> history entered pushed w'.
Proof.
  intros Hh Hp Hrx W. destruct (own_frames_ok d) as (? & ? & _ & _ & ? & _).
  apply (history_recv entered pushed w w' [SendFrame d] rx [(FromChannel, d)] ok); try done.
  simpl. rewrite !Forall_singleton. done.
Qed.

Lemma history_keepalive entered pushed w w' ok : history entered pushed w -> pending w = [] ->
  wrote [(OwnKeepalive, keepalive_frame)] ok w w' -> history entered pushed w'.
Proof.
  intros Hh Hp W. destruct (own_frames_ok []) as (_ & _ & ? & ? & _ & ? & ?).
  apply (history_recv entered pushed w w' [] (wr_rx w) [(OwnKeepalive, keepalive_frame)] ok); try done.
  - by destruct w.
  - intros _. by apply Forall_singleton.
Qed.

Lemma history_skip entered pushed w rx : history entered pushed w -> pending w = [] ->
  wr_rx w = ScheduleKeepalive :: rx -> history entered pushed (w <| wr_rx := rx |>).
Proof.
  intros Hh Hp Hrx. eapply (history_recv entered pushed w _ [ScheduleKeepalive] rx [] true); try done.
  by apply wrote_nil.
Qed.

Lemma from_queue_queued batch : from_queue (queued_frames batch) = batch /\ from_channel (queued_frames batch) = []
  /\ Forall origin_ok (queued_frames batch).
Proof.
  induction batch as [|p batch (IH1 & IH2 & IH3)]; [done|].
  change (queued_frames (p :: batch)) with ((FromQueue p, traffic_frame p) :: queued_frames batch).
  split_and!; [exact (f_equal (cons p) IH1)|exact IH2|constructor; [exact eq_refl|exact IH3]].
Qed.

(** The batch is written, up to the packet that fails. *)
Lemma history_batch entered pushed w w' ok : history entered pushed w -> 
  wrote (queued_frames (pending w)) ok w w' ->
  forall x, pending (goto x w') = [] -> history entered pushed (goto x w').
Proof.
  intros (received & popped & He & Hh & Hs) W x Hx. destruct (from_queue_queued (pending w)) as (Hq & Hc & Ho).
  pose proof (wrote_control _ _ _ _ W) as C. injection C as Crx _ Cq _ _ _ _ Cat.
  exists received, (popped ++ pending w). split_and!.
  - cbn. by rewrite Crx.
  - apply (hist_same _ _ _ w'); [done..|].
    pose proof (hist_wrote _ _ _ _ _ _ _ Hh W Ho (fun Hsm => pending_small _ _ _ _ Hsm Hs)) as Hw.
    by rewrite Hc, Hq, app_nil_r in Hw.
  - intros k. rewrite Hx. specialize (Hs k). cbn. rewrite Cq. unfold of_flow in *. by rewrite filter_app, <- app_assoc.
Qed.

Context (cfg : AdaptiveTimeoutConfig) (Hwf : config_wf cfg) (Hv : validate cfg = Ok tt).

Record writer_inv (quantum : Z) (notifies : nat) (entered : list PeerMessage) (pushed : list TrafficPacket)
    (w : Writer) : Prop := {
  wi_queue : queue_ok quantum (length pushed) (wr_queue w);
  wi_durable : durable_ok cfg (wr_durable w);
  wi_history : history entered pushed w;
  wi_point : point_ok notifies w
}.

Lemma arm_read_deadline_spec now w : durable_ok cfg (wr_durable w) ->
  exists w', arm_read_deadline cfg now w = Ret w' /\ wrote [] true w w' /\ wr_conn w' = wr_conn w
    /\ is_Some (wr_deadline w').
Proof.
  intros Hd. unfold arm_read_deadline, arm, current. destruct (wr_deadline w) as [t|] eqn:Hdl.
  - rewrite ret_bind. eexists. split; [done|]. split; [by apply wrote_nil|done].
  - destruct (compute_bounds cfg (dl_ewma_ms (wr_durable w)) (dl_penalty_ms (wr_durable w))
      (dl_floor_ms (wr_durable w)) Hwf Hv) as (t & -> & _).
    { pose proof (as_millis_range (at_min cfg)) as Hr. unfold is_u64 in Hr. pose proof (do_floor _ _ Hd). lia. }
    rewrite !ret_bind. eexists. split; [done|]. split; [by apply wrote_nil|done].
Qed.

Lemma mark_sig_req_sent_spec now d w : wrote [] true w (mark_sig_req_sent now d w)
  /\ wr_conn (mark_sig_req_sent now d w) = wr_conn w.
Proof. unfold mark_sig_req_sent. case_decide; (split; [by apply wrote_nil|done]). Qed.

Section Step.
Context (quantum : Z) (notifies : nat) (entered : list PeerMessage) (pushed : list TrafficPacket).
Abbreviation inv := (writer_inv quantum notifies entered pushed) (only parsing).

(** Points where nothing is promised about the schedule. *)
Definition free_point (p : Point) : Prop := match p with AtSelect | AtAnswer | AtBatch _ => False | _ => True end.

Lemma free_point_ok w : free_point (wr_at w) -> pending w = [] /\ forall n, point_ok n w.
Proof. unfold pending, point_ok. by destruct (wr_at w). Qed.

(** The task moves to a point and keeps what the invariant is about. *)
Lemma inv_moved w w1 w' : inv w -> wr_queue w1 = wr_queue w -> wr_durable w1 = wr_durable w ->
  history entered pushed w1 -> wr_queue w' = wr_queue w1 -> wr_durable w' = wr_durable w1 ->
  wr_rx w' = wr_rx w1 -> pending w' = pending w1 -> wr_log w' = wr_log w1 -> wr_failed w' = wr_failed w1 ->
  wr_conn w' = wr_conn w1 -> point_ok notifies w' -> inv w'.
Proof.
  intros [] Hq Hd Hh Hq' Hd' Hrx Hp Hl Hf Hc Hpt. split; [by rewrite Hq', Hq|by rewrite Hd', Hd| |done].
  apply (history_same entered pushed w1); try done. by rewrite Hc.
Qed.

Lemma inv_goto w p : inv w -> pending w = [] -> free_point p -> inv (goto p w).
Proof.
  intros I Hp Hf. destruct (free_point_ok (goto p w)) as [Hp' Hpt]; [done|].
  apply (inv_moved w w (goto p w)); try done; [apply I|by rewrite Hp, Hp'].
Qed.

Lemma send_direct_inv i d rx w : inv w -> wr_at w = AtSelect -> wr_rx w = SendFrame d :: rx ->
  exists w', send_direct cfg i d (w <| wr_rx := rx |>) = Ret w' /\ inv w'
    /\ (wr_at w' = AtCheck \/ wr_at w' = AtExit) /\ wr_rx w' = rx /\ wr_queue w' = wr_queue w
    /\ wr_permit w' = wr_permit w.
Proof.
  intros I Hat Hrx. assert (Hp : pending w = []) by (unfold pending; by rewrite Hat).
  unfold send_direct. pose proof (write_frame_spec (in_io i 0) FromChannel d (w <| wr_rx := rx |>)) as W1.
  assert (Hleave : forall ok w1, wrote [(FromChannel, d)] ok (w <| wr_rx := rx |>) w1 ->
    exists w', Ret (leave w1) = Ret w' /\ inv w' /\ (wr_at w' = AtCheck \/ wr_at w' = AtExit) /\ wr_rx w' = rx
      /\ wr_queue w' = wr_queue w /\ wr_permit w' = wr_permit w).
  { intros ok w1 W. exists (leave w1). pose proof (wrote_control _ _ _ _ W) as C. injection C as ? ? ? ? ? ? ? Hat1.
    split_and!; [done| |by right|done..]. apply (inv_moved w w1); try done; [by eapply history_frame; [apply I|..]|].
    unfold pending. by rewrite Hat1, Hat. }
  destruct (write_frame _ _ _ _) as [[] w1]; cbn [negb fst snd] in *; [|by eapply Hleave].
  destruct (flush_spec (in_io i 1) w1) as [W2 _]. pose proof (wrote_trans _ _ _ _ _ _ W1 W2) as W12.
  destruct (flush _ w1) as [[] w2]; cbn [negb fst snd] in *; [|by eapply Hleave].
  destruct (mark_sig_req_sent_spec (in_now i) d (mark_written (in_now i) w2)) as [W3 _].
  set (w3 := mark_sig_req_sent _ _ _) in *.
  assert (W : wrote [(FromChannel, d)] true (w <| wr_rx := rx |>) w3).
  { eapply (wrote_trans [(FromChannel, d)] []); [|exact W3]. eapply (wrote_trans [(FromChannel, d)] []); [exact W12|].
    by apply wrote_nil. }
  assert (exists w4, (if needs_deadline d then arm_read_deadline cfg (in_now i) w3 else Ret w3) = Ret w4
    /\ wrote [(FromChannel, d)] true (w <| wr_rx := rx |>) w4) as (w4 & -> & W4).
  { destruct (needs_deadline d); [|by eexists].
    destruct (arm_read_deadline_spec (in_now i) w3) as (w4 & -> & W4 & _).
    { pose proof (wrote_control _ _ _ _ W) as C. injection C as ? ? ? ? ? -> ? ?. apply I. }
    eexists. split; [done|]. by eapply (wrote_trans [(FromChannel, d)] []). }
  rewrite ret_bind. eexists. split; [done|]. pose proof (wrote_control _ _ _ _ W4) as C.
  injection C as ? ? ? ? ? ? ? Hat4. split_and!; [|by left|done..].
  apply (inv_moved w w4); try done; [by eapply history_frame; [apply I|..]|]. unfold pending. by rewrite Hat4, Hat.
Qed.

(** ** Steps preserve the invariant and use up work *)

Definition rank (p : Point) : Z :=
  match p with
  | Ended => 0 | AtExit => 1 | AtSelect => 2 | AtAnswer => 3 | AtBatch _ => 4 | AtDrain => 5 | AtCheck => 6
  | AtCoalesce => 7
  end.
Definition backlog_of (w : Writer) : Z :=
  2 * (Z.of_nat (length (wr_rx w)) + pq_count (wr_queue w)) + Z.b2z (wr_permit w).
Definition work (w : Writer) : Z := 8 * backlog_of w + rank (wr_at w).

(** The task has nothing to do but wait. *)
Definition idle_writer (w : Writer) : Prop :=
  wr_at w = AtSelect /\ wr_cancel w = false /\ wr_closed w = false /\ wr_rx w = [] /\ wr_permit w = false.

Definition progress (w w' : Writer) : Prop := inv w' /\ work w' < work w.

Lemma rank_bounds p : 0 <= rank p < 8.
Proof. destruct p; simpl; lia. Qed.

Lemma backlog_work w w' : backlog_of w' < backlog_of w -> work w' < work w.
Proof. unfold work. pose proof (rank_bounds (wr_at w)). pose proof (rank_bounds (wr_at w')). lia. Qed.

(** A keepalive of the task's own. *)
Lemma own_keepalive_inv i w : inv w -> pending w = [] ->
  let r := write_and_flush (in_io i 0) (in_io i 1) (in_now i) OwnKeepalive keepalive_frame w in
  control (snd r) = control w
  /\ (forall w', wr_queue w' = wr_queue w -> wr_durable w' = wr_durable w -> wr_rx w' = wr_rx w -> pending w' = [] ->
       wr_log w' = wr_log (snd r) -> wr_failed w' = wr_failed (snd r) -> wr_conn w' = wr_conn (snd r) ->
       point_ok notifies w' -> inv w')
  /\ (fst r = true -> flushed (snd r)).
Proof.
  intros I Hp r. destruct (write_and_flush_spec (in_io i 0) (in_io i 1) (in_now i) OwnKeepalive keepalive_frame w) as [W Hf].
  fold r in W, Hf. pose proof (wrote_control _ _ _ _ W) as C. split_and!; [done| |done].
  injection C as Crx ? Cq ? ? Cd ? Cat. intros w' Hq Hd Hrx Hp' Hl Hfl Hc Hpt.
  apply (inv_moved w (snd r)); try done; [|congruence..|].
  - by apply (history_keepalive entered pushed w (snd r) (fst r)); [apply I|..].
  - unfold pending in *. by rewrite Hp', Cat, Hp.
Qed.

Lemma awake_mono w w' : wr_queue w' = wr_queue w -> (wr_permit w = true -> wr_permit w' = true) ->
  wr_rx w' = wr_rx w -> awake notifies w -> awake notifies w'.
Proof. unfold awake. intros -> Hp ->. tauto. Qed.

Lemma select_step_inv i w : inv w -> wr_at w = AtSelect ->
  exists r, writer_select cfg i w = Ret r
    /\ match r with
       | Some w' => inv w' /\ (idle_writer w \/ work w' < work w)
       | None => idle_writer w
       end.
Proof.
  intros I Hat. assert (Hp : pending w = []) by (unfold pending; by rewrite Hat).
  assert (Hlv : inv (leave w) /\ work (leave w) < work w).
  { split; [by apply inv_goto|]. unfold work, backlog_of. simpl. rewrite Hat. simpl. lia. }
  unfold writer_select. destruct (wr_cancel w) eqn:Hc; [eexists; split; [done|]; by destruct Hlv; auto|].
  destruct (wr_rx w) as [|[d|] rx] eqn:Hrx.
  - destruct (wr_closed w) eqn:Hcl; [eexists; split; [done|]; by destruct Hlv; auto|].
    destruct (wr_permit w) eqn:Hpm.
    { eexists. split; [done|]. split; [|right; apply backlog_work; unfold backlog_of, set_field; simpl; rewrite Hpm; simpl; lia].
      apply (inv_moved w w); try done. apply I. }
    assert (Hid : idle_writer w) by done.
    destruct (in_idle i); [|by eexists].
    destruct (own_keepalive_inv i w I Hp) as (C & Hinv & Hf).
    destruct (write_and_flush _ _ _ _ _ _) as [ok w1]. cbn [fst snd] in *. eexists. split; [done|].
    injection C as Crx ? Cq ? Co ? ? Cat. destruct ok.
    + split; [|by left]. apply Hinv; try done; [by unfold pending; cbn; rewrite Cat, Hat|].
      pose proof (wi_point _ _ _ _ _ I) as P. unfold point_ok in *.
      cbn. rewrite Cat. rewrite Hat in *. destruct P as (Ha & _ & _).
      split_and!; [|done|left; by apply Hf].
      apply (awake_mono w); try done. cbn. congruence.
    + split; [|by left]. by apply Hinv.
  - destruct (send_direct_inv i d rx w I Hat Hrx) as (w' & -> & I' & _ & Hrx' & Hq' & Hpm).
    rewrite ret_bind. eexists. split; [done|]. split; [done|]. right. apply backlog_work. unfold backlog_of.
    rewrite Hrx, Hrx', Hq', Hpm. cbn [length]. lia.
  - eexists. split; [done|]. split.
    + apply (inv_moved w (w <| wr_rx := rx |>)); try done. by apply history_skip; [apply I|..].
    + right. apply backlog_work. unfold backlog_of, set_field. simpl. rewrite Hrx. cbn [length]. lia.
Qed.

Lemma coalesce_step_inv i w : inv w -> wr_at w = AtCoalesce -> progress w (coalesce_step i w).
Proof.
  intros I Hat. assert (Hp : pending w = []) by (unfold pending; by rewrite Hat).
  unfold coalesce_step. destruct (wr_rx w) as [|[d|] rx] eqn:Hrx.
  - split; [by apply inv_goto|]. unfold work, backlog_of. simpl. rewrite Hat. simpl. lia.
  - destruct (write_and_flush_spec (in_io i 0) (in_io i 1) (in_now i) FromChannel d (w <| wr_rx := rx |>)) as [W _].
    destruct (write_and_flush _ _ _ _ _ _) as [ok w1]. cbn [fst snd] in *.
    assert (Hh : history entered pushed w1) by (by eapply history_frame; [apply I|..]).
    assert (Hw : exists w', (if negb ok then goto AtCheck w1
                else (mark_sig_req_sent (in_now i) d w1) <| wr_owed := false |>) = w'
              /\ free_point (wr_at w') /\ (wr_rx w', wr_queue w', wr_permit w', wr_durable w')
                 = (rx, wr_queue w, wr_permit w, wr_durable w)
              /\ wr_log w' = wr_log w1 /\ wr_failed w' = wr_failed w1 /\ wr_conn w' = wr_conn w1).
    { pose proof (wrote_control _ _ _ _ W) as C. injection C as Crx ? Cq Cp ? Cd ? Cat. eexists. split; [done|].
      destruct ok; [|cbn; by rewrite Crx, Cq, Cp, Cd]. unfold mark_sig_req_sent.
      case_decide; cbn; by rewrite Cat, Hat, Crx, Cq, Cp, Cd. }
    destruct Hw as (w' & -> & Hf & Heq & Hl & Hfl & Hc). injection Heq as Hrx' Hq' Hpm' Hd'.
    pose proof (wrote_control _ _ _ _ W) as C. injection C as Crx ? Cq ? ? Cd ? Cat.
    destruct (free_point_ok w' Hf) as [Hp' Hpt]. split.
    + apply (inv_moved w w1); try done; [congruence..|]. rewrite Hp'. unfold pending. by rewrite Cat, Hat.
    + apply backlog_work. unfold backlog_of. rewrite Hrx', Hq', Hpm', Hrx. cbn [length]. lia.
  - split.
    + apply (inv_moved w (w <| wr_rx := rx |>)); try done; [by apply history_skip; [apply I|..]|].
      unfold point_ok. cbn. by rewrite Hat.
    + apply backlog_work. unfold backlog_of, set_field. simpl. rewrite Hrx. cbn [length]. lia.
Qed.

Lemma check_step_inv w : inv w -> wr_at w = AtCheck ->
  progress w (goto (if decide (wr_rx w = []) then AtDrain else AtAnswer) w).
Proof.
  intros I Hat. assert (Hp : pending w = []) by (unfold pending; by rewrite Hat). split.
  - case_decide; [by apply inv_goto|]. apply (inv_moved w w); try done; [apply I|].
    split; [|by right]. right. right. by right.
  - unfold work, backlog_of. simpl. rewrite Hat. case_decide; simpl; lia.
Qed.

Lemma drain_step_inv i w : inv w -> wr_at w = AtDrain -> Z.of_nat (length pushed) <= U32_MAX ->
  exists batch w', drain_pop (in_now i) w = Ret (batch, w') /\ progress w (goto (AtBatch batch) w').
Proof.
  intros [[G K Q] D Hh P] Hat Hn. unfold drain_pop.
  destruct (pop_batch_spec MAX_DRAIN_PER_ITER (Z.of_nat (length pushed)) (in_now i) (wr_queue w) G K Hn)
    as (batch & q & -> & G' & K' & Q' & Hs & Hle & He & Hc).
  rewrite ret_bind. set (w' := if decide _ then _ else _). exists batch, w'. split; [done|].
  assert (Hfields : wr_queue w' = q /\ wr_rx w' = wr_rx w /\ wr_durable w' = wr_durable w /\ wr_log w' = wr_log w
    /\ wr_failed w' = wr_failed w /\ wr_conn w' = wr_conn w) by (unfold w'; by case_decide).
  destruct Hfields as (Hq & Hrx & Hd & Hl & Hf & Hcn). split.
  - split.
    + cbn. rewrite Hq. split; [done|done|congruence].
    + cbn. by rewrite Hd.
    + destruct Hh as (received & popped & Hen & Hh & Hsub). exists received, popped. cbn. rewrite Hrx, Hq.
      split_and!; [done|by apply (hist_same _ _ _ w); cbn; rewrite ?Hcn|]. intros k. specialize (Hsub k).
      unfold pending in Hsub. rewrite Hat in Hsub. unfold pending. cbn [goto wr_at]. cbn in Hsub |- *.
      etrans; [|exact Hsub]. apply sublist_app; [done|]. apply Hs.
    + unfold point_ok, awake. cbn. rewrite Hq. unfold w'. case_decide as Hlen.
      * right. by left.
      * left. apply He. lia.
  - unfold work, backlog_of. cbn. rewrite Hq, Hrx, Hat. cbn [rank]. unfold w'. case_decide as Hlen.
    + cbn. rewrite Hlen in Hc. unfold MAX_DRAIN_PER_ITER in Hc. destruct (wr_permit w); cbn; lia.
    + cbn. lia.
Qed.

Lemma batch_step_inv i batch w : inv w -> wr_at w = AtBatch batch ->
  exists w', batch_step cfg i batch w = Ret w' /\ progress w w'.
Proof.
  intros I Hat. assert (Hp : pending w = batch) by (unfold pending; by rewrite Hat).
  assert (Haw : awake notifies w) by (pose proof (wi_point _ _ _ _ _ I) as P; unfold point_ok in P; by rewrite Hat in P).
  assert (Hdone : forall ok w1 w', wrote (queued_frames batch) ok w w1 -> wr_at w' = AtExit \/ wr_at w' = AtAnswer /\ flushed w' ->
    (wr_rx w', wr_queue w', wr_permit w', wr_durable w') = (wr_rx w1, wr_queue w1, wr_permit w1, wr_durable w1) ->
    wr_log w' = wr_log w1 -> wr_failed w' = wr_failed w1 -> wr_conn w' = wr_conn w1 -> progress w w').
  { intros ok w1 w' W Hw' Heq Hl Hf Hc. injection Heq as Hrx Hq Hpm Hd.
    pose proof (wrote_control _ _ _ _ W) as C. injection C as Crx ? Cq Cp ? Cd ? _.
    assert (Hpe : pending (goto AtExit w1) = [] /\ pending w' = [])
      by (unfold pending; by destruct Hw' as [->|[-> _]]).
    destruct Hpe as [Hpe Hpe']. split.
    - apply (inv_moved w (goto AtExit w1)); try done.
      + rewrite <- Hp in W. by apply (history_batch entered pushed w w1 ok (wi_history _ _ _ _ _ I) W).
      + unfold point_ok. destruct Hw' as [->|[-> Hfl]]; [done|]. split; [|by left].
        apply (awake_mono w); congruence.
    - unfold work, backlog_of. rewrite Hrx, Hq, Hpm, Crx, Cq, Cp, Hat. destruct Hw' as [->|[-> _]]; simpl; lia. }
  unfold batch_step. destruct (drain_write_spec (in_io i) 0 batch false w) as [W1 _].
  destruct (drain_write _ _ _ _ _) as [[ok b] w1]. cbn [fst snd do_ok do_wrote] in *.
  destruct ok; cbn [negb]; [|eexists; split; [done|]; eapply (Hdone false w1); [done|by left|done..]].
  destruct (flush_spec (in_io i (length batch)) w1) as [W2 Hfl].
  pose proof (wrote_trans _ _ _ _ _ _ W1 W2) as W. rewrite app_nil_r in W. clear W1 W2.
  destruct (flush _ w1) as [ok w2]. cbn [fst snd] in *.
  destruct ok; cbn [negb]; [|eexists; split; [done|]; eapply (Hdone false w2); [done|by left|done..]].
  destruct b; [|eexists; split; [done|]; eapply (Hdone true w2); [done|right; split; [done|by apply Hfl]|done..]].
  destruct (arm_read_deadline_spec (in_now i) (mark_written (in_now i) w2)) as (w3 & -> & W3 & Hc3 & _).
  { pose proof (wrote_control _ _ _ _ W) as C. injection C as ? ? ? ? ? Cd ? ?. cbn. rewrite Cd. apply I. }
  rewrite ret_bind. eexists. split; [done|].
  pose proof (wrote_control _ _ _ _ W3) as C. injection C as Crx ? Cq Cp ? Cd ? _.
  destruct (wrote_log _ _ _ _ W3) as (fs & Hfs & Hl & _). apply prefix_nil_inv in Hfs as ->. rewrite app_nil_r in Hl.
  eapply (Hdone true w2); [done| | |done| |done].
  - right. split; [done|]. unfold flushed. cbn. rewrite Hc3. by apply Hfl.
  - cbn. by rewrite Crx, Cq, Cp, Cd.
  - cbn. pose proof (wrote_failed _ _ _ _ W3) as E. by rewrite orb_false_r in E.
Qed.

Lemma answer_step_inv i w : inv w -> wr_at w = AtAnswer -> progress w (answer_step i w).
Proof.
  intros I Hat. assert (Hp : pending w = []) by (unfold pending; by rewrite Hat).
  pose proof (wi_point _ _ _ _ _ I) as P. unfold point_ok in P. rewrite Hat in P. destruct P as [Ha Hfl].
  unfold answer_step. destruct (wr_owed w && bool_decide (wr_rx w = [])) eqn:Ho.
  - destruct (own_keepalive_inv i w I Hp) as (C & Hinv & Hf).
    destruct (write_and_flush _ _ _ _ _ _) as [ok w1]. cbn [fst snd] in *.
    injection C as Crx ? Cq Cp Co Cd ? Cat. destruct ok; simpl negb; cbv iota; split.
    + apply Hinv; try done. split_and!; [by apply (awake_mono w); cbn; congruence|done|left; by apply Hf].
    + unfold work, backlog_of. cbn. rewrite Crx, Cq, Cp, Hat. simpl. lia.
    + by apply Hinv.
    + unfold work, backlog_of. cbn. rewrite Crx, Cq, Cp, Hat. simpl. lia.
  - split; [|unfold work, backlog_of; cbn; rewrite Hat; simpl; lia].
    apply (inv_moved w w); try done; [apply I|]. split_and!; [done| |done].
    cbn. intros Hw. rewrite Hw in Ho. simpl in Ho. by apply bool_decide_eq_false in Ho.
Qed.

(** A step never panics, keeps the invariant, and, unless the task only waits,
    uses up work. *)
Lemma peer_writer_inv i w : inv w -> Z.of_nat (length pushed) <= U32_MAX ->
  exists r, peer_writer cfg i w = Ret r
    /\ match r with
       | Some w' => inv w' /\ (idle_writer w \/ work w' < work w)
       | None => idle_writer w \/ wr_at w = Ended
       end.
Proof.
  intros I Hn. unfold peer_writer.
  assert (Hprog : forall w', progress w w' -> inv w' /\ (idle_writer w \/ work w' < work w)) by (intros ? []; auto).
  destruct (wr_at w) eqn:Hat.
  - destruct (select_step_inv i w I Hat) as (r & -> & Hr). exists r. split; [done|]. destruct r; [done|by left].
  - eexists. split; [done|]. by apply Hprog, coalesce_step_inv.
  - eexists. split; [done|]. by apply Hprog, check_step_inv.
  - destruct (drain_step_inv i w I Hat Hn) as (b & w' & -> & Hw). rewrite ret_bind. eexists. split; [done|]. by apply Hprog.
  - destruct (batch_step_inv i batch w I Hat) as (w' & -> & Hw). rewrite ret_bind. eexists. split; [done|]. by apply Hprog.
  - eexists. split; [done|]. by apply Hprog, answer_step_inv.
  - eexists. split; [done|]. split; [|right; unfold work, backlog_of; cbn; rewrite Hat; simpl; lia].
    apply (inv_moved w w); try done; [apply I|]. unfold pending. by rewrite Hat.
  - exists None. split; [done|]. by right.
Qed.
End Step.

(** ** The other tasks *)

Definition link_inv (quantum : Z) (l : Link) : Prop :=
  writer_inv quantum (lk_notifies l) (lk_entered l) (lk_pushed l) (lk_writer l).

Definition event_ok (quantum : Z) (ev : Event) : Prop :=
  match ev with
  | EvPush t _ => wire_size t <= 4 * quantum
  | EvShared op => op_ok op
  | _ => True
  end.

Lemma all_small_mono entered pushed entered' pushed' :
  all_small (entered ++ entered') (pushed ++ pushed') -> all_small entered pushed.
Proof. unfold all_small. rewrite channel_frames_app, !Forall_app. tauto. Qed.

Lemma point_ok_env n n' (w w' : Writer) : wr_at w' = wr_at w -> wr_owed w' = wr_owed w -> wr_conn w' = wr_conn w ->
  (wr_rx w <> [] -> wr_rx w' <> []) -> (awake n w -> awake n' w') -> point_ok n w -> point_ok n' w'.
Proof. unfold point_ok, flushed. intros -> -> -> Hrx Ha. destruct (wr_at w); tauto. Qed.

Lemma try_send_inv quantum msg l l' : link_inv quantum l -> try_send msg l = Ok l' -> link_inv quantum l'.
Proof.
  unfold try_send. intros [Q D (received & popped & He & Hh & Hs) P].
  destruct (receiver_dropped _); [done|]. destruct (_ <? _)%nat; [|done]. intros [= <-].
  assert (Hne : forall rx : list PeerMessage, rx ++ [msg] <> []) by (intros [|]; done).
  split; [done|done| |].
  - exists received, popped. split_and!; [cbn; by rewrite He, app_assoc| |done].
    apply (hist_same _ _ _ (lk_writer l)); [done..|]. apply (hist_mono (all_small (lk_entered l) (lk_pushed l))); [|done].
    cbn. rewrite <- (app_nil_r (lk_pushed l)) at 1. apply all_small_mono.
  - apply (point_ok_env (lk_notifies l) _ (lk_writer l)); try done; [intros _; cbn; apply Hne|].
    intros _. right. right. right. cbn. apply Hne.
Qed.

Lemma push_inv quantum t now l : link_inv quantum l -> wire_size t <= 4 * quantum ->
  exists l', link_step cfg (EvPush t now) l = Ret l' /\ link_inv quantum l' /\ lk_pushed l' = lk_pushed l ++ [t].
Proof.
  intros [[G K Q] D (received & popped & He & Hh & Hs) P] Ht. cbn [link_step].
  destruct (push_spec (wr_queue (lk_writer l)) t now) as (q & -> & Hp); [apply G..|].
  rewrite ret_bind. eexists. split; [done|]. split; [|done]. pose proof (inv_quantum _ (good_inv _ G)) as Hqp.
  destruct (pushed_config _ _ _ _ Hp) as (_ & _ & Hq & Hcd). split.
  - cbn. split; [by eapply push_good; rewrite ?Q| |congruence].
    pose proof (pushed_count _ _ _ _ Hp). unfold codel_ok in *. rewrite Hcd, length_app. simpl. lia.
  - done.
  - exists received, popped. split_and!; [done| |].
    + apply (hist_same _ _ _ (lk_writer l)); [done..|]. apply (hist_mono (all_small (lk_entered l) (lk_pushed l))); [|done].
      cbn. rewrite <- (app_nil_r (lk_entered l)) at 1. apply all_small_mono.
    + intros k. change (of_flow k popped ++ of_flow k (pending (lk_writer l)) ++ waiting q k
        `sublist_of` of_flow k (lk_pushed l ++ [t])).
      replace (of_flow k (lk_pushed l ++ [t])) with (of_flow k (lk_pushed l) ++ of_flow k [t])
        by (unfold of_flow; by rewrite filter_app).
      assert (Hw : waiting q k `sublist_of` waiting (wr_queue (lk_writer l)) k ++ of_flow k [t]).
      { destruct (pushed_accept _ _ _ _ Hp ltac:(lia) k) as (rest & [more Hl] & Hb). unfold waiting.
        rewrite Hb, fmap_app, of_flow_arrival. apply sublist_app; [|done]. rewrite Hl, fmap_app. by apply sublist_inserts_l. }
      etrans; [apply sublist_app; [done|apply sublist_app; [done|exact Hw]]|]. rewrite !app_assoc.
      apply sublist_app; [|done]. rewrite <- app_assoc. apply Hs.
  - apply (point_ok_env (lk_notifies l) _ (lk_writer l)); try done. intros _. right. right. left. cbn. lia.
Qed.

(** Events that only touch what the history is not about. *)
Lemma env_inv quantum l n (w' : Writer) : link_inv quantum l -> wr_at w' = wr_at (lk_writer l) ->
  wr_rx w' = wr_rx (lk_writer l) -> wr_queue w' = wr_queue (lk_writer l) -> wr_owed w' = wr_owed (lk_writer l) ->
  wr_conn w' = wr_conn (lk_writer l) -> wr_log w' = wr_log (lk_writer l) -> wr_failed w' = wr_failed (lk_writer l) ->
  durable_ok cfg (wr_durable w') ->
  (wr_permit (lk_writer l) = true \/ (0 < lk_notifies l)%nat -> wr_permit w' = true \/ (0 < n)%nat) ->
  writer_inv quantum n (lk_entered l) (lk_pushed l) w'.
Proof.
  intros [Q D Hh P] Hat Hrx Hq Ho Hc Hl Hf Hd Hw. split; [by rewrite Hq|done| |].
  - apply (history_same _ _ (lk_writer l)); try done; [unfold pending; by rewrite Hat|by rewrite Hc].
  - apply (point_ok_env (lk_notifies l) _ (lk_writer l)); try done; [by rewrite Hrx|].
    unfold awake. rewrite Hq, Hrx. tauto.
Qed.

Lemma link_step_inv quantum ev l : link_inv quantum l -> event_ok quantum ev ->
  Z.of_nat (length (lk_pushed l)) <= U32_MAX ->
  exists l', link_step cfg ev l = Ret l' /\ link_inv quantum l'
    /\ (length (lk_pushed l') <= S (length (lk_pushed l)))%nat.
Proof.
  intros I Hev Hn. assert (Hdur : durable_ok cfg (wr_durable (lk_writer l))) by apply I.
  destruct ev as [i|msg|i|t now| |now|op|]; cbn [link_step].
  - destruct (peer_writer_inv _ _ _ _ i (lk_writer l) I Hn) as (r & -> & Hr). rewrite ret_bind.
    eexists. split; [done|]. destruct r; [|auto]. split; [apply Hr|cbn; lia].
  - eexists. split; [done|]. unfold send_to_peer. destruct (try_send msg l) as [l1|[]] eqn:Hs; cbn; [|auto..].
    split; [exact (try_send_inv quantum msg l l1 I Hs)|]. unfold try_send in Hs. destruct (receiver_dropped _); [done|].
    destruct (_ <? _)%nat; [|done]. injection Hs as <-. cbn. lia.
  - eexists. split; [done|]. unfold spawned_send. destruct (lk_spawned l !! i) as [msg|]; [|auto].
    destruct (try_send msg l) as [l1|[]] eqn:Hs; cbn; [|auto..].
    split; [exact (try_send_inv quantum msg l l1 I Hs)|]. unfold try_send in Hs. destruct (receiver_dropped _); [done|].
    destruct (_ <? _)%nat; [|done]. injection Hs as <-. cbn. lia.
  - destruct (push_inv quantum t now l I Hev) as (l' & Hl & I' & Hp). cbn [link_step] in Hl. rewrite Hl.
    eexists. split; [done|]. split; [done|]. rewrite Hp, length_app. simpl. lia.
  - eexists. split; [done|]. destruct (lk_notifies l) as [|n] eqn:Hnn; [auto|]. split; [|cbn; lia].
    apply (env_inv quantum l); try done. by left.
  - eexists. split; [done|]. split; [|cbn; lia]. apply (env_inv quantum l); try done.
    cbn. unfold clear_on_reply. destruct (wr_epoch _); [|done]. apply observe_sample_ok; [done..| |done].
    unfold elapsed. lia.
  - eexists. split; [done|]. split; [|cbn; lia]. apply (env_inv quantum l); try done.
    cbn. by apply live_step_ok.
  - eexists. split; [done|]. split; [|cbn; lia]. apply (env_inv quantum l); done.
Qed.

Lemma link_run_inv quantum evs l : link_inv quantum l -> Forall (event_ok quantum) evs ->
  Z.of_nat (length (lk_pushed l) + length evs) <= U32_MAX ->
  exists l', link_run cfg evs l = Ret l' /\ link_inv quantum l'
    /\ (length (lk_pushed l') <= length (lk_pushed l) + length evs)%nat.
Proof.
  revert l. induction evs as [|ev evs IH]; intros l I Hev Hn; [exists l; split_and!; [done|done|lia]|].
  apply Forall_cons in Hev as [Hev Hevs]. cbn [length] in Hn.
  destruct (link_step_inv quantum ev l I Hev) as (l1 & Hl & I1 & Hp); [lia|].
  unfold link_run. cbn [foldl]. rewrite ret_bind, Hl.
  destruct (IH l1 I1 Hevs) as (l' & Hl' & I' & Hp'); [lia|]. exists l'. split_and!; [done|done|cbn [length]; lia].
Qed.

Lemma link_new_inv quantum q conn d : 0 < quantum < 2 ^ 57 -> PacketQueue_new quantum = Ret q -> durable_ok cfg d ->
  sk_accepted conn = [] -> link_inv quantum (Link_new q conn d).
Proof.
  intros Hq Hnew Hd Hc. destruct (PacketQueue_new_good quantum Hq) as (q' & Hq' & G & K & Hqq & Hb).
  rewrite Hnew in Hq'. injection Hq' as <-.
  assert (He : queue_empty q) by (intros k; unfold waiting; by rewrite Hb).
  split; [done|done| |].
  - exists [], []. split_and!; [done| |intros k; cbn; by rewrite He].
    by split.
  - split_and!; [by left|done|]. left. unfold flushed. cbn. rewrite Hc.
    apply prefix_nil_inv. rewrite <- Hc. apply delivered_accepted.
Qed.

(** The connection as [handle_conn] creates it, after the events [evs]. *)
Definition reached (quantum : Z) (evs : list Event) (l : Link) : Prop :=
  exists q conn d, PacketQueue_new quantum = Ret q /\ 0 < quantum < 2 ^ 57 /\ durable_ok cfg d
    /\ sk_accepted conn = [] /\ Forall (event_ok quantum) evs /\ Z.of_nat (length evs) <= U32_MAX
    /\ link_run cfg evs (Link_new q conn d) = Ret l.

Lemma reached_inv quantum evs l : reached quantum evs l -> link_inv quantum l /\ (length (lk_pushed l) <= length evs)%nat.
Proof.
  intros (q & conn & d & Hq & Hqu & Hd & Hc & Hev & Hn & Hr).
  destruct (link_run_inv quantum evs (Link_new q conn d)) as (l' & Hl & I & Hp);
    [by apply link_new_inv|done|cbn; lia|].
  rewrite Hr in Hl. by injection Hl as <-.
Qed.

(** ** A working transport *)

Definition working (e : transport) : Prop :=
  forall t s f, fst (sk_write_all t e s f) = true /\ fst (sk_flush t e s) = true.

Definition running (w : Writer) : Prop :=
  wr_failed w = false /\ wr_cancel w = false /\ wr_closed w = false /\ wr_at w <> AtExit /\ wr_at w <> Ended.

Lemma working_write e o f w : working e -> fst (write_frame e o f w) = true.
Proof.
  intros He. unfold write_frame. destruct (He WRITE_TIMEOUT (wr_conn w) f) as [Hf _].
  by destruct (sk_write_all _ _ _ _) as [ok conn].
Qed.

Lemma working_flush e w : working e -> fst (flush e w) = true.
Proof.
  intros He. unfold flush. destruct (He WRITE_TIMEOUT (wr_conn w) []) as [_ Hf]. by destruct (sk_flush _ _ _) as [ok conn].
Qed.

Lemma working_write_and_flush e1 e2 now o f w : working e1 -> working e2 ->
  fst (write_and_flush e1 e2 now o f w) = true.
Proof.
  intros H1 H2. unfold write_and_flush. pose proof (working_write e1 o f w H1) as E.
  destruct (write_frame _ _ _ _) as [ok w1]. cbn [fst] in E. subst ok. cbn [negb].
  pose proof (working_flush e2 w1 H2) as E. destruct (flush _ _) as [ok w2]. cbn [fst] in E. by subst ok.
Qed.

Lemma working_drain io n batch b w : (forall i, working (io i)) -> do_ok (fst (drain_write io n batch b w)) = true.
Proof.
  intros Hio. revert n b w. induction batch as [|t batch IH]; intros n b w; [done|]. cbn [drain_write]. cbv zeta.
  pose proof (working_write (io n) (FromQueue t) (traffic_frame t) w (Hio n)) as E.
  destruct (write_frame _ _ _ _) as [ok w1]. cbn [fst] in E. subst ok. apply IH.
Qed.

(** Successful writes leave the flags alone. *)
Lemma wrote_running tried w w' : wrote tried true w w' -> running w -> running w'.
Proof.
  intros W (Hf & Hc & Hcl & Ha & He). pose proof (wrote_control _ _ _ _ W) as C.
  injection C as ? Ccl ? ? ? ? Cc Ca. pose proof (wrote_failed _ _ _ _ W) as F. rewrite orb_false_r in F.
  unfold running. by rewrite F, Cc, Ccl, Ca.
Qed.

Lemma goto_running p (w : Writer) : running w -> p <> AtExit -> p <> Ended -> running (goto p w).
Proof. by intros (? & ? & ? & _). Qed.

Lemma armed_running now w w' : running w -> durable_ok cfg (wr_durable w) -> arm_read_deadline cfg now w = Ret w' ->
  running (w' <| wr_owed := false |>).
Proof.
  intros Hr Hd Ha. destruct (arm_read_deadline_spec now w Hd) as (w1 & Hw & W & _). rewrite Hw in Ha.
  injection Ha as <-. exact (wrote_running _ _ _ W Hr).
Qed.

Lemma wrote_durable tried ok w w' : wrote tried ok w w' -> durable_ok cfg (wr_durable w) -> durable_ok cfg (wr_durable w').
Proof. intros W. pose proof (wrote_control _ _ _ _ W) as C. injection C as ? ? ? ? ? Cd ? ?. by rewrite Cd. Qed.

Lemma send_direct_running i d w w' : (forall j, working (in_io i j)) -> durable_ok cfg (wr_durable w) -> running w ->
  send_direct cfg i d w = Ret w' -> running w'.
Proof.
  intros Hio Hd Hr. unfold send_direct. pose proof (working_write (in_io i 0) FromChannel d w (Hio 0%nat)) as E.
  pose proof (write_frame_spec (in_io i 0) FromChannel d w) as W1.
  destruct (write_frame _ _ _ _) as [ok w1]. cbn in E, W1. subst ok. cbn [negb].
  pose proof (working_flush (in_io i 1) w1 (Hio 1%nat)) as E. destruct (flush_spec (in_io i 1) w1) as [W2 _].
  destruct (flush _ _) as [ok w2]. cbn in E, W2. subst ok. cbn [negb].
  destruct (mark_sig_req_sent_spec (in_now i) d (mark_written (in_now i) w2)) as [W3 _].
  set (w3 := mark_sig_req_sent _ _ _) in *.
  assert (Hr3 : running w3 /\ durable_ok cfg (wr_durable w3)).
  { split; [apply (wrote_running _ _ _ W3); cbn; by apply (wrote_running _ _ _ W2), (wrote_running _ _ _ W1)|].
    apply (wrote_durable _ _ _ _ W3). by apply (wrote_durable _ _ _ _ W2), (wrote_durable _ _ _ _ W1). }
  destruct Hr3 as [Hr3 Hd3]. destruct (needs_deadline d); [|intros [= <-]; by apply goto_running].
  destruct (arm_read_deadline cfg (in_now i) w3) as [w4|] eqn:Hw4; [|done].
  rewrite ret_bind. intros [= <-]. apply goto_running; [|done..]. by eapply armed_running.
Qed.

Lemma batch_step_running i batch w w' : (forall j, working (in_io i j)) -> durable_ok cfg (wr_durable w) -> running w ->
  batch_step cfg i batch w = Ret w' -> running w'.
Proof.
  intros Hio Hd Hr. unfold batch_step. pose proof (working_drain (in_io i) 0 batch false w Hio) as E.
  destruct (drain_write_spec (in_io i) 0 batch false w) as [W1 _].
  destruct (drain_write _ _ _ _ _) as [[ok b] w1]. cbn in E, W1. subst ok. cbn [do_ok negb].
  pose proof (working_flush (in_io i (length batch)) w1 (Hio _)) as E.
  destruct (flush_spec (in_io i (length batch)) w1) as [W2 _].
  destruct (flush _ _) as [ok w2]. cbn in E, W2. subst ok. cbn [negb do_wrote].
  assert (Hr2 : running w2 /\ durable_ok cfg (wr_durable w2)).
  { split; [by apply (wrote_running _ _ _ W2), (wrote_running _ _ _ W1)|].
    by apply (wrote_durable _ _ _ _ W2), (wrote_durable _ _ _ _ W1). }
  destruct Hr2 as [Hr2 Hd2]. destruct b; [|intros [= <-]; by apply goto_running].
  destruct (arm_read_deadline _ _ _) as [w3|] eqn:Hw3; [|done].
  rewrite ret_bind. intros [= <-]. apply goto_running; [|done..].
  by apply (armed_running (in_now i) (mark_written (in_now i) w2)).
Qed.

Lemma working_keepalive i o f w : (forall j, working (in_io i j)) -> running w ->
  exists w', write_and_flush (in_io i 0) (in_io i 1) (in_now i) o f w = (true, w') /\ running w'.
Proof.
  intros Hio Hr. pose proof (working_write_and_flush (in_io i 0) (in_io i 1) (in_now i) o f w (Hio 0%nat) (Hio 1%nat)) as E.
  destruct (write_and_flush_spec (in_io i 0) (in_io i 1) (in_now i) o f w) as [W _].
  destruct (write_and_flush _ _ _ _ _ _) as [ok w']. cbn in E. subst ok. eexists. split; [done|]. by eapply wrote_running.
Qed.

Lemma peer_writer_running i w w' : (forall j, working (in_io i j)) -> durable_ok cfg (wr_durable w) -> running w ->
  peer_writer cfg i w = Ret (Some w') -> running w'.
Proof.
  intros Hio Hd Hr. unfold peer_writer. destruct (wr_at w) eqn:Hat.
  - unfold writer_select. destruct Hr as (Hf & Hc & Hcl & Ha). rewrite Hc, Hcl. destruct (wr_rx w) as [|[d|] rx] eqn:Hrx.
    + destruct (wr_permit w); [intros [= <-]; by repeat split|]. destruct (in_idle i); [|done].
      destruct (working_keepalive i OwnKeepalive keepalive_frame w) as (v & -> & Hrv); [done|done|].
      intros [= <-]. exact Hrv.
    + destruct (send_direct _ _ _ _) as [v|] eqn:Hs; [|done]. rewrite ret_bind. intros [= <-].
      by apply (send_direct_running i d (w <| wr_rx := rx |>)).
    + intros [= <-]. by repeat split.
  - unfold coalesce_step. destruct (wr_rx w) as [|[d|] rx] eqn:Hrx; intros [= <-].
    + by apply goto_running.
    + destruct (working_keepalive i FromChannel d (w <| wr_rx := rx |>)) as (v & -> & Hrv); [done|exact Hr|].
      destruct (mark_sig_req_sent_spec (in_now i) d v) as [W _]. cbn [negb]. exact (wrote_running _ _ _ W Hrv).
    + exact Hr.
  - intros [= <-]. by case_decide; apply goto_running.
  - unfold drain_pop. destruct (pop_batch _ _ _) as [[batch q]|]; [|done]. rewrite !ret_bind. intros [= <-].
    apply goto_running; [|done..]. by case_decide.
  - destruct (batch_step _ _ _ _) as [v|] eqn:Hs; [|done]. rewrite ret_bind. intros [= <-].
    by eapply batch_step_running.
  - intros [= <-]. unfold answer_step. destruct (_ && _); [|by apply goto_running].
    destruct (working_keepalive i OwnKeepalive keepalive_frame w) as (v & -> & Hrv); [done|done|].
    by apply goto_running.
  - intros _. destruct Hr as (_ & _ & _ & Ha & _). done.
  - done.
Qed.

Lemma work_nonneg w : pq_good (wr_queue w) -> 0 <= work w.
Proof.
  intros G. pose proof (inv_count_le _ (good_inv _ G)). unfold work, backlog_of. pose proof (rank_bounds (wr_at w)).
  destruct (wr_permit w); simpl; lia.
Qed.

Lemma writer_reaches quantum ins l : link_inv quantum l -> Z.of_nat (length (lk_pushed l)) <= U32_MAX ->
  work (lk_writer l) < Z.of_nat (length ins) ->
  exists n l', Z.of_nat n <= work (lk_writer l) /\ link_run cfg (EvWriter <$> take n ins) l = Ret l'
    /\ (idle_writer (lk_writer l') \/ wr_at (lk_writer l') = Ended) /\ link_inv quantum l'
    /\ lk_entered l' = lk_entered l /\ lk_notifies l' = lk_notifies l
    /\ (Forall (fun i => forall j, working (in_io i j)) ins -> running (lk_writer l) -> running (lk_writer l')).
Proof.
  revert l. induction ins as [|i ins IH]; intros l I Hn Hw.
  { pose proof (work_nonneg _ (qo_good _ _ _ (wi_queue _ _ _ _ _ I))). simpl in Hw. lia. }
  pose proof (work_nonneg _ (qo_good _ _ _ (wi_queue _ _ _ _ _ I))) as H0w.
  destruct (peer_writer_inv _ _ _ _ i (lk_writer l) I Hn) as ([w'|] & Hs & Hr).
  - destruct Hr as [I' [Hid|Hlt]].
    { exists 0%nat, l. by split_and!; [simpl; lia|done|by left|..]. }
    destruct (IH (l <| lk_writer := w' |>)) as (n & l' & Hle & Hrun & He & Hi & Hen & Hno & Hk); [done|done|cbn in *; lia|].
    exists (S n), l'. split_and!; try done; [cbn in *; lia| |].
    + cbn [take fmap list_fmap]. unfold link_run. cbn [foldl]. rewrite ret_bind. cbn [link_step]. by rewrite Hs, ret_bind.
    + intros Hio Hru. apply Forall_cons in Hio as [Hi0 Hio]. apply Hk; [done|]. cbn.
      eapply peer_writer_running; [done|apply I|done|done].
  - exists 0%nat, l. by split_and!; [simpl; lia|done|..].
Qed.

(** What the invariant says of a task that waits. *)
Lemma idle_facts quantum l : link_inv quantum l -> idle_writer (lk_writer l) -> lk_notifies l = 0%nat ->
  queue_empty (wr_queue (lk_writer l)) /\ wr_owed (lk_writer l) = false /\ flushed (lk_writer l)
  /\ (wr_failed (lk_writer l) = false -> from_channel (wr_log (lk_writer l)) = channel_frames (lk_entered l)).
Proof.
  intros [Q D (received & popped & He & Hh & _) P] (Hat & _ & _ & Hrx & Hpm) Hn. unfold point_ok in P. rewrite Hat in P.
  destruct P as (Ha & Ho & Hfl). rewrite Hn, Hrx in *. split_and!.
  - destruct Ha as [?|[Hp|[Hz|?]]]; [done|congruence|lia|congruence].
  - destruct (wr_owed _); [|done]. by destruct Ho.
  - by destruct Hfl.
  - rewrite He, app_nil_r. apply Hh.
Qed.

(** For every interleaving of the writer task with the tasks that feed it,
    and whatever the transport does, no step panics, and while no call has failed
    (or if every frame fits in the 128 KB buffer) the bytes taken by the connection
    are whole frames one after the other: the frames of the channel in the order
    in which they entered it, all of those received so far, the packets of the
    queue in the order of their flow, and keepalives. *)
Theorem writer_stream quantum evs l (Hr : reached quantum evs l) :
  let w := lk_writer l in
  (wr_failed w = false \/ all_small (lk_entered l) (lk_pushed l) ->
     sk_accepted (wr_conn w) = concat (snd <$> wr_log w))
  /\ sk_delivered (wr_conn w) `prefix_of` sk_accepted (wr_conn w)
  /\ (exists received, lk_entered l = received ++ wr_rx w
       /\ from_channel (wr_log w) `sublist_of` channel_frames received
       /\ (wr_failed w = false -> from_channel (wr_log w) = channel_frames received))
  /\ (forall k, of_flow k (from_queue (wr_log w)) `sublist_of` of_flow k (lk_pushed l))
  /\ Forall origin_ok (wr_log w)
  /\ (forall ev, event_ok quantum ev -> exists l', link_step cfg ev l = Ret l').
Proof.
  destruct (reached_inv quantum evs l Hr) as [I Hp]. pose proof I as [_ _ (received & popped & He & Hh & Hs) _].
  cbv zeta. split_and!.
  - intros Ho. apply Hh. tauto.
  - apply delivered_accepted.
  - exists received. split_and!; [done|apply Hh..].
  - intros k. etrans; [|etrans; [|apply (Hs k)]]; [|apply sublist_inserts_r; done].
    by apply of_flow_sublist, (hist_queue _ _ _ _ Hh).
  - apply Hh.
  - intros ev Hev. destruct Hr as (q & conn & d & _ & _ & _ & _ & _ & Hn & _).
    destruct (link_step_inv quantum ev l I Hev) as (l' & -> & _); [lia|by exists l'].
Qed.

(** C7: Nothing is left behind. Whenever the writer task waits in its
    [select!] and no producer is between its push and its notification, the packet
    queue is empty, no keepalive is owed to the peer, every byte taken has been
    handed to the transport, and, if no call failed, every frame that entered the
    channel has been written. The connection has run from its creation, with a valid
    configuration of time-outs, through at most 2^32 - 1 events, and each packet
    pushed is of at most four quanta (the quantum is below 2^57). *)
Theorem writer_quiescent quantum evs l (Hr : reached quantum evs l)
    (Hidle : idle_writer (lk_writer l)) (Hn : lk_notifies l = 0%nat) :
  let w := lk_writer l in
  (forall k, waiting (wr_queue w) k = []) /\ wr_owed w = false
  /\ sk_delivered (wr_conn w) = sk_accepted (wr_conn w)
  /\ (wr_failed w = false -> from_channel (wr_log w) = channel_frames (lk_entered l)).
Proof. destruct (reached_inv quantum evs l Hr) as [I _]. by apply (idle_facts quantum). Qed.

(** C8: The writer task terminates its work. From every reachable state, left
    alone, it waits or has ended after at most [work] steps (eight times twice
    what is queued, plus eight), whatever the transport does; and if the transport
    works and the connection is not cancelled, it waits with everything written
    and flushed. Reachable as for [writer_quiescent]: at most 2^32 - 1 events, packets
    of at most four quanta. *)
Theorem writer_drains quantum evs l ins (Hr : reached quantum evs l)
    (Hins : work (lk_writer l) < Z.of_nat (length ins)) :
  exists n l', Z.of_nat n <= work (lk_writer l) /\ link_run cfg (EvWriter <$> take n ins) l = Ret l'
    /\ (idle_writer (lk_writer l') \/ wr_at (lk_writer l') = Ended)
    /\ (Forall (fun i => forall j, working (in_io i j)) ins -> running (lk_writer l) -> lk_notifies l = 0%nat ->
         let w := lk_writer l' in
         idle_writer w /\ from_channel (wr_log w) = channel_frames (lk_entered l)
         /\ (forall k, waiting (wr_queue w) k = []) /\ sk_delivered (wr_conn w) = concat (snd <$> wr_log w)).
Proof.
  destruct (reached_inv quantum evs l Hr) as [I Hp]. destruct Hr as (q & conn & d & _ & _ & _ & _ & _ & Hn & _).
  destruct (writer_reaches quantum ins l I) as (n & l' & Hle & Hrun & Hend & I' & He & Hno & Hk); [lia|done|].
  exists n, l'. split_and!; [done|done|done|]. intros Hio Hru H0n. destruct (Hk Hio Hru) as (Hf & _ & _ & _ & Hne).
  destruct Hend as [Hid|?]; [|done]. destruct (idle_facts quantum l' I' Hid) as (Hq & _ & Hfl & Hall); [congruence|].
  split_and!; [done|by rewrite Hall, He|done|]. rewrite Hfl. pose proof I' as [_ _ (? & ? & _ & Hh & _) _]. apply Hh. by right.
Qed.
End Facts.

(** ** The other end *)

(** What a frame of the log carries. *)
Inductive Item :=
| ItemSent (a : option RouterAction)   (* from the channel; [None] is a keepalive *)
| ItemTraffic (p : TrafficPacket)
| ItemKeepalive.

Definition item_action (it : Item) : option RouterAction :=
  match it with ItemSent a => a | ItemTraffic p => Some (SendTraffic 0 p) | ItemKeepalive => None end.
Definition sent_items (items : list Item) : list (option RouterAction) :=
  omap (fun it => match it with ItemSent a => Some a | _ => None end) items.
Definition traffic_items (items : list Item) : list TrafficPacket :=
  omap (fun it => match it with ItemTraffic p => Some p | _ => None end) items.

Definition action_frame (a : option RouterAction) (f : bytes) : Prop :=
  match a with
  | Some a => exists id, encode_action_frame a = Some (id, f)
  | None => f = keepalive_frame
  end.

Definition opt_wf (a : option RouterAction) : Prop := match a with Some a => action_wf a | None => True end.

(** The log read back: every entry is an item. *)
Lemma log_items log sent : Forall origin_ok log -> Forall2 action_frame sent (from_channel log) ->
  exists items, Forall2 (fun it e => action_frame (item_action it) (snd e)) items log
    /\ sent_items items = sent /\ traffic_items items = from_queue log.
Proof.
  intros Ho. revert sent. induction Ho as [|[o f] log Hf Ho IH]; intros sent Hs.
  { apply Forall2_nil_inv_r in Hs as ->. by exists []. }
  destruct o as [|p|].
  - change (from_channel ((FromChannel, f) :: log)) with (f :: from_channel log) in Hs.
    apply Forall2_cons_inv_r in Hs as (a & sent' & Ha & Hs & ->). destruct (IH sent' Hs) as (items & H2 & Hsi & Ht).
    exists (ItemSent a :: items). split_and!; [by constructor|cbn; by f_equal|done].
  - destruct (IH sent Hs) as (items & H2 & Hsi & Ht).
    exists (ItemTraffic p :: items). split_and!; [|done|exact (f_equal (cons p) Ht)].
    constructor; [|done]. cbn [item_action action_frame snd]. exists 0. unfold origin_ok in Hf. cbn [fst snd] in Hf. by rewrite Hf.
  - destruct (IH sent Hs) as (items & H2 & Hsi & Ht). exists (ItemKeepalive :: items). split_and!; [by constructor|done|done].
Qed.

Section OtherEnd.
Context `{Dalek} (peer_id : PeerId) (peer_key our_key : PublicKey) (max : Z) (rtt : nat -> Z).
Context (Hmax : is_u64 max) (Hmin : 2 <= max).
Abbreviation reads := (read_stream peer_id peer_key our_key max rtt) (only parsing).

Definition opt_accepted (a : option RouterAction) : Prop :=
  match a with Some a => accepted peer_key our_key a | None => True end.

(** The messages the other router gets, the [n]-th frame first. *)
Fixpoint item_msgs (n : nat) (items : list Item) : list RouterMsg :=
  match items with
  | [] => []
  | it :: items =>
      match item_action it with
      | Some a => match received peer_id peer_key our_key (rtt n) a with
                  | Ok (msg, _) => option_list msg
                  | Err _ => []
                  end
      | None => []
      end ++ item_msgs (S n) items
  end.

Lemma read_keepalive n tail : reads n (keepalive_frame ++ tail) = reads (S n) tail.
Proof using Hmax Hmin.
  unfold read_stream at 1, keepalive_frame. cbn [reader_loop].
  rewrite read_frame_encode by (unfold is_u64 in *; simpl; lia).
  change (handle_frame _ _ _ _ _) with (@Ok Error (option RouterMsg * bool) (None, false)). cbv iota beta.
  unfold read_stream. rewrite (reader_loop_fuel _ _ _ _ _ _ (S (length tail))); [|rewrite length_app; simpl; lia|lia].
  cbv zeta. cbn [option_list app]. by destruct (reader_loop _ _ _ _ _ _ _ _).
Qed.

Lemma read_items n items frames : Forall2 (fun it f => action_frame (item_action it) f) items frames ->
  Forall (fun it => opt_wf (item_action it)) items -> Forall (fun it => opt_accepted (item_action it)) items ->
  Forall (fun f : bytes => Z.of_nat (length f) <= max) frames ->
  rl_msgs (reads n (concat frames)) = item_msgs n items /\ rl_reason (reads n (concat frames)) = Some Io.
Proof using Hmax Hmin.
  intros H2. revert n. induction H2 as [|it f items frames Hf _ IH]; intros n Hw Ha Hs; [done|].
  apply Forall_cons in Hw as [Hw Hws], Ha as [Ha Has], Hs as [Hs Hss]. cbn [concat item_msgs].
  destruct (IH (S n) Hws Has Hss) as [IH1 IH2]. destruct (item_action it) as [a|] eqn:Hit.
  - destruct Hf as [id Hid]. rewrite (read_stream_frame _ _ _ _ _ n a id f) by done.
    assert (Hr : exists msg k, received peer_id peer_key our_key (rtt n) a = Ok (msg, k)).
    { destruct a; simpl in *; rewrite ?Ha; eauto. }
    destruct Hr as (msg & k & ->). cbv zeta. cbn [rl_msgs rl_reason]. by rewrite IH1.
  - rewrite Hf, read_keepalive. done.
Qed.
End OtherEnd.

Lemma items_Forall (P : option RouterAction -> Prop) items : P None -> Forall P (sent_items items) ->
  Forall (fun p => P (Some (SendTraffic 0 p))) (traffic_items items) -> Forall (fun it => P (item_action it)) items.
Proof.
  intros HN. unfold sent_items, traffic_items. induction items as [|[a|p|] items IH]; intros Hs Ht; [done| | |].
  - cbn in Hs. apply Forall_cons in Hs as [? Hs]. constructor; [done|by apply IH].
  - cbn in Ht. apply Forall_cons in Ht as [? Ht]. constructor; [done|by apply IH].
  - constructor; [done|by apply IH].
Qed.

Lemma log_frames (P : bytes -> Prop) log : Forall origin_ok log -> P keepalive_frame -> Forall P (from_channel log) ->
  Forall (fun p => P (traffic_frame p)) (from_queue log) -> Forall P (snd <$> log).
Proof.
  intros Ho Hk. induction Ho as [|[[|p|] f] log Hf Ho IH]; intros Hc Hq; [constructor| | |].
  - change (Forall P (f :: from_channel log)) in Hc. apply Forall_cons in Hc as [? ?]. constructor; [done|by apply IH].
  - change (Forall (fun p => P (traffic_frame p)) (p :: from_queue log)) in Hq. apply Forall_cons in Hq as [? ?].
    change (f = traffic_frame p) in Hf. subst f. constructor; [done|by apply IH].
  - change (f = keepalive_frame) in Hf. subst f. constructor; [done|by apply IH].
Qed.

Lemma flows_Forall (P : TrafficPacket -> Prop) l l' : (forall k, of_flow k l `sublist_of` of_flow k l') ->
  Forall P l' -> Forall P l.
Proof.
  intros Hs HP. rewrite Forall_forall in HP. apply Forall_forall. intros p Hp. apply HP.
  assert (Hin : p ∈ of_flow (packet_key p) l') by (eapply elem_of_sublist; [|apply Hs]; by apply list_elem_of_filter).
  by apply list_elem_of_filter in Hin as [_ ?].
Qed.

Section EndToEnd.
Context `{SinkLaws} `{Dalek} (cfg : AdaptiveTimeoutConfig) (Hwf : config_wf cfg) (Hv : validate cfg = Ok tt).

(** C6: From one router to the other. Let a connection run in any
    interleaving (at most 2^32 - 1 events, packets pushed within their types and of
    at most four quanta), without a failed call, until its writer waits; let the
    frames put in the channel be those of the actions [sent] (each within its types,
    with signatures that check at the receiver) or keepalives; and let every such
    frame and every packet's frame be within the receiver's limit, at least 2, on
    the size of messages (an oversized frame would end the connection). Then the
    reader at the other end, on the bytes the transport got, ends only at the end of
    the stream and has handed to its router exactly the messages of [sent], all of them and in
    order, interleaved with messages for traffic packets that keep the order of
    their flows and were all pushed by a producer. *)
Theorem writer_to_reader quantum evs l sent peer_id peer_key our_key max rtt
    (Hr : reached cfg quantum evs l) (Hidle : idle_writer (lk_writer l)) (Hn : lk_notifies l = 0%nat)
    (Hok : wr_failed (lk_writer l) = false)
    (Hsent : Forall2 action_frame sent (channel_frames (lk_entered l)))
    (Hswf : Forall opt_wf sent) (Hacc : Forall (opt_accepted peer_key our_key) sent)
    (Hpwf : Forall (fun p => action_wf (SendTraffic 0 p)) (lk_pushed l))
    (Hmax : is_u64 max) (Hmin : 2 <= max)
    (Hssz : Forall (fun f : bytes => Z.of_nat (length f) <= max) (channel_frames (lk_entered l)))
    (Hpsz : Forall (fun p => Z.of_nat (length (traffic_frame p)) <= max) (lk_pushed l)) :
  let log := read_stream peer_id peer_key our_key max rtt 0 (sk_delivered (wr_conn (lk_writer l))) in
  exists items, rl_msgs log = item_msgs peer_id peer_key our_key rtt 0 items /\ rl_reason log = Some Io
    /\ sent_items items = sent
    /\ (forall k, of_flow k (traffic_items items) `sublist_of` of_flow k (lk_pushed l)).
Proof using H0 Hwf Hv.
  intros log. destruct (reached_inv cfg Hwf Hv quantum evs l Hr) as [I _].
  destruct (idle_facts cfg Hwf Hv quantum l I Hidle Hn) as (_ & _ & Hfl & Hall).
  pose proof I as [_ _ (received & popped & _ & Hh & Hs) _]. rewrite <- (Hall Hok) in Hsent, Hssz.
  pose proof (hist_origin _ _ _ _ Hh) as Ho.
  assert (Hflow : forall k, of_flow k (from_queue (wr_log (lk_writer l))) `sublist_of` of_flow k (lk_pushed l)).
  { intros k. rewrite (hist_queue_all _ _ _ _ Hh Hok). etrans; [|apply (Hs k)]. by apply sublist_inserts_r. }
  destruct (log_items (wr_log (lk_writer l)) sent Ho Hsent) as (items & H2 & Hsi & Hti).
  exists items. rewrite Hsi, Hti. unfold log. rewrite Hfl, (hist_stream _ _ _ _ Hh (or_intror Hok)).
  destruct (read_items peer_id peer_key our_key max rtt Hmax Hmin 0 items (snd <$> wr_log (lk_writer l)))
    as [-> ->]; [| | | |done].
  - by apply Forall2_fmap_r.
  - apply (items_Forall opt_wf); [done|by rewrite Hsi|]. rewrite Hti. by eapply flows_Forall.
  - apply (items_Forall (opt_accepted peer_key our_key)); [done|by rewrite Hsi|]. by apply Forall_true.
  - apply log_frames; [done| |done|]; [simpl; lia|]. by eapply flows_Forall.
Qed.
End EndToEnd.

(** ** The read deadline *)

Section Deadline.
Context `{SinkLaws} (cfg : AdaptiveTimeoutConfig).

Lemma write_frame_deadline e o f w : wr_deadline (snd (write_frame e o f w)) = wr_deadline w.
Proof. unfold write_frame. by destruct (sk_write_all _ _ _ _) as [[] ?]. Qed.

Lemma flush_deadline e w : wr_deadline (snd (flush e w)) = wr_deadline w.
Proof. unfold flush. by destruct (sk_flush _ _ _) as [[] ?]. Qed.

Lemma write_and_flush_deadline e1 e2 now o f w : wr_deadline (snd (write_and_flush e1 e2 now o f w)) = wr_deadline w.
Proof.
  unfold write_and_flush. pose proof (write_frame_deadline e1 o f w) as E1.
  destruct (write_frame _ _ _ _) as [[] w1]; [|done]. cbn [negb snd] in *.
  pose proof (flush_deadline e2 w1) as E2. destruct (flush _ _) as [[] w2]; cbn in *; congruence.
Qed.

Lemma drain_write_deadline io n batch b w : wr_deadline (snd (drain_write io n batch b w)) = wr_deadline w.
Proof.
  revert n b w. induction batch as [|t batch IH]; intros n b w; [done|]. cbn [drain_write]. cbv zeta.
  pose proof (write_frame_deadline (io n) (FromQueue t) (traffic_frame t) w) as E.
  destruct (write_frame _ _ _ _) as [[] w1]; [rewrite IH|]; done.
Qed.

Lemma mark_deadline now d w : wr_deadline (mark_sig_req_sent now d w) = wr_deadline w
  /\ wr_conn (mark_sig_req_sent now d w) = wr_conn w.
Proof. unfold mark_sig_req_sent. by case_decide. Qed.

Lemma arm_changes now w w' : arm_read_deadline cfg now w = Ret w' ->
  is_Some (wr_deadline w') /\ wr_conn w' = wr_conn w /\ (wr_deadline w' <> wr_deadline w -> wr_deadline w = None).
Proof.
  unfold arm_read_deadline, arm. destruct (wr_deadline w) as [t|] eqn:Hd.
  - rewrite ret_bind. intros [= <-]. done.
  - destruct (current _ _) as [t|]; [|done]. rewrite !ret_bind. intros [= <-]. done.
Qed.

(** A step changes the deadline only as a direct frame or a batch does. *)
Definition armed_by (w w' : Writer) : Prop :=
  wr_deadline w = None /\ is_Some (wr_deadline w') /\ flushed w'.

Lemma send_direct_deadline i d w w' : send_direct cfg i d w = Ret w' ->
  (wr_deadline w' <> wr_deadline w -> armed_by w w')
  /\ (wr_at w' = AtCheck -> wr_at w = AtSelect -> needs_deadline d = true -> is_Some (wr_deadline w')).
Proof.
  unfold send_direct. pose proof (write_frame_deadline (in_io i 0) FromChannel d w) as E1.
  destruct (write_frame _ _ _ _) as [[] w1]; cbn [negb snd] in *; [|by intros [= <-]].
  pose proof (flush_deadline (in_io i 1) w1) as E2. destruct (flush_spec (in_io i 1) w1) as [_ Hfl].
  destruct (flush _ _) as [[] w2]; cbn [negb fst snd] in *; [|intros [= <-]; cbn; by rewrite E2, E1].
  destruct (mark_deadline (in_now i) d (mark_written (in_now i) w2)) as [E3 Ec].
  set (w3 := mark_sig_req_sent _ _ _) in *. cbn in E3, Ec.
  destruct (needs_deadline d); [|intros [= <-]; cbn; split; [congruence|done]].
  destruct (arm_read_deadline cfg (in_now i) w3) as [w4|] eqn:Ha; [|done]. apply arm_changes in Ha as (Hs & Hc & Hch).
  rewrite ret_bind. intros [= <-]. split; [|done]. cbn. intros Hne. unfold armed_by. cbn.
  split; [rewrite <- E1, <- E2, <- E3; apply Hch; congruence|]. split; [done|]. unfold flushed. cbn. rewrite Hc, Ec. by apply Hfl.
Qed.

Lemma batch_step_deadline i batch w w' : batch_step cfg i batch w = Ret w' ->
  (wr_deadline w' <> wr_deadline w -> armed_by w w')
  /\ (wr_at w' = AtAnswer -> batch <> [] -> is_Some (wr_deadline w')).
Proof.
  unfold batch_step. pose proof (drain_write_deadline (in_io i) 0 batch false w) as E1.
  destruct (drain_write_spec (in_io i) 0 batch false w) as [_ Hwr].
  destruct (drain_write _ _ _ _ _) as [[[] b] w1]; cbn [negb fst snd do_ok do_wrote] in *; [|by intros [= <-]].
  specialize (Hwr eq_refl). pose proof (flush_deadline (in_io i (length batch)) w1) as E2.
  destruct (flush_spec (in_io i (length batch)) w1) as [_ Hfl].
  destruct (flush _ _) as [[] w2]; cbn [negb fst snd] in *; [|intros [= <-]; cbn; by rewrite E2, E1].
  destruct b.
  - destruct (arm_read_deadline _ _ _) as [w3|] eqn:Ha; [|done]. apply arm_changes in Ha as (Hs & Hc & Hch).
    rewrite ret_bind. intros [= <-]. split; [|done]. cbn in Hch, Hc |- *. intros Hne. unfold armed_by. cbn.
    split; [rewrite <- E1, <- E2; apply Hch; congruence|]. split; [done|]. unfold flushed. cbn. rewrite Hc. by apply Hfl.
  - intros [= <-]. cbn. split; [congruence|]. intros _ Hne. by rewrite bool_decide_true in Hwr.
Qed.

(** The deadline for a reply runs from the flush. A step of the writer
    changes the read deadline only by setting it when it was unset, at a point
    where every byte has reached the transport; a direct frame other than a
    keepalive and a batch of traffic leave it set once they are written. *)
Theorem writer_deadline i w w' (Hstep : peer_writer cfg i w = Ret (Some w')) :
  (wr_deadline w' <> wr_deadline w -> armed_by w w' /\ (wr_at w = AtSelect \/ exists batch, wr_at w = AtBatch batch))
  /\ (forall d rx, wr_at w = AtSelect -> wr_cancel w = false -> wr_rx w = SendFrame d :: rx ->
        needs_deadline d = true -> wr_at w' = AtCheck -> is_Some (wr_deadline w'))
  /\ (forall t batch, wr_at w = AtBatch (t :: batch) -> wr_at w' = AtAnswer -> is_Some (wr_deadline w')).
Proof.
  unfold peer_writer in Hstep. destruct (wr_at w) as [| | | |b| | |] eqn:Hat.
  - unfold writer_select in Hstep. destruct (wr_cancel w) eqn:Hc; [injection Hstep as <-; done|].
    destruct (wr_rx w) as [|[d|] rx] eqn:Hrx.
    + split; [|done]. destruct (wr_closed w); [injection Hstep as <-; done|].
      destruct (wr_permit w); [injection Hstep as <-; done|]. destruct (in_idle i); [|done].
      pose proof (write_and_flush_deadline (in_io i 0) (in_io i 1) (in_now i) OwnKeepalive keepalive_frame w) as E.
      destruct (write_and_flush _ _ _ _ _ _) as [[] w1]; injection Hstep as <-; done.
    + destruct (send_direct _ _ _ _) as [v|] eqn:Hs; [|done]. rewrite ret_bind in Hstep. injection Hstep as <-.
      apply send_direct_deadline in Hs as [Ha Hd]. split_and!; [|by intros d' rx' _ _ [= -> ->] Hnd Hck; apply Hd|done].
      intros Hne. split; [exact (Ha Hne)|by left].
    + injection Hstep as <-. done.
  - injection Hstep as <-. split; [|done]. unfold coalesce_step. destruct (wr_rx w) as [|[d|] rx]; [done| |done].
    pose proof (write_and_flush_deadline (in_io i 0) (in_io i 1) (in_now i) FromChannel d (w <| wr_rx := rx |>)) as E.
    destruct (write_and_flush _ _ _ _ _ _) as [[] w1]; cbn in E |- *; [|done].
    destruct (mark_deadline (in_now i) d w1) as [-> _]. done.
  - by injection Hstep as <-.
  - unfold drain_pop in Hstep. destruct (pop_batch _ _ _) as [[b q]|]; [|done]. rewrite !ret_bind in Hstep.
    injection Hstep as <-. by case_decide.
  - destruct (batch_step _ _ _ _) as [v|] eqn:Hs; [|done]. rewrite ret_bind in Hstep. injection Hstep as <-.
    apply batch_step_deadline in Hs as [Ha Hd]. split_and!; [|done|by intros t b' [= ->]; intros; apply Hd].
    intros Hne. split; [exact (Ha Hne)|right; by eexists].
  - injection Hstep as <-. split; [|done]. unfold answer_step. destruct (_ && _); [|done].
    pose proof (write_and_flush_deadline (in_io i 0) (in_io i 1) (in_now i) OwnKeepalive keepalive_frame w) as E.
    by destruct (write_and_flush _ _ _ _ _ _) as [[] w1].
  - by injection Hstep as <-.
  - done.
Qed.
End Deadline.

(** A write that fails while keepalives are coalesced does not end the task:
    the frame is neither written nor kept, and the main loop goes on. *)
Lemma coalesce_failure_continues `{SinkOps} i d rx w : wr_rx w = SendFrame d :: rx ->
  fst (sk_write_all WRITE_TIMEOUT (in_io i 0) (wr_conn w) d) = false ->
  wr_at (coalesce_step i w) = AtCheck /\ wr_rx (coalesce_step i w) = rx /\ wr_log (coalesce_step i w) = wr_log w.
Proof.
  intros Hrx Hf. unfold coalesce_step, write_and_flush, write_frame. rewrite Hrx. cbn.
  by destruct (sk_write_all _ _ _ _) as [[] conn].
Qed.

(** ** Witnesses *)

Definition sample_cfg : AdaptiveTimeoutConfig := AdaptiveTimeoutConfig_default.
Definition sample_input : @Input buf_sink := @mkInput buf_sink 5 (fun _ => None) false.
Definition sample_req : RouterAction := SendSigReq 4 (mkSigReq 300 5).
Definition sample_frame : bytes := match encode_action_frame sample_req with Some (_, f) => f | None => [] end.
Definition sample_events : list (@Event buf_sink) :=
  [EvSend ScheduleKeepalive; EvSend (SendFrame sample_frame); EvPush (sample_packet 1 2 10) 0; EvNotify;
   EvSend (SendFrame keepalive_frame)].
Definition sample_start : @Link buf_sink :=
  @Link_new buf_sink sample_queue (mkBufWriter [] []) (DurableLiveness_new (as_millis (at_min sample_cfg))).
Definition run_sample (evs : list (@Event buf_sink)) : @Link buf_sink :=
  match @link_run buf_sink sample_cfg evs sample_start with Ret l => l | Panic => sample_start end.
Definition sample_done : list (@Event buf_sink) := sample_events ++ replicate 13 (EvWriter sample_input).

Lemma sample_cfg_ok : config_wf sample_cfg /\ validate sample_cfg = Ok tt.
Proof. split; [unfold config_wf; simpl; lia|done]. Qed.

Lemma sample_reached evs : Forall (@event_ok buf_sink 100) evs -> Z.of_nat (length evs) <= U32_MAX ->
  @reached buf_sink sample_cfg 100 evs (run_sample evs).
Proof.
  intros He Hn. destruct sample_cfg_ok as [Hc Hv].
  assert (Hd : durable_ok sample_cfg (DurableLiveness_new (as_millis (at_min sample_cfg)))) by by apply new_durable_ok.
  exists sample_queue, (mkBufWriter [] []), (DurableLiveness_new (as_millis (at_min sample_cfg))).
  split_and!; try done. unfold run_sample.
  destruct (link_run_inv sample_cfg Hc Hv 100 evs sample_start) as (l & Hl & _); [by apply link_new_inv|done|simpl; lia|].
  by rewrite Hl.
Qed.

Lemma sample_events_ok n : Forall (@event_ok buf_sink 100) (sample_events ++ replicate n (EvWriter sample_input)).
Proof. apply Forall_app. split; [repeat constructor; by vm_compute|by apply Forall_replicate]. Qed.

Lemma sample_events_reached : @reached buf_sink sample_cfg 100 sample_events (run_sample sample_events).
Proof. apply sample_reached; [|done]. exact (sample_events_ok 0). Qed.

Lemma sample_done_reached : @reached buf_sink sample_cfg 100 sample_done (run_sample sample_done).
Proof. apply sample_reached; [|done]. apply sample_events_ok. Qed.

Lemma sample_done_idle : idle_writer (lk_writer (run_sample sample_done)) /\ lk_notifies (run_sample sample_done) = 0%nat
  /\ wr_failed (lk_writer (run_sample sample_done)) = false.
Proof. by vm_compute. Qed.

Lemma sample_done_traffic : lk_pushed (run_sample sample_done) = [sample_packet 1 2 10]
  /\ channel_frames (lk_entered (run_sample sample_done)) = [sample_frame; keepalive_frame].
Proof. by vm_compute. Qed.

Lemma sample_packet_wf : action_wf (SendTraffic 0 (sample_packet 1 2 10)).
Proof. repeat split; try done; apply (bool_decide_unpack _); by vm_compute. Qed.

Lemma writer_stream_witness :
  let w := lk_writer (run_sample sample_done) in
  sk_accepted (wr_conn w) = concat (snd <$> wr_log w)
  /\ fst <$> wr_log w = [FromChannel; FromChannel; FromQueue (sample_packet 1 2 10)].
Proof.
  intros w. split; [|by vm_compute]. destruct sample_cfg_ok as [Hc Hv].
  apply (writer_stream sample_cfg Hc Hv 100 sample_done (run_sample sample_done) sample_done_reached).
  left. apply sample_done_idle.
Defined.

Lemma writer_quiescent_witness :
  let w := lk_writer (run_sample sample_done) in
  sk_delivered (wr_conn w) = sk_accepted (wr_conn w) /\ length (wr_log w) = 3%nat.
Proof.
  intros w. split; [|by vm_compute]. destruct sample_cfg_ok as [Hc Hv]. destruct sample_done_idle as (Hi & Hn & _).
  apply (writer_quiescent sample_cfg Hc Hv 100 sample_done (run_sample sample_done) sample_done_reached Hi Hn).
Defined.

Lemma writer_drains_witness :
  let l := run_sample sample_events in
  exists n l', Z.of_nat n <= 81 /\ @link_run buf_sink sample_cfg (EvWriter <$> take n (replicate 100 sample_input)) l = Ret l'
    /\ from_channel (wr_log (lk_writer l')) = [sample_frame; keepalive_frame].
Proof.
  intros l. destruct sample_cfg_ok as [Hc Hv].
  destruct (writer_drains sample_cfg Hc Hv 100 sample_events l (replicate 100 sample_input) sample_events_reached)
    as (n & l' & Hn & Hr & _ & Hw); [by vm_compute|].
  exists n, l'. split_and!; [etrans; [exact Hn|by vm_compute]|done|].
  destruct Hw as (_ & Hf & _); [apply Forall_replicate| | |].
  - intros j t s f. cbn. unfold bw_write_all. split; [|done]. by repeat case_decide.
  - vm_compute. repeat split; discriminate.
  - by vm_compute.
  - rewrite Hf. by vm_compute.
Defined.

Lemma writer_to_reader_witness :
  let key := replicate 32 1 in let l := run_sample sample_done in
  let log := @read_stream toy_dalek 7 key key 1048576 (fun _ => 0) 0 (sk_delivered (wr_conn (lk_writer l))) in
  rl_reason log = Some Io
  /\ rl_msgs log = [MsgHandleRequest 7 key (mkSigReq 300 5); MsgHandleTraffic (sample_packet 1 2 10)].
Proof.
  intros key l log. split; [|by vm_compute]. destruct sample_cfg_ok as [Hc Hv]. destruct sample_done_idle as (Hi & Hn & Hf).
  destruct (@writer_to_reader buf_sink _ toy_dalek sample_cfg Hc Hv 100 sample_done l [Some sample_req; None]
    7 key key 1048576 (fun _ => 0) sample_done_reached Hi Hn Hf) as (items & _ & Hr & _); [| | | | | | | |exact Hr];
    destruct sample_done_traffic as [Ep Ec]; subst l; rewrite ?Ep, ?Ec.
  - repeat constructor. by exists 4.
  - repeat constructor; unfold is_u64; simpl; lia.
  - by repeat constructor.
  - apply Forall_singleton, sample_packet_wf.
  - unfold is_u64; lia.
  - lia.
  - repeat constructor; by vm_compute.
  - repeat constructor; by vm_compute.
Defined.

Definition sample_next : @Writer buf_sink :=
  lk_writer (run_sample [EvSend (SendFrame sample_frame); EvWriter sample_input]).

Lemma sample_next_step :
  @peer_writer buf_sink sample_cfg sample_input (lk_writer (run_sample [EvSend (SendFrame sample_frame)]))
  = Ret (Some sample_next).
Proof.
  assert (Hb : match @peer_writer buf_sink sample_cfg sample_input
                       (lk_writer (run_sample [EvSend (SendFrame sample_frame)])) with
               | Ret (Some _) => true | _ => false end = true) by (vm_compute; reflexivity).
  unfold sample_next, run_sample, link_run in *. cbn [foldl] in *. rewrite !ret_bind in *.
  destruct (link_step _ (EvSend _) _) as [l|] eqn:Hl; [|done]. rewrite ret_bind. cbn [link_step].
  by destruct (peer_writer _ _ (lk_writer l)) as [[w|]|].
Qed.

Lemma writer_deadline_witness : is_Some (wr_deadline sample_next) /\ wr_at sample_next = AtCheck.
Proof.
  split; [|by vm_compute].
  destruct (writer_deadline sample_cfg sample_input _ _ sample_next_step) as (_ & Hd & _).
  apply (Hd sample_frame []); by vm_compute.
Defined.
