(* ===== verification/Multicast.v ===== *)
(** * Multicast: discovery of peers on the local network

    Models [crates/yggdrasil/src/multicast.rs]: the advertisement and its codec,
    the interfaces matched against the configured patterns, a round of
    [monitor_and_announce_loop] (the table of interfaces, the listeners, the
    beacons and their back-off), what [receiver_loop] does with a datagram and the
    options a discovered peer is dialled with. Parameters: [glob_match] of the
    crate of that name, the BLAKE2b functions (as in [Version]), and what the
    operating system answers (the interfaces, the port a listener gets). *)

From S2P Require Import Prelude.
From S2P Require Import Wire.
From S2P Require Import Crypto.
From S2P Require Import Version.
From S2P Require Import Ckr.
From S2P Require Import Links.
From stdpp Require Import strings.
From stdpp Require Import options.
Open Scope Z_scope.

(** ff02::114; durations are nanoseconds. *)
Definition MULTICAST_GROUP : Z := Z.shiftl 65282 112 + 276.
Definition BEACON_MAX_INTERVAL : Z := 15000000000.
Definition RECV_BUF_SIZE : nat := 2048.
Definition one_second : Z := 1000000000.

(** ** Advertisements *)

Record Advertisement := mkAdvertisement {
  av_major_version : Z;
  av_minor_version : Z;
  av_public_key : PublicKey;
  av_port : Z;
  av_hash : bytes
}.

(** The length is cast to [u16]. *)
Definition Advertisement_encode (a : Advertisement) : bytes :=
  to_be_bytes 2 (av_major_version a) ++ to_be_bytes 2 (av_minor_version a) ++ av_public_key a
  ++ to_be_bytes 2 (av_port a) ++ to_be_bytes 2 (Z.of_nat (length (av_hash a)) mod 65536) ++ av_hash a.

Inductive AdvError := AdvTooShort | AdvHashTruncated.

Definition Advertisement_decode (data : bytes) : result AdvError Advertisement :=
  if (length data <? 40)%nat then Err AdvTooShort
  else
    let major_version := from_be_bytes (take 2 data) in
    let minor_version := from_be_bytes (take 2 (drop 2 data)) in
    let public_key := take 32 (drop 4 data) in
    let port := from_be_bytes (take 2 (drop 36 data)) in
    let hash_len := Z.to_nat (from_be_bytes (take 2 (drop 38 data))) in
    if (length data <? 40 + hash_len)%nat then Err AdvHashTruncated
    else Ok (mkAdvertisement major_version minor_version public_key port (take hash_len (drop 40 data))).

(** ** Configuration and state *)

Record MulticastInterfaceConfig := mkMulticastInterfaceConfig {
  mi_filter : string;
  mi_beacon : bool;
  mi_listen : bool;
  mi_port : Z;
  mi_priority : Z;
  mi_password : bytes
}.

Record InterfaceState := mkInterfaceState {
  is_index : Z;
  is_addrs : list Z;
  is_beacon : bool;
  is_listen : bool;
  is_port : Z;
  is_priority : Z;
  is_password : bytes;
  is_hash : bytes;
  is_beacon_interval : Z;
  is_last_beacon : Z
}.
#[export] Instance InterfaceState_eta : Settable InterfaceState := fun s =>
  mkInterfaceState (is_index s) (is_addrs s) (is_beacon s) (is_listen s) (is_port s) (is_priority s)
    (is_password s) (is_hash s) (is_beacon_interval s) (is_last_beacon s).

Record NetworkInterface := mkNetworkInterface { ni_name : string; ni_index : Z; ni_addrs : list Z }.

(** An entry of [getifaddrs]: one per interface and address. *)
Record IfEntry := mkIfEntry {
  ie_name : string;
  ie_index : option Z;
  ie_up : bool;
  ie_running : bool;
  ie_multicast : bool;
  ie_pointtopoint : bool;
  ie_loopback : bool;
  ie_address : option Z   (* an IPv6 address *)
}.
Record IfInfo := mkIfInfo { ii_index : Z; ii_addrs : list Z }.

Record MulticastInterfaceInfo := mkMulticastInterfaceInfo {
  mf_name : string; mf_beacon : bool; mf_listen : bool; mf_port : Z; mf_password : bool
}.

(** A listener: its port and the options given to [start_tls_listener]. *)
Record ListenerInfo := mkListenerInfo { li_port : Z; li_options : LinkOptions }.

Record Multicast := mkMulticast {
  mc_interfaces : gmap string InterfaceState;
  mc_listeners : gmap string ListenerInfo
}.
#[export] Instance Multicast_eta : Settable Multicast := fun m =>
  mkMulticast (mc_interfaces m) (mc_listeners m).

(** What a round does to the outside. *)
Inductive McAction :=
| McCancelListener (name : string)
| McJoin (index addr : Z)
| McBeacon (index : Z) (datagram : bytes).

Section Multicast.
Context `{HashOrder} (glob_match : string -> string -> bool)
  (blake2b512 : bytes -> bytes) (blake2b_mac512 : bytes -> bytes -> option bytes).

Definition compute_auth_hash (public_key password : bytes) : outcome bytes :=
  if bool_decide (password = []) then Ret (blake2b512 public_key) else unwrap (blake2b_mac512 password public_key).

(** ** Discovery *)

(** [patterns]: an entry with both switches off is passed over. *)
Definition find_pattern (patterns : list MulticastInterfaceConfig) (name : string) : option MulticastInterfaceConfig :=
  find (fun cfg => (mi_beacon cfg || mi_listen cfg) && glob_match (mi_filter cfg) name) patterns.

Definition InterfaceState_new (pk : PublicKey) (cfg : MulticastInterfaceConfig) (index : Z) (addrs : list Z) (now : Z)
    : outcome InterfaceState :=
  hash ← compute_auth_hash pk (mi_password cfg);
  Ret (mkInterfaceState index addrs (mi_beacon cfg) (mi_listen cfg) (mi_port cfg) (mi_priority cfg)
         (mi_password cfg) hash one_second (now - 60 * one_second)).

Definition add_interface (pk : PublicKey) (patterns : list MulticastInterfaceConfig) (now : Z)
    (name : string) (index : Z) (addrs : list Z) (result : gmap string InterfaceState)
    : outcome (gmap string InterfaceState) :=
  if bool_decide (addrs = []) then Ret result
  else match find_pattern patterns name with
  | None => Ret result
  | Some cfg => st ← InterfaceState_new pk cfg index addrs now; Ret (<[name := st]> result)
  end.

(** fe80::/10 *)
Definition is_link_local (ip : Z) : bool := Z.land (Z.shiftr ip 112) 65472 =? 65152.

Definition add_entry (by_name : gmap string IfInfo) (e : IfEntry) : gmap string IfInfo :=
  if negb (ie_up e) || negb (ie_running e) || negb (ie_multicast e) || ie_pointtopoint e || ie_loopback e then by_name
  else match ie_address e with
  | None => by_name
  | Some ip =>
      if is_link_local ip then
        let info := default (mkIfInfo (default 0 (ie_index e)) []) (by_name !! ie_name e) in
        <[ie_name e := mkIfInfo (ii_index info) (ii_addrs info ++ [ip])]> by_name
      else by_name
  end.

(** [entries] is what [getifaddrs] returned, [None] its failure. *)
Definition discover_interfaces (pk : PublicKey) (patterns : list MulticastInterfaceConfig) (now : Z)
    (entries : option (list IfEntry)) : outcome (gmap string InterfaceState) :=
  match entries with
  | None => Ret ∅
  | Some entries =>
      foldl (fun acc '(name, info) => acc ≫= add_interface pk patterns now name (ii_index info) (ii_addrs info))
        (Ret ∅) (map_iter (foldl add_entry ∅ entries))
  end.

Definition discover_from_external (pk : PublicKey) (patterns : list MulticastInterfaceConfig) (now : Z)
    (external : list NetworkInterface) : outcome (gmap string InterfaceState) :=
  foldl (fun acc i => acc ≫= add_interface pk patterns now (ni_name i) (ni_index i) (ni_addrs i)) (Ret ∅) external.

(** ** A round of the monitor *)

(** Interfaces that are gone, with their listeners. *)
Definition missing_step (new_ifaces : gmap string InterfaceState) (acc : Multicast * list McAction) (name : string)
    : Multicast * list McAction :=
  let '(m, acts) := acc in
  if decide (is_Some (new_ifaces !! name)) then (m, acts)
  else (m <| mc_interfaces ::= delete name |> <| mc_listeners ::= delete name |>,
        acts ++ match mc_listeners m !! name with Some _ => [McCancelListener name] | None => [] end).

Definition remove_missing (new_ifaces : gmap string InterfaceState) (m : Multicast) : Multicast * list McAction :=
  foldl (missing_step new_ifaces) (m, []) (map_keys (mc_interfaces m)).

(** A known interface keeps its timing and its settings. *)
Definition update_interface (now : Z) (ifaces : gmap string InterfaceState) (new : string * InterfaceState)
    : gmap string InterfaceState :=
  let '(name, new_state) := new in
  match ifaces !! name with
  | Some existing => <[name := existing <| is_addrs := is_addrs new_state |> <| is_index := is_index new_state |>]> ifaces
  | None => <[name := new_state <| is_beacon_interval := one_second |> <| is_last_beacon := now - 60 * one_second |>]> ifaces
  end.

Definition orphan_step (acc : Multicast * list McAction) (name : string) : Multicast * list McAction :=
  let '(m, acts) := acc in
  if decide (is_Some (mc_interfaces m !! name)) then (m, acts)
  else (m <| mc_listeners ::= delete name |>, acts ++ [McCancelListener name]).

Definition remove_orphans (m : Multicast) : Multicast * list McAction :=
  foldl orphan_step (m, []) (map_keys (mc_listeners m)).

Definition own_beacon (pk : PublicKey) (port : Z) (hash : bytes) : Advertisement :=
  mkAdvertisement PROTOCOL_VERSION_MAJOR PROTOCOL_VERSION_MINOR pk port hash.

(** The options of a listener, and of a dialled peer: no pinned keys. *)
Definition multicast_options (priority : Z) (password : bytes) : LinkOptions := mkLinkOptions [] priority password 0 None.

(** [bind addr port scope] is the port the listener of this round gets; [times]
    are the clock when the interval is checked and after the beacon was sent. *)
Definition announce (pk : PublicKey) (bind : Z -> Z -> Z -> option Z) (times : Z * Z) (name : string)
    (state : InterfaceState) (listener : option ListenerInfo)
    : InterfaceState * option ListenerInfo * list McAction :=
  let joins := if is_listen state then McJoin (is_index state) <$> is_addrs state else [] in
  let listener :=
    if is_beacon state && bool_decide (listener = None) then
      match head (is_addrs state) with
      | Some link_local =>
          (fun port => mkListenerInfo port (multicast_options (is_priority state) (is_password state)))
            <$> bind link_local (is_port state) (is_index state)
      | None => None
      end
    else listener in
  match listener with
  | Some info =>
      if is_beacon state && (is_beacon_interval state <=? elapsed times.1 (is_last_beacon state)) then
        let msg := Advertisement_encode (own_beacon pk (li_port info) (is_hash state)) in
        let interval := if is_beacon_interval state <? BEACON_MAX_INTERVAL
                        then is_beacon_interval state + one_second else is_beacon_interval state in
        (state <| is_beacon_interval := interval |> <| is_last_beacon := times.2 |>, listener,
         joins ++ [McBeacon (is_index state) msg])
      else (state, listener, joins)
  | None => (state, listener, joins)
  end.

(** The loop over the interfaces. *)
Definition announce_one (pk : PublicKey) (bind : string -> Z -> Z -> Z -> option Z) (times : string -> Z * Z)
    (acc : Multicast * list McAction) (name : string) : Multicast * list McAction :=
  let '(m, acts) := acc in
  match mc_interfaces m !! name with
  | None => (m, acts)
  | Some state =>
      let '(state, listener, more) := announce pk (bind name) (times name) name state (mc_listeners m !! name) in
      (m <| mc_interfaces ::= <[name := state]> |> <| mc_listeners ::= partial_alter (fun _ => listener) name |>,
       acts ++ more)
  end.

(** One turn of [monitor_and_announce_loop]. *)
Definition monitor_round (pk : PublicKey) (now : Z) (bind : string -> Z -> Z -> Z -> option Z) (times : string -> Z * Z)
    (new_ifaces : gmap string InterfaceState) (m : Multicast) : Multicast * list McAction :=
  let '(m, gone) := remove_missing new_ifaces m in
  let m := m <| mc_interfaces := foldl (update_interface now) (mc_interfaces m) (map_iter new_ifaces) |> in
  let '(m, orphans) := remove_orphans m in
  let '(m, sent) := foldl (announce_one pk bind times) (m, []) (map_keys (mc_interfaces m)) in
  (m, gone ++ orphans ++ sent).

(** The pause before the next round: a second and up to 2^20 - 1 microseconds. *)
Definition round_sleep (random : Z) : Z := one_second + (random mod 1048576) * 1000.

(** ** Receiving *)

(** A peer to be dialled: its socket, the interface it was heard on, and the
    options of the link. *)
Record Discovery := mkDiscovery { dc_addr : SocketAddr; dc_iface : string; dc_options : LinkOptions }.

(** [receiver_loop] on one datagram; [data] is at most [RECV_BUF_SIZE] long. *)
Definition receive (pk : PublicKey) (active : ActiveLinks) (ifaces : gmap string InterfaceState)
    (from : SocketAddr) (data : bytes) : outcome (option Discovery) :=
  match Advertisement_decode data with
  | Err _ => Ret None
  | Ok adv =>
      if negb (av_major_version adv =? PROTOCOL_VERSION_MAJOR) then Ret None
      else if negb (av_minor_version adv =? PROTOCOL_VERSION_MINOR) then Ret None
      else if bool_decide (av_public_key adv = pk) then Ret None
      else match from with
      | SockV4 _ _ => Ret None
      | SockV6 ip _ _ scope_id =>
          let beacon_sock := SockV6 ip (av_port adv) 0 scope_id in
          if has_key_addr (av_public_key adv) beacon_sock active then Ret None
          else
            match find (fun '(_, state) => (is_index state =? scope_id) && is_listen state) (map_iter ifaces) with
            | None => Ret None
            | Some (name, state) =>
                expected_hash ← compute_auth_hash (av_public_key adv) (is_password state);
                if negb (bool_decide (expected_hash = av_hash adv)) then Ret None
                else Ret (Some (mkDiscovery beacon_sock name
                                  (multicast_options (is_priority state) (is_password state))))
            end
      end
  end.

Definition interface_info (m : Multicast) (name : string) (state : InterfaceState) : MulticastInterfaceInfo :=
  mkMulticastInterfaceInfo name (is_beacon state) (is_listen state)
    (match mc_listeners m !! name with Some l => li_port l | None => 0 end)
    (negb (bool_decide (is_password state = []))).

Definition name_le (a b : MulticastInterfaceInfo) : Prop := String.leb (mf_name a) (mf_name b) = true.

#[export] Instance name_le_dec a b : Decision (name_le a b).
Proof. unfold name_le. apply _. Defined.

Definition get_interfaces (m : Multicast) : list MulticastInterfaceInfo :=
  merge_sort name_le (map (fun '(name, state) => interface_info m name state) (map_iter (mc_interfaces m))).

(** [Multicast::new] refuses a configuration with nothing enabled. *)
Definition any_enabled (config : list MulticastInterfaceConfig) : bool :=
  existsb (fun c => mi_beacon c || mi_listen c) config.
End Multicast.
