(* ===== verification/MulticastFacts.v ===== *)
(** * MulticastFacts: discovery finds the right peers

    Facts about [Multicast]: the advertisement codec ([advertisement_codec]), the
    table of interfaces and listeners over any number of rounds
    ([monitor_rounds_ok]), the schedule of the beacons ([beacon_schedule]), what a
    received datagram leads to ([discovery_sound]) and the way from one node's
    beacon to a link between the two ([beacon_to_link]). *)

From S2P Require Import Prelude.
From S2P Require Import Wire.
From S2P Require Import Crypto.
From S2P Require Import Version.
From S2P Require Import Ckr.
From S2P Require Import Links.
From S2P Require Import LinksConn.
From S2P Require Import Multicast.
From stdpp Require Import strings.
From stdpp Require Import options.
Open Scope Z_scope.

(** ** The codec *)

Definition adv_wf (a : Advertisement) : Prop :=
  is_u16 (av_major_version a) /\ is_u16 (av_minor_version a) /\ key_wf (av_public_key a) /\ is_u16 (av_port a)
  /\ bytes_wf (av_hash a) /\ Z.of_nat (length (av_hash a)) < 65536.

Lemma be16_roundtrip bs : bytes_wf bs -> length bs = 2%nat -> to_be_bytes 2 (from_be_bytes bs) = bs.
Proof.
  intros Hb Hl. destruct bs as [|a [|b [|]]]; try done. apply Forall_cons in Hb as [Ha [Hb _]%Forall_cons].
  unfold from_be_bytes. cbn. unfold is_u8 in *. change (2 ^ 8) with 256.
  rewrite Z.div_add_l, (Z.div_small b), Z.add_0_r by lia. rewrite (Z.mod_small a) by lia.
  rewrite Z.add_comm, Z_mod_plus_full, Z.mod_small by lia. done.
Qed.

(** The decoder on the parts of a datagram. *)
Lemma decode_parts (ma mi k p l rest : bytes) : length ma = 2%nat -> length mi = 2%nat -> length k = 32%nat ->
  length p = 2%nat -> length l = 2%nat ->
  Advertisement_decode (ma ++ mi ++ k ++ p ++ l ++ rest) =
    (let n := Z.to_nat (from_be_bytes l) in
     if (length rest <? n)%nat then Err AdvHashTruncated
     else Ok (mkAdvertisement (from_be_bytes ma) (from_be_bytes mi) k (from_be_bytes p) (take n rest))).
Proof.
  intros Hma Hmi Hk Hp Hl.
  destruct ma as [|a1 [|a2 [|]]], mi as [|b1 [|b2 [|]]], p as [|c1 [|c2 [|]]], l as [|d1 [|d2 [|]]]; try done.
  unfold Advertisement_decode. cbn [app]. set (x := k ++ c1 :: c2 :: d1 :: d2 :: rest).
  change (drop 4 (a1 :: a2 :: b1 :: b2 :: x)) with x. change (drop 36 (a1 :: a2 :: b1 :: b2 :: x)) with (drop 32 x).
  change (drop 38 (a1 :: a2 :: b1 :: b2 :: x)) with (drop 34 x). change (drop 40 (a1 :: a2 :: b1 :: b2 :: x)) with (drop 36 x).
  assert (Hx : take 32 x = k /\ drop 32 x = c1 :: c2 :: d1 :: d2 :: rest /\ drop 34 x = d1 :: d2 :: rest
    /\ drop 36 x = rest /\ length x = (36 + length rest)%nat).
  { unfold x. rewrite (take_app_exact _ _ 32), !drop_app_ge, Hk by lia. split_and!; try done.
    rewrite length_app, Hk. cbn [length]. lia. }
  destruct Hx as (-> & -> & -> & -> & Hx). cbn [length]. rewrite Hx.
  destruct (Nat.ltb_spec (S (S (S (S (36 + length rest)))))%nat 40%nat) as [?|_]; [lia|].
  cbv zeta. set (n := Z.to_nat _).
  destruct (Nat.ltb_spec (length rest) n), (Nat.ltb_spec (S (S (S (S (36 + length rest)))))%nat (40 + n)); try lia;
    done.
Qed.

Lemma decode_encode_adv a tail : adv_wf a -> Advertisement_decode (Advertisement_encode a ++ tail) = Ok a.
Proof.
  intros (Hma & Hmi & [Hk _] & Hp & _ & Hh). unfold Advertisement_encode. rewrite Z.mod_small by lia.
  rewrite <- !app_assoc, decode_parts by (done || apply to_be_bytes_length).
  cbv zeta. rewrite !from_to_be_bytes, Nat2Z.id by (unfold is_u16 in *; simpl; lia).
  rewrite length_app. destruct (Nat.ltb_spec (length (av_hash a) + length tail) (length (av_hash a))); [lia|].
  rewrite take_app_length. by destruct a.
Qed.

Lemma adv_split (data : bytes) : (40 <= length data)%nat -> exists ma mi k p l rest,
  data = ma ++ mi ++ k ++ p ++ l ++ rest /\ length ma = 2%nat /\ length mi = 2%nat /\ length k = 32%nat
  /\ length p = 2%nat /\ length l = 2%nat.
Proof.
  intros Hd. exists (take 2 data), (take 2 (drop 2 data)), (take 32 (drop 4 data)), (take 2 (drop 36 data)),
    (take 2 (drop 38 data)), (drop 40 data).
  rewrite !length_take, !length_drop. split; [|lia].
  rewrite <- (take_drop 2 data) at 1. f_equal. rewrite <- (take_drop 2 (drop 2 data)) at 1. f_equal.
  rewrite drop_drop. rewrite <- (take_drop 32 (drop (2 + 2) data)) at 1. f_equal. rewrite drop_drop.
  rewrite <- (take_drop 2 (drop (2 + 2 + 32) data)) at 1. f_equal. rewrite drop_drop.
  rewrite <- (take_drop 2 (drop (2 + 2 + 32 + 2) data)) at 1. by rewrite drop_drop.
Qed.

Lemma decode_adv_wf data a : bytes_wf data -> Advertisement_decode data = Ok a ->
  adv_wf a /\ exists tail, data = Advertisement_encode a ++ tail.
Proof.
  intros Hb Hd. assert (Hlen : (40 <= length data)%nat).
  { unfold Advertisement_decode in Hd. destruct (Nat.ltb_spec (length data) 40); [done|lia]. }
  destruct (adv_split data Hlen) as (ma & mi & k & p & l & rest & -> & Hma & Hmi & Hk & Hp & Hl).
  rewrite decode_parts in Hd by done. cbv zeta in Hd.
  destruct (Nat.ltb_spec (length rest) (Z.to_nat (from_be_bytes l))) as [|Hr]; [done|]. injection Hd as <-.
  unfold bytes_wf in Hb. rewrite !Forall_app in Hb. destruct Hb as (Bma & Bmi & Bk & Bp & Bl & Br).
  assert (H16 : forall bs, Forall is_u8 bs -> length bs = 2%nat -> is_u16 (from_be_bytes bs)).
  { intros bs Hbs H2. pose proof (from_be_bytes_bound bs Hbs) as E. by rewrite H2 in E. }
  pose proof (H16 l Bl Hl) as Hn. unfold is_u16 in Hn. split.
  - split_and!; cbn; [by apply H16|by apply H16|by split|by apply H16|by apply Forall_take|rewrite length_take; lia].
  - exists (drop (Z.to_nat (from_be_bytes l)) rest). unfold Advertisement_encode. cbn [av_major_version av_minor_version av_public_key av_port av_hash].
    rewrite !be16_roundtrip, length_take by done. replace (Z.of_nat (_ `min` _)) with (from_be_bytes l) by lia.
    rewrite Z.mod_small, be16_roundtrip by (done || lia). by rewrite <- !app_assoc, take_drop.
Qed.

(** The advertisement codec is exact. Decoding an encoded advertisement
    gives it back whatever follows; every accepted datagram starts with the
    encoding of the advertisement it decodes to, whose fields are within their
    types; and decoding fails exactly for less than 40 bytes, or for less bytes
    than the announced length of the hash. *)
Theorem advertisement_codec data a (Hd : bytes_wf data) :
  (adv_wf a -> Advertisement_decode (Advertisement_encode a ++ data) = Ok a)
  /\ (Advertisement_decode data = Ok a <-> adv_wf a /\ exists tail, data = Advertisement_encode a ++ tail)
  /\ (Advertisement_decode data = Err AdvTooShort <-> (length data < 40)%nat).
Proof.
  split; [by intros; apply decode_encode_adv|]. split.
  - split; [by apply decode_adv_wf|]. intros [Ha [tail ->]]. by apply decode_encode_adv.
  - unfold Advertisement_decode. destruct (Nat.ltb_spec (length data) 40) as [|Hl]; [done|].
    split; [|lia]. cbv zeta. by destruct (_ <? _)%nat.
Qed.

(** ** Discovery of interfaces *)

Section Facts.
Context `{HashOrder} (glob_match : string -> string -> bool)
  (blake2b512 : bytes -> bytes) (blake2b_mac512 : bytes -> bytes -> option bytes).
Abbreviation auth_hash := (compute_auth_hash blake2b512 blake2b_mac512) (only parsing).
Abbreviation pattern_of := (find_pattern glob_match) (only parsing).

(** What an entry of the system contributes to the interface [name]. *)
Definition usable (name : string) (e : IfEntry) : option (Z * Z) :=
  if ie_up e && ie_running e && ie_multicast e && negb (ie_pointtopoint e) && negb (ie_loopback e)
     && bool_decide (ie_name e = name)
  then ip ← ie_address e; if is_link_local ip then Some (default 0 (ie_index e), ip) else None
  else None.

(** The link-local addresses of an interface, under the index of the first. *)
Definition ifinfo_of (us : list (Z * Z)) : option IfInfo :=
  match us with [] => None | (i, _) :: _ => Some (mkIfInfo i us.*2) end.

Lemma add_entry_lookup by_name e name : add_entry by_name e !! name =
  match usable name e with
  | Some (i, ip) => let info := default (mkIfInfo i []) (by_name !! name) in
                    Some (mkIfInfo (ii_index info) (ii_addrs info ++ [ip]))
  | None => by_name !! name
  end.
Proof.
  unfold add_entry, usable. destruct (ie_up e), (ie_running e), (ie_multicast e), (ie_pointtopoint e), (ie_loopback e);
    cbn [negb andb orb]; try done. case_bool_decide as Hn.
  - subst name. destruct (ie_address e) as [ip|]; [|done]. cbn. destruct (is_link_local ip); [|done].
    by rewrite lookup_insert_eq.
  - destruct (ie_address e) as [ip|]; [|done]. destruct (is_link_local ip); [|done]. by rewrite lookup_insert_ne.
Qed.

Lemma by_name_lookup entries name : foldl add_entry ∅ entries !! name = ifinfo_of (omap (usable name) entries).
Proof.
  induction entries as [|e entries IH] using rev_ind; [done|].
  rewrite foldl_app. cbn [foldl]. rewrite add_entry_lookup, IH, omap_app. cbn [omap list_omap].
  destruct (usable name e) as [[i ip]|]; [|by rewrite app_nil_r].
  destruct (omap (usable name) entries) as [|[j q] us]; [done|]. cbn. by rewrite fmap_app.
Qed.

Lemma info_of_addrs us info : ifinfo_of us = Some info -> ii_addrs info <> [].
Proof. destruct us as [|[i ip] us]; [done|]. by intros [= <-]. Qed.

(** A pattern with its password hashed. *)
Definition pattern_state (pk : PublicKey) (cfg : MulticastInterfaceConfig) (hash : bytes) (index : Z) (addrs : list Z)
    (now : Z) : InterfaceState :=
  mkInterfaceState index addrs (mi_beacon cfg) (mi_listen cfg) (mi_port cfg) (mi_priority cfg)
    (mi_password cfg) hash one_second (now - 60 * one_second).

Definition hashable (pk : PublicKey) (patterns : list MulticastInterfaceConfig) (h : bytes -> bytes) : Prop :=
  Forall (fun cfg => auth_hash pk (mi_password cfg) = Ret (h (mi_password cfg))) patterns.

Lemma add_interface_eq pk patterns h now name index addrs r : hashable pk patterns h ->
  add_interface glob_match blake2b512 blake2b_mac512 pk patterns now name index addrs r =
    Ret (match pattern_of patterns name with
         | Some cfg => if bool_decide (addrs = []) then r
                       else <[name := pattern_state pk cfg (h (mi_password cfg)) index addrs now]> r
         | None => r
         end).
Proof.
  intros Hh. unfold add_interface. case_bool_decide; [by destruct (find_pattern _ _ _)|].
  destruct (find_pattern glob_match patterns name) as [cfg|] eqn:Hf; [|done].
  unfold InterfaceState_new. unfold hashable in Hh. rewrite Forall_forall in Hh.
  rewrite (Hh cfg), !ret_bind; [done|]. apply list_elem_of_In. by apply find_some in Hf as [? _].
Qed.

Lemma discover_fold pk patterns h now (l : list (string * IfInfo)) r : hashable pk patterns h -> NoDup l.*1 ->
  (forall name info, (name, info) ∈ l -> ii_addrs info <> []) ->
  exists r', foldl (fun acc '(name, info) => acc ≫= add_interface glob_match blake2b512 blake2b_mac512 pk patterns now name
                      (ii_index info) (ii_addrs info)) (Ret r) l = Ret r'
    /\ forall name, r' !! name =
         match list_to_map (M := gmap string IfInfo) l !! name, pattern_of patterns name with
         | Some info, Some cfg => Some (pattern_state pk cfg (h (mi_password cfg)) (ii_index info) (ii_addrs info) now)
         | _, _ => r !! name
         end.
Proof.
  intros Hh. revert r. induction l as [|[n info] l IH]; intros r Hnd Ha; [by exists r|].
  apply NoDup_cons in Hnd as [Hn Hnd]. cbn [foldl]. rewrite ret_bind, (add_interface_eq _ _ h) by done.
  rewrite bool_decide_false by (apply (Ha n); left).
  edestruct IH as (r' & Hr & Hl); [done|by intros; eapply Ha; right|]. exists r'. split; [exact Hr|].
  intros name. rewrite Hl, list_to_map_cons. destruct (decide (name = n)) as [->|Hne].
  - rewrite lookup_insert_eq, (not_elem_of_list_to_map_1 l n) by done.
    destruct (find_pattern _ _ n); [by rewrite lookup_insert_eq|done].
  - rewrite lookup_insert_ne by done.
    assert (Hr0 : forall st, match find_pattern glob_match patterns n with Some cfg => <[n := st cfg]> r | None => r end !! name
      = r !! name) by (intros st; destruct (find_pattern _ _ n); [by rewrite lookup_insert_ne|done]).
    by rewrite Hr0.
Qed.

Lemma list_to_map_iter {V} (m : gmap string V) : list_to_map (map_iter m) = m.
Proof.
  rewrite <- (list_to_map_to_list m) at 2. apply list_to_map_proper; [apply map_keys_nodup|].
  unfold map_iter. apply hash_order_perm.
Qed.

Lemma discover_spec pk patterns h now entries : hashable pk patterns h ->
  exists r, discover_interfaces glob_match blake2b512 blake2b_mac512 pk patterns now (Some entries) = Ret r
    /\ forall name, r !! name =
         match ifinfo_of (omap (usable name) entries), pattern_of patterns name with
         | Some info, Some cfg => Some (pattern_state pk cfg (h (mi_password cfg)) (ii_index info) (ii_addrs info) now)
         | _, _ => None
         end.
Proof.
  intros Hh. destruct (discover_fold pk patterns h now (map_iter (foldl add_entry ∅ entries)) ∅ Hh) as (r & Hr & Hl).
  - apply map_keys_nodup.
  - intros name info Hin. apply elem_of_map_iter in Hin. rewrite by_name_lookup in Hin. by apply info_of_addrs in Hin.
  - exists r. split; [exact Hr|]. intros name. rewrite Hl, list_to_map_iter, by_name_lookup.
    by destruct (ifinfo_of _), (find_pattern glob_match patterns name).
Qed.

(** Discovery is exact. When every configured password can be hashed, the
    interfaces found are those that are up, running, capable of multicast, neither
    point-to-point nor loopback, with at least one link-local address, and matched
    by a pattern that beacons or listens; each has all its link-local addresses in
    order and the settings of the first such pattern. *)
Theorem discovery_exact pk patterns h now entries (Hh : hashable pk patterns h) :
  exists r, discover_interfaces glob_match blake2b512 blake2b_mac512 pk patterns now (Some entries) = Ret r
    /\ forall name st, r !! name = Some st <->
         exists cfg, pattern_of patterns name = Some cfg /\ omap (usable name) entries <> []
           /\ is_addrs st = (omap (usable name) entries).*2
           /\ Some (is_index st) = fst <$> head (omap (usable name) entries)
           /\ st = pattern_state pk cfg (h (mi_password cfg)) (is_index st) (is_addrs st) now.
Proof.
  destruct (discover_spec pk patterns h now entries Hh) as (r & Hr & Hl). exists r. split; [done|]. intros name st.
  rewrite Hl. destruct (omap (usable name) entries) as [|[i ip] us]; cbn [ifinfo_of].
  { split; [done|]. by intros (? & _ & ? & _). }
  destruct (find_pattern glob_match patterns name) as [cfg|].
  - split.
    + intros [= <-]. by exists cfg.
    + intros (cfg' & [= <-] & _ & Ha & [= Hi] & ->). cbn in *. by rewrite Ha, Hi.
  - split; [done|]. by intros (? & ? & _).
Qed.

(** A password that the MAC refuses (longer than 64 bytes) ends the monitor
    task in a panic as soon as an interface matches its pattern. *)
Lemma long_password_panics pk patterns cfg now name index addrs r : pattern_of patterns name = Some cfg ->
  mi_password cfg <> [] -> blake2b_mac512 (mi_password cfg) pk = None -> addrs <> [] ->
  add_interface glob_match blake2b512 blake2b_mac512 pk patterns now name index addrs r = Panic.
Proof.
  intros Hf Hp Hm Ha. unfold add_interface. rewrite bool_decide_false, Hf by done.
  unfold InterfaceState_new, compute_auth_hash. by rewrite bool_decide_false, Hm.
Qed.

(** ** Rounds, interface by interface *)

Lemma remove_missing_spec new l m0 acts0 name :
  let m := fst (foldl (missing_step new) (m0, acts0) l) in
  let gone := bool_decide (name ∈ l) && bool_decide (new !! name = None) in
  mc_interfaces m !! name = (if gone then None else mc_interfaces m0 !! name)
  /\ mc_listeners m !! name = (if gone then None else mc_listeners m0 !! name).
Proof.
  revert m0 acts0. induction l as [|n l IH]; intros m0 acts0.
  { cbn. by rewrite bool_decide_false by apply not_elem_of_nil. }
  cbv zeta in *. cbn [foldl]. destruct (missing_step new (m0, acts0) n) as [m1 a1] eqn:E.
  destruct (IH m1 a1) as [-> ->]. unfold missing_step in E. destruct (decide (is_Some (new !! n))) as [Hn|Hn]; injection E as <- <-.
  - destruct (decide (name = n)) as [->|Hne].
    + rewrite (bool_decide_false (new !! n = None)) by (intros E; rewrite E in Hn; by destruct Hn). by rewrite !andb_false_r.
    + by rewrite (bool_decide_ext (name ∈ n :: l) (name ∈ l)) by (rewrite elem_of_cons; split; [by intros [?|?]|by right]).
  - apply eq_None_not_Some in Hn. destruct (decide (name = n)) as [->|Hne].
    + rewrite (bool_decide_true (n ∈ n :: l)), (bool_decide_true (new !! n = None)) by (done || left). cbn.
      rewrite !lookup_delete_eq. by destruct (bool_decide _).
    + rewrite (bool_decide_ext (name ∈ n :: l) (name ∈ l)) by (rewrite elem_of_cons; split; [by intros [?|?]|by right]). cbn.
      by rewrite !lookup_delete_ne.
Qed.

Definition cancels (acts : list McAction) : Prop := Forall (fun a => exists name, a = McCancelListener name) acts.

Lemma remove_missing_actions new m : cancels (snd (remove_missing new m)).
Proof.
  unfold remove_missing. generalize (map_keys (mc_interfaces m)) as l. intros l.
  assert (H0 : cancels (@nil McAction)) by constructor. revert H0. generalize (@nil McAction) as acts. revert m.
  induction l as [|n l IH]; intros m acts H0; [done|]. cbn [foldl].
  destruct (missing_step new (m, acts) n) as [m1 a1] eqn:E. apply IH. unfold missing_step in E.
  case_decide; injection E as <- <-; [done|]. apply Forall_app. split; [done|].
  destruct (mc_listeners m !! n); repeat constructor. by eexists.
Qed.

Lemma remove_orphans_actions m : cancels (snd (remove_orphans m)).
Proof.
  unfold remove_orphans. generalize (map_keys (mc_listeners m)) as l. intros l.
  assert (H0 : cancels (@nil McAction)) by constructor. revert H0. generalize (@nil McAction) as acts. revert m.
  induction l as [|n l IH]; intros m acts H0; [done|]. cbn [foldl].
  destruct (orphan_step (m, acts) n) as [m1 a1] eqn:E. apply IH. unfold orphan_step in E.
  case_decide; injection E as <- <-; [done|]. apply Forall_app. split; [done|]. repeat constructor. by eexists.
Qed.

(** The interface after the update: the old one with new addresses, or the new. *)
Definition refreshed (now : Z) (old : option InterfaceState) (new_state : InterfaceState) : InterfaceState :=
  match old with
  | Some existing => existing <| is_addrs := is_addrs new_state |> <| is_index := is_index new_state |>
  | None => new_state <| is_beacon_interval := one_second |> <| is_last_beacon := now - 60 * one_second |>
  end.

Lemma update_spec now l ifaces : NoDup l.*1 -> forall name,
  foldl (update_interface now) ifaces l !! name =
    match list_to_map (M := gmap string InterfaceState) l !! name with
    | Some new_state => Some (refreshed now (ifaces !! name) new_state)
    | None => ifaces !! name
    end.
Proof.
  revert ifaces. induction l as [|[n st] l IH]; intros ifaces Hnd name; [done|].
  apply NoDup_cons in Hnd as [Hn Hnd]. cbn [foldl]. rewrite IH, list_to_map_cons by done.
  assert (Hu : update_interface now ifaces (n, st) = <[n := refreshed now (ifaces !! n) st]> ifaces)
    by (unfold update_interface, refreshed; by destruct (ifaces !! n)).
  rewrite Hu. destruct (decide (name = n)) as [->|Hne].
  - rewrite !lookup_insert_eq. by rewrite (not_elem_of_list_to_map_1 l n).
  - by rewrite !lookup_insert_ne.
Qed.

Lemma remove_orphans_spec l m0 acts0 :
  let m := fst (foldl orphan_step (m0, acts0) l) in
  mc_interfaces m = mc_interfaces m0
  /\ forall name, is_Some (mc_interfaces m0 !! name) \/ mc_listeners m0 !! name = None ->
       mc_listeners m !! name = mc_listeners m0 !! name.
Proof.
  revert m0 acts0. induction l as [|n l IH]; intros m0 acts0; [done|].
  cbv zeta in *. cbn [foldl]. destruct (orphan_step (m0, acts0) n) as [m1 a1] eqn:E.
  destruct (IH m1 a1) as [-> Hl]. unfold orphan_step in E.
  destruct (decide (is_Some (mc_interfaces m0 !! n))) as [Hn|Hn]; injection E as <- <-; [done|]. split; [done|].
  intros name Hs. destruct (decide (name = n)) as [->|Hne].
  - destruct Hs as [?|Hs]; [done|]. rewrite Hl; cbn; rewrite lookup_delete_eq; [done|by right].
  - rewrite Hl; cbn; rewrite lookup_delete_ne; done.
Qed.

Section Round.
Context (pk : PublicKey) (bind : string -> Z -> Z -> Z -> option Z) (times : string -> Z * Z).

Definition announced (m : Multicast) (name : string) (state : InterfaceState) :=
  announce pk (bind name) (times name) name state (mc_listeners m !! name).

Lemma announce_loop_spec l m0 acts0 : NoDup l -> let r := foldl (announce_one pk bind times) (m0, acts0) l in
  (forall name, mc_interfaces (fst r) !! name
     = match mc_interfaces m0 !! name with
       | Some st => if decide (name ∈ l) then Some (fst (fst (announced m0 name st))) else Some st
       | None => None
       end
   /\ mc_listeners (fst r) !! name
     = match mc_interfaces m0 !! name with
       | Some st => if decide (name ∈ l) then snd (fst (announced m0 name st)) else mc_listeners m0 !! name
       | None => mc_listeners m0 !! name
       end)
  /\ snd r = acts0 ++ (l ≫= fun name => match mc_interfaces m0 !! name with
                                       | Some st => snd (announced m0 name st)
                                       | None => []
                                       end).
Proof.
  revert m0 acts0. induction l as [|n l IH]; intros m0 acts0 Hnd r; subst r.
  { cbn [foldl fst snd]. rewrite app_nil_r. split; [|done]. intros name.
    destruct (mc_interfaces m0 !! name); [|done]. by rewrite !decide_False by apply not_elem_of_nil. }
  apply NoDup_cons in Hnd as [Hn Hnd]. cbn [foldl].
  set (m1 := fst (announce_one pk bind times (m0, acts0) n)). set (a1 := snd (announce_one pk bind times (m0, acts0) n)).
  rewrite (surjective_pairing (announce_one _ _ _ _ n)). fold m1 a1.
  assert (Hm1 : (forall name, name <> n -> mc_interfaces m1 !! name = mc_interfaces m0 !! name
                   /\ mc_listeners m1 !! name = mc_listeners m0 !! name)
    /\ mc_interfaces m1 !! n = ((fun st => fst (fst (announced m0 n st))) <$> mc_interfaces m0 !! n)
    /\ mc_listeners m1 !! n = match mc_interfaces m0 !! n with
                              | Some st => snd (fst (announced m0 n st)) | None => mc_listeners m0 !! n end
    /\ a1 = acts0 ++ match mc_interfaces m0 !! n with Some st => snd (announced m0 n st) | None => [] end).
  { subst m1 a1. unfold announce_one, announced. destruct (mc_interfaces m0 !! n) as [st|] eqn:Hst.
    - cbn [fmap option_fmap option_map]. destruct (announce pk (bind n) (times n) n st (mc_listeners m0 !! n)) as [[st' li] acts]. cbn.
      split_and!; [|by rewrite lookup_insert_eq|by rewrite lookup_partial_alter_eq|done].
      intros name Hne. by rewrite lookup_insert_ne, lookup_partial_alter_ne.
    - cbn. rewrite Hst, app_nil_r. done. }
  destruct Hm1 as (Hother & Hi & Hl & Ha). destruct (IH m1 a1 Hnd) as [IHm IHa]. split.
  - intros name. destruct (IHm name) as [-> ->]. destruct (decide (name = n)) as [->|Hne].
    + rewrite Hi, Hl. destruct (mc_interfaces m0 !! n); [|done]. cbn [fmap option_fmap option_map].
      rewrite !(decide_True (P := n ∈ n :: l)) by left. by rewrite !decide_False.
    + destruct (Hother name Hne) as [-> Hls]. unfold announced. rewrite Hls.
      destruct (mc_interfaces m0 !! name) as [st|]; [|done].
      destruct (decide (name ∈ l)); [rewrite !decide_True by (by right)|rewrite !decide_False by (by rewrite not_elem_of_cons)]; done.
  - rewrite IHa, Ha, <- app_assoc. f_equal. cbn. f_equal.
    assert (Hin : forall name, name ∈ l -> name <> n) by (intros ? ? ->; done). clear -Hother Hin.
    induction l as [|k l IHl]; [done|]. cbn. destruct (Hother k) as [-> Hk]; [apply Hin; left|]. unfold announced.
    rewrite Hk. f_equal. apply IHl. intros. apply Hin. by right.
Qed.
End Round.

(** ** The state of discovery *)

Record iface_ok (pk : PublicKey) (st : InterfaceState) : Prop := {
  io_hash : auth_hash pk (is_password st) = Ret (is_hash st);
  io_interval : exists k, 1 <= k <= 15 /\ is_beacon_interval st = k * one_second
}.

Definition listener_ok (st : InterfaceState) (l : option ListenerInfo) : Prop :=
  forall i, l = Some i -> is_beacon st = true /\ li_options i = multicast_options (is_priority st) (is_password st).

Record mc_ok (pk : PublicKey) (m : Multicast) : Prop := {
  mo_ifaces : map_Forall (fun _ st => iface_ok pk st) (mc_interfaces m);
  mo_listeners : forall name, match mc_interfaces m !! name with
                              | Some st => listener_ok st (mc_listeners m !! name)
                              | None => mc_listeners m !! name = None
                              end
}.

(** What an interface keeps while it exists. *)
Definition settings (st : InterfaceState) :=
  (is_beacon st, is_listen st, is_port st, is_priority st, is_password st, is_hash st).

Record Round := mkRound {
  rd_now : Z;
  rd_bind : string -> Z -> Z -> Z -> option Z;
  rd_times : string -> Z * Z;
  rd_new : gmap string InterfaceState
}.

Section State.
Context (pk : PublicKey).

Definition round (m : Multicast) (r : Round) : Multicast * list McAction :=
  monitor_round pk (rd_now r) (rd_bind r) (rd_times r) (rd_new r) m.
Definition rounds (m : Multicast) (rs : list Round) : Multicast := foldl (fun m r => fst (round m r)) m rs.

(** The turn of one interface in a round. *)
Definition turn (m : Multicast) (r : Round) (name : string) (ns : InterfaceState) :=
  announce pk (rd_bind r name) (rd_times r name) name
    (refreshed (rd_now r) (mc_interfaces m !! name) ns) (mc_listeners m !! name).

(** The table when the interfaces are announced. *)
Definition updated (m : Multicast) (r : Round) : Multicast :=
  let m := fst (remove_missing (rd_new r) m) in
  fst (remove_orphans (m <| mc_interfaces := foldl (update_interface (rd_now r)) (mc_interfaces m) (map_iter (rd_new r)) |>)).

Definition no_orphans (m : Multicast) : Prop :=
  forall name, mc_interfaces m !! name = None -> mc_listeners m !! name = None.

Lemma round_eq m r : exists acts, cancels acts /\
  round m r = (let '(m4, sent) := foldl (announce_one pk (rd_bind r) (rd_times r)) (updated m r, [])
                                    (map_keys (mc_interfaces (updated m r))) in (m4, acts ++ sent)).
Proof.
  unfold round, monitor_round, updated. pose proof (remove_missing_actions (rd_new r) m) as C1.
  destruct (remove_missing (rd_new r) m) as [m1 gone]. cbn [fst snd] in *. set (m2 := m1 <| mc_interfaces := _ |>).
  pose proof (remove_orphans_actions m2) as C2. destruct (remove_orphans m2) as [m3 orphans]. cbn [fst snd] in *.
  exists (gone ++ orphans). split; [by apply Forall_app|].
  destruct (foldl (announce_one _ _ _) _ _) as [m4 sent]. by rewrite <- app_assoc.
Qed.

Lemma updated_lookup m r name : no_orphans m ->
  mc_interfaces (updated m r) !! name = (refreshed (rd_now r) (mc_interfaces m !! name) <$> rd_new r !! name)
  /\ mc_listeners (updated m r) !! name = (_ ← rd_new r !! name; mc_listeners m !! name).
Proof.
  intros Hok. unfold updated. pose proof (remove_missing_spec (rd_new r) (map_keys (mc_interfaces m)) m []) as Hm1.
  fold (remove_missing (rd_new r) m) in Hm1. set (m1 := fst (remove_missing (rd_new r) m)) in *. cbv zeta in Hm1.
  set (m2 := m1 <| mc_interfaces := _ |>).
  assert (Hm2 : forall n, mc_interfaces m2 !! n = (refreshed (rd_now r) (mc_interfaces m !! n) <$> rd_new r !! n)
    /\ mc_listeners m2 !! n = (_ ← rd_new r !! n; mc_listeners m !! n)).
  { intros n. destruct (Hm1 n) as [E1 E2]. unfold m2. cbn. rewrite update_spec, list_to_map_iter, E1, E2 by apply map_keys_nodup.
    destruct (bool_decide_reflect (rd_new r !! n = None)) as [Hns|Hns].
    2: { rewrite andb_false_r. by destruct (rd_new r !! n). }
    - rewrite Hns, andb_true_r. destruct (bool_decide_reflect (n ∈ map_keys (mc_interfaces m))) as [|Hn]; [done|].
      assert (Hnone : mc_interfaces m !! n = None) by (apply eq_None_not_Some; by rewrite <- elem_of_map_keys).
      split; [done|by apply Hok]. }
  destruct (remove_orphans_spec (map_keys (mc_listeners m2)) m2 []) as [Hi3 Hl3].
  fold (remove_orphans m2) in Hi3, Hl3. destruct (Hm2 name) as [E1 E2]. rewrite Hi3. split; [done|].
  rewrite Hl3; [done|]. rewrite E1, E2. destruct (rd_new r !! name); [left; by eexists|by right].
Qed.

Lemma round_lookup m r : no_orphans m ->
  (forall name, mc_interfaces (fst (round m r)) !! name = ((fun ns => fst (fst (turn m r name ns))) <$> rd_new r !! name)
     /\ mc_listeners (fst (round m r)) !! name = (ns ← rd_new r !! name; snd (fst (turn m r name ns))))
  /\ (forall i d, McBeacon i d ∈ snd (round m r) ->
        exists name ns, rd_new r !! name = Some ns /\ McBeacon i d ∈ snd (turn m r name ns)).
Proof.
  intros Hok. destruct (round_eq m r) as (acts & Hc & ->). set (m3 := updated m r).
  destruct (announce_loop_spec pk (rd_bind r) (rd_times r) (map_keys (mc_interfaces m3)) m3 []) as [Hp Ha]; [apply map_keys_nodup|].
  destruct (foldl (announce_one _ _ _) (m3, []) (map_keys (mc_interfaces m3))) as [m4 sent]. cbn [fst snd] in *.
  assert (Hturn : forall n ns, rd_new r !! n = Some ns ->
    mc_interfaces m3 !! n = Some (refreshed (rd_now r) (mc_interfaces m !! n) ns)
    /\ announced pk (rd_bind r) (rd_times r) m3 n (refreshed (rd_now r) (mc_interfaces m !! n) ns) = turn m r n ns).
  { intros n ns Hns. destruct (updated_lookup m r n Hok) as [E1 E2]. rewrite Hns in E1, E2. cbn in E1, E2.
    fold m3 in E1, E2. rewrite E1. split; [done|]. unfold announced, turn. by rewrite E2. }
  assert (Hnone : forall n, rd_new r !! n = None -> mc_interfaces m3 !! n = None /\ mc_listeners m3 !! n = None).
  { intros n Hns. destruct (updated_lookup m r n Hok) as [E1 E2]. rewrite Hns in E1, E2. done. }
  split.
  - intros name. destruct (Hp name) as [-> ->]. destruct (rd_new r !! name) as [ns|] eqn:Hns.
    + destruct (Hturn name ns Hns) as [E Ht]. rewrite E, !decide_True by (apply elem_of_map_keys; rewrite E; by eexists).
      rewrite Ht. done.
    + destruct (Hnone name Hns) as [-> ->]. done.
  - intros i d Hin. apply elem_of_app in Hin as [Hin|Hin].
    { unfold cancels in Hc. rewrite Forall_forall in Hc. by destruct (Hc _ Hin) as [? ?]. }
    rewrite Ha in Hin. cbn in Hin.
    apply list_elem_of_bind in Hin as (n & Hin & _). destruct (rd_new r !! n) as [ns|] eqn:Hns.
    + destruct (Hturn n ns Hns) as [E Ht]. rewrite E, Ht in Hin. by exists n, ns.
    + destruct (Hnone n Hns) as [E _]. rewrite E in Hin. by apply elem_of_nil in Hin.
Qed.

Lemma announce_facts bind times name st li : let a := announce pk bind times name st li in
  settings (fst (fst a)) = settings st /\ is_index (fst (fst a)) = is_index st
  /\ (listener_ok st li -> listener_ok st (snd (fst a)))
  /\ (iface_ok pk st -> iface_ok pk (fst (fst a)))
  /\ (forall i d, McBeacon i d ∈ snd a -> is_beacon st = true /\ exists l, snd (fst a) = Some l /\ i = is_index st
        /\ d = Advertisement_encode (own_beacon pk (li_port l) (is_hash st))).
Proof.
  unfold announce. set (joins := if is_listen st then _ else _).
  assert (Hj : forall i d, McBeacon i d ∉ joins).
  { intros i d. unfold joins. destruct (is_listen st); [|apply not_elem_of_nil].
    by intros (? & ? & _)%list_elem_of_fmap. }
  set (l := if is_beacon st && _ then _ else li).
  assert (Hl : listener_ok st li -> listener_ok st l).
  { intros Hli. unfold l. destruct (is_beacon st && _) eqn:Hb; [|done]. apply andb_true_iff in Hb as [Hb _].
    destruct (head (is_addrs st)) as [addr|]; [|done]. destruct (bind _ _ _) as [port|]; [|done].
    by intros i [= <-]. }
  clearbody joins l. destruct l as [info|]; [|split_and!; try done; intros i d Hin; by apply Hj in Hin].
  destruct (is_beacon st && _) eqn:Hb; cbn [fst snd]; [|split_and!; try done; intros i d Hin; by apply Hj in Hin].
  apply andb_true_iff in Hb as [Hb _]. split_and!; try done.
  - intros [Hh (k & Hk & Hi)]. split; [done|]. cbn. rewrite Hi. destruct (Z.ltb_spec (k * one_second) BEACON_MAX_INTERVAL).
    + exists (k + 1). unfold BEACON_MAX_INTERVAL, one_second in *. lia.
    + by exists k.
  - intros i d Hin. apply elem_of_app in Hin as [Hin|Hin]; [by apply Hj in Hin|].
    apply list_elem_of_singleton in Hin. injection Hin as -> ->. split; [done|]. by exists info.
Qed.

Lemma turn_facts m r name ns : let a := turn m r name ns in let st := refreshed (rd_now r) (mc_interfaces m !! name) ns in
  settings (fst (fst a)) = settings st /\ is_index (fst (fst a)) = is_index st
  /\ (listener_ok st (mc_listeners m !! name) -> listener_ok st (snd (fst a)))
  /\ (iface_ok pk st -> iface_ok pk (fst (fst a)))
  /\ (forall i d, McBeacon i d ∈ snd a -> is_beacon st = true /\ exists l, snd (fst a) = Some l /\ i = is_index st
        /\ d = Advertisement_encode (own_beacon pk (li_port l) (is_hash st))).
Proof. apply announce_facts. Qed.

Definition round_ok (r : Round) : Prop :=
  map_Forall (fun _ st => auth_hash pk (is_password st) = Ret (is_hash st)) (rd_new r).

Lemma mc_ok_orphans m : mc_ok pk m -> no_orphans m.
Proof. intros Hm name Hn. pose proof (mo_listeners _ _ Hm name) as E. by rewrite Hn in E. Qed.

Lemma refreshed_ok m r name ns : mc_ok pk m -> round_ok r -> rd_new r !! name = Some ns ->
  iface_ok pk (refreshed (rd_now r) (mc_interfaces m !! name) ns)
  /\ listener_ok (refreshed (rd_now r) (mc_interfaces m !! name) ns) (mc_listeners m !! name).
Proof.
  intros Hm Hr Hns. pose proof (mo_listeners _ _ Hm name) as Hl. unfold refreshed.
  destruct (mc_interfaces m !! name) as [old|] eqn:Ho.
  - split; [|exact Hl]. by destruct (mo_ifaces _ _ Hm _ _ Ho).
  - rewrite Hl. split; [|done]. split; [exact (Hr _ _ Hns)|]. exists 1. done.
Qed.

Lemma round_mc_ok m r : mc_ok pk m -> round_ok r -> mc_ok pk (fst (round m r)).
Proof.
  intros Hm Hr. destruct (round_lookup m r (mc_ok_orphans m Hm)) as [Hl _]. split.
  - intros name st Hst. destruct (Hl name) as [E _]. rewrite E in Hst. destruct (rd_new r !! name) as [ns|] eqn:Hns; [|done].
    injection Hst as <-. destruct (refreshed_ok m r name ns Hm Hr Hns) as [Hi _]. by apply turn_facts.
  - intros name. destruct (Hl name) as [-> ->]. destruct (rd_new r !! name) as [ns|] eqn:Hns; [|done]. cbn.
    destruct (refreshed_ok m r name ns Hm Hr Hns) as [_ Hli].
    destruct (turn_facts m r name ns) as (Hs & _ & Hlo & _). specialize (Hlo Hli). intros i Hi. destruct (Hlo i Hi) as [Hb Ho]. unfold settings in Hs.
    injection Hs as -> _ _ -> -> _. done.
Qed.

Lemma rounds_mc_ok rs m : mc_ok pk m -> Forall round_ok rs -> mc_ok pk (rounds m rs).
Proof.
  intros Hm Hrs. revert m Hm. induction Hrs as [|r rs Hr _ IH]; intros m Hm; [done|]. by apply IH, round_mc_ok.
Qed.

Definition Multicast_empty : Multicast := mkMulticast ∅ ∅.
Lemma empty_mc_ok : mc_ok pk Multicast_empty.
Proof. by split. Qed.

(** The state of discovery over any number of rounds: every interface
    carries the node's hash under its own password and a beacon interval of one to
    fifteen seconds, and every listener belongs to a beaconing interface and uses
    its password and priority. After a round exactly the discovered interfaces are
    known; those known before keep their settings. A beacon sent in the round names
    this node's key, the port of the listener that is running on that interface,
    and the hash of the interface's password. *)
Theorem monitor_rounds_ok rs r (Hrs : Forall round_ok (rs ++ [r])) :
  let m := rounds Multicast_empty rs in
  let '(m', acts) := round m r in
  mc_ok pk m'
  /\ (forall name, is_Some (mc_interfaces m' !! name) <-> is_Some (rd_new r !! name))
  /\ (forall name old st, mc_interfaces m !! name = Some old -> mc_interfaces m' !! name = Some st -> settings st = settings old)
  /\ (forall i d, McBeacon i d ∈ acts -> exists name st l,
        mc_interfaces m' !! name = Some st /\ mc_listeners m' !! name = Some l /\ is_beacon st = true /\ i = is_index st
        /\ d = Advertisement_encode (own_beacon pk (li_port l) (is_hash st))
        /\ auth_hash pk (is_password st) = Ret (is_hash st)
        /\ li_options l = multicast_options (is_priority st) (is_password st)).
Proof.
  intros m. apply Forall_app in Hrs as [Hrs Hr]. rewrite Forall_singleton in Hr.
  pose proof (rounds_mc_ok rs _ empty_mc_ok Hrs) as Hm. fold m in Hm. pose proof (round_mc_ok m r Hm Hr) as Hm'.
  destruct (round_lookup m r (mc_ok_orphans m Hm)) as [Hl Hb]. destruct (round m r) as [m' acts]. cbn [fst snd] in *.
  split_and!; [done| | |].
  - intros name. destruct (Hl name) as [-> _]. destruct (rd_new r !! name); cbn; [|done]. split; by eexists.
  - intros name old st Ho Hst. destruct (Hl name) as [E _]. rewrite E in Hst. destruct (rd_new r !! name) as [ns|]; [|done].
    injection Hst as <-. destruct (turn_facts m r name ns) as (Hs & _). by rewrite Hs, Ho.
  - intros i d Hin. destruct (Hb i d Hin) as (name & ns & Hns & Ht). destruct (Hl name) as [E1 E2]. rewrite Hns in E1, E2. cbn in E1, E2.
    destruct (turn_facts m r name ns) as (Hs & Hi & _ & _ & Hbe).
    destruct (Hbe i d Ht) as (Hbc & l & Hli & -> & ->). unfold settings in Hs. injection Hs as S1 S2 S3 S4 S5 S6.
    exists name, (fst (fst (turn m r name ns))), l. rewrite E1, E2, Hli.
    pose proof (mo_listeners _ _ Hm' name) as Hlo. rewrite E1, E2, Hli in Hlo. destruct (Hlo l eq_refl) as [Hb' Ho].
    split_and!; try done; [by rewrite S6|]. exact (io_hash _ _ (mo_ifaces _ _ Hm' _ _ E1)).
Qed.

(** ** The schedule of the beacons of one interface *)

Definition is_beacon_action (a : McAction) : bool := match a with McBeacon _ _ => true | _ => false end.

(** The beacon the interface [name] sends in a round: when the interval was
    checked and when the beacon was out. *)
Definition beacon_sent (name : string) (m : Multicast) (r : Round) : option (Z * Z) :=
  ns ← rd_new r !! name;
  if existsb is_beacon_action (snd (turn m r name ns)) then Some (rd_times r name) else None.

Fixpoint beacons (name : string) (m : Multicast) (rs : list Round) : list (Z * Z) :=
  match rs with
  | [] => []
  | r :: rs => option_list (beacon_sent name m r) ++ beacons name (fst (round m r)) rs
  end.

(** The interval after [n] beacons. *)
Definition interval_after (n : Z) : Z := Z.min (n + 1) 15 * one_second.

(** Each beacon waits for the interval since the one before was out. *)
Fixpoint spaced (n last : Z) (ts : list (Z * Z)) : Prop :=
  match ts with
  | [] => True
  | (check, sent) :: ts => interval_after n <= check - last /\ spaced (n + 1) sent ts
  end.

Lemma announce_schedule bind times name st li : let a := announce pk bind times name st li in
  let fires := existsb is_beacon_action (snd a) in
  fires = bool_decide (is_beacon st = true /\ is_Some (snd (fst a)) /\ is_beacon_interval st <= elapsed times.1 (is_last_beacon st))
  /\ is_beacon_interval (fst (fst a)) = (if fires && (is_beacon_interval st <? BEACON_MAX_INTERVAL)
                                         then is_beacon_interval st + one_second else is_beacon_interval st)
  /\ is_last_beacon (fst (fst a)) = (if fires then times.2 else is_last_beacon st).
Proof.
  unfold announce. set (joins := if is_listen st then _ else _).
  assert (Hj : existsb is_beacon_action joins = false).
  { unfold joins. destruct (is_listen st); [|done]. by induction (is_addrs st). }
  set (l := if is_beacon st && _ then _ else li). clearbody joins l. destruct l as [info|].
  - destruct (is_beacon st); cbn [andb].
    + destruct (Z.leb_spec (is_beacon_interval st) (elapsed times.1 (is_last_beacon st))); cbn [fst snd].
      * rewrite existsb_app. cbn. rewrite orb_true_r. cbn. rewrite bool_decide_true by done. by destruct (_ <? _).
      * rewrite Hj, bool_decide_false by (intros (_ & _ & ?); lia). done.
    + cbn [fst snd]. rewrite Hj, bool_decide_false by (by intros [? _]). done.
  - cbn [fst snd]. rewrite Hj, bool_decide_false by (by intros (_ & [] & _)). done.
Qed.

(** Where an interface is in its schedule: [n] beacons sent, the last at [last]. *)
Definition on_schedule (name : string) (m : Multicast) (n last : Z) : Prop :=
  match mc_interfaces m !! name with
  | Some st => is_beacon_interval st = interval_after n /\ is_last_beacon st = last
  | None => False
  end.

Lemma interval_step n : 0 <= n ->
  (if interval_after n <? BEACON_MAX_INTERVAL then interval_after n + one_second else interval_after n) = interval_after (n + 1).
Proof.
  unfold interval_after, BEACON_MAX_INTERVAL, one_second. intros Hn.
  destruct (Z.ltb_spec (Z.min (n + 1) 15 * 1000000000) 15000000000); lia.
Qed.

Lemma schedule_step name m r n last : mc_ok pk m -> 0 <= n -> is_Some (rd_new r !! name) ->
  (on_schedule name m n last \/ mc_interfaces m !! name = None /\ n = 0 /\ last = rd_now r - 60 * one_second) ->
  match beacon_sent name m r with
  | Some (check, sent) => interval_after n <= check - last /\ on_schedule name (fst (round m r)) (n + 1) sent
  | None => on_schedule name (fst (round m r)) n last
  end.
Proof.
  intros Hm Hn [ns Hns] Hs. destruct (round_lookup m r (mc_ok_orphans m Hm)) as [Hl _]. destruct (Hl name) as [Hi _].
  unfold beacon_sent, on_schedule. rewrite Hi, Hns. cbn [mbind option_bind fmap option_fmap option_map].
  set (st := refreshed (rd_now r) (mc_interfaces m !! name) ns).
  assert (Hst : is_beacon_interval st = interval_after n /\ is_last_beacon st = last).
  { unfold st, refreshed. unfold on_schedule in Hs. destruct (mc_interfaces m !! name) as [old|].
    - by destruct Hs as [Hs|[? _]].
    - by destruct Hs as [[]|(_ & -> & ->)]. }
  destruct Hst as [Hiv Hla].
  destruct (announce_schedule (rd_bind r name) (rd_times r name) name st (mc_listeners m !! name)) as (Hf & Hin & Hlb).
  change (announce _ _ _ _ _ _) with (turn m r name ns) in *.
  destruct (existsb is_beacon_action (snd (turn m r name ns))).
  - symmetry in Hf. apply bool_decide_eq_true in Hf as (_ & _ & Hel). destruct (rd_times r name) as [check sent]. cbn [fst snd] in *.
    rewrite Hin, Hlb, Hiv in *. cbn [andb]. rewrite interval_step, Hla in * by done. split; [|done].
    unfold elapsed in Hel. unfold interval_after, one_second in *. lia.
  - rewrite Hin, Hlb. done.
Qed.

(** The beacons of an interface over any rounds in which it stays known:
    the first may follow at once; after the [n]-th one is out the next waits at
    least [min(n+1, 15)] seconds. Conversely a round sends the beacon whenever the
    interface beacons, has a listener and fifteen seconds have passed since the
    last. *)
Theorem beacon_schedule m name rs (Hm : mc_ok pk m) (Hnew : mc_interfaces m !! name = None) (Hrs : Forall round_ok rs)
    (Hstay : Forall (fun r => is_Some (rd_new r !! name)) rs) :
  match rs with
  | [] => True
  | r :: _ => spaced 0 (rd_now r - 60 * one_second) (beacons name m rs)
  end
  /\ (forall r st l, let m1 := rounds m rs in round_ok r -> is_Some (rd_new r !! name) ->
        mc_interfaces m1 !! name = Some st -> is_beacon st = true ->
        mc_listeners (fst (round m1 r)) !! name = Some l ->
        BEACON_MAX_INTERVAL <= elapsed (fst (rd_times r name)) (is_last_beacon st) ->
        beacon_sent name m1 r = Some (rd_times r name)).
Proof.
  split.
  - destruct rs as [|r rs]; [done|].
    assert (Hgo : forall rs m n last, mc_ok pk m -> 0 <= n -> Forall round_ok rs ->
      Forall (fun r => is_Some (rd_new r !! name)) rs -> on_schedule name m n last -> spaced n last (beacons name m rs)).
    { clear. intros rs. induction rs as [|r rs IH]; intros m n last Hm Hn Hrs Hst Hs; [done|].
      apply Forall_cons in Hrs as [Hr Hrs], Hst as [Hs1 Hst]. cbn [beacons].
      pose proof (schedule_step name m r n last Hm Hn Hs1 (or_introl Hs)) as Hstep.
      pose proof (round_mc_ok m r Hm Hr) as Hm'.
      destruct (beacon_sent name m r) as [[check sent]|]; cbn.
      - destruct Hstep as [? ?]. split; [done|]. apply IH; try done. lia.
      - by apply IH. }
    apply Forall_cons in Hrs as [Hr Hrs], Hstay as [Hs1 Hst]. cbn [beacons].
    pose proof (schedule_step name m r 0 (rd_now r - 60 * one_second) Hm ltac:(lia) Hs1 ltac:(by right)) as Hstep.
    pose proof (round_mc_ok m r Hm Hr) as Hm'.
    destruct (beacon_sent name m r) as [[check sent]|]; cbn.
    + destruct Hstep as [? ?]. split; [done|]. apply Hgo; try done.
    + by apply Hgo.
  - intros r st l m1 Hr [ns Hns] Hst Hb Hl Hel. pose proof (rounds_mc_ok rs m Hm Hrs) as Hm1. fold m1 in Hm1.
    destruct (round_lookup m1 r (mc_ok_orphans m1 Hm1)) as [Hlk _]. destruct (Hlk name) as [_ E]. rewrite E, Hns in Hl. cbn in Hl.
    unfold beacon_sent. rewrite Hns. cbn [mbind option_bind].
    destruct (announce_schedule (rd_bind r name) (rd_times r name) name
      (refreshed (rd_now r) (mc_interfaces m1 !! name) ns) (mc_listeners m1 !! name)) as (Hf & _).
    change (announce _ _ _ _ _ _) with (turn m1 r name ns) in Hf. rewrite Hf, bool_decide_true; [done|].
    rewrite Hst, Hl. split; [done|]. split; [by eexists|]. cbn.
    destruct (io_interval _ _ (mo_ifaces _ _ Hm1 _ _ Hst)) as (k & Hk & ->). unfold BEACON_MAX_INTERVAL, one_second in *. lia.
Qed.
End State.

(** ** From a datagram to a link *)

Abbreviation receives := (receive blake2b512 blake2b_mac512) (only parsing).

(** What a datagram can bring about. A peer is dialled only if the datagram
    is an advertisement of this protocol version for another node's key, it came
    over IPv6 on an interface that listens, its hash is that of the key under that
    interface's password, and there is no link to this key over that socket yet; it
    is dialled at the address the datagram came from and the announced port, with
    that interface's password and priority. *)
Theorem discovery_sound pk active ifaces from data d
    (Hrecv : receives pk active ifaces from data = Ret (Some d)) :
  exists adv name st ip port flowinfo scope_id, from = SockV6 ip port flowinfo scope_id
    /\ Advertisement_decode data = Ok adv
    /\ av_major_version adv = PROTOCOL_VERSION_MAJOR /\ av_minor_version adv = PROTOCOL_VERSION_MINOR
    /\ av_public_key adv <> pk
    /\ ifaces !! name = Some st /\ is_listen st = true /\ is_index st = scope_id
    /\ auth_hash (av_public_key adv) (is_password st) = Ret (av_hash adv)
    /\ has_key_addr (av_public_key adv) (dc_addr d) active = false
    /\ d = mkDiscovery (SockV6 ip (av_port adv) 0 scope_id) name (multicast_options (is_priority st) (is_password st)).
Proof.
  unfold receive in Hrecv. destruct (Advertisement_decode data) as [adv|] eqn:Hd; [|done].
  destruct (Z.eqb_spec (av_major_version adv) PROTOCOL_VERSION_MAJOR) as [Hma|]; [|done].
  destruct (Z.eqb_spec (av_minor_version adv) PROTOCOL_VERSION_MINOR) as [Hmi|]; [|done]. cbn [negb] in Hrecv.
  case_bool_decide as Hkey; [done|]. destruct from as [|ip port flowinfo scope_id]; [done|].
  destruct (has_key_addr _ _ _) eqn:Hk; [done|].
  destruct (find _ (map_iter ifaces)) as [[name st]|] eqn:Hf; [|done].
  apply find_some in Hf as [Hin Hst]. apply list_elem_of_In, elem_of_map_iter in Hin.
  apply andb_true_iff in Hst as [Hi Hlis]. apply Z.eqb_eq in Hi.
  destruct (compute_auth_hash _ _ _ (is_password st)) as [h|] eqn:Hh; [|done]. rewrite ret_bind in Hrecv.
  case_bool_decide as Heq; [|done]. injection Hrecv as <-. subst h.
  exists adv, name, st, ip, port, flowinfo, scope_id. by split_and!.
Qed.

(** The datagram of a beacon at the other node. *)
Lemma receive_beacon pk_a pk_b port hash active ifaces ip p f scope name st expected rest :
  adv_wf (own_beacon pk_a port hash) -> pk_a <> pk_b ->
  has_key_addr pk_a (SockV6 ip port 0 scope) active = false ->
  ifaces !! name = Some st -> is_listen st = true -> is_index st = scope ->
  (forall name' st', ifaces !! name' = Some st' -> is_listen st' = true -> is_index st' = scope -> name' = name) ->
  auth_hash pk_a (is_password st) = Ret expected ->
  receives pk_b active ifaces (SockV6 ip p f scope) (Advertisement_encode (own_beacon pk_a port hash) ++ rest) =
    Ret (if bool_decide (expected = hash)
         then Some (mkDiscovery (SockV6 ip port 0 scope) name (multicast_options (is_priority st) (is_password st)))
         else None).
Proof.
  intros Hwf Hne Hlk Hst Hlis Hidx Huniq Hh. unfold receive. rewrite decode_encode_adv by done.
  cbn [av_major_version av_minor_version av_public_key av_port av_hash own_beacon]. rewrite !Z.eqb_refl. cbn [negb].
  rewrite bool_decide_false, Hlk by done.
  destruct (find _ (map_iter ifaces)) as [[name' st']|] eqn:Hf.
  - apply find_some in Hf as [Hin Hs]. apply list_elem_of_In, elem_of_map_iter in Hin.
    apply andb_true_iff in Hs as [Hi Hl]. apply Z.eqb_eq in Hi.
    pose proof (Huniq name' st' Hin Hl Hi) as ->. rewrite Hst in Hin. injection Hin as <-.
    rewrite Hh, ret_bind. by case_bool_decide.
  - exfalso. pose proof (find_none _ _ Hf (name, st)) as E. cbv beta iota in E. rewrite Hlis, Hidx, Z.eqb_refl in E.
    discriminate E. apply list_elem_of_In. by apply elem_of_map_iter.
Qed.

Section ToLink.
Context `{D : Dalek} `{L : !DalekLaws} (parse_x509 : bytes -> option (list Z * bytes)).
Abbreviation handle := (handle_connection blake2b512 blake2b_mac512 parse_x509) (only parsing).
Abbreviation encode := (Metadata_encode blake2b512 blake2b_mac512) (only parsing).

(** What an end needs of the stream, the certificate, its list of keys and its
    table of links. *)
Definition end_ready (link_type : LinkType) (key : PublicKey) (core : LinkCore D) (s : LinkStream) (active : ActiveLinks) (now : Z) : Prop :=
  (forall c k, ls_peer_cert s = Some c -> extract_ed25519_pubkey_from_cert parse_x509 c = Some k -> k = key)
  /\ (link_type = Incoming -> lc_allowed_keys core = [] \/ key ∈ lc_allowed_keys core)
  /\ (ls_write s = IoOk /\ ls_flush s = IoOk) /\ stream_banned now s active = false
  /\ has_room active (ls_peer_addr s) (is_incoming link_type) key.

(** An end accepts the other's metadata when both use the same password. *)
Lemma end_links oc now now' link_type core_a core_b prio_a prio_b password s uri active rest :
  (forall data, is_Some (blake2b_mac512 password data)) ->
  lc_public_key core_a = sk_verifying_key_bytes (lc_signing_key core_a) -> key_wf (lc_public_key core_a) ->
  is_u8 prio_a -> lc_public_key core_a <> lc_public_key core_b ->
  end_ready link_type (lc_public_key core_a) core_b s active now ->
  let oa := multicast_options prio_a password in
  exists sent, encode (own_meta core_a oa) (lc_signing_key core_a) password = Ret sent /\
    (ls_bytes s = sent ++ rest ->
     exists active', handle oc now now' link_type (multicast_options prio_b password) s core_b uri active =
       Ret (Ok (mkAcceptedLink (al_next_id active) (lc_public_key core_a) (Z.max prio_b prio_a) rest), active')).
Proof using L.
  intros Hpw Hk Hkw Hp Hne (Hcert & Hall & Hio & Hban & Hroom) oa.
  destruct (links_connect blake2b512 blake2b_mac512 parse_x509 oc now now' link_type core_a oa core_b
    (multicast_options prio_b password) s uri active rest) as (sent & Hs & Hgo); try done.
  - split; [done| |done|by left|done]. unfold Metadata_check. cbn. by destruct Hkw as [-> _].
  - exists sent. split; [exact Hs|exact Hgo].
Qed.

(** C32: From a beacon to a link. Let node A announce itself on an interface
    with a running listener, and let node B hear the datagram on the one interface
    with that scope on which it listens. B dials A, at the sender's address and the
    port of A's listener, exactly when the hash of A's key under B's password is the
    announced one; so it does when both use the same password and no link over that
    socket exists. The handshake over the new connection then succeeds at both
    ends, provided the connection works, the addresses are not banned, A admits
    B's key and both tables have room. *)
Theorem beacon_to_link (core_a core_b : LinkCore D) m_a name_a st_a l_a active_a active_b ifaces_b ip p f scope name_b st_b
    (Hm : mc_ok (lc_public_key core_a) m_a)
    (Ha : mc_interfaces m_a !! name_a = Some st_a) (Hla : mc_listeners m_a !! name_a = Some l_a)
    (Hport : is_u16 (li_port l_a)) (Hhash : bytes_wf (is_hash st_a) /\ length (is_hash st_a) = 64%nat)
    (Hka : lc_public_key core_a = sk_verifying_key_bytes (lc_signing_key core_a) /\ key_wf (lc_public_key core_a))
    (Hkb : lc_public_key core_b = sk_verifying_key_bytes (lc_signing_key core_b) /\ key_wf (lc_public_key core_b))
    (Hne : lc_public_key core_a <> lc_public_key core_b)
    (Hprio : is_u8 (is_priority st_a) /\ is_u8 (is_priority st_b))
    (Hb : ifaces_b !! name_b = Some st_b) (Hlis : is_listen st_b = true) (Hidx : is_index st_b = scope)
    (Huniq : forall name st, ifaces_b !! name = Some st -> is_listen st = true -> is_index st = scope -> name = name_b)
    (Hfree : has_key_addr (lc_public_key core_a) (SockV6 ip (li_port l_a) 0 scope) active_b = false)
    (Hpw : forall data, is_Some (blake2b_mac512 (is_password st_b) data)) :
  let beacon := Advertisement_encode (own_beacon (lc_public_key core_a) (li_port l_a) (is_hash st_a)) in
  let d := mkDiscovery (SockV6 ip (li_port l_a) 0 scope) name_b (multicast_options (is_priority st_b) (is_password st_b)) in
  (receives (lc_public_key core_b) active_b ifaces_b (SockV6 ip p f scope) beacon = Ret (Some d)
     <-> auth_hash (lc_public_key core_a) (is_password st_b) = Ret (is_hash st_a))
  /\ (is_password st_b = is_password st_a ->
        receives (lc_public_key core_b) active_b ifaces_b (SockV6 ip p f scope) beacon = Ret (Some d)
        /\ (forall oc now now' s uri rest, end_ready Ephemeral (lc_public_key core_a) core_b s active_b now ->
             exists sent, encode (own_meta core_a (li_options l_a)) (lc_signing_key core_a) (lo_password (li_options l_a)) = Ret sent /\
               (ls_bytes s = sent ++ rest -> exists active', handle oc now now' Ephemeral (dc_options d) s core_b uri active_b =
                  Ret (Ok (mkAcceptedLink (al_next_id active_b) (lc_public_key core_a) (Z.max (is_priority st_b) (is_priority st_a)) rest), active')))
        /\ (forall oc now now' s uri rest, end_ready Incoming (lc_public_key core_b) core_a s active_a now ->
             exists sent, encode (own_meta core_b (dc_options d)) (lc_signing_key core_b) (lo_password (dc_options d)) = Ret sent /\
               (ls_bytes s = sent ++ rest -> exists active', handle oc now now' Incoming (li_options l_a) s core_a uri active_a =
                  Ret (Ok (mkAcceptedLink (al_next_id active_a) (lc_public_key core_b) (Z.max (is_priority st_a) (is_priority st_b)) rest), active')))).
Proof using L.
  intros beacon d. destruct Hhash as [Hhb Hhl], Hka as [Hka Hkaw], Hkb as [Hkb Hkbw], Hprio as [Hpa Hpb].
  assert (Hwf : adv_wf (own_beacon (lc_public_key core_a) (li_port l_a) (is_hash st_a))).
  { split_and!; cbn; try done. by rewrite Hhl. }
  destruct (hash_returns blake2b512 blake2b_mac512 _ (lc_public_key core_a) Hpw) as [h Hh].
  change (auth_hash (lc_public_key core_a) (is_password st_b) = Ret h) in Hh.
  pose proof (receive_beacon _ _ _ _ active_b ifaces_b ip p f scope name_b st_b h [] Hwf Hne Hfree Hb Hlis Hidx Huniq Hh) as Hr.
  rewrite app_nil_r in Hr. fold beacon d in Hr. rewrite Hr, Hh. split.
  - case_bool_decide as E; [by subst|]. split; [done|]. intros [= ->]. done.
  - intros Hsame. pose proof (mo_listeners _ _ Hm name_a) as Ho. rewrite Ha, Hla in Ho.
    destruct (Ho l_a eq_refl) as [_ Hopt]. rewrite Hopt.
    pose proof (io_hash _ _ (mo_ifaces _ _ Hm _ _ Ha)) as Hha. rewrite <- Hsame, Hh in Hha. injection Hha as ->.
    rewrite bool_decide_true by done. split_and!; [done| |]; intros oc now now' s uri rest Hready; rewrite <- ?Hsame.
    + by apply end_links.
    + apply end_links; try done.
Qed.
End ToLink.
End Facts.

(** ** Witnesses *)

Definition sample_pattern : MulticastInterfaceConfig := mkMulticastInterfaceConfig "*" true true 0 3 [112; 119].
Definition all_match (_ _ : string) : bool := true.
Definition link_local (n : Z) : Z := Z.shiftl 65152 112 + n.
Definition sample_entries : list IfEntry :=
  [mkIfEntry "lo" (Some 1) true true true false true (Some 1);
   mkIfEntry "eth0" (Some 2) true true true false false (Some (link_local 5));
   mkIfEntry "tun0" (Some 3) true true true true false (Some (link_local 6))].
Definition sample_hash (pk password : bytes) : bytes := toy_hash (password ++ pk).
Definition sample_state (sk index : Z) (addrs : list Z) : InterfaceState :=
  pattern_state (toy_key sk) sample_pattern (sample_hash (toy_key sk) [112; 119]) index addrs 0.
Definition sample_round : Round :=
  mkRound 0 (fun _ _ _ _ => Some 4242) (fun _ => (1000000000, 1000000001)) {["eth0" := sample_state 5 2 [link_local 5]]}.

Lemma toy_key_wf n : key_wf (toy_key n).
Proof. split; [done|]. apply Forall_replicate. apply Z.mod_pos_bound. lia. Qed.

Lemma sample_beacon_wf : adv_wf (own_beacon (toy_key 5) 9001 [7; 8]).
Proof.
  split_and!; cbn; try (unfold is_u16, PROTOCOL_VERSION_MAJOR, PROTOCOL_VERSION_MINOR; lia).
  - apply toy_key_wf.
  - by repeat constructor.
Qed.

Lemma advertisement_codec_witness :
  let a := own_beacon (toy_key 5) 9001 [7; 8] in
  Advertisement_decode (Advertisement_encode a ++ [1]) = Ok a
  /\ Advertisement_decode [0; 0] = Err AdvTooShort.
Proof.
  intros a. split; [|reflexivity]. apply (advertisement_codec [1] a).
  - by repeat constructor.
  - exact sample_beacon_wf.
Defined.

Lemma sample_hashable : hashable toy_hash toy_mac (toy_key 5) [sample_pattern] (sample_hash (toy_key 5)).
Proof. repeat constructor. Qed.

Lemma discovery_exact_witness :
  exists r, @discover_interfaces id_order all_match toy_hash toy_mac (toy_key 5) [sample_pattern] 0 (Some sample_entries) = Ret r
    /\ r !! "eth0" = Some (sample_state 5 2 [link_local 5]).
Proof.
  destruct (@discovery_exact id_order all_match toy_hash toy_mac (toy_key 5) [sample_pattern] (sample_hash (toy_key 5)) 0
    sample_entries sample_hashable) as (r & Hr & Hl).
  exists r. split; [exact Hr|]. apply Hl. exists sample_pattern. by split_and!.
Defined.

Lemma sample_round_ok : @round_ok toy_hash toy_mac (toy_key 5) sample_round.
Proof. unfold round_ok, sample_round. cbn. by apply map_Forall_singleton. Qed.

Lemma sample_rounds : exists l st, let m := fst (@round id_order (toy_key 5) Multicast_empty sample_round) in
  mc_listeners m !! "eth0" = Some l /\ mc_interfaces m !! "eth0" = Some st /\ li_port l = 4242.
Proof. eexists _, _. by vm_compute. Qed.

Lemma monitor_rounds_ok_witness :
  let '(m, acts) := @round id_order (toy_key 5) Multicast_empty sample_round in
  mc_ok toy_hash toy_mac (toy_key 5) m
  /\ acts = [McJoin 2 (link_local 5);
             McBeacon 2 (Advertisement_encode (own_beacon (toy_key 5) 4242 (sample_hash (toy_key 5) [112; 119])))].
Proof.
  pose proof (@monitor_rounds_ok id_order toy_hash toy_mac (toy_key 5) [] sample_round
    ltac:(repeat constructor; apply sample_round_ok)) as Hk. cbv zeta in Hk. cbn [rounds foldl] in Hk.
  destruct (@round id_order (toy_key 5) Multicast_empty sample_round) as [m acts] eqn:Hr.
  split; [apply Hk|]. change acts with (snd (m, acts)). rewrite <- Hr. by vm_compute.
Defined.

Lemma beacon_schedule_witness :
  beacons (toy_key 5) "eth0" Multicast_empty [sample_round] (H := id_order) = [(1000000000, 1000000001)]
  /\ spaced 0 (- 60 * one_second) (beacons (toy_key 5) "eth0" Multicast_empty [sample_round] (H := id_order)).
Proof.
  split; [by vm_compute|].
  apply (@beacon_schedule id_order toy_hash toy_mac (toy_key 5) Multicast_empty "eth0" [sample_round]).
  - by apply empty_mc_ok.
  - reflexivity.
  - repeat constructor. apply sample_round_ok.
  - repeat constructor. by eexists.
Defined.

Definition sample_m : Multicast := fst (@round id_order (toy_key 5) Multicast_empty sample_round).
Definition sample_ifaces : gmap string InterfaceState := {["wlan0" := sample_state 6 4 [link_local 9]]}.
Definition sample_beacon : bytes :=
  Advertisement_encode (own_beacon (toy_key 5) 4242 (sample_hash (toy_key 5) [112; 119])).
Definition sample_discovery : Discovery :=
  mkDiscovery (SockV6 77 4242 0 4) "wlan0" (multicast_options 3 [112; 119]).

Lemma discovery_sound_witness : exists adv,
  Advertisement_decode sample_beacon = Ok adv /\ av_public_key adv = toy_key 5 /\ av_public_key adv <> toy_key 6.
Proof.
  assert (Hr : @receive id_order toy_hash toy_mac (toy_key 6) (ActiveLinks_new 1) sample_ifaces (SockV6 77 1 0 4) sample_beacon
    = Ret (Some sample_discovery)) by (by vm_compute).
  destruct (@discovery_sound id_order toy_hash toy_mac (toy_key 6) (ActiveLinks_new 1) sample_ifaces (SockV6 77 1 0 4)
    sample_beacon sample_discovery Hr) as (adv & name & st & ip & port & fl & sc & _ & Hd & _ & _ & Hne & _).
  exists adv. split; [exact Hd|]. split; [|exact Hne]. vm_compute in Hd. by injection Hd as <-.
Defined.

Lemma sample_m_ok : mc_ok toy_hash toy_mac (toy_key 5) sample_m.
Proof. apply round_mc_ok; [apply empty_mc_ok|apply sample_round_ok]. Qed.

Lemma beacon_to_link_witness :
  @receive id_order toy_hash toy_mac (toy_key 6) (ActiveLinks_new 1) sample_ifaces (SockV6 77 1 0 4) sample_beacon
    = Ret (Some sample_discovery)
  /\ exists sent, @Metadata_encode toy_dalek toy_hash toy_mac
       (own_meta (toy_core 6) (multicast_options 3 [112; 119])) 6 [112; 119] = Ret sent.
Proof.
  assert (Hl : exists st l, mc_interfaces sample_m !! "eth0" = Some st /\ mc_listeners sample_m !! "eth0" = Some l
    /\ li_port l = 4242 /\ is_hash st = sample_hash (toy_key 5) [112; 119] /\ is_priority st = 3 /\ is_password st = [112; 119]).
  { eexists _, _. by vm_compute. }
  destruct Hl as (st & l & Hst & Hl & Hp & Hh & Hpr & Hpw).
  destruct (@beacon_to_link id_order toy_hash toy_mac toy_dalek toy_dalek_laws (fun _ => None) (toy_core 5) (toy_core 6)
    sample_m "eth0" st l (ActiveLinks_new 1) (ActiveLinks_new 1) sample_ifaces 77 1 0 4 "wlan0" (sample_state 6 4 [link_local 9]))
    as [_ Hgo].
  - apply sample_m_ok.
  - exact Hst.
  - exact Hl.
  - rewrite Hp. unfold is_u16. lia.
  - rewrite Hh. split; [apply (bool_decide_unpack _); by vm_compute|by vm_compute].
  - split; [reflexivity|apply toy_key_wf].
  - split; [reflexivity|apply toy_key_wf].
  - apply (bool_decide_unpack _). by vm_compute.
  - rewrite Hpr. split; unfold is_u8; cbn; lia.
  - apply lookup_singleton_eq.
  - reflexivity.
  - reflexivity.
  - intros name st' Hs. unfold sample_ifaces in Hs. by apply lookup_singleton_Some in Hs as [<- _].
  - rewrite Hp. by vm_compute.
  - intros data. by eexists.
  - destruct (Hgo ltac:(by rewrite Hpw)) as (Hr & _ & Hin). rewrite Hp, Hh in Hr. split; [exact Hr|].
    destruct (Hin true 0 1 (toy_stream 6) "tls://x" []) as (sent & Hs & _); [|by exists sent].
    split; [intros c k Hc; discriminate Hc|]. split; [intros _; by left|]. split; [split; reflexivity|].
    split; [reflexivity|]. split_and!; [reflexivity|intros _; right; by vm_compute|by vm_compute|by vm_compute].
Defined.
