(* ===== verification/Proto.v ===== *)
(** * Proto: queries between nodes

    Models [crates/yggdrasil/src/proto.rs] and [handle_inbound_proto] of
    [crates/yggdrasil/src/core.rs]: the requests and responses carried in session
    frames of type [TYPE_SESSION_PROTO], the table of callbacks of each kind of
    request, and what a node queries of its router to answer. A callback is the
    number of its request; dropping its sender is the result [Cancelled]. JSON is
    written and read by serde, which are parameters. *)

From S2P Require Import Prelude.
From S2P Require Import Wire.
From S2P Require Import Address.
From S2P Require Import Firewall.
From S2P Require Import Ckr.
From S2P Require Import Rwc.
From stdpp Require Import options.
Open Scope Z_scope.

Definition TYPE_PROTO_NODEINFO_REQUEST : Z := 1.
Definition TYPE_PROTO_NODEINFO_RESPONSE : Z := 2.
Definition TYPE_PROTO_DEBUG : Z := 255.
Definition TYPE_DEBUG_GET_SELF_REQUEST : Z := 1.
Definition TYPE_DEBUG_GET_SELF_RESPONSE : Z := 2.
Definition TYPE_DEBUG_GET_PEERS_REQUEST : Z := 3.
Definition TYPE_DEBUG_GET_PEERS_RESPONSE : Z := 4.
Definition TYPE_DEBUG_GET_TREE_REQUEST : Z := 5.
Definition TYPE_DEBUG_GET_TREE_RESPONSE : Z := 6.

(** Nanoseconds. *)
Definition REQUEST_TIMEOUT : Z := 6000000000.
Definition CLEANUP_INTERVAL : Z := 30000000000.
Definition CALLBACK_TIMEOUT : Z := 60000000000.

(** ** What a message needs of the router *)

Record ProtoNeeds := mkProtoNeeds { pn_routing_entries : bool; pn_peer_keys : bool; pn_tree_keys : bool }.

Definition proto_needs (payload : bytes) : ProtoNeeds :=
  let needs := mkProtoNeeds false false false in
  if negb (bool_decide (head payload = Some TYPE_PROTO_DEBUG)) then needs
  else match payload !! 1%nat with
  | Some t =>
      if t =? TYPE_DEBUG_GET_SELF_REQUEST then mkProtoNeeds true false false
      else if t =? TYPE_DEBUG_GET_PEERS_REQUEST then mkProtoNeeds false true false
      else if t =? TYPE_DEBUG_GET_TREE_REQUEST then mkProtoNeeds false false true
      else needs
  | None => needs
  end.

(** ** The handler *)

Inductive Kind := GetSelf | GetPeers | GetTree | NodeInfo.
#[export] Instance Kind_eq_dec : EqDecision Kind.
Proof. solve_decision. Defined.

Inductive Completion := Answered (data : bytes) | Cancelled.

(** The four maps, from the key asked to the callback and its creation.
    [ph_requests] numbers the requests made and [ph_results] holds what became of
    those whose sender is used up. *)
Record ProtoHandler := mkProtoHandler {
  ph_self_callbacks : gmap PublicKey (nat * Z);
  ph_peers_callbacks : gmap PublicKey (nat * Z);
  ph_tree_callbacks : gmap PublicKey (nat * Z);
  ph_nodeinfo_callbacks : gmap PublicKey (nat * Z);
  ph_requests : list (Kind * PublicKey);
  ph_results : gmap nat Completion
}.
#[export] Instance ProtoHandler_eta : Settable ProtoHandler := fun h =>
  mkProtoHandler (ph_self_callbacks h) (ph_peers_callbacks h) (ph_tree_callbacks h) (ph_nodeinfo_callbacks h)
    (ph_requests h) (ph_results h).

Definition ProtoHandler_new : ProtoHandler := mkProtoHandler ∅ ∅ ∅ ∅ [] ∅.

Definition callbacks (k : Kind) (h : ProtoHandler) : gmap PublicKey (nat * Z) :=
  match k with
  | GetSelf => ph_self_callbacks h
  | GetPeers => ph_peers_callbacks h
  | GetTree => ph_tree_callbacks h
  | NodeInfo => ph_nodeinfo_callbacks h
  end.

Definition set_callbacks (k : Kind) (m : gmap PublicKey (nat * Z)) (h : ProtoHandler) : ProtoHandler :=
  match k with
  | GetSelf => h <| ph_self_callbacks := m |>
  | GetPeers => h <| ph_peers_callbacks := m |>
  | GetTree => h <| ph_tree_callbacks := m |>
  | NodeInfo => h <| ph_nodeinfo_callbacks := m |>
  end.

Definition complete (id : nat) (c : Completion) (h : ProtoHandler) : ProtoHandler :=
  h <| ph_results ::= <[id := c]> |>.

(** The responses: the callback of the sender is removed and called. *)
Definition handle_reply (k : Kind) (from_key : PublicKey) (data : bytes) (h : ProtoHandler) : ProtoHandler :=
  match callbacks k h !! from_key with
  | Some (id, _) => complete id (Answered data) (set_callbacks k (delete from_key (callbacks k h)) h)
  | None => h
  end.

Section Proto.
(** [serde_json::to_vec] of the answer to [GetSelf], from the key and the number
    of routing entries; [serde_json::from_slice]. *)
Context (self_json : PublicKey -> Z -> option bytes) {JsonValue : Type} (from_slice : bytes -> option JsonValue).

(** The keys of the requests and responses. *)
Definition keys_response (subtype : Z) (keys : list PublicKey) : bytes := TYPE_PROTO_DEBUG :: subtype :: concat keys.

Definition handle_debug_message (from_key : PublicKey) (debug_type : Z) (data : bytes) (our_key : PublicKey)
    (routing_entries : Z) (get_peers_keys get_tree_keys : list PublicKey) (h : ProtoHandler)
    : option (PublicKey * bytes) * ProtoHandler :=
  if debug_type =? TYPE_DEBUG_GET_SELF_REQUEST then
    (json_bytes ← self_json our_key routing_entries;
     Some (from_key, TYPE_PROTO_DEBUG :: TYPE_DEBUG_GET_SELF_RESPONSE :: json_bytes), h)
  else if debug_type =? TYPE_DEBUG_GET_SELF_RESPONSE then (None, handle_reply GetSelf from_key data h)
  else if debug_type =? TYPE_DEBUG_GET_PEERS_REQUEST then
    (Some (from_key, keys_response TYPE_DEBUG_GET_PEERS_RESPONSE get_peers_keys), h)
  else if debug_type =? TYPE_DEBUG_GET_PEERS_RESPONSE then (None, handle_reply GetPeers from_key data h)
  else if debug_type =? TYPE_DEBUG_GET_TREE_REQUEST then
    (Some (from_key, keys_response TYPE_DEBUG_GET_TREE_RESPONSE get_tree_keys), h)
  else if debug_type =? TYPE_DEBUG_GET_TREE_RESPONSE then (None, handle_reply GetTree from_key data h)
  else (None, h).

Definition handle_nodeinfo_request (from_key : PublicKey) (nodeinfo_json : bytes) : option (PublicKey * bytes) :=
  Some (from_key, TYPE_PROTO_NODEINFO_RESPONSE :: nodeinfo_json).

Definition handle_proto_message (from_key : PublicKey) (payload : bytes) (our_key : PublicKey) (routing_entries : Z)
    (get_peers_keys get_tree_keys : list PublicKey) (nodeinfo_json : bytes) (h : ProtoHandler)
    : option (PublicKey * bytes) * ProtoHandler :=
  match payload with
  | [] => (None, h)
  | proto_type :: rest =>
      if proto_type =? TYPE_PROTO_DEBUG then
        match rest with
        | [] => (None, h)
        | debug_type :: data =>
            handle_debug_message from_key debug_type data our_key routing_entries get_peers_keys get_tree_keys h
        end
      else if proto_type =? TYPE_PROTO_NODEINFO_REQUEST then (handle_nodeinfo_request from_key nodeinfo_json, h)
      else if proto_type =? TYPE_PROTO_NODEINFO_RESPONSE then (None, handle_reply NodeInfo from_key rest h)
      else (None, h)
  end.

(** The state a node answers from. *)
Record NodeView := mkNodeView {
  nv_key : PublicKey;
  nv_routing_entries : Z;
  nv_peer_keys : list PublicKey;
  nv_tree_keys : list PublicKey;
  nv_nodeinfo : bytes
}.

(** [handle_inbound_proto]: only what the message needs is queried. *)
Definition handle_inbound_proto (v : NodeView) (from_key : PublicKey) (payload : bytes) (h : ProtoHandler)
    : option (PublicKey * bytes) * ProtoHandler :=
  let needs := proto_needs payload in
  let routing_entries := if pn_routing_entries needs then nv_routing_entries v else 0 in
  let peer_keys := if pn_peer_keys needs then nv_peer_keys v else [] in
  let tree_keys := if pn_tree_keys needs then nv_tree_keys v else [] in
  handle_proto_message from_key payload (nv_key v) routing_entries peer_keys tree_keys (nv_nodeinfo v) h.

(** The task that sends: the session type goes in front. *)
Definition proto_frame (msg : bytes) : bytes := TYPE_SESSION_PROTO :: msg.

(** ** Requests *)

Definition request_message (k : Kind) : bytes :=
  match k with
  | GetSelf => [TYPE_PROTO_DEBUG; TYPE_DEBUG_GET_SELF_REQUEST]
  | GetPeers => [TYPE_PROTO_DEBUG; TYPE_DEBUG_GET_PEERS_REQUEST]
  | GetTree => [TYPE_PROTO_DEBUG; TYPE_DEBUG_GET_TREE_REQUEST]
  | NodeInfo => [TYPE_PROTO_NODEINFO_REQUEST]
  end.

(** The first half of the four [send_*_request]: the callback replaces, and
    thereby drops, one that is waiting for the same key. *)
Definition send_request (k : Kind) (target_key : PublicKey) (now : Z) (h : ProtoHandler)
    : nat * (PublicKey * bytes) * ProtoHandler :=
  let id := length (ph_requests h) in
  let h' := match callbacks k h !! target_key with Some (old, _) => complete old Cancelled h | None => h end in
  (id, (target_key, request_message k),
   (set_callbacks k (<[target_key := (id, now)]> (callbacks k h)) h') <| ph_requests ::= (fun l => l ++ [(k, target_key)]) |>).

(** [chunks_exact(32)]: a shorter rest is left out. *)
Fixpoint chunks_exact (fuel : nat) (n : nat) (data : bytes) : list bytes :=
  match fuel with
  | O => []
  | S fuel => if (length data <? n)%nat then [] else take n data :: chunks_exact fuel n (drop n data)
  end.
Definition parse_keys (data : bytes) : list PublicKey := chunks_exact (length data) 32 data.

Inductive QueryError := InvalidJson | RequestCancelled | RequestTimeout.
Inductive Reply := JsonReply (v : JsonValue) | KeysReply (keys : list PublicKey).

(** The second half: what the request makes of an answer. *)
Definition parse_reply (k : Kind) (data : bytes) : result QueryError Reply :=
  match k with
  | GetSelf | NodeInfo => match from_slice data with Some v => Ok (JsonReply v) | None => Err InvalidJson end
  | GetPeers | GetTree => Ok (KeysReply (parse_keys data))
  end.

(** A poll of [timeout(REQUEST_TIMEOUT, rx)] that began at [since]: the channel is
    looked at first, then the clock. *)
Definition poll_reply (k : Kind) (id : nat) (since now : Z) (h : ProtoHandler) : option (result QueryError Reply) :=
  match ph_results h !! id with
  | Some (Answered data) => Some (parse_reply k data)
  | Some Cancelled => Some (Err RequestCancelled)
  | None => if since + REQUEST_TIMEOUT <=? now then Some (Err RequestTimeout) else None
  end.

(** ** Clean-up *)

Definition fresh (now : Z) (cb : nat * Z) : Prop := elapsed now (snd cb) < CALLBACK_TIMEOUT.
#[local] Instance fresh_dec now cb : Decision (fresh now cb).
Proof. unfold fresh. apply _. Defined.

(** [retain] on one map: the senders dropped are cancelled. *)
Definition retain_fresh (now : Z) (k : Kind) (h : ProtoHandler) : ProtoHandler :=
  let m := callbacks k h in
  let dropped := map_to_list (filter (fun p => ~ fresh now p.2) m) in
  foldl (fun h '(_, (id, _)) => complete id Cancelled h)
    (set_callbacks k (filter (fun p => fresh now p.2) m) h) dropped.

Definition cleanup_expired (now : Z) (h : ProtoHandler) : ProtoHandler :=
  retain_fresh now NodeInfo (retain_fresh now GetTree (retain_fresh now GetPeers (retain_fresh now GetSelf h))).

(** ** Messages and the table *)

Lemma callbacks_set k k' m h : callbacks k (set_callbacks k' m h) = if decide (k = k') then m else callbacks k h.
Proof. by destruct k, k'. Qed.
Lemma requests_set k m h : ph_requests (set_callbacks k m h) = ph_requests h.
Proof. by destruct k. Qed.
Lemma results_set k m h : ph_results (set_callbacks k m h) = ph_results h.
Proof. by destruct k. Qed.
Lemma callbacks_complete k id c h : callbacks k (complete id c h) = callbacks k h.
Proof. by destruct k. Qed.
Lemma callbacks_requests k f h : callbacks k (h <| ph_requests ::= f |>) = callbacks k h.
Proof. by destruct k. Qed.

(** What a payload is a response to. *)
Definition response_of (payload : bytes) : option (Kind * bytes) :=
  match payload with
  | t :: rest =>
      if t =? TYPE_PROTO_DEBUG then
        match rest with
        | d :: data =>
            if d =? TYPE_DEBUG_GET_SELF_RESPONSE then Some (GetSelf, data)
            else if d =? TYPE_DEBUG_GET_PEERS_RESPONSE then Some (GetPeers, data)
            else if d =? TYPE_DEBUG_GET_TREE_RESPONSE then Some (GetTree, data)
            else None
        | [] => None
        end
      else if t =? TYPE_PROTO_NODEINFO_RESPONSE then Some (NodeInfo, rest) else None
  | [] => None
  end.

Definition response_payload (k : Kind) (data : bytes) : bytes :=
  match k with
  | GetSelf => TYPE_PROTO_DEBUG :: TYPE_DEBUG_GET_SELF_RESPONSE :: data
  | GetPeers => TYPE_PROTO_DEBUG :: TYPE_DEBUG_GET_PEERS_RESPONSE :: data
  | GetTree => TYPE_PROTO_DEBUG :: TYPE_DEBUG_GET_TREE_RESPONSE :: data
  | NodeInfo => TYPE_PROTO_NODEINFO_RESPONSE :: data
  end.

(** What a node answers. *)
Definition answer (v : NodeView) (k : Kind) : option bytes :=
  match k with
  | GetSelf => self_json (nv_key v) (nv_routing_entries v)
  | GetPeers => Some (concat (nv_peer_keys v))
  | GetTree => Some (concat (nv_tree_keys v))
  | NodeInfo => Some (nv_nodeinfo v)
  end.

Lemma response_of_spec payload k data : response_of payload = Some (k, data) <-> payload = response_payload k data.
Proof.
  split; [|by intros ->; destruct k].
  destruct payload as [|t [|d rest]]; simpl; [done| |].
  - destruct (Z.eqb_spec t TYPE_PROTO_DEBUG); [done|]. destruct (Z.eqb_spec t TYPE_PROTO_NODEINFO_RESPONSE) as [->|]; [|done].
    by intros [= <- <-].
  - destruct (Z.eqb_spec t TYPE_PROTO_DEBUG) as [->|].
    + destruct (Z.eqb_spec d TYPE_DEBUG_GET_SELF_RESPONSE) as [->|]; [by intros [= <- <-]|].
      destruct (Z.eqb_spec d TYPE_DEBUG_GET_PEERS_RESPONSE) as [->|]; [by intros [= <- <-]|].
      destruct (Z.eqb_spec d TYPE_DEBUG_GET_TREE_RESPONSE) as [->|]; [by intros [= <- <-]|done].
    + destruct (Z.eqb_spec t TYPE_PROTO_NODEINFO_RESPONSE) as [->|]; [by intros [= <- <-]|done].
Qed.

(** A message touches the table exactly as a response. *)
Lemma inbound_state v from payload h : snd (handle_inbound_proto v from payload h) =
  match response_of payload with Some (k, data) => handle_reply k from data h | None => h end.
Proof.
  unfold handle_inbound_proto, handle_proto_message, handle_debug_message, response_of.
  destruct payload as [|t rest]; [done|]. destruct (Z.eqb_spec t TYPE_PROTO_DEBUG) as [->|].
  - destruct rest as [|d data]; [done|].
    destruct (Z.eqb_spec d TYPE_DEBUG_GET_SELF_REQUEST) as [->|]; [by destruct (self_json _ _)|].
    destruct (d =? TYPE_DEBUG_GET_SELF_RESPONSE); [done|].
    destruct (Z.eqb_spec d TYPE_DEBUG_GET_PEERS_REQUEST) as [->|]; [done|].
    destruct (d =? TYPE_DEBUG_GET_PEERS_RESPONSE); [done|].
    destruct (Z.eqb_spec d TYPE_DEBUG_GET_TREE_REQUEST) as [->|]; [done|].
    by destruct (d =? TYPE_DEBUG_GET_TREE_RESPONSE).
  - destruct (Z.eqb_spec t TYPE_PROTO_NODEINFO_REQUEST) as [->|]; [done|]. by destruct (t =? TYPE_PROTO_NODEINFO_RESPONSE).
Qed.

Lemma inbound_answer v from k h : fst (handle_inbound_proto v from (request_message k) h) =
  (fun data => (from, response_payload k data)) <$> answer v k.
Proof. destruct k; simpl; [|done..]. unfold handle_inbound_proto. simpl. by destruct (self_json _ _). Qed.

(** Asking the router only for what a message needs loses nothing:
    whatever the payload, the node's reaction is the one it would have with
    everything queried. *)
Theorem needs_exact v from payload h :
  handle_inbound_proto v from payload h
  = handle_proto_message from payload (nv_key v) (nv_routing_entries v) (nv_peer_keys v) (nv_tree_keys v) (nv_nodeinfo v) h.
Proof.
  unfold handle_inbound_proto, handle_proto_message, handle_debug_message, proto_needs.
  destruct payload as [|t rest]; [done|].
  destruct (bool_decide_reflect (head (t :: rest) = Some TYPE_PROTO_DEBUG)) as [[= ->]|Hne]; cbn [negb].
  - destruct rest as [|d data]; [done|]. cbn [lookup list_lookup].
    destruct (Z.eqb_spec d TYPE_DEBUG_GET_SELF_REQUEST) as [->|]; [done|].
    destruct (Z.eqb_spec d TYPE_DEBUG_GET_PEERS_REQUEST) as [->|]; [done|].
    by destruct (Z.eqb_spec d TYPE_DEBUG_GET_TREE_REQUEST) as [->|].
  - destruct (Z.eqb_spec t TYPE_PROTO_DEBUG) as [->|]; done.
Qed.

(** ** Runs *)

Inductive ProtoOp :=
| OpRequest (k : Kind) (target_key : PublicKey) (now : Z)
| OpMessage (v : NodeView) (from_key : PublicKey) (payload : bytes)
| OpCleanup (now : Z).

Definition proto_step (h : ProtoHandler) (op : ProtoOp) : ProtoHandler :=
  match op with
  | OpRequest k target now => snd (send_request k target now h)
  | OpMessage v from payload => snd (handle_inbound_proto v from payload h)
  | OpCleanup now => cleanup_expired now h
  end.
Definition proto_run (ops : list ProtoOp) (h : ProtoHandler) : ProtoHandler := foldl proto_step h ops.

(** The request waits while the handler does other things, and is polled now and
    then; the first poll that is ready ends it. *)
Inductive QueryEvent := Happens (op : ProtoOp) | Polled (now : Z).

Fixpoint await_reply (k : Kind) (id : nat) (since : Z) (evs : list QueryEvent) (h : ProtoHandler) : option (result QueryError Reply) :=
  match evs with
  | [] => None
  | Happens op :: evs => await_reply k id since evs (proto_step h op)
  | Polled now :: evs =>
      match poll_reply k id since now h with Some r => Some r | None => await_reply k id since evs h end
  end.

(** A request is waiting in its map, or has its one result. *)
Record proto_inv (h : ProtoHandler) : Prop := {
  pi_pending : forall k key id t, callbacks k h !! key = Some (id, t) ->
    ph_requests h !! id = Some (k, key) /\ ph_results h !! id = None;
  pi_results : forall id c, ph_results h !! id = Some c -> is_Some (ph_requests h !! id);
  pi_all : forall id k key, ph_requests h !! id = Some (k, key) ->
    (exists t, callbacks k h !! key = Some (id, t)) \/ is_Some (ph_results h !! id)
}.

(** Taking a callback out and giving its request a result. *)
Lemma settle_inv k key id t c h : proto_inv h -> callbacks k h !! key = Some (id, t) ->
  proto_inv (complete id c (set_callbacks k (delete key (callbacks k h)) h)).
Proof.
  intros [P R A] Hc. destruct (P _ _ _ _ Hc) as [Hreq Hres]. split.
  - intros k' key' id' t'. rewrite callbacks_complete, callbacks_set. cbn. rewrite requests_set, results_set.
    assert (Hne : id' <> id -> ph_requests h !! id' = Some (k', key') /\ ph_results h !! id' = None ->
      ph_requests h !! id' = Some (k', key') /\ <[id := c]> (ph_results h) !! id' = None)
      by (intros ? [? ?]; split; [done|by rewrite lookup_insert_ne]).
    case_decide as Hk.
    + subst k'. destruct (decide (key' = key)) as [->|Hkey]; [by rewrite lookup_delete_eq|]. rewrite lookup_delete_ne by done.
      intros Hc'. pose proof (P _ _ _ _ Hc') as Hp. apply Hne; [|done]. intros ->. destruct Hp as [Hp _]. congruence.
    + intros Hc'. pose proof (P _ _ _ _ Hc') as Hp. apply Hne; [|done]. intros ->. destruct Hp as [Hp _]. congruence.
  - intros id' c'. cbn. rewrite requests_set, results_set. destruct (decide (id' = id)) as [->|]; [by rewrite Hreq|].
    rewrite lookup_insert_ne by done. apply R.
  - intros id' k' key'. cbn. rewrite requests_set, results_set. intros Hr.
    destruct (decide (id' = id)) as [->|Hid]; [right; by rewrite lookup_insert_eq|].
    rewrite lookup_insert_ne by done. destruct (A _ _ _ Hr) as [[t' Ht]|?]; [left|by right].
    exists t'. change (callbacks k' (set_callbacks k (delete key (callbacks k h)) h) !! key' = Some (id', t')).
    rewrite callbacks_set. case_decide as Hk; [|done]. subst k'. rewrite lookup_delete_ne; [done|].
    intros ->. congruence.
Qed.

Lemma handle_reply_inv k from data h : proto_inv h -> proto_inv (handle_reply k from data h).
Proof.
  intros I. unfold handle_reply. destruct (callbacks k h !! from) as [[id t]|] eqn:Hc; [|done]. by eapply settle_inv.
Qed.

Lemma send_request_inv k target now h : proto_inv h -> proto_inv (snd (send_request k target now h)).
Proof.
  intros I. unfold send_request. cbn [snd].
  set (h0 := match callbacks k h !! target with
             | Some (old, _) => complete old Cancelled (set_callbacks k (delete target (callbacks k h)) h)
             | None => h end).
  assert (I0 : proto_inv h0).
  { unfold h0. destruct (callbacks k h !! target) as [[old t]|] eqn:Hc; [|done]. by eapply settle_inv. }
  assert (H0 : callbacks k h0 !! target = None /\ ph_requests h0 = ph_requests h
    /\ (forall k' key', (k', key') <> (k, target) -> callbacks k' h0 !! key' = callbacks k' h !! key')
    /\ ph_results (match callbacks k h !! target with Some (old, _) => complete old Cancelled h | None => h end) = ph_results h0).
  { unfold h0. destruct (callbacks k h !! target) as [[old t]|] eqn:Hc; [|done].
    rewrite callbacks_complete, callbacks_set, decide_True, lookup_delete_eq by done.
    split_and!; [done|by destruct k| |by destruct k].
    intros k' key' Hne. rewrite callbacks_complete, callbacks_set. case_decide; [|done]. subst k'.
    rewrite lookup_delete_ne; [done|]. by intros ->. }
  destruct H0 as (Hnone & Hrq & Hother & Hrs). clearbody h0. set (h1 := match callbacks k h !! target with Some _ => _ | None => h end) in *.
  assert (Hrq1 : ph_requests h1 = ph_requests h) by (unfold h1; by destruct (callbacks k h !! target) as [[]|]).
  assert (Hcb1 : forall k', callbacks k' h1 = callbacks k' h)
    by (intros k'; unfold h1; destruct (callbacks k h !! target) as [[]|]; [apply callbacks_complete|done]).
  assert (Hcb : forall k' key', callbacks k' ((set_callbacks k (<[target := (length (ph_requests h), now)]> (callbacks k h)) h1)
      <| ph_requests ::= (fun l => l ++ [(k, target)]) |>) !! key'
    = if decide ((k', key') = (k, target)) then Some (length (ph_requests h), now) else callbacks k' h0 !! key').
  { intros k' key'. rewrite callbacks_requests, callbacks_set. destruct (decide ((k', key') = (k, target))) as [[= -> ->]|Hne].
    - by rewrite decide_True, lookup_insert_eq.
    - rewrite (Hother _ _ Hne). case_decide as Hk; [|by rewrite Hcb1]. subst k'. rewrite lookup_insert_ne; [done|]. by intros ->. }
  clearbody h1. destruct I0 as [P R A]. rewrite Hrq in *. split.
  - intros k' key' id t. rewrite Hcb. cbn. rewrite requests_set, results_set, Hrq1, Hrs. case_decide as Hd.
    + injection Hd as -> ->. intros [= <- <-]. split; [by rewrite lookup_app_r, Nat.sub_diag by lia|].
      destruct (ph_results h0 !! length (ph_requests h)) as [c|] eqn:E; [|done].
      apply R in E as [? E]. apply lookup_lt_Some in E. lia.
    + intros Hc. destruct (P _ _ _ _ Hc) as [Hp ?]. split; [by apply lookup_app_l_Some|done].
  - intros id c. cbn. rewrite requests_set, results_set, Hrq1, Hrs. intros [x Hx]%R. rewrite lookup_app_l; [by eexists|].
    by apply lookup_lt_Some in Hx.
  - intros id k' key'. cbn. rewrite requests_set, results_set, Hrq1, Hrs. intros Hr. setoid_rewrite Hcb.
    apply lookup_app_Some in Hr as [Hr|[Hge Hr]].
    + destruct (A _ _ _ Hr) as [[t Ht]|?]; [left|by right]. exists t. rewrite decide_False; [done|]. intros [= -> ->]. congruence.
    + left. apply list_lookup_singleton_Some in Hr as [Hz [= <- <-]]. exists now. rewrite decide_True by done. repeat f_equal. lia.
Qed.

Definition dropped_ids (now : Z) (k : Kind) (h : ProtoHandler) : list nat :=
  (fun p => fst (snd p)) <$> map_to_list (filter (fun p => ~ fresh now p.2) (callbacks k h)).

Lemma elem_of_dropped now k h id :
  id ∈ dropped_ids now k h <-> exists key t, callbacks k h !! key = Some (id, t) /\ ~ fresh now (id, t).
Proof.
  unfold dropped_ids. rewrite list_elem_of_fmap. split.
  - intros ([key [i t]] & -> & Hin). apply elem_of_map_to_list, map_lookup_filter_Some in Hin as [? ?]. by exists key, t.
  - intros (key & t & Hc & Hf). exists (key, (id, t)). split; [done|].
    apply elem_of_map_to_list, map_lookup_filter_Some. done.
Qed.

Lemma retain_spec now k h : let h' := retain_fresh now k h in
  (forall k', callbacks k' h' = if decide (k' = k) then filter (fun p => fresh now p.2) (callbacks k h) else callbacks k' h)
  /\ ph_requests h' = ph_requests h
  /\ (forall id, ph_results h' !! id = if decide (id ∈ dropped_ids now k h) then Some Cancelled else ph_results h !! id).
Proof.
  unfold retain_fresh, dropped_ids. set (l := map_to_list (filter (fun p => ~ fresh now p.2) _)).
  assert (Hfold : forall (l : list (PublicKey * (nat * Z))) h0, let h' := foldl (fun h '(_, (id, _)) => complete id Cancelled h) h0 l in
    (forall k', callbacks k' h' = callbacks k' h0) /\ ph_requests h' = ph_requests h0
    /\ (forall id, ph_results h' !! id = if decide (id ∈ (fun p => fst (snd p)) <$> l) then Some Cancelled else ph_results h0 !! id)).
  { clear. induction l as [|[key [i t]] l IH]; intros h0; cbn [foldl].
    { split_and!; [done|done|]. intros id. by rewrite decide_False by apply not_elem_of_nil. }
    destruct (IH (complete i Cancelled h0)) as (Hc & Hr & Hs). split_and!; [|by rewrite Hr|].
    - intros k'. by rewrite Hc, callbacks_complete.
    - intros id. rewrite Hs, fmap_cons. cbn [fst snd].
      destruct (decide (id ∈ (fun p : PublicKey * (nat * Z) => fst (snd p)) <$> l)) as [Hin|Hin]; [rewrite decide_True by (by right); done|].
      cbn. destruct (decide (id = i)) as [->|Hne].
      + rewrite decide_True, lookup_insert_eq by left. done.
      + by rewrite decide_False, lookup_insert_ne by (done || by rewrite not_elem_of_cons). }
  destruct (Hfold l (set_callbacks k (filter (fun p => fresh now p.2) (callbacks k h)) h)) as (Hc & Hr & Hs).
  split_and!; [|by rewrite Hr, requests_set|].
  - intros k'. by rewrite Hc, callbacks_set.
  - intros id. by rewrite Hs, results_set.
Qed.

Lemma retain_inv now k h : proto_inv h -> proto_inv (retain_fresh now k h).
Proof.
  intros [P R A]. destruct (retain_spec now k h) as (Hc & Hr & Hs). split; setoid_rewrite Hr; setoid_rewrite Hs.
  - intros k' key id t. rewrite Hc. intros Hcb.
    assert (Hcb' : callbacks k' h !! key = Some (id, t) /\ (k' = k -> fresh now (id, t))).
    { case_decide as Hk; [|done]. subst k'. by apply map_lookup_filter_Some in Hcb as [? ?]. }
    destruct Hcb' as [Hcb' Hf]. destruct (P _ _ _ _ Hcb') as [Hq Hn]. split; [done|].
    rewrite decide_False; [done|]. intros (key2 & t2 & Hc2 & Hnf)%elem_of_dropped. destruct (P _ _ _ _ Hc2) as [Hq2 _].
    rewrite Hq in Hq2. injection Hq2 as -> ->. rewrite Hcb' in Hc2. injection Hc2 as ->. by apply Hnf, Hf.
  - intros id c. case_decide as Hd; [|by apply R]. intros _. apply elem_of_dropped in Hd as (key & t & Hcb & _).
    destruct (P _ _ _ _ Hcb) as [-> _]. done.
  - intros id k' key Hq. destruct (A _ _ _ Hq) as [[t Ht]|Hres]; [|right; by case_decide].
    destruct (decide (id ∈ dropped_ids now k h)) as [Hd|Hd]; [by right|left]. exists t. rewrite Hc. case_decide as Hk; [|done].
    subst k'. apply map_lookup_filter_Some. split; [done|]. destruct (decide (fresh now (id, t))) as [|Hnf]; [done|].
    exfalso. apply Hd, elem_of_dropped. by exists key, t.
Qed.

Lemma proto_step_inv h op : proto_inv h -> proto_inv (proto_step h op).
Proof.
  intros I. destruct op as [k target now|v from payload|now]; cbn [proto_step].
  - by apply send_request_inv.
  - rewrite inbound_state. destruct (response_of payload) as [[k data]|]; [by apply handle_reply_inv|done].
  - unfold cleanup_expired. by repeat apply retain_inv.
Qed.

Lemma proto_new_inv : proto_inv ProtoHandler_new.
Proof. split; [intros []; done|done|done]. Qed.

Lemma proto_run_inv ops h : proto_inv h -> proto_inv (proto_run ops h).
Proof. revert h. induction ops as [|op ops IH]; intros h I; [done|]. by apply IH, proto_step_inv. Qed.

(** ** Where an answer comes from *)

Lemma retain_answers now k h id data : ph_results (retain_fresh now k h) !! id = Some (Answered data) ->
  ph_results h !! id = Some (Answered data).
Proof. destruct (retain_spec now k h) as (_ & _ & Hs). rewrite Hs. by case_decide. Qed.

Lemma retain_requests now k h : ph_requests (retain_fresh now k h) = ph_requests h.
Proof. by destruct (retain_spec now k h) as (_ & -> & _). Qed.

Lemma step_requests h op : ph_requests h `prefix_of` ph_requests (proto_step h op).
Proof.
  destruct op as [k target now|v from payload|now]; cbn [proto_step].
  - unfold send_request. cbn. rewrite requests_set. apply prefix_app_r. by destruct (callbacks k h !! target) as [[]|].
  - rewrite inbound_state. destruct (response_of payload) as [[k data]|]; [|done]. unfold handle_reply.
    destruct (callbacks k h !! from) as [[]|]; [|done]. cbn. by rewrite requests_set.
  - unfold cleanup_expired. by rewrite !retain_requests.
Qed.

Lemma step_answers h op id data : proto_inv h -> ph_results (proto_step h op) !! id = Some (Answered data) ->
  ph_results h !! id = Some (Answered data)
  \/ exists k key v, ph_requests h !! id = Some (k, key) /\ op = OpMessage v key (response_payload k data).
Proof.
  intros I. destruct op as [k target now|v from payload|now]; cbn [proto_step].
  - unfold send_request. cbn. rewrite results_set. destruct (callbacks k h !! target) as [[old t]|]; [|by left].
    cbn. intros [[_ ?]|[_ ?]]%lookup_insert_Some; [done|by left].
  - rewrite inbound_state. destruct (response_of payload) as [[k d]|] eqn:Hr; [|by left]. unfold handle_reply.
    destruct (callbacks k h !! from) as [[i t]|] eqn:Hc; [|by left]. cbn. rewrite results_set.
    intros [[-> [= ->]]|[_ ?]]%lookup_insert_Some; [|by left]. right. exists k, from, v.
    apply response_of_spec in Hr as ->. by destruct (pi_pending _ I _ _ _ _ Hc).
  - unfold cleanup_expired. intros E. left. by do 4 apply retain_answers in E.
Qed.

(** Over any sequence of requests, inbound messages and clean-ups, every
    request is either waiting in the table of its kind under the key it was sent
    to, or has exactly one result, never both; and an answer is the data of a
    response of that kind that came from the very node that was asked. *)
Theorem queries_answered_once ops :
  let h := proto_run ops ProtoHandler_new in
  (forall id k key, ph_requests h !! id = Some (k, key) ->
     ((exists t, callbacks k h !! key = Some (id, t)) /\ ph_results h !! id = None)
     \/ (is_Some (ph_results h !! id) /\ forall k' key' t, callbacks k' h !! key' <> Some (id, t)))
  /\ (forall id data, ph_results h !! id = Some (Answered data) ->
        exists k key v, ph_requests h !! id = Some (k, key) /\ OpMessage v key (response_payload k data) ∈ ops).
Proof.
  intros h. pose proof (proto_run_inv ops _ proto_new_inv) as I. fold h in I. split.
  - intros id k key Hq. destruct (pi_all _ I _ _ _ Hq) as [[t Ht]|[c Hc]].
    + left. split; [by exists t|]. by destruct (pi_pending _ I _ _ _ _ Ht).
    + right. split; [by eexists|]. intros k' key' t Ht. destruct (pi_pending _ I _ _ _ _ Ht) as [_ E]. congruence.
  - subst h. clear I. induction ops as [|op ops IH] using rev_ind; [done|].
    unfold proto_run in *. rewrite foldl_app. cbn [foldl]. intros id data Hres.
    pose proof (proto_run_inv ops _ proto_new_inv) as I. unfold proto_run in I. set (h := foldl _ _ ops) in *.
    destruct (step_requests h op) as [more Hmore]. rewrite Hmore.
    destruct (step_answers h op id data I Hres) as [Ho|(k & key & v & Hq & ->)].
    + destruct (IH _ _ Ho) as (k & key & v & Hq & Hin). exists k, key, v. split; [by apply lookup_app_l_Some|].
      apply elem_of_app. by left.
    + exists k, key, v. split; [by apply lookup_app_l_Some|]. apply elem_of_app. right. by left.
Qed.

(** ** A query and its answer *)

Lemma chunks_concat (keys : list PublicKey) fuel : Forall (fun k => length k = 32%nat) keys ->
  (length keys <= fuel)%nat -> chunks_exact fuel 32 (concat keys) = keys.
Proof.
  intros Hk. revert fuel. induction Hk as [|key keys Hl _ IH]; intros fuel Hf.
  - by destruct fuel.
  - destruct fuel as [|fuel]; [cbn in Hf; lia|]. cbn [chunks_exact concat]. rewrite length_app, Hl.
    destruct (Nat.ltb_spec (32 + length (concat keys)) 32); [lia|].
    rewrite (take_app_exact _ _ 32), (drop_app_exact _ _ 32) by done. f_equal. apply IH. cbn in Hf. lia.
Qed.

Lemma parse_keys_concat (keys : list PublicKey) : Forall (fun k => length k = 32%nat) keys -> parse_keys (concat keys) = keys.
Proof.
  intros Hk. apply chunks_concat; [done|]. induction Hk as [|key keys Hl _ IH]; [done|]. cbn. rewrite length_app, Hl. lia.
Qed.

(** Operations that leave the request of kind [k] to [key], made at [t], waiting. *)
Definition leaves (k : Kind) (key : PublicKey) (t : Z) (op : ProtoOp) : Prop :=
  match op with
  | OpRequest k' key' _ => (k', key') <> (k, key)
  | OpMessage _ from payload => from = key -> forall data, payload <> response_payload k data
  | OpCleanup now => now - t < CALLBACK_TIMEOUT
  end.

Lemma retain_keeps now k' h k key id t : callbacks k h !! key = Some (id, t) -> now - t < CALLBACK_TIMEOUT ->
  callbacks k (retain_fresh now k' h) !! key = Some (id, t).
Proof.
  intros Hc Ht. destruct (retain_spec now k' h) as (Hcb & _). rewrite Hcb. case_decide as Hk; [|done]. subst k'.
  apply map_lookup_filter_Some. split; [done|]. unfold fresh, elapsed. cbn. unfold CALLBACK_TIMEOUT in *. lia.
Qed.

Lemma leaves_step k key id t op h : callbacks k h !! key = Some (id, t) -> leaves k key t op ->
  callbacks k (proto_step h op) !! key = Some (id, t).
Proof.
  intros Hc Hl. destruct op as [k' key' now|v from payload|now]; cbn [proto_step leaves] in *.
  - unfold send_request. cbn [snd]. rewrite callbacks_requests, callbacks_set. case_decide as Hk.
    + subst k'. rewrite lookup_insert_ne; [done|]. by intros ->.
    + destruct (callbacks k' h !! key') as [[]|]; [by rewrite callbacks_complete|done].
  - rewrite inbound_state. destruct (response_of payload) as [[k' data]|] eqn:Hr; [|done].
    apply response_of_spec in Hr as ->. unfold handle_reply. destruct (callbacks k' h !! from) as [[i s]|]; [|done].
    rewrite callbacks_complete, callbacks_set. case_decide as Hk; [|done]. subst k'. rewrite lookup_delete_ne; [done|].
    intros ->. by apply (Hl eq_refl data).
  - unfold cleanup_expired. by repeat apply retain_keeps.
Qed.

(** A result stays. *)
Lemma retain_result now k h id c : proto_inv h -> ph_results h !! id = Some c -> ph_results (retain_fresh now k h) !! id = Some c.
Proof.
  intros I Hr. destruct (retain_spec now k h) as (_ & _ & Hs). rewrite Hs, decide_False; [done|].
  intros (key & t & Hc & _)%elem_of_dropped. destruct (pi_pending _ I _ _ _ _ Hc) as [_ E]. congruence.
Qed.

Lemma result_stays op h id c : proto_inv h -> ph_results h !! id = Some c -> ph_results (proto_step h op) !! id = Some c.
Proof.
  intros I Hr. assert (forall k key i t, callbacks k h !! key = Some (i, t) -> i <> id) as Hne.
  { intros k key i t Hc ->. destruct (pi_pending _ I _ _ _ _ Hc) as [_ E]. congruence. }
  destruct op as [k target now|v from payload|now]; cbn [proto_step].
  - unfold send_request. cbn. rewrite results_set. destruct (callbacks k h !! target) as [[old t]|] eqn:Hc; [|done].
    cbn. rewrite lookup_insert_ne; [done|]. by eapply Hne.
  - rewrite inbound_state. destruct (response_of payload) as [[k d]|]; [|done]. unfold handle_reply.
    destruct (callbacks k h !! from) as [[i t]|] eqn:Hc; [|done]. cbn. rewrite results_set, lookup_insert_ne; [done|]. by eapply Hne.
  - unfold cleanup_expired. by repeat (apply retain_result; [by repeat apply retain_inv|]).
Qed.

Lemma await_result k id since h c now ops after : proto_inv h -> ph_results h !! id = Some c ->
  await_reply k id since (map Happens ops ++ Polled now :: after) h =
    Some (match c with Answered data => parse_reply k data | Cancelled => Err RequestCancelled end).
Proof.
  revert h. induction ops as [|op ops IH]; intros h I Hr; cbn [map app await_reply].
  - unfold poll_reply. rewrite Hr. by destruct c.
  - apply IH; [by apply proto_step_inv|by apply result_stays].
Qed.

(** Events that leave the request waiting: none answers, replaces or drops it, and
    the polls come before the deadline. *)
Definition waits (k : Kind) (key : PublicKey) (t since : Z) (ev : QueryEvent) : Prop :=
  match ev with Happens op => leaves k key t op | Polled now => now < since + REQUEST_TIMEOUT end.

Lemma await_waiting k key id t since before : Forall (waits k key t since) before -> forall h, proto_inv h ->
  callbacks k h !! key = Some (id, t) ->
  exists h', proto_inv h' /\ callbacks k h' !! key = Some (id, t) /\
    forall after, await_reply k id since (before ++ after) h = await_reply k id since after h'.
Proof.
  induction 1 as [|[op|now] before Hw _ IH]; intros h I Hc; cbn [app await_reply waits] in *.
  - by exists h.
  - apply IH; [by apply proto_step_inv|by apply leaves_step].
  - destruct (pi_pending _ I _ _ _ _ Hc) as [_ Hn]. destruct (IH h I Hc) as (h' & I' & Hc' & Hr). exists h'. split_and!; [done..|].
    intros after. unfold poll_reply. rewrite Hn. destruct (Z.leb_spec (since + REQUEST_TIMEOUT) now); [lia|]. apply Hr.
Qed.

Lemma request_waits k key now h : proto_inv h -> let '(id, (dest, msg), h1) := send_request k key now h in
  proto_inv h1 /\ callbacks k h1 !! key = Some (id, now) /\ dest = key /\ msg = request_message k /\ id = length (ph_requests h).
Proof.
  intros I. pose proof (send_request_inv k key now h I) as I1. unfold send_request in *. cbn [snd] in I1. split_and!; try done.
  by rewrite callbacks_requests, callbacks_set, decide_True, lookup_insert_eq.
Qed.

(** C33: A query gets the answer of the node it asks. The request of node A is
    a frame that node B's session layer hands to its protocol handler; B answers
    from its own state, addressed to A; and whatever A does in between, other
    queries to B included (but not a second one of the same kind, nor a clean-up more
    than a minute after the request), if B's answer comes in before the query is
    polled at its deadline of six seconds, the query returns what it says at its next
    poll: for peers and tree exactly B's list of keys. If the query is polled at or
    after the deadline without an answer, it ends with a timeout, whatever comes in
    later. A's handler is in any state that a history of requests, messages and
    clean-ups leaves. *)
Theorem remote_query k now history h_b v_a v_b key_a key_b data before since
    (Hdata : answer v_b k = Some data)
    (Hkeys : Forall (fun key => length key = 32%nat) (nv_peer_keys v_b ++ nv_tree_keys v_b))
    (Hbefore : Forall (waits k key_b now since) before) :
  let '(id, (dest, msg), h1) := send_request k key_b now (proto_run history ProtoHandler_new) in
  let resp := response_payload k data in
  dest = key_b /\ dispatch_frame (proto_frame msg) = FrameProto msg
  /\ handle_inbound_proto v_b key_a msg h_b = (Some (key_a, resp), h_b)
  /\ dispatch_frame (proto_frame resp) = FrameProto resp
  /\ (forall ops t after,
        await_reply k id since (before ++ Happens (OpMessage v_a key_b resp) :: map Happens ops ++ Polled t :: after) h1
        = Some (parse_reply k data))
  /\ (forall t after, since + REQUEST_TIMEOUT <= t ->
        await_reply k id since (before ++ Polled t :: after) h1 = Some (Err RequestTimeout))
  /\ match k with
     | GetPeers => parse_reply k data = Ok (KeysReply (nv_peer_keys v_b))
     | GetTree => parse_reply k data = Ok (KeysReply (nv_tree_keys v_b))
     | _ => True
     end.
Proof.
  pose proof (request_waits k key_b now _ (proto_run_inv history _ proto_new_inv)) as Hq.
  destruct (send_request k key_b now (proto_run history ProtoHandler_new)) as [[id [dest msg]] h1]. destruct Hq as (I1 & Hc & -> & -> & _).
  apply Forall_app in Hkeys as [Hp Ht]. destruct (await_waiting k key_b id now since before Hbefore h1 I1 Hc) as (h2 & I2 & Hc2 & Hw).
  cbv zeta. split_and!; [done|done| |done| | |].
  - rewrite (surjective_pairing (handle_inbound_proto _ _ _ _)), inbound_answer, Hdata, inbound_state. by destruct k.
  - intros ops t after. rewrite Hw. cbn [await_reply]. rewrite (await_result k id since _ (Answered data)); [done|by apply proto_step_inv|].
    cbn [proto_step]. rewrite inbound_state, (proj2 (response_of_spec _ k data) eq_refl). unfold handle_reply. rewrite Hc2. cbn.
    by rewrite results_set, lookup_insert_eq.
  - intros t after Hlate. rewrite Hw. cbn [await_reply]. unfold poll_reply. destruct (pi_pending _ I2 _ _ _ _ Hc2) as [_ ->].
    destruct (Z.leb_spec (since + REQUEST_TIMEOUT) t); [done|lia].
  - destruct k; [done| | |done]; injection Hdata as <-; cbn; by rewrite parse_keys_concat.
Qed.

(** Queries of one kind to one node exclude each other: the second one
    cancels the first, which fails at its next poll even if the node answers
    meanwhile. *)
Theorem second_query_cancels k key t1 t2 history before since ops t after
    (Hbefore : Forall (waits k key t1 since) before) :
  let '(id1, _, h1) := send_request k key t1 (proto_run history ProtoHandler_new) in
  await_reply k id1 since (before ++ Happens (OpRequest k key t2) :: map Happens ops ++ Polled t :: after) h1 = Some (Err RequestCancelled).
Proof.
  pose proof (request_waits k key t1 _ (proto_run_inv history _ proto_new_inv)) as Hq.
  destruct (send_request k key t1 (proto_run history ProtoHandler_new)) as [[id [dest msg]] h1]. destruct Hq as (I1 & Hc & -> & -> & _).
  destruct (await_waiting k key id t1 since before Hbefore h1 I1 Hc) as (h2 & I2 & Hc2 & Hw).
  rewrite Hw. cbn [await_reply]. rewrite (await_result k id since _ Cancelled); [done|by apply proto_step_inv|].
  cbn [proto_step]. unfold send_request. cbn [snd]. rewrite Hc2. cbn. rewrite results_set. cbn. by rewrite lookup_insert_eq.
Qed.
End Proto.

(** ** Witnesses *)

Definition key_of (n : Z) : PublicKey := replicate 32 n.
Definition sample_view : NodeView := mkNodeView (key_of 2) 7 [key_of 3; key_of 4] [key_of 1] [123; 125].

Lemma remote_query_witness :
  let h1 := snd (send_request GetPeers (key_of 2) 0 ProtoHandler_new) in
  await_reply (fun _ _ => None) (JsonValue := unit) (fun _ => None) GetPeers 0 1
    [Happens (OpRequest GetTree (key_of 2) 5); Polled 6; Happens (OpCleanup 9);
     Happens (OpMessage sample_view (key_of 2) (response_payload GetPeers (key_of 3 ++ key_of 4))); Polled 10] h1
  = Some (Ok (KeysReply [key_of 3; key_of 4])).
Proof.
  intros h1.
  destruct (remote_query (fun _ _ => None) (JsonValue := unit) (fun _ => None) GetPeers 0 [] ProtoHandler_new
    sample_view sample_view (key_of 1) (key_of 2) (key_of 3 ++ key_of 4)
    [Happens (OpRequest GetTree (key_of 2) 5); Polled 6; Happens (OpCleanup 9)] 1)
    as (_ & _ & _ & _ & Ha & _ & Hp).
  - reflexivity.
  - repeat constructor.
  - constructor; [discriminate|]. constructor; [cbn; unfold REQUEST_TIMEOUT; lia|].
    constructor; [cbn; unfold CALLBACK_TIMEOUT; lia|constructor].
  - specialize (Ha [] 10 []). rewrite Hp in Ha. exact Ha.
Defined.

Lemma second_query_cancels_witness :
  let h1 := snd (send_request GetPeers (key_of 2) 0 ProtoHandler_new) in
  await_reply (fun _ _ => None) (JsonValue := unit) (fun _ => None) GetPeers 0 1
    [Happens (OpRequest GetPeers (key_of 2) 5); Polled 6] h1 = Some (Err RequestCancelled).
Proof.
  intros h1. exact (second_query_cancels (fun _ _ => None) (JsonValue := unit) (fun _ => None) GetPeers (key_of 2) 0 5
    [] [] 1 [] 6 [] (Forall_nil_2 _)).
Defined.
