(* ===== verification/Tun.v ===== *)
(** * Tun: packets between the TUN device and the gateway

    Models the parts of [crates/yggdrasil/src/tun.rs] that compute: the search for
    the largest MTU the kernel accepts, the sizes of the read slots for segmented
    packets, the accounting of read failures, the read loop, the reusable write
    slots and the batches of the write loop with their overflow accounting. The
    device (of the tun-rs crate) and the gateway are what they return; the sizes
    [VIRTIO_NET_HDR_LEN] and [IDEAL_BATCH_SIZE] of tun-rs are parameters. *)

From S2P Require Import Prelude.
From S2P Require Import Wire.
From stdpp Require Import options.
Open Scope Z_scope.

(** Arithmetic on [u16]: out of range is a panic (or a wrong value without
    overflow checks). *)
Definition checked16 (z : Z) : outcome Z := if decide (is_u16 z) then Ret z else Panic.

(** ** The MTU *)

(** [try_set n v]: whether the kernel accepts [v] in the [n]-th call. The calls
    made are recorded with their answers. *)
Fixpoint probe_loop (fuel : nat) (try_set : nat -> Z -> bool) (lo hi : Z) (calls : list (Z * bool))
    : outcome (Z * list (Z * bool)) :=
  match fuel with
  | O => Panic
  | S fuel =>
      if lo <? hi then
        d ← checked16 (hi - lo);
        d ← checked16 (d + 1);
        mid ← checked16 (lo + d / 2);
        let ok := try_set (length calls) mid in
        let calls := calls ++ [(mid, ok)] in
        if ok then probe_loop fuel try_set mid hi calls
        else hi ← checked16 (mid - 1); probe_loop fuel try_set lo hi calls
      else Ret (lo, calls)
  end.

(** A search over at most 2^16 values takes at most 16 rounds. *)
Definition probe_highest_mtu (floor requested : Z) (try_set : nat -> Z -> bool) : outcome (Z * list (Z * bool)) :=
  if requested <=? floor then Ret (floor, [])
  else
    let ok := try_set 0%nat requested in
    if ok then Ret (requested, [(requested, true)])
    else hi ← checked16 (requested - 1); probe_loop 17 try_set floor hi [(requested, false)].

(** ** Sizes *)

Definition GSO_BATCH_BUDGET : nat := Z.to_nat (2 ^ 20).
Definition GSO_MAX_AGGREGATE : nat := Z.to_nat 65535.
Definition GSO_MIN_SEGMENT : nat := Z.to_nat 1220.
Definition GSO_MIN_READ_SLOTS : nat := ((GSO_MAX_AGGREGATE + GSO_MIN_SEGMENT - 1) / GSO_MIN_SEGMENT)%nat.
Definition GSO_SEGMENT_HDR_CAP : nat := 128.
(** Nanoseconds. *)
Definition GSO_READ_LOG_INTERVAL : Z := 5000000000.
Definition GSO_READ_BACKOFF_AFTER : Z := 8.
Definition GSO_READ_BACKOFF : Z := 1000000.
Definition OVERFLOW_LOG_INTERVAL : Z := 5000000000.

Section Sizes.
Context (VIRTIO_NET_HDR_LEN IDEAL_BATCH_SIZE : nat).

Definition GSO_WRITE_BUF_CAP : nat := 2 * VIRTIO_NET_HDR_LEN + GSO_MAX_AGGREGATE.

(** [usize::clamp] panics when the bounds are reversed. *)
Definition clamp_usize (v lo hi : nat) : outcome nat :=
  if (hi <? lo)%nat then Panic else Ret (Nat.min (Nat.max v lo) hi).

Definition gso_batch_size (mtu slot_bytes : nat) : outcome nat :=
  let min_slots := (GSO_MAX_AGGREGATE / Nat.max mtu 1 + 2)%nat in
  if (slot_bytes =? 0)%nat then Panic
  else clamp_usize (GSO_BATCH_BUDGET / slot_bytes) min_slots (Nat.max IDEAL_BATCH_SIZE min_slots).

Definition slot_size (mtu i : nat) : nat :=
  Nat.min (GSO_SEGMENT_HDR_CAP + GSO_MAX_AGGREGATE / Nat.max i 1) mtu.

(** The loop from index [i] with [n] rounds left. *)
Fixpoint slots_loop (n i mtu total : nat) (sizes : list nat) : list nat :=
  match n with
  | O => sizes
  | S n =>
      let slot := slot_size mtu i in
      if ((GSO_BATCH_BUDGET <? total + slot) && (GSO_MIN_READ_SLOTS <=? length sizes))%nat then sizes
      else slots_loop n (S i) mtu (total + slot) (sizes ++ [slot])
  end.

Definition gso_read_slot_sizes (mtu : nat) : list nat := slots_loop IDEAL_BATCH_SIZE 0 (Nat.max mtu 1) 0 [].
End Sizes.

(** ** Read failures *)

Record GsoReadErrors := mkGsoReadErrors { ge_last_log : Z; ge_since_log : Z; ge_consecutive : Z }.

(** [checked_sub] fails when the clock has not run that long. *)
Definition GsoReadErrors_new (now : Z) : GsoReadErrors :=
  mkGsoReadErrors (if now <? GSO_READ_LOG_INTERVAL then now else now - GSO_READ_LOG_INTERVAL) 0 0.

(** The report, if one is logged, is the number of failures it covers. The
    counter is a [u64]. *)
Definition record_error (overflow_checks : bool) (now : Z) (e : GsoReadErrors) : outcome (Z * option Z * GsoReadErrors) :=
  let consecutive := Z.min (ge_consecutive e + 1) U32_MAX in
  since_log ← arith64 overflow_checks (ge_since_log e + 1);
  let backoff := if GSO_READ_BACKOFF_AFTER <=? consecutive then GSO_READ_BACKOFF else 0 in
  if GSO_READ_LOG_INTERVAL <=? elapsed now (ge_last_log e)
  then Ret (backoff, Some since_log, mkGsoReadErrors now 0 consecutive)
  else Ret (backoff, None, mkGsoReadErrors (ge_last_log e) since_log consecutive).

Definition record_success (e : GsoReadErrors) : GsoReadErrors :=
  mkGsoReadErrors (ge_last_log e) (ge_since_log e) 0.

(** ** The read loop *)

(** What [recv_split] returns: the slots and lengths it filled and how many, or
    an error at some time. *)
Inductive ReadResult :=
| ReadOk (bufs : list bytes) (sizes : list nat) (count : nat)
| ReadErr (now : Z).

(** What the loop does: packets for the gateway and pauses. *)
Inductive ReadAction := SendPacket (packet : bytes) | Pause (d : Z) | Report (failures : Z).

Fixpoint send_split (slots : list (bytes * nat)) : outcome (list ReadAction) :=
  match slots with
  | [] => Ret []
  | (buf, len) :: slots =>
      if (len =? 0)%nat then send_split slots
      else if (length buf <? len)%nat then Panic
      else rest ← send_split slots; Ret (SendPacket (take len buf) :: rest)
  end.

Definition read_step (overflow_checks : bool) (r : ReadResult) (e : GsoReadErrors)
    : outcome (list ReadAction * GsoReadErrors) :=
  match r with
  | ReadOk bufs sizes count =>
      acts ← send_split (take count (zip bufs sizes));
      Ret (acts, record_success e)
  | ReadErr now =>
      '(backoff, report, e) ← record_error overflow_checks now e;
      Ret ((match report with Some n => [Report n] | None => [] end) ++ (if backoff =? 0 then [] else [Pause backoff]), e)
  end.

(** The loop on the reads of the device; it has no exit of its own. *)
Fixpoint gso_read_loop (overflow_checks : bool) (reads : list ReadResult) (e : GsoReadErrors)
    : outcome (list ReadAction * GsoReadErrors) :=
  match reads with
  | [] => Ret ([], e)
  | r :: reads =>
      '(acts, e) ← read_step overflow_checks r e;
      '(more, e) ← gso_read_loop overflow_checks reads e;
      Ret (acts ++ more, e)
  end.

(** ** Write slots *)

Record GsoWriteBuf := mkGsoWriteBuf { wb_data : bytes; wb_len : nat }.

Section Slots.
Context (VIRTIO_NET_HDR_LEN : nat).

Definition GsoWriteBuf_new : GsoWriteBuf := mkGsoWriteBuf (replicate (GSO_WRITE_BUF_CAP VIRTIO_NET_HDR_LEN) 0) 0.

(** [&self.data[..self.len]] *)
Definition wb_as_ref (b : GsoWriteBuf) : outcome bytes :=
  if (length (wb_data b) <? wb_len b)%nat then Panic else Ret (take (wb_len b) (wb_data b)).

(** [Vec::resize] *)
Definition vec_resize (n : nat) (v : Z) (data : bytes) : bytes := take n data ++ replicate (n - length data) v.

Definition buf_resize (new_len : nat) (value : Z) (b : GsoWriteBuf) : GsoWriteBuf :=
  mkGsoWriteBuf (if (length (wb_data b) <? new_len)%nat then vec_resize new_len value (wb_data b) else wb_data b) new_len.

(** [data[start..].copy_from_slice(src)] within the length. *)
Definition overwrite (start : nat) (src data : bytes) : bytes := take start data ++ src ++ drop (start + length src) data.

Definition buf_extend_from_slice (src : bytes) (b : GsoWriteBuf) : GsoWriteBuf :=
  let end_ := (wb_len b + length src)%nat in
  let data := if (length (wb_data b) <? end_)%nat then vec_resize end_ 0 (wb_data b) else wb_data b in
  mkGsoWriteBuf (overwrite (wb_len b) src data) end_.

(** [copy_within] panics when the source or the target is out of range. *)
Definition place_packet (slot_data : bytes) (start len : nat) : outcome (bytes * nat) :=
  if (start =? VIRTIO_NET_HDR_LEN)%nat then Ret (slot_data, (VIRTIO_NET_HDR_LEN + len)%nat)
  else if ((length slot_data <? start + len) || (length slot_data <? VIRTIO_NET_HDR_LEN + len))%nat then Panic
  else Ret (overwrite VIRTIO_NET_HDR_LEN (take len (drop start slot_data)) slot_data, (VIRTIO_NET_HDR_LEN + len)%nat).

(** [read_packet_into_slot] with what the gateway did to the buffer it was
    given, one byte before the body: its bytes, and where the packet is in it. *)
Record RwcRead := mkRwcRead { rr_buf : bytes; rr_start : nat; rr_len : nat }.

Definition read_packet_into_slot (r : RwcRead) (slot : GsoWriteBuf) : outcome GsoWriteBuf :=
  let data := overwrite (VIRTIO_NET_HDR_LEN - 1) (rr_buf r) (wb_data slot) in
  let start := (VIRTIO_NET_HDR_LEN - 1 + rr_start r)%nat in
  '(data, len) ← place_packet data start (rr_len r);
  Ret (mkGsoWriteBuf data len).
End Slots.

(** ** The write loop *)

(** The accounting of packets dropped by a full device. *)
Record OverflowLog := mkOverflowLog { ol_last : Z; ol_batches : Z; ol_at_risk : Z }.

Definition OverflowLog_new (now : Z) : OverflowLog :=
  mkOverflowLog (if now <? 60000000000 then now else now - 60000000000) 0 0.

(** A batch of [count] packets overflowed; the report, if any, is the batches and
    packets it covers. *)
Definition record_overflow (overflow_checks : bool) (now : Z) (count : nat) (o : OverflowLog)
    : outcome (option (Z * Z) * OverflowLog) :=
  batches ← arith64 overflow_checks (ol_batches o + 1);
  at_risk ← arith64 overflow_checks (ol_at_risk o + Z.of_nat count);
  if OVERFLOW_LOG_INTERVAL <=? elapsed now (ol_last o)
  then Ret (Some (batches, at_risk), mkOverflowLog now 0 0)
  else Ret (None, mkOverflowLog (ol_last o) batches at_risk).

(** What the device does to a slot while it coalesces: the two operations of
    [ExpandBuffer], and stores through [as_mut]. *)
Inductive SlotOp := OpResize (n : nat) (v : Z) | OpExtend (src : bytes) | OpStore (at_ : nat) (src : bytes).

Definition slot_op (op : SlotOp) (b : GsoWriteBuf) : GsoWriteBuf :=
  match op with
  | OpResize n v => buf_resize n v b
  | OpExtend src => buf_extend_from_slice src b
  | OpStore at_ src =>
      if (at_ + length src <=? wb_len b)%nat then mkGsoWriteBuf (overwrite at_ src (wb_data b)) (wb_len b) else b
  end.

(** The answers of [read] and [try_read] of the gateway. *)
Inductive ReadAnswer := GotPacket (r : RwcRead) | ReadFailed.
Inductive TryAnswer := TryPacket (r : RwcRead) | TryEmpty | TryFailed.

Inductive SendResult := SendDone | SendOverflow (now : Z) | SendFailed.

(** A round of the loop: what the gateway and the device answer, and what the
    device does to each slot. *)
Record WriteRound := mkWriteRound {
  wr_first : ReadAnswer;
  wr_more : list TryAnswer;
  wr_result : SendResult;
  wr_ops : list (list SlotOp) }.

Section WriteLoop.
Context (VIRTIO_NET_HDR_LEN : nat) (overflow_checks : bool).

(** The inner loop on the slots from [count] on; [None] is its [return]. *)
Fixpoint fill_slots (answers : list TryAnswer) (done rest : list GsoWriteBuf) {struct rest}
    : outcome (option (list GsoWriteBuf * list GsoWriteBuf)) :=
  match rest with
  | [] => Ret (Some (done, []))
  | slot :: rest' =>
      match answers with
      | TryPacket r :: answers =>
          slot ← read_packet_into_slot VIRTIO_NET_HDR_LEN r slot;
          fill_slots answers (done ++ [slot]) rest'
      | TryEmpty :: _ | [] => Ret (Some (done, rest))
      | TryFailed :: _ => Ret None
      end
  end.

(** The slots of one batch, filled and left over. [bufs[0]] panics when there is
    no slot. *)
Definition collect_batch (first : ReadAnswer) (answers : list TryAnswer) (bufs : list GsoWriteBuf)
    : outcome (option (list GsoWriteBuf * list GsoWriteBuf)) :=
  match bufs with
  | [] => Panic
  | slot :: rest =>
      match first with
      | ReadFailed => Ret None
      | GotPacket r => slot ← read_packet_into_slot VIRTIO_NET_HDR_LEN r slot; fill_slots answers [slot] rest
      end
  end.

Record WriteState := mkWriteState { ws_bufs : list GsoWriteBuf; ws_log : OverflowLog; ws_ended : bool }.

(** One round: the slots handed to [send_multiple], the report, the state. *)
Definition write_round (r : WriteRound) (s : WriteState)
    : outcome (option (list GsoWriteBuf) * option (Z * Z) * WriteState) :=
  batch ← collect_batch (wr_first r) (wr_more r) (ws_bufs s);
  match batch with
  | None => Ret (None, None, mkWriteState (ws_bufs s) (ws_log s) true)
  | Some (batch, rest) =>
      let after := imap (fun i b => foldl (fun b op => slot_op op b) b (default [] (wr_ops r !! i))) batch in
      match wr_result r with
      | SendDone => Ret (Some batch, None, mkWriteState (after ++ rest) (ws_log s) false)
      | SendOverflow now =>
          '(report, o) ← record_overflow overflow_checks now (length batch) (ws_log s);
          Ret (Some batch, report, mkWriteState (after ++ rest) o false)
      | SendFailed => Ret (Some batch, None, mkWriteState (after ++ rest) (ws_log s) true)
      end
  end.

Fixpoint write_rounds (rs : list WriteRound) (s : WriteState)
    : outcome (list (list GsoWriteBuf) * list (Z * Z) * WriteState) :=
  match rs with
  | [] => Ret ([], [], s)
  | r :: rs =>
      if ws_ended s then Ret ([], [], s)
      else
        '(batch, report, s) ← write_round r s;
        '(batches, reports, s) ← write_rounds rs s;
        Ret (option_list batch ++ batches, option_list report ++ reports, s)
  end.

Definition tun_write_loop_gso (IDEAL_BATCH_SIZE mtu : nat) (now : Z) (rs : list WriteRound)
    : outcome (list (list GsoWriteBuf) * list (Z * Z) * WriteState) :=
  batch ← gso_batch_size IDEAL_BATCH_SIZE mtu (GSO_WRITE_BUF_CAP VIRTIO_NET_HDR_LEN);
  write_rounds rs (mkWriteState (replicate batch (GsoWriteBuf_new VIRTIO_NET_HDR_LEN)) (OverflowLog_new now) false).
End WriteLoop.

(** *** Without offload: one packet at a time. *)
Inductive PlainRead := PlainPacket (p : bytes) (result : SendResult) | PlainFailed.

Record PlainState := mkPlainState { pl_last : Z; pl_dropped : Z; pl_ended : bool }.

Definition PlainState_new (now : Z) : PlainState :=
  mkPlainState (if now <? 60000000000 then now else now - 60000000000) 0 false.

(** One round: the packet offered to the device and the report. *)
Definition plain_round (overflow_checks : bool) (r : PlainRead) (s : PlainState)
    : outcome (option bytes * option Z * PlainState) :=
  match r with
  | PlainFailed => Ret (None, None, mkPlainState (pl_last s) (pl_dropped s) true)
  | PlainPacket p SendDone => Ret (Some p, None, s)
  | PlainPacket p SendFailed => Ret (Some p, None, mkPlainState (pl_last s) (pl_dropped s) true)
  | PlainPacket p (SendOverflow now) =>
      dropped ← arith64 overflow_checks (pl_dropped s + 1);
      if OVERFLOW_LOG_INTERVAL <=? elapsed now (pl_last s)
      then Ret (Some p, Some dropped, mkPlainState now 0 false)
      else Ret (Some p, None, mkPlainState (pl_last s) dropped false)
  end.

Fixpoint tun_write_loop (overflow_checks : bool) (rs : list PlainRead) (s : PlainState)
    : outcome (list bytes * list Z * PlainState) :=
  match rs with
  | [] => Ret ([], [], s)
  | r :: rs =>
      if pl_ended s then Ret ([], [], s)
      else
        '(p, report, s) ← plain_round overflow_checks r s;
        '(ps, reports, s) ← tun_write_loop overflow_checks rs s;
        Ret (option_list p ++ ps, option_list report ++ reports, s)
  end.

(** Errors of the device: their kind, and the code of the system. *)
Inductive IoKind := WouldBlock | TimedOut | OtherKind.
Definition ENOBUFS : Z := 105.
Definition is_tun_write_overflow (kind : IoKind) (raw_os_error : option Z) : bool :=
  match kind with
  | WouldBlock => true
  | _ => match raw_os_error with Some code => code =? ENOBUFS | None => false end
  end.
