(* ===== verification/TunFacts.v ===== *)
(** * TunFacts: theorems about the TUN device's loops

    The MTU search finds the largest accepted value in at most 17 calls; the read
    slots take every aggregate a compliant peer can produce; read errors never stop
    the reader and are all reported; the write loop hands every packet to the
    device, in order and behind the room for its header, whatever the reused slots
    held before. *)

From S2P Require Import Prelude.
From S2P Require Import Wire.
From S2P Require Import Tun.
From stdpp Require Import options.
Open Scope Z_scope.

(** ** The MTU *)

(** The MTU the interface is left with: the last value accepted. *)
Definition applied (floor : Z) (calls : list (Z * bool)) : Z :=
  foldl (fun v '(m, ok) => if (ok : bool) then m else v) floor calls.

Lemma applied_snoc floor calls m ok :
  applied floor (calls ++ [(m, ok)]) = if (ok : bool) then m else applied floor calls.
Proof. unfold applied. by rewrite foldl_app. Qed.

Lemma checked16_ok z : is_u16 z -> checked16 z = Ret z.
Proof. intros. unfold checked16. by rewrite decide_True. Qed.

(** What the calls say of the two ends of the interval. *)
Record probed (floor requested : Z) (try_set : nat -> Z -> bool) (calls : list (Z * bool)) (lo hi : Z) : Prop := mkProbed {
  pr_applied : applied floor calls = lo;
  pr_range : Forall (fun c => floor < c.1 <= requested) calls;
  pr_answers : forall i m ok, calls !! i = Some (m, ok) -> ok = try_set i m;
  pr_refused : (hi + 1, false) ∈ calls;
  pr_bounds : floor <= lo <= hi /\ hi < requested;
  pr_lo : lo = floor \/ (lo, true) ∈ calls }.

Lemma probed_snoc floor requested try_set calls lo hi mid :
  probed floor requested try_set calls lo hi -> lo < mid <= hi ->
  let ok := try_set (length calls) mid in
  probed floor requested try_set (calls ++ [(mid, ok)]) (if ok then mid else lo) (if ok then hi else mid - 1).
Proof.
  intros [Ha Hr Hq Hf Hb Hl] Hm ok. split.
  - rewrite applied_snoc. by destruct ok.
  - apply Forall_app. split; [done|]. constructor; [cbn; lia | constructor].
  - intros i m ok' [Hi|[? Hi]]%lookup_app_Some; [by eapply Hq|].
    apply list_lookup_singleton_Some in Hi as [Hi [= <- <-]].
    by replace i with (length calls) by lia.
  - destruct ok eqn:E; apply elem_of_app; [by left|right]. replace (mid - 1 + 1) with mid by lia. set_solver.
  - destruct ok; lia.
  - destruct ok; [right; set_solver|]. destruct Hl; [by left|right; set_solver].
Qed.

Lemma probe_loop_spec try_set floor requested k : forall lo hi calls,
  is_u16 floor -> is_u16 requested -> probed floor requested try_set calls lo hi -> hi - lo < 2 ^ Z.of_nat k ->
  exists v calls', probe_loop (S k) try_set lo hi calls = Ret (v, calls') /\
    probed floor requested try_set calls' v v /\ (length calls' <= length calls + k)%nat.
Proof.
  induction k as [|k IH]; intros lo hi calls Hfl Hrq P Hk; pose proof (pr_bounds _ _ _ _ _ _ P) as Hb;
    unfold is_u16 in Hfl, Hrq; cbn [probe_loop]; destruct (Z.ltb_spec lo hi) as [Hlt|Hge].
  - cbn in Hk. lia.
  - assert (hi = lo) as -> by lia. exists lo, calls. split_and!; [done..|lia].
  - pose proof (Z.div_mod (hi - lo + 1) 2 ltac:(lia)). pose proof (Z.mod_pos_bound (hi - lo + 1) 2 ltac:(lia)).
    rewrite Nat2Z.inj_succ, Z.pow_succ_r in Hk by lia.
    rewrite (checked16_ok (hi - lo)) by (unfold is_u16; lia). cbn.
    rewrite (checked16_ok (hi - lo + 1)) by (unfold is_u16; lia). cbn.
    rewrite checked16_ok by (unfold is_u16; lia). cbn.
    set (mid := lo + (hi - lo + 1) / 2) in *.
    pose proof (probed_snoc _ _ _ _ _ _ mid P ltac:(unfold mid; lia)) as P'. cbv zeta in P'.
    destruct (try_set (length calls) mid).
    + destruct (IH mid hi _ Hfl Hrq P' ltac:(unfold mid; lia)) as (v & c & E & ? & L).
      exists v, c. split_and!; [exact E|done|rewrite length_app in L; cbn in L; lia].
    + rewrite checked16_ok by (unfold is_u16, mid; lia). cbn.
      destruct (IH lo (mid - 1) _ Hfl Hrq P' ltac:(unfold mid; lia)) as (v & c & E & ? & L).
      exists v, c. split_and!; [exact E|done|rewrite length_app in L; cbn in L; lia].
  - assert (hi = lo) as -> by lia. exists lo, calls. split_and!; [done..|lia].
Qed.

(** The search for the MTU never panics and makes at most 17 calls, all above
    the floor and up to the requested value; it returns the value the interface is
    left with (the last one accepted, or the floor), and the next value up was
    refused unless the requested one was accepted. On a kernel that accepts exactly
    the values up to a cap, the result is the largest of them in the range. *)
Theorem probe_finds_highest floor requested try_set :
  is_u16 floor -> is_u16 requested ->
  exists v calls, probe_highest_mtu floor requested try_set = Ret (v, calls) /\
    (length calls <= 17)%nat /\
    Forall (fun c => floor < c.1 <= requested) calls /\
    v = applied floor calls /\
    (floor < requested -> v = requested \/ (v + 1, false) ∈ calls) /\
    forall cap, (forall n u, try_set n u = (u <=? cap)) -> v = Z.max floor (Z.min requested cap).
Proof.
  intros Hf Hr. unfold probe_highest_mtu. unfold is_u16 in Hf, Hr. destruct (Z.leb_spec requested floor).
  { exists floor, []. split_and!; [done|cbn; lia|constructor|done|lia|intros; lia]. }
  destruct (try_set 0%nat requested) eqn:E0.
  { exists requested, [(requested, true)]. split_and!; [done|cbn; lia| |done|by left|].
    - constructor; [cbn; lia|constructor].
    - intros cap Hc. rewrite Hc in E0. apply Z.leb_le in E0. lia. }
  rewrite checked16_ok by (unfold is_u16; lia). cbn [mbind outcome_bind].
  assert (probed floor requested try_set [(requested, false)] floor (requested - 1)) as P.
  { split; [done| |..].
    - constructor; [cbn; lia|constructor].
    - intros i m ok [-> [= <- <-]]%list_lookup_singleton_Some. done.
    - apply list_elem_of_singleton. f_equal. lia.
    - lia.
    - by left. }
  destruct (probe_loop_spec try_set floor requested 16 _ _ _ ltac:(done) ltac:(done) P ltac:(lia))
    as (v & c & E & [Ha Hra Hq Hrf Hb Hl] & L).
  exists v, c. split_and!; [exact E|cbn in L; lia|done|done|by right|].
  intros cap Hc. apply list_elem_of_lookup in Hrf as [i Hi]. apply Hq in Hi. rewrite Hc in Hi.
  symmetry in Hi. apply Z.leb_gt in Hi.
  destruct Hl as [->|Hl]; [lia|]. apply list_elem_of_lookup in Hl as [j Hj]. apply Hq in Hj. rewrite Hc in Hj.
  symmetry in Hj. apply Z.leb_le in Hj. lia.
Qed.

(** A stock kernel with a cap of 1500, asked for 65535 above 1280. *)
Lemma probe_finds_highest_witness :
  is_u16 1280 /\ is_u16 65535 /\
  exists v calls, probe_highest_mtu 1280 65535 (fun _ u => u <=? 1500) = Ret (v, calls) /\ v = 1500.
Proof.
  assert (is_u16 1280 /\ is_u16 65535) as [H1 H2] by (unfold is_u16; lia). split_and!; [done..|].
  destruct (probe_finds_highest 1280 65535 (fun _ u => u <=? 1500) H1 H2) as (v & calls & E & _ & _ & _ & _ & Hc).
  exists v, calls. split; [done|]. by apply (Hc 1500).
Defined.

(** ** The read slots *)

Lemma slots_loop_prefix n : forall i mtu t sizes, length sizes = i ->
  exists m, slots_loop n i mtu t sizes = sizes ++ map (slot_size mtu) (seq i m) /\ (m <= n)%nat /\
    ((i + n <= GSO_MIN_READ_SLOTS)%nat -> m = n) /\ (Nat.min GSO_MIN_READ_SLOTS (i + n) <= i + m)%nat.
Proof.
  induction n as [|n IH]; intros i mtu t sizes Hi; cbn [slots_loop].
  { exists 0%nat. cbn. rewrite app_nil_r. split_and!; [done|lia|done|lia]. }
  case_match eqn:E.
  - apply andb_true_iff in E as [_ E%Nat.leb_le]. exists 0%nat. cbn. rewrite app_nil_r. split_and!; [done|lia|lia|lia].
  - destruct (IH (S i) mtu (t + slot_size mtu i)%nat (sizes ++ [slot_size mtu i])) as (m & -> & ? & ? & ?).
    { rewrite length_app. cbn. lia. }
    exists (S m). cbn [seq map]. rewrite <- app_assoc. split_and!; [done|lia|lia|lia].
Qed.

(** What the slots from [i] on can cost at any MTU. *)
Fixpoint slots_bound (n i : nat) : Z :=
  match n with
  | O => 0
  | S n => 128 + 65535 / Z.max (Z.of_nat i) 1 + slots_bound n (S i)
  end.

Lemma slot_size_bound mtu i : Z.of_nat (slot_size mtu i) <= 128 + 65535 / Z.max (Z.of_nat i) 1.
Proof.
  unfold slot_size. rewrite Nat2Z.inj_min, Nat2Z.inj_add, Nat2Z.inj_div, Nat2Z.inj_max.
  unfold GSO_MAX_AGGREGATE, GSO_SEGMENT_HDR_CAP. rewrite Z2Nat.id by lia. cbn. lia.
Qed.

Lemma slots_bound_nonneg n : forall i, 0 <= slots_bound n i.
Proof.
  induction n as [|n IH]; intros i; cbn [slots_bound]; [lia|]. pose proof (IH (S i)).
  pose proof (Z.div_pos 65535 (Z.max (Z.of_nat i) 1) ltac:(lia) ltac:(lia)). lia.
Qed.

Lemma slots_bound_add n m i : slots_bound (n + m) i = slots_bound n i + slots_bound m (i + n).
Proof.
  revert i. induction n as [|n IH]; intros i; cbn [slots_bound Nat.add]; [by rewrite Nat.add_0_r|].
  rewrite IH. replace (S i + n)%nat with (i + S n)%nat by lia. lia.
Qed.

Lemma slots_loop_full n : forall i mtu t sizes, length sizes = i ->
  Z.of_nat t + slots_bound n i <= 2 ^ 20 ->
  slots_loop n i mtu t sizes = sizes ++ map (slot_size mtu) (seq i n) /\
  Z.of_nat (t + sum_list (map (slot_size mtu) (seq i n))) <= 2 ^ 20.
Proof.
  induction n as [|n IH]; intros i mtu t sizes Hi Hb; cbn [slots_loop slots_bound] in *.
  { cbn. rewrite app_nil_r. split; [done|lia]. }
  pose proof (slot_size_bound mtu i). pose proof (slots_bound_nonneg n (S i)).
  replace (GSO_BATCH_BUDGET <? t + slot_size mtu i)%nat with false
    by (symmetry; apply Nat.ltb_ge; unfold GSO_BATCH_BUDGET; lia).
  destruct (IH (S i) mtu (t + slot_size mtu i)%nat (sizes ++ [slot_size mtu i])) as [-> S].
  - rewrite length_app. cbn. lia.
  - lia.
  - cbn [seq map sum_list]. rewrite <- app_assoc. split; [done|]. cbn in S |- *. lia.
Qed.

(** Segment [i] of an aggregate of [l] bytes cut into pieces of [g]. *)
Definition segment_len (l g i : nat) : nat := Nat.min g (l - i * g).

Lemma segment_fits mtu l g hdr i :
  (l <= GSO_MAX_AGGREGATE)%nat -> (hdr <= 128)%nat -> (hdr + g <= mtu)%nat -> (i * g < l)%nat ->
  (hdr + segment_len l g i <= slot_size mtu i)%nat.
Proof.
  intros Hl Hh Hm Hi. unfold slot_size, segment_len, GSO_SEGMENT_HDR_CAP, GSO_MAX_AGGREGATE.
  apply Nat.min_glb; [|lia]. apply Nat.add_le_mono; [done|]. apply Nat.div_le_lower_bound; [lia|].
  unfold GSO_MAX_AGGREGATE in Hl. destruct i as [|i]; [lia|].
  rewrite Nat.max_l by lia. etrans; [apply Nat.mul_le_mono_l, Nat.le_min_l|]. lia.
Qed.

(** The read slots of the device. Slot [i] holds [slot_size] bytes; there are
    at least 54 slots (all the batch size allows, if that is less), never more than
    the batch size, and for a batch size up to 128 all of them, within the budget
    of 2^20 bytes. So every aggregate of up to 65535 bytes, cut into segments of at
    least 1220 bytes that fit the MTU with up to 128 bytes of header each, finds a
    slot for every segment, large enough for it. *)
Theorem read_slots_fit ideal mtu :
  (54 <= ideal)%nat ->
  let sizes := gso_read_slot_sizes ideal mtu in
  (54 <= length sizes <= ideal)%nat /\
  (forall i size, sizes !! i = Some size -> size = slot_size (Nat.max mtu 1) i) /\
  ((ideal <= 128)%nat -> length sizes = ideal /\ Z.of_nat (sum_list sizes) <= 2 ^ 20) /\
  forall l g hdr i, (l <= GSO_MAX_AGGREGATE)%nat -> (1220 <= g)%nat -> (hdr <= 128)%nat -> (hdr + g <= mtu)%nat -> (i * g < l)%nat ->
    exists size, sizes !! i = Some size /\ (hdr + segment_len l g i <= size)%nat.
Proof.
  intros Hid sizes. unfold sizes, gso_read_slot_sizes.
  destruct (slots_loop_prefix ideal 0 (Nat.max mtu 1) 0 [] eq_refl) as (m & Em & Hm & _ & H54).
  assert (GSO_MIN_READ_SLOTS = 54%nat) as E54 by (by vm_compute). rewrite E54 in H54.
  assert (forall i, (i < m)%nat -> map (slot_size (Nat.max mtu 1)) (seq 0 m) !! i = Some (slot_size (Nat.max mtu 1) i)) as Hlk.
  { intros i Hi. change (@map nat nat) with (@fmap list _ nat nat). rewrite list_lookup_fmap, lookup_seq_lt by done. done. }
  split_and!.
  - rewrite Em, length_app, length_map, length_seq. cbn. lia.
  - rewrite Em, length_app, length_map, length_seq. cbn. lia.
  - intros i size Hs. rewrite Em in Hs. cbn in Hs.
    pose proof (lookup_lt_Some _ _ _ Hs) as Hlt. rewrite length_map, length_seq in Hlt. rewrite Hlk in Hs by done. congruence.
  - intros Hle. destruct (slots_loop_full ideal 0 (Nat.max mtu 1) 0 [] eq_refl) as [-> S].
    + pose proof (slots_bound_add ideal (128 - ideal) 0) as Ha. pose proof (slots_bound_nonneg (128 - ideal) (0 + ideal)).
      replace (ideal + (128 - ideal))%nat with 128%nat in Ha by lia.
      assert (slots_bound 128 0 <= 2 ^ 20) by (by vm_compute). lia.
    + rewrite Nat.add_0_l in S. cbn [app]. rewrite length_map, length_seq. split; [reflexivity|exact S].
  - intros l g hdr i Hl Hg Hh Hmtu Hi. assert (i < 54)%nat by (unfold GSO_MAX_AGGREGATE in Hl; nia).
    exists (slot_size (Nat.max mtu 1) i). split; [rewrite Em; cbn [app]; apply Hlk; lia|].
    apply segment_fits; [done..|lia|done].
Qed.

(** A full aggregate cut at 1220 bytes, at the default MTU. *)
Lemma read_slots_fit_witness :
  (54 <= 128)%nat /\
  exists size, gso_read_slot_sizes 128 GSO_MAX_AGGREGATE !! 53%nat = Some size /\ (100 + segment_len GSO_MAX_AGGREGATE 1220 53 <= size)%nat.
Proof.
  assert (54 <= 128)%nat as H by lia. split; [exact H|].
  destruct (read_slots_fit 128 GSO_MAX_AGGREGATE H) as (_ & _ & _ & Hf).
  apply (Hf GSO_MAX_AGGREGATE 1220 100 53)%nat; unfold GSO_MAX_AGGREGATE; lia.
Defined.

(** ** The read loop *)

Definition packets_of (acts : list ReadAction) : list bytes :=
  omap (fun a => match a with SendPacket p => Some p | _ => None end) acts.
Definition reports_of (acts : list ReadAction) : list Z :=
  omap (fun a => match a with Report n => Some n | _ => None end) acts.
Definition pauses_of (acts : list ReadAction) : list Z :=
  omap (fun a => match a with Pause d => Some d | _ => None end) acts.

Definition filled (r : ReadResult) : list (bytes * nat) :=
  match r with ReadOk bufs sizes count => take count (zip bufs sizes) | ReadErr _ => [] end.
Definition failed (r : ReadResult) : bool := match r with ReadErr _ => true | _ => false end.

(** What the device promises: a length is within its slot. *)
Definition read_wf (r : ReadResult) : Prop := Forall (fun s => (s.2 <= length s.1)%nat) (filled r).

(** The packets of a read: its slots that are not empty. *)
Definition read_packets (r : ReadResult) : list bytes :=
  omap (fun s : bytes * nat => if (s.2 =? 0)%nat then None else Some (take s.2 s.1)) (filled r).

Fixpoint sumZ (l : list Z) : Z := match l with [] => 0 | z :: l => z + sumZ l end.
Lemma sumZ_app l k : sumZ (l ++ k) = sumZ l + sumZ k.
Proof. induction l; cbn; lia. Qed.

Lemma send_split_ok slots :
  Forall (fun s : bytes * nat => (s.2 <= length s.1)%nat) slots ->
  send_split slots = Ret (SendPacket <$> omap (fun s : bytes * nat => if (s.2 =? 0)%nat then None else Some (take s.2 s.1)) slots).
Proof.
  induction 1 as [|[buf len] slots Hl _ IH]; [done|]. cbn in Hl. cbn [send_split omap list_omap snd fst].
  destruct (len =? 0)%nat; [done|].
  replace (length buf <? len)%nat with false by (symmetry; by apply Nat.ltb_ge). by rewrite IH.
Qed.

Lemma actions_of_packets (ps : list bytes) :
  packets_of (SendPacket <$> ps) = ps /\ reports_of (SendPacket <$> ps) = [] /\ pauses_of (SendPacket <$> ps) = [].
Proof. induction ps as [|p ps (H1 & H2 & H3)]; [done|]. unfold packets_of, reports_of, pauses_of in *. cbn. rewrite H1, H2, H3. done. Qed.

Lemma actions_app a b :
  packets_of (a ++ b) = packets_of a ++ packets_of b /\ reports_of (a ++ b) = reports_of a ++ reports_of b /\
  pauses_of (a ++ b) = pauses_of a ++ pauses_of b.
Proof. unfold packets_of, reports_of, pauses_of. by rewrite !omap_app. Qed.

Definition streak (c : Z) (r : ReadResult) : Z := if failed r then Z.min (c + 1) U32_MAX else 0.

Lemma read_step_spec oc r e :
  read_wf r -> 0 <= ge_since_log e -> ge_since_log e + 1 <= U64_MAX ->
  exists acts e', read_step oc r e = Ret (acts, e') /\
    packets_of acts = read_packets r /\
    ge_since_log e + (if failed r then 1 else 0) = sumZ (reports_of acts) + ge_since_log e' /\ 0 <= ge_since_log e' /\
    ge_last_log e + GSO_READ_LOG_INTERVAL * Z.of_nat (length (reports_of acts)) <= ge_last_log e' /\
    ge_consecutive e' = streak (ge_consecutive e) r /\
    pauses_of acts = if failed r && (GSO_READ_BACKOFF_AFTER <=? ge_consecutive e') then [GSO_READ_BACKOFF] else [].
Proof.
  intros Hw H0 Hm. destruct r as [bufs sizes count|now]; cbn [read_step failed andb].
  - rewrite send_split_ok by exact Hw. eexists _, _. split; [done|].
    destruct (actions_of_packets (read_packets (ReadOk bufs sizes count))) as (E1 & E2 & E3).
    unfold read_packets in *. cbn [filled] in *. rewrite E1, E2, E3. cbn. split_and!; [done|lia..|done|done].
  - unfold record_error. rewrite arith64_ok by (unfold is_u64, U64_MAX in *; lia). cbn [mbind outcome_bind].
    unfold streak; cbn [failed]. set (c := Z.min (ge_consecutive e + 1) U32_MAX).
    destruct (Z.leb_spec GSO_READ_LOG_INTERVAL (elapsed now (ge_last_log e))) as [Hi|Hi];
      destruct (GSO_READ_BACKOFF_AFTER <=? c) eqn:Eb; eexists _, _; (split; [done|]);
      cbn [ge_consecutive ge_since_log ge_last_log]; rewrite ?Eb; cbn -[GSO_READ_LOG_INTERVAL];
      unfold elapsed, GSO_READ_LOG_INTERVAL in *; split_and!; try done; lia.
Qed.

Lemma gso_read_loop_spec oc reads : forall e,
  Forall read_wf reads -> 0 <= ge_since_log e -> ge_since_log e + Z.of_nat (length reads) <= U64_MAX ->
  exists acts e', gso_read_loop oc reads e = Ret (acts, e') /\
    packets_of acts = concat (map read_packets reads) /\
    ge_since_log e + Z.of_nat (length (filter (fun r => failed r = true) reads)) = sumZ (reports_of acts) + ge_since_log e' /\
    0 <= ge_since_log e' /\
    ge_last_log e + GSO_READ_LOG_INTERVAL * Z.of_nat (length (reports_of acts)) <= ge_last_log e' /\
    ge_consecutive e' = foldl streak (ge_consecutive e) reads /\
    (Forall (fun r => failed r = true) reads -> 0 <= ge_consecutive e ->
       pauses_of acts = replicate (length reads - (7 - Z.to_nat (ge_consecutive e))) GSO_READ_BACKOFF).
Proof.
  induction reads as [|r reads IH]; intros e Hw H0 Hm.
  { exists [], e. cbn -[GSO_READ_LOG_INTERVAL]. split_and!; try done; lia. }
  apply Forall_cons in Hw as [Hr Hw]. cbn [length] in Hm.
  destruct (read_step_spec oc r e Hr H0 ltac:(lia)) as (a & e1 & E & Hp & Hs & Hs0 & Hl & Hc & Hz).
  assert (ge_since_log e1 <= ge_since_log e + 1).
  { clear -E H0 Hm. destruct r as [bufs sizes count|now]; cbn [read_step] in E.
    - destruct (send_split _); [|discriminate]. injection E as <- <-. cbn. lia.
    - unfold record_error in E. rewrite arith64_ok in E by (unfold is_u64, U64_MAX in *; lia). cbn [mbind outcome_bind] in E.
      case_match; injection E as <- <-; cbn; lia. }
  destruct (IH e1 Hw Hs0 ltac:(lia)) as (b & e2 & E2 & Hp2 & Hs2 & Hs20 & Hl2 & Hc2 & Hz2).
  exists (a ++ b), e2. destruct (actions_app a b) as (A1 & A2 & A3). rewrite A1, A2, A3.
  split_and!.
  - cbn [gso_read_loop]. rewrite E. cbn [mbind outcome_bind]. by rewrite E2.
  - cbn [map concat]. by rewrite Hp, Hp2.
  - rewrite filter_cons, sumZ_app. destruct (failed r) eqn:Ef; [rewrite decide_True by done|rewrite decide_False by done];
      cbn [length]; lia.
  - done.
  - rewrite length_app. unfold GSO_READ_LOG_INTERVAL in *. lia.
  - cbn [foldl]. by rewrite Hc2, Hc.
  - intros [Hfr Hfs]%Forall_cons Hc0. rewrite Hz, Hz2 by (done || (rewrite Hc; unfold streak; rewrite Hfr; unfold U32_MAX; lia)).
    rewrite Hc. unfold streak. rewrite Hfr. cbn [andb length].
    destruct (Z.leb_spec GSO_READ_BACKOFF_AFTER (Z.min (ge_consecutive e + 1) U32_MAX)) as [Hle|Hle];
      unfold GSO_READ_BACKOFF_AFTER, U32_MAX in *; cbn [app].
    + change (GSO_READ_BACKOFF :: ?l) with (replicate 1 GSO_READ_BACKOFF ++ l).
      rewrite <- replicate_add. f_equal. lia.
    + f_equal. lia.
Qed.

Lemma GsoReadErrors_new_spec start :
  ge_since_log (GsoReadErrors_new start) = 0 /\ ge_consecutive (GsoReadErrors_new start) = 0 /\
  start - GSO_READ_LOG_INTERVAL <= ge_last_log (GsoReadErrors_new start).
Proof. unfold GsoReadErrors_new, GSO_READ_LOG_INTERVAL. split_and!; [done..|]. cbn [ge_last_log]. case_match; lia. Qed.

(** The offloaded read loop has no exit on an error. Whatever the sequence of
    reads, successful or failed, it runs through all of them without a panic; the
    gateway gets the packet of every non-empty slot of every successful read, in
    order; the failures are all counted, in the reports and the counter for the
    next one; two reports are at least 5 seconds apart; and [k] failures in a row
    are followed by [k - 7] pauses of 1 ms. *)
Theorem read_loop_survives oc reads start :
  Forall read_wf reads -> Z.of_nat (length reads) <= U64_MAX ->
  exists acts e', gso_read_loop oc reads (GsoReadErrors_new start) = Ret (acts, e') /\
    packets_of acts = concat (map read_packets reads) /\
    Z.of_nat (length (filter (fun r => failed r = true) reads)) = sumZ (reports_of acts) + ge_since_log e' /\
    start - GSO_READ_LOG_INTERVAL + GSO_READ_LOG_INTERVAL * Z.of_nat (length (reports_of acts)) <= ge_last_log e' /\
    (Forall (fun r => failed r = true) reads -> pauses_of acts = replicate (length reads - 7) GSO_READ_BACKOFF).
Proof.
  intros Hw Hl. destruct (GsoReadErrors_new_spec start) as (N1 & N2 & N3).
  destruct (gso_read_loop_spec oc reads (GsoReadErrors_new start) Hw) as (a & e & E & H1 & H2 & _ & H4 & _ & H6); [lia..|].
  rewrite N1, Z.add_0_l in H2. rewrite N2 in H6. exists a, e. split_and!; [exact E|exact H1|exact H2|lia|].
  intros Hf. rewrite (H6 Hf (Z.le_refl 0)). reflexivity.
Qed.

Definition sample_reads : list ReadResult :=
  [ReadOk [[96; 1; 2]; [96; 7]; [0]] [3; 2; 0]%nat 3; ReadErr 6000000000; ReadOk [[96; 9]; []] [1; 0]%nat 1].

(** A failed read between two good ones. *)
Lemma read_loop_survives_witness :
  Forall read_wf sample_reads /\
  exists acts e', gso_read_loop true sample_reads (GsoReadErrors_new 1) = Ret (acts, e') /\
    packets_of acts = [[96; 1; 2]; [96; 7]; [96]].
Proof.
  assert (Forall read_wf sample_reads) as Hw by (repeat (constructor; [unfold read_wf; cbn; repeat constructor|]); constructor).
  split; [exact Hw|].
  destruct (read_loop_survives true sample_reads 1 Hw ltac:(by vm_compute)) as (a & e & E & P & _).
  exists a, e. split; [exact E|]. by rewrite P.
Defined.

(** ** The write slots *)

Lemma length_overwrite at_ (src data : bytes) : (at_ + length src <= length data)%nat -> length (overwrite at_ src data) = length data.
Proof. intros. unfold overwrite. rewrite !length_app, length_take, length_drop. lia. Qed.

Lemma overwrite_read at_ (src data : bytes) k n :
  (at_ + length src <= length data)%nat -> (k + n <= length src)%nat ->
  take n (drop (at_ + k) (overwrite at_ src data)) = take n (drop k src).
Proof.
  intros H1 H2. unfold overwrite. rewrite drop_app_ge by (rewrite length_take; lia).
  rewrite length_take, Nat.min_l by lia. replace (at_ + k - at_)%nat with k by lia.
  rewrite drop_app_le by lia. by rewrite take_app_le by (rewrite length_drop; lia).
Qed.

Lemma length_vec_resize n v (data : bytes) : length (vec_resize n v data) = n.
Proof. unfold vec_resize. rewrite length_app, length_take, length_replicate. lia. Qed.

Lemma extend_data_length (src : bytes) (b : GsoWriteBuf) :
  (wb_len b + length src <= length (if (length (wb_data b) <? wb_len b + length src)%nat
    then vec_resize (wb_len b + length src) 0 (wb_data b) else wb_data b))%nat.
Proof. destruct (Nat.ltb_spec (length (wb_data b)) (wb_len b + length src)); rewrite ?length_vec_resize; lia. Qed.

(** The slot of the write path is a buffer as the coalescer expects it:
    extending it appends the bytes to what was visible, whether or not they fit the
    storage; resizing keeps the common prefix; and neither moves the storage as long
    as the new length is within the capacity. *)
Theorem write_buf_spec src n v b view :
  wb_as_ref b = Ret view ->
  wb_as_ref (buf_extend_from_slice src b) = Ret (view ++ src) /\
  (exists tail, wb_as_ref (buf_resize n v b) = Ret (take n view ++ tail) /\ length tail = (n - length view)%nat) /\
  ((n <= length (wb_data b))%nat -> wb_data (buf_resize n v b) = wb_data b) /\
  ((wb_len b + length src <= length (wb_data b))%nat ->
     length (wb_data (buf_extend_from_slice src b)) = length (wb_data b)).
Proof.
  unfold wb_as_ref at 1. destruct (Nat.ltb_spec (length (wb_data b)) (wb_len b)) as [?|Hl]; [discriminate|]. intros [= <-].
  split_and!.
  - unfold wb_as_ref, buf_extend_from_slice. cbn [wb_data wb_len]. pose proof (extend_data_length src b) as He.
    set (d := if (_ <? _)%nat then _ else _) in *.
    assert (take (wb_len b) d = take (wb_len b) (wb_data b)) as Hd.
    { unfold d. case_match eqn:E; [|done]. unfold vec_resize. apply Nat.ltb_lt in E.
      rewrite take_app_le by (rewrite length_take; lia). rewrite take_take. f_equal. lia. }
    rewrite length_overwrite by done. replace (length d <? _)%nat with false by (symmetry; by apply Nat.ltb_ge).
    f_equal. unfold overwrite. rewrite Hd, app_assoc.
    rewrite take_app_length'; [done|]. rewrite length_app, length_take. lia.
  - unfold wb_as_ref, buf_resize. cbn [wb_data wb_len].
    set (d := if (length (wb_data b) <? n)%nat then vec_resize n v (wb_data b) else wb_data b). assert (n <= length d)%nat as Hn.
    { unfold d. destruct (Nat.ltb_spec (length (wb_data b)) n); rewrite ?length_vec_resize; lia. }
    replace (length d <? n)%nat with false by (symmetry; by apply Nat.ltb_ge).
    assert (take (Nat.min n (wb_len b)) d = take n (take (wb_len b) (wb_data b))) as Hd.
    { rewrite take_take. unfold d. case_match eqn:E; [|done]. apply Nat.ltb_lt in E. unfold vec_resize.
      rewrite take_app_le by (rewrite length_take; lia). rewrite take_take. f_equal. lia. }
    exists (take (n - wb_len b) (drop (Nat.min n (wb_len b)) d)). rewrite <- Hd. split.
    + f_equal. rewrite take_take_drop. f_equal. lia.
    + rewrite !length_take, length_drop. lia.
  - intros Hn. unfold buf_resize. cbn [wb_data]. destruct (Nat.ltb_spec (length (wb_data b)) n); [lia|done].
  - intros Hn. unfold buf_extend_from_slice. cbn [wb_data]. rewrite length_overwrite by apply extend_data_length.
    destruct (Nat.ltb_spec (length (wb_data b)) (wb_len b + length src)); [lia|done].
Qed.

(** A small slot with three bytes in view, extended past its storage. *)
Lemma write_buf_spec_witness :
  wb_as_ref (mkGsoWriteBuf [1; 2; 3; 9] 3) = Ret [1; 2; 3] /\
  wb_as_ref (buf_extend_from_slice [4; 5] (mkGsoWriteBuf [1; 2; 3; 9] 3)) = Ret [1; 2; 3; 4; 5].
Proof. split; [reflexivity|]. exact (proj1 (write_buf_spec [4; 5] 0 0 (mkGsoWriteBuf [1; 2; 3; 9] 3) [1; 2; 3] eq_refl)). Defined.

Lemma record_overflow_spec oc now count o :
  0 <= ol_batches o -> ol_batches o + 1 <= U64_MAX -> 0 <= ol_at_risk o -> ol_at_risk o + Z.of_nat count <= U64_MAX ->
  exists report o', record_overflow oc now count o = Ret (report, o') /\
    ol_batches o + 1 = sumZ (map fst (option_list report)) + ol_batches o' /\
    ol_at_risk o + Z.of_nat count = sumZ (map snd (option_list report)) + ol_at_risk o' /\
    0 <= ol_batches o' <= ol_batches o + 1 /\ 0 <= ol_at_risk o' <= ol_at_risk o + Z.of_nat count.
Proof.
  intros H1 H2 H3 H4. unfold record_overflow.
  rewrite !arith64_ok by (unfold is_u64, U64_MAX in *; lia). cbn [mbind outcome_bind].
  case_match; eexists _, _; (split; [done|]); cbn; lia.
Qed.

Lemma gso_batch_size_spec ideal mtu slot_bytes :
  (0 < slot_bytes)%nat ->
  exists n, gso_batch_size ideal mtu slot_bytes = Ret n /\
    (GSO_MAX_AGGREGATE / Nat.max mtu 1 + 2 <= n <= Nat.max ideal (GSO_MAX_AGGREGATE / Nat.max mtu 1 + 2))%nat.
Proof.
  intros H. unfold gso_batch_size, clamp_usize. set (m := (GSO_MAX_AGGREGATE / Nat.max mtu 1 + 2)%nat).
  replace (slot_bytes =? 0)%nat with false by (symmetry; apply Nat.eqb_neq; lia).
  replace (Nat.max ideal m <? m)%nat with false by (symmetry; apply Nat.ltb_ge; lia).
  eexists. split; [done|]. generalize (GSO_BATCH_BUDGET / slot_bytes)%nat. intros q. lia.
Qed.

Section WriteFacts.
Context (VIRTIO_NET_HDR_LEN : nat) (Hhdr : (1 <= VIRTIO_NET_HDR_LEN)%nat).
Set Default Proof Using "Type*".
#[local] Abbreviation HDR := VIRTIO_NET_HDR_LEN.
#[local] Abbreviation CAP := (GSO_WRITE_BUF_CAP HDR).

(** The slots never lose their capacity, so no packet finds one too small. *)
Definition slot_ok (b : GsoWriteBuf) : Prop := (CAP <= length (wb_data b))%nat /\ (wb_len b <= length (wb_data b))%nat.

Lemma buf_resize_ok n v b : slot_ok b -> slot_ok (buf_resize n v b).
Proof.
  intros [H1 H2]. unfold slot_ok, buf_resize. cbn [wb_data wb_len].
  destruct (Nat.ltb_spec (length (wb_data b)) n); rewrite ?length_vec_resize; lia.
Qed.

Lemma buf_extend_ok src b : slot_ok b -> slot_ok (buf_extend_from_slice src b).
Proof.
  intros [H1 H2]. unfold slot_ok, buf_extend_from_slice. cbn [wb_data wb_len].
  rewrite length_overwrite by apply extend_data_length.
  destruct (Nat.ltb_spec (length (wb_data b)) (wb_len b + length src)); rewrite ?length_vec_resize; lia.
Qed.

Lemma slot_op_ok op b : slot_ok b -> slot_ok (slot_op op b).
Proof.
  intros H. destruct op as [n v|src|at_ src]; cbn [slot_op]; [by apply buf_resize_ok|by apply buf_extend_ok|].
  case_match eqn:E; [|done]. apply Nat.leb_le in E. destruct H. unfold slot_ok. cbn [wb_data wb_len].
  rewrite length_overwrite; lia.
Qed.

Lemma slot_ops_ok ops b : slot_ok b -> slot_ok (foldl (fun b op => slot_op op b) b ops).
Proof. revert b. induction ops; intros b H; [done|]. cbn. auto using slot_op_ok. Qed.

(** ** The write loop *)

(** What the gateway promises of a read: the packet is in the part of the buffer
    it was given. *)
Definition rwc_wf (r : RwcRead) : Prop :=
  (rr_start r + rr_len r <= length (rr_buf r))%nat /\ (HDR - 1 + length (rr_buf r) <= CAP)%nat /\
  (rr_len r <= GSO_MAX_AGGREGATE)%nat.

Definition rwc_packet (r : RwcRead) : bytes := take (rr_len r) (drop (rr_start r) (rr_buf r)).

Lemma length_rwc_packet r : rwc_wf r -> length (rwc_packet r) = rr_len r.
Proof. intros (? & _). unfold rwc_packet. rewrite length_take, length_drop. lia. Qed.

(** A slot with a packet in it, behind the room for the header. *)
Definition holds (b : GsoWriteBuf) (p : bytes) : Prop :=
  exists room, length room = HDR /\ wb_as_ref b = Ret (room ++ p).

Lemma holds_intro data len p :
  (HDR + len <= length data)%nat -> take len (drop HDR data) = p -> holds (mkGsoWriteBuf data (HDR + len)) p.
Proof.
  intros Hl <-. exists (take HDR data). rewrite length_take. split; [lia|]. unfold wb_as_ref. cbn [wb_data wb_len].
  replace (length data <? HDR + len)%nat with false by (symmetry; apply Nat.ltb_ge; lia).
  f_equal. by rewrite take_take_drop.
Qed.

Lemma read_packet_into_slot_spec r b :
  rwc_wf r -> slot_ok b ->
  exists b', read_packet_into_slot HDR r b = Ret b' /\ slot_ok b' /\ holds b' (rwc_packet r).
Proof.
  intros (H1 & H2 & H3) [Hb Hl]. unfold read_packet_into_slot, place_packet.
  set (data := overwrite (HDR - 1) (rr_buf r) (wb_data b)).
  assert (length data = length (wb_data b)) as Ed by (apply length_overwrite; lia).
  assert (take (rr_len r) (drop (HDR - 1 + rr_start r) data) = rwc_packet r) as Hp by (apply overwrite_read; lia).
  assert (CAP = 2 * HDR + GSO_MAX_AGGREGATE)%nat as HC by done.
  destruct (Nat.eqb_spec (HDR - 1 + rr_start r) HDR) as [E|E].
  - cbn. eexists. split; [done|]. split; [split; cbn [wb_data wb_len]; lia|].
    rewrite E in Hp. apply holds_intro; [lia|done].
  - assert ((length data <? HDR - 1 + rr_start r + rr_len r)%nat || (length data <? HDR + rr_len r)%nat = false) as ->.
    { apply orb_false_iff. split; apply Nat.ltb_ge; lia. }
    cbn [mbind outcome_bind]. rewrite Hp. assert (length (rwc_packet r) = rr_len r) as Hlp by (by apply length_rwc_packet).
    assert (length (overwrite HDR (rwc_packet r) data) = length data) as El by (apply length_overwrite; lia).
    eexists. split; [done|]. split; [split; cbn [wb_data wb_len]; lia|].
    apply holds_intro; [lia|]. pose proof (overwrite_read HDR (rwc_packet r) data 0 (rr_len r)) as Ho.
    rewrite Nat.add_0_r in Ho. rewrite Ho by lia. rewrite drop_0. apply take_ge. lia.
Qed.
(** *** The reference: the packets of each batch. *)

Fixpoint queued (room : nat) (answers : list TryAnswer) : option (list bytes) :=
  match room, answers with
  | S room, TryPacket r :: answers => cons (rwc_packet r) <$> queued room answers
  | S _, TryFailed :: _ => None
  | _, _ => Some []
  end.

Definition round_packets (n : nat) (r : WriteRound) : option (list bytes) :=
  match wr_first r with
  | GotPacket p => cons (rwc_packet p) <$> queued (n - 1) (wr_more r)
  | ReadFailed => None
  end.

(** The batches a run hands to the device, with the device's answers. *)
Fixpoint handed (n : nat) (rs : list WriteRound) : list (list bytes * SendResult) :=
  match rs with
  | [] => []
  | r :: rs =>
      match round_packets n r with
      | None => []
      | Some b => (b, wr_result r) :: match wr_result r with SendFailed => [] | _ => handed n rs end
      end
  end.

Definition overflowed (h : list (list bytes * SendResult)) : list (list bytes) :=
  omap (fun '(b, r) => match r with SendOverflow _ => Some b | _ => None end) h.

Definition answer_wf (a : TryAnswer) : Prop := match a with TryPacket r => rwc_wf r | _ => True end.
Definition round_wf (r : WriteRound) : Prop :=
  match wr_first r with GotPacket p => rwc_wf p | ReadFailed => True end /\ Forall answer_wf (wr_more r).

Lemma fill_slots_spec rest : forall answers done,
  Forall answer_wf answers -> Forall slot_ok rest -> Forall slot_ok done ->
  match queued (length rest) answers with
  | None => fill_slots HDR answers done rest = Ret None
  | Some ps => exists new left, fill_slots HDR answers done rest = Ret (Some (done ++ new, left)) /\
      Forall2 holds new ps /\ Forall slot_ok (done ++ new) /\ Forall slot_ok left /\
      (length new + length left = length rest)%nat
  end.
Proof.
  induction rest as [|slot rest IH]; intros answers done Ha Hs Hd; cbn [queued fill_slots length].
  { exists [], []. rewrite app_nil_r. split_and!; [done|constructor|done|constructor|done]. }
  destruct answers as [|[r| |] answers].
  1,3: exists [], (slot :: rest); rewrite app_nil_r; (split_and!; [done|constructor|done|done|cbn; lia]).
  2: done.
  apply Forall_cons in Ha as [Hr Ha], Hs as [Hsl Hs].
  destruct (read_packet_into_slot_spec r slot Hr Hsl) as (b & E & Hb & Hh). rewrite E. cbn [mbind outcome_bind].
  specialize (IH answers (done ++ [b]) Ha Hs ltac:(apply Forall_app; split; [done|by constructor])).
  destruct (queued (length rest) answers) as [ps|]; cbn [fmap option_fmap option_map]; [|exact IH].
  destruct IH as (new & left & E2 & H2 & Hn & Hl & Hlen).
  exists (b :: new), left. rewrite <- app_assoc in E2, Hn. cbn [app] in E2, Hn.
  split_and!; [exact E2|by constructor|done|done|cbn; lia].
Qed.

Lemma collect_batch_spec r bufs :
  round_wf r -> Forall slot_ok bufs -> bufs <> [] ->
  match round_packets (length bufs) r with
  | None => collect_batch HDR (wr_first r) (wr_more r) bufs = Ret None
  | Some ps => exists batch left, collect_batch HDR (wr_first r) (wr_more r) bufs = Ret (Some (batch, left)) /\
      Forall2 holds batch ps /\ Forall slot_ok batch /\ Forall slot_ok left /\
      (length batch + length left = length bufs)%nat
  end.
Proof.
  intros [Hf Hm] Hs Hne. destruct bufs as [|slot rest]; [done|]. apply Forall_cons in Hs as [Hsl Hs].
  unfold round_packets, collect_batch. destruct (wr_first r) as [p|]; [|done].
  destruct (read_packet_into_slot_spec p slot Hf Hsl) as (b & E & Hb & Hh). rewrite E. cbn [mbind outcome_bind].
  pose proof (fill_slots_spec rest (wr_more r) [b] Hm Hs ltac:(by constructor)) as F.
  replace (length (slot :: rest) - 1)%nat with (length rest) by (cbn; lia).
  destruct (queued (length rest) (wr_more r)) as [ps|]; cbn [fmap option_fmap option_map]; [|exact F].
  destruct F as (new & left & E2 & H2 & Hn & Hl & Hlen).
  exists (b :: new), left. split_and!; [exact E2|by constructor|done|done|cbn; lia].
Qed.

Lemma slots_after_ok (ops : list (list SlotOp)) batch :
  Forall slot_ok batch ->
  Forall slot_ok (imap (fun i b => foldl (fun b op => slot_op op b) b (default [] (ops !! i))) batch).
Proof.
  intros H. apply Forall_lookup. intros i b Hi. rewrite list_lookup_imap in Hi.
  destruct (batch !! i) as [b0|] eqn:E; [|done]. injection Hi as <-.
  apply slot_ops_ok. by eapply Forall_lookup_1.
Qed.

Lemma write_rounds_spec oc n rs : forall s,
  Forall round_wf rs -> Forall slot_ok (ws_bufs s) -> length (ws_bufs s) = n -> (1 <= n)%nat -> ws_ended s = false ->
  0 <= ol_batches (ws_log s) -> ol_batches (ws_log s) + Z.of_nat (length rs) <= U64_MAX ->
  0 <= ol_at_risk (ws_log s) -> ol_at_risk (ws_log s) + Z.of_nat (n * length rs) <= U64_MAX ->
  exists batches reports s', write_rounds HDR oc rs s = Ret (batches, reports, s') /\
    Forall2 (Forall2 holds) batches (map fst (handed n rs)) /\
    ol_batches (ws_log s) + Z.of_nat (length (overflowed (handed n rs))) = sumZ (map fst reports) + ol_batches (ws_log s') /\
    ol_at_risk (ws_log s) + Z.of_nat (length (concat (overflowed (handed n rs)))) = sumZ (map snd reports) + ol_at_risk (ws_log s').
Proof.
  induction rs as [|r rs IH]; intros s Hw Hs Hn Hn1 He B0 B1 R0 R1; cbn [write_rounds handed].
  { exists [], [], s. cbn. split_and!; [done|constructor|lia|lia]. }
  apply Forall_cons in Hw as [Hr Hw]. rewrite He. unfold write_round. cbn [length] in B1, R1.
  assert (ws_bufs s <> []) as Hne by (intros E; rewrite E in Hn; cbn in Hn; lia).
  pose proof (collect_batch_spec r (ws_bufs s) Hr Hs Hne) as C. rewrite Hn in C.
  destruct (round_packets n r) as [ps|].
  2: { rewrite C. cbn [mbind outcome_bind].
       exists [], [], (mkWriteState (ws_bufs s) (ws_log s) true). split_and!; [|constructor|cbn; lia|cbn; lia].
       destruct rs; done. }
  destruct C as (batch & left & -> & Hh & Hb & Hl & Hlen). cbn [mbind outcome_bind].
  pose proof (slots_after_ok (wr_ops r) batch Hb) as Hafter.
  set (after := imap _ batch) in *. assert (length after = length batch) as La by apply length_imap.
  assert (Forall slot_ok (after ++ left)) as Hall by (by apply Forall_app).
  assert (length (after ++ left) = n) as Ln by (rewrite length_app; lia).
  pose proof (Forall2_length _ _ _ Hh) as Lb.
  destruct (wr_result r) as [|now|]; cbn [overflowed omap list_omap].
  - cbn [mbind outcome_bind].
    destruct (IH (mkWriteState (after ++ left) (ws_log s) false)) as (bs & rp & s' & E & H2 & Hc & Hk);
      [done|done|done|done|done|done|cbn [ws_log]; lia|done|cbn [ws_log]; lia|].
    rewrite E. exists (batch :: bs), rp, s'. cbn [ws_log] in *. split_and!; [done|by constructor|exact Hc|exact Hk].
  - destruct (record_overflow_spec oc now (length batch) (ws_log s)) as (report & o & Eo & O1 & O2 & O3 & O4);
      [done|lia|done|lia|]. rewrite Eo. cbn [mbind outcome_bind].
    destruct (IH (mkWriteState (after ++ left) o false)) as (bs & rp & s' & E & H2 & Hc & Hk);
      [done|done|done|done|done|cbn [ws_log]; lia|cbn [ws_log]; lia|cbn [ws_log]; lia|cbn [ws_log]; lia|].
    rewrite E. exists (batch :: bs), (option_list report ++ rp), s'. cbn [ws_log] in *. unfold overflowed in *.
    rewrite !map_app, !sumZ_app. cbn [concat]. rewrite length_app. cbn [length]. split_and!; [done|by constructor|lia|lia].
  - cbn [mbind outcome_bind]. exists [batch], [], (mkWriteState (after ++ left) (ws_log s) true).
    cbn [ws_log]. split_and!; [|by repeat constructor|cbn; lia|cbn; lia]. destruct rs; done.
Qed.

Lemma new_slot_ok : slot_ok (GsoWriteBuf_new HDR).
Proof. unfold slot_ok, GsoWriteBuf_new. cbn [wb_data wb_len]. rewrite length_replicate. lia. Qed.

(** C25: The offloaded write loop. Over any run of the gateway and the device it
    never panics; its batches hold, slot by slot and in order, exactly the packets
    of the gateway, each behind the room for the virtio header, whatever the device
    did to the reused slots before: the first packet of a round is waited for and
    the rest taken as long as they are there, up to the batch size, which is at
    least 2 and what one coalesced write can carry. The loop ends only when the
    gateway or the device fails for good; the batches and packets of every overflow
    are counted in the reports and the counters for the next one. *)
Theorem write_loop_delivers oc ideal mtu now rs :
  Forall round_wf rs ->
  Z.of_nat (Nat.max ideal (GSO_MAX_AGGREGATE / Nat.max mtu 1 + 2) * length rs) <= U64_MAX ->
  exists n batches reports s', tun_write_loop_gso HDR oc ideal mtu now rs = Ret (batches, reports, s') /\
    (GSO_MAX_AGGREGATE / Nat.max mtu 1 + 2 <= n)%nat /\
    Forall2 (Forall2 holds) batches (map fst (handed n rs)) /\
    Z.of_nat (length (overflowed (handed n rs))) = sumZ (map fst reports) + ol_batches (ws_log s') /\
    Z.of_nat (length (concat (overflowed (handed n rs)))) = sumZ (map snd reports) + ol_at_risk (ws_log s').
Proof.
  intros Hw Hb. unfold tun_write_loop_gso.
  destruct (gso_batch_size_spec ideal mtu CAP) as (n & E & Hn1 & Hn2); [unfold GSO_WRITE_BUF_CAP; lia|].
  rewrite E. cbn [mbind outcome_bind]. set (m := (GSO_MAX_AGGREGATE / Nat.max mtu 1 + 2)%nat) in *.
  assert (2 <= m)%nat as Hm by (unfold m; lia). clearbody m.
  pose proof (write_rounds_spec oc n rs (mkWriteState (replicate n (GsoWriteBuf_new HDR)) (OverflowLog_new now) false) Hw) as W.
  cbn [ws_bufs ws_log ws_ended] in W.
  assert (ol_batches (OverflowLog_new now) = 0 /\ ol_at_risk (OverflowLog_new now) = 0) as [Z1 Z2] by done.
  rewrite Z1, Z2, !Z.add_0_l in W. destruct W as (bs & rp & s' & Ew & H1 & H2 & H3).
  - apply Forall_replicate, new_slot_ok.
  - apply length_replicate.
  - lia.
  - done.
  - lia.
  - nia.
  - lia.
  - nia.
  - exists n, bs, rp, s'. by split_and!.
Qed.
End WriteFacts.

Definition sample_rwc (p : bytes) : RwcRead := mkRwcRead (0 :: p) 1 (length p).

(** Two packets that were there together, a full device, then a third. *)
Definition sample_rounds : list WriteRound :=
  [mkWriteRound (GotPacket (sample_rwc [96; 1])) [TryPacket (sample_rwc [96; 2]); TryEmpty] (SendOverflow 7)
     [[OpExtend [5; 5]; OpResize 40 0]];
   mkWriteRound (GotPacket (sample_rwc [96; 3])) [] SendDone []].

Lemma write_loop_delivers_witness :
  Forall (round_wf 10) sample_rounds /\
  exists n batches reports s', tun_write_loop_gso 10 true 128 1500 0 sample_rounds = Ret (batches, reports, s') /\
    Forall2 (Forall2 (holds 10)) batches (map fst (handed n sample_rounds)).
Proof.
  assert (Forall (round_wf 10) sample_rounds) as Hw.
  { assert (forall a b, rwc_wf 10 (sample_rwc [a; b])) as H.
    { intros a b. unfold rwc_wf, GSO_WRITE_BUF_CAP, GSO_MAX_AGGREGATE, sample_rwc. cbn [rr_start rr_len rr_buf length]. lia. }
    apply Forall_cons. split; [split; [apply H|apply Forall_cons; split; [apply H|apply Forall_singleton; exact I]]|].
    apply Forall_singleton. split; [apply H|apply Forall_nil; exact I]. }
  split; [exact Hw|].
  assert (Z.of_nat (Nat.max 128 (GSO_MAX_AGGREGATE / Nat.max 1500 1 + 2) * length sample_rounds) <= U64_MAX) as Hb
    by (by vm_compute).
  destruct (write_loop_delivers 10 ltac:(lia) true 128 1500 0 sample_rounds Hw Hb) as (n & b & r & s & E & _ & H & _).
  exists n, b, r, s. split; [exact E|exact H].
Defined.

(** *** Without offload *)

Fixpoint plain_packets (rs : list PlainRead) : list bytes :=
  match rs with
  | [] | PlainFailed :: _ => []
  | PlainPacket p SendFailed :: _ => [p]
  | PlainPacket p _ :: rs => p :: plain_packets rs
  end.

Fixpoint plain_drops (rs : list PlainRead) : Z :=
  match rs with
  | [] | PlainFailed :: _ | PlainPacket _ SendFailed :: _ => 0
  | PlainPacket _ (SendOverflow _) :: rs => 1 + plain_drops rs
  | PlainPacket _ SendDone :: rs => plain_drops rs
  end.

(** The plain write loop offers every packet to the device once, in order, until
    the gateway or the device fails for good, and counts every dropped packet. *)
Lemma plain_loop_delivers oc rs : forall s,
  pl_ended s = false -> 0 <= pl_dropped s -> pl_dropped s + Z.of_nat (length rs) <= U64_MAX ->
  exists reports s', tun_write_loop oc rs s = Ret (plain_packets rs, reports, s') /\
    pl_dropped s + plain_drops rs = sumZ reports + pl_dropped s'.
Proof.
  induction rs as [|r rs IH]; intros s He H0 Hm; cbn [tun_write_loop plain_packets plain_drops].
  { exists [], s. split; [done|cbn; lia]. }
  cbn [length] in Hm. rewrite He. destruct r as [p [|now|]|]; cbn [plain_round mbind outcome_bind].
  - destruct (IH s He H0 ltac:(lia)) as (rp & s' & -> & Hd). by exists rp, s'.
  - rewrite arith64_ok by (unfold is_u64, U64_MAX in *; lia). cbn [mbind outcome_bind]. case_match.
    + destruct (IH (mkPlainState now 0 false)) as (rp & s' & E & Hd); [done|done|cbn [pl_dropped]; lia|].
      cbn [mbind outcome_bind]. rewrite E. cbn [pl_dropped] in Hd.
      exists (pl_dropped s + 1 :: rp), s'. split; [done|cbn [sumZ]; lia].
    + destruct (IH (mkPlainState (pl_last s) (pl_dropped s + 1) false)) as (rp & s' & E & Hd);
        [done|cbn [pl_dropped]; lia|cbn [pl_dropped]; lia|].
      cbn [mbind outcome_bind]. rewrite E. cbn [pl_dropped] in Hd. exists rp, s'. split; [done|lia].
  - exists [], (mkPlainState (pl_last s) (pl_dropped s) true). split; [by destruct rs|cbn; lia].
  - exists [], (mkPlainState (pl_last s) (pl_dropped s) true). split; [by destruct rs|cbn; lia].
Qed.
