(* ===== verification/Text.v ===== *)
(** * Text: strings as the configuration and the command line use them

    A Rust [str] is a list of Unicode scalar values; [utf8_len] is its length in
    bytes, which is what [str::len] returns. The operations are those of the
    Standard Library that the text-handling code calls: trimming, prefixes,
    searching, splitting, lines, numbers. *)

From S2P Require Import Prelude.
From stdpp Require Import strings options.
Open Scope Z_scope.

Abbreviation str := (list Z) (only parsing).

(** A literal of the source. *)
Definition lit (s : string) : str := (fun a => Z.of_N (Ascii.N_of_ascii a)) <$> String.list_ascii_of_string s.

Definition utf8_width (c : Z) : nat :=
  if c <? 128 then 1 else if c <? 2048 then 2 else if c <? 65536 then 3 else 4.
Definition utf8_len (s : str) : nat := sum_list (utf8_width <$> s).

(** ** Characters *)

(** [char::is_whitespace]: the Unicode property White_Space. *)
Definition is_whitespace (c : Z) : bool :=
  ((9 <=? c) && (c <=? 13)) || (c =? 32) || (c =? 133) || (c =? 160) || (c =? 5760) ||
  ((8192 <=? c) && (c <=? 8202)) || (c =? 8232) || (c =? 8233) || (c =? 8239) || (c =? 8287) || (c =? 12288).

Definition is_ascii_digit (c : Z) : bool := (48 <=? c) && (c <=? 57).

Definition hex_value (c : Z) : option Z :=
  if is_ascii_digit c then Some (c - 48)
  else if (97 <=? c) && (c <=? 102) then Some (c - 87)
  else if (65 <=? c) && (c <=? 70) then Some (c - 55)
  else None.
Definition is_ascii_hexdigit (c : Z) : bool := match hex_value c with Some _ => true | None => false end.

(** ** Trimming *)

Fixpoint trim_start (s : str) : str :=
  match s with
  | c :: rest => if is_whitespace c then trim_start rest else s
  | [] => []
  end.
Definition trim_end (s : str) : str := reverse (trim_start (reverse s)).
Definition trim (s : str) : str := trim_end (trim_start s).

(** ** Prefixes and searching *)

Fixpoint strip_prefix (p s : str) : option str :=
  match p, s with
  | [], s => Some s
  | a :: p, b :: s => if a =? b then strip_prefix p s else None
  | _ :: _, [] => None
  end.
Definition starts_with (p s : str) : bool := match strip_prefix p s with Some _ => true | None => false end.

Definition ends_with (suffix s : str) : bool := starts_with (reverse suffix) (reverse s).

Fixpoint contains (p s : str) : bool :=
  starts_with p s || match s with [] => false | _ :: s => contains p s end.

(** [split_once] on a character. *)
Fixpoint split_once (c : Z) (s : str) : option (str * str) :=
  match s with
  | [] => None
  | d :: s =>
      if d =? c then Some ([], s)
      else match split_once c s with Some (a, b) => Some (d :: a, b) | None => None end
  end.

(** [rsplit_once]: the last occurrence. *)
Fixpoint rsplit_once (c : Z) (s : str) : option (str * str) :=
  match s with
  | [] => None
  | d :: s =>
      match rsplit_once c s with
      | Some (a, b) => Some (d :: a, b)
      | None => if d =? c then Some ([], s) else None
      end
  end.

(** [str::split] on a character: always at least one piece. *)
Fixpoint split_on (c : Z) (s : str) : list str :=
  match s with
  | [] => [[]]
  | d :: s =>
      if d =? c then [] :: split_on c s
      else match split_on c s with p :: ps => (d :: p) :: ps | [] => [[d]] end
  end.

(** The pieces between white space, empty ones included. *)
Definition words_loop (s : str) : list str :=
  foldr (fun c acc => if is_whitespace c then [] :: acc else match acc with p :: ps => (c :: p) :: ps | [] => [[c]] end) [[]] s.
Definition split_whitespace (s : str) : list str := filter (fun p => p <> []) (words_loop s).

(** ** Lines *)

(** A line ended by a line feed loses a carriage return before it. *)
Definition strip_cr (line : str) : str :=
  match last line with Some 13 => take (length line - 1) line | _ => line end.

Fixpoint lines_loop (s cur : str) : list str :=
  match s with
  | [] => if bool_decide (cur = []) then [] else [cur]
  | c :: s => if c =? 10 then strip_cr cur :: lines_loop s [] else lines_loop s (cur ++ [c])
  end.
Definition lines (s : str) : list str := lines_loop s [].

(** ** Numbers *)

(** [parse] of an unsigned type: an optional sign, at least one digit, no
    overflow. *)
Definition digits_value (s : str) : Z := foldl (fun acc c => acc * 10 + (c - 48)) 0 s.
Definition parse_uint (max : Z) (s : str) : option Z :=
  let s := match s with 43 :: s => s | s => s end in
  if bool_decide (s = []) || negb (forallb is_ascii_digit s) then None
  else if digits_value s <=? max then Some (digits_value s) else None.

(** [to_string] of an unsigned number; every width here is at most 64 bits, so
    20 digits are enough. *)
Fixpoint show_loop (fuel : nat) (n : Z) (acc : str) : str :=
  match fuel with
  | O => acc
  | S fuel => let acc := (48 + n mod 10) :: acc in if n <? 10 then acc else show_loop fuel (n / 10) acc
  end.
Definition show (n : Z) : str := show_loop 20 n [].

(** [{:02x}] of a byte. *)
Definition hex_digit (n : Z) : Z := if n <? 10 then 48 + n else 87 + n.
Definition show_02x (n : Z) : str := [hex_digit (n / 16); hex_digit (n mod 16)].

(** [hex::decode]: an even number of hexadecimal digits. *)
Fixpoint hex_decode (s : str) : option (list Z) :=
  match s with
  | [] => Some []
  | a :: b :: s =>
      match hex_value a, hex_value b, hex_decode s with
      | Some h, Some l, Some bs => Some (h * 16 + l :: bs)
      | _, _, _ => None
      end
  | [_] => None
  end.

(** [str::replace] of a non-empty pattern. *)
Fixpoint replace_loop (fuel : nat) (from to s : str) : str :=
  match fuel with
  | O => s
  | S fuel =>
      match strip_prefix from s, s with
      | Some rest, _ => to ++ replace_loop fuel from to rest
      | None, c :: s => c :: replace_loop fuel from to s
      | None, [] => []
      end
  end.
Definition replace (from to s : str) : str := replace_loop (S (length s)) from to s.

(** ** Lemmas *)

Lemma strip_prefix_Some p s rest : strip_prefix p s = Some rest <-> s = p ++ rest.
Proof.
  revert s. induction p as [|a p IH]; intros [|b s]; cbn; [naive_solver..|].
  destruct (Z.eqb_spec a b) as [->|Hne]; [rewrite IH; naive_solver|naive_solver].
Qed.

Lemma trim_start_idem s : trim_start (trim_start s) = trim_start s.
Proof. induction s as [|c s IH]; cbn; [done|]. destruct (is_whitespace c) eqn:E; [done|]. cbn. by rewrite E. Qed.

Lemma trim_start_suffix s : exists ws, s = ws ++ trim_start s /\ Forall (fun c => is_whitespace c = true) ws.
Proof.
  induction s as [|c s (ws & E & F)]; cbn; [by exists []|]. destruct (is_whitespace c) eqn:Ec; [|by exists []].
  exists (c :: ws). cbn. rewrite <- E. split; [done|by constructor].
Qed.

Lemma trim_start_app_ws s ws :
  Forall (fun c => is_whitespace c = true) ws ->
  trim_start (s ++ ws) = if bool_decide (trim_start s = []) then [] else trim_start s ++ ws.
Proof.
  intros F. induction s as [|c s IH]; cbn.
  - induction F as [|c ws Hc F IH]; cbn; [done|]. by rewrite Hc.
  - destruct (is_whitespace c); [done|]. by rewrite bool_decide_false.
Qed.

(** Trailing white space does not change what [trim] gives. *)
Lemma trim_app_ws s ws : Forall (fun c => is_whitespace c = true) ws -> trim (s ++ ws) = trim s.
Proof.
  intros F. unfold trim. rewrite trim_start_app_ws by done. case_bool_decide as E; [by rewrite E|].
  unfold trim_end. rewrite reverse_app. f_equal.
  assert (Forall (fun c => is_whitespace c = true) (reverse ws)) as F' by (by apply Forall_reverse).
  induction F' as [|c ws' Hc F' IH]; cbn; [done|]. by rewrite Hc.
Qed.

Lemma lines_loop_app a b cur : 10 ∉ a -> lines_loop (a ++ 10 :: b) cur = strip_cr (cur ++ a) :: lines_loop b [].
Proof.
  revert cur. induction a as [|c a IH]; intros cur Ha; cbn; [by rewrite app_nil_r|].
  apply not_elem_of_cons in Ha as [Hc Ha]. destruct (Z.eqb_spec c 10); [done|].
  rewrite IH by done. by rewrite <- app_assoc.
Qed.

(** The lines of lines, each ended by a line feed. *)
Lemma lines_unlines ls :
  Forall (fun l => 10 ∉ l) ls -> lines (concat (map (fun l => l ++ [10]) ls)) = strip_cr <$> ls.
Proof.
  induction 1 as [|l ls Hl _ IH]; [done|]. cbn [map concat]. unfold lines. rewrite <- app_assoc. cbn [app].
  rewrite lines_loop_app by done. cbn [app]. rewrite fmap_cons. f_equal. exact IH.
Qed.

Lemma take_pred_last (l : str) x : last l = Some x -> l = take (length l - 1) l ++ [x].
Proof.
  intros [l' ->]%last_Some. rewrite length_app. cbn. replace (length l' + 1 - 1)%nat with (length l') by lia.
  by rewrite take_app_length.
Qed.

Lemma strip_cr_cases l : strip_cr l = l \/ l = strip_cr l ++ [13].
Proof.
  unfold strip_cr. destruct (last l) as [x|] eqn:E; [|by left].
  destruct (Z.eq_dec x 13) as [->|Hne]; [right; by apply take_pred_last|left].
  destruct x as [|[p|p|]|p]; try done. repeat (destruct p as [p|p|]; try done).
Qed.

Lemma strip_cr_no_lf l : 10 ∉ l -> 10 ∉ strip_cr l.
Proof. destruct (strip_cr_cases l) as [->|E]; [done|]. rewrite E at 1. set_solver. Qed.

Lemma lines_no_lf s : Forall (fun l => 10 ∉ l) (lines s).
Proof.
  unfold lines. assert (10 ∉ ([] : str)) as H by set_solver. revert H. generalize ([] : str) as cur.
  induction s as [|c s IH]; intros cur Hc; cbn.
  - case_bool_decide; by repeat constructor.
  - destruct (Z.eqb_spec c 10).
    + constructor; [by apply strip_cr_no_lf|]. apply IH. set_solver.
    + apply IH. set_solver.
Qed.

Lemma split_once_Some c s a b : split_once c s = Some (a, b) <-> s = a ++ c :: b /\ c ∉ a.
Proof.
  revert a b. induction s as [|d s IH]; intros a b; cbn.
  - split; [done|]. intros [E _]. by destruct a.
  - destruct (Z.eqb_spec d c) as [->|Hne].
    + split; [intros [= <- <-]; split; [done|set_solver]|].
      intros [E Hn]. destruct a as [|x a]; cbn in E; [by injection E as <-|].
      injection E as -> ->. set_solver.
    + destruct (split_once c s) as [[a' b']|] eqn:E.
      * specialize (proj1 (IH a' b') eq_refl) as [-> Hn]. split; [intros [= <- <-]; split; [done|set_solver]|].
        intros [E2 Hn2]. destruct a as [|x a]; cbn in E2; [congruence|]. injection E2 as <- E2.
        assert (Some (a', b') = Some (a, b)) as [= <- <-] by (apply IH; split; [done|set_solver]). done.
      * split; [done|]. intros [E2 Hn]. destruct a as [|x a]; cbn in E2; [congruence|]. injection E2 as <- E2.
        assert (None = Some (a, b)) by (apply IH; split; [done|set_solver]). done.
Qed.

Lemma rsplit_once_Some c s a b : rsplit_once c s = Some (a, b) <-> s = a ++ c :: b /\ c ∉ b.
Proof.
  assert (forall s, rsplit_once c s = None <-> c ∉ s) as Hnone.
  { clear. intros s. induction s as [|d s IH]; cbn; [set_solver|].
    destruct (rsplit_once c s) as [[]|]; [split; [done|]; intros Hn; apply not_elem_of_cons in Hn as [_ Hn]; by apply IH in Hn|].
    destruct (Z.eqb_spec d c) as [->|]; [split; [done|set_solver]|]. split; [|done]. intros _.
    apply not_elem_of_cons. split; [done|by apply IH]. }
  revert a b. induction s as [|d s IH]; intros a b; cbn.
  - split; [done|]. intros [E _]. by destruct a.
  - destruct (rsplit_once c s) as [[a' b']|] eqn:E.
    + specialize (proj1 (IH a' b') eq_refl) as [-> Hn]. split; [intros [= <- <-]; by split|].
      intros [E2 Hn2]. destruct a as [|x a]; cbn in E2; [injection E2 as -> <-; set_solver|]. injection E2 as <- E2.
      assert (Some (a', b') = Some (a, b)) as [= <- <-] by (by apply IH). done.
    + apply Hnone in E. destruct (Z.eqb_spec d c) as [->|Hne].
      * split; [intros [= <- <-]; by split|]. intros [E2 Hn]. destruct a as [|x a]; cbn in E2; [by injection E2 as <-|].
        injection E2 as -> ->. set_solver.
      * split; [done|]. intros [E2 Hn]. destruct a as [|x a]; cbn in E2; [congruence|]. injection E2 as <- ->. set_solver.
Qed.

Lemma words_loop_word w c s :
  Forall (fun c => is_whitespace c = false) w -> is_whitespace c = true -> words_loop (w ++ c :: s) = w :: words_loop s.
Proof.
  intros F Hc. induction F as [|d w Hd F IH]; cbn; [by rewrite Hc|]. rewrite Hd.
  unfold words_loop in IH. by rewrite IH.
Qed.

Lemma words_loop_last w : Forall (fun c => is_whitespace c = false) w -> words_loop w = [w].
Proof. induction 1 as [|d w Hd F IH]; [done|]. cbn. rewrite Hd. unfold words_loop in IH. by rewrite IH. Qed.

Lemma split_whitespace_words s ws : words_loop s = ws -> Forall (fun w => w <> []) ws -> split_whitespace s = ws.
Proof.
  unfold split_whitespace. intros -> F. induction F as [|w ws Hw F IH]; [done|].
  rewrite filter_cons, decide_True by done. by f_equal.
Qed.

Lemma strip_prefix_app p s : strip_prefix p (p ++ s) = Some s.
Proof. by apply strip_prefix_Some. Qed.

(** *** Numbers *)

Lemma digits_value_snoc ds d : digits_value (ds ++ [d]) = digits_value ds * 10 + (d - 48).
Proof. unfold digits_value. by rewrite foldl_app. Qed.

Definition digits (ds : str) : Prop := Forall (fun c => is_ascii_digit c = true) ds.

Lemma digit_mod n : is_ascii_digit (48 + n mod 10) = true.
Proof. pose proof (Z.mod_pos_bound n 10 ltac:(lia)). unfold is_ascii_digit. apply andb_true_iff. lia. Qed.

Lemma show_loop_spec fuel : forall n acc, 0 <= n < 10 ^ Z.of_nat fuel -> (0 < fuel)%nat ->
  exists ds, show_loop fuel n acc = ds ++ acc /\ digits ds /\ ds <> [] /\ digits_value ds = n /\
    (forall k, n < 10 ^ Z.of_nat (S k) -> (length ds <= S k)%nat).
Proof.
  induction fuel as [|fuel IH]; intros n acc Hn Hf; [lia|]. cbn [show_loop].
  rewrite Nat2Z.inj_succ, Z.pow_succ_r in Hn by lia.
  pose proof (Z.div_mod n 10 ltac:(lia)). pose proof (Z.mod_pos_bound n 10 ltac:(lia)).
  destruct (Z.ltb_spec n 10) as [Hlt|Hge].
  - exists [48 + n mod 10]. split_and!; [done|constructor; [apply digit_mod|constructor]|done| |cbn; lia].
    unfold digits_value. cbn [foldl]. rewrite Z.mod_small by lia. lia.
  - assert (0 < fuel)%nat by (destruct fuel; [cbn in Hn; lia|lia]).
    destruct (IH (n / 10) ((48 + n mod 10) :: acc)) as (ds & E & D & N & V & L); [lia|done|].
    exists (ds ++ [48 + n mod 10]). rewrite E, <- app_assoc. split_and!; [done| | | |].
    + apply Forall_app. split; [done|constructor; [apply digit_mod|constructor]].
    + by destruct ds.
    + rewrite digits_value_snoc, V. lia.
    + intros k Hk. rewrite length_app. cbn [length]. destruct k as [|k]; [cbn in Hk; lia|].
      rewrite (Nat2Z.inj_succ (S k)), Z.pow_succ_r in Hk by lia. specialize (L k ltac:(lia)). lia.
Qed.

Lemma show_spec n : 0 <= n < 10 ^ 20 ->
  digits (show n) /\ show n <> [] /\ digits_value (show n) = n /\
  (forall k, n < 10 ^ Z.of_nat (S k) -> (length (show n) <= S k)%nat).
Proof.
  intros Hn. destruct (show_loop_spec 20 n [] Hn ltac:(lia)) as (ds & E & H). unfold show. rewrite E, app_nil_r. exact H.
Qed.

Lemma digits_forallb ds : digits ds -> forallb is_ascii_digit ds = true.
Proof. induction 1 as [|c ds Hc _ IH]; [done|]. cbn. by rewrite Hc, IH. Qed.

Lemma parse_uint_digits max ds :
  digits ds -> ds <> [] -> parse_uint max ds = if digits_value ds <=? max then Some (digits_value ds) else None.
Proof.
  intros D N. unfold parse_uint.
  assert ((match ds with 43 :: s => s | s => s end) = ds) as ->.
  { destruct D as [|c ds Hc D]; [done|]. unfold is_ascii_digit in Hc. apply andb_true_iff in Hc as [Hc _]. apply Z.leb_le in Hc.
    destruct c as [|c|c]; try done. do 6 (destruct c as [c|c|]; try done); lia. }
  rewrite bool_decide_false by done. by rewrite digits_forallb.
Qed.

Lemma parse_uint_show max n : 0 <= n <= max -> max < 10 ^ 20 -> parse_uint max (show n) = Some n.
Proof.
  intros Hn Hm. destruct (show_spec n ltac:(lia)) as (D & N & V & _). rewrite parse_uint_digits by done.
  rewrite V. by rewrite (proj2 (Z.leb_le n max)) by lia.
Qed.

Lemma parse_uint_bound max s n : parse_uint max s = Some n -> n <= max.
Proof.
  unfold parse_uint. generalize (match s with 43 :: s => s | s => s end). intros t. case_match; [done|].
  destruct (Z.leb_spec (digits_value t) max); [by intros [= <-]|done].
Qed.

Lemma digits_not_in ds c : digits ds -> is_ascii_digit c = false -> c ∉ ds.
Proof. intros D Hc Hin. unfold digits in D. rewrite Forall_forall in D. specialize (D c Hin). congruence. Qed.

Lemma filter_digits ds : digits ds -> filter (fun c => is_ascii_digit c = true) ds = ds.
Proof. induction 1 as [|c ds Hc _ IH]; [done|]. unfold filter, list_filter in *. cbn. rewrite decide_True by done. by f_equal. Qed.

Lemma split_once_app c a b : c ∉ a -> split_once c (a ++ c :: b) = Some (a, b).
Proof. intros. by apply split_once_Some. Qed.

Lemma starts_with_app p s : starts_with p s = true <-> exists rest, s = p ++ rest.
Proof.
  unfold starts_with. destruct (strip_prefix p s) as [rest|] eqn:E.
  - apply strip_prefix_Some in E. split; [eauto|done].
  - split; [done|]. intros [rest Hr]. apply strip_prefix_Some in Hr. congruence.
Qed.

Lemma ends_with_app p s : ends_with p s = true <-> exists front, s = front ++ p.
Proof.
  unfold ends_with. rewrite starts_with_app. split.
  - intros [rest E]. exists (reverse rest). rewrite <- (reverse_involutive s), E, reverse_app, reverse_involutive. done.
  - intros [front ->]. exists (reverse front). by rewrite reverse_app.
Qed.

Lemma trim_start_id s : (forall c, head s = Some c -> is_whitespace c = false) -> trim_start s = s.
Proof. destruct s as [|c s]; intros H; [done|]. cbn. by rewrite (H c eq_refl). Qed.

Lemma trim_id s :
  (forall c, head s = Some c -> is_whitespace c = false) -> (forall c, last s = Some c -> is_whitespace c = false) -> trim s = s.
Proof.
  intros Hh Hl. unfold trim, trim_end. rewrite (trim_start_id s) by done.
  rewrite trim_start_id; [apply reverse_involutive|]. intros c Hc. apply Hl. by rewrite head_reverse in Hc.
Qed.
