(* ===== verification/Config.v ===== *)
(** * Config: the configuration file and the values taken from it

    Models [crates/yggdrasil/src/config.rs]: the [include] lines and their
    expansion, the merge of missing keys from the template, the clamped settings,
    the keys. The file system is a parameter: what [canonicalize] returns, and the
    finite set of files; paths follow [std::path] on Unix. Parsing and printing of
    TOML are of the [toml] crates, [SigningKey] of [ed25519-dalek]. *)

From stdpp Require Import strings options.
From S2P Require Import Prelude.
From S2P Require Import Wire.
From S2P Require Import Crypto.
From S2P Require Import Address.
From S2P Require Import Liveness.
From S2P Require Import Firewall.
From S2P Require Import Multicast.
From S2P Require Import Text.
Open Scope Z_scope.
#[local] Set Warnings "-register-all".

(** ** Paths *)

(** Whether the path is absolute, and its components. *)
Definition path : Type := bool * list str.

#[export] Instance path_eq_dec : EqDecision path.
Proof. unfold path. apply _. Defined.
#[export] Instance path_countable : Countable path.
Proof. unfold path. apply _. Defined.

Definition dot : str := lit ".".

(** A [.] is a component only at the start of a relative path. *)
Definition normal (absolute : bool) (comps : list str) : list str :=
  match comps with
  | c :: rest =>
      if bool_decide (c = dot) && negb absolute then c :: filter (fun c => c <> dot) rest
      else filter (fun c => c <> dot) comps
  | [] => []
  end.

Definition Path_new (s : str) : path :=
  let absolute := starts_with (lit "/") s in
  (absolute, normal absolute (filter (fun c => c <> []) (split_on 47 s))).

Definition Path_parent (p : path) : option path :=
  match p.2 with
  | [] => None
  | comps => Some (p.1, take (length comps - 1) comps)
  end.

Definition Path_join (p q : path) : path := if q.1 then q else (p.1, normal p.1 (p.2 ++ q.2)).

(** ** The file system *)

Inductive FileBody := Readable (text : str) | Unreadable.
Inductive CanonResult := CanonOk (p : path) | CanonNotFound | CanonFailed.

Record FileSystem := mkFileSystem {
  fs_canonicalize : path -> CanonResult;
  fs_files : gmap path FileBody }.

Inductive FileRead := FileText (text : str) | FileNotFound | FileError.

Definition read_to_string (fs : FileSystem) (p : path) : FileRead :=
  match fs_canonicalize fs p with
  | CanonOk k =>
      match fs_files fs !! k with
      | Some (Readable t) => FileText t
      | Some Unreadable => FileError
      | None => FileNotFound
      end
  | CanonNotFound => FileNotFound
  | CanonFailed => FileError
  end.

(** ** Include lines *)

(** The first character, where it is one byte; [find] of it. *)
Definition parse_quoted_toml_string (s : str) : option str :=
  let s := trim_start s in
  if (utf8_len s <? 2)%nat then None
  else
    match s with
    | quote :: rest =>
        if (quote =? 34) || (quote =? 39) then
          match split_once quote rest with Some (body, _) => Some body | None => None end
        else None
    | [] => None
    end.

Definition include_path_from_line (raw : str) : option str :=
  let line := trim raw in
  if bool_decide (line = []) || starts_with (lit "#") line then None
  else
    match strip_prefix (lit "include") line with
    | None => None
    | Some rest =>
        match strip_prefix (lit "=") (trim_start rest) with
        | None => None
        | Some rest =>
            match parse_quoted_toml_string (trim_start rest) with
            | Some p => if bool_decide (p = []) then None else Some p
            | None => None
            end
        end
    end.

Definition uncommented_include_paths (text : str) : list str := omap include_path_from_line (lines text).
Definition has_uncommented_include (text : str) : bool := negb (bool_decide (uncommented_include_paths text = [])).

(** ** Expansion *)

Inductive Warning := AlreadyIncluded (p : path) | IncludeNotFound (p : path) | IncludeUnreadable (p : path).

Section Expand.
Context (fs : FileSystem).

(** The key of the set of visited files. *)
Definition visit_key (p : path) : path :=
  match fs_canonicalize fs p with CanonOk k => k | _ => p end.

Definition include_target (p : path) (inc : str) : path :=
  Path_join (default (Path_new (lit ".")) (Path_parent p)) (Path_new inc).

(** The text, the files visited and the warnings. *)
Definition Expansion : Type := str * gset path * list Warning.

(** The loop over the lines of the file at [p]. *)
Fixpoint expand_lines (expand : path -> gset path -> list Warning -> option Expansion)
    (p : path) (ls : list str) (out : str) (visited : gset path) (warnings : list Warning) : option Expansion :=
  match ls with
  | [] => Some (out, visited, warnings)
  | raw_line :: ls =>
      match include_path_from_line raw_line with
      | Some inc =>
          match expand (include_target p inc) visited warnings with
          | None => None
          | Some (piece, visited, warnings) =>
              if bool_decide (piece = []) then expand_lines expand p ls out visited warnings
              else
                let out := out ++ piece in
                let out := if bool_decide (last out = Some 10) then out else out ++ [10] in
                expand_lines expand p ls out visited warnings
          end
      | None => expand_lines expand p ls (out ++ raw_line ++ [10]) visited warnings
      end
  end.

(** [None] stands for a recursion deeper than [fuel]. *)
Fixpoint expand_config_includes_inner (fuel : nat) (p : path) (visited : gset path) (warnings : list Warning)
    : option Expansion :=
  match fuel with
  | O => None
  | S fuel =>
      let key := visit_key p in
      if bool_decide (key ∈ visited) then Some ([], visited, warnings ++ [AlreadyIncluded p])
      else
        let visited := {[key]} ∪ visited in
        match read_to_string fs p with
        | FileNotFound => Some ([], visited, warnings ++ [IncludeNotFound p])
        | FileError => Some ([], visited, warnings ++ [IncludeUnreadable p])
        | FileText raw => expand_lines (expand_config_includes_inner fuel) p (lines raw) [] visited warnings
        end
  end.

(** Every level of the recursion visits one more file. *)
Definition expand_config_includes (p : path) : option (str * list Warning) :=
  match expand_config_includes_inner (2 + size (fs_files fs)) p ∅ [] with
  | Some (text, _, warnings) => Some (text, warnings)
  | None => None
  end.
End Expand.

(** ** The merge of missing keys *)

(** The items of a document: values (with inline tables and arrays of them),
    tables, arrays of tables. A table is its keys in order, each once. *)
Inductive Item :=
| IValue (v : str)
| ITable (entries : list (str * Item))
| ITables (v : str).

Fixpoint table_get (key : str) (t : list (str * Item)) : option Item :=
  match t with
  | [] => None
  | (k, i) :: t => if bool_decide (k = key) then Some i else table_get key t
  end.

Fixpoint table_set (key : str) (i : Item) (t : list (str * Item)) : list (str * Item) :=
  match t with
  | [] => [(key, i)]
  | (k, j) :: t => if bool_decide (k = key) then (k, i) :: t else (k, j) :: table_set key i t
  end.

(** The loop over the template's keys; [rec] is the call on two tables. *)
Definition merge_entries (rec : Item -> Item -> Item) : list (str * Item) -> list (str * Item) -> list (str * Item) :=
  fix go (into from : list (str * Item)) {struct from} :=
    match from with
    | [] => into
    | (key, template_item) :: from =>
        go (match table_get key into with
            | None => into ++ [(key, template_item)]
            | Some user_item => table_set key (rec user_item template_item) into
            end) from
    end.

(** What becomes of a key on both sides: the user's item, merged when both are
    tables. *)
Fixpoint merge_item (user_item template_item : Item) {struct template_item} : Item :=
  match user_item, template_item with
  | ITable user, ITable template => ITable (merge_entries merge_item user template)
  | _, _ => user_item
  end.

Definition merge_missing (into from : list (str * Item)) : list (str * Item) := merge_entries merge_item into from.

(** ** Settings *)

(** [Ord::clamp] with bounds in order. *)
Definition clampz (lo hi v : Z) : Z := Z.min (Z.max v lo) hi.

Record IpRuleConfig := mkIpRuleConfig { ir_enable : bool; ir_pref : Z; ir_lookup : Z }.
Definition IpRuleConfig_default : IpRuleConfig := mkIpRuleConfig true 9000 200.

(** The table [[ip_rule]] as it is written: a key that is missing takes the
    default of its field's attribute, which is the type's for the numbers. *)
Definition IpRuleConfig_from_table (enable : option bool) (pref lookup : option Z) : IpRuleConfig :=
  mkIpRuleConfig (default true enable) (default 0 pref) (default 0 lookup).

Definition effective (r : IpRuleConfig) : option (Z * Z) :=
  if negb (ir_enable r) then None
  else Some (clampz 1 32765 (ir_pref r), clampz 1 251 (ir_lookup r) mod 256).

Definition default_keepalive_interval : Z := 20.
Record KeepaliveConfig := mkKeepaliveConfig { kc_direct : bool; kc_remote_count : Z; kc_interval : Z }.
Definition KeepaliveConfig_default : KeepaliveConfig := mkKeepaliveConfig false 0 default_keepalive_interval.

Record PeerLivenessConfig := mkPeerLivenessConfig {
  pl_adaptive : bool;
  pl_fixed_secs : Z;
  pl_min_secs : Z;
  pl_problem_min_secs : Z;
  pl_max_secs : Z;
  pl_base_secs : Z;
  pl_rtt_mult : Z;
  pl_probe_count : Z }.
Definition PeerLivenessConfig_default : PeerLivenessConfig := mkPeerLivenessConfig false 15 5 15 30 2 8 3.

Definition FirewallConfig_default : FirewallConfig := mkFirewallConfig false [] [] [] true.

Record TunnelRoutingConfig := mkTunnelRoutingConfig {
  tr_enable : bool;
  tr_yggdrasil_routing : bool;
  tr_ipv4_address : str;
  tr_ip_addresses : list str;
  tr_remote_subnets : gmap str (list str);
  tr_install_system_routes : bool }.
Definition TunnelRoutingConfig_default : TunnelRoutingConfig := mkTunnelRoutingConfig false true [] [] ∅ true.

Definition default_multicast_interfaces : list MulticastInterfaceConfig := [mkMulticastInterfaceConfig "*" true true 0 0 []].

(** [toml::Value]; floats and dates are values of their types. *)
Inductive TomlValue (F T : Type) :=
| TString (s : str)
| TInteger (i : Z)
| TFloat (f : F)
| TBoolean (b : bool)
| TDatetime (t : T)
| TArray (l : list (TomlValue F T))
| TTable (l : list (str * TomlValue F T)).
Arguments TString {F T}. Arguments TInteger {F T}. Arguments TFloat {F T}. Arguments TBoolean {F T}.
Arguments TDatetime {F T}. Arguments TArray {F T}. Arguments TTable {F T}.

Record Config {F T : Type} := mkConfig {
  cf_private_key : str;
  cf_peers : list str;
  cf_listen : list str;
  cf_admin_listen : str;
  cf_if_name : str;
  cf_if_mtu : Z;
  cf_if_dns_servers : list str;
  cf_if_gso : bool;
  cf_node_info : TomlValue F T;
  cf_node_info_privacy : bool;
  cf_allowed_public_keys : list str;
  cf_multicast_interfaces : list MulticastInterfaceConfig;
  cf_max_inbound_links_per_peer : Z;
  cf_tunnel_routing : TunnelRoutingConfig;
  cf_firewall : FirewallConfig;
  cf_group_password : bytes;
  cf_session_path_timeout : Z;
  cf_keepalive : KeepaliveConfig;
  cf_peer_liveness : PeerLivenessConfig;
  cf_ip_rule : IpRuleConfig }.
Arguments Config : clear implicits.

#[export] Instance Config_eta {F T} : Settable (Config F T) := fun c =>
  mkConfig F T (cf_private_key c) (cf_peers c) (cf_listen c) (cf_admin_listen c) (cf_if_name c) (cf_if_mtu c)
    (cf_if_dns_servers c) (cf_if_gso c) (cf_node_info c) (cf_node_info_privacy c) (cf_allowed_public_keys c)
    (cf_multicast_interfaces c) (cf_max_inbound_links_per_peer c) (cf_tunnel_routing c) (cf_firewall c)
    (cf_group_password c) (cf_session_path_timeout c) (cf_keepalive c) (cf_peer_liveness c) (cf_ip_rule c).

Definition default_mtu : Z := 65535.
Definition default_max_inbound_links_per_peer : Z := 4.
Definition default_session_path_timeout : Z := 60.

Definition Config_default {F T} : Config F T :=
  mkConfig F T [] [] [lit "tcp://[::]:0"] (lit "tcp://localhost:9001") (lit "auto") default_mtu [] false (TTable []) false []
    default_multicast_interfaces default_max_inbound_links_per_peer TunnelRoutingConfig_default FirewallConfig_default []
    default_session_path_timeout KeepaliveConfig_default PeerLivenessConfig_default IpRuleConfig_default.

Section Settings.
Context {F T : Type}.

(** Seconds. *)
Definition effective_session_path_timeout (c : Config F T) : Z := clampz 60 86400 (cf_session_path_timeout c).

Definition effective_keepalive_interval (c : Config F T) : Z :=
  let session_secs := clampz 60 86400 (cf_session_path_timeout c) in
  let upper := Z.max (session_secs / 2) 15 in
  clampz 15 upper (kc_interval (cf_keepalive c)).

Definition effective_keepalive_remote_count (c : Config F T) : Z := clampz 0 1000 (kc_remote_count (cf_keepalive c)).

End Settings.

(** ** Keys *)

Definition allowed_key (s : str) : option (list Z) :=
  match hex_decode s with
  | Some bs => if (length bs =? 32)%nat then Some bs else None
  | None => None
  end.
Definition allowed_keys {F T} (c : Config F T) : list (list Z) := omap allowed_key (cf_allowed_public_keys c).

Inductive KeyError := NoPrivateKey | InvalidHex | WrongLength (n : nat) | InvalidKey | LowOrder.

Section Keys.
Context `{D : Dalek} {F T : Type}.
(** [SigningKey::from_keypair_bytes] of [ed25519-dalek]. *)
Context (from_keypair_bytes : bytes -> option SigningKey).

Definition signing_key (c : Config F T) : result KeyError SigningKey :=
  if bool_decide (cf_private_key c = []) then Err NoPrivateKey
  else
    match hex_decode (cf_private_key c) with
    | None => Err InvalidHex
    | Some bs =>
        if negb (length bs =? 64)%nat then Err (WrongLength (length bs))
        else
          match from_keypair_bytes bs with
          | None => Err InvalidKey
          | Some key => if is_public_key_valid (sk_verifying_key_bytes key) then Ok key else Err LowOrder
          end
    end.
End Keys.

(** ** Node information *)

(** [serde_json::Value]; an object keeps its keys once, in some order. *)
Inductive JsonValue (N : Type) :=
| JNull
| JBool (b : bool)
| JNumber (n : N)
| JString (s : str)
| JArray (l : list (JsonValue N))
| JObject (l : list (str * JsonValue N)).
Arguments JNull {N}. Arguments JBool {N}. Arguments JNumber {N}. Arguments JString {N}. Arguments JArray {N}. Arguments JObject {N}.

Fixpoint object_insert {N} (key : str) (v : JsonValue N) (l : list (str * JsonValue N)) : list (str * JsonValue N) :=
  match l with
  | [] => [(key, v)]
  | (k, w) :: l => if bool_decide (k = key) then (k, v) :: l else (k, w) :: object_insert key v l
  end.
Fixpoint object_get {N} (key : str) (l : list (str * JsonValue N)) : option (JsonValue N) :=
  match l with
  | [] => None
  | (k, w) :: l => if bool_decide (k = key) then Some w else object_get key l
  end.

Section NodeInfo.
(** [serde_json]'s numbers, from an [i64] and from a finite float; the text of a
    date; the constants of the build. *)
Context {F T N : Type} (from_i64 : Z -> N) (from_f64 : F -> option N) (show_datetime : T -> str).
Context (pkg_name pkg_version os arch : str).

Fixpoint toml_to_json (v : TomlValue F T) : JsonValue N :=
  match v with
  | TString s => JString s
  | TInteger i => JNumber (from_i64 i)
  | TFloat f => match from_f64 f with Some n => JNumber n | None => JNull end
  | TBoolean b => JBool b
  | TDatetime t => JString (show_datetime t)
  | TArray l => JArray (map toml_to_json l)
  | TTable l => JObject (map (fun e => (e.1, toml_to_json e.2)) l)
  end.

(** The object that is printed. *)
Definition node_info_json (c : Config F T) : list (str * JsonValue N) :=
  let map := match toml_to_json (cf_node_info c) with JObject m => m | _ => [] end in
  if cf_node_info_privacy c then map
  else
    object_insert (lit "buildarch") (JString arch)
      (object_insert (lit "buildplatform") (JString os)
        (object_insert (lit "buildversion") (JString pkg_version)
          (object_insert (lit "buildname") (JString pkg_name) map))).
End NodeInfo.

(** ** The configuration of ironwood *)

(** [ironwood::Config]; durations in nanoseconds. *)
Record IwConfig := mkIwConfig {
  iw_router_refresh : Z;
  iw_router_timeout : Z;
  iw_peer_keepalive_delay : Z;
  iw_peer_timeout_cfg : AdaptiveTimeoutConfig;
  iw_peer_probe_count : Z;
  iw_peer_max_message_size : Z;
  iw_bloom_transform : option (PublicKey -> PublicKey);
  iw_path_notify : bool;
  iw_path_timeout : Z;
  iw_path_throttle : Z;
  iw_session_timeout : Z;
  iw_group_password : option bytes;
  iw_keepalive_direct : bool;
  iw_keepalive_interval : Z;
  iw_keepalive_remote_count : Z }.

#[export] Instance IwConfig_eta : Settable IwConfig := fun c =>
  mkIwConfig (iw_router_refresh c) (iw_router_timeout c) (iw_peer_keepalive_delay c) (iw_peer_timeout_cfg c)
    (iw_peer_probe_count c) (iw_peer_max_message_size c) (iw_bloom_transform c) (iw_path_notify c) (iw_path_timeout c)
    (iw_path_throttle c) (iw_session_timeout c) (iw_group_password c) (iw_keepalive_direct c) (iw_keepalive_interval c)
    (iw_keepalive_remote_count c).

Definition from_secs (s : Z) : Z := s * 1000000000.

Definition IwConfig_default : IwConfig :=
  mkIwConfig (from_secs (4 * 60)) (from_secs (5 * 60)) (from_secs 1) AdaptiveTimeoutConfig_default 3 (1024 * 1024) None false
    (from_secs 60) (from_secs 1) (from_secs 60) None false (from_secs 20) 0.

Definition with_peer_timeout_cfg (cfg : AdaptiveTimeoutConfig) (c : IwConfig) : IwConfig := c <| iw_peer_timeout_cfg := cfg |>.
Definition with_peer_probe_count (n : Z) (c : IwConfig) : IwConfig := c <| iw_peer_probe_count := Z.max n 1 |>.
Definition with_peer_max_message_size (size : Z) (c : IwConfig) : IwConfig := c <| iw_peer_max_message_size := size |>.
Definition with_bloom_transform (f : PublicKey -> PublicKey) (c : IwConfig) : IwConfig := c <| iw_bloom_transform := Some f |>.
Definition with_path_notify (c : IwConfig) : IwConfig := c <| iw_path_notify := true |>.
Definition with_path_timeout (d : Z) (c : IwConfig) : IwConfig := c <| iw_path_timeout := d |>.
Definition with_session_timeout (d : Z) (c : IwConfig) : IwConfig := c <| iw_session_timeout := d |>.
Definition with_group_password (password : bytes) (c : IwConfig) : IwConfig :=
  c <| iw_group_password := (if bool_decide (password = []) then None else Some password) |>.
Definition with_keepalive_direct (enable : bool) (c : IwConfig) : IwConfig := c <| iw_keepalive_direct := enable |>.
Definition with_keepalive_interval (d : Z) (c : IwConfig) : IwConfig := c <| iw_keepalive_interval := d |>.
Definition with_keepalive_remote_count (n : Z) (c : IwConfig) : IwConfig := c <| iw_keepalive_remote_count := n |>.

(** The settings of [Core::new], from the node's configuration. *)
Definition peer_timeout_cfg (pl : PeerLivenessConfig) : AdaptiveTimeoutConfig :=
  mkAdaptiveTimeoutConfig (from_secs (pl_fixed_secs pl)) (pl_adaptive pl) (from_secs (pl_min_secs pl))
    (from_secs (pl_problem_min_secs pl)) (from_secs (pl_max_secs pl)) (from_secs (pl_base_secs pl)) (pl_rtt_mult pl)
    (from_secs 5) 500000000.

Definition core_config {F T} (prefix : Z) (config : Config F T) : outcome IwConfig :=
  let pl := cf_peer_liveness config in
  match validate (peer_timeout_cfg pl) with
  | Err _ => Panic
  | Ok _ =>
      Ret (with_path_notify
          (with_keepalive_remote_count (effective_keepalive_remote_count config)
          (with_keepalive_interval (from_secs (effective_keepalive_interval config))
          (with_keepalive_direct (kc_direct (cf_keepalive config))
          (with_session_timeout (from_secs (effective_session_path_timeout config))
          (with_path_timeout (from_secs (effective_session_path_timeout config))
          (with_group_password (cf_group_password config)
          (with_peer_max_message_size (65535 * 2)
          (with_bloom_transform (bloom_transform prefix)
          (with_peer_probe_count (pl_probe_count pl)
          (with_peer_timeout_cfg (peer_timeout_cfg pl) IwConfig_default)))))))))))
  end.
