(* ===== verification/ConfigFacts.v ===== *)
(** * ConfigFacts: theorems about the configuration

    The expansion of [include] lines ends and takes every reachable file exactly
    once; the merge keeps the user's values and adds what is missing; the settings
    are in range; the list of allowed keys. *)

From stdpp Require Import strings options.
From S2P Require Import Prelude.
From S2P Require Import Wire.
From S2P Require Import Crypto.
From S2P Require Import Address.
From S2P Require Import Liveness.
From S2P Require Import Links.
From S2P Require Import Text.
From S2P Require Import Config.
Open Scope Z_scope.

(** ** Include lines *)

Definition unlines (ls : list str) : str := concat (map (fun l => l ++ [10]) ls).

Lemma unlines_app a b : unlines (a ++ b) = unlines a ++ unlines b.
Proof. unfold unlines. by rewrite map_app, concat_app. Qed.

Lemma last_unlines ls : unlines ls <> [] -> last (unlines ls) = Some 10.
Proof.
  induction ls as [|l ls IH] using rev_ind; [done|]. intros _. rewrite unlines_app. unfold unlines at 2. cbn.
  rewrite app_nil_r, app_assoc. apply last_snoc.
Qed.

Lemma include_strip_cr l : include_path_from_line (strip_cr l) = include_path_from_line l.
Proof.
  destruct (strip_cr_cases l) as [->|E]; [done|]. unfold include_path_from_line.
  assert (trim (strip_cr l) = trim l) as ->; [|done].
  transitivity (trim (strip_cr l ++ [13])); [symmetry; apply trim_app_ws; by repeat constructor|by rewrite <- E].
Qed.

(** What an [include] line looks like: the keyword, an equals sign and a path in
    quotes, with blanks around them; what follows the path does not matter. *)
Definition blank (s : str) : Prop := Forall (fun c => is_whitespace c = true) s.
Definition include_line (l inc : str) : Prop :=
  exists ws0 ws1 ws2 quote tail, l = ws0 ++ lit "include" ++ ws1 ++ [61] ++ ws2 ++ quote :: inc ++ quote :: tail
    /\ blank ws0 /\ blank ws1 /\ blank ws2 /\ (quote = 34 \/ quote = 39) /\ (quote ∉ inc) /\ inc <> [].

Lemma trim_start_blank ws c s : blank ws -> is_whitespace c = false -> trim_start (ws ++ c :: s) = c :: s.
Proof. intros F Hc. induction F as [|w ws Hw _ IH]; cbn; [by rewrite Hc|]. by rewrite Hw. Qed.

Lemma trim_start_keeps s c t : is_whitespace c = false -> exists s', trim_start (s ++ c :: t) = s' ++ c :: t.
Proof.
  intros Hc. induction s as [|d s (s' & IH)]; cbn; [exists []; by rewrite Hc|].
  destruct (is_whitespace d); [by exists s'|by exists (d :: s)].
Qed.

Lemma trim_end_keeps s c t : is_whitespace c = false -> exists t', trim_end (s ++ c :: t) = s ++ c :: t'.
Proof.
  intros Hc. unfold trim_end. rewrite reverse_app, reverse_cons, <- app_assoc. cbn [app].
  destruct (trim_start_keeps (reverse t) c (reverse s) Hc) as [t' ->]. exists (reverse t').
  rewrite reverse_app, reverse_cons, reverse_involutive, <- app_assoc. done.
Qed.

Lemma trim_end_blank s : exists ws, s = trim_end s ++ ws /\ blank ws.
Proof.
  destruct (trim_start_suffix (reverse s)) as (ws & E & F). exists (reverse ws). split; [|by apply Forall_reverse].
  unfold trim_end. rewrite <- reverse_app, <- E. by rewrite reverse_involutive.
Qed.

(** The code finds exactly these lines. *)
Lemma include_line_spec l inc : include_path_from_line l = Some inc <-> include_line l inc.
Proof.
  split.
  - unfold include_path_from_line. destruct (_ || _) eqn:Eh; [done|].
    destruct (strip_prefix (lit "include") (trim l)) as [r1|] eqn:E1; [|done]. apply strip_prefix_Some in E1.
    destruct (strip_prefix (lit "=") (trim_start r1)) as [r2|] eqn:E2; [|done]. apply strip_prefix_Some in E2.
    unfold parse_quoted_toml_string. rewrite trim_start_idem. destruct (_ <? 2)%nat; [done|].
    destruct (trim_start r2) as [|quote r3] eqn:E3; [done|]. destruct (_ || _) eqn:Eq in |- *; [|done].
    destruct (split_once quote r3) as [[body tail]|] eqn:Es; [|done]. apply split_once_Some in Es as [-> Hq].
    destruct (bool_decide_reflect (body = [])) as [|Hne]; [done|]. intros [= <-].
    destruct (trim_start_suffix l) as (ws0 & El & F0). destruct (trim_end_blank (trim_start l)) as (we & Ee & Fe). fold (trim l) in Ee.
    destruct (trim_start_suffix r1) as (ws1 & Er1 & F1). destruct (trim_start_suffix r2) as (ws2 & Er2 & F2).
    exists ws0, ws1, ws2, quote, (tail ++ we). split_and!; try done.
    + rewrite El at 1. rewrite Ee, E1, Er1, E2, Er2, E3. change (lit "=") with [61]. by rewrite <- !app_assoc, app_comm_cons, <- !app_assoc.
    + apply orb_prop in Eq as [?%Z.eqb_eq|?%Z.eqb_eq]; auto.
  - intros (ws0 & ws1 & ws2 & quote & tail & -> & F0 & F1 & F2 & Hq & Hn & Hne).
    assert (is_whitespace quote = false /\ (quote =? 34) || (quote =? 39) = true) as [Hw Hq'] by (by destruct Hq as [-> | ->]).
    assert (exists tail', trim (ws0 ++ lit "include" ++ ws1 ++ [61] ++ ws2 ++ quote :: inc ++ quote :: tail)
      = lit "include" ++ ws1 ++ [61] ++ ws2 ++ quote :: inc ++ quote :: tail') as [tail' Ht].
    { unfold trim. change (lit "include" ++ ?x) with (105 :: lit "nclude" ++ x). rewrite trim_start_blank by done.
      assert (forall t, 105 :: lit "nclude" ++ ws1 ++ [61] ++ ws2 ++ quote :: inc ++ quote :: t
        = (105 :: lit "nclude" ++ ws1 ++ [61] ++ ws2 ++ quote :: inc) ++ quote :: t) as Ha.
      { intros t. repeat (rewrite <- app_assoc || rewrite <- app_comm_cons). reflexivity. }
      rewrite Ha. destruct (trim_end_keeps (105 :: lit "nclude" ++ ws1 ++ [61] ++ ws2 ++ quote :: inc) quote tail Hw) as [tail' ->].
      exists tail'. symmetry. apply Ha. }
    unfold include_path_from_line. rewrite Ht. rewrite bool_decide_false by done.
    change (starts_with (lit "#") (lit "include" ++ _)) with false. cbn [orb]. rewrite strip_prefix_app.
    cbn [app]. rewrite trim_start_blank by done. change (61 :: ?x) with (lit "=" ++ x). rewrite strip_prefix_app.
    rewrite trim_start_blank by done. unfold parse_quoted_toml_string. rewrite (trim_start_id (quote :: _)) by (by intros c [= <-]).
    destruct (Nat.ltb_spec (utf8_len (quote :: inc ++ quote :: tail')) 2) as [Hl|_].
    { assert (utf8_width quote = 1%nat) as Hu by (by destruct Hq as [-> | ->]).
      unfold utf8_len in Hl. rewrite fmap_cons, fmap_app, fmap_cons in Hl. cbn [sum_list_with] in Hl.
      rewrite sum_list_with_app in Hl. cbn [sum_list_with] in Hl. unfold id in Hl. lia. }
    by rewrite Hq', split_once_app, bool_decide_false by done.
Qed.

(** A line that is kept as it is. *)
Definition plain_line (l : str) : Prop := (10 ∉ l) /\ include_path_from_line l = None.

Lemma unlines_no_include ls : Forall plain_line ls -> uncommented_include_paths (unlines ls) = [].
Proof.
  intros F. unfold uncommented_include_paths, unlines. rewrite lines_unlines.
  2: { eapply Forall_impl; [exact F|]. by intros l []. }
  induction F as [|l ls [_ Hl] F IH]; [done|]. rewrite fmap_cons. cbn. rewrite include_strip_cr, Hl. exact IH.
Qed.

(** ** The expansion *)

Section Expansion.
Context (fs : FileSystem).

Definition file_lines (p : path) : list str :=
  match read_to_string fs p with FileText t => lines t | _ => [] end.

(** The lines a file contributes, and the files it includes. *)
Definition own_lines (p : path) : list str := filter (fun l => include_path_from_line l = None) (file_lines p).
Definition includes (p : path) : list path := include_target p <$> omap include_path_from_line (file_lines p).

(** The same without the code's parser of lines. *)
Definition includes_file (p q : path) : Prop := exists l inc, l ∈ file_lines p /\ include_line l inc /\ q = include_target p inc.

Lemma elem_of_targets p q (raw : list str) : q ∈ include_target p <$> omap include_path_from_line raw <->
  exists l inc, l ∈ raw /\ include_line l inc /\ q = include_target p inc.
Proof.
  rewrite list_elem_of_fmap. setoid_rewrite list_elem_of_omap. setoid_rewrite include_line_spec. naive_solver.
Qed.

Lemma elem_of_own_lines p l : l ∈ own_lines p <-> l ∈ file_lines p /\ forall inc, ~ include_line l inc.
Proof.
  unfold own_lines. rewrite list_elem_of_filter. setoid_rewrite <- include_line_spec.
  destruct (include_path_from_line l); naive_solver.
Qed.

Definition visited_by (ps : list path) : gset path := list_to_set (visit_key fs <$> ps).

(** [ps] are the files visited from a set on, each once; the lines are theirs. *)
Record visits (v : gset path) (ps : list path) (ls : list str) : Prop := mkVisits {
  vi_nodup : NoDup (visit_key fs <$> ps);
  vi_fresh : forall p, p ∈ ps -> visit_key fs p ∉ v;
  vi_lines : ls ≡ₚ concat (own_lines <$> ps);
  vi_closed : forall p q, p ∈ ps -> q ∈ includes p -> visit_key fs q ∈ v ∪ visited_by ps }.

Lemma visited_by_app a b : visited_by (a ++ b) = visited_by a ∪ visited_by b.
Proof. unfold visited_by. by rewrite fmap_app, list_to_set_app_L. Qed.

Lemma elem_of_visited_by p ps : p ∈ ps -> visit_key fs p ∈ visited_by ps.
Proof. intros. unfold visited_by. apply elem_of_list_to_set. by apply list_elem_of_fmap_2. Qed.

Lemma visits_nil v : visits v [] [].
Proof. split; [constructor|set_solver|done|set_solver]. Qed.

Lemma visits_app v a b la lb : visits v a la -> visits (v ∪ visited_by a) b lb -> visits v (a ++ b) (la ++ lb).
Proof.
  intros [N1 F1 L1 C1] [N2 F2 L2 C2]. split.
  - rewrite fmap_app. apply NoDup_app. split_and!; [done| |done].
    intros k Ha (p & -> & Hp)%list_elem_of_fmap. apply (F2 p Hp). apply elem_of_union_r. by apply elem_of_list_to_set.
  - intros p [Hp|Hp]%elem_of_app; [by apply F1|]. specialize (F2 p Hp). set_solver.
  - by rewrite fmap_app, concat_app, L1, L2.
  - intros p q [Hp|Hp]%elem_of_app Hq; rewrite visited_by_app; [specialize (C1 p q Hp Hq)|specialize (C2 p q Hp Hq)]; set_solver.
Qed.

(** How many files are left. *)
Definition unvisited (v : gset path) : nat := size (dom (fs_files fs) ∖ v).

Lemma unvisited_mono v w : v ⊆ w -> (unvisited w <= unvisited v)%nat.
Proof. intros. unfold unvisited. apply subseteq_size. set_solver. Qed.

Lemma unvisited_read v p t :
  read_to_string fs p = FileText t -> visit_key fs p ∉ v -> (unvisited ({[visit_key fs p]} ∪ v) < unvisited v)%nat.
Proof.
  unfold read_to_string, visit_key. destruct (fs_canonicalize fs p) as [k| |]; [|done..].
  destruct (fs_files fs !! k) as [b|] eqn:E; [|done]. intros _ Hk. unfold unvisited. apply subset_size.
  assert (k ∈ dom (fs_files fs)) by (by apply elem_of_dom). set_solver.
Qed.

(** What the recursive call returns, from a set of visited files. *)
Definition expands (expand : path -> gset path -> list Warning -> option Expansion) (bound : nat) : Prop :=
  forall p v w, (unvisited v < bound)%nat ->
  exists ls ps w', expand p v w = Some (unlines ls, v ∪ visited_by ps, w') /\
    visits v ps ls /\ Forall plain_line ls /\ visit_key fs p ∈ v ∪ visited_by ps /\
    (visit_key fs p ∉ v -> p ∈ ps) /\ (forall q, q ∈ ps -> rtc includes_file p q).

(** The loop over the lines of [p]. *)
Lemma expand_lines_spec expand bound p raw : expands expand bound ->
  forall out v w, Forall (fun l => 10 ∉ l) raw -> (unvisited v < bound)%nat ->
  exists ls ps w', expand_lines expand p raw out v w = Some (out ++ unlines ls, v ∪ visited_by ps, w') /\
    (exists ls', visits v ps ls' /\ ls ≡ₚ filter (fun l => include_path_from_line l = None) raw ++ ls') /\
    Forall plain_line ls /\
    (forall q, q ∈ include_target p <$> omap include_path_from_line raw -> visit_key fs q ∈ v ∪ visited_by ps) /\
    (forall q, q ∈ ps -> exists r, r ∈ include_target p <$> omap include_path_from_line raw /\ rtc includes_file r q).
Proof.
  intros Hex. induction raw as [|l raw IH]; intros out v w Hlf Hv; cbn [expand_lines].
  { exists [], [], w. split_and!.
    - unfold visited_by. cbn. by rewrite app_nil_r, union_empty_r_L.
    - exists []. split; [apply visits_nil|done].
    - constructor.
    - cbn. set_solver.
    - intros q Hq. by apply elem_of_nil in Hq. }
  apply Forall_cons in Hlf as [Hl Hlf]. rewrite filter_cons. destruct (include_path_from_line l) as [inc|] eqn:E.
  - rewrite decide_False by done.
    destruct (Hex (include_target p inc) v w Hv) as (ls1 & ps1 & w1 & -> & V1 & F1 & K1 & _ & R1).
    assert (unvisited (v ∪ visited_by ps1) < bound)%nat as Hv1
      by (eapply Nat.le_lt_trans; [apply (unvisited_mono v); set_solver|done]).
    set (out1 := out ++ unlines ls1).
    destruct (IH out1 (v ∪ visited_by ps1) w1 Hlf Hv1) as (ls2 & ps2 & w2 & E2 & (ls' & V2 & P2) & F2 & K2 & R2).
    exists (ls1 ++ ls2), (ps1 ++ ps2), w2. split_and!.
    + rewrite unlines_app, visited_by_app, app_assoc, union_assoc_L. fold out1. rewrite <- E2.
      destruct (bool_decide_reflect (unlines ls1 = [])) as [E0|Hne]; [unfold out1; by rewrite E0, app_nil_r|].
      cbv zeta. fold out1. rewrite (bool_decide_true (last out1 = Some 10)); [done|].
      unfold out1. by rewrite last_app, (last_unlines _ Hne).
    + exists (ls1 ++ ls'). split; [by apply visits_app|]. rewrite P2.
      rewrite !app_assoc. apply Permutation_app_tail, Permutation_app_comm.
    + by apply Forall_app.
    + intros q Hq. cbn in Hq. rewrite E in Hq. rewrite visited_by_app.
      apply elem_of_cons in Hq as [->|Hq]; [set_solver|]. specialize (K2 q Hq). set_solver.
    + cbn. rewrite E. intros q [Hq|Hq]%elem_of_app; [exists (include_target p inc); split; [by left|by apply R1]|].
      destruct (R2 q Hq) as (r & Hr & Hrq). exists r. split; [by right|done].
  - rewrite decide_True by done.
    destruct (IH (out ++ l ++ [10]) v w Hlf Hv) as (ls2 & ps2 & w2 & E2 & (ls' & V2 & P2) & F2 & K2 & R2).
    exists (l :: ls2), ps2, w2. split_and!.
    + rewrite E2. unfold unlines. cbn [map concat]. by rewrite !app_assoc.
    + exists ls'. split; [done|]. by rewrite P2.
    + constructor; [by split|done].
    + intros q Hq. cbn in Hq. rewrite E in Hq. by apply K2.
    + cbn. by rewrite E.
Qed.

(** A single file visited, with nothing of it used. *)
Lemma visits_one v p : visit_key fs p ∉ v -> file_lines p = [] -> visits v [p] [].
Proof.
  intros Hf Hl. split.
  - apply NoDup_singleton.
  - intros q ->%list_elem_of_singleton. done.
  - cbn. unfold own_lines. by rewrite Hl.
  - intros q r ->%list_elem_of_singleton. unfold includes. rewrite Hl. cbn. set_solver.
Qed.

Lemma visited_one v p : v ∪ visited_by [p] = {[visit_key fs p]} ∪ v.
Proof. unfold visited_by. cbn. set_solver. Qed.

Lemma expand_inner_spec fuel : expands (expand_config_includes_inner fs fuel) fuel.
Proof.
  induction fuel as [|fuel IH]; intros p v w Hv; [lia|]. cbn [expand_config_includes_inner].
  destruct (bool_decide_reflect (visit_key fs p ∈ v)) as [Hin|Hin].
  { exists [], [], (w ++ [AlreadyIncluded p]). split_and!; [|apply visits_nil|constructor|set_solver|done|set_solver].
    unfold visited_by. cbn. by rewrite union_empty_r_L. }
  destruct (read_to_string fs p) as [t| |] eqn:Er.
  2,3: exists [], [p]; eexists; rewrite visited_one;
    (split_and!; [done|apply visits_one; [done|unfold file_lines; by rewrite Er]|constructor|set_solver|set_solver
      |by intros q ->%list_elem_of_singleton]).
  pose proof (unvisited_read v p t Er Hin) as Hlt.
  destruct (expand_lines_spec _ fuel p (lines t) IH [] ({[visit_key fs p]} ∪ v) w (lines_no_lf t) ltac:(lia))
    as (ls & ps & w' & E & (ls' & [N F L C] & P) & Fp & K & R).
  exists ls, (p :: ps), w'. change (p :: ps) with ([p] ++ ps). rewrite visited_by_app, union_assoc_L, visited_one.
  assert (file_lines p = lines t) as Hfl by (unfold file_lines; by rewrite Er).
  split_and!; [exact E| |done|set_solver|set_solver|].
  2: { intros q [->|Hq]%elem_of_cons; [done|]. destruct (R q Hq) as (r & Hr & Hrq). eapply rtc_l; [|exact Hrq].
       rewrite <- Hfl in Hr. by apply elem_of_targets. }
  split.
  - apply NoDup_cons. split; [|done]. intros (q & Eq & Hq)%list_elem_of_fmap. apply (F q Hq). rewrite <- Eq. set_solver.
  - intros q [->|Hq]%elem_of_cons; [done|]. specialize (F q Hq). set_solver.
  - assert (own_lines p = filter (fun l => include_path_from_line l = None) (lines t)) as Ho by (unfold own_lines; by rewrite Hfl).
    cbn [app]. rewrite P, L, fmap_cons, Ho. done.
  - intros q r [->|Hq]%elem_of_cons Hr; rewrite visited_by_app, union_assoc_L, visited_one.
    + unfold includes in Hr. rewrite Hfl in Hr. by apply K.
    + by eapply C.
Qed.

(** C36: The expansion of the [include] lines of a configuration file always ends
    (cycles and diamonds included), for every file system. The files [ps] it reads are
    the root, with each of them every file that it includes by an [include] line
    outside comments (a file with several names is read once, under the first), and
    none that is not reached from the root in this way; each is read exactly once. The
    text is made of whole lines, and they are, up to order, all the lines of those
    files that are not [include] lines. No [include] line is left in the text, so
    the parser never sees one. *)
Theorem includes_expanded p :
  exists ls ps warnings, expand_config_includes fs p = Some (unlines ls, warnings) /\
    p ∈ ps /\ NoDup (visit_key fs <$> ps) /\
    (forall q r, q ∈ ps -> includes_file q r -> visit_key fs r ∈ visit_key fs <$> ps) /\
    (forall q, q ∈ ps -> rtc includes_file p q) /\
    ls ≡ₚ concat (own_lines <$> ps) /\
    (forall q l, l ∈ own_lines q <-> l ∈ file_lines q /\ forall inc, ~ include_line l inc) /\
    has_uncommented_include (unlines ls) = false.
Proof.
  destruct (expand_inner_spec (2 + size (fs_files fs)) p ∅ []) as (ls & ps & w & E & [N _ L C] & F & _ & H & R).
  { unfold unvisited. rewrite difference_empty_L, size_dom. lia. }
  exists ls, ps, w. unfold expand_config_includes. rewrite E. split_and!; [done|apply H; set_solver|done| |done|done|apply elem_of_own_lines|].
  - intros q r Hq Hr. apply elem_of_targets in Hr. specialize (C q r Hq Hr). rewrite union_empty_l_L in C. by apply elem_of_list_to_set in C.
  - unfold has_uncommented_include. by rewrite unlines_no_include.
Qed.
End Expansion.

(** A cycle of two files: the second includes the first again. *)
Definition cycle_fs : FileSystem :=
  mkFileSystem (fun p => if bool_decide (p ∈ [Path_new (lit "a.toml"); Path_new (lit "b.toml")]) then CanonOk p else CanonNotFound)
    (list_to_map [(Path_new (lit "a.toml"), Readable (lit "x = 1" ++ [10] ++ lit "include = 'b.toml'" ++ [10] ++ lit "y = 2"));
                  (Path_new (lit "b.toml"), Readable (lit "include = 'a.toml' # back" ++ [13; 10] ++ lit "z = 3"))]).

Example cycle_expanded :
  expand_config_includes cycle_fs (Path_new (lit "a.toml")) =
  Some (unlines [lit "x = 1"; lit "z = 3"; lit "y = 2"], [AlreadyIncluded (Path_new (lit "a.toml"))]).
Proof. by vm_compute. Qed.

(** ** The merge *)

Lemma table_get_app k t u : table_get k (t ++ u) = match table_get k t with Some i => Some i | None => table_get k u end.
Proof. induction t as [|[k' i] t IH]; cbn; [done|]. by case_bool_decide. Qed.

Lemma table_get_set k k' i t :
  table_get k (table_set k' i t) = if bool_decide (k = k') then Some i else table_get k t.
Proof.
  induction t as [|[k2 j] t IH]; cbn.
  - repeat case_bool_decide; congruence.
  - destruct (bool_decide_reflect (k2 = k')) as [->|Hne]; cbn; [|rewrite IH]; repeat case_bool_decide; congruence.
Qed.

Lemma table_get_None k t : table_get k t = None <-> k ∉ t.*1.
Proof.
  induction t as [|[k' i] t IH]; cbn; [set_solver|]. case_bool_decide as E; [subst; set_solver|]. rewrite IH. set_solver.
Qed.

Lemma table_set_same k i t : table_get k t = Some i -> table_set k i t = t.
Proof.
  induction t as [|[k' j] t IH]; cbn; [done|]. case_bool_decide as E; [by intros [= ->]|]. intros H. by rewrite IH.
Qed.

Lemma table_set_keys k i t : table_get k t <> None -> (table_set k i t).*1 = t.*1.
Proof.
  induction t as [|[k' j] t IH]; cbn; [done|]. case_bool_decide as E; [done|]. intros H. rewrite !fmap_cons. cbn. by rewrite IH.
Qed.

(** What the merge leaves at a key. *)
Lemma table_get_merge rec from : forall into k, NoDup from.*1 ->
  table_get k (merge_entries rec into from) =
  match table_get k into, table_get k from with
  | Some u, Some t => Some (rec u t)
  | Some u, None => Some u
  | None, t => t
  end.
Proof.
  induction from as [|[key item] from IH]; intros into k N; cbn [merge_entries table_get].
  { by destruct (table_get k into). }
  rewrite fmap_cons in N. cbn in N. apply NoDup_cons in N as [Hk N]. apply table_get_None in Hk. rewrite IH by done.
  destruct (bool_decide_reflect (key = k)) as [->|Hne].
  - rewrite Hk. destruct (table_get k into) as [u|] eqn:E; [by rewrite table_get_set, bool_decide_true|].
    rewrite table_get_app, E. cbn. by rewrite bool_decide_true.
  - destruct (table_get key into) as [u|] eqn:E; [by rewrite table_get_set, bool_decide_false by done|].
    rewrite table_get_app. destruct (table_get k into); [done|]. cbn. by rewrite bool_decide_false.
Qed.

(** The user's keys stay in front and in order. *)
Lemma merge_keys_prefix rec from : forall into, into.*1 `prefix_of` (merge_entries rec into from).*1.
Proof.
  induction from as [|[key item] from IH]; intros into; cbn [merge_entries]; [done|].
  etrans; [|apply IH]. destruct (table_get key into) eqn:E; [by rewrite table_set_keys by congruence|].
  rewrite fmap_app. by apply prefix_app_r.
Qed.

Lemma merge_entries_id rec from : forall into,
  (forall k t, table_get k from = Some t -> exists u, table_get k into = Some u /\ rec u t = u) ->
  NoDup from.*1 -> merge_entries rec into from = into.
Proof.
  induction from as [|[key item] from IH]; intros into H N; cbn [merge_entries]; [done|].
  rewrite fmap_cons in N. cbn in N. apply NoDup_cons in N as [Hk N]. apply table_get_None in Hk.
  destruct (H key item) as (u & E & Eu); [cbn; by rewrite bool_decide_true|].
  rewrite E, Eu, table_set_same by done. apply IH; [|done].
  intros k t Ht. apply H. cbn. destruct (bool_decide_reflect (key = k)) as [->|]; [congruence|done].
Qed.

(** Keys are unique in every table, at every depth. *)
Fixpoint item_wf (i : Item) : Prop :=
  match i with
  | ITable es => NoDup es.*1 /\ (fix all (es : list (str * Item)) : Prop :=
      match es with [] => True | e :: es => item_wf e.2 /\ all es end) es
  | _ => True
  end.

Lemma Item_strong_ind (P : Item -> Prop) :
  (forall v, P (IValue v)) -> (forall v, P (ITables v)) ->
  (forall es, (forall k i, table_get k es = Some i -> P i) -> P (ITable es)) -> forall i, P i.
Proof.
  intros HV HA HT. fix IH 1. intros [v|es|v]; [apply HV| |apply HA]. apply HT.
  induction es as [|[k i] es IHes]; intros k' i'; cbn; [discriminate|].
  case_bool_decide; [intros [= <-]; apply IH|apply IHes].
Qed.

Lemma item_wf_get es k i : item_wf (ITable es) -> table_get k es = Some i -> item_wf i.
Proof.
  intros [_ H]. revert H. induction es as [|[k' j] es IH]; cbn; [done|]. intros [Hj H].
  case_bool_decide; [by intros [= <-]|by apply IH].
Qed.

Lemma merge_item_refl t : item_wf t -> merge_item t t = t.
Proof.
  induction t as [v|v|es IH] using Item_strong_ind; intros W; [done..|]. cbn [merge_item]. f_equal.
  apply merge_entries_id; [|by destruct W]. intros k i Hi. exists i. split; [done|]. eapply IH; [done|by eapply item_wf_get].
Qed.

Lemma merge_item_idem t : item_wf t -> forall u, merge_item (merge_item u t) t = merge_item u t.
Proof.
  induction t as [v|v|es IH] using Item_strong_ind; intros W u; [by destruct u..|]. destruct u as [?|us|?]; [done| |done].
  cbn [merge_item]. f_equal. destruct (W) as [N _]. apply merge_entries_id; [|done]. intros k i Hi.
  rewrite table_get_merge, Hi by done. destruct (table_get k us) as [u|]; eexists; (split; [done|]).
  - eapply IH; [done|by eapply item_wf_get].
  - apply merge_item_refl. by eapply item_wf_get.
Qed.

(** A dotted key. *)
Fixpoint item_at (ks : list str) (i : Item) : option Item :=
  match ks with
  | [] => Some i
  | k :: ks => match i with ITable es => match table_get k es with Some i => item_at ks i | None => None end | _ => None end
  end.

Definition is_table (i : Item) : bool := match i with ITable _ => true | _ => false end.

Lemma merge_item_at_user t ks : item_wf t -> forall u i, item_at ks u = Some i ->
  exists j, item_at ks (merge_item u t) = Some j /\ (is_table i = false -> j = i) /\ (is_table i = true -> is_table j = true).
Proof.
  revert t. induction ks as [|k ks IH]; intros t W u i Hi; cbn in Hi.
  - injection Hi as <-. exists (merge_item u t). split; [done|]. by destruct u, t.
  - destruct u as [?|us|?]; [done| |done]. destruct (table_get k us) as [u|] eqn:E; [|done].
    destruct t as [?|es|?]; cbn [merge_item item_at]; [by rewrite E; eauto| |by rewrite E; eauto].
    rewrite table_get_merge, E by (by destruct W). destruct (table_get k es) as [t|] eqn:Et.
    + apply IH; [by eapply item_wf_get|done].
    + exists i. by split_and!.
Qed.

Lemma merge_item_at_template t ks : item_wf t -> forall u i, item_at ks t = Some i ->
  (exists j, item_at ks (merge_item u t) = Some j) \/
  exists ks' j, ks' `prefix_of` ks /\ ks' <> ks /\ item_at ks' u = Some j /\ is_table j = false.
Proof.
  revert t. induction ks as [|k ks IH]; intros t W u i Hi; cbn in Hi.
  - left. by exists (merge_item u t).
  - destruct t as [?|es|?]; [done| |done]. destruct (table_get k es) as [t|] eqn:Et; [|done].
    destruct u as [v|us|v].
    1,3: right; exists []; eexists; (split_and!; [apply prefix_nil|done|done|done]).
    cbn [merge_item item_at]. rewrite table_get_merge, Et by (by destruct W).
    destruct (table_get k us) as [u|] eqn:E; [|left; by exists i].
    destruct (IH t ltac:(by eapply item_wf_get) u i Hi) as [H|(ks' & j & H1 & H2 & H3 & H4)]; [by left|].
    right. exists (k :: ks'), j. cbn. rewrite E. split_and!; [by apply prefix_cons|congruence|done|done].
Qed.

(** Normalising a configuration. Merging the template into the user's document
    keeps every value of the user where it is (a table stays a table) and the
    user's top-level keys in front, in their order; every key of the template is
    there afterwards, at every depth, unless the user has put something that is not
    a table in its way; and normalising twice changes nothing more. *)
Theorem merge_keeps_and_completes user template :
  item_wf (ITable template) ->
  (forall ks i, item_at ks (ITable user) = Some i -> is_table i = false ->
     item_at ks (ITable (merge_missing user template)) = Some i) /\
  (forall ks i, item_at ks (ITable template) = Some i ->
     (exists j, item_at ks (ITable (merge_missing user template)) = Some j) \/
     exists ks' j, ks' `prefix_of` ks /\ ks' <> ks /\ item_at ks' (ITable user) = Some j /\ is_table j = false) /\
  user.*1 `prefix_of` (merge_missing user template).*1 /\
  merge_missing (merge_missing user template) template = merge_missing user template.
Proof.
  intros W. split_and!.
  - intros ks i Hi Ht. destruct (merge_item_at_user _ ks W _ i Hi) as (j & Hj & E & _). cbn in Hj. rewrite (E Ht) in Hj. exact Hj.
  - intros ks i Hi. exact (merge_item_at_template _ ks W (ITable user) i Hi).
  - apply merge_keys_prefix.
  - pose proof (merge_item_idem _ W (ITable user)) as H. cbn [merge_item] in H. by injection H.
Qed.

Definition sample_template : list (str * Item) :=
  [(lit "peers", IValue (lit "[]")); (lit "keepalive", ITable [(lit "direct", IValue (lit "false")); (lit "interval", IValue (lit "20"))])].
Definition sample_user : list (str * Item) :=
  [(lit "keepalive", ITable [(lit "interval", IValue (lit "30"))]); (lit "mine", IValue (lit "1"))].

Lemma merge_keeps_and_completes_witness :
  item_wf (ITable sample_template) /\
  item_at [lit "keepalive"; lit "interval"] (ITable (merge_missing sample_user sample_template)) = Some (IValue (lit "30")) /\
  sample_user.*1 `prefix_of` (merge_missing sample_user sample_template).*1.
Proof.
  assert (item_wf (ITable sample_template)) as W.
  { cbn. split_and!; try done; apply (bool_decide_unpack _); by vm_compute. }
  destruct (merge_keeps_and_completes sample_user sample_template W) as (H & _ & P & _).
  split_and!; [exact W| |exact P]. by apply H.
Defined.

(** ** Settings *)

Lemma clampz_spec lo hi v : lo <= hi -> lo <= clampz lo hi v <= hi /\ (lo <= v <= hi -> clampz lo hi v = v).
Proof. unfold clampz. lia. Qed.

(** The settings taken from the configuration, whatever it holds. The session
    timeout is between a minute and a day, the keepalive interval at least 15
    seconds and fits twice into the timeout, the number of remembered destinations
    at most 1000; a value in range is used as it is. The routing rule is off only
    when disabled; its preference and table are in the kernel's ranges, and the
    table survives the conversion to a byte. *)
Theorem settings_in_range {F T} (c : Config F T) r :
  60 <= effective_session_path_timeout c <= 86400 /\
  15 <= effective_keepalive_interval c /\ 2 * effective_keepalive_interval c <= effective_session_path_timeout c /\
  0 <= effective_keepalive_remote_count c <= 1000 /\
  (60 <= cf_session_path_timeout c <= 86400 -> effective_session_path_timeout c = cf_session_path_timeout c) /\
  (15 <= kc_interval (cf_keepalive c) -> 2 * kc_interval (cf_keepalive c) <= effective_session_path_timeout c ->
     effective_keepalive_interval c = kc_interval (cf_keepalive c)) /\
  (effective r = None <-> ir_enable r = false) /\
  (forall pref lookup, effective r = Some (pref, lookup) ->
     1 <= pref <= 32765 /\ 1 <= lookup <= 251 /\
     (1 <= ir_pref r <= 32765 -> pref = ir_pref r) /\ (1 <= ir_lookup r <= 251 -> lookup = ir_lookup r)).
Proof.
  unfold effective_keepalive_interval, effective_session_path_timeout, effective_keepalive_remote_count.
  pose proof (clampz_spec 60 86400 (cf_session_path_timeout c) ltac:(lia)) as [Ht Ht'].
  set (t := clampz 60 86400 (cf_session_path_timeout c)) in *.
  pose proof (Z.div_mod t 2 ltac:(lia)). pose proof (Z.mod_pos_bound t 2 ltac:(lia)).
  split_and!; try (unfold clampz; lia); [|].
  - unfold effective. destruct (ir_enable r); by split.
  - unfold effective. intros pref lookup. destruct (ir_enable r); [|done]. cbn [negb]. intros [= <- <-].
    pose proof (clampz_spec 1 251 (ir_lookup r) ltac:(lia)). rewrite Z.mod_small by lia. unfold clampz. lia.
Qed.

(** ** Allowed keys *)

Section Allowed.
Context `{D : Dalek} {F T : Type}.

(** The list of allowed keys. When at least one entry of the configuration is
    a key (64 hexadecimal digits), exactly the keys of the list may connect; the
    entries that are not keys are skipped. When none is, every key may connect,
    though the list is not empty. *)
Theorem allow_list_exact (c : Config F T) (core : LinkCore D) :
  (forall k, k ∈ lc_allowed_keys core <-> k ∈ allowed_keys c) ->
  (Exists (fun s => is_Some (allowed_key s)) (cf_allowed_public_keys c) ->
     forall key, is_key_allowed core key = true <-> exists s, s ∈ cf_allowed_public_keys c /\ allowed_key s = Some key) /\
  (Forall (fun s => allowed_key s = None) (cf_allowed_public_keys c) -> forall key, is_key_allowed core key = true).
Proof.
  intros Hc. unfold is_key_allowed. split.
  - intros He key. apply Exists_exists in He as (s & Hs & [k Hk]).
    assert (k ∈ lc_allowed_keys core) as Hin by (apply Hc; apply list_elem_of_omap; eauto).
    rewrite bool_decide_false by (intros E; rewrite E in Hin; set_solver). cbn.
    rewrite bool_decide_eq_true, Hc. unfold allowed_keys. apply list_elem_of_omap.
  - intros Hn key. assert (lc_allowed_keys core = []) as ->; [|by rewrite bool_decide_true].
    destruct (lc_allowed_keys core) as [|k ks] eqn:E; [done|]. exfalso.
    assert (k ∈ allowed_keys c) as Hk by (apply Hc; set_solver). apply list_elem_of_omap in Hk as (s & Hs & Ek).
    rewrite Forall_forall in Hn. specialize (Hn s Hs). congruence.
Qed.

(** The private key: 128 hexadecimal digits that the library takes for a pair of
    keys, with a public key that is a valid point. *)
Lemma signing_key_ok from_keypair_bytes (c : Config F T) key :
  Config.signing_key from_keypair_bytes c = Ok key <->
  exists bs, hex_decode (cf_private_key c) = Some bs /\ length bs = 64%nat /\ from_keypair_bytes bs = Some key /\
    is_public_key_valid (sk_verifying_key_bytes key) = true.
Proof.
  unfold Config.signing_key. destruct (bool_decide_reflect (cf_private_key c = [])) as [->|Hne].
  { split; [done|]. by intros (bs & [= <-] & ? & _). }
  destruct (hex_decode (cf_private_key c)) as [bs|]; [|split; [done|by intros (? & ? & _)]].
  destruct (Nat.eqb_spec (length bs) 64) as [El|El]; cbn [negb]; [|split; [done|by intros (? & [= <-] & ? & _)]].
  destruct (from_keypair_bytes bs) as [k|] eqn:Ek; [|split; [done|intros (? & [= <-] & _ & ? & _); congruence]].
  destruct (is_public_key_valid (sk_verifying_key_bytes k)) eqn:Ev.
  - split; [intros [= <-]; by exists bs|]. intros (? & [= <-] & _ & ? & _). congruence.
  - split; [done|]. intros (? & [= <-] & _ & ? & ?). congruence.
Qed.
End Allowed.

Definition sample_config (keys : list str) : Config unit unit := Config_default <| cf_allowed_public_keys := keys |>.

(** A list of one key with a digit missing lets every key in. *)
Lemma allow_list_exact_witness :
  let c := sample_config [replicate 63 97] in
  cf_allowed_public_keys c <> [] /\ forall key, is_key_allowed (@mkLinkCore toy_dalek [] 0 (allowed_keys c)) key = true.
Proof.
  intros c. split; [done|].
  apply (allow_list_exact c (@mkLinkCore toy_dalek [] 0 (allowed_keys c)) (fun _ => iff_refl _)).
  apply Forall_singleton. by vm_compute.
Defined.

(** ** The routing rule's table *)

(** The defaults of the routing rule. Without the table the rule has preference
    9000 and table 200, as documented; when the table is written, a key left out
    does not take the documented default but zero, which becomes 1. *)
Theorem ip_rule_partial_table :
  effective IpRuleConfig_default = Some (9000, 200) /\
  (forall lookup, exists l, effective (IpRuleConfig_from_table None None lookup) = Some (1, l)) /\
  (forall pref, exists p, effective (IpRuleConfig_from_table None pref None) = Some (p, 1)) /\
  forall pref lookup, 1 <= pref <= 32765 -> 1 <= lookup <= 251 ->
    effective (IpRuleConfig_from_table None (Some pref) (Some lookup)) = Some (pref, lookup).
Proof.
  split; [done|]. split; [intros lookup; by eexists|]. split; [intros pref; by eexists|].
  intros pref lookup Hp Hl. unfold effective, IpRuleConfig_from_table. cbn. unfold clampz.
  rewrite Z.mod_small by lia. f_equal. f_equal; lia.
Qed.

(** ** The configuration of the core *)

(** The liveness settings that are accepted. *)
Definition liveness_ok (pl : PeerLivenessConfig) : Prop :=
  pl_rtt_mult pl <> 0 /\ pl_min_secs pl <> 0 /\ pl_min_secs pl <= pl_max_secs pl /\
  (if pl_adaptive pl then pl_min_secs pl <= pl_problem_min_secs pl <= pl_max_secs pl else pl_fixed_secs pl <> 0).

Lemma validate_ok pl : validate (peer_timeout_cfg pl) = Ok tt <-> liveness_ok pl.
Proof.
  unfold validate, peer_timeout_cfg, liveness_ok, from_secs.
  cbn [at_rtt_mult at_max at_min at_adaptive at_problem_min at_fixed_or_initial].
  destruct (Z.eqb_spec (pl_rtt_mult pl) 0); [split; [done|tauto]|].
  destruct (Z.ltb_spec (pl_max_secs pl * 1000000000) (pl_min_secs pl * 1000000000)); [split; [done|lia]|].
  destruct (pl_adaptive pl); cbn [andb negb].
  - destruct (Z.ltb_spec (pl_max_secs pl * 1000000000) (pl_problem_min_secs pl * 1000000000)); [split; [done|lia]|].
    destruct (Z.ltb_spec (pl_problem_min_secs pl * 1000000000) (pl_min_secs pl * 1000000000)); [split; [done|lia]|].
    destruct (Z.eqb_spec (pl_min_secs pl * 1000000000) 0); split; [done|lia|lia|done].
  - destruct (Z.eqb_spec (pl_fixed_secs pl * 1000000000) 0); [split; [done|lia]|].
    destruct (Z.eqb_spec (pl_min_secs pl * 1000000000) 0); split; [done|lia|lia|done].
Qed.

(** From the node's configuration to the router's. Starting the core panics
    exactly when the liveness settings do not make sense; otherwise the router gets
    at least one probe, equal timeouts for sessions and paths between a minute and
    a day, a keepalive interval that fits twice into them, at most 1000 remembered
    destinations, and a group password only when one is set. *)
Theorem core_settings {F T} prefix (c : Config F T) :
  (liveness_ok (cf_peer_liveness c) ->
     exists iw, core_config prefix c = Ret iw /\
       validate (iw_peer_timeout_cfg iw) = Ok tt /\ 1 <= iw_peer_probe_count iw /\
       iw_path_timeout iw = iw_session_timeout iw /\ from_secs 60 <= iw_session_timeout iw <= from_secs 86400 /\
       from_secs 15 <= iw_keepalive_interval iw /\ 2 * iw_keepalive_interval iw <= iw_session_timeout iw /\
       0 <= iw_keepalive_remote_count iw <= 1000 /\
       iw_group_password iw = (if bool_decide (cf_group_password c = []) then None else Some (cf_group_password c)) /\
       iw_bloom_transform iw = Some (bloom_transform prefix)) /\
  (~ liveness_ok (cf_peer_liveness c) -> core_config prefix c = Panic).
Proof.
  rewrite <- validate_ok. unfold core_config. split.
  - intros V. rewrite V. eexists. split; [done|]. cbn -[from_secs validate bloom_transform].
    pose proof (clampz_spec 60 86400 (cf_session_path_timeout c) ltac:(lia)) as [Ht _].
    unfold effective_keepalive_interval, effective_session_path_timeout, effective_keepalive_remote_count, from_secs.
    set (t := clampz 60 86400 (cf_session_path_timeout c)) in *.
    pose proof (Z.div_mod t 2 ltac:(lia)). pose proof (Z.mod_pos_bound t 2 ltac:(lia)).
    split_and!; try done; try (unfold clampz; lia); lia.
  - intros V. destruct (validate _) as [u|u]; try done; destruct u; by destruct V.
Qed.

(** ** Node information *)

Lemma object_get_insert {N} k key (v : JsonValue N) l :
  object_get k (object_insert key v l) = if bool_decide (k = key) then Some v else object_get k l.
Proof.
  induction l as [|[k' w] l IH]; cbn.
  - repeat case_bool_decide; congruence.
  - destruct (bool_decide_reflect (k' = key)) as [->|Hne]; cbn; [|rewrite IH]; repeat case_bool_decide; congruence.
Qed.

(** With privacy on, nothing but the operator's own information is in the answer;
    otherwise the four build fields are added and the rest is kept. *)
Lemma node_info_fields {F T N} from_i64 from_f64 show_datetime pkg_name pkg_version os arch (c : Config F T) k :
  let own := match toml_to_json from_i64 from_f64 show_datetime (cf_node_info c) with JObject m => m | _ => [] end in
  object_get k (@node_info_json F T N from_i64 from_f64 show_datetime pkg_name pkg_version os arch c) =
  if cf_node_info_privacy c then object_get k own
  else if bool_decide (k = lit "buildarch") then Some (JString arch)
  else if bool_decide (k = lit "buildplatform") then Some (JString os)
  else if bool_decide (k = lit "buildversion") then Some (JString pkg_version)
  else if bool_decide (k = lit "buildname") then Some (JString pkg_name)
  else object_get k own.
Proof. intros own. unfold node_info_json. fold own. destruct (cf_node_info_privacy c); [done|]. by rewrite !object_get_insert. Qed.
