(* ===== verification/Cli.v ===== *)
(** * Cli: the daemon's command line and host setup

    Models the parts of [crates/yggdrasil/src/main.rs] that compute: the list of
    extra peers, the prefix and port in the program's name, the settings that
    follow from them, the path of the configuration file, and, on Linux, the
    routing rule and the route of the local subnet. The file system is what
    [Path::exists] says; [ip] is what its runs return; parsing an IPv6 address is a
    parameter. *)

From stdpp Require Import strings options.
From S2P Require Import Prelude.
From S2P Require Import Wire.
From S2P Require Import Text.
From S2P Require Import Config.
Open Scope Z_scope.

(** ** Peers *)

Definition QUOTE : Z := 34.
Definition APOSTROPHE : Z := 39.
Definition COMMA : Z := 44.

(** Quotes at both ends of a value of at least two bytes. *)
Definition strip_quotes (s : str) : str :=
  if (2 <=? utf8_len s)%nat then
    match s with
    | first :: rest =>
        match last rest with
        | Some l =>
            if ((first =? QUOTE) && (l =? QUOTE)) || ((first =? APOSTROPHE) && (l =? APOSTROPHE))
            then take (length rest - 1) rest else s
        | None => s
        end
    | [] => s
    end
  else s.

Definition parse_peer (part : str) : option str :=
  let p := trim part in
  if bool_decide (p = []) then None
  else
    let p := trim (strip_quotes p) in
    if bool_decide (p = []) then None else Some p.

Definition parse_peers_list (s : str) : list str := omap parse_peer (split_on COMMA (strip_quotes (trim s))).

(** ** The prefix and port of the program's name *)

Definition DERIVED_PORT_OFFSET : Z := 0x2328.

(** [u16] arithmetic: at most 127 + 9000. *)
Definition port_from_prefix (prefix : Z) : Z := prefix / 2 + DERIVED_PORT_OFFSET.

(** The pairs of characters allowed as a prefix. *)
Definition in_range (lo hi c : Z) : bool := (lo <=? c) && (c <=? hi).
Definition valid_prefix (p0 p1 : Z) : bool :=
  ((in_range 48 57 p0 || in_range 97 101 p0 || in_range 65 69 p0) &&
   bool_decide (p1 ∈ lit "02468aceACE")) ||
  (bool_decide (p0 ∈ lit "fF") && bool_decide (p1 ∈ lit "02468acAC")).

Definition parse_prefix_port (s : str) : option (Z * Z) :=
  if (utf8_len s <? 2)%nat then None
  else
    match s with
    | p0 :: p1 :: rest =>
        if negb (valid_prefix p0 p1) then None
        else
          match hex_value p0, hex_value p1 with
          | Some h, Some l =>
              let prefix := h * 16 + l in
              match rest with
              | [] => Some (prefix, port_from_prefix prefix)
              | c :: after =>
                  let digits :=
                    if is_ascii_hexdigit c then Some rest
                    else if (c <? 128) && negb (c =? 32) then Some after
                    else None in
                  match digits with
                  | None => None
                  | Some digits =>
                      let num_str := filter (fun c => is_ascii_digit c = true) digits in
                      if bool_decide (num_str = []) then None
                      else
                        match parse_uint U16_MAX num_str with
                        | Some port => if in_range 1024 65535 port then Some (prefix, port) else None
                        | None => None
                        end
                  end
              end
          | _, _ => None
          end
    | _ => None
    end.

(** What differs between the platforms. *)
Inductive Platform := Linux | Windows | MacOrBsd | Android.

Definition is_windows (pl : Platform) : bool := match pl with Windows => true | _ => false end.

(** [eq_ignore_ascii_case]. *)
Definition ascii_lower (c : Z) : Z := if in_range 65 90 c then c + 32 else c.

Definition strip_exe_suffix (pl : Platform) (name : str) : str :=
  if is_windows pl && (4 <=? length name)%nat && bool_decide (ascii_lower <$> drop (length name - 4) name = lit ".exe")
  then take (length name - 4) name else name.

Definition prefix_port_from_name (pl : Platform) (name : str) : option (Z * Z) :=
  match rsplit_once 95 (strip_exe_suffix pl name) with
  | Some (_, suffix) => parse_prefix_port suffix
  | None => None
  end.

Definition config_filename_from_program_name (pl : Platform) (name : str) : str :=
  match prefix_port_from_name pl name with
  | Some _ => strip_exe_suffix pl name ++ lit ".toml"
  | None => lit "yggdrasil.toml"
  end.

(** ** Where the configuration is *)

Section Paths.
(** [Path::exists], the directory of the build and of Windows. *)
Context (exists_ : str -> bool) (compile_time_config_dir : option str) (program_data : str).

Definition in_dir (dir filename : str) : str := dir ++ lit "/" ++ filename.

Definition system_config_path (pl : Platform) (filename : str) : str :=
  match pl with
  | Linux => in_dir (default (lit "/etc/yggdrasil") compile_time_config_dir) filename
  | MacOrBsd => in_dir (lit "/etc/yggdrasil") filename
  | Windows => lit "%ALLUSERSPROFILE%\Yggdrasil-ng\" ++ filename
  | Android => match compile_time_config_dir with Some dir => in_dir dir filename | None => filename end
  end.

(** The system's file, looked up. *)
Definition system_candidate (pl : Platform) (filename : str) : option str :=
  match pl with
  | Linux | MacOrBsd => Some (system_config_path pl filename)
  | Android => match compile_time_config_dir with Some dir => Some (in_dir dir filename) | None => None end
  | Windows => Some (program_data ++ lit "\Yggdrasil-ng\" ++ filename)
  end.

Definition resolve_config_path (pl : Platform) (opt_config : option str) (program_name : str) : str :=
  match opt_config with
  | Some (c :: path) => c :: path
  | _ =>
      let local := config_filename_from_program_name pl program_name in
      if exists_ local then local
      else
        match system_candidate pl local with
        | Some system => if exists_ system then system else system_config_path pl local
        | None => system_config_path pl local
        end
  end.
End Paths.

(** ** Settings that follow from the name *)

Definition DEFAULT_ADMIN_PORT : Z := 9001.

(** The host, in brackets if it was, and the port. *)
Definition admin_host_port (rest : str) : option (str * Z) :=
  match strip_prefix (lit "[") rest with
  | Some inner =>
      match split_once 93 inner with
      | Some (host_inner, after) =>
          match strip_prefix (lit ":") after with
          | Some p => match parse_uint U16_MAX p with Some p => Some (lit "[" ++ host_inner ++ lit "]", p) | None => None end
          | None => None
          end
      | None => None
      end
  | None =>
      match rsplit_once 58 rest with
      | Some (host, pstr) => match parse_uint U16_MAX pstr with Some p => Some (host, p) | None => None end
      | None => None
      end
  end.

Definition rewrite_default_admin_listen (listen : str) (port : Z) : option str :=
  match strip_prefix (lit "tcp://") listen with
  | None => None
  | Some rest =>
      match admin_host_port rest with
      | None => None
      | Some (host, listen_port) =>
          if negb (listen_port =? DEFAULT_ADMIN_PORT) then None
          else if bool_decide (host ∈ [lit "localhost"; lit "127.0.0.1"; lit "[::1]"])
          then Some (lit "tcp://" ++ host ++ lit ":" ++ show port)
          else None
      end
  end.

Definition rewrite_admin_listen_in_genconf_text (text : str) (port : Z) : str :=
  replace (lit "tcp://localhost:" ++ show DEFAULT_ADMIN_PORT) (lit "tcp://localhost:" ++ show port) text.

(** The process-wide prefixes and port. *)
Record Globals := mkGlobals { gl_address_prefix : Z; gl_subnet_prefix : Z; gl_multicast_port : Z }.

Definition apply_prefix_port {F T} (pl : Platform) (prefix port : Z) (config : Config F T) : Globals * Config F T :=
  let config :=
    match rewrite_default_admin_listen (cf_admin_listen config) port with
    | Some rewritten => config <| cf_admin_listen := rewritten |>
    | None => config
    end in
  let config :=
    if bool_decide (cf_if_name config = lit "auto") then
      let suffix := show_02x prefix ++ show port in
      match pl with
      | Windows => config <| cf_if_name := lit "Yggdrasil" ++ suffix |>
      | MacOrBsd => config
      | Linux | Android => config <| cf_if_name := lit "ygg" ++ suffix |>
      end
    else config in
  (mkGlobals prefix ((prefix + 1) mod 256) port, config).

(** ** The routing rule *)

Definition show_signed (n : Z) : str := if n <? 0 then lit "-" ++ show (- n) else show n.

Definition ip_rule_line_matches (line : str) (pref lookup : Z) : bool :=
  match split_whitespace line with
  | [] => false
  | head :: rest =>
      if bool_decide (head <> show_signed pref ++ lit ":") then false
      else bool_decide (rest = [lit "from"; lit "all"; lit "lookup"; show lookup])
  end.

(** The runs of [ip] for one family: the listing, and whether adding works. *)
Record IpRuns := mkIpRuns { ip_show : option str; ip_add : bool }.
Inductive RuleError := ShowFailed | AddFailed.

(** The families a rule was added for. *)
Fixpoint ensure_families (pref lookup : Z) (families : list (bool * IpRuns)) : list bool * option RuleError :=
  match families with
  | [] => ([], None)
  | (ipv6, runs) :: families =>
      match ip_show runs with
      | None => ([], Some ShowFailed)
      | Some text =>
          if existsb (fun line => ip_rule_line_matches line pref lookup) (lines text)
          then ensure_families pref lookup families
          else if ip_add runs then
            let '(added, e) := ensure_families pref lookup families in (ipv6 :: added, e)
          else ([], Some AddFailed)
      end
  end.

Definition ensure_linux_ip_rule (pref lookup : Z) (v4 v6 : IpRuns) : list bool * option RuleError :=
  ensure_families pref lookup [(false, v4); (true, v6)].

(** ** The route of the local subnet *)

Definition LOCAL_SUBNET_ROUTE_RETRIES : nat := 10.
(** Seconds. *)
Definition LOCAL_SUBNET_ROUTE_INTERVAL : Z := 60.

(** [<subnet>::1]: 8 bytes of subnet. *)
Definition local_subnet_gateway (subnet : bytes) : bytes := take 8 subnet ++ replicate 7 0 ++ [1].

Section Ifaces.
(** [Ipv6Addr::from_str]. *)
Context (parse_ipv6 : str -> option bytes).

(** The word after the first [inet6]. *)
Fixpoint inet6_word (parts : list str) : option str :=
  match parts with
  | [] => None
  | p :: parts => if bool_decide (p = lit "inet6") then head parts else inet6_word parts
  end.

(** The interface a line names for the wanted address. *)
Definition iface_of_line (line : str) (wanted : bytes) : option str :=
  if contains (lit "tentative") line || contains (lit "dadfailed") line then None
  else
    match split_whitespace line with
    | _ :: name :: parts =>
        let iface := match split_on 64 name with i :: _ => i | [] => name end in
        if bool_decide (iface = []) || bool_decide (iface = lit "lo") then None
        else
          match inet6_word parts with
          | None => None
          | Some addr_tok =>
              match split_once 47 addr_tok with
              | None => None
              | Some (addr_str, prefix_str) =>
                  match parse_uint 255 prefix_str with
                  | None => None
                  | Some prefix =>
                      if negb (in_range 64 128 prefix) then None
                      else
                        match parse_ipv6 addr_str with
                        | Some addr => if bool_decide (addr = wanted) then Some iface else None
                        | None => None
                        end
                  end
              end
          end
    | _ => None
    end.

Fixpoint ifaces_loop (ls : list str) (wanted : bytes) (found : list str) : list str :=
  match ls with
  | [] => found
  | line :: ls =>
      match iface_of_line line wanted with
      | Some iface => ifaces_loop ls wanted (if bool_decide (iface ∈ found) then found else found ++ [iface])
      | None => ifaces_loop ls wanted found
      end
  end.

Definition local_subnet_gateway_ifaces (text : str) (wanted : bytes) : list str := ifaces_loop (lines text) wanted [].
End Ifaces.

(** What one attempt sees: the shutdown flag, the interfaces (or an error), whether
    installing works, and whether the wait ends by shutdown. *)
Record Attempt := mkAttempt { at_shutdown : bool; at_ifaces : option (list str); at_install : bool; at_interrupted : bool }.
Inductive RouteAction := Look | InstallRoute (iface : str) (ok : bool) | Wait.

(** [n] more attempts after this one. *)
Fixpoint route_attempts (n : nat) (attempts : list Attempt) {struct attempts} : list RouteAction :=
  match attempts with
  | [] => []
  | a :: attempts =>
      if at_shutdown a then []
      else
        let installed := match at_ifaces a with Some [iface] => [InstallRoute iface (at_install a)] | _ => [] end in
        let done := match at_ifaces a with Some [_] => at_install a | _ => false end in
        if done then Look :: installed
        else
          match n with
          | O => Look :: installed
          | S n => Look :: installed ++ Wait :: (if at_interrupted a then [] else route_attempts n attempts)
          end
  end.

Definition install_local_subnet_route_with_retries (attempts : list Attempt) : list RouteAction :=
  route_attempts LOCAL_SUBNET_ROUTE_RETRIES attempts.
