(* ===== verification/CliFacts.v ===== *)
(** * CliFacts: theorems about the command line and the host setup

    The list of peers, the prefix and port of the program's name, the settings
    derived from them, the routing rule and the route of the local subnet. *)

From stdpp Require Import strings options.
From S2P Require Import Prelude.
From S2P Require Import Wire.
From S2P Require Import Text.
From S2P Require Import Config.
From S2P Require Import Cli.
Open Scope Z_scope.

(** ** The prefix and port of a name *)

(** The prefixes of a [/7]. *)
Definition prefix_ok (p : Z) : Prop := 0 <= p <= 252 /\ Z.even p = true.

Lemma shown_prefix p : prefix_ok p ->
  exists p0 p1 h l, show_02x p = [p0; p1] /\ valid_prefix p0 p1 = true /\ hex_value p0 = Some h /\ hex_value p1 = Some l /\
    h * 16 + l = p /\ p0 < 128 /\ p1 < 128 /\ p0 <> 95 /\ p1 <> 95.
Proof.
  intros [Hp He].
  assert (Forall (fun p => Z.even p = true ->     valid_prefix (hex_digit (p / 16)) (hex_digit (p mod 16)) = true /\ hex_value (hex_digit (p / 16)) = Some (p / 16) /\ hex_value (hex_digit (p mod 16)) = Some (p mod 16) /\
    hex_digit (p / 16) < 128 /\ hex_digit (p mod 16) < 128 /\ hex_digit (p / 16) <> 95 /\ hex_digit (p mod 16) <> 95) (seqZ 0 253)) as F.
  { apply (bool_decide_unpack _). by vm_compute. }
  rewrite Forall_forall in F. destruct (F p ltac:(apply elem_of_seqZ; lia) He) as (H1 & H2 & H3 & H4 & H5 & H6 & H7).
  exists (hex_digit (p / 16)), (hex_digit (p mod 16)), (p / 16), (p mod 16).
  pose proof (Z.div_mod p 16 ltac:(lia)). split_and!; try done. lia.
Qed.

Lemma valid_prefix_ok p0 p1 h l : valid_prefix p0 p1 = true -> hex_value p0 = Some h -> hex_value p1 = Some l -> prefix_ok (h * 16 + l).
Proof.
  intros V.
  assert (p0 ∈ seqZ 48 55 /\ p1 ∈ lit "02468aceACE") as [H0 H1].
  { unfold valid_prefix, in_range in V. apply orb_true_iff in V as [[V1 V2]%andb_true_iff|[V1 V2]%andb_true_iff];
      apply bool_decide_eq_true in V2.
    - split; [|done]. apply elem_of_seqZ. apply orb_true_iff in V1 as [[V1|V1]%orb_true_iff|V1]; lia.
    - apply bool_decide_eq_true in V1. split.
      + apply elem_of_seqZ. cbn in V1. set_solver by lia.
      + cbn in V2 |- *. set_solver. }
  assert (Forall (fun p0 => Forall (fun p1 => valid_prefix p0 p1 = true -> forall h l, hex_value p0 = Some h ->
    hex_value p1 = Some l -> prefix_ok (h * 16 + l)) (lit "02468aceACE")) (seqZ 48 55)) as F.
  { assert (forallb (fun p0 => forallb (fun p1 => negb (valid_prefix p0 p1) ||
      match hex_value p0, hex_value p1 with
      | Some h, Some l => (0 <=? h * 16 + l) && (h * 16 + l <=? 252) && Z.even (h * 16 + l)
      | _, _ => false end) (lit "02468aceACE")) (seqZ 48 55) = true) as B by (by vm_compute).
    apply Forall_forall. intros a Ha. apply Forall_forall. intros b Hb Va h' l' Eh El.
    rewrite forallb_forall in B. specialize (B a ltac:(by apply list_elem_of_In)).
    rewrite forallb_forall in B. specialize (B b ltac:(by apply list_elem_of_In)).
    rewrite Va, Eh, El in B. cbn [negb orb] in B. unfold prefix_ok.
    apply andb_true_iff in B as [[B1 B2]%andb_true_iff B3]. split; [lia|exact B3]. }
  rewrite Forall_forall in F. specialize (F p0 H0). rewrite Forall_forall in F. by apply (F p1 H1).
Qed.

Lemma utf8_len_two p0 p1 rest : p0 < 128 -> p1 < 128 -> (utf8_len (p0 :: p1 :: rest) <? 2)%nat = false.
Proof.
  intros H0 H1. unfold utf8_len. cbn. unfold utf8_width at 1 2.
  by rewrite (proj2 (Z.ltb_lt p0 128)), (proj2 (Z.ltb_lt p1 128)) by done.
Qed.

Lemma port_from_prefix_range p : prefix_ok p -> 9000 <= port_from_prefix p <= 9126.
Proof.
  intros [Hr _]. unfold port_from_prefix, DERIVED_PORT_OFFSET. pose proof (Z.div_pos p 2 ltac:(lia) ltac:(lia)).
  pose proof (Z.div_le_mono p 252 2 ltac:(lia) ltac:(lia)) as Hd. change (252 / 2) with 126 in Hd. lia.
Qed.

Lemma parse_prefix_port_sound s prefix port :
  parse_prefix_port s = Some (prefix, port) -> prefix_ok prefix /\ 1024 <= port <= 65535.
Proof.
  unfold parse_prefix_port. case_match; [done|]. destruct s as [|p0 [|p1 rest]]; [done..|].
  destruct (valid_prefix p0 p1) eqn:V; cbn [negb]; [|done].
  destruct (hex_value p0) as [h|] eqn:E0; [|done]. destruct (hex_value p1) as [l|] eqn:E1; [|done].
  pose proof (valid_prefix_ok p0 p1 h l V E0 E1) as Hok. destruct rest as [|c after].
  - intros [= <- <-]. pose proof (port_from_prefix_range _ Hok). split; [done|lia].
  - cbv zeta. destruct (if is_ascii_hexdigit c then _ else _) as [ds|]; [|done].
    destruct (bool_decide _); [done|]. destruct (parse_uint _ _) as [n|]; [|done].
    destruct (in_range 1024 65535 n) eqn:R; [|done]. intros [= <- <-]. unfold in_range in R. split; [done|lia].
Qed.

(** A separator, or none. *)
Definition separator (sep : str) : Prop :=
  sep = [] \/ exists c, sep = [c] /\ 0 <= c < 128 /\ is_ascii_hexdigit c = false /\ c <> 32.

Lemma parse_prefix_port_shown prefix port sep :
  prefix_ok prefix -> 1024 <= port <= 65535 -> separator sep ->
  parse_prefix_port (show_02x prefix ++ sep ++ show port) = Some (prefix, port).
Proof.
  intros Hp Hport Hs. destruct (shown_prefix prefix Hp) as (p0 & p1 & h & l & -> & V & E0 & E1 & <- & L0 & L1 & _). cbn [app].
  destruct (show_spec port ltac:(lia)) as (D & N & _). pose proof (parse_uint_show U16_MAX port) as P.
  unfold parse_prefix_port. rewrite utf8_len_two, V, E0, E1 by done. cbn [negb].
  assert (forall ds, ds = show port -> (if bool_decide (filter (fun c => is_ascii_digit c = true) ds = []) then None
    else match parse_uint U16_MAX (filter (fun c => is_ascii_digit c = true) ds) with
         | Some n => if in_range 1024 65535 n then Some (h * 16 + l, n) else None
         | None => None end) = Some (h * 16 + l, port)) as F.
  { intros ds ->. rewrite filter_digits, bool_decide_false, P by (done || (unfold U16_MAX; lia)).
    unfold in_range. by rewrite (proj2 (andb_true_iff _ _)) by lia. }
  destruct Hs as [->|(c & -> & Hc & Hx & Hsp)]; cbn [app].
  - destruct (show port) as [|c ds] eqn:Es; [done|]. apply Forall_cons in D as [Dc _].
    assert (is_ascii_hexdigit c = true) as -> by (unfold is_ascii_hexdigit, hex_value; by rewrite Dc). by apply F.
  - rewrite Hx, (proj2 (Z.ltb_lt c 128)), (proj2 (Z.eqb_neq c 32)) by (done || lia). by apply F.
Qed.

(** Reading a prefix and a port from the end of a name. Whatever the text, an
    accepted prefix is even and at most 0xfc, so the prefix of the subnets, one
    above, does not wrap; an accepted port is not privileged. The documented forms
    are all read back: the two digits of a prefix, followed by nothing (the port is
    derived from the prefix), or by the port, directly or after a separator. *)
Theorem prefix_port_reads :
  (forall s prefix port, parse_prefix_port s = Some (prefix, port) ->
     prefix_ok prefix /\ (prefix + 1) mod 256 = prefix + 1 /\ 1024 <= port <= 65535) /\
  (forall prefix, prefix_ok prefix -> parse_prefix_port (show_02x prefix) = Some (prefix, prefix / 2 + 9000)) /\
  (forall prefix port sep, prefix_ok prefix -> 1024 <= port <= 65535 -> separator sep ->
     parse_prefix_port (show_02x prefix ++ sep ++ show port) = Some (prefix, port)).
Proof.
  split_and!.
  - intros s prefix port [[Hp He] Hr]%parse_prefix_port_sound. split_and!; try done; try lia. apply Z.mod_small. lia.
  - intros prefix Hp. destruct (shown_prefix prefix Hp) as (p0 & p1 & h & l & -> & V & E0 & E1 & <- & L0 & L1 & _).
    unfold parse_prefix_port. rewrite utf8_len_two, V, E0, E1 by done. done.
  - intros. by apply parse_prefix_port_shown.
Qed.

(** ** The network of a name *)

Lemma show_no_underscore port : 0 <= port < 10 ^ 20 -> 95 ∉ show port.
Proof. intros. apply digits_not_in; [by apply show_spec|done]. Qed.

Lemma show_02x_no_underscore p : prefix_ok p -> 95 ∉ show_02x p.
Proof. intros Hp. destruct (shown_prefix p Hp) as (p0 & p1 & _ & _ & -> & _ & _ & _ & _ & _ & _ & ? & ?). set_solver. Qed.

Lemma last_show port : 0 <= port < 10 ^ 20 -> exists c, last (show port) = Some c /\ is_ascii_digit c = true.
Proof.
  intros Hp. destruct (show_spec port Hp) as (D & N & _). destruct (last (show port)) as [c|] eqn:E; [|by apply last_None in E].
  exists c. split; [done|]. apply last_Some in E as [l E]. rewrite E in D. apply Forall_app in D as [_ D]. exact (proj1 (Forall_singleton _ _) D).
Qed.

Lemma ascii_lower_digit c : is_ascii_digit c = true -> ascii_lower c = c.
Proof.
  unfold is_ascii_digit, ascii_lower, in_range. intros [H1 H2]%andb_true_iff.
  destruct (Z.leb_spec 65 c); [lia|done].
Qed.

(** A stem that ends in a digit, with or without the extension. *)
Lemma strip_exe_suffix_stem pl stem exe c :
  last stem = Some c -> is_ascii_digit c = true ->
  exe = [] \/ (is_windows pl = true /\ ascii_lower <$> exe = lit ".exe") ->
  strip_exe_suffix pl (stem ++ exe) = stem.
Proof.
  intros Hl Hc [->|[Hw He]]; unfold strip_exe_suffix.
  - rewrite app_nil_r. destruct (_ && _) eqn:E; [|done]. exfalso. apply andb_true_iff in E as [E1 E]. apply bool_decide_eq_true in E.
    apply andb_true_iff in E1 as [_ E1%Nat.leb_le].
    assert (last (drop (length stem - 4) stem) = Some c) as Hd.
    { rewrite <- (take_drop (length stem - 4) stem) in Hl at 1. rewrite last_app in Hl.
      destruct (last (drop (length stem - 4) stem)) eqn:El; [done|]. apply last_None in El.
      apply (f_equal length) in El. rewrite length_drop in El. cbn in El. lia. }
    apply (f_equal last) in E. rewrite fmap_last, Hd in E. cbn in E. rewrite ascii_lower_digit in E by done.
    injection E as ->. done.
  - assert (length exe = 4%nat) as L by (apply (f_equal length) in He; by rewrite length_fmap in He).
    rewrite Hw, length_app, L. replace (length stem + 4 - 4)%nat with (length stem) by lia.
    rewrite drop_app_length, He, bool_decide_true by done.
    replace (4 <=? length stem + 4)%nat with true by (symmetry; apply Nat.leb_le; lia). cbn [andb]. apply take_app_length.
Qed.

(** A network by the program's name. A program called [<base>_<prefix><port>],
    with or without a separator, and on Windows with the extension [.exe] in any
    case, runs in the network of that prefix and port, and reads a configuration
    file of its own: the name without the extension, followed by [.toml], which is
    never the common [yggdrasil.toml]. *)
Theorem network_by_name pl base prefix port sep exe :
  prefix_ok prefix -> 1024 <= port <= 65535 -> separator sep -> 95 ∉ sep ->
  exe = [] \/ (is_windows pl = true /\ ascii_lower <$> exe = lit ".exe") ->
  let stem := base ++ 95 :: show_02x prefix ++ sep ++ show port in
  prefix_port_from_name pl (stem ++ exe) = Some (prefix, port) /\
  config_filename_from_program_name pl (stem ++ exe) = stem ++ lit ".toml" /\
  stem ++ lit ".toml" <> lit "yggdrasil.toml".
Proof.
  intros Hp Hport Hs Hu He stem. destruct (last_show port ltac:(lia)) as (c & Hl & Hc).
  assert (strip_exe_suffix pl (stem ++ exe) = stem) as Hstrip.
  { apply (strip_exe_suffix_stem pl stem exe c); [|done|done].
    unfold stem. change (95 :: ?l) with ([95] ++ l). by rewrite !last_app, Hl. }
  assert (prefix_port_from_name pl (stem ++ exe) = Some (prefix, port)) as Hn.
  { unfold prefix_port_from_name. rewrite Hstrip.
    rewrite (proj2 (rsplit_once_Some 95 stem base (show_02x prefix ++ sep ++ show port)));
      [by apply parse_prefix_port_shown|].
    split; [done|]. rewrite !elem_of_app. intros [H|[H|H]]; [by apply show_02x_no_underscore in H|done|].
    by apply show_no_underscore in H; [|lia]. }
  split_and!; [done| |].
  - unfold config_filename_from_program_name. by rewrite Hn, Hstrip.
  - intros E. assert (95 ∈ lit "yggdrasil.toml") as Hin by (rewrite <- E; unfold stem; set_solver).
    revert Hin. apply (bool_decide_unpack _). by vm_compute.
Qed.

(** The program [ygg_02-9002.EXE] on Windows. *)
Lemma network_by_name_witness :
  prefix_port_from_name Windows (lit "ygg_02-9002.EXE") = Some (2, 9002) /\
  config_filename_from_program_name Windows (lit "ygg_02-9002.EXE") = lit "ygg_02-9002.toml".
Proof.
  assert (separator (lit "-")) as Hs by (right; exists 45; split_and!; [done|lia|lia|done|lia]).
  assert (95 ∉ lit "-") as Hu by (cbn; set_solver).
  destruct (network_by_name Windows (lit "ygg") 2 9002 (lit "-") (lit ".EXE") ltac:(split; [lia|done]) ltac:(lia) Hs Hu
    (or_intror (conj eq_refl eq_refl))) as (H1 & H2 & _). split; [exact H1|exact H2].
Defined.

(** ** The admin address and the interface *)

Definition loopback_hosts : list str := [lit "localhost"; lit "127.0.0.1"; lit "[::1]"].

Definition admin_uri (host port : str) : str := lit "tcp://" ++ host ++ lit ":" ++ port.


Lemma admin_host_port_loopback host pstr :
  host ∈ loopback_hosts -> 58 ∉ pstr ->
  admin_host_port (host ++ lit ":" ++ pstr) = match parse_uint U16_MAX pstr with Some p => Some (host, p) | None => None end.
Proof.
  intros Hh Hp. unfold loopback_hosts in Hh. rewrite !elem_of_cons in Hh.
  assert (rsplit_once 58 (host ++ lit ":" ++ pstr) = Some (host, pstr)) as Hr by (by apply rsplit_once_Some).
  destruct Hh as [->|[->|[->|Hh]]]; [| | |by apply elem_of_nil in Hh]; unfold admin_host_port.
  - change (strip_prefix (lit "[") (lit "localhost" ++ lit ":" ++ pstr)) with (@None str). by rewrite Hr.
  - change (strip_prefix (lit "[") (lit "127.0.0.1" ++ lit ":" ++ pstr)) with (@None str). by rewrite Hr.
  - change (strip_prefix (lit "[") (lit "[::1]" ++ lit ":" ++ pstr)) with (Some (lit "::1" ++ 93 :: lit ":" ++ pstr)).
    cbv iota beta. rewrite (proj2 (split_once_Some 93 (lit "::1" ++ 93 :: lit ":" ++ pstr) (lit "::1") (lit ":" ++ pstr))) by (cbn; set_solver).
    rewrite strip_prefix_app. by destruct (parse_uint U16_MAX pstr).
Qed.

Lemma rewrite_loopback host pstr port :
  host ∈ loopback_hosts -> 58 ∉ pstr ->
  rewrite_default_admin_listen (admin_uri host pstr) port =
  match parse_uint U16_MAX pstr with
  | Some p => if p =? DEFAULT_ADMIN_PORT then Some (admin_uri host (show port)) else None
  | None => None
  end.
Proof.
  intros Hh Hp. unfold rewrite_default_admin_listen, admin_uri. rewrite strip_prefix_app, admin_host_port_loopback by done.
  destruct (parse_uint U16_MAX pstr) as [p|]; [|done]. destruct (p =? DEFAULT_ADMIN_PORT); [|done]. cbn [negb].
  by rewrite bool_decide_true.
Qed.

Lemma admin_host_port_Some rest host p :
  admin_host_port rest = Some (host, p) -> exists pstr, rest = host ++ lit ":" ++ pstr /\ parse_uint U16_MAX pstr = Some p.
Proof.
  unfold admin_host_port. destruct (strip_prefix (lit "[") rest) as [inner|] eqn:E.
  - apply strip_prefix_Some in E as ->. destruct (split_once 93 inner) as [[a b]|] eqn:Es; [|done].
    apply split_once_Some in Es as [-> _]. destruct (strip_prefix (lit ":") b) as [q|] eqn:Eq; [|done].
    apply strip_prefix_Some in Eq as ->. destruct (parse_uint U16_MAX q) as [n|] eqn:En; [|done].
    intros [= <- <-]. exists q. split; [|done]. cbn. by rewrite <- app_assoc.
  - destruct (rsplit_once 58 rest) as [[a b]|] eqn:Es; [|done]. apply rsplit_once_Some in Es as [-> _].
    destruct (parse_uint U16_MAX b) as [n|] eqn:En; [|done]. intros [= <- <-]. by exists b.
Qed.

Lemma rewrite_default_Some listen port r :
  rewrite_default_admin_listen listen port = Some r ->
  exists host pstr, host ∈ loopback_hosts /\ listen = admin_uri host pstr /\
    parse_uint U16_MAX pstr = Some DEFAULT_ADMIN_PORT /\ r = admin_uri host (show port).
Proof.
  unfold rewrite_default_admin_listen. destruct (strip_prefix (lit "tcp://") listen) as [rest|] eqn:Es; [|done].
  apply strip_prefix_Some in Es as ->. destruct (admin_host_port rest) as [[host p]|] eqn:Ea; [|done].
  apply admin_host_port_Some in Ea as (pstr & -> & Ep). destruct (Z.eqb_spec p DEFAULT_ADMIN_PORT) as [->|]; [|done]. cbn [negb].
  destruct (bool_decide_reflect (host ∈ [lit "localhost"; lit "127.0.0.1"; lit "[::1]"])) as [Hh|]; [|done].
  intros [= <-]. by exists host, pstr.
Qed.

Lemma rewrite_again listen port r :
  1024 <= port <= 65535 -> rewrite_default_admin_listen listen port = Some r ->
  default r (rewrite_default_admin_listen r port) = r.
Proof.
  intros Hp (host & pstr & Hh & _ & _ & ->)%rewrite_default_Some.
  destruct (show_spec port ltac:(lia)) as (D & _).
  rewrite rewrite_loopback, parse_uint_show by (done || (by apply digits_not_in) || (unfold U16_MAX; lia)).
  by destruct (port =? DEFAULT_ADMIN_PORT).
Qed.

(** The name an interface called [auto] gets. *)
Definition renamed (pl : Platform) (prefix port : Z) : str :=
  match pl with
  | Windows => lit "Yggdrasil" ++ show_02x prefix ++ show port
  | MacOrBsd => lit "auto"
  | Linux | Android => lit "ygg" ++ show_02x prefix ++ show port
  end.

Section Apply.
Context {F T : Type} (pl : Platform) (prefix port : Z) (c : Config F T).

Lemma apply_admin_listen :
  cf_admin_listen (apply_prefix_port pl prefix port c).2 =
  default (cf_admin_listen c) (rewrite_default_admin_listen (cf_admin_listen c) port).
Proof. unfold apply_prefix_port. cbn [snd]. destruct (rewrite_default_admin_listen _ _); case_bool_decide; by destruct pl. Qed.

Lemma apply_if_name :
  cf_if_name (apply_prefix_port pl prefix port c).2 =
  if bool_decide (cf_if_name c = lit "auto") then renamed pl prefix port else cf_if_name c.
Proof.
  unfold apply_prefix_port. cbn [snd].
  destruct (rewrite_default_admin_listen _ _); cbn; case_bool_decide as E; destruct pl; done.
Qed.

Lemma apply_twice : 1024 <= port <= 65535 ->
  (apply_prefix_port pl prefix port (apply_prefix_port pl prefix port c).2).2 = (apply_prefix_port pl prefix port c).2.
Proof.
  intros Hp. pose proof apply_admin_listen as Ha. pose proof apply_if_name as Hi.
  set (c' := (apply_prefix_port pl prefix port c).2) in *. clearbody c'. unfold apply_prefix_port. cbn [snd].
  assert (match rewrite_default_admin_listen (cf_admin_listen c') port with
          | Some r => c' <| cf_admin_listen := r |> | None => c' end = c') as ->.
  { destruct (rewrite_default_admin_listen (cf_admin_listen c) port) as [r|] eqn:Er; cbn in Ha.
    - pose proof (rewrite_again _ _ _ Hp Er) as Hr. rewrite Ha. destruct (rewrite_default_admin_listen r port) as [r'|]; [|done].
      cbn in Hr. subst r'. rewrite <- Ha. by destruct c'.
    - by rewrite Ha, Er. }
  destruct (bool_decide_reflect (cf_if_name c' = lit "auto")) as [Eq|]; [|done].
  rewrite Hi in Eq. destruct (bool_decide (cf_if_name c = lit "auto")) eqn:Eb.
  - by destruct pl.
  - apply bool_decide_eq_false in Eb. done.
Qed.
End Apply.

(** What a prefix and port from the name change in the configuration. The
    admin address follows the port exactly when it is one of the three loopback
    hosts with the historic port 9001, keeping the host; anything else stays as it
    is. The interface is renamed only from [auto], on Linux and Windows, to a name
    that fits the kernel's 15 characters. Doing it twice changes nothing more. *)
Theorem prefix_port_applied {F T} pl prefix port (c : Config F T) :
  prefix_ok prefix -> 1024 <= port <= 65535 ->
  let '(g, c') := apply_prefix_port pl prefix port c in
  g = mkGlobals prefix (prefix + 1) port /\
  ((exists host pstr, host ∈ loopback_hosts /\ cf_admin_listen c = admin_uri host pstr /\
      parse_uint U16_MAX pstr = Some DEFAULT_ADMIN_PORT /\ cf_admin_listen c' = admin_uri host (show port)) \/
   ((forall host pstr, host ∈ loopback_hosts -> 58 ∉ pstr -> parse_uint U16_MAX pstr = Some DEFAULT_ADMIN_PORT ->
       cf_admin_listen c <> admin_uri host pstr) /\ cf_admin_listen c' = cf_admin_listen c)) /\
  (cf_if_name c <> lit "auto" -> cf_if_name c' = cf_if_name c) /\
  (cf_if_name c = lit "auto" -> pl = Linux -> cf_if_name c' = lit "ygg" ++ show_02x prefix ++ show port /\ (length (cf_if_name c') <= 15)%nat) /\
  (apply_prefix_port pl prefix port c').2 = c'.
Proof.
  intros [Hp He] Hport. destruct (show_spec port ltac:(lia)) as (D & N & V & L). specialize (L 4%nat ltac:(lia)).
  pose proof (apply_admin_listen pl prefix port c) as Ha. pose proof (apply_if_name pl prefix port c) as Hi.
  pose proof (apply_twice pl prefix port c Hport) as Ht.
  destruct (apply_prefix_port pl prefix port c) as [g c'] eqn:E. cbn [snd] in *. split_and!.
  - unfold apply_prefix_port in E. injection E as <- _. f_equal. apply Z.mod_small. lia.
  - rewrite Ha. destruct (rewrite_default_admin_listen (cf_admin_listen c) port) as [r|] eqn:Er; cbn [from_option id].
    + left. by apply rewrite_default_Some in Er.
    + right. split; [|done]. intros host pstr Hh Hc Hpp E'. rewrite E', rewrite_loopback, Hpp in Er by done. done.
  - intros Hn. by rewrite Hi, bool_decide_false.
  - intros Hn ->. rewrite Hi, bool_decide_true by done. split; [done|].
    unfold renamed. rewrite !length_app. change (length (lit "ygg")) with 3%nat. change (length (show_02x prefix)) with 2%nat. lia.
  - exact Ht.
Qed.

Definition default_config : Config unit unit := Config_default.

(** The defaults in the network [06] with port 15001. *)
Lemma prefix_port_applied_witness :
  prefix_ok 6 /\ cf_if_name (apply_prefix_port Linux 6 15001 default_config).2 = lit "ygg0615001" /\
  cf_admin_listen (apply_prefix_port Linux 6 15001 default_config).2 = lit "tcp://localhost:15001".
Proof.
  assert (prefix_ok 6) as Hp by (split; [lia|done]).
  assert (1024 <= 15001 <= 65535) as Hr by lia. split; [exact Hp|].
  pose proof (prefix_port_applied Linux 6 15001 default_config Hp Hr) as H.
  destruct (apply_prefix_port Linux 6 15001 default_config) as [g c'] eqn:E.
  destruct H as (_ & _ & _ & Hn & _). destruct (Hn eq_refl eq_refl) as [Hi _]. cbn [snd]. split; [by rewrite Hi|].
  assert (c' = (apply_prefix_port Linux 6 15001 default_config).2) as -> by (by rewrite E). by vm_compute.
Defined.

(** ** The list of peers *)

(** A peer: no white space at its ends, no comma and no quotes in it. *)
Definition peer_ok (p : str) : Prop :=
  p <> [] /\ (forall c, head p = Some c -> is_whitespace c = false) /\ (forall c, last p = Some c -> is_whitespace c = false) /\
  (COMMA ∉ p) /\ (QUOTE ∉ p) /\ (APOSTROPHE ∉ p).

Definition quoted (q : Z) (s : str) : str := q :: s ++ [q].

Fixpoint join (ps : list str) : str :=
  match ps with
  | [] => []
  | [p] => p
  | p :: ps => p ++ COMMA :: join ps
  end.

Lemma split_on_none c s : c ∉ s -> split_on c s = [s].
Proof.
  induction s as [|d s IH]; intros H; [done|]. apply not_elem_of_cons in H as [Hd H]. cbn.
  rewrite (proj2 (Z.eqb_neq d c)) by done. by rewrite IH.
Qed.

Lemma split_on_app c a b : c ∉ a -> split_on c (a ++ c :: b) = a :: split_on c b.
Proof.
  induction a as [|d a IH]; intros H; cbn; [by rewrite Z.eqb_refl|]. apply not_elem_of_cons in H as [Hd H].
  rewrite (proj2 (Z.eqb_neq d c)) by done. by rewrite IH.
Qed.

Lemma split_join ps : ps <> [] -> Forall (fun p => COMMA ∉ p) ps -> split_on COMMA (join ps) = ps.
Proof.
  intros Hne F. induction F as [|p ps Hp F IH]; [done|]. destruct ps as [|q ps]; [by apply split_on_none|].
  change (join (p :: q :: ps)) with (p ++ COMMA :: join (q :: ps)). rewrite split_on_app by done. by rewrite IH.
Qed.

Lemma head_join p ps c : p <> [] -> head (join (p :: ps)) = Some c -> head p = Some c.
Proof. destruct p; [done|]. by destruct ps. Qed.

Lemma last_join ps p c : p <> [] -> last (join (ps ++ [p])) = Some c -> last p = Some c.
Proof.
  intros Hp. induction ps as [|q ps IH]; [done|]. cbn [app]. destruct (ps ++ [p]) as [|r rs] eqn:E; [by destruct ps|].
  change (join (q :: r :: rs)) with (q ++ [COMMA] ++ join (r :: rs)). rewrite app_assoc, last_app.
  destruct (last (join (r :: rs))) as [d|] eqn:El; [intros [= ->]; by apply IH|].
  apply last_None in El. exfalso. clear -E El Hp. destruct rs; cbn in El.
  - subst r. destruct ps as [|? [|]]; cbn in E; congruence.
  - by destruct r.
Qed.

Lemma utf8_len_lower s : (length s <= utf8_len s)%nat.
Proof.
  unfold utf8_len. induction s as [|c s IH]; cbn in *; [lia|].
  assert (1 <= utf8_width c)%nat by (unfold utf8_width; repeat case_match; lia). lia.
Qed.

Lemma strip_quoted q s : q = QUOTE \/ q = APOSTROPHE -> strip_quotes (quoted q s) = s.
Proof.
  intros Hq. unfold strip_quotes, quoted. pose proof (utf8_len_lower (q :: s ++ [q])) as L. cbn [length] in L. rewrite length_app in L.
  replace (2 <=? utf8_len (q :: s ++ [q]))%nat with true by (symmetry; apply Nat.leb_le; cbn in *; lia).
  rewrite last_snoc. assert (((q =? QUOTE) && (q =? QUOTE)) || ((q =? APOSTROPHE) && (q =? APOSTROPHE)) = true) as ->
    by (by destruct Hq as [->| ->]).
  rewrite length_app. cbn [length]. replace (length s + 1 - 1)%nat with (length s) by lia. apply take_app_length.
Qed.

(** Nothing to strip: the ends are not the same quote. *)
Lemma strip_quotes_none s :
  (forall c d, head s = Some c -> last s = Some d -> ~ (c = d /\ (c = QUOTE \/ c = APOSTROPHE))) -> strip_quotes s = s.
Proof.
  intros H. unfold strip_quotes. destruct (2 <=? utf8_len s)%nat; [|done]. destruct s as [|c s]; [done|].
  destruct (last s) as [d|] eqn:E; [|done].
  specialize (H c d eq_refl). rewrite last_cons, E in H. specialize (H eq_refl).
  destruct (_ || _) eqn:B; [|done]. exfalso. apply H.
  apply orb_true_iff in B as [[B1%Z.eqb_eq B2%Z.eqb_eq]%andb_true_iff|[B1%Z.eqb_eq B2%Z.eqb_eq]%andb_true_iff]; subst; auto.
Qed.

Lemma parse_peer_plain p : p <> [] -> trim p = p -> strip_quotes p = p -> parse_peer p = Some p.
Proof. intros Hn Ht Hs. unfold parse_peer. by rewrite Ht, bool_decide_false, Hs, Ht, bool_decide_false. Qed.

Lemma quotes_not_ws q : q = QUOTE \/ q = APOSTROPHE -> is_whitespace q = false.
Proof. by intros [->| ->]. Qed.

Lemma trim_quoted q s : q = QUOTE \/ q = APOSTROPHE -> trim (quoted q s) = quoted q s.
Proof.
  intros Hq. apply trim_id; intros c; unfold quoted.
  - intros [= <-]. by apply quotes_not_ws.
  - rewrite last_cons, last_snoc. intros [= <-]. by apply quotes_not_ws.
Qed.

Lemma peer_ok_parse p : peer_ok p -> parse_peer p = Some p.
Proof.
  intros (Hn & Hh & Hl & _ & Hq & Ha). apply parse_peer_plain; [done|by apply trim_id|].
  apply strip_quotes_none. intros c d Hc _ [_ [->| ->]]; destruct p as [|x p]; try done; injection Hc as ->; set_solver.
Qed.

Lemma peers_parsed ps : ps <> [] -> Forall peer_ok ps -> omap parse_peer (split_on COMMA (join ps)) = ps.
Proof.
  intros Hne F. rewrite split_join; [|done|eapply Forall_impl; [exact F|]; by intros p (_ & _ & _ & H & _)].
  clear Hne. induction F as [|p ps Hp F IH]; [done|]. cbn. rewrite peer_ok_parse by done. by f_equal.
Qed.

Lemma join_ends ps : ps <> [] -> Forall peer_ok ps ->
  (forall c, head (join ps) = Some c -> is_whitespace c = false /\ c <> QUOTE /\ c <> APOSTROPHE) /\
  (forall c, last (join ps) = Some c -> is_whitespace c = false).
Proof.
  intros Hne F. split; intros c Hc.
  - destruct F as [|p ps (Hn & Hh & _ & _ & Hq & Ha) F]; [done|]. apply head_join in Hc; [|done].
    split; [by apply Hh|]. destruct p as [|x p]; [done|]. injection Hc as ->. split; intros ->; set_solver.
  - destruct ps as [|p ps _] using rev_ind; [done|]. apply Forall_app in F as [_ F].
    destruct (proj1 (Forall_singleton _ _) F) as (Hn & _ & Hl & _). apply last_join in Hc; [|done]. by apply Hl.
Qed.

Lemma join_cons c p ps : join ((c :: p) :: ps) = c :: join (p :: ps).
Proof. by destruct ps. Qed.

Lemma join_snoc ps p c : join (ps ++ [p ++ [c]]) = join (ps ++ [p]) ++ [c].
Proof.
  induction ps as [|q ps IH]; [done|]. cbn [app].
  assert (forall t, join (q :: ps ++ [t]) = q ++ COMMA :: join (ps ++ [t])) as E by (intros t; by destruct ps).
  rewrite !E, IH, <- app_assoc. done.
Qed.

Lemma parse_peer_quoted q p : q = QUOTE \/ q = APOSTROPHE -> peer_ok p -> parse_peer (quoted q p) = Some p.
Proof.
  intros Hq (Hn & Hh & Hl & _). unfold parse_peer. rewrite trim_quoted, bool_decide_false, strip_quoted, trim_id by done.
  by rewrite bool_decide_false.
Qed.

Lemma parse_peers_each_quoted a mid z :
  Forall peer_ok (a :: mid ++ [z]) ->
  parse_peers_list (join (quoted QUOTE <$> (a :: mid ++ [z]))) = (a ++ [QUOTE]) :: mid ++ [QUOTE :: z].
Proof.
  intros [Ha [Hm Hz]%Forall_app]%Forall_cons. apply (proj1 (Forall_singleton _ _)) in Hz.
  assert (join (quoted QUOTE <$> (a :: mid ++ [z])) = quoted QUOTE (join ((a ++ [QUOTE]) :: (quoted QUOTE <$> mid) ++ [QUOTE :: z]))) as ->.
  { rewrite fmap_cons, fmap_app. unfold quoted at 1. rewrite join_cons. unfold quoted at 3. f_equal.
    exact (join_snoc ((a ++ [QUOTE]) :: (quoted QUOTE <$> mid)) (QUOTE :: z) QUOTE). }
  unfold parse_peers_list. rewrite trim_quoted, strip_quoted by auto.
  destruct Ha as (Hna & Hha & Hla & Hca & Hqa & Haa), Hz as (Hnz & Hhz & Hlz & Hcz & Hqz & Haz).
  rewrite split_join; [|done|].
  2: { constructor; [set_solver|]. apply Forall_app. split; [|repeat constructor; set_solver].
       apply Forall_fmap. eapply Forall_impl; [exact Hm|]. intros p (_ & _ & _ & H & _). cbn. unfold quoted. set_solver. }
  assert (parse_peer (a ++ [QUOTE]) = Some (a ++ [QUOTE])) as Ea.
  { apply parse_peer_plain; [by destruct a|apply trim_id|apply strip_quotes_none].
    - intros c Hc. apply Hha. by destruct a.
    - rewrite last_snoc. by intros c [= <-].
    - rewrite last_snoc. intros c d Hc [= <-] [-> _]. destruct a as [|x a]; [done|]. injection Hc as ->. set_solver. }
  assert (parse_peer (QUOTE :: z) = Some (QUOTE :: z)) as Ez.
  { assert (last (QUOTE :: z) = last z) as El by (rewrite last_cons; destruct (last z) eqn:E; [done|by apply last_None in E]).
    apply parse_peer_plain; [done|apply trim_id|apply strip_quotes_none].
    - by intros c [= <-].
    - rewrite El. exact Hlz.
    - rewrite El. intros c d [= <-] Hd [<- _]. apply last_Some in Hd as [l ->]. set_solver. }
  assert (omap parse_peer (quoted QUOTE <$> mid) = mid) as Em.
  { clear -Hm. induction Hm as [|p mid Hp Hm IH]; [done|]. rewrite fmap_cons. cbn. rewrite parse_peer_quoted by auto. by f_equal. }
  change (omap parse_peer ((a ++ [QUOTE]) :: (quoted QUOTE <$> mid) ++ [QUOTE :: z]))
    with (match parse_peer (a ++ [QUOTE]) with
          | Some y => y :: omap parse_peer ((quoted QUOTE <$> mid) ++ [QUOTE :: z])
          | None => omap parse_peer ((quoted QUOTE <$> mid) ++ [QUOTE :: z]) end).
  rewrite Ea, omap_app, Em. cbn [omap list_omap]. by rewrite Ez.
Qed.

(** The list of extra peers. Peers separated by commas are read back, in order,
    whether or not the whole list is in quotes. When each of several peers is in
    quotes of its own, the first and the last quote are taken for quotes around the
    list: the first peer keeps its closing quote and the last one its opening
    quote. *)
Theorem peers_list_reads (ps : list str) :
  ps <> [] -> Forall peer_ok ps ->
  parse_peers_list (join ps) = ps /\
  (forall q, q = QUOTE \/ q = APOSTROPHE -> parse_peers_list (quoted q (join ps)) = ps) /\
  (forall a mid z, ps = a :: mid ++ [z] ->
     parse_peers_list (join (quoted QUOTE <$> ps)) = (a ++ [QUOTE]) :: mid ++ [QUOTE :: z]).
Proof.
  intros Hne F. destruct (join_ends ps Hne F) as [Hh Hl]. split_and!.
  - unfold parse_peers_list. rewrite trim_id, strip_quotes_none; [by apply peers_parsed| |by intros c Hc; apply Hh|done].
    intros c d Hc _ [_ Hq]. destruct (Hh c Hc) as (_ & ? & ?). naive_solver.
  - intros q Hq. unfold parse_peers_list. rewrite trim_quoted, strip_quoted by done. by apply peers_parsed.
  - intros a mid z ->. by apply parse_peers_each_quoted.
Qed.

Lemma peers_list_reads_witness :
  parse_peers_list (lit "tcp://a:1,tls://b:2") = [lit "tcp://a:1"; lit "tls://b:2"] /\
  parse_peers_list (join (quoted QUOTE <$> [lit "tcp://a:1"; lit "tls://b:2"])) =
    [lit "tcp://a:1" ++ [QUOTE]; QUOTE :: lit "tls://b:2"].
Proof.
  assert (Forall peer_ok [lit "tcp://a:1"; lit "tls://b:2"]) as F.
  { repeat constructor; try (intros c [= <-]; done); try (apply (bool_decide_unpack _); by vm_compute); done. }
  destruct (peers_list_reads [lit "tcp://a:1"; lit "tls://b:2"] ltac:(done) F) as (H1 & _ & H3).
  split; [exact H1|]. exact (H3 (lit "tcp://a:1") [] (lit "tls://b:2") eq_refl).
Defined.

(** ** The routing rule *)

Lemma digits_no_ws ds : digits ds -> Forall (fun c => is_whitespace c = false) ds.
Proof.
  intros D. eapply Forall_impl; [exact D|]. intros c Hc. unfold is_ascii_digit in Hc. apply andb_true_iff in Hc as [H1 H2].
  apply Z.leb_le in H1, H2. unfold is_whitespace. rewrite !orb_false_iff, !andb_false_iff. lia.
Qed.

(** The rule as [ip] lists it. *)
Definition rule_line (pref lookup : Z) : str := show pref ++ lit ":" ++ [9] ++ lit "from all lookup " ++ show lookup.

Lemma rule_line_matches pref lookup :
  0 <= pref < 10 ^ 20 -> 0 <= lookup < 10 ^ 20 -> ip_rule_line_matches (rule_line pref lookup) pref lookup = true.
Proof.
  intros Hp Hl. destruct (show_spec pref Hp) as (Dp & Np & _), (show_spec lookup Hl) as (Dl & Nl & _).
  assert (words_loop (rule_line pref lookup) = [show pref ++ lit ":"; lit "from"; lit "all"; lit "lookup"; show lookup]) as E.
  { unfold rule_line. rewrite app_assoc. change ([9] ++ lit "from all lookup " ++ show lookup) with
      (9 :: lit "from" ++ 32 :: lit "all" ++ 32 :: lit "lookup" ++ 32 :: show lookup).
    rewrite words_loop_word; [|apply Forall_app; split; [by apply digits_no_ws|by repeat constructor]|done].
    rewrite words_loop_word by (by repeat constructor). rewrite words_loop_word by (by repeat constructor).
    rewrite words_loop_word by (by repeat constructor). by rewrite words_loop_last by (by apply digits_no_ws). }
  apply split_whitespace_words in E; [|repeat constructor; try done; by destruct (show pref)].
  unfold ip_rule_line_matches. rewrite E.
  unfold show_signed. rewrite (proj2 (Z.ltb_ge pref 0)) by lia.
  rewrite (bool_decide_false (_ <> _)) by (intros H; by apply H). by apply bool_decide_eq_true.
Qed.

Definition has_rule (text : str) (pref lookup : Z) : bool := existsb (fun l => ip_rule_line_matches l pref lookup) (lines text).

(** The listing of a family after the rule was added where it was missing. *)
Definition ensured (text text' : str) (pref lookup : Z) : Prop :=
  lines text' = lines text ++ (if has_rule text pref lookup then [] else [rule_line pref lookup]).

Lemma ensured_has_rule text text' pref lookup :
  0 <= pref < 10 ^ 20 -> 0 <= lookup < 10 ^ 20 -> ensured text text' pref lookup -> has_rule text' pref lookup = true.
Proof.
  intros Hp Hl E. unfold has_rule at 1. rewrite E, existsb_app. fold (has_rule text pref lookup).
  destruct (has_rule text pref lookup) eqn:H; [done|]. cbn [existsb]. by rewrite rule_line_matches.
Qed.

(** The routing rule. With the listings of both families, the rule is added
    exactly for the families that lack it; once it is listed, a second start adds
    nothing. *)
Theorem ip_rule_ensured pref lookup v4 v6 t4 t6 :
  1 <= pref <= 32765 -> 1 <= lookup <= 251 ->
  ip_show v4 = Some t4 -> ip_show v6 = Some t6 -> ip_add v4 = true -> ip_add v6 = true ->
  ensure_linux_ip_rule pref lookup v4 v6 =
    ((if has_rule t4 pref lookup then [] else [false]) ++ (if has_rule t6 pref lookup then [] else [true]), None) /\
  forall w4 w6 t4' t6', ip_show w4 = Some t4' -> ip_show w6 = Some t6' ->
    ensured t4 t4' pref lookup -> ensured t6 t6' pref lookup -> ensure_linux_ip_rule pref lookup w4 w6 = ([], None).
Proof.
  intros Hp Hl S4 S6 A4 A6. unfold ensure_linux_ip_rule. split.
  - cbn [ensure_families]. rewrite S4, S6, A4, A6. unfold has_rule.
    by destruct (existsb _ (lines t4)), (existsb _ (lines t6)).
  - intros w4 w6 t4' t6' W4 W6 E4 E6.
    pose proof (ensured_has_rule t4 t4' pref lookup ltac:(lia) ltac:(lia) E4) as H4.
    pose proof (ensured_has_rule t6 t6' pref lookup ltac:(lia) ltac:(lia) E6) as H6.
    cbn [ensure_families]. rewrite W4, W6. unfold has_rule in H4, H6. by rewrite H4, H6.
Qed.

(** The rule is there for IPv4 only. *)
Lemma ip_rule_ensured_witness :
  ensure_linux_ip_rule 9000 200 (mkIpRuns (Some (rule_line 9000 200)) true) (mkIpRuns (Some []) true) = ([true], None).
Proof.
  rewrite (proj1 (ip_rule_ensured 9000 200 (mkIpRuns (Some (rule_line 9000 200)) true) (mkIpRuns (Some []) true)
    (rule_line 9000 200) [] ltac:(lia) ltac:(lia) eq_refl eq_refl eq_refl eq_refl)). by vm_compute.
Defined.

(** ** The route of the local subnet *)

Lemma ifaces_loop_spec parse_ipv6 wanted ls : forall found, NoDup found ->
  NoDup (ifaces_loop parse_ipv6 ls wanted found) /\
  forall i, i ∈ ifaces_loop parse_ipv6 ls wanted found <->
    i ∈ found \/ exists line, line ∈ ls /\ iface_of_line parse_ipv6 line wanted = Some i.
Proof.
  induction ls as [|line ls IH]; intros found N; cbn [ifaces_loop]; [set_solver|].
  destruct (iface_of_line parse_ipv6 line wanted) as [iface|] eqn:E.
  - destruct (IH (if bool_decide (iface ∈ found) then found else found ++ [iface])) as [N' H].
    { case_bool_decide; [done|]. apply NoDup_app. split_and!; [done|set_solver|apply NoDup_singleton]. }
    split; [done|]. intros i. rewrite H. case_bool_decide; set_solver.
  - destruct (IH found N) as [N' H]. split; [done|]. intros i. rewrite H. set_solver.
Qed.

Lemma iface_of_line_not_lo parse_ipv6 line wanted i : iface_of_line parse_ipv6 line wanted = Some i -> i <> [] /\ i <> lit "lo".
Proof.
  unfold iface_of_line. destruct (_ || _); [done|]. destruct (split_whitespace line) as [|? [|name parts]]; [done..|].
  cbv zeta. set (iface := match split_on 64 name with i :: _ => i | [] => name end).
  destruct (bool_decide_reflect (iface = [])) as [?|H1]; [done|]. destruct (bool_decide_reflect (iface = lit "lo")) as [?|H2]; [done|].
  cbn [orb]. repeat case_match; try done; intros [= <-]; done.
Qed.

#[export] Instance RouteAction_eq_dec : EqDecision RouteAction.
Proof. unfold EqDecision. intros. unfold Decision. decide equality; solve_decision. Defined.

Definition looks (acts : list RouteAction) : nat := length (filter (fun a => a = Look) acts).
Definition waits (acts : list RouteAction) : nat := length (filter (fun a => a = Wait) acts).

Definition sole_iface (a : Attempt) : list RouteAction :=
  match at_ifaces a with Some [iface] => [InstallRoute iface (at_install a)] | _ => [] end.

(** One attempt: nothing, or a look with at most one installation, which ends the
    loop when it works. *)
Lemma route_attempts_cons n a attempts :
  route_attempts n (a :: attempts) = [] \/
  (route_attempts n (a :: attempts) = Look :: sole_iface a) \/
  (exists m, n = S m /\ (forall iface, InstallRoute iface true ∉ sole_iface a) /\
     (route_attempts n (a :: attempts) = Look :: sole_iface a ++ [Wait] \/
      route_attempts n (a :: attempts) = Look :: sole_iface a ++ Wait :: route_attempts m attempts)).
Proof.
  cbn [route_attempts]. unfold sole_iface. destruct (at_shutdown a); [by left|right].
  destruct (at_ifaces a) as [[|iface [|? ?]]|] eqn:E; destruct (at_install a) eqn:Ei; try (by left);
    (destruct n as [|m]; [by left|right; exists m; split_and!; [done|set_solver|]]);
    destruct (at_interrupted a); auto.
Qed.

Lemma looks_sole a rest : looks (sole_iface a ++ rest) = looks rest /\ waits (sole_iface a ++ rest) = waits rest.
Proof. unfold sole_iface, looks, waits. by repeat case_match. Qed.

Lemma route_attempts_bounds attempts : forall n,
  (looks (route_attempts n attempts) <= S n)%nat /\ (waits (route_attempts n attempts) <= n)%nat.
Proof.
  assert (forall l, looks (Look :: l) = S (looks l) /\ waits (Look :: l) = waits l) as HL by done.
  assert (forall l, looks (Wait :: l) = looks l /\ waits (Wait :: l) = S (waits l)) as HW by done.
  assert (forall a, looks (sole_iface a) = 0%nat /\ waits (sole_iface a) = 0%nat) as HS.
  { intros a. pose proof (looks_sole a []) as H. by rewrite app_nil_r in H. }
  induction attempts as [|a attempts IH]; intros n; [cbn; lia|].
  destruct (route_attempts_cons n a attempts) as [-> |[-> |(m & -> & _ & [-> | ->])]]; [cbn; lia|..];
    rewrite ?(proj1 (HL _)), ?(proj2 (HL _)), ?(proj1 (HS _)), ?(proj2 (HS _)), ?(proj1 (looks_sole _ _)), ?(proj2 (looks_sole _ _)),
      ?(proj1 (HW _)), ?(proj2 (HW _)).
  - lia.
  - cbn. lia.
  - specialize (IH m). lia.
Qed.

Lemma route_attempts_install attempts : forall n pre iface ok post,
  route_attempts n attempts = pre ++ InstallRoute iface ok :: post ->
  (exists a, a ∈ attempts /\ at_ifaces a = Some [iface] /\ at_install a = ok) /\ (ok = true -> post = []).
Proof.
  induction attempts as [|a attempts IH]; intros n pre iface ok post E; [by destruct pre|].
  assert (forall x, x ∈ sole_iface a -> exists i, x = InstallRoute i (at_install a) /\ at_ifaces a = Some [i]) as Hs.
  { unfold sole_iface. intros x. repeat case_match; set_solver. }
  assert (sole_iface a = [] \/ exists x, sole_iface a = [x]) as Hc by (unfold sole_iface; repeat case_match; eauto).
  destruct (route_attempts_cons n a attempts) as [E'|[E'|(m & -> & Hno & [E'|E'])]]; rewrite E' in E; [by destruct pre|..];
    (destruct pre as [|y pre]; [done|]); injection E as <- E.
  - destruct Hc as [Hc|[x Hc]]; rewrite Hc in E; [by destruct pre|]. destruct pre as [|? [|]]; [|done..]. injection E as -> <-.
    destruct (Hs (InstallRoute iface ok)) as (i & [= -> ->] & Hi); [rewrite Hc; set_solver|]. split; [|done]. exists a. set_solver.
  - destruct Hc as [Hc|[x Hc]]; rewrite Hc in E; [by destruct pre as [|? []]|]. destruct pre as [|? [|? []]]; [|done..]. injection E as -> <-.
    destruct (Hs (InstallRoute iface ok)) as (i & [= -> Ho] & Hi); [rewrite Hc; set_solver|]. subst ok.
    split; [exists a; set_solver|]. intros Ht. exfalso. apply (Hno i). rewrite Hc, <- Ht. set_solver.
  - destruct Hc as [Hc|[x Hc]]; rewrite Hc in E.
    + destruct pre as [|? pre]; [done|]. injection E as <- E. destruct (IH _ _ _ _ _ E) as [(b & Hb & H) Hp]. split; [exists b; set_solver|done].
    + destruct pre as [|? [|? pre]]; [|done|].
      * injection E as -> <-. destruct (Hs (InstallRoute iface ok)) as (i & [= -> Ho] & Hi); [rewrite Hc; set_solver|]. subst ok.
        split; [exists a; set_solver|]. intros Ht. exfalso. apply (Hno i). rewrite Hc, <- Ht. set_solver.
      * injection E as <- <- E. destruct (IH _ _ _ _ _ E) as [(b & Hb & H) Hp]. split; [exists b; set_solver|done].
Qed.

(** The route of the local subnet. The interfaces considered are exactly those
    a line of the listing gives the gateway's address, each once and never the
    loopback. There are at most 11 looks and 10 waits of a minute; a route is
    installed only when exactly one interface was found in that look, and the loop
    ends with the first installation that works. *)
Theorem subnet_route_retries parse_ipv6 text wanted attempts :
  NoDup (local_subnet_gateway_ifaces parse_ipv6 text wanted) /\
  (forall i, i ∈ local_subnet_gateway_ifaces parse_ipv6 text wanted <->
     exists line, line ∈ lines text /\ iface_of_line parse_ipv6 line wanted = Some i) /\
  (lit "lo" ∉ local_subnet_gateway_ifaces parse_ipv6 text wanted) /\
  let acts := install_local_subnet_route_with_retries attempts in
  (looks acts <= 11)%nat /\ (waits acts <= 10)%nat /\
  forall pre iface ok post, acts = pre ++ InstallRoute iface ok :: post ->
    (exists a, a ∈ attempts /\ at_ifaces a = Some [iface] /\ at_install a = ok) /\ (ok = true -> post = []).
Proof.
  destruct (ifaces_loop_spec parse_ipv6 wanted (lines text) [] ltac:(constructor)) as [N H].
  assert (forall i, i ∈ local_subnet_gateway_ifaces parse_ipv6 text wanted <->
     exists line, line ∈ lines text /\ iface_of_line parse_ipv6 line wanted = Some i) as Hi.
  { intros i. unfold local_subnet_gateway_ifaces. rewrite H. set_solver. }
  split; [exact N|]. split; [exact Hi|]. split; [|cbv zeta; split_and!].
  - rewrite Hi. intros (line & _ & [_ Hlo]%iface_of_line_not_lo). done.
  - apply route_attempts_bounds.
  - apply route_attempts_bounds.
  - apply route_attempts_install.
Qed.
