(* ===== verification/CkrText.v ===== *)
(** * CkrText: the text of crypto-key routing entries

    Models the text side of [crates/yggdrasil/src/ckr.rs]: the marks of entries,
    route lists in files with their cache, the named sets of prefixes, the step
    from the configuration to the route tables of [Ckr], the files of downloaded
    lists and the addresses of peers that must stay outside the tunnel. Parsing of
    URLs, networks and addresses ([url], [ipnet], the Standard Library) and the
    digest are parameters; a directory is a map from names to contents. *)

From stdpp Require Import strings options.
From S2P Require Import Prelude.
From S2P Require Import Wire.
From S2P Require Import Address.
From S2P Require Import Ckr.
From S2P Require Import Text.
Open Scope Z_scope.

(** ** Named prefixes *)

Definition INETV4_PREFIXES : list str :=
  [lit "0.0.0.0/5"; lit "8.0.0.0/7"; lit "11.0.0.0/8"; lit "12.0.0.0/6"; lit "16.0.0.0/4"; lit "32.0.0.0/3"; lit "64.0.0.0/2";
   lit "128.0.0.0/3"; lit "160.0.0.0/5"; lit "168.0.0.0/6"; lit "172.0.0.0/12"; lit "172.32.0.0/11"; lit "172.64.0.0/10";
   lit "172.128.0.0/9"; lit "173.0.0.0/8"; lit "174.0.0.0/7"; lit "176.0.0.0/4"; lit "192.0.0.0/9"; lit "192.128.0.0/11";
   lit "192.160.0.0/13"; lit "192.169.0.0/16"; lit "192.170.0.0/15"; lit "192.172.0.0/14"; lit "192.176.0.0/12";
   lit "192.192.0.0/10"; lit "193.0.0.0/8"; lit "194.0.0.0/7"; lit "196.0.0.0/6"; lit "200.0.0.0/5"; lit "208.0.0.0/4"].
Definition INETV6_PREFIXES : list str := [lit "2000::/3"].

Definition normalize_entry (entry : str) : list str :=
  let trimmed := trim entry in
  if bool_decide (trimmed = lit "inetv4") then INETV4_PREFIXES
  else if bool_decide (trimmed = lit "~inetv4") then (fun s => lit "~" ++ s) <$> INETV4_PREFIXES
  else if bool_decide (trimmed = lit "_inetv4") then (fun s => lit "_" ++ s) <$> INETV4_PREFIXES
  else if bool_decide (trimmed = lit "inetv6") then INETV6_PREFIXES
  else if bool_decide (trimmed = lit "~inetv6") then (fun s => lit "~" ++ s) <$> INETV6_PREFIXES
  else if bool_decide (trimmed = lit "_inetv6") then (fun s => lit "_" ++ s) <$> INETV6_PREFIXES
  else [trimmed].
Definition normalize_subnet_entries (entries : list str) : list str := concat (normalize_entry <$> entries).

(** ** Marks *)

(** An optional mark and the rest. The two places that take marks apart try them
    in different orders, which gives the same result. *)
Definition extract_prefix_url (entry : str) : str * str :=
  let t := trim entry in
  match strip_prefix (lit "~") t with
  | Some rest => (lit "~", trim rest)
  | None =>
      match strip_prefix (lit "_") t with
      | Some rest => (lit "_", trim rest)
      | None =>
          match strip_prefix (lit "!") t with
          | Some rest => (lit "!", trim rest)
          | None => ([], t)
          end
      end
  end.

Definition marked_with (schemes : list str) (t : str) : bool :=
  existsb (fun scheme => existsb (fun mark => starts_with (mark ++ scheme) t) [[]; lit "~"; lit "!"; lit "_"]) schemes.
Definition is_list_entry (t : str) : bool := marked_with [lit "file:///"; lit "http://"; lit "https://"] t.
Definition is_http_entry (entry : str) : bool := marked_with [lit "http://"; lit "https://"] (trim entry).

(** ** Lists in files *)

(** What [Url::parse] and [to_file_path] make of a list's address. *)
Inductive ListUrl := BadUrl | HttpUrl | FileUrl (path : option str) | OtherUrl.

(** A route list file: its lines, missing, or an error. *)
Inductive ListFile := ListLines (ls : list str) | ListMissing | ListError.

Inductive CidrError := InvalidUrl (s : str) | UnsupportedUrl (s : str) | InvalidPath (s : str) | ReadFailed (p : str) | InvalidCidr (s : str).

(** The lines a list contributes. *)
Definition list_entries (ls : list str) : list str :=
  filter (fun lt => lt <> [] /\ starts_with (lit "#") lt = false) (trim <$> ls).

(** The cache of lists: [None] for a missing file. *)
Abbreviation RouteFileCache := (gmap str (option (list str))) (only parsing).

Section Entries.
Context (parse_url : str -> ListUrl) (read_list : str -> ListFile).
(** Whether the feature that reads lists is compiled in. *)
Context (ckr_advanced : bool).

Definition resolve_entry (entry : str) (cache : RouteFileCache) : result CidrError (list str) * RouteFileCache :=
  let trimmed := trim entry in
  if negb ckr_advanced || negb (is_list_entry trimmed) then (Ok [trimmed], cache)
  else
    let '(mark, url_str) := extract_prefix_url entry in
    match parse_url url_str with
    | BadUrl => (Err (InvalidUrl url_str), cache)
    | OtherUrl => (Err (UnsupportedUrl url_str), cache)
    | HttpUrl => (Ok [], cache)
    | FileUrl None => (Err (InvalidPath url_str), cache)
    | FileUrl (Some path) =>
        match cache !! path with
        | Some (Some ls) => (Ok ((fun lt => mark ++ lt) <$> ls), cache)
        | Some None => (Ok [], cache)
        | None =>
            match read_list path with
            | ListMissing => (Ok [], <[path := None]> cache)
            | ListError => (Err (ReadFailed path), cache)
            | ListLines ls =>
                let file_lines := list_entries ls in
                (Ok ((fun lt => mark ++ lt) <$> file_lines), <[path := Some file_lines]> cache)
            end
        end
    end.

Fixpoint resolve_entries (entries : list str) (cache : RouteFileCache) : result CidrError (list str) * RouteFileCache :=
  match entries with
  | [] => (Ok [], cache)
  | e :: entries =>
      match resolve_entry e cache with
      | (Err x, cache) => (Err x, cache)
      | (Ok ls, cache) =>
          match resolve_entries entries cache with
          | (Err x, cache) => (Err x, cache)
          | (Ok rest, cache) => (Ok (ls ++ rest), cache)
          end
      end
  end.

(** A single entry: whether it excludes, and its network as text. *)
Definition entry_cidr (raw : str) : bool * str :=
  let cidr_input :=
    match strip_prefix (lit "~") raw with
    | Some after => trim after
    | None => match strip_prefix (lit "_") raw with Some after => trim after | None => raw end
    end in
  match strip_prefix (lit "!") cidr_input with
  | Some rest => (true, trim rest)
  | None => (false, cidr_input)
  end.

(** An address without a length is a network of its own. *)
Definition cidr_for_parse (cidr_str : str) : str :=
  if contains (lit "/") cidr_str then cidr_str
  else if contains (lit ":") cidr_str then cidr_str ++ lit "/128"
  else cidr_str ++ lit "/32".

Context `{IpNetOps} (parse_net : str -> option IpNet) (overflow_checks : bool).

Fixpoint parse_entries (normalized : list str) : result CidrError (list (bool * IpNet)) :=
  match normalized with
  | [] => Ok []
  | raw :: normalized =>
      let '(is_exclude, cidr_str) := entry_cidr raw in
      match parse_net (cidr_for_parse cidr_str) with
      | None => Err (InvalidCidr cidr_str)
      | Some net =>
          match parse_entries normalized with
          | Ok rest => Ok ((is_exclude, net) :: rest)
          | Err x => Err x
          end
      end
  end.

Definition expand_cidrs (entries : list str) (cache : RouteFileCache)
    : outcome (result CidrError (list IpNet)) * RouteFileCache :=
  match resolve_entries entries cache with
  | (Err x, cache) => (Ret (Err x), cache)
  | (Ok resolved, cache) =>
      match parse_entries (normalize_subnet_entries resolved) with
      | Err x => (Ret (Err x), cache)
      | Ok nets => (out ← expand_entries overflow_checks nets; Ret (Ok out), cache)
      end
  end.
End Entries.

(** ** Keys *)

Inductive PubkeyError := BadHex | BadLength (n : nat).

Definition parse_pubkey (hex_str : str) : result PubkeyError bytes :=
  match hex_decode hex_str with
  | None => Err BadHex
  | Some bs => if (length bs =? 32)%nat then Ok bs else Err (BadLength (length bs))
  end.

(** ** Downloaded lists *)

(** [find('-')] and a number before it. *)
Definition is_stale_index_file (name : str) (current_count : Z) : bool :=
  match split_once 45 name with
  | Some (idx, _) => match parse_uint U64_MAX idx with Some i => current_count <=? i | None => false end
  | None => false
  end.

Definition list_file_name (i : Z) (mark md5_hex : str) : str :=
  show i ++ lit "-" ++ mark ++ lit "-" ++ md5_hex.

(** The mark in a file's name. *)
Definition mark_of_name (name : str) : option str :=
  match split_once 45 name with
  | None => None
  | Some (_, after_first) =>
      Some (if starts_with (lit "-") after_first then []
            else match split_once 45 after_first with
                 | Some (p, _) => if bool_decide (p ∈ [lit "~"; lit "_"; lit "!"]) then p else []
                 | None => []
                 end)
  end.

(** Whether a name belongs to slot [i], and whether it has the given digest. *)
Definition in_slot (i : Z) (name : str) : bool := starts_with (show i ++ lit "-") name.
Definition has_digest (md5_hex name : str) : bool := ends_with (lit "-" ++ md5_hex) name.

Section Downloads.
Context (md5_hex : bytes -> str).

(** A directory of lists. *)
Abbreviation ListDir := (gmap str bytes) (only parsing).

(** [rename]: whether it works; it replaces the target. *)
Definition rename_file (ok : bool) (old target : str) (d : ListDir) : ListDir :=
  if ok then match d !! old with Some body => <[target := body]> (delete old d) | None => d end else d.

(** A list was downloaded for slot [i]. [entry_order] is the order in which the
    directory is read; [rename_ok] and [write_ok] tell how the file system
    answers. *)
Definition store_list (entry_order : ListDir -> list str) (rename_ok write_ok : bool)
    (i : Z) (mark : str) (body : bytes) (d : ListDir) : ListDir :=
  let md5 := md5_hex body in
  let target := list_file_name i mark md5 in
  let d := filter (fun e => negb (in_slot i e.1 && negb (has_digest md5 e.1)) = true) d in
  let same := find (fun name => in_slot i name && has_digest md5 name) (entry_order d) in
  let '(renamed, d) :=
    match same with
    | Some name => if bool_decide (name <> target) then (true, rename_file rename_ok name target d) else (false, d)
    | None => (false, d)
    end in
  if renamed || bool_decide (is_Some (d !! target)) then d
  else if write_ok then <[target := body]> d else d.

(** The lists that are gone from the configuration. *)
Definition remove_stale (num : Z) (d : ListDir) : ListDir :=
  filter (fun e => is_stale_index_file e.1 num = false) d.
End Downloads.

(** *** Attempts *)

(** What one attempt gives: a response with its status and body, or an error. *)
Inductive Fetch := Fetched (status : Z) (body : option bytes) | FetchFailed.
Inductive DownloadError := ShutdownRequested | LastAttemptFailed (attempt : nat) | Unreachable.

(** A wait in 20 steps; [polls] are the values of the shutdown flag. *)
Definition interrupted (polls : list bool) : bool := existsb id (take 20 polls).

(** One attempt: the flag before it, the answer, and the flags of the wait after
    it. *)
Record DownloadAttempt := mkDownloadAttempt { da_shutdown : bool; da_fetch : Fetch; da_wait : list bool }.

Fixpoint attempts_loop (attempt : nat) (left : nat) (attempts : nat -> DownloadAttempt) : result DownloadError bytes :=
  match left with
  | O => Err Unreachable
  | S left' =>
      let a := attempts attempt in
      if da_shutdown a then Err ShutdownRequested
      else
        match da_fetch a with
        | Fetched 200 (Some body) => Ok body
        | _ =>
            match left' with
            | O => Err (LastAttemptFailed attempt)
            | S _ => if interrupted (da_wait a) then Err ShutdownRequested else attempts_loop (S attempt) left' attempts
            end
        end
  end.

Definition download_with_retries (max_attempts : nat) (first_wait : list bool) (attempts : nat -> DownloadAttempt)
    : result DownloadError bytes :=
  if interrupted first_wait then Err ShutdownRequested else attempts_loop 1 max_attempts attempts.

(** ** Peers outside the tunnel *)

(** [split("://").nth(1)]: between the first and the second separator. *)
Fixpoint split_at (pat s : str) : option (str * str) :=
  match strip_prefix pat s with
  | Some rest => Some ([], rest)
  | None =>
      match s with
      | [] => None
      | c :: s => match split_at pat s with Some (a, b) => Some (c :: a, b) | None => None end
      end
  end.

Definition strip_brackets (host : str) : str :=
  if starts_with (lit "[") host && ends_with (lit "]") host then take (length host - 2) (drop 1 host) else host.

Definition extract_peer_host (peer : str) : option str :=
  match split_at (lit "://") peer with
  | None => None
  | Some (_, rest) =>
      let after_scheme := match split_at (lit "://") rest with Some (a, _) => a | None => rest end in
      let host_part := match split_once 47 after_scheme with Some (a, _) => a | None => after_scheme end in
      let host := match rsplit_once 58 host_part with Some (host, _) => strip_brackets host | None => strip_brackets host_part end in
      if bool_decide (host = []) then None else Some host
  end.

Section Exclusions.
(** [IpAddr::from_str] printed again, and the addresses a name resolves to (the
    first of three lookups that works). *)
Context (parse_ip : str -> option str) (resolve : str -> list str).

Definition peer_addresses (peer : str) : list str :=
  match extract_peer_host peer with
  | None => []
  | Some host => match parse_ip host with Some ip => [ip] | None => resolve host end
  end.

Fixpoint add_exclusions (ips : list str) (exclusions : list str) : list str :=
  match ips with
  | [] => exclusions
  | ip :: ips =>
      let entry := lit "!" ++ ip in
      add_exclusions ips (if bool_decide (entry ∈ exclusions) then exclusions else exclusions ++ [entry])
  end.

(** The list that is stored when the node is not told to stop meanwhile (then nothing
    is stored and no table is built). Without remote subnets the code stores the
    empty list at once; the table has no subnet then to apply it to. *)
Definition prepare_peer_exclusions (peers : list str) : list str :=
  foldl (fun exclusions peer => add_exclusions (peer_addresses peer) exclusions) [] peers.
End Exclusions.

(** ** From the configuration to the tables *)

Inductive CkrError := CkrPubkey (e : PubkeyError) | CkrCidr (e : CidrError) | CkrYggdrasil.

Section Build.
Context (parse_url : str -> ListUrl) (read_list : str -> ListFile) (ckr_advanced : bool).
Context `{IpNetOps} (parse_net : str -> option IpNet) (overflow_checks : bool).
(** The entries of downloaded lists for a key, and the peers' exclusions. *)
Context (downloaded : str -> list str) (exclusions : list str).

(** The loop over [remote_subnets]: a destination's entries are expanded and its
    networks enter the tables, before the next destination is looked at. *)
Fixpoint add_subnets (prefix : Z) (self_key : bytes) (subnets : list (str * list str)) (cache : RouteFileCache) (v4 v6 : RouteTable)
    : outcome (result CkrError (RouteTable * RouteTable)) * RouteFileCache :=
  match subnets with
  | [] => (Ret (Ok (v4, v6)), cache)
  | (pubkey_hex, cidrs) :: subnets =>
      match parse_pubkey pubkey_hex with
      | Err e => (Ret (Err (CkrPubkey e)), cache)
      | Ok dest =>
          if bool_decide (dest = self_key) then add_subnets prefix self_key subnets cache v4 v6
          else
            let effective_entries := cidrs ++ (if ckr_advanced then downloaded pubkey_hex else []) ++ exclusions in
            let ckr_cidrs := filter (fun s => starts_with (lit "_") (trim s) = false) effective_entries in
            match expand_cidrs parse_url read_list ckr_advanced parse_net overflow_checks ckr_cidrs cache with
            | (Panic, cache) => (Panic, cache)
            | (Ret (Err e), cache) => (Ret (Err (CkrCidr e)), cache)
            | (Ret (Ok nets), cache) =>
                match add_routes prefix nets dest v4 v6 with
                | None => (Ret (Err CkrYggdrasil), cache)
                | Some (v4, v6) => add_subnets prefix self_key subnets cache v4 v6
                end
            end
      end
  end.

(** [CryptoKey::new], from the text of the configuration. *)
Definition CryptoKey_read (prefix : Z) (enable yggdrasil_routing : bool) (self_key : bytes) (subnets : list (str * list str))
    (cache : RouteFileCache) : outcome (result CkrError CryptoKey) * RouteFileCache :=
  let v4 := RouteTable_new 32 in
  let v6 := RouteTable_new 128 in
  if negb enable then (Ret (Ok (mkCryptoKey yggdrasil_routing v4 v6)), cache)
  else match add_subnets prefix self_key subnets cache v4 v6 with
       | (Ret (Ok (v4, v6)), cache) => (Ret (Ok (mkCryptoKey yggdrasil_routing v4 v6)), cache)
       | (Ret (Err e), cache) => (Ret (Err e), cache)
       | (Panic, cache) => (Panic, cache)
       end.
End Build.
