(* ===== verification/CkrTextFacts.v ===== *)
(** * CkrTextFacts: theorems about the text of crypto-key routing

    Route lists are read once; the slots of downloaded lists hold one file each,
    the latest; the addresses of peers never get into the tunnel. *)

From stdpp Require Import strings options.
From S2P Require Import Prelude.
From S2P Require Import Wire.
From S2P Require Import Address.
From S2P Require Import Ckr.
From S2P Require Import CkrFacts.
From S2P Require Import CkrRoutes.
From S2P Require Import Text.
From S2P Require Import CkrText.
Open Scope Z_scope.

(** ** The cache of lists *)

Section Cache.
Context (parse_url : str -> ListUrl) (ckr_advanced : bool).

(** What a read gave is in the cache, for good. *)
Lemma resolve_entry_cached read_list read_list' e c ls c' :
  resolve_entry parse_url read_list ckr_advanced e c = (Ok ls, c') ->
  c ⊆ c' /\ forall d, c' ⊆ d -> resolve_entry parse_url read_list' ckr_advanced e d = (Ok ls, d).
Proof.
  unfold resolve_entry. destruct (negb ckr_advanced || _); [by intros [= <- <-]|].
  destruct (extract_prefix_url e) as [mark url_str]. destruct (parse_url url_str) as [| |[path|]|]; try done; [by intros [= <- <-]|].
  destruct (c !! path) as [[l|]|] eqn:E.
  - intros [= <- <-]. split; [done|]. intros d Hd. by rewrite (lookup_weaken _ _ _ _ E Hd).
  - intros [= <- <-]. split; [done|]. intros d Hd. by rewrite (lookup_weaken _ _ _ _ E Hd).
  - destruct (read_list path) as [l| |]; [| |done]; intros [= <- <-].
    + split; [by apply insert_subseteq|]. intros d Hd. by rewrite (lookup_weaken _ _ path (Some (list_entries l)) (lookup_insert_eq _ _ _) Hd).
    + split; [by apply insert_subseteq|]. intros d Hd. by rewrite (lookup_weaken _ _ path None (lookup_insert_eq _ _ _) Hd).
Qed.

Lemma resolve_entries_cached read_list read_list' es : forall c ls c',
  resolve_entries parse_url read_list ckr_advanced es c = (Ok ls, c') ->
  c ⊆ c' /\ forall d, c' ⊆ d -> resolve_entries parse_url read_list' ckr_advanced es d = (Ok ls, d).
Proof.
  induction es as [|e es IH]; intros c ls c'; cbn [resolve_entries]; [by intros [= <- <-]|].
  destruct (resolve_entry parse_url read_list ckr_advanced e c) as [[?|?] c1] eqn:E1; try done.
  destruct (resolve_entries parse_url read_list ckr_advanced es c1) as [[?|?] c2] eqn:E2; try done. intros [= <- <-].
  apply (resolve_entry_cached _ read_list') in E1 as [S1 F1]. apply IH in E2 as [S2 F2].
  split; [by etrans|]. intros d Hd. rewrite F1 by (by etrans). by rewrite F2.
Qed.

Context `{IpNetOps} (parse_net : str -> option IpNet) (overflow_checks : bool).

(** Every route list is read at most once. Whatever a successful expansion
    returned, expanding the same entries again, however the files have changed in
    between, returns the same networks and reads nothing that is not cached: routes
    are removed exactly as they were installed. *)
Theorem route_lists_read_once read_list read_list' es c nets c' :
  expand_cidrs parse_url read_list ckr_advanced parse_net overflow_checks es c = (Ret (Ok nets), c') ->
  c ⊆ c' /\ forall d, c' ⊆ d ->
    expand_cidrs parse_url read_list' ckr_advanced parse_net overflow_checks es d = (Ret (Ok nets), d).
Proof.
  unfold expand_cidrs. destruct (resolve_entries parse_url read_list ckr_advanced es c) as [[ls|?] c1] eqn:E; try done.
  apply (resolve_entries_cached _ read_list') in E as [S F].
  destruct (parse_entries parse_net (normalize_subnet_entries ls)) as [ps|?] eqn:Ep; try done.
  intros [= Eo <-]. split; [done|]. intros d Hd. rewrite F, Ep by done. by rewrite Eo.
Qed.
End Cache.

(** ** Slots of downloaded lists *)

Definition DASH : Z := 45.

Lemma show_no_dash i : 0 <= i < 10 ^ 20 -> DASH ∉ show i.
Proof. intros. apply digits_not_in; [by apply show_spec|done]. Qed.

Lemma in_slot_iff i n : in_slot i n = true <-> exists rest, n = show i ++ DASH :: rest.
Proof.
  unfold in_slot. rewrite starts_with_app. split; intros [rest ->]; exists rest; by rewrite <- app_assoc.
Qed.

(** A name is in one slot at most. *)
Lemma in_slot_unique i j n : 0 <= i < 10 ^ 20 -> 0 <= j < 10 ^ 20 -> in_slot i n = true -> in_slot j n = true -> i = j.
Proof.
  intros Hi Hj [r ->]%in_slot_iff [r' E]%in_slot_iff.
  assert (Some (show i, r) = Some (show j, r')) as [= Es _].
  { rewrite <- (split_once_app DASH (show i) r) by (by apply show_no_dash). rewrite E. apply split_once_app. by apply show_no_dash. }
  destruct (show_spec i Hi) as (_ & _ & <- & _), (show_spec j Hj) as (_ & _ & <- & _). by rewrite Es.
Qed.

Lemma target_in_slot i mark md5 : in_slot i (list_file_name i mark md5) = true.
Proof. apply in_slot_iff. by exists (mark ++ lit "-" ++ md5). Qed.

Lemma target_digest i mark md5 : has_digest md5 (list_file_name i mark md5) = true.
Proof. apply ends_with_app. exists (show i ++ lit "-" ++ mark). unfold list_file_name. by rewrite <- !app_assoc. Qed.

Lemma digest_unique m m' n : length m = length m' -> has_digest m n = true -> has_digest m' n = true -> m = m'.
Proof.
  intros L [f ->]%ends_with_app [f' E]%ends_with_app. rewrite !app_assoc in E. by apply app_inj_2 in E as [_ E].
Qed.

(** The name of a file says what its list is for. *)
Lemma file_name_read_back i mark md5 num :
  0 <= i < 2 ^ 64 -> mark ∈ [[]; lit "~"; lit "_"; lit "!"] ->
  mark_of_name (list_file_name i mark md5) = Some mark /\
  is_stale_index_file (list_file_name i mark md5) num = (num <=? i).
Proof.
  intros Hi Hm. assert (split_once 45 (list_file_name i mark md5) = Some (show i, mark ++ DASH :: md5)) as E
    by (apply (split_once_app DASH); apply show_no_dash; lia).
  unfold mark_of_name, is_stale_index_file. rewrite E, parse_uint_show by (unfold U64_MAX; lia). split; [|done]. f_equal.
  rewrite !elem_of_cons in Hm. destruct Hm as [->|[->|[->|[->|Hm]]]]; [done|..|by apply elem_of_nil in Hm]; by vm_compute.
Qed.

Section Slots.
Set Default Proof Using "Type*".
Context (md5_hex : bytes -> str) (Hmd5 : forall b, length (md5_hex b) = 32%nat).
Context (entry_order : gmap str bytes -> list str) (Horder : forall d n, n ∈ entry_order d <-> is_Some (d !! n)).

Definition one_file (i : Z) (d : gmap str bytes) : Prop :=
  forall n m, in_slot i n = true -> in_slot i m = true -> is_Some (d !! n) -> is_Some (d !! m) -> n = m.

(** The digest in a name is the digest of the contents. *)
Definition digests_ok (d : gmap str bytes) : Prop :=
  forall i n b, 0 <= i < 10 ^ 20 -> in_slot i n = true -> d !! n = Some b -> has_digest (md5_hex b) n = true.

(** What is left of a directory when other versions of slot [i] are gone. *)
Definition pruned (i : Z) (md5 : str) (d : gmap str bytes) : gmap str bytes :=
  filter (fun e => negb (in_slot i e.1 && negb (has_digest md5 e.1)) = true) d.

Lemma pruned_lookup i md5 d n :
  pruned i md5 d !! n = if in_slot i n && negb (has_digest md5 n) then None else d !! n.
Proof.
  unfold pruned. destruct (d !! n) as [b|] eqn:E.
  - destruct (in_slot i n && negb (has_digest md5 n)) eqn:B.
    + apply map_lookup_filter_None. right. intros x Hx. cbn. by rewrite B.
    + apply map_lookup_filter_Some. split; [done|]. cbn. by rewrite B.
  - assert (filter (fun e : str * bytes => negb (in_slot i e.1 && negb (has_digest md5 e.1)) = true) d !! n = None) as ->
      by (apply map_lookup_filter_None; by left). by destruct (_ && _).
Qed.

Lemma find_same i md5 d :
  match find (fun name => in_slot i name && has_digest md5 name) (entry_order (pruned i md5 d)) with
  | Some name => in_slot i name = true /\ has_digest md5 name = true /\ is_Some (d !! name)
  | None => forall n, in_slot i n = true -> pruned i md5 d !! n = None
  end.
Proof.
  destruct (find _ _) as [name|] eqn:E.
  - apply find_some in E as [Hin [Hs Hd]%andb_true_iff]. apply list_elem_of_In, Horder in Hin.
    rewrite pruned_lookup, Hs, Hd in Hin. by split_and!.
  - intros n Hn. destruct (pruned i md5 d !! n) as [b|] eqn:Eb; [exfalso|done].
    assert (n ∈ entry_order (pruned i md5 d)) as Hin by (apply Horder; eauto).
    pose proof (find_none _ _ E n (proj1 (list_elem_of_In _ _) Hin)) as Hf. cbv beta in Hf. rewrite pruned_lookup, Hn in Eb. rewrite Hn in Hf.
    cbn [andb] in *. by rewrite Hf in Eb.
Qed.

(** The slot afterwards. *)
Lemma store_list_spec i mark body d :
  one_file i d -> 0 <= i < 10 ^ 20 -> digests_ok d ->
  let d' := store_list md5_hex entry_order true true i mark body d in
  let target := list_file_name i mark (md5_hex body) in
  (exists b, d' !! target = Some b /\ md5_hex b = md5_hex body) /\
  (forall n, in_slot i n = true -> n <> target -> d' !! n = None) /\
  (forall n, in_slot i n = false -> d' !! n = d !! n).
Proof.
  intros Hone Hi Hdig d' target.
  assert (in_slot i target = true) as Ht by apply target_in_slot.
  assert (has_digest (md5_hex body) target = true) as Htd by apply target_digest.
  unfold d', store_list. fold target. fold (pruned i (md5_hex body) d). set (d1 := pruned i (md5_hex body) d).
  assert (forall n, in_slot i n = false -> d1 !! n = d !! n) as Hout.
  { intros n Hn. unfold d1. by rewrite pruned_lookup, Hn. }
  pose proof (find_same i (md5_hex body) d) as Hf. fold d1 in Hf. destruct (find _ (entry_order d1)) as [name|].
  - destruct Hf as (Hs & Hd & [b Hb]).
    assert (d1 !! name = Some b) as Hb1 by (unfold d1; by rewrite pruned_lookup, Hs, Hd).
    assert (md5_hex b = md5_hex body) as Hmb.
    { apply (digest_unique _ _ name); [by rewrite !Hmd5| |done]. by apply (Hdig i). }
    assert (forall n, in_slot i n = true -> n <> name -> d1 !! n = None) as Honly.
    { intros n Hn Hne. destruct (d1 !! n) as [x|] eqn:Ex; [exfalso|done]. apply Hne. apply Hone; [exact Hn|exact Hs| |by exists b].
      unfold d1 in Ex. rewrite pruned_lookup in Ex. destruct (_ && _); [done|by exists x]. }
    destruct (bool_decide_reflect (name <> target)) as [Hne|He].
    + cbn [orb]. unfold rename_file. rewrite Hb1. split_and!.
      * exists b. by rewrite lookup_insert_eq.
      * intros n Hn Hnt. rewrite lookup_insert_ne by done. destruct (decide (n = name)) as [->|]; [by rewrite lookup_delete_eq|].
        rewrite lookup_delete_ne by done. by apply Honly.
      * intros n Hn. rewrite lookup_insert_ne, lookup_delete_ne by congruence. by apply Hout.
    + assert (name = target) as -> by (by apply dec_stable). cbn [orb]. rewrite bool_decide_true by (by exists b).
      split_and!; [by exists b|exact Honly|exact Hout].
  - cbn [orb]. rewrite bool_decide_false by (rewrite (Hf target Ht); by intros [? [=]]). split_and!.
    + exists body. by rewrite lookup_insert_eq.
    + intros n Hn Hnt. rewrite lookup_insert_ne by done. by apply Hf.
    + intros n Hn. rewrite lookup_insert_ne by congruence. by apply Hout.
Qed.

(** The lists downloaded for a key. Storing a list in slot [i] leaves exactly
    one file there, named after the slot, the mark and the digest of the new list,
    whose contents have that digest: older versions are removed, the same version
    under another mark is renamed. The files of other slots are not touched, and
    the directory keeps its form (one file per slot, the digest of the contents in
    the name). *)
Theorem slots_hold_latest i mark body d :
  0 <= i < 10 ^ 20 -> (forall j, 0 <= j < 10 ^ 20 -> one_file j d) -> digests_ok d ->
  let d' := store_list md5_hex entry_order true true i mark body d in
  let target := list_file_name i mark (md5_hex body) in
  (exists b, d' !! target = Some b /\ md5_hex b = md5_hex body) /\
  (forall n, in_slot i n = true -> n <> target -> d' !! n = None) /\
  (forall n, in_slot i n = false -> d' !! n = d !! n) /\
  (forall j, 0 <= j < 10 ^ 20 -> one_file j d') /\ digests_ok d'.
Proof.
  intros Hi Hone Hdig d' target. destruct (store_list_spec i mark body d (Hone i Hi) Hi Hdig) as (A & B & C).
  fold d' in A, B, C. fold target in A, B, C.
  assert (has_digest (md5_hex body) target = true) as Htd by apply target_digest.
  split_and!; [exact A|exact B|exact C| |].
  - intros j Hj n m Hn Hm Sn Sm. destruct (decide (j = i)) as [->|Hne].
    + assert (forall x, in_slot i x = true -> is_Some (d' !! x) -> x = target) as H.
      { intros x Hx [y Hy]. destruct (decide (x = target)); [done|]. rewrite B in Hy by done. done. }
      by rewrite (H n Hn Sn), (H m Hm Sm).
    + assert (forall x, in_slot j x = true -> in_slot i x = false) as H.
      { intros x Hx. destruct (in_slot i x) eqn:E; [|done]. by destruct Hne; apply (in_slot_unique j i x). }
      rewrite C in Sn, Sm by (by apply H). by apply (Hone j Hj).
  - intros j n b Hj Hn Hb. destruct (in_slot i n) eqn:E.
    + destruct (decide (n = target)) as [->|Hnt]; [|by rewrite B in Hb].
      destruct A as (b' & Hb' & Hm). rewrite Hb' in Hb. injection Hb as ->. by rewrite Hm.
    + rewrite C in Hb by done. by apply (Hdig j).
Qed.
End Slots.

(** ** Peers stay outside the tunnel *)

(** The text of an address. *)
Definition ip_char (c : Z) : bool := is_ascii_hexdigit c || (c =? 46) || (c =? 58).
Definition ip_text (ip : str) : Prop := ip <> [] /\ Forall (fun c => ip_char c = true) ip.

Lemma ip_char_not_ws c : ip_char c = true -> is_whitespace c = false.
Proof.
  intros Hc. assert (46 <= c <= 102) as Hr.
  { unfold ip_char, is_ascii_hexdigit, hex_value, is_ascii_digit in Hc.
    apply orb_true_iff in Hc as [[Hc|Hc]%orb_true_iff|Hc]; [|lia|lia].
    destruct ((48 <=? c) && (c <=? 57)) eqn:E1; [lia|]. destruct ((97 <=? c) && (c <=? 102)) eqn:E2; [lia|].
    destruct ((65 <=? c) && (c <=? 70)) eqn:E3; [lia|done]. }
  unfold is_whitespace. rewrite !orb_false_iff, !andb_false_iff. lia.
Qed.

Lemma ip_text_last ip c : ip_text ip -> last ip = Some c -> ip_char c = true.
Proof. intros [_ F] [l ->]%last_Some. apply Forall_app in F as [_ F]. exact (proj1 (Forall_singleton _ _) F). Qed.

Lemma trim_ip ip : ip_text ip -> trim ip = ip.
Proof.
  intros Hip. apply trim_id; intros c Hc; apply ip_char_not_ws.
  - destruct Hip as [_ F]. destruct ip as [|x ip]; [done|]. injection Hc as <-. by apply Forall_cons in F as [? _].
  - by apply (ip_text_last ip).
Qed.

(** The lookup in the table of a family. *)
Definition lookup_in (prefix : Z) (ck : CryptoKey) (v4 : bool) (a : Z) : option (list Z) :=
  get_public_key_for_address prefix ck (if v4 then AddrV4 a else AddrV6 a).

Definition exclusion (ip : str) : str := lit "!" ++ ip.

Lemma trim_exclusion ip : ip_text ip -> trim (exclusion ip) = exclusion ip.
Proof.
  intros Hip. apply trim_id; intros c Hc; [by injection Hc as <-|].
  apply ip_char_not_ws, (ip_text_last ip); [done|]. unfold exclusion in Hc.
  destruct Hip as [Hne _]. rewrite last_app in Hc. destruct (last ip) eqn:E; [done|]. by apply last_None in E.
Qed.

Lemma no_scheme scheme c rest ip : scheme = c :: rest -> ip_char c = false \/ (exists d r, rest = d :: r /\ ip_char d = false) ->
  ip_text ip -> starts_with (lit "!" ++ scheme) (exclusion ip) = false.
Proof.
  intros -> Hc [_ F]. destruct (starts_with _ _) eqn:E; [|done]. exfalso. apply starts_with_app in E as [s E].
  cbn in E. injection E as ->. apply Forall_cons in F as [F1 F]. destruct Hc as [Hc|(d & r & -> & Hd)]; [congruence|].
  cbn in F. apply Forall_cons in F as [F2 _]. congruence.
Qed.

Lemma exclusion_plain ip : ip_text ip -> is_list_entry (exclusion ip) = false.
Proof.
  intros Hip. unfold is_list_entry, marked_with. cbn [existsb].
  rewrite (no_scheme (lit "file:///") 102 (lit "ile:///") ip), (no_scheme (lit "http://") 104 (lit "ttp://") ip),
    (no_scheme (lit "https://") 104 (lit "ttps://") ip); [done|done|by left|done|done|by left|done|done| |done].
  right. by exists 105, (lit "le:///").
Qed.

Lemma exclusion_normal ip : normalize_entry (exclusion ip) = [trim (exclusion ip)].
Proof.
  unfold normalize_entry. assert (exists t, trim (exclusion ip) = t /\ (t = [] \/ head t = Some 33)) as (t & -> & Ht).
  { eexists. split; [done|]. unfold trim. change (trim_start (exclusion ip)) with (exclusion ip). unfold trim_end, exclusion.
    rewrite reverse_app. destruct (trim_start (reverse ip ++ reverse (lit "!"))) as [|c s] eqn:E; [by left|right].
    destruct (trim_start_suffix (reverse ip ++ reverse (lit "!"))) as (ws & Ew & _). rewrite E in Ew.
    apply (f_equal last) in Ew. rewrite last_app in Ew. cbn in Ew. rewrite last_app in Ew.
    destruct (last (c :: s)) as [x|] eqn:El; [|by apply last_None in El]. rewrite <- head_reverse in El. by injection Ew as <-. }
  destruct Ht as [->|Ht]; [done|]. destruct t as [|c t]; [done|]. injection Ht as ->.
  repeat (rewrite bool_decide_false; [|done]). done.
Qed.

Lemma exclusion_cidr ip : ip_text ip -> entry_cidr (exclusion ip) = (true, ip).
Proof.
  intros Hip. unfold entry_cidr. change (strip_prefix (lit "~") (exclusion ip)) with (@None str).
  change (strip_prefix (lit "_") (exclusion ip)) with (@None str). cbv iota beta zeta. unfold exclusion.
  by rewrite strip_prefix_app, trim_ip.
Qed.

Section Underlay.
Set Default Proof Using "All".
Context (parse_url : str -> ListUrl) (read_list : str -> ListFile) (ckr_advanced : bool).
Context `{L : IpNetLaws} (parse_net : str -> option IpNet).
Context (parse_ip : str -> option str) (resolve : str -> list str).

Lemma resolve_entries_keep e es : is_list_entry (trim e) = false -> forall c ls c',
  resolve_entries parse_url read_list ckr_advanced es c = (Ok ls, c') -> e ∈ es -> trim e ∈ ls.
Proof.
  intros Hp. induction es as [|x es IH]; intros c ls c' E Hin; [by apply elem_of_nil in Hin|]. cbn [resolve_entries] in E.
  destruct (resolve_entry parse_url read_list ckr_advanced x c) as [[l1|?] c1] eqn:E1; try done.
  destruct (resolve_entries parse_url read_list ckr_advanced es c1) as [[l2|?] c2] eqn:E2; try done. injection E as <- <-.
  apply elem_of_app. apply elem_of_cons in Hin as [<-|Hin]; [left|right; by eapply IH].
  unfold resolve_entry in E1. rewrite Hp, orb_true_r in E1. injection E1 as <- _. set_solver.
Qed.

Lemma normalize_keep e es : e ∈ es -> normalize_entry e = [trim e] -> trim e ∈ normalize_subnet_entries es.
Proof.
  intros Hin Hn. unfold normalize_subnet_entries. apply list_elem_of_In, in_concat. exists (normalize_entry e).
  split; apply list_elem_of_In; [by apply list_elem_of_fmap_2|]. rewrite Hn. set_solver.
Qed.

Lemma parse_entries_keep raw exc cidr net es : forall ps,
  parse_entries parse_net es = Ok ps -> raw ∈ es -> entry_cidr raw = (exc, cidr) ->
  parse_net (cidr_for_parse cidr) = Some net -> (exc, net) ∈ ps.
Proof.
  induction es as [|x es IH]; intros ps E Hin Hc Hn; [by apply elem_of_nil in Hin|]. cbn [parse_entries] in E.
  destruct (entry_cidr x) as [xe xc] eqn:Ex. destruct (parse_net (cidr_for_parse xc)) as [xn|] eqn:En; [|done].
  destruct (parse_entries parse_net es) as [qs|?] eqn:Eq; [|done]. injection E as <-.
  apply elem_of_cons in Hin as [->|Hin]; [|apply elem_of_cons; right; by eapply IH]. rewrite Hc in Ex. injection Ex as <- <-.
  rewrite Hn in En. injection En as <-. set_solver.
Qed.

Lemma expand_excludes ip net es c nets c' :
  ip_text ip -> exclusion ip ∈ es -> parse_net (cidr_for_parse ip) = Some net ->
  expand_cidrs parse_url read_list ckr_advanced parse_net false es c = (Ret (Ok nets), c') ->
  forall a, covers net a -> ~ covered (is_v4 net) nets a.
Proof.
  intros Hip Hin Hn E a Ha. unfold expand_cidrs in E.
  destruct (resolve_entries parse_url read_list ckr_advanced es c) as [[ls|?] c1] eqn:E1; try done.
  assert (trim (exclusion ip) ∈ ls) as H1.
  { eapply resolve_entries_keep; [|exact E1|done]. rewrite trim_exclusion by done. by apply exclusion_plain. }
  rewrite trim_exclusion in H1 by done. pose proof (normalize_keep _ _ H1 (exclusion_normal ip)) as H2. rewrite trim_exclusion in H2 by done.
  destruct (parse_entries parse_net (normalize_subnet_entries ls)) as [ps|?] eqn:E2; try done.
  pose proof (parse_entries_keep _ _ _ net _ _ E2 H2 (exclusion_cidr ip Hip) Hn) as H3.
  destruct (expand_entries_exact false ps) as (out & Eo & Hcov); [by left|]. rewrite Eo in E. injection E as <- _.
  rewrite Hcov. intros [_ Hnot]. apply Hnot. by exists net.
Qed.

Lemma add_exclusions_spec ips : forall ex e,
  (e ∈ add_exclusions ips ex <-> e ∈ ex \/ exists ip, ip ∈ ips /\ e = exclusion ip) /\ (NoDup ex -> NoDup (add_exclusions ips ex)).
Proof.
  induction ips as [|ip ips IH]; intros ex e; cbn [add_exclusions]; [set_solver|].
  set (ex' := if bool_decide (lit "!" ++ ip ∈ ex) then ex else ex ++ [lit "!" ++ ip]). destruct (IH ex' e) as [H1 H2].
  assert (e ∈ ex' <-> e ∈ ex \/ e = exclusion ip) as H3.
  { unfold ex', exclusion. case_bool_decide; set_solver. }
  split; [rewrite H1, H3; set_solver|]. intros N. apply H2. unfold ex'. case_bool_decide; [done|].
  apply NoDup_app. split_and!; [done|set_solver|apply NoDup_singleton].
Qed.

Lemma prepare_spec peers :
  NoDup (prepare_peer_exclusions parse_ip resolve peers) /\
  forall e, e ∈ prepare_peer_exclusions parse_ip resolve peers <->
    exists peer ip, peer ∈ peers /\ ip ∈ peer_addresses parse_ip resolve peer /\ e = exclusion ip.
Proof.
  unfold prepare_peer_exclusions. assert (forall ex, NoDup ex ->
    NoDup (foldl (fun exclusions peer => add_exclusions (peer_addresses parse_ip resolve peer) exclusions) ex peers) /\
    forall e, e ∈ foldl (fun exclusions peer => add_exclusions (peer_addresses parse_ip resolve peer) exclusions) ex peers <->
      e ∈ ex \/ exists peer ip, peer ∈ peers /\ ip ∈ peer_addresses parse_ip resolve peer /\ e = exclusion ip) as Hg.
  { induction peers as [|p peers IH]; intros ex N; cbn [foldl]; [set_solver|].
    destruct (IH (add_exclusions (peer_addresses parse_ip resolve p) ex)) as [N' Hx]; [by apply (add_exclusions_spec _ _ []) |].
    split; [done|]. intros e. rewrite Hx. rewrite (proj1 (add_exclusions_spec _ _ e)). set_solver. }
  destruct (Hg [] ltac:(constructor)) as [N H']. split; [done|]. intros e. rewrite H'. set_solver.
Qed.

(** A table that was built from text is the table of some destinations, each with
    the networks of its entries and the exclusions. *)
Lemma add_subnets_spec downloaded exclusions prefix self_key subnets : forall cache v4 v6 t4 t6 cache',
  add_subnets parse_url read_list ckr_advanced parse_net false downloaded exclusions prefix self_key subnets cache v4 v6
    = (Ret (Ok (t4, t6)), cache') ->
  exists dests, add_destinations prefix dests self_key v4 v6 = Some (t4, t6) /\
    forall dest nets, (dest, nets) ∈ dests -> exists es c c',
      expand_cidrs parse_url read_list ckr_advanced parse_net false es c = (Ret (Ok nets), c') /\
      forall e, e ∈ exclusions -> starts_with (lit "_") (trim e) = false -> e ∈ es.
Proof.
  induction subnets as [|[hex cidrs] subnets IH]; intros cache v4 v6 t4 t6 cache' E; cbn [add_subnets] in E.
  { injection E as -> -> _. exists []. split; [done|]. intros ? ? Hx. by apply elem_of_nil in Hx. }
  destruct (parse_pubkey hex) as [k|?]; [|done]. destruct (bool_decide_reflect (k = self_key)) as [?|Hne]; [by eapply IH|].
  cbv zeta in E. destruct (expand_cidrs _ _ _ _ _ _ cache) as [[[ns|?]|] c1] eqn:Ee; try done.
  destruct (add_routes prefix ns k v4 v6) as [[u4 u6]|] eqn:Ea; [|done].
  apply IH in E as (dests & Hd & Hs). exists ((k, ns) :: dests). split; [cbn; by rewrite decide_False, Ea|].
  intros dest nets [[= -> ->]|Hin]%elem_of_cons; [|by eapply Hs].
  eexists _, _, _. split; [exact Ee|]. intros e He Hu. apply list_elem_of_filter. set_solver.
Qed.

Lemma family_lookup prefix ck v4 a :
  lookup_in prefix ck v4 a = None <-> RouteTable_get (if v4 then ck_v4 ck else ck_v6 ck) a = None \/
    (v4 = false /\ is_yggdrasil_destination prefix (AddrV6 a) = true).
Proof. unfold lookup_in. destruct v4; cbn [get_public_key_for_address]; [intuition discriminate|]. destruct (is_yggdrasil_destination prefix (AddrV6 a)); intuition congruence. Qed.

Lemma no_route_no_key (routes : list (IpNet * list Z)) v4 a res :
  lpm routes v4 a res -> (forall n d, (n, d) ∈ routes -> is_v4 n = v4 -> ~ covers n a) -> res = None.
Proof.
  destruct res as [d|]; [|done]. intros (b & n & l & -> & Hv & Hc & _) Hno. exfalso. apply (Hno n d); [set_solver|done..].
Qed.

(** C27: The addresses of peers stay outside the tunnel. Whatever the configured
    subnets, the lists from files and downloads and the marks on them, the table
    that is built from them has no destination for the address of a configured
    peer, given directly or resolved from its name, so the traffic of the links
    never enters the tunnel it carries. *)
Theorem underlay_outside_tunnel downloaded peers prefix enable yggdrasil_routing self_key subnets cache ck cache' :
  CryptoKey_read parse_url read_list ckr_advanced parse_net false downloaded (prepare_peer_exclusions parse_ip resolve peers)
    prefix enable yggdrasil_routing self_key subnets cache = (Ret (Ok ck), cache') ->
  forall peer ip net a, peer ∈ peers -> ip ∈ peer_addresses parse_ip resolve peer -> ip_text ip ->
    parse_net (cidr_for_parse ip) = Some net -> covers net a ->
    get_public_key_for_address prefix ck (if is_v4 net then AddrV4 a else AddrV6 a) = None.
Proof.
  intros E peer ip net a Hp Hi Hip Hn Ha. apply (family_lookup prefix ck (is_v4 net) a). left.
  unfold CryptoKey_read in E. destruct enable; cbn [negb] in E; [|injection E as <- _; by destruct (is_v4 net)].
  destruct (add_subnets _ _ _ _ _ _ _ _ _ _ _ _ _) as [[[[t4 t6]|?]|] c1] eqn:Es; try done. injection E as <- _.
  apply add_subnets_spec in Es as (dests & Hd & Hs).
  pose proof (add_destinations_spec prefix dests self_key (RouteTable_new 32) (RouteTable_new 128)) as Ht. rewrite Hd in Ht.
  destruct Ht as (_ & -> & ->).
  assert (0 <= a < 2 ^ width (is_v4 net)) as Hb.
  { destruct (net_block net) as (k & _ & _ & _ & Hb & Hlo & Hhi). rewrite family_width in *. unfold covers in Ha. lia. }
  eapply (no_route_no_key (routes_of dests self_key) (is_v4 net) a);
    [generalize (table_lpm (is_v4 net) (routes_of dests self_key) a Hb); by destruct (is_v4 net)|].
  intros n d Hr Hv Hc. unfold routes_of in Hr. apply list_elem_of_join in Hr as (l & Hl & Hm).
  apply list_elem_of_fmap in Hm as ([dest nets] & -> & [_ Hin]%list_elem_of_filter).
  apply list_elem_of_fmap in Hl as (x & [= <- _] & Hx).
  destruct (Hs _ _ Hin) as (es & c & c' & Ee & Hex).
  assert (exclusion ip ∈ es) as Hx' by (apply Hex; [apply prepare_spec; eauto|by rewrite trim_exclusion]).
  apply (expand_excludes ip net es c _ c' Hip Hx' Hn Ee a Ha). by exists n.
Qed.
End Underlay.

(** ** The table that a configuration builds *)

Section Table.
Context (parse_url : str -> ListUrl) (read_list : str -> ListFile) (ckr_advanced : bool).
Context `{L : IpNetLaws} (parse_net : str -> option IpNet) (overflow_checks : bool).
Context (downloaded : str -> list str) (exclusions : list str) (self_key : bytes).

(** The entries of a key that make routes: its own, the downloaded ones and the
    exclusions, without those for the system's routes only. *)
Definition ckr_entries (pubkey_hex : str) (cidrs : list str) : list str :=
  filter (fun s => starts_with (lit "_") (trim s) = false)
    (cidrs ++ (if ckr_advanced then downloaded pubkey_hex else []) ++ exclusions).

Local Abbreviation expand_entries hex cidrs c :=
  (expand_cidrs parse_url read_list ckr_advanced parse_net overflow_checks (ckr_entries hex cidrs) c) (only parsing).

(** The keys and networks of subnets that are in order, the node's own left out;
    [c] and [c'] are the cache of route files before and after. *)
Inductive reads : list (str * list str) -> RouteFileCache -> list (Key * list IpNet) -> RouteFileCache -> Prop :=
| ReadsNil c : reads [] c [] c
| ReadsOwn hex cidrs subnets c dests c' : parse_pubkey hex = Ok self_key -> reads subnets c dests c' ->
    reads ((hex, cidrs) :: subnets) c dests c'
| ReadsKey hex cidrs subnets dest nets c c1 dests c' : parse_pubkey hex = Ok dest -> dest <> self_key ->
    expand_entries hex cidrs c = (Ret (Ok nets), c1) -> reads subnets c1 dests c' ->
    reads ((hex, cidrs) :: subnets) c ((dest, nets) :: dests) c'.

Definition routes_to (dests : list (Key * list IpNet)) : list (IpNet * Key) :=
  mjoin (map (fun dn => map (fun n => (n, fst dn)) (snd dn)) dests).

(** The first subnet that is not in order, and what is wrong with it. *)
Definition fails (prefix : Z) (subnets : list (str * list str)) (c : RouteFileCache) (o : outcome CkrError) : Prop :=
  exists before hex cidrs after dests c1,
    subnets = before ++ (hex, cidrs) :: after /\ reads before c dests c1
    /\ Forall (fun r => ~ refused prefix (fst r)) (routes_to dests)
    /\ match o with
       | Ret (CkrPubkey e) => parse_pubkey hex = Err e
       | Ret (CkrCidr e) => exists dest c2, parse_pubkey hex = Ok dest /\ dest <> self_key
           /\ expand_entries hex cidrs c1 = (Ret (Err e), c2)
       | Ret CkrYggdrasil => exists dest nets c2, parse_pubkey hex = Ok dest /\ dest <> self_key
           /\ expand_entries hex cidrs c1 = (Ret (Ok nets), c2) /\ Exists (refused prefix) nets
       | Panic => exists dest c2, parse_pubkey hex = Ok dest /\ dest <> self_key
           /\ expand_entries hex cidrs c1 = (Panic, c2)
       end.

Lemma fails_here prefix hex cidrs after c o :
  match o with
  | Ret (CkrPubkey e) => parse_pubkey hex = Err e
  | Ret (CkrCidr e) => exists dest c2, parse_pubkey hex = Ok dest /\ dest <> self_key
      /\ expand_entries hex cidrs c = (Ret (Err e), c2)
  | Ret CkrYggdrasil => exists dest nets c2, parse_pubkey hex = Ok dest /\ dest <> self_key
      /\ expand_entries hex cidrs c = (Ret (Ok nets), c2) /\ Exists (refused prefix) nets
  | Panic => exists dest c2, parse_pubkey hex = Ok dest /\ dest <> self_key /\ expand_entries hex cidrs c = (Panic, c2)
  end -> fails prefix ((hex, cidrs) :: after) c o.
Proof. intros Ho. exists [], hex, cidrs, after, [], c. split_and!; [done|constructor|constructor|exact Ho]. Qed.

Lemma fails_own prefix hex cidrs subnets c o : parse_pubkey hex = Ok self_key ->
  fails prefix subnets c o -> fails prefix ((hex, cidrs) :: subnets) c o.
Proof.
  intros Hk (before & h & cs & after & dests & c1 & -> & Hr & Hf & Ho).
  exists ((hex, cidrs) :: before), h, cs, after, dests, c1. split_and!; [done|by constructor|done|exact Ho].
Qed.

Lemma fails_later prefix hex cidrs subnets dest nets c c1 o : parse_pubkey hex = Ok dest -> dest <> self_key ->
  expand_entries hex cidrs c = (Ret (Ok nets), c1) -> Forall (fun n => ~ refused prefix n) nets ->
  fails prefix subnets c1 o -> fails prefix ((hex, cidrs) :: subnets) c o.
Proof.
  intros Hk Hne He Hn (before & h & cs & after & dests & c2 & -> & Hr & Hf & Ho).
  exists ((hex, cidrs) :: before), h, cs, after, ((dest, nets) :: dests), c2. split_and!; [done|by econstructor| |exact Ho].
  unfold routes_to. cbn [map mjoin list_join fst snd]. apply Forall_app. split; [|exact Hf]. by apply Forall_fmap.
Qed.

Lemma add_subnets_exact prefix subnets c v4 v6 :
  match add_subnets parse_url read_list ckr_advanced parse_net overflow_checks downloaded exclusions prefix self_key subnets c v4 v6 with
  | (Ret (Ok (v4', v6')), c') => exists dests, reads subnets c dests c'
      /\ Forall (fun r => ~ refused prefix (fst r)) (routes_to dests)
      /\ v4' = insert_all v4 (of_family true (routes_to dests)) /\ v6' = insert_all v6 (of_family false (routes_to dests))
  | (Ret (Err e), _) => fails prefix subnets c (Ret e)
  | (Panic, _) => fails prefix subnets c Panic
  end.
Proof.
  revert c v4 v6. induction subnets as [|[hex cidrs] subnets IH]; intros c v4 v6; cbn [add_subnets].
  { exists []. split_and!; [constructor|constructor|done|done]. }
  destruct (parse_pubkey hex) as [dest|e] eqn:Hk; [|by apply fails_here].
  case_bool_decide as Hself.
  { subst dest. specialize (IH c v4 v6). destruct (add_subnets _ _ _ _ _ _ _ _ _ subnets _ _ _) as [[[[t4 t6]|e]|] c'].
    - destruct IH as (dests & Hr & ?). exists dests. split; [by constructor|done].
    - by apply fails_own.
    - by apply fails_own. }
  change (filter _ _) with (ckr_entries hex cidrs).
  destruct (expand_entries hex cidrs c) as [[[nets|e]|] c1] eqn:He; [|by apply fails_here; eauto|by apply fails_here; eauto].
  pose proof (add_routes_spec prefix nets dest v4 v6) as Hr. destruct (add_routes prefix nets dest v4 v6) as [[u4 u6]|].
  2: { apply fails_here. by exists dest, nets, c1. }
  destruct Hr as (Hn & -> & ->). match goal with |- context [add_subnets _ _ _ _ _ _ _ _ _ subnets c1 ?a ?b] => specialize (IH c1 a b) end.
  destruct (add_subnets _ _ _ _ _ _ _ _ _ subnets _ _ _) as [[[[t4 t6]|e]|] c'].
  - destruct IH as (dests & Hr & Hf & -> & ->). exists ((dest, nets) :: dests). split; [by econstructor|].
    unfold routes_to. cbn [map mjoin list_join fst snd]. fold (routes_to dests). unfold of_family. rewrite !filter_app, !insert_all_app.
    split; [|done]. apply Forall_app. split; [by apply Forall_fmap|done].
  - by eapply fails_later.
  - by eapply fails_later.
Qed.

(** C26: The table that crypto-key routing builds from the text of its
    configuration. If every public key and every entry can be read and no IPv6 route
    starts in the overlay's range, the table answers every IPv4 and IPv6 address
    with the destination of the longest route that covers it, and with nothing when
    no route covers it; of two equal prefixes the later one decides (the insertion
    replaces the earlier destination, although its comment speaks of a skip). Routes
    to the node's own key take no part, and the overlay's own addresses are never
    answered. Otherwise the build reports the first subnet that is not in order: a
    key that cannot be read, an entry that cannot be read, or a route in the
    overlay's range; it panics only where the expansion of the entries does. *)
Theorem ckr_longest_prefix prefix yggdrasil_routing subnets cache :
  match CryptoKey_read parse_url read_list ckr_advanced parse_net overflow_checks downloaded exclusions
          prefix true yggdrasil_routing self_key subnets cache with
  | (Ret (Ok ck), cache') => exists dests, reads subnets cache dests cache'
      /\ Forall (fun r => ~ refused prefix (fst r)) (routes_to dests)
      /\ (forall a, 0 <= a < 2 ^ 32 -> lpm (routes_to dests) true a (get_public_key_for_address prefix ck (AddrV4 a)))
      /\ (forall a, 0 <= a < 2 ^ 128 ->
           if is_yggdrasil_destination prefix (AddrV6 a) then get_public_key_for_address prefix ck (AddrV6 a) = None
           else lpm (routes_to dests) false a (get_public_key_for_address prefix ck (AddrV6 a)))
  | (Ret (Err e), _) => fails prefix subnets cache (Ret e)
  | (Panic, _) => fails prefix subnets cache Panic
  end.
Proof.
  unfold CryptoKey_read. cbn [negb]. pose proof (add_subnets_exact prefix subnets cache (RouteTable_new 32) (RouteTable_new 128)) as Hs.
  destruct (add_subnets _ _ _ _ _ _ _ _ _ _ _ _ _) as [[[[v4 v6]|e]|] c']; [|exact Hs|exact Hs].
  destruct Hs as (dests & Hr & Hf & -> & ->). exists dests. split_and!; [done|done| |].
  - intros a Ha. apply (table_lpm true (routes_to dests) a Ha).
  - intros a Ha. unfold get_public_key_for_address.
    destruct (is_yggdrasil_destination prefix (AddrV6 a)); [done|]. apply (table_lpm false (routes_to dests) a Ha).
Qed.
End Table.

(** ** Downloads and hosts *)

Lemma attempts_loop_spec attempts left : forall n, (0 < left)%nat ->
  match attempts_loop n left attempts with
  | Ok body => exists k, (n <= k < n + left)%nat /\ da_fetch (attempts k) = Fetched 200 (Some body)
  | Err Unreachable => False
  | Err _ => True
  end.
Proof.
  induction left as [|left IH]; intros n Hl; [lia|]. cbn [attempts_loop].
  destruct (da_shutdown (attempts n)); [done|].
  assert (match match left with
         | O => Err (LastAttemptFailed n)
         | S _ => if interrupted (da_wait (attempts n)) then Err ShutdownRequested else attempts_loop (S n) left attempts
         end with
    | Ok body => exists k, (n <= k < n + S left)%nat /\ da_fetch (attempts k) = Fetched 200 (Some body)
    | Err Unreachable => False
    | Err _ => True
    end) as Hr.
  { destruct left as [|left]; [done|]. destruct (interrupted _); [done|]. specialize (IH (S n) ltac:(lia)).
    destruct (attempts_loop (S n) (S left) attempts); [|done]. destruct IH as (k & Hk & Hf). exists k. split; [lia|done]. }
  destruct (da_fetch (attempts n)) as [status [body|]|] eqn:Ef; [destruct (Z.eq_dec status 200) as [->|Hs]|..].
  - exists n. split; [lia|done].
  - destruct status as [|p|p]; try exact Hr. do 8 (destruct p as [p|p|]; try exact Hr). done.
  - destruct status as [|p|p]; try exact Hr. do 8 (destruct p as [p|p|]; try exact Hr).
  - exact Hr.
Qed.

(** The body of a download is that of one of its attempts, of which there are at
    most [max_attempts]; the last error of the function is never reached. *)
Lemma download_from_attempt max first attempts : (0 < max)%nat ->
  match download_with_retries max first attempts with
  | Ok body => exists k, (1 <= k <= max)%nat /\ da_fetch (attempts k) = Fetched 200 (Some body)
  | Err Unreachable => False
  | Err _ => True
  end.
Proof.
  intros Hm. unfold download_with_retries. destruct (interrupted first); [done|].
  pose proof (attempts_loop_spec attempts max 1 Hm) as H. destruct (attempts_loop 1 max attempts); [|done].
  destruct H as (k & Hk & Hf). exists k. split; [lia|done].
Qed.

Example peer_hosts :
  extract_peer_host (lit "tls://23.184.48.86:1443") = Some (lit "23.184.48.86") /\
  extract_peer_host (lit "tcp://[2a0d:8480:3:234c::]:65535") = Some (lit "2a0d:8480:3:234c::") /\
  extract_peer_host (lit "tls://ygg-google.axxa.dev:18080") = Some (lit "ygg-google.axxa.dev").
Proof. by vm_compute. Qed.

(** ** Witnesses *)

Definition sample_url (s : str) : ListUrl :=
  match strip_prefix (lit "file://") s with Some p => FileUrl (Some p) | None => BadUrl end.
Definition sample_list (p : str) : ListFile :=
  if bool_decide (p = lit "/l") then ListLines [lit "# list"; []; lit "10.0.0.0/8 "] else ListMissing.

(** The networks of three texts. *)
Definition sample_net (s : str) : option IpNet :=
  if bool_decide (s = lit "10.0.0.0/8") then Some (true, 10 * 2 ^ 24, 8)
  else if bool_decide (s = lit "10.0.0.5/32") then Some (true, 10 * 2 ^ 24 + 5, 32)
  else None.

Lemma route_lists_read_once_witness :
  (expand_cidrs sample_url sample_list true sample_net false [lit "file:///l"] ∅).1 = Ret (Ok [(true, 10 * 2 ^ 24, 8)]) /\
  (expand_cidrs sample_url (fun _ => ListMissing) true sample_net false [lit "file:///l"]
     (expand_cidrs sample_url sample_list true sample_net false [lit "file:///l"] ∅).2).1 = Ret (Ok [(true, 10 * 2 ^ 24, 8)]).
Proof.
  assert ((expand_cidrs sample_url sample_list true sample_net false [lit "file:///l"] ∅).1 = Ret (Ok [(true, 10 * 2 ^ 24, 8)])) as E
    by (by vm_compute).
  split; [exact E|]. destruct (expand_cidrs sample_url sample_list true sample_net false [lit "file:///l"] ∅) as [r c'] eqn:Ec.
  cbn [fst snd] in *. subst r.
  destruct (route_lists_read_once sample_url true sample_net false sample_list (fun _ => ListMissing) [lit "file:///l"] ∅ _ c' Ec) as [_ F].
  by rewrite (F c' (reflexivity c')).
Defined.

(** Digests of equal length, and the names of a map. *)
Definition sample_md5 (b : bytes) : str := replicate 31 48 ++ [48 + Z.of_nat (length b)].

Lemma slots_hold_latest_witness :
  exists b, store_list sample_md5 (fun d => elements (dom d)) true true 0 (lit "~") [1; 2] ∅
    !! list_file_name 0 (lit "~") (sample_md5 [1; 2]) = Some b.
Proof.
  assert (forall (d : gmap str bytes) n, n ∈ elements (dom d) <-> is_Some (d !! n)) as Ho.
  { intros d n. by rewrite elem_of_elements, elem_of_dom. }
  destruct (slots_hold_latest sample_md5 (fun b => eq_refl) (fun d => elements (dom d)) Ho 0 (lit "~") [1; 2] ∅) as [(b & Hb & _) _].
  - lia.
  - intros j _ n m _ _ [x Hx]. by rewrite lookup_empty in Hx.
  - intros j n b _ _ Hb. by rewrite lookup_empty in Hb.
  - exists b. exact Hb.
Defined.

Definition sample_peers : list str := [lit "tls://10.0.0.5:443"].

Lemma underlay_outside_tunnel_witness :
  exists ck c, CryptoKey_read sample_url sample_list true sample_net false (fun _ => [])
      (prepare_peer_exclusions (fun s => Some s) (fun _ => []) sample_peers) 2 true true [] [(lit "00" ++ replicate 62 48, [lit "file:///l"])] ∅
    = (Ret (Ok ck), c) /\
    get_public_key_for_address 2 ck (AddrV4 (10 * 2 ^ 24 + 5)) = None /\
    get_public_key_for_address 2 ck (AddrV4 (10 * 2 ^ 24 + 6)) = Some (replicate 32 0).
Proof.
  assert (match (CryptoKey_read sample_url sample_list true sample_net false (fun _ => [])
      (prepare_peer_exclusions (fun s => Some s) (fun _ => []) sample_peers) 2 true true [] [(lit "00" ++ replicate 62 48, [lit "file:///l"])] ∅).1
    with Ret (Ok ck) => bool_decide (get_public_key_for_address 2 ck (AddrV4 (10 * 2 ^ 24 + 6)) = Some (replicate 32 0)) | _ => false end = true)
    as Hok by (by vm_compute).
  destruct (CryptoKey_read _ _ _ _ _ _ _ _ _ _ _ _ _) as [[[ck|e]|] c] eqn:E in Hok |- *; [|discriminate Hok|discriminate Hok].
  exists ck, c. split; [done|]. split; [|by apply bool_decide_eq_true in Hok].
  refine (underlay_outside_tunnel sample_url sample_list true sample_net (fun s => Some s) (fun _ => []) (fun _ => []) sample_peers
    2 true true [] _ ∅ ck c E (lit "tls://10.0.0.5:443") (lit "10.0.0.5") (true, 10 * 2 ^ 24 + 5, 32) _ _ _ _ _ _).
  - apply list_elem_of_singleton. reflexivity.
  - apply (bool_decide_unpack _). by vm_compute.
  - split; [done|]. apply (bool_decide_unpack _). by vm_compute.
  - by vm_compute.
  - split; apply Z.leb_le; by vm_compute.
Defined.

Lemma ckr_longest_prefix_witness :
  exists ck c dests, CryptoKey_read sample_url sample_list true sample_net false (fun _ => []) [] 2 true true []
      [(lit "00" ++ replicate 62 48, [lit "file:///l"])] ∅ = (Ret (Ok ck), c)
    /\ lpm (routes_to dests) true (10 * 2 ^ 24 + 7) (get_public_key_for_address 2 ck (AddrV4 (10 * 2 ^ 24 + 7)))
    /\ get_public_key_for_address 2 ck (AddrV4 (10 * 2 ^ 24 + 7)) = Some (replicate 32 0).
Proof.
  pose proof (ckr_longest_prefix sample_url sample_list true sample_net false (fun _ => []) [] [] 2 true
    [(lit "00" ++ replicate 62 48, [lit "file:///l"])] ∅) as Hl.
  assert (match (CryptoKey_read sample_url sample_list true sample_net false (fun _ => []) [] 2 true true []
      [(lit "00" ++ replicate 62 48, [lit "file:///l"])] ∅).1
    with Ret (Ok ck) => bool_decide (get_public_key_for_address 2 ck (AddrV4 (10 * 2 ^ 24 + 7)) = Some (replicate 32 0)) | _ => false end = true)
    as Hok by (by vm_compute).
  destruct (CryptoKey_read _ _ _ _ _ _ _ _ _ _ _ _ _) as [[[ck|e]|] c] in Hok, Hl |- *; [|discriminate Hok|discriminate Hok].
  destruct Hl as (dests & _ & _ & Hv4 & _). exists ck, c, dests. split_and!; [done| |by apply bool_decide_eq_true in Hok].
  apply Hv4. lia.
Defined.
