(* ===== verification/CkrSystem.v ===== *)
(** * CkrSystem: crypto-key routing at start-up

    Models the rest of [crates/yggdrasil/src/ckr.rs]: [install_routes] and
    [remove_routes], which put the routed subnets into the system's table, the
    whole of [download_route_lists] over the directory of lists, the wait for a
    first peer, and [prepare_peer_exclusions]. The system's route manager
    (the [route_manager] crate) is the class [RouteOps]; files that are removed are
    taken to go, other operations on files may fail. *)

From stdpp Require Import strings options.
From S2P Require Import Prelude.
From S2P Require Import Wire.
From S2P Require Import Address.
From S2P Require Import Ckr.
From S2P Require Import Text.
From S2P Require Import CkrText.
Open Scope Z_scope.

(** ** System routes *)

(** A route: family, network, prefix length, interface and table. *)
Record Route := mkRoute { rt_v4 : bool; rt_network : Z; rt_len : Z; rt_if : str; rt_table : option Z }.
#[export] Instance Route_eq_dec : EqDecision Route.
Proof. solve_decision. Defined.
#[export] Instance Route_countable : Countable Route.
Proof.
  apply (inj_countable' (fun r => (rt_v4 r, rt_network r, rt_len r, rt_if r, rt_table r))
    (fun '(a, b, c, d, e) => mkRoute a b c d e)). by intros [].
Defined.

(** [RouteManager]: [add] and [delete] on the table of the system; [None] is an
    error. *)
Class RouteOps := {
  rm_add : Route -> gset Route -> option (gset Route);
  rm_delete : Route -> gset Route -> option (gset Route)
}.

Section Routes.
Context (parse_url : str -> ListUrl) (read_list : str -> ListFile) (ckr_advanced : bool).
Context `{IpNetOps} `{EqDecision IpNet} (parse_net : str -> option IpNet) (overflow_checks : bool).
(** The entries of downloaded lists for a key, and the peers' exclusions. *)
Context (downloaded : str -> list str) (exclusions : list str).

(** The entries of a key that are not marked as routed by this node only. *)
Definition system_entries (pubkey_hex : str) (subnet_list : list str) : list str :=
  let effective_entries := subnet_list ++ (if ckr_advanced then downloaded pubkey_hex else []) ++ exclusions in
  normalize_subnet_entries (filter (fun s => starts_with (lit "~") (trim s) = false) effective_entries).

(** [if seen.insert(prefix) { cidrs.push(prefix) }]. *)
Definition push_new (cidrs prefixes : list IpNet) : list IpNet :=
  foldl (fun cidrs p => if bool_decide (p ∈ cidrs) then cidrs else cidrs ++ [p]) cidrs prefixes.

Definition is_self (self_key : bytes) (pubkey_hex : str) : bool :=
  match parse_pubkey pubkey_hex with Ok k => bool_decide (k = self_key) | Err _ => false end.

(** The networks to install: the first error ends it. *)
Fixpoint collect_install (self_key : bytes) (subnets : list (str * list str)) (cache : RouteFileCache) (cidrs : list IpNet)
    : outcome (result CidrError (list IpNet)) * RouteFileCache :=
  match subnets with
  | [] => (Ret (Ok cidrs), cache)
  | (pubkey_hex, subnet_list) :: subnets =>
      if is_self self_key pubkey_hex then collect_install self_key subnets cache cidrs
      else match expand_cidrs parse_url read_list ckr_advanced parse_net overflow_checks (system_entries pubkey_hex subnet_list) cache with
           | (Panic, cache) => (Panic, cache)
           | (Ret (Err e), cache) => (Ret (Err e), cache)
           | (Ret (Ok prefixes), cache) => collect_install self_key subnets cache (push_new cidrs prefixes)
           end
  end.

(** The networks to remove: keys whose entries do not expand are skipped. *)
Fixpoint collect_remove (self_key : bytes) (subnets : list (str * list str)) (cache : RouteFileCache) (cidrs : list IpNet)
    : outcome (list IpNet) * RouteFileCache :=
  match subnets with
  | [] => (Ret cidrs, cache)
  | (pubkey_hex, subnet_list) :: subnets =>
      if is_self self_key pubkey_hex then collect_remove self_key subnets cache cidrs
      else match expand_cidrs parse_url read_list ckr_advanced parse_net overflow_checks (system_entries pubkey_hex subnet_list) cache with
           | (Panic, cache) => (Panic, cache)
           | (Ret (Err _), cache) => collect_remove self_key subnets cache cidrs
           | (Ret (Ok prefixes), cache) => collect_remove self_key subnets cache (push_new cidrs prefixes)
           end
  end.

Context `{RouteOps} (linux : bool).

(** The table is set on Linux only. *)
Definition route_of (tun_name : str) (route_table : option Z) (cidr : IpNet) : Route :=
  mkRoute (is_v4 cidr) (net_network cidr) (net_prefix_len cidr) tun_name (if linux then route_table else None).

(** The routes installed and failed, and the table. *)
Definition install_all (routes : list Route) (sys : gset Route) : nat * nat * gset Route :=
  foldl (fun '(installed, failed, sys) r =>
    match rm_add r sys with Some sys => (S installed, failed, sys) | None => (installed, S failed, sys) end) (0%nat, 0%nat, sys) routes.

Definition remove_all (routes : list Route) (sys : gset Route) : gset Route :=
  foldl (fun sys r => default sys (rm_delete r sys)) sys routes.

Inductive InstallError := InstallCidr (e : CidrError) | NoManager.

Definition install_routes (enable install_system_routes : bool) (self_key : bytes) (subnets : list (str * list str)) (tun_name : str)
    (route_table : option Z) (manager_ok : bool) (cache : RouteFileCache) (sys : gset Route)
    : outcome (result InstallError (gset Route)) * RouteFileCache :=
  if negb enable || negb install_system_routes then (Ret (Ok sys), cache)
  else match collect_install self_key subnets cache [] with
       | (Panic, cache) => (Panic, cache)
       | (Ret (Err e), cache) => (Ret (Err (InstallCidr e)), cache)
       | (Ret (Ok []), cache) => (Ret (Ok sys), cache)
       | (Ret (Ok cidrs), cache) =>
           if negb manager_ok then (Ret (Err NoManager), cache)
           else (Ret (Ok (install_all (route_of tun_name route_table <$> cidrs) sys).2), cache)
       end.

Definition remove_routes (enable install_system_routes : bool) (self_key : bytes) (subnets : list (str * list str)) (tun_name : str)
    (route_table : option Z) (manager_ok : bool) (cache : RouteFileCache) (sys : gset Route) : outcome (gset Route) * RouteFileCache :=
  if negb enable || negb install_system_routes then (Ret sys, cache)
  else match collect_remove self_key subnets cache [] with
       | (Panic, cache) => (Panic, cache)
       | (Ret cidrs, cache) =>
           if negb manager_ok then (Ret sys, cache) else (Ret (remove_all (route_of tun_name route_table <$> cidrs) sys), cache)
       end.
End Routes.

(** ** Waiting for a peer *)

(** What [try_recv] gives on the channel of peer events. *)
Inductive PeerRecv := RecvConnected | RecvOther | RecvEmpty | RecvClosed | RecvLagged.

(** One turn of the loop: the time, the shutdown flag, the event. *)
Record WaitPoll := mkWaitPoll { wp_now : Z; wp_shutdown : bool; wp_recv : PeerRecv }.

Inductive LoopEnd := LoopShutdown | LoopConnected | LoopGaveUp.
Inductive WaitEnd := WaitShutdown | WaitOver.

(** The loop up to the deadline, with the turns that are left; [None]: it goes on
    beyond the given turns. *)
Fixpoint wait_loop (deadline : Z) (polls : list WaitPoll) : option (LoopEnd * list WaitPoll) :=
  match polls with
  | [] => None
  | p :: rest =>
      if deadline <=? wp_now p then Some (LoopGaveUp, polls)
      else if wp_shutdown p then Some (LoopShutdown, polls)
      else match wp_recv p with
           | RecvConnected => Some (LoopConnected, rest)
           | RecvClosed => Some (LoopGaveUp, rest)
           | RecvOther | RecvEmpty | RecvLagged => wait_loop deadline rest
           end
  end.

Definition PEER_WAIT : Z := 15000000000.

(** The pause of 2 s, the check for connected peers, the wait of up to 15 s; the
    flag is looked at once more when no peer came. *)
Definition wait_for_peer (pause : list bool) (already_has_peers : bool) (start : Z) (polls : list WaitPoll) : option WaitEnd :=
  if interrupted pause then Some WaitShutdown
  else if already_has_peers then Some WaitOver
  else match wait_loop (start + PEER_WAIT) polls with
       | None => None
       | Some (LoopShutdown, _) => Some WaitShutdown
       | Some (LoopConnected, _) => Some WaitOver
       | Some (LoopGaveUp, rest) => Some (if existsb wp_shutdown (take 1 rest) then WaitShutdown else WaitOver)
       end.

(** ** All lists *)

Definition http_entries (entries : list str) : list str := filter (fun e => is_http_entry e = true) entries.

Definition has_http_entries (self_key : bytes) (subnets : list (str * list str)) : bool :=
  existsb (fun '(hex, entries) => negb (is_self self_key hex) && existsb is_http_entry entries) subnets.

(** The directory of lists: a directory for each key. *)
Abbreviation ListBase := (gmap str (gmap str bytes)) (only parsing).

(** The directories that are empty go. *)
Definition remove_empty_dirs (base : ListBase) : ListBase := filter (fun p => p.2 <> ∅) base.

(** Without any list in the configuration, all files of lists go. *)
Definition clean_all (base : ListBase) : ListBase := remove_empty_dirs (remove_stale 0 <$> base).

Section AllLists.
Context (md5_hex : bytes -> str) (entry_order : gmap str bytes -> list str).

(** The world during the downloads of a key: for the list in slot [i], the
    shutdown flag, the answers to the download, and how the file system answers. *)
Record ListInput := mkListInput {
  li_shutdown : bool; li_pause : list bool; li_attempts : nat -> DownloadAttempt; li_rename_ok : bool; li_write_ok : bool }.

(** The lists of a key from slot [i] on; the flag says that the shutdown was
    noticed. *)
Fixpoint fetch_lists (input : Z -> ListInput) (i : Z) (entries : list str) (d : gmap str bytes) : bool * gmap str bytes :=
  match entries with
  | [] => (false, d)
  | entry :: entries =>
      let '(mark, bare_url) := extract_prefix_url entry in
      let inp := input i in
      if li_shutdown inp then (true, d)
      else match download_with_retries 3 (li_pause inp) (li_attempts inp) with
           | Err ShutdownRequested => (true, d)
           | Err _ => fetch_lists input (i + 1) entries d
           | Ok body => fetch_lists input (i + 1) entries (store_list md5_hex entry_order (li_rename_ok inp) (li_write_ok inp) i mark body d)
           end
  end.

Definition update_key_lists (create_ok : bool) (input : Z -> ListInput) (self_key : bytes) (pubkey_hex : str) (entries : list str) (base : ListBase)
    : bool * ListBase :=
  if bool_decide (pubkey_hex = []) then (false, base)
  else if is_self self_key pubkey_hex then (false, delete pubkey_hex base)
  else
    let lists := http_entries entries in
    let base := alter (remove_stale (Z.of_nat (length lists))) pubkey_hex base in
    if bool_decide (lists = []) then (false, base)
    else if negb create_ok then (false, base)
    else
      let '(stop, d) := fetch_lists input 0 lists (default ∅ (base !! pubkey_hex)) in
      (stop, <[pubkey_hex := d]> base).

Fixpoint update_keys (create_ok : str -> bool) (input : str -> Z -> ListInput) (self_key : bytes) (subnets : list (str * list str)) (base : ListBase)
    : bool * ListBase :=
  match subnets with
  | [] => (false, base)
  | (hex, entries) :: subnets =>
      match update_key_lists (create_ok hex) (input hex) self_key hex entries base with
      | (true, base) => (true, base)
      | (false, base) => update_keys create_ok input self_key subnets base
      end
  end.

(** [wait] is what [wait_for_peer] returns; [base_ok] whether the base directory
    can be created. *)
Definition download_route_lists (enable shutdown : bool) (wait : WaitEnd) (base_ok : bool) (create_ok : str -> bool)
    (input : str -> Z -> ListInput) (self_key : bytes) (subnets : list (str * list str)) (base : ListBase) : ListBase :=
  if negb enable || shutdown then base
  else if negb (has_http_entries self_key subnets) then clean_all base
  else match wait with
       | WaitShutdown => base
       | WaitOver =>
           if negb base_ok then base
           else match update_keys create_ok input self_key subnets base with
                | (true, base) => base
                | (false, base) => remove_empty_dirs base
                end
       end.

(** The entries of the lists of a key; [file_url] makes the URL of a file. *)
Definition get_downloaded_virtual_file_entries (file_url : str -> str -> option str) (base : ListBase) (pubkey : str) : list str :=
  match base !! pubkey with
  | None => []
  | Some d =>
      omap (fun name => mark ← mark_of_name name; url ← file_url pubkey name; Some (mark ++ url)) (entry_order d)
  end.
End AllLists.

(** ** The addresses of peers *)

Section Exclusions.
Context (parse_ip : str -> option str) (resolve : str -> list str).

Definition has_domain_peer (peers : list str) : bool :=
  existsb (fun peer => match extract_peer_host peer with Some host => bool_decide (parse_ip host = None) | None => false end) peers.

(** The stored exclusions afterwards: [shutdown] is the flag at the start, [wait]
    the wait before names are resolved, [pause] the 3 s after it. *)
Definition set_peer_exclusions (no_subnets shutdown : bool) (wait : WaitEnd) (pause : list bool) (peers : list str)
    (stored : option (list str)) : option (list str) :=
  if shutdown then stored
  else if no_subnets then Some []
  else
    let stop :=
      if has_domain_peer peers then match wait with WaitShutdown => true | WaitOver => existsb id (take 30 pause) end else false in
    if stop then stored else Some (prepare_peer_exclusions parse_ip resolve peers).
End Exclusions.

Definition get_peer_exclusion_entries (stored : option (list str)) : list str := default [] stored.
