(* ===== verification/CkrSystemFacts.v ===== *)
(** * CkrSystemFacts: what start-up leaves in the system

    The routes that are installed are the ones that are removed, and none of them
    covers a peer; the directories of lists mirror the configuration. *)

From stdpp Require Import strings options.
From S2P Require Import Prelude.
From S2P Require Import Wire.
From S2P Require Import Address.
From S2P Require Import Ckr.
From S2P Require Import CkrFacts.
From S2P Require Import Text.
From S2P Require Import CkrText.
From S2P Require Import CkrTextFacts.
From S2P Require Import CkrSystem.
Open Scope Z_scope.

(** The documented behaviour of the route manager: a route that is there is not
    added again, and can be deleted. *)
Class RouteLaws `{RouteOps} := {
  rm_add_spec r t t' : rm_add r t = Some t' -> (r ∉ t) /\ t' = {[r]} ∪ t;
  rm_delete_spec r t t' : rm_delete r t = Some t' -> t' = t ∖ {[r]};
  rm_delete_present r t : r ∈ t -> is_Some (rm_delete r t)
}.

Section Routes.
Set Default Proof Using "All".
Context (parse_url : str -> ListUrl) (ckr_advanced : bool).
Context `{L : IpNetLaws} `{Deq : EqDecision IpNet} (parse_net : str -> option IpNet).
Context (downloaded : str -> list str) (exclusions : list str).

Abbreviation collect rl := (collect_install parse_url rl ckr_advanced parse_net false downloaded exclusions) (only parsing).
Abbreviation collected rl := (collect_remove parse_url rl ckr_advanced parse_net false downloaded exclusions) (only parsing).

(** What was collected once is collected again, from the cache. *)
Lemma collect_again rl rl' self_key subnets : forall cache cidrs out cache',
  collect rl self_key subnets cache cidrs = (Ret (Ok out), cache') ->
  cache ⊆ cache' /\ forall d, cache' ⊆ d -> collected rl' self_key subnets d cidrs = (Ret out, d).
Proof.
  induction subnets as [|[hex l] subnets IH]; intros cache cidrs out cache'; cbn [collect_install collect_remove]; [by intros [= <- <-]|].
  destruct (is_self self_key hex); [apply IH|].
  destruct (expand_cidrs parse_url rl ckr_advanced parse_net false _ cache) as [[[nets|?]|] c1] eqn:E; try done. intros Hc.
  destruct (route_lists_read_once parse_url ckr_advanced parse_net false rl rl' _ _ _ _ E) as [S1 F1].
  destruct (IH _ _ _ _ Hc) as [S2 F2]. split; [by etrans|]. intros d Hd. rewrite F1 by (by etrans). by apply F2.
Qed.

Lemma push_new_spec prefixes : forall cidrs p, (p ∈ push_new cidrs prefixes <-> p ∈ cidrs \/ p ∈ prefixes) /\
  (NoDup cidrs -> NoDup (push_new cidrs prefixes)).
Proof.
  induction prefixes as [|x prefixes IH]; intros cidrs p; cbn [push_new foldl]; [set_solver|].
  fold (push_new (if bool_decide (x ∈ cidrs) then cidrs else cidrs ++ [x]) prefixes).
  destruct (IH (if bool_decide (x ∈ cidrs) then cidrs else cidrs ++ [x]) p) as [I1 I2]. rewrite I1. case_bool_decide.
  - split; [set_solver|done].
  - split; [set_solver|]. intros N. apply I2. apply NoDup_app. split_and!; [done|set_solver|apply NoDup_singleton].
Qed.

(** Every network that is collected comes from the entries of a key, with the
    exclusions among them. *)
Lemma collect_sources rl self_key subnets : forall cache cidrs out cache' n,
  collect rl self_key subnets cache cidrs = (Ret (Ok out), cache') -> n ∈ out ->
  n ∈ cidrs \/ exists es c c' nets, expand_cidrs parse_url rl ckr_advanced parse_net false es c = (Ret (Ok nets), c') /\ n ∈ nets /\
    forall ip, exclusion ip ∈ exclusions -> ip_text ip -> exclusion ip ∈ es.
Proof.
  induction subnets as [|[hex l] subnets IH]; intros cache cidrs out cache' n; cbn [collect_install]; [intros [= <- _]; by left|].
  destruct (is_self self_key hex); [apply IH|].
  destruct (expand_cidrs parse_url rl ckr_advanced parse_net false _ cache) as [[[nets|?]|] c1] eqn:E; try done.
  intros Hc Hn. destruct (IH _ _ _ _ n Hc Hn) as [Hin|?]; [|by right].
  apply (push_new_spec nets cidrs n) in Hin as [?|Hin]; [by left|]. right. eexists _, _, _, nets. split; [exact E|]. split; [done|].
  intros ip Hip Ht. unfold system_entries. rewrite <- (trim_exclusion ip Ht) at 1. apply (normalize_keep parse_url rl ckr_advanced parse_net (fun _ => None) (fun _ => [])).
  - apply list_elem_of_filter. split; [by rewrite trim_exclusion|]. set_solver.
  - apply exclusion_normal.
Qed.

Section Manager.
Context `{RL : RouteLaws} (linux : bool).

Lemma install_all_spec routes : forall i f sys,
  let sys' := (foldl (fun '(installed, failed, sys) r =>
    match rm_add r sys with Some sys => (S installed, failed, sys) | None => (installed, S failed, sys) end) (i, f, sys) routes).2 in
  sys ⊆ sys' /\ sys' ⊆ sys ∪ list_to_set routes.
Proof.
  induction routes as [|r routes IH]; intros i f sys; cbn [foldl]; [set_solver|].
  destruct (rm_add r sys) as [sys1|] eqn:E.
  - apply rm_add_spec in E as [_ ->]. specialize (IH (S i) f ({[r]} ∪ sys)). cbv zeta in *. set_solver.
  - specialize (IH i (S f) sys). cbv zeta in *. set_solver.
Qed.

Lemma remove_all_spec routes : forall sys, remove_all routes sys = sys ∖ list_to_set routes.
Proof.
  induction routes as [|r routes IH]; intros sys; [cbn; set_solver|]. unfold remove_all. cbn [foldl]. fold (remove_all routes).
  change (foldl (fun sys r => default sys (rm_delete r sys)) ?s routes) with (remove_all routes s). rewrite IH.
  destruct (rm_delete r sys) as [sys1|] eqn:E; cbn [default].
  - apply rm_delete_spec in E as ->. cbn. set_solver.
  - cbn. assert (r ∉ sys); [|set_solver]. intros Hin. apply rm_delete_present in Hin as [? ?]. congruence.
Qed.

(** The system routes. Installing them adds, to whatever the table holds, only
    routes of a set that the configuration determines; removing them at the end
    takes away exactly this set, whatever has become of the lists in files since.
    So a table that had none of them is restored. No route of the set covers the
    address of a peer that is excluded. *)
Theorem system_routes_reverted rl self_key subnets tun_name route_table cache sys sys1 cache1
    (Hrun : install_routes parse_url rl ckr_advanced parse_net false downloaded exclusions linux true true
      self_key subnets tun_name route_table true cache sys = (Ret (Ok sys1), cache1)) :
  exists cidrs, let R := list_to_set (route_of linux tun_name route_table <$> cidrs) in
    sys ⊆ sys1 /\ sys1 ⊆ sys ∪ R /\
    (forall rl' d sys', cache1 ⊆ d ->
       remove_routes parse_url rl' ckr_advanced parse_net false downloaded exclusions linux true true
         self_key subnets tun_name route_table true d sys' = (Ret (sys' ∖ R), d)) /\
    (sys ## R -> sys1 ∖ R = sys) /\
    (forall ip net a, exclusion ip ∈ exclusions -> ip_text ip -> parse_net (cidr_for_parse ip) = Some net -> covers net a ->
       ~ covered (is_v4 net) cidrs a).
Proof.
  unfold install_routes in Hrun. cbn [negb orb] in Hrun.
  destruct (collect rl self_key subnets cache []) as [[[cidrs|e]|] c1] eqn:Ec; try done.
  assert (sys1 = (install_all (route_of linux tun_name route_table <$> cidrs) sys).2 /\ cache1 = c1) as [-> ->].
  { destruct cidrs; by injection Hrun as <- <-. }
  destruct (install_all_spec (route_of linux tun_name route_table <$> cidrs) 0 0 sys) as [I1 I2]. fold (install_all (route_of linux tun_name route_table <$> cidrs) sys) in I1, I2.
  exists cidrs. cbv zeta. split_and!; [exact I1|exact I2| | |].
  - intros rl' d sys' Hd. unfold remove_routes. cbn [negb orb].
    destruct (collect_again rl rl' self_key subnets _ _ _ _ Ec) as [_ F]. rewrite F by done. by rewrite remove_all_spec.
  - intros Hdis. set_solver.
  - intros ip net a Hip Ht Hn Ha (n & Hin & Hv & Hc).
    destruct (collect_sources rl self_key subnets _ _ _ _ n Ec Hin) as [Hnil|(es & c & c' & nets & Ee & Hnn & Hex)]; [by apply elem_of_nil in Hnil|].
    apply (expand_excludes parse_url rl ckr_advanced parse_net (fun _ => None) (fun _ => []) ip net es c nets c' Ht (Hex ip Hip Ht) Hn Ee a Ha).
    by exists n.
Qed.
End Manager.
End Routes.

(** ** Waiting *)

(** The wait ends: at the first turn after the deadline at the latest, and never
    before it without a peer, a closed channel or a shutdown. *)
Lemma wait_loop_ends deadline polls p : p ∈ polls -> deadline <= wp_now p -> is_Some (wait_loop deadline polls).
Proof.
  intros Hin Hp. induction polls as [|q polls IH]; [by apply elem_of_nil in Hin|]. cbn [wait_loop].
  destruct (Z.leb_spec deadline (wp_now q)); [by eexists|]. destruct (wp_shutdown q); [by eexists|].
  apply elem_of_cons in Hin as [->|Hin]; [lia|]. destruct (wp_recv q); eauto.
Qed.


(** ** The directories of lists *)

Definition marks : list str := [[]; lit "~"; lit "_"; lit "!"].

Lemma extract_mark e : (extract_prefix_url e).1 ∈ marks.
Proof.
  unfold extract_prefix_url, marks. destruct (strip_prefix (lit "~") _); [set_solver|].
  destruct (strip_prefix (lit "_") _); [set_solver|]. destruct (strip_prefix (lit "!") _); set_solver.
Qed.

Section Lists.
Set Default Proof Using "Type*".
Context (md5_hex : bytes -> str) (Hmd5 : forall b, length (md5_hex b) = 32%nat).
Context (entry_order : gmap str bytes -> list str) (Horder : forall d n, n ∈ entry_order d <-> is_Some (d !! n)).

(** A directory of lists: its names are those of slots below [num], one for each
    slot at most, with the digests of the contents. *)
Record dir_ok (num : Z) (d : gmap str bytes) : Prop := mkDirOk {
  do_names : forall n, is_Some (d !! n) -> exists i mark md5, 0 <= i < num /\ mark ∈ marks /\ n = list_file_name i mark md5;
  do_one : forall j, 0 <= j < 10 ^ 20 -> one_file j d;
  do_digests : digests_ok md5_hex d
}.

Lemma dir_ok_sub num num' d d' : dir_ok num d -> d' ⊆ d ->
  (forall i mark md5, 0 <= i < num -> mark ∈ marks -> is_Some (d' !! list_file_name i mark md5) -> i < num') -> dir_ok num' d'.
Proof.
  intros [H1 H2 H3] Hs Hn. split.
  - intros n Hx. assert (is_Some (d !! n)) as Hy by (destruct Hx as [b Hb]; exists b; by eapply lookup_weaken).
    destruct (H1 n Hy) as (i & mark & md5 & Hi & Hm & ->). exists i, mark, md5. split_and!; [lia|by eapply Hn|done|done].
  - intros j Hj n m Sn Sm [b Hb] [c Hc]. apply (H2 j Hj n m Sn Sm); eexists; by eapply lookup_weaken.
  - intros i n b Hi Sn Hb. apply (H3 i n b Hi Sn). by eapply lookup_weaken.
Qed.

Lemma remove_stale_ok num d : dir_ok (2 ^ 64) d -> 0 <= num -> dir_ok num (remove_stale num d).
Proof.
  intros Hd Hnum. apply (dir_ok_sub (2 ^ 64) num d); [done|apply map_filter_subseteq|].
  intros i mark md5 Hi Hm [b [_ Hb]%map_lookup_filter_Some]. cbn [fst] in Hb. destruct (file_name_read_back i mark md5 num Hi Hm) as [_ E].
  rewrite E in Hb. lia.
Qed.

Lemma dir_ok_zero d : dir_ok 0 d -> d = ∅.
Proof.
  intros [H1 _ _]. apply map_empty. intros n. destruct (d !! n) as [b|] eqn:E; [|done].
  destruct (H1 n) as (i & ? & ? & Hi & _); [by exists b|lia].
Qed.

(** The name of the list in slot [i]. *)
Definition list_name (body : Z -> bytes) (i : Z) (entry : str) : str :=
  list_file_name i (extract_prefix_url entry).1 (md5_hex (body i)).

(** The world works: nothing is interrupted, every download gives [body], every
    operation on files succeeds. *)
Definition works (input : Z -> ListInput) (body : Z -> bytes) : Prop :=
  forall i, li_shutdown (input i) = false /\ li_rename_ok (input i) = true /\ li_write_ok (input i) = true /\
    download_with_retries 3 (li_pause (input i)) (li_attempts (input i)) = Ok (body i).

Lemma fetch_lists_spec input body num entries : works input body -> num <= 10 ^ 19 -> forall i d,
  0 <= i -> i + Z.of_nat (length entries) <= num -> dir_ok num d ->
  exists d', fetch_lists md5_hex entry_order input i entries d = (false, d') /\ dir_ok num d' /\
  (forall k entry, entries !! k = Some entry -> is_Some (d' !! list_name body (i + Z.of_nat k) entry)) /\
  (forall k entry n, entries !! k = Some entry -> in_slot (i + Z.of_nat k) n = true -> is_Some (d' !! n) -> n = list_name body (i + Z.of_nat k) entry) /\
  (forall n, (forall j, i <= j < i + Z.of_nat (length entries) -> in_slot j n = false) -> d' !! n = d !! n).
Proof.
  intros Hw Hnum. induction entries as [|e entries IH]; intros i d Hi Hlen Hd; cbn [fetch_lists length] in *.
  { exists d. split_and!; done. }
  destruct (Hw i) as (Hs & Hr & Hwr & Hdl). pose proof (extract_mark e) as Hmark.
  destruct (extract_prefix_url e) as [mark url] eqn:Ee. rewrite Hs, Hdl, Hr, Hwr. cbn [fst] in Hmark.
  set (d1 := store_list md5_hex entry_order true true i mark (body i) d).
  destruct (slots_hold_latest md5_hex Hmd5 entry_order Horder i mark (body i) d) as (A & B & C & D & E);
    [lia|apply (do_one _ _ Hd)|apply (do_digests _ _ Hd)|]. fold d1 in A, B, C, D, E.
  assert (list_name body i e = list_file_name i mark (md5_hex (body i))) as Hname by (unfold list_name; by rewrite Ee).
  assert (dir_ok num d1) as Hd1.
  { split; [|done|done]. intros n Hn. destruct (in_slot i n) eqn:Es.
    - destruct (decide (n = list_file_name i mark (md5_hex (body i)))) as [->|Hne].
      + exists i, mark, (md5_hex (body i)). split_and!; [lia|lia|done|done].
      + rewrite B in Hn by done. by destruct Hn.
    - rewrite C in Hn by done. by apply (do_names _ _ Hd). }
  destruct (IH (i + 1) d1) as (d' & Hf & Hd' & I1 & I2 & I3); [lia|lia|done|].
  assert (forall n, in_slot i n = true -> d' !! n = d1 !! n) as Hkeep.
  { intros n Hn. apply I3. intros j Hj. destruct (in_slot j n) eqn:Ej; [|done]. apply (in_slot_unique i j n) in Hn; [lia|lia|lia|done]. }
  exists d'. split; [done|]. split; [done|]. split_and!.
  - intros [|k] entry Hk; cbn in Hk.
    + injection Hk as <-. rewrite Z.add_0_r, Hkeep, Hname by (unfold list_name; apply target_in_slot). destruct A as (b & Hb & _). by exists b.
    + replace (i + Z.of_nat (S k)) with (i + 1 + Z.of_nat k) by lia. by apply I1.
  - intros [|k] entry n Hk Hn Hin; cbn in Hk.
    + injection Hk as <-. rewrite Z.add_0_r in *. rewrite Hkeep in Hin by done. rewrite Hname.
      destruct (decide (n = list_file_name i mark (md5_hex (body i)))) as [|Hne]; [done|]. rewrite B in Hin by done. by destruct Hin.
    + replace (i + Z.of_nat (S k)) with (i + 1 + Z.of_nat k) in * by lia. by apply I2.
  - intros n Hn. rewrite I3 by (intros j Hj; apply Hn; lia). apply C. apply Hn. lia.
Qed.

(** The names in the directory of a key with the lists [entries]. *)
Definition mirrors (body : Z -> bytes) (entries : list str) (d : option (gmap str bytes)) : Prop :=
  forall n, is_Some (d ≫= (.!! n)) <-> exists k entry, http_entries entries !! k = Some entry /\ n = list_name body (Z.of_nat k) entry.

Lemma update_key_lists_spec input body self_key hex entries base : works input body ->
  hex <> [] -> is_self self_key hex = false -> (Z.of_nat (length entries) <= 10 ^ 18) ->
  dir_ok (2 ^ 64) (default ∅ (base !! hex)) ->
  exists base', update_key_lists md5_hex entry_order true input self_key hex entries base = (false, base') /\
    mirrors body entries (base' !! hex) /\ dir_ok (2 ^ 64) (default ∅ (base' !! hex)).
Proof.
  intros Hw Hne Hself Hlen Hd. unfold update_key_lists. rewrite bool_decide_false, Hself by done. cbv zeta.
  set (num := Z.of_nat (length (http_entries entries))).
  assert (0 <= num <= 10 ^ 18) as Hnum.
  { unfold num, http_entries. pose proof (length_filter (fun e => is_http_entry e = true) entries). lia. }
  assert (dir_ok num (default ∅ (alter (remove_stale num) hex base !! hex))) as Hd0.
  { rewrite lookup_alter_eq. destruct (base !! hex) as [d|]; cbn [fmap option_fmap option_map default] in *; [apply remove_stale_ok; [done|lia]|].
    apply (dir_ok_sub (2 ^ 64) num ∅); [done|done|]. intros i mark md5 _ _ [b Hb]. by rewrite lookup_empty in Hb. }
  assert (forall d, dir_ok num d -> dir_ok (2 ^ 64) d) as Hup.
  { intros d Hdd. apply (dir_ok_sub num (2 ^ 64) d); [done|done|]. intros. lia. }
  destruct (bool_decide_reflect (http_entries entries = [])) as [El|El].
  - eexists. split; [reflexivity|]. split; [|by apply Hup]. assert (num = 0) as E0 by (unfold num; by rewrite El).
    rewrite E0 in Hd0 |- *. apply dir_ok_zero in Hd0.
    intros n. rewrite El. split; [|intros (k & e & He & _); by rewrite lookup_nil in He].
    destruct (alter (remove_stale 0) hex base !! hex) as [d|]; cbn in *; [subst d; rewrite lookup_empty|]; by intros [? ?].
  - cbn [negb]. destruct (fetch_lists_spec input body num (http_entries entries) Hw ltac:(lia) 0
      (default ∅ (alter (remove_stale num) hex base !! hex))) as (d' & -> & Hd' & I1 & I2 & _); [lia|unfold num; lia|done|].
    eexists. split; [reflexivity|]. rewrite lookup_insert_eq. split; [|by apply Hup]. intros n. cbn. split.
    + intros Hn. destruct (do_names _ _ Hd' n Hn) as (i & mark & md5 & Hi & _ & ->).
      destruct (lookup_lt_is_Some_2 (http_entries entries) (Z.to_nat i)) as [entry He]; [unfold num in Hi; lia|].
      exists (Z.to_nat i), entry. split; [done|]. refine (I2 (Z.to_nat i) entry (list_file_name i mark md5) He _ Hn).
      rewrite Z2Nat.id, Z.add_0_l by lia. apply target_in_slot.
    + intros (k & entry & He & ->). by apply (I1 k).
Qed.

Lemma update_key_frame create_ok input self_key hex entries base hex' : hex' <> hex ->
  (update_key_lists md5_hex entry_order create_ok input self_key hex entries base).2 !! hex' = base !! hex'.
Proof.
  intros Hne. unfold update_key_lists. destruct (bool_decide (hex = [])); [done|].
  destruct (is_self self_key hex); [cbn; by rewrite lookup_delete_ne|]. destruct (bool_decide (http_entries entries = [])).
  { cbn. by rewrite lookup_alter_ne. }
  destruct create_ok; cbn [negb]; [|cbn; by rewrite lookup_alter_ne]. destruct (fetch_lists _ _ _ _ _ _) as [stop d].
  cbn. by rewrite lookup_insert_ne, lookup_alter_ne.
Qed.

(** What the directories should hold. *)
Definition key_mirrored (body : str -> Z -> bytes) (self_key : bytes) (base : gmap str (gmap str bytes)) (hex : str) (entries : list str) : Prop :=
  if is_self self_key hex then base !! hex = None else mirrors (body hex) entries (base !! hex).

Lemma update_keys_spec input body self_key subnets : (forall hex, works (input hex) (body hex)) -> forall base,
  NoDup subnets.*1 -> Forall (fun p => p.1 <> [] /\ Z.of_nat (length p.2) <= 10 ^ 18 /\ dir_ok (2 ^ 64) (default ∅ (base !! p.1))) subnets ->
  exists base', update_keys md5_hex entry_order (fun _ => true) input self_key subnets base = (false, base') /\
    (forall hex entries, (hex, entries) ∈ subnets -> key_mirrored body self_key base' hex entries) /\
    (forall hex, hex ∉ subnets.*1 -> base' !! hex = base !! hex).
Proof.
  intros Hw. induction subnets as [|[hex entries] subnets IH]; intros base Hnd Hall; cbn [update_keys].
  { exists base. split_and!; [done|intros ? ? Hin; by apply elem_of_nil in Hin|done]. }
  rewrite fmap_cons in Hnd. apply NoDup_cons in Hnd as [Hni Hnd]. apply Forall_cons in Hall as [(Hne & Hlen & Hd) Hall]. cbn [fst snd] in *.
  assert (exists base1, update_key_lists md5_hex entry_order true (input hex) self_key hex entries base = (false, base1) /\
    key_mirrored body self_key base1 hex entries) as (base1 & E & Hm).
  { unfold key_mirrored. destruct (is_self self_key hex) eqn:Es.
    - unfold update_key_lists. rewrite bool_decide_false, Es by done. eexists. split; [done|]. by rewrite lookup_delete_eq.
    - destruct (update_key_lists_spec (input hex) (body hex) self_key hex entries base (Hw hex) Hne Es Hlen Hd) as (b & ? & ? & _). by exists b. }
  pose proof (fun hex' => update_key_frame true (input hex) self_key hex entries base hex') as Hf. rewrite E in Hf |- *. cbn [snd] in Hf.
  destruct (IH base1 Hnd) as (base' & E' & H1 & H2).
  { rewrite Forall_forall in Hall |- *. intros p Hp. rewrite Hf; [by apply Hall|]. intros He. apply Hni. rewrite <- He. by apply list_elem_of_fmap_2. }
  exists base'. split; [done|]. split.
  - intros h es [[= -> ->]|Hin]%elem_of_cons; [|by apply H1]. unfold key_mirrored in *. by rewrite H2.
  - intros h [Hh Hn]%not_elem_of_cons. rewrite H2 by done. by apply Hf.
Qed.

Lemma remove_empty_lookup (base : gmap str (gmap str bytes)) hex n :
  remove_empty_dirs base !! hex ≫= (.!! n) = base !! hex ≫= (.!! n).
Proof.
  unfold remove_empty_dirs. destruct (base !! hex) as [d|] eqn:E.
  - destruct (decide (d = ∅)) as [->|Hd].
    + assert (filter (fun p : str * gmap str bytes => p.2 <> ∅) base !! hex = None) as ->; [|cbn; by rewrite lookup_empty].
      apply map_lookup_filter_None. right. intros x Hx. rewrite E in Hx. injection Hx as <-. cbn. tauto.
    + assert (filter (fun p : str * gmap str bytes => p.2 <> ∅) base !! hex = Some d) as ->; [|done]. by apply map_lookup_filter_Some.
  - assert (filter (fun p : str * gmap str bytes => p.2 <> ∅) base !! hex = None) as -> by (apply map_lookup_filter_None; by left). done.
Qed.

Lemma key_mirrored_clean body self_key base hex entries :
  key_mirrored body self_key base hex entries -> key_mirrored body self_key (remove_empty_dirs base) hex entries.
Proof.
  unfold key_mirrored. destruct (is_self self_key hex).
  - intros H. apply map_lookup_filter_None. by left.
  - intros H n. by rewrite remove_empty_lookup.
Qed.

(** Without lists in the configuration, nothing is left of any. *)
Lemma clean_all_mirrors body self_key subnets base hex entries : has_http_entries self_key subnets = false ->
  (hex, entries) ∈ subnets -> dir_ok (2 ^ 64) (default ∅ (base !! hex)) -> key_mirrored body self_key (clean_all base) hex entries.
Proof.
  intros Hno Hin Hd. assert (remove_stale 0 <$> base !! hex = (fun _ => ∅) <$> base !! hex) as Hz.
  { destruct (base !! hex) as [d|]; [|done]. cbn in *. f_equal. by apply dir_ok_zero, remove_stale_ok. }
  assert (clean_all base !! hex = None) as Hnone.
  { unfold clean_all, remove_empty_dirs. apply map_lookup_filter_None. rewrite lookup_fmap, Hz.
    destruct (base !! hex); [|by left]. right. intros x [= <-]. cbn. tauto. }
  unfold key_mirrored. destruct (is_self self_key hex) eqn:Es; [done|]. intros n. rewrite Hnone. split; [by intros [? ?]|].
  intros (k & e & He & _). exfalso. assert (existsb is_http_entry entries = true) as Hx.
  { apply existsb_exists. exists e. apply list_elem_of_lookup_2, list_elem_of_filter in He as [He Hl]. split; [by apply list_elem_of_In|done]. }
  assert (has_http_entries self_key subnets = true) as Hyes; [|congruence].
  apply existsb_exists. exists (hex, entries). split; [by apply list_elem_of_In|]. by rewrite Es, Hx.
Qed.

(** The lists that are downloaded. When nothing is interrupted and every download
    and operation on files succeeds, the directory of each key mirrors the
    configuration, whatever it held before: one file for each list of the key, in
    the order of the lists, named after its position, its mark and the digest of
    the download, and no other. The entries made of them for routing are one for
    each list, with the mark the list has in the configuration. The node's own key
    has no directory. *)
Theorem downloads_mirror_config input body self_key subnets base file_url
    (Hworks : forall hex, works (input hex) (body hex)) (Hkeys : NoDup subnets.*1)
    (Hdirs : Forall (fun p => p.1 <> [] /\ Z.of_nat (length p.2) <= 10 ^ 18 /\ dir_ok (2 ^ 64) (default ∅ (base !! p.1))) subnets) :
  let base' := download_route_lists md5_hex entry_order true false WaitOver true (fun _ => true) input self_key subnets base in
  forall hex entries, (hex, entries) ∈ subnets ->
  if is_self self_key hex then base' !! hex = None
  else
    (forall n, is_Some (base' !! hex ≫= (.!! n)) <->
       exists k entry, http_entries entries !! k = Some entry /\ n = list_name (body hex) (Z.of_nat k) entry) /\
    (forall x, x ∈ get_downloaded_virtual_file_entries entry_order file_url base' hex <->
       exists k entry url, http_entries entries !! k = Some entry /\
         file_url hex (list_name (body hex) (Z.of_nat k) entry) = Some url /\ x = (extract_prefix_url entry).1 ++ url).
Proof.
  intros base' hex entries Hin. assert (key_mirrored body self_key base' hex entries) as Hm.
  { unfold base', download_route_lists. cbn [negb orb]. destruct (has_http_entries self_key subnets) eqn:Eh; cbn [negb].
    - destruct (update_keys_spec input body self_key subnets Hworks base Hkeys Hdirs) as (b & -> & Hb & _).
      apply key_mirrored_clean. by apply Hb.
    - eapply clean_all_mirrors; [done|done|]. rewrite Forall_forall in Hdirs. by destruct (Hdirs _ Hin) as (_ & _ & ?). }
  unfold key_mirrored in Hm. destruct (is_self self_key hex); [done|]. split; [exact Hm|]. intros x.
  assert (forall k entry, http_entries entries !! k = Some entry ->
    mark_of_name (list_name (body hex) (Z.of_nat k) entry) = Some (extract_prefix_url entry).1) as Hmark.
  { intros k entry Hk. refine (proj1 (file_name_read_back (Z.of_nat k) _ _ 0 _ (extract_mark entry))).
    apply lookup_lt_Some in Hk. unfold http_entries in Hk. pose proof (length_filter (fun e => is_http_entry e = true) entries).
    rewrite Forall_forall in Hdirs. destruct (Hdirs _ Hin) as (_ & Hl & _). cbn in Hl. lia. }
  unfold get_downloaded_virtual_file_entries. unfold mirrors in Hm. destruct (base' !! hex) as [d|].
  - rewrite list_elem_of_omap. cbn [mbind option_bind] in Hm. split.
    + intros (n & Hn & Hx). apply Horder, Hm in Hn as (k & entry & Hk & ->). cbv beta in Hx. rewrite (Hmark k entry Hk) in Hx. cbn in Hx.
      destruct (file_url hex _) as [url|] eqn:Eu; [|done]. injection Hx as <-. by exists k, entry, url.
    + intros (k & entry & url & Hk & Hu & ->). exists (list_name (body hex) (Z.of_nat k) entry).
      split; [apply Horder, Hm; eauto|]. by rewrite Hmark, Hu.
  - split; [by intros ?%elem_of_nil|]. intros (k & entry & url & Hk & _).
    destruct (proj2 (Hm (list_name (body hex) (Z.of_nat k) entry))) as [? [=]]. eauto.
Qed.
End Lists.

(** ** Witnesses *)

#[export] Instance set_routes : RouteOps := {|
  rm_add r t := if decide (r ∈ t) then None else Some ({[r]} ∪ t);
  rm_delete r t := if decide (r ∈ t) then Some (t ∖ {[r]}) else None
|}.

#[export] Instance set_routes_laws : RouteLaws.
Proof.
  split; cbn.
  - intros r t t'. case_decide; [done|]. by intros [= <-].
  - intros r t t'. case_decide; [|done]. by intros [= <-].
  - intros r t Hr. rewrite decide_True by done. by eexists.
Qed.

Definition sample_subnets : list (str * list str) := [(lit "00" ++ replicate 62 48, [lit "file:///l"])].
Definition sample_routes : gset Route := {[mkRoute true 0 0 (lit "eth0") None]}.

Lemma system_routes_reverted_witness : exists sys1 c1,
  install_routes sample_url sample_list true sample_net false (fun _ => []) [lit "!10.0.0.5"] true true true
    [] sample_subnets (lit "tun0") (Some 200) true ∅ sample_routes = (Ret (Ok sys1), c1) /\
  (size sys1 = 25%nat) /\
  (remove_routes sample_url (fun _ => ListMissing) true sample_net false (fun _ => []) [lit "!10.0.0.5"] true true true
    [] sample_subnets (lit "tun0") (Some 200) true c1 sys1).1 = Ret sample_routes.
Proof.
  assert (match (install_routes sample_url sample_list true sample_net false (fun _ => []) [lit "!10.0.0.5"] true true true
    [] sample_subnets (lit "tun0") (Some 200) true ∅ sample_routes).1 with Ret (Ok s) => bool_decide (size s = 25%nat /\
       sample_routes = filter (fun r => rt_if r <> lit "tun0") s) | _ => false end = true) as Hok by (by vm_compute).
  destruct (install_routes _ _ _ _ _ _ _ _ _ _ _ _ _ _ _ _ _) as [[[sys1|e]|] c1] eqn:E in Hok |- *; [|discriminate Hok|discriminate Hok].
  apply bool_decide_eq_true in Hok as [Hsize Hbase].
  exists sys1, c1. split; [done|]. split; [exact Hsize|].
  destruct (system_routes_reverted sample_url true sample_net (fun _ => []) [lit "!10.0.0.5"] true sample_list [] sample_subnets (lit "tun0") (Some 200)
    ∅ sample_routes sys1 c1 E) as (cidrs & _ & _ & Hrem & Hdis & _).
  rewrite (Hrem (fun _ => ListMissing) c1 sys1) by done. cbn [fst]. f_equal. apply Hdis.
  intros r Hr Hin. unfold sample_routes in Hr. apply elem_of_singleton in Hr as ->.
  apply elem_of_list_to_set, list_elem_of_fmap in Hin as (n & Hn & _). discriminate (f_equal rt_if Hn).
Defined.

Definition sample_input (i : Z) : ListInput :=
  mkListInput false [] (fun _ => mkDownloadAttempt false (Fetched 200 (Some [1; 2])) []) true true.
Definition sample_http : list (str * list str) := [(lit "ab", [lit "10.0.0.0/8"; lit "~https://a.example/l"])].

Lemma downloads_mirror_config_witness :
  is_Some (download_route_lists sample_md5 (fun d => elements (dom d)) true false WaitOver true (fun _ => true) (fun _ => sample_input) [] sample_http ∅
    !! lit "ab" ≫= (.!! list_file_name 0 (lit "~") (sample_md5 [1; 2]))).
Proof.
  assert (forall (d : gmap str bytes) n, n ∈ elements (dom d) <-> is_Some (d !! n)) as Ho.
  { intros d n. by rewrite elem_of_elements, elem_of_dom. }
  pose proof (downloads_mirror_config sample_md5 (fun b => eq_refl) (fun d => elements (dom d)) Ho (fun _ => sample_input) (fun _ _ => [1; 2])
    [] sample_http ∅ (fun _ _ => None)) as H.
  assert (is_self [] (lit "ab") = false) as Es by (by vm_compute).
  assert (Forall (fun p : str * list str => p.1 <> [] /\ Z.of_nat (length p.2) <= 10 ^ 18 /\
    dir_ok sample_md5 (2 ^ 64) (default ∅ ((∅ : gmap str (gmap str bytes)) !! p.1))) sample_http) as Hd.
  { apply Forall_singleton. cbn [fst snd]. rewrite lookup_empty. cbn [default]. split; [discriminate|]. split; [cbn; lia|]. split.
    - intros n [b Hb]. by rewrite lookup_empty in Hb.
    - intros j _ n m _ _ [x Hx]. by rewrite lookup_empty in Hx.
    - intros j n b _ _ Hb. by rewrite lookup_empty in Hb. }
  specialize (H ltac:(intros hex i; split_and!; reflexivity) ltac:(apply NoDup_singleton) Hd
    (lit "ab") [lit "10.0.0.0/8"; lit "~https://a.example/l"] ltac:(apply list_elem_of_singleton; reflexivity)).
  rewrite Es in H. destruct H as [Hn _]. apply Hn. exists 0%nat, (lit "~https://a.example/l"). split; by vm_compute.
Defined.
