(* ===== verification/Ws.v ===== *)
(** * Ws: links over WebSockets

    Models [crates/yggdrasil/src/transport/ws.rs]: [WsStream], which makes a byte
    stream of binary messages, and the handshake at both ends. The WebSocket
    protocol itself is the [tungstenite] crate: what [poll_next], [poll_ready] and
    [start_send] answer is an input. *)

From stdpp Require Import strings options.
From S2P Require Import Prelude.
From S2P Require Import Wire.
From S2P Require Import Peers.
From S2P Require Import Text.
Open Scope Z_scope.

Definition WS_SUBPROTOCOL : str := lit "ygg-ws".

(** ** The stream *)

Inductive poll (A : Type) := Ready (a : A) | Pending.
Arguments Ready {A}.
Arguments Pending {A}.

(** [Message]; the last stands for text, pings, pongs and raw frames. *)
Inductive Message := Binary (data : bytes) | CloseMsg | OtherMsg.

(** What [poll_next] returns when it is ready. *)
Inductive Next := NextMsg (m : Message) | NextErr | NextNone.

(** The part of [WsStream] that is not the library's. *)
Record WsStream := mkWsStream { ws_read_buf : bytes; ws_read_pos : nat }.

Definition WsStream_new : WsStream := mkWsStream [] 0.

(** The loop of [poll_read] over the answers of [poll_next]; when there are no more
    answers, nothing has arrived yet. [remaining] is the room in the caller's
    buffer; the bytes put in it are returned. *)
Fixpoint poll_read_loop (remaining : nat) (ns : list (poll Next)) (s : WsStream)
    : poll (result unit bytes) * list (poll Next) * WsStream :=
  match ns with
  | [] => (Pending, [], s)
  | Pending :: ns => (Pending, ns, s)
  | Ready (NextMsg (Binary data)) :: ns =>
      let to_copy := Nat.min (length data) remaining in
      (Ready (Ok (take to_copy data)), ns, if (to_copy <? length data)%nat then mkWsStream data to_copy else s)
  | Ready (NextMsg CloseMsg) :: ns => (Ready (Ok []), ns, s)
  | Ready (NextMsg OtherMsg) :: ns => poll_read_loop remaining ns s
  | Ready NextErr :: ns => (Ready (Err tt), ns, s)
  | Ready NextNone :: ns => (Ready (Ok []), ns, s)
  end.

Definition poll_read (remaining : nat) (ns : list (poll Next)) (s : WsStream)
    : poll (result unit bytes) * list (poll Next) * WsStream :=
  if (ws_read_pos s <? length (ws_read_buf s))%nat then
    let rest := drop (ws_read_pos s) (ws_read_buf s) in
    let to_copy := Nat.min (length rest) remaining in
    let pos := (ws_read_pos s + to_copy)%nat in
    (Ready (Ok (take to_copy rest)), ns,
     if (length (ws_read_buf s) <=? pos)%nat then mkWsStream [] 0 else mkWsStream (ws_read_buf s) pos)
  else poll_read_loop remaining ns s.

(** [poll_write]: the answers of [poll_ready] and [start_send], the messages
    handed to the library so far, and the number of bytes taken. *)
Definition poll_write (ready : poll (result unit unit)) (start_send : result unit unit) (buf : bytes) (sent : list Message)
    : poll (result unit nat) * list Message :=
  match ready with
  | Ready (Ok _) =>
      match start_send with
      | Ok _ => (Ready (Ok (length buf)), sent ++ [Binary buf])
      | Err e => (Ready (Err e), sent)
      end
  | Ready (Err e) => (Ready (Err e), sent)
  | Pending => (Pending, sent)
  end.

(** ** The handshake *)

(** A request as it is built and seen: the path of its URI, and its headers in
    order, their names in lower case. *)
Record WsRequest := mkWsRequest { wq_authority : str; wq_path : str; wq_headers : list (str * bytes) }.

Definition ws_authority (host : str) (port : Z) : str :=
  if contains (lit ":") host then lit "[" ++ host ++ lit "]:" ++ show port else host ++ lit ":" ++ show port.

(** The request of [ws_client_handshake]; [key] is the generated key. *)
Definition ws_client_request (host : str) (port : Z) (path : str) (key : bytes) : WsRequest :=
  let authority := ws_authority host port in
  let path := if bool_decide (path = []) then lit "/" else path in
  mkWsRequest authority path
    [(lit "host", authority); (lit "sec-websocket-protocol", WS_SUBPROTOCOL); (lit "sec-websocket-key", key);
     (lit "sec-websocket-version", lit "13"); (lit "connection", lit "Upgrade"); (lit "upgrade", lit "websocket")].

(** [HeaderMap::get]: the first value; [HeaderValue::to_str]: only visible ASCII,
    space and tab. *)
Fixpoint header_get (name : str) (headers : list (str * bytes)) : option bytes :=
  match headers with
  | [] => None
  | (n, v) :: headers => if bool_decide (n = name) then Some v else header_get name headers
  end.
Definition header_to_str (v : bytes) : option str :=
  if forallb (fun b => ((32 <=? b) && (b <? 127)) || (b =? 9)) v then Some v else None.

Inductive HandshakeAnswer := Healthy | BadRequest | Accepted (subprotocol : str).

Definition has_subprotocol (headers : list (str * bytes)) : bool :=
  match header_get (lit "sec-websocket-protocol") headers ≫= header_to_str with
  | Some v => existsb (fun s => bool_decide (trim s = WS_SUBPROTOCOL)) (split_on 44 v)
  | None => false
  end.

(** The callback of [ws_server_handshake]. *)
Definition ws_server_callback (req : WsRequest) : HandshakeAnswer :=
  if bool_decide (wq_path req = lit "/health") || bool_decide (wq_path req = lit "/healthz") then Healthy
  else if negb (has_subprotocol (wq_headers req)) then BadRequest
  else Accepted WS_SUBPROTOCOL.
