(* ===== verification/WsFacts.v ===== *)
(** * WsFacts: a WebSocket link is a byte stream

    The bytes that are written come out in order, whatever the sizes of the reads,
    the control messages in between and the waits; the handshakes fit together. *)

From stdpp Require Import strings options.
From S2P Require Import Prelude.
From S2P Require Import Wire.
From S2P Require Import Peers.
From S2P Require Import Text.
From S2P Require Import Ws.
Open Scope Z_scope.

(** ** Reading *)

(** The bytes of the messages up to the end of the stream, and how it ends. *)
Fixpoint payload (ns : list (poll Next)) : bytes :=
  match ns with
  | [] => []
  | Pending :: ns => payload ns
  | Ready (NextMsg (Binary data)) :: ns => data ++ payload ns
  | Ready (NextMsg OtherMsg) :: ns => payload ns
  | Ready _ :: _ => []
  end.
Fixpoint ending (ns : list (poll Next)) : option bool :=
  match ns with
  | [] => None
  | Ready (NextMsg CloseMsg) :: _ | Ready NextNone :: _ => Some true
  | Ready NextErr :: _ => Some false
  | _ :: ns => ending ns
  end.

Definition no_empty (ns : list (poll Next)) : Prop := Forall (fun n => n <> Ready (NextMsg (Binary []))) ns.

(** What is left of the message being read. *)
Definition unread (s : WsStream) : bytes := drop (ws_read_pos s) (ws_read_buf s).

(** Polls and bytes still to come. *)
Definition work (ns : list (poll Next)) (s : WsStream) : nat := length ns + length (unread s) + length (payload ns).

(** Reads into buffers of the given sizes, up to the end of the stream; a read
    that must wait is tried again. *)
Inductive ReadEnd := Eof | Failed | StillOpen.

Fixpoint read_run (sizes : list nat) (ns : list (poll Next)) (s : WsStream) : bytes * ReadEnd :=
  match sizes with
  | [] => ([], StillOpen)
  | n :: sizes =>
      match poll_read n ns s with
      | (Pending, ns, s) => read_run sizes ns s
      | (Ready (Ok []), _, _) => ([], Eof)
      | (Ready (Ok out), ns, s) => let '(rest, e) := read_run sizes ns s in (out ++ rest, e)
      | (Ready (Err _), _, _) => ([], Failed)
      end
  end.

Lemma unread_buffered data k : (k <= length data)%nat -> take k data ++ unread (mkWsStream data k) = data.
Proof. intros _. apply take_drop. Qed.

(** One read: what it returns comes off the front of what is to come. *)
Definition read_step_ok (n : nat) (ns : list (poll Next)) (s : WsStream) (r : poll (result unit bytes) * list (poll Next) * WsStream) : Prop :=
  let '(p, ns', s') := r in
  match p with
  | Pending => unread s' ++ payload ns' = unread s ++ payload ns /\ ending ns' = ending ns /\ no_empty ns' /\
      (ns' = [] /\ ending ns = None \/ (work ns' s' < work ns s)%nat)
  | Ready (Ok []) => unread s = [] /\ payload ns = [] /\ ending ns = Some true
  | Ready (Ok out) => out ++ unread s' ++ payload ns' = unread s ++ payload ns /\ ending ns' = ending ns /\ no_empty ns' /\
      (work ns' s' < work ns s)%nat /\ (length out <= n)%nat
  | Ready (Err _) => unread s = [] /\ payload ns = [] /\ ending ns = Some false
  end.

Lemma poll_read_loop_ok n ns s : (0 < n)%nat -> no_empty ns -> unread s = [] -> read_step_ok n ns s (poll_read_loop n ns s).
Proof.
  intros Hn He Hs. induction ns as [|x ns IH]; cbn [poll_read_loop].
  { cbn. rewrite Hs. split_and!; [done..|by left]. }
  apply Forall_cons in He as [Hx He]. destruct x as [[[data| |]| |]|]; cbn [read_step_ok payload ending app]; rewrite ?Hs; try done.
  - set (k := Nat.min (length data) n). assert (data <> []) as Hd by congruence.
    assert (0 < length data)%nat by (destruct data; [done|cbn; lia]). assert (0 < k <= length data)%nat by lia.
    destruct (take k data) as [|b out] eqn:Et. { apply (f_equal length) in Et. rewrite length_take in Et. cbn in Et. lia. }
    assert (unread (if (k <? length data)%nat then mkWsStream data k else s) = drop k data) as Hu.
    { destruct (Nat.ltb_spec k (length data)); [done|]. rewrite Hs, drop_ge by lia. done. }
    rewrite Hu, app_assoc, <- Et, take_drop. split_and!; [done|done|done| |].
    + unfold work. rewrite Hu, Hs. cbn [length payload]. rewrite length_app, length_drop. lia.
    + rewrite length_take. lia.
  - specialize (IH He). destruct (poll_read_loop n ns s) as [[[[[|b out]|e]|] ns'] s']; cbn [read_step_ok] in IH |- *; rewrite ?Hs in *; try exact IH.
    + destruct IH as (? & ? & ? & ? & ?). split_and!; try done. unfold work in *. cbn [length payload]. lia.
    + destruct IH as (? & ? & ? & [?|?]); split_and!; try done; [by left|right]. unfold work in *. cbn [length payload]. lia.
  - split_and!; [done..|]. right. unfold work. cbn [length payload]. lia.
Qed.

Lemma poll_read_ok n ns s : (0 < n)%nat -> no_empty ns -> read_step_ok n ns s (poll_read n ns s).
Proof.
  intros Hn He. unfold poll_read. destruct (Nat.ltb_spec (ws_read_pos s) (length (ws_read_buf s))) as [Hl|Hl].
  2: { apply poll_read_loop_ok; [done..|]. by apply drop_ge. }
  fold (unread s). assert (0 < length (unread s))%nat by (unfold unread; rewrite length_drop; lia).
  set (k := Nat.min (length (unread s)) n). assert (0 < k <= length (unread s))%nat by lia.
  cbn [read_step_ok]. destruct (take k (unread s)) as [|b out] eqn:Et. { apply (f_equal length) in Et. rewrite length_take in Et. cbn in Et. lia. }
  assert (forall b1 : bool, (b1 = true <-> (length (ws_read_buf s) <= ws_read_pos s + k)%nat) ->
    unread (if b1 then mkWsStream [] 0 else mkWsStream (ws_read_buf s) (ws_read_pos s + k)) = drop k (unread s)) as Hu.
  { intros b1 Hb. unfold unread. rewrite drop_drop. destruct b1; [|done]. cbn. rewrite drop_ge; [done|]. by apply Hb. }
  rewrite (Hu _ (Nat.leb_le _ _)), app_assoc, <- Et, take_drop. split_and!; try done.
  - unfold work. rewrite (Hu _ (Nat.leb_le _ _)), length_drop. lia.
  - rewrite length_take. lia.
Qed.

Lemma read_run_ok sizes : forall ns s, Forall (fun n => (0 < n)%nat) sizes -> no_empty ns ->
  let '(out, e) := read_run sizes ns s in
  match e with
  | Eof => out = unread s ++ payload ns /\ ending ns = Some true
  | Failed => out = unread s ++ payload ns /\ ending ns = Some false
  | StillOpen => out `prefix_of` unread s ++ payload ns /\ (ending ns <> None -> (length sizes <= work ns s)%nat)
  end.
Proof.
  induction sizes as [|n sizes IH]; intros ns s Hp He; cbn [read_run].
  { split; [apply prefix_nil|cbn; lia]. }
  apply Forall_cons in Hp as [Hn Hp]. pose proof (poll_read_ok n ns s Hn He) as H.
  destruct (poll_read n ns s) as [[[[[|b out]|x]|] ns'] s']; cbn [read_step_ok] in H.
  - destruct H as (-> & -> & ->). done.
  - destruct H as (<- & <- & He' & Hw & _). specialize (IH ns' s' Hp He'). destruct (read_run sizes ns' s') as [rest []].
    + destruct IH as [-> ?]. done.
    + destruct IH as [-> ?]. done.
    + destruct IH as [IH1 IH2]. split; [by apply prefix_app|]. intros H. specialize (IH2 H). cbn [length]. lia.
  - destruct H as (-> & -> & ->). done.
  - destruct H as (<- & <- & He' & Hw). specialize (IH ns' s' Hp He'). destruct (read_run sizes ns' s') as [rest []]; try done.
    destruct IH as [IH1 IH2]. split; [done|]. intros H. destruct Hw as [[-> ?]|Hw]; [done|]. specialize (IH2 H). cbn [length]. lia.
Qed.

(** ** Writing *)

(** An attempt to write: the answers of the library, and the buffer. *)
Record WriteAttempt := mkWriteAttempt { wa_ready : poll (result unit unit); wa_send : result unit unit; wa_buf : bytes }.

Fixpoint write_run (attempts : list WriteAttempt) (sent : list Message) : list bytes * list Message :=
  match attempts with
  | [] => ([], sent)
  | a :: attempts =>
      let '(r, sent) := poll_write (wa_ready a) (wa_send a) (wa_buf a) sent in
      let '(taken, sent) := write_run attempts sent in
      (match r with Ready (Ok n) => take n (wa_buf a) :: taken | _ => taken end, sent)
  end.

Lemma write_run_ok attempts : forall sent,
  let '(taken, sent') := write_run attempts sent in
  sent' = sent ++ (Binary <$> taken) /\ (Forall (fun a => wa_buf a <> []) attempts -> Forall (fun b => b <> []) taken).
Proof.
  induction attempts as [|a attempts IH]; intros sent; cbn [write_run]; [by rewrite app_nil_r|].
  destruct (poll_write _ _ _ _) as [r sent1] eqn:Ew. specialize (IH sent1). destruct (write_run attempts sent1) as [taken sent'].
  destruct IH as [-> IH]. unfold poll_write in Ew.
  destruct (wa_ready a) as [[u|u]|]; [destruct (wa_send a) as [v|v]|..]; injection Ew as <- <-;
    (split; [|intros [Ha Hf]%Forall_cons; specialize (IH Hf)]); try done.
  - by rewrite firstn_all, fmap_cons, <- app_assoc.
  - rewrite firstn_all. by constructor.
Qed.

(** ** From end to end *)

Definition binary_of (n : poll Next) : option bytes :=
  match n with Ready (NextMsg (Binary data)) => Some data | _ => None end.
#[export] Instance Binary_inj : Inj eq eq Binary.
Proof. by intros ? ? [= ->]. Qed.
Definition terminal (n : poll Next) : Prop := ending [n] <> None.

(** The library delivers the messages [sent] in order, with pings and waits in
    between; after a [Close] or an error, nothing. *)
Definition delivers (sent : list Message) (ns : list (poll Next)) : Prop :=
  exists body tail, ns = body ++ tail /\ Forall (fun n => ~ terminal n) body /\ (Binary <$> omap binary_of body) `prefix_of` sent /\
    (tail = [] \/ exists t, tail = [t] /\ terminal t).

Lemma payload_body body tail : Forall (fun n => ~ terminal n) body ->
  payload (body ++ tail) = concat (omap binary_of body) ++ payload tail /\ ending (body ++ tail) = ending tail.
Proof.
  unfold terminal. induction 1 as [|n body Hn Hb [IH1 IH2]]; [done|].
  destruct n as [[[data| |]| |]|]; cbn in *; try done; try (by destruct Hn). by rewrite IH1, IH2, app_assoc.
Qed.

Lemma no_empty_body body tail : Forall (fun b => b <> []) (omap binary_of body) -> tail = [] \/ (exists t, tail = [t] /\ terminal t) ->
  no_empty (body ++ tail).
Proof.
  intros Hb Ht. apply Forall_app. split.
  - apply Forall_forall. intros n Hn ->. rewrite Forall_forall in Hb. apply (Hb []); [|done].
    apply list_elem_of_omap. eexists. split; [exact Hn|done].
  - destruct Ht as [->|(t & -> & Ht)]; [constructor|]. constructor; [|constructor]. intros ->. by apply Ht.
Qed.

(** C31: A WebSocket link is a byte stream. Let one end write buffers, none of
    them empty, each taken whole as one message or refused, and let the library
    deliver the messages in order, with control messages and waits in between.
    Reads of any sizes at the other end return a prefix of the bytes that were
    taken, without loss, repetition or change of order. The end of the stream or
    an error is reported only when the connection has ended, after every byte that
    arrived before; and it is reported after at most one read for each byte and
    each answer of the library. *)
Theorem ws_stream_transparent attempts sizes ns
    (Hbuf : Forall (fun a => wa_buf a <> []) attempts) (Hsizes : Forall (fun n => (0 < n)%nat) sizes)
    (Hnet : delivers (write_run attempts []).2 ns) :
  let taken := (write_run attempts []).1 in
  let '(out, e) := read_run sizes ns WsStream_new in
  out `prefix_of` concat taken /\
  match e with
  | Eof => out = payload ns /\ ending ns = Some true
  | Failed => out = payload ns /\ ending ns = Some false
  | StillOpen => ending ns = None \/ (length sizes <= length ns + length (payload ns))%nat
  end.
Proof.
  pose proof (write_run_ok attempts []) as Hw. destruct (write_run attempts []) as [taken sent]. destruct Hw as [-> Hne].
  cbn [fst snd app] in *. specialize (Hne Hbuf). destruct Hnet as (body & tail & -> & Hb & Hp & Ht).
  destruct (payload_body body tail Hb) as [Epay Eend].
  assert (payload tail = []) as Etail. { destruct Ht as [->|(t & -> & Ht)]; [done|]. by destruct t as [[[data| |]| |]|]; cbn in *. }
  rewrite Etail, app_nil_r in Epay.
  assert (exists more, taken = omap binary_of body ++ more) as [more ->].
  { destruct Hp as [more Hp]. exists (drop (length (omap binary_of body)) taken).
    apply fmap_app_inv in Hp as (k1 & k2 & E1 & E2 & ->). apply (inj (fmap Binary)) in E1 as ->. by rewrite drop_app_length. }
  apply Forall_app in Hne as [Hne _].
  pose proof (read_run_ok sizes (body ++ tail) WsStream_new Hsizes (no_empty_body _ _ Hne Ht)) as H.
  destruct (read_run sizes (body ++ tail) WsStream_new) as [out e]. cbn [unread ws_read_pos ws_read_buf drop app] in H.
  rewrite concat_app, <- Epay. destruct e; destruct H as [H1 H2].
  - subst out. split; [by apply prefix_app_r|done].
  - subst out. split; [by apply prefix_app_r|done].
  - split; [by apply prefix_app_r|]. destruct (ending (body ++ tail)) eqn:E; [|by left]. right.
    unfold work in H2. cbn in H2. specialize (H2 ltac:(done)). lia.
Qed.

(** An empty message is taken for the end of the stream, although the connection
    is open and more bytes follow. *)
Lemma empty_message_ends_stream n data ns : (0 < n)%nat ->
  read_run [n; n] (Ready (NextMsg (Binary [])) :: Ready (NextMsg (Binary data)) :: ns) WsStream_new = ([], Eof).
Proof. done. Qed.

(** ** The handshake *)

Lemma has_subprotocol_spec headers :
  has_subprotocol headers = true <->
  exists v before p after, header_get (lit "sec-websocket-protocol") headers = Some v /\ header_to_str v = Some v /\
    split_on 44 v = before ++ p :: after /\ trim p = WS_SUBPROTOCOL.
Proof.
  unfold has_subprotocol. destruct (header_get _ headers) as [v|]; cbn [mbind option_bind]; [|split; [done|by intros (? & ? & ? & ? & ? & _)]].
  unfold header_to_str at 1. destruct (forallb _ v) eqn:E.
  2: { split; [done|]. intros (w & b & p & a & [= <-] & Ht & _). unfold header_to_str in Ht. by rewrite E in Ht. }
  rewrite existsb_exists. split.
  - intros (p & Hin & Hp%bool_decide_eq_true). apply list_elem_of_In, list_elem_of_split in Hin as (b & a & Hs).
    exists v, b, p, a. split_and!; try done. unfold header_to_str. by rewrite E.
  - intros (w & b & p & a & [= <-] & _ & Hs & Hp). exists p. split; [|by apply bool_decide_eq_true].
    apply list_elem_of_In. rewrite Hs. set_solver.
Qed.

(** The handshake of a WebSocket link. The request of this client is accepted by
    this server whatever the host, port and path, except that the two paths of the
    health check are answered as such. A request of any client is accepted exactly
    if it is not for a health check and its first protocol header lists the
    subprotocol; the answer names it. *)
Theorem ws_handshake host port path key req :
  (ws_server_callback (ws_client_request host port path key) =
    if bool_decide (path = lit "/health") || bool_decide (path = lit "/healthz") then Healthy else Accepted WS_SUBPROTOCOL) /\
  (ws_server_callback req = Accepted WS_SUBPROTOCOL <->
    wq_path req <> lit "/health" /\ wq_path req <> lit "/healthz" /\ has_subprotocol (wq_headers req) = true) /\
  (contains (lit ":") host = true -> wq_authority (ws_client_request host port path key) = lit "[" ++ host ++ lit "]:" ++ show port).
Proof.
  split; [|split].
  - unfold ws_server_callback. cbn [ws_client_request wq_path wq_headers].
    replace (has_subprotocol _) with true by (by vm_compute). cbn [negb].
    destruct (bool_decide_reflect (path = [])) as [->|Hne]; [by vm_compute|done].
  - unfold ws_server_callback. destruct (bool_decide_reflect (wq_path req = lit "/health")) as [->|H1]; cbn [orb];
      [split; [done|by intros (? & _)]|].
    destruct (bool_decide_reflect (wq_path req = lit "/healthz")) as [->|H2]; [split; [done|by intros (_ & ? & _)]|].
    destruct (has_subprotocol (wq_headers req)); cbn [negb]; [done|]. split; [done|by intros (_ & _ & ?)].
  - intros H. cbn. unfold ws_authority. by rewrite H.
Qed.

(** ** Witnesses *)

Definition sample_attempts : list WriteAttempt :=
  [mkWriteAttempt (Ready (Ok tt)) (Ok tt) [1; 2; 3]; mkWriteAttempt Pending (Ok tt) [4]; mkWriteAttempt (Ready (Ok tt)) (Ok tt) [4; 5]].
Definition sample_polls : list (poll Next) :=
  [Pending; Ready (NextMsg (Binary [1; 2; 3])); Ready (NextMsg OtherMsg); Ready (NextMsg (Binary [4; 5])); Ready (NextMsg CloseMsg)].

Lemma ws_stream_transparent_witness :
  read_run (replicate 12 2%nat) sample_polls WsStream_new = ([1; 2; 3; 4; 5], Eof) /\
  [1; 2; 3; 4; 5] `prefix_of` concat (write_run sample_attempts []).1.
Proof.
  pose proof (ws_stream_transparent sample_attempts (replicate 12 2%nat) sample_polls) as H. split; [reflexivity|].
  refine (proj1 (H _ _ _)).
  - repeat constructor; discriminate.
  - apply Forall_replicate. lia.
  - exists (take 4 sample_polls), [Ready (NextMsg CloseMsg)]. split; [reflexivity|]. split; [|split].
    + repeat constructor; cbn; intros Ht; by apply Ht.
    + exists []. reflexivity.
    + right. exists (Ready (NextMsg CloseMsg)). split; [reflexivity|discriminate].
Defined.

Lemma ws_handshake_witness :
  wq_authority (ws_client_request (lit "2001:db8::1") 443 (lit "/yws") []) = lit "[2001:db8::1]:443".
Proof.
  rewrite (proj2 (proj2 (ws_handshake (lit "2001:db8::1") 443 (lit "/yws") [] (mkWsRequest [] [] [])))); by vm_compute.
Defined.
