(* ===== verification/Transport.v ===== *)
(** * Transport: opening connections

    Models how links are opened: [crates/yggdrasil/src/transport/quic.rs]
    ([quic_connect], which tries the addresses of a peer, and the tasks of
    [quic_listen] with the permits they hold) and the layers of a connection in
    [crates/yggdrasil/src/links.rs] ([listen], [wrap_incoming], [dial_stream]).
    The sockets and the TLS, QUIC and HTTP libraries answer through arguments. *)

From stdpp Require Import strings options.
From S2P Require Import Prelude.
From S2P Require Import Wire.
From S2P Require Import Ckr.
From S2P Require Import Peers.
From S2P Require Import Links.
From S2P Require Import Text.
From S2P Require Import Ws.
Open Scope Z_scope.

(** ** The addresses of a QUIC peer *)

Definition is_ipv6 (a : SocketAddr) : bool := match a with SockV6 _ _ _ _ => true | SockV4 _ _ => false end.

(** The order of [SocketAddr]: by family, address, port, flow and scope. *)
Definition sock_key (a : SocketAddr) : list Z :=
  match a with SockV4 ip port => [0; ip; port] | SockV6 ip port flowinfo scope_id => [1; ip; port; flowinfo; scope_id] end.
Definition sock_le (a b : SocketAddr) : Prop := bytes_cmp (sock_key a) (sock_key b) <> Gt.
#[export] Instance sock_le_dec a b : Decision (sock_le a b).
Proof. unfold sock_le. apply _. Defined.

(** [Vec::dedup]: equal neighbours. *)
Fixpoint dedup (l : list SocketAddr) : list SocketAddr :=
  match l with
  | a :: (b :: _) as rest => if decide (a = b) then dedup rest else a :: dedup rest
  | _ => l
  end.

Definition to_ascii_lowercase (s : str) : str := (fun c => if (65 <=? c) && (c <=? 90) then c + 32 else c) <$> s.

Definition is_unreachable_error (s : str) : bool :=
  let lower := to_ascii_lowercase s in
  contains (lit "host unreachable") lower || contains (lit "no route to host") lower || contains (lit "network is unreachable") lower.

(** [bare_host] on the host of the URL. *)
Definition bare_host (host_str : str) : str :=
  match strip_prefix (lit "[") host_str with
  | Some h => if ends_with (lit "]") h then take (length h - 1) h else host_str
  | None => host_str
  end.

(** What comes of an attempt: the socket, [connect], the handshake with its
    time-out, the stream. *)
Inductive AddrAttempt :=
| EndpointFailed (e : str) | ConnectFailed (e : str) | ConnectionFailed (e : str) | ConnectionTimedOut | StreamFailed (e : str) | Opened.

(** The loop of [quic_connect]. [attempts] is what is left of [attempt_addrs] from
    [idx] on, [attempt i a] the [i]-th attempt, on address [a]; [None] stands for
    more than [fuel] attempts. *)
Fixpoint connect_loop (fuel : nat) (attempt : nat -> SocketAddr -> AddrAttempt) (v4_addrs attempts : list SocketAddr)
    (last_err : str) (forced_v4_fallback : bool) (tried : list SocketAddr) : option (result str SocketAddr * list SocketAddr) :=
  match attempts, fuel with
  | [], _ => Some (Err last_err, tried)
  | _ :: _, O => None
  | remote_addr :: rest, S fuel =>
      let fall_back (err : str) :=
        if is_ipv6 remote_addr && negb (bool_decide (v4_addrs = [])) && is_unreachable_error err && negb forced_v4_fallback
        then connect_loop fuel attempt v4_addrs v4_addrs err true (tried ++ [remote_addr])
        else connect_loop fuel attempt v4_addrs rest err forced_v4_fallback (tried ++ [remote_addr]) in
      let next (err : str) := connect_loop fuel attempt v4_addrs rest err forced_v4_fallback (tried ++ [remote_addr]) in
      match attempt (length tried) remote_addr with
      | EndpointFailed e => next e
      | ConnectFailed e => fall_back (lit "QUIC connect: " ++ e)
      | ConnectionFailed e => fall_back (lit "QUIC connection failed: " ++ e)
      | ConnectionTimedOut => next (lit "QUIC connection timed out")
      | StreamFailed e => next (lit "QUIC open stream: " ++ e)
      | Opened => Some (Ok remote_addr, tried ++ [remote_addr])
      end
  end.

Inductive QuicError := ResolutionFailed | NoAddress | AllFailed (last_err : str) (tried : list SocketAddr).

(** The addresses in the order of the attempts. *)
Definition attempt_order (resolved : list SocketAddr) : list SocketAddr * list SocketAddr :=
  let addrs := dedup (merge_sort sock_le resolved) in
  (filter (fun a => is_ipv6 a = true) addrs, filter (fun a => is_ipv6 a = false) addrs).

(** [quic_connect]: the answer of [lookup_host]. The addresses are listed in the
    error when there was more than one. *)
Definition quic_connect (lookup : option (list SocketAddr)) (attempt : nat -> SocketAddr -> AddrAttempt)
    : option (result QuicError SocketAddr * list SocketAddr) :=
  match lookup with
  | None => Some (Err ResolutionFailed, [])
  | Some [] => Some (Err NoAddress, [])
  | Some resolved =>
      let '(v6_addrs, v4_addrs) := attempt_order resolved in
      match connect_loop (length resolved) attempt v4_addrs (v6_addrs ++ v4_addrs) (lit "no address resolved") false [] with
      | None => None
      | Some (Ok a, tried) => Some (Ok a, tried)
      | Some (Err e, tried) => Some (Err (AllFailed e (if (length tried <? 2)%nat then [] else tried)), tried)
      end
  end.

(** ** The QUIC listener

    One task per incoming connection; it holds a permit of the semaphore shared
    with the TCP listeners until the connection is over. *)

Definition QUIC_CHANNEL_SIZE : nat := 64.

Inductive QuicStage := Handshaking | AcceptingStream | Queued | Served.
#[export] Instance QuicStage_eq_dec : EqDecision QuicStage.
Proof. solve_decision. Defined.

Record QuicListener := mkQuicListener {
  ql_open : bool;
  ql_conns : gmap Z QuicStage;
  ql_queue : list Z
}.
Definition QuicListener_new : QuicListener := mkQuicListener true ∅ [].

Inductive QuicEvent :=
| QuicIncoming (id : Z)            (* [endpoint.accept()] *)
| QuicHandshake (id : Z) (ok : bool)  (* done, failed or timed out after 5 s *)
| QuicStreamOpened (id : Z)        (* [accept_bi] succeeds; handed over when the channel has room *)
| QuicStreamFailed (id : Z)        (* it fails, or nothing was handed over within 5 s *)
| QuicAccept                       (* the listener's loop takes a stream *)
| QuicOver (id : Z)                (* [handle_connection] has returned: the stream is dropped *)
| QuicClose.                       (* the endpoint is closed, the channel is dropped *)

(** A connection is dropped: its permit goes back. *)
Definition drop_conn (id : Z) (q : QuicListener) (l : Limiter) : QuicListener * Limiter :=
  (mkQuicListener (ql_open q) (delete id (ql_conns q)) (ql_queue q), limiter_done id l).

(** Everything that is not being served is dropped with the listener. *)
Definition drop_all (ids : list Z) (q : QuicListener) (l : Limiter) : QuicListener * Limiter :=
  foldl (fun s id => drop_conn id s.1 s.2) (q, l) ids.

Definition quic_step (ev : QuicEvent) (q : QuicListener) (l : Limiter) : QuicListener * Limiter :=
  match ev with
  | QuicIncoming id =>
      if negb (ql_open q) then (q, l)
      else
        let '(ok, l) := limiter_accept id l in
        if ok then (mkQuicListener true (<[id := Handshaking]> (ql_conns q)) (ql_queue q), l) else (q, l)
  | QuicHandshake id ok =>
      if decide (ql_conns q !! id = Some Handshaking) then
        if ok then (mkQuicListener (ql_open q) (<[id := AcceptingStream]> (ql_conns q)) (ql_queue q), l) else drop_conn id q l
      else (q, l)
  | QuicStreamOpened id =>
      if decide (ql_conns q !! id = Some AcceptingStream) then
        if negb (ql_open q) then drop_conn id q l
        else if (length (ql_queue q) <? QUIC_CHANNEL_SIZE)%nat
             then (mkQuicListener true (<[id := Queued]> (ql_conns q)) (ql_queue q ++ [id]), l)
             else (q, l)
      else (q, l)
  | QuicStreamFailed id =>
      if decide (ql_conns q !! id = Some AcceptingStream) then drop_conn id q l else (q, l)
  | QuicAccept =>
      match ql_queue q with
      | [] => (q, l)
      | id :: queue => (mkQuicListener (ql_open q) (<[id := Served]> (ql_conns q)) queue, l)
      end
  | QuicOver id => if decide (ql_conns q !! id = Some Served) then drop_conn id q l else (q, l)
  | QuicClose =>
      let queue := ql_queue q in
      drop_all queue (mkQuicListener false (ql_conns q) []) l
  end.

(** ** The layers of a connection *)

(** The layers a scheme asks for; a listener on [quic] is the one above. *)
Definition listen_layers (has_ws : bool) (scheme : str) : option (bool * bool) :=
  if bool_decide (scheme = lit "tcp") then Some (false, false)
  else if bool_decide (scheme = lit "tls") then Some (true, false)
  else if bool_decide (scheme = lit "ws") then (if has_ws then Some (false, true) else None)
  else if bool_decide (scheme = lit "wss") then (if has_ws then Some (true, true) else None)
  else None.

Inductive StreamKind := StreamTcp | StreamTls | StreamTlsClient | StreamWs | StreamQuic.

(** A connection: its kind, and the certificate [peer_cert] gives for it. *)
Record Stream := mkStream { st_kind : StreamKind; st_peer_cert : option bytes }.

(** How a step of the network ends. *)
Inductive timed (A : Type) := InTime (a : A) | TimedOut.
Arguments InTime {A}.
Arguments TimedOut {A}.

Inductive OpenError :=
| ConnectTimedOut | ConnectError (e : str) | NoPeerAddr (e : str) | TlsTimedOut | TlsFailed (e : str) | WsTimedOut | WsFailed (e : str) | InvalidWsUri.

(** [wrap_incoming]: TLS ends with the client's certificates, the WebSocket
    handshake as [ws] says for the request that arrived. *)
Definition wrap_incoming (use_tls use_ws : bool) (tls : result str (list bytes)) (ws : result str ()) : result OpenError Stream :=
  let with_ws (cert : option bytes) :=
    match ws with Ok _ => Ok (mkStream StreamWs cert) | Err e => Err (WsFailed e) end in
  if use_tls then
    match tls with
    | Err e => Err (TlsFailed e)
    | Ok certs => if use_ws then with_ws (head certs) else Ok (mkStream StreamTls (head certs))
    end
  else if use_ws then with_ws None
  else Ok (mkStream StreamTcp None).

(** The task of an accepted connection: the whole of [wrap_incoming] under a
    time-out, then its answer. *)
Definition incoming_task (wrapped : timed (result OpenError Stream)) : option Stream :=
  match wrapped with InTime (Ok s) => Some s | _ => None end.

Section Dial.
(** [Uri::from_str] of the [http] crate, and the name parsers of
    [rustls-pki-types]. *)
Context (uri_ok : str -> bool) (server_name_try_from ip_try_from : string -> bool).

(** [ws_client_handshake] up to the answer of the library. *)
Definition ws_dial (host : str) (port : Z) (path : str) (ws : timed (result str ())) (cert : option bytes) : result OpenError Stream :=
  let path := if bool_decide (path = []) then lit "/" else path in
  if negb (uri_ok (lit "ws://" ++ ws_authority host port ++ path)) then Err InvalidWsUri
  else match ws with
       | TimedOut => Err WsTimedOut
       | InTime (Err e) => Err (WsFailed e)
       | InTime (Ok _) => Ok (mkStream StreamWs cert)
       end.

(** [dial_stream]; [host_name] is the host as the TLS library reads it. *)
Definition dial_stream (has_ws : bool) (host : str) (port : Z) (path : str) (sni : option string) (host_name : string) (use_tls use_ws : bool)
    (tcp : timed (result str ())) (peer_addr : result str ()) (tls : timed (result str (list bytes))) (ws : timed (result str ()))
    : outcome (result OpenError Stream) :=
  match tcp with
  | TimedOut => Ret (Err ConnectTimedOut)
  | InTime (Err e) => Ret (Err (ConnectError e))
  | InTime (Ok _) =>
      match peer_addr, has_ws with
      | Err e, true => Ret (Err (NoPeerAddr e))
      | _, _ =>
          if use_tls then
            _ ← dial_server_name server_name_try_from ip_try_from sni host_name;
            match tls with
            | TimedOut => Ret (Err TlsTimedOut)
            | InTime (Err e) => Ret (Err (TlsFailed e))
            | InTime (Ok certs) =>
                Ret (if has_ws && use_ws then ws_dial host port path ws (head certs) else Ok (mkStream StreamTlsClient (head certs)))
            end
          else Ret (if has_ws && use_ws then ws_dial host port path ws None else Ok (mkStream StreamTcp None))
      end
  end.
End Dial.
