(* ===== verification/TransportFacts.v ===== *)
(** * TransportFacts: every address gets its chance, every permit comes back

    A QUIC dial tries each address of a peer at most once and leaves out none
    without a reason; connections never outnumber their permits; the two ends of a
    dial get matching layers. *)

From stdpp Require Import strings options.
From S2P Require Import Prelude.
From S2P Require Import Wire.
From S2P Require Import Ckr.
From S2P Require Import Peers.
From S2P Require Import Links.
From S2P Require Import Text.
From S2P Require Import Ws.
From S2P Require Import WsFacts.
From S2P Require Import Transport.
Open Scope Z_scope.

(** ** The order of addresses *)

Lemma bytes_cmp_le_trans a b c : bytes_cmp a b <> Gt -> bytes_cmp b c <> Gt -> bytes_cmp a c <> Gt.
Proof.
  intros H1 H2. destruct (bytes_cmp a b) eqn:E1; [apply bytes_cmp_eq in E1 as ->; done| |done].
  destruct (bytes_cmp b c) eqn:E2; [apply bytes_cmp_eq in E2 as <-; by rewrite E1| |done].
  assert (bytes_lt a c) as E by (by apply (bytes_lt_trans a b c)). by rewrite E.
Qed.

#[local] Instance sock_le_trans : Transitive sock_le.
Proof. intros a b c. apply bytes_cmp_le_trans. Qed.
#[local] Instance sock_le_total : Total sock_le.
Proof. intros a b. unfold sock_le. rewrite (bytes_cmp_antisym (sock_key a) (sock_key b)). destruct (bytes_cmp _ _); cbn; [by left..|by right]. Qed.

Lemma sock_key_inj a b : sock_key a = sock_key b -> a = b.
Proof. destruct a, b; intros H; try discriminate H; injection H; intros; by subst. Qed.

Lemma sock_le_antisym a b : sock_le a b -> sock_le b a -> a = b.
Proof.
  unfold sock_le. rewrite (bytes_cmp_antisym (sock_key a) (sock_key b)). intros H1 H2. apply sock_key_inj, bytes_cmp_eq.
  by destruct (bytes_cmp _ _).
Qed.

Lemma dedup_elem l a : a ∈ dedup l <-> a ∈ l.
Proof.
  induction l as [|b l IH]; [done|]. cbn [dedup]. destruct l as [|c l]; [done|].
  destruct (decide (b = c)) as [->|]; rewrite ?elem_of_cons, IH, ?elem_of_cons; tauto.
Qed.

Lemma dedup_nodup l : StronglySorted sock_le l -> NoDup (dedup l).
Proof.
  induction 1 as [|a l Hl IH Ha]; [constructor|]. cbn [dedup]. destruct l as [|b l]; [apply NoDup_singleton|].
  destruct (decide (a = b)) as [|Hne]; [done|]. constructor; [|done]. rewrite dedup_elem, elem_of_cons.
  intros [?|Hin]; [done|]. apply Hne. apply Forall_cons in Ha as [Hab Ha]. apply StronglySorted_inv in Hl as [_ Hb].
  rewrite Forall_forall in Hb. apply sock_le_antisym; [done|]. by apply Hb.
Qed.

Lemma length_dedup l : (length (dedup l) <= length l)%nat.
Proof. induction l as [|a l IH]; [done|]. cbn [dedup]. destruct l as [|b l]; [done|]. destruct (decide (a = b)); cbn in *; lia. Qed.

Lemma attempt_order_spec resolved : let '(v6, v4) := attempt_order resolved in
  NoDup (v6 ++ v4) /\ (forall a, a ∈ v6 <-> a ∈ resolved /\ is_ipv6 a = true) /\ (forall a, a ∈ v4 <-> a ∈ resolved /\ is_ipv6 a = false) /\
  (length (v6 ++ v4) <= length resolved)%nat.
Proof.
  unfold attempt_order. set (l := dedup (merge_sort sock_le resolved)).
  assert (forall a, a ∈ l <-> a ∈ resolved) as Hl.
  { intros a. unfold l. rewrite dedup_elem. by rewrite (merge_sort_Permutation sock_le resolved). }
  assert (NoDup l) as Hn by (apply dedup_nodup, StronglySorted_merge_sort; apply _).
  assert (forall a, a ∈ filter (fun a => is_ipv6 a = true) l <-> a ∈ resolved /\ is_ipv6 a = true) as H6
    by (intros a; rewrite list_elem_of_filter, Hl; tauto).
  assert (forall a, a ∈ filter (fun a => is_ipv6 a = false) l <-> a ∈ resolved /\ is_ipv6 a = false) as H4
    by (intros a; rewrite list_elem_of_filter, Hl; tauto).
  split_and!; [|done..|].
  - apply NoDup_app. split_and!; [by apply NoDup_filter| |by apply NoDup_filter].
    intros a [_ Ha]%H6 [_ Hb]%H4. congruence.
  - assert (length (filter (fun a => is_ipv6 a = true) l ++ filter (fun a => is_ipv6 a = false) l) = length l) as ->.
    { rewrite length_app. clear. induction l as [|a l IH]; [done|]. rewrite !filter_cons. destruct (is_ipv6 a); repeat case_decide; try done; cbn [length]; lia. }
    unfold l. etrans; [apply length_dedup|]. by rewrite (merge_sort_Permutation sock_le resolved).
Qed.

(** ** The attempts *)

(** The error of an attempt that makes the loop go on with IPv4. *)
Definition unreachable (o : AddrAttempt) : Prop :=
  match o with
  | ConnectFailed e => is_unreachable_error (lit "QUIC connect: " ++ e) = true
  | ConnectionFailed e => is_unreachable_error (lit "QUIC connection failed: " ++ e) = true
  | _ => False
  end.

Section Attempts.
Context (attempt : nat -> SocketAddr -> AddrAttempt) (v6 v4 : list SocketAddr).
Hypothesis Hv4 : Forall (fun a => is_ipv6 a = false) v4.

Definition none_opened (tried : list SocketAddr) : Prop := forall i a, tried !! i = Some a -> attempt i a <> Opened.

(** Where the loop is: in the whole list, or in the IPv4 addresses after the
    [k]-th IPv6 address was unreachable. *)
Definition at_point (forced : bool) (tried rest : list SocketAddr) : Prop :=
  if forced then exists k a p, tried = take k v6 ++ [a] ++ p /\ v4 = p ++ rest /\ v6 !! k = Some a /\ unreachable (attempt k a)
  else v6 ++ v4 = tried ++ rest.

Definition connect_spec (r : result str SocketAddr) (tried : list SocketAddr) : Prop :=
  exists forced rest, at_point forced tried rest /\
  match r with
  | Ok a => exists t, tried = t ++ [a] /\ none_opened t /\ attempt (length t) a = Opened
  | Err _ => rest = [] /\ none_opened tried
  end.

Lemma at_point_next forced tried a rest : at_point forced tried (a :: rest) -> at_point forced (tried ++ [a]) rest.
Proof.
  destruct forced; cbn [at_point]; [|intros ->; by rewrite <- app_assoc].
  intros (k & b & p & -> & Hp & Hk & Hu). exists k, b, (p ++ [a]). split_and!; [by rewrite <- app_assoc|by rewrite <- app_assoc|done|done].
Qed.

Lemma at_point_fall_back tried a rest : at_point false tried (a :: rest) -> is_ipv6 a = true -> unreachable (attempt (length tried) a) ->
  at_point true (tried ++ [a]) v4 /\ (length v4 <= length rest)%nat.
Proof using Hv4.
  cbn [at_point]. intros E Ha Hu.
  assert (v6 !! length tried = Some a) as Hk.
  { assert ((v6 ++ v4) !! length tried = Some a) as H by (rewrite E; by apply list_lookup_middle).
    apply lookup_app_Some in H as [H|[_ H]]; [done|]. rewrite Forall_forall in Hv4. apply list_elem_of_lookup_2, Hv4 in H. congruence. }
  pose proof (lookup_lt_Some _ _ _ Hk) as Hlt. split.
  - exists (length tried), a, []. cbn. split_and!; try done. rewrite <- (take_app_le v6 v4) by lia. by rewrite E, take_app_length.
  - apply (f_equal length) in E. rewrite !length_app in E. cbn in E. lia.
Qed.

Lemma none_opened_snoc tried a : none_opened tried -> attempt (length tried) a <> Opened -> none_opened (tried ++ [a]).
Proof. intros Hn Ha i b [[_ Hi]|[-> <-]]%lookup_snoc_Some; [by apply Hn|done]. Qed.

Lemma connect_loop_spec fuel : forall rest last_err forced tried,
  at_point forced tried rest -> none_opened tried -> (length rest <= fuel)%nat ->
  exists r tried', connect_loop fuel attempt v4 rest last_err forced tried = Some (r, tried') /\ connect_spec r tried'.
Proof using Hv4.
  induction fuel as [|fuel IH]; intros rest last_err forced tried Hp Hn Hf.
  { destruct rest; cbn in Hf; [|lia]. cbn. eexists _, _. split; [done|]. by exists forced, []. }
  destruct rest as [|a rest]; cbn [connect_loop].
  { eexists _, _. split; [done|]. by exists forced, []. }
  cbn in Hf. cbv zeta.
  assert (attempt (length tried) a <> Opened -> forall err,
    exists r tried', connect_loop fuel attempt v4 rest err forced (tried ++ [a]) = Some (r, tried') /\ connect_spec r tried') as Hnext.
  { intros Ho err. apply IH; [by apply at_point_next|by apply none_opened_snoc|lia]. }
  assert (forall err, (is_unreachable_error err = true -> unreachable (attempt (length tried) a)) -> attempt (length tried) a <> Opened ->
    exists r tried', (if is_ipv6 a && negb (bool_decide (v4 = [])) && is_unreachable_error err && negb forced
      then connect_loop fuel attempt v4 v4 err true (tried ++ [a])
      else connect_loop fuel attempt v4 rest err forced (tried ++ [a])) = Some (r, tried') /\ connect_spec r tried') as Hback.
  { intros err Hu Ho. destruct (is_ipv6 a) eqn:Ha; [|by apply Hnext]. destruct (negb (bool_decide (v4 = []))); [|by apply Hnext].
    destruct (is_unreachable_error err); [|by apply Hnext]. destruct forced; [by apply Hnext|]. cbn [andb negb].
    destruct (at_point_fall_back tried a rest Hp Ha (Hu eq_refl)) as [Hp' Hl]. apply IH; [done|by apply none_opened_snoc|lia]. }
  destruct (attempt (length tried) a) as [e|e|e| |e|] eqn:E; [by apply Hnext|by apply Hback|by apply Hback|by apply Hnext|by apply Hnext|].
  eexists _, _. split; [done|]. exists forced, rest. split; [by apply at_point_next|]. by exists tried.
Qed.

(** The addresses tried: some of IPv6, then some of IPv4. *)
Lemma at_point_shape forced tried rest : at_point forced tried rest ->
  exists k p, tried = take k v6 ++ p /\ p `prefix_of` v4 /\ (forced = true -> rest = [] -> p = v4).
Proof.
  destruct forced; cbn [at_point]; intros Hp.
  - destruct Hp as (k & a & p & -> & Hv & Hk & _). exists (S k), p. split_and!; [|by exists rest|].
    + by rewrite (take_S_r _ _ _ Hk), <- app_assoc.
    + intros _ ->. by rewrite app_nil_r in Hv.
  - destruct (decide (length tried <= length v6)%nat) as [Hl|Hl].
    + exists (length tried), []. rewrite app_nil_r. split_and!; [|apply prefix_nil|done].
      rewrite <- (take_app_le v6 v4) by lia. by rewrite Hp, take_app_length.
    + exists (length v6), (drop (length v6) tried). rewrite firstn_all.
      assert (tried = v6 ++ drop (length v6) tried) as Ht.
      { rewrite <- (take_drop (length v6) tried) at 1. f_equal. rewrite <- (take_app_le tried rest) by lia. by rewrite <- Hp, take_app_length. }
      split_and!; [done| |done]. exists rest. rewrite Ht in Hp. rewrite <- app_assoc in Hp. by apply app_inv_head in Hp.
Qed.

Lemma shape_nodup k p : NoDup (v6 ++ v4) -> p `prefix_of` v4 -> NoDup (take k v6 ++ p).
Proof.
  intros Hnd [q Hq]. rewrite Hq, <- (take_drop k v6), <- app_assoc in Hnd. apply NoDup_app in Hnd as (N1 & Nx & N2).
  apply NoDup_app in N2 as (_ & _ & N2). apply NoDup_app in N2 as (N2 & _ & _). apply NoDup_app. split_and!; [done| |done].
  intros a Ha Hb. apply (Nx a Ha). apply elem_of_app. right. apply elem_of_app. by left.
Qed.

Lemma shape_order k p i j a b : Forall (fun a => is_ipv6 a = true) v6 -> p `prefix_of` v4 ->
  (take k v6 ++ p) !! i = Some a -> (take k v6 ++ p) !! j = Some b -> is_ipv6 a = false -> is_ipv6 b = true -> (j < i)%nat.
Proof using Hv4.
  intros Hv6 [q Hq] Hi Hj Ha Hb. rewrite Forall_forall in Hv6, Hv4.
  apply lookup_app_Some in Hi as [Hi|[Hi _]].
  { apply lookup_take_Some in Hi as [Hi _]. apply list_elem_of_lookup_2, Hv6 in Hi. congruence. }
  apply lookup_app_Some in Hj as [Hj|[_ Hj]]; [apply lookup_lt_Some in Hj; lia|].
  apply list_elem_of_lookup_2 in Hj. specialize (Hv4 b). rewrite Hq, elem_of_app in Hv4. rewrite Hv4 in Hb by (by left). done.
Qed.

(** All of IPv4 was tried at the end, and all of IPv6 unless an address of it was
    unreachable. *)
Lemma at_point_end forced tried a : at_point forced tried [] -> a ∈ v6 ++ v4 ->
  a ∈ tried \/ a ∈ v6 /\ exists i b, tried !! i = Some b /\ b ∈ v6 /\ unreachable (attempt i b).
Proof.
  destruct forced; cbn [at_point].
  - intros (i & b & p & -> & Hv & Hi & Hu) [Ha|Ha]%elem_of_app; [|left; rewrite Hv, app_nil_r in Ha; rewrite !elem_of_app; right; right; done]. right. split; [done|].
    exists i, b. split; [|split; [by eapply list_elem_of_lookup_2|done]]. pose proof (lookup_lt_Some _ _ _ Hi).
    apply list_lookup_middle. rewrite length_take. lia.
  - rewrite app_nil_r. intros <- Ha. by left.
Qed.
End Attempts.

(** The dial of a QUIC peer. Whatever the attempts give, the loop ends; every
    address is tried at most once, IPv6 before IPv4, and only those the name
    resolved to. A success is the first attempt that opened. A failure means that
    every IPv4 address was tried and so was every IPv6 address, or the last IPv6
    address tried was reported unreachable. *)
Theorem quic_connect_tries resolved attempt (Hne : resolved <> []) :
  exists r tried, quic_connect (Some resolved) attempt = Some (r, tried) /\ NoDup tried /\
  (forall a, a ∈ tried -> a ∈ resolved) /\
  (forall i j a b, tried !! i = Some a -> tried !! j = Some b -> is_ipv6 a = false -> is_ipv6 b = true -> (j < i)%nat) /\
  match r with
  | Ok a => exists t, tried = t ++ [a] /\ none_opened attempt t /\ attempt (length t) a = Opened
  | Err _ => none_opened attempt tried /\
      forall a, a ∈ resolved -> a ∈ tried \/ is_ipv6 a = true /\
        exists i b, tried !! i = Some b /\ is_ipv6 b = true /\ unreachable (attempt i b)
  end.
Proof.
  unfold quic_connect. destruct resolved as [|x resolved'] eqn:Er; [done|]. rewrite <- Er in *. clear Hne Er x resolved'.
  pose proof (attempt_order_spec resolved) as Ho. destruct (attempt_order resolved) as [v6 v4]. destruct Ho as (Hnd & H6 & H4 & Hlen).
  assert (Forall (fun a => is_ipv6 a = true) v6) as Hv6 by (apply Forall_forall; intros a Ha; by apply H6 in Ha as [_ ?]).
  assert (Forall (fun a => is_ipv6 a = false) v4) as Hv4 by (apply Forall_forall; intros a Ha; by apply H4 in Ha as [_ ?]).
  destruct (connect_loop_spec attempt v6 v4 Hv4 (length resolved) (v6 ++ v4) (lit "no address resolved") false [])
    as (r & tried & -> & forced & rest & Hp & Hr); [done|intros i a Hi; by rewrite lookup_nil in Hi|done|].
  destruct (at_point_shape attempt v6 v4 _ _ _ Hp) as (k & p & Hsh & Hpre & _).
  assert (NoDup tried) as Hnt by (rewrite Hsh; by apply (shape_nodup v6 v4)).
  assert (forall a, a ∈ tried -> a ∈ resolved) as Hsub.
  { intros a Ha. rewrite Hsh in Ha. apply elem_of_app in Ha as [Ha|Ha].
    - apply H6. rewrite <- (take_drop k v6). set_solver.
    - apply H4. destruct Hpre as [q ->]. set_solver. }
  pose proof (fun i j a b => shape_order v6 v4 Hv4 k p i j a b Hv6 Hpre) as Hord. rewrite <- Hsh in Hord.
  destruct r as [a|e]; eexists _, _; (split; [reflexivity|]); (split; [exact Hnt|]); (split; [exact Hsub|]); (split; [exact Hord|]); [exact Hr|].
  destruct Hr as [-> Hno]. split; [done|]. intros a Ha.
  destruct (at_point_end attempt v6 v4 _ _ a Hp) as [?|[Ha6 (i & b & Hi & Hb & Hu)]]; [|by left|].
  - apply elem_of_app. rewrite H6, H4. destruct (is_ipv6 a); tauto.
  - right. split; [by apply H6|]. exists i, b. split_and!; [done|by apply H6|done].
Qed.

(** The host of a URL with an IPv6 address, and any other. *)
Lemma bare_host_spec h : bare_host (lit "[" ++ h ++ lit "]") = h /\ (head h <> Some 91 -> bare_host h = h).
Proof.
  unfold bare_host. split.
  - rewrite strip_prefix_app, (proj2 (ends_with_app _ _)) by (by exists h). rewrite length_app. cbn. by rewrite Nat.add_sub, take_app_length.
  - destruct h as [|c h]; [done|]. cbn. intros Hc. destruct c as [|c|c]; try done. repeat (destruct c as [c|c|]; try done).
Qed.

(** ** Permits *)

(** The listeners of a node: a QUIC listener and the connections of the TCP
    listeners, on one semaphore. *)
Record Net := mkNet { nt_quic : QuicListener; nt_limiter : Limiter; nt_tcp : gset Z }.
Definition Net_new : Net := mkNet QuicListener_new Limiter_new ∅.

Inductive NetEvent := NetQuic (ev : QuicEvent) | NetTcpAccept (id : Z) | NetTcpDone (id : Z).

Definition net_step (s : Net) (ev : NetEvent) : Net :=
  match ev with
  | NetQuic ev => let '(q, l) := quic_step ev (nt_quic s) (nt_limiter s) in mkNet q l (nt_tcp s)
  | NetTcpAccept id =>
      let '(ok, l) := limiter_accept id (nt_limiter s) in mkNet (nt_quic s) l (if ok then {[id]} ∪ nt_tcp s else nt_tcp s)
  | NetTcpDone id =>
      if decide (id ∈ nt_tcp s) then mkNet (nt_quic s) (limiter_done id (nt_limiter s)) (nt_tcp s ∖ {[id]}) else s
  end.

(** The connections that arrive; each is a new one. *)
Definition incoming_id (ev : NetEvent) : option Z :=
  match ev with NetQuic (QuicIncoming id) | NetTcpAccept id => Some id | _ => None end.

Record net_ok (s : Net) : Prop := mkNetOk {
  no_permits : lm_permits (nt_limiter s) + Z.of_nat (size (lm_open (nt_limiter s))) = MAX_CONCURRENT_INCOMING;
  no_range : 0 <= lm_permits (nt_limiter s);
  no_open : lm_open (nt_limiter s) = dom (ql_conns (nt_quic s)) ∪ nt_tcp s;
  no_disjoint : dom (ql_conns (nt_quic s)) ## nt_tcp s;
  no_nodup : NoDup (ql_queue (nt_quic s));
  no_queue : forall id, id ∈ ql_queue (nt_quic s) <-> ql_conns (nt_quic s) !! id = Some Queued;
  no_room : (length (ql_queue (nt_quic s)) <= QUIC_CHANNEL_SIZE)%nat;
  no_closed : ql_open (nt_quic s) = false -> ql_queue (nt_quic s) = []
}.

Lemma limiter_done_open id l : id ∈ lm_open l ->
  limiter_done id l = mkLimiter (lm_permits l + 1) (lm_open l ∖ {[id]}) /\ size (lm_open l ∖ {[id]}) = (size (lm_open l) - 1)%nat /\
  (1 <= size (lm_open l))%nat.
Proof.
  intros Hin. unfold limiter_done. rewrite bool_decide_true by done. split; [done|].
  assert (1 <= size (lm_open l))%nat.
  { rewrite <- (size_singleton (C := gset Z) id). apply subseteq_size. set_solver. }
  by rewrite size_difference, size_singleton by set_solver.
Qed.

(** A QUIC connection that is not in the queue goes. *)
Lemma drop_conn_ok id q l tcp : net_ok (mkNet q l tcp) -> id ∈ dom (ql_conns q) -> id ∉ ql_queue q ->
  net_ok (mkNet (drop_conn id q l).1 (drop_conn id q l).2 tcp).
Proof.
  intros [H1 H2 H3 H4 H5 H6 H7 H8] Hin Hq. cbn [nt_quic nt_limiter nt_tcp] in *. unfold drop_conn. cbn [fst snd].
  destruct (limiter_done_open id l) as (-> & Hs & Hp); [set_solver|].
  split; cbn [nt_quic nt_limiter nt_tcp lm_permits lm_open ql_open ql_conns ql_queue]; try done; try lia.
  - rewrite H3, dom_delete_L. set_solver.
  - rewrite dom_delete_L. set_solver.
  - intros x. rewrite H6, lookup_delete_Some. split; [|by intros [_ ?]]. intros Hx. split; [|done]. intros ->. by apply Hq, H6.
Qed.

(** The next of the queue goes with the listener. *)
Lemma drop_queued_ok id queue q l tcp : net_ok (mkNet (mkQuicListener true (ql_conns q) (id :: queue)) l tcp) ->
  net_ok (mkNet (mkQuicListener true (delete id (ql_conns q)) queue) (limiter_done id l) tcp).
Proof.
  intros [H1 H2 H3 H4 H5 H6 H7 H8]. cbn [nt_quic nt_limiter nt_tcp ql_conns ql_queue] in *.
  assert (ql_conns q !! id = Some Queued) as Hin by (apply H6; set_solver).
  apply NoDup_cons in H5 as [Hni H5]. destruct (limiter_done_open id l) as (-> & Hs & Hp).
  { rewrite H3. apply elem_of_union. left. by apply elem_of_dom. }
  split; cbn [nt_quic nt_limiter nt_tcp lm_permits lm_open ql_open ql_conns ql_queue] in *; try done; try lia.
  - rewrite H3, dom_delete_L. apply elem_of_dom_2 in Hin. set_solver.
  - rewrite dom_delete_L. set_solver.
  - intros x. rewrite lookup_delete_Some, <- H6, elem_of_cons. split; [|naive_solver]. intros Hx. split; [|tauto]. by intros ->.
  - cbn in H7. lia.
Qed.

Lemma drop_all_ok queue : forall q l tcp, net_ok (mkNet (mkQuicListener true (ql_conns q) queue) l tcp) ->
  net_ok (mkNet (drop_all queue (mkQuicListener false (ql_conns q) []) l).1 (drop_all queue (mkQuicListener false (ql_conns q) []) l).2 tcp).
Proof.
  induction queue as [|id queue IH]; intros q l tcp H.
  { destruct H as [H1 H2 H3 H4 H5 H6 H7 H8]. by split. }
  apply drop_queued_ok in H. unfold drop_all. cbn [foldl fst snd drop_conn ql_open ql_conns ql_queue].
  apply (IH (mkQuicListener false (delete id (ql_conns q)) []) (limiter_done id l) tcp) in H. exact H.
Qed.

(** A stage changes outside the queue. *)
Lemma set_stage_ok id st st' q l tcp : net_ok (mkNet q l tcp) -> ql_conns q !! id = Some st -> st <> Queued -> st' <> Queued ->
  net_ok (mkNet (mkQuicListener (ql_open q) (<[id := st']> (ql_conns q)) (ql_queue q)) l tcp).
Proof.
  intros [H1 H2 H3 H4 H5 H6 H7 H8] Hst Hn Hn'. assert (id ∈ dom (ql_conns q)) as Hin by (by apply elem_of_dom_2 in Hst).
  assert (dom (<[id := st']> (ql_conns q)) = dom (ql_conns q)) as Hd by (rewrite dom_insert_L; set_solver).
  cbn [nt_quic nt_limiter nt_tcp] in *. split; cbn [nt_quic nt_limiter nt_tcp ql_open ql_conns ql_queue]; rewrite ?Hd; try done.
  intros x. rewrite H6. destruct (decide (x = id)) as [->|]; [|by rewrite lookup_insert_ne]. rewrite lookup_insert_eq, Hst.
  split; by intros [= ->].
Qed.

Lemma accept_ok id q l tcp : net_ok (mkNet q l tcp) -> id ∉ lm_open l -> 0 < lm_permits l ->
  lm_permits l - 1 + Z.of_nat (size ({[id]} ∪ lm_open l)) = MAX_CONCURRENT_INCOMING.
Proof. intros H Hf Hp. pose proof (no_permits _ H) as E. cbn in E. rewrite size_union, size_singleton by set_solver. lia. Qed.

Lemma quic_step_ok ev q l tcp : net_ok (mkNet q l tcp) -> (forall id, incoming_id (NetQuic ev) = Some id -> id ∉ lm_open l) ->
  net_ok (mkNet (quic_step ev q l).1 (quic_step ev q l).2 tcp).
Proof.
  intros H Hf. pose proof H as [H1 H2 H3 H4 H5 H6 H7 H8]. cbn [nt_quic nt_limiter nt_tcp] in *. destruct ev as [id|id ok|id|id| |id|]; cbn [quic_step].
  - destruct (ql_open q) eqn:Ho; cbn [negb]; [|done]. specialize (Hf id eq_refl). unfold limiter_accept.
    destruct (Z.ltb_spec 0 (lm_permits l)) as [Hp|Hp]; [|done].
    split; cbn [nt_quic nt_limiter nt_tcp lm_permits lm_open ql_open ql_conns ql_queue fst snd]; try done.
    + by apply (accept_ok id q l tcp).
    + lia.
    + rewrite dom_insert_L. set_solver.
    + rewrite dom_insert_L. set_solver.
    + intros x. rewrite H6. destruct (decide (x = id)) as [->|]; [|by rewrite lookup_insert_ne].
      rewrite lookup_insert_eq. split; [|done]. intros Hx%elem_of_dom_2. set_solver.
  - destruct (decide _) as [Hs|]; [|done]. destruct ok; [by apply (set_stage_ok id Handshaking)|].
    apply drop_conn_ok; [done|by apply elem_of_dom_2 in Hs|]. rewrite H6. congruence.
  - destruct (decide _) as [Hs|]; [|done].
    assert (id ∉ ql_queue q) as Hnq by (rewrite H6; congruence). assert (id ∈ dom (ql_conns q)) as Hd by (by apply elem_of_dom_2 in Hs).
    destruct (ql_open q) eqn:Ho; cbn [negb]; [|by apply drop_conn_ok].
    destruct (Nat.ltb_spec (length (ql_queue q)) QUIC_CHANNEL_SIZE); [|done].
    split; cbn [nt_quic nt_limiter nt_tcp lm_permits lm_open ql_open ql_conns ql_queue fst snd]; try done.
    + rewrite dom_insert_L. set_solver.
    + rewrite dom_insert_L. set_solver.
    + apply NoDup_app. split_and!; [done|set_solver|apply NoDup_singleton].
    + intros x. rewrite elem_of_app, list_elem_of_singleton, H6. destruct (decide (x = id)) as [->|].
      * rewrite lookup_insert_eq. tauto.
      * rewrite lookup_insert_ne by done. tauto.
    + rewrite length_app. cbn. lia.
  - destruct (decide _) as [Hs|]; [|done]. apply drop_conn_ok; [done|by apply elem_of_dom_2 in Hs|]. rewrite H6. congruence.
  - destruct (ql_queue q) as [|id queue] eqn:Eq; [done|]. apply NoDup_cons in H5 as [Hni H5].
    assert (ql_conns q !! id = Some Queued) as Hin by (apply H6; set_solver). assert (id ∈ dom (ql_conns q)) as Hd by (by apply elem_of_dom_2 in Hin).
    split; cbn [nt_quic nt_limiter nt_tcp lm_permits lm_open ql_open ql_conns ql_queue fst snd]; try done.
    + rewrite dom_insert_L. set_solver.
    + rewrite dom_insert_L. set_solver.
    + intros x. destruct (decide (x = id)) as [->|Hne]; [rewrite lookup_insert_eq; by split|].
      rewrite lookup_insert_ne, <- H6, elem_of_cons by done. tauto.
    + cbn in H7. lia.
    + by intros ?%H8.
  - destruct (decide _) as [Hs|]; [|done]. apply drop_conn_ok; [done|by apply elem_of_dom_2 in Hs|]. rewrite H6. congruence.
  - apply drop_all_ok. by split.
Qed.

Lemma net_step_ok s ev : net_ok s -> (forall id, incoming_id ev = Some id -> id ∉ lm_open (nt_limiter s)) -> net_ok (net_step s ev).
Proof.
  destruct s as [q l tcp]. intros H Hf. destruct ev as [ev|id|id]; cbn [net_step nt_quic nt_limiter nt_tcp] in *.
  - pose proof (quic_step_ok ev q l tcp H Hf) as H'. by destruct (quic_step ev q l).
  - specialize (Hf id eq_refl). unfold limiter_accept. destruct (Z.ltb_spec 0 (lm_permits l)) as [Hp|]; [|done].
    pose proof (accept_ok id q l tcp H Hf Hp). destruct H as [H1 H2 H3 H4 H5 H6 H7 H8]. cbn [nt_quic nt_limiter nt_tcp] in *.
    split; cbn [nt_quic nt_limiter nt_tcp lm_permits lm_open]; try done; [lia|set_solver|set_solver].
  - destruct (decide (id ∈ tcp)) as [Hin|]; [|done]. destruct H as [H1 H2 H3 H4 H5 H6 H7 H8]. cbn [nt_quic nt_limiter nt_tcp] in *.
    destruct (limiter_done_open id l) as (-> & Hs & Hp); [set_solver|].
    split; cbn [nt_quic nt_limiter nt_tcp lm_permits lm_open]; try done; try lia; set_solver.
Qed.

Lemma limiter_done_sub id l : lm_open (limiter_done id l) ⊆ lm_open l.
Proof. unfold limiter_done. case_bool_decide; cbn; set_solver. Qed.

Lemma drop_all_sub ids : forall q l, lm_open (drop_all ids q l).2 ⊆ lm_open l.
Proof.
  induction ids as [|id ids IH]; intros q l; [done|]. unfold drop_all. cbn [foldl drop_conn fst snd].
  etrans; [apply IH|apply limiter_done_sub].
Qed.

Lemma net_step_open s ev x : x ∈ lm_open (nt_limiter (net_step s ev)) -> x ∈ lm_open (nt_limiter s) \/ incoming_id ev = Some x.
Proof.
  assert (forall id l, x ∈ lm_open (limiter_done id l) -> x ∈ lm_open l) as Hd by (intros id l; apply limiter_done_sub).
  assert (forall id l, x ∈ lm_open (limiter_accept id l).2 -> x ∈ lm_open l \/ Some id = Some x) as Ha.
  { intros id l. unfold limiter_accept. destruct (0 <? lm_permits l); cbn; [|tauto]. intros [->%elem_of_singleton|?]%elem_of_union; tauto. }
  destruct s as [q l tcp], ev as [ev|id|id]; cbn [net_step nt_quic nt_limiter nt_tcp incoming_id].
  - intros Hx. assert (x ∈ lm_open (quic_step ev q l).2) as Hq by (by destruct (quic_step ev q l)). clear Hx.
    destruct ev as [id|id ok|id|id| |id|]; cbn [quic_step] in Hq.
    + specialize (Ha id l). destruct (ql_open q); cbn [negb] in Hq; [|by left]. destruct (limiter_accept id l) as [[] l']; auto.
    + destruct (decide _); [destruct ok; [by left|left; by apply (Hd id)]|by left].
    + destruct (decide _); [|by left]. destruct (ql_open q); cbn [negb] in Hq; [|left; by apply (Hd id)].
      destruct (_ <? _)%nat; by left.
    + destruct (decide _); [left; by apply (Hd id)|by left].
    + left. by destruct (ql_queue q).
    + destruct (decide _); [left; by apply (Hd id)|by left].
    + left. by apply drop_all_sub in Hq.
  - specialize (Ha id l). destruct (limiter_accept id l). exact Ha.
  - destruct (decide _); [|by left]. left. by apply (Hd id).
Qed.

(** The permits for incoming connections. Over any interleaving of TCP and QUIC
    connections with their failures, time-outs, hand-overs and ends, and with the
    closing of the QUIC listener, at most 350 connections are open, and the free
    permits are exactly the rest: none is lost and none is returned twice. Streams
    that wait to be taken are each in the channel once, at most 64 of them, and none
    is left behind when the listener has been closed. *)
Theorem incoming_permits evs (Hnew : NoDup (omap incoming_id evs)) :
  let s := foldl net_step Net_new evs in
  let open := lm_open (nt_limiter s) in
  lm_permits (nt_limiter s) = MAX_CONCURRENT_INCOMING - Z.of_nat (size open) /\ 0 <= lm_permits (nt_limiter s) /\
  open = dom (ql_conns (nt_quic s)) ∪ nt_tcp s /\
  NoDup (ql_queue (nt_quic s)) /\ (length (ql_queue (nt_quic s)) <= 64)%nat /\
  (forall id, id ∈ ql_queue (nt_quic s) <-> ql_conns (nt_quic s) !! id = Some Queued) /\
  (ql_open (nt_quic s) = false -> ql_queue (nt_quic s) = []).
Proof.
  cbv zeta. enough (net_ok (foldl net_step Net_new evs) /\
    forall x, x ∈ lm_open (nt_limiter (foldl net_step Net_new evs)) -> x ∈ omap incoming_id evs) as [[H1 H2 H3 H4 H5 H6 H7 H8] _].
  { split_and!; [lia|done..]. }
  induction evs as [|ev evs IH] using rev_ind.
  { split; [|cbn; set_solver]. split; cbn; try done; try set_solver; apply Nat.le_0_l. }
  rewrite omap_app in Hnew |- *. apply NoDup_app in Hnew as (Hn & Hx & _). destruct (IH Hn) as [Hok Hsub]. clear IH.
  rewrite foldl_app. cbn [foldl]. split.
  - apply net_step_ok; [done|]. intros id Hid Hin. apply (Hx id); [by apply Hsub|]. cbn [omap list_omap]. rewrite Hid. set_solver.
  - intros x [Hin|Hid]%net_step_open; apply elem_of_app; [left; by apply Hsub|right]. cbn [omap list_omap]. rewrite Hid. set_solver.
Qed.

(** ** Both ends of a dial *)

(** A dial meets its listener. With one scheme at both ends, when the connection
    and the TLS handshake work, the name is one that TLS accepts and the HTTP
    library takes the URI, the two ends get streams of matching kinds: plain, TLS
    with each side holding the certificate of the other, or WebSocket over the one
    or the other, provided the path is not that of a health check. *)
Theorem dial_meets_listener has_ws scheme use_tls use_ws uri_ok name_ok ip_ok host port path sni host_name client_cert server_cert
    (Hscheme : listen_layers has_ws scheme = Some (use_tls, use_ws))
    (Hname : name_ok (default host_name sni) = true)
    (Huri : uri_ok (lit "ws://" ++ ws_authority host port ++ (if bool_decide (path = []) then lit "/" else path)) = true)
    (Hpath : path <> lit "/health" /\ path <> lit "/healthz") :
  let ws := match ws_server_callback (ws_client_request host port path []) with Accepted _ => Ok () | _ => Err [] end in
  exists kind kind',
    dial_stream uri_ok name_ok ip_ok has_ws host port path sni host_name use_tls use_ws
      (InTime (Ok ())) (Ok ()) (InTime (Ok [server_cert])) (InTime ws) = Ret (Ok (mkStream kind (if use_tls then Some server_cert else None))) /\
    incoming_task (InTime (wrap_incoming use_tls use_ws (Ok [client_cert]) ws)) =
      Some (mkStream kind' (if use_tls then Some client_cert else None)) /\
    (kind = StreamWs <-> kind' = StreamWs) /\ (kind = StreamTcp <-> kind' = StreamTcp) /\ (kind = StreamTlsClient <-> kind' = StreamTls).
Proof.
  assert (use_ws = true -> has_ws = true) as Hw.
  { unfold listen_layers in Hscheme. repeat case_bool_decide; destruct has_ws; naive_solver. }
  assert (ws_server_callback (ws_client_request host port path []) = Accepted WS_SUBPROTOCOL) as ->.
  { unfold ws_server_callback. cbn [ws_client_request wq_path wq_headers]. replace (has_subprotocol _) with true by (by vm_compute).
    destruct (bool_decide_reflect (path = [])) as [->|]; [by vm_compute|]. rewrite !bool_decide_false by tauto. done. }
  cbv zeta. unfold dial_stream, ws_dial, wrap_incoming, dial_server_name. rewrite Hname, Huri. cbn [negb].
  destruct use_ws; [rewrite Hw by done|rewrite andb_false_r]; destruct use_tls; cbn; eexists _, _; (split; [reflexivity|]); (split; [reflexivity|]); done.
Qed.

(** The host of a URL with an IPv6 address has brackets already; the authority of
    the WebSocket request gets another pair. *)
Lemma ws_ipv6_doubly_bracketed ip port : contains (lit ":") ip = true ->
  ws_authority (lit "[" ++ ip ++ lit "]") port = lit "[[" ++ ip ++ lit "]]:" ++ show port.
Proof.
  intros H. unfold ws_authority.
  assert (contains (lit ":") (lit "[" ++ ip ++ lit "]") = true) as ->.
  { cbn [lit fmap list_fmap String.list_ascii_of_string app contains]. apply orb_true_iff. right.
    induction ip as [|c ip IH]; [done|]. cbn [app contains] in *. apply orb_true_iff in H as [H|H]; apply orb_true_iff; [left|right; by apply IH].
    unfold starts_with in *. cbn [strip_prefix lit fmap list_fmap String.list_ascii_of_string app] in *. by destruct (_ =? c). }
  cbn. by rewrite <- app_assoc.
Qed.

(** ** Witnesses *)

Definition sample_addrs : list SocketAddr := [SockV4 7 443; SockV6 9 443 0 0; SockV6 8 443 0 0; SockV4 7 443].
Definition sample_attempt (i : nat) (a : SocketAddr) : AddrAttempt :=
  match a with SockV6 8 _ _ _ => ConnectFailed (lit "Network is unreachable (os error 101)") | SockV6 _ _ _ _ => Opened | SockV4 _ _ => ConnectionTimedOut end.

Lemma quic_connect_tries_witness :
  quic_connect (Some sample_addrs) sample_attempt =
    Some (Err (AllFailed (lit "QUIC connection timed out") [SockV6 8 443 0 0; SockV4 7 443]), [SockV6 8 443 0 0; SockV4 7 443]) /\
  NoDup [SockV6 8 443 0 0; SockV4 7 443].
Proof.
  split; [by vm_compute|].
  destruct (quic_connect_tries sample_addrs sample_attempt) as (r & tried & E & N & _); [discriminate|].
  vm_compute in E. injection E as _ E. rewrite E. exact N.
Defined.

Definition sample_events : list NetEvent :=
  [NetTcpAccept 1; NetQuic (QuicIncoming 2); NetQuic (QuicIncoming 3); NetQuic (QuicHandshake 2 true); NetQuic (QuicStreamOpened 2);
   NetQuic (QuicHandshake 3 false); NetQuic QuicClose].

Lemma incoming_permits_witness : lm_permits (nt_limiter (foldl net_step Net_new sample_events)) = 349.
Proof.
  destruct (incoming_permits sample_events) as (E & _).
  - cbn. apply (bool_decide_unpack _). by vm_compute.
  - cbv zeta in E. rewrite E. by vm_compute.
Defined.

Lemma dial_meets_listener_witness : exists kind kind',
  dial_stream (fun _ => true) (fun _ => true) (fun _ => false) true (lit "a.example") 443 (lit "/yws") None "a.example" true true
    (InTime (Ok ())) (Ok ()) (InTime (Ok [[1]])) (InTime (Ok ())) = Ret (Ok (mkStream kind (Some [1]))) /\
  incoming_task (InTime (wrap_incoming true true (Ok [[2]]) (Ok ()))) = Some (mkStream kind' (Some [2])).
Proof.
  destruct (dial_meets_listener true (lit "wss") true true (fun _ => true) (fun _ => true) (fun _ => false) (lit "a.example") 443 (lit "/yws")
    None "a.example" [2] [1]) as (kind & kind' & E & E' & _).
  - by vm_compute.
  - reflexivity.
  - reflexivity.
  - split; discriminate.
  - exists kind, kind'. vm_compute in E, E'. split; [|exact E']. vm_compute. exact E.
Defined.
