(* ===== verification/PeerLife.v ===== *)
(** * PeerLife: a link from its connection to its end

    Models [handle_conn_with_id] of [crates/ironwood/src/core.rs] as it runs
    beside the router actor: a link is entered into the table of peers, then
    announced to the router over the actor's channel, served by a reader and a
    writer task, and taken out by both of them at their end ([peer_reader],
    [peer_writer] of [peers.rs]), each of which first tells the router and then
    cleans the table. Between any two of these steps other links, the router and
    the tasks may run, and the caller may drop the future of the connection. The
    channel is bounded: a message that finds it full waits in a task of its own
    ([RouterHandle::send]) and may be overtaken by later ones. *)

From S2P Require Import Prelude.
From S2P Require Import Wire.
From S2P Require Import Bloom.
From S2P Require Import Crypto.
From S2P Require Import Traffic.
From S2P Require Import Pathfinder.
From S2P Require Import Tree.
From S2P Require Import Router.
From S2P Require Import RouterFacts.
From S2P Require Import Actor.
From S2P Require Import RouterInv.
From S2P Require Import RouterTree.
From S2P Require Import Peers.
From S2P Require Import Conn.
From stdpp Require Import options.
Open Scope Z_scope.

(** ** The router's links *)

(** The entry of a link. *)
Definition entry_at {DK : Dalek} (r : Router) (key : PublicKey) (id : PeerId) : option PeerEntry :=
  rt_peers r !! key ≫= fun m => m !! id.

(** What a message makes of the entry. *)
Definition entry_after (key : PublicKey) (id : PeerId) (o : option PeerEntry) (msg : RouterMsg) : option PeerEntry :=
  match msg with
  | MsgAddPeer e => if bool_decide (pe_key e = key /\ pe_id e = id) then Some e else o
  | MsgRemovePeer i k _ => if bool_decide (k = key /\ i = id) then None else o
  | _ => o
  end.

Section Frame.
Context {DK : Dalek} {HO : HashOrder} {EN : Entropy} (murmur3_x64_128 : bytes -> Z -> option Z).
Implicit Types r : Router.

Lemma update_peers r ann now : rt_peers (update r ann now).2 = rt_peers r.
Proof. unfold update. by destruct (update_infos _ _) as [[] infos]. Qed.

Lemma mark_sent_peers r pk k : rt_peers (mark_sent r pk k) = rt_peers r.
Proof. done. Qed.

Lemma send_reqs_peers r : rt_peers (send_reqs r).2 = rt_peers r.
Proof.
  unfold send_reqs. assert (forall l acts r1, rt_peers (foldl send_req_to (acts, r1) l).2 = rt_peers r1) as Hf.
  { induction l as [|p l IH]; intros acts r1; [done|]. cbn [foldl].
    assert (rt_peers (send_req_to (acts, r1) p).2 = rt_peers r1) as Hp by (by destruct p).
    destruct (send_req_to (acts, r1) p) as [acts2 r2]. by rewrite IH. }
  by rewrite Hf.
Qed.

Lemma become_root_peers r now : rt_peers (become_root r now).2 = rt_peers r.
Proof. unfold become_root. destruct (new_req r) as [q r1] eqn:E. rewrite update_peers. unfold new_req in E. by injection E as <- <-. Qed.

Lemma fix_tree_peers r now : rt_peers (fix_tree r now).2 = rt_peers r.
Proof.
  unfold fix_tree. destruct (select_parent r) as [best_root best_parent]. destruct (_ || _ || _ || _); [|done].
  match goal with |- context [let '(_, _) := ?x in _] => assert (rt_peers x.2 = rt_peers r) as Hx end.
  { destruct (rt_responses r !! best_parent); [|done]. case_decide; [|done]. apply update_peers. }
  match goal with |- context [let '(_, _) := ?x in _] => destruct x as [[] r1] end; simpl in Hx.
  - by rewrite send_reqs_peers.
  - destruct (rt_do_root2 r1).
    + pose proof (become_root_peers r1 now) as Hb. destruct (become_root r1 now) as [b r2]. simpl in Hb.
      rewrite send_reqs_peers. simpl. congruence.
    + by destruct (negb _).
Qed.

Lemma expire_peers r now : rt_peers (expire_infos r now) = rt_peers r.
Proof.
  unfold expire_infos. generalize ((List.filter (fun '(k, t) =>
    if decide (k = self_key_of r) then rt_router_refresh r <=? elapsed now t
    else rt_router_timeout r <=? elapsed now t) (map_iter (rt_info_times r))).*1). intros l. revert r.
  induction l as [|k l IH]; intros r; [done|]. simpl. rewrite IH. unfold expire_one. by case_decide.
Qed.

Lemma do_maintenance_peers now unix_now r acts r' : router_inv r ->
  do_maintenance murmur3_x64_128 now unix_now r = Ret (acts, r') -> rt_peers r' = rt_peers r.
Proof.
  intros I. destruct (do_maintenance_tree murmur3_x64_128 now unix_now r I) as (acts0 & r1 & r0 & -> & _ & _ & _ & _ & _ & T & Hp).
  intros [= <- <-]. by rewrite (st_peers _ _ T), fix_tree_peers.
Qed.

Lemma add_peer_peers r e :
  rt_peers (add_peer r e).2 = <[pe_key e := <[pe_id e := e]> (default ∅ (rt_peers r !! pe_key e))]> (rt_peers r).
Proof.
  unfold add_peer.
  match goal with |- context [let '(_, _) := ?x in _] => assert (rt_peers x.2 =
    match rt_peers r !! pe_key e with None => <[pe_key e := ∅]> (rt_peers r) | Some _ => rt_peers r end) as Hx
    by (by destruct (rt_peers r !! pe_key e)) end.
  match goal with |- context [let '(_, _) := ?x in _] => destruct x as [acts r1] end. simpl in Hx.
  assert (forall r2, rt_peers r2 = alter (insert (pe_id e) e) (pe_key e) (rt_peers r1) ->
    rt_peers r2 = <[pe_key e := <[pe_id e := e]> (default ∅ (rt_peers r !! pe_key e))]> (rt_peers r)) as Hgoal.
  2: { apply Hgoal. match goal with |- context [rt_requests ?q !! pe_key e] => by destruct (rt_requests q !! pe_key e) end. }
  intros r2 ->. rewrite Hx. apply map_eq. intros k. destruct (decide (k = pe_key e)) as [->|Hne].
  - rewrite lookup_alter_eq, lookup_insert_eq. destruct (rt_peers r !! pe_key e) as [m|] eqn:E; [by rewrite E|].
    by rewrite lookup_insert_eq.
  - rewrite lookup_alter_ne, lookup_insert_ne by done. destruct (rt_peers r !! pe_key e); [done|]. by rewrite lookup_insert_ne.
Qed.

Lemma remove_peer_entries r pid k port key id :
  entry_at (remove_peer r pid k port).2 key id = if bool_decide (k = key /\ pid = id) then None else entry_at r key id.
Proof.
  clear murmur3_x64_128 EN. unfold remove_peer, entry_at. simpl. destruct (rt_peers r !! k) as [m|] eqn:Hm.
  - case_decide as Hd; simpl.
    + destruct (decide (k = key)) as [->|Hne]; [|by rewrite lookup_delete_ne, bool_decide_false by naive_solver].
      rewrite lookup_delete_eq, Hm. simpl. case_bool_decide as Hb; [done|].
      assert (delete pid m !! id = None) as Hi by (by rewrite Hd). by rewrite lookup_delete_ne in Hi by naive_solver.
    + destruct (decide (k = key)) as [->|Hne]; [|by rewrite lookup_insert_ne, bool_decide_false by naive_solver].
      rewrite lookup_insert_eq, Hm. simpl. case_bool_decide as Hb; [destruct Hb as [_ ->]; by rewrite lookup_delete_eq|].
      by rewrite lookup_delete_ne by naive_solver.
  - simpl. case_bool_decide as Hb; [|done]. destruct Hb as [<- _]. by rewrite Hm.
Qed.

Lemma handle_response_peers r id key res rtt : rt_peers (handle_response r id key res rtt) = rt_peers r.
Proof.
  unfold handle_response. set (r1 := if negb (rtt =? 0) then _ else r). assert (rt_peers r1 = rt_peers r) as H1
    by (unfold r1; by destruct (negb _)). clearbody r1.
  set (r2 := if _ && _ then _ else r1). assert (rt_peers r2 = rt_peers r) as H2 by (unfold r2; by destruct (_ && _)). clearbody r2.
  by destruct (_ && _).
Qed.

Lemma handle_announce_peers r id key ann now : rt_peers (handle_announce r id key ann now).2 = rt_peers r.
Proof.
  unfold handle_announce. pose proof (update_peers r ann now) as Hu. destruct (update r ann now) as [[] r1]; simpl in Hu.
  - simpl. by case_decide.
  - destruct (rt_infos r1 !! ra_key ann); [|done]. by case_decide.
Qed.

(** A message that is not about links leaves them alone. *)
Lemma other_msg_peers now unix_now r msg acts r' : router_inv r ->
  (forall e, msg <> MsgAddPeer e) -> (forall i k p, msg <> MsgRemovePeer i k p) ->
  handle_router_msg murmur3_x64_128 now unix_now r msg = Ret (acts, r') -> rt_peers r' = rt_peers r.
Proof.
  intros I Hadd Hrem. pose proof (ri_cache r I) as Hc.
  assert (forall r0 r', routing_only r0 r' -> rt_peers r' = rt_peers r0) as Hro by (by intros ? ? [-> _]).
  destruct msg as [e|i k p|pid k req|pid k res rtt|pid k ann|k f|t|t|k l|k n|b|ok dest| |dest]; cbn [handle_router_msg];
    [by destruct (Hadd e)|by destruct (Hrem i k p)|..].
  - destruct (_ ≫= _); by intros [= <- <-].
  - intros [= <- <-]. apply handle_response_peers.
  - intros [= E]. pose proof (handle_announce_peers r pid k ann now) as Hp. rewrite E in Hp. exact Hp.
  - by intros [= <- <-].
  - intros [= E]. pose proof (Hro _ _ (route_traffic_routing murmur3_x64_128 now unix_now r t Hc)) as Hp.
    unfold handle_traffic in E. rewrite E in Hp. exact Hp.
  - intros [= E]. pose proof (Hro _ _ (send_traffic_routing murmur3_x64_128 now unix_now r t Hc)) as Hp. rewrite E in Hp. exact Hp.
  - intros [= E]. assert (routing_only r (handle_lookup murmur3_x64_128 now unix_now r k l).2) as Hp%Hro; [|by rewrite E in Hp].
    unfold handle_lookup. destruct (negb _); [by apply routing_only_refl|]. apply lookup_routing; [apply route_traffic_routing|done].
  - intros [= E]. assert (routing_only r (handle_notify murmur3_x64_128 now unix_now r n).2) as Hp%Hro; [|by rewrite E in Hp].
    apply notify_routing; [apply route_traffic_routing|done].
  - intros [= E]. assert (routing_only r (handle_broken murmur3_x64_128 now unix_now r b).2) as Hp%Hro; [|by rewrite E in Hp].
    apply broken_routing; [apply route_traffic_routing|done].
  - intros [= E].
    match type of E with send_traffic _ _ _ ?q ?t = _ => pose proof (Hro _ _ (send_traffic_routing murmur3_x64_128 now unix_now q t Hc)) as Hp end.
    rewrite E in Hp. exact Hp.
  - intros E. etransitivity; [eapply do_maintenance_peers; [|exact E]; by apply force_refresh_inv|done].
  - intros [= E]. pose proof (Hro _ _ (force_lookup_routing murmur3_x64_128 now unix_now r dest Hc)) as Hp. rewrite E in Hp. exact Hp.
Qed.

(** Each message changes the links as [entry_after] says. *)
Lemma handle_router_msg_entries now unix_now r msg acts r' key id : router_inv r ->
  handle_router_msg murmur3_x64_128 now unix_now r msg = Ret (acts, r') ->
  entry_at r' key id = entry_after key id (entry_at r key id) msg.
Proof.
  intros I E. assert (rt_peers r' = rt_peers r -> entry_at r' key id = entry_at r key id) as Hsame by (unfold entry_at; by intros ->).
  destruct msg as [e|i k p|pid k req|pid k res rtt|pid k ann|k f|t|t|k l|k n|b|ok dest| |dest];
    [| |apply Hsame; eapply (other_msg_peers now unix_now r _ acts r' I); [| |exact E]; intros; discriminate..]; cbn [entry_after handle_router_msg] in *; injection E as E.
  - assert (rt_peers r' = rt_peers (add_peer r e).2) as Hp by (by rewrite E). unfold entry_at. rewrite Hp, add_peer_peers.
    destruct (decide (pe_key e = key)) as [<-|Hne].
    + rewrite lookup_insert_eq. simpl. destruct (decide (pe_id e = id)) as [<-|Hi].
      * rewrite lookup_insert_eq. case_bool_decide as Hb; [done|]. by destruct Hb.
      * rewrite lookup_insert_ne, bool_decide_false by naive_solver. by destruct (rt_peers r !! pe_key e).
    + by rewrite lookup_insert_ne, bool_decide_false by naive_solver.
  - rewrite <- (remove_peer_entries r i k p key id). by rewrite E.
Qed.
End Frame.

(** ** Links and their tasks *)

(** A task of a link: at work, between telling the router and cleaning the table,
    or over. *)
Inductive TaskState := TAlive | TSent | TDone.

(** A link that is in the table and whose [AddPeer] is not in the channel yet, one
    whose future was dropped then, one whose future waits for the router to know
    it, one whose future was dropped meanwhile, or one with its reader and its
    writer. *)
Inductive Phase := Entered | Lost | Waiting | Dropped | Running (reader writer : TaskState).

(** Has the router been told of the link? *)
Definition link_announced (ph : Phase) : bool := match ph with Entered | Lost => false | _ => true end.

(** [lt_entry]: what the router is told of the link; [lt_sent]: the router has
    been told that the link is over. *)
Record LinkTask := mkLinkTask { lt_key : PublicKey; lt_entry : PeerEntry; lt_phase : Phase; lt_sent : bool }.

(** [ln_pending]: the messages of tasks that wait for room in the channel. *)
Record LinkNode {DK : Dalek} := mkLinkNode {
  ln_peers : Peers; ln_queue : list RouterMsg; ln_pending : list RouterMsg; ln_router : Router; ln_tasks : gmap PeerId LinkTask }.
Arguments mkLinkNode {DK}.

Inductive Task := Reader | Writer.

(** Which task of a running link is in a state, and the phase when it goes on. *)
Definition task_at (w : Task) (ph : Phase) : option TaskState :=
  match ph, w with
  | Running rd _, Reader => Some rd
  | Running _ wr, Writer => Some wr
  | _, _ => None
  end.
Definition task_next (w : Task) (s : TaskState) (ph : Phase) : Phase :=
  match ph, w with
  | Running _ wr, Reader => Running s wr
  | Running rd _, Writer => Running rd s
  | ph, _ => ph
  end.

(** The future is dropped: nothing runs yet, or the reader ends where it is. The
    writer is a task of its own. *)
Definition drop_phase (ph : Phase) : Phase :=
  match ph with
  | Entered | Lost => Lost
  | Waiting | Dropped => Dropped
  | Running _ wr => Running TDone wr
  end.

Definition is_link_msg (msg : RouterMsg) : bool := match msg with MsgAddPeer _ | MsgRemovePeer _ _ _ => true | _ => false end.

Definition adds (id : PeerId) (msg : RouterMsg) : Prop := match msg with MsgAddPeer e => pe_id e = id | _ => False end.

Definition ROUTER_CHANNEL_SIZE : nat := 4096.

Definition channel_room (q : list RouterMsg) : Prop := (length q < ROUTER_CHANNEL_SIZE)%nat.

(** [RouterHandle::send]: a message enters the channel, or a task waits with it
    when the channel is full (or its room is promised to tasks that wait). *)
Inductive router_send (msg : RouterMsg) (q w : list RouterMsg) : list RouterMsg -> list RouterMsg -> Prop :=
| SendNow : channel_room q -> router_send msg q w (q ++ [msg]) w
| SendLater : router_send msg q w q (w ++ [msg]).

Section Life.
Context {DK : Dalek} {HO : HashOrder} {EN : Entropy} (murmur3_x64_128 : bytes -> Z -> option Z) (conn : PacketConn).

Definition set_task (id : PeerId) (t : LinkTask) (ph : Phase) (sent : bool) (n : LinkNode) : gmap PeerId LinkTask :=
  <[id := mkLinkTask (lt_key t) (lt_entry t) ph sent]> (ln_tasks n).

(** The port that a task tells the router: the reader looks it up. *)
Definition told_port (w : Task) (n : LinkNode) (id : PeerId) (t : LinkTask) : PeerPort :=
  match w with Reader => from_option ph_port 0 (handle_at (ln_peers n) (lt_key t) id) | Writer => pe_port (lt_entry t) end.

Inductive link_step : LinkNode -> LinkNode -> Prop :=
| StEnter n key prio h p : handle_conn_guard conn key = Ok tt -> ps_next_id (ln_peers n) < U64_MAX ->
    allocate_peer (ln_peers n) key prio = (h, p) ->
    link_step n (mkLinkNode p (ln_queue n) (ln_pending n) (ln_router n)
                   (<[ph_id h := mkLinkTask key (to_entry h) Entered false]> (ln_tasks n)))
| StAnnounce n id t : ln_tasks n !! id = Some t -> lt_phase t = Entered -> channel_room (ln_queue n) ->
    link_step n (mkLinkNode (ln_peers n) (ln_queue n ++ [MsgAddPeer (lt_entry t)]) (ln_pending n) (ln_router n)
                   (set_task id t Waiting (lt_sent t) n))
| StStart n id t : ln_tasks n !! id = Some t -> lt_phase t = Waiting -> Forall (fun m => ~ adds id m) (ln_queue n) ->
    link_step n (mkLinkNode (ln_peers n) (ln_queue n) (ln_pending n) (ln_router n)
                   (set_task id t (Running TAlive TAlive) (lt_sent t) n))
| StDrop n id t : ln_tasks n !! id = Some t ->
    link_step n (mkLinkNode (ln_peers n) (ln_queue n) (ln_pending n) (ln_router n)
                   (set_task id t (drop_phase (lt_phase t)) (lt_sent t) n))
| StTell w n id t q' w' : ln_tasks n !! id = Some t -> task_at w (lt_phase t) = Some TAlive ->
    router_send (MsgRemovePeer id (lt_key t) (told_port w n id t)) (ln_queue n) (ln_pending n) q' w' ->
    link_step n (mkLinkNode (ln_peers n) q' w' (ln_router n) (set_task id t (task_next w TSent (lt_phase t)) true n))
| StClean w n id t : ln_tasks n !! id = Some t -> task_at w (lt_phase t) = Some TSent ->
    link_step n (mkLinkNode (Peers_remove_peer (ln_peers n) id (lt_key t)).2 (ln_queue n) (ln_pending n) (ln_router n)
                   (set_task id t (task_next w TDone (lt_phase t)) (lt_sent t) n))
| StOther n msg q' w' : is_link_msg msg = false -> msg_ok msg -> router_send msg (ln_queue n) (ln_pending n) q' w' ->
    link_step n (mkLinkNode (ln_peers n) q' w' (ln_router n) (ln_tasks n))
| StRoom n w1 msg w2 : ln_pending n = w1 ++ msg :: w2 -> channel_room (ln_queue n) ->
    link_step n (mkLinkNode (ln_peers n) (ln_queue n ++ [msg]) (w1 ++ w2) (ln_router n) (ln_tasks n))
| StActor n now unix_now msg queue acts r : ln_queue n = msg :: queue ->
    handle_router_msg murmur3_x64_128 now unix_now (ln_router n) msg = Ret (acts, r) ->
    link_step n (mkLinkNode (ln_peers n) queue (ln_pending n) r (ln_tasks n))
| StTimer n now wall unix_now last_wall next acts a :
    actor_maintenance murmur3_x64_128 now wall unix_now (mkRouterActor (ln_router n) last_wall next) = Ret (acts, a) ->
    link_step n (mkLinkNode (ln_peers n) (ln_queue n) (ln_pending n) (ac_router a) (ln_tasks n)).

Inductive reachable (r0 : Router) : LinkNode -> Prop :=
| ReachNew : reachable r0 (mkLinkNode Peers_new [] [] r0 ∅)
| ReachStep n n' : reachable r0 n -> link_step n n' -> reachable r0 n'.

(** ** The invariant *)

(** The messages on their way to the router. *)
Definition on_way (n : LinkNode) : list RouterMsg := ln_queue n ++ ln_pending n.

(** The router's entry once it has read them. *)
Definition view (n : LinkNode) (key : PublicKey) (id : PeerId) : option PeerEntry :=
  foldl (entry_after key id) (entry_at (ln_router n) key id) (on_way n).

(** The table and the view of a link: they agree from the announcement until the
    router is told of the end. *)
Definition agree (ann sent : bool) (h : option PeerHandle) (v : option PeerEntry) : Prop :=
  v = (if ann && negb sent then to_entry <$> h else None) /\ (h = None -> sent = true).

Definition phase_ok (id : PeerId) (key : PublicKey) (e : PeerEntry) (ph : Phase) (sent : bool) (h : option PeerHandle) : Prop :=
  match ph with
  | Entered | Lost => sent = false /\ to_entry <$> h = Some e /\ pe_key e = key /\ pe_id e = id
  | Waiting | Dropped => sent = false
  | Running rd wr => (rd = TSent -> sent = true) /\ (wr = TSent -> sent = true) /\ (wr = TDone -> h = None)
  end.

Definition no_add (msg : RouterMsg) : Prop := match msg with MsgAddPeer _ => False | _ => True end.

(** An end is only told of a link that is marked so. *)
Definition end_told (ts : gmap PeerId LinkTask) (msg : RouterMsg) : Prop :=
  match msg with MsgRemovePeer i _ _ => exists t, ts !! i = Some t /\ lt_sent t = true | _ => True end.

Definition link_ok (n : LinkNode) (id : PeerId) (t : LinkTask) : Prop :=
  let h := handle_at (ln_peers n) (lt_key t) id in
  agree (link_announced (lt_phase t)) (lt_sent t) h (view n (lt_key t) id)
  /\ phase_ok id (lt_key t) (lt_entry t) (lt_phase t) (lt_sent t) h.

Record life_inv (n : LinkNode) : Prop := {
  li_router : router_inv (ln_router n);
  li_msgs : Forall msg_ok (on_way n);
  li_ends : Forall (end_told (ln_tasks n)) (on_way n);
  li_pending : Forall no_add (ln_pending n);
  li_table : peers_inv (ln_peers n);
  li_ids : forall id, is_Some (ln_tasks n !! id) -> id < ps_next_id (ln_peers n);
  li_links : forall id t, ln_tasks n !! id = Some t -> link_ok n id t;
  li_none : forall key id, (forall t, ln_tasks n !! id = Some t -> lt_key t <> key) ->
    handle_at (ln_peers n) key id = None /\ view n key id = None
}.

(** Ends commute, so a message of a waiting task may be overtaken. *)
Lemma no_add_comm key id o a b : no_add a -> no_add b ->
  entry_after key id (entry_after key id o a) b = entry_after key id (entry_after key id o b) a.
Proof. destruct a, b; simpl; try done; repeat case_bool_decide; done. Qed.

Lemma no_add_first key id o l msg : no_add msg -> Forall no_add l ->
  foldl (entry_after key id) o (l ++ [msg]) = foldl (entry_after key id) (entry_after key id o msg) l.
Proof.
  intros Hm Hl. revert o. induction Hl as [|a l Ha _ IH]; intros o; [done|]. cbn [app foldl]. rewrite IH. by rewrite no_add_comm.
Qed.

Lemma fold_other key id o l : Forall (fun m => forall o, entry_after key id o m = o) l -> foldl (entry_after key id) o l = o.
Proof. intros Hl. revert o. induction Hl as [|m l Hm _ IH]; intros o; [done|]. simpl. by rewrite Hm. Qed.

Lemma other_entry key id o msg : is_link_msg msg = false -> entry_after key id o msg = o.
Proof. by destruct msg. Qed.

Lemma send_view p q w q' w' msg r ts key id : no_add msg -> Forall no_add w -> router_send msg q w q' w' ->
  view (mkLinkNode p q' w' r ts) key id = entry_after key id (view (mkLinkNode p q w r ts) key id) msg.
Proof.
  intros Hm Hw Hs. assert (view (mkLinkNode p q (w ++ [msg]) r ts) key id
    = entry_after key id (view (mkLinkNode p q w r ts) key id) msg) as He.
  { unfold view, on_way. simpl. by rewrite app_assoc, foldl_app. }
  destruct Hs as [_|]; [|done]. rewrite <- He. unfold view, on_way. simpl.
  rewrite <- app_assoc, (foldl_app _ q ([msg] ++ w)), (foldl_app _ q (w ++ [msg])). by rewrite no_add_first.
Qed.

Lemma send_on_way msg q w q' w' (P : RouterMsg -> Prop) : router_send msg q w q' w' -> P msg -> Forall P (q ++ w) -> Forall P (q' ++ w').
Proof. intros [] Hm; rewrite !Forall_app; intros [? ?]; split_and!; auto. Qed.

Lemma send_pending msg q w q' w' (P : RouterMsg -> Prop) : router_send msg q w q' w' -> P msg -> Forall P w -> Forall P w'.
Proof. intros [] Hm Hw; [done|]. apply Forall_app. auto. Qed.

Lemma set_task_lookup n id t ph sent i ti : set_task id t ph sent n !! i = Some ti ->
  (i = id /\ ti = mkLinkTask (lt_key t) (lt_entry t) ph sent) \/ (i <> id /\ ln_tasks n !! i = Some ti).
Proof. unfold set_task. rewrite lookup_insert_Some. naive_solver. Qed.

Lemma set_task_some n id t ph sent i : ln_tasks n !! id = Some t -> is_Some (set_task id t ph sent n !! i) -> is_Some (ln_tasks n !! i).
Proof. intros Ht [ti Hi]. apply set_task_lookup in Hi as [[-> _]|[_ ?]]; by eexists. Qed.

Lemma set_task_none n id t ph sent key i : ln_tasks n !! id = Some t ->
  (forall t', set_task id t ph sent n !! i = Some t' -> lt_key t' <> key) -> (forall t', ln_tasks n !! i = Some t' -> lt_key t' <> key).
Proof.
  intros Ht Hn t' Ht'. unfold set_task in Hn. destruct (decide (i = id)) as [->|Hne].
  - rewrite Ht in Ht'. injection Ht' as <-. by apply (Hn _ (lookup_insert_eq _ _ _)).
  - apply Hn. by rewrite lookup_insert_ne.
Qed.

Lemma set_task_ends n id t ph sent l : ln_tasks n !! id = Some t -> (lt_sent t = true -> sent = true) ->
  Forall (end_told (ln_tasks n)) l -> Forall (end_told (set_task id t ph sent n)) l.
Proof.
  intros Ht Hs Hl. eapply Forall_impl; [exact Hl|]. intros [] He; simpl in *; try done. destruct He as (t' & Ht' & Hs'). unfold set_task.
  match goal with |- context [_ !! ?i] => destruct (decide (i = id)) as [->|Hne] end.
  - rewrite lookup_insert_eq. eexists. split; [done|]. simpl. rewrite Ht in Ht'. injection Ht' as <-. auto.
  - rewrite lookup_insert_ne by done. eauto.
Qed.

(** A step that leaves the table and the view alone and one task in a phase that
    is in order keeps the invariant. *)
Lemma set_phase_inv n id t ph : life_inv n -> ln_tasks n !! id = Some t -> link_announced ph = link_announced (lt_phase t) ->
  phase_ok id (lt_key t) (lt_entry t) ph (lt_sent t) (handle_at (ln_peers n) (lt_key t) id) ->
  life_inv (mkLinkNode (ln_peers n) (ln_queue n) (ln_pending n) (ln_router n) (set_task id t ph (lt_sent t) n)).
Proof.
  intros [] Ht Han Hph. split; simpl; try done.
  - by apply set_task_ends.
  - intros i Hi. apply li_ids0. by eapply set_task_some.
  - intros i ti [[-> ->]|[_ Hi]]%set_task_lookup; [|by apply li_links0].
    split; [|done]. simpl. rewrite Han. exact (proj1 (li_links0 id t Ht)).
  - intros key i Hn. apply li_none0. by eapply set_task_none.
Qed.

Lemma start_inv n id t : life_inv n -> ln_tasks n !! id = Some t -> lt_phase t = Waiting ->
  life_inv (mkLinkNode (ln_peers n) (ln_queue n) (ln_pending n) (ln_router n) (set_task id t (Running TAlive TAlive) (lt_sent t) n)).
Proof. intros I Ht Hp. apply set_phase_inv; [done..|by rewrite Hp|done]. Qed.

Lemma drop_inv n id t : life_inv n -> ln_tasks n !! id = Some t ->
  life_inv (mkLinkNode (ln_peers n) (ln_queue n) (ln_pending n) (ln_router n) (set_task id t (drop_phase (lt_phase t)) (lt_sent t) n)).
Proof.
  intros I Ht. destruct (li_links n I id t Ht) as [_ Hp]. apply set_phase_inv; [done..| |].
  - by destruct (lt_phase t).
  - destruct (lt_phase t) as [| | | |rd wr]; simpl in *; [done..|]. by destruct Hp as (_ & ? & ?).
Qed.

(** The link that is told to the router leaves the view. *)
Lemma tell_inv w n id t q' w' : life_inv n -> ln_tasks n !! id = Some t -> task_at w (lt_phase t) = Some TAlive ->
  router_send (MsgRemovePeer id (lt_key t) (told_port w n id t)) (ln_queue n) (ln_pending n) q' w' ->
  life_inv (mkLinkNode (ln_peers n) q' w' (ln_router n) (set_task id t (task_next w TSent (lt_phase t)) true n)).
Proof.
  intros Hinv Ht Hw Hsend. pose proof Hinv as [].
  assert (forall ts key i, view (mkLinkNode (ln_peers n) q' w' (ln_router n) ts) key i =
    if bool_decide (lt_key t = key /\ id = i) then None else view n key i) as Hv.
  { intros ts key i. by rewrite (send_view (ln_peers n) (ln_queue n) (ln_pending n) q' w' (MsgRemovePeer id (lt_key t) (told_port w n id t)) _ ts key i Logic.I li_pending0 Hsend). }
  split; simpl; try done.
  - by eapply send_on_way.
  - eapply send_on_way; [done| |by apply set_task_ends]. simpl. unfold set_task. rewrite lookup_insert_eq. eauto.
  - by eapply send_pending.
  - intros i Hi. apply li_ids0. by eapply set_task_some.
  - intros i ti Hi. unfold link_ok. rewrite Hv. apply set_task_lookup in Hi as [[-> ->]|[Hne Hi]]; simpl.
    + rewrite bool_decide_true by done. split; [split; [by rewrite andb_false_r|done]|]. destruct (li_links0 id t Ht) as [_ Hp].
      destruct (lt_phase t) as [| | | |rd wr], w; simpl in *; try done; injection Hw as ->; naive_solver.
    + rewrite bool_decide_false by naive_solver. apply (li_links0 i ti Hi).
  - intros key i Hn. rewrite Hv. destruct (li_none0 key i) as [-> Hnone]; [by eapply set_task_none|].
    split; [done|]. case_bool_decide; [done|exact Hnone].
Qed.

(** The table is cleaned of a link the router has been told about. *)
Lemma clean_inv w n id t : life_inv n -> ln_tasks n !! id = Some t -> task_at w (lt_phase t) = Some TSent ->
  life_inv (mkLinkNode (Peers_remove_peer (ln_peers n) id (lt_key t)).2 (ln_queue n) (ln_pending n) (ln_router n)
              (set_task id t (task_next w TDone (lt_phase t)) (lt_sent t) n)).
Proof.
  intros I Ht Hw. pose proof I as []. pose proof (remove_peer_spec (ln_peers n) id (lt_key t) li_table0) as Hrem.
  destruct (Peers_remove_peer (ln_peers n) id (lt_key t)) as [port p]. destruct Hrem as (Hp & Hnext & _ & Hat).
  assert (lt_sent t = true) as Hsent.
  { destruct (li_links0 id t Ht) as [_ Hph]. destruct (lt_phase t) as [| | | |rd wr], w; simpl in *; try done; injection Hw as ->; naive_solver. }
  split; simpl; try done.
  - by apply set_task_ends.
  - intros i Hi. rewrite Hnext. apply li_ids0. by eapply set_task_some.
  - intros i ti [[-> ->]|[Hne Hi]]%set_task_lookup; unfold link_ok; simpl; rewrite Hat.
    + rewrite decide_True by done. destruct (li_links0 id t Ht) as [[Hv _] Hph]. split.
      * split; [|done]. rewrite Hsent, andb_false_r in *. exact Hv.
      * destruct (lt_phase t) as [| | | |rd wr], w; simpl in *; try done; naive_solver.
    + rewrite decide_False by naive_solver. apply (li_links0 i ti Hi).
  - intros key i Hn. rewrite Hat. destruct (li_none0 key i) as [-> Hv]; [by eapply set_task_none|].
    split; [by case_decide|exact Hv].
Qed.

(** A new link appears in the table and not in the view. *)
Lemma enter_inv n key prio h p : life_inv n -> ps_next_id (ln_peers n) < U64_MAX -> allocate_peer (ln_peers n) key prio = (h, p) ->
  life_inv (mkLinkNode p (ln_queue n) (ln_pending n) (ln_router n)
              (<[ph_id h := mkLinkTask key (to_entry h) Entered false]> (ln_tasks n))).
Proof.
  clear murmur3_x64_128 EN conn. intros I Hid Ha. pose proof I as []. pose proof (allocate_peer_spec (ln_peers n) key prio li_table0 Hid) as Hs. rewrite Ha in Hs.
  destruct Hs as (Hp & Hnext & Hh & Hk & _ & Hat).
  assert (ln_tasks n !! ph_id h = None) as Hfresh.
  { destruct (ln_tasks n !! ph_id h) as [t|] eqn:E; [|done]. specialize (li_ids0 (ph_id h) ltac:(by eexists)). lia. }
  split; simpl; try done.
  - eapply Forall_impl; [exact li_ends0|]. intros [] He; simpl in *; try done. destruct He as (t & Ht & Hs). exists t.
    rewrite lookup_insert_ne by congruence. done.
  - intros i. rewrite Hnext. destruct (decide (i = ph_id h)) as [->|Hne]; [lia|]. rewrite lookup_insert_ne by done.
    intros Hi%li_ids0. lia.
  - intros i ti. unfold link_ok. simpl. rewrite Hat, <- Hh. destruct (decide (i = ph_id h)) as [->|Hne].
    + rewrite lookup_insert_eq. intros [= <-]. simpl. rewrite decide_True by done.
      split; [split; [|done]; apply li_none0; intros t Ht; congruence|]. by split_and!.
    + rewrite lookup_insert_ne by done. intros Hi. rewrite decide_False by naive_solver. apply (li_links0 i ti Hi).
  - intros k i Hn. rewrite Hat, <- Hh. destruct (decide (i = ph_id h)) as [->|Hne].
    + pose proof (Hn _ (lookup_insert_eq _ _ _)) as Hkey. simpl in Hkey.
      rewrite decide_False by naive_solver. apply li_none0. intros t Ht. congruence.
    + rewrite decide_False by naive_solver. apply li_none0. intros t Ht. apply Hn. by rewrite lookup_insert_ne.
Qed.

(** The announced link appears in the view: no end of it is on its way. *)
Lemma announce_view n id t : life_inv n -> ln_tasks n !! id = Some t -> lt_phase t = Entered ->
  forall ts key i, view (mkLinkNode (ln_peers n) (ln_queue n ++ [MsgAddPeer (lt_entry t)]) (ln_pending n) (ln_router n) ts) key i
    = if bool_decide (lt_key t = key /\ id = i) then Some (lt_entry t) else view n key i.
Proof.
  intros I Ht Hph ts key i. destruct (li_links n I id t Ht) as [_ Hp]. rewrite Hph in Hp. destruct Hp as (Hs & _ & Hk & Hi).
  unfold view, on_way. simpl. rewrite <- app_assoc, !foldl_app. cbn [app foldl entry_after]. rewrite Hk, Hi.
  case_bool_decide as Hb; [|done]. destruct Hb as [<- <-]. apply fold_other.
  pose proof (li_ends n I) as He. unfold on_way in He. apply Forall_app in He as [_ He]. pose proof (li_pending n I) as Ha.
  rewrite Forall_forall in *. intros m Hm o. specialize (He m Hm). specialize (Ha m Hm). destruct m; simpl in *; try done.
  destruct He as (t' & Ht' & Hs'). rewrite bool_decide_false; [done|]. intros [_ ->]. congruence.
Qed.

Lemma announce_inv n id t : life_inv n -> ln_tasks n !! id = Some t -> lt_phase t = Entered ->
  life_inv (mkLinkNode (ln_peers n) (ln_queue n ++ [MsgAddPeer (lt_entry t)]) (ln_pending n) (ln_router n)
              (set_task id t Waiting (lt_sent t) n)).
Proof.
  clear murmur3_x64_128 EN conn. intros I Ht Hph. pose proof (announce_view n id t I Ht Hph) as Hv. pose proof I as [].
  unfold on_way in *. apply Forall_app in li_msgs0 as [? ?]. pose proof li_ends0 as [? ?]%Forall_app.
  destruct (li_links0 id t Ht) as [Hag Hp]. rewrite Hph in Hp, Hag. destruct Hp as (Hs & Hh & _).
  split; unfold on_way; simpl; try done.
  - rewrite !Forall_app. split_and!; try done. by constructor.
  - apply set_task_ends; [done..|]. rewrite !Forall_app. split_and!; try done. by constructor.
  - intros i Hi. apply li_ids0. by eapply set_task_some.
  - intros i ti Hi. unfold link_ok. rewrite Hv. apply set_task_lookup in Hi as [[-> ->]|[Hne Hi]]; simpl.
    + rewrite bool_decide_true by done. rewrite Hs. split; [|done]. simpl. split; [done|]. intros Hn. by rewrite Hn in Hh.
    + rewrite bool_decide_false by naive_solver. apply (li_links0 i ti Hi).
  - intros key i Hn. rewrite Hv. destruct (decide (i = id)) as [->|Hne].
    + assert (lt_key t <> key) as Hk by (apply (Hn _ (lookup_insert_eq _ _ _))).
      rewrite bool_decide_false by naive_solver. apply li_none0. intros t' Ht'. congruence.
    + rewrite bool_decide_false by naive_solver. apply li_none0. by eapply set_task_none.
Qed.

(** Steps of the router and of the channel do not change the view. *)
Lemma view_step_inv n q w r : life_inv n -> router_inv r -> Forall msg_ok (q ++ w) -> Forall (end_told (ln_tasks n)) (q ++ w) -> Forall no_add w ->
  (forall key id, view (mkLinkNode (ln_peers n) q w r (ln_tasks n)) key id = view n key id) ->
  life_inv (mkLinkNode (ln_peers n) q w r (ln_tasks n)).
Proof.
  intros [] Hr Hq He Hw Hv. split; simpl; try done.
  - intros id t Ht. unfold link_ok. rewrite Hv. by apply li_links0.
  - intros key id Hn. rewrite Hv. by apply li_none0.
Qed.

Lemma timer_entries now wall unix_now a acts a' : router_inv (ac_router a) ->
  actor_maintenance murmur3_x64_128 now wall unix_now a = Ret (acts, a') ->
  rt_peers (ac_router a') = rt_peers (ac_router a) /\ router_inv (ac_router a').
Proof.
  intros I Ha. destruct (actor_step_inv murmur3_x64_128 a (EvTimer now wall unix_now) I Logic.I) as (acts0 & a0 & E & I0).
  simpl in E. rewrite Ha in E. injection E as <- <-. split; [|done]. revert Ha. unfold actor_maintenance.
  set (r1 := if _ && _ then force_refresh (ac_router a) now else ac_router a).
  assert (router_inv r1 /\ rt_peers r1 = rt_peers (ac_router a)) as [I1 H1].
  { unfold r1. destruct (_ && _); [|done]. split; [by apply force_refresh_inv|done]. }
  clearbody r1. destruct (do_maintenance murmur3_x64_128 now unix_now (expire_infos r1 now)) as [[acts1 r2]|] eqn:E; [|done].
  rewrite ret_bind. intros [= <- <-]. simpl. apply do_maintenance_peers in E; [|by apply expire_infos_inv].
  by rewrite E, expire_peers.
Qed.

Lemma other_inv n msg q' w' : life_inv n -> is_link_msg msg = false -> msg_ok msg ->
  router_send msg (ln_queue n) (ln_pending n) q' w' -> life_inv (mkLinkNode (ln_peers n) q' w' (ln_router n) (ln_tasks n)).
Proof.
  intros I Hm Hok Hs. assert (no_add msg) as Hna by (by destruct msg).
  apply view_step_inv; [done|apply I|by eapply send_on_way; [..|apply I]| | |].
  - eapply send_on_way; [done|by destruct msg|apply I].
  - eapply send_pending; [done|done|apply I].
  - intros key id. rewrite (send_view _ (ln_queue n) (ln_pending n) q' w' msg _ _ key id Hna (li_pending n I) Hs).
    rewrite other_entry by done. reflexivity.
Qed.

Lemma room_inv n w1 msg w2 : life_inv n -> ln_pending n = w1 ++ msg :: w2 ->
  life_inv (mkLinkNode (ln_peers n) (ln_queue n ++ [msg]) (w1 ++ w2) (ln_router n) (ln_tasks n)).
Proof.
  intros I Hw. pose proof I as []. unfold on_way in *. rewrite Hw in *. rewrite !Forall_app, Forall_cons in *.
  destruct li_pending0 as (Hn1 & Hnm & Hn2).
  apply view_step_inv; [done|done|rewrite !Forall_app; naive_solver|rewrite !Forall_app; naive_solver|by rewrite Forall_app|].
  intros key id. unfold view, on_way. simpl. rewrite Hw, <- app_assoc, !foldl_app. cbn [app foldl].
  rewrite <- (no_add_first key id _ w1 msg) by done. by rewrite foldl_app.
Qed.

Lemma actor_inv n now unix_now msg queue acts r : life_inv n -> ln_queue n = msg :: queue ->
  handle_router_msg murmur3_x64_128 now unix_now (ln_router n) msg = Ret (acts, r) ->
  life_inv (mkLinkNode (ln_peers n) queue (ln_pending n) r (ln_tasks n)).
Proof.
  intros I Hq Hr. pose proof (li_msgs n I) as Hok. pose proof (li_ends n I) as He. unfold on_way in *. rewrite Hq in *.
  apply Forall_cons in Hok as [Hm Hok]. apply Forall_cons in He as [_ He].
  destruct (handle_router_msg_inv murmur3_x64_128 now unix_now (ln_router n) msg (li_router n I) Hm) as (acts0 & r0 & E & I0).
  rewrite Hr in E. injection E as <- <-. apply view_step_inv; [done..|apply I|]. intros key id. unfold view, on_way. simpl. rewrite Hq. simpl.
  by rewrite (handle_router_msg_entries murmur3_x64_128 now unix_now (ln_router n) msg acts r key id (li_router n I) Hr).
Qed.

Lemma life_step_inv n n' : life_inv n -> link_step n n' -> life_inv n'.
Proof.
  intros I Hs. destruct Hs as [n key prio h p _ Hid Ha|n id t Ht Hw _|n id t Ht Hw _|n id t Ht|w n id t q' w' Ht Hw Hsend
    |w n id t Ht Hw|n msg q' w' Hm Hok Hsend|n w1 msg w2 Hw _|n now unix_now msg queue acts r Hq Hr|n now wall unix_now lw next acts a Ha].
  - by eapply enter_inv.
  - by apply announce_inv.
  - by apply start_inv.
  - by apply drop_inv.
  - by eapply tell_inv.
  - by apply clean_inv.
  - by eapply other_inv.
  - by eapply room_inv.
  - by eapply actor_inv.
  - destruct (timer_entries _ _ _ (mkRouterActor (ln_router n) lw next) _ _ (li_router n I) Ha) as [Hp Hi].
    apply view_step_inv; [done|done|apply I..|]. intros key id. unfold view, entry_at. simpl. by rewrite Hp.
Qed.

(** ** Properties *)

Lemma reachable_inv r0 n : router_inv r0 -> rt_peers r0 = ∅ -> reachable r0 n -> life_inv n.
Proof.
  intros Hr Hp. induction 1 as [|n n' _ IH Hs]; [|by eapply life_step_inv].
  split; simpl; try done; [apply Peers_new_inv|by intros id [? ?]|].
  intros key id _. unfold view, entry_at, handle_at. simpl. by rewrite Hp.
Qed.

(** C18: The router's links are the table's. In every state that links entering,
    announcing themselves, working, ending and being dropped can reach, in any
    interleaving, with a channel that may be full (its messages then wait in tasks
    and are overtaken): whenever no message is on its way, the router has exactly
    the links of the table, under their key, id and port, except those that are not
    announced yet (or were dropped before it) and those it was told are over, which
    it does not have; a link that is announced and not told to be over is in the
    table; and a link whose writer has ended is in neither. *)
Theorem router_mirrors_table crypto config t0 n (Hreach : reachable (Router_new crypto config t0) n)
    (Hread : ln_queue n = [] /\ ln_pending n = []) :
  (forall key id, entry_at (ln_router n) key id =
     match ln_tasks n !! id with
     | Some t => if link_announced (lt_phase t) && negb (lt_sent t) then to_entry <$> handle_at (ln_peers n) key id else None
     | None => None
     end)
  /\ (forall id t, ln_tasks n !! id = Some t -> lt_sent t = false -> is_Some (handle_at (ln_peers n) (lt_key t) id))
  /\ (forall key id, is_Some (handle_at (ln_peers n) key id) -> exists t, ln_tasks n !! id = Some t /\ lt_key t = key)
  /\ (forall id t rd key, ln_tasks n !! id = Some t -> lt_phase t = Running rd TDone ->
        handle_at (ln_peers n) key id = None /\ entry_at (ln_router n) key id = None).
Proof.
  pose proof (reachable_inv _ _ (Router_new_inv crypto config t0) eq_refl Hreach) as I. destruct Hread as [Hq Hw].
  assert (forall key id, entry_at (ln_router n) key id = view n key id) as Hv by (intros; unfold view, on_way; by rewrite Hq, Hw).
  assert (forall key id t, ln_tasks n !! id = Some t -> lt_key t <> key ->
    handle_at (ln_peers n) key id = None /\ entry_at (ln_router n) key id = None) as Hother.
  { intros key id t Ht Hk. rewrite Hv. apply (li_none n I). intros t' Ht'. congruence. }
  split_and!.
  - intros key id. destruct (ln_tasks n !! id) as [t|] eqn:Ht.
    + destruct (decide (lt_key t = key)) as [<-|Hk]; [rewrite Hv; apply (li_links n I id t Ht)|].
      destruct (Hother key id t Ht Hk) as [-> ->]. by destruct (_ && _).
    + rewrite Hv. apply (li_none n I). by rewrite Ht.
  - intros id t Ht Hs. destruct (li_links n I id t Ht) as [[_ Hn] _].
    destruct (handle_at (ln_peers n) (lt_key t) id); [by eexists|]. by rewrite Hn in Hs.
  - intros key id Hh. destruct (ln_tasks n !! id) as [t|] eqn:Ht.
    + exists t. split; [done|]. destruct (decide (lt_key t = key)) as [->|Hk]; [done|].
      destruct (Hother key id t Ht Hk) as [E _]. by destruct Hh as [? Hh]; rewrite E in Hh.
    + destruct (li_none n I key id) as [E _]; [by rewrite Ht|]. by destruct Hh as [? Hh]; rewrite E in Hh.
  - intros id t rd key Ht Hph. destruct (decide (lt_key t = key)) as [<-|Hk]; [|by eapply Hother].
    destruct (li_links n I id t Ht) as [[E Hs] Hp]. rewrite Hph in Hp. simpl in Hp. destruct Hp as (_ & _ & Hd).
    specialize (Hd eq_refl). split; [done|]. rewrite Hv, E, (Hs Hd), andb_false_r. done.
Qed.

(** A link whose future was dropped before its tasks ran stays as it is. *)
Definition abandoned (ph : Phase) : bool := match ph with Lost | Dropped => true | _ => false end.

Lemma dropped_stays n n' id t : link_step n n' -> ln_tasks n !! id = Some t -> abandoned (lt_phase t) = true ->
  ps_next_id (ln_peers n) > id -> peers_inv (ln_peers n) ->
  exists t', ln_tasks n' !! id = Some t' /\ lt_phase t' = lt_phase t /\ lt_key t' = lt_key t.
Proof.
  intros Hs Ht Hd Hid Hp. destruct Hs as [n key prio h p _ Hmax Ha|n i ti Hti Hw _|n i ti Hti Hw _|n i ti Hti|w n i ti q' w' Hti Hw _
    |w n i ti Hti Hw|n msg q' w' _ _ _|n w1 msg w2 _ _|n now unix_now msg queue acts r _ _|n now wall unix_now lw next acts a _];
    simpl; [| | | | | |by eauto..].
  - pose proof (allocate_peer_spec (ln_peers n) key prio Hp Hmax) as Hs. rewrite Ha in Hs. destruct Hs as (_ & _ & Hh & _).
    exists t. rewrite lookup_insert_ne by lia. done.
  - exists t. unfold set_task. rewrite lookup_insert_ne; [done|]. intros ->. rewrite Ht in Hti. injection Hti as <-. by rewrite Hw in Hd.
  - exists t. unfold set_task. rewrite lookup_insert_ne; [done|]. intros ->. rewrite Ht in Hti. injection Hti as <-. by rewrite Hw in Hd.
  - unfold set_task. destruct (decide (i = id)) as [->|]; [|exists t; by rewrite lookup_insert_ne].
    rewrite lookup_insert_eq. eexists. split; [done|]. rewrite Ht in Hti. injection Hti as <-. simpl. by destruct (lt_phase t).
  - exists t. unfold set_task. rewrite lookup_insert_ne; [done|]. intros ->. rewrite Ht in Hti. injection Hti as <-. by destruct (lt_phase t), w.
  - exists t. unfold set_task. rewrite lookup_insert_ne; [done|]. intros ->. rewrite Ht in Hti. injection Hti as <-. by destruct (lt_phase t), w.
Qed.

(** A link that is dropped before its tasks run is never taken out: it stays in
    the table from then on; and if it was announced, the router has it whenever no
    message is on its way. *)
Theorem dropped_link_never_ends crypto config t0 n n' id t
    (Hreach : reachable (Router_new crypto config t0) n) (Ht : ln_tasks n !! id = Some t) (Hd : abandoned (lt_phase t) = true)
    (Hlater : rtc link_step n n') :
  exists h, handle_at (ln_peers n') (lt_key t) id = Some h
    /\ (ln_queue n' = [] -> ln_pending n' = [] ->
        entry_at (ln_router n') (lt_key t) id = if link_announced (lt_phase t) then Some (to_entry h) else None).
Proof.
  assert (exists t', ln_tasks n' !! id = Some t' /\ lt_phase t' = lt_phase t /\ lt_key t' = lt_key t
    /\ reachable (Router_new crypto config t0) n') as (t' & Ht' & Hd' & Hk & Hr').
  { revert t Ht Hd. induction Hlater as [n|n n1 n' Hs _ IH]; intros t Ht Hd; [by exists t|].
    pose proof (reachable_inv _ _ (Router_new_inv crypto config t0) eq_refl Hreach) as I.
    destruct (dropped_stays n n1 id t Hs Ht Hd) as (t1 & Ht1 & Hd1 & <-); [|apply I|].
    { pose proof (li_ids n I id ltac:(by eexists)). lia. }
    rewrite <- Hd1. rewrite <- Hd1 in Hd. apply (IH (ReachStep _ n n1 Hreach Hs) t1 Ht1 Hd). }
  pose proof (reachable_inv _ _ (Router_new_inv crypto config t0) eq_refl Hr') as I.
  destruct (li_links n' I id t' Ht') as [[Hv Hs] Hp]. rewrite Hd' in *. rewrite Hk in *.
  assert (lt_sent t' = false) as Hsent by (destruct (lt_phase t); simpl in *; naive_solver). rewrite Hsent in *.
  destruct (handle_at (ln_peers n') (lt_key t) id) as [h|]; [|by specialize (Hs eq_refl)].
  exists h. split; [done|]. intros Hq Hw. unfold view, on_way in Hv. rewrite Hq, Hw in Hv. simpl in Hv. rewrite Hv. by rewrite andb_true_r.
Qed.
End Life.

(** ** Witnesses *)

Definition life_conn : PacketConn := mkPacketConn false (node 3) 1048576.
Definition life_router : @Router toy_dalek := sample_router.

(** Node 1 is connected and the router has read of it. *)
Definition connected : @LinkNode toy_dalek :=
  let '(h, p) := @allocate_peer id_order Peers_new (node 1) 0 in
  mkLinkNode p [] [] (@add_peer toy_dalek id_order sample_entropy life_router (to_entry h)).2
    (<[ph_id h := mkLinkTask (node 1) (to_entry h) Waiting false]> ∅).

Lemma connected_reachable : @reachable toy_dalek id_order sample_entropy sample_murmur life_conn life_router connected.
Proof.
  unfold connected. destruct (@allocate_peer id_order Peers_new (node 1) 0) as [h p] eqn:E.
  eapply ReachStep; [eapply ReachStep; [eapply ReachStep; [apply ReachNew|]|]|].
  - eapply (@StEnter toy_dalek id_order sample_entropy sample_murmur life_conn (mkLinkNode Peers_new [] [] life_router ∅) (node 1) 0 h p); [reflexivity|reflexivity|exact E].
  - apply (@StAnnounce toy_dalek id_order sample_entropy sample_murmur life_conn _ (ph_id h) (mkLinkTask (node 1) (to_entry h) Entered false)).
    + simpl. apply lookup_insert_eq.
    + reflexivity.
    + unfold channel_room, ROUTER_CHANNEL_SIZE. simpl. lia.
  - unfold set_task. simpl. rewrite insert_insert_eq.
    exact (@StActor toy_dalek id_order sample_entropy sample_murmur life_conn (mkLinkNode p [MsgAddPeer (to_entry h)] [] life_router
      (<[ph_id h := mkLinkTask (node 1) (to_entry h) Waiting false]> ∅)) 0 0 (MsgAddPeer (to_entry h)) []
      (@add_peer toy_dalek id_order sample_entropy life_router (to_entry h)).1
      (@add_peer toy_dalek id_order sample_entropy life_router (to_entry h)).2 eq_refl
      (f_equal Ret (surjective_pairing (@add_peer toy_dalek id_order sample_entropy life_router (to_entry h))))).
Qed.

Lemma router_mirrors_table_witness :
  entry_at (ln_router connected) (node 1) 1 = Some (mkPeerEntry 1 (node 1) 1 0 0).
Proof.
  destruct (@router_mirrors_table toy_dalek id_order sample_entropy sample_murmur life_conn (@Crypto_new toy_dalek 3) sample_config 0
    connected connected_reachable (conj eq_refl eq_refl)) as [He _].
  rewrite He. vm_compute. reflexivity.
Defined.

Lemma dropped_link_never_ends_witness : exists n,
  rtc (@link_step toy_dalek id_order sample_entropy sample_murmur life_conn) connected n
  /\ handle_at (ln_peers n) (node 1) 1 <> None.
Proof.
  pose (t := mkLinkTask (node 1) (mkPeerEntry 1 (node 1) 1 0 0) Waiting false).
  pose (n := mkLinkNode (ln_peers connected) (ln_queue connected) (ln_pending connected) (ln_router connected) (set_task 1 t Dropped false connected)).
  assert (@link_step toy_dalek id_order sample_entropy sample_murmur life_conn connected n) as Hs
    by (apply (@StDrop toy_dalek id_order sample_entropy sample_murmur life_conn connected 1 t); vm_compute; reflexivity).
  exists n. split; [by apply rtc_once|].
  destruct (@dropped_link_never_ends toy_dalek id_order sample_entropy sample_murmur life_conn (@Crypto_new toy_dalek 3) sample_config 0
    n n 1 (mkLinkTask (node 1) (mkPeerEntry 1 (node 1) 1 0 0) Dropped false)) as (h & Hh & _).
  - eapply ReachStep; [exact connected_reachable|exact Hs].
  - vm_compute. reflexivity.
  - reflexivity.
  - reflexivity.
  - intros E. simpl in *. congruence.
Defined.
