(* ===== verification/Queries.v ===== *)
(** * Queries: what a node reports about itself

    Models the query messages of the router actor
    ([crates/ironwood/src/core.rs], [handle_router_msg] from [GetPeers] on and the
    functions of [PacketConnImpl] that send them), the snapshot of
    [crates/ironwood/src/peer_timeout.rs], and the views
    [crates/yggdrasil/src/core.rs] and [links.rs] build from them for the
    administrator: [get_peers], [get_tree_keys], the state of the TUN device.
    Times in floating point are of a type the model does not look into. *)

From stdpp Require Import strings options.
From S2P Require Import Prelude.
From S2P Require Import Wire.
From S2P Require Import Bloom.
From S2P Require Import Crypto.
From S2P Require Import Traffic.
From S2P Require Import Pathfinder.
From S2P Require Import Tree.
From S2P Require Import Router.
From S2P Require Import RouterFacts.
From S2P Require Import Actor.
From S2P Require Import RouterInv.
From S2P Require Import Liveness.
From S2P Require Import Links.
Open Scope Z_scope.

(** ** Sorting by a key that is a byte array *)

Definition key_le {A} (f : A -> PublicKey) (a b : A) : Prop := bytes_cmp (f a) (f b) <> Gt.
#[export] Instance key_le_dec {A} (f : A -> PublicKey) a b : Decision (key_le f a b).
Proof. unfold key_le. apply _. Defined.

(** ** Liveness of a peer *)

Record LivenessSnapshot := mkLivenessSnapshot {
  ls_timeout_ms : Z; ls_ewma_ms : Z; ls_penalty_ms : Z; ls_floor_ms : Z; ls_degraded : bool }.

Definition snapshot_of (cfg : AdaptiveTimeoutConfig) (d : DurableLiveness) : outcome LivenessSnapshot :=
  timeout ← compute cfg (dl_ewma_ms d) (dl_penalty_ms d) (dl_floor_ms d);
  let problem := as_millis (at_problem_min cfg) in
  Ret (mkLivenessSnapshot (as_millis timeout) (dl_ewma_ms d) (dl_penalty_ms d) (dl_floor_ms d)
         (at_adaptive cfg && (problem <=? dl_floor_ms d))).

(** [None]: nothing is known of the key. *)
Definition registry_snapshot (reg : PeerLivenessRegistry) (key : PublicKey) : outcome (option LivenessSnapshot) :=
  match lr_map reg !! key ≫= fun cell => lr_heap reg !! cell with
  | None => Ret None
  | Some d => s ← snapshot_of (lr_cfg reg) d; Ret (Some s)
  end.

Section Queries.
(** [f64] values: zero, a duration in milliseconds, a duration in seconds. *)
Context {F64 : Type} (f64_zero : F64) (ms_f64 secs_f64 : Z -> F64).
Context `{Dalek} `{HashOrder} (murmur3_x64_128 : bytes -> Z -> option Z).

Record PeerInfo := mkPeerInfo {
  qp_key : PublicKey; qp_id : PeerId; qp_port : PeerPort; qp_priority : Z; qp_latency_ms : F64; qp_cost : Z;
  qp_liveness_timeout_ms : Z; qp_liveness_degraded : bool; qp_liveness_ewma_ms : Z }.

Record TreeEntry := mkTreeEntry { te_key : PublicKey; te_parent : PublicKey; te_sequence : Z }.

Record PathEntry := mkPathEntry { pt_key : PublicKey; pt_path : list PeerPort; pt_sequence : Z }.

Record PendingLookup := mkPendingLookup {
  pk_dest_key : option PublicKey; pk_xformed_key : PublicKey; pk_age_secs : F64; pk_sent : bool; pk_multicast_count : nat }.

Record DebugSnapshot := mkDebugSnapshot {
  sn_tree_node_count : nat; sn_routing_peer_count : nat; sn_tree_root : PublicKey; sn_our_coords : list PeerPort;
  sn_path_cache_count : nat; sn_broken_path_count : nat; sn_pending_lookups : list PendingLookup;
  sn_unresponded_peers : nat; sn_peer_latencies_ms : list (PublicKey * F64); sn_delivery_queue_bytes : Z }.

(** ** The router's answers *)

Definition link_info (r : Router) (key : PublicKey) (entry : PeerEntry) : PeerInfo :=
  mkPeerInfo key (pe_id entry) (pe_port entry) (pe_prio entry)
    (from_option ms_f64 f64_zero (rt_rtts r !! pe_id entry)) (get_cost r (pe_id entry)) 0 false 0.

Definition query_peers (r : Router) : list PeerInfo :=
  mjoin ((fun '(key, entries) => link_info r key <$> map_values entries) <$> map_iter (rt_peers r)).

Definition query_tree (r : Router) : list TreeEntry :=
  merge_sort (key_le te_key) ((fun '(key, info) => mkTreeEntry key (ri_parent info) (ri_seq info)) <$> map_iter (rt_infos r)).

Definition query_paths (r : Router) : list PathEntry :=
  merge_sort (key_le pt_key)
    ((fun '(key, info) => mkPathEntry key (pi_path info) (pi_seq info))
     <$> List.filter (fun p => negb (pi_broken p.2)) (map_iter (pf_paths (rt_pathfinder r)))).

Definition query_routing_entries (r : Router) : nat := size (rt_infos r).

Definition query_tree_coordinates (r : Router) : list PeerPort := (get_root_and_path (rt_infos r) (self_key_of r)).2.

Definition query_routing_peer_keys (r : Router) : list PublicKey := map_keys (rt_peers r).

(** The transformed key, and how many peers' filters cover it. *)
Definition query_count_lookup_targets (r : Router) (dest : PublicKey) : PublicKey * nat :=
  let xform := x_key_of r dest in
  (xform, count_on_tree_targets_for_xkey murmur3_x64_128 (rt_blooms r) xform).

Definition pending_lookup (now : Z) (r : Router) (xformed_key : PublicKey) (rumor : PathRumor) : PendingLookup :=
  mkPendingLookup (tp_dest <$> ru_traffic rumor) xformed_key (secs_f64 (elapsed now (ru_created rumor)))
    (bool_decide (is_Some (ru_send_time rumor)))
    (count_on_tree_targets_for_xkey murmur3_x64_128 (rt_blooms r) xformed_key).

(** The first connection of a peer that has a round-trip time. *)
Definition peer_latency (r : Router) (entries : gmap PeerId PeerEntry) : F64 :=
  from_option ms_f64 f64_zero (head (omap (fun id => rt_rtts r !! id) (map_keys entries))).

Definition query_debug_snapshot (now : Z) (delivery_queue_bytes : Z) (r : Router) : DebugSnapshot :=
  let '(tree_root, our_coords) := get_root_and_path (rt_infos r) (self_key_of r) in
  let total_peer_ids := sum_list (size <$> map_values (rt_peers r)) in
  mkDebugSnapshot (size (rt_infos r)) (size (rt_peers r)) tree_root our_coords
    (size (pf_paths (rt_pathfinder r))) (length (List.filter pi_broken (map_values (pf_paths (rt_pathfinder r)))))
    ((fun '(xformed_key, rumor) => pending_lookup now r xformed_key rumor) <$> map_iter (pf_rumors (rt_pathfinder r)))
    (total_peer_ids - size (rt_responded r))%nat
    ((fun '(key, entries) => (key, peer_latency r entries)) <$> map_iter (rt_peers r)) delivery_queue_bytes.

(** The count a forced lookup replies with. *)
Definition is_path_lookup (a : RouterAction) : bool := match a with SendPathLookup _ _ => true | _ => false end.

Definition query_force_lookup (now unix_now : Z) (r : Router) (dest : PublicKey) : nat * (list RouterAction * Router) :=
  let '(actions, r) := force_lookup murmur3_x64_128 now unix_now r dest in
  (length (List.filter is_path_lookup actions), (actions, r)).

(** [PacketConnImpl::get_peers]: the liveness of each key is filled in. *)
Definition fill_liveness (reg : PeerLivenessRegistry) (p : PeerInfo) : outcome PeerInfo :=
  s ← registry_snapshot reg (qp_key p);
  Ret (match s with
       | Some s => mkPeerInfo (qp_key p) (qp_id p) (qp_port p) (qp_priority p) (qp_latency_ms p) (qp_cost p)
                     (ls_timeout_ms s) (ls_degraded s) (ls_ewma_ms s)
       | None => p
       end).

Definition iw_get_peers (reg : PeerLivenessRegistry) (r : Router) : outcome (list PeerInfo) :=
  foldr (fun p acc => p ← fill_liveness reg p; acc ← acc; Ret (p :: acc)) (Ret []) (query_peers r).

(** A connection that was closed forces nothing. *)
Definition iw_force_lookup (closed : bool) (now unix_now : Z) (r : Router) (dest : PublicKey)
    : nat * (list RouterAction * Router) :=
  if closed then (0%nat, ([], r)) else query_force_lookup now unix_now r dest.

(** ** The peers the administrator sees *)

Record LinkPeerInfo := mkLinkPeerInfo {
  lp_uri : string; lp_up : bool; lp_inbound : bool; lp_key : PublicKey; lp_priority : Z; lp_rx_bytes : Z; lp_tx_bytes : Z;
  lp_rx_rate : Z; lp_tx_rate : Z; lp_uptime_secs : F64; lp_latency_ms : F64; lp_cost : Z; lp_last_error : option string;
  lp_peer_id : option Z }.

Definition conn_info (now : Z) (c : ActiveConn) : LinkPeerInfo :=
  mkLinkPeerInfo (ac_uri c) true (ac_inbound c) (ac_key c) (ac_priority c) (ac_rx c) (ac_tx c) (ac_rx_rate c) (ac_tx_rate c)
    (secs_f64 (elapsed now (ac_up c))) f64_zero 0 None (if ac_peer_id c =? NO_PEER_ID then None else Some (ac_peer_id c)).

Definition active_get_peers (now : Z) (l : ActiveLinks) : list LinkPeerInfo := conn_info now <$> map_values (al_connections l).

Definition get_configured_peers (l : Links) : list (string * option string) :=
  (fun uri => (uri, mjoin (lk_peer_errors l !! uri))) <$> map_keys (lk_peers l).

(** The latency and cost of a link: by its id, else by its key. *)
Definition find_info (iw_peers : list PeerInfo) (p : LinkPeerInfo) : option PeerInfo :=
  match id ← lp_peer_id p; List.find (fun ip => qp_id ip =? id) iw_peers with
  | Some iw => Some iw
  | None => List.find (fun ip => bool_decide (qp_key ip = lp_key p)) iw_peers
  end.

Definition merge_info (iw_peers : list PeerInfo) (p : LinkPeerInfo) : LinkPeerInfo :=
  match find_info iw_peers p with
  | Some iw => mkLinkPeerInfo (lp_uri p) (lp_up p) (lp_inbound p) (lp_key p) (lp_priority p) (lp_rx_bytes p) (lp_tx_bytes p)
                 (lp_rx_rate p) (lp_tx_rate p) (lp_uptime_secs p) (qp_latency_ms iw) (qp_cost iw) (lp_last_error p) (lp_peer_id p)
  | None => p
  end.

Definition down_info (uri : string) (last_error : option string) : LinkPeerInfo :=
  mkLinkPeerInfo uri false false (replicate 32 0) 0 0 0 0 0 f64_zero f64_zero 0 last_error None.

(** Configured peers without a row get one. *)
Definition add_down (peers : list LinkPeerInfo) (configured : list (string * option string)) : list LinkPeerInfo :=
  foldl (fun peers '(uri, last_error) =>
    if existsb (fun p => bool_decide (lp_uri p = uri)) peers then peers else peers ++ [down_info uri last_error]) peers configured.

Definition uri_le (a b : LinkPeerInfo) : Prop := String.leb (lp_uri a) (lp_uri b) = true.
#[export] Instance uri_le_dec a b : Decision (uri_le a b).
Proof. unfold uri_le. apply _. Defined.

(** [Core::get_peers]. *)
Definition core_get_peers (now : Z) (iw_peers : list PeerInfo) (l : Links) : list LinkPeerInfo :=
  let peers := merge_info iw_peers <$> active_get_peers now (lk_active l) in
  merge_sort uri_le (add_down peers (get_configured_peers l)).

(** [Core::get_tree_keys]. *)
Definition get_tree_keys (r : Router) : list PublicKey := te_key <$> query_tree r.

(** [Core::get_tun_status]: enabled, name, MTU. *)
Definition get_tun_status (tun_info : option (string * Z)) : bool * string * Z :=
  match tun_info with Some (name, mtu) => (true, name, mtu) | None => (false, ""%string, 0) end.
End Queries.
