(* ===== verification/QueriesFacts.v ===== *)
(** * QueriesFacts: reports are true to the state

    A forced lookup goes to as many peers as the count of targets says, unless
    the path was asked for just before; the administrator's list of peers has a
    row for every link and every configured peer and no other, in the order of
    their URIs; the reported tree is the router's. *)

From stdpp Require Import strings options.
From S2P Require Import Prelude.
From S2P Require Import Wire.
From S2P Require Import Bloom.
From S2P Require Import Crypto.
From S2P Require Import Traffic.
From S2P Require Import Pathfinder.
From S2P Require Import Tree.
From S2P Require Import Router.
From S2P Require Import RouterFacts.
From S2P Require Import Actor.
From S2P Require Import RouterInv.
From S2P Require Import Liveness.
From S2P Require Import Links.
From S2P Require Import Queries.
Open Scope Z_scope.

Section Lookups.
Context {DK : Dalek} {HO : HashOrder} {EN : Entropy} (murmur3_x64_128 : bytes -> Z -> option Z).
Implicit Types r : Router.
Local Abbreviation test := (bloom_test murmur3_x64_128).

(** ** Forced lookups *)

Lemma targets_length b self to_key tr : self ∉ dom b ->
  length (get_multicast_targets murmur3_x64_128 b self to_key tr)
  = count_on_tree_targets_for_xkey murmur3_x64_128 b (x_key to_key tr).
Proof.
  intros Hself. unfold get_multicast_targets, count_on_tree_targets_for_xkey, map_values.
  assert (Forall (fun p => p.1 <> self) (map_iter b)) as Hl.
  { apply Forall_forall. intros [k i] Hk Hki. simpl in Hki. subst k. apply Hself, elem_of_dom. exists i. by apply elem_of_map_iter. }
  induction Hl as [|[k i] l Hk Hl IH]; [done|]. simpl in *. rewrite bool_decide_false by done.
  destruct (bi_on_tree i), (test (bi_recv i) (x_key to_key tr)); simpl; first [apply IH | apply (f_equal S IH)].
Qed.

(** A peer with a connection has a best one. *)
Lemma best_peer_some r key m : rt_peers r !! key = Some m -> m <> ∅ -> map_Forall (fun id e => pe_id e = id) m ->
  exists id, best_peer_for_key r key = Some id /\ is_Some (m !! id).
Proof.
  clear murmur3_x64_128 EN. intros Hm Hne Hids. unfold best_peer_for_key. rewrite Hm. cbn.
  assert (forall l best, (forall e, best = Some e -> e ∈ map_values m) -> (forall e, e ∈ l -> e ∈ map_values m) ->
    (is_Some best \/ l <> []) ->
    exists e, foldl (fun best e => match best with None => Some e
      | Some b => if pe_prio e <? pe_prio b then Some e else Some b end) best l = Some e /\ e ∈ map_values m) as Hfold.
  { induction l as [|e l IH]; intros best Hb Hl Hs; simpl.
    - destruct Hs as [[e He]|?]; [|done]. subst best. exists e. auto.
    - apply IH; [|set_solver|left; destruct best as [b|]; [case_match|]; eauto].
      intros e'. destruct best as [b|]; [case_match|]; intros [= ->]; set_solver. }
  destruct (Hfold (map_values m) None) as (e & -> & He); [done|auto| |].
  { right. intros Hnil. apply Hne, map_empty. intros id. destruct (m !! id) as [e|] eqn:E; [|done].
    assert (e ∈ map_values m) as Hin by (apply elem_of_map_values; eauto). rewrite Hnil in Hin. set_solver. }
  apply elem_of_map_values in He as [id He]. exists id. pose proof (Hids id e He) as Hid. simpl in Hid.
  cbn. rewrite Hid. eauto.
Qed.

Lemma omap_all {A B} (f : A -> option B) l : (forall x, x ∈ l -> is_Some (f x)) -> length (omap f l) = length l.
Proof.
  clear murmur3_x64_128 EN DK HO. induction l as [|x l IH]; intros Hl; [done|]. simpl. destruct (Hl x) as [y ->]; [set_solver|].
  simpl. f_equal. apply IH. set_solver.
Qed.

(** Only a rumor changes before the lookup is sent. *)
Lemma force_lookup_start r dest now unix_now : exists pf,
  force_lookup murmur3_x64_128 now unix_now r dest = send_lookup_msg murmur3_x64_128 now unix_now (r <| rt_pathfinder := pf |>) dest
  /\ pf_paths pf = pf_paths (rt_pathfinder r).
Proof.
  unfold force_lookup. set (r1 := match pf_rumors _ !! _ with Some _ => _ | None => _ end).
  assert (exists pf, r1 = r <| rt_pathfinder := pf |> /\ pf_paths pf = pf_paths (rt_pathfinder r)) as (pf & -> & Hpf); [|by eauto].
  unfold r1. case_match; eexists; (split; [by destruct r|]); [by destruct (rt_pathfinder r)|].
  unfold ensure_rumor. by case_match.
Qed.

Lemma force_lookup_unfold r dest now unix_now : cache_ok r ->
  x_key_of r dest <> x_key_of r (self_key_of r) ->
  should_throttle_lookup (rt_pathfinder r) dest (rt_path_throttle r) now = false ->
  exists r', (force_lookup murmur3_x64_128 now unix_now r dest) =
    (omap (fun k => (fun id => SendPathLookup id (mkPathLookup (self_key_of r) dest (coords (rt_infos r) (self_key_of r))))
                    <$> best_peer_for_key r k)
       (get_multicast_targets murmur3_x64_128 (rt_blooms r) (self_key_of r) dest (rt_bloom_transform r)), r').
Proof.
  intros Hc Hx Hthr. destruct (force_lookup_start r dest now unix_now) as (pf & -> & Hpf).
  unfold send_lookup_msg, do_send_lookup. unfold should_throttle_lookup in *. cbn [rt_pathfinder set_field] in *.
  simpl. rewrite Hpf, Hthr.
  match goal with |- context [cached_coords ?q ?k] =>
    destruct (cached_coords_spec q k) as (r2 & -> & [E2 _]); [exact Hc|] end.
  unfold handle_lookup_internal. rewrite E2. simpl. rewrite decide_False by exact Hx. eexists. reflexivity.
Qed.

Lemma path_lookups_only (f : PublicKey -> option PeerId) (l : PathLookup) keys :
  List.filter is_path_lookup (omap (fun k => (fun id => SendPathLookup id l) <$> f k) keys)
  = omap (fun k => (fun id => SendPathLookup id l) <$> f k) keys.
Proof. induction keys as [|k keys IH]; [done|]. simpl. destruct (f k); simpl; [by f_equal|done]. Qed.

(** Every peer with a filter has a connection to send over. *)
Lemma bloom_peer_linked r k : router_inv r -> k ∈ dom (rt_blooms r) ->
  exists id m, best_peer_for_key r k = Some id /\ rt_peers r !! k = Some m /\ is_Some (m !! id).
Proof.
  intros Hinv. rewrite (ri_blooms_dom r Hinv). intros [m Hm]%elem_of_dom.
  destruct (ri_links r Hinv k m Hm) as [Hne Hids].
  destruct (best_peer_some r k m Hm Hne) as (id & Hid & Hin); [|by eauto].
  intros i e He. by destruct (Hids i e He).
Qed.

Lemma forced_lookup_counted r dest now unix_now : router_inv r -> self_key_of r ∉ dom (rt_peers r) ->
  x_key_of r dest <> x_key_of r (self_key_of r) ->
  should_throttle_lookup (rt_pathfinder r) dest (rt_path_throttle r) now = false ->
  (query_force_lookup murmur3_x64_128 now unix_now r dest).1 = (query_count_lookup_targets murmur3_x64_128 r dest).2.
Proof.
  intros Hinv Hself Hdest Hthr. unfold query_force_lookup, query_count_lookup_targets.
  destruct (force_lookup_unfold r dest now unix_now (ri_cache r Hinv) Hdest Hthr) as (r' & ->). simpl.
  rewrite path_lookups_only, omap_all; [apply targets_length; by rewrite (ri_blooms_dom r Hinv)|].
  intros k (i & Hi & _)%elem_of_multicast_targets.
  destruct (bloom_peer_linked r k Hinv) as (id & m & -> & _); [by apply elem_of_dom|]. by eexists.
Qed.

(** A path to the destination is known and was last asked for within the throttle. *)
Definition asked_recently r (dest : PublicKey) (now : Z) : Prop :=
  exists info, pf_paths (rt_pathfinder r) !! dest = Some info /\ elapsed now (pi_req_time info) < rt_path_throttle r.

Lemma asked_recently_spec r dest now :
  should_throttle_lookup (rt_pathfinder r) dest (rt_path_throttle r) now = true <-> asked_recently r dest now.
Proof.
  unfold should_throttle_lookup, asked_recently. destruct (pf_paths (rt_pathfinder r) !! dest) as [info|].
  - rewrite Z.ltb_lt. split; [eauto|]. by intros (? & [= <-] & ?).
  - split; [done|]. by intros (? & ? & _).
Qed.

Lemma forced_lookup_suppressed r dest now unix_now :
  should_throttle_lookup (rt_pathfinder r) dest (rt_path_throttle r) now = true ->
  (force_lookup murmur3_x64_128 now unix_now r dest).1 = [].
Proof.
  intros Hthr. destruct (force_lookup_start r dest now unix_now) as (pf & -> & Hpf).
  unfold send_lookup_msg, do_send_lookup. unfold should_throttle_lookup in *. simpl. by rewrite Hpf, Hthr.
Qed.

(** C20: The lookup that the administrator forces, for a destination that is not
    this node. Unless a path to the destination is known and was asked for within
    the throttle, it goes to every peer on the tree whose filter covers the
    destination, over one of its links, and to nobody else, and the two numbers of
    the report, the targets counted and the lookups sent, are equal. If it was asked
    for within the throttle, nothing is sent and the report says so: forcing the
    lookup resets the time of the rumor, not that of the path. The tables are
    consistent and this node is not a peer of its own. *)
Theorem forced_lookup_reaches_targets r dest now unix_now
    (Hinv : router_inv r) (Hself : self_key_of r ∉ dom (rt_peers r))
    (Hdest : x_key_of r dest <> x_key_of r (self_key_of r)) :
  let reply := query_force_lookup murmur3_x64_128 now unix_now r dest in
  (asked_recently r dest now -> reply.1 = 0%nat /\ reply.2.1 = [])
  /\ (~ asked_recently r dest now ->
      reply.1 = (query_count_lookup_targets murmur3_x64_128 r dest).2
      /\ (forall a, a ∈ reply.2.1 -> exists k i id m l, rt_blooms r !! k = Some i /\ bi_on_tree i = true
            /\ test (bi_recv i) (x_key_of r dest) = true /\ rt_peers r !! k = Some m /\ is_Some (m !! id)
            /\ a = SendPathLookup id l /\ pl_dest l = dest /\ pl_source l = self_key_of r)
      /\ (forall k i, rt_blooms r !! k = Some i -> bi_on_tree i = true -> test (bi_recv i) (x_key_of r dest) = true ->
            exists id m l, rt_peers r !! k = Some m /\ is_Some (m !! id) /\ SendPathLookup id l ∈ reply.2.1)).
Proof.
  intros reply. subst reply. split.
  { intros Hthr%asked_recently_spec. pose proof (forced_lookup_suppressed r dest now unix_now Hthr) as Hs. unfold query_force_lookup.
    destruct (force_lookup murmur3_x64_128 now unix_now r dest) as [acts r']. simpl in *. by rewrite Hs. }
  intros Hthr. rewrite <- asked_recently_spec in Hthr. apply not_true_is_false in Hthr.
  split; [by apply forced_lookup_counted|]. unfold query_force_lookup.
  destruct (force_lookup_unfold r dest now unix_now (ri_cache r Hinv) Hdest Hthr) as (r' & ->). simpl. split.
  - intros a (k & (i & Hi & Hon & _ & Ht)%elem_of_multicast_targets & Ha)%list_elem_of_omap.
    destruct (bloom_peer_linked r k Hinv) as (id & m & Hid & Hm & Hl); [by apply elem_of_dom|]. rewrite Hid in Ha. injection Ha as <-.
    naive_solver.
  - intros k i Hi Hon Ht. destruct (bloom_peer_linked r k Hinv) as (id & m & Hid & Hm & Hl); [by apply elem_of_dom|].
    eexists id, m, _. split_and!; [done..|]. apply list_elem_of_omap. exists k. rewrite Hid. split; [|done].
    apply elem_of_multicast_targets. exists i. split_and!; [done..| |done].
    intros ->. apply Hself. rewrite <- (ri_blooms_dom r Hinv). by apply elem_of_dom.
Qed.

(** A path to the destination that was asked for within the throttle keeps the
    forced lookup from being sent. *)
Theorem forced_lookup_throttled r dest now unix_now
    (Hthr : should_throttle_lookup (rt_pathfinder r) dest (rt_path_throttle r) now = true) :
  (query_force_lookup murmur3_x64_128 now unix_now r dest).1 = 0%nat.
Proof.
  unfold query_force_lookup. destruct (force_lookup_start r dest now unix_now) as (pf & -> & Hpf).
  unfold send_lookup_msg, do_send_lookup. unfold should_throttle_lookup in *. simpl. by rewrite Hpf, Hthr.
Qed.
End Lookups.

(** ** The list of peers *)

Section PeerList.
Context {F64 : Type} (f64_zero : F64) (ms_f64 secs_f64 : Z -> F64) `{HashOrder}.
Local Abbreviation row := (@LinkPeerInfo F64) (only parsing).

#[local] Instance uri_le_trans : Transitive (@uri_le F64).
Proof. unfold uri_le. intros a b c Ha Hb. apply Is_true_true. by transitivity (lp_uri b); apply Is_true_true. Qed.
#[local] Instance uri_le_total : Total (@uri_le F64).
Proof. unfold uri_le. intros a b. apply String.leb_total. Qed.

Lemma merge_info_same iw (p : row) : lp_uri (merge_info iw p) = lp_uri p /\ lp_up (merge_info iw p) = lp_up p
  /\ lp_key (merge_info iw p) = lp_key p.
Proof. unfold merge_info. by case_match. Qed.

(** Rows are added for the URIs that have none, once each. *)
Lemma add_down_spec (peers : list row) configured : NoDup configured.*1 ->
  exists down, add_down f64_zero peers configured = peers ++ down
    /\ down = (fun p => down_info f64_zero p.1 p.2) <$> List.filter (fun p => negb (existsb (fun q : row => bool_decide (lp_uri q = p.1)) peers)) configured.
Proof.
  revert peers. induction configured as [|[uri e] configured IH]; intros peers Hn; simpl.
  - exists []. by rewrite app_nil_r.
  - apply NoDup_cons in Hn as [Hu Hn]. simpl in Hu. destruct (existsb _ peers) eqn:E; simpl.
    + by apply IH.
    + destruct (IH (peers ++ [down_info f64_zero uri e]) Hn) as (down & -> & ->). eexists. split; [by rewrite <- app_assoc|].
      cbn. f_equal. f_equal. apply List.filter_ext_in. intros [u' e'] Hin%list_elem_of_In.
      rewrite existsb_app. cbn. rewrite bool_decide_false, !orb_false_r; [done|].
      intros ->. apply Hu, list_elem_of_fmap. by exists (u', e').
Qed.

Lemma configured_keys (l : Links) : (get_configured_peers l).*1 = map_keys (lk_peers l).
Proof. unfold get_configured_peers. rewrite <- list_fmap_compose. apply list_fmap_id. Qed.

Lemma has_row (rows : list row) uri : existsb (fun q : row => bool_decide (lp_uri q = uri)) rows = true <->
  exists q, q ∈ rows /\ lp_uri q = uri.
Proof.
  rewrite existsb_exists. split; intros (q & Hq & E); exists q;
    [apply list_elem_of_In in Hq; by apply bool_decide_eq_true in E|split; [by apply list_elem_of_In|by apply bool_decide_eq_true]].
Qed.

Lemma up_rows now iw (l : ActiveLinks) (q : row) : q ∈ merge_info iw <$> active_get_peers f64_zero secs_f64 now l ->
  exists c, c ∈ map_values (al_connections l) /\ q = merge_info iw (conn_info f64_zero secs_f64 now c) /\ lp_uri q = ac_uri c /\ lp_up q = true.
Proof.
  unfold active_get_peers. rewrite <- list_fmap_compose. intros (c & -> & Hc)%list_elem_of_fmap. exists c. cbn.
  destruct (merge_info_same iw (conn_info f64_zero secs_f64 now c)) as (-> & -> & _). by split_and!.
Qed.

Lemma find_by_id (iw : list (@PeerInfo F64)) id ip : NoDup (qp_id <$> iw) -> ip ∈ iw -> qp_id ip = id ->
  List.find (fun ip => qp_id ip =? id) iw = Some ip.
Proof.
  intros Hnd Hin Hip. induction iw as [|a iw IH]; [set_solver|]. cbn in *. apply NoDup_cons in Hnd as [Ha Hnd].
  apply elem_of_cons in Hin as [<-|Hin]; [by rewrite (proj2 (Z.eqb_eq _ _) Hip)|].
  destruct (Z.eqb_spec (qp_id a) id) as [E|]; [|by apply IH].
  exfalso. apply Ha. rewrite E, <- Hip. by apply list_elem_of_fmap_2.
Qed.

(** What the administrator is shown of the peers: the rows are in the order of
    their URIs; every connection has exactly one row that is up, with the latency
    and the cost of its own link where the router knows it by id; every configured
    peer without a connection has exactly one row that is down, with its last
    error; there are no other rows. *)
Theorem peer_list_complete now (iw : list (@PeerInfo F64)) (l : Links) :
  let rows := core_get_peers f64_zero secs_f64 now iw l in
  let connected uri := exists id c, al_connections (lk_active l) !! id = Some c /\ ac_uri c = uri in
  StronglySorted uri_le rows
  /\ (exists up down, rows ≡ₚ up ++ down
       /\ up = (fun c => merge_info iw (conn_info f64_zero secs_f64 now c)) <$> map_values (al_connections (lk_active l))
       /\ NoDup (lp_uri <$> down)
       /\ forall q, q ∈ down <-> exists uri, is_Some (lk_peers l !! uri) /\ ~ connected uri
                                   /\ q = down_info f64_zero uri (mjoin (lk_peer_errors l !! uri)))
  /\ (forall c ip, ac_peer_id c <> NO_PEER_ID -> NoDup (qp_id <$> iw) -> ip ∈ iw -> qp_id ip = ac_peer_id c ->
       let q := merge_info iw (conn_info f64_zero secs_f64 now c) in lp_latency_ms q = qp_latency_ms ip /\ lp_cost q = qp_cost ip).
Proof.
  intros rows connected. unfold rows, core_get_peers. split_and!.
  - apply (StronglySorted_merge_sort uri_le).
  - set (up := merge_info iw <$> active_get_peers f64_zero secs_f64 now (lk_active l)).
    assert (NoDup (get_configured_peers l).*1) as Hn by (rewrite configured_keys; apply map_keys_nodup).
    destruct (add_down_spec up _ Hn) as (down & -> & Hdown).
    exists up, down. split_and!; [apply (merge_sort_Permutation uri_le)|unfold up, active_get_peers; by rewrite <- list_fmap_compose| |].
    + rewrite Hdown, <- list_fmap_compose. eapply sublist_NoDup; [exact Hn|].
      apply fmap_sublist. clear. induction (get_configured_peers l) as [|p t IH]; simpl; [constructor|].
      destruct (negb _); [by constructor|by constructor].
    + intros q. rewrite Hdown, list_elem_of_fmap. split.
      * intros ([uri e] & -> & [Hin Hno]%list_elem_of_In%filter_In). cbn in *.
        apply list_elem_of_In in Hin. unfold get_configured_peers in Hin.
        apply list_elem_of_fmap in Hin as (uri' & [= -> ->] & Hk%elem_of_map_keys). exists uri'. split_and!; [done| |done].
        intros (id & c & Hc & Hu). apply negb_true_iff in Hno. apply not_true_iff_false in Hno. apply Hno, has_row.
        exists (merge_info iw (conn_info f64_zero secs_f64 now c)). split; [|by rewrite (proj1 (merge_info_same iw _))].
        unfold up, active_get_peers. rewrite <- list_fmap_compose. apply list_elem_of_fmap. exists c. split; [done|].
        apply elem_of_map_values. by exists id.
      * intros (uri & Hk & Hno & ->). eexists (uri, _). split; [done|]. apply list_elem_of_In, filter_In. split.
        -- apply list_elem_of_In, list_elem_of_fmap. exists uri. split; [done|]. by apply elem_of_map_keys.
        -- apply negb_true_iff, not_true_iff_false. intros (q & (c & Hc & _ & Hu & _)%up_rows & Hq)%has_row. cbn in Hq.
           apply elem_of_map_values in Hc as [id Hc]. apply Hno. exists id, c. split; [done|]. by rewrite <- Hu.
  - intros c ip Hid Hnd Hin Hip. cbn. unfold merge_info, find_info. cbn. rewrite (proj2 (Z.eqb_neq _ _) Hid). cbn.
    by rewrite (find_by_id _ _ ip).
Qed.
End PeerList.

Lemma key_le_iff {A} (f : A -> PublicKey) a b : key_le f a b <-> bytes_lt (f a) (f b) \/ f a = f b.
Proof.
  unfold key_le, bytes_lt. rewrite <- (bytes_cmp_eq (f a)). destruct (bytes_cmp (f a) (f b)); naive_solver.
Qed.
#[local] Instance key_le_trans {A} (f : A -> PublicKey) : Transitive (key_le f).
Proof.
  intros a b c. rewrite !key_le_iff. intros [Hab|Eab] [Hbc|Ebc]; rewrite ?Eab, <- ?Ebc; auto. left. by transitivity (f b).
Qed.
#[local] Instance key_le_total {A} (f : A -> PublicKey) : Total (key_le f).
Proof. intros a b. rewrite !key_le_iff. destruct (bytes_lt_total (f a) (f b)) as [?|[?|?]]; auto. Qed.

(** The reported tree: the router's nodes, sorted by key, as many as the number
    of routing entries. *)
Lemma tree_report_exact `{Dalek} `{HashOrder} (r : Router) :
  StronglySorted (key_le te_key) (query_tree r)
  /\ (forall t, t ∈ query_tree r <-> exists info, rt_infos r !! te_key t = Some info
        /\ te_parent t = ri_parent info /\ te_sequence t = ri_seq info)
  /\ length (get_tree_keys r) = query_routing_entries r.
Proof.
  unfold get_tree_keys, query_tree, query_routing_entries. split_and!.
  - apply (StronglySorted_merge_sort _).
  - intros t. rewrite (merge_sort_Permutation _ _), list_elem_of_fmap. split.
    + intros ([k info] & -> & Hk%elem_of_map_iter). by exists info.
    + intros (info & Hk & Hp & Hs). exists (te_key t, info). split; [|by apply elem_of_map_iter]. destruct t. simpl in *. by subst.
  - rewrite length_fmap, (merge_sort_Permutation _ _), length_fmap. unfold map_iter. rewrite hash_order_perm.
    apply length_map_to_list.
Qed.

(** ** Witness *)

(** A node with one peer on the tree, whose filter covers node 9. *)
Definition linked_router : @Router toy_dalek :=
  (@Router.add_peer toy_dalek id_order sample_entropy sample_router (mkPeerEntry 11 (node 1) 5 0 0)).2
    <| rt_blooms := {[ node 1 := BloomInfo_new <| bi_on_tree := true |> <| bi_recv := bloom_add sample_murmur BloomFilter_new (node 9) |> ]} |>.

Lemma with_blooms_inv `{Dalek} (r : Router) b : router_inv r -> blooms_wf b -> dom b = dom (rt_peers r) ->
  router_inv (r <| rt_blooms := b |>).
Proof. intros [] Hb Hd. by split. Qed.

Lemma linked_router_inv : @router_inv toy_dalek linked_router.
Proof.
  apply (@with_blooms_inv toy_dalek).
  - apply add_peer_inv, Router_new_inv.
  - apply map_Forall_singleton. split_and!; [apply BloomFilter_new_wf| |done|done].
    apply (bloom_add_spec sample_murmur BloomFilter_new (node 9)), BloomFilter_new_wf.
  - apply leibniz_equiv. vm_compute. done.
Qed.

Lemma forced_lookup_reaches_targets_witness :
  (@query_force_lookup toy_dalek id_order sample_murmur 5 1 linked_router (node 9)).1 = 1%nat.
Proof.
  destruct (@forced_lookup_reaches_targets toy_dalek id_order sample_murmur linked_router (node 9) 5 1 linked_router_inv
    ltac:(apply not_elem_of_dom; vm_compute; reflexivity) ltac:(vm_compute; discriminate)) as [_ H].
  destruct H as [-> _].
  - intros (info & Hi & _). vm_compute in Hi. discriminate Hi.
  - vm_compute. reflexivity.
Defined.
