(* ===== verification/Admin.v ===== *)
(** * Admin: the administration socket

    Models [crates/yggdrasil/src/admin.rs]: the socket's address, the loop of a
    connection ([handle_admin_conn]) over the bytes that arrive, and every action
    of [handle_request]. The node is a client's view of it, the class
    [AdminCore]; [serde_json], the printing of addresses and the lower-casing of
    Unicode text are parameters. What a connection reads between two waits is one
    state of the node. *)

From stdpp Require Import strings options.
From S2P Require Import Prelude.
From S2P Require Import Wire.
From S2P Require Import Address.
From S2P Require Import Proto.
From S2P Require Import Multicast.
From S2P Require Import Text.
From S2P Require Import Config.
From S2P Require Import Queries.
Open Scope Z_scope.

(** ** Requests and responses *)

Record AdminRequest {N : Type} := mkAdminRequest { rq_request : str; rq_arguments : JsonValue N; rq_keepalive : bool }.
Arguments AdminRequest : clear implicits. Arguments mkAdminRequest {N}.

Record AdminResponse {N : Type} := mkAdminResponse {
  rs_status : str; rs_error : option str; rs_request : AdminRequest N; rs_response : JsonValue N }.
Arguments AdminResponse : clear implicits. Arguments mkAdminResponse {N}.

(** A session as it is reported. *)
Record SessionEntry {F64 : Type} := mkSessionEntry { se_key : PublicKey; se_uptime_seconds : F64; se_bytes_sent : Z; se_bytes_recvd : Z }.
Arguments SessionEntry : clear implicits. Arguments mkSessionEntry {F64}.

(** What the socket asks of a node: reports, and operations that may change it.
    An error is its text. *)
Class AdminCore (F64 N C : Type) := {
  co_public_key : C -> PublicKey;
  co_node_info_json : C -> str;
  co_routing_entries : C -> nat;
  co_tree_coordinates : C -> list PeerPort;
  co_get_peers : C -> list (@LinkPeerInfo F64);
  co_get_tree : C -> list TreeEntry;
  co_get_paths : C -> list PathEntry;
  co_get_sessions : C -> list (SessionEntry F64);
  co_get_multicast_interfaces : C -> list MulticastInterfaceInfo;
  co_get_tun_status : C -> bool * string * Z;
  co_get_debug_snapshot : C -> @DebugSnapshot F64;
  co_count_lookup_targets : PublicKey -> C -> PublicKey * nat;
  co_force_lookup : PublicKey -> C -> nat * C;
  co_add_peer : str -> C -> result str () * C;
  co_remove_peer : str -> C -> result str () * C;
  (** [send_nodeinfo_request] and [send_get_self_request]. *)
  co_query_json : Kind -> PublicKey -> C -> result str (JsonValue N) * C;
  (** [send_get_peers_request] and [send_get_tree_request]. *)
  co_query_keys : Kind -> PublicKey -> C -> result str (list PublicKey) * C
}.

(** [[u8]::eq_ignore_ascii_case] on text. *)
Definition ascii_lower (c : Z) : Z := if (65 <=? c) && (c <=? 90) then c + 32 else c.
Definition eq_ignore_ascii_case (a b : str) : bool := bool_decide (ascii_lower <$> a = ascii_lower <$> b).

(** [hex::encode]. *)
Definition hex_encode (bs : bytes) : str := mjoin (show_02x <$> bs).

Definition MAX_REQUEST_SIZE : nat := (1024 * 1024)%nat.

Definition ACTIONS : list str := lit <$>
  ["list"; "getself"; "getpeers"; "gettree"; "getpaths"; "getsessions"; "gettun"; "getmulticastinterfaces"; "addpeer"; "removepeer";
   "getdebug"; "getlookup"; "forcelookup"; "getnodeinfo"; "debug_remotegetself"; "debug_remotegetpeers"; "debug_remotegettree"].

Section Admin.
Context {F64 N C : Type} {AC : AdminCore F64 N C}.
(** [serde_json]: numbers, and the value of a text. *)
Context (num : Z -> N) (json_f64 : F64 -> JsonValue N) (from_str : str -> option (JsonValue N)).
(** The texts of an address and of a subnet, the prefix in use, the lower case of
    a text, the constants of the build. *)
Context (show_address : Address -> str) (show_subnet : Subnet -> str) (prefix : Z) (to_lowercase : str -> str).
Context (pkg_name pkg_version : str).

Local Abbreviation json := (JsonValue N) (only parsing).

Definition jnum (n : Z) : json := JNumber (num n).
Definition jcount (n : nat) : json := jnum (Z.of_nat n).
Definition jstr (s : str) : json := JString s.
Definition jopt (s : option string) : json := match s with Some s => JString (lit s) | None => JNull end.
Definition jobject (fields : list (string * json)) : json := JObject ((fun p => (lit p.1, p.2)) <$> fields).
Definition jaddress (key : PublicKey) : json := JString (show_address (addr_for_key prefix key)).
Definition jhex (bs : bytes) : json := JString (hex_encode bs).

(** ** Arguments *)

(** [arguments.get(name).and_then(as_str)]. *)
Definition arg_str (name : string) (arguments : json) : option str :=
  match arguments with
  | JObject l => match object_get (lit name) l with Some (JString s) => Some s | _ => None end
  | _ => None
  end.

Definition key_of_hex (key_str : str) : result str PublicKey :=
  match hex_decode key_str with
  | None => Err (lit "invalid hex key")
  | Some key_bytes => if negb (length key_bytes =? 32)%nat then Err (lit "key must be 32 bytes") else Ok key_bytes
  end.

Definition key_arg (arguments : json) : result str PublicKey :=
  match arg_str "key" arguments with
  | None => Err (lit "missing 'key' argument")
  | Some key_str => key_of_hex key_str
  end.

Definition uri_arg (arguments : json) : result str str := ok_or (lit "missing 'uri' argument") (arg_str "uri" arguments).

(** ** Reports *)

Definition self_report (c : C) : json :=
  jobject [("build_name", jstr pkg_name); ("build_version", jstr pkg_version); ("key", jhex (co_public_key c));
           ("address", jaddress (co_public_key c)); ("subnet", jstr (show_subnet (subnet_for_key prefix (co_public_key c))));
           ("coordinates", JArray (jnum <$> co_tree_coordinates c)); ("routing_entries", jcount (co_routing_entries c))]%string.

Definition peer_report (p : @LinkPeerInfo F64) : json :=
  let '(address, subnet, key) :=
    if lp_up p then (jaddress (lp_key p), jstr (show_subnet (subnet_for_key prefix (lp_key p))), jhex (lp_key p))
    else (jstr (lit "-"), jstr (lit "-"), jstr (lit "-")) in
  jobject [("uri", jstr (lit (lp_uri p))); ("up", JBool (lp_up p)); ("inbound", JBool (lp_inbound p)); ("key", key); ("address", address);
           ("subnet", subnet); ("priority", jnum (lp_priority p)); ("cost", jnum (lp_cost p)); ("latency", json_f64 (lp_latency_ms p));
           ("bytes_recvd", jnum (lp_rx_bytes p)); ("bytes_sent", jnum (lp_tx_bytes p)); ("rx_rate", jnum (lp_rx_rate p));
           ("tx_rate", jnum (lp_tx_rate p)); ("uptime", json_f64 (lp_uptime_secs p)); ("last_error", jopt (lp_last_error p))]%string.

Definition tree_report (t : TreeEntry) : json :=
  jobject [("key", jhex (te_key t)); ("address", jaddress (te_key t)); ("parent", jhex (te_parent t)); ("sequence", jnum (te_sequence t))]%string.

Definition path_report (p : PathEntry) : json :=
  jobject [("key", jhex (pt_key p)); ("address", jaddress (pt_key p)); ("path", JArray (jnum <$> pt_path p)); ("sequence", jnum (pt_sequence p))]%string.

Definition session_report (s : SessionEntry F64) : json :=
  jobject [("key", jhex (se_key s)); ("address", jaddress (se_key s)); ("bytes_sent", jnum (se_bytes_sent s));
           ("bytes_recvd", jnum (se_bytes_recvd s)); ("uptime", json_f64 (se_uptime_seconds s))]%string.

Definition interface_report (i : MulticastInterfaceInfo) : json :=
  jobject [("name", jstr (lit (mf_name i))); ("beacon", JBool (mf_beacon i)); ("listen", JBool (mf_listen i)); ("port", jnum (mf_port i));
           ("password", JBool (mf_password i))]%string.

Definition pending_report (p : @PendingLookup F64) : json :=
  let dest_info := match pk_dest_key p with
                   | Some k => jobject [("key", jhex k); ("address", jaddress k)]%string
                   | None => JNull
                   end in
  jobject [("dest", dest_info); ("xformed_key", jhex (pk_xformed_key p)); ("age_secs", json_f64 (pk_age_secs p)); ("sent", JBool (pk_sent p));
           ("multicast_count", jcount (pk_multicast_count p))]%string.

Definition down_report (p : @LinkPeerInfo F64) : json :=
  jobject [("uri", jstr (lit (lp_uri p))); ("last_error", jopt (lp_last_error p))]%string.

Definition debug_report (snap : @DebugSnapshot F64) (sessions : list (SessionEntry F64)) (peers : list (@LinkPeerInfo F64)) : json :=
  jobject [("tree_node_count", jcount (sn_tree_node_count snap)); ("routing_peer_count", jcount (sn_routing_peer_count snap));
           ("tree_root", jhex (sn_tree_root snap)); ("our_coords", JArray (jnum <$> sn_our_coords snap));
           ("path_cache_count", jcount (sn_path_cache_count snap)); ("broken_path_count", jcount (sn_broken_path_count snap));
           ("pending_lookups", JArray (pending_report <$> sn_pending_lookups snap)); ("unresponded_peers", jcount (sn_unresponded_peers snap));
           ("delivery_queue_bytes", jnum (sn_delivery_queue_bytes snap));
           ("peer_latencies", JArray ((fun '(key, ms) => jobject [("key", jhex key); ("address", jaddress key); ("latency_ms", json_f64 ms)]%string)
                                      <$> sn_peer_latencies_ms snap));
           ("peers_down", JArray (down_report <$> List.filter (fun p => negb (lp_up p)) peers));
           ("sessions", JArray (session_report <$> sessions))]%string.

(** ** Actions *)

(** The answer to a request of the key, or the error before the node is asked. *)
Definition with_key (arguments : json) (c : C) (f : PublicKey -> result str json * C) : result str json * C :=
  match key_arg arguments with Err e => (Err e, c) | Ok key => f key end.

(** [map_err(|e| format!("... failed: {}", e))]. *)
Definition failed (what : string) (e : str) : str := lit what ++ lit " failed: " ++ e.

Definition peer_action (what : string) (op : str -> C -> result str () * C) (arguments : json) (c : C) : result str json * C :=
  match uri_arg arguments with
  | Err e => (Err e, c)
  | Ok uri => let '(r, c) := op uri c in (match r with Ok _ => Ok (JObject []) | Err e => Err (failed what e) end, c)
  end.

Definition query_keys (what : string) (k : Kind) (arguments : json) (c : C) : result str json * C :=
  with_key arguments c (fun key =>
    let '(r, c) := co_query_keys k key c in
    (match r with
     | Ok keys => Ok (JObject [(show_address (addr_for_key prefix key), jobject [("keys", JArray (jhex <$> keys))]%string)])
     | Err e => Err (failed what e)
     end, c)).

Definition get_node_info (arguments : json) (c : C) : result str json * C :=
  let key_str := default [] (arg_str "key" arguments) in
  let self_key := hex_encode (co_public_key c) in
  if bool_decide (key_str = []) || eq_ignore_ascii_case key_str self_key
  then (Ok (JObject [(self_key, default (JObject []) (from_str (co_node_info_json c)))]), c)
  else match key_of_hex key_str with
       | Err e => (Err e, c)
       | Ok key =>
           let '(r, c) := co_query_json NodeInfo key c in
           (match r with Ok v => Ok (JObject [(hex_encode key, v)]) | Err e => Err (failed "getNodeInfo" e) end, c)
       end.

Definition handle_request (req : AdminRequest N) (c : C) : result str json * C :=
  let arguments := rq_arguments req in
  let action := to_lowercase (rq_request req) in
  let asks (name : string) := bool_decide (action = lit name) in
  if asks "list" then (Ok (jobject [("list", JArray (jstr <$> ACTIONS))]%string), c)
  else if asks "getself" then (Ok (self_report c), c)
  else if asks "getpeers" then (Ok (jobject [("peers", JArray (peer_report <$> co_get_peers c))]%string), c)
  else if asks "gettree" then (Ok (jobject [("tree", JArray (tree_report <$> co_get_tree c))]%string), c)
  else if asks "addpeer" then peer_action "addPeer" co_add_peer arguments c
  else if asks "removepeer" then peer_action "removePeer" co_remove_peer arguments c
  else if asks "getpaths" then (Ok (jobject [("paths", JArray (path_report <$> co_get_paths c))]%string), c)
  else if asks "getsessions" then (Ok (jobject [("sessions", JArray (session_report <$> co_get_sessions c))]%string), c)
  else if asks "getmulticastinterfaces"
  then (Ok (jobject [("multicast_interfaces", JArray (interface_report <$> co_get_multicast_interfaces c))]%string), c)
  else if asks "gettun" then
    let '(enabled, name, mtu) := co_get_tun_status c in
    (Ok (jobject [("enabled", JBool enabled); ("name", jstr (lit name)); ("mtu", jnum mtu)]%string), c)
  else if asks "getdebug" then (Ok (debug_report (co_get_debug_snapshot c) (co_get_sessions c) (co_get_peers c)), c)
  else if asks "getlookup" then
    with_key arguments c (fun key =>
      let '(xformed_key, multicast_count) := co_count_lookup_targets key c in
      (Ok (jobject [("key", jhex key); ("address", jaddress key); ("xformed_key", jhex xformed_key);
                    ("multicast_count", jcount multicast_count)]%string), c))
  else if asks "forcelookup" then
    with_key arguments c (fun key =>
      let '(xformed_key, bloom_targets) := co_count_lookup_targets key c in
      let '(sent_to, c) := co_force_lookup key c in
      (Ok (jobject [("key", jhex key); ("address", jaddress key); ("xformed_key", jhex xformed_key);
                    ("bloom_targets", jcount bloom_targets); ("sent_to", jcount sent_to)]%string), c))
  else if asks "getnodeinfo" then get_node_info arguments c
  else if asks "debug_remotegetself" then
    with_key arguments c (fun key =>
      let '(r, c) := co_query_json GetSelf key c in
      (match r with
       | Ok v => Ok (JObject [(show_address (addr_for_key prefix key), v)])
       | Err e => Err (failed "debug_remoteGetSelf" e)
       end, c))
  else if asks "debug_remotegetpeers" then query_keys "debug_remoteGetPeers" GetPeers arguments c
  else if asks "debug_remotegettree" then query_keys "debug_remoteGetTree" GetTree arguments c
  else (Err (lit "unknown action '" ++ action ++ lit "', try 'list' for help"), c).

(** ** A connection *)

(** How the bytes of a connection end: it is closed, it fails, or nothing more
    comes within the ten seconds of a request. Bytes after a request that timed
    out are never read, so this is the first such silence. *)
Inductive StreamEnd := EndClosed | EndFailed | EndSilent.

(** What reading a request gives: the bytes, the end of the stream, an error of
    it, or the timeout. *)
Inductive ReadResult := ReadBytes (buf rest : bytes) | ReadEof | ReadFailed | ReadTimeout.

(** The bytes up to the first line feed among the next [limit], or [None] if it
    has not come. *)
Fixpoint split_line (limit : nat) (s : bytes) : option (bytes * bytes) :=
  match limit, s with
  | O, s => Some ([], s)
  | S _, [] => None
  | S limit, b :: s =>
      if b =? 10 then Some ([b], s)
      else match split_line limit s with Some (buf, rest) => Some (b :: buf, rest) | None => None end
  end.

(** [timeout(take(MAX_REQUEST_SIZE).read_until(b'\n'))]. *)
Definition read_request (s : bytes) (e : StreamEnd) : ReadResult :=
  match split_line MAX_REQUEST_SIZE s with
  | Some (buf, rest) => ReadBytes buf rest
  | None => match e with
            | EndClosed => if bool_decide (s = []) then ReadEof else ReadBytes s []
            | EndFailed => ReadFailed
            | EndSilent => ReadTimeout
            end
  end.

(** The text of the bytes, and the request in a text. *)
Context (from_utf8_lossy : bytes -> str) (parse_request : str -> result str (AdminRequest N)).

Definition is_line (buf : bytes) : bool := match last buf with Some b => b =? 10 | None => false end.

(** What the bytes ask for: [None] is a blank line. *)
Definition request_of (buf : bytes) : option (result str (AdminRequest N)) :=
  if negb (is_line buf) && (MAX_REQUEST_SIZE <=? length buf)%nat
  then Some (Err (lit "request exceeds " ++ show (Z.of_nat MAX_REQUEST_SIZE) ++ lit " bytes"))
  else
    let line := trim (from_utf8_lossy buf) in
    if bool_decide (line = []) then None
    else Some (match parse_request line with Ok r => Ok r | Err e => Err (lit "failed to parse request: " ++ e) end).

Definition error_response (e : str) : AdminResponse N :=
  mkAdminResponse (lit "error") (Some e) (mkAdminRequest [] JNull false) JNull.

Definition respond (req : AdminRequest N) (r : result str json) : AdminResponse N :=
  match r with
  | Ok response => mkAdminResponse (lit "success") None req response
  | Err e => mkAdminResponse (lit "error") (Some e) req JNull
  end.

(** The responses written and the node afterwards; [None] is running out of
    fuel. *)
Fixpoint conn_loop (fuel : nat) (s : bytes) (e : StreamEnd) (c : C) : option (list (AdminResponse N) * C) :=
  match fuel with
  | O => None
  | S fuel =>
      match read_request s e with
      | ReadEof | ReadFailed => Some ([], c)
      | ReadTimeout => Some ([error_response (lit "timed out waiting for request")], c)
      | ReadBytes buf rest =>
          match request_of buf with
          | None => conn_loop fuel rest e c
          | Some (Err err) => Some ([error_response err], c)
          | Some (Ok req) =>
              let '(r, c) := handle_request req c in
              let resp := respond req r in
              if rq_keepalive req
              then match conn_loop fuel rest e c with Some (resps, c) => Some (resp :: resps, c) | None => None end
              else Some ([resp], c)
          end
      end
  end.

Definition handle_admin_conn (s : bytes) (e : StreamEnd) (c : C) : option (list (AdminResponse N) * C) :=
  conn_loop (S (length s)) s e c.

(** The objects that are printed; an error that is not there is left out. *)
Definition request_json (req : AdminRequest N) : json :=
  jobject [("request", jstr (rq_request req)); ("arguments", rq_arguments req); ("keepalive", JBool (rq_keepalive req))]%string.
Definition response_json (resp : AdminResponse N) : json :=
  let error := match rs_error resp with Some e => [("error"%string, jstr e)] | None => [] end in
  jobject (("status"%string, jstr (rs_status resp)) :: error
           ++ [("request"%string, request_json (rs_request resp)); ("response"%string, rs_response resp)]).

(** [write_response]: a line of text. *)
Definition write_response (to_bytes : json -> bytes) (resp : AdminResponse N) : bytes := to_bytes (response_json resp) ++ [10].
End Admin.

(** ** The socket *)

Inductive SocketError := NotTcp (listen_addr : str) | BindFailed.

(** [None]: there is no socket. [bind] is whether the address can be listened
    on. *)
Definition AdminSocket_new (bind : str -> bool) (listen_addr : str) : result SocketError (option str) :=
  if bool_decide (listen_addr = []) || bool_decide (listen_addr = lit "none") then Ok None
  else match strip_prefix (lit "tcp://") listen_addr with
       | None => Err (NotTcp listen_addr)
       | Some addr => if bind addr then Ok (Some addr) else Err BindFailed
       end.
