(* ===== verification/AdminFacts.v ===== *)
(** * AdminFacts: the administration socket answers every request

    Reading a connection ends; each line gets one answer, in order, until the
    first that does not ask to keep the connection; the actions it knows are the
    ones it lists; nothing but well-formed requests of a few actions reaches the
    node. *)

From stdpp Require Import strings options.
From S2P Require Import Prelude.
From S2P Require Import Wire.
From S2P Require Import Address.
From S2P Require Import Proto.
From S2P Require Import Multicast.
From S2P Require Import Text.
From S2P Require Import Config.
From S2P Require Import Queries.
From S2P Require Import Admin.
Open Scope Z_scope.

Lemma max_request_pos : MAX_REQUEST_SIZE <> 0%nat.
Proof. discriminate. Qed.
#[local] Opaque MAX_REQUEST_SIZE.

(** ** Reading lines *)

(** A complete line: one line feed, at its end. *)
Definition complete_line (l : bytes) : Prop := exists b, l = b ++ [10] /\ Forall (fun x => x <> 10) b.

Lemma complete_line_intro b : Forall (fun x => x <> 10) b -> (length b < MAX_REQUEST_SIZE)%nat ->
  complete_line (b ++ [10]) /\ (length (b ++ [10%Z]) <= MAX_REQUEST_SIZE)%nat.
Proof. intros Hb Hl. split; [by exists b|]. rewrite length_app. simpl. lia. Qed.

Lemma split_line_complete limit b rest : Forall (fun x => x <> 10) b -> (length b < limit)%nat ->
  split_line limit (b ++ 10 :: rest) = Some (b ++ [10], rest).
Proof.
  intros Hb. revert limit. induction Hb as [|x b Hx Hb IH]; intros [|limit] Hl; simpl in *; try lia; [done|].
  rewrite (proj2 (Z.eqb_neq x 10) Hx), IH by lia. done.
Qed.

Lemma split_line_partial limit t : Forall (fun x => x <> 10) t -> (length t < limit)%nat -> split_line limit t = None.
Proof.
  intros Ht. revert limit. induction Ht as [|x t Hx Ht IH]; intros [|limit] Hl; simpl in *; try lia; [done|].
  by rewrite (proj2 (Z.eqb_neq x 10) Hx), IH by lia.
Qed.

Lemma split_line_long limit s rest : Forall (fun x => x <> 10) s -> length s = limit ->
  split_line limit (s ++ rest) = Some (s, rest).
Proof.
  intros Hs. revert limit. induction Hs as [|x s Hx Hs IH]; intros limit Hl; subst; [done|]. simpl.
  by rewrite (proj2 (Z.eqb_neq x 10) Hx), IH.
Qed.

Lemma split_line_length limit s buf rest : split_line limit s = Some (buf, rest) -> s = buf ++ rest /\ (limit <> 0 -> buf <> [])%nat.
Proof.
  revert limit buf. induction s as [|x s IH]; intros [|limit] buf; simpl; try done; [intros [= <- <-]; done..|].
  destruct (x =? 10); [intros [= <- <-]; done|].
  destruct (split_line limit s) as [[b r]|] eqn:E; [|done]. intros [= <- <-]. destruct (IH _ _ E) as [-> _]. done.
Qed.

Section Conn.
Context {F64 N C : Type} {AC : AdminCore F64 N C}.
Context (num : Z -> N) (json_f64 : F64 -> JsonValue N) (from_str : str -> option (JsonValue N)).
Context (show_address : Address -> str) (show_subnet : Subnet -> str) (prefix : Z) (to_lowercase : str -> str).
Context (pkg_name pkg_version : str).
Context (from_utf8_lossy : bytes -> str) (parse_request : str -> result str (AdminRequest N)).

Local Abbreviation handle := (handle_request num json_f64 from_str show_address show_subnet prefix to_lowercase pkg_name pkg_version).
Local Abbreviation requested := (request_of from_utf8_lossy parse_request).
Local Abbreviation run := (handle_admin_conn num json_f64 from_str show_address show_subnet prefix to_lowercase pkg_name pkg_version
  from_utf8_lossy parse_request).
Local Abbreviation loop := (conn_loop num json_f64 from_str show_address show_subnet prefix to_lowercase pkg_name pkg_version
  from_utf8_lossy parse_request).

(** The reference: the lines of a connection one after the other, then [fin]. *)
Fixpoint serve (lines : list bytes) (fin : C -> list (AdminResponse N) * C) (c : C) : list (AdminResponse N) * C :=
  match lines with
  | [] => fin c
  | l :: lines =>
      match requested l with
      | None => serve lines fin c
      | Some (Err e) => ([error_response e], c)
      | Some (Ok req) =>
          let '(r, c) := handle req c in
          if rq_keepalive req then let '(resps, c) := serve lines fin c in (respond req r :: resps, c)
          else ([respond req r], c)
      end
  end.

(** Reading goes on until the bytes are used up, whatever they are. *)
Lemma loop_total fuel s e c : (length s < fuel)%nat -> exists out, loop fuel s e c = Some out.
Proof.
  revert s c. induction fuel as [|fuel IH]; intros s c Hf; [lia|]. simpl.
  destruct (read_request s e) as [buf rest| | |] eqn:E; [|by eexists..].
  assert (length rest < fuel)%nat as Hr.
  { unfold read_request in E. destruct (split_line MAX_REQUEST_SIZE s) as [[b r]|] eqn:El.
    - injection E as -> ->. destruct (split_line_length _ _ _ _ El) as [-> Hb]. rewrite length_app in Hf.
      destruct buf; [by destruct (Hb max_request_pos eq_refl)|]. simpl in Hf. lia.
    - destruct e; try done. case_bool_decide as Hs; [done|]. injection E as <- <-. destruct s; [done|]. simpl in Hf |- *. lia. }
  destruct (requested buf) as [[req|err]|]; [|by eexists|by apply IH].
  destruct (handle req c) as [r c']. destruct (rq_keepalive req); [|by eexists].
  destruct (IH rest c' Hr) as [[resps c''] ->]. by eexists.
Qed.

(** Enough fuel is enough: more gives the same. *)
Lemma loop_mono fuel fuel' s e c out : (fuel <= fuel')%nat -> loop fuel s e c = Some out -> loop fuel' s e c = Some out.
Proof.
  revert fuel' s c out. induction fuel as [|fuel IH]; intros [|fuel'] s c out Hle; simpl; try done; [lia|].
  destruct (read_request s e) as [buf rest| | |]; [|done..].
  destruct (requested buf) as [[req|err]|]; [|done|apply IH; lia].
  destruct (handle req c) as [r c']. destruct (rq_keepalive req); [|done].
  destruct (loop fuel rest e c') as [[resps c'']|] eqn:El; [|done]. by rewrite (IH fuel' rest c' _ ltac:(lia) El).
Qed.

Lemma loop_step fuel l rest e c : complete_line l -> (length l <= MAX_REQUEST_SIZE)%nat ->
  loop (S fuel) (l ++ rest) e c =
  match requested l with
  | None => loop fuel rest e c
  | Some (Err err) => Some ([error_response err], c)
  | Some (Ok req) =>
      let '(r, c) := handle req c in
      if rq_keepalive req
      then match loop fuel rest e c with Some (resps, c) => Some (respond req r :: resps, c) | None => None end
      else Some ([respond req r], c)
  end.
Proof.
  intros (b & -> & Hb) Hl. rewrite length_app in Hl. simpl in Hl. simpl. unfold read_request.
  rewrite <- app_assoc. simpl. by rewrite split_line_complete by (done || lia).
Qed.

(** The answer to what is left after the last line feed. *)
Definition fin_of (t : bytes) (e : StreamEnd) (c : C) : list (AdminResponse N) * C :=
  match e with
  | EndClosed => if bool_decide (t = []) then ([], c) else serve [t] (fun c => ([], c)) c
  | EndFailed => ([], c)
  | EndSilent => ([error_response (lit "timed out waiting for request")], c)
  end.

Lemma loop_fin t e c : Forall (fun x => x <> 10) t -> (length t < MAX_REQUEST_SIZE)%nat -> loop 2 t e c = Some (fin_of t e c).
Proof.
  intros Ht Hl. unfold fin_of. simpl. unfold read_request at 1. rewrite split_line_partial by done.
  destruct e; [|done..]. case_bool_decide as E; [done|].
  unfold read_request. rewrite (split_line_partial _ []) by (constructor || (simpl; pose proof max_request_pos; lia)).
  cbn [bool_decide]. rewrite bool_decide_true by done.
  destruct (requested t) as [[req|err]|]; [|done..]. by destruct (handle req c), (rq_keepalive req).
Qed.

(** The first request of a connection, when it ends the connection. *)
Lemma conn_answers_line l e c : complete_line l -> (length l <= MAX_REQUEST_SIZE)%nat ->
  run l e c = match requested l with
              | None => loop (length l) [] e c
              | Some (Err err) => Some ([error_response err], c)
              | Some (Ok req) =>
                  let '(r, c) := handle req c in
                  if rq_keepalive req
                  then match loop (length l) [] e c with Some (resps, c) => Some (respond req r :: resps, c) | None => None end
                  else Some ([respond req r], c)
              end.
Proof. intros Hl Hm. unfold handle_admin_conn. rewrite <- (app_nil_r l) at 2. by apply loop_step. Qed.

(** C34: Every connection is answered to its end: for every division of the bytes into
    lines that fit the limit and a rest, the loop ends and gives what the lines
    give one after the other, in order and each with the node its predecessors
    left, up to the first request without [keepalive] or in error; the rest is
    answered as a request if the connection was closed after it, and with the
    timeout if nothing more came. *)
Theorem admin_conn_answers lines t e c
    (Hlines : Forall (fun l => complete_line l /\ (length l <= MAX_REQUEST_SIZE)%nat) lines)
    (Ht : Forall (fun x => x <> 10) t) (Hlen : (length t < MAX_REQUEST_SIZE)%nat) :
  run (mjoin lines ++ t) e c = Some (serve lines (fun c => fin_of t e c) c).
Proof.
  unfold handle_admin_conn.
  assert (forall c, exists fuel, loop fuel (mjoin lines ++ t) e c = Some (serve lines (fun c => fin_of t e c) c)) as Hrun.
  { clear c. induction Hlines as [|l lines [Hl Hm] _ IH]; intros c; simpl; [exists 2%nat; by apply loop_fin|].
    rewrite <- app_assoc.
    destruct (requested l) as [[req|err]|] eqn:Er.
    - destruct (handle req c) as [r c'] eqn:Eh. destruct (IH c') as [fuel Hf]. exists (S fuel).
      rewrite loop_step by done. rewrite Er, Eh, Hf. by destruct (rq_keepalive req), (serve lines _ c').
    - exists 1%nat. rewrite loop_step by done. by rewrite Er.
    - destruct (IH c) as [fuel Hf]. exists (S fuel). rewrite loop_step by done. by rewrite Er. }
  destruct (Hrun c) as [fuel Hf]. destruct (loop_total (S (length (mjoin lines ++ t))) (mjoin lines ++ t) e c) as [out Ho]; [lia|].
  rewrite Ho. destruct (Nat.le_ge_cases fuel (S (length (mjoin lines ++ t)))) as [Hle|Hle].
  - rewrite <- Ho. by apply (loop_mono fuel).
  - rewrite <- Hf. symmetry. by apply (loop_mono (S (length (mjoin lines ++ t)))).
Qed.

(** A request longer than the limit is refused before it is read to its end, and
    the connection is closed. *)
Theorem oversized_request_refused s rest e c (Hs : Forall (fun x => x <> 10) s) (Hlen : length s = MAX_REQUEST_SIZE) :
  run (s ++ rest) e c
  = Some ([error_response (lit "request exceeds " ++ show (Z.of_nat MAX_REQUEST_SIZE) ++ lit " bytes")], c).
Proof.
  unfold handle_admin_conn. simpl. unfold read_request. rewrite split_line_long by done.
  unfold request_of. assert (is_line s = false) as ->.
  { unfold is_line. destruct (last s) as [x|] eqn:E; [|done]. apply last_Some in E as [s' ->].
    apply Forall_app in Hs as [_ Hx]. apply Z.eqb_neq. by inversion Hx. }
  by rewrite (proj2 (Nat.leb_le _ _)) by lia.
Qed.

(** ** Actions *)

Definition unknown_action (action : str) : str := lit "unknown action '" ++ action ++ lit "', try 'list' for help".

Lemma key_of_hex_err k e : key_of_hex k = Err e -> head e <> Some 117.
Proof. unfold key_of_hex. destruct (hex_decode k); [case_match|]; intros [= <-]; done. Qed.

Lemma key_arg_err (args : JsonValue N) e : key_arg args = Err e -> head e <> Some 117.
Proof. unfold key_arg. destruct (arg_str "key" args); [apply key_of_hex_err|intros [= <-]; done]. Qed.

Lemma with_key_err (args : JsonValue N) (c : C) f e : (with_key args c f).1 = Err e ->
  (forall k, (f k).1 = Err e -> head e <> Some 117) -> head e <> Some 117.
Proof. unfold with_key. destruct (key_arg args) eqn:E; simpl; [eauto|]. intros [= <-] _. by eapply key_arg_err. Qed.

Lemma peer_action_err what op (args : JsonValue N) (c : C) e : head (lit what) <> Some 117 -> what <> ""%string ->
  (peer_action what op args c).1 = Err e -> head e <> Some 117.
Proof.
  intros Hw Hne. unfold peer_action, uri_arg. destruct (arg_str "uri" args) as [uri|]; simpl; [|intros [= <-]; done].
  destruct (op uri c) as [[[]|e'] c']; simpl; intros [= <-]. unfold failed. by destruct what.
Qed.

Lemma query_keys_err what k (args : JsonValue N) (c : C) e : head (lit what) <> Some 117 -> what <> ""%string ->
  (query_keys show_address prefix what k args c).1 = Err e -> head e <> Some 117.
Proof.
  intros Hw Hne He. eapply with_key_err; [exact He|]. clear He. intros key. cbn beta.
  destruct (co_query_keys k key c) as [[keys|e'] c']; simpl; intros [= <-]. unfold failed. by destruct what.
Qed.

Lemma get_node_info_err (args : JsonValue N) (c : C) e : (get_node_info from_str args c).1 = Err e -> head e <> Some 117.
Proof.
  unfold get_node_info. destruct (_ || _); [done|].
  destruct (key_of_hex _) as [key|e'] eqn:E; simpl; [|intros [= <-]; by eapply key_of_hex_err].
  destruct (co_query_json NodeInfo key c) as [[v|e'] c']; simpl; by intros [= <-].
Qed.

(** An action is known or its name is not among the listed ones. *)
Lemma handle_unknown req (c : C) e : (handle req c).1 = Err e -> head e = Some 117 -> to_lowercase (rq_request req) ∉ ACTIONS.
Proof.
  intros He Hu. revert He. unfold handle_request. set (action := to_lowercase (rq_request req)).
  repeat (case_bool_decide;
    [intros He; exfalso; revert Hu; try discriminate He;
     first [ by (eapply peer_action_err; [| |exact He])
           | by (eapply query_keys_err; [| |exact He])
           | by apply (get_node_info_err _ _ _ He)
           | by destruct (co_get_tun_status c) as [[? ?] ?]
           | apply (with_key_err _ _ _ _ He); clear He; intros k; cbn beta;
             first [ by destruct (co_count_lookup_targets k c) as [? ?]
                   | by destruct (co_count_lookup_targets k c) as [? ?], (co_force_lookup k c) as [? ?]
                   | destruct (co_query_json GetSelf k c) as [[?|?] ?]; by intros [= <-] ] ] |]).
  intros _. unfold ACTIONS. cbn [fmap list_fmap]. rewrite !not_elem_of_cons. split_and!; try done. apply not_elem_of_nil.
Qed.

(** The action is refused as unknown exactly when the answer to [list] does not
    name it. *)
Theorem listed_actions_exact req (c : C) :
  (handle req c = (Err (unknown_action (to_lowercase (rq_request req))), c) <-> to_lowercase (rq_request req) ∉ ACTIONS)
  /\ (to_lowercase (rq_request req) = lit "list" ->
      handle req c = (Ok (JObject [(lit "list", JArray (JString <$> ACTIONS))]), c)).
Proof.
  split; [split|].
  - intros He. eapply handle_unknown; [by rewrite He|done].
  - unfold handle_request, ACTIONS. cbn [fmap list_fmap]. rewrite !not_elem_of_cons. intros Hn. destruct_and! Hn.
    by rewrite !bool_decide_false by done.
  - intros Ha. unfold handle_request. by rewrite bool_decide_true.
Qed.

(** ** What reaches the node *)

(** The key that a request names. *)
Definition names_key (args : JsonValue N) (key : PublicKey) : Prop :=
  exists text, arg_str "key" args = Some text /\ hex_decode text = Some key /\ length key = 32%nat.

Lemma key_of_hex_ok text key : key_of_hex text = Ok key -> hex_decode text = Some key /\ length key = 32%nat.
Proof.
  unfold key_of_hex. destruct (hex_decode text) as [b|]; [|done].
  destruct (Nat.eqb_spec (length b) 32); simpl; [|done]. by intros [= ->].
Qed.

Lemma with_key_node (args : JsonValue N) (c : C) f :
  (with_key args c f).2 = c \/ exists key, names_key args key /\ (with_key args c f).2 = (f key).2.
Proof.
  unfold with_key, key_arg, names_key. destruct (arg_str "key" args) as [text|]; [|by left].
  destruct (key_of_hex text) as [key|] eqn:E; [|by left]. right. exists key. split; [|done].
  exists text. split; [done|]. by apply key_of_hex_ok.
Qed.

Lemma peer_action_node what op (args : JsonValue N) (c : C) :
  (peer_action what op args c).2 = c \/ exists uri, arg_str "uri" args = Some uri /\ (peer_action what op args c).2 = (op uri c).2.
Proof.
  unfold peer_action, uri_arg. destruct (arg_str "uri" args) as [uri|]; simpl; [|by left].
  right. exists uri. by destruct (op uri c) as [[[]|?] ?].
Qed.

(** The actions that ask another node. *)
Definition REMOTE : list str := lit <$> ["getnodeinfo"; "debug_remotegetself"; "debug_remotegetpeers"; "debug_remotegettree"].

Lemma get_node_info_node (args : JsonValue N) (c : C) :
  (get_node_info from_str args c).2 = c
  \/ exists key, names_key args key /\ (get_node_info from_str args c).2 = (co_query_json NodeInfo key c).2.
Proof.
  unfold get_node_info, names_key. destruct (arg_str "key" args) as [text|]; [|by left]. simpl.
  destruct (_ || _); [by left|]. destruct (key_of_hex text) as [key|] eqn:E; [|by left]. right. exists key. split.
  - exists text. split; [done|]. by apply key_of_hex_ok.
  - by destruct (co_query_json NodeInfo key c) as [[?|?] ?].
Qed.

#[local] Opaque lit.

(** A branch that first reads the key, or the URI, of the request. *)
Local Ltac by_key key Hk :=
  match goal with |- context [with_key ?a ?c ?f] =>
    destruct (with_key_node a c f) as [->|(key & Hk & ->)]; [left; reflexivity|] end.
Local Ltac by_uri :=
  match goal with |- context [peer_action ?w ?o ?a ?c] =>
    let uri := fresh "uri" in let Hu := fresh "Hu" in
    destruct (peer_action_node w o a c) as [->|(uri & Hu & ->)]; [left; reflexivity|right; left; exists uri; tauto] end.

(** Nothing but well-formed requests reaches the node: the node is left as it was,
    or the request added or removed the peer whose URI it names, or it forced a
    lookup of, or asked, the node whose 32-byte key it names in hexadecimal. *)
Theorem admin_node_guarded req (c : C) :
  let action := to_lowercase (rq_request req) in
  let args := rq_arguments req in
  let c' := (handle req c).2 in
  c' = c
  \/ (exists uri, arg_str "uri" args = Some uri
       /\ (action = lit "addpeer" /\ c' = (co_add_peer uri c).2 \/ action = lit "removepeer" /\ c' = (co_remove_peer uri c).2))
  \/ (exists key, names_key args key
       /\ (action = lit "forcelookup" /\ c' = (co_force_lookup key c).2
           \/ action ∈ REMOTE /\ exists k, c' = (co_query_json k key c).2 \/ c' = (co_query_keys k key c).2)).
Proof.
  clear parse_request from_utf8_lossy. intros action args c'. unfold c', handle_request. fold action args.
  do 4 (case_bool_decide as Ha; [left; reflexivity|clear Ha]).
  case_bool_decide as Ha; [by_uri|clear Ha]. case_bool_decide as Ha; [by_uri|clear Ha].
  do 3 (case_bool_decide as Ha; [left; reflexivity|clear Ha]).
  case_bool_decide as Ha; [left; by destruct (co_get_tun_status c) as [[? ?] ?]|clear Ha].
  case_bool_decide as Ha; [left; reflexivity|clear Ha].
  case_bool_decide as Ha; [by_key key Hk; left; by destruct (co_count_lookup_targets key c)|clear Ha].
  case_bool_decide as Ha.
  { by_key key Hk. right. right. exists key. split; [done|]. left. split; [done|].
    by destruct (co_count_lookup_targets key c), (co_force_lookup key c). }
  clear Ha. case_bool_decide as Ha.
  { destruct (get_node_info_node args c) as [->|(key & Hk & ->)]; [by left|]. right. right. exists key. split; [done|].
    right. split; [rewrite Ha; set_solver|]. exists NodeInfo. by left. }
  clear Ha. case_bool_decide as Ha.
  { by_key key Hk. right. right. exists key. split; [done|]. right. split; [rewrite Ha; set_solver|]. exists GetSelf. left.
    by destruct (co_query_json GetSelf key c) as [[?|?] ?]. }
  clear Ha. case_bool_decide as Ha.
  { unfold query_keys. by_key key Hk. right. right. exists key. split; [done|]. right. split; [rewrite Ha; set_solver|]. exists GetPeers. right.
    by destruct (co_query_keys GetPeers key c) as [[?|?] ?]. }
  clear Ha. case_bool_decide as Ha; [|by left].
  unfold query_keys. by_key key Hk. right. right. exists key. split; [done|]. right. split; [rewrite Ha; set_solver|]. exists GetTree. right.
  by destruct (co_query_keys GetTree key c) as [[?|?] ?].
Qed.

Lemma handle_force_lookup req (c : C) key : to_lowercase (rq_request req) = lit "forcelookup" -> names_key (rq_arguments req) key ->
  handle req c =
  (let '(xformed_key, bloom_targets) := co_count_lookup_targets key c in
   let '(sent_to, c) := co_force_lookup key c in
   (Ok (jobject [("key", jhex key); ("address", jaddress show_address prefix key); ("xformed_key", jhex xformed_key);
                 ("bloom_targets", jcount num bloom_targets); ("sent_to", jcount num sent_to)]%string), c)).
Proof.
  intros Hn (text & Ht & Hd & Hl). unfold handle_request. rewrite Hn.
  rewrite 12!bool_decide_false by (intros E; vm_compute in E; discriminate E). rewrite bool_decide_true by reflexivity.
  unfold with_key, key_arg, key_of_hex. rewrite Ht, Hd, Hl. reflexivity.
Qed.
End Conn.

(** ** Witnesses *)

(** A node that only has a list of peers. *)
Definition toy_core : AdminCore unit Z (list str) := {|
  co_public_key _ := replicate 32 1;
  co_node_info_json _ := lit "{}";
  co_routing_entries _ := 0%nat;
  co_tree_coordinates _ := [];
  co_get_peers _ := [];
  co_get_tree _ := [];
  co_get_paths _ := [];
  co_get_sessions _ := [];
  co_get_multicast_interfaces _ := [];
  co_get_tun_status _ := (false, ""%string, 0);
  co_get_debug_snapshot _ := mkDebugSnapshot 0 0 [] [] 0 0 [] 0 [] 0;
  co_count_lookup_targets _ _ := ([], 0%nat);
  co_force_lookup _ c := (0%nat, c);
  co_add_peer uri c := (Ok (), uri :: c);
  co_remove_peer uri c := (Ok (), filter (fun u => u <> uri) c);
  co_query_json _ _ c := (Err (lit "Request timeout"), c);
  co_query_keys _ _ c := (Err (lit "Request timeout"), c)
|}.

(** A request is [a] followed by the URI of a peer to add; it keeps the
    connection if the text is longer than two characters. *)
Definition toy_parse (line : str) : result str (AdminRequest Z) :=
  match line with
  | 97 :: uri => Ok (mkAdminRequest (lit "addpeer") (JObject [(lit "uri", JString uri)]) (1 <? length uri)%nat)
  | _ => Err []
  end.

Lemma admin_conn_answers_witness :
  @handle_admin_conn unit Z (list str) toy_core id (fun _ => JNull) (fun _ => None) id id 2 id [] [] id toy_parse
    (lit "auv" ++ [10] ++ [10] ++ lit "ax" ++ [10] ++ lit "ay") EndSilent []
  = Some ([respond (mkAdminRequest (lit "addpeer") (JObject [(lit "uri", JString (lit "uv"))]) true) (Ok (JObject []));
           respond (mkAdminRequest (lit "addpeer") (JObject [(lit "uri", JString (lit "x"))]) false) (Ok (JObject []))],
          [lit "x"; lit "uv"]).
Proof.
  etransitivity; [apply (@admin_conn_answers unit Z (list str) toy_core id (fun _ => JNull) (fun _ => None) id id 2 id [] [] id toy_parse
    [lit "auv" ++ [10]; [10]; lit "ax" ++ [10]] (lit "ay") EndSilent [])|vm_compute; reflexivity].
  - constructor; [apply (complete_line_intro (lit "auv"))|constructor; [apply (complete_line_intro [])|constructor;
      [apply (complete_line_intro (lit "ax"))|constructor]]]; solve [repeat constructor; discriminate | apply Nat.ltb_lt; vm_compute; reflexivity].
  - repeat constructor; discriminate.
  - apply Nat.ltb_lt. vm_compute. reflexivity.
Defined.
