(* ===== verification/AdminNode.v ===== *)
(** * AdminNode: the administration socket of a running node

    The reports and the forced lookup that the socket asks for are those of the
    router and of the links: an instance of [AdminCore] over the models of
    [Queries]. What a request for a forced lookup is told is what happens. *)

From stdpp Require Import strings options.
From S2P Require Import Prelude.
From S2P Require Import Wire.
From S2P Require Import Bloom.
From S2P Require Import Crypto.
From S2P Require Import Address.
From S2P Require Import Pathfinder.
From S2P Require Import Tree.
From S2P Require Import Router.
From S2P Require Import RouterFacts.
From S2P Require Import RouterInv.
From S2P Require Import Links.
From S2P Require Import Session.
From S2P Require Import SessionFacts.
From S2P Require Import Text.
From S2P Require Import Config.
From S2P Require Import Queries.
From S2P Require Import QueriesFacts.
From S2P Require Import Admin.
From S2P Require Import AdminFacts.
Open Scope Z_scope.

(** [EncryptedPacketConn::get_sessions], from the manager's
    [get_all_sessions]. *)
Definition get_sessions {F64 : Type} (secs_f64 : Z -> F64) `{CryptoBox} `{HashOrder} (now : Z) (m : SessionManager) : list (SessionEntry F64) :=
  merge_sort (key_le se_key)
    ((fun '(key, info) => mkSessionEntry key (secs_f64 (elapsed now (si_since info))) (si_tx info) (si_rx info)) <$> map_iter (sm_sessions m)).

Section Node.
Context {F64 N C : Type} (f64_zero : F64) (ms_f64 secs_f64 : Z -> F64).
Context {DK : Dalek} {HO : HashOrder} (murmur3_x64_128 : bytes -> Z -> option Z).
(** The parts of the node, and the times it reads. *)
Context (router : C -> Router) (set_router : Router -> C -> C) (links : C -> Links) {CB : CryptoBox} (sessions : C -> SessionManager).
Context (clock unix_clock delivery_queue_bytes : C -> Z).
(** The other operations. *)
Context (rest : AdminCore F64 N C).

(** [Core], as far as it is the router's and the links'. The liveness that
    [get_peers] fills in does not show in the list. *)
Definition node_core : AdminCore F64 N C := {|
  co_public_key c := self_key_of (router c);
  co_node_info_json := co_node_info_json;
  co_routing_entries c := query_routing_entries (router c);
  co_tree_coordinates c := query_tree_coordinates (router c);
  co_get_peers c := core_get_peers f64_zero secs_f64 (clock c) (query_peers f64_zero ms_f64 (router c)) (links c);
  co_get_tree c := query_tree (router c);
  co_get_paths c := query_paths (router c);
  co_get_sessions c := get_sessions secs_f64 (clock c) (sessions c);
  co_get_multicast_interfaces := co_get_multicast_interfaces;
  co_get_tun_status := co_get_tun_status;
  co_get_debug_snapshot c := query_debug_snapshot f64_zero ms_f64 secs_f64 murmur3_x64_128 (clock c) (delivery_queue_bytes c) (router c);
  co_count_lookup_targets key c := query_count_lookup_targets murmur3_x64_128 (router c) key;
  co_force_lookup key c :=
    let '(n, (_, r)) := query_force_lookup murmur3_x64_128 (clock c) (unix_clock c) (router c) key in (n, set_router r c);
  co_add_peer := co_add_peer;
  co_remove_peer := co_remove_peer;
  co_query_json := co_query_json;
  co_query_keys := co_query_keys
|}.

Context (num : Z -> N) (json_f64 : F64 -> JsonValue N) (from_str : str -> option (JsonValue N)).
Context (show_address : Address -> str) (show_subnet : Subnet -> str) (prefix : Z) (to_lowercase : str -> str).
Context (pkg_name pkg_version : str).
Local Abbreviation handle :=
  (@handle_request F64 N C node_core num json_f64 from_str show_address show_subnet prefix to_lowercase pkg_name pkg_version).

(** A forced lookup through the socket: the answer counts as many targets as
    lookups were sent, one for every peer on the tree whose filter covers the key,
    and the node goes on with the router that sent them. *)
Theorem admin_forced_lookup req c key
    (Hname : to_lowercase (rq_request req) = lit "forcelookup") (Hkey : names_key (rq_arguments req) key)
    (Hinv : router_inv (router c)) (Hself : self_key_of (router c) ∉ dom (rt_peers (router c)))
    (Hdest : x_key_of (router c) key <> x_key_of (router c) (self_key_of (router c)))
    (Hthr : should_throttle_lookup (rt_pathfinder (router c)) key (rt_path_throttle (router c)) (clock c) = false) :
  exists n acts r,
    handle req c = (Ok (JObject [(lit "key", JString (hex_encode key)); (lit "address", JString (show_address (addr_for_key prefix key)));
                                 (lit "xformed_key", JString (hex_encode (x_key_of (router c) key)));
                                 (lit "bloom_targets", JNumber (num (Z.of_nat n))); (lit "sent_to", JNumber (num (Z.of_nat n)))]),
                    set_router r c)
    /\ force_lookup murmur3_x64_128 (clock c) (unix_clock c) (router c) key = (acts, r)
    /\ n = length (List.filter is_path_lookup acts)
    /\ n = count_on_tree_targets_for_xkey murmur3_x64_128 (rt_blooms (router c)) (x_key_of (router c) key).
Proof.
  destruct (force_lookup murmur3_x64_128 (clock c) (unix_clock c) (router c) key) as [acts r] eqn:Ef.
  pose proof (forced_lookup_counted murmur3_x64_128 (router c) key (clock c) (unix_clock c) Hinv Hself Hdest Hthr) as Hn.
  unfold query_force_lookup in Hn. rewrite Ef in Hn. simpl in Hn.
  exists (length (List.filter is_path_lookup acts)), acts, r. split_and!; [|done..].
  rewrite handle_force_lookup with (key := key) by done. unfold co_count_lookup_targets, co_force_lookup. simpl.
  unfold query_force_lookup. rewrite Ef, Hn. reflexivity.
Qed.
End Node.

(** ** Witness *)

(** A node whose parts other than the router are those of the toy node. *)
Definition toy_rest : AdminCore unit Z (@Router toy_dalek) := {|
  co_public_key := self_key_of;
  co_node_info_json _ := [];
  co_routing_entries _ := 0%nat;
  co_tree_coordinates _ := [];
  co_get_peers _ := [];
  co_get_tree _ := [];
  co_get_paths _ := [];
  co_get_sessions _ := [];
  co_get_multicast_interfaces _ := [];
  co_get_tun_status _ := (false, ""%string, 0);
  co_get_debug_snapshot _ := mkDebugSnapshot 0 0 [] [] 0 0 [] 0 [] 0;
  co_count_lookup_targets _ _ := ([], 0%nat);
  co_force_lookup _ c := (0%nat, c);
  co_add_peer _ c := (Ok (), c);
  co_remove_peer _ c := (Ok (), c);
  co_query_json _ _ c := (Err [], c);
  co_query_keys _ _ c := (Err [], c)
|}.

Definition toy_manager : @SessionManager toy_dalek toy_box := @SessionManager_new toy_dalek toy_box (@GroupAuth_new toy_dalek toy_box []) 60000000000 0.
Definition node_links : Links := Links_new (ActiveLinks_new 0).
Definition lookup_nine : AdminRequest Z :=
  mkAdminRequest (lit "forcelookup") (JObject [(lit "key", JString (hex_encode (node 9)))]) false.

Lemma admin_forced_lookup_witness : exists r,
  @handle_request unit Z (@Router toy_dalek)
    (node_core tt (fun _ => tt) (fun _ => tt) (DK := toy_dalek) (HO := id_order) sample_murmur id (fun r _ => r) (fun _ => node_links) (fun _ => toy_manager)
       (fun _ => 5) (fun _ => 1) (fun _ => 0) toy_rest)
    id (fun _ => JNull) (fun _ => None) id id 2 id [] [] lookup_nine linked_router
  = (Ok (JObject [(lit "key", JString (hex_encode (node 9))); (lit "address", JString (addr_for_key 2 (node 9)));
                  (lit "xformed_key", JString (hex_encode (node 9))); (lit "bloom_targets", JNumber 1); (lit "sent_to", JNumber 1)]), r).
Proof.
  destruct (@admin_forced_lookup unit Z (@Router toy_dalek) tt (fun _ => tt) (fun _ => tt) toy_dalek id_order sample_murmur
    id (fun r _ => r) (fun _ => node_links) _ (fun _ => toy_manager) (fun _ => 5) (fun _ => 1) (fun _ => 0) toy_rest
    id (fun _ => JNull) (fun _ => None) id id 2 id [] [] lookup_nine linked_router (node 9)) as (n & acts & r & -> & _ & _ & Hn).
  - reflexivity.
  - exists (hex_encode (node 9)). split_and!; vm_compute; reflexivity.
  - exact linked_router_inv.
  - apply not_elem_of_dom. vm_compute. reflexivity.
  - vm_compute. discriminate.
  - vm_compute. reflexivity.
  - exists r. assert (n = 1%nat) as -> by (rewrite Hn; vm_compute; reflexivity). reflexivity.
Defined.
