(* ===== verification/Ctl.v ===== *)
(** * Ctl: the control program

    Models [crates/yggdrasil/src/ctl.rs]: a command is sent to the administration
    socket and the response printed, as JSON or for a reader, in lines and tables
    fitted to the terminal. [serde_json]'s printing and the formatting of
    floating-point numbers are parameters. *)

From stdpp Require Import strings options.
From S2P Require Import Prelude.
From S2P Require Import Text.
From S2P Require Import Config.
Open Scope Z_scope.

(** ** Tables *)

Definition MIN_FLEX_WIDTH : nat := 20.
Definition ELLIPSIS : Z := 8230.

(** A cell cut to [width] characters; the cut is marked. *)
Definition fit_cell (s : str) (width : nat) (truncate : bool) : str :=
  if negb truncate || (width =? 0)%nat || (length s <=? width)%nat then s
  else take (width - 1) s ++ [ELLIPSIS].

(** [{:<width$}]. *)
Definition pad (width : nat) (s : str) : str := s ++ replicate (width - length s) 32.

(** The widest cell of each column; cells beyond the header do not count. *)
Definition widen (widths : list nat) (row : list str) : list nat :=
  imap (fun i w => match row !! i with Some cell => w `max` length cell | None => w end)%nat widths.

Definition column_widths (header : list str) (rows : list (list str)) : list nat := foldl widen (length <$> header) rows.

Definition table_width (widths : list nat) : nat := (sum_list widths + 2 * (length widths - 1))%nat.

(** The flexible column gives up what the table is too wide by, down to the
    least width. *)
Definition shrink (flex_col term_width : option nat) (widths : list nat) : list nat :=
  match flex_col, term_width with
  | Some flex, Some term =>
      let total := table_width widths in
      if (term <? total)%nat
      then alter (fun w => (((w - (total - term)) `max` MIN_FLEX_WIDTH) `min` w)%nat) flex widths
      else widths
  | _, _ => widths
  end.

(** The cells from column [i] on. A cell beyond the columns has no width:
    [widths[i]] panics. *)
Fixpoint render (flex_col : option nat) (widths : list nat) (i : nat) (cells : list str) : outcome str :=
  match cells with
  | [] => Ret []
  | cell :: cells =>
      match widths !! i with
      | None => Panic
      | Some width =>
          let cell := fit_cell cell width (bool_decide (flex_col = Some i)) in
          rest ← render flex_col widths (S i) cells;
          Ret ((if (0 <? i)%nat then [32; 32] else []) ++ (if (i <? length widths - 1)%nat then pad width cell else cell) ++ rest)
      end
  end.

Fixpoint render_all (flex_col : option nat) (widths : list nat) (rows : list (list str)) : outcome (list str) :=
  match rows with
  | [] => Ret []
  | row :: rows => line ← render flex_col widths 0 row; lines ← render_all flex_col widths rows; Ret (line :: lines)
  end.

Definition format_table (header : list str) (rows : list (list str)) (flex_col term_width : option nat) : outcome (list str) :=
  let cols := length header in
  let widths := column_widths header rows in
  let flex_col := flex_col ≫= fun i => if (i <? cols)%nat then Some i else None in
  render_all flex_col (shrink flex_col term_width widths) (header :: rows).

(** ** Values *)

Section Ctl.
Context {F64 N : Type}.
(** Numbers of [serde_json], as [u64] and as [f64]. *)
Context (as_u64 : N -> option Z) (as_f64 : N -> option F64).
(** A float that is greater than zero, with one decimal place, and as [u64]; the
    float of a [u64] divided by [1024 ^ n], with two decimal places. *)
Context (is_pos : F64 -> bool) (show_1 : F64 -> str) (to_u64 : F64 -> Z) (show_2 : Z -> nat -> str).
(** The text of a value, on one line and on several. *)
Context (json_text json_pretty : JsonValue N -> str).
Context (to_lowercase : str -> str).
Local Abbreviation json := (JsonValue N) (only parsing).

(** [Value::get], and the views of a value. *)
Definition jget (obj : json) (key : string) : option json := match obj with JObject l => object_get (lit key) l | _ => None end.
Definition jas_str (v : json) : option str := match v with JString s => Some s | _ => None end.
Definition jas_bool (v : json) : option bool := match v with JBool b => Some b | _ => None end.
Definition jas_array (v : json) : option (list json) := match v with JArray l => Some l | _ => None end.
Definition jas_u64 (v : json) : option Z := match v with JNumber n => as_u64 n | _ => None end.
Definition jas_f64 (v : json) : option F64 := match v with JNumber n => as_f64 n | _ => None end.

Definition dash : str := lit "-".
Definition json_str (obj : json) (key : string) : str := default dash (jget obj key ≫= jas_str).
Definition json_u64 (obj : json) (key : string) : str := from_option show dash (jget obj key ≫= jas_u64).

(** An integer rounded to the nearest with 53 significant bits, ties to even. *)
Definition round53 (n : Z) : Z :=
  let e := Z.max 0 (Z.log2 n - 52) in
  let q := Z.shiftr n e in
  let r := n - Z.shiftl q e in
  let half := Z.shiftl 1 e / 2 in
  if e =? 0 then n
  else Z.shiftl (if (half <? r) || ((half =? r) && Z.odd q) then q + 1 else q) e.

(** The unit of a size: how often it is divided by 1024, four times at most. The
    division of a float by a power of two is exact, so comparing the integer is
    the same: [bytes as f64] is not below [1024 ^ n] exactly when [bytes] rounded
    to 53 bits is not. *)
Fixpoint unit_loop (fuel unit_idx : nat) (bytes : Z) : nat :=
  match fuel with
  | O => unit_idx
  | S fuel => if 1024 ^ (Z.of_nat unit_idx + 1) <=? round53 bytes then unit_loop fuel (S unit_idx) bytes else unit_idx
  end.

Definition UNITS : list str := lit <$> ["B"; "KB"; "MB"; "GB"; "TB"].

Definition format_bytes (bytes : Z) : str :=
  if bytes =? 0 then lit "0 B"
  else
    let unit_idx := unit_loop 4 0 bytes in
    if (unit_idx =? 0)%nat then show bytes ++ lit " " ++ UNITS !!! 0%nat
    else show_2 (round53 bytes) unit_idx ++ lit " " ++ UNITS !!! unit_idx.

Definition format_uptime (seconds : F64) : str :=
  let total_secs := to_u64 seconds in
  let hours := total_secs / 3600 in
  let minutes := (total_secs mod 3600) / 60 in
  let secs := total_secs mod 60 in
  if 0 <? hours then show hours ++ lit "h" ++ show minutes ++ lit "m" ++ show secs ++ lit "s"
  else if 0 <? minutes then show minutes ++ lit "m" ++ show secs ++ lit "s"
  else show secs ++ lit "s".

Definition rate_cell (obj : json) (key : string) : str :=
  from_option (fun r => if 0 <? r then format_bytes r ++ lit "/s" else dash) dash (jget obj key ≫= jas_u64).
Definition bytes_cell (obj : json) (key : string) : str := from_option format_bytes dash (jget obj key ≫= jas_u64).
Definition uptime_cell (obj : json) : str := from_option format_uptime dash (jget obj "uptime" ≫= jas_f64).

Definition peer_row (peer : json) : list str :=
  let up := default false (jget peer "up" ≫= jas_bool) in
  let inbound := default false (jget peer "inbound" ≫= jas_bool) in
  let last_error := json_str peer "last_error" in
  [json_str peer "uri"; if up then lit "Up" else lit "Down"; if inbound then lit "In" else lit "Out"; json_str peer "address";
   from_option (fun ms => if is_pos ms then show_1 ms ++ lit "ms" else dash) dash (jget peer "latency" ≫= jas_f64);
   from_option (fun c => if 0 <? c then show c else dash) dash (jget peer "cost" ≫= jas_u64);
   uptime_cell peer; bytes_cell peer "bytes_recvd"; bytes_cell peer "bytes_sent"; rate_cell peer "rx_rate"; rate_cell peer "tx_rate";
   json_u64 peer "priority"; if bool_decide (last_error = []) then dash else last_error].

Definition tree_row (entry : json) : list str :=
  [json_str entry "key"; json_str entry "address"; json_str entry "parent"; json_u64 entry "sequence"].

Fixpoint join (sep : str) (parts : list str) : str :=
  match parts with
  | [] => []
  | [p] => p
  | p :: parts => p ++ sep ++ join sep parts
  end.

Definition path_row (entry : json) : list str :=
  [json_str entry "key"; json_str entry "address";
   from_option (fun arr => join (lit ",") (show <$> omap jas_u64 arr)) dash (jget entry "path" ≫= jas_array);
   json_u64 entry "sequence"].

Definition session_row (s : json) : list str :=
  [json_str s "key"; json_str s "address"; uptime_cell s; bytes_cell s "bytes_recvd"; bytes_cell s "bytes_sent"].

Definition latency_row (p : json) : list str :=
  [json_str p "key"; json_str p "address";
   match jget p "latency_ms" ≫= jas_f64 with
   | Some ms => if is_pos ms then show_1 ms ++ lit " ms" else lit "n/a"
   | None => lit "n/a"
   end].

(** The fields of an object that are there, with aligned values. *)
Definition value_text (v : json) : str := match v with JString s => s | JNull => lit "n/a" | other => json_text other end.
Definition print_kv (obj : json) (fields : list (string * string)) : list str :=
  let max_label := max_list (length <$> (lit <$> fields.*1)) in
  omap (fun '(label, key) =>
    (fun v => lit "  " ++ pad (max_label + 1) (lit label ++ lit ":") ++ lit "  " ++ value_text v) <$> jget obj key) fields.

(** A table of the array, or another line if it is empty; nothing if the response
    has no such array. *)
Definition print_list (response : json) (key : string) (empty : str) (header : list string) (row : json -> list str)
    (flex_col term_width : option nat) : outcome (list str) :=
  match jget response key ≫= jas_array with
  | None => Ret []
  | Some [] => Ret [empty]
  | Some l => format_table (lit <$> header) (row <$> l) flex_col term_width
  end.

Definition session_header : list string := ["Public Key"; "IP Address"; "Uptime"; "RX"; "TX"].

Definition print_debug (term_width : option nat) (response : json) : outcome (list str) :=
  let kv := print_kv response
    [("Tree nodes known", "tree_node_count"); ("Routing peers", "routing_peer_count"); ("Tree root key", "tree_root");
     ("Our coordinates", "our_coords"); ("Path cache total", "path_cache_count"); ("Broken paths", "broken_path_count");
     ("Pending lookups", "pending_lookup_count"); ("Pending sig requests", "pending_sig_requests");
     ("RX queue bytes", "delivery_queue_bytes")]%string in
  let down := match jget response "peers_down" ≫= jas_array with
              | None | Some [] => []
              | Some l => [10 :: lit "  Down peers:"] ++
                          ((fun p => lit "    " ++ json_str p "uri" ++ lit " (" ++ json_str p "last_error" ++ lit ")") <$> l)
              end in
  lats ← match jget response "peer_latencies" ≫= jas_array with
         | None | Some [] => Ret []
         | Some l =>
             t ← format_table (lit <$> ["Key"; "IP Address"; "Latency"]) (latency_row <$> l) None term_width;
             Ret ((10 :: lit "  Peer latencies:") :: t)
         end;
  sessions ← match jget response "sessions" ≫= jas_array with
             | None => Ret []
             | Some [] => Ret [10 :: lit "  No active sessions."]
             | Some l =>
                 t ← format_table (lit <$> ["Key"; "IP Address"; "Uptime"; "RX"; "TX"]) (session_row <$> l) None term_width;
                 Ret ((10 :: lit "  Active sessions:") :: t)
             end;
  Ret (kv ++ down ++ lats ++ sessions).

(** ** Commands *)

(** What is printed for a response. *)
Definition print_response (term_width : option nat) (command : str) (response : json) : outcome (list str) :=
  let command := to_lowercase command in
  let asked (name : string) := bool_decide (command = lit name) in
  if asked "list" then
    Ret (match jget response "list" ≫= jas_array with
         | None => []
         | Some l => lit "Available commands:" :: ((fun s => lit "  " ++ s) <$> omap jas_str l)
         end)
  else if asked "getself" then
    Ret (print_kv response [("Build name", "build_name"); ("Build version", "build_version"); ("Public key", "key"); ("IPv6 address", "address");
                            ("IPv6 subnet", "subnet"); ("Coordinates", "coordinates"); ("Routing entries", "routing_entries")]%string)
  else if asked "getpeers" then
    print_list response "peers" (lit "No peers connected.")
      ["URI"; "State"; "Dir"; "IP Address"; "Latency"; "Cost"; "Uptime"; "RX"; "TX"; "RX Rate"; "TX Rate"; "Pr"; "Last Error"]
      peer_row (Some 0%nat) term_width
  else if asked "gettree" then
    print_list response "tree" (lit "No tree entries.") ["Public Key"; "IP Address"; "Parent"; "Sequence"] tree_row None term_width
  else if asked "getpaths" then
    print_list response "paths" (lit "No cached paths.") ["Public Key"; "IP Address"; "Path"; "Sequence"] path_row None term_width
  else if asked "getsessions" then
    print_list response "sessions" (lit "No active sessions.") session_header session_row None term_width
  else if asked "gettun" then
    Ret (print_kv response [("TUN enabled", "enabled"); ("Interface name", "name"); ("Interface MTU", "mtu")]%string)
  else if asked "getdebug" then print_debug term_width response
  else Ret [json_pretty response].

(** What the program ends with: lines on its output, an error that it returns, or
    a message and exit status 1. *)
Inductive CtlEnd := CtlPrinted (lines : list str) | CtlError (e : str) | CtlExit (message : str).

(** [connect] gives the server's answer to the bytes sent, as the first line of
    text, or the error. *)
Definition run_ctl (connect : str -> result str (bytes -> result str str)) (to_bytes : str -> bytes) (from_str : str -> option json)
    (parse_error : str) (term_width : option nat) (endpoint : str) (json_output : bool) (command : str) (arguments : list (str * json))
    : outcome CtlEnd :=
  let request := JObject [(lit "request", JString command); (lit "arguments", JObject arguments); (lit "keepalive", JBool false)] in
  let addr := default endpoint (strip_prefix (lit "tcp://") endpoint) in
  match connect addr with
  | Err e => Ret (CtlError (lit "Failed to connect to admin socket at " ++ endpoint ++ lit ": " ++ e))
  | Ok server =>
      match server (to_bytes (json_text request) ++ [10]) with
      | Err e => Ret (CtlError e)
      | Ok line =>
          if bool_decide (trim line = []) then Ret (CtlExit (lit "Empty response from admin socket"))
          else match from_str (trim line) with
               | None => Ret (CtlError parse_error)
               | Some resp =>
                   if json_output then Ret (CtlPrinted [json_pretty resp])
                   else
                     let status := default (lit "unknown") (jget resp "status" ≫= jas_str) in
                     if negb (bool_decide (status = lit "success"))
                     then Ret (CtlExit (lit "Error: " ++ default (lit "unknown error") (jget resp "error" ≫= jas_str)))
                     else
                       lines ← print_response term_width command (default JNull (jget resp "response"));
                       Ret (CtlPrinted lines)
               end
      end
  end.
End Ctl.
