(* ===== verification/CtlFacts.v ===== *)
(** * CtlFacts: what the control program shows

    Tables are aligned and fit the terminal, only the flexible column is cut;
    sizes are in their unit; a command that is sent to the administration socket
    shows the response of its action. *)

From stdpp Require Import strings options.
From S2P Require Import Prelude.
From S2P Require Import Text.
From S2P Require Import Config.
From S2P Require Import Ctl.
Open Scope Z_scope.

(** ** Tables *)

Lemma length_pad w s : (length s <= w)%nat -> length (pad w s) = w.
Proof. unfold pad. rewrite length_app, length_replicate. lia. Qed.

Lemma fit_cell_full s w tr : (tr = false \/ length s <= w)%nat -> fit_cell s w tr = s.
Proof.
  unfold fit_cell. intros [->|H]; [done|]. rewrite (proj2 (Nat.leb_le _ _) H), !orb_true_r. done.
Qed.

Lemma fit_cell_length s w : (0 < w \/ length s <= w)%nat -> (length (fit_cell s w true) <= w)%nat.
Proof.
  intros H. unfold fit_cell. simpl. destruct (Nat.eqb_spec w 0), (Nat.leb_spec (length s) w); simpl; try lia.
  rewrite length_app, length_take. simpl. lia.
Qed.

(** What separates a column from the one before. *)
Definition gap (i : nat) : nat := if (0 <? i)%nat then 2%nat else 0%nat.

(** The cells from column [i] on fit their widths. *)
Definition cells_fit (fl : option nat) (widths : list nat) (i : nat) (cells : list str) : Prop :=
  forall j cell, cells !! j = Some cell ->
    exists w, widths !! (i + j)%nat = Some w /\ (length (fit_cell cell w (bool_decide (fl = Some (i + j)))) <= w)%nat.

(** The line of the cells from column [i] on: no longer than their widths and the
    separators, and each cell where its column starts. *)
Lemma render_spec fl widths cells i : cells_fit fl widths i cells ->
  exists line, render fl widths i cells = Ret line
    /\ (length line <= sum_list (take (length cells) (drop i widths)) + 2 * (length cells - 1) + (if cells is [] then 0 else gap i))%nat
    /\ forall j cell w, cells !! j = Some cell -> widths !! (i + j)%nat = Some w ->
         exists pre post, line = pre ++ fit_cell cell w (bool_decide (fl = Some (i + j)%nat)) ++ post
           /\ length pre = (sum_list (take j (drop i widths)) + 2 * j + gap i)%nat.
Proof.
  revert i. induction cells as [|cell cells IH]; intros i Hfit; [by exists []|].
  destruct (Hfit 0%nat cell eq_refl) as (w & Hw & Hc). rewrite Nat.add_0_r in *. simpl. rewrite Hw.
  set (c' := fit_cell cell w _) in *.
  destruct (IH (S i)) as (rest & -> & Hlen & Hcols).
  { intros j x Hx. specialize (Hfit (S j) x Hx). by replace (S i + j)%nat with (i + S j)%nat by lia. }
  rewrite ret_bind. eexists. split; [reflexivity|].
  assert (drop i widths = w :: drop (S i) widths) as Hdrop by (by apply drop_S). rewrite Hdrop.
  assert (length (if (0 <? i)%nat then [32; 32] else []) = gap i) as Hgap by (unfold gap; by destruct (0 <? i)%nat).
  set (sep := if (0 <? i)%nat then [32; 32] else []) in *.
  assert (exists tail, (if (i <? length widths - 1)%nat then pad w c' else c') = c' ++ tail
    /\ (length (c' ++ tail) <= w)%nat /\ (cells <> [] -> length (c' ++ tail) = w)) as (tail & Htail & Hle & Hfull).
  { destruct (Nat.ltb_spec i (length widths - 1)).
    - exists (replicate (w - length c') 32). fold (pad w c'). by rewrite length_pad.
    - exists []. rewrite app_nil_r. split_and!; [done..|]. intros Hne. destruct cells as [|x cells]; [done|].
      destruct (Hfit 1%nat x eq_refl) as (w' & Hw' & _). apply lookup_lt_Some in Hw'. lia. }
  rewrite Htail. split.
  - rewrite !length_app, Hgap. rewrite length_app in Hle. destruct cells as [|x cells]; simpl in *; [lia|]. unfold gap in *. simpl in *. lia.
  - intros [|j] x wj Hx Hwj; simpl in Hx.
    + injection Hx as <-. rewrite Nat.add_0_r in *. rewrite Hw in Hwj. injection Hwj as <-.
      exists sep, (tail ++ rest). simpl. rewrite <- !app_assoc. split; [done|lia].
    + replace (i + S j)%nat with (S i + j)%nat in * by lia.
      destruct (Hcols j x wj Hx Hwj) as (pre & post & -> & Hpre). exists (sep ++ (c' ++ tail) ++ pre), post.
      split; [by rewrite <- !app_assoc|]. rewrite !length_app, Hgap, Hpre. simpl. rewrite <- length_app, Hfull by (by destruct cells).
      unfold gap. simpl. lia.
Qed.

Lemma length_widen widths row : length (widen widths row) = length widths.
Proof. apply length_imap. Qed.

Lemma widen_lookup widths row i w : widths !! i = Some w ->
  exists w', widen widths row !! i = Some w' /\ (w <= w')%nat /\ forall cell, row !! i = Some cell -> (length cell <= w')%nat.
Proof.
  intros Hw. unfold widen. rewrite list_lookup_imap, Hw. eexists. split; [reflexivity|].
  destruct (row !! i); simpl; split; [lia| |lia|done]. intros ? [= ->]. lia.
Qed.

Lemma foldl_widen rows widths : length (foldl widen widths rows) = length widths
  /\ forall i w, widths !! i = Some w -> exists w', foldl widen widths rows !! i = Some w' /\ (w <= w')%nat
       /\ forall row cell, row ∈ rows -> row !! i = Some cell -> (length cell <= w')%nat.
Proof.
  revert widths. induction rows as [|row rows IH]; intros widths; simpl.
  - split; [done|]. intros i w Hw. exists w. split_and!; [done..|]. intros ? ? []%not_elem_of_nil.
  - destruct (IH (widen widths row)) as [Hl Hc]. split; [by rewrite Hl, length_widen|]. intros i w Hw.
    destruct (widen_lookup widths row i w Hw) as (w1 & H1 & Hle & Hcell). destruct (Hc i w1 H1) as (w2 & H2 & Hle2 & Hrows).
    exists w2. split_and!; [done|lia|]. intros r cell [->|Hr]%elem_of_cons Hi; [|by eauto]. specialize (Hcell cell Hi). lia.
Qed.

(** Every cell is within the width of its column. *)
Lemma column_widths_spec header rows : length (column_widths header rows) = length header
  /\ forall row i cell w, row ∈ header :: rows -> row !! i = Some cell -> column_widths header rows !! i = Some w -> (length cell <= w)%nat.
Proof.
  unfold column_widths. destruct (foldl_widen rows (length <$> header)) as [Hl Hc]. split; [by rewrite Hl, length_fmap|].
  intros row i cell w Hrow Hi Hw.
  assert (exists h, header !! i = Some h) as [h Hh].
  { apply lookup_lt_is_Some. apply lookup_lt_Some in Hw. by rewrite Hl, length_fmap in Hw. }
  destruct (Hc i (length h)) as (w' & Hw' & Hle & Hrows); [by rewrite list_lookup_fmap, Hh|].
  rewrite Hw in Hw'. injection Hw' as <-. apply elem_of_cons in Hrow as [->|Hr]; [|by eauto]. congruence.
Qed.

Lemma sum_list_alter f (l : list nat) i w : l !! i = Some w -> (sum_list (alter f i l) + w = sum_list l + f w)%nat.
Proof.
  revert i. induction l as [|a l IH]; intros [|i]; simpl; intros H; try done; [injection H as ->; lia|].
  specialize (IH i H). unfold alter in IH. lia.
Qed.

(** After shrinking, the other columns are as wide as before and the flexible one
    no wider, and not empty if it was not; with room for its least width the
    table fits. *)
Lemma shrink_spec widths flex term w : widths !! flex = Some w ->
  let widths' := shrink (Some flex) (Some term) widths in
  (forall i wi, widths' !! i = Some wi -> i <> flex -> widths !! i = Some wi)
  /\ (exists w', widths' !! flex = Some w' /\ (w' <= w)%nat /\ (w' = w \/ 0 < w')%nat)
  /\ length widths' = length widths
  /\ (table_width widths <= term -> widths' = widths)%nat
  /\ (table_width widths + (w `min` MIN_FLEX_WIDTH) <= term + w -> table_width widths' <= term)%nat.
Proof.
  intros Hw widths'. unfold widths', shrink. destruct (Nat.ltb_spec term (table_width widths)) as [Hover|Hfits].
  - set (f := fun w => _). split_and!; [| |apply length_alter|lia|].
    + intros i wi Hi Hne. by rewrite list_lookup_alter_ne in Hi.
    + exists (f w). rewrite list_lookup_alter, decide_True, Hw by done. unfold f, MIN_FLEX_WIDTH. split_and!; [done|lia|lia].
    + intros Hroom. unfold table_width in *. rewrite length_alter. pose proof (sum_list_alter f widths flex w Hw) as Hs.
      unfold f, MIN_FLEX_WIDTH in *. lia.
  - split_and!; [done| |done|done|done]. exists w. split_and!; [done|lia|by left].
Qed.

Lemma sum_take_le (l : list nat) n : (sum_list (take n l) <= sum_list l)%nat.
Proof. revert n. induction l as [|a l IH]; intros [|n]; simpl; try lia. specialize (IH n). lia. Qed.

(** A line of at most as many cells as there are columns is no wider than the
    table. *)
Lemma render_width fl widths cells : cells_fit fl widths 0 cells -> (length cells <= length widths)%nat ->
  exists line, render fl widths 0 cells = Ret line /\ (length line <= table_width widths)%nat
    /\ forall i cell w, cells !! i = Some cell -> widths !! i = Some w ->
         exists pre post, line = pre ++ fit_cell cell w (bool_decide (fl = Some i)) ++ post
           /\ length pre = (sum_list (take i widths) + 2 * i)%nat.
Proof.
  intros Hfit Hl. destruct (render_spec fl widths cells 0 Hfit) as (line & -> & Hlen & Hcols). exists line. split; [done|]. split.
  - unfold table_width. rewrite drop_0 in Hlen. pose proof (sum_take_le widths (length cells)). unfold gap in Hlen. destruct cells; cbn [length] in *; simpl in Hlen; lia.
  - intros i cell w Hi Hw. destruct (Hcols i cell w Hi Hw) as (pre & post & E & Hp). exists pre, post. split; [done|].
    rewrite drop_0 in Hp. unfold gap in Hp. simpl in Hp. lia.
Qed.

Lemma render_all_spec fl widths rows : Forall (fun r => cells_fit fl widths 0 r /\ length r <= length widths)%nat rows ->
  exists lines, render_all fl widths rows = Ret lines
    /\ Forall2 (fun row line => render fl widths 0 row = Ret line) rows lines.
Proof.
  induction 1 as [|row rows [Hfit Hl] _ (lines & Er & IH)]; simpl; [by exists []|].
  destruct (render_width fl widths row Hfit Hl) as (line & E & _). rewrite E, ret_bind, Er, ret_bind. exists (line :: lines). by split; [|constructor].
Qed.

(** C35: A table with a flexible column: it is printed, one line for the header and
    one for each row; no line is wider than the terminal, as long as the other
    columns leave the flexible one its least width; each cell starts where its
    column starts, in all lines alike; only cells of the flexible column are cut,
    and none when the table fits as it is. *)
Theorem table_fits header rows flex term w
    (Hflex : column_widths header rows !! flex = Some w)
    (Hrows : Forall (fun r : list str => length r <= length header)%nat rows)
    (Hroom : (table_width (column_widths header rows) + (w `min` MIN_FLEX_WIDTH) <= term + w)%nat) :
  exists lines widths, format_table header rows (Some flex) (Some term) = Ret lines
    /\ length lines = S (length rows)
    /\ Forall (fun l => length l <= term)%nat lines
    /\ forall k row line i cell, (header :: rows) !! k = Some row -> lines !! k = Some line -> row !! i = Some cell ->
         exists pre text post wi, line = pre ++ text ++ post /\ length pre = (sum_list (take i widths) + 2 * i)%nat
           /\ widths !! i = Some wi /\ (i = flex -> text = fit_cell cell wi true) /\ (i <> flex -> text = cell)
           /\ ((table_width (column_widths header rows) <= term)%nat -> text = cell).
Proof.
  destruct (column_widths_spec header rows) as [Hlen Hcell]. set (W := column_widths header rows) in *.
  destruct (shrink_spec W flex term w Hflex) as (Hother & (w' & Hw' & Hle & Hpos) & Hlen' & Hsame & Hfits).
  set (W' := shrink (Some flex) (Some term) W) in *. specialize (Hfits Hroom).
  assert (Forall (fun r => cells_fit (Some flex) W' 0 r /\ length r <= length W')%nat (header :: rows)) as Hall.
  { apply Forall_forall. intros row Hrow.
    assert (length row <= length W')%nat as Hl.
    { rewrite Hlen', Hlen. apply elem_of_cons in Hrow as [->|Hr]; [done|]. by apply (proj1 (Forall_forall _ _) Hrows). }
    split; [|done]. intros j cell Hj. simpl.
    destruct (lookup_lt_is_Some_2 W' j) as [wj Hwj]; [apply lookup_lt_Some in Hj; lia|]. exists wj. split; [done|].
    destruct (decide (j = flex)) as [->|Hne].
    - rewrite bool_decide_true by done. rewrite Hw' in Hwj. injection Hwj as <-. apply fit_cell_length.
      destruct Hpos as [->|]; [right; by eapply Hcell|by left].
    - rewrite bool_decide_false by congruence. rewrite fit_cell_full by (by left). eapply Hcell; [done..|]. by apply Hother. }
  unfold format_table. assert ((Some flex ≫= fun i => if (i <? length header)%nat then Some i else None) = Some flex) as ->.
  { apply lookup_lt_Some in Hflex. rewrite Hlen in Hflex. cbn [mbind option_bind]. by rewrite (proj2 (Nat.ltb_lt _ _) Hflex). }
  fold W W'. destruct (render_all_spec _ _ _ Hall) as (lines & -> & Hlines). exists lines, W'.
  pose proof (Forall2_length _ _ _ Hlines) as Hll. split_and!; [done|done| |].
  - apply Forall_forall. intros line Hline. apply list_elem_of_lookup in Hline as [k Hk].
    destruct (Forall2_lookup_r _ _ _ _ _ Hlines Hk) as (row & Hrow & E).
    destruct (proj1 (Forall_lookup _ _) Hall _ _ Hrow) as [Hf Hl].
    destruct (render_width _ _ _ Hf Hl) as (line' & E' & Hw & _). rewrite E in E'. injection E' as <-. lia.
  - intros k row line i cell Hrow Hk Hi. destruct (proj1 (Forall_lookup _ _) Hall _ _ Hrow) as [Hf Hl].
    destruct (Hf i cell Hi) as (wi & Hwi & _). simpl in Hwi.
    destruct (render_width _ _ _ Hf Hl) as (line' & E' & _ & Hcols).
    pose proof (Forall2_lookup_lr _ _ _ _ _ _ Hlines Hrow Hk) as E. simpl in E. rewrite E in E'. injection E' as <-.
    destruct (Hcols i cell wi Hi Hwi) as (pre & post & -> & Hpre).
    exists pre, (fit_cell cell wi (bool_decide (Some flex = Some i))), post, wi. split_and!; [done..| | |].
    + intros ->. by rewrite bool_decide_true.
    + intros Hne. rewrite bool_decide_false by congruence. apply fit_cell_full. by left.
    + intros Hfit. rewrite (Hsame Hfit) in Hwi. apply fit_cell_full. right. eapply Hcell; [|done|done]. by eapply list_elem_of_lookup_2.
Qed.

(** ** Printing ends *)

Lemma render_ret fl widths cells i : (i + length cells <= length widths)%nat -> exists line, render fl widths i cells = Ret line.
Proof.
  revert i. induction cells as [|cell cells IH]; intros i Hl; simpl in *; [by eexists|].
  destruct (lookup_lt_is_Some_2 widths i) as [w ->]; [lia|]. destruct (IH (S i)) as [line ->]; [lia|]. rewrite ret_bind. by eexists.
Qed.

Lemma length_shrink fl tw widths : length (shrink fl tw widths) = length widths.
Proof. unfold shrink. destruct fl, tw; try done. case_match; [apply length_alter|done]. Qed.

(** Rows that are no longer than the header can be printed. *)
Lemma format_table_ret header rows fl tw : Forall (fun r : list str => length r <= length header)%nat rows ->
  exists lines, format_table header rows fl tw = Ret lines /\ length lines = S (length rows).
Proof.
  intros Hrows. unfold format_table. set (fl' := fl ≫= _). set (W := shrink fl' tw _).
  assert (length W = length header) as HW by (unfold W; rewrite length_shrink; apply column_widths_spec).
  assert (forall l, Forall (fun r : list str => length r <= length W)%nat l -> exists lines, render_all fl' W l = Ret lines /\ length lines = length l) as Hall.
  { induction 1 as [|r l Hr _ (lines & E & Hn)]; simpl; [by exists []|].
    destruct (render_ret fl' W r 0) as [line ->]; [lia|]. rewrite ret_bind, E, ret_bind. exists (line :: lines). simpl. by rewrite Hn. }
  destruct (Hall (header :: rows)) as (lines & -> & Hn); [|by exists lines]. rewrite HW. by constructor.
Qed.

Section Printing.
Context {F64 N : Type} (as_u64 : N -> option Z) (as_f64 : N -> option F64).
Context (is_pos : F64 -> bool) (show_1 : F64 -> str) (to_u64 : F64 -> Z) (show_2 : Z -> nat -> str).
Context (json_text json_pretty : JsonValue N -> str) (to_lowercase : str -> str).
Local Abbreviation print := (print_response as_u64 as_f64 is_pos show_1 to_u64 show_2 json_text json_pretty to_lowercase).

Lemma print_table_ret header rows fl tw n : (length header = n) -> Forall (fun r : list str => length r = n) rows ->
  exists lines, format_table header rows fl tw = Ret lines.
Proof.
  intros Hh Hr. destruct (format_table_ret header rows fl tw) as (lines & -> & _); [|by exists lines].
  eapply Forall_impl; [exact Hr|]. simpl. intros r ->. lia.
Qed.

Lemma print_list_ret response key empty header row fl tw :
  (forall v : JsonValue N, length (row v) = length header) -> exists lines, print_list response key empty header row fl tw = Ret lines.
Proof.
  intros Hrow. unfold print_list. destruct (jget response key ≫= jas_array) as [[|v l]|]; [by eexists| |by eexists].
  apply (print_table_ret _ _ _ _ (length header)); [by rewrite length_fmap|].
  apply Forall_forall. intros r (u & -> & _)%list_elem_of_fmap. apply Hrow.
Qed.

(** Whatever the server responds, what is printed is printed: no table has a row
    that is longer than its header. *)
Theorem print_response_total tw command response : exists lines, print tw command response = Ret lines.
Proof.
  unfold print_response.
  repeat (case_bool_decide; [first [by eexists | by apply print_list_ret | idtac]|]); [|by eexists].
  unfold print_debug.
  assert (forall l : list (JsonValue N), exists t, format_table (lit <$> ["Key"; "IP Address"; "Latency"]) (latency_row as_f64 is_pos show_1 <$> l) None tw = Ret t) as Hl
    by (intros l; eapply print_table_ret; [reflexivity|]; apply Forall_forall; by intros r (u & -> & _)%list_elem_of_fmap).
  assert (forall l : list (JsonValue N), exists t, format_table (lit <$> ["Key"; "IP Address"; "Uptime"; "RX"; "TX"])
    (session_row as_u64 as_f64 to_u64 show_2 <$> l) None tw = Ret t) as Hs
    by (intros l; eapply print_table_ret; [reflexivity|]; apply Forall_forall; by intros r (u & -> & _)%list_elem_of_fmap).
  destruct (jget response "peer_latencies" ≫= jas_array) as [[|v l]|];
    [|destruct (Hl (v :: l)) as [t ->]|]; rewrite ?ret_bind;
    (destruct (jget response "sessions" ≫= jas_array) as [[|v' l']|];
      [|destruct (Hs (v' :: l')) as [t' ->]|]; rewrite ?ret_bind; by eexists).
Qed.
End Printing.

(** ** Witness *)

Definition sample_header : list str := lit <$> ["URI"; "State"; "Latency"].
Definition sample_rows : list (list str) :=
  [lit <$> ["tls://[201:23b0:9e11:2a7c:4d5f::1]:7743"; "Up"; "21.0ms"]; lit <$> ["tcp://192.168.44.125:7743"; "Up"; "1.1ms"]].

Lemma table_fits_witness : exists lines, format_table sample_header sample_rows (Some 0%nat) (Some 45%nat) = Ret lines
  /\ Forall (fun l => length l <= 45)%nat lines.
Proof.
  destruct (table_fits sample_header sample_rows 0 45 39) as (lines & widths & E & _ & Hl & _).
  - vm_compute. reflexivity.
  - apply (Forall_impl (fun r => length r = 3%nat)); [repeat constructor|]. intros r ->. apply Nat.leb_le. vm_compute. reflexivity.
  - apply Nat.leb_le. vm_compute. reflexivity.
  - exists lines. split; [exact E|exact Hl].
Defined.

(** As the tests of the source have it: at 45 columns the longest line is 45 wide
    and the short URI is not cut. *)
Example sample_table :
  match format_table sample_header sample_rows (Some 0%nat) (Some 45%nat) with
  | Ret l => length <$> l = [45; 44; 43]%nat /\ take 25 (l !!! 2%nat) = lit "tcp://192.168.44.125:7743"
  | Panic => False
  end.
Proof. vm_compute. split; reflexivity. Qed.
