(* ===== verification/CtlAdmin.v ===== *)
(** * CtlAdmin: the control program and the socket together

    A command of the control program reaches the action of its name and what is
    shown is the action's response or its error. *)

From stdpp Require Import strings options.
From S2P Require Import Prelude.
From S2P Require Import Wire.
From S2P Require Import Address.
From S2P Require Import Text.
From S2P Require Import Config.
From S2P Require Import Queries.
From S2P Require Import Admin.
From S2P Require Import AdminFacts.
From S2P Require Import Ctl.
From S2P Require Import CtlFacts.
Open Scope Z_scope.

Section Together.
Context {F64 N C : Type} {AC : AdminCore F64 N C}.
Context (num : Z -> N) (json_f64 : F64 -> JsonValue N) (from_str : str -> option (JsonValue N)).
Context (show_address : Address -> str) (show_subnet : Subnet -> str) (prefix : Z) (to_lowercase : str -> str).
Context (pkg_name pkg_version : str).
Context (from_utf8_lossy : bytes -> str) (parse_request : str -> result str (AdminRequest N)).
Context (as_u64 : N -> option Z) (as_f64 : N -> option F64).
Context (is_pos : F64 -> bool) (show_1 : F64 -> str) (to_u64 : F64 -> Z) (show_2 : Z -> nat -> str).
Context (json_text json_pretty : JsonValue N -> str) (to_bytes : str -> bytes) (from_utf8 : bytes -> option str).

Local Abbreviation handle := (handle_request num json_f64 from_str show_address show_subnet prefix to_lowercase pkg_name pkg_version).
Local Abbreviation run := (handle_admin_conn num json_f64 from_str show_address show_subnet prefix to_lowercase pkg_name pkg_version
  from_utf8_lossy parse_request).
Local Abbreviation print := (print_response as_u64 as_f64 is_pos show_1 to_u64 show_2 json_text json_pretty to_lowercase).

(** The line that the client reads: the responses written, up to the first line
    feed, which is where the first one ends. *)
Definition server (e : StreamEnd) (c : C) (sent : bytes) : result str str :=
  match run sent e c with
  | Some (resp :: _, _) => ok_or (lit "stream did not contain valid UTF-8") (from_utf8 (write_response (fun v => to_bytes (json_text v)) resp))
  | _ => Ok []
  end.

(** The control program shows what the action gives: for a request whose text and
    a response whose text read back as they were printed, without a line feed in
    the request, the program prints the action's response for a reader, or exits
    with the action's error. *)
Theorem ctl_shows_action e (c : C) tw endpoint command arguments parse_error line
    (req := mkAdminRequest command (JObject arguments) false) (resp := respond req (handle req c).1)
    (sent := to_bytes (json_text (request_json req)))
    (Hline : Forall (fun x => x <> 10) sent) (Hmax : (length sent < MAX_REQUEST_SIZE)%nat)
    (Hblank : trim (from_utf8_lossy (sent ++ [10])) <> [])
    (Hreq : parse_request (trim (from_utf8_lossy (sent ++ [10]))) = Ok req)
    (Hutf8 : from_utf8 (write_response (fun v => to_bytes (json_text v)) resp) = Some line)
    (Hresp : trim line <> [] /\ from_str (trim line) = Some (response_json resp)) :
  run_ctl as_u64 as_f64 is_pos show_1 to_u64 show_2 json_text json_pretty to_lowercase (fun _ => Ok (server e c)) to_bytes from_str
    parse_error tw endpoint false command arguments
  = match (handle req c).1 with
    | Ok v => lines ← print tw command v; Ret (CtlPrinted lines)
    | Err err => Ret (CtlExit (lit "Error: " ++ err))
    end.
Proof.
  assert (run (sent ++ [10]) e c = Some ([resp], (handle req c).2)) as Hrun.
  { pose proof (conn_answers_line num json_f64 from_str show_address show_subnet prefix to_lowercase pkg_name pkg_version
      from_utf8_lossy parse_request (sent ++ [10]) e c) as ->; [|by apply complete_line_intro..].
    unfold request_of, is_line. rewrite last_snoc. change (10 =? 10) with true. cbn [negb andb]. cbv zeta.
    rewrite bool_decide_false by done. rewrite Hreq.
    unfold resp. by destruct (handle req c). }
  unfold run_ctl. cbv beta iota zeta. change (JObject [_; _; _]) with (request_json req). fold sent.
  unfold server. rewrite Hrun, Hutf8. unfold ok_or. rewrite bool_decide_false by apply Hresp. rewrite (proj2 Hresp).
  unfold resp, respond. destruct (handle req c).1 as [v|err]; reflexivity.
Qed.
End Together.

(** The report of [getdebug] has no fields of the names that the control program
    prints the pending lookups and the pending requests under. *)
Lemma debug_fields_missing {F64 N : Type} num json_f64 show_address prefix (snap : @DebugSnapshot F64) sessions peers :
  let report := @debug_report F64 N num json_f64 show_address prefix snap sessions peers in
  jget report "pending_lookup_count" = None /\ jget report "pending_sig_requests" = None
  /\ jget report "pending_lookups" = Some (JArray (pending_report num json_f64 show_address prefix <$> sn_pending_lookups snap))
  /\ jget report "unresponded_peers" = Some (JNumber (num (Z.of_nat (sn_unresponded_peers snap)))).
Proof. split_and!; reflexivity. Qed.

(** ** Witness *)

Definition list_request : AdminRequest Z := mkAdminRequest (lit "list") (JObject []) false.
Definition list_response : AdminResponse Z := respond list_request (Ok (JObject [(lit "list", JArray (JString <$> ACTIONS))])).

(** A printer that tells the request from the response. *)
Definition tiny_text (v : JsonValue Z) : str :=
  match v with JObject ((k, _) :: _) => if bool_decide (k = lit "request") then lit "q" else lit "r" | _ => [] end.
Definition tiny_from_str (s : str) : option (JsonValue Z) := if bool_decide (s = lit "r") then Some (response_json list_response) else None.
Definition tiny_parse (s : str) : result str (AdminRequest Z) := if bool_decide (s = lit "q") then Ok list_request else Err [].

Lemma ctl_shows_action_witness :
  run_ctl (F64 := unit) Some (fun _ => None) (fun _ => false) (fun _ => []) (fun _ => 0) (fun _ _ => []) tiny_text tiny_text id
    (fun _ => Ok (@server unit Z (list str) toy_core id (fun _ => JNull) tiny_from_str id id 2 id [] [] id tiny_parse tiny_text id Some EndSilent []))
    id tiny_from_str [] None (lit "tcp://localhost:9001") false (lit "list") []
  = Ret (CtlPrinted (lit "Available commands:" :: ((fun a => lit "  " ++ a) <$> ACTIONS))).
Proof.
  etransitivity; [apply (@ctl_shows_action unit Z (list str) toy_core id (fun _ => JNull) tiny_from_str id id 2 id [] [] id tiny_parse
    Some (fun _ => None) (fun _ => false) (fun _ => []) (fun _ => 0) (fun _ _ => []) tiny_text tiny_text id Some
    EndSilent [] None (lit "tcp://localhost:9001") (lit "list") [] [] (lit "r" ++ [10]))|vm_compute; reflexivity].
  - repeat constructor; discriminate.
  - apply Nat.ltb_lt. vm_compute. reflexivity.
  - vm_compute. discriminate.
  - vm_compute. reflexivity.
  - vm_compute. reflexivity.
  - split; [vm_compute; discriminate|vm_compute; reflexivity].
Defined.
