(* ===== verification/Startup.v ===== *)
(** * Startup: the daemon from its command line to its end

    Models [async_main] and [run_node] of [crates/yggdrasil/src/main.rs]: what the
    options ask for, how the configuration is generated, loaded and completed, the
    choice of the signing key, the order in which the parts of the node come up and
    are closed again, and, on Linux, every change that this makes to the routes of
    the host. The program [ip] and the kernel are the class [HostOps]; what the
    other parts of the node answer is the record [Host]. [CONFIG_TEMPLATE] and TOML
    text are parameters. [run_node] is the Linux build with all features. *)

From stdpp Require Import strings options.
From S2P Require Import Prelude.
From S2P Require Import Wire.
From S2P Require Import Crypto.
From S2P Require Import Address.
From S2P Require Import Firewall.
From S2P Require Import Ckr.
From S2P Require Import Text.
From S2P Require Import Config.
From S2P Require Import CkrText.
From S2P Require Import CkrSystem.
From S2P Require Import Cli.
Open Scope Z_scope.

(** ** Routes of the host *)

(** A run of [ip]: it cannot be started, it fails, or it leaves this table. *)
Inductive IpResult := IpNotRun | IpFailed | IpDone (sys : gset Route).

(** [ip -6 route replace <network>/<len> dev <if> table <table>], [ip -6 route del
    <network>/<len> [dev <if>] [table <table>]], and what the kernel does with the
    routes when an interface appears with its address, gets more addresses, and goes. *)
Class HostOps := {
  ip_replace : Route -> gset Route -> IpResult;
  ip_del : Z -> Z -> option str -> option Z -> gset Route -> IpResult;
  tun_appears : str -> gset Route -> gset Route;
  tun_addressed : str -> list str -> gset Route -> gset Route;
  tun_vanishes : str -> gset Route -> gset Route
}.

Definition ip_table (r : IpResult) (sys : gset Route) : gset Route := match r with IpDone sys => sys | _ => sys end.

Section Routes.
Context `{HostOps}.

Definition overlay_addr (prefix : Z) : Z := from_be_bytes (overlay_network_for_prefix prefix).1.
Definition overlay_len (prefix : Z) : Z := (overlay_network_for_prefix prefix).2.

(** Whether it is [Ok], and the table. A [del] that exits with a failure is only
    logged. *)
Definition install_overlay_route (prefix : Z) (tun_name : str) (table : Z) (sys : gset Route) : bool * gset Route :=
  match ip_replace (mkRoute false (overlay_addr prefix) (overlay_len prefix) tun_name (Some table)) sys with
  | IpDone sys =>
      match ip_del (overlay_addr prefix) (overlay_len prefix) (Some tun_name) None sys with
      | IpNotRun => (false, sys)
      | IpFailed => (true, sys)
      | IpDone sys => (true, sys)
      end
  | _ => (false, sys)
  end.

Definition remove_overlay_route (prefix : Z) (tun_name : str) (table : Z) (sys : gset Route) : gset Route :=
  ip_table (ip_del (overlay_addr prefix) (overlay_len prefix) (Some tun_name) (Some table) sys) sys.

(** The text of a subnet is its eight bytes followed by zeros, and [/64]. *)
Definition subnet_addr (subnet : bytes) : Z := from_be_bytes (subnet ++ replicate 8 0).

Definition install_local_subnet_route (subnet : bytes) (iface : str) (table : Z) (sys : gset Route) : bool * gset Route :=
  match ip_replace (mkRoute false (subnet_addr subnet) 64 iface (Some table)) sys with
  | IpDone sys => (true, sys)
  | _ => (false, sys)
  end.

Definition remove_local_subnet_route (subnet : bytes) (table : Z) (sys : gset Route) : gset Route :=
  ip_table (ip_del (subnet_addr subnet) 64 None (Some table) sys) sys.

(** [install_local_subnet_route_with_retries] on the table: [n] more attempts after
    this one. A look is the shutdown flag, the interfaces and whether the wait ends
    by shutdown; the looks end where the task is aborted. *)
Record SubnetLook := mkSubnetLook { sl_shutdown : bool; sl_ifaces : option (list str); sl_interrupted : bool }.

Fixpoint subnet_task (subnet : bytes) (table : Z) (n : nat) (looks : list SubnetLook) (sys : gset Route) {struct looks} : gset Route :=
  match looks with
  | [] => sys
  | l :: looks =>
      if sl_shutdown l then sys
      else
        let '(done, sys) := match sl_ifaces l with
                            | Some [iface] => install_local_subnet_route subnet iface table sys
                            | _ => (false, sys)
                            end in
        if done then sys
        else match n with
             | O => sys
             | S n => if sl_interrupted l then sys else subnet_task subnet table n looks sys
             end
  end.
End Routes.

(** ** The options *)

(** [getopts::Matches]: a flag with an optional value is [Some None] without it. *)
Record Matches := mkMatches {
  m_help : bool; m_version : bool; m_autoconf : bool; m_address : bool; m_subnet : bool; m_no_replace : bool; m_json : bool; m_service : bool;
  m_genconf : option (option str); m_normalize : option (option str);
  m_config : option str; m_base : option str; m_peers : option str; m_endpoint : option str;
  m_free : list str }.

(** [expand_genconf_path]: [%NAME%] on Windows; [env] is [std::env::var]. *)
Fixpoint expand_vars (env : str -> option str) (fuel : nat) (rest : str) : str :=
  match fuel with
  | O => rest
  | S fuel =>
      match split_once 37 rest with
      | None => rest
      | Some (before, after) =>
          match split_once 37 after with
          | Some (name, after') =>
              match (if bool_decide (name = []) then None else env name) with
              | Some val => before ++ val ++ expand_vars env fuel after'
              | None => before ++ [37] ++ expand_vars env fuel after
              end
          | None => before ++ [37] ++ expand_vars env fuel after
          end
      end
  end.

Definition expand_genconf_path (pl : Platform) (env : str -> option str) (path : str) : str :=
  if is_windows pl then expand_vars env (S (length path)) path else path.

Definition config_parent_dir (p : path) : option path :=
  match Path_parent p with
  | Some parent => if bool_decide (parent = (false, [])) || bool_decide (parent = Path_new (lit ".")) then None else Some parent
  | None => None
  end.

(** The arguments of a control command, by key: a later one replaces an earlier. *)
Definition ctl_arguments (args : list str) : gmap str str :=
  foldl (fun m arg => match split_once 61 arg with Some (k, v) => <[k := v]> m | None => m end) ∅ args.

(** ** Keys and configurations *)

Inductive BaseError := BaseToml | BaseEmptyKey | BaseKey (e : KeyError).
Inductive NodeError :=
| ConfigNotFound (path : str) | ConfigUnreadable | ConfigToml
| BaseNotFound (path : str) | BaseUnreadable | BaseInvalid (path : str) (e : BaseError)
| BadKey (e : KeyError) | BadEnvHex | BadEnvLength (n : nat) | BadEnvKey | EnvLowOrder
| DirFailed | WriteFailed | ReadFailed | NormalizeFailed
| BadFirewall | NoTun.

(** [File::open]. *)
Inductive OpenResult := Opened | OpenNotFound | OpenFailed.

Section Configs.
Context `{D : Dalek} {F T : Type}.
Context (from_keypair_bytes : bytes -> option SigningKey) (from_toml : str -> option (Config F T)) (CONFIG_TEMPLATE : str).
Context (pl : Platform) (env : str -> option str) (fs : FileSystem) (open : path -> OpenResult)
  (program_name : str).
(** [hex::encode] of a new key pair, and a new key. *)
Context (new_keypair_hex : str) (ephemeral : SigningKey).

Definition PLACEHOLDER : str := lit "{{PRIVATE_KEY}}".
Definition generate_config_text : str := replace PLACEHOLDER new_keypair_hex CONFIG_TEMPLATE.
Definition generate_config_text_from_private_key (key_hex : str) : str := replace PLACEHOLDER key_hex CONFIG_TEMPLATE.

Definition private_key_from_toml (user_toml : str) : result BaseError str :=
  match from_toml user_toml with
  | None => Err BaseToml
  | Some cfg =>
      if bool_decide (cf_private_key cfg = []) then Err BaseEmptyKey
      else match signing_key from_keypair_bytes cfg with Err e => Err (BaseKey e) | Ok _ => Ok (cf_private_key cfg) end
  end.

Definition resolve_prefix_port : option (Z * Z) := prefix_port_from_name pl program_name.

Definition with_port (text : str) : str :=
  rewrite_admin_listen_in_genconf_text text (from_option snd DEFAULT_ADMIN_PORT resolve_prefix_port).

(** [None]: the expansion of includes is beyond its fuel (it never is). *)
Definition generate_config_text_maybe_from_base (base_path : option str) : option (result NodeError str) :=
  match base_path with
  | None => Some (Ok (with_port generate_config_text))
  | Some path =>
      let path := expand_genconf_path pl env path in
      match open (Path_new path) with
      | OpenNotFound => Some (Err (BaseNotFound path))
      | OpenFailed => Some (Err BaseUnreadable)
      | Opened =>
          '(text, _) ← expand_config_includes fs (Path_new path);
          Some (match private_key_from_toml text with
                | Err e => Err (BaseInvalid path e)
                | Ok key => Ok (with_port (generate_config_text_from_private_key key))
                end)
      end
  end.

Definition load_config_file (path : str) : option (result NodeError (Config F T)) :=
  let open_path := expand_genconf_path pl env path in
  match open (Path_new open_path) with
  | OpenNotFound => Some (Err (ConfigNotFound path))
  | OpenFailed => Some (Err ConfigUnreadable)
  | Opened =>
      '(text, _) ← expand_config_includes fs (Path_new open_path);
      Some (match from_toml text with Some c => Ok c | None => Err ConfigToml end)
  end.

Definition load_config (autoconf : bool) (path : str) : option (result NodeError (Config F T)) :=
  if autoconf then Some (Ok Config_default) else load_config_file path.

(** The signing key: of the configuration, of the environment, or a new one. *)
Definition choose_key (config : Config F T) : result NodeError SigningKey :=
  if negb (bool_decide (cf_private_key config = [])) then
    match signing_key from_keypair_bytes config with Ok k => Ok k | Err e => Err (BadKey e) end
  else
    match env (lit "YGGDRASIL_PRIVATE_KEY") with
    | Some env_key =>
        match hex_decode env_key with
        | None => Err BadEnvHex
        | Some bs =>
            if negb (length bs =? 64)%nat then Err (BadEnvLength (length bs))
            else match from_keypair_bytes bs with
                 | None => Err BadEnvKey
                 | Some key => if is_public_key_valid (sk_verifying_key_bytes key) then Ok key else Err EnvLowOrder
                 end
        end
    | None => Ok ephemeral
    end.

(** The configuration that the node runs with, and the address prefix. *)
Definition DEFAULT_PREFIX : Z := 2.

Definition node_config (opt_peers : option str) (config : Config F T) : Z * Config F T :=
  let '(prefix, config) := match resolve_prefix_port with
                           | Some (prefix, port) => (prefix, (apply_prefix_port pl prefix port config).2)
                           | None => (DEFAULT_PREFIX, config)
                           end in
  (prefix, match opt_peers with
           | Some val => config <| cf_peers := cf_peers config ++ parse_peers_list val |>
           | None => config
           end).

(** ** [async_main] *)

Inductive NormalizeError := ParseUser | ParseTemplate | IncludesPresent.

Definition normalize_config_text (parse_doc : str -> option (list (str * Item))) (print_doc : list (str * Item) -> str) (user_toml : str)
    : result NormalizeError str :=
  if has_uncommented_include user_toml then Err IncludesPresent
  else match parse_doc user_toml with
       | None => Err ParseUser
       | Some user_doc =>
           match parse_doc (replace PLACEHOLDER [] CONFIG_TEMPLATE) with
           | None => Err ParseTemplate
           | Some template_doc => Ok (print_doc (merge_missing user_doc template_doc))
           end
       end.

(** How the program ends, or that it goes on to run the node. *)
Inductive MainEnd :=
| ExitUsage | ExitBaseAlone | ExitBaseEmpty | ExitNormalize (e : NormalizeError)
| Help | Version
| Control (endpoint : str) (json_output : bool) (command : str) (arguments : gmap str str)
| Service
| Skipped (path : str)
| Saved (created : option path) (path : str) (text : str)
| Printed (text : str)
| Failed (e : NodeError)
| RunNode.

Definition endpoint_of (m : Matches) : str :=
  default (lit "tcp://localhost:" ++ show (from_option snd DEFAULT_ADMIN_PORT resolve_prefix_port)) (m_endpoint m).

(** [--genconf]: the existence of paths, and whether the folder and the file can be
    written. *)
Definition genconf (exists_ : path -> bool) (create_ok write_ok : bool) (m : Matches) (target : option str) : option MainEnd :=
  match target with
  | None =>
      text ← generate_config_text_maybe_from_base (m_base m);
      Some (match text with Ok t => Printed t | Err e => Failed e end)
  | Some path =>
      let path := expand_genconf_path pl env path in
      if m_no_replace m && exists_ (Path_new path) then Some (Skipped path)
      else
        let folder := match config_parent_dir (Path_new path) with
                      | Some parent => if exists_ parent then None else Some parent
                      | None => None
                      end in
        if bool_decide (is_Some folder) && negb create_ok then Some (Failed DirFailed)
        else
          text ← generate_config_text_maybe_from_base (m_base m);
          Some (match text with
                | Err e => Failed e
                | Ok t => if write_ok then Saved folder path t else Failed WriteFailed
                end)
  end.

Definition with_newline (out : str) : str := if ends_with [10] out then out else out ++ [10].

(** [--normalize]: [file] and [stdin] are what can be read. *)
Definition normalize (parse_doc : str -> option (list (str * Item))) (print_doc : list (str * Item) -> str)
    (file : str -> option str) (stdin : option str) (source : option str) : MainEnd :=
  let buf := match source with
             | Some path => if bool_decide (path = lit "-") then stdin else file path
             | None => stdin
             end in
  match buf with
  | None => Failed ReadFailed
  | Some buf => match normalize_config_text parse_doc print_doc buf with
                | Ok out => Printed (with_newline out)
                | Err e => ExitNormalize e
                end
  end.

(** [--address] and [--subnet]. *)
Definition show_identity (show_address : Address -> str) (show_subnet : Subnet -> str) (config_path : str) (m : Matches) : option MainEnd :=
  config ← load_config (m_autoconf m) config_path;
  Some (match config with
        | Err e => Failed e
        | Ok config =>
            match choose_key config with
            | Err e => Failed e
            | Ok key =>
                let prefix := from_option fst DEFAULT_PREFIX resolve_prefix_port in
                let public_key := sk_verifying_key_bytes key in
                if m_address m then Printed (show_address (addr_for_key prefix public_key) ++ [10])
                else Printed (show_subnet (subnet_for_key prefix public_key) ++ [10])
            end
        end).

Definition async_main (exists_ : path -> bool) (create_ok write_ok : bool)
    (parse_doc : str -> option (list (str * Item))) (print_doc : list (str * Item) -> str) (file : str -> option str) (stdin : option str)
    (show_address : Address -> str) (show_subnet : Subnet -> str) (config_path : str) (parsed : option Matches) : option MainEnd :=
  match parsed with
  | None => Some ExitUsage
  | Some m =>
      if m_help m then Some Help
      else if m_version m then Some Version
      else match m_free m with
      | command :: args => Some (Control (endpoint_of m) (m_json m) command (ctl_arguments args))
      | [] =>
          if is_windows pl && m_service m then Some Service
          else if bool_decide (is_Some (m_base m)) && negb (bool_decide (is_Some (m_genconf m))) then Some ExitBaseAlone
          else if bool_decide (m_base m = Some []) then Some ExitBaseEmpty
          else match m_genconf m with
          | Some target => genconf exists_ create_ok write_ok m target
          | None =>
              match m_normalize m with
              | Some source => Some (normalize parse_doc print_doc file stdin source)
              | None =>
                  if m_address m || m_subnet m then show_identity show_address show_subnet config_path m
                  else Some RunNode
              end
          end
      end
  end.
End Configs.

(** ** [run_node] *)

(** What comes up and is closed, in order. *)
Inductive Stage :=
| CoreCreated (public_key : PublicKey) (address : Address) | LinksInitialised | CoreStarted
| FirewallEnabled | GatewayCreated | TunStarted (name : str) (mtu : Z) | AdminStarted | MulticastStarted
| ListsDownloaded | PeersExcluded | RuleEnsured (ok : bool)
| CkrInitialised | CkrAddressesAssigned | OverlayRouteInstalled (ok : bool) | SystemRoutesInstalled (ok : bool) | SubnetTaskSpawned
| NodeStarted | NotifiedReady
| SubnetTaskEnded | SubnetRouteRemoved | OverlayRouteRemoved | SystemRoutesRemoved
| TunClosed (routes : gset Route) | MulticastClosed | AdminClosed | CoreClosed.

(** What the parts of the node and the host answer: the size
    limit of the core, the name of the new interface, the start of the admin socket and of the
    discovery, the runs of [ip rule], the shutdown flag after the preparations, the
    cache of route lists that the initialisation of crypto-key routing leaves, the
    route manager at both ends, and the looks of the subnet task until it ends or is
    aborted, and the additional addresses that the interface takes. *)
Record Host := mkHost {
  hs_mtu : Z; hs_tun : option str; hs_admin_ok : bool; hs_multicast_ok : bool;
  hs_rule_v4 : IpRuns; hs_rule_v6 : IpRuns; hs_shutdown : bool; hs_cache : RouteFileCache;
  hs_manager_up : bool; hs_manager_down : bool; hs_looks : list SubnetLook; hs_addresses : list str }.

Definition result_err {E A} (r : result E A) : option E := match r with Ok _ => None | Err e => Some e end.
Definition when {A} (b : bool) (l : list A) : list A := if b then l else [].

Section Node.
Context `{D : Dalek} {HO : HashOrder} {F T : Type} `{HostOps} `{RouteOps} `{IpNetOps} `{EqDecision IpNet}.
Context (parse_url : str -> ListUrl) (read_list : str -> ListFile) (parse_net : str -> option IpNet) (overflow_checks : bool).
Context (downloaded : str -> list str) (exclusions : list str) {Ipv6Net : Type} (fw_from_str : string -> option (Firewall.IpNet Ipv6Net)).
Context (host : Host).

Definition tun_label (tun : option str) (config : Config F T) : str :=
  match tun with
  | Some name => name
  | None => if bool_decide (cf_if_name config = lit "auto") then lit "ygg0" else cf_if_name config
  end.

Definition wants_tun (config : Config F T) : bool := negb (bool_decide (cf_if_name config = lit "none")).

(** The rule, and the table that it leads to. *)
Definition rule_up (config : Config F T) : list Stage * option Z :=
  match effective (cf_ip_rule config) with
  | Some (pref, lookup) =>
      ([RuleEnsured (bool_decide ((ensure_linux_ip_rule pref lookup (hs_rule_v4 host) (hs_rule_v6 host)).2 = None))], Some lookup)
  | None => ([], None)
  end.

(** The additional addresses of the interface, those that can be assigned:
    [hs_addresses]. *)
Definition addresses_up (tun : option str) (config : Config F T) (sys : gset Route) : list Stage * gset Route :=
  match tun with
  | Some name =>
      if wants_tun config && tr_enable (cf_tunnel_routing config) then ([CkrAddressesAssigned], tun_addressed name (hs_addresses host) sys)
      else ([], sys)
  | None => ([], sys)
  end.

(** The overlay's route, in the table of the rule. *)
Definition overlay_up (prefix : Z) (tun : option str) (route_table : option Z) (sys : gset Route) : list Stage * gset Route :=
  match route_table, tun with
  | Some table, Some name => let '(ok, sys) := install_overlay_route prefix name table sys in ([OverlayRouteInstalled ok], sys)
  | _, _ => ([], sys)
  end.

(** The routes of crypto-key routing. *)
Definition system_up (public_key : PublicKey) (tun : option str) (route_table : option Z) (config : Config F T) (sys : gset Route)
    : outcome (list Stage * gset Route * RouteFileCache) :=
  let tr := cf_tunnel_routing config in
  if tr_enable tr && tr_install_system_routes tr && wants_tun config then
    match install_routes parse_url read_list true parse_net overflow_checks downloaded exclusions true (tr_enable tr)
            (tr_install_system_routes tr) public_key (map_iter (tr_remote_subnets tr)) (tun_label tun config) route_table
            (hs_manager_up host) (hs_cache host) sys with
    | (Panic, _) => Panic
    | (Ret (Ok sys), cache) => Ret ([SystemRoutesInstalled true], sys, cache)
    | (Ret (Err _), cache) => Ret ([SystemRoutesInstalled false], sys, cache)
    end
  else Ret ([], sys, hs_cache host).

(** Everything between the preparations and the wait, and the table when the subnet
    task has ended. *)
Definition node_up (prefix : Z) (public_key : PublicKey) (tun : option str) (route_table : option Z) (config : Config F T) (sys : gset Route)
    : outcome (list Stage * gset Route * RouteFileCache) :=
  let '(assigned, sys) := addresses_up tun config sys in
  let '(overlay, sys) := overlay_up prefix tun route_table sys in
  '(system, sys, cache) ← system_up public_key tun route_table config sys;
  let '(task, sys) := match route_table with
                      | Some table => ([SubnetTaskSpawned],
                          subnet_task (subnet_for_key prefix public_key) table LOCAL_SUBNET_ROUTE_RETRIES (hs_looks host) sys)
                      | None => ([], sys)
                      end in
  Ret ([CkrInitialised] ++ assigned ++ overlay ++ system ++ task ++ [NodeStarted], sys, cache).

(** After the signal. The stage of the interface's end keeps the table that it meets. *)
Definition node_down (prefix : Z) (public_key : PublicKey) (tun : option str) (route_table : option Z) (spawned admin : bool)
    (config : Config F T) (sys : gset Route) (cache : RouteFileCache) : outcome (list Stage * gset Route) :=
  let '(subnet, sys) := match route_table with
                        | Some table => ([SubnetRouteRemoved], remove_local_subnet_route (subnet_for_key prefix public_key) table sys)
                        | None => ([], sys)
                        end in
  let '(overlay, sys) := match route_table, tun with
                         | Some table, Some name => ([OverlayRouteRemoved], remove_overlay_route prefix name table sys)
                         | _, _ => ([], sys)
                         end in
  let tr := cf_tunnel_routing config in
  '(system, sys) ← (if tr_enable tr && wants_tun config then
      match remove_routes parse_url read_list true parse_net overflow_checks downloaded exclusions true (tr_enable tr)
              (tr_install_system_routes tr) public_key (map_iter (tr_remote_subnets tr)) (tun_label tun config) route_table
              (hs_manager_down host) cache sys with
      | (Panic, _) => Panic
      | (Ret sys, _) => Ret ([SystemRoutesRemoved], sys)
      end
    else Ret ([], sys));
  let '(closed, sys) := match tun with Some name => ([TunClosed sys], tun_vanishes name sys) | None => ([], sys) end in
  Ret (when spawned [SubnetTaskEnded] ++ subnet ++ overlay ++ system ++ closed
       ++ [MulticastClosed] ++ when admin [AdminClosed] ++ [CoreClosed], sys).

(** The node with its configuration and key. The flag of the shutdown is looked at
    once before the routes; the wait that follows ends at once if it was set. *)
Definition serve (prefix : Z) (config : Config F T) (key : SigningKey) (sys : gset Route)
    : outcome (result NodeError unit * list Stage * gset Route) :=
  let public_key := sk_verifying_key_bytes key in
  let trace := [CoreCreated public_key (addr_for_key prefix public_key); LinksInitialised; CoreStarted] in
  if fc_enable (cf_firewall config) && bool_decide (is_Some (result_err (Firewall_new fw_from_str (cf_firewall config)))) then Ret (Err BadFirewall, trace, sys)
  else
    let trace := trace ++ when (fc_enable (cf_firewall config)) [FirewallEnabled] ++ [GatewayCreated] in
    if wants_tun config && bool_decide (hs_tun host = None) then Ret (Err NoTun, trace, sys)
    else
      let tun := if wants_tun config then hs_tun host else None in
      let sys := match tun with Some name => tun_appears name sys | None => sys end in
      let trace := trace
        ++ match tun with Some name => [TunStarted name (Z.min (Z.min (cf_if_mtu config) (hs_mtu host)) 65535)] | None => [] end
        ++ when (hs_admin_ok host) [AdminStarted] ++ when (hs_multicast_ok host) [MulticastStarted] ++ [ListsDownloaded; PeersExcluded] in
      let '(rule, route_table) := rule_up config in
      '(up, sys, cache) ← (if hs_shutdown host then Ret ([], sys, hs_cache host)
                           else node_up prefix public_key tun route_table config sys);
      '(down, sys) ← node_down prefix public_key tun route_table (negb (hs_shutdown host) && bool_decide (is_Some route_table))
                       (hs_admin_ok host) config sys cache;
      Ret (Ok tt, trace ++ rule ++ up ++ [NotifiedReady] ++ down, sys).

Context (from_keypair_bytes : bytes -> option SigningKey) (from_toml : str -> option (Config F T)).
Context (env : str -> option str) (fs : FileSystem) (open : path -> OpenResult) (program_name : str) (ephemeral : SigningKey).

(** [None]: as for [load_config]. *)
Definition run_node (config_path : str) (m : Matches) (sys : gset Route) : option (outcome (result NodeError unit * list Stage * gset Route)) :=
  config ← load_config from_toml Linux env fs open (m_autoconf m) config_path;
  Some (match config with
        | Err e => Ret (Err e, [], sys)
        | Ok config =>
            let '(prefix, config) := node_config Linux program_name (m_peers m) config in
            match choose_key from_keypair_bytes env ephemeral config with
            | Err e => Ret (Err e, [], sys)
            | Ok key => serve prefix config key sys
            end
        end).
End Node.
