(* ===== verification/StartupFacts.v ===== *)
(** * StartupFacts: what a run of the node leaves behind

    A node that has run leaves the routes of the host as they were, however far it
    came and whatever failed on the way; what came up is closed; [--address] shows
    the address that the node uses. *)

From stdpp Require Import strings options.
From S2P Require Import Prelude.
From S2P Require Import Wire.
From S2P Require Import Crypto.
From S2P Require Import Address.
From S2P Require Import Firewall.
From S2P Require Import Ckr.
From S2P Require Import CkrFacts.
From S2P Require Import Text.
From S2P Require Import Config.
From S2P Require Import ConfigFacts.
From S2P Require Import CkrText.
From S2P Require Import CkrTextFacts.
From S2P Require Import CkrSystem.
From S2P Require Import CkrSystemFacts.
From S2P Require Import Cli.
From S2P Require Import Startup.
Open Scope Z_scope.

(** The fuel of [expand_vars] is enough: each turn passes a percent sign. *)
Lemma expand_vars_fuel env fuel : forall fuel' rest, (length rest < fuel)%nat -> (length rest < fuel')%nat ->
  expand_vars env fuel rest = expand_vars env fuel' rest.
Proof.
  induction fuel as [|fuel IH]; intros [|fuel'] rest H1 H2; [lia..|]. cbn [expand_vars].
  destruct (split_once 37 rest) as [[before after]|] eqn:E; [|done]. apply split_once_Some in E as [-> _].
  rewrite length_app in H1, H2. cbn in H1, H2. assert (expand_vars env fuel after = expand_vars env fuel' after) as Ha by (apply IH; lia).
  destruct (split_once 37 after) as [[name after']|] eqn:E'; [|by rewrite Ha]. apply split_once_Some in E' as [-> _].
  rewrite length_app in H1, H2. cbn in H1, H2. case_bool_decide; [by rewrite Ha|]. destruct (env name); [|by rewrite Ha]. do 2 f_equal. apply IH; lia.
Qed.

(** ** The host *)

(** Routes to the same destination in a table, and those that a [del] is about. *)
Definition same_dest (s r : Route) : Prop :=
  rt_v4 s = rt_v4 r /\ rt_network s = rt_network r /\ rt_len s = rt_len r /\ rt_table s = rt_table r.
Definition selects (net len : Z) (dev : option str) (table : option Z) (r : Route) : Prop :=
  rt_v4 r = false /\ rt_network r = net /\ rt_len r = len /\ rt_table r = table /\ from_option (fun d => rt_if r = d) True dev.

#[export] Instance same_dest_dec s r : Decision (same_dest s r).
Proof. unfold same_dest. apply _. Defined.

(** The documented behaviour of [ip route] and of the kernel, for routes that are
    told apart by destination, table and interface: [replace] changes the route to a
    destination or adds one; [del] removes a matching route and succeeds if there is
    one; an interface brings routes of its own only, in the main table, and takes all
    of them with it. *)
Class HostLaws `{HostOps} := {
  ip_replace_spec r sys sys' : ip_replace r sys = IpDone sys' -> sys' = {[r]} ∪ filter (fun s => ~ same_dest s r) sys;
  ip_del_spec net len dev table sys sys' : ip_del net len dev table sys = IpDone sys' ->
    exists r, r ∈ sys /\ selects net len dev table r /\ sys' = sys ∖ {[r]};
  ip_del_present net len dev table sys r : r ∈ sys -> selects net len dev table r ->
    exists sys', ip_del net len dev table sys = IpDone sys';
  tun_appears_spec name sys r : rt_if r <> name -> r ∈ tun_appears name sys <-> r ∈ sys;
  tun_addressed_spec name addresses sys r : rt_if r <> name -> r ∈ tun_addressed name addresses sys <-> r ∈ sys;
  tun_appears_main name sys r : r ∈ tun_appears name sys -> r ∈ sys \/ rt_table r = None;
  tun_addressed_main name addresses sys r : r ∈ tun_addressed name addresses sys -> r ∈ sys \/ rt_table r = None;
  tun_vanishes_spec name sys r : r ∈ tun_vanishes name sys <-> r ∈ sys /\ rt_if r <> name
}.

(** Before the node runs, no route uses its interface, and the table of the rule has
    no route to the overlay or to the node's subnet. *)
Definition fresh (prefix : Z) (public_key : PublicKey) (tun : option str) (table : option Z) (sys : gset Route) : Prop :=
  forall r, r ∈ sys -> tun <> Some (rt_if r) /\
    forall t, table = Some t -> ~ selects (overlay_addr prefix) (overlay_len prefix) None (Some t) r
      /\ ~ selects (subnet_addr (subnet_for_key prefix public_key)) 64 None (Some t) r.

Section Restored.
Set Default Proof Using "All".
Opaque overlay_addr overlay_len subnet_addr subnet_for_key.
Context `{HostLaws} (prefix : Z) (public_key : PublicKey) (tun : option str) (table : option Z) (sys0 : gset Route).
Hypothesis Hfresh : fresh prefix public_key tun table sys0.

Definition local (r : Route) : Prop :=
  exists t, table = Some t /\ selects (subnet_addr (subnet_for_key prefix public_key)) 64 None (Some t) r.

(** Apart from the node's interface and the local subnet, nothing has changed. *)
Definition kept (sys : gset Route) : Prop := forall r, tun <> Some (rt_if r) -> ~ local r -> r ∈ sys <-> r ∈ sys0.
(** There is at most one local route of another interface, and then it is the only
    one. *)
Definition one_local (sys : gset Route) : Prop :=
  (forall r, r ∈ sys -> local r -> tun = Some (rt_if r)) \/ (forall r s, r ∈ sys -> s ∈ sys -> local r -> local s -> r = s).
Definition no_local (sys : gset Route) : Prop := forall r, r ∈ sys -> local r -> tun = Some (rt_if r).

Lemma fresh_kept : kept sys0 /\ no_local sys0.
Proof.
  split; [done|]. intros r Hr (t & -> & Hl). destruct (Hfresh r Hr) as [_ Hf]. by destruct (Hf t eq_refl) as [_ Hf'].
Qed.

(** Changes on the node's interface only. *)
Definition tun_only (sys sys' : gset Route) : Prop := forall r, tun <> Some (rt_if r) -> r ∈ sys' <-> r ∈ sys.

Lemma tun_only_inv sys sys' : tun_only sys sys' -> (kept sys -> kept sys') /\ (no_local sys -> no_local sys').
Proof.
  intros Ht. split.
  - intros Hk r Hr Hl. rewrite (Ht r Hr). by apply Hk.
  - intros Hk r Hr Hl. destruct (decide (tun = Some (rt_if r))) as [|Hne]; [done|]. apply (Ht r Hne) in Hr. by apply Hk.
Qed.

Lemma tun_only_trans sys1 sys2 sys3 : tun_only sys1 sys2 -> tun_only sys2 sys3 -> tun_only sys1 sys3.
Proof. intros H1 H2 r Hr. by rewrite (H2 r Hr), (H1 r Hr). Qed.

Lemma del_tun net len dev t sys : tun = Some dev -> tun_only sys (ip_table (ip_del net len (Some dev) t sys) sys).
Proof.
  intros -> r Hr. destruct (ip_del _ _ _ _ _) as [| |sys'] eqn:E; [done..|]. cbn [ip_table].
  apply ip_del_spec in E as (s & Hs & (_ & _ & _ & _ & Hd) & ->). cbn in Hd. set_unfold. naive_solver.
Qed.

(** The overlay's route. Other routes to the overlay in the table are not there. *)
Lemma install_overlay_kept name t sys : tun = Some name -> table = Some t -> kept sys -> no_local sys ->
  kept (install_overlay_route prefix name t sys).2 /\ no_local (install_overlay_route prefix name t sys).2.
Proof.
  intros Hn Ht Hk Hl. unfold install_overlay_route. set (o := mkRoute _ _ _ _ _).
  destruct (ip_replace o sys) as [| |sys1] eqn:E; [done..|].
  assert (kept sys1 /\ no_local sys1) as [Hk1 Hl1].
  { apply ip_replace_spec in E as ->. split.
    - intros r Hr Hnl. rewrite elem_of_union, elem_of_singleton, elem_of_filter, <- (Hk r Hr Hnl). split.
      + intros [->|[_ ?]]; [|done]. by destruct Hr.
      + intros Hin. right. split; [|done]. intros (E1 & E2 & E3 & E4). apply (Hk r Hr Hnl) in Hin.
        destruct (Hfresh r Hin) as [_ Hf]. destruct (Hf t Ht) as [Ho _]. apply Ho. exact (conj E1 (conj E2 (conj E3 (conj E4 I)))).

    - intros r Hr Hlr. apply elem_of_union in Hr as [->%elem_of_singleton|Hr]; [done|]. apply Hl; [|done]. by apply elem_of_filter in Hr as [_ ?]. }
  pose proof (tun_only_inv _ _ (del_tun (overlay_addr prefix) (overlay_len prefix) name None sys1 Hn)) as [T1 T2].
  destruct (ip_del _ _ _ _ sys1) as [| |sys2]; cbn [ip_table snd] in *; auto.
Qed.

Lemma remove_overlay_tun name t sys : tun = Some name -> tun_only sys (remove_overlay_route prefix name t sys).
Proof. apply del_tun. Qed.

(** The subnet's route: at most one is there when the task has ended. *)
Lemma subnet_task_kept t looks : table = Some t -> forall n sys, kept sys -> no_local sys ->
  kept (subnet_task (subnet_for_key prefix public_key) t n looks sys) /\
  one_local (subnet_task (subnet_for_key prefix public_key) t n looks sys).
Proof.
  intros Ht. induction looks as [|l looks IH]; intros n sys Hk Hl; cbn [subnet_task]; [by split; [|left]|].
  destruct (sl_shutdown l); [by split; [|left]|].
  assert (forall iface sys1, install_local_subnet_route (subnet_for_key prefix public_key) iface t sys = (true, sys1) ->
    kept sys1 /\ one_local sys1) as Hi.
  { intros iface sys1. unfold install_local_subnet_route. set (o := mkRoute _ _ _ _ _).
    destruct (ip_replace o sys) as [| |sys2] eqn:E; intros [= <-]. apply ip_replace_spec in E as ->.
    assert (forall r, local r <-> same_dest r o) as Hd.
    { intros r. unfold local, selects, same_dest, o. cbn. rewrite Ht. naive_solver. }
    split.
    - intros r Hr Hnl. rewrite elem_of_union, elem_of_singleton, elem_of_filter, <- (Hk r Hr Hnl), <- Hd. split.
      + intros [->|[_ ?]]; [|done]. destruct Hnl. by apply Hd.
      + by right.
    - right. intros r s Hr Hs Lr Ls. apply Hd in Lr, Ls. set_unfold. naive_solver. }
  assert (forall iface sys1, install_local_subnet_route (subnet_for_key prefix public_key) iface t sys = (false, sys1) -> sys1 = sys) as Hf.
  { intros iface sys1. unfold install_local_subnet_route. destruct (ip_replace _ sys); naive_solver. }
  assert (kept sys /\ one_local sys) as Hsame by (by split; [|left]).
  destruct (sl_ifaces l) as [[|iface [|]]|]; try (destruct n; [done|]; destruct (sl_interrupted l); [done|by apply IH]).
  destruct (install_local_subnet_route _ _ _ _) as [[] sys1] eqn:E; [by eapply Hi|]. rewrite (Hf _ _ E).
  destruct n; [done|]. destruct (sl_interrupted l); [done|by apply IH].
Qed.

Lemma remove_subnet_kept t sys : table = Some t -> kept sys -> one_local sys ->
  kept (remove_local_subnet_route (subnet_for_key prefix public_key) t sys) /\
  no_local (remove_local_subnet_route (subnet_for_key prefix public_key) t sys).
Proof.
  intros Ht Hk Ho. unfold remove_local_subnet_route.
  assert (forall r, local r <-> selects (subnet_addr (subnet_for_key prefix public_key)) 64 None (Some t) r) as Hd.
  { intros r. unfold local. rewrite Ht. naive_solver. }
  destruct (ip_del _ _ _ _ sys) as [| |sys1] eqn:E; cbn [ip_table].
  1, 2: split; [done|]; intros r Hr Hlr; apply Hd in Hlr; destruct (ip_del_present _ _ _ _ _ _ Hr Hlr) as [? ?]; congruence.
  apply ip_del_spec in E as (s & Hs & Hsel & ->). apply Hd in Hsel. split.
  - intros r Hr Hnl. rewrite <- (Hk r Hr Hnl). set_unfold. naive_solver.
  - intros r [Hr Hne]%elem_of_difference Hlr. destruct Ho as [Ho|Ho]; [by apply Ho|]. destruct Hne. apply elem_of_singleton. by apply Ho.
Qed.

(** When the interface is gone, the table is the one before. *)
Lemma restored sys : kept sys -> no_local sys -> match tun with Some name => tun_vanishes name sys | None => sys end = sys0.
Proof.
  intros Hk Hl. apply set_eq. intros r.
  assert (tun <> Some (rt_if r) -> r ∈ sys <-> r ∈ sys0) as Hsame.
  { intros Hr. split; intros Hin.
    - apply Hk; [done| |done]. intros Hlr. by apply Hr, Hl.
    - apply Hk; [done| |done]. intros Hlr. apply Hr. by apply (proj2 fresh_kept). }
  destruct tun as [name|]; [|by apply Hsame]. rewrite tun_vanishes_spec. split.
  - intros [Hin Hne]. apply Hsame; [congruence|done].
  - intros Hin. destruct (Hfresh r Hin) as [Hne _]. split; [|congruence]. by apply Hsame.
Qed.
End Restored.

(** ** The system's routes *)

Section Node.
Set Default Proof Using "All".
Context `{HL : HostLaws} `{RL : RouteLaws} `{L : IpNetLaws} `{Deq : EqDecision IpNet} {D : Dalek} {HO : HashOrder} {F T : Type}.
Context (parse_url : str -> ListUrl) (read_list : str -> ListFile) (parse_net : str -> option IpNet).
Context (downloaded : str -> list str) (exclusions : list str) {Ipv6Net : Type} (fw_from_str : string -> option (Firewall.IpNet Ipv6Net)).
Context (host : Host).

Lemma expand_cidrs_returns es cache : exists res cache',
  expand_cidrs parse_url read_list true parse_net false es cache = (Ret res, cache').
Proof.
  unfold expand_cidrs. destruct (resolve_entries _ _ _ es cache) as [[resolved|e] cache']; [|by eexists _, _].
  destruct (parse_entries _ _) as [nets|e]; [|by eexists _, _].
  destruct (expand_entries_exact false nets) as (out & -> & _); [by left|]. by eexists _, _.
Qed.

Lemma collect_install_returns self_key subnets : forall cache cidrs, exists res cache',
  collect_install parse_url read_list true parse_net false downloaded exclusions self_key subnets cache cidrs = (Ret res, cache').
Proof.
  induction subnets as [|[hex l] subnets IH]; intros cache cidrs; cbn [collect_install]; [by eexists _, _|].
  destruct (is_self self_key hex); [apply IH|].
  destruct (expand_cidrs_returns (system_entries true downloaded exclusions hex l) cache) as ([nets|e] & cache' & ->); [apply IH|by eexists _, _].
Qed.

Lemma collect_remove_returns self_key subnets : forall cache cidrs, exists res cache',
  collect_remove parse_url read_list true parse_net false downloaded exclusions self_key subnets cache cidrs = (Ret res, cache').
Proof.
  induction subnets as [|[hex l] subnets IH]; intros cache cidrs; cbn [collect_remove]; [by eexists _, _|].
  destruct (is_self self_key hex); [apply IH|].
  destruct (expand_cidrs_returns (system_entries true downloaded exclusions hex l) cache) as ([nets|e] & cache' & ->); apply IH.
Qed.

Lemma routes_on_tun name table (cidrs : list IpNet) r : r ∈ (list_to_set (route_of true name table <$> cidrs) : gset Route) -> rt_if r = name.
Proof. rewrite elem_of_list_to_set, list_elem_of_fmap. by intros (c & -> & _). Qed.

Lemma system_up_tun public_key name table (config : Config F T) sys : exists st sys' cache,
  system_up parse_url read_list parse_net false downloaded exclusions host public_key (Some name) table config sys = Ret (st, sys', cache) /\
  tun_only (Some name) sys sys'.
Proof.
  unfold system_up. destruct (_ && _ && _) eqn:Eb; [|by eexists _, _, _].
  unfold install_routes. apply andb_prop in Eb as [[-> ->]%andb_prop _]. cbn [negb orb].
  destruct (collect_install_returns public_key (map_iter (tr_remote_subnets (cf_tunnel_routing config))) (hs_cache host) [])
    as ([cidrs|e] & cache & ->); [|by eexists _, _, _].
  destruct cidrs as [|c cidrs]; [by eexists _, _, _|]. destruct (hs_manager_up host); cbn [negb]; [|by eexists _, _, _].
  eexists _, _, _. split; [done|]. cbn [tun_label]. intros r Hr.
  destruct (install_all_spec parse_url true parse_net downloaded exclusions true (route_of true name table <$> c :: cidrs) 0 0 sys) as [I1 I2].
  fold (install_all (route_of true name table <$> c :: cidrs) sys) in I1, I2. split; [|by intros Hin; apply I1].
  intros [Hin|Hin]%I2%elem_of_union; [done|]. apply routes_on_tun in Hin. congruence.
Qed.

Lemma removed_tun public_key name table (config : Config F T) enable install sys cache : exists sys' cache',
  remove_routes parse_url read_list true parse_net false downloaded exclusions true enable install public_key
    (map_iter (tr_remote_subnets (cf_tunnel_routing config))) name table (hs_manager_down host) cache sys = (Ret sys', cache') /\
  tun_only (Some name) sys sys'.
Proof.
  unfold remove_routes. destruct (_ || _); [by eexists _, _|].
  destruct (collect_remove_returns public_key (map_iter (tr_remote_subnets (cf_tunnel_routing config))) cache []) as (cidrs & cache' & ->).
  destruct (hs_manager_down host); cbn [negb]; [|by eexists _, _]. eexists _, _. split; [done|]. intros r Hr.
  rewrite (remove_all_spec parse_url true parse_net downloaded exclusions true), elem_of_difference. split; [by intros [? _]|].
  intros Hin. split; [done|]. intros Hx%routes_on_tun. congruence.
Qed.

(** ** Up and down *)

Lemma kept_start prefix public_key tun table sys0 : fresh prefix public_key tun table sys0 ->
  let sys := match tun with Some name => tun_appears name sys0 | None => sys0 end in
  kept prefix public_key tun table sys0 sys /\ no_local prefix public_key tun table sys.
Proof.
  intros Hf. destruct (fresh_kept _ _ _ _ _ Hf) as [K N]. destruct tun as [name|]; [|done]. cbv zeta.
  assert (tun_only (Some name) sys0 (tun_appears name sys0)) as Ht.
  { intros r Hr. apply tun_appears_spec. congruence. }
  destruct (tun_only_inv _ _ _ _ _ Hf _ _ Ht) as [T1 T2]. auto.
Qed.

Lemma addresses_up_kept prefix public_key tun table (config : Config F T) sys0 sys : fresh prefix public_key tun table sys0 ->
  kept prefix public_key tun table sys0 sys -> no_local prefix public_key tun table sys ->
  let sys' := (addresses_up host tun config sys).2 in
  kept prefix public_key tun table sys0 sys' /\ no_local prefix public_key tun table sys'.
Proof.
  intros Hf K N. unfold addresses_up. destruct tun as [name|]; [|done]. destruct (_ && _); [|done]. cbn [snd].
  assert (tun_only (Some name) sys (tun_addressed name (hs_addresses host) sys)) as Ht.
  { intros r Hr. apply tun_addressed_spec. congruence. }
  destruct (tun_only_inv _ _ _ _ _ Hf _ _ Ht) as [T1 T2]. auto.
Qed.

Lemma overlay_up_kept prefix public_key tun table sys0 sys : fresh prefix public_key tun table sys0 ->
  kept prefix public_key tun table sys0 sys -> no_local prefix public_key tun table sys ->
  let sys' := (overlay_up prefix tun table sys).2 in
  kept prefix public_key tun table sys0 sys' /\ no_local prefix public_key tun table sys'.
Proof.
  intros Hf K N. unfold overlay_up. destruct table as [t|]; [|done]. destruct tun as [name|]; [|done].
  pose proof (install_overlay_kept prefix public_key (Some name) (Some t) sys0 Hf name t sys eq_refl eq_refl K N) as Hk.
  by destruct (install_overlay_route prefix name t sys).
Qed.

Lemma system_up_kept prefix public_key tun table (config : Config F T) sys0 sys : fresh prefix public_key tun table sys0 ->
  wants_tun config = bool_decide (is_Some tun) ->
  kept prefix public_key tun table sys0 sys -> no_local prefix public_key tun table sys ->
  exists st sys' cache, system_up parse_url read_list parse_net false downloaded exclusions host public_key tun table config sys
    = Ret (st, sys', cache) /\ kept prefix public_key tun table sys0 sys' /\ no_local prefix public_key tun table sys'.
Proof.
  intros Hf Hw K N. destruct tun as [name|].
  - destruct (system_up_tun public_key name table config sys) as (st & sys' & cache & -> & Ht).
    destruct (tun_only_inv _ _ _ _ _ Hf _ _ Ht) as [T1 T2]. eexists _, _, _. auto.
  - exists [], sys, (hs_cache host). split; [|done]. unfold system_up. rewrite Hw. by rewrite andb_false_r.
Qed.

Lemma node_up_kept prefix public_key tun table (config : Config F T) sys0 sys : fresh prefix public_key tun table sys0 ->
  wants_tun config = bool_decide (is_Some tun) ->
  kept prefix public_key tun table sys0 sys -> no_local prefix public_key tun table sys ->
  exists st sys' cache, node_up parse_url read_list parse_net false downloaded exclusions host prefix public_key tun table config sys
    = Ret (st, sys', cache) /\ kept prefix public_key tun table sys0 sys' /\ one_local prefix public_key tun table sys'.
Proof.
  intros Hf Hw K N. unfold node_up. destruct (addresses_up_kept prefix public_key tun table config sys0 sys Hf K N) as [K0 N0].
  destruct (addresses_up host tun config sys) as [asg sysa]. cbn [snd] in *.
  destruct (overlay_up_kept prefix public_key tun table sys0 sysa Hf K0 N0) as [K1 N1].
  destruct (overlay_up prefix tun table sysa) as [ov sys1]. cbn [snd] in *.
  destruct (system_up_kept prefix public_key tun table config sys0 sys1 Hf Hw K1 N1) as (st & sys2 & cache & -> & K2 & N2).
  rewrite ret_bind. destruct table as [t|].
  - eexists _, _, _. split; [done|]. by apply (subnet_task_kept _ _ _ _ _ Hf).
  - eexists _, _, _. split; [done|]. split; [done|]. by left.
Qed.

(** Whatever is removed, the table of before is back when the interface has gone. *)
Lemma node_down_restores prefix public_key tun table spawned admin (config : Config F T) cache sys0 sys :
  fresh prefix public_key tun table sys0 -> wants_tun config = bool_decide (is_Some tun) ->
  kept prefix public_key tun table sys0 sys -> one_local prefix public_key tun table sys ->
  exists st, node_down parse_url read_list parse_net false downloaded exclusions host prefix public_key tun table spawned admin config sys cache
    = Ret (st, sys0).
Proof.
  intros Hf Hw K N. unfold node_down.
  match goal with |- context [let '(_, _) := ?x in _] => assert (kept prefix public_key tun table sys0 x.2 /\ no_local prefix public_key tun table x.2) as Hx;
    [|destruct x as [st1 sys1]; cbn [snd] in Hx; destruct Hx as [K1 N1]] end.
  { destruct table as [t|]; [by apply (remove_subnet_kept _ _ _ _ _ Hf)|]. split; [done|]. by intros r Hr (t & ? & _). }
  match goal with |- context [let '(_, _) := ?x in _] => assert (tun_only tun sys1 x.2) as Hx;
    [|destruct x as [st2 sys2]; cbn [snd] in Hx; destruct (tun_only_inv _ _ _ _ _ Hf _ _ Hx) as [T1 T2]] end.
  { destruct table as [t|]; [|done]. destruct tun as [name|]; [|done]. by apply (remove_overlay_tun _ _ _ _ _ Hf). }
  match goal with |- context [mbind _ ?x] => assert (exists st3 sys3, x = Ret (st3, sys3) /\ tun_only tun sys2 sys3) as (st3 & sys3 & -> & Hy) end.
  { destruct (_ && _) eqn:Eb; [|by eexists _, _]. apply andb_prop in Eb as [_ Eb]. rewrite Hw in Eb. apply bool_decide_eq_true in Eb as [name ->].
    edestruct (removed_tun public_key name table config) as (sys3 & c3 & -> & Ht). by eexists _, _. }
  rewrite ret_bind. destruct (tun_only_inv _ _ _ _ _ Hf _ _ Hy) as [U1 U2].
  pose proof (restored _ _ _ _ _ Hf sys3 (U1 (T1 K1)) (U2 (T2 N1))) as Hback. destruct tun; rewrite Hback; by eexists.
Qed.

(** ** What the node itself takes away *)

Opaque overlay_addr overlay_len subnet_addr subnet_for_key.

(** The node's route to the overlay. *)
Definition overlay_route (prefix : Z) (tun : option str) (table : option Z) (r : Route) : Prop :=
  exists name t, tun = Some name /\ table = Some t /\ r = mkRoute false (overlay_addr prefix) (overlay_len prefix) name (Some t).

(** The routes [R] of crypto-key routing are those that will be removed. *)
Definition removable (public_key : PublicKey) (tun : option str) (table : option Z) (config : Config F T) (R : gset Route) (cache : RouteFileCache) : Prop :=
  R = ∅ \/ (tr_enable (cf_tunnel_routing config) && wants_tun config = true /\
    forall sys, (remove_routes parse_url read_list true parse_net false downloaded exclusions true (tr_enable (cf_tunnel_routing config))
      (tr_install_system_routes (cf_tunnel_routing config)) public_key (map_iter (tr_remote_subnets (cf_tunnel_routing config)))
      (tun_label tun config) table true cache sys).1 = Ret (sys ∖ R)).

(** Beside the routes [base], only the node's own. *)
Definition ours (prefix : Z) (public_key : PublicKey) (tun : option str) (table : option Z) (base R sys : gset Route) : Prop :=
  forall r, r ∈ sys -> r ∈ base \/ overlay_route prefix tun table r \/ r ∈ R \/ local prefix public_key table r.

Lemma overlay_up_ours prefix tun table sys r : r ∈ (overlay_up prefix tun table sys).2 -> r ∈ sys \/ overlay_route prefix tun table r.
Proof.
  clear RL L. unfold overlay_up. destruct table as [t|]; [|by left]. destruct tun as [name|]; [|by left].
  unfold install_overlay_route. set (o := mkRoute _ _ _ _ _).
  assert (overlay_route prefix (Some name) (Some t) o) as Ho by (by exists name, t).
  destruct (ip_replace o sys) as [| |sys1] eqn:E; [by left..|]. apply ip_replace_spec in E.
  assert (r ∈ sys1 -> r ∈ sys \/ overlay_route prefix (Some name) (Some t) r) as Hs1.
  { rewrite E. intros [->%elem_of_singleton|[_ ?]%elem_of_filter]%elem_of_union; auto. }
  destruct (ip_del _ _ _ _ sys1) as [| |sys2] eqn:Ed; [done..|]. apply ip_del_spec in Ed as (x & _ & _ & ->).
  cbn [snd]. intros [? _]%elem_of_difference. auto.
Qed.

Lemma system_up_ours public_key tun table (config : Config F T) sys st sys' cache :
  system_up parse_url read_list parse_net false downloaded exclusions host public_key tun table config sys = Ret (st, sys', cache) ->
  exists R, sys' ⊆ sys ∪ R /\ removable public_key tun table config R cache.
Proof.
  unfold system_up. destruct (_ && _ && _) eqn:Eb; [|intros [= <- <- <-]; exists ∅; split; [set_solver|by left]].
  apply andb_prop in Eb as [[E1 E2]%andb_prop E3]. rewrite E1, E2.
  destruct (install_routes _ _ _ _ _ _ _ _ _ _ _ _ _ _ _ _ _) as [[[sys1|e]|] c1] eqn:Ei; intros [= <- <- <-];
    [|exists ∅; split; [set_solver|by left]].
  destruct (hs_manager_up host).
  - destruct (system_routes_reverted parse_url true parse_net downloaded exclusions true read_list _ _ _ _ _ _ _ _ Ei) as (cidrs & _ & Hi & Hd & _). eexists. split; [exact Hi|]. right. split; [by rewrite E1, E3|].
    intros sys2. rewrite E1, E2, Hd; done.
  - exists ∅. split; [|by left]. unfold install_routes in Ei. cbn [negb orb] in Ei.
    destruct (collect_install _ _ _ _ _ _ _ _ _ _ _) as [[[[|n ns]|]|] ?]; try done. injection Ei as <- _. set_solver.
Qed.

Lemma subnet_task_ours prefix public_key t looks r : forall n sys,
  r ∈ subnet_task (subnet_for_key prefix public_key) t n looks sys -> r ∈ sys \/ local prefix public_key (Some t) r.
Proof.
  clear RL L. induction looks as [|l looks IH]; intros n sys; cbn [subnet_task]; [by left|].
  destruct (sl_shutdown l); [by left|].
  assert (forall iface, r ∈ (install_local_subnet_route (subnet_for_key prefix public_key) iface t sys).2 ->
    r ∈ sys \/ local prefix public_key (Some t) r) as Hi.
  { intros iface. unfold install_local_subnet_route. set (o := mkRoute _ _ _ _ _).
    destruct (ip_replace o sys) as [| |sys1] eqn:E; [by left..|]. apply ip_replace_spec in E as ->. cbn [snd].
    intros [->%elem_of_singleton|[_ ?]%elem_of_filter]%elem_of_union; [|by left]. right. by exists t. }
  destruct (sl_ifaces l) as [[|iface [|]]|]; try (destruct n; [by left|]; destruct (sl_interrupted l); [by left|apply IH]).
  specialize (Hi iface). destruct (install_local_subnet_route _ _ _ _) as [[] sys1]; cbn [snd] in Hi; [done|].
  destruct n; [done|]. destruct (sl_interrupted l); [done|]. intros [?|?]%IH; auto.
Qed.

Lemma node_up_ours prefix public_key tun table (config : Config F T) sys st sys' cache :
  node_up parse_url read_list parse_net false downloaded exclusions host prefix public_key tun table config sys = Ret (st, sys', cache) ->
  exists R, ours prefix public_key tun table (addresses_up host tun config sys).2 R sys' /\ removable public_key tun table config R cache.
Proof.
  unfold node_up. destruct (addresses_up host tun config sys) as [asg sysa]. cbn [snd].
  pose proof (overlay_up_ours prefix tun table sysa) as Ho. destruct (overlay_up prefix tun table sysa) as [ov sys1]. cbn [snd] in Ho.
  destruct (system_up _ _ _ _ _ _ _ _ _ _ _ sys1) as [[[sy sys2] c2]|] eqn:Es; [|done]. rewrite ret_bind.
  apply system_up_ours in Es as (R & Hs & Hr).
  assert (ours prefix public_key tun table sysa R sys2) as H2.
  { intros r Hin. apply Hs, elem_of_union in Hin as [?%Ho|?]; [|by right; right; left]. tauto. }
  destruct table as [t|]; intros [= <- <- <-]; exists R; (split; [|done]); [|done].
  intros r [Hin|Hl]%subnet_task_ours; [by apply H2|by right; right; right].
Qed.

(** A route of the node's interface is determined by its destination. *)
Lemma local_unique prefix public_key tun table sys0 sys : fresh prefix public_key tun table sys0 ->
  one_local prefix public_key tun table sys ->
  forall r s, r ∈ sys -> s ∈ sys -> local prefix public_key table r -> local prefix public_key table s -> r = s.
Proof.
  clear. intros _ [Hn|Hu]; [|done]. intros [] [] Hr Hs Lr Ls. pose proof (Hn _ Hr Lr) as H1. pose proof (Hn _ Hs Ls) as H2.
  destruct Lr as (t & -> & A1 & A2 & A3 & A4 & _), Ls as (t' & [= <-] & B1 & B2 & B3 & B4 & _). cbn in *. congruence.
Qed.

Lemma elem_of_when {A} b (x y : A) : x ∈ when b [y] <-> b = true /\ x = y.
Proof. clear. unfold when. destruct b; [rewrite list_elem_of_singleton|rewrite elem_of_nil]; naive_solver. Qed.

(** Each removal takes its route away, if it is the only one of its kind. *)
Lemma subnet_removed prefix public_key t sys :
  (forall r s, r ∈ sys -> s ∈ sys -> local prefix public_key (Some t) r -> local prefix public_key (Some t) s -> r = s) ->
  let sys' := remove_local_subnet_route (subnet_for_key prefix public_key) t sys in
  sys' ⊆ sys /\ forall r, r ∈ sys' -> ~ local prefix public_key (Some t) r.
Proof.
  intros Huniq. cbv zeta. unfold remove_local_subnet_route. destruct (ip_del _ _ _ _ sys) as [| |sys1] eqn:E; cbn [ip_table].
  1, 2: split; [done|]; intros r Hr (t' & [= <-] & Hl); destruct (ip_del_present _ _ _ _ _ _ Hr Hl); congruence.
  apply ip_del_spec in E as (x & Hx & Hsel & ->). split; [set_solver|].
  intros r [Hr Hne]%elem_of_difference Hl. apply Hne, elem_of_singleton. apply Huniq; [done..|]. by exists t.
Qed.

Lemma overlay_removed prefix name t sys : let sys' := remove_overlay_route prefix name t sys in
  sys' ⊆ sys /\ forall r, r ∈ sys' -> ~ overlay_route prefix (Some name) (Some t) r.
Proof.
  cbv zeta. unfold remove_overlay_route. set (o := mkRoute false (overlay_addr prefix) (overlay_len prefix) name (Some t)).
  assert (forall r, overlay_route prefix (Some name) (Some t) r -> r = o) as Ho by (by intros r (n & t' & [= <-] & [= <-] & ->)).
  assert (selects (overlay_addr prefix) (overlay_len prefix) (Some name) (Some t) o) as Hsel.
  { unfold selects. split_and!; reflexivity. }
  destruct (ip_del _ _ _ _ sys) as [| |sys2] eqn:E; cbn [ip_table].
  1, 2: split; [done|]; intros r Hr ->%Ho; destruct (ip_del_present _ _ _ _ _ _ Hr Hsel); congruence.
  apply ip_del_spec in E as (x & Hx & (X1 & X2 & X3 & X4 & X5) & ->). split; [set_solver|].
  assert (x = o) as ->.
  { destruct x as [v4 net len dev tb]. cbn [rt_v4 rt_network rt_len rt_if rt_table from_option] in *. subst. reflexivity. }
  intros r [_ Hne]%elem_of_difference ->%Ho. apply Hne, elem_of_singleton. reflexivity.
Qed.

(** The table when the interface goes. *)
Lemma node_down_clean prefix public_key tun table spawned admin (config : Config F T) cache base R sys st sys' before :
  ours prefix public_key tun table base R sys -> removable public_key tun table config R cache ->
  (forall r s, r ∈ sys -> s ∈ sys -> local prefix public_key table r -> local prefix public_key table s -> r = s) ->
  hs_manager_down host = true ->
  node_down parse_url read_list parse_net false downloaded exclusions host prefix public_key tun table spawned admin config sys cache
    = Ret (st, sys') ->
  TunClosed before ∈ st -> before ⊆ base.
Proof.
  intros Hours Hrem Huniq Hman. unfold node_down.
  match goal with |- context [let '(_, _) := ?x in _] => assert (x.2 ⊆ sys /\ (forall r, r ∈ x.2 -> ~ local prefix public_key table r)
    /\ Forall (eq SubnetRouteRemoved) x.1) as Hx; [|destruct x as [st1 sys1]; cbn [fst snd] in Hx; destruct Hx as (S1 & L1 & G1)] end.
  { destruct table as [t|]; [|split_and!; [done| |constructor]; by intros r _ (t & ? & _)]. cbn [fst snd].
    destruct (subnet_removed prefix public_key t sys Huniq) as [? ?]. split_and!; [assumption..|by repeat constructor]. }
  match goal with |- context [let '(_, _) := ?x in _] => assert (x.2 ⊆ sys1 /\ (forall r, r ∈ x.2 -> ~ overlay_route prefix tun table r)
    /\ Forall (eq OverlayRouteRemoved) x.1) as Hx; [|destruct x as [st2 sys2]; cbn [fst snd] in Hx; destruct Hx as (S2 & L2 & G2)] end.
  { destruct table as [t|]; [|split_and!; [done| |constructor]; by intros r _ (n & t & _ & ? & _)].
    destruct tun as [name|]; [|split_and!; [done| |constructor]; by intros r _ (n & t' & ? & _)]. cbn [fst snd].
    destruct (overlay_removed prefix name t sys1) as [? ?]. split_and!; [assumption..|by repeat constructor]. }
  match goal with |- context [mbind _ ?x] => destruct x as [[st3 sys3]|] eqn:E3; [|done] end. rewrite ret_bind.
  assert (sys3 ⊆ sys2 ∖ R /\ Forall (eq SystemRoutesRemoved) st3) as [S3 G3].
  { rewrite Hman in E3. destruct Hrem as [HR|[Hb Hrm]]; [subst R|rewrite Hb in E3].
    - destruct (_ && _) eqn:Eb; [|injection E3 as <- <-; split; [set_solver|constructor]].
      unfold remove_routes in E3. destruct (_ || _); [injection E3 as <- <-; split; [set_solver|by repeat constructor]|].
      destruct (collect_remove _ _ _ _ _ _ _ _ _ _ _) as [[cidrs|] ?]; [|done]. cbn [negb] in E3. injection E3 as <- <-.
      rewrite (remove_all_spec parse_url true parse_net downloaded exclusions true). split; [set_solver|by repeat constructor].
    - specialize (Hrm sys2). destruct (remove_routes _ _ _ _ _ _ _ _ _ _ _ _ _ _ _ _ _) as [[sys4|] ?]; [|done].
      cbn [fst] in Hrm. injection Hrm as ->. injection E3 as <- <-. split; [done|by repeat constructor]. }
  match goal with |- context [let '(_, _) := ?x in _] => assert (Forall (eq (TunClosed sys3)) x.1) as G4;
    [|destruct x as [st4 sys4]; cbn [fst] in G4] end.
  { destruct tun; by repeat constructor. }
  rewrite Forall_forall in G1, G2, G3, G4. intros [= <- <-] Hin.
  assert (before = sys3) as ->.
  { change (TunClosed before ∈ when spawned [SubnetTaskEnded] ++ st1 ++ st2 ++ st3 ++ st4 ++ [MulticastClosed] ++ when admin [AdminClosed] ++ [CoreClosed]) in Hin.
    rewrite !elem_of_app, !elem_of_when, !list_elem_of_singleton in Hin.
    destruct Hin as [[_ ?]|[?%G1|[?%G2|[?%G3|[Hin%G4|[?|[[_ ?]|?]]]]]]]; try done. by injection Hin as <-. }
  intros r Hr. apply S3, elem_of_difference in Hr as [Hr HnR]. pose proof (L2 r Hr) as Ho. apply S2 in Hr. pose proof (L1 r Hr) as Hl. apply S1 in Hr.
  destruct (Hours r Hr) as [?|[?|[?|?]]]; done.
Qed.

(** ** Closing *)

(** Stages at one end only. *)
Definition opening (s : Stage) : Prop :=
  match s with TunStarted _ _ | AdminStarted => True | _ => False end.
Definition closing (s : Stage) : Prop :=
  match s with TunClosed _ | AdminClosed | SubnetTaskEnded => True | _ => False end.

Lemma node_up_stages prefix public_key tun table (config : Config F T) sys st sys' cache :
  node_up parse_url read_list parse_net false downloaded exclusions host prefix public_key tun table config sys = Ret (st, sys', cache) ->
  Forall (fun s => ~ opening s /\ ~ closing s) st /\ (SubnetTaskSpawned ∈ st <-> is_Some table).
Proof.
  unfold node_up. destruct (addresses_up host tun config sys) as [asg sysa] eqn:Ea.
  assert (Forall (eq CkrAddressesAssigned) asg) as Ha.
  { unfold addresses_up in Ea. destruct tun; [destruct (_ && _)|]; injection Ea as <- <-; repeat constructor. }
  destruct (overlay_up prefix tun table sysa) as [ov sys1] eqn:Eo.
  assert (Forall (fun s => exists b, s = OverlayRouteInstalled b) ov) as Ho.
  { unfold overlay_up in Eo. destruct table, tun; try (injection Eo as <- <-; constructor).
    destruct (install_overlay_route _ _ _ _). injection Eo as <- <-. repeat constructor. by eexists. }
  destruct (system_up _ _ _ _ _ _ _ _ _ _ _ sys1) as [[[sy sys2] c2]|] eqn:Es; [|done]. rewrite ret_bind.
  assert (Forall (fun s => exists b, s = SystemRoutesInstalled b) sy) as Hs.
  { unfold system_up in Es. destruct (_ && _ && _); [|by injection Es as <- <- <-].
    destruct (install_routes _ _ _ _ _ _ _ _ _ _ _ _ _ _ _ _ _) as [[[?|?]|] ?]; try done; injection Es as <- <- <-; repeat constructor; by eexists. }
  rewrite Forall_forall in Ha, Ho, Hs.
  destruct table as [t|]; intros [= <- <- <-]; (split; [apply Forall_forall; intros s Hin|]);
    set_unfold; naive_solver.
Qed.

Lemma node_down_stages prefix public_key tun table spawned admin (config : Config F T) cache sys st sys' :
  node_down parse_url read_list parse_net false downloaded exclusions host prefix public_key tun table spawned admin config sys cache
    = Ret (st, sys') ->
  last st = Some CoreClosed /\ Forall (fun s => ~ opening s /\ s <> SubnetTaskSpawned) st /\
  ((exists routes, TunClosed routes ∈ st) <-> is_Some tun) /\ (AdminClosed ∈ st <-> admin = true) /\ (SubnetTaskEnded ∈ st <-> spawned = true).
Proof.
  unfold node_down.
  match goal with |- context [let '(_, _) := ?x in _] => assert (Forall (eq SubnetRouteRemoved) x.1) as G1;
    [|destruct x as [st1 sys1]; cbn [fst] in G1] end. { destruct table; repeat constructor. }
  match goal with |- context [let '(_, _) := ?x in _] => assert (Forall (eq OverlayRouteRemoved) x.1) as G2;
    [|destruct x as [st2 sys2]; cbn [fst] in G2] end. { destruct table, tun; repeat constructor. }
  match goal with |- context [mbind _ ?x] => destruct x as [[st3 sys3]|] eqn:E3; [|done] end. rewrite ret_bind.
  assert (Forall (eq SystemRoutesRemoved) st3) as G3.
  { destruct (_ && _); [|by injection E3 as <- <-]. destruct (remove_routes _ _ _ _ _ _ _ _ _ _ _ _ _ _ _ _ _) as [[?|] ?]; [|done].
    injection E3 as <- <-. repeat constructor. }
  match goal with |- context [let '(_, _) := ?x in _] => assert (forall s, s ∈ x.1 <-> is_Some tun /\ s = TunClosed sys3) as G4;
    [|destruct x as [st4 sys4]; cbn [fst] in G4] end.
  { intros s. destruct tun; cbn; [rewrite list_elem_of_singleton|rewrite elem_of_nil]; [by split; [|intros [_ ?]]|].
    split; [done|]. by intros [[? ?] _]. }
  rewrite Forall_forall in G1, G2, G3. intros [= <- <-]. split.
  { rewrite !app_comm_cons, !app_assoc. apply last_snoc. }
  assert (forall s, s ∈ when spawned [SubnetTaskEnded] ++ st1 ++ st2 ++ st3 ++ st4
    ++ [MulticastClosed] ++ when admin [AdminClosed] ++ [CoreClosed] <->
    (spawned = true /\ s = SubnetTaskEnded) \/ s ∈ st1 \/ s ∈ st2 \/ s ∈ st3 \/ (is_Some tun /\ s = TunClosed sys3) \/ s = MulticastClosed
    \/ (admin = true /\ s = AdminClosed) \/ s = CoreClosed) as Hin.
  { intros s. rewrite !elem_of_app, !elem_of_when, !list_elem_of_singleton, G4. done. }
  split_and!.
  - apply Forall_forall. intros s Hs. apply Hin in Hs.
    destruct Hs as [[_ ->]|[<-%G1|[<-%G2|[<-%G3|[[_ ->]|[->|[[_ ->]| ->]]]]]]]; (split; [intros []|discriminate]).
  - split; [|intros Ht; exists sys3; apply Hin; tauto]. intros [routes Hr]. apply Hin in Hr.
    destruct Hr as [[_ ?]|[?%G1|[?%G2|[?%G3|[[? _]|[?|[[_ ?]|?]]]]]]]; done.
  - rewrite Hin. specialize (G1 AdminClosed). specialize (G2 AdminClosed). specialize (G3 AdminClosed). clear -G1 G2 G3. intuition discriminate.
  - rewrite Hin. specialize (G1 SubnetTaskEnded). specialize (G2 SubnetTaskEnded). specialize (G3 SubnetTaskEnded). clear -G1 G2 G3. intuition discriminate.
Qed.

(** A run that ended in order: what was opened has been closed, the core last. *)
Definition closed (trace : list Stage) : Prop :=
  last trace = Some CoreClosed /\ ((exists routes, TunClosed routes ∈ trace) <-> exists name mtu, TunStarted name mtu ∈ trace) /\
  (AdminClosed ∈ trace <-> AdminStarted ∈ trace) /\ (SubnetTaskEnded ∈ trace <-> SubnetTaskSpawned ∈ trace).

(** The routes of the host and those that the kernel brings with an interface. *)
Definition host_routes (name : str) (sys : gset Route) (r : Route) : Prop :=
  r ∈ tun_appears name sys \/ r ∈ tun_addressed name (hs_addresses host) (tun_appears name sys).

(** When the interface goes, the node has taken away its own routes. *)
Definition cleaned (trace : list Stage) (sys : gset Route) : Prop :=
  forall name mtu routes, hs_manager_down host = true -> TunStarted name mtu ∈ trace -> TunClosed routes ∈ trace ->
    forall r, r ∈ routes -> host_routes name sys r.

(** The interface of a run, and the table of its rule. *)
Definition tun_of (config : Config F T) : option str := if wants_tun config then hs_tun host else None.
Definition table_of (config : Config F T) : option Z := snd <$> effective (cf_ip_rule config).

Lemma rule_up_table (config : Config F T) : (rule_up host config).2 = table_of config.
Proof. unfold rule_up, table_of. by destruct (effective _) as [[pref lookup]|]. Qed.

Lemma rule_up_stages (config : Config F T) : Forall (fun s => exists b, s = RuleEnsured b) (rule_up host config).1.
Proof. unfold rule_up. destruct (effective _) as [[pref lookup]|]; repeat constructor. by eexists. Qed.

Lemma up_stages prefix public_key tun table (config : Config F T) sys st sys' cache :
  (if hs_shutdown host then Ret ([], sys, hs_cache host)
   else node_up parse_url read_list parse_net false downloaded exclusions host prefix public_key tun table config sys) = Ret (st, sys', cache) ->
  Forall (fun s => ~ opening s /\ ~ closing s) st /\ (SubnetTaskSpawned ∈ st <-> hs_shutdown host = false /\ is_Some table).
Proof.
  destruct (hs_shutdown host).
  - intros [= <- <- <-]. split; [constructor|]. set_unfold. naive_solver.
  - intros [Hf Hs]%node_up_stages. split; [done|]. rewrite Hs. naive_solver.
Qed.

(** The table before the shutdown. *)
Lemma up_ours prefix public_key tun table (config : Config F T) sys st sys' cache :
  (if hs_shutdown host then Ret ([], sys, hs_cache host)
   else node_up parse_url read_list parse_net false downloaded exclusions host prefix public_key tun table config sys) = Ret (st, sys', cache) ->
  exists base R, (base = sys \/ (hs_shutdown host = false /\ base = (addresses_up host tun config sys).2))
    /\ ours prefix public_key tun table base R sys' /\ removable public_key tun table config R cache.
Proof.
  destruct (hs_shutdown host).
  - intros [= <- <- <-]. exists sys, ∅. split_and!; [by left|by left|by left].
  - intros (R & Ho & Hr)%node_up_ours. exists (addresses_up host tun config sys).2, R. split_and!; [by right|done|done].
Qed.

(** What is opened is opened before the rule, what is closed is closed at the end. *)
Lemma stages_ends pre rule up down :
  Forall (fun s => ~ closing s /\ s <> SubnetTaskSpawned) pre -> Forall (fun s => exists b, s = RuleEnsured b) rule ->
  Forall (fun s => ~ opening s /\ ~ closing s) up -> Forall (fun s => ~ opening s /\ s <> SubnetTaskSpawned) down ->
  (forall s, closing s -> s ∈ pre ++ rule ++ up ++ [NotifiedReady] ++ down <-> s ∈ down)
  /\ (forall s, opening s -> s ∈ pre ++ rule ++ up ++ [NotifiedReady] ++ down <-> s ∈ pre)
  /\ (SubnetTaskSpawned ∈ pre ++ rule ++ up ++ [NotifiedReady] ++ down <-> SubnetTaskSpawned ∈ up).
Proof.
  clear. rewrite !Forall_forall. intros P1 R U1 D1. split_and!.
  - intros s Hs. rewrite !elem_of_app, list_elem_of_singleton. split; [|tauto].
    intros [Hi|[Hi|[Hi| [Hi|Hi]]]]; [by destruct (P1 s Hi)|by destruct (R s Hi) as [? ->]|by destruct (U1 s Hi)|by subst|done].
  - intros s Hs. rewrite !elem_of_app, list_elem_of_singleton. split; [|tauto].
    intros [Hi|[Hi|[Hi| [Hi|Hi]]]]; [done|by destruct (R s Hi) as [? ->]|by destruct (U1 s Hi)|by subst|by destruct (D1 s Hi)].
  - rewrite !elem_of_app, list_elem_of_singleton. split; [|tauto].
    intros [Hi|[Hi|[Hi| [Hi|Hi]]]]; [by destruct (P1 _ Hi)|by destruct (R _ Hi)|done|done|by destruct (D1 _ Hi)].
Qed.

Lemma stages_closed pre tun adm rule up down spawned sys :
  Forall (fun s => ~ closing s /\ s <> SubnetTaskSpawned) pre ->
  (forall name, (exists mtu, TunStarted name mtu ∈ pre) <-> tun = Some name) -> (AdminStarted ∈ pre <-> adm = true) ->
  Forall (fun s => exists b, s = RuleEnsured b) rule ->
  Forall (fun s => ~ opening s /\ ~ closing s) up -> (SubnetTaskSpawned ∈ up <-> spawned = true) ->
  last down = Some CoreClosed -> Forall (fun s => ~ opening s /\ s <> SubnetTaskSpawned) down ->
  ((exists routes, TunClosed routes ∈ down) <-> is_Some (tun : option str)) -> (AdminClosed ∈ down <-> adm = true) -> (SubnetTaskEnded ∈ down <-> spawned = true) ->
  (forall name before, tun = Some name -> hs_manager_down host = true -> TunClosed before ∈ down ->
    forall r, r ∈ before -> host_routes name sys r) ->
  closed (pre ++ rule ++ up ++ [NotifiedReady] ++ down) /\ cleaned (pre ++ rule ++ up ++ [NotifiedReady] ++ down) sys.
Proof.
  intros P1 P2 P3 R U1 U2 Hl D1 D2 D3 D4 Hclean. destruct (stages_ends pre rule up down P1 R U1 D1) as (Hc & Ho & Hs). split.
  2: { intros name mtu routes Hm Hst Hcl. apply (Ho (TunStarted name mtu) I) in Hst. apply (Hc (TunClosed routes) I) in Hcl.
       eapply Hclean; [apply P2; by eexists|done|done]. }
  unfold closed. split; [by rewrite !last_app, Hl|].
  rewrite Hs, (Hc AdminClosed I), (Hc SubnetTaskEnded I), (Ho AdminStarted I). split_and!; [|by rewrite D3, P3|by rewrite D4, U2].
  transitivity (exists routes, TunClosed routes ∈ down).
  { split; intros (r & Hi); exists r; by apply (Hc (TunClosed r) I). }
  rewrite D2. split.
  - intros [name Hn]. apply P2 in Hn as [mtu Hi]. exists name, mtu. by apply Ho.
  - intros (n & m & Hi). exists n. apply P2. exists m. by apply (Ho (TunStarted n m) I).
Qed.

(** One run, with its configuration and key. *)
Lemma serve_ends prefix (config : Config F T) key sys (public_key := sk_verifying_key_bytes key) :
  fresh prefix public_key (tun_of config) (table_of config) sys ->
  exists res trace,
    serve parse_url read_list parse_net false downloaded exclusions fw_from_str host prefix config key sys
      = Ret (res, CoreCreated public_key (addr_for_key prefix public_key) :: trace, sys) /\
    (res = Ok tt -> closed (CoreCreated public_key (addr_for_key prefix public_key) :: trace)
       /\ cleaned (CoreCreated public_key (addr_for_key prefix public_key) :: trace) sys).
Proof.
  intros Hf. unfold serve. fold public_key. destruct (_ && _); [by eexists _, _|].
  destruct (wants_tun config && bool_decide (hs_tun host = None)) eqn:Et; [by eexists _, _|]. fold (tun_of config).
  assert (wants_tun config = bool_decide (is_Some (tun_of config))) as Hw.
  { unfold tun_of. destruct (wants_tun config); [|done]. destruct (hs_tun host); [done|]. by rewrite bool_decide_true in Et. }
  destruct (rule_up host config) as [rule table] eqn:Er. pose proof (rule_up_table config) as Ht. pose proof (rule_up_stages config) as Hr.
  rewrite Er in Ht, Hr. cbn [fst snd] in Ht, Hr. subst table.
  destruct (kept_start prefix public_key (tun_of config) (table_of config) sys Hf) as [K N].
  match goal with |- context [mbind _ (if _ then _ else ?x)] =>
    assert (exists up sys1 cache, (if hs_shutdown host then Ret ([], match tun_of config with Some name => tun_appears name sys | None => sys end,
      hs_cache host) else x) = Ret (up, sys1, cache) /\ kept prefix public_key (tun_of config) (table_of config) sys sys1 /\
      one_local prefix public_key (tun_of config) (table_of config) sys1) as (up & sys1 & cache & Eu & K1 & N1) end.
  { destruct (hs_shutdown host); [eexists _, _, _; split; [done|]; split; [done|by left]|]. by apply node_up_kept. }
  rewrite Eu, ret_bind. set (spawned := negb (hs_shutdown host) && bool_decide (is_Some (table_of config))).
  destruct (node_down_restores prefix public_key (tun_of config) (table_of config) spawned (hs_admin_ok host) config cache sys sys1 Hf Hw K1 N1) as [down Ed].
  rewrite Ed, ret_bind.
  assert (forall name before, tun_of config = Some name -> hs_manager_down host = true -> TunClosed before ∈ down ->
    forall r, r ∈ before -> host_routes name sys r) as Hclean.
  { intros name before Hn Hman Hb. destruct (up_ours _ _ _ _ _ _ _ _ _ Eu) as (base & R & Hbase & Ho & Hrm).
    pose proof (node_down_clean _ _ _ _ _ _ _ _ _ _ _ _ _ before Ho Hrm (local_unique _ _ _ _ _ _ Hf N1) Hman Ed Hb) as Hsub.
    intros x Hx. rewrite Hn in Hbase. destruct Hbase as [->|[_ ->]]; [left; by apply Hsub|].
    specialize (Hsub x Hx). unfold addresses_up in Hsub. destruct (_ && _) in Hsub; [by right|by left]. }
  apply up_stages in Eu as [U1 U2]. apply node_down_stages in Ed as (D0 & D1 & D2 & D3 & D4).
  eexists _, _. split; [cbn [app]; reflexivity|]. intros _.
  match goal with |- closed (?c :: ?x :: ?y :: (?pre) ++ _) /\ _ => apply (stages_closed (c :: x :: y :: pre) (tun_of config) (hs_admin_ok host) rule up down spawned sys) end; try done.
  - unfold when. destruct (fc_enable _), (tun_of config), (hs_admin_ok host), (hs_multicast_ok host); cbn [app];
      repeat (constructor; [split; [intros []|discriminate]|]); constructor.
  - intros n. unfold when. destruct (tun_of config) as [name|].
    + split.
      * intros (m & Hin). destruct (fc_enable _), (hs_admin_ok host), (hs_multicast_ok host); cbn [app] in Hin; set_solver.
      * intros [= ->]. eexists _. rewrite !elem_of_cons, !elem_of_app, list_elem_of_singleton. do 4 right. left. by apply list_elem_of_singleton.
    + split; [|done]. intros (m & Hin). destruct (fc_enable _), (hs_admin_ok host), (hs_multicast_ok host); set_solver.
  - unfold when. destruct (hs_admin_ok host).
    + split; [done|]. intros _. rewrite !elem_of_cons, !elem_of_app, list_elem_of_singleton. do 5 right. left. by apply list_elem_of_singleton.
    + split; [|done]. intros Hin. destruct (fc_enable _), (tun_of config), (hs_multicast_ok host); set_solver.
  - rewrite U2. unfold spawned. rewrite andb_true_iff, negb_true_iff, bool_decide_eq_true. done.
Qed.

Context (from_keypair_bytes : bytes -> option SigningKey) (from_toml : str -> option (Config F T)) (env : str -> option str).
Context (fs : FileSystem) (open : path -> OpenResult) (program_name : str).

Lemma load_config_returns pl autoconf config_path : is_Some (load_config from_toml pl env fs open autoconf config_path).
Proof.
  unfold load_config, load_config_file. destruct autoconf; [by eexists|]. destruct (open _); [|by eexists..].
  set (p := Path_new _). destruct (expand_inner_spec fs (2 + size (fs_files fs)) p ∅ []) as (ls & ps & w & E & _).
  { unfold unvisited. rewrite difference_empty_L, size_dom. lia. }
  unfold expand_config_includes. rewrite E. by eexists.
Qed.

(** What the prefix and the peers change is not the key. *)
Lemma node_config_key opt_peers (config : Config F T) ephemeral :
  choose_key from_keypair_bytes env ephemeral (node_config Linux program_name opt_peers config).2
    = choose_key from_keypair_bytes env ephemeral config /\
  (node_config Linux program_name opt_peers config).1 = from_option fst DEFAULT_PREFIX (resolve_prefix_port Linux program_name).
Proof.
  assert (forall c c' : Config F T, cf_private_key c = cf_private_key c' ->
    choose_key from_keypair_bytes env ephemeral c = choose_key from_keypair_bytes env ephemeral c') as Hc.
  { intros c c' E. unfold choose_key, signing_key. by rewrite E. }
  unfold node_config. destruct (resolve_prefix_port Linux program_name) as [[prefix port]|].
  - split; [|done]. apply Hc. unfold apply_prefix_port.
    destruct (rewrite_default_admin_listen _ _); case_bool_decide; by destruct opt_peers.
  - split; [|done]. apply Hc. by destruct opt_peers.
Qed.

(** The configuration of a run, and what the host must not have yet. *)
Definition fresh_for (config_path : str) (m : Matches) (ephemeral : SigningKey) (sys : gset Route) : Prop :=
  forall config key, load_config from_toml Linux env fs open (m_autoconf m) config_path = Some (Ok config) ->
    choose_key from_keypair_bytes env ephemeral config = Ok key ->
    let '(prefix, config) := node_config Linux program_name (m_peers m) config in
    fresh prefix (sk_verifying_key_bytes key) (tun_of config) (table_of config) sys.

Abbreviation run ephemeral := (run_node parse_url read_list parse_net false downloaded exclusions fw_from_str host
  from_keypair_bytes from_toml env fs open program_name ephemeral).

(** C28: A run of the node ends and leaves the routes of the host exactly as they
    were, whether the start failed, was cut short by a shutdown or went through, and
    wherever the subnet's task was when it was aborted. Already before the interface
    goes, the table has no route but the host's and those that the kernel brought with
    the interface, when the route manager works at the end: the node has taken away its
    routes to the overlay, the routed subnets and its own subnet. A run that went through
    has closed what it opened: the interface, the admin socket, the subnet's task, and
    the core last. Conditions: before the run no route uses the interface, and the
    rule's table has none to the overlay or to the node's subnet; the deletion of a
    route that is there succeeds (a failure is only logged, and the route would stay);
    an interface brings routes in the main table only and takes its routes with it; no
    overflow checks. *)
Theorem node_leaves_routes ephemeral config_path m sys (Hfresh : fresh_for config_path m ephemeral sys) :
  exists res trace, run ephemeral config_path m sys = Some (Ret (res, trace, sys)) /\ (res = Ok tt -> closed trace /\ cleaned trace sys).
Proof.
  unfold run_node. destruct (load_config_returns Linux (m_autoconf m) config_path) as [[config|e] El]; rewrite El; cbn [mbind option_bind].
  2: by eexists _, _.
  destruct (node_config_key (m_peers m) config ephemeral) as [Hk _]. specialize (Hfresh config).
  destruct (node_config Linux program_name (m_peers m) config) as [prefix config']. cbn [snd] in Hk. rewrite Hk.
  destruct (choose_key from_keypair_bytes env ephemeral config) as [key|e]; [|by eexists _, _].
  destruct (serve_ends prefix config' key sys) as (res & trace & -> & Hc); [by apply Hfresh|]. eexists _, _. split; [done|exact Hc].
Qed.

(** With a key in the configuration or in the environment, the address that
    [--address] prints is the address of the node when it runs. *)
Theorem shown_address_used CONFIG_TEMPLATE new_keypair_hex ephemeral ephemeral' exists_ create_ok write_ok parse_doc print_doc file stdin
    show_address show_subnet config_path m m' sys config key
    (Hm : m_help m = false /\ m_version m = false /\ m_free m = [] /\ m_base m = None /\ m_genconf m = None /\ m_normalize m = None /\
      m_address m = true /\ m_autoconf m' = m_autoconf m)
    (Hload : load_config from_toml Linux env fs open (m_autoconf m) config_path = Some (Ok config))
    (Hkey : cf_private_key config <> [] \/ is_Some (env (lit "YGGDRASIL_PRIVATE_KEY")))
    (Hchoose : choose_key from_keypair_bytes env ephemeral config = Ok key)
    (Hfresh : fresh_for config_path m' ephemeral' sys) :
  exists address res trace,
    async_main from_keypair_bytes from_toml CONFIG_TEMPLATE Linux env fs open program_name new_keypair_hex ephemeral exists_ create_ok write_ok
      parse_doc print_doc file stdin show_address show_subnet config_path (Some m) = Some (Printed (show_address address ++ [10])) /\
    run ephemeral' config_path m' sys = Some (Ret (res, CoreCreated (sk_verifying_key_bytes key) address :: trace, sys)).
Proof.
  destruct Hm as (M1 & M2 & M3 & M4 & M5 & M6 & M7 & M8).
  assert (choose_key from_keypair_bytes env ephemeral' config = Ok key) as Hch.
  { rewrite <- Hchoose. unfold choose_key. case_bool_decide; [|done]. cbn [negb]. destruct Hkey as [|[k ->]]; done. }
  exists (addr_for_key (from_option fst DEFAULT_PREFIX (resolve_prefix_port Linux program_name)) (sk_verifying_key_bytes key)).
  unfold run_node. destruct (node_config_key (m_peers m') config ephemeral') as [Hk Hp]. specialize (Hfresh config key).
  rewrite M8 in Hfresh |- *. rewrite Hload. cbn [mbind option_bind].
  destruct (node_config Linux program_name (m_peers m') config) as [prefix config']. cbn [fst snd] in Hk, Hp. rewrite Hk, Hch. subst prefix.
  edestruct (serve_ends (from_option fst DEFAULT_PREFIX (resolve_prefix_port Linux program_name)) config' key sys) as (res & trace & -> & _).
  { by apply Hfresh. }
  exists res, trace. split; [|done]. unfold async_main. rewrite M1, M2, M3, M4, M5, M6, M7. cbn [orb].
  unfold show_identity. rewrite Hload. cbn [mbind option_bind]. by rewrite Hchoose, M7.
Qed.
End Node.

(** ** Witnesses *)

(** A host on which everything works: a new interface brings a route to the overlay
    in the main table. *)
#[local] Instance set_host : HostOps := {|
  ip_replace r sys := IpDone ({[r]} ∪ filter (fun s => ~ same_dest s r) sys);
  ip_del net len dev table sys :=
    match List.filter (fun r => negb (rt_v4 r) && (rt_network r =? net) && (rt_len r =? len) && bool_decide (rt_table r = table)
                         && from_option (fun d => bool_decide (rt_if r = d)) true dev) (elements sys) with
    | r :: _ => IpDone (sys ∖ {[r]})
    | [] => IpFailed
    end;
  tun_appears name sys := {[mkRoute false (overlay_addr DEFAULT_PREFIX) 7 name None]} ∪ sys;
  tun_addressed name addresses sys := sys;
  tun_vanishes name sys := filter (fun r => rt_if r <> name) sys
|}.

Lemma set_host_selects net len dev table r :
  negb (rt_v4 r) && (rt_network r =? net) && (rt_len r =? len) && bool_decide (rt_table r = table)
    && from_option (fun d => bool_decide (rt_if r = d)) true dev = true <-> selects net len dev table r.
Proof.
  unfold selects. rewrite !andb_true_iff, negb_true_iff, !Z.eqb_eq, bool_decide_eq_true.
  destruct dev; cbn; [rewrite bool_decide_eq_true|]; tauto.
Qed.

#[local] Instance set_host_laws : HostLaws.
Proof.
  split; cbn.
  - by intros r sys sys' [= <-].
  - intros net len dev table sys sys'. destruct (List.filter _ _) as [|r l] eqn:E; intros [= <-]. exists r.
    assert (In r (r :: l)) as Hin by (by left). rewrite <- E in Hin. apply filter_In in Hin as [Hin Hs].
    split_and!; [by apply elem_of_elements, list_elem_of_In|by apply set_host_selects|done].
  - intros net len dev table sys r Hr Hs. destruct (List.filter _ _) as [|x l] eqn:E; [|by eexists].
    assert (In r []) as []. rewrite <- E. apply filter_In. split; [by apply list_elem_of_In, elem_of_elements|by apply set_host_selects].
  - intros name sys r Hr. rewrite elem_of_union, elem_of_singleton. split; [|by right]. by intros [->|?].
  - done.
  - intros name sys r. rewrite elem_of_union, elem_of_singleton. intros [->|?]; [by right|by left].
  - intros name addresses sys r Hr. by left.
  - intros name sys r. rewrite elem_of_filter. tauto.
Qed.

#[local] Existing Instance toy_dalek.
#[local] Existing Instance id_order.

Definition node_sample : Config unit unit := Config_default <| cf_if_name := lit "tun0" |>
  <| cf_private_key := mjoin (replicate 64 (lit "05")) |>
  <| cf_tunnel_routing := mkTunnelRoutingConfig true true [] [] (list_to_map sample_subnets) true |>.
Definition node_matches (address : bool) : Matches :=
  mkMatches false false false address false false false false None None None None None None [].
Definition node_fs : FileSystem := mkFileSystem (fun _ => CanonNotFound) ∅.
(** The second look finds the interface of the subnet. *)
Definition node_host : Host :=
  mkHost 65535 (Some (lit "tun0")) true true (mkIpRuns (Some []) true) (mkIpRuns (Some []) true) false ∅ true true
    [mkSubnetLook false (Some []) false; mkSubnetLook false (Some [lit "eth0"]) false] [].
Definition node_key (bs : bytes) : option (@SigningKey toy_dalek) := head bs.

Abbreviation node_run := (run_node sample_url sample_list sample_net false (fun _ => []) []
  (fun _ => @None (Firewall.IpNet unit)) node_host node_key (fun _ => Some node_sample) (fun _ => None) node_fs (fun _ => Opened) (lit "yggdrasil")
  7 (lit "y.toml") (node_matches false) sample_routes).

Lemma sample_fresh : fresh_for node_host node_key (fun _ => Some node_sample) (fun _ => None) node_fs (fun _ => Opened) (lit "yggdrasil")
  (lit "y.toml") (node_matches false) 7 sample_routes.
Proof.
  intros config key Hl _. change (@Some (result NodeError (Config unit unit)) (Ok node_sample) = Some (Ok config)) in Hl. injection Hl as <-.
  destruct (node_config _ _ _ node_sample) as [prefix config] eqn:E. intros r Hr. unfold sample_routes in Hr. apply elem_of_singleton in Hr as ->.
  assert (tun_of node_host config = Some (lit "tun0")) as ->.
  { change config with ((prefix, config).2). rewrite <- E. by vm_compute. }
  split; [discriminate|]. intros t _. split; intros [[=] _].
Qed.

(** The routed subnets and the subnet's route come and go. *)
Lemma node_leaves_routes_witness : exists trace, node_run = Some (Ret (Ok tt, trace, sample_routes)) /\ closed trace /\ cleaned node_host trace sample_routes /\
  Exists (fun s => s = SystemRoutesInstalled true) trace.
Proof.
  destruct (node_leaves_routes sample_url sample_list sample_net (fun _ => []) [] (fun _ => @None (Firewall.IpNet unit)) node_host
    node_key (fun _ => Some node_sample) (fun _ => None) node_fs (fun _ => Opened) (lit "yggdrasil") 7 (lit "y.toml") (node_matches false)
    sample_routes sample_fresh) as (res & trace & E & Hc).
  assert (match node_run with
          | Some (Ret (Ok tt, tr, _)) => existsb (fun s => match s with SystemRoutesInstalled b => b | _ => false end) tr
          | _ => false end = true) as Hok by (by vm_compute).
  rewrite E in Hok. destruct res as [[]|]; [|discriminate Hok]. exists trace. split; [exact E|]. split; [by apply Hc|]. split; [by apply Hc|].
  apply existsb_exists in Hok as (s & Hs & Hb). apply Exists_exists. exists s. split; [by apply list_elem_of_In|]. destruct s; try discriminate Hb. cbn in Hb. by rewrite Hb.
Defined.

Lemma shown_address_used_witness : exists address trace,
  async_main node_key (fun _ => Some node_sample) [] Linux (fun _ => None) node_fs (fun _ => Opened) (lit "yggdrasil") [] 3 (fun _ => false) true true
    (fun _ => None) (fun _ => []) (fun _ => None) None id (fun _ => []) (lit "y.toml") (Some (node_matches true)) = Some (Printed (address ++ [10])) /\
  node_run = Some (Ret (Ok tt, CoreCreated (replicate 32 5) address :: trace, sample_routes)).
Proof.
  destruct (shown_address_used sample_url sample_list sample_net (fun _ => []) [] (fun _ => @None (Firewall.IpNet unit)) node_host
    node_key (fun _ => Some node_sample) (fun _ => None) node_fs (fun _ => Opened) (lit "yggdrasil") [] [] 3 7 (fun _ => false) true true
    (fun _ => None) (fun _ => []) (fun _ => None) None id (fun _ => []) (lit "y.toml") (node_matches true) (node_matches false) sample_routes
    node_sample 5) as (address & res & trace & E1 & E2).
  - by split_and!.
  - reflexivity.
  - left. discriminate.
  - vm_compute. reflexivity.
  - exact sample_fresh.
  - exists address, trace. split; [exact E1|].
    assert (match node_run with Some (Ret (Ok tt, _, _)) => true | _ => false end = true) as Hok by (by vm_compute).
    rewrite E2 in Hok |- *. destruct res as [[]|]; [|discriminate Hok]. reflexivity.
Defined.
